(* ===== verification/_CoqProject ===== *)
-Q . S2P
Prelude.v
KString.v
MmapAvl.v
Mmap.v
Resource.v
LockBlocks.v
PosixLock.v
Locks.v
Cred.v
Task.v
TaskProof.v
Bitops.v
Buddy.v
Vsprintf.v
Timer.v
Sem.v
Pipe.v
PipeProof.v
Msg.v
Signal.v
SignalProof.v
Ksem.v
RunQueue.v
Sched.v
SchedProof.v
Exit.v
ExitProof.v
ExitInv.v
ExitSteps.v
ExitMachine.v
ExitOrphan.v
ExitProps.v
Files.v
FilesProof.v
FilesCalls.v
FilesExit.v
FilesProps.v
Slab.v
SlabProof.v
SlabCalls.v
SlabGrow.v
SlabShape.v
SlabProps.v
