(* ===== verification/Prelude.v ===== *)
(** * Verification of core subsystems of the Linux 2.2.1 kernel for the i370

    ** The program and the parts that are modelled

    The repository is the Linux 2.2.1 kernel with a port to the ESA/390.  The
    development models parts of its machine-independent core, and the bit
    operations of the port, as shallow embeddings: a C function is a Rocq function
    on an explicit state, a field of a shared structure is a field of the state, a
    loop is a recursive function, an error is a negative number or a value of an
    option type.  Integers are kept at their width ([u8], [s16], [u32], [s32]
    below) wherever the code can exceed it.

    - [KString]: lib/string.c and lib/ctype.c.  Memory is a map from addresses to
      bytes.
    - [Vsprintf]: lib/vsprintf.c: formatting and reading numbers, formats.
    - [MmapAvl]: mm/mmap_avl.c, the AVL tree of memory areas.
    - [Mmap]: mm/mmap.c, the address space of a process: the list of areas, the
      tree and the cache together, find_vma to do_mmap, do_munmap and sys_brk.
    - [Bitops]: arch/i370/kernel/bitops.c and include/asm-i370/bitops.h.  Its class
      [Bitmap] is what the page allocator relies on; the instance [words_bitmap]
      is the port's implementation.
    - [Buddy]: mm/page_alloc.c, the page allocator, on any [Bitmap].
    - [Resource]: kernel/resource.c, the table of I/O port regions.
    - [LockBlocks], [PosixLock], [Locks]: fs/locks.c: the circular lists of blocked
      requests; the algebra of POSIX locks on one list (posix_lock_file's surgery);
      the whole state with sleeping, waking, deadlock detection, flock, fcntl and
      mandatory locks.
    - [Cred]: the ids and capabilities of a process (kernel/sys.c,
      kernel/capability.c) and the cache of users (kernel/fork.c), with a state
      monad and a program logic for it.
    - [Task], [TaskProof]: the process table (kernel/fork.c, kernel/exit.c,
      kernel/sys.c): get_pid, do_fork, release, process groups, sessions,
      priorities, capability calls; the proofs are in the second file.  It uses
      [Cred] for the caller's credentials and for the charge of a new process.
    - [Timer]: kernel/sched.c, the timer wheel.
    - [Sem]: ipc/sem.c and ipc/util.c, System V semaphores.
    - [Msg]: ipc/msg.c, System V message queues.
    - [Pipe], [PipeProof]: fs/pipe.c and fs/fifo.c, pipes and fifos, with the points
      at which the calls sleep.
    - [Signal], [SignalProof]: kernel/signal.c and arch/i370/kernel/signal.c: posting,
      queueing and taking signals, the calls on masks, actions and job control.
    - [Ksem]: include/asm-i370/semaphore.h with kernel/sched.c, the semaphores of the
      kernel, one step for each access to memory.
    - [RunQueue], [Sched], [SchedProof]: kernel/sched.c: the circular list of runnable
      processes and the wait queues; schedule, the clock tick, wake-ups, the scheduling
      calls, nice and fork's share.
    - [Exit], with its proofs in [ExitProof], [ExitInv], [ExitSteps], [ExitMachine],
      [ExitOrphan], [ExitProps]: kernel/exit.c: the family of processes as the pointers
      p_cptr, p_osptr and p_ysptr, do_exit, orphaned process groups, wait4, and the
      changes of parent by ptrace.  It uses [Signal] for the signals and the states of
      the processes.
    - [Files], with its proofs in [FilesProof], [FilesCalls], [FilesExit], [FilesProps]:
      fs/file_table.c, fs/fcntl.c and the descriptors of fs/open.c, kernel/fork.c,
      kernel/exit.c and fs/exec.c: open files, and tables of descriptors that processes
      can share.  It uses the bitmaps of [Bitops].
    - [Slab], with its proofs in [SlabProof], [SlabCalls], [SlabGrow], [SlabShape],
      [SlabProps]: mm/slab.c: the layout that kmem_cache_create computes, and one cache
      of objects: its chain of slabs and the words that link free objects in memory,
      growing, allocation, freeing, shrinking and reaping.  The chain is a ring as in
      [RunQueue]; pages and structures from other caches are arguments.

    ** What the theorems show

    - Address space: do_munmap and do_mmap refine operations on a map from pages
      to mappings; the tree stays balanced, sorted and equal to the list; find_vma
      by cache, tree or list is the linear search; get_unmapped_area is a first
      fit; merging areas is invisible; sys_brk; page tables freed by do_munmap are
      unused when an area lies below the range.
    - Page allocator: an allocation takes exactly an aligned block of free pages
      and fails only if no block suits; freeing gives exactly the block back,
      coalesced; the free pages determine the queues, so that freeing undoes
      allocating; the bitmaps are large enough.
    - File locks: the surgery of posix_lock_file sets exactly the requested range, and
      in every reachable state no two owners hold conflicting locks and the waits-for
      graph has no cycle, both for requests that do not extend to the largest offset a
      type that their owner has already; the deadlock search ends and is exact.
    - Processes and credentials: in every reachable state the table, the hash and
      the counters agree, for user ids of 16 bits and forks while no process has two
      consecutive ids; get_pid ends, with a fresh pid when no process has two
      consecutive ids; ids and capabilities are confined; the set*id calls answer
      EPERM exactly when they must.
    - Timers: the wheel refines a set of timers with due dates; run_timer_list
      ends and calls exactly the functions that are due, in order, if they set timers
      only for later.
    - Semaphores and message queues: a semop takes effect as a whole or not at all;
      every reachable state is consistent; the messages of each type leave the
      queue in the order they were sent, none twice, and none is lost in a queue of
      less than 2^16.
    - Pipes: in every interleaving of readers and writers a pipe is a queue of bytes; a
      write of at most PIPE_BUF bytes is atomic; no wake-up is lost.
    - Signals: SIGKILL and SIGSTOP can be neither blocked nor caught in any reachable
      state, sigpending and the queues are exact (no signal that is pending and blocked
      being forced); sending on every path; while SIGKILL is pending, the end of each
      system call exits the process or starts the handler of a lower signal.
    - Kernel semaphores: never more processes inside than the value allows, unless a
      waiter gives up just as another process releases; in every interleaving no
      wake-up is lost.
    - Scheduler: schedule picks the first process of the greatest weight; the run queue
      holds exactly the runnable processes; among ordinary processes that compute, each
      gets its turn; setscheduler on every path.
    - Exit and wait: the links of the family are exact in every reachable state; do_exit
      (not of init) ends and hands the children on; wait4 on every path; no dead child
      of its own is missed by a process that sleeps in wait4; no process group that is orphaned stays stopped.
    - Open files: every count is the exact number of references in every interleaving,
      with calls of open in progress, as long as no limit of descriptors is negative; dup2 on every path; exec closes exactly the
      marked descriptors; the last reference, and only the last, releases a file.
    - Caches of objects: the layout computed for every size, offset and flags keeps
      all objects within the pages of the slab; in every reachable state, with growth
      in progress, the slabs are one chain in the order full, partial, free, counts
      and free lists are exact and the objects in use are those handed out, unless
      kmem_cache_shrink has left its pointer dangling; an
      allocation never overlaps an object in use, and needs pages only if no free
      object suits.
    - Libraries: memmove with overlap, the first zero bit, the little-endian bitmap
      calls, the layout of a formatted number and reading it back.

    A refinement is stated against a small abstract model defined beside the theorem
    (page maps in [Mmap], owner maps in [PosixLock], sequences in [LockBlocks], timed
    sets with [abs_run] in [Timer]).  State machines are inductive step relations with
    invariants over their reachable states ([Locks], [Task], [Sem], [Cred], [Msg],
    [Pipe], [Signal], [Ksem], [Sched], [ExitMachine], [FilesProps], [SlabProps]).  The
    components are proved apart: where one calls another it uses its definitions and
    lemmas, or has its answer as an argument.

    ** Fuel

    Loops that are not structural carry fuel, and it is shown to be enough: the AVL
    routines walk a stack of 41 entries, deeper than a balanced tree of the areas of a
    process; the deadlock search needs one step for each waiter; flock searches at
    most once more than the list is long; get_pid passes over the list at most 2 *
    PID_MAX + 2 times; the free loop runs once for each order and the search for a
    zero bit once for each word; a number of 32 bits has at most 32 digits; the format
    loop uses up the format; run_timer_list takes one turn for each tick and, when
    timer functions set timers only for later, at most one inner step for each timer
    that is due.  The loop that takes signals at the end of a system call has one
    element of its environment for each turn.  A wait
    queue or the run queue is walked with one step for each entry; the loop of
    exit_notify over the children and the search of wait4 take one step for each
    child, so that the length of the process list is enough; a word of descriptors has
    32 bits; the order of a slab is at most 5, and a search among the slabs of a cache
    takes one step for each.  String routines state the fuel that their string needs.

    ** What is not modelled

    Locking and interrupts: each function runs to completion, except where it sleeps
    (file locks, semaphores, message queues, pipes, wait4, open, growing a cache), and
    except in [Ksem], where the steps of all processors interleave, in the
    compare-and-swap loops of [Bitops], which have an interference argument, and in
    schedule, where interrupts can come at the two places that allow them.  The user
    memory that calls copy from and to is an argument that says whether the copy
    fails.

    Left out: drivers, file systems on disk, networking, page faults and page tables
    beyond what do_munmap frees, shared memory segments, swapping (an argument of the
    page allocator), program loading, the assembler of the port and all other
    machines, whose behaviour depends on hardware or on code that is not in the
    sources; names, inodes and blocks of the virtual file system, which mostly call
    the file systems; constructors of objects, and the choice of the cache to reap;
    the interval timers and time calls, printk's buffer, sysctl and modules, which
    mostly copy between kernel and user memory. *)

From stdpp Require Export base tactics numbers list sorting gmap fin_maps strings.
From Stdlib Require Export ZifyBool.
From Stdlib Require Import ZArith.

#[global] Open Scope Z_scope.

(** ** Machine integers

    The target is a 32-bit machine: [char] 8, [short] 16, [int] and [long]
    32 bits.  An integer is a [Z]; the width is imposed where the C code
    stores into an object of that type. *)

Definition u8 (z : Z) : Z := z mod 2 ^ 8.

Definition u16 (z : Z) : Z := z mod 2 ^ 16.

Definition u32 (z : Z) : Z := z mod 2 ^ 32.

Definition s8 (z : Z) : Z := (z + 2 ^ 7) mod 2 ^ 8 - 2 ^ 7.

Definition s16 (z : Z) : Z := (z + 2 ^ 15) mod 2 ^ 16 - 2 ^ 15.

Definition s32 (z : Z) : Z := (z + 2 ^ 31) mod 2 ^ 32 - 2 ^ 31.

(** ** Error codes (include/asm-i370/errno.h) *)

Definition EPERM : Z := 1.
Definition ENOENT : Z := 2.
Definition ESRCH : Z := 3.
Definition EINTR : Z := 4.
Definition ENXIO : Z := 6.
Definition E2BIG : Z := 7.
Definition EBADF : Z := 9.
Definition ECHILD : Z := 10.
Definition EAGAIN : Z := 11.
Definition ENOMEM : Z := 12.
Definition EACCES : Z := 13.
Definition EFAULT : Z := 14.
Definition EBUSY : Z := 16.
Definition EEXIST : Z := 17.
Definition EINVAL : Z := 22.
Definition ENFILE : Z := 23.
Definition EFBIG : Z := 27.
Definition ENOSPC : Z := 28.
Definition ESPIPE : Z := 29.
Definition EPIPE : Z := 32.
Definition ERANGE : Z := 34.
Definition EDEADLK : Z := 35.
Definition ENOLCK : Z := 37.
Definition ENOSYS : Z := 38.
Definition ENOMSG : Z := 42.
Definition EIDRM : Z := 43.
Definition ERESTARTSYS : Z := 512.

(** ** Automation *)

Create HintDb kernel.
Create Rewrite HintDb kernel.

(** [bool_hyps] turns boolean connectives in the hypotheses into the
    propositions they decide. *)
Ltac bool_hyps :=
  repeat match goal with
  | H : _ && _ = true |- _ => apply andb_true_iff in H; destruct H
  | H : _ || _ = false |- _ => apply orb_false_iff in H; destruct H
  | H : negb _ = true |- _ => apply negb_true_iff in H
  | H : negb _ = false |- _ => apply negb_false_iff in H
  | H : bool_decide _ = true |- _ => apply bool_decide_eq_true_1 in H
  | H : bool_decide _ = false |- _ => apply bool_decide_eq_false_1 in H
  end.

(** [case_ifs] splits every conditional and match of the goal. *)
Ltac case_ifs := repeat (case_match; bool_hyps; simplify_eq/=).

(** [case_ifs_in H] splits every conditional and match of the hypothesis. *)
Ltac case_ifs_in H :=
  repeat (match type of H with
          | context [match ?x with _ => _ end] => destruct x eqn:?
          end; bool_hyps; simplify_eq/=).

(** [by_decide] proves a decidable statement by evaluation. *)
Ltac by_decide :=
  match goal with
  | |- ?P => apply (bool_decide_eq_true_1 P); vm_compute; reflexivity
  end.

(** ** Integers *)

Lemma u32_range z : 0 <= u32 z < 2 ^ 32.
Proof. apply Z.mod_pos_bound. lia. Qed.

Lemma u32_id z : 0 <= z < 2 ^ 32 -> u32 z = z.
Proof. apply Z.mod_small. Qed.

Lemma u8_range z : 0 <= u8 z < 256.
Proof. apply Z.mod_pos_bound. lia. Qed.

Lemma u8_id z : 0 <= z < 256 -> u8 z = z.
Proof. apply Z.mod_small. Qed.

Lemma s32_range z : - 2 ^ 31 <= s32 z < 2 ^ 31.
Proof. unfold s32. pose proof (Z.mod_pos_bound (z + 2 ^ 31) (2 ^ 32)). lia. Qed.

Lemma s32_id z : - 2 ^ 31 <= z < 2 ^ 31 -> s32 z = z.
Proof. intros. unfold s32. rewrite Z.mod_small; lia. Qed.

Lemma s8_id z : - 128 <= z < 128 -> s8 z = z.
Proof. intros. unfold s8. rewrite Z.mod_small; lia. Qed.

Lemma s8_zero_iff a b : 0 <= a < 256 -> 0 <= b < 256 -> s8 (a - b) = 0 <-> a = b.
Proof.
  intros Ha Hb. unfold s8. change (2 ^ 8) with 256. change (2 ^ 7) with 128.
  pose proof (Z.div_mod (a - b + 128) 256 ltac:(lia)).
  pose proof (Z.mod_pos_bound (a - b + 128) 256 ltac:(lia)). lia.
Qed.

#[export] Hint Resolve u32_range u8_range s32_range : kernel.
#[export] Hint Rewrite u32_id u8_id s32_id s8_id using lia : kernel.

(** ** Lists *)

Lemma NoDup_fmap_filter {A B} (f : A -> B) (P : A -> Prop) `{!forall x, Decision (P x)} (l : list A) :
  NoDup (f <$> l) -> NoDup (f <$> filter P l).
Proof.
  induction l as [|x l IH]; simpl; [done|]. intros [Hx Hl]%NoDup_cons. rewrite filter_cons.
  case_decide; [|by apply IH]. simpl. apply NoDup_cons. split; [|by apply IH].
  intros (y & Hy & [_ Hin]%list_elem_of_filter)%list_elem_of_fmap. apply Hx.
  apply list_elem_of_fmap. eauto.
Qed.

Lemma filter_none {A} (P : A -> Prop) `{!forall x, Decision (P x)} (l : list A) :
  Forall (fun x => ~ P x) l -> filter P l = [].
Proof. induction 1; simpl; [done|]. by rewrite filter_cons_False. Qed.

Lemma filter_all {A} (P : A -> Prop) `{!forall x, Decision (P x)} (l : list A) :
  Forall P l -> filter P l = l.
Proof. induction 1; simpl; [done|]. rewrite filter_cons_True by done. by f_equal. Qed.

Lemma filter_absent (l : list Z) x : x ∉ l -> filter (fun y => y <> x) l = l.
Proof. intros Hx. apply filter_all, Forall_forall. by intros y Hy ->. Qed.

(** ** Sums over a finite map

    A counter of the kernel is the sum, over the objects that it counts, of what
    each contributes. *)

Definition msum {A} (f : A -> Z) (m : gmap Z A) : Z := map_fold (fun _ x n => f x + n) 0 m.

Section msum.
  Context {A : Type}.
  Implicit Types (f : A -> Z) (m : gmap Z A).

Lemma msum_insert f m k x : m !! k = None -> msum f (<[k := x]> m) = f x + msum f m.
Proof. intros. unfold msum. rewrite map_fold_insert_L; [done| |done]. intros; lia. Qed.

Lemma msum_delete f m k x : m !! k = Some x -> msum f (delete k m) = msum f m - f x.
Proof.
  intros Hk. pose proof (msum_insert f (delete k m) k x (lookup_delete_eq m k)) as He.
  rewrite insert_delete_id in He by done. lia.
Qed.

Lemma msum_update f m k x y : m !! k = Some x -> msum f (<[k := y]> m) = msum f m - f x + f y.
Proof.
  intros Hk. rewrite <-(insert_delete_eq m k y), msum_insert by apply lookup_delete_eq.
  rewrite (msum_delete f m k x Hk). lia.
Qed.

Lemma msum_fmap f m (g : A -> A) : (forall x, f (g x) = f x) -> msum f (g <$> m) = msum f m.
Proof.
  intros Hg. induction m as [|k x m Hk _ IH] using map_first_key_ind; [by rewrite fmap_empty|].
  rewrite fmap_insert, !msum_insert by (rewrite ?lookup_fmap, ?Hk; done). rewrite Hg, IH. lia.
Qed.

Lemma msum_nonneg f m : (forall x, 0 <= f x) -> 0 <= msum f m.
Proof.
  intros Hf. induction m as [|k x m Hk _ IH] using map_first_key_ind; [done|].
  rewrite msum_insert by done. specialize (Hf x). lia.
Qed.

Lemma msum_ge f m k x : (forall x, 0 <= f x) -> m !! k = Some x -> f x <= msum f m.
Proof. intros Hf Hk. pose proof (msum_nonneg f (delete k m) Hf). rewrite (msum_delete f m k x Hk) in H. lia. Qed.

Lemma msum_zero f m : (forall x, 0 <= f x) -> msum f m = 0 -> forall k x, m !! k = Some x -> f x = 0.
Proof. intros Hf H0 k x Hk. pose proof (msum_ge f m k x Hf Hk). specialize (Hf x). lia. Qed.

End msum.
