(* ===== verification/KString.v ===== *)
(** * lib/string.c and lib/ctype.c: the generic string and memory routines

    Memory is a total map from addresses to bytes.  Loops that run until a
    NUL byte carry fuel; each correctness theorem states the fuel that is
    enough and that the call returns.  Pointer results are addresses, with 0
    for NULL.  [char] arithmetic is written out at its width: the result of a
    comparison is stored in a [signed char] by the source. *)

From S2P Require Import Prelude.

(** ** Memory *)

Definition mem := Z -> Z.

Definition upd (m : mem) (a v : Z) : mem := fun x => if x =? a then u8 v else m x.

Definition byte_mem (m : mem) : Prop := forall a, 0 <= m a < 256.

Definition NULL : Z := 0.

(** ** lib/ctype.c and include/linux/ctype.h *)

Module Ctype.

Definition _U : Z := 0x01.
Definition _L : Z := 0x02.
Definition _D : Z := 0x04.
Definition _C : Z := 0x08.
Definition _P : Z := 0x10.
Definition _S : Z := 0x20.
Definition _X : Z := 0x40.
Definition _SP : Z := 0x80.

Definition _ctype : list Z :=
  replicate 9 _C ++ replicate 5 (Z.lor _C _S) ++ replicate 18 _C
  ++ [Z.lor _S _SP] ++ replicate 15 _P ++ replicate 10 _D ++ replicate 7 _P
  ++ replicate 6 (Z.lor _U _X) ++ replicate 20 _U ++ replicate 6 _P
  ++ replicate 6 (Z.lor _L _X) ++ replicate 20 _L ++ replicate 4 _P ++ [_C]
  ++ replicate 32 0
  ++ [Z.lor _S _SP] ++ replicate 31 _P
  ++ replicate 23 _U ++ [_P] ++ replicate 7 _U ++ [_L]
  ++ replicate 23 _L ++ [_P] ++ replicate 8 _L.

Definition ismask (x : Z) : Z := nth (Z.to_nat (u8 x)) _ctype 0.

Definition isdigit (c : Z) : bool := negb (Z.land (ismask c) _D =? 0).

Definition islower (c : Z) : bool := negb (Z.land (ismask c) _L =? 0).

Definition isupper (c : Z) : bool := negb (Z.land (ismask c) _U =? 0).

Definition isspace (c : Z) : bool := negb (Z.land (ismask c) _S =? 0).

Definition isxdigit (c : Z) : bool := negb (Z.land (ismask c) (Z.lor _D _X) =? 0).

Definition tolower (c : Z) : Z := if isupper c then u8 (c - (65 - 97)) else c.

Definition toupper (c : Z) : Z := if islower c then u8 (c - (97 - 65)) else c.

End Ctype.

(** ** lib/string.c: searching and measuring *)

Fixpoint strlen_loop (fuel : nat) (m : mem) (sc : Z) : option Z :=
  match fuel with
  | O => None
  | S f => if m sc =? 0 then Some sc else strlen_loop f m (sc + 1)
  end.

Definition strlen (fuel : nat) (m : mem) (s : Z) : option Z :=
  sc ← strlen_loop fuel m s; Some (sc - s).

Fixpoint strnlen_loop (count : nat) (m : mem) (sc : Z) : Z :=
  match count with
  | O => sc
  | S n => if m sc =? 0 then sc else strnlen_loop n m (sc + 1)
  end.

Definition strnlen (m : mem) (s : Z) (count : nat) : Z := strnlen_loop count m s - s.

Fixpoint strchr (fuel : nat) (m : mem) (s c : Z) : option Z :=
  match fuel with
  | O => None
  | S f =>
    if m s =? u8 c then Some s
    else if m s =? 0 then Some NULL
    else strchr f m (s + 1) c
  end.

Fixpoint strrchr_loop (n : nat) (m : mem) (s p c : Z) : Z :=
  if m p =? u8 c then p
  else match n with
       | O => NULL
       | S n' => strrchr_loop n' m s (p - 1) c
       end.

Definition strrchr (fuel : nat) (m : mem) (s c : Z) : option Z :=
  len ← strlen fuel m s;
  Some (strrchr_loop (Z.to_nat len) m s (s + len) c).

Fixpoint strspn_inner (fuel : nat) (m : mem) (p a : Z) : option Z :=
  match fuel with
  | O => None
  | S f =>
    if m a =? 0 then Some a
    else if m p =? m a then Some a
    else strspn_inner f m p (a + 1)
  end.

Fixpoint strspn_loop (fuel inner : nat) (m : mem) (p accept count : Z) : option Z :=
  match fuel with
  | O => None
  | S f =>
    if m p =? 0 then Some count
    else a ← strspn_inner inner m p accept;
         if m a =? 0 then Some count
         else strspn_loop f inner m (p + 1) accept (count + 1)
  end.

Definition strspn (fuel : nat) (m : mem) (s accept : Z) : option Z :=
  strspn_loop fuel fuel m s accept 0.

Fixpoint strpbrk_loop (fuel inner : nat) (m : mem) (sc1 ct : Z) : option Z :=
  match fuel with
  | O => None
  | S f =>
    if m sc1 =? 0 then Some NULL
    else sc2 ← strspn_inner inner m sc1 ct;
         if m sc2 =? 0 then strpbrk_loop f inner m (sc1 + 1) ct
         else Some sc1
  end.

Definition strpbrk (fuel : nat) (m : mem) (cs ct : Z) : option Z :=
  strpbrk_loop fuel fuel m cs ct.

(** ** lib/string.c: comparing *)

Fixpoint strcmp (fuel : nat) (m : mem) (cs ct : Z) : option Z :=
  match fuel with
  | O => None
  | S f =>
    let __res := s8 (m cs - m ct) in
    if negb (__res =? 0) || (m cs =? 0) then Some __res
    else strcmp f m (cs + 1) (ct + 1)
  end.

Fixpoint strncmp_loop (count : nat) (m : mem) (cs ct __res : Z) : Z :=
  match count with
  | O => __res
  | S n =>
    let __res := s8 (m cs - m ct) in
    if negb (__res =? 0) || (m cs =? 0) then __res
    else strncmp_loop n m (cs + 1) (ct + 1) __res
  end.

Definition strncmp (m : mem) (cs ct : Z) (count : nat) : Z :=
  strncmp_loop count m cs ct 0.

Fixpoint strnicmp_loop (len : nat) (m : mem) (s1 s2 : Z) : Z * Z :=
  let c1 := m s1 in
  let c2 := m s2 in
  let next (c : Z * Z) :=
    match len with
    | O => c
    | S n => match n with O => c | S _ => strnicmp_loop n m (s1 + 1) (s2 + 1) end
    end in
  if c1 =? 0 then (c1, c2)
  else if c2 =? 0 then (c1, c2)
  else if c1 =? c2 then next (c1, c2)
  else let c1 := Ctype.tolower c1 in
       let c2 := Ctype.tolower c2 in
       if negb (c1 =? c2) then (c1, c2) else next (c1, c2).

Definition strnicmp (m : mem) (s1 s2 : Z) (len : nat) : Z :=
  let '(c1, c2) := match len with O => (0, 0) | _ => strnicmp_loop len m s1 s2 end in
  c1 - c2.

Fixpoint memcmp_loop (count : nat) (m : mem) (su1 su2 res : Z) : Z :=
  match count with
  | O => res
  | S n =>
    let res := s8 (m su1 - m su2) in
    if negb (res =? 0) then res else memcmp_loop n m (su1 + 1) (su2 + 1) res
  end.

Definition memcmp (m : mem) (cs ct : Z) (count : nat) : Z :=
  memcmp_loop count m cs ct 0.

Fixpoint memscan (size : nat) (m : mem) (p c : Z) : Z :=
  match size with
  | O => p
  | S n => if m p =? c then p else memscan n m (p + 1) c
  end.

Fixpoint strstr_loop (n : nat) (m : mem) (s1 s2 : Z) (l2 : nat) : Z :=
  match n with
  | O => NULL
  | S n' => if memcmp m s1 s2 l2 =? 0 then s1 else strstr_loop n' m (s1 + 1) s2 l2
  end.

Definition strstr (fuel : nat) (m : mem) (s1 s2 : Z) : option Z :=
  l2 ← strlen fuel m s2;
  if l2 =? 0 then Some s1
  else l1 ← strlen fuel m s1;
       Some (strstr_loop (Z.to_nat (l1 - l2 + 1)) m s1 s2 (Z.to_nat l2)).

(** ** lib/string.c: copying and filling *)

Fixpoint strcpy_loop (fuel : nat) (m : mem) (dest src : Z) : option mem :=
  match fuel with
  | O => None
  | S f =>
    let m' := upd m dest (m src) in
    if m' dest =? 0 then Some m' else strcpy_loop f m' (dest + 1) (src + 1)
  end.

Definition strcpy (fuel : nat) (m : mem) (dest src : Z) : option (mem * Z) :=
  m' ← strcpy_loop fuel m dest src; Some (m', dest).

Fixpoint strncpy_loop (count : nat) (m : mem) (dest src : Z) : mem :=
  match count with
  | O => m
  | S n =>
    let m' := upd m dest (m src) in
    if m' dest =? 0 then m' else strncpy_loop n m' (dest + 1) (src + 1)
  end.

Definition strncpy (m : mem) (dest src : Z) (count : nat) : mem * Z :=
  (strncpy_loop count m dest src, dest).

Definition strcat (fuel : nat) (m : mem) (dest src : Z) : option (mem * Z) :=
  d ← strlen_loop fuel m dest;
  m' ← strcpy_loop fuel m d src;
  Some (m', dest).

Fixpoint strncat_loop (count : nat) (m : mem) (dest src : Z) : mem :=
  match count with
  | O => m
  | S n =>
    let m' := upd m dest (m src) in
    if m' dest =? 0 then m'
    else match n with
         | O => upd m' (dest + 1) 0
         | S _ => strncat_loop n m' (dest + 1) (src + 1)
         end
  end.

Definition strncat (fuel : nat) (m : mem) (dest src : Z) (count : nat) : option (mem * Z) :=
  match count with
  | O => Some (m, dest)
  | S _ => d ← strlen_loop fuel m dest; Some (strncat_loop count m d src, dest)
  end.

Fixpoint memset_loop (count : nat) (m : mem) (xs c : Z) : mem :=
  match count with
  | O => m
  | S n => memset_loop n (upd m xs c) (xs + 1) c
  end.

Definition memset (m : mem) (s c : Z) (count : nat) : mem * Z :=
  (memset_loop count m s c, s).

Fixpoint copy_up (count : nat) (m : mem) (tmp s : Z) : mem :=
  match count with
  | O => m
  | S n => copy_up n (upd m tmp (m s)) (tmp + 1) (s + 1)
  end.

Fixpoint copy_down (count : nat) (m : mem) (tmp s : Z) : mem :=
  match count with
  | O => m
  | S n => copy_down n (upd m (tmp - 1) (m (s - 1))) (tmp - 1) (s - 1)
  end.

Definition bcopy (m : mem) (src dest count : Z) : mem * Z :=
  (copy_up (Z.to_nat (u32 count)) m dest src, dest).

Definition memcpy (m : mem) (dest src : Z) (count : nat) : mem * Z :=
  (copy_up count m dest src, dest).

Definition memmove (m : mem) (dest src : Z) (count : nat) : mem * Z :=
  if dest <=? src then (copy_up count m dest src, dest)
  else (copy_down count m (dest + Z.of_nat count) (src + Z.of_nat count), dest).

(** ** lib/string.c: tokenising, with its static cursor [___strtok] *)

Record strtok_state := StrtokState { st_mem : mem; ___strtok : Z }.

Definition strtok (fuel : nat) (st : strtok_state) (s ct : Z) : option (strtok_state * Z) :=
  let m := st_mem st in
  let sbegin := if negb (s =? NULL) then s else ___strtok st in
  if sbegin =? NULL then Some (st, NULL)
  else
    n ← strspn fuel m sbegin ct;
    let sbegin := sbegin + n in
    if m sbegin =? 0 then Some (StrtokState m NULL, NULL)
    else
      send ← strpbrk fuel m sbegin ct;
      let '(m, send) :=
        if negb (send =? NULL) && negb (m send =? 0)
        then (upd m send 0, send + 1) else (m, send) in
      Some (StrtokState m send, sbegin).

(** ** Predicates of the specifications *)

(** The NUL-terminated string [l] is stored at [s]. *)
Fixpoint cstr (m : mem) (s : Z) (l : list Z) : Prop :=
  match l with
  | [] => m s = 0
  | c :: l' => m s = c /\ c <> 0 /\ cstr m (s + 1) l'
  end.

(** [m'] is [m] with [count] bytes at [dest] replaced by those at [src]. *)
Definition moved (m m' : mem) (dest src : Z) (count : nat) : Prop :=
  forall a, m' a = if (dest <=? a) && (a <? dest + Z.of_nat count)
                   then m (src + (a - dest)) else m a.

(** The two areas agree byte for byte. *)
Definition same_bytes (m : mem) (a b : Z) (n : nat) : Prop :=
  forall i : nat, (i < n)%nat -> m (a + Z.of_nat i) = m (b + Z.of_nat i).

(** The elements of [l] up to the first one in (or outside) a delimiter set. *)
Fixpoint span_out (d l : list Z) : list Z :=
  match l with
  | [] => []
  | c :: l' => if bool_decide (c ∈ d) then [] else c :: span_out d l'
  end.

Fixpoint skip_in (d l : list Z) : list Z :=
  match l with
  | [] => []
  | c :: l' => if bool_decide (c ∈ d) then skip_in d l' else l
  end.

(** ** Lemmas on memory *)

Lemma upd_eq m a v : 0 <= v < 256 -> upd m a v a = v.
Proof. intros. unfold upd. rewrite Z.eqb_refl. by apply u8_id. Qed.

Lemma upd_ne m a b v : a <> b -> upd m a v b = m b.
Proof. intros. unfold upd. destruct (Z.eqb_spec b a); congruence. Qed.

Lemma upd_byte m a v : byte_mem m -> byte_mem (upd m a v).
Proof. intros H b. unfold upd. case_match; [apply u8_range | apply H]. Qed.

#[export] Hint Resolve upd_byte : kernel.

Lemma cstr_ext m m' s l :
  (forall a, s <= a <= s + Z.of_nat (length l) -> m' a = m a) -> cstr m s l -> cstr m' s l.
Proof.
  revert s. induction l as [|c l IH]; intros s E; simpl in *.
  - intros <-. apply E. lia.
  - intros (<- & ? & H). split; [|split; [done|]]. { apply E. lia. }
    apply IH; [|done]. intros a Ha. apply E. lia.
Qed.

Lemma cstr_app m s l1 l2 :
  cstr m s (l1 ++ l2) -> cstr m (s + Z.of_nat (length l1)) l2.
Proof.
  revert s. induction l1 as [|c l1 IH]; intros s; simpl.
  - by rewrite Z.add_0_r.
  - intros (_ & _ & H). replace (s + _) with (s + 1 + Z.of_nat (length l1)) by lia. eauto.
Qed.

Lemma cstr_lookup m s l i c :
  cstr m s l -> l !! i = Some c -> m (s + Z.of_nat i) = c /\ c <> 0.
Proof.
  revert s i. induction l as [|x l IH]; intros s i; [done|]. simpl. intros (? & ? & H) Hi.
  destruct i as [|i]; simplify_eq/=.
  - by rewrite Z.add_0_r.
  - replace (s + _) with (s + 1 + Z.of_nat i) by lia. eauto.
Qed.

Lemma cstr_end m s l : cstr m s l -> m (s + Z.of_nat (length l)) = 0.
Proof. intros H. rewrite <-(app_nil_r l) in H. by apply cstr_app in H. Qed.

Lemma copy_up_moved n m dest src :
  byte_mem m -> dest <= src \/ src + Z.of_nat n <= dest ->
  moved m (copy_up n m dest src) dest src n.
Proof.
  revert m dest src. induction n as [|n IH]; intros m dest src Hm Hd a.
  - case_match; simpl; [lia|done].
  - simpl. rewrite IH; [|by auto with kernel|lia].
    repeat case_match; try lia.
    + rewrite upd_ne by lia. f_equal. lia.
    + replace a with dest by lia. rewrite upd_eq by apply Hm. f_equal. lia.
    + rewrite upd_ne by lia. done.
Qed.

Lemma copy_down_moved n m dest src :
  byte_mem m -> src <= dest ->
  moved m (copy_down n m (dest + Z.of_nat n) (src + Z.of_nat n)) dest src n.
Proof.
  revert m dest src. induction n as [|n IH]; intros m dest src Hm Hd a.
  - case_match; simpl; [lia|done].
  - simpl. replace (dest + _ - 1) with (dest + Z.of_nat n) by lia.
    replace (src + _ - 1) with (src + Z.of_nat n) by lia.
    rewrite IH; [|by auto with kernel|lia].
    repeat case_match; try lia.
    + rewrite upd_ne by lia. done.
    + replace a with (dest + Z.of_nat n) by lia. rewrite upd_eq by apply Hm. f_equal. lia.
    + rewrite upd_ne by lia. done.
Qed.

Lemma strlen_loop_cstr fuel m s l :
  cstr m s l -> (length l < fuel)%nat -> strlen_loop fuel m s = Some (s + Z.of_nat (length l)).
Proof.
  revert s fuel. induction l as [|c l IH]; intros s [|fuel] H ?; simpl in *; try lia.
  - rewrite H. simpl. f_equal. lia.
  - destruct H as (-> & ? & H). destruct (Z.eqb_spec c 0); [done|].
    rewrite IH by (done || lia). f_equal. lia.
Qed.

Lemma strlen_cstr fuel m s l :
  cstr m s l -> (length l < fuel)%nat -> strlen fuel m s = Some (Z.of_nat (length l)).
Proof. intros. unfold strlen. erewrite strlen_loop_cstr by done. simpl. f_equal. lia. Qed.

Lemma strcpy_loop_copy fuel m dest src l :
  byte_mem m -> cstr m src l -> (length l < fuel)%nat ->
  dest <= src \/ src + Z.of_nat (length l) < dest ->
  strcpy_loop fuel m dest src = Some (copy_up (S (length l)) m dest src).
Proof.
  revert fuel m dest src. induction l as [|c l IH]; intros [|fuel] m dest src Hm H Hf Hd;
    simpl in *; try lia; rewrite upd_eq by apply Hm.
  - by rewrite H.
  - destruct H as (E & ? & H). rewrite E. destruct (Z.eqb_spec c 0); [done|].
    rewrite <-E. apply IH; try lia; [auto with kernel|].
    apply (cstr_ext m); [|done]. intros a ?. rewrite upd_ne; [done|lia].
Qed.

Lemma moved_cstr m m' dest src l :
  moved m m' dest src (S (length l)) -> cstr m src l -> cstr m' dest l.
Proof.
  intros Hm. revert dest src Hm. assert (forall dest src,
    (forall i : nat, (i <= length l)%nat -> m' (dest + Z.of_nat i) = m (src + Z.of_nat i)) ->
    cstr m src l -> cstr m' dest l) as G.
  { induction l as [|c l IH]; intros dest src E; simpl in *.
    - intros <-. specialize (E O). rewrite !Z.add_0_r in E. by apply E.
    - intros (<- & ? & H). split; [|split; [done|]].
      + specialize (E O). rewrite !Z.add_0_r in E. apply E. lia.
      + apply (IH _ (src + 1)); [|done]. intros i ?.
        specialize (E (S i) ltac:(lia)).
        by replace (dest + 1 + _) with (dest + Z.of_nat (S i)) by lia;
          replace (src + 1 + _) with (src + Z.of_nat (S i)) by lia. }
  intros dest src Hm. apply G. intros i ?. rewrite Hm. case_match; [|lia]. f_equal. lia.
Qed.

Lemma memcmp_same m a b n : byte_mem m -> memcmp m a b n = 0 <-> same_bytes m a b n.
Proof.
  intros Hm. unfold memcmp. revert a b. induction n as [|n IH]; intros a b; simpl.
  { split; [|done]. intros _ i ?. lia. }
  destruct (Z.eqb_spec (s8 (m a - m b)) 0) as [E|E]; simpl.
  - rewrite E, (IH (a + 1) (b + 1)). rewrite s8_zero_iff in E by apply Hm.
    split; intros H i Hi.
    + destruct i as [|i]; [by rewrite !Z.add_0_r|].
      specialize (H i ltac:(lia)).
      by replace (a + Z.of_nat (S i)) with (a + 1 + Z.of_nat i) by lia;
        replace (b + Z.of_nat (S i)) with (b + 1 + Z.of_nat i) by lia.
    + specialize (H (S i) ltac:(lia)).
      by replace (a + 1 + Z.of_nat i) with (a + Z.of_nat (S i)) by lia;
        replace (b + 1 + Z.of_nat i) with (b + Z.of_nat (S i)) by lia.
  - split; [done|]. intros H. destruct E. apply s8_zero_iff; [apply Hm..|].
    specialize (H O ltac:(lia)). by rewrite !Z.add_0_r in H.
Qed.

Lemma strstr_loop_spec n m s1 s2 l2 :
  byte_mem m -> 0 < s1 ->
  (strstr_loop n m s1 s2 l2 = NULL /\
     forall k : nat, (k < n)%nat -> ~ same_bytes m (s1 + Z.of_nat k) s2 l2) \/
  (exists k : nat, (k < n)%nat /\ strstr_loop n m s1 s2 l2 = s1 + Z.of_nat k /\
     same_bytes m (s1 + Z.of_nat k) s2 l2 /\
     forall j : nat, (j < k)%nat -> ~ same_bytes m (s1 + Z.of_nat j) s2 l2).
Proof.
  intros Hm. revert s1. induction n as [|n IH]; intros s1 Hs; simpl.
  { left. split; [done|]. lia. }
  destruct (Z.eqb_spec (memcmp m s1 s2 l2) 0) as [E|E]; rewrite memcmp_same in E by done.
  { right. exists O. rewrite Z.add_0_r. repeat split; [lia|done|lia]. }
  assert (forall j : nat, s1 + 1 + Z.of_nat j = s1 + Z.of_nat (S j)) as R by lia.
  destruct (IH (s1 + 1) ltac:(lia)) as [[-> H]|(k & ? & -> & H & H')].
  - left. split; [done|]. intros [|k] ?; [by rewrite Z.add_0_r|].
    rewrite <-R. apply H. lia.
  - right. exists (S k). rewrite R in *. repeat split; [lia|done|].
    intros [|j] ?; [by rewrite Z.add_0_r|]. rewrite <-R. apply H'. lia.
Qed.

Lemma strspn_inner_spec fuel m p a d :
  cstr m a d -> (length d < fuel)%nat ->
  exists a', strspn_inner fuel m p a = Some a' /\
    (m a' =? 0) = negb (bool_decide (m p ∈ d)).
Proof.
  revert fuel a. induction d as [|c d IH]; intros [|fuel] a H Hf; simpl in *; try lia.
  - rewrite H. exists a. split; [done|]. by rewrite H.
  - destruct H as (E & ? & H). rewrite E. destruct (Z.eqb_spec c 0); [done|].
    destruct (Z.eqb_spec (m p) c) as [E'|E'].
    + exists a. split; [done|]. rewrite bool_decide_true by set_solver. simpl. lia.
    + destruct (IH fuel _ H ltac:(lia)) as (a' & -> & Ea). exists a'. split; [done|].
      rewrite Ea. f_equal. apply bool_decide_ext. rewrite elem_of_cons. naive_solver.
Qed.

Lemma skip_in_length d l : (length (skip_in d l) <= length l)%nat.
Proof. induction l; simpl; [lia|]. case_match; simpl; lia. Qed.

Lemma span_out_length d l : (length (span_out d l) <= length l)%nat.
Proof. induction l; simpl; [lia|]. case_match; simpl; lia. Qed.

Lemma skip_in_suffix d l : l = take (length l - length (skip_in d l)) l ++ skip_in d l.
Proof.
  induction l as [|c l IH]; simpl; [done|]. case_match.
  - pose proof (skip_in_length d l).
    replace (S (length l) - _)%nat with (S (length l - length (skip_in d l))) by lia.
    simpl. by f_equal.
  - simpl length. by rewrite Nat.sub_diag.
Qed.

Lemma span_out_prefix d l : l = span_out d l ++ drop (length (span_out d l)) l.
Proof. induction l as [|c l IH]; simpl; [done|]. case_match; simpl; [done|]. by f_equal. Qed.

Lemma strspn_loop_spec fuel inner m p accept count l d :
  cstr m p l -> cstr m accept d -> (length l < fuel)%nat -> (length d < inner)%nat ->
  strspn_loop fuel inner m p accept count
  = Some (count + Z.of_nat (length l - length (skip_in d l))).
Proof.
  revert fuel p count. induction l as [|c l IH]; intros [|fuel] p count H Ha Hf Hi;
    simpl in *; try lia.
  - rewrite H. simpl. f_equal. lia.
  - destruct H as (E & ? & H). rewrite E. destruct (Z.eqb_spec c 0); [done|].
    destruct (strspn_inner_spec inner m p accept d Ha Hi) as (a' & -> & Ea). simpl.
    rewrite Ea, E. destruct (bool_decide (c ∈ d)); simpl.
    + rewrite IH by (done || lia). pose proof (skip_in_length d l). f_equal. lia.
    + f_equal. lia.
Qed.

Lemma strpbrk_loop_spec fuel inner m p ct l d :
  cstr m p l -> cstr m ct d -> (length l < fuel)%nat -> (length d < inner)%nat ->
  strpbrk_loop fuel inner m p ct
  = Some (if (length (span_out d l) <? length l)%nat
          then p + Z.of_nat (length (span_out d l)) else NULL).
Proof.
  revert fuel p. induction l as [|c l IH]; intros [|fuel] p H Ha Hf Hi; simpl in *; try lia.
  - by rewrite H.
  - destruct H as (E & ? & H). rewrite E. destruct (Z.eqb_spec c 0); [done|].
    destruct (strspn_inner_spec inner m p ct d Ha Hi) as (a' & -> & Ea). simpl.
    rewrite Ea, E. destruct (bool_decide (c ∈ d)); simpl.
    + f_equal. lia.
    + rewrite IH by (done || lia). f_equal. repeat case_match; lia.
Qed.

(** Cutting a string with a NUL byte leaves a shorter string. *)
Lemma cstr_cut m s l1 l2 :
  cstr m s (l1 ++ l2) -> cstr (upd m (s + Z.of_nat (length l1)) 0) s l1.
Proof.
  revert s. induction l1 as [|c l1 IH]; intros s; simpl.
  - intros _. by rewrite Z.add_0_r, upd_eq by lia.
  - intros (? & ? & H). split; [|split; [done|]].
    + rewrite upd_ne; [done|lia].
    + replace (s + _) with (s + 1 + Z.of_nat (length l1)) by lia. by apply IH.
Qed.

Lemma strcmp_cstr fuel m cs ct l1 l2 :
  byte_mem m -> cstr m cs l1 -> cstr m ct l2 -> (length l1 < fuel)%nat ->
  exists r, strcmp fuel m cs ct = Some r /\ (r = 0 <-> l1 = l2).
Proof.
  intros Hm. revert fuel cs ct l2.
  induction l1 as [|c l1 IH]; intros [|fuel] cs ct l2 H1 H2 Hf; simpl in *; try lia;
    destruct (Z.eqb_spec (s8 (m cs - m ct)) 0) as [E|E]; simpl;
    rewrite s8_zero_iff in E by apply Hm.
  - rewrite H1. exists (s8 (0 - m ct)). split; [done|]. rewrite <-E, H1. split; [|done].
    intros _. destruct l2; [done|]. simpl in H2. lia.
  - eexists. split; [done|]. rewrite s8_zero_iff by apply Hm. split; [done|].
    intros <-. simpl in *. lia.
  - destruct H1 as (<- & ? & H1). destruct (Z.eqb_spec (m cs) 0); [done|].
    destruct l2 as [|c2 l2]; simpl in H2; [lia|]. destruct H2 as (<- & ? & H2).
    destruct (IH fuel _ _ l2 H1 H2 ltac:(lia)) as (r & -> & Hr). exists r.
    split; [done|]. rewrite Hr, E. split; congruence.
  - eexists. split; [done|]. rewrite s8_zero_iff by apply Hm. split; [done|].
    intros <-. simpl in *. lia.
Qed.

(** ** Properties *)

(** [memmove] is correct for every overlap of the two areas: afterwards
    the [count] bytes at [dest] are those that were at [src] before the call,
    and no other byte has changed; the result is [dest]. *)
Theorem memmove_correct m dest src count :
  byte_mem m ->
  exists m', memmove m dest src count = (m', dest) /\ moved m m' dest src count.
Proof.
  intros Hm. unfold memmove. destruct (Z.leb_spec dest src).
  - eexists. split; [done|]. apply copy_up_moved; [done|lia].
  - eexists. split; [done|]. apply copy_down_moved; [done|lia].
Qed.

Lemma memmove_correct_witness :
  byte_mem (fun a => u8 a) /\
  exists m', memmove (fun a => u8 a) 12 10 5 = (m', 12) /\ moved (fun a => u8 a) m' 12 10 5.
Proof.
  split; [intros a; apply u8_range|].
  apply memmove_correct. intros a. apply u8_range.
Defined.

(** [strcpy] of a string [l] returns within [length l + 1] iterations,
    stores exactly the string and its terminator at [dest] and changes nothing
    else, provided [dest] does not point into the source behind its start. *)
Lemma strcpy_correct m dest src l :
  byte_mem m -> cstr m src l -> dest <= src \/ src + Z.of_nat (length l) < dest ->
  exists m', strcpy (S (length l)) m dest src = Some (m', dest) /\
    cstr m' dest l /\ moved m m' dest src (S (length l)).
Proof.
  intros Hm Hs Hd. unfold strcpy. rewrite (strcpy_loop_copy _ _ _ _ l) by (done || lia).
  eexists. split; [done|].
  assert (moved m (copy_up (S (length l)) m dest src) dest src (S (length l))) as Hv
    by (apply copy_up_moved; [done|lia]).
  split; [|done]. by apply (moved_cstr m _ _ src).
Qed.

(** A memory holding the bytes of [l] from address [s] on, zero elsewhere. *)
Definition mem_of (s : Z) (l : list Z) : mem :=
  fun a => if a <? s then 0 else u8 (nth (Z.to_nat (a - s)) l 0).

Lemma mem_of_byte s l : byte_mem (mem_of s l).
Proof. intros a. unfold mem_of. case_match; [lia|]. apply u8_range. Qed.

Lemma strcpy_correct_witness :
  exists m', strcpy 4 (mem_of 100 [72; 105; 33]) 99 100 = Some (m', 99) /\
    cstr m' 99 [72; 105; 33] /\ moved (mem_of 100 [72; 105; 33]) m' 99 100 4.
Proof.
  apply (strcpy_correct _ 99 100 [72; 105; 33]); [apply mem_of_byte| |simpl; lia].
  vm_compute. repeat split; discriminate.
Defined.

(** [strcmp] of two strings returns, and returns 0 exactly when they are
    equal. *)
Lemma strcmp_zero_iff_equal fuel m cs ct l1 l2 :
  byte_mem m -> cstr m cs l1 -> cstr m ct l2 -> (length l1 < fuel)%nat ->
  exists r, strcmp fuel m cs ct = Some r /\ (r = 0 <-> l1 = l2).
Proof. apply strcmp_cstr. Qed.

Lemma strcmp_zero_iff_equal_witness :
  exists r, strcmp 4 (mem_of 100 [65; 0; 65; 66; 0]) 100 102 = Some r /\
    (r = 0 <-> [65] = [65; 66]).
Proof.
  apply (strcmp_zero_iff_equal 4 _ 100 102 [65] [65; 66]);
    [apply mem_of_byte| | |simpl; lia]; vm_compute; repeat split; discriminate.
Defined.

(** [strstr] returns; with an empty needle it returns the haystack,
    otherwise it returns the address of the first occurrence of the needle, and
    NULL exactly when there is none. *)
Theorem strstr_first_occurrence fuel m s1 s2 l1 l2 :
  byte_mem m -> 0 < s1 -> cstr m s1 l1 -> cstr m s2 l2 ->
  (length l1 < fuel)%nat -> (length l2 < fuel)%nat ->
  exists p, strstr fuel m s1 s2 = Some p /\
    ((p = NULL /\ l2 <> [] /\ forall k : nat, (k + length l2 <= length l1)%nat ->
        ~ same_bytes m (s1 + Z.of_nat k) s2 (length l2)) \/
     (exists k : nat, p = s1 + Z.of_nat k /\ (k + length l2 <= length l1)%nat /\
        same_bytes m p s2 (length l2) /\
        forall j : nat, (j < k)%nat -> ~ same_bytes m (s1 + Z.of_nat j) s2 (length l2))).
Proof.
  intros Hm Hs H1 H2 F1 F2. unfold strstr. rewrite (strlen_cstr _ _ s2 l2) by done. simpl.
  destruct (Z.eqb_spec (Z.of_nat (length l2)) 0) as [E|E].
  { exists s1. split; [done|]. right. exists O. rewrite Z.add_0_r.
    repeat split; [lia| |lia]. intros i ?. lia. }
  rewrite (strlen_cstr _ _ s1 l1) by done. simpl. rewrite Nat2Z.id. eexists. split; [done|].
  set (n := Z.to_nat _). destruct (strstr_loop_spec n m s1 s2 (length l2) Hm Hs)
    as [[-> H]|(k & ? & -> & H & H')].
  - left. repeat split; [by intros ->|]. intros k ?. apply H. lia.
  - right. exists k. repeat split; [lia|done..].
Qed.

Lemma strstr_first_occurrence_witness :
  exists p, strstr 9 (mem_of 100 [65; 66; 65; 66; 67; 0; 65; 66; 67; 0]) 100 106 = Some p /\
    ((p = NULL /\ [65; 66; 67] <> [] /\ forall k : nat, (k + 3 <= 5)%nat ->
        ~ same_bytes (mem_of 100 [65; 66; 65; 66; 67; 0; 65; 66; 67; 0])
            (100 + Z.of_nat k) 106 3) \/
     (exists k : nat, p = 100 + Z.of_nat k /\ (k + 3 <= 5)%nat /\
        same_bytes (mem_of 100 [65; 66; 65; 66; 67; 0; 65; 66; 67; 0]) p 106 3 /\
        forall j : nat, (j < k)%nat ->
          ~ same_bytes (mem_of 100 [65; 66; 65; 66; 67; 0; 65; 66; 67; 0])
              (100 + Z.of_nat j) 106 3)).
Proof.
  apply (strstr_first_occurrence 9 _ 100 106 [65; 66; 65; 66; 67] [65; 66; 67]);
    [apply mem_of_byte|lia| | |simpl; lia|simpl; lia]; vm_compute; repeat split; discriminate.
Defined.

(** One call of [strtok] on a string [l] (the argument, or the saved
    cursor when the argument is NULL) skips the leading delimiters [d]; if
    nothing is left it returns NULL and clears the cursor; otherwise it returns
    the longest run of non-delimiters as a NUL-terminated string, and the
    cursor is NULL at the end of the input or holds the rest of the string
    behind the delimiter it overwrote, the only byte it changes. *)
Theorem strtok_splits fuel m tok s ct l d :
  let sb := if s =? NULL then tok else s in
  let l' := skip_in d l in
  let t := span_out d l' in
  let p := sb + Z.of_nat (length l - length l') in
  0 < sb -> cstr m sb l -> cstr m ct d -> (length l < fuel)%nat -> (length d < fuel)%nat ->
  exists st', strtok fuel (StrtokState m tok) s ct
              = Some (st', match l' with [] => NULL | _ => p end) /\
    match l' with
    | [] => st' = StrtokState m NULL
    | _ => cstr (st_mem st') p t /\
        (if (length t <? length l')%nat
         then ___strtok st' = p + Z.of_nat (length t) + 1 /\
              cstr (st_mem st') (___strtok st') (drop (S (length t)) l')
         else ___strtok st' = NULL) /\
        forall a, a <> p + Z.of_nat (length t) -> st_mem st' a = m a
    end.
Proof.
  intros sb l' t p Hsb Hl Hd Fl Fd. unfold strtok. simpl st_mem. simpl ___strtok.
  replace (if negb (s =? NULL) then s else tok) with sb by (unfold sb; by destruct (s =? NULL)).
  destruct (Z.eqb_spec sb NULL) as [E|_]; [unfold NULL in E; lia|].
  unfold strspn. rewrite (strspn_loop_spec _ _ _ _ _ _ l d) by done. simpl mbind.
  rewrite Z.add_0_l. fold l'. fold p.
  pose proof (skip_in_length d l) as Hlen. fold l' in Hlen.
  assert (cstr m p l') as Hp.
  { pose proof Hl as H. rewrite (skip_in_suffix d l) in H. apply cstr_app in H.
    fold l' in H. rewrite length_take, Nat.min_l in H by lia. done. }
  destruct l' as [|c l''] eqn:El; cbn [option_bind mbind].
  { simpl in Hp. rewrite Hp. eauto. }
  pose proof Hp as Hp0. destruct Hp0 as (Ec & Hc & _). rewrite Ec.
  destruct (Z.eqb_spec c 0) as [|_]; [done|].
  unfold strpbrk. rewrite (strpbrk_loop_spec _ _ _ _ _ (c :: l'') d) by (done || simpl in *; lia).
  fold t. cbn [option_bind mbind].
  pose proof (span_out_prefix d (c :: l'')) as Hpre. fold t in Hpre.
  destruct (Nat.ltb_spec (length t) (length (c :: l''))) as [Hlt|Hge].
  - assert (exists x, (c :: l'') !! length t = Some x) as [x Hx] by (by apply lookup_lt_is_Some_2).
    pose proof (cstr_lookup _ _ _ _ _ Hp Hx) as [Ex Hx0].
    destruct (Z.eqb_spec (p + Z.of_nat (length t)) NULL) as [E|_].
    { unfold NULL in E. unfold p in E. lia. }
    rewrite Ex. destruct (Z.eqb_spec x 0) as [|_]; [done|]. simpl. eexists. split; [done|].
    simpl st_mem. simpl ___strtok. split; [|split; [split; [done|]|]].
    + apply (cstr_cut m p t (drop (length t) (c :: l''))). by rewrite <-Hpre.
    + rewrite Hpre in Hp. rewrite (drop_S _ x) in Hp by done.
      apply cstr_app in Hp. destruct Hp as (_ & _ & Hp).
      apply (cstr_ext m); [|done]. intros a ?. rewrite upd_ne; [done|lia].
    + intros a ?. rewrite upd_ne; [done|lia].
  - cbn [negb andb Z.eqb NULL]. eexists. split; [done|]. cbn [st_mem ___strtok].
    split; [|done]. rewrite (drop_ge (c :: l'')), app_nil_r in Hpre by lia. by rewrite <-Hpre.
Qed.

Lemma strtok_splits_witness :
  exists st', strtok 9 (StrtokState (mem_of 100 [44; 65; 66; 44; 67; 0; 44; 0]) 0) 100 106
              = Some (st', 101) /\
    cstr (st_mem st') 101 [65; 66] /\
    (___strtok st' = 104 /\ cstr (st_mem st') (___strtok st') [67]) /\
    forall a, a <> 103 -> st_mem st' a = mem_of 100 [44; 65; 66; 44; 67; 0; 44; 0] a.
Proof.
  apply (strtok_splits 9 _ 0 100 106 [44; 65; 66; 44; 67] [44]);
    [simpl; lia | | |simpl; lia|simpl; lia]; vm_compute; repeat split; discriminate.
Defined.

(** The sign of [memcmp] is not the byte order: the difference of two
    bytes is truncated to [signed char], so a byte at least 128 larger than the
    other one gives a negative result. *)
Lemma memcmp_sign_truncated m a b n :
  byte_mem m -> m b + 128 <= m a -> memcmp m a b (S n) < 0.
Proof.
  intros Hm H. pose proof (Hm a). pose proof (Hm b). unfold memcmp. simpl.
  assert (s8 (m a - m b) = m a - m b - 256) as ->.
  { unfold s8. rewrite (Z.mod_eq _ (2 ^ 8)) by lia.
    replace ((m a - m b + 2 ^ 7) / 2 ^ 8) with 1; [lia|].
    apply (Z.div_unique _ _ _ (m a - m b + 2 ^ 7 - 2 ^ 8)); lia. }
  destruct (Z.eqb_spec (m a - m b - 256) 0); simpl; lia.
Qed.

Lemma memcmp_sign_truncated_witness :
  mem_of 100 [200; 10] 100 = 200 /\ memcmp (mem_of 100 [200; 10]) 100 101 1 < 0.
Proof.
  split; [reflexivity|]. apply memcmp_sign_truncated; [apply mem_of_byte|].
  vm_compute. discriminate.
Defined.
