(* ===== verification/MmapAvl.v ===== *)
(** * mm/mmap_avl.c: the AVL tree of memory areas

    A tree of [vm_area_struct]s keyed by [vm_end].  The code walks down from
    the root, keeping on a stack the places (pointers to child pointers) it
    passed, changes the tree at the bottom and rebalances upwards.  Here a place
    on the stack is a [frame]: the node on the path, the child that was not
    taken and the height stored in the node.  A NULL dereference or an overflow
    of the 41-entry stack is [None]. *)

From S2P Require Import Prelude.

(** ** Data (include/linux/mm.h) *)

Record vm_area_struct := Vma {
  vm_start : Z;
  vm_end : Z;
  vm_page_prot : Z;
  vm_flags : Z;
  vm_ops : Z;
  vm_offset : Z;
  vm_file : Z;
  vm_pte : Z;
}.

#[global] Instance vma_eq_dec : EqDecision vm_area_struct.
Proof. solve_decision. Defined.

Inductive vm_avl :=
| vm_avl_empty
| avl_node (v : vm_area_struct) (vm_avl_left vm_avl_right : vm_avl) (vm_avl_height : Z).

Definition avl_maxheight : nat := 41.

Definition heightof (tree : vm_avl) : Z :=
  match tree with vm_avl_empty => 0 | avl_node _ _ _ h => h end.

(** A place on the stack, together with the node it points into. *)
Inductive frame :=
| InLeft (v : vm_area_struct) (right : vm_avl) (height : Z)
| InRight (v : vm_area_struct) (left : vm_avl) (height : Z).

Definition plug (f : frame) (t : vm_avl) : vm_avl :=
  match f with
  | InLeft v r h => avl_node v t r h
  | InRight v l h => avl_node v l t h
  end.

Definition plug_all (fs : list frame) (t : vm_avl) : vm_avl := foldl (fun t f => plug f t) t fs.

(** ** Rebalancing *)

(** One iteration of the loop of [avl_rebalance]: the new subtree at the place,
    and whether the loop goes on. *)
Definition rebalance_node (node : vm_avl) : option (vm_avl * bool) :=
  match node with
  | vm_avl_empty => None
  | avl_node v nodeleft noderight h =>
    let heightleft := heightof nodeleft in
    let heightright := heightof noderight in
    if heightright + 1 <? heightleft then
      match nodeleft with
      | vm_avl_empty => None
      | avl_node vl nodeleftleft nodeleftright _ =>
        let heightleftright := heightof nodeleftright in
        if heightleftright <=? heightof nodeleftleft then
          Some (avl_node vl nodeleftleft
                  (avl_node v nodeleftright noderight (1 + heightleftright))
                  (1 + (1 + heightleftright)), true)
        else
          match nodeleftright with
          | vm_avl_empty => None
          | avl_node vlr lrl lrr _ =>
            Some (avl_node vlr (avl_node vl nodeleftleft lrl heightleftright)
                    (avl_node v lrr noderight heightleftright) heightleft, true)
          end
      end
    else if heightleft + 1 <? heightright then
      match noderight with
      | vm_avl_empty => None
      | avl_node vr noderightleft noderightright _ =>
        let heightrightleft := heightof noderightleft in
        if heightrightleft <=? heightof noderightright then
          Some (avl_node vr (avl_node v nodeleft noderightleft (1 + heightrightleft))
                  noderightright (1 + (1 + heightrightleft)), true)
        else
          match noderightleft with
          | vm_avl_empty => None
          | avl_node vrl rll rlr _ =>
            Some (avl_node vrl (avl_node v nodeleft rll heightrightleft)
                    (avl_node vr rlr noderightright heightrightleft) heightright, true)
          end
      end
    else
      let height := (if heightleft <? heightright then heightright else heightleft) + 1 in
      if height =? h then Some (node, false)
      else Some (avl_node v nodeleft noderight height, true)
  end.

Fixpoint avl_rebalance (nodeplaces : list frame) (t : vm_avl) : option vm_avl :=
  match nodeplaces with
  | [] => Some t
  | f :: rest =>
    '(node, continue) ← rebalance_node (plug f t);
    if (continue : bool) then avl_rebalance rest node else Some (plug_all rest node)
  end.

(** ** Insertion *)

Fixpoint insert_path (key : Z) (node : vm_avl) (stack : list frame) : list frame :=
  match node with
  | vm_avl_empty => stack
  | avl_node v l r h =>
    if key <? vm_end v then insert_path key l (InLeft v r h :: stack)
    else insert_path key r (InRight v l h :: stack)
  end.

Definition stack_ok (count : nat) : bool := (count <=? avl_maxheight)%nat.

Definition avl_leaf (v : vm_area_struct) : vm_avl := avl_node v vm_avl_empty vm_avl_empty 1.

Definition avl_insert (new_node : vm_area_struct) (tree : vm_avl) : option vm_avl :=
  let stack := insert_path (vm_end new_node) tree [] in
  if stack_ok (length stack) then avl_rebalance stack (avl_leaf new_node) else None.

Fixpoint insert_neighbours (key : Z) (node : vm_avl) (to_the_left to_the_right : option vm_area_struct)
  : option vm_area_struct * option vm_area_struct :=
  match node with
  | vm_avl_empty => (to_the_left, to_the_right)
  | avl_node v l r h =>
    if key <? vm_end v then insert_neighbours key l to_the_left (Some v)
    else insert_neighbours key r (Some v) to_the_right
  end.

Definition avl_insert_neighbours (new_node : vm_area_struct) (tree : vm_avl)
  : option (vm_avl * option vm_area_struct * option vm_area_struct) :=
  let '(to_the_left, to_the_right) := insert_neighbours (vm_end new_node) tree None None in
  t ← avl_insert new_node tree;
  Some (t, to_the_left, to_the_right).

(** ** Removal

    The place of the node to delete is pushed on the stack as well, and the slot
    above it is written when the left child is not empty. *)

(** Down to the node with the key: its two children, its height and the stack
    below which it hangs. *)
Fixpoint remove_path (key : Z) (node : vm_avl) (stack : list frame)
  : option (list frame * vm_avl * vm_avl * Z) :=
  match node with
  | vm_avl_empty => None
  | avl_node v l r h =>
    if key =? vm_end v then Some (stack, l, r, h)
    else if key <? vm_end v then remove_path key l (InLeft v r h :: stack)
    else remove_path key r (InRight v l h :: stack)
  end.

(** Down the right spine, to the node that replaces the removed one. *)
Fixpoint replace_path (node : vm_avl) (stack : list frame)
  : option (list frame * vm_area_struct * vm_avl) :=
  match node with
  | vm_avl_empty => None
  | avl_node v l vm_avl_empty _ => Some (stack, v, l)
  | avl_node v l r h => replace_path r (InRight v l h :: stack)
  end.

Definition avl_remove (node_to_delete : vm_area_struct) (tree : vm_avl) : option vm_avl :=
  '(stack, l, r, h) ← remove_path (vm_end node_to_delete) tree [];
  match l with
  | vm_avl_empty => if stack_ok (length stack + 1) then avl_rebalance stack r else None
  | _ =>
    '(inner, node, nodeleft) ← replace_path l [];
    if stack_ok (length stack + 1 + (length inner `max` 1))
    then avl_rebalance (inner ++ InLeft node r h :: stack) nodeleft else None
  end.

(** ** The consistency checks of DEBUG_AVL: true when nothing is reported *)

Fixpoint avl_checkheights (tree : vm_avl) : bool :=
  match tree with
  | vm_avl_empty => true
  | avl_node _ l r h =>
    let hl := heightof l in
    let hr := heightof r in
    avl_checkheights l && avl_checkheights r
    && (((h =? hl + 1) && (hr <=? hl) && (hl <=? hr + 1))
        || ((h =? hr + 1) && (hl <=? hr) && (hr <=? hl + 1)))
  end.

Fixpoint avl_checkleft (tree : vm_avl) (key : Z) : bool :=
  match tree with
  | vm_avl_empty => true
  | avl_node v l r _ => avl_checkleft l key && avl_checkleft r key && (vm_end v <? key)
  end.

Fixpoint avl_checkright (tree : vm_avl) (key : Z) : bool :=
  match tree with
  | vm_avl_empty => true
  | avl_node v l r _ => avl_checkright l key && avl_checkright r key && (key <? vm_end v)
  end.

Fixpoint avl_checkorder (tree : vm_avl) : bool :=
  match tree with
  | vm_avl_empty => true
  | avl_node v l r _ =>
    avl_checkorder l && avl_checkorder r && avl_checkleft l (vm_end v)
    && avl_checkright r (vm_end v)
  end.

Definition avl_check (tree : vm_avl) : bool := avl_checkheights tree && avl_checkorder tree.

(** ** The abstract content of a tree and of a stack *)

Fixpoint inorder (t : vm_avl) : list vm_area_struct :=
  match t with
  | vm_avl_empty => []
  | avl_node v l r _ => inorder l ++ v :: inorder r
  end.

Fixpoint before (fs : list frame) : list vm_area_struct :=
  match fs with
  | [] => []
  | InLeft _ _ _ :: fs => before fs
  | InRight v l _ :: fs => before fs ++ inorder l ++ [v]
  end.

Fixpoint after (fs : list frame) : list vm_area_struct :=
  match fs with
  | [] => []
  | InLeft v r _ :: fs => v :: inorder r ++ after fs
  | InRight _ _ _ :: fs => after fs
  end.

Definition ends_sorted (l : list vm_area_struct) : Prop :=
  StronglySorted (fun a b => vm_end a < vm_end b) l.

(** Sorted insertion, the specification of [avl_insert]. *)
Fixpoint list_insert_end (n : vm_area_struct) (l : list vm_area_struct) : list vm_area_struct :=
  match l with
  | [] => [n]
  | x :: l' => if vm_end n <? vm_end x then n :: l else x :: list_insert_end n l'
  end.

Definition balanced (t : vm_avl) : Prop := avl_checkheights t = true.

Definition frame_height (f : frame) : Z := match f with InLeft _ _ h | InRight _ _ h => h end.

Definition frame_sibling (f : frame) : vm_avl := match f with InLeft _ s _ | InRight _ s _ => s end.

(** The frame is balanced around a subtree of height [ho]. *)
Definition frame_ok (f : frame) (ho : Z) : Prop :=
  let s := frame_sibling f in
  balanced s /\ - 1 <= ho - heightof s <= 1 /\ frame_height f = 1 + Z.max ho (heightof s).

Fixpoint stack_balanced (fs : list frame) (ho : Z) : Prop :=
  match fs with
  | [] => True
  | f :: fs => frame_ok f ho /\ stack_balanced fs (frame_height f)
  end.

Definition top_height (fs : list frame) (ho : Z) : Z := foldl (fun _ f => frame_height f) ho fs.

(** ** Lemmas *)

Lemma balanced_height t : balanced t -> 0 <= heightof t /\ (heightof t = 0 -> t = vm_avl_empty).
Proof.
  unfold balanced. induction t as [|v l IHl r IHr h]; simpl; [done|].
  intros H. bool_hyps. specialize (IHl ltac:(done)). specialize (IHr ltac:(done)). lia.
Qed.

Lemma balanced_node v l r h :
  balanced (avl_node v l r h) <->
  balanced l /\ balanced r /\ - 1 <= heightof l - heightof r <= 1
  /\ h = 1 + Z.max (heightof l) (heightof r).
Proof. unfold balanced. simpl. lia. Qed.

Lemma rebalance_node_inorder n n' c :
  rebalance_node n = Some (n', c) -> inorder n' = inorder n.
Proof.
  unfold rebalance_node. intros H. case_ifs_in H; rewrite <-?(assoc_L (++)); simpl;
    rewrite <-?(assoc_L (++)); done.
Qed.

Lemma plug_all_cons f fs t : plug_all (f :: fs) t = plug_all fs (plug f t).
Proof. done. Qed.

Lemma plug_all_app fs1 fs2 t : plug_all (fs1 ++ fs2) t = plug_all fs2 (plug_all fs1 t).
Proof. apply foldl_app. Qed.

Lemma inorder_plug_all fs t : inorder (plug_all fs t) = before fs ++ inorder t ++ after fs.
Proof.
  unfold plug_all. revert t. induction fs as [|[v r h|v l h] fs IH]; intros t; simpl.
  - by rewrite app_nil_r.
  - rewrite IH. simpl. by rewrite <-!(assoc_L (++)).
  - rewrite IH. simpl. by rewrite <-!(assoc_L (++)).
Qed.

(** The heart of the algorithm: a rotation repairs a node one of whose subtrees
    is two higher than the other. *)
Lemma rebalance_left v l r h :
  balanced l -> balanced r -> heightof l = heightof r + 2 ->
  exists n, rebalance_node (avl_node v l r h) = Some (n, true) /\ balanced n
    /\ heightof l <= heightof n <= heightof l + 1.
Proof.
  intros Hl Hr E. pose proof (balanced_height _ Hr) as [Hr0 _]. unfold rebalance_node.
  destruct (Z.ltb_spec (heightof r + 1) (heightof l)) as [_|]; [|lia].
  destruct l as [|vl ll lr hl]; simpl in E; [lia|].
  apply balanced_node in Hl as (Hll & Hlr & Hd & Hh).
  destruct (Z.leb_spec (heightof lr) (heightof ll)).
  { eexists. split; [done|]. rewrite !balanced_node. simpl. repeat split; try done; lia. }
  pose proof (balanced_height _ Hll) as [Hll0 _].
  destruct lr as [|vlr lrl lrr hlr]; simpl in *; [lia|].
  apply balanced_node in Hlr as (? & ? & ? & ?).
  eexists. split; [done|]. rewrite !balanced_node. simpl. repeat split; try done; lia.
Qed.

Lemma rebalance_right v l r h :
  balanced l -> balanced r -> heightof r = heightof l + 2 ->
  exists n, rebalance_node (avl_node v l r h) = Some (n, true) /\ balanced n
    /\ heightof r <= heightof n <= heightof r + 1.
Proof.
  intros Hl Hr E. pose proof (balanced_height _ Hl) as [Hl0 _]. unfold rebalance_node.
  destruct (Z.ltb_spec (heightof r + 1) (heightof l)) as [|_]; [lia|].
  destruct (Z.ltb_spec (heightof l + 1) (heightof r)) as [_|]; [|lia].
  destruct r as [|vr rl rr hr]; simpl in E; [lia|].
  apply balanced_node in Hr as (Hrl & Hrr & Hd & Hh).
  destruct (Z.leb_spec (heightof rl) (heightof rr)).
  { eexists. split; [done|]. rewrite !balanced_node. simpl. repeat split; try done; lia. }
  pose proof (balanced_height _ Hrr) as [Hrr0 _].
  destruct rl as [|vrl rll rlr hrl]; simpl in *; [lia|].
  apply balanced_node in Hrl as (? & ? & ? & ?).
  eexists. split; [done|]. rewrite !balanced_node. simpl. repeat split; try done; lia.
Qed.

Lemma rebalance_even v l r h :
  balanced l -> balanced r -> - 1 <= heightof l - heightof r <= 1 ->
  exists n c, rebalance_node (avl_node v l r h) = Some (n, c) /\ balanced n
    /\ heightof n = 1 + Z.max (heightof l) (heightof r) /\ (c = false -> heightof n = h).
Proof.
  intros Hl Hr E. unfold rebalance_node.
  destruct (Z.ltb_spec (heightof r + 1) (heightof l)); [lia|].
  destruct (Z.ltb_spec (heightof l + 1) (heightof r)); [lia|].
  destruct (Z.eqb_spec ((if heightof l <? heightof r then heightof r else heightof l) + 1) h)
    as [E'|E']; eexists _, _; (split; [done|]); rewrite balanced_node; simpl;
    repeat split; try done; destruct (Z.ltb_spec (heightof l) (heightof r)); lia.
Qed.

(** One step of the loop, for a subtree whose height changed by at most one. *)
Lemma rebalance_node_ok f ho t :
  frame_ok f ho -> balanced t -> - 1 <= heightof t - ho <= 1 ->
  exists n c, rebalance_node (plug f t) = Some (n, c) /\ balanced n
    /\ - 1 <= heightof n - frame_height f <= 1 /\ (c = false -> heightof n = frame_height f).
Proof.
  intros (Hs & Hb & Hh) Ht Hd. destruct f as [v s h|v s h]; cbn [plug frame_height frame_sibling] in *.
  all: destruct (decide (heightof t = heightof s + 2)) as [E|E];
    [|destruct (decide (heightof s = heightof t + 2)) as [E'|E']].
  - destruct (rebalance_left v t s h) as (n & -> & ? & ?); try done.
    eexists _, _. repeat split; [done|lia..].
  - destruct (rebalance_right v t s h) as (n & -> & ? & ?); try done.
    eexists _, _. repeat split; [done|lia..].
  - destruct (rebalance_even v t s h) as (n & c & -> & ? & ? & ?); [done..|lia|].
    eexists _, _. repeat split; [done|lia..|]. auto.
  - destruct (rebalance_right v s t h) as (n & -> & ? & ?); try done.
    eexists _, _. repeat split; [done|lia..].
  - destruct (rebalance_left v s t h) as (n & -> & ? & ?); try done.
    eexists _, _. repeat split; [done|lia..].
  - destruct (rebalance_even v s t h) as (n & c & -> & ? & ? & ?); [done..|lia|].
    eexists _, _. repeat split; [done|lia..|]. auto.
Qed.

Lemma plug_balanced f t : frame_ok f (heightof t) -> balanced t ->
  balanced (plug f t) /\ heightof (plug f t) = frame_height f.
Proof.
  intros (Hs & Hb & Hh) Ht. destruct f; simpl in *; rewrite balanced_node;
    repeat split; try done; lia.
Qed.

Lemma plug_all_balanced fs t :
  stack_balanced fs (heightof t) -> balanced t -> balanced (plug_all fs t).
Proof.
  unfold plug_all. revert t. induction fs as [|f fs IH]; intros t; simpl; [done|].
  intros [Hf Hs] Ht. destruct (plug_balanced f t Hf Ht) as [Hp E]. apply IH; [|done].
  by rewrite E.
Qed.

Lemma avl_rebalance_ok fs ho t :
  stack_balanced fs ho -> balanced t -> - 1 <= heightof t - ho <= 1 ->
  exists t', avl_rebalance fs t = Some t' /\ balanced t'
    /\ inorder t' = inorder (plug_all fs t).
Proof.
  revert ho t. induction fs as [|f fs IH]; intros ho t; cbn [avl_rebalance stack_balanced].
  { intros _ ? _. eauto. }
  intros [Hf Hs] Ht Hd. destruct (rebalance_node_ok f ho t Hf Ht Hd) as (n & c & E & Hn & Hh & Hc).
  pose proof (rebalance_node_inorder _ _ _ E) as Hin. rewrite E. cbn [mbind option_bind]. destruct c.
  - destruct (IH _ n Hs Hn Hh) as (t' & -> & ? & Ht'). exists t'. repeat split; [done|].
    rewrite Ht', plug_all_cons, !inorder_plug_all. by rewrite Hin.
  - eexists. split; [done|]. rewrite Hc in * by done. split.
    + apply plug_all_balanced; [|done]. by rewrite Hc.
    + rewrite plug_all_cons, !inorder_plug_all. by rewrite Hin.
Qed.

Lemma stack_balanced_app fs1 fs2 ho :
  stack_balanced (fs1 ++ fs2) ho <->
  stack_balanced fs1 ho /\ stack_balanced fs2 (top_height fs1 ho).
Proof.
  revert ho. induction fs1 as [|f fs1 IH]; intros ho; simpl; [tauto|].
  rewrite IH. unfold top_height. simpl. tauto.
Qed.

(** Paths down the tree. *)

Lemma insert_path_plug key t fs :
  plug_all (insert_path key t fs) vm_avl_empty = plug_all fs t.
Proof. revert fs. induction t; intros fs; simpl; [done|]. case_match; eauto. Qed.

Lemma node_frames v l r h :
  balanced (avl_node v l r h) ->
  frame_ok (InLeft v r h) (heightof l) /\ frame_ok (InRight v l h) (heightof r).
Proof. rewrite balanced_node. intros (? & ? & ? & ?). unfold frame_ok. simpl. repeat split; try done; lia. Qed.

Lemma insert_path_balanced key t fs :
  balanced t -> stack_balanced fs (heightof t) -> stack_balanced (insert_path key t fs) 0.
Proof.
  revert fs. induction t as [|v l IHl r IHr h]; intros fs Ht Hs; simpl; [done|].
  pose proof (node_frames _ _ _ _ Ht) as [? ?]. apply balanced_node in Ht as (? & ? & ? & ?).
  case_match; [apply IHl|apply IHr]; simpl; auto.
Qed.

Lemma insert_path_length key t fs :
  balanced t ->
  Z.of_nat (length (insert_path key t fs)) <= Z.of_nat (length fs) + heightof t.
Proof.
  revert fs. induction t as [|v l IHl r IHr h]; intros fs Ht; simpl; [lia|].
  apply balanced_node in Ht as (? & ? & ? & ?).
  case_match; [specialize (IHl (InLeft v r h :: fs) ltac:(done))
              |specialize (IHr (InRight v l h :: fs) ltac:(done))]; simpl in *; lia.
Qed.

(** The smallest number of nodes of a balanced tree of height [n]. *)
Definition avl_min (n : nat) : Z := fst (Nat.iter n (fun '(a, b) => (b, 1 + a + b)) (0, 1)).

Lemma avl_min_snd n : snd (Nat.iter n (fun '(a, b) => (b, 1 + a + b)) (0, 1)) = avl_min (S n).
Proof. unfold avl_min. simpl. by destruct (Nat.iter n _ _). Qed.

Lemma avl_min_SS n : avl_min (S (S n)) = 1 + avl_min (S n) + avl_min n.
Proof.
  rewrite <-(avl_min_snd (S n)). simpl. pose proof (avl_min_snd n) as E.
  unfold avl_min in *. simpl in *. destruct (Nat.iter n _ _); simpl in *. lia.
Qed.

Lemma avl_min_nonneg n : 0 <= avl_min n /\ 0 <= avl_min (S n).
Proof. induction n as [|n IH]; [vm_compute; split; discriminate|]. rewrite avl_min_SS. lia. Qed.

Lemma avl_min_mono n k : (n <= k)%nat -> avl_min n <= avl_min k.
Proof.
  induction 1 as [|k _ IH]; [lia|]. etransitivity; [done|].
  destruct k as [|k]; [vm_compute; discriminate|]. rewrite avl_min_SS.
  pose proof (avl_min_nonneg k). lia.
Qed.

Lemma balanced_size t :
  balanced t -> avl_min (Z.to_nat (heightof t)) <= Z.of_nat (length (inorder t)).
Proof.
  induction t as [|v l IHl r IHr h]; intros Ht; [done|].
  apply balanced_node in Ht as (Hl & Hr & ? & ?). simpl. rewrite length_app. simpl.
  pose proof (balanced_height _ Hl). pose proof (balanced_height _ Hr).
  specialize (IHl Hl). specialize (IHr Hr).
  set (a := Z.max (heightof l) (heightof r)). set (b := Z.min (heightof l) (heightof r)).
  assert (avl_min (Z.to_nat a) + avl_min (Z.to_nat b)
          <= Z.of_nat (length (inorder l)) + Z.of_nat (length (inorder r))) as Hsum.
  { unfold a, b. destruct (Z.le_ge_cases (heightof l) (heightof r)).
    - rewrite Z.max_r, Z.min_l by lia. lia.
    - rewrite Z.max_l, Z.min_r by lia. lia. }
  destruct (Z.to_nat h) as [|[|n]] eqn:E; [lia| |].
  - change (avl_min 1) with 1. lia.
  - rewrite avl_min_SS. pose proof (avl_min_mono (S n) (Z.to_nat a) ltac:(lia)).
    pose proof (avl_min_mono n (Z.to_nat b) ltac:(lia)). lia.
Qed.

(** A tree of fewer than 433494436 areas is at most 40 high, so that the stack
    of 41 places never overflows. *)
Lemma balanced_height_bound t :
  balanced t -> Z.of_nat (length (inorder t)) < 433494436 -> heightof t <= 40.
Proof.
  intros Ht Hs. apply Z.nlt_ge. intros Hh. pose proof (balanced_size t Ht).
  pose proof (avl_min_mono 41 (Z.to_nat (heightof t)) ltac:(lia)) as Hm.
  change (avl_min 41) with 433494436 in Hm. lia.
Qed.

(** Order of the keys. *)

Lemma avl_checkleft_forall t k :
  avl_checkleft t k = true <-> Forall (fun x => vm_end x < k) (inorder t).
Proof.
  induction t as [|v l IHl r IHr h]; simpl; [split; auto|].
  rewrite Forall_app, Forall_cons, !andb_true_iff, IHl, IHr, Z.ltb_lt. tauto.
Qed.

Lemma avl_checkright_forall t k :
  avl_checkright t k = true <-> Forall (fun x => k < vm_end x) (inorder t).
Proof.
  induction t as [|v l IHl r IHr h]; simpl; [split; auto|].
  rewrite Forall_app, Forall_cons, !andb_true_iff, IHl, IHr, Z.ltb_lt. tauto.
Qed.

Lemma ends_sorted_app l1 v l2 :
  ends_sorted (l1 ++ v :: l2) <->
  ends_sorted l1 /\ ends_sorted l2 /\ Forall (fun x => vm_end x < vm_end v) l1
  /\ Forall (fun x => vm_end v < vm_end x) l2.
Proof.
  unfold ends_sorted. rewrite StronglySorted_app, StronglySorted_cons, !Forall_forall.
  split; [intros (H & ? & ? & ?)|intros (? & ? & H1 & H2)]; repeat split; try done.
  - intros x Hx. apply H; [done|set_solver].
  - intros x1 x2 Hx1 [->|Hx2]%elem_of_cons; [by apply H1|].
    specialize (H1 _ Hx1). specialize (H2 _ Hx2). simpl in *. lia.
Qed.

Lemma avl_checkorder_sorted t : avl_checkorder t = true <-> ends_sorted (inorder t).
Proof.
  induction t as [|v l IHl r IHr h]; simpl.
  { split; [intros _; constructor|done]. }
  rewrite !andb_true_iff, ends_sorted_app, IHl, IHr, avl_checkleft_forall, avl_checkright_forall.
  tauto.
Qed.

Lemma avl_check_spec t : avl_check t = true <-> balanced t /\ ends_sorted (inorder t).
Proof. unfold avl_check, balanced. by rewrite andb_true_iff, avl_checkorder_sorted. Qed.

Lemma list_insert_end_l n l1 v l2 :
  vm_end n < vm_end v -> list_insert_end n (l1 ++ v :: l2) = list_insert_end n l1 ++ v :: l2.
Proof.
  intros H. induction l1 as [|x l1 IH]; simpl; [case_match; [done|lia]|].
  case_match; simpl; [done|]. by rewrite IH.
Qed.

Lemma list_insert_end_r n l1 l2 :
  Forall (fun x => vm_end x <= vm_end n) l1 ->
  list_insert_end n (l1 ++ l2) = l1 ++ list_insert_end n l2.
Proof.
  induction 1 as [|x l1 H _ IH]; simpl; [done|]. case_match; [lia|]. by rewrite IH.
Qed.

Lemma list_insert_end_elem n l x : x ∈ list_insert_end n l <-> x = n \/ x ∈ l.
Proof. induction l as [|y l IH]; simpl; [set_solver|]. case_match; set_solver. Qed.

Lemma list_insert_end_sorted n l :
  ends_sorted l -> (forall x, x ∈ l -> vm_end x <> vm_end n) -> ends_sorted (list_insert_end n l).
Proof.
  unfold ends_sorted. induction l as [|y l IH]; simpl; intros Hs Hne.
  { repeat constructor. }
  apply StronglySorted_cons in Hs as [Hy Hs]. rewrite Forall_forall in Hy.
  assert (vm_end y <> vm_end n) by (apply Hne; set_solver).
  destruct (Z.ltb_spec (vm_end n) (vm_end y)); rewrite !StronglySorted_cons, !Forall_forall.
  - repeat split; try done. intros x [->|Hx]%elem_of_cons; [done|].
    specialize (Hy _ Hx). simpl in *. lia.
  - split; [|apply IH; [done|set_solver]].
    intros x [->|Hx]%list_insert_end_elem; [lia|]. by apply Hy.
Qed.

Lemma ends_sorted_filter (P : vm_area_struct -> Prop) `{!forall x, Decision (P x)} l :
  ends_sorted l -> ends_sorted (filter P l).
Proof.
  unfold ends_sorted. induction 1 as [|x l _ IH Hx]; [constructor|].
  rewrite filter_cons. case_decide; [|done]. constructor; [done|].
  rewrite Forall_forall in *. intros y [_ Hy]%list_elem_of_filter. auto.
Qed.

Lemma insert_path_inorder n t fs :
  ends_sorted (inorder t) ->
  before (insert_path (vm_end n) t fs) ++ n :: after (insert_path (vm_end n) t fs)
  = before fs ++ list_insert_end n (inorder t) ++ after fs.
Proof.
  revert fs. induction t as [|v l IHl r IHr h]; intros fs Hs; simpl; [done|].
  simpl in Hs. apply ends_sorted_app in Hs as (Hl & Hr & Hlv & Hrv).
  destruct (Z.ltb_spec (vm_end n) (vm_end v)).
  - rewrite IHl by done. simpl. rewrite list_insert_end_l by done.
    by rewrite <-!(assoc_L (++)).
  - rewrite IHr by done. simpl. rewrite list_insert_end_r.
    + simpl. case_match; [lia|]. by rewrite <-!(assoc_L (++)).
    + eapply Forall_impl; [exact Hlv|]. simpl. intros x ?. lia.
Qed.

Lemma remove_path_ok k t fs :
  ends_sorted (inorder t) -> (exists x, x ∈ inorder t /\ vm_end x = k) -> balanced t ->
  stack_balanced fs (heightof t) ->
  exists v stack l r h, remove_path k t fs = Some (stack, l, r, h) /\ vm_end v = k /\
    plug_all stack (avl_node v l r h) = plug_all fs t /\ balanced (avl_node v l r h) /\
    stack_balanced stack h /\ Z.of_nat (length stack) + h <= Z.of_nat (length fs) + heightof t.
Proof.
  revert fs. induction t as [|v l IHl r IHr h]; intros fs Hs (x & Hx & Hk) Hb Hf;
    simpl in Hx; [set_solver|]. pose proof (node_frames _ _ _ _ Hb) as [HL HR].
  simpl in Hs. apply ends_sorted_app in Hs as (Hl & Hr & Hlv & Hrv).
  rewrite Forall_forall in Hlv, Hrv. pose proof Hb as Hb'.
  apply balanced_node in Hb' as (? & ? & ? & ?). rewrite elem_of_app, elem_of_cons in Hx. simpl.
  destruct (Z.eqb_spec k (vm_end v)) as [->|Hne].
  { eexists v, fs, l, r, h. repeat split; done. }
  destruct (Z.ltb_spec k (vm_end v)).
  - destruct (IHl (InLeft v r h :: fs)) as (v' & stack & l' & r' & h' & -> & ? & ? & ? & ? & ?);
      [done| |done|done|].
    { exists x. split; [|done]. destruct Hx as [?|[->|Hx]]; [done|lia|].
      specialize (Hrv _ Hx). simpl in Hrv. lia. }
    eexists v', stack, l', r', h'. repeat split; try done. simpl in *. lia.
  - destruct (IHr (InRight v l h :: fs)) as (v' & stack & l' & r' & h' & -> & ? & ? & ? & ? & ?);
      [done| |done|done|].
    { exists x. split; [|done]. destruct Hx as [Hx|[->|?]]; [|lia|done].
      specialize (Hlv _ Hx). simpl in Hlv. lia. }
    eexists v', stack, l', r', h'. repeat split; try done. simpl in *. lia.
Qed.

Lemma after_app fs1 fs2 : after (fs1 ++ fs2) = after fs1 ++ after fs2.
Proof. induction fs1 as [|[] fs1 IH]; simpl; rewrite ?IH, <-?(assoc_L (++)); done. Qed.

Lemma replace_path_ok t fs :
  t <> vm_avl_empty -> balanced t ->
  exists inner v l h, replace_path t fs = Some (inner ++ fs, v, l) /\
    plug_all inner (avl_node v l vm_avl_empty h) = t /\ balanced (avl_node v l vm_avl_empty h) /\
    stack_balanced inner h /\ top_height inner h = heightof t /\
    Z.of_nat (length inner) + h <= heightof t /\ after inner = [].
Proof.
  revert fs. induction t as [|v l _ r IHr h]; intros fs Hne Hb; [done|].
  destruct r as [|vr rl rr hr].
  { exists [], v, l, h. simpl. repeat split; done. }
  pose proof (node_frames _ _ _ _ Hb) as [_ HR]. apply balanced_node in Hb as (Hbl & Hbr & ? & ?).
  destruct (IHr (InRight v l h :: fs) ltac:(done) Hbr) as (inner & v' & l' & h' & E & Hp & ? & Hs & Ht & ? & Ha).
  exists (inner ++ [InRight v l h]), v', l', h'. cbn [replace_path].
  cbn [replace_path] in E. rewrite E. rewrite <-(assoc_L (++)). split; [done|].
  split; [|split; [done|split; [|split; [|split]]]].
  - unfold plug_all in *. rewrite foldl_app, Hp. done.
  - rewrite stack_balanced_app, Ht. simpl. tauto.
  - unfold top_height. by rewrite foldl_app.
  - rewrite length_app. simpl in *. lia.
  - by rewrite after_app, Ha.
Qed.

(** The neighbours of a new key in a sorted list. *)
Definition last_le (k : Z) (l : list vm_area_struct) : option vm_area_struct :=
  last (filter (fun x => vm_end x <= k) l).

Definition first_gt (k : Z) (l : list vm_area_struct) : option vm_area_struct :=
  head (filter (fun x => k < vm_end x) l).

Lemma insert_neighbours_spec k t tl tr :
  ends_sorted (inorder t) ->
  insert_neighbours k t tl tr
  = (from_option Some tl (last_le k (inorder t)), from_option Some tr (first_gt k (inorder t))).
Proof.
  unfold last_le, first_gt. revert tl tr. induction t as [|v l IHl r IHr h]; intros tl tr Hs; simpl; [done|].
  simpl in Hs. apply ends_sorted_app in Hs as (Hl & Hr & Hlv & Hrv).
  rewrite !filter_app. destruct (Z.ltb_spec k (vm_end v)).
  - rewrite IHl by done. rewrite (filter_cons_False (fun x => vm_end x <= k)) by lia.
    rewrite (filter_none (fun x => vm_end x <= k) (inorder r)), app_nil_r
      by (eapply Forall_impl; [exact Hrv|]; simpl; lia).
    rewrite (filter_cons_True (fun x => k < vm_end x)) by lia.
    by destruct (filter (fun x => k < vm_end x) (inorder l)).
  - rewrite IHr by done. rewrite (filter_cons_False (fun x => k < vm_end x)) by lia.
    rewrite (filter_none (fun x => k < vm_end x) (inorder l))
      by (eapply Forall_impl; [exact Hlv|]; simpl; lia).
    rewrite (filter_cons_True (fun x => vm_end x <= k)) by lia. simpl.
    f_equal. rewrite last_app, last_cons.
    by destruct (last (filter (fun x => vm_end x <= k) (inorder r))).
Qed.

Lemma avl_insert_ok n t :
  balanced t -> ends_sorted (inorder t) -> Z.of_nat (length (inorder t)) < 433494436 ->
  exists t', avl_insert n t = Some t' /\ balanced t'
    /\ inorder t' = list_insert_end n (inorder t).
Proof.
  intros Hb Hs Hn. unfold avl_insert. pose proof (balanced_height_bound t Hb Hn).
  pose proof (insert_path_length (vm_end n) t [] Hb) as Hlen. simpl in Hlen.
  unfold stack_ok, avl_maxheight. destruct (Nat.leb_spec (length (insert_path (vm_end n) t [])) 41); [|lia].
  destruct (avl_rebalance_ok (insert_path (vm_end n) t []) 0 (avl_leaf n)) as (t' & -> & ? & Ht');
    [by apply insert_path_balanced|done|simpl; lia|].
  exists t'. repeat split; [done|]. rewrite Ht', inorder_plug_all. simpl.
  rewrite (insert_path_inorder n t []) by done. simpl. by rewrite app_nil_r.
Qed.

Lemma remove_key_filter k l1 v l2 :
  ends_sorted (l1 ++ v :: l2) -> vm_end v = k ->
  filter (fun x => vm_end x <> k) (l1 ++ v :: l2) = l1 ++ l2.
Proof.
  intros (_ & _ & H1 & H2)%ends_sorted_app <-. rewrite filter_app, filter_cons_False by tauto.
  rewrite !filter_all; [done| |]; eapply Forall_impl; try done; simpl; lia.
Qed.

(** The removed node has a left child: its greatest node replaces it. *)
Lemma avl_remove_replace st v l r h :
  stack_balanced st h -> balanced (avl_node v l r h) -> l <> vm_avl_empty ->
  Z.of_nat (length st) + h <= 40 ->
  exists inner v' l' t', replace_path l [] = Some (inner, v', l')
    /\ stack_ok (length st + 1 + length inner `max` 1) = true
    /\ avl_rebalance (inner ++ InLeft v' r h :: st) l' = Some t' /\ balanced t'
    /\ inorder t' = before st ++ inorder l ++ inorder r ++ after st.
Proof.
  intros Hst (Hbl & Hbr & ? & ?)%balanced_node Hne Hlen.
  destruct (replace_path_ok l [] Hne Hbl) as (inner & v' & l' & h' & E & Hin & Hb & Hsi & Ht & Hl & Ha).
  rewrite app_nil_r in E. apply balanced_node in Hb as (Hbl' & _ & ? & ?). simpl in *.
  pose proof (balanced_height _ Hbl') as [? _]. pose proof (balanced_height _ Hbr) as [? _].
  destruct (avl_rebalance_ok (inner ++ InLeft v' r h :: st) h' l') as (t' & E' & ? & Ht');
    [|done|lia|].
  { apply stack_balanced_app. rewrite Ht. repeat split; try done; simpl; lia. }
  exists inner, v', l', t'. repeat split; try done.
  { unfold stack_ok, avl_maxheight. lia. }
  rewrite Ht', plug_all_app, plug_all_cons, inorder_plug_all. cbn [plug inorder].
  rewrite <-Hin, !inorder_plug_all, Ha. simpl. by rewrite app_nil_r, <-!(assoc_L (++)).
Qed.

Lemma avl_remove_ok n t :
  balanced t -> ends_sorted (inorder t) -> Z.of_nat (length (inorder t)) < 433494436 ->
  n ∈ inorder t ->
  exists t', avl_remove n t = Some t' /\ balanced t'
    /\ inorder t' = filter (fun x => vm_end x <> vm_end n) (inorder t).
Proof.
  intros Hb Hs Hn Hin. pose proof (balanced_height_bound t Hb Hn).
  destruct (remove_path_ok (vm_end n) t []) as (v & st & l & r & h & E & Hk & Hp & Hbn & Hst & Hl);
    [done|by eauto|done|done|].
  assert (inorder t = (before st ++ inorder l) ++ v :: (inorder r ++ after st)) as Ht.
  { change t with (plug_all [] t). rewrite <-Hp, inorder_plug_all. simpl.
    by rewrite <-!(assoc_L (++)). }
  rewrite Ht in Hs. rewrite Ht, (remove_key_filter _ _ _ _ Hs Hk). rewrite <-(assoc_L (++)).
  unfold avl_remove. rewrite E. cbn [mbind option_bind]. simpl in Hl.
  destruct l as [|vl ll lr hl].
  - apply balanced_node in Hbn as (_ & Hbr & ? & ?). simpl in *.
    pose proof (balanced_height _ Hbr) as [? _].
    unfold stack_ok, avl_maxheight. destruct (Nat.leb_spec (length st + 1) 41); [|lia].
    destruct (avl_rebalance_ok st h r Hst Hbr) as (t' & -> & ? & Ht'); [lia|].
    exists t'. repeat split; [done|]. by rewrite Ht', inorder_plug_all.
  - destruct (avl_remove_replace st v (avl_node vl ll lr hl) r h)
      as (inner & v' & l' & t' & -> & Hok & E' & ? & Ht'); [done..|lia|].
    cbn [mbind option_bind]. rewrite Hok. eauto.
Qed.

(** ** Properties *)

(** C32: inserting an area whose end address is not yet a key into a tree that
    passes the checks of [avl_check] succeeds (no NULL dereference, no overflow
    of the stack of 41 places below 433494436 areas, far beyond MAX_MAP_COUNT),
    the new tree passes the checks again, and its areas in address order are
    the old ones with the new one inserted at its sorted position. *)
Theorem avl_insert_correct n t :
  avl_check t = true -> (forall x, x ∈ inorder t -> vm_end x <> vm_end n) ->
  Z.of_nat (length (inorder t)) < 433494436 ->
  exists t', avl_insert n t = Some t' /\ avl_check t' = true
    /\ inorder t' = list_insert_end n (inorder t).
Proof.
  intros (Hb & Hs)%avl_check_spec Hne Hn.
  destruct (avl_insert_ok n t Hb Hs Hn) as (t' & -> & Hb' & Ht'). exists t'.
  repeat split; [|done]. apply avl_check_spec. rewrite Ht'.
  split; [done|]. by apply list_insert_end_sorted.
Qed.

(** Removing an area of a tree that passes the checks succeeds, the new
    tree passes the checks again, and its areas are the old ones without the
    removed one, in the same order. *)
Theorem avl_remove_correct n t :
  avl_check t = true -> n ∈ inorder t -> Z.of_nat (length (inorder t)) < 433494436 ->
  exists t', avl_remove n t = Some t' /\ avl_check t' = true
    /\ inorder t' = filter (fun x => vm_end x <> vm_end n) (inorder t).
Proof.
  intros (Hb & Hs)%avl_check_spec Hin Hn.
  destruct (avl_remove_ok n t Hb Hs Hn Hin) as (t' & -> & Hb' & Ht'). exists t'.
  repeat split; [|done]. apply avl_check_spec. rewrite Ht'.
  split; [done|]. by apply ends_sorted_filter.
Qed.

(** [avl_insert_neighbours] inserts like [avl_insert] and reports the areas
    next to the new one in address order: the last one whose end is not above
    the new key and the first one whose end is above it. *)
Lemma avl_insert_neighbours_correct n t :
  avl_check t = true -> Z.of_nat (length (inorder t)) < 433494436 ->
  exists t', avl_insert_neighbours n t
             = Some (t', last_le (vm_end n) (inorder t), first_gt (vm_end n) (inorder t))
    /\ inorder t' = list_insert_end n (inorder t).
Proof.
  intros (Hb & Hs)%avl_check_spec Hn.
  destruct (avl_insert_ok n t Hb Hs Hn) as (t' & E & Hb' & Ht').
  exists t'. split; [|done]. unfold avl_insert_neighbours.
  rewrite insert_neighbours_spec by done. rewrite E. cbn [mbind option_bind].
  by destruct (last_le _ _), (first_gt _ _).
Qed.

Definition area (s e : Z) : vm_area_struct := Vma s e 0 0 0 0 0 0.

(** The tree the code builds from seven areas inserted in ascending order. *)
Definition sample_tree : vm_avl :=
  avl_node (area 30 40)
    (avl_node (area 10 20) (avl_leaf (area 0 10)) (avl_leaf (area 20 30)) 2)
    (avl_node (area 50 60) (avl_leaf (area 40 50)) (avl_leaf (area 60 70)) 2) 3.

Lemma avl_insert_correct_witness :
  foldl (fun t a => t ≫= avl_insert a) (Some vm_avl_empty)
    [area 0 10; area 10 20; area 20 30; area 30 40; area 40 50; area 50 60; area 60 70]
  = Some sample_tree /\
  exists t', avl_insert (area 80 90) sample_tree = Some t' /\ avl_check t' = true
    /\ inorder t' = list_insert_end (area 80 90) (inorder sample_tree).
Proof.
  split; [vm_compute; reflexivity|]. apply avl_insert_correct; [vm_compute; reflexivity| |].
  - intros x Hx. simpl in *. set_unfold. naive_solver.
  - vm_compute. reflexivity.
Defined.

Lemma avl_remove_correct_witness :
  exists t', avl_remove (area 30 40) sample_tree = Some t' /\ avl_check t' = true
    /\ inorder t' = filter (fun x => vm_end x <> 40) (inorder sample_tree).
Proof.
  apply (avl_remove_correct (area 30 40) sample_tree); [vm_compute; reflexivity| |].
  - apply list_elem_of_In. simpl. tauto.
  - vm_compute. reflexivity.
Defined.

Lemma avl_insert_neighbours_correct_witness :
  exists t', avl_insert_neighbours (area 32 35) sample_tree
             = Some (t', Some (area 20 30), Some (area 30 40))
    /\ inorder t' = list_insert_end (area 32 35) (inorder sample_tree).
Proof.
  apply (avl_insert_neighbours_correct (area 32 35) sample_tree); vm_compute; reflexivity.
Defined.
