(* ===== verification/Mmap.v ===== *)
(** * mm/mmap.c: the address space of a process

    [mm_struct] keeps the areas of a process three times: in the list [mmap]
    sorted by address, in the tree [mmap_avl] (NULL while there are fewer than
    [AVL_MIN_MAP_COUNT] areas) and, for the area found last, in [mmap_cache].
    Areas are values here; two areas of an address space never have the same
    value because they are disjoint.  What the code does to other subsystems
    (page tables, the inode's ring of mappings, the vm operations, file
    reference counts) is recorded as a trace of [mm_event]s.  [None] is a crash:
    a NULL dereference or an overflow of the stack of mm/mmap_avl.c. *)

From S2P Require Import Prelude MmapAvl.

(** ** Constants *)

Definition PAGE_SHIFT : Z := 12.
Definition PAGE_SIZE : Z := Z.shiftl 1 PAGE_SHIFT.
Definition PAGE_MASK : Z := Z.lnot (PAGE_SIZE - 1).
Definition PAGE_ALIGN (addr : Z) : Z := Z.land (u32 (addr + PAGE_SIZE - 1)) PAGE_MASK.
Definition PGDIR_SHIFT : Z := 20.
Definition PGDIR_SIZE : Z := Z.shiftl 1 PGDIR_SHIFT.
Definition PGDIR_MASK : Z := Z.lnot (PGDIR_SIZE - 1).
Definition TASK_SIZE : Z := 0x80000000.
Definition TASK_UNMAPPED_BASE : Z := TASK_SIZE / 3.
Definition MAX_MAP_COUNT : Z := 65536.
Definition AVL_MIN_MAP_COUNT : Z := 32.
Definition ENODEV : Z := 19.
Definition ETXTBSY : Z := 26.
Definition VM_WRITE : Z := 0x2.
Definition VM_SHARED : Z := 0x8.
Definition VM_MAYREAD : Z := 0x10.
Definition VM_MAYWRITE : Z := 0x20.
Definition VM_MAYEXEC : Z := 0x40.
Definition VM_MAYSHARE : Z := 0x80.
Definition VM_SHM : Z := 0x400.
Definition VM_DENYWRITE : Z := 0x800.
Definition VM_LOCKED : Z := 0x2000.
Definition PROT_READ : Z := 1.
Definition PROT_WRITE : Z := 2.
Definition PROT_EXEC : Z := 4.
Definition MAP_SHARED : Z := 1.
Definition MAP_PRIVATE : Z := 2.
Definition MAP_TYPE : Z := 0xf.
Definition MAP_FIXED : Z := 0x10.
Definition MAP_NORESERVE : Z := 0x40.
Definition MAP_GROWSDOWN : Z := 0x100.
Definition MAP_DENYWRITE : Z := 0x800.
Definition MAP_EXECUTABLE : Z := 0x1000.
Definition RLIMIT_DATA : Z := 2.
Definition RLIMIT_MEMLOCK : Z := 8.
Definition RLIMIT_AS : Z := 9.
Definition RLIM_INFINITY : Z := 0x7fffffff.

(** [x & mask], as a truth value *)
Definition bits (x mask : Z) : bool := negb (Z.land x mask =? 0).

(** ** State *)

Inductive mm_event :=
| EvOpsUnmap (v : vm_area_struct) (st size : Z)
| EvOpsClose (v : vm_area_struct)
| EvOpsOpen (v : vm_area_struct)
| EvFput (file : Z)
| EvGetFile (file : Z)
| EvShareRemove (v : vm_area_struct)
| EvShareInsert (v : vm_area_struct)
| EvZap (st size : Z)
| EvClearPageTables (first nr : Z)
| EvMakePresent (addr end_ : Z).

Record mm_struct := Mm {
  mmap : list vm_area_struct;
  mmap_avl : vm_avl;
  mmap_cache : option vm_area_struct;
  map_count : Z;
  total_vm : Z;
  locked_vm : Z;
  def_flags : Z;
  end_code : Z;
  brk : Z;
  mm_log : list mm_event;
}.

Definition set_maps (mm : mm_struct) (l : list vm_area_struct) (t : vm_avl) : mm_struct :=
  Mm l t (mmap_cache mm) (map_count mm) (total_vm mm) (locked_vm mm) (def_flags mm)
     (end_code mm) (brk mm) (mm_log mm).

Definition set_cache (mm : mm_struct) (c : option vm_area_struct) : mm_struct :=
  Mm (mmap mm) (mmap_avl mm) c (map_count mm) (total_vm mm) (locked_vm mm) (def_flags mm)
     (end_code mm) (brk mm) (mm_log mm).

Definition set_counts (mm : mm_struct) (count total locked : Z) : mm_struct :=
  Mm (mmap mm) (mmap_avl mm) (mmap_cache mm) count total locked (def_flags mm)
     (end_code mm) (brk mm) (mm_log mm).

Definition set_brk (mm : mm_struct) (b : Z) : mm_struct :=
  Mm (mmap mm) (mmap_avl mm) (mmap_cache mm) (map_count mm) (total_vm mm) (locked_vm mm)
     (def_flags mm) (end_code mm) b (mm_log mm).

Definition log (es : list mm_event) (mm : mm_struct) : mm_struct :=
  Mm (mmap mm) (mmap_avl mm) (mmap_cache mm) (map_count mm) (total_vm mm) (locked_vm mm)
     (def_flags mm) (end_code mm) (brk mm) (mm_log mm ++ es).

Definition set_range (v : vm_area_struct) (s e off : Z) : vm_area_struct :=
  Vma s e (vm_page_prot v) (vm_flags v) (vm_ops v) off (vm_file v) (vm_pte v).

(** Does the table of operations of an area have the operation? *)
Record ops_table := OpsTable {
  has_unmap : Z -> bool;
  has_close : Z -> bool;
  has_open : Z -> bool;
}.

(** ** find_vma *)

(** The walk down the tree; the second component is [last_turn_right] of
    [find_vma_prev] at the node found, with its left subtree. *)
Fixpoint find_vma_avl (tree : vm_avl) (addr : Z) (vma : option vm_area_struct)
  : option vm_area_struct :=
  match tree with
  | vm_avl_empty => vma
  | avl_node v l r _ =>
    if addr <? vm_end v then
      if vm_start v <=? addr then Some v else find_vma_avl l addr (Some v)
    else find_vma_avl r addr vma
  end.

Fixpoint find_vma_list (vma : list vm_area_struct) (addr : Z) : option vm_area_struct :=
  match vma with
  | [] => None
  | v :: next => if vm_end v <=? addr then find_vma_list next addr else Some v
  end.

Definition cache_hit (cache : option vm_area_struct) (addr : Z) : bool :=
  match cache with
  | Some c => (addr <? vm_end c) && (vm_start c <=? addr)
  | None => false
  end.

Definition find_vma (mm : mm_struct) (addr : Z) : option vm_area_struct * mm_struct :=
  if cache_hit (mmap_cache mm) addr then (mmap_cache mm, mm)
  else
    let vma := match mmap_avl mm with
               | vm_avl_empty => find_vma_list (mmap mm) addr
               | tree => find_vma_avl tree addr None
               end in
    (vma, match vma with Some _ => set_cache mm vma | None => mm end).

Definition find_vma_intersection (mm : mm_struct) (start_addr end_addr : Z)
  : option vm_area_struct * mm_struct :=
  let '(vma, mm) := find_vma mm start_addr in
  match vma with
  | Some v => (if end_addr <=? vm_start v then None else vma, mm)
  | None => (None, mm)
  end.

(** ** find_vma_prev *)

Fixpoint find_prev_list (prev : option vm_area_struct) (vma : list vm_area_struct) (addr : Z)
  : option vm_area_struct * option vm_area_struct :=
  match vma with
  | [] => (None, prev)
  | v :: next => if vm_end v <=? addr then find_prev_list (Some v) next addr else (Some v, prev)
  end.

(** The area found, its left subtree and [prev]. *)
Fixpoint find_prev_avl (tree : vm_avl) (addr : Z) (last_turn_right : option vm_area_struct)
    (acc : option (vm_area_struct * vm_avl * option vm_area_struct))
  : option (vm_area_struct * vm_avl * option vm_area_struct) :=
  match tree with
  | vm_avl_empty => acc
  | avl_node v l r _ =>
    if addr <? vm_end v then
      if vm_start v <=? addr then Some (v, l, last_turn_right)
      else find_prev_avl l addr last_turn_right (Some (v, l, last_turn_right))
    else find_prev_avl r addr (Some v) acc
  end.

Fixpoint rightmost (tree : vm_avl) : option vm_area_struct :=
  match tree with
  | vm_avl_empty => None
  | avl_node v _ vm_avl_empty _ => Some v
  | avl_node _ _ r _ => rightmost r
  end.

Definition find_vma_prev (mm : mm_struct) (addr : Z)
  : option vm_area_struct * option vm_area_struct :=
  match mmap_avl mm with
  | vm_avl_empty => find_prev_list None (mmap mm) addr
  | tree =>
    match find_prev_avl tree addr None None with
    | Some (vma, lsub, prev) =>
      (Some vma, match lsub with vm_avl_empty => prev | _ => rightmost lsub end)
    | None => (None, None)
    end
  end.

(** ** get_unmapped_area *)

(** The areas of the list from [v] on, and behind [v]. *)
Fixpoint from_vma (v : vm_area_struct) (l : list vm_area_struct) : list vm_area_struct :=
  match l with
  | [] => []
  | x :: l' => if decide (x = v) then l else from_vma v l'
  end.

Fixpoint unmapped_loop (vmm : list vm_area_struct) (addr len : Z) : Z :=
  if TASK_SIZE - len <? addr then 0
  else match vmm with
       | [] => addr
       | v :: next =>
         if addr + len <=? vm_start v then addr else unmapped_loop next (vm_end v) len
       end.

Definition get_unmapped_area (mm : mm_struct) (addr len : Z) : Z * mm_struct :=
  if TASK_SIZE <? len then (0, mm)
  else
    let addr := PAGE_ALIGN (if addr =? 0 then TASK_UNMAPPED_BASE else addr) in
    let '(vmm, mm) := find_vma mm addr in
    (unmapped_loop (match vmm with Some v => from_vma v (mmap mm) | None => [] end) addr len, mm).

(** ** insert_vm_struct and build_mmap_avl *)

Fixpoint build_avl (vma : list vm_area_struct) (t : vm_avl) : option vm_avl :=
  match vma with
  | [] => Some t
  | v :: next => t ← avl_insert v t; build_avl next t
  end.

Definition build_mmap_avl (mm : mm_struct) : option mm_struct :=
  t ← build_avl (mmap mm) vm_avl_empty; Some (set_maps mm (mmap mm) t).

Fixpoint insert_by_start (vmp : vm_area_struct) (l : list vm_area_struct) : list vm_area_struct :=
  match l with
  | [] => [vmp]
  | x :: l' => if vm_start x <=? vm_start vmp then x :: insert_by_start vmp l' else vmp :: l
  end.

(** [*pprev = vmp] with [pprev = prev ? &prev->vm_next : &mm->mmap] *)
Fixpoint insert_after (prev : vm_area_struct) (vmp : vm_area_struct) (l : list vm_area_struct)
  : list vm_area_struct :=
  match l with
  | [] => []
  | x :: l' => if decide (x = prev) then x :: vmp :: l' else x :: insert_after prev vmp l'
  end.

Definition insert_vm_struct (mm : mm_struct) (vmp : vm_area_struct) : option mm_struct :=
  '(l, t) ←
    match mmap_avl mm with
    | vm_avl_empty => Some (insert_by_start vmp (mmap mm), vm_avl_empty)
    | tree =>
      '(t, prev, next) ← avl_insert_neighbours vmp tree;
      Some (match prev with
            | Some p => insert_after p vmp (mmap mm)
            | None => vmp :: mmap mm
            end, t)
    end;
  let mm := set_maps mm l t in
  let mm := set_counts mm (map_count mm + 1) (total_vm mm) (locked_vm mm) in
  mm ← (if (AVL_MIN_MAP_COUNT <=? map_count mm) &&
           match mmap_avl mm with vm_avl_empty => true | _ => false end
        then build_mmap_avl mm else Some mm);
  Some (if vm_file vmp =? 0 then mm else log [EvShareInsert vmp] mm).

(** ** unmap_fixup, free_pgtables and do_munmap *)

Definition remove_shared_vm_struct (vma : vm_area_struct) : list mm_event :=
  if vm_file vma =? 0 then [] else [EvShareRemove vma].

Definition ops_event (table : Z -> bool) (ev : mm_event) (vma : vm_area_struct) : list mm_event :=
  if negb (vm_ops vma =? 0) && table (vm_ops vma) then [ev] else [].

(** Returns the new state, whether [extra] is still unused, and whether [area]
    was reused. *)
Definition unmap_fixup (ops : ops_table) (mm : mm_struct) (area : vm_area_struct)
    (addr len : Z) (extra : bool) : option (mm_struct * bool * bool) :=
  let end_ := u32 (addr + len) in
  let pages := Z.shiftr len PAGE_SHIFT in
  let mm := set_counts mm (map_count mm) (u32 (total_vm mm - pages))
              (if bits (vm_flags area) VM_LOCKED then u32 (locked_vm mm - pages)
               else locked_vm mm) in
  if (addr =? vm_start area) && (end_ =? vm_end area) then
    Some (log (ops_event (has_close ops) (EvOpsClose area) area
               ++ (if vm_file area =? 0 then [] else [EvFput (vm_file area)])) mm,
          extra, false)
  else if end_ =? vm_end area then
    mm ← insert_vm_struct mm (set_range area (vm_start area) addr (vm_offset area));
    Some (mm, extra, true)
  else if addr =? vm_start area then
    mm ← insert_vm_struct mm (set_range area end_ (vm_end area)
                                (u32 (vm_offset area + (end_ - vm_start area))));
    Some (mm, extra, true)
  else if extra then
    let mpnt := set_range area end_ (vm_end area)
                  (u32 (vm_offset area + (end_ - vm_start area))) in
    let mm := log ((if vm_file mpnt =? 0 then [] else [EvGetFile (vm_file mpnt)])
                   ++ ops_event (has_open ops) (EvOpsOpen mpnt) mpnt) mm in
    mm ← insert_vm_struct mm mpnt;
    mm ← insert_vm_struct mm (set_range area (vm_start area) addr (vm_offset area));
    Some (mm, false, true)
  else None.

(** The loop of [free_pgtables]: [prev] and the areas behind it. *)
Fixpoint pgtables_loop (prev : vm_area_struct) (rest : list vm_area_struct)
    (start first last : Z) : Z * Z :=
  let done_ last := (if first <? vm_end prev then vm_end prev + PGDIR_SIZE - 1 else first, last) in
  match rest with
  | [] => done_ last
  | next :: rest' =>
    if vm_start next <? start then pgtables_loop next rest' start first last
    else done_ (if vm_start next <? last then vm_start next else last)
  end.

(** The page directory slots freed, as first and last (exclusive). *)
Definition free_pgtables_range (l : list vm_area_struct) (prev : option vm_area_struct)
    (start end_ : Z) : Z * Z :=
  let first := Z.land start PGDIR_MASK in
  let last := Z.land (u32 (end_ + PGDIR_SIZE - 1)) PGDIR_MASK in
  let '(first, last) :=
    match prev with
    | Some p => match from_vma p l with
                | [] => (first, last)
                | p' :: rest => pgtables_loop p' rest start first last
                end
    | None =>
      match l with
      | [] => (first, last)
      | p :: rest =>
        if start <? vm_end p
        then (first, if vm_end p <? last then vm_end p else last)
        else pgtables_loop p rest start first last
      end
    end in
  (Z.shiftr (u32 first) PGDIR_SHIFT, Z.shiftr last PGDIR_SHIFT).

Definition free_pgtables (mm : mm_struct) (prev : option vm_area_struct) (start end_ : Z)
  : mm_struct :=
  let '(first, last) := free_pgtables_range (mmap mm) prev start end_ in
  if first <? last then log [EvClearPageTables first (last - first)] mm else mm.

(** The areas of the list before [v]. *)
Fixpoint before_vma (v : vm_area_struct) (l : list vm_area_struct) : list vm_area_struct :=
  match l with
  | [] => []
  | x :: l' => if decide (x = v) then [] else x :: before_vma v l'
  end.

(** [if (mm->mmap_avl) avl_remove(mpnt, &mm->mmap_avl)] *)
Definition avl_remove_if (mpnt : vm_area_struct) (t : vm_avl) : option vm_avl :=
  match t with vm_avl_empty => Some vm_avl_empty | _ => avl_remove mpnt t end.

(** First loop of [do_munmap]: the areas that start below [limit] go from the
    list (from [*npp] on) to the front of the list [free]. *)
Fixpoint munmap_unlink (limit : Z) (npp free : list vm_area_struct) (t : vm_avl)
  : option (list vm_area_struct * list vm_area_struct * vm_avl) :=
  match npp with
  | [] => Some ([], free, t)
  | mpnt :: next =>
    if vm_start mpnt <? limit
    then t ← avl_remove_if mpnt t; munmap_unlink limit next (mpnt :: free) t
    else Some (npp, free, t)
  end.

(** Second loop of [do_munmap]. *)
Fixpoint munmap_free (ops : ops_table) (addr len : Z) (free : list vm_area_struct)
    (mm : mm_struct) (extra : bool) : option mm_struct :=
  match free with
  | [] => Some mm
  | mpnt :: free' =>
    let st := if addr <? vm_start mpnt then vm_start mpnt else addr in
    let end_ := u32 (addr + len) in
    let end_ := if vm_end mpnt <? end_ then vm_end mpnt else end_ in
    let size := end_ - st in
    let mm := log (ops_event (has_unmap ops) (EvOpsUnmap mpnt st size) mpnt
                   ++ remove_shared_vm_struct mpnt ++ [EvZap st size]) mm in
    let mm := set_counts mm (map_count mm - 1) (total_vm mm) (locked_vm mm) in
    '(mm, extra, _) ← unmap_fixup ops mm mpnt st size extra;
    munmap_free ops addr len free' mm extra
  end.

(** [alloc] says whether the allocation of the spare area succeeds. *)
Definition do_munmap (ops : ops_table) (alloc : bool) (mm : mm_struct) (addr len : Z)
  : option (Z * mm_struct) :=
  if negb (Z.land addr (Z.lnot PAGE_MASK) =? 0) || (TASK_SIZE <? addr) || (TASK_SIZE - addr <? len)
  then Some (- EINVAL, mm)
  else
    let len := PAGE_ALIGN len in
    if len =? 0 then Some (0, mm)
    else
      let '(found, prev) := find_vma_prev mm addr in
      match found with
      | None => Some (0, mm)
      | Some mpnt =>
        if u32 (addr + len) <=? vm_start mpnt then Some (0, mm)
        else if (vm_start mpnt <? addr) && (u32 (addr + len) <? vm_end mpnt)
                && (MAX_MAP_COUNT <=? map_count mm) then Some (- ENOMEM, mm)
        else if negb alloc then Some (- ENOMEM, mm)
        else
          let '(kept, npp) := match prev with
                              | Some p => (before_vma p (mmap mm) ++ [p], tail (from_vma p (mmap mm)))
                              | None => ([], mmap mm)
                              end in
          '(npp, free, t) ← munmap_unlink (u32 (addr + len)) npp [] (mmap_avl mm);
          mm ← munmap_free ops addr len free (set_maps mm (kept ++ npp) t) true;
          let mm := free_pgtables mm prev addr (u32 (addr + len)) in
          Some (0, set_cache mm None)
      end.

Definition sys_munmap (ops : ops_table) (alloc : bool) (mm : mm_struct) (addr len : Z)
  : option (Z * mm_struct) := do_munmap ops alloc mm addr len.

(** ** merge_segments *)

Definition can_merge (prev mpnt : vm_area_struct) : bool :=
  negb (negb (vm_file mpnt =? vm_file prev) || negb (vm_pte mpnt =? vm_pte prev)
        || negb (vm_ops mpnt =? vm_ops prev) || negb (vm_flags mpnt =? vm_flags prev)
        || negb (vm_end prev =? vm_start mpnt))
  && negb ((negb (vm_file mpnt =? 0) || bits (vm_flags mpnt) VM_SHM)
           && negb (u32 (vm_offset prev + vm_end prev - vm_start prev) =? vm_offset mpnt)).

(** The field update [v->vm_end = w->vm_end], as seen through the tree. *)
Fixpoint avl_replace (v w : vm_area_struct) (t : vm_avl) : vm_avl :=
  match t with
  | vm_avl_empty => vm_avl_empty
  | avl_node x l r h =>
    avl_node (if decide (x = v) then w else x) (avl_replace v w l) (avl_replace v w r) h
  end.

(** The loop: the areas from [prev] on, the tree, the number of areas merged
    away and what was done for them. *)
Fixpoint merge_loop (ops : ops_table) (end_addr : Z) (prev : vm_area_struct)
    (rest : list vm_area_struct) (t : vm_avl)
  : option (list vm_area_struct * vm_avl * Z * list mm_event) :=
  match rest with
  | [] => Some ([prev], t, 0, [])
  | mpnt :: next =>
    if vm_start prev <? end_addr then
      if can_merge prev mpnt then
        t ← avl_remove_if mpnt t;
        let prev' := set_range prev (vm_start prev) (vm_end mpnt) (vm_offset prev) in
        '(l, t, n, ev) ← merge_loop ops end_addr prev' next (avl_replace prev prev' t);
        let closed := set_range mpnt (vm_end mpnt) (vm_end mpnt)
                        (u32 (vm_offset mpnt + (vm_end mpnt - vm_start mpnt))) in
        let gone := if negb (vm_ops mpnt =? 0) && has_close ops (vm_ops mpnt)
                    then closed else mpnt in
        Some (l, t, n + 1, ops_event (has_close ops) (EvOpsClose closed) mpnt
              ++ remove_shared_vm_struct gone
              ++ (if vm_file mpnt =? 0 then [] else [EvFput (vm_file mpnt)]) ++ ev)
      else
        '(l, t, n, ev) ← merge_loop ops end_addr mpnt next t;
        Some (prev :: l, t, n, ev)
    else Some (prev :: rest, t, 0, [])
  end.

Definition merge_segments (ops : ops_table) (mm : mm_struct) (start_addr end_addr : Z)
  : option mm_struct :=
  let '(found, prev1) := find_vma_prev mm start_addr in
  match found with
  | None => Some mm
  | Some mpnt =>
    let prev := match prev1 with Some p => p | None => mpnt end in
    '(l, t, n, ev) ← merge_loop ops end_addr prev (tail (from_vma prev (mmap mm))) (mmap_avl mm);
    let mm := set_maps mm (before_vma prev (mmap mm) ++ l) t in
    let mm := set_counts mm (map_count mm - n) (total_vm mm) (locked_vm mm) in
    Some (set_cache (log ev mm) None)
  end.

(** ** vm_enough_memory, do_mmap, sys_brk and exit_mmap *)

(** The counters and tunables [vm_enough_memory] reads. *)
Record vm_stats := VmStats {
  sysctl_overcommit_memory : Z;
  buffermem : Z;
  page_cache_size : Z;
  nr_free_pages : Z;
  nr_swap_pages : Z;
  page_cache_min_percent : Z;
  buffer_mem_min_percent : Z;
  num_physpages : Z;
}.

Definition vm_enough_memory (s : vm_stats) (pages : Z) : bool :=
  if negb (sysctl_overcommit_memory s =? 0) then true
  else
    let free := Z.shiftr (buffermem s) PAGE_SHIFT + page_cache_size s + nr_free_pages s
                + nr_swap_pages s in
    let free := free - (page_cache_min_percent s + buffer_mem_min_percent s + 2)
                       * num_physpages s / 100 in
    pages <? free.

(** What the calls of [do_mmap] into other subsystems give: the open file (with
    its driver's [mmap] operation, which may fill in the area), the limits of
    the process, the table of page protections and the outcome of the two
    allocations. *)
Record file := File {
  f_mode : Z;
  f_is_append : bool;
  f_verify_locked : Z;
  f_op_mmap : option (vm_area_struct -> Z * vm_area_struct);
  i_writecount : Z;
}.

Record mm_env := MmEnv {
  env_ops : ops_table;
  env_stats : vm_stats;
  rlim_cur : Z -> Z;
  protection_map : Z -> Z;
  alloc_vma : bool;
  alloc_extra : bool;
}.

Definition calc_vm_flags (prot flags : Z) : Z :=
  Z.lor (Z.lor (Z.lor (Z.land prot PROT_READ) (Z.land prot PROT_WRITE)) (Z.land prot PROT_EXEC))
        (Z.lor (Z.lor (Z.land flags MAP_GROWSDOWN) (Z.land flags MAP_DENYWRITE))
               (Z.land flags MAP_EXECUTABLE)).

(** The checks of the arguments against the file. *)
Definition mmap_file_check (f : option file) (prot flags : Z) : Z :=
  match f with
  | Some fl =>
    let private := if bits (f_mode fl) 1 then 0 else - EACCES in
    if Z.land flags MAP_TYPE =? MAP_SHARED then
      if bits prot PROT_WRITE && negb (bits (f_mode fl) 2) then - EACCES
      else if f_is_append fl && bits (f_mode fl) 2 then - EACCES
      else if negb (f_verify_locked fl =? 0) then - EAGAIN
      else private
    else if Z.land flags MAP_TYPE =? MAP_PRIVATE then private
    else - EINVAL
  | None => if negb (Z.land flags MAP_TYPE =? MAP_PRIVATE) then - EINVAL else 0
  end.

Definition mmap_flags (f : option file) (mm : mm_struct) (prot flags : Z) : Z :=
  let vf := Z.lor (calc_vm_flags prot flags) (def_flags mm) in
  let may := Z.lor (Z.lor VM_MAYREAD VM_MAYWRITE) VM_MAYEXEC in
  match f with
  | Some fl =>
    let vf := if bits (f_mode fl) 1 then Z.lor vf may else vf in
    if bits flags MAP_SHARED then
      let vf := Z.lor vf (Z.lor VM_SHARED VM_MAYSHARE) in
      if negb (bits (f_mode fl) 2) then Z.land vf (Z.lnot (Z.lor VM_MAYWRITE VM_SHARED)) else vf
    else vf
  | None => Z.lor vf may
  end.

(** From the clearing of the old maps on. *)
Definition mmap_install (e : mm_env) (f : option file) (mm : mm_struct) (vma : vm_area_struct)
    (len flags : Z) : option (Z * mm_struct) :=
  '(err, mm) ← do_munmap (env_ops e) (alloc_extra e) mm (vm_start vma) len;
  if negb (err =? 0) then Some (- ENOMEM, mm)
  else if rlim_cur e RLIMIT_AS <? u32 (Z.shiftl (total_vm mm) PAGE_SHIFT + len)
  then Some (- ENOMEM, mm)
  else if (Z.land (vm_flags vma) (Z.lor VM_SHARED VM_WRITE) =? VM_WRITE)
          && negb (bits flags MAP_NORESERVE)
          && negb (vm_enough_memory (env_stats e) (Z.shiftr len PAGE_SHIFT))
  then Some (- ENOMEM, mm)
  else
    let '(err, vma, called) :=
      match f with
      | None => (0, vma, false)
      | Some fl =>
        if bits (vm_flags vma) VM_DENYWRITE && (0 <? i_writecount fl) then (- ETXTBSY, vma, false)
        else match f_op_mmap fl with Some g => (g vma, true) | None => (0, vma, false) end
      end in
    if negb (err =? 0) then
      Some (err, if (called : bool)
                 then log [EvZap (vm_start vma) (vm_end vma - vm_start vma)] mm else mm)
    else
      let vflags := vm_flags vma in
      let addr := vm_start vma in
      mm ← insert_vm_struct mm vma;
      mm ← merge_segments (env_ops e) mm (vm_start vma) (vm_end vma);
      let pages := Z.shiftr len PAGE_SHIFT in
      let mm := set_counts mm (map_count mm) (u32 (total_vm mm + pages))
                  (if bits vflags VM_LOCKED then u32 (locked_vm mm + pages) else locked_vm mm) in
      Some (addr, if bits vflags VM_LOCKED then log [EvMakePresent addr (addr + len)] mm else mm).

Definition do_mmap (e : mm_env) (f : option file) (mm : mm_struct) (addr len prot flags off : Z)
  : option (Z * mm_struct) :=
  let len := PAGE_ALIGN len in
  if len =? 0 then Some (addr, mm)
  else if (TASK_SIZE <? len) || (TASK_SIZE - len <? addr) then Some (- EINVAL, mm)
  else if u32 (off + len) <? off then Some (- EINVAL, mm)
  else if MAX_MAP_COUNT <? map_count mm then Some (- ENOMEM, mm)
  else if bits (def_flags mm) VM_LOCKED
          && (rlim_cur e RLIMIT_MEMLOCK <? u32 (Z.shiftl (locked_vm mm) PAGE_SHIFT + len))
  then Some (- EAGAIN, mm)
  else
    let err := mmap_file_check f prot flags in
    if negb (err =? 0) then Some (err, mm)
    else
      let '(err, addr, mm) :=
        if bits flags MAP_FIXED then
          (if negb (Z.land addr (Z.lnot PAGE_MASK) =? 0) then - EINVAL else 0, addr, mm)
        else let '(addr, mm) := get_unmapped_area mm addr len in
             (if addr =? 0 then - ENOMEM else 0, addr, mm) in
      if negb (err =? 0) then Some (err, mm)
      else if match f with Some fl => bool_decide (f_op_mmap fl = None) | None => false end
      then Some (- ENODEV, mm)
      else if negb (alloc_vma e) then Some (- ENOMEM, mm)
      else
        let vf := mmap_flags f mm prot flags in
        mmap_install e f mm
          (Vma addr (addr + len) (protection_map e (Z.land vf 0xf)) vf 0 off 0 0) len flags.

Definition sys_brk (e : mm_env) (mm : mm_struct) (brk_ : Z) : option (Z * mm_struct) :=
  let out mm := Some (brk mm, mm) in
  let set mm := Some (brk_, set_brk mm brk_) in
  if brk_ <? end_code mm then out mm
  else
    let newbrk := PAGE_ALIGN brk_ in
    let oldbrk := PAGE_ALIGN (brk mm) in
    if oldbrk =? newbrk then set mm
    else if brk_ <=? brk mm then
      '(err, mm) ← do_munmap (env_ops e) (alloc_extra e) mm newbrk (u32 (oldbrk - newbrk));
      if err =? 0 then set mm else out mm
    else
      let rlim := rlim_cur e RLIMIT_DATA in
      if (rlim <? RLIM_INFINITY) && (rlim <? brk_ - end_code mm) then out mm
      else
        let '(v, mm) := find_vma_intersection mm oldbrk (u32 (newbrk + PAGE_SIZE)) in
        match v with
        | Some _ => out mm
        | None =>
          if negb (vm_enough_memory (env_stats e) (Z.shiftr (u32 (newbrk - oldbrk)) PAGE_SHIFT))
          then out mm
          else
            '(r, mm) ← do_mmap e None mm oldbrk (u32 (newbrk - oldbrk))
                         (Z.lor (Z.lor PROT_READ PROT_WRITE) PROT_EXEC)
                         (Z.lor MAP_FIXED MAP_PRIVATE) 0;
            if r =? oldbrk then set mm else out mm
        end.

Definition exit_mmap_area (ops : ops_table) (mpnt : vm_area_struct) : list mm_event :=
  let size := vm_end mpnt - vm_start mpnt in
  ops_event (has_unmap ops) (EvOpsUnmap mpnt (vm_start mpnt) size) mpnt
  ++ ops_event (has_close ops) (EvOpsClose mpnt) mpnt
  ++ remove_shared_vm_struct mpnt ++ [EvZap (vm_start mpnt) size]
  ++ (if vm_file mpnt =? 0 then [] else [EvFput (vm_file mpnt)]).

Definition exit_mmap (ops : ops_table) (mm : mm_struct) : mm_struct :=
  let ev := concat (exit_mmap_area ops <$> mmap mm) in
  let mm := Mm [] vm_avl_empty None (map_count mm - Z.of_nat (length (mmap mm))) 0 0
              (def_flags mm) (end_code mm) (brk mm) (mm_log mm) in
  log (ev ++ [EvClearPageTables 0 (TASK_SIZE / PGDIR_SIZE)]) mm.

(** ** Specification: the address space as a map from addresses *)

(** What a byte of memory is backed by: flags, operations, file, and for file
    and shared memory areas the position in the object. *)
Definition attr (v : vm_area_struct) (a : Z) : Z * Z * Z * Z * Z :=
  (vm_flags v, vm_ops v, vm_file v, vm_pte v,
   if negb (vm_file v =? 0) || bits (vm_flags v) VM_SHM
   then u32 (vm_offset v + (a - vm_start v)) else 0).

Definition mapped (mm : mm_struct) (a : Z) (x : Z * Z * Z * Z * Z) : Prop :=
  exists v, v ∈ mmap mm /\ vm_start v <= a < vm_end v /\ attr v a = x.

Definition area_ok (v : vm_area_struct) : Prop :=
  0 <= vm_start v < vm_end v /\ vm_end v <= TASK_SIZE
  /\ (PAGE_SIZE | vm_start v) /\ (PAGE_SIZE | vm_end v).

Definition disjoint_areas (v w : vm_area_struct) : Prop :=
  vm_end v <= vm_start w \/ vm_end w <= vm_start v.

Definition areas_ok (l : list vm_area_struct) : Prop :=
  Forall area_ok l /\ StronglySorted (fun a b => vm_end a <= vm_start b) l.

(** The tree, when there is one, holds the areas of the list. *)
Definition maps_ok (l : list vm_area_struct) (t : vm_avl) : Prop :=
  areas_ok l /\ (t = vm_avl_empty \/ (balanced t /\ inorder t = l)).

Definition mm_ok (mm : mm_struct) : Prop :=
  maps_ok (mmap mm) (mmap_avl mm)
  /\ (forall c, mmap_cache mm = Some c -> c ∈ mmap mm)
  /\ map_count mm = Z.of_nat (length (mmap mm)).

(** ** Lemmas on lists of areas *)

Lemma areas_ok_cons v l :
  areas_ok (v :: l) <->
  area_ok v /\ areas_ok l /\ Forall (fun w => vm_end v <= vm_start w) l.
Proof. unfold areas_ok. rewrite Forall_cons, StronglySorted_cons. tauto. Qed.

Lemma areas_ok_app l1 l2 :
  areas_ok (l1 ++ l2) <->
  areas_ok l1 /\ areas_ok l2 /\ forall v w, v ∈ l1 -> w ∈ l2 -> vm_end v <= vm_start w.
Proof. unfold areas_ok. rewrite Forall_app, StronglySorted_app. naive_solver. Qed.

Lemma areas_ok_ends l : areas_ok l -> ends_sorted l.
Proof.
  unfold ends_sorted. induction l as [|v l IH]; [constructor|].
  rewrite areas_ok_cons. intros (Hv & Hl & Hs). constructor; [auto|].
  destruct Hl as [Ha _]. rewrite Forall_forall in *. intros w Hw.
  specialize (Hs w Hw). specialize (Ha w Hw) as [? _]. simpl in *. lia.
Qed.

Lemma areas_ok_elem l v : areas_ok l -> v ∈ l -> area_ok v.
Proof. intros [H _]. rewrite Forall_forall in H. auto. Qed.

Lemma areas_ok_disjoint l v w : areas_ok l -> v ∈ l -> w ∈ l -> v = w \/ disjoint_areas v w.
Proof.
  induction l as [|x l IH]; [set_solver|]. rewrite areas_ok_cons. intros (_ & Hl & Hs).
  rewrite Forall_forall in Hs. unfold disjoint_areas in *.
  intros [->|Hv]%elem_of_cons [->|Hw]%elem_of_cons; auto.
Qed.

(** Page-aligned disjoint areas below [TASK_SIZE]: there are at most 2^19. *)
Lemma areas_ok_length_from l lo :
  areas_ok l -> (forall v, v ∈ l -> lo <= vm_start v) -> lo <= TASK_SIZE ->
  lo + PAGE_SIZE * Z.of_nat (length l) <= TASK_SIZE.
Proof.
  revert lo. induction l as [|v l IH]; intros lo; [simpl; lia|].
  rewrite areas_ok_cons. intros (Hv & Hl & Hs) Hlo _. rewrite Forall_forall in Hs.
  specialize (IH (vm_end v) Hl Hs). specialize (Hlo v ltac:(set_solver)).
  destruct Hv as (? & ? & [x Hx] & [y Hy]). change PAGE_SIZE with 4096 in *. simpl length. lia.
Qed.

Lemma areas_ok_length l : areas_ok l -> Z.of_nat (length l) <= 524288.
Proof.
  intros H. pose proof (areas_ok_length_from l 0 H) as Hl.
  change PAGE_SIZE with 4096 in Hl. change TASK_SIZE with 2147483648 in Hl.
  assert (forall v, v ∈ l -> 0 <= vm_start v) as Hp.
  { intros v Hv. apply (areas_ok_elem _ _ H) in Hv as [? _]. lia. }
  specialize (Hl Hp). lia.
Qed.

#[export] Hint Resolve areas_ok_ends areas_ok_elem : kernel.

(** ** Lemmas on the searches *)

(** The reference: the first area of the sorted list that ends above [addr]. *)
Lemma find_vma_list_app l1 l2 addr :
  Forall (fun v => vm_end v <= addr) l1 ->
  find_vma_list (l1 ++ l2) addr = find_vma_list l2 addr.
Proof. induction 1 as [|v l1 Hv _ IH]; simpl; [done|]. case_match; [done|lia]. Qed.

Lemma find_vma_list_first l addr v :
  find_vma_list l addr = Some v ->
  exists l1 l2, l = l1 ++ v :: l2 /\ Forall (fun w => vm_end w <= addr) l1 /\ addr < vm_end v.
Proof.
  induction l as [|x l IH]; simpl; [done|]. case_match.
  - intros (l1 & l2 & -> & ? & ?)%IH. exists (x :: l1), l2.
    repeat split; [|done]. constructor; [lia|done].
  - intros [= <-]. exists [], l. repeat split; [constructor|lia].
Qed.

Lemma find_vma_list_none l addr :
  find_vma_list l addr = None <-> Forall (fun w => vm_end w <= addr) l.
Proof.
  induction l as [|x l IH]; simpl; [split; auto|]. rewrite Forall_cons.
  case_match; [rewrite IH; intuition lia|]. split; [done|]. lia.
Qed.

Lemma find_vma_avl_list t addr acc :
  areas_ok (inorder t) ->
  find_vma_avl t addr acc = match find_vma_list (inorder t) addr with
                            | Some v => Some v | None => acc end.
Proof.
  revert acc. induction t as [|v l IHl r IHr h]; intros acc H; simpl; [done|].
  simpl in H. apply areas_ok_app in H as (Hl & Hr & Hlr).
  apply areas_ok_cons in Hr as (Hv & Hr & _).
  assert (Forall (fun w => vm_end w <= vm_start v) (inorder l)) as Hle.
  { apply Forall_forall. intros w Hw. apply Hlr; set_solver. }
  destruct Hv as [Hv0 _]. destruct (Z.ltb_spec addr (vm_end v)) as [Hlt|Hge].
  - destruct (Z.leb_spec (vm_start v) addr).
    + rewrite find_vma_list_app.
      * simpl. destruct (Z.leb_spec (vm_end v) addr); [lia|done].
      * eapply Forall_impl; [exact Hle|]. simpl. lia.
    + rewrite IHl by done. destruct (find_vma_list (inorder l) addr) as [w|] eqn:E.
      * apply find_vma_list_first in E as (l1 & l2 & -> & ? & ?).
        rewrite <-(assoc_L (++)), find_vma_list_app by done. simpl.
        destruct (Z.leb_spec (vm_end w) addr); [lia|done].
      * apply find_vma_list_none in E. rewrite find_vma_list_app by done. simpl.
        destruct (Z.leb_spec (vm_end v) addr); [lia|done].
  - rewrite IHr by done. rewrite find_vma_list_app.
    + simpl. destruct (Z.leb_spec (vm_end v) addr); [done|lia].
    + eapply Forall_impl; [exact Hle|]. simpl. lia.
Qed.

(** The areas that end at or below [addr], at the front of the list. *)
Fixpoint ended (addr : Z) (l : list vm_area_struct) : list vm_area_struct :=
  match l with
  | [] => []
  | x :: l' => if vm_end x <=? addr then x :: ended addr l' else []
  end.

Lemma ended_app l1 l2 addr :
  Forall (fun v => vm_end v <= addr) l1 -> ended addr (l1 ++ l2) = l1 ++ ended addr l2.
Proof. induction 1 as [|v l1 Hv _ IH]; simpl; [done|]. case_match; [by rewrite IH|lia]. Qed.

Lemma ended_stop l1 v l2 addr :
  Forall (fun v => vm_end v <= addr) l1 -> addr < vm_end v -> ended addr (l1 ++ v :: l2) = l1.
Proof. intros. rewrite ended_app by done. simpl. case_match; [lia|]. by rewrite app_nil_r. Qed.

Lemma find_prev_list_spec p l addr :
  find_prev_list p l addr
  = (find_vma_list l addr, from_option Some p (last (ended addr l))).
Proof.
  revert p. induction l as [|v l IH]; intros p; simpl; [done|].
  case_match; [|done]. rewrite IH, last_cons. by destruct (last (ended addr l)).
Qed.

Lemma rightmost_last t : rightmost t = last (inorder t).
Proof.
  induction t as [|v l _ r IHr h]; [done|]. cbn [inorder]. rewrite last_app, last_cons.
  destruct r as [|v' rl rr hr]; [done|]. cbn [rightmost] in *. rewrite IHr.
  destruct (last (inorder (avl_node v' rl rr hr))) eqn:E; [done|].
  apply last_None in E. simpl in E. by destruct (inorder rl).
Qed.

Definition resolve (acc : option (vm_area_struct * vm_avl * option vm_area_struct))
  : option vm_area_struct * option vm_area_struct :=
  match acc with
  | Some (vma, lsub, prev) =>
    (Some vma, match lsub with vm_avl_empty => prev | _ => rightmost lsub end)
  | None => (None, None)
  end.

Lemma resolve_node v l p :
  resolve (Some (v, l, p)) = (Some v, from_option Some p (last (inorder l))).
Proof.
  unfold resolve. destruct l as [|w ll lr h]; [done|]. rewrite rightmost_last.
  destruct (last (inorder (avl_node w ll lr h))) eqn:E; [done|].
  apply last_None in E. simpl in E. by destruct (inorder ll).
Qed.

Lemma find_prev_avl_spec t addr ltr acc :
  areas_ok (inorder t) ->
  resolve (find_prev_avl t addr ltr acc)
  = match find_vma_list (inorder t) addr with
    | Some v => (Some v, from_option Some ltr (last (ended addr (inorder t))))
    | None => resolve acc
    end.
Proof.
  revert ltr acc. induction t as [|v l IHl r IHr h]; intros ltr acc H; [done|].
  cbn [inorder] in H. apply areas_ok_app in H as (Hl & Hr & Hlr).
  apply areas_ok_cons in Hr as (Hv & Hr & _). destruct Hv as [Hv0 _].
  assert (Forall (fun w => vm_end w <= vm_start v) (inorder l)) as Hle.
  { apply Forall_forall. intros w Hw. apply Hlr; set_solver. }
  cbn [inorder find_prev_avl]. destruct (Z.ltb_spec addr (vm_end v)) as [Hlt|Hge].
  - destruct (Z.leb_spec (vm_start v) addr) as [Hs|Hs].
    + assert (Forall (fun w => vm_end w <= addr) (inorder l)) as Hla
        by (eapply Forall_impl; [exact Hle|]; simpl; lia).
      rewrite resolve_node, find_vma_list_app, ended_stop by done. simpl.
      destruct (Z.leb_spec (vm_end v) addr); [lia|done].
    + rewrite IHl by done. destruct (find_vma_list (inorder l) addr) as [w|] eqn:E.
      * apply find_vma_list_first in E as (l1 & l2 & -> & ? & ?).
        rewrite <-(assoc_L (++)), find_vma_list_app by done. simpl.
        destruct (Z.leb_spec (vm_end w) addr); [lia|]. by rewrite !ended_stop.
      * apply find_vma_list_none in E. rewrite resolve_node, find_vma_list_app, ended_stop by done.
        simpl. destruct (Z.leb_spec (vm_end v) addr); [lia|done].
  - assert (Forall (fun w => vm_end w <= addr) (inorder l)) as Hla
      by (eapply Forall_impl; [exact Hle|]; simpl; lia).
    rewrite IHr, find_vma_list_app, ended_app by done. simpl.
    destruct (Z.leb_spec (vm_end v) addr); [|lia].
    destruct (find_vma_list (inorder r) addr); [|done].
    rewrite last_app, last_cons. by destruct (last (ended addr (inorder r))).
Qed.

Lemma find_vma_prev_spec mm addr :
  maps_ok (mmap mm) (mmap_avl mm) ->
  find_vma_list (mmap mm) addr <> None ->
  find_vma_prev mm addr = (find_vma_list (mmap mm) addr, last (ended addr (mmap mm))).
Proof.
  intros [Hl Ht] Hne. unfold find_vma_prev. destruct (mmap_avl mm) as [|v l r h] eqn:E.
  - rewrite find_prev_list_spec. by destruct (last (ended addr (mmap mm))).
  - destruct Ht as [|[_ Ht]]; [done|]. rewrite <-Ht in Hne. rewrite <-Ht in Hl |- *.
    change (resolve (find_prev_avl (avl_node v l r h) addr None None)
      = (find_vma_list (inorder (avl_node v l r h)) addr, last (ended addr (inorder (avl_node v l r h))))).
    rewrite find_prev_avl_spec by done.
    destruct (find_vma_list (inorder (avl_node v l r h)) addr); [|done].
    by destruct (last (ended addr (inorder (avl_node v l r h)))).
Qed.

Lemma find_vma_prev_none mm addr :
  maps_ok (mmap mm) (mmap_avl mm) ->
  find_vma_list (mmap mm) addr = None -> (find_vma_prev mm addr).1 = None.
Proof.
  intros [Hl Ht] Hne. unfold find_vma_prev. destruct (mmap_avl mm) as [|v l r h] eqn:E.
  - by rewrite find_prev_list_spec.
  - destruct Ht as [|[_ Ht]]; [done|]. rewrite <-Ht in Hne, Hl.
    change ((resolve (find_prev_avl (avl_node v l r h) addr None None)).1 = None).
    rewrite find_prev_avl_spec by done. by rewrite Hne.
Qed.

Lemma find_vma_list_hit l c addr :
  areas_ok l -> c ∈ l -> vm_start c <= addr < vm_end c -> find_vma_list l addr = Some c.
Proof.
  intros Hl Hc Ha. apply list_elem_of_split in Hc as (l1 & l2 & ->).
  apply areas_ok_app in Hl as (_ & _ & Hd). rewrite find_vma_list_app.
  - simpl. case_match; [lia|done].
  - apply Forall_forall. intros w Hw. specialize (Hd w c Hw ltac:(set_solver)). lia.
Qed.

Lemma find_vma_spec mm addr :
  mm_ok mm ->
  exists c, find_vma mm addr = (find_vma_list (mmap mm) addr, set_cache mm c) /\
    mm_ok (set_cache mm c).
Proof.
  intros (Hm & Hc & Hn). pose proof Hm as [Hl Ht]. unfold find_vma.
  assert (forall c, mm_ok (set_cache mm c) <-> forall x, c = Some x -> x ∈ mmap mm) as Hok.
  { intros c. unfold mm_ok. destruct mm; simpl in *. tauto. }
  assert (set_cache mm (mmap_cache mm) = mm) as Hid by (by destruct mm).
  destruct (cache_hit (mmap_cache mm) addr) eqn:Hhit.
  { exists (mmap_cache mm). rewrite Hok, Hid. split; [|done].
    destruct (mmap_cache mm) as [c|]; [|done]. simpl in Hhit.
    rewrite (find_vma_list_hit _ c); [done..|by apply Hc|lia]. }
  assert (match mmap_avl mm with
          | vm_avl_empty => find_vma_list (mmap mm) addr
          | tree => find_vma_avl tree addr None
          end = find_vma_list (mmap mm) addr) as ->.
  { destruct (mmap_avl mm) as [|v l r h]; [done|]. destruct Ht as [|[_ Ht]]; [done|].
    rewrite find_vma_avl_list by (by rewrite Ht). rewrite Ht. by case_match. }
  destruct (find_vma_list (mmap mm) addr) as [v|] eqn:E.
  - exists (Some v). split; [done|]. apply Hok. intros x [= ->].
    apply find_vma_list_first in E as (l1 & l2 & -> & _). set_solver.
  - exists (mmap_cache mm). rewrite Hok, Hid. done.
Qed.

Lemma from_vma_split v l1 l2 : v ∉ l1 -> from_vma v (l1 ++ v :: l2) = v :: l2.
Proof.
  induction l1 as [|x l1 IH]; simpl; intros H; [by rewrite decide_True by done|].
  rewrite decide_False by set_solver. apply IH. set_solver.
Qed.

Lemma before_vma_split v l1 l2 : v ∉ l1 -> before_vma v (l1 ++ v :: l2) = l1.
Proof.
  induction l1 as [|x l1 IH]; simpl; intros H; [by rewrite decide_True by done|].
  rewrite decide_False by set_solver. f_equal. apply IH. set_solver.
Qed.

(** No area of the list meets the [len] bytes at [a]. *)
Definition free_range (l : list vm_area_struct) (a len : Z) : Prop :=
  forall v, v ∈ l -> a + len <= vm_start v \/ vm_end v <= a.

Lemma unmapped_loop_spec l addr len :
  areas_ok l -> (forall v, v ∈ l -> addr < vm_end v) -> 0 < addr -> (PAGE_SIZE | addr) ->
  let r := unmapped_loop l addr len in
  (r = 0 /\ forall b, addr <= b -> b + len <= TASK_SIZE -> ~ free_range l b len) \/
  (addr <= r /\ r + len <= TASK_SIZE /\ (PAGE_SIZE | r) /\ free_range l r len /\
     forall b, addr <= b < r -> ~ free_range l b len).
Proof.
  revert addr. induction l as [|v l IH]; intros addr Hl Hge Hpos Hal r; unfold r; cbn [unmapped_loop];
    destruct (Z.ltb_spec (TASK_SIZE - len) addr).
  1,3: left; split; [done|]; intros b ? ?; lia.
  { right. repeat split; [lia..|done| |intros b ?; lia]. intros w Hw. by apply elem_of_nil in Hw. }
  apply areas_ok_cons in Hl as (Hv & Hl & Hs). rewrite Forall_forall in Hs.
  specialize (Hge v ltac:(set_solver)) as Hv1. destruct (Z.leb_spec (addr + len) (vm_start v)) as [Hf|Hf].
  { right. repeat split; [lia..|done| |]; [|intros b ?; lia].
    intros w [->|Hw]%elem_of_cons; [lia|]. specialize (Hs w Hw). destruct Hv. simpl in *. lia. }
  assert (forall b, addr <= b < vm_end v -> ~ free_range (v :: l) b len) as Hno.
  { intros b ? Hb. specialize (Hb v ltac:(set_solver)). lia. }
  destruct (IH (vm_end v) Hl) as [[-> H']|(? & ? & ? & H' & Hm)].
  - intros w Hw. specialize (Hs w Hw). apply (areas_ok_elem _ _ Hl) in Hw as [? _]. simpl in *. lia.
  - lia.
  - apply Hv.
  - left. split; [done|]. intros b Hb ? Hfr. destruct (Z.lt_ge_cases b (vm_end v)); [by apply (Hno b); [lia|]|].
    apply (H' b); [lia..|]. intros w ?. apply Hfr. set_solver.
  - right. repeat split; [lia..|done| |].
    + intros w [->|Hw]%elem_of_cons; [lia|]. by apply H'.
    + intros b Hb Hfr. destruct (Z.lt_ge_cases b (vm_end v)); [by apply (Hno b); [lia|]|].
      apply (Hm b); [lia|]. intros w ?. apply Hfr. set_solver.
Qed.

Lemma land_page_mask x : Z.land x PAGE_MASK = x - x mod 4096.
Proof.
  unfold PAGE_MASK. rewrite <-Z.ldiff_land. change (PAGE_SIZE - 1) with (Z.ones 12).
  rewrite Z.ldiff_ones_r, Z.shiftl_mul_pow2, Z.shiftr_div_pow2 by lia.
  change (2 ^ 12) with 4096. pose proof (Z.div_mod x 4096). lia.
Qed.

Lemma land_page_lnot x : Z.land x (Z.lnot PAGE_MASK) = x mod 4096.
Proof.
  unfold PAGE_MASK. rewrite Z.lnot_involutive. change (PAGE_SIZE - 1) with (Z.ones 12).
  by rewrite Z.land_ones by lia.
Qed.

(** Rounding up to a page cannot cross a page-aligned limit. *)
Lemma page_round_le a x lim :
  0 <= x < 2 ^ 31 + 1 -> (4096 | a) -> (4096 | lim) -> a + x <= lim -> a + PAGE_ALIGN x <= lim.
Proof.
  intros Hx [p Hp] [q Hq] H. unfold PAGE_ALIGN. change PAGE_SIZE with 4096.
  rewrite u32_id, land_page_mask by lia.
  pose proof (Z.div_mod (x + 4096 - 1) 4096). pose proof (Z.mod_pos_bound (x + 4096 - 1) 4096). lia.
Qed.

Lemma PAGE_ALIGN_spec x :
  0 <= x <= TASK_SIZE -> x <= PAGE_ALIGN x < x + PAGE_SIZE /\ (PAGE_SIZE | PAGE_ALIGN x).
Proof.
  change TASK_SIZE with 2147483648. change PAGE_SIZE with 4096. intros H. unfold PAGE_ALIGN.
  change PAGE_SIZE with 4096. rewrite u32_id, land_page_mask by lia.
  pose proof (Z.mod_pos_bound (x + 4096 - 1) 4096 ltac:(lia)). split; [lia|].
  exists ((x + 4096 - 1) / 4096). pose proof (Z.div_mod (x + 4096 - 1) 4096). lia.
Qed.

(** ** Lemmas on insertion *)

Lemma insert_by_start_end n l :
  area_ok n -> areas_ok l -> (forall v, v ∈ l -> disjoint_areas v n) ->
  insert_by_start n l = list_insert_end n l.
Proof.
  intros [Hn _]. induction l as [|x l IH]; intros Hl Hd; simpl; [done|].
  apply areas_ok_cons in Hl as ([Hx _] & Hl & _).
  rewrite IH; [|done|set_solver]. destruct (Hd x ltac:(set_solver)).
  - destruct (Z.leb_spec (vm_start x) (vm_start n)), (Z.ltb_spec (vm_end n) (vm_end x)); done || lia.
  - destruct (Z.leb_spec (vm_start x) (vm_start n)), (Z.ltb_spec (vm_end n) (vm_end x)); done || lia.
Qed.

Lemma insert_after_end n l :
  ends_sorted l ->
  match last_le (vm_end n) l with Some p => insert_after p n l | None => n :: l end
  = list_insert_end n l.
Proof.
  unfold last_le. induction l as [|x l IH]; intros Hs; simpl; [done|].
  apply StronglySorted_cons in Hs as [Hx Hs]. rewrite Forall_forall in Hx.
  rewrite filter_cons. destruct (Z.ltb_spec (vm_end n) (vm_end x)).
  - rewrite decide_False by lia. rewrite filter_none; [done|].
    apply Forall_forall. intros w Hw. specialize (Hx w Hw). simpl in *. lia.
  - rewrite decide_True by lia. rewrite <-(IH Hs), last_cons.
    destruct (last (filter (fun x => vm_end x <= vm_end n) l)) as [p|] eqn:E; simpl.
    + assert (p ∈ l) as Hp.
      { apply last_Some_elem_of in E. by apply list_elem_of_filter in E as [_ E]. }
      rewrite decide_False; [done|]. intros ->. specialize (Hx p Hp). simpl in *. lia.
    + by rewrite decide_True.
Qed.

Lemma list_insert_end_perm n l : list_insert_end n l ≡ₚ n :: l.
Proof. induction l as [|x l IH]; simpl; [done|]. case_match; [done|]. rewrite IH. constructor. Qed.

Lemma list_insert_end_areas n l :
  area_ok n -> areas_ok l -> (forall v, v ∈ l -> disjoint_areas v n) ->
  areas_ok (list_insert_end n l).
Proof.
  intros Hn. induction l as [|x l IH]; intros Hl Hd; simpl.
  { rewrite areas_ok_cons. done. }
  apply areas_ok_cons in Hl as (Hx & Hl & Hs). pose proof Hn as [? _]. pose proof Hx as [? _].
  destruct (Z.ltb_spec (vm_end n) (vm_end x)); rewrite !areas_ok_cons; split_and!; try done.
  - rewrite Forall_forall in *. destruct (Hd x ltac:(set_solver)); [lia|].
    intros w [->|Hw]%elem_of_cons; [done|]. specialize (Hs w Hw). simpl in *. lia.
  - apply IH; [done|set_solver].
  - rewrite Forall_forall in *. intros w [->|Hw]%list_insert_end_elem; [|auto].
    destruct (Hd x ltac:(set_solver)); lia.
Qed.

Lemma list_insert_end_last n l :
  Forall (fun v => vm_end v <= vm_end n) l -> list_insert_end n l = l ++ [n].
Proof. intros H. rewrite <-(app_nil_r l) at 1. by rewrite list_insert_end_r. Qed.

Lemma build_avl_ok l t :
  balanced t -> areas_ok (inorder t ++ l) ->
  exists t', build_avl l t = Some t' /\ balanced t' /\ inorder t' = inorder t ++ l.
Proof.
  revert t. induction l as [|v l IH]; intros t Hb Hok; simpl.
  { exists t. by rewrite app_nil_r. }
  pose proof (areas_ok_length _ Hok) as Hlen. rewrite length_app in Hlen. simpl in Hlen.
  pose proof Hok as Hok'. apply areas_ok_app in Hok' as (Ht & Hl & Hd).
  apply areas_ok_cons in Hl as ([Hv _] & _).
  destruct (avl_insert_ok v t Hb (areas_ok_ends _ Ht)) as (t' & -> & Hb' & E); [lia|].
  rewrite list_insert_end_last in E.
  - cbn [mbind option_bind]. destruct (IH t' Hb') as (t'' & -> & ? & E').
    + by rewrite E, <-(assoc_L (++)).
    + eexists. split; [done|]. split; [done|]. by rewrite E', E, <-(assoc_L (++)).
  - apply Forall_forall. intros w Hw. specialize (Hd w v Hw ltac:(set_solver)). lia.
Qed.

(** Inserting a disjoint area into the list and the tree. *)
Lemma insert_vm_struct_ok mm n :
  maps_ok (mmap mm) (mmap_avl mm) -> area_ok n ->
  (forall v, v ∈ mmap mm -> disjoint_areas v n) ->
  exists mm', insert_vm_struct mm n = Some mm' /\ mmap mm' = list_insert_end n (mmap mm)
    /\ maps_ok (mmap mm') (mmap_avl mm') /\ map_count mm' = map_count mm + 1
    /\ mmap_cache mm' = mmap_cache mm.
Proof.
  intros [Hl Ht] Hn Hd. unfold insert_vm_struct.
  pose proof (list_insert_end_areas n _ Hn Hl Hd) as Hl'.
  set (step := match mmap_avl mm with vm_avl_empty => _ | _ => _ end).
  assert (exists t, step = Some (list_insert_end n (mmap mm), t) /\
    maps_ok (list_insert_end n (mmap mm)) t) as (t & -> & Hm).
  { unfold step. pose proof (areas_ok_length _ Hl). destruct (mmap_avl mm) as [|v l r h].
    - exists vm_avl_empty. rewrite insert_by_start_end by done. split; [done|]. split; auto.
    - destruct Ht as [|[Hb E]]; [done|].
      destruct (avl_insert_ok n (avl_node v l r h) Hb) as (t & E1 & Hb' & E2);
        [rewrite E; auto with kernel|rewrite E; lia|].
      unfold avl_insert_neighbours. rewrite insert_neighbours_spec, E1 by (rewrite E; auto with kernel).
      cbn [mbind option_bind]. rewrite E in *. exists t.
      rewrite <-(insert_after_end n (mmap mm)) by auto with kernel.
      split; [by destruct (last_le (vm_end n) (mmap mm))|].
      rewrite insert_after_end by auto with kernel. split; auto. }
  cbn [mbind option_bind]. set (mm1 := set_counts _ _ _ _).
  assert (exists t', (if (AVL_MIN_MAP_COUNT <=? map_count mm1)
      && match mmap_avl mm1 with vm_avl_empty => true | _ => false end
      then build_mmap_avl mm1 else Some mm1) = Some (set_maps mm1 (mmap mm1) t')
      /\ maps_ok (mmap mm1) t') as (t' & -> & Hm').
  { unfold mm1. simpl. destruct ((AVL_MIN_MAP_COUNT <=? map_count mm + 1)
      && match t with vm_avl_empty => true | _ => false end).
    - unfold build_mmap_avl. simpl. destruct (build_avl_ok (list_insert_end n (mmap mm)) vm_avl_empty)
        as (t' & -> & ? & ?); [done..|]. eexists. split; [done|]. split; auto.
    - exists t. by destruct mm. }
  cbn [mbind option_bind]. eexists. split; [done|]. unfold mm1 in *. simpl in *.
  by destruct (vm_file n =? 0).
Qed.

(** ** Lemmas on unmapping *)

(** What is left of an area when [lo, hi) is unmapped. *)
Definition pieces (lo hi : Z) (v : vm_area_struct) : list vm_area_struct :=
  (if hi <? vm_end v
   then [set_range v hi (vm_end v) (u32 (vm_offset v + (hi - vm_start v)))] else [])
  ++ (if vm_start v <? lo then [set_range v (vm_start v) lo (vm_offset v)] else []).

Definition page_range (lo hi : Z) : Prop :=
  0 <= lo < hi /\ hi <= TASK_SIZE /\ (PAGE_SIZE | lo) /\ (PAGE_SIZE | hi).

Lemma u32_add_l a b : u32 (u32 a + b) = u32 (a + b).
Proof. unfold u32. by rewrite Zplus_mod_idemp_l. Qed.

Lemma set_range_attr v s e a :
  attr (set_range v s e (u32 (vm_offset v + (s - vm_start v)))) a = attr v a.
Proof.
  unfold attr. simpl. f_equal. case_match; [|done]. rewrite u32_add_l. f_equal. lia.
Qed.

Lemma pieces_in lo hi v w :
  area_ok v -> page_range lo hi -> lo < vm_end v -> vm_start v < hi -> w ∈ pieces lo hi v ->
  area_ok w /\ vm_start v <= vm_start w /\ vm_end w <= vm_end v /\
  (vm_end w <= lo \/ hi <= vm_start w).
Proof.
  intros (? & ? & ? & ?) (? & ? & ? & ?) ? ?. unfold pieces.
  intros [Hw|Hw]%elem_of_app; case_match; try by apply elem_of_nil in Hw.
  all: apply list_elem_of_singleton in Hw as ->; unfold area_ok; simpl; split_and!; try done; lia.
Qed.

Lemma pieces_attr lo hi v a x :
  lo < vm_end v -> vm_start v < hi ->
  (exists w, w ∈ pieces lo hi v /\ vm_start w <= a < vm_end w /\ attr w a = x)
  <-> vm_start v <= a < vm_end v /\ attr v a = x /\ ~ lo <= a < hi.
Proof.
  intros Hlo Hhi. unfold pieces. split.
  - intros (w & [Hw|Hw]%elem_of_app & Ha & <-); case_match; try by apply elem_of_nil in Hw.
    + apply list_elem_of_singleton in Hw as ->. rewrite set_range_attr. simpl in *.
      split_and!; [lia|lia|done|lia].
    + apply list_elem_of_singleton in Hw as ->. simpl in *. split_and!; [lia|lia|done|lia].
  - intros (Ha & <- & Hn). destruct (Z.lt_ge_cases a lo).
    + eexists. split; [apply elem_of_app; right|].
      * destruct (Z.ltb_spec (vm_start v) lo); [|lia]. by apply list_elem_of_singleton.
      * simpl. split; [lia|done].
    + eexists. split; [apply elem_of_app; left|].
      * destruct (Z.ltb_spec hi (vm_end v)); [|lia]. by apply list_elem_of_singleton.
      * rewrite set_range_attr. simpl. split; [lia|done].
Qed.

Definition makes_hole (lo hi : Z) (v : vm_area_struct) : Prop := vm_start v < lo /\ hi < vm_end v.

Lemma unmap_fixup_ok ops mm v lo hi extra :
  maps_ok (mmap mm) (mmap_avl mm) -> area_ok v -> page_range lo hi ->
  lo < vm_end v -> vm_start v < hi -> (forall w, w ∈ mmap mm -> disjoint_areas w v) ->
  (makes_hole lo hi v -> extra = true) ->
  let st := Z.max lo (vm_start v) in
  let e := Z.min hi (vm_end v) in
  exists mm' extra' r, unmap_fixup ops mm v st (e - st) extra = Some (mm', extra', r)
    /\ mmap mm' ≡ₚ pieces lo hi v ++ mmap mm /\ maps_ok (mmap mm') (mmap_avl mm')
    /\ map_count mm' = map_count mm + Z.of_nat (length (pieces lo hi v))
    /\ mmap_cache mm' = mmap_cache mm /\ (~ makes_hole lo hi v -> extra' = extra).
Proof.
  intros Hm Hv Hr Hlo Hhi Hd Hex st e. unfold unmap_fixup.
  pose proof Hv as (Hv0 & Hv1 & _). pose proof Hr as (Hr0 & Hr1 & _).
  rewrite u32_id by (change TASK_SIZE with 2147483648 in *; lia).
  replace (st + (e - st)) with e by lia. set (mm1 := set_counts _ _ _ _).
  assert (forall w, w ∈ pieces lo hi v -> area_ok w /\ forall x, x ∈ mmap mm -> disjoint_areas x w) as Hp.
  { intros w Hw. destruct (pieces_in lo hi v w) as (? & ? & ? & ?); [done..|]. split; [done|].
    intros x Hx. specialize (Hd x Hx). unfold disjoint_areas in *. lia. }
  unfold pieces in *. unfold makes_hole in *. unfold st, e.
  destruct (Z.ltb_spec hi (vm_end v)) as [H2|H2], (Z.ltb_spec (vm_start v) lo) as [H1|H1];
    rewrite ?Z.max_l, ?Z.max_r, ?Z.min_l, ?Z.min_r by lia.
  - destruct (Z.eqb_spec lo (vm_start v)); [lia|]. simpl.
    destruct (Z.eqb_spec hi (vm_end v)); [lia|]. rewrite Hex by done. set (mm2 := log _ mm1).
    destruct (Hp _ ltac:(apply elem_of_app; left; by apply list_elem_of_singleton)) as [Ho1 Hd1].
    destruct (Hp _ ltac:(apply elem_of_app; right; by apply list_elem_of_singleton)) as [Ho2 Hd2].
    destruct (insert_vm_struct_ok mm2 _ Hm Ho1 Hd1) as (mm3 & -> & E3 & Hm3 & Hc3 & Hk3).
    cbn [mbind option_bind].
    destruct (insert_vm_struct_ok mm3 _ Hm3 Ho2) as (mm4 & -> & E4 & Hm4 & Hc4 & Hk4).
    { intros w. rewrite E3, list_insert_end_elem. intros [->|Hw]; [|by apply Hd2].
      right. simpl. lia. }
    cbn [mbind option_bind]. eexists _, _, _. split_and!; [done| |done| |by rewrite Hk4|tauto].
    + rewrite E4, E3, !list_insert_end_perm. simpl. constructor.
    + rewrite Hc4, Hc3. simpl. lia.
  - destruct (Z.eqb_spec (vm_start v) (vm_start v)); [|lia].
    destruct (Z.eqb_spec hi (vm_end v)); [lia|]. simpl.
    destruct (Hp _ ltac:(rewrite app_nil_r; by apply list_elem_of_singleton)) as [Ho1 Hd1].
    destruct (insert_vm_struct_ok mm1 _ Hm Ho1 Hd1) as (mm3 & -> & E3 & Hm3 & Hc3 & Hk3).
    cbn [mbind option_bind]. eexists _, _, _. split_and!; [done| |done|done|done|done].
    by rewrite E3, list_insert_end_perm.
  - destruct (Z.eqb_spec lo (vm_start v)); [lia|]. simpl.
    destruct (Z.eqb_spec (vm_end v) (vm_end v)); [|lia].
    destruct (Hp _ ltac:(by apply list_elem_of_singleton)) as [Ho1 Hd1].
    destruct (insert_vm_struct_ok mm1 _ Hm Ho1 Hd1) as (mm3 & -> & E3 & Hm3 & Hc3 & Hk3).
    cbn [mbind option_bind]. eexists _, _, _. split_and!; [done| |done|done|done|done].
    by rewrite E3, list_insert_end_perm.
  - rewrite !Z.eqb_refl. simpl. eexists _, _, _. split_and!; [done|done|done|simpl; lia|done|done].
Qed.

(** The second loop: every area on the free list is replaced by its pieces. *)
Lemma munmap_free_ok ops lo len free mm extra :
  let hi := lo + len in
  maps_ok (mmap mm) (mmap_avl mm) -> page_range lo hi ->
  (forall v, v ∈ free -> area_ok v /\ lo < vm_end v /\ vm_start v < hi
             /\ forall w, w ∈ mmap mm -> disjoint_areas w v) ->
  StronglySorted disjoint_areas free ->
  (forall v, v ∈ free -> makes_hole lo hi v -> extra = true) ->
  exists mm', munmap_free ops lo len free mm extra = Some mm'
    /\ mmap mm' ≡ₚ concat (pieces lo hi <$> free) ++ mmap mm
    /\ maps_ok (mmap mm') (mmap_avl mm')
    /\ map_count mm' = map_count mm - Z.of_nat (length free)
                       + Z.of_nat (length (concat (pieces lo hi <$> free))).
Proof.
  intros hi. revert mm extra. induction free as [|v free IH]; intros mm extra Hm Hr Hf Hs Hex.
  { exists mm. split_and!; [done..|simpl; lia]. }
  destruct (Hf v ltac:(set_solver)) as (Hv & Hlo & Hhi & Hd).
  apply StronglySorted_cons in Hs as [Hsv Hs]. rewrite Forall_forall in Hsv.
  cbn [munmap_free].
  rewrite u32_id by (destruct Hr as (? & ? & _); change TASK_SIZE with 2147483648 in *; unfold hi in *; lia).
  fold hi. set (mm1 := set_counts _ _ _ _).
  replace (if lo <? vm_start v then vm_start v else lo) with (Z.max lo (vm_start v))
    by (destruct (Z.ltb_spec lo (vm_start v)); lia).
  replace (if vm_end v <? hi then vm_end v else hi) with (Z.min hi (vm_end v))
    by (destruct (Z.ltb_spec (vm_end v) hi); lia).
  destruct (unmap_fixup_ok ops mm1 v lo hi extra) as (mm2 & extra' & r & -> & E & Hm2 & Hc & _ & Hx);
    [done..|by apply Hex; set_solver|].
  cbn [mbind option_bind]. destruct (IH mm2 extra') as (mm3 & -> & E3 & Hm3 & Hc3); try done.
  - intros w Hw. destruct (Hf w ltac:(set_solver)) as (Hw0 & ? & ? & Hdw). split_and!; try done.
    intros x. rewrite E. intros [Hx'|Hx']%elem_of_app; [|by apply Hdw].
    destruct (pieces_in lo hi v x) as (_ & ? & ? & _); [done..|].
    specialize (Hsv w Hw). unfold disjoint_areas in *. lia.
  - intros w Hw Hh. rewrite Hx; [apply (Hex w); [set_solver|done]|]. intros [? ?].
    destruct Hh. destruct (Hf w ltac:(set_solver)) as ([? _] & _). destruct (Hsv w Hw); lia.
  - exists mm3. split_and!; [done| |done|].
    + rewrite E3, E. simpl. rewrite <-!(assoc_L (++)). by rewrite Permutation_app_swap_app.
    + rewrite fmap_cons. cbn [concat length]. rewrite length_app, Hc3, Hc. unfold mm1.
      cbn [map_count set_counts log]. lia.
Qed.

Lemma avl_remove_if_ok kept v rest t :
  maps_ok (kept ++ v :: rest) t ->
  exists t', avl_remove_if v t = Some t' /\ maps_ok (kept ++ rest) t'.
Proof.
  intros [Hl Ht]. assert (areas_ok (kept ++ rest)) as Hl'.
  { apply areas_ok_app in Hl as (Hk & Hn & Hd). apply areas_ok_cons in Hn as (_ & Hn & _).
    apply areas_ok_app. split_and!; [done..|]. intros x y ? ?. apply Hd; set_solver. }
  destruct t as [|x l r h]; [exists vm_avl_empty; split; [done|]; split; auto|].
  destruct Ht as [|[Hb E]]; [done|]. pose proof (areas_ok_length _ Hl).
  destruct (avl_remove_ok v (avl_node x l r h) Hb) as (t' & E' & Hb' & Et);
    [rewrite E; auto with kernel|rewrite E; lia|rewrite E; set_solver|].
  exists t'. split; [done|]. split; [done|]. right. split; [done|].
  rewrite Et, E. apply remove_key_filter; auto with kernel.
Qed.

(** The first loop: the areas that start below [limit] leave the list and the
    tree. *)
Lemma munmap_unlink_ok limit kept npp free t :
  maps_ok (kept ++ npp) t ->
  exists gone rest t', munmap_unlink limit npp free t = Some (rest, reverse gone ++ free, t')
    /\ npp = gone ++ rest /\ Forall (fun v => vm_start v < limit) gone
    /\ Forall (fun v => limit <= vm_start v) rest /\ maps_ok (kept ++ rest) t'.
Proof.
  revert free t. induction npp as [|v npp IH]; intros free t Hm; simpl.
  { exists [], [], t. split_and!; done. }
  pose proof Hm as [Hl Ht]. pose proof Hl as Hl0. apply areas_ok_app in Hl0 as (Hk & Hn & Hd).
  apply areas_ok_cons in Hn as ((Hv & _) & Hn & Hs). destruct (Z.ltb_spec (vm_start v) limit) as [Hlt|Hge].
  - destruct (avl_remove_if_ok kept v npp t Hm) as (t' & -> & Hm').
    cbn [mbind option_bind]. destruct (IH (v :: free) t' Hm') as (gone & rest & t'' & -> & -> & ? & ? & ?).
    exists (v :: gone), rest, t''. split_and!; try done; [|by constructor].
    by rewrite reverse_cons, <-(assoc_L (++)).
  - exists [], (v :: npp), t. split_and!; try done. constructor; [done|].
    rewrite Forall_forall in *. intros w Hw. specialize (Hs w Hw). simpl in *. lia.
Qed.

Lemma split_at_prev l1 l2 :
  areas_ok (l1 ++ l2) ->
  match last l1 with
  | Some p => (before_vma p (l1 ++ l2) ++ [p], tail (from_vma p (l1 ++ l2)))
  | None => ([], l1 ++ l2)
  end = (l1, l2).
Proof.
  intros Hok. destruct l1 as [|p l1 _] using rev_ind; [done|]. rewrite last_snoc.
  assert (p ∉ l1) as Hp.
  { apply areas_ok_app in Hok as (Hok & _). apply areas_ok_app in Hok as (_ & Hp & Hd).
    intros Hin. specialize (Hd p p Hin ltac:(set_solver)). apply areas_ok_cons in Hp as ([? _] & _). lia. }
  rewrite <-(assoc_L (++)). simpl. by rewrite before_vma_split, from_vma_split.
Qed.

Lemma areas_ok_reverse_disjoint l : areas_ok l -> StronglySorted disjoint_areas (reverse l).
Proof.
  induction l as [|v l IH]; [intros; constructor|]. rewrite areas_ok_cons. intros (_ & Hl & Hs).
  rewrite reverse_cons. apply StronglySorted_app. split_and!; [|auto|repeat constructor].
  intros x y Hx ->%list_elem_of_singleton. rewrite elem_of_reverse in Hx.
  rewrite Forall_forall in Hs. right. by apply Hs.
Qed.

Lemma free_pgtables_log mm prev s e : exists ev, free_pgtables mm prev s e = log ev mm.
Proof.
  unfold free_pgtables. destruct (free_pgtables_range _ _ _ _). case_match; [eauto|].
  exists []. destruct mm. unfold log. simpl. by rewrite app_nil_r.
Qed.

(** The part of [do_munmap] behind its checks. *)
Lemma munmap_body_ok ops mm v l1 l2 lo len :
  mm_ok mm -> mmap mm = l1 ++ v :: l2 -> Forall (fun w => vm_end w <= lo) l1 -> lo < vm_end v ->
  page_range lo (lo + len) ->
  exists rest free t mm', munmap_unlink (lo + len) (v :: l2) [] (mmap_avl mm) = Some (rest, free, t)
    /\ munmap_free ops lo len free (set_maps mm (l1 ++ rest) t) true = Some mm'
    /\ maps_ok (mmap mm') (mmap_avl mm') /\ map_count mm' = Z.of_nat (length (mmap mm'))
    /\ forall a x, mapped mm' a x <-> mapped mm a x /\ ~ lo <= a < lo + len.
Proof.
  intros (Hm & _ & Hcnt) E H1 Hv Hr. pose proof Hm as [Hl _]. rewrite E in Hm, Hl.
  destruct (munmap_unlink_ok (lo + len) l1 (v :: l2) [] _ Hm)
    as (gone & rest & t & -> & E2 & Hg & Hrest & Hm').
  rewrite app_nil_r. exists rest, (reverse gone), t. rewrite E2 in Hl.
  apply areas_ok_app in Hl as (Hl1 & Hl2 & Hd1). apply areas_ok_app in Hl2 as (Hgone & Hre & Hd2).
  rewrite Forall_forall in H1, Hg, Hrest.
  assert (forall w, w ∈ gone -> lo < vm_end w) as Hge.
  { intros w Hw. destruct gone as [|v' gone]; [by apply elem_of_nil in Hw|]. injection E2 as <- _.
    apply elem_of_cons in Hw as [->|Hw]; [done|]. apply areas_ok_cons in Hgone as (_ & Hgo & Hs).
    rewrite Forall_forall in Hs. specialize (Hs w Hw). apply (areas_ok_elem _ _ Hgo) in Hw as [? _].
    simpl in *. lia. }
  destruct (munmap_free_ok ops lo len (reverse gone) (set_maps mm (l1 ++ rest) t) true)
    as (mm' & Ef & Ep & Hm2 & Hc); [done..| |by apply areas_ok_reverse_disjoint|done|].
  { intros w Hw. rewrite elem_of_reverse in Hw. split_and!; [exact (areas_ok_elem _ _ Hgone Hw)|auto|by apply Hg|].
    intros x [Hx|Hx]%elem_of_app; [left; apply Hd1; [done|]; apply elem_of_app; by left|right; by apply Hd2]. }
  exists mm'. split_and!; try done.
  { rewrite Hc, Ep. simpl. rewrite Hcnt, E, E2, !length_app, length_reverse. lia. }
  intros a x. unfold mapped. rewrite E, E2. setoid_rewrite Ep. simpl. split.
  - intros (w & [Hw|[Hw|Hw]%elem_of_app]%elem_of_app & Ha & Hx).
    + apply list_elem_of_In, in_concat in Hw as (ps & Hps%list_elem_of_In & Hw%list_elem_of_In).
      apply list_elem_of_fmap in Hps as (u & -> & Hu). rewrite elem_of_reverse in Hu.
      destruct (proj1 (pieces_attr lo (lo + len) u a x (Hge u Hu) (Hg u Hu))) as (? & ? & ?); [by eauto|].
      split; [|done]. exists u. rewrite !elem_of_app. tauto.
    + specialize (H1 w Hw). simpl in *. split; [|lia]. exists w. rewrite !elem_of_app. tauto.
    + specialize (Hrest w Hw). simpl in *. split; [|lia]. exists w. rewrite !elem_of_app. tauto.
  - intros ((w & [Hw|[Hw|Hw]%elem_of_app]%elem_of_app & Ha & Hx) & Hn).
    + exists w. rewrite !elem_of_app. tauto.
    + destruct (proj2 (pieces_attr lo (lo + len) w a x (Hge w Hw) (Hg w Hw))) as (u & Hu & ? & ?); [done|].
      exists u. split; [|done]. apply elem_of_app. left. apply list_elem_of_In, in_concat.
      exists (pieces lo (lo + len) w). rewrite <-!list_elem_of_In. split; [|done].
      apply list_elem_of_fmap. exists w. by rewrite elem_of_reverse.
    + exists w. rewrite !elem_of_app. tauto.
Qed.

Lemma munmap_args addr len :
  negb (Z.land addr (Z.lnot PAGE_MASK) =? 0) || (TASK_SIZE <? addr) || (TASK_SIZE - addr <? len) = false
  -> 0 <= len -> (PAGE_SIZE | addr) /\ addr + len <= TASK_SIZE.
Proof.
  rewrite land_page_lnot. intros H ?. split; [|lia]. apply Z.mod_divide; [done|].
  change PAGE_SIZE with 4096. lia.
Qed.

Lemma munmap_bad_args addr len :
  negb (Z.land addr (Z.lnot PAGE_MASK) =? 0) || (TASK_SIZE <? addr) || (TASK_SIZE - addr <? len) = true
  -> 0 <= len -> ~ ((PAGE_SIZE | addr) /\ addr + len <= TASK_SIZE).
Proof.
  rewrite land_page_lnot. intros H ? [Hd%Z.mod_divide ?]; [|done].
  change PAGE_SIZE with 4096 in Hd. lia.
Qed.

(** No area meets the range: unmapping it would change nothing. *)
Lemma mapped_outside mm lo hi :
  free_range (mmap mm) lo (hi - lo) ->
  forall a x, mapped mm a x <-> mapped mm a x /\ ~ lo <= a < hi.
Proof.
  intros H a x. split; [|tauto]. intros (w & Hw & Ha & Hx). split; [by exists w|].
  specialize (H w Hw). lia.
Qed.

Lemma areas_gap l1 v l2 lo hi :
  areas_ok (l1 ++ v :: l2) -> Forall (fun w => vm_end w <= lo) l1 -> hi <= vm_start v ->
  free_range (l1 ++ v :: l2) lo (hi - lo).
Proof.
  intros (_ & Hl & _)%areas_ok_app H1 Hv w Hw. apply areas_ok_cons in Hl as ([? _] & _ & Hs).
  rewrite Forall_forall in *. rewrite elem_of_app, elem_of_cons in Hw. destruct Hw as [Hw|[->|Hw]].
  - right. by apply H1.
  - left. lia.
  - specialize (Hs w Hw). simpl in *. lia.
Qed.

(** [do_munmap] behind the checks of its arguments. *)
Lemma do_munmap_range ops alloc mm addr len :
  mm_ok mm -> 0 <= len -> (PAGE_SIZE | addr) -> 0 <= addr -> addr + len <= TASK_SIZE ->
  exists ret mm', do_munmap ops alloc mm addr len = Some (ret, mm') /\ mm_ok mm'
    /\ (ret = 0 \/ (mm' = mm /\ ret = - ENOMEM))
    /\ (ret = 0 -> forall a x,
          mapped mm' a x <-> mapped mm a x /\ ~ addr <= a < addr + PAGE_ALIGN len).
Proof.
  intros Hmm Hlen Hal Ha Hend. unfold do_munmap.
  destruct (negb _ || _ || _) eqn:Eb; [by apply munmap_bad_args in Eb; [destruct Eb|]|].
  destruct (PAGE_ALIGN_spec len) as [Hpl Hpd]; [lia|].
  assert (addr + PAGE_ALIGN len <= TASK_SIZE) as Hend'.
  { apply page_round_le; try done; [change TASK_SIZE with 2147483648 in *; lia|by exists 524288]. }
  set (plen := PAGE_ALIGN len) in *. rewrite !u32_id by (change TASK_SIZE with 2147483648 in *; lia).
  pose proof Hmm as (Hm & Hc & Hcnt). pose proof Hm as [Hl _].
  assert (free_range (mmap mm) addr (addr + plen - addr) -> exists ret mm', Some (0, mm) = Some (ret, mm')
    /\ mm_ok mm' /\ (ret = 0 \/ mm' = mm /\ ret = - ENOMEM) /\ (ret = 0 -> forall a x,
       mapped mm' a x <-> mapped mm a x /\ ~ addr <= a < addr + plen)) as Hnothing.
  { intros Hf. exists 0, mm. split_and!; auto. intros _. by apply mapped_outside. }
  destruct (Z.eqb_spec plen 0) as [E0|E0].
  { exists 0, mm. split_and!; auto. intros _ a x. intuition lia. }
  destruct (find_vma_list (mmap mm) addr) as [v|] eqn:Ef; cycle 1.
  { pose proof (find_vma_prev_none mm addr Hm Ef) as En. destruct (find_vma_prev mm addr) as [f q].
    simpl in En. subst f. apply Hnothing. apply find_vma_list_none in Ef.
    rewrite Forall_forall in Ef. intros w Hw. right. by apply Ef. }
  rewrite find_vma_prev_spec by (done || by rewrite Ef). rewrite Ef.
  apply find_vma_list_first in Ef as (l1 & l2 & E & H1 & Hv). rewrite E, ended_stop by done.
  destruct (Z.leb_spec (addr + plen) (vm_start v)) as [Hgap|Hmeet].
  { apply Hnothing. rewrite E in *. by apply areas_gap. }
  case_match; [by exists (- ENOMEM), mm; split_and!; auto|].
  destruct alloc; [|by exists (- ENOMEM), mm; split_and!; auto]. cbn [negb].
  rewrite split_at_prev by (by rewrite <-E).
  destruct (munmap_body_ok ops mm v l1 l2 addr plen Hmm E H1 Hv)
    as (rest & free & t & mm' & -> & Ef & Hm' & Hc' & Hmap).
  { split_and!; [lia..|done|by apply Z.divide_add_r]. }
  cbn [mbind option_bind]. rewrite Ef. cbn [mbind option_bind].
  destruct (free_pgtables_log mm' (last l1) addr (addr + plen)) as [ev ->].
  eexists 0, _. split_and!; [done| |by left|by intros _]. split_and!; [done..| |done]. done.
Qed.

(** ** Lemmas on merging *)

Definition covers (l : list vm_area_struct) (a : Z) (x : Z * Z * Z * Z * Z) : Prop :=
  exists v, v ∈ l /\ vm_start v <= a < vm_end v /\ attr v a = x.

Lemma area_covers_cons v l a x :
  covers (v :: l) a x <-> (vm_start v <= a < vm_end v /\ attr v a = x) \/ covers l a x.
Proof.
  unfold covers. split.
  - intros (w & [->|Hw]%elem_of_cons & H); [by left|right; eauto].
  - intros [H|(w & Hw & H)]; eexists; (split; [apply elem_of_cons|exact H]); auto.
Qed.

Lemma area_covers_app l1 l2 a x : covers (l1 ++ l2) a x <-> covers l1 a x \/ covers l2 a x.
Proof.
  unfold covers. setoid_rewrite elem_of_app. split.
  - intros (w & [Hw|Hw] & H); eauto.
  - intros [(w & Hw & H)|(w & Hw & H)]; eauto.
Qed.

Lemma avl_replace_heightof v w t : heightof (avl_replace v w t) = heightof t.
Proof. by destruct t. Qed.

Lemma avl_replace_balanced v w t : balanced t -> balanced (avl_replace v w t).
Proof.
  induction t as [|x l IHl r IHr h]; simpl; [done|]. rewrite !balanced_node, !avl_replace_heightof.
  intuition.
Qed.

Lemma avl_replace_inorder v w t l1 l2 :
  inorder t = l1 ++ v :: l2 -> v ∉ l1 -> v ∉ l2 -> inorder (avl_replace v w t) = l1 ++ w :: l2.
Proof.
  assert (inorder (avl_replace v w t)
          = (fun x => if decide (x = v) then w else x) <$> inorder t) as ->.
  { induction t as [|x l IHl r IHr h]; simpl; [done|]. by rewrite IHl, IHr, fmap_app. }
  intros -> H1 H2. rewrite fmap_app, fmap_cons, decide_True by done.
  assert (forall l : list vm_area_struct, v ∉ l -> (fun x => if decide (x = v) then w else x) <$> l = l) as Hid.
  { induction l as [|y l IH]; [done|]. intros Hn. rewrite fmap_cons, decide_False, IH; set_solver. }
  by rewrite !Hid.
Qed.

Lemma merged_attr prev mpnt a x :
  can_merge prev mpnt = true -> area_ok prev -> area_ok mpnt ->
  let prev' := set_range prev (vm_start prev) (vm_end mpnt) (vm_offset prev) in
  (vm_start prev' <= a < vm_end prev' /\ attr prev' a = x) <->
  (vm_start prev <= a < vm_end prev /\ attr prev a = x)
  \/ (vm_start mpnt <= a < vm_end mpnt /\ attr mpnt a = x).
Proof.
  intros Hc (? & _) (? & _) prev'. unfold can_merge in Hc.
  assert (vm_end prev = vm_start mpnt) as E by lia.
  assert (attr prev' a = attr prev a) as -> by done.
  assert (attr mpnt a = attr prev a) as ->.
  { unfold attr. assert (vm_file mpnt = vm_file prev /\ vm_pte mpnt = vm_pte prev
      /\ vm_ops mpnt = vm_ops prev /\ vm_flags mpnt = vm_flags prev) as (-> & -> & -> & ->) by lia.
    f_equal. case_match; [|done].
    assert (vm_offset mpnt = u32 (vm_offset prev + vm_end prev - vm_start prev)) as ->.
    { assert (vm_file mpnt = vm_file prev /\ vm_flags mpnt = vm_flags prev) as [Ef Eg] by lia.
      rewrite <-Ef, <-Eg in *. lia. }
    rewrite u32_add_l. f_equal. lia. }
  simpl. split.
  - intros [? ?]. destruct (Z.lt_ge_cases a (vm_end prev)); [left|right]; split; (done || lia).
  - intros [[? ?]|[? ?]]; split; (done || lia).
Qed.

Lemma merge_loop_ok ops end_addr kept prev rest t :
  maps_ok (kept ++ prev :: rest) t ->
  exists l t' n ev, merge_loop ops end_addr prev rest t = Some (l, t', n, ev)
    /\ maps_ok (kept ++ l) t' /\ Z.of_nat (length l) + n = 1 + Z.of_nat (length rest)
    /\ forall a x, covers l a x <-> covers (prev :: rest) a x.
Proof.
  revert kept prev t. induction rest as [|mpnt rest IH]; intros kept prev t Hm; cbn [merge_loop].
  { exists [prev], t, 0, []. split_and!; done. }
  pose proof Hm as [Hl _]. pose proof Hl as Hl0. apply areas_ok_app in Hl0 as (Hk & Hp & Hd).
  apply areas_ok_cons in Hp as (Hprev & Hr & Hs). apply areas_ok_cons in Hr as (Hmp & Hr & Hs2).
  rewrite Forall_forall in Hs, Hs2.
  destruct (vm_start prev <? end_addr); [|by exists (prev :: mpnt :: rest), t, 0, []; split_and!; try done; simpl; lia].
  destruct (can_merge prev mpnt) eqn:Hc.
  - replace (kept ++ prev :: mpnt :: rest) with ((kept ++ [prev]) ++ mpnt :: rest) in Hm
      by (by rewrite <-(assoc_L (++))).
    destruct (avl_remove_if_ok _ _ _ _ Hm) as (t1 & -> & Hm1). cbn [mbind option_bind].
    rewrite <-(assoc_L (++)) in Hm1. simpl in Hm1. set (prev' := set_range prev _ _ _).
    assert ((prev ∉ kept) /\ (prev ∉ rest)) as [Hn1 Hn2].
    { destruct Hprev as [? _], Hmp as [? _]. split; intros Hin.
      - specialize (Hd prev prev Hin ltac:(set_solver)). lia.
      - specialize (Hs prev ltac:(set_solver)). simpl in *. lia. }
    assert (maps_ok (kept ++ prev' :: rest) (avl_replace prev prev' t1)) as Hm2.
    { destruct Hm1 as [_ Ht1]. assert (vm_end prev = vm_start mpnt) by (unfold can_merge in Hc; lia).
      destruct Hprev as (? & ? & ? & ?), Hmp as (? & ? & ? & ?). split.
      - apply areas_ok_app. split_and!; [done| |].
        + apply areas_ok_cons. split_and!; [split_and!; simpl; try done; lia|done|by apply Forall_forall].
        + intros y z Hy [->|Hz]%elem_of_cons; [apply (Hd y prev); set_solver|].
          apply (Hd y z); [done|]. set_solver.
      - destruct Ht1 as [->|[Hb E]]; [by left|]. right. split; [by apply avl_replace_balanced|].
        by apply avl_replace_inorder. }
    destruct (IH kept prev' _ Hm2) as (l & t' & n & ev & -> & Hm' & Hlen & Hcov).
    cbn [mbind option_bind]. eexists _, _, _, _. split_and!; [done|done|simpl length in *; lia|].
    intros a x. rewrite Hcov, !area_covers_cons.
    pose proof (merged_attr prev mpnt a x Hc Hprev Hmp) as Hat. cbv zeta in Hat.
    unfold prev'. tauto.
  - destruct (IH (kept ++ [prev]) mpnt t) as (l & t' & n & ev & -> & Hm' & Hlen & Hcov).
    { by rewrite <-(assoc_L (++)). }
    cbn [mbind option_bind]. rewrite <-(assoc_L (++)) in Hm'. eexists _, _, _, _.
    split_and!; [done|done|simpl length in *; lia|]. intros a x. by rewrite !(area_covers_cons prev), Hcov.
Qed.

Lemma merge_segments_ok ops mm s e :
  mm_ok mm ->
  exists mm', merge_segments ops mm s e = Some mm' /\ mm_ok mm'
    /\ (forall a x, mapped mm' a x <-> mapped mm a x).
Proof.
  intros Hmm. pose proof Hmm as (Hm & Hc & Hcnt). unfold merge_segments.
  destruct (find_vma_list (mmap mm) s) as [v|] eqn:Ef; cycle 1.
  { pose proof (find_vma_prev_none mm s Hm Ef) as En. destruct (find_vma_prev mm s) as [f q].
    simpl in En. subst f. eauto. }
  rewrite find_vma_prev_spec by (done || by rewrite Ef). rewrite Ef.
  apply find_vma_list_first in Ef as (l1 & l2 & E & H1 & Hv). rewrite E, ended_stop by done.
  set (prev := match last l1 with Some p => p | None => v end).
  assert (exists kept rest, mmap mm = kept ++ prev :: rest /\ prev ∉ kept) as (kept & rest & E' & Hnp).
  { unfold prev. destruct l1 as [|p l1 _] using rev_ind; [by exists [], l2; split; [|set_solver]|].
    rewrite last_snoc. rewrite <-(assoc_L (++)) in E. exists l1, (v :: l2). split; [done|].
    intros Hin. destruct Hm as [Hl _]. rewrite E in Hl. apply areas_ok_app in Hl as (_ & Hl & Hd).
    specialize (Hd p p Hin ltac:(set_solver)). apply areas_ok_cons in Hl as ([? _] & _). lia. }
  rewrite <-E, E', from_vma_split, before_vma_split by done. cbn [tail].
  rewrite E' in Hm. destruct (merge_loop_ok ops e kept prev rest _ Hm)
    as (l & t' & n & ev & -> & Hm' & Hlen & Hcov).
  cbn [mbind option_bind]. eexists. split; [done|]. split.
  - split_and!; [done|done|]. simpl. rewrite Hcnt, E', !length_app. simpl length. lia.
  - intros a x. change (covers (kept ++ l) a x <-> covers (mmap mm) a x).
    by rewrite E', !area_covers_app, Hcov.
Qed.

(** Installing an area over a range that has just been unmapped. *)
Lemma install_area_ok ops mm n :
  mm_ok mm -> area_ok n -> (forall a x, vm_start n <= a < vm_end n -> ~ mapped mm a x) ->
  exists mm1 mm2, insert_vm_struct mm n = Some mm1
    /\ merge_segments ops mm1 (vm_start n) (vm_end n) = Some mm2 /\ mm_ok mm2
    /\ forall a x, mapped mm2 a x <->
         (vm_start n <= a < vm_end n /\ attr n a = x) \/ mapped mm a x.
Proof.
  intros (Hm & Hc & Hcnt) Hn Hfree.
  destruct (insert_vm_struct_ok mm n Hm Hn) as (mm1 & E1 & El & Hm1 & Hcnt1 & Hk1).
  { intros v Hv. destruct Hm as [Hl _]. pose proof (areas_ok_elem _ _ Hl Hv) as [? _].
    destruct Hn as [? _]. unfold disjoint_areas.
    destruct (Z.le_gt_cases (vm_end v) (vm_start n)); [by left|].
    destruct (Z.le_gt_cases (vm_end n) (vm_start v)); [by right|]. exfalso.
    apply (Hfree (Z.max (vm_start v) (vm_start n)) (attr v (Z.max (vm_start v) (vm_start n)))); [lia|].
    exists v. split_and!; [done|lia..|done]. }
  destruct (merge_segments_ok ops mm1 (vm_start n) (vm_end n)) as (mm2 & E2 & Hok2 & Hmap).
  { split_and!; [done| |].
    - rewrite Hk1, El. intros c Hcc. rewrite list_insert_end_elem. right. by apply Hc.
    - rewrite Hcnt1, Hcnt, El, list_insert_end_perm. simpl. lia. }
  exists mm1, mm2. split_and!; try done; [apply Hok2..|]. intros a x. rewrite Hmap.
  change (covers (mmap mm1) a x <->
    (vm_start n <= a < vm_end n /\ attr n a = x) \/ covers (mmap mm) a x).
  rewrite <-area_covers_cons. unfold covers. rewrite El. by setoid_rewrite list_insert_end_perm.
Qed.

(** ** Lemmas on mapping *)

(** What is assumed of the [mmap] operation of a driver: it returns 0 or a
    negative error code, and does not move the area it is given. *)
Definition driver_ok (f : option file) : Prop :=
  forall fl g v err v', f = Some fl -> f_op_mmap fl = Some g -> g v = (err, v') ->
    err <= 0 /\ (err = 0 -> vm_start v' = vm_start v /\ vm_end v' = vm_end v).

Lemma mm_ok_counts mm c t k :
  mm_ok mm -> c = map_count mm -> mm_ok (set_counts mm c t k).
Proof. intros (? & ? & ?) ->. done. Qed.

Lemma mmap_install_ok e f mm v len flags :
  mm_ok mm -> area_ok v -> vm_end v = vm_start v + len -> PAGE_ALIGN len = len -> driver_ok f ->
  exists ret mm', mmap_install e f mm v len flags = Some (ret, mm') /\ mm_ok mm'
    /\ (0 <= ret -> ret = vm_start v /\ exists v', vm_start v' = vm_start v /\ vm_end v' = vm_end v
         /\ (f = None -> v' = v)
         /\ forall a x, mapped mm' a x <->
              (vm_start v <= a < vm_end v /\ attr v' a = x)
              \/ (mapped mm a x /\ ~ vm_start v <= a < vm_end v)).
Proof.
  intros Hmm Hv Hend Hal Hdrv. unfold mmap_install. pose proof Hv as (Hv0 & Hv1 & Hvd & _).
  destruct (do_munmap_range (env_ops e) (alloc_extra e) mm (vm_start v) len)
    as (err & mm1 & -> & Hmm1 & Herr & Hmap1); [done|lia|done|lia..|].
  cbn [mbind option_bind]. rewrite Hal, <-Hend in Hmap1.
  destruct (Z.eqb_spec err 0) as [->|]; cbn [negb]; [|by eexists _, _; split_and!].
  specialize (Hmap1 eq_refl). do 2 (case_match; [by eexists _, _; split_and!|]).
  set (call := match f with None => _ | Some _ => _ end).
  assert (exists err v' b, call = (err, v', b) /\ err <= 0 /\ (f = None -> v' = v)
    /\ (err = 0 -> vm_start v' = vm_start v /\ vm_end v' = vm_end v)) as (err & v' & b & -> & Hle & Hn & Hk).
  { unfold call. destruct f as [fl|]; [|by exists 0, v, false]. case_match; [by exists (- ETXTBSY), v, false|].
    destruct (f_op_mmap fl) as [g|] eqn:Eg; [|by exists 0, v, false].
    destruct (g v) as [err v'] eqn:Egv. exists err, v', true.
    destruct (Hdrv fl g v err v' eq_refl Eg Egv). by split_and!. }
  destruct (Z.eqb_spec err 0) as [->|Hne]; cbn [negb]; cycle 1.
  { eexists _, _. split_and!; [done|by destruct b|lia]. }
  destruct (Hk eq_refl) as [Es Ee].
  destruct (install_area_ok (env_ops e) mm1 v' Hmm1) as (mm2 & mm3 & -> & E3 & Hmm3 & Hmap3).
  { unfold area_ok. rewrite Es, Ee. done. }
  { rewrite Es, Ee. intros a x Ha Hax%Hmap1. tauto. }
  cbn [mbind option_bind]. rewrite E3. cbn [mbind option_bind]. eexists _, _. split; [done|].
  split; [destruct (bits (vm_flags v') VM_LOCKED); by apply mm_ok_counts|].
  intros _. split; [done|]. exists v'. split_and!; try done. intros a x.
  rewrite <-Hmap1. rewrite Es, Ee in Hmap3. rewrite <-Hmap3.
  by destruct (bits (vm_flags v') VM_LOCKED).
Qed.

Lemma PAGE_ALIGN_eq x : PAGE_ALIGN x = u32 (x + 4095) / 4096 * 4096.
Proof.
  unfold PAGE_ALIGN. change PAGE_SIZE with 4096. rewrite land_page_mask.
  replace (x + 4096 - 1) with (x + 4095) by lia. pose proof (Z.div_mod (u32 (x + 4095)) 4096). lia.
Qed.

Lemma PAGE_ALIGN_range x :
  0 <= PAGE_ALIGN x /\ (PAGE_SIZE | PAGE_ALIGN x) /\ PAGE_ALIGN (PAGE_ALIGN x) = PAGE_ALIGN x.
Proof.
  rewrite (PAGE_ALIGN_eq x). pose proof (u32_range (x + 4095)) as Hy.
  set (q := u32 (x + 4095) / 4096).
  assert (0 <= q < 2 ^ 20) as Hq.
  { unfold q. split; [apply Z.div_pos; lia|]. apply Z.div_lt_upper_bound; lia. }
  split_and!; [lia|by exists q|]. rewrite PAGE_ALIGN_eq, u32_id by lia.
  rewrite (Z.add_comm (q * 4096)), Z.div_add by lia. change (4095 / 4096) with 0. lia.
Qed.

Lemma get_unmapped_area_spec mm addr len :
  mm_ok mm -> 0 <= addr <= TASK_SIZE -> 0 <= len <= TASK_SIZE ->
  let a0 := PAGE_ALIGN (if addr =? 0 then TASK_UNMAPPED_BASE else addr) in
  exists c r, get_unmapped_area mm addr len = (r, set_cache mm c) /\ mm_ok (set_cache mm c) /\
    ((r = 0 /\ forall b, a0 <= b -> b + len <= TASK_SIZE -> ~ free_range (mmap mm) b len) \/
     (a0 <= r /\ r + len <= TASK_SIZE /\ (PAGE_SIZE | r) /\ free_range (mmap mm) r len /\
      forall b, a0 <= b < r -> ~ free_range (mmap mm) b len)).
Proof.
  intros H Ha Hlen a0. unfold get_unmapped_area. destruct (Z.ltb_spec TASK_SIZE len); [lia|].
  fold a0. destruct (find_vma_spec mm a0 H) as (c & -> & Hc). exists c. eexists. split; [done|].
  split; [done|]. change (mmap (set_cache mm c)) with (mmap mm).
  assert (0 < (if addr =? 0 then TASK_UNMAPPED_BASE else addr) <= TASK_SIZE) as Hb.
  { change TASK_UNMAPPED_BASE with 715827882. change TASK_SIZE with 2147483648 in *.
    destruct (Z.eqb_spec addr 0); lia. }
  destruct (PAGE_ALIGN_spec (if addr =? 0 then TASK_UNMAPPED_BASE else addr)) as [Hal Hdiv]; [lia|].
  fold a0 in Hal, Hdiv. destruct H as ((Hl & _) & _).
  set (suf := match find_vma_list (mmap mm) a0 with Some v => _ | None => _ end).
  assert (exists l1, mmap mm = l1 ++ suf /\ Forall (fun w => vm_end w <= a0) l1 /\
    forall v, v ∈ suf -> a0 < vm_end v) as (l1 & E & H1 & H2).
  { unfold suf. destruct (find_vma_list (mmap mm) a0) as [v|] eqn:El.
    - apply find_vma_list_first in El as (l1 & l2 & E & H1 & Hv). exists l1.
      assert (v ∉ l1) as Hn. { rewrite Forall_forall in H1. intros Hin%H1. simpl in *. lia. }
      rewrite E, from_vma_split by done. repeat split; try done. rewrite E in Hl.
      apply areas_ok_app in Hl as (_ & Hl & _). apply areas_ok_ends in Hl.
      intros w [->|Hw]%elem_of_cons; [done|]. apply StronglySorted_cons in Hl as [Hl _].
      rewrite Forall_forall in Hl. specialize (Hl _ Hw). simpl in *. lia.
    - apply find_vma_list_none in El. exists (mmap mm). rewrite app_nil_r. set_solver. }
  assert (forall b, a0 <= b -> free_range (mmap mm) b len <-> free_range suf b len) as Hfr.
  { intros b Hba. rewrite E. rewrite Forall_forall in H1. unfold free_range. split.
    - intros Hf v ?. apply Hf. set_solver.
    - intros Hf v [Hv|Hv]%elem_of_app; [specialize (H1 _ Hv); simpl in *; lia|auto]. }
  rewrite E in Hl. apply areas_ok_app in Hl as (_ & Hl & _).
  destruct (unmapped_loop_spec suf a0 len Hl H2) as [[Hr Hn]|(? & ? & ? & Hr & Hm)]; [lia|done|..].
  - left. split; [done|]. intros b ? ?. rewrite Hfr by done. auto.
  - right. rewrite Hfr by done. repeat split; try done. intros b ?. rewrite Hfr by lia. auto.
Qed.

Lemma do_mmap_ok e f mm addr len prot flags off :
  mm_ok mm -> driver_ok f -> 0 <= addr <= TASK_SIZE ->
  exists ret mm', do_mmap e f mm addr len prot flags off = Some (ret, mm') /\ mm_ok mm'
    /\ (0 <= ret -> PAGE_ALIGN len <> 0 ->
        page_range ret (ret + PAGE_ALIGN len)
        /\ (if bits flags MAP_FIXED then ret = addr else free_range (mmap mm) ret (PAGE_ALIGN len))
        /\ exists v, vm_start v = ret /\ vm_end v = ret + PAGE_ALIGN len
           /\ (f = None -> vm_flags v = mmap_flags f mm prot flags /\ vm_file v = 0)
           /\ forall a x, mapped mm' a x <->
                (vm_start v <= a < vm_end v /\ attr v a = x)
                \/ (mapped mm a x /\ ~ vm_start v <= a < vm_end v)).
Proof.
  intros Hmm Hdrv Ha. unfold do_mmap. destruct (PAGE_ALIGN_range len) as (Hp0 & Hpd & Hpp).
  set (plen := PAGE_ALIGN len) in *. destruct (Z.eqb_spec plen 0); [by eexists _, _; split_and!|].
  destruct ((TASK_SIZE <? plen) || (TASK_SIZE - plen <? addr)) eqn:Er; [by eexists _, _; split_and!|].
  do 3 (case_match; [by eexists _, _; split_and!|]).
  destruct (Z.eqb_spec (mmap_file_check f prot flags) 0) as [Efc|Efc]; cbn [negb]; cycle 1.
  { eexists _, _. split_and!; [done|done|]. intros Hle. destruct Efc. revert Hle.
    unfold mmap_file_check. repeat case_match; unfold EACCES, EAGAIN, EINVAL; lia. }
  assert (exists err ret c, (if bits flags MAP_FIXED then
      (if negb (Z.land addr (Z.lnot PAGE_MASK) =? 0) then - EINVAL else 0, addr, mm)
    else let '(addr, mm) := get_unmapped_area mm addr plen in
         (if addr =? 0 then - ENOMEM else 0, addr, mm)) = (err, ret, set_cache mm c)
    /\ mm_ok (set_cache mm c) /\ err <= 0 /\ (err = 0 -> page_range ret (ret + plen)
         /\ if bits flags MAP_FIXED then ret = addr else free_range (mmap mm) ret plen))
    as (err & ret & c & -> & Hmc & Herr & Hret).
  { destruct (bits flags MAP_FIXED).
    - eexists _, addr, (mmap_cache mm). replace (set_cache mm (mmap_cache mm)) with mm by (by destruct mm).
      split_and!; [done..|by case_match|]. rewrite land_page_lnot.
      destruct (Z.eqb_spec (addr mod 4096) 0) as [E|]; [|done]. intros _. split; [|done].
      apply Z.mod_divide in E; [|done]. split_and!; [lia..|done|by apply Z.divide_add_r].
    - destruct (get_unmapped_area_spec mm addr plen Hmm ltac:(lia) ltac:(lia)) as (c & r & -> & Hc & Hr).
      exists (if r =? 0 then - ENOMEM else 0), r, c. split_and!; [done..|by destruct (r =? 0)|].
      destruct (Z.eqb_spec r 0); [done|]. intros _.
      destruct Hr as [[]|(? & ? & ? & ? & _)]; [done|]. split; [|done].
      destruct (PAGE_ALIGN_range (if addr =? 0 then TASK_UNMAPPED_BASE else addr)) as [? _].
      split_and!; [lia..|done|by apply Z.divide_add_r]. }
  destruct (Z.eqb_spec err 0) as [->|]; cbn [negb]; [|eexists _, _; split_and!; [done|done|lia]].
  destruct (Hret eq_refl) as [Hpr Hplace].
  do 2 (match goal with |- context [if ?b then Some _ else _] => destruct b end;
        [by eexists _, _; split_and!|]).
  set (nv := Vma _ _ _ _ _ _ _ _).
  destruct (mmap_install_ok e f (set_cache mm c) nv plen flags) as (r & mm' & -> & Hm' & Hr); try done.
  exists r, mm'. split_and!; [done..|]. intros Hr0 _. destruct (Hr Hr0) as (-> & v & Es & Ee & Hv & Hmap).
  split_and!; try done; [apply Hpr..|]. exists v. rewrite Es, Ee. split_and!; try done.
  by intros ->; rewrite Hv.
Qed.

(** ** Properties: searching *)

(** [find_vma] returns the first area of the address space that ends above
    the address, whether it is answered from the cache, the list or the tree,
    and keeps the address space well-formed, only its cache may change. *)
Theorem find_vma_correct mm addr :
  mm_ok mm ->
  exists c, find_vma mm addr = (find_vma_list (mmap mm) addr, set_cache mm c) /\
    mm_ok (set_cache mm c) /\
    match find_vma_list (mmap mm) addr with
    | Some v => exists l1 l2, mmap mm = l1 ++ v :: l2 /\ addr < vm_end v
                  /\ Forall (fun w => vm_end w <= addr) l1
    | None => Forall (fun w => vm_end w <= addr) (mmap mm)
    end.
Proof.
  intros H. destruct (find_vma_spec mm addr H) as (c & E & Hc). exists c.
  repeat split; try done; [apply Hc..|]. destruct (find_vma_list (mmap mm) addr) as [v|] eqn:El.
  - apply find_vma_list_first in El as (l1 & l2 & ? & ? & ?). eauto 10.
  - by apply find_vma_list_none.
Qed.

(** [get_unmapped_area] is first fit: it returns a page-aligned address at
    or above the hint (rounded up to a page) where [len] bytes below TASK_SIZE
    meet no area, and no lower address does; it returns 0 exactly when no
    address at or above the hint fits. *)
Theorem get_unmapped_area_first_fit mm addr len :
  mm_ok mm -> 0 <= addr <= TASK_SIZE -> 0 <= len <= TASK_SIZE ->
  let a0 := PAGE_ALIGN (if addr =? 0 then TASK_UNMAPPED_BASE else addr) in
  exists c r, get_unmapped_area mm addr len = (r, set_cache mm c) /\ mm_ok (set_cache mm c) /\
    ((r = 0 /\ forall b, a0 <= b -> b + len <= TASK_SIZE -> ~ free_range (mmap mm) b len) \/
     (a0 <= r /\ r + len <= TASK_SIZE /\ (PAGE_SIZE | r) /\ free_range (mmap mm) r len /\
      forall b, a0 <= b < r -> ~ free_range (mmap mm) b len)).
Proof. apply get_unmapped_area_spec. Qed.

(** ** Properties: unmapping *)

(** C1: [do_munmap] never crashes, keeps the address space well-formed and
    refines the removal of an address range from the map of addresses: on
    success exactly the bytes of the page-rounded range are unmapped and every
    other byte keeps its flags, file, operations and file position; it fails
    with -EINVAL exactly on an unaligned or out-of-range request; a failing
    call changes nothing. *)
Theorem do_munmap_correct ops alloc mm addr len :
  mm_ok mm -> 0 <= addr -> 0 <= len ->
  exists ret mm', do_munmap ops alloc mm addr len = Some (ret, mm') /\ mm_ok mm'
    /\ (ret = - EINVAL <-> ~ ((PAGE_SIZE | addr) /\ addr + len <= TASK_SIZE))
    /\ (ret = 0 \/ (mm' = mm /\ (ret = - EINVAL \/ ret = - ENOMEM)))
    /\ (ret = 0 -> forall a x,
          mapped mm' a x <-> mapped mm a x /\ ~ addr <= a < addr + PAGE_ALIGN len).
Proof.
  intros Hmm Ha Hlen.
  destruct (negb (Z.land addr (Z.lnot PAGE_MASK) =? 0) || (TASK_SIZE <? addr)
            || (TASK_SIZE - addr <? len)) eqn:Eb.
  - exists (- EINVAL), mm. unfold do_munmap. rewrite Eb. apply munmap_bad_args in Eb; [|done].
    split_and!; [done|done|tauto|by auto|done].
  - apply munmap_args in Eb as [Hal Hend]; [|done].
    destruct (do_munmap_range ops alloc mm addr len) as (ret & mm' & -> & ? & Hr & ?); try done.
    exists ret, mm'. split_and!; try done; [|naive_solver].
    destruct Hr as [->|[_ ->]]; split; (done || tauto).
Qed.

(** ** Properties: mapping *)

(** C2: [do_mmap] never crashes and keeps the address space well-formed; when
    it returns an address, the page-rounded request is mapped there: at the
    requested address with MAP_FIXED, otherwise at a place that was free
    before; those bytes are backed by the new area (for an anonymous mapping,
    the one with the flags computed from the arguments) and every other byte is
    mapped exactly as before. *)
Theorem do_mmap_correct e f mm addr len prot flags off :
  mm_ok mm -> driver_ok f -> 0 <= addr <= TASK_SIZE ->
  exists ret mm', do_mmap e f mm addr len prot flags off = Some (ret, mm') /\ mm_ok mm'
    /\ (0 <= ret -> PAGE_ALIGN len <> 0 ->
        page_range ret (ret + PAGE_ALIGN len)
        /\ (if bits flags MAP_FIXED then ret = addr else free_range (mmap mm) ret (PAGE_ALIGN len))
        /\ exists v, vm_start v = ret /\ vm_end v = ret + PAGE_ALIGN len
           /\ (f = None -> vm_flags v = mmap_flags f mm prot flags /\ vm_file v = 0)
           /\ forall a x, mapped mm' a x <->
                (vm_start v <= a < vm_end v /\ attr v a = x)
                \/ (mapped mm a x /\ ~ vm_start v <= a < vm_end v)).
Proof. apply do_mmap_ok. Qed.

(** [merge_segments] is invisible: it never crashes, keeps the address
    space well-formed (list, tree, cache and count agree) and every byte stays
    mapped with the same flags, file, operations and position, however many
    areas are merged. *)
Theorem merge_segments_transparent ops mm start_addr end_addr :
  mm_ok mm ->
  exists mm', merge_segments ops mm start_addr end_addr = Some mm' /\ mm_ok mm'
    /\ forall a x, mapped mm' a x <-> mapped mm a x.
Proof. apply merge_segments_ok. Qed.

(** ** Properties: the break *)

Lemma PAGE_ALIGN_mono x y : 0 <= x <= y -> y <= TASK_SIZE -> PAGE_ALIGN x <= PAGE_ALIGN y <= TASK_SIZE.
Proof.
  intros H Hy. change TASK_SIZE with 2147483648 in *. rewrite !PAGE_ALIGN_eq, !u32_id by lia.
  assert ((x + 4095) / 4096 <= (y + 4095) / 4096) by (apply Z.div_le_mono; lia).
  assert ((y + 4095) / 4096 < 524289) by (apply Z.div_lt_upper_bound; lia). lia.
Qed.

Lemma find_vma_intersection_ok mm s e :
  mm_ok mm -> exists v c, find_vma_intersection mm s e = (v, set_cache mm c) /\ mm_ok (set_cache mm c).
Proof.
  intros H. destruct (find_vma_spec mm s H) as (c & E & Hc). unfold find_vma_intersection.
  rewrite E. case_match; eauto.
Qed.

(** No operation on the maps moves the break. *)
Ltac frame_brk H :=
  repeat (simplify_option_eq || case_match || (destruct H; simplify_eq)); simplify_eq/=; try done.

Lemma insert_vm_struct_brk mm v mm' : insert_vm_struct mm v = Some mm' -> brk mm' = brk mm.
Proof. unfold insert_vm_struct, build_mmap_avl. intros H. frame_brk H. Qed.

Lemma unmap_fixup_brk ops mm v a l x mm' y z :
  unmap_fixup ops mm v a l x = Some (mm', y, z) -> brk mm' = brk mm.
Proof.
  unfold unmap_fixup. intros H.
  repeat match type of H with (if ?b then _ else _) = _ => destruct b end;
    simplify_option_eq; try done;
    repeat match goal with E : insert_vm_struct _ _ = Some _ |- _ => apply insert_vm_struct_brk in E end;
    simpl in *; congruence.
Qed.

Lemma munmap_free_brk ops a l free mm x mm' :
  munmap_free ops a l free mm x = Some mm' -> brk mm' = brk mm.
Proof.
  revert mm x. induction free as [|v free IH]; simpl; intros mm x H; [by simplify_eq|].
  apply bind_Some in H as ([[mm1 y] z] & E & H). rewrite (IH _ _ H).
  by apply unmap_fixup_brk in E.
Qed.

Lemma do_munmap_brk ops alloc mm a l r mm' : do_munmap ops alloc mm a l = Some (r, mm') -> brk mm' = brk mm.
Proof.
  unfold do_munmap. intros H. case_ifs_in H; try done;
    apply bind_Some in H as ([[npp free] t] & _ & H); apply bind_Some in H as (mm1 & E & [= _ <-]);
    apply munmap_free_brk in E; match goal with |- context [free_pgtables ?m ?p ?s ?e] =>
      destruct (free_pgtables_log m p s e) as [ev ->] end; done.
Qed.

Lemma merge_segments_brk ops mm s e mm' : merge_segments ops mm s e = Some mm' -> brk mm' = brk mm.
Proof.
  unfold merge_segments. intros H. case_ifs_in H; try done;
    by apply bind_Some in H as ([[[l t] n] ev] & _ & [= <-]).
Qed.

Lemma mmap_install_brk e f mm v len flags r mm' :
  mmap_install e f mm v len flags = Some (r, mm') -> brk mm' = brk mm.
Proof.
  unfold mmap_install. intros H. apply bind_Some in H as ([err mm1] & E1%do_munmap_brk & H).
  rewrite <-E1. clear E1. repeat case_match; simplify_eq; try done;
    apply bind_Some in H as (mm2 & E2%insert_vm_struct_brk & H);
    apply bind_Some in H as (mm3 & E3%merge_segments_brk & H); simplify_eq/=;
    repeat case_match; simpl; congruence.
Qed.

Lemma get_unmapped_area_brk mm a l : brk (get_unmapped_area mm a l).2 = brk mm.
Proof.
  unfold get_unmapped_area. case_match; [done|]. destruct (find_vma _ _) eqn:E. simpl.
  unfold find_vma in E. repeat case_match; by simplify_eq.
Qed.

Lemma do_mmap_brk e f mm addr len prot flags off r mm' :
  do_mmap e f mm addr len prot flags off = Some (r, mm') -> brk mm' = brk mm.
Proof.
  unfold do_mmap. pose proof (get_unmapped_area_brk mm addr (PAGE_ALIGN len)) as Hg. intros H.
  destruct (get_unmapped_area _ _ _) as [a mm1].
  repeat (match type of H with (if ?b then _ else _) = _ => destruct b end; [by simplify_eq|]).
  destruct (bits flags MAP_FIXED);
    repeat (match type of H with (if ?b then _ else _) = _ => destruct b end; [by simplify_eq|]);
    apply mmap_install_brk in H; simpl in *; congruence.
Qed.

Lemma PAGE_ALIGN_id x : 0 <= x <= TASK_SIZE -> (PAGE_SIZE | x) -> PAGE_ALIGN x = x.
Proof.
  intros Hx [q Hq]. change TASK_SIZE with 2147483648 in Hx. change PAGE_SIZE with 4096 in Hq.
  rewrite PAGE_ALIGN_eq, u32_id by lia. subst x. rewrite Z.add_comm, Z.div_add by lia.
  change (4095 / 4096) with 0. lia.
Qed.

(** [sys_brk] never crashes, keeps the address space well-formed and
    returns the break it leaves: the one asked for or the old one.  When it is
    the one asked for, the pages between the two breaks are all mapped (when it
    grew) or all unmapped (when it shrank), and the rest of the address space
    is as before. *)
Theorem sys_brk_correct e mm brk_ :
  mm_ok mm -> 0 <= brk mm <= TASK_SIZE -> 0 <= brk_ <= TASK_SIZE ->
  exists ret mm', sys_brk e mm brk_ = Some (ret, mm') /\ mm_ok mm' /\ ret = brk mm'
    /\ (ret = brk_ \/ ret = brk mm)
    /\ (ret = brk_ ->
        (forall a, PAGE_ALIGN brk_ <= a < PAGE_ALIGN (brk mm) -> forall x, ~ mapped mm' a x)
        /\ (forall a, PAGE_ALIGN (brk mm) <= a < PAGE_ALIGN brk_ -> exists x, mapped mm' a x)
        /\ (forall a x, ~ PAGE_ALIGN brk_ <= a < PAGE_ALIGN (brk mm) ->
                        ~ PAGE_ALIGN (brk mm) <= a < PAGE_ALIGN brk_ ->
                        mapped mm' a x <-> mapped mm a x)).
Proof.
  intros Hmm Hb Hn. unfold sys_brk. set (ob := PAGE_ALIGN (brk mm)). set (nb := PAGE_ALIGN brk_).
  assert (forall m : mm_struct, mm_ok (set_brk m brk_) <-> mm_ok m) as Hset by (by intros []).
  destruct (Z.ltb_spec brk_ (end_code mm)).
  { eexists _, _. split_and!; [done..|by right|]. intros <-. unfold nb, ob. split_and!; [intros; lia..|done]. }
  destruct (Z.eqb_spec ob nb) as [E|Hne].
  { eexists _, _. split_and!; [done|by apply Hset|done|by left|]. intros _. split_and!; [intros; lia..|done]. }
  destruct (PAGE_ALIGN_range (brk mm)) as (Ho & Hod & Hoo).
  destruct (PAGE_ALIGN_range brk_) as (Hn0 & Hnd & Hnn). fold ob nb in Ho, Hod, Hoo, Hn0, Hnd, Hnn.
  destruct (Z.leb_spec brk_ (brk mm)) as [Hle|Hgt].
  - destruct (PAGE_ALIGN_mono brk_ (brk mm)) as [Hm Ht]; [lia..|]; fold ob nb in Hm, Ht.
    rewrite (u32_id (ob - nb)) by (change TASK_SIZE with 2147483648 in *; lia).
    destruct (do_munmap_range (env_ops e) (alloc_extra e) mm nb (ob - nb))
      as (r & mm' & Eu & Hmm' & Hr & Hmap); [done|lia..|done|lia|lia|].
    rewrite Eu. cbn [mbind option_bind]. pose proof (do_munmap_brk _ _ _ _ _ _ _ Eu) as Hbrk.
    assert (PAGE_ALIGN (ob - nb) = ob - nb) as Hal by (apply PAGE_ALIGN_id; [lia|by apply Z.divide_sub_r]).
    rewrite Hal in Hmap. replace (nb + (ob - nb)) with ob in Hmap by lia.
    destruct (Z.eqb_spec r 0) as [->|Hr0].
    + eexists _, _. split_and!; [done|by apply Hset|done|by left|]. intros _. specialize (Hmap eq_refl).
      split_and!; [|intros; lia|].
      * intros a Ha x Hx. by apply (Hmap a x) in Hx as [_ []].
      * intros a x Ha _. etrans; [apply Hmap|]. tauto.
    + eexists _, _. split_and!; [done..|right; congruence|]. intros. exfalso.
      assert (brk_ = brk mm) as E by congruence. apply Hne. unfold ob, nb. by rewrite E.
  - destruct (_ && _).
    { eexists _, _. split_and!; [done..|by right|]. lia. }
    destruct (find_vma_intersection_ok mm ob (u32 (nb + PAGE_SIZE)) Hmm) as (v & c & -> & Hc).
    destruct v; [eexists _, _; split_and!; [done..|by right|simpl; lia]|].
    destruct (negb _); [eexists _, _; split_and!; [done..|by right|simpl; lia]|].
    destruct (PAGE_ALIGN_mono (brk mm) brk_) as [Hm Ht]; [lia..|]; fold ob nb in Hm, Ht.
    rewrite (u32_id (nb - ob)) by (change TASK_SIZE with 2147483648 in *; lia).
    match goal with |- context [do_mmap e None ?m ?a ?l ?p ?f ?o] =>
      destruct (do_mmap_ok e None m a l p f o) as (r & mm' & Em & Hmm' & Hr); [done|done|lia|] end.
    rewrite Em. cbn [mbind option_bind]. pose proof (do_mmap_brk _ _ _ _ _ _ _ _ _ _ Em) as Hbrk.
    simpl in Hbrk.
    assert (PAGE_ALIGN (nb - ob) = nb - ob) as Hal by (apply PAGE_ALIGN_id; [lia|by apply Z.divide_sub_r]).
    rewrite Hal in Hr. destruct (Z.eqb_spec r ob) as [->|].
    + eexists _, _. split_and!; [done|by apply Hset|done|by left|]. intros _.
      destruct Hr as (_ & _ & w & Es & Ee & _ & Hmap); [lia..|]. rewrite Es, Ee in Hmap.
      replace (ob + (nb - ob)) with nb in Hmap by lia. split_and!; [intros; lia| |].
      * intros a Ha. exists (attr w a). apply Hmap. by left.
      * intros a x _ Ha. etrans; [apply Hmap|]. split; [by intros [[]|[? _]]|by right].
    + eexists _, _. split_and!; [done..|by right|]. lia.
Qed.

(** ** Properties: freeing page tables *)

Lemma pgtables_loop_ok p rest start first last :
  areas_ok (p :: rest) -> vm_end p <= start ->
  (forall w, w ∈ rest -> vm_end w <= start \/ start <= vm_start w) ->
  let '(f, l) := pgtables_loop p rest start first last in
  forall w, w ∈ p :: rest ->
    (f = first /\ vm_end w <= first) \/ vm_end w + PGDIR_SIZE - 1 <= f
    \/ l <= vm_start w /\ start <= vm_start w.
Proof.
  revert p. induction rest as [|n rest IH]; intros p Hok Hp Hr; simpl.
  { intros w ->%list_elem_of_singleton. case_match; lia. }
  pose proof Hok as (Hap & Hrest & Hs)%areas_ok_cons. rewrite Forall_forall in Hs.
  assert (0 < vm_end n) as Hn0.
  { apply areas_ok_cons in Hrest as ([? _] & _). lia. }
  assert (vm_start n < vm_end n) as Hn1 by (apply areas_ok_cons in Hrest as ([? _] & _); lia).
  destruct (Z.ltb_spec (vm_start n) start) as [Hn|Hn].
  - assert (vm_end n <= start) as Hen by (destruct (Hr n); [set_solver|lia..]).
    specialize (IH n Hrest Hen ltac:(set_solver)). destruct (pgtables_loop _ _ _ _ _) as [f l].
    intros w [->|Hw]%elem_of_cons; [|by apply IH].
    destruct (IH n ltac:(set_solver)) as [?|[?|?]]; specialize (Hs n ltac:(set_solver));
      simpl in Hs; lia.
  - intros w [->|Hw]%elem_of_cons; [case_match; lia|]. right. right.
    assert (vm_start n <= vm_start w).
    { apply elem_of_cons in Hw as [->|Hw]; [done|]. apply areas_ok_cons in Hrest as (_ & _ & Hs').
      rewrite Forall_forall in Hs'. specialize (Hs' w Hw). simpl in Hs'. lia. }
    case_match; lia.
Qed.

Lemma pgdir_round f e : e + PGDIR_SIZE - 1 <= f -> e <= Z.shiftr f PGDIR_SHIFT * PGDIR_SIZE.
Proof.
  unfold PGDIR_SHIFT. change PGDIR_SIZE with (2 ^ 20). rewrite Z.shiftr_div_pow2 by lia. intros.
  pose proof (Z.div_mod f (2 ^ 20)). pose proof (Z.mod_pos_bound f (2 ^ 20)). lia.
Qed.

Lemma pgdir_floor f : Z.shiftr f PGDIR_SHIFT * PGDIR_SIZE <= f.
Proof.
  unfold PGDIR_SHIFT. change PGDIR_SIZE with (2 ^ 20). rewrite Z.shiftr_div_pow2 by lia.
  pose proof (Z.div_mod f (2 ^ 20)). pose proof (Z.mod_pos_bound f (2 ^ 20)). lia.
Qed.

Lemma land_pgdir_mask x : Z.land x PGDIR_MASK = Z.shiftr x PGDIR_SHIFT * PGDIR_SIZE.
Proof.
  unfold PGDIR_MASK, PGDIR_SHIFT. change (PGDIR_SIZE - 1) with (Z.ones 20).
  change PGDIR_SIZE with (2 ^ 20). rewrite <-Z.shiftl_mul_pow2, <-Z.ldiff_ones_r by lia.
  by rewrite Z.ldiff_land.
Qed.

Lemma shiftr_pgdir_slot i : Z.shiftr (i * PGDIR_SIZE) PGDIR_SHIFT = i.
Proof.
  unfold PGDIR_SHIFT. change PGDIR_SIZE with (2 ^ 20).
  rewrite Z.shiftr_div_pow2, Z.div_mul by lia. done.
Qed.

Lemma pgtables_loop_bound p rest start first last :
  areas_ok (p :: rest) -> 0 <= first <= TASK_SIZE ->
  0 <= (pgtables_loop p rest start first last).1 < 2 ^ 32.
Proof.
  revert p. induction rest as [|n rest IH]; intros p (Hap & Hrest & _)%areas_ok_cons Hf; simpl.
  - destruct Hap as (? & ? & _). change TASK_SIZE with 2147483648 in *.
    change PGDIR_SIZE with 1048576. case_match; lia.
  - case_match; [by apply IH|]. destruct Hap as (? & ? & _). change TASK_SIZE with 2147483648 in *.
    change PGDIR_SIZE with 1048576. simpl. case_match; lia.
Qed.

Lemma areas_ok_fresh l1 v l2 : areas_ok (l1 ++ v :: l2) -> v ∉ l1.
Proof.
  intros (_ & H2 & H)%areas_ok_app Hv. specialize (H v v Hv ltac:(set_solver)).
  apply areas_ok_cons in H2 as ([? _] & _). lia.
Qed.

(** Where [free_pgtables] starts to look: behind an area that ends at or below
    the range just unmapped. *)
Definition search_from (l : list vm_area_struct) (prev : option vm_area_struct) (start : Z) : Prop :=
  match prev with
  | Some p => vm_end p <= start /\ exists l1 l2, l = l1 ++ p :: l2
  | None => match l with [] => True | v :: _ => vm_end v <= start end
  end.

(** [free_pgtables] frees no page table in use, when it starts from an area
    below the unmapped range: none of the directory slots it clears covers a
    byte of a remaining area. *)
Theorem free_pgtables_safe l prev start end_ first last i w :
  areas_ok l -> page_range start end_ ->
  (forall w, w ∈ l -> vm_end w <= start \/ end_ <= vm_start w) ->
  search_from l prev start ->
  free_pgtables_range l prev start end_ = (first, last) ->
  first <= i < last -> w ∈ l ->
  vm_end w <= i * PGDIR_SIZE \/ (i + 1) * PGDIR_SIZE <= vm_start w.
Proof.
  intros Hok Hpr Hgap Hfrom E Hi Hw. destruct Hpr as (Hs & Ht & _).
  assert (forall w, w ∈ l -> vm_end w <= start \/ start <= vm_start w) as Hgap'.
  { intros v Hv. destruct (Hgap v Hv); lia. }
  assert (exists l1 p rest, l = l1 ++ p :: rest /\ vm_end p <= start /\
    free_pgtables_range l prev start end_ =
      let '(f, l) := pgtables_loop p rest start (Z.land start PGDIR_MASK)
                       (Z.land (u32 (end_ + PGDIR_SIZE - 1)) PGDIR_MASK) in
      (Z.shiftr (u32 f) PGDIR_SHIFT, Z.shiftr l PGDIR_SHIFT))
    as (l1 & p & rest & -> & Hp & E').
  { unfold free_pgtables_range. destruct prev as [p|].
    - destruct Hfrom as (Hp & l1 & l2 & ->). exists l1, p, l2. split_and!; [done..|].
      rewrite from_vma_split; [done|]. by apply areas_ok_fresh in Hok.
    - destruct l as [|v l]; [by apply elem_of_nil in Hw|]. exists [], v, l. split_and!; [done..|].
      simpl in Hfrom. destruct (Z.ltb_spec start (vm_end v)); [lia|done]. }
  rewrite E in E'. clear E. pose proof Hok as (_ & Hr & Hord)%areas_ok_app.
  pose proof (pgtables_loop_ok p rest start (Z.land start PGDIR_MASK)
    (Z.land (u32 (end_ + PGDIR_SIZE - 1)) PGDIR_MASK) Hr Hp) as Hloop.
  pose proof (pgtables_loop_bound p rest start (Z.land start PGDIR_MASK)
    (Z.land (u32 (end_ + PGDIR_SIZE - 1)) PGDIR_MASK) Hr) as Hb.
  destruct (pgtables_loop _ _ _ _ _) as [f l]. simpl in Hb. rewrite land_pgdir_mask in *.
  pose proof (pgdir_floor start). assert (0 <= Z.shiftr start PGDIR_SHIFT) by (apply Z.shiftr_nonneg; lia).
  change PGDIR_SIZE with 1048576 in *. rewrite u32_id in E' by (apply Hb; lia). simplify_eq.
  assert (forall v, v ∈ p :: rest -> vm_end v <= i * 1048576
    \/ (i + 1) * 1048576 <= vm_start v /\ start <= vm_start v) as Hgoal.
  { intros v Hv. destruct (Hloop ltac:(intros; apply Hgap'; set_solver) v Hv) as [[-> Hv1]|[Hv1|[Hv1 ?]]].
    - left. pose proof (shiftr_pgdir_slot (Z.shiftr start PGDIR_SHIFT)) as Hsl.
      change PGDIR_SIZE with 1048576 in Hsl. rewrite Hsl in Hi. lia.
    - left. apply pgdir_round in Hv1. change PGDIR_SIZE with 1048576 in Hv1. lia.
    - right. pose proof (pgdir_floor l) as Hfl. change PGDIR_SIZE with 1048576 in Hfl. lia. }
  apply elem_of_app in Hw as [Hw|Hw]; [|destruct (Hgoal w Hw); lia].
  specialize (Hord w p Hw ltac:(set_solver)). apply areas_ok_cons in Hr as ([Hpp _] & _).
  destruct (Hgoal p ltac:(set_solver)); lia.
Qed.

(** ** Witnesses *)

Definition no_ops : ops_table := OpsTable (fun _ => false) (fun _ => false) (fun _ => false).

Definition ex_env : mm_env :=
  MmEnv no_ops (VmStats 1 0 0 0 0 0 0 0) (fun _ => RLIM_INFINITY) (fun _ => 0) true true.

(** Text at 1 MB, data from 2 MB to 5 MB, a file mapped at 16 MB. *)
Definition ex_areas : list vm_area_struct :=
  [Vma 0x100000 0x180000 0 5 0 0 0 0; Vma 0x200000 0x500000 0 3 0 0 0 0;
   Vma 0x1000000 0x1004000 0 1 0 0x2000 7 0].

Definition ex_mm : mm_struct := Mm ex_areas vm_avl_empty None 3 0x400 0 0 0x180000 0x500000 [].

Ltac areas_concrete :=
  split; [repeat (apply Forall_cons; split;
                  [split_and!; try (vm_compute; done); by (apply Z.mod_divide; [|vm_compute])|]);
          by apply Forall_nil
         |repeat constructor; simpl; lia].

Lemma ex_areas_ok : areas_ok ex_areas.
Proof. areas_concrete. Qed.

Lemma ex_mm_ok : mm_ok ex_mm.
Proof. split_and!; [split; [apply ex_areas_ok|by left]|done|done]. Qed.

Lemma find_vma_correct_witness :
  exists c, find_vma ex_mm 0x300000 = (find_vma_list ex_areas 0x300000, set_cache ex_mm c) /\
    find_vma_list ex_areas 0x300000 = Some (Vma 0x200000 0x500000 0 3 0 0 0 0).
Proof.
  destruct (find_vma_correct ex_mm 0x300000 ex_mm_ok) as (c & E & _). exists c.
  split; [exact E|reflexivity].
Defined.

Lemma get_unmapped_area_first_fit_witness :
  exists c r, get_unmapped_area ex_mm 0x200000 0x1000 = (r, set_cache ex_mm c) /\ r = 0x500000.
Proof.
  destruct (get_unmapped_area_first_fit ex_mm 0x200000 0x1000 ex_mm_ok ltac:(done) ltac:(done))
    as (c & r & E & _).
  exists c, r. split; [exact E|]. vm_compute in E. congruence.
Defined.

(** Unmapping the middle of the data area splits it. *)
Lemma do_munmap_correct_witness :
  exists mm', do_munmap no_ops true ex_mm 0x300000 0x1000 = Some (0, mm')
    /\ length (mmap mm') = 4%nat
    /\ (forall x, ~ mapped mm' 0x300800 x) /\ exists x, mapped mm' 0x301000 x.
Proof.
  destruct (do_munmap_correct no_ops true ex_mm 0x300000 0x1000 ex_mm_ok ltac:(done) ltac:(done))
    as (ret & mm' & E & _ & _ & _ & Hm).
  exists mm'. assert (ret = 0) as -> by (vm_compute in E; congruence). specialize (Hm eq_refl).
  split_and!; [exact E|vm_compute in E; by simplify_eq| |].
  - intros x Hx. apply Hm in Hx as [_ []]. done.
  - eexists. apply Hm. split; [|by intros []].
    exists (Vma 0x200000 0x500000 0 3 0 0 0 0). split_and!; [set_solver|done..].
Defined.

(** A readable and writable file whose driver fills in its operations and
    itself. *)
Definition ex_file : file :=
  File 3 false 0
    (Some (fun v => (0, Vma (vm_start v) (vm_end v) (vm_page_prot v) (vm_flags v) 5 (vm_offset v) 9 0)))
    0.

Lemma do_mmap_correct_witness :
  exists mm', do_mmap ex_env (Some ex_file) ex_mm 0 0x2345 3 MAP_PRIVATE 0 = Some (0x2aaab000, mm')
    /\ mm_ok mm' /\ exists x, mapped mm' 0x2aaab000 x.
Proof.
  edestruct (do_mmap_correct ex_env (Some ex_file) ex_mm 0 0x2345 3 MAP_PRIVATE 0 ex_mm_ok)
    as (ret & mm' & E & Hok & Hr); [|done|].
  { intros fl g v err v' [= <-] [= <-] [= <- <-]. done. }
  exists mm'. assert (ret = 0x2aaab000) as -> by (vm_compute in E; congruence).
  split_and!; [exact E|exact Hok|].
  destruct (Hr ltac:(done) ltac:(done)) as (_ & _ & v & Es & Ee & _ & Hm).
  exists (attr v 0x2aaab000). apply Hm. left. rewrite Es, Ee. split; [|done]. vm_compute. by split.
Defined.

(** Two anonymous areas side by side become one. *)
Lemma merge_segments_transparent_witness :
  exists mm', merge_segments no_ops
      (Mm [Vma 0x1000 0x2000 0 3 0 0 0 0; Vma 0x2000 0x5000 0 3 0 0 0 0] vm_avl_empty None 2 4 0 0 0 0 [])
      0x1000 0x5000 = Some mm'
    /\ mmap mm' = [Vma 0x1000 0x5000 0 3 0 0 0 0] /\ mm_ok mm'.
Proof.
  edestruct (merge_segments_transparent no_ops
    (Mm [Vma 0x1000 0x2000 0 3 0 0 0 0; Vma 0x2000 0x5000 0 3 0 0 0 0] vm_avl_empty None 2 4 0 0 0 0 [])
    0x1000 0x5000) as (mm' & E & Hok & _).
  { split_and!; [split; [areas_concrete|by left]|done|done]. }
  exists mm'. split_and!; [exact E|vm_compute in E; by simplify_eq|exact Hok].
Defined.

(** The break grows by a page and more. *)
Lemma sys_brk_correct_witness :
  exists mm', sys_brk ex_env ex_mm 0x501234 = Some (0x501234, mm') /\ exists x, mapped mm' 0x501fff x.
Proof.
  destruct (sys_brk_correct ex_env ex_mm 0x501234 ex_mm_ok ltac:(done) ltac:(done))
    as (ret & mm' & E & _ & _ & _ & Hr).
  exists mm'. assert (ret = 0x501234) as -> by (vm_compute in E; congruence).
  split; [exact E|]. apply (proj1 (proj2 (Hr eq_refl))). vm_compute. by split.
Defined.

(** 6 MB to 8 MB was unmapped between the areas: slots 6 and 7 go. *)
Lemma free_pgtables_safe_witness :
  free_pgtables_range ex_areas (ex_areas !! 1%nat) 0x600000 0x800000 = (6, 8) /\
  forall w, w ∈ ex_areas -> vm_end w <= 7 * PGDIR_SIZE \/ (7 + 1) * PGDIR_SIZE <= vm_start w.
Proof.
  split; [reflexivity|]. intros w Hw.
  apply (free_pgtables_safe ex_areas (ex_areas !! 1%nat) 0x600000 0x800000 6 8 7 w); try done.
  - apply ex_areas_ok.
  - split_and!; try done; by (apply Z.mod_divide; [done|vm_compute; reflexivity]).
  - intros v Hv. unfold ex_areas in Hv. rewrite !elem_of_cons in Hv.
    destruct Hv as [->|[->|[->|Hv%elem_of_nil]]]; [left; done|left; done|right; done|done].
  - split; [done|]. exists (take 1 ex_areas), (drop 2 ex_areas). reflexivity.
Defined.

(** ** The case without a previous area

    With no area below the range, the end of the range of slots is clipped to
    the end of the first area and not to its start. *)

(** [free_pgtables] without an area below the range clears a page table in
    use: when the first area starts where the unmapped range ends, inside a
    directory slot, and reaches the next slot, the slots freed run up to and
    including the one that maps the first byte of that area. *)
Theorem free_pgtables_first_area v l start end_ :
  area_ok v -> page_range start end_ -> vm_start v = end_ -> end_ mod PGDIR_SIZE <> 0 ->
  (end_ / PGDIR_SIZE + 1) * PGDIR_SIZE <= vm_end v ->
  free_pgtables_range (v :: l) None start end_
    = (start / PGDIR_SIZE, vm_start v / PGDIR_SIZE + 1).
Proof.
  intros (? & ? & _) (? & Ht & _) <- Hm Hv. unfold free_pgtables_range.
  rewrite !land_pgdir_mask. change TASK_SIZE with 2147483648 in *. change PGDIR_SIZE with (2 ^ 20) in *.
  rewrite (u32_id (_ + _ - 1)) by lia. destruct (Z.ltb_spec start (vm_end v)); [|lia].
  unfold PGDIR_SHIFT. rewrite !Z.shiftr_div_pow2 by lia.
  assert ((vm_start v + 2 ^ 20 - 1) / 2 ^ 20 = vm_start v / 2 ^ 20 + 1) as ->.
  { pose proof (Z.div_mod (vm_start v) (2 ^ 20)). pose proof (Z.mod_pos_bound (vm_start v) (2 ^ 20)).
    symmetry. apply Z.div_unique with (vm_start v mod 2 ^ 20 - 1); lia. }
  destruct (Z.ltb_spec (vm_end v) ((vm_start v / 2 ^ 20 + 1) * 2 ^ 20)); [lia|].
  assert (0 <= start / 2 ^ 20 < 2 ^ 11) by (split; [apply Z.div_pos|apply Z.div_lt_upper_bound]; lia).
  rewrite u32_id, !Z.div_mul by lia. done.
Qed.

(** Unmapping the first half megabyte of an area from 1 MB to 3 MB clears slot
    1, which still maps the bytes from 1.5 MB on. *)
Lemma free_pgtables_first_area_witness :
  free_pgtables_range [Vma 0x180000 0x300000 0 3 0 0x80000 0 0] None 0x100000 0x180000 = (1, 2) /\
  let mm := Mm [Vma 0x100000 0x300000 0 3 0 0 0 0] vm_avl_empty None 1 0x200 0 0 0 0 [] in
  exists mm', do_munmap no_ops true mm 0x100000 0x80000 = Some (0, mm')
    /\ mmap mm' = [Vma 0x180000 0x300000 0 3 0 0x80000 0 0]
    /\ EvClearPageTables 1 1 ∈ mm_log mm'.
Proof.
  split; [|eexists; split_and!; [vm_compute; reflexivity|done|vm_compute; set_solver]].
  rewrite (free_pgtables_first_area (Vma 0x180000 0x300000 0 3 0 0x80000 0 0) [] 0x100000 0x180000);
    [reflexivity|..]; try done; split_and!; try done; by (apply Z.mod_divide; [|vm_compute]).
Defined.
