(* ===== verification/Resource.v ===== *)
(** * kernel/resource.c: the table of I/O port regions

    A fixed table of slots [iotable]; a slot is free when its [num] is 0.  The
    slots in use are linked from [iolist] in the order of their addresses; the
    links are modelled as the list of the slot numbers in link order.  The
    functions on the list are proved to implement a set of disjoint regions. *)

From S2P Require Import Prelude.

Definition IOTABLE_SIZE : nat := 128.

Record resource_entry := Entry { from : Z; num : Z; name : string }.

Record ioports := IoPorts {
  iotable : list resource_entry;
  iolist : list nat;
}.

Definition ioports_init : ioports := IoPorts (replicate IOTABLE_SIZE (Entry 0 0 "")) [].

(** The entries reached from [iolist.next]. *)
Definition regions (st : ioports) : list resource_entry :=
  omap (fun i => iotable st !! i) (iolist st).

Definition last_port (p : resource_entry) : Z := u32 (from p + num p - 1).

(** The loop of [find_gap]: [p] is the current entry ([None] at the root),
    [k] the number of links followed. *)
Fixpoint gap_loop (p : option resource_entry) (next : list resource_entry) (fr nm : Z) (k : nat)
  : option nat :=
  if match p with Some e => fr <=? last_port e | None => false end then None
  else match next with
       | [] => Some k
       | e :: next' =>
         if u32 (fr + nm - 1) <? from e then Some k else gap_loop (Some e) next' fr nm (S k)
       end.

(** The number of entries before the gap, [None] for NULL. *)
Definition find_gap (st : ioports) (fr nm : Z) : option nat :=
  if u32 (fr + nm - 1) <? fr then None else gap_loop None (regions st) fr nm 0.

(** The first slot with [num == 0] *)
Fixpoint free_slot (t : list resource_entry) (i : nat) : option nat :=
  match t with
  | [] => None
  | e :: t' => if num e =? 0 then Some i else free_slot t' (S i)
  end.

Definition request_region (st : ioports) (fr nm : Z) (nam : string) : ioports :=
  match free_slot (iotable st) 0 with
  | None => st
  | Some i =>
    match find_gap st fr nm with
    | None => st
    | Some k => IoPorts (<[i := Entry fr nm nam]> (iotable st))
                        (take k (iolist st) ++ i :: drop k (iolist st))
    end
  end.

(** The walk of [release_region]: the link that leads to the region. *)
Fixpoint release_loop (t : list resource_entry) (links : list nat) (fr nm : Z)
  : option (nat * list nat) :=
  match links with
  | [] => None
  | q :: links' =>
    if match t !! q with Some e => (from e =? fr) && (num e =? nm) | None => false end
    then Some (q, links')
    else '(i, l) ← release_loop t links' fr nm; Some (i, q :: l)
  end.

Definition clear_num (e : resource_entry) : resource_entry := Entry (from e) 0 (name e).

Definition release_region (st : ioports) (fr nm : Z) : ioports :=
  match release_loop (iotable st) (iolist st) fr nm with
  | Some (i, l) => IoPorts (alter clear_num i (iotable st)) l
  | None => st
  end.

Definition check_region (st : ioports) (fr nm : Z) : Z :=
  match find_gap st fr nm with None => - EBUSY | Some _ => 0 end.

(** [reserve_setup]: [ints] holds [ints[1]], ..., [ints[ints[0]]]. *)
Fixpoint reserve_setup (st : ioports) (ints : list Z) : ioports :=
  match ints with
  | a :: b :: ints' => reserve_setup (request_region st (u32 a) (u32 b) "reserved") ints'
  | _ => st
  end.

(** ** Specification *)

(** A region of ports: not empty, inside the 32-bit space. *)
Definition region_ok (fr nm : Z) : Prop := 0 <= fr /\ 0 < nm /\ fr + nm <= 2 ^ 32.

Definition meets (fr nm : Z) (e : resource_entry) : Prop :=
  fr < from e + num e /\ from e < fr + nm.

#[export] Instance meets_dec fr nm e : Decision (meets fr nm e).
Proof. unfold meets. apply _. Defined.

Definition free_ports (rs : list resource_entry) (fr nm : Z) : Prop :=
  Forall (fun e => ~ meets fr nm e) rs.

Definition sorted_regions (rs : list resource_entry) : Prop :=
  Forall (fun e => region_ok (from e) (num e)) rs
  /\ StronglySorted (fun a b => from a + num a <= from b) rs.

(** The linked slots are exactly the slots in use, each linked once, and their
    regions are disjoint and in order. *)
Definition ioports_ok (st : ioports) : Prop :=
  NoDup (iolist st)
  /\ (forall i e, iotable st !! i = Some e -> num e <> 0 <-> i ∈ iolist st)
  /\ (forall i, i ∈ iolist st -> is_Some (iotable st !! i))
  /\ sorted_regions (regions st).

(** ** Lemmas *)

Lemma last_port_ok e : region_ok (from e) (num e) -> last_port e = from e + num e - 1.
Proof. intros (? & ? & ?). apply u32_id. lia. Qed.

Lemma gap_loop_some p next fr nm k j :
  sorted_regions next -> region_ok fr nm ->
  gap_loop p next fr nm k = Some j ->
  exists l1 l2, next = l1 ++ l2 /\ j = (k + length l1)%nat
    /\ (forall e, p = Some e -> last_port e < fr)
    /\ Forall (fun e => from e + num e <= fr) l1 /\ Forall (fun e => fr + nm <= from e) l2.
Proof.
  revert p k. induction next as [|e next IH]; intros p k [Hf Hs] Hr.
  - simpl. intros H. exists [], []. split_and!; try done.
    + destruct (match p with Some _ => _ | None => _ end); simplify_eq/=; lia.
    + intros x ->. case_ifs_in H; lia.
  - apply Forall_cons in Hf as [He Hf]. apply StronglySorted_cons in Hs as [Hse Hs].
    pose proof Hr as (? & ? & ?). simpl. rewrite (u32_id (fr + nm - 1)) by lia.
    intros Hg. destruct (match p with Some _ => _ | None => _ end) eqn:Ep; [done|].
    assert (forall x, p = Some x -> last_port x < fr) by (intros ? ->; lia).
    destruct (Z.ltb_spec (fr + nm - 1) (from e)).
    + simplify_eq. exists [], (e :: next). split_and!; [done|simpl; lia|done|done|].
      constructor; [lia|]. destruct He as (? & ? & _).
      eapply Forall_impl; [exact Hse|]. intros x Hx. simpl in Hx. lia.
    + apply IH in Hg as (l1 & l2 & -> & -> & Hp & ? & ?); [|by split|done].
      exists (e :: l1), l2. split_and!; [done|simpl; lia|done| |done]. constructor; [|done].
      specialize (Hp e eq_refl). rewrite last_port_ok in Hp by done. lia.
Qed.

Lemma gap_loop_none p next fr nm k :
  sorted_regions next -> region_ok fr nm ->
  (forall e, p = Some e -> region_ok (from e) (num e) /\ from e < fr + nm) ->
  gap_loop p next fr nm k = None ->
  (exists e, p = Some e /\ meets fr nm e) \/ Exists (meets fr nm) next.
Proof.
  revert p k. induction next as [|e next IH]; intros p k [Hf Hs] Hr Hp.
  - simpl. intros H. destruct p as [x|]; [|done]. destruct (Hp x eq_refl) as [Hx ?].
    rewrite last_port_ok in H by done. case_ifs_in H. left. exists x. split; [done|]. split; lia.
  - apply Forall_cons in Hf as [He Hf]. apply StronglySorted_cons in Hs as [_ Hs].
    pose proof Hr as (? & ? & ?). simpl. rewrite (u32_id (fr + nm - 1)) by lia.
    destruct (match p with Some _ => _ | None => _ end) eqn:Ep.
    { intros _. left. destruct p as [x|]; [|done]. destruct (Hp x eq_refl) as [Hx ?].
      rewrite last_port_ok in Ep by done. exists x. split; [done|]. split; lia. }
    destruct (Z.ltb_spec (fr + nm - 1) (from e)); [done|]. intros Hg.
    right. destruct (IH (Some e) (S k)) as [(x & [= <-] & Hx)|Hx]; [by split|done| |done|by left|by right].
    intros x [= <-]. split; [done|lia].
Qed.

(** [find_gap] decides whether the ports are free and gives the place of the
    region in the order. *)
Lemma find_gap_spec st fr nm :
  ioports_ok st -> region_ok fr nm ->
  match find_gap st fr nm with
  | Some k => free_ports (regions st) fr nm /\ exists l1 l2, regions st = l1 ++ l2
      /\ k = length l1 /\ Forall (fun e => from e + num e <= fr) l1
      /\ Forall (fun e => fr + nm <= from e) l2
  | None => ~ free_ports (regions st) fr nm
  end.
Proof.
  intros (_ & _ & _ & Hok) Hr. pose proof Hr as (? & ? & ?). unfold find_gap.
  rewrite u32_id by lia. destruct (Z.ltb_spec (fr + nm - 1) fr); [lia|].
  destruct (gap_loop _ _ _ _ _) as [k|] eqn:E.
  - apply gap_loop_some in E as (l1 & l2 & El & -> & _ & Hl1 & Hl2); [|done..].
    split; [|eauto 10]. unfold free_ports. rewrite El. apply Forall_app.
    split; (eapply Forall_impl; [eassumption|]); intros e ?; unfold meets; simpl in *; lia.
  - apply gap_loop_none in E as [(? & [=] & _)|He]; [|done..]. intros Hf.
    apply Exists_exists in He as (e & Hin & Hm). by eapply Forall_forall in Hf.
Qed.

Lemma free_slot_spec t i :
  match free_slot t i with
  | Some j => exists k e, j = (i + k)%nat /\ t !! k = Some e /\ num e = 0
  | None => Forall (fun e => num e <> 0) t
  end.
Proof.
  revert i. induction t as [|e t IH]; intros i; simpl; [done|]. destruct (Z.eqb_spec (num e) 0).
  - exists 0%nat, e. split_and!; [lia|done..].
  - specialize (IH (S i)). destruct (free_slot t (S i)) as [j|].
    + destruct IH as (k & x & -> & ? & ?). exists (S k), x. split_and!; [lia|done..].
    + by constructor.
Qed.

Lemma omap_take_drop (t : list resource_entry) l k :
  (forall i, i ∈ l -> is_Some (t !! i)) ->
  omap (fun i => t !! i) (take k l) = take k (omap (fun i => t !! i) l)
  /\ omap (fun i => t !! i) (drop k l) = drop k (omap (fun i => t !! i) l).
Proof.
  revert k. induction l as [|i l IH]; intros k Hl; [by destruct k|].
  destruct (Hl i) as [e He]; [set_solver|]. destruct k as [|k]; [done|]. simpl. rewrite He. simpl.
  destruct (IH k) as [H1 H2]; [set_solver|]. split; [f_equal; exact H1|exact H2].
Qed.

Lemma omap_insert_fresh (t : list resource_entry) i e (l : list nat) :
  i ∉ l -> omap (fun j => <[i := e]> t !! j) l = omap (fun j => t !! j) l.
Proof.
  induction l as [|j l IH]; intros H; simpl; [done|]. rewrite list_lookup_insert_ne by set_solver.
  case_match; [f_equal|]; apply IH; set_solver.
Qed.

Lemma sorted_regions_app l1 l2 :
  sorted_regions (l1 ++ l2) <->
  sorted_regions l1 /\ sorted_regions l2
  /\ forall a b, a ∈ l1 -> b ∈ l2 -> from a + num a <= from b.
Proof. unfold sorted_regions. rewrite Forall_app, StronglySorted_app. naive_solver. Qed.

(** Linking a free slot filled with a region that fits in the order. *)
Lemma link_region_ok st i k fr nm nam l1 l2 :
  ioports_ok st -> region_ok fr nm ->
  (exists e, iotable st !! i = Some e /\ num e = 0) ->
  regions st = l1 ++ l2 -> k = length l1 ->
  Forall (fun e => from e + num e <= fr) l1 -> Forall (fun e => fr + nm <= from e) l2 ->
  let st' := IoPorts (<[i := Entry fr nm nam]> (iotable st))
                     (take k (iolist st) ++ i :: drop k (iolist st)) in
  ioports_ok st' /\ regions st' = l1 ++ Entry fr nm nam :: l2.
Proof.
  intros (Hnd & Hused & Hin & Hs) Hr (e & Hi & He) El -> H1 H2 st'.
  assert (i ∉ iolist st) as Hfresh by (intros Hx; by apply (Hused i e Hi) in Hx).
  assert (iolist st' ≡ₚ i :: iolist st) as Hp.
  { unfold st'. simpl. by rewrite <-Permutation_middle, take_drop. }
  pose proof (lookup_lt_Some _ _ _ Hi) as Hlt.
  assert (regions st' = l1 ++ Entry fr nm nam :: l2) as Hreg.
  { unfold regions, st'. simpl. rewrite omap_app. simpl. rewrite list_lookup_insert_eq by done. simpl.
    assert ((i ∉ take (length l1) (iolist st)) /\ (i ∉ drop (length l1) (iolist st))) as [Ht Hd].
    { split; intros Hx; apply Hfresh; [by eapply elem_of_take in Hx as (? & ? & _); eapply list_elem_of_lookup_2|].
      rewrite <-(take_drop (length l1) (iolist st)). apply elem_of_app. by right. }
    rewrite !omap_insert_fresh by done. destruct (omap_take_drop (iotable st) (iolist st) (length l1)) as [-> ->]; [done|].
    fold (regions st). by rewrite El, take_app_length, drop_app_length. }
  split; [|done]. split_and!.
  - rewrite Hp. by constructor.
  - intros j x Hx. rewrite Hp, elem_of_cons. unfold st' in Hx. simpl in Hx.
    destruct (decide (i = j)) as [->|].
    + rewrite list_lookup_insert_eq in Hx by done. destruct Hr as (? & ? & _). simplify_eq/=.
      split; [by left|lia].
    + rewrite list_lookup_insert_ne in Hx by done. rewrite (Hused j x Hx). naive_solver.
  - intros j. rewrite Hp, elem_of_cons. unfold st'. simpl.
    rewrite lookup_lt_is_Some, length_insert. intros [->|Hj]; [done|].
    by apply lookup_lt_is_Some, Hin.
  - rewrite Hreg. rewrite El in Hs. apply sorted_regions_app in Hs as (Hs1 & [Hs2 Hs3] & Ho).
    rewrite Forall_forall in H1, H2. apply sorted_regions_app. split_and!; [done| |].
    + split; [by constructor|]. constructor; [done|]. by apply Forall_forall.
    + intros a b Ha [->|Hb]%elem_of_cons; [by apply H1|by apply Ho].
Qed.

(** [release_region] finds the linked slot of the region, if there is one. *)
Lemma release_loop_spec t l fr nm :
  match release_loop t l fr nm with
  | Some (i, l') => exists l1 l2 e, l = l1 ++ i :: l2 /\ l' = l1 ++ l2
      /\ t !! i = Some e /\ from e = fr /\ num e = nm
  | None => forall i e, i ∈ l -> t !! i = Some e -> ~ (from e = fr /\ num e = nm)
  end.
Proof.
  induction l as [|q l IH]; simpl; [intros i e Hi; by apply elem_of_nil in Hi|].
  destruct (match t !! q with Some _ => _ | None => _ end) eqn:E.
  - destruct (t !! q) as [e|] eqn:Eq; [|done]. exists [], l, e. split_and!; (done || lia).
  - destruct (release_loop t l fr nm) as [[i l']|]; simpl.
    + destruct IH as (l1 & l2 & e & -> & -> & ? & ? & ?). by exists (q :: l1), l2, e.
    + intros i e [->|Hi]%elem_of_cons He; [|by eapply IH]. rewrite He in E. lia.
Qed.

Lemma omap_alter_fresh (t : list resource_entry) i f (l : list nat) :
  i ∉ l -> omap (fun j => alter f i t !! j) l = omap (fun j => t !! j) l.
Proof.
  induction l as [|j l IH]; intros H; simpl; [done|]. rewrite list_lookup_alter_ne by set_solver.
  case_match; [f_equal|]; apply IH; set_solver.
Qed.

Lemma unlink_region_ok st i l1 l2 e :
  ioports_ok st -> iolist st = l1 ++ i :: l2 -> iotable st !! i = Some e ->
  let st' := IoPorts (alter clear_num i (iotable st)) (l1 ++ l2) in
  ioports_ok st' /\ regions st ≡ₚ e :: regions st'.
Proof.
  intros (Hnd & Hused & Hin & Hs) El Hi st'.
  assert (i ∉ l1 ++ l2) as Hfresh.
  { rewrite El in Hnd. rewrite <-Permutation_middle in Hnd. by apply NoDup_cons in Hnd as [? _]. }
  assert (regions st' = omap (fun j => iotable st !! j) (l1 ++ l2)) as Hreg
    by (by apply omap_alter_fresh).
  assert (regions st = omap (fun j => iotable st !! j) l1 ++ e :: omap (fun j => iotable st !! j) l2)
    as Hold by (unfold regions; rewrite El, omap_app; simpl; by rewrite Hi).
  rewrite omap_app in Hreg. split; cycle 1.
  { rewrite Hreg, Hold. by rewrite <-Permutation_middle. }
  split_and!.
  - rewrite El in Hnd. rewrite <-Permutation_middle in Hnd. by apply NoDup_cons in Hnd as [_ ?].
  - intros j x Hx. unfold st' in *. simpl in *. destruct (decide (i = j)) as [->|].
    + rewrite list_lookup_alter_eq, Hi in Hx. simplify_eq/=. done.
    + rewrite list_lookup_alter_ne in Hx by done. rewrite (Hused j x Hx), El, !elem_of_app, elem_of_cons.
      naive_solver.
  - intros j Hj. unfold st' in *. simpl in *. rewrite lookup_lt_is_Some, length_alter.
    apply lookup_lt_is_Some, Hin. rewrite El. rewrite elem_of_app in *. rewrite elem_of_cons. tauto.
  - rewrite Hreg. rewrite Hold in Hs. apply sorted_regions_app in Hs as (? & [Hf2 Hs2] & Ho).
    apply Forall_cons in Hf2 as [_ Hf2]. apply StronglySorted_cons in Hs2 as [_ Hs2].
    apply sorted_regions_app. split_and!; [done|by split|]. intros a b Ha Hb. apply Ho; [done|].
    apply elem_of_cons. by right.
Qed.

(** At most one registered region has given ports. *)
Lemma sorted_regions_unique rs a b :
  sorted_regions rs -> a ∈ rs -> b ∈ rs -> from a = from b -> num a = num b -> a = b.
Proof.
  intros [Hf Hs]. induction rs as [|x rs IH]; [intros H; by apply elem_of_nil in H|].
  apply Forall_cons in Hf as [(Hx & ? & _) Hf]. apply StronglySorted_cons in Hs as [Hsx Hs].
  rewrite Forall_forall in Hsx.
  intros [->|Ha]%elem_of_cons [->|Hb]%elem_of_cons; auto; [apply Hsx in Hb|apply Hsx in Ha];
    simpl in *; lia.
Qed.

Definition table_full (st : ioports) : Prop := Forall (fun e => num e <> 0) (iotable st).

(** A request that is empty or wraps around the address space changes nothing;
    any other one keeps the table consistent and every region registered. *)
Lemma request_region_keeps st fr nm nam :
  ioports_ok st -> 0 <= fr < 2 ^ 32 -> 0 <= nm < 2 ^ 32 -> (fr, nm) <> (0, 0) ->
  ioports_ok (request_region st fr nm nam)
  /\ forall e, e ∈ regions st -> e ∈ regions (request_region st fr nm nam).
Proof.
  intros Hok Hfr Hnm Hz. unfold request_region. pose proof (free_slot_spec (iotable st) 0) as Hs.
  destruct (free_slot _ _) as [i|]; [|done]. destruct Hs as (i' & x & -> & Hi & Hx). simpl.
  destruct (decide (0 < nm /\ fr + nm <= 2 ^ 32)) as [[Hn Hw]|Hw].
  - assert (region_ok fr nm) as Hr by (split_and!; lia).
    pose proof (find_gap_spec st fr nm Hok Hr) as Hg. destruct (find_gap st fr nm) as [k|]; [|done].
    destruct Hg as (_ & l1 & l2 & El & Hk & H1 & H2).
    destruct (link_region_ok st i' k fr nm nam l1 l2) as [Hok' Hreg]; try done; [by eauto|].
    split; [done|]. intros e. rewrite Hreg, El, !elem_of_app, elem_of_cons. tauto.
  - assert (find_gap st fr nm = None) as ->; [|done]. unfold find_gap, u32.
    destruct (decide (nm = 0)) as [->|].
    + destruct (decide (fr = 0)) as [->|]; [done|]. rewrite Z.mod_small by lia.
      destruct (Z.ltb_spec (fr + 0 - 1) fr); [done|lia].
    + rewrite <-(Z.mod_unique (fr + nm - 1) (2 ^ 32) 1 (fr + nm - 1 - 2 ^ 32)) by lia.
      destruct (Z.ltb_spec (fr + nm - 1 - 2 ^ 32) fr); [done|lia].
Qed.

(** ** Properties *)

(** [check_region] answers -EBUSY exactly when a registered region has a
    port in common with the region asked for, and 0 otherwise. *)
Theorem check_region_correct st fr nm :
  ioports_ok st -> region_ok fr nm ->
  check_region st fr nm = (if bool_decide (free_ports (regions st) fr nm) then 0 else - EBUSY).
Proof.
  intros Hok Hr. pose proof (find_gap_spec st fr nm Hok Hr) as H. unfold check_region.
  destruct (find_gap st fr nm).
  - by rewrite bool_decide_eq_true_2 by apply H.
  - by rewrite bool_decide_eq_false_2.
Qed.

(** [request_region] keeps the table consistent (regions disjoint and in
    order, each used slot linked once) and registers the region exactly when
    its ports are free and a slot is free; otherwise it changes nothing. *)
Theorem request_region_correct st fr nm nam :
  ioports_ok st -> region_ok fr nm ->
  ioports_ok (request_region st fr nm nam)
  /\ (free_ports (regions st) fr nm /\ ~ table_full st ->
      regions (request_region st fr nm nam) ≡ₚ Entry fr nm nam :: regions st)
  /\ (~ free_ports (regions st) fr nm \/ table_full st -> request_region st fr nm nam = st).
Proof.
  intros Hok Hr. unfold request_region. pose proof (free_slot_spec (iotable st) 0) as Hs.
  pose proof (find_gap_spec st fr nm Hok Hr) as Hg.
  destruct (free_slot _ _) as [i|]; [|by split_and!; [|intros [_ []]|]].
  destruct Hs as (i' & e & -> & Hi & He). simpl.
  assert (~ table_full st) as Hnf.
  { intros Hf. unfold table_full in Hf. rewrite Forall_lookup in Hf. by apply (Hf i' e). }
  destruct (find_gap st fr nm) as [k|]; [|by split_and!; [|intros []|]].
  destruct Hg as (Hfree & l1 & l2 & El & Hk & H1 & H2).
  destruct (link_region_ok st i' k fr nm nam l1 l2) as [Hok' Hreg]; try done; [by eauto|].
  split_and!; [done| |by intros []]. intros _. rewrite Hreg, El. by rewrite Permutation_middle.
Qed.

(** [release_region] keeps the table consistent and removes exactly the
    region registered with these ports; when there is none it changes
    nothing. *)
Theorem release_region_correct st fr nm :
  ioports_ok st ->
  ioports_ok (release_region st fr nm)
  /\ ((exists nam, regions st ≡ₚ Entry fr nm nam :: regions (release_region st fr nm))
      \/ (release_region st fr nm = st /\
          Forall (fun e => ~ (from e = fr /\ num e = nm)) (regions st))).
Proof.
  intros Hok. unfold release_region. pose proof (release_loop_spec (iotable st) (iolist st) fr nm) as H.
  destruct (release_loop _ _ _ _) as [[i l]|].
  - destruct H as (l1 & l2 & e & El & -> & Hi & <- & <-).
    destruct (unlink_region_ok st i l1 l2 e Hok El Hi) as [Hok' Hp]. split; [done|]. left.
    exists (name e). by destruct e.
  - split; [done|]. right. split; [done|]. apply Forall_forall. intros e He.
    apply list_elem_of_omap in He as (i & Hi & He). by eapply H.
Qed.

(** Releasing a region that was just registered gives the regions from
    before. *)
Theorem request_release_roundtrip st fr nm nam :
  ioports_ok st -> region_ok fr nm -> free_ports (regions st) fr nm -> ~ table_full st ->
  regions (release_region (request_region st fr nm nam) fr nm) ≡ₚ regions st.
Proof.
  intros Hok Hr Hfree Hnf. unfold request_region. pose proof (free_slot_spec (iotable st) 0) as Hs.
  pose proof (find_gap_spec st fr nm Hok Hr) as Hg.
  destruct (free_slot _ _) as [i|]; [|done]. destruct Hs as (i' & x & -> & Hi & Hx). simpl.
  destruct (find_gap st fr nm) as [k|]; [|done]. destruct Hg as (_ & l1 & l2 & El & Hk & H1 & H2).
  destruct (link_region_ok st i' k fr nm nam l1 l2) as [Hok' Hreg]; try done; [by eauto|].
  set (st' := IoPorts _ _) in *. unfold release_region.
  pose proof (release_loop_spec (iotable st') (iolist st') fr nm) as H.
  destruct (release_loop _ _ _ _) as [[j l]|].
  - destruct H as (m1 & m2 & e & Em & -> & Hj & Ef & En).
    destruct (unlink_region_ok st' j m1 m2 e Hok' Em Hj) as [_ Hp].
    assert (e = Entry fr nm nam) as ->.
    { apply (sorted_regions_unique (regions st')); try done; [apply Hok'|..].
      - rewrite Hp. by left.
      - rewrite Hreg. apply elem_of_app. right. by left. }
    rewrite Hreg, <-Permutation_middle in Hp. apply Permutation_cons_inv in Hp. by rewrite El, Hp.
  - exfalso. assert (Entry fr nm nam ∈ regions st') as Hin.
    { rewrite Hreg. apply elem_of_app. right. by left. }
    apply list_elem_of_omap in Hin as (j & Hj & He). by apply (H j _ Hj He).
Qed.

(** No argument pair of the option is two zeros. *)
Fixpoint nonzero_pairs (ints : list Z) : Prop :=
  match ints with
  | a :: b :: ints' => (u32 a, u32 b) <> (0, 0) /\ nonzero_pairs ints'
  | _ => True
  end.

(** [reserve_setup] (the "reserve=" option) keeps the table consistent and
    every region registered before, whatever numbers the option holds, as long
    as no pair is 0,0. *)
Lemma reserve_setup_keeps st ints :
  ioports_ok st -> nonzero_pairs ints ->
  ioports_ok (reserve_setup st ints) /\ forall e, e ∈ regions st -> e ∈ regions (reserve_setup st ints).
Proof.
  revert st. induction (Nat.lt_wf_0_projected length ints) as [ints _ IH]. intros st Hok Hz. destruct ints as [|a [|b ints]]; [done..|]. destruct Hz as [Hab Hz]. simpl.
  destruct (request_region_keeps st (u32 a) (u32 b) "reserved" Hok) as [Hok' Hin];
    [apply u32_range..|done|].
  destruct (IH ints ltac:(simpl; lia) _ Hok' Hz) as [? Hin']. split; [done|]. auto.
Qed.

(** A request for 0 ports at address 0 on an empty table is linked although
    its slot counts as free, and from then on every check fails: the entry ends
    at the last port of the address space. *)
Lemma request_zero_blocks st nam fr nm :
  ioports_ok st -> regions st = [] -> ~ table_full st -> 0 <= fr < 2 ^ 32 -> 0 <= nm < 2 ^ 32 ->
  check_region (request_region st 0 0 nam) fr nm = - EBUSY.
Proof.
  intros (_ & _ & Hin & _) Hreg Hnf Hfr Hnm. unfold request_region.
  pose proof (free_slot_spec (iotable st) 0) as Hs. destruct (free_slot _ _) as [i|]; [|done].
  destruct Hs as (i' & x & -> & Hi & Hx). simpl. unfold find_gap at 1. rewrite Hreg. simpl.
  assert (iolist st = []) as ->.
  { destruct (iolist st) as [|j l] eqn:E; [done|]. destruct (Hin j) as [e He]; [by left|].
    unfold regions in Hreg. rewrite E in Hreg. simpl in Hreg. by rewrite He in Hreg. }
  pose proof (lookup_lt_Some _ _ _ Hi) as Hlt. unfold check_region, find_gap, regions. simpl.
  rewrite list_lookup_insert_eq by done. simpl. destruct (u32 (fr + nm - 1) <? fr); [done|]. simpl.
  unfold last_port. cbn [from num]. change (u32 (0 + 0 - 1)) with (2 ^ 32 - 1). destruct (Z.ltb_spec (u32 (fr + nm - 1)) 0).
  - pose proof (u32_range (fr + nm - 1)). lia.
  - destruct (Z.leb_spec fr (2 ^ 32 - 1)); [done|lia].
Qed.

(** ** Witnesses *)

(** The serial port and the floppy controller of a table of 128 slots. *)
Definition ex_ports : ioports :=
  request_region (request_region ioports_init 0x3f8 8 "serial") 0x3f0 6 "floppy".

Lemma ioports_init_ok : ioports_ok ioports_init.
Proof.
  split_and!; [by constructor| |by intros i Hi%elem_of_nil|by repeat constructor].
  intros i e He. split; [|by intros Hi%elem_of_nil].
  apply list_elem_of_lookup_2 in He. unfold ioports_init, iotable in He.
  apply elem_of_replicate in He as [-> _]. done.
Qed.

Lemma ex_ports_ok : ioports_ok ex_ports.
Proof. repeat (apply request_region_keeps; [|done..]). apply ioports_init_ok. Qed.

Lemma check_region_correct_witness :
  check_region ex_ports 0x3f6 2 = 0 /\ check_region ex_ports 0x3f0 9 = - EBUSY.
Proof.
  rewrite !(check_region_correct ex_ports) by (apply ex_ports_ok || (split_and!; done)).
  split; reflexivity.
Defined.

Lemma request_region_correct_witness :
  ioports_ok (request_region ex_ports 0x3f6 2 "ide")
  /\ regions (request_region ex_ports 0x3f6 2 "ide")
     = [Entry 0x3f0 6 "floppy"; Entry 0x3f6 2 "ide"; Entry 0x3f8 8 "serial"]
  /\ request_region ex_ports 0x3f5 2 "ide" = ex_ports.
Proof.
  split_and!; [apply (request_region_correct ex_ports 0x3f6 2 "ide" ex_ports_ok); by split_and!|done|].
  apply (request_region_correct ex_ports 0x3f5 2 "ide" ex_ports_ok); [by split_and!|].
  left. intros Hf%Forall_cons. destruct Hf as [Hf _]. by apply Hf.
Defined.

Lemma release_region_correct_witness :
  ioports_ok (release_region ex_ports 0x3f8 8)
  /\ regions (release_region ex_ports 0x3f8 8) = [Entry 0x3f0 6 "floppy"].
Proof. split; [apply (release_region_correct ex_ports 0x3f8 8 ex_ports_ok)|reflexivity]. Defined.

Lemma request_release_roundtrip_witness :
  regions (release_region (request_region ex_ports 0x3f6 2 "ide") 0x3f6 2) ≡ₚ regions ex_ports.
Proof.
  apply (request_release_roundtrip ex_ports 0x3f6 2 "ide" ex_ports_ok); [by split_and!| |].
  - unfold free_ports. by_decide.
  - intros Hf. unfold table_full in Hf. rewrite Forall_lookup in Hf. by apply (Hf 5%nat (Entry 0 0 "")).
Defined.

Lemma reserve_setup_keeps_witness :
  regions (reserve_setup ex_ports [0x300; 32; 0; -1; 0x3f4; 4])
    = [Entry 0x300 32 "reserved"; Entry 0x3f0 6 "floppy"; Entry 0x3f8 8 "serial"]
  /\ ioports_ok (reserve_setup ex_ports [0x300; 32; 0; -1; 0x3f4; 4]).
Proof.
  split; [reflexivity|]. apply (reserve_setup_keeps ex_ports); [apply ex_ports_ok|by split_and!].
Defined.

Lemma request_zero_blocks_witness :
  check_region (request_region ioports_init 0 0 "none") 0x300 32 = - EBUSY.
Proof.
  apply (request_zero_blocks ioports_init "none" 0x300 32 ioports_init_ok); try done.
  intros Hf. unfold table_full in Hf. rewrite Forall_lookup in Hf. by apply (Hf 5%nat (Entry 0 0 "")).
Defined.
