(* ===== verification/LockBlocks.v ===== *)
(** * fs/locks.c: the circular lists of blocked requests

    The requests that wait for a lock hang on it in a circular, doubly linked
    list through [fl_nextblock] and [fl_prevblock].  The two fields are maps
    from addresses to addresses; an address that is not in the map has NULL
    there.  [None] is a NULL dereference.  The functions are proved to
    implement a queue: the list [block_queue] of Locks.v. *)

From S2P Require Import Prelude.

Record links := Links { fl_nextblock : gmap Z Z; fl_prevblock : gmap Z Z }.

Definition set_next (h : links) (x y : Z) : links := Links (<[x := y]> (fl_nextblock h)) (fl_prevblock h).

Definition set_prev (h : links) (x y : Z) : links := Links (fl_nextblock h) (<[x := y]> (fl_prevblock h)).

(** [x->fl_prevblock = x->fl_nextblock = NULL] *)
Definition unlink (h : links) (x : Z) : links :=
  Links (delete x (fl_nextblock h)) (delete x (fl_prevblock h)).

Definition locks_insert_block (h : links) (blocker waiter : Z) : links :=
  let prevblock := match fl_prevblock h !! blocker with None => blocker | Some p => p end in
  let h := set_next h prevblock waiter in
  let h := set_prev h blocker waiter in
  let h := set_next h waiter blocker in
  set_prev h waiter prevblock.

Definition locks_delete_block (h : links) (blocker waiter : Z) : option links :=
  match fl_nextblock h !! waiter with
  | None => Some h
  | Some nextblock =>
    prevblock ← fl_prevblock h !! waiter;
    let h := set_prev h nextblock prevblock in
    let h := set_next h prevblock nextblock in
    let h := unlink h waiter in
    Some (if bool_decide (fl_nextblock h !! blocker = Some blocker) then unlink h blocker else h)
  end.

Definition posix_unblock_lock (h : links) (waiter : Z) : option links :=
  match fl_prevblock h !! waiter with
  | Some p => locks_delete_block h p waiter
  | None => Some h
  end.

(** [locks_wake_up_blocks(blocker, 0)]: the new links and the requests woken, in
    order. *)
Fixpoint locks_wake_up_blocks (fuel : nat) (h : links) (blocker : Z) : option (links * list Z) :=
  match fuel with
  | O => None
  | S fuel =>
    match fl_nextblock h !! blocker with
    | None => Some (h, [])
    | Some waiter =>
      h ← locks_delete_block h blocker waiter;
      '(h, woken) ← locks_wake_up_blocks fuel h blocker;
      Some (h, waiter :: woken)
    end
  end.

(** ** The list behind the links *)

Fixpoint adjacent (l : list Z) : list (Z * Z) :=
  match l with
  | x :: ((y :: _) as l') => (x, y) :: adjacent l'
  | _ => []
  end.

Definition linked (h : links) (e : Z * Z) : Prop :=
  fl_nextblock h !! e.1 = Some e.2 /\ fl_prevblock h !! e.2 = Some e.1.

(** The requests [ws] wait for [b], in this order. *)
Definition queue (h : links) (b : Z) (ws : list Z) : Prop :=
  NoDup (b :: ws) /\
  match ws with
  | [] => fl_nextblock h !! b = None /\ fl_prevblock h !! b = None
  | _ => Forall (linked h) (adjacent (b :: ws ++ [b]))
  end.

(** The links of everything else are the same. *)
Definition same_elsewhere (h h' : links) (l : list Z) : Prop :=
  forall x, x ∉ l -> fl_nextblock h' !! x = fl_nextblock h !! x
                 /\ fl_prevblock h' !! x = fl_prevblock h !! x.

Lemma adjacent_app l1 x y l2 :
  adjacent (l1 ++ x :: y :: l2) = adjacent (l1 ++ [x]) ++ (x, y) :: adjacent (y :: l2).
Proof.
  induction l1 as [|a l1 IH]; simpl; [done|].
  destruct l1 as [|b l1]; simpl in *; [done|]. by rewrite IH.
Qed.

Lemma adjacent_elem l x y : (x, y) ∈ adjacent l -> exists l1 l2, l = l1 ++ x :: y :: l2.
Proof.
  induction l as [|a [|b l] IH]; simpl; [by intros ?%elem_of_nil..|].
  intros [[= -> ->]|(l1 & l2 & E)%IH]%elem_of_cons; [by exists [], l|].
  exists (a :: l1), l2. simpl. by rewrite <-E.
Qed.

Lemma adjacent_snd a l x y : (x, y) ∈ adjacent (a :: l) -> y ∈ l.
Proof.
  revert a. induction l as [|b l IH]; intros a; simpl; [by intros ?%elem_of_nil|].
  intros [[= -> ->]|H]%elem_of_cons; [by left|]. right. by apply (IH b).
Qed.

Lemma adjacent_fst l z x y : (x, y) ∈ adjacent (l ++ [z]) -> x ∈ l.
Proof.
  induction l as [|a l IH]; simpl; [by intros ?%elem_of_nil|].
  destruct (l ++ [z]) as [|b k] eqn:E; [by intros ?%elem_of_nil|]. simpl in IH.
  intros [[= -> ->]|H]%elem_of_cons; [by left|right]. by apply IH.
Qed.

Lemma queue_ne h b ws :
  ws <> [] -> queue h b ws <-> NoDup (b :: ws) /\ Forall (linked h) (adjacent (b :: ws ++ [b])).
Proof. unfold queue. by destruct ws. Qed.

(** A link survives the update of other cells. *)
Lemma linked_keep h h' x y :
  linked h (x, y) -> fl_nextblock h' !! x = fl_nextblock h !! x ->
  fl_prevblock h' !! y = fl_prevblock h !! y -> linked h' (x, y).
Proof. intros [H1 H2] E1 E2. split; simpl in *; congruence. Qed.

Lemma queue_last h b ws w :
  queue h b (ws ++ [w]) -> fl_prevblock h !! b = Some w /\ fl_nextblock h !! w = Some b.
Proof.
  intros [_ H]. assert (Forall (linked h) (adjacent (b :: (ws ++ [w]) ++ [b]))) as Hf by (by destruct ws).
  rewrite <-app_assoc in Hf. change (b :: ws ++ [w] ++ [b]) with ((b :: ws) ++ w :: b :: []) in Hf.
  rewrite adjacent_app in Hf. apply Forall_app in Hf as [_ [[? ?] _]%Forall_cons]. done.
Qed.

(** The lock at the end of the queue, [b] itself when it is empty. *)
Definition tail_of (b : Z) (ws : list Z) : Z := match last ws with Some q => q | None => b end.

Lemma queue_tail h b ws :
  queue h b ws -> match fl_prevblock h !! b with None => b | Some p => p end = tail_of b ws.
Proof.
  intros Hq. unfold tail_of. destruct ws as [|w0 ws _] using rev_ind.
  - destruct Hq as [_ [_ ->]]. done.
  - destruct (queue_last _ _ _ _ Hq) as [-> _]. by rewrite last_snoc.
Qed.

Lemma NoDup_snoc (l : list Z) x : NoDup (l ++ [x]) <-> NoDup l /\ x ∉ l.
Proof.
  rewrite NoDup_app. split.
  - intros (? & H & _). split; [done|]. intros Hx. apply (H x Hx). by left.
  - intros [? H]. split_and!; [done| |apply NoDup_singleton].
    intros y Hy ->%list_elem_of_singleton. done.
Qed.

Lemma insert_block_queue h b ws w :
  queue h b ws -> w ∉ b :: ws -> queue (locks_insert_block h b w) b (ws ++ [w]).
Proof.
  intros Hq Hw. pose proof Hq as [Hnd _]. unfold locks_insert_block. rewrite (queue_tail _ _ _ Hq).
  apply queue_ne; [by destruct ws|]. split.
  { change (b :: ws ++ [w]) with ((b :: ws) ++ [w]). by apply NoDup_snoc. }
  apply not_elem_of_cons in Hw as [Hwb Hww]. unfold tail_of.
  destruct ws as [|w0 ws _] using rev_ind.
  { simpl. repeat (apply Forall_cons; split); [| |done]; split; simpl; simplify_map_eq; done. }
  rewrite last_snoc. apply queue_ne in Hq as [_ Hl]; [|by destruct ws].
  rewrite <-!app_assoc in *. change (b :: ws ++ [w0] ++ [b]) with ((b :: ws) ++ w0 :: [b]) in Hl.
  change (b :: ws ++ [w0] ++ [w] ++ [b]) with ((b :: ws) ++ w0 :: w :: [b]).
  rewrite adjacent_app in *. apply Forall_app in Hl as [Hl _].
  rewrite elem_of_app, list_elem_of_singleton in Hww. apply Forall_app. split.
  - rewrite Forall_forall in *. intros [x y] Hxy. eapply linked_keep; [by apply Hl|..].
    + pose proof (adjacent_fst (b :: ws) w0 x y Hxy) as Hx.
      change (b :: ws ++ [w0]) with ((b :: ws) ++ [w0]) in Hnd. apply NoDup_snoc in Hnd as [_ Hnd].
      simpl. rewrite !lookup_insert_ne; [done|..]; intros ->; [done|].
      apply elem_of_cons in Hx. naive_solver.
    + pose proof (adjacent_snd b (ws ++ [w0]) x y Hxy) as Hy. apply NoDup_cons in Hnd as [Hnd _].
      simpl. rewrite !lookup_insert_ne; [done|..]; intros ->; [done|].
      rewrite elem_of_app, list_elem_of_singleton in Hy. tauto.
  - assert (w0 <> b /\ w0 <> w) as [? ?].
    { apply NoDup_cons in Hnd as [Hnd _]. rewrite elem_of_app, list_elem_of_singleton in Hnd. naive_solver. }
    simpl. repeat (apply Forall_cons; split); [| |done]; split; simpl; simplify_map_eq; done.
Qed.

Definition head_of (b : Z) (ws : list Z) : Z := match ws with x :: _ => x | [] => b end.

Lemma tail_split b a : exists a', b :: a = a' ++ [tail_of b a].
Proof.
  unfold tail_of. destruct a as [|x a _] using rev_ind; [by exists []|].
  rewrite last_snoc. by exists (b :: a).
Qed.

Lemma head_split b c : exists k, c ++ [b] = head_of b c :: k.
Proof. destruct c as [|x c]; [by exists []|by exists (c ++ [b])]. Qed.

(** The neighbours of a request in the ring. *)
Lemma queue_split h b a w c :
  queue h b (a ++ w :: c) ->
  exists a' k, b :: a = a' ++ [tail_of b a] /\ c ++ [b] = head_of b c :: k
    /\ Forall (linked h) (adjacent (a' ++ [tail_of b a])) /\ Forall (linked h) (adjacent (head_of b c :: k))
    /\ linked h (tail_of b a, w) /\ linked h (w, head_of b c).
Proof.
  intros [_ Hl]%queue_ne; [|by destruct a]. destruct (tail_split b a) as [a' Ea], (head_split b c) as [k Ek].
  exists a', k. split; [done|]. split; [done|]. rewrite <-app_assoc in Hl.
  change (b :: a ++ (w :: c) ++ [b]) with ((b :: a) ++ w :: (c ++ [b])) in Hl.
  rewrite Ea, Ek, <-app_assoc in Hl. change ([tail_of b a] ++ w :: head_of b c :: k)
    with (tail_of b a :: w :: head_of b c :: k) in Hl. rewrite adjacent_app in Hl.
  apply Forall_app in Hl as [? [? Hl]%Forall_cons]. apply Forall_cons in Hl as [? ?]. done.
Qed.

Lemma delete_block_queue h b a w c :
  queue h b (a ++ w :: c) ->
  exists h', locks_delete_block h b w = Some h' /\ queue h' b (a ++ c)
    /\ fl_nextblock h' !! w = None /\ fl_prevblock h' !! w = None
    /\ same_elsewhere h h' (b :: a ++ w :: c).
Proof.
  intros Hq. pose proof Hq as [Hnd _].
  destruct (queue_split _ _ _ _ _ Hq) as (a' & k & Ea & Ek & Hla & Hlk & [Hpw1 Hpw2] & [Hwn1 Hwn2]).
  set (p := tail_of b a) in *. set (n := head_of b c) in *. simpl in *.
  unfold locks_delete_block. rewrite Hwn1, Hpw2. cbn [mbind option_bind].
  assert (p ∈ b :: a /\ n ∈ c ++ [b]) as [Hp Hn].
  { rewrite Ea, Ek. split; [apply elem_of_app; right; by left|by left]. }
  apply NoDup_cons in Hnd as [Hb Hnd]. apply NoDup_app in Hnd as (Hna & Hdis & [Hwc Hnc]%NoDup_cons).
  rewrite not_elem_of_app, not_elem_of_cons in Hb. destruct Hb as (Hba & Hbw & Hbc).
  assert (w ∉ a) as Hwa by (intros Hx; apply (Hdis w Hx); by left).
  assert (forall x, x ∈ a -> x ∉ c) as Hac by (intros x Hx Hc; apply (Hdis x Hx); by right).
  assert (p <> w /\ n <> w) as [Hpw Hnw].
  { rewrite elem_of_cons in Hp. rewrite elem_of_app, list_elem_of_singleton in Hn. naive_solver. }
  set (h1 := unlink (set_next (set_prev h n p) p n) w).
  assert (forall x, x <> p -> x <> w -> fl_nextblock h1 !! x = fl_nextblock h !! x) as Hnext.
  { intros x H1 H2. simpl. rewrite lookup_delete_ne, lookup_insert_ne by done. done. }
  assert (forall x, x <> n -> x <> w -> fl_prevblock h1 !! x = fl_prevblock h !! x) as Hprev.
  { intros x H1 H2. simpl. rewrite lookup_delete_ne, lookup_insert_ne by done. done. }
  assert (linked h1 (p, n)) as Hpn by (split; simpl; by simplify_map_eq).
  assert (fl_nextblock h1 !! w = None /\ fl_prevblock h1 !! w = None) as [Hw1 Hw2]
    by (split; simpl; by simplify_map_eq).
  assert (same_elsewhere h h1 (b :: a ++ w :: c)) as Hsame.
  { intros x. rewrite not_elem_of_cons, not_elem_of_app, not_elem_of_cons. intros (Hxb & Hxa & Hxw & Hxc).
    rewrite elem_of_cons in Hp. rewrite elem_of_app, list_elem_of_singleton in Hn.
    rewrite Hnext, Hprev by naive_solver. done. }
  destruct (decide (a ++ c = [])) as [[-> ->]%app_nil|Hne].
  - simpl in p, n. assert (p = b /\ n = b) as [Ep En] by done. rewrite Ep, En in Hpn.
    rewrite bool_decide_eq_true_2 by apply Hpn. eexists. split; [done|]. split_and!.
    + split; [apply NoDup_singleton|]. simpl. by rewrite !lookup_delete_eq.
    + cbn [unlink fl_nextblock]. rewrite lookup_delete_ne by done. exact Hw1.
    + cbn [unlink fl_prevblock]. rewrite lookup_delete_ne by done. exact Hw2.
    + intros x Hx. destruct (Hsame x Hx) as [<- <-]. apply not_elem_of_cons in Hx as [? _].
      cbn [unlink fl_nextblock fl_prevblock]. by rewrite !lookup_delete_ne.
  - assert (forall x y, (x, y) ∈ adjacent (a' ++ [p]) -> linked h1 (x, y)) as H1.
    { intros x y Hxy. rewrite Forall_forall in Hla. eapply linked_keep; [by apply Hla|..].
      - pose proof (adjacent_fst _ _ _ _ Hxy) as Hx.
        assert (NoDup (a' ++ [p])) as [_ Hpa]%NoDup_snoc by (rewrite <-Ea; by constructor).
        apply Hnext; [by intros ->|]. intros ->.
        assert (w ∈ b :: a) as [?|?]%elem_of_cons by (rewrite Ea, elem_of_app; by left); done.
      - rewrite <-Ea in Hxy. apply adjacent_snd in Hxy. apply Hprev; [|by intros ->]. intros ->.
        rewrite elem_of_app, list_elem_of_singleton in Hn.
        destruct Hn as [Hn|Hn]; [by apply (Hac n)|by rewrite Hn in Hxy]. }
    assert (forall x y, (x, y) ∈ adjacent (n :: k) -> linked h1 (x, y)) as H2.
    { intros x y Hxy. rewrite Forall_forall in Hlk. eapply linked_keep; [by apply Hlk|..].
      - rewrite <-Ek in Hxy. pose proof (adjacent_fst _ _ _ _ Hxy) as Hx. rewrite elem_of_cons in Hp.
        apply Hnext; intros ->; [|done]. destruct Hp as [Hp|Hp]; [by rewrite Hp in Hx|by apply (Hac p)].
      - pose proof (adjacent_snd _ _ _ _ Hxy) as Hy.
        assert (NoDup (n :: k)) as [Hnk _]%NoDup_cons by (rewrite <-Ek; by apply NoDup_snoc).
        apply Hprev; [by intros ->|]. intros ->.
        assert (w ∈ c ++ [b]) as Hx by (rewrite Ek; by right).
        rewrite elem_of_app, list_elem_of_singleton in Hx. destruct Hx as [Hx|Hx]; [done|by destruct Hbw]. }
    assert (queue h1 b (a ++ c)) as Hq1.
    { apply queue_ne; [done|]. split.
      - apply NoDup_cons. rewrite not_elem_of_app. split; [done|]. apply NoDup_app. split_and!; done.
      - rewrite <-app_assoc. change (b :: a ++ c ++ [b]) with ((b :: a) ++ (c ++ [b])). rewrite Ea, Ek, <-app_assoc.
        change ([p] ++ n :: k) with (p :: n :: k). rewrite adjacent_app. apply Forall_app.
        split; [|constructor; [done|]]; apply Forall_forall; intros [x y] Hxy; auto. }
    rewrite bool_decide_eq_false_2; [by eauto 10|].
    intros Hx. apply queue_ne in Hq1 as [Hnd1 Hf]; [|done]. destruct (a ++ c) as [|z zs]; [done|].
    apply Forall_cons in Hf as [[Hz _] _]. cbn [fst snd] in Hz. apply NoDup_cons in Hnd1 as [Hnb _].
    apply Hnb. assert (z = b) as -> by congruence. by left.
Qed.

(** ** The operations on the queue *)

(** [locks_insert_block] appends the request to the queue of the lock and
    leaves the links of all other locks alone. *)
Lemma locks_insert_block_appends h b ws w :
  queue h b ws -> w ∉ b :: ws ->
  queue (locks_insert_block h b w) b (ws ++ [w])
  /\ same_elsewhere h (locks_insert_block h b w) (w :: b :: ws).
Proof.
  intros Hq Hw. split; [by apply insert_block_queue|]. intros x. rewrite !not_elem_of_cons.
  intros (? & ? & Hx). unfold locks_insert_block. rewrite (queue_tail _ _ _ Hq).
  assert (x <> tail_of b ws).
  { unfold tail_of. destruct (last ws) eqn:E; [|done]. intros ->. apply Hx.
    apply last_Some in E as [l ->]. apply elem_of_app. right. by left. }
  simpl. by rewrite !lookup_insert_ne.
Qed.

(** [locks_wake_up_blocks] ends with an empty queue and wakes the waiting
    requests in the order in which they blocked. *)
Lemma locks_wake_up_blocks_fifo h b ws fuel :
  queue h b ws -> (length ws < fuel)%nat ->
  exists h', locks_wake_up_blocks fuel h b = Some (h', ws) /\ queue h' b [].
Proof.
  revert h ws. induction fuel as [|fuel IH]; intros h ws Hq Hlen; [lia|]. cbn [locks_wake_up_blocks].
  destruct ws as [|w ws].
  - destruct Hq as [Hnd [Hn Hp]]. rewrite Hn. exists h. by split_and!.
  - apply queue_ne in Hq as Hq'; [|done]. destruct Hq' as [_ Hf]. simpl in Hf.
    apply Forall_cons in Hf as [[Hw _] _]. cbn [fst snd] in Hw. rewrite Hw.
    destruct (delete_block_queue h b [] w ws Hq) as (h1 & -> & Hq1 & _). cbn [mbind option_bind].
    destruct (IH h1 ws Hq1) as (h' & -> & Hq'); [simpl in Hlen; lia|]. exists h'. done.
Qed.

(** ** Properties *)

(** The circular list of blocked requests implements a first-in first-out
    queue: [locks_insert_block] appends a new request, [locks_delete_block]
    removes a request wherever it is in the queue and clears its links,
    [locks_wake_up_blocks] ends with an empty queue after it woke the requests in
    the order in which they blocked; none of them follows a NULL pointer, and
    the links of other locks do not change. *)
Theorem block_list_is_fifo h b ws :
  queue h b ws ->
  (forall w, w ∉ b :: ws ->
     queue (locks_insert_block h b w) b (ws ++ [w])
     /\ same_elsewhere h (locks_insert_block h b w) (w :: b :: ws)) /\
  (forall a w c, ws = a ++ w :: c ->
     exists h', locks_delete_block h b w = Some h' /\ queue h' b (a ++ c)
       /\ fl_nextblock h' !! w = None /\ fl_prevblock h' !! w = None
       /\ same_elsewhere h h' (b :: ws)) /\
  (forall fuel, (length ws < fuel)%nat ->
     exists h', locks_wake_up_blocks fuel h b = Some (h', ws) /\ queue h' b []).
Proof.
  intros Hq. split; [|split].
  - intros w. by apply locks_insert_block_appends.
  - intros a w c ->. by apply delete_block_queue.
  - intros fuel. by apply locks_wake_up_blocks_fifo.
Qed.

(** ** Witnesses *)

(** Lock 1 with requests 10, 11 and 12 waiting in this order. *)
Definition ex_links : links :=
  locks_insert_block (locks_insert_block (locks_insert_block (Links ∅ ∅) 1 10) 1 11) 1 12.

Lemma ex_queue_empty : queue (Links ∅ ∅) 1 [].
Proof. split; [apply NoDup_singleton|done]. Qed.

Lemma ex_queue : queue ex_links 1 [10; 11; 12].
Proof.
  apply (insert_block_queue _ 1 [10; 11] 12); [|by_decide].
  apply (insert_block_queue _ 1 [10] 11); [|by_decide].
  apply (insert_block_queue _ 1 [] 10); [apply ex_queue_empty|by_decide].
Qed.

Lemma block_list_is_fifo_witness :
  queue (locks_insert_block ex_links 1 13) 1 [10; 11; 12; 13] /\
  (exists h', locks_delete_block ex_links 1 11 = Some h' /\ queue h' 1 [10; 12]) /\
  (exists h', locks_wake_up_blocks 4 ex_links 1 = Some (h', [10; 11; 12]) /\ queue h' 1 []).
Proof.
  destruct (block_list_is_fifo ex_links 1 [10; 11; 12] ex_queue) as (Hins & Hdel & Hwake).
  split; [apply Hins; by_decide|split].
  - destruct (Hdel [10] 11 [12] eq_refl) as (h' & E & Hq & _). exists h'. split; [exact E|exact Hq].
  - apply Hwake. simpl. lia.
Defined.
