(* ===== verification/PosixLock.v ===== *)
(** * fs/locks.c: file locks and the list surgery of [posix_lock_file]

    The locks of an inode are a list in the order of the [fl_next] links.  A
    lock carries its address [fl_id]; a write through a pointer to a lock is
    [sync], which replaces the element with that address, so that the aliases
    [caller], [left] and [right] of [posix_lock_file] mean what they mean in the
    code.  The surgery is proved to implement a map from the bytes of the file
    to the lock each owner holds on them. *)

From S2P Require Import Prelude.

Definition OFFSET_MAX : Z := 0x7fffffff.
Definition FL_POSIX : Z := 1.
Definition FL_FLOCK : Z := 2.
Definition FL_ACCESS : Z := 8.
Definition F_RDLCK : Z := 0.
Definition F_WRLCK : Z := 1.
Definition F_UNLCK : Z := 2.
Definition LOCK_SH : Z := 1.
Definition LOCK_EX : Z := 2.
Definition LOCK_NB : Z := 4.
Definition LOCK_UN : Z := 8.

Record file_lock := FileLock {
  fl_id : Z;
  fl_owner : Z;
  fl_pid : Z;
  fl_file : Z;
  fl_flags : Z;
  fl_type : Z;
  fl_start : Z;
  fl_end : Z;
}.

#[export] Instance file_lock_eq_dec : EqDecision file_lock.
Proof. solve_decision. Defined.

(** [fl->fl_flags & mask] *)
Definition flag (fl : file_lock) (mask : Z) : bool := negb (Z.land (fl_flags fl) mask =? 0).

Definition locks_overlap (fl1 fl2 : file_lock) : bool :=
  (fl_start fl2 <=? fl_end fl1) && (fl_start fl1 <=? fl_end fl2).

Definition locks_same_owner (fl1 fl2 : file_lock) : bool :=
  (fl_owner fl1 =? fl_owner fl2) && (fl_pid fl1 =? fl_pid fl2).

Definition locks_conflict (caller_fl sys_fl : file_lock) : bool :=
  if negb (locks_overlap caller_fl sys_fl) then false
  else if fl_type caller_fl =? F_RDLCK then fl_type sys_fl =? F_WRLCK
  else if fl_type caller_fl =? F_WRLCK then true
  else false.

Definition posix_locks_conflict (caller_fl sys_fl : file_lock) : bool :=
  if negb (flag sys_fl FL_POSIX) || locks_same_owner caller_fl sys_fl then false
  else locks_conflict caller_fl sys_fl.

Definition flock_locks_conflict (caller_fl sys_fl : file_lock) : bool :=
  if negb (flag sys_fl FL_FLOCK) || (fl_file caller_fl =? fl_file sys_fl) then false
  else locks_conflict caller_fl sys_fl.

(** ** Building a lock from the arguments of a call *)

(** What the functions read of [struct file] and its inode. *)
Record lock_filp := LockFilp {
  f_id : Z;
  f_ino : Z;
  f_pos : Z;
  i_size : Z;
  f_mode : Z;
}.

Record flock := Flock { l_type : Z; l_whence : Z; l_start : Z; l_len : Z; l_pid : Z }.

(** The running process: [current->files] and [current->pid]. *)
Record task_id := TaskId { t_files : Z; t_pid : Z }.

Definition posix_make_lock (current : task_id) (filp : lock_filp) (id : Z) (l : flock)
  : option file_lock :=
  if negb ((l_type l =? F_RDLCK) || (l_type l =? F_WRLCK) || (l_type l =? F_UNLCK)) then None
  else
    start ← (if l_whence l =? 0 then Some 0
             else if l_whence l =? 1 then Some (s32 (f_pos filp))
             else if l_whence l =? 2 then Some (i_size filp)
             else None);
    let start := s32 (start + l_start l) in
    if (start <? 0) || (l_len l <? 0) then None
    else
      let end_ := s32 (start + l_len l - 1) in
      Some (FileLock id (t_files current) (t_pid current) (f_id filp) FL_POSIX (l_type l) start
              (if (l_len l =? 0) || (end_ <? 0) then OFFSET_MAX else end_)).

Definition flock_make_lock (filp : lock_filp) (id : Z) (cmd : Z) : option file_lock :=
  let c := Z.land cmd (Z.lnot LOCK_NB) in
  type ← (if c =? LOCK_SH then Some F_RDLCK
          else if c =? LOCK_EX then Some F_WRLCK
          else if c =? LOCK_UN then Some F_UNLCK
          else None);
  Some (FileLock id 0 0 (f_id filp) FL_FLOCK type 0 OFFSET_MAX).

(** ** The surgery on the list *)

(** A write to the lock object with the address of [fl]. *)
Definition sync (fl : file_lock) (l : list file_lock) : list file_lock :=
  (fun x => if fl_id x =? fl_id fl then fl else x) <$> l.

(** The same owner and process *)
Definition task_eq (x y : file_lock) : Prop := fl_owner x = fl_owner y /\ fl_pid x = fl_pid y.

Definition set_span (fl : file_lock) (s e : Z) : file_lock :=
  FileLock (fl_id fl) (fl_owner fl) (fl_pid fl) (fl_file fl) (fl_flags fl) (fl_type fl) s e.

Definition set_span_type (fl : file_lock) (s e t : Z) : file_lock :=
  FileLock (fl_id fl) (fl_owner fl) (fl_pid fl) (fl_file fl) (fl_flags fl) t s e.

(** [locks_init_lock(new, fl)] *)
Definition locks_init_lock (id : Z) (fl : file_lock) : file_lock :=
  FileLock id (fl_owner fl) (fl_pid fl) (fl_file fl) (fl_flags fl) (fl_type fl) (fl_start fl)
    (fl_end fl).

(** What the surgery does to the global table and to sleeping processes. *)
Inductive lock_action :=
| ActInsert (fl : file_lock)
| ActDelete (id : Z)
| ActWake (id : Z).

(** The variables of [posix_lock_file] in its loop: the locks before [before],
    [caller] (an object of the caller or an element of the list), [added],
    [left], [right] and the actions so far. *)
Record surgery := Surgery {
  s_pre : list file_lock;
  s_caller : file_lock;
  s_added : bool;
  s_left : option Z;
  s_right : option Z;
  s_acts : list lock_action;
}.

(** First skip locks owned by other processes. *)
Fixpoint skip_others (caller : file_lock) (l : list file_lock) : list file_lock * list file_lock :=
  match l with
  | [] => ([], [])
  | fl :: l' =>
    if negb (flag fl FL_POSIX) || negb (locks_same_owner caller fl)
    then let '(p, r) := skip_others caller l' in (fl :: p, r)
    else ([], l)
  end.

(** Process locks with this owner; gives the locks from [before] on. *)
Fixpoint process_owner (s : surgery) (l : list file_lock) : surgery * list file_lock :=
  match l with
  | [] => (s, [])
  | fl :: l' =>
    let c := s_caller s in
    let pre := s_pre s in
    let next s := process_owner s l' in
    if negb (locks_same_owner c fl) then (s, l)
    else if fl_type c =? fl_type fl then
      if fl_end fl <? s32 (fl_start c - 1) then
        next (Surgery (pre ++ [fl]) c (s_added s) (s_left s) (s_right s) (s_acts s))
      else if s32 (fl_end c + 1) <? fl_start fl then (s, l)
      else
        let start := Z.min (fl_start fl) (fl_start c) in
        let end_ := Z.max (fl_end fl) (fl_end c) in
        if s_added s then
          let c := set_span c start end_ in
          next (Surgery (sync c pre) c true (s_left s) (s_right s)
                  (s_acts s ++ [ActDelete (fl_id fl)]))
        else
          let fl := set_span fl start end_ in
          next (Surgery (pre ++ [fl]) fl true (s_left s) (s_right s) (s_acts s))
    else
      if fl_end fl <? fl_start c then
        next (Surgery (pre ++ [fl]) c (s_added s) (s_left s) (s_right s) (s_acts s))
      else if fl_end c <? fl_start fl then (s, l)
      else
        let added := s_added s || (fl_type c =? F_UNLCK) in
        let left := if fl_start fl <? fl_start c then Some (fl_id fl) else s_left s in
        if fl_end c <? fl_end fl then
          (Surgery pre c added left (Some (fl_id fl)) (s_acts s), l)
        else if fl_start c <=? fl_start fl then
          if added then
            next (Surgery pre c added left (s_right s) (s_acts s ++ [ActDelete (fl_id fl)]))
          else
            let fl := set_span_type fl (fl_start c) (fl_end c) (fl_type c) in
            next (Surgery (pre ++ [fl]) fl true left (s_right s) (s_acts s ++ [ActWake (fl_id fl)]))
        else next (Surgery (pre ++ [fl]) c added left (s_right s) (s_acts s))
  end.

(** Writes [fl_start] or [fl_end] of the lock at an address. *)
Definition put_start (id v : Z) (l : list file_lock) : list file_lock :=
  (fun x => if fl_id x =? id then set_span x v (fl_end x) else x) <$> l.

Definition put_end (id v : Z) (l : list file_lock) : list file_lock :=
  (fun x => if fl_id x =? id then set_span x (fl_start x) v else x) <$> l.

(** From [error = 0] to [out]; [new1] and [new2] are the addresses of the two
    locks allocated in advance. *)
Definition finish_surgery (new1 new2 : Z) (s : surgery) (rest : list file_lock)
  : list file_lock * list lock_action :=
  let c := s_caller s in
  if negb (s_added s) && (fl_type c =? F_UNLCK) then (s_pre s ++ rest, s_acts s)
  else
    let '(l, acts) :=
      if s_added s then (rest, s_acts s)
      else (locks_init_lock new1 c :: rest, s_acts s ++ [ActInsert (locks_init_lock new1 c)]) in
    let '(l, lft, acts) :=
      match s_right s with
      | Some r =>
        let '(l, lft, acts) :=
          if decide (s_left s = Some r) then
            match list_find (fun x => fl_id x = r) rest with
            | Some (_, rl) => (locks_init_lock new2 rl :: l, Some new2, acts ++ [ActInsert (locks_init_lock new2 rl)])
            | None => (l, s_left s, acts)
            end
          else (l, s_left s, acts) in
        (put_start r (s32 (fl_end c + 1)) l, lft, acts ++ [ActWake r])
      | None => (l, s_left s, acts)
      end in
    let l := s_pre s ++ l in
    match lft with
    | Some id => (put_end id (s32 (fl_start c - 1)) l, acts ++ [ActWake id])
    | None => (l, acts)
    end.

(** [posix_lock_file] once no lock conflicts. *)
Definition posix_apply (new1 new2 : Z) (caller : file_lock) (l : list file_lock)
  : list file_lock * list lock_action :=
  let '(pre, rest) := skip_others caller l in
  let '(s, rest) := process_owner (Surgery pre caller false None None []) rest in
  finish_surgery new1 new2 s rest.

(** The first lock of the list that conflicts with the request. *)
Definition posix_conflict (caller : file_lock) (l : list file_lock) : option file_lock :=
  snd <$> list_find (fun fl => flag fl FL_POSIX && posix_locks_conflict caller fl = true) l.

(** [posix_test_lock] passes the arguments of the check the other way round. *)
Definition posix_test_lock (l : list file_lock) (fl : file_lock) : option file_lock :=
  snd <$> list_find (fun cfl => flag cfl FL_POSIX && posix_locks_conflict cfl fl = true) l.

(** ** Specification: the locks of a file as a map from bytes *)

Definition span_ok (fl : file_lock) : Prop := 0 <= fl_start fl <= fl_end fl /\ fl_end fl <= OFFSET_MAX.

Definition held_type (t : Z) : Prop := t = F_RDLCK \/ t = F_WRLCK.

(** Some lock of the list covers byte [a] with type [t]. *)
Definition covers (l : list file_lock) (a t : Z) : Prop :=
  exists x, x ∈ l /\ fl_start x <= a <= fl_end x /\ fl_type x = t.

(** The owner of [o] has byte [a] locked with type [t]. *)
Definition holds (l : list file_lock) (o : file_lock) (a t : Z) : Prop :=
  exists x, x ∈ l /\ flag x FL_POSIX = true /\ locks_same_owner o x = true
    /\ fl_start x <= a <= fl_end x /\ fl_type x = t.

Definition before_lock (x y : file_lock) : Prop := fl_end x < fl_start y.

(** ** Lemmas on lists of locks *)

Lemma covers_nil a t : covers [] a t <-> False.
Proof. split; [|done]. intros (x & Hx & _). by apply elem_of_nil in Hx. Qed.

Lemma covers_cons x l a t :
  covers (x :: l) a t <-> (fl_start x <= a <= fl_end x /\ fl_type x = t) \/ covers l a t.
Proof.
  unfold covers. split.
  - intros (y & [->|Hy]%elem_of_cons & H); [by left|right; eauto].
  - intros [H|(y & Hy & H)]; [exists x|exists y]; rewrite elem_of_cons; auto.
Qed.

Lemma covers_app l1 l2 a t : covers (l1 ++ l2) a t <-> covers l1 a t \/ covers l2 a t.
Proof.
  induction l1 as [|x l1 IH]; simpl; [rewrite covers_nil; tauto|]. rewrite !covers_cons, IH. tauto.
Qed.

Lemma covers_above l a t b : Forall (fun x => b < fl_start x) l -> covers l a t -> b < a.
Proof. intros Hl (x & Hx & ? & _). eapply Forall_forall in Hl; [|exact Hx]. simpl in Hl. lia. Qed.

Lemma covers_below l a t b : Forall (fun x => fl_end x < b) l -> covers l a t -> a < b.
Proof. intros Hl (x & Hx & ? & _). eapply Forall_forall in Hl; [|exact Hx]. simpl in Hl. lia. Qed.

Abbreviation ids l := (fl_id <$> l).

Lemma sync_fresh c l : fl_id c ∉ ids l -> sync c l = l.
Proof.
  induction l as [|x l IH]; simpl; [done|]. rewrite not_elem_of_cons. intros [Hx Hl].
  unfold sync in *. simpl. rewrite IH by done. destruct (Z.eqb_spec (fl_id x) (fl_id c)); [lia|done].
Qed.

Lemma sync_last c c' p : fl_id c' = fl_id c -> fl_id c ∉ ids p -> sync c' (p ++ [c]) = p ++ [c'].
Proof.
  intros E Hp. unfold sync. rewrite fmap_app. f_equal; [apply sync_fresh; by rewrite E|].
  simpl. by rewrite E, Z.eqb_refl.
Qed.

Lemma put_start_fresh id v l : id ∉ ids l -> put_start id v l = l.
Proof.
  induction l as [|x l IH]; simpl; [done|]. rewrite not_elem_of_cons. intros [Hx Hl].
  unfold put_start in *. simpl. rewrite IH by done. destruct (Z.eqb_spec (fl_id x) id); [lia|done].
Qed.

Lemma put_end_fresh id v l : id ∉ ids l -> put_end id v l = l.
Proof.
  induction l as [|x l IH]; simpl; [done|]. rewrite not_elem_of_cons. intros [Hx Hl].
  unfold put_end in *. simpl. rewrite IH by done. destruct (Z.eqb_spec (fl_id x) id); [lia|done].
Qed.

Lemma put_end_app id v l1 l2 : put_end id v (l1 ++ l2) = put_end id v l1 ++ put_end id v l2.
Proof. apply fmap_app. Qed.

Lemma put_start_skip id v x l : fl_id x <> id -> put_start id v (x :: l) = x :: put_start id v l.
Proof. intros H. unfold put_start. simpl. by rewrite (proj2 (Z.eqb_neq _ _) H). Qed.

Lemma put_end_skip id v x l : fl_id x <> id -> put_end id v (x :: l) = x :: put_end id v l.
Proof. intros H. unfold put_end. simpl. by rewrite (proj2 (Z.eqb_neq _ _) H). Qed.

Lemma put_end_head x v l :
  fl_id x ∉ ids l -> put_end (fl_id x) v (x :: l) = set_span x (fl_start x) v :: l.
Proof.
  intros H. unfold put_end. simpl. rewrite Z.eqb_refl. f_equal. by apply put_end_fresh.
Qed.

Lemma put_start_head x v l :
  fl_id x ∉ ids l -> put_start (fl_id x) v (x :: l) = set_span x v (fl_end x) :: l.
Proof.
  intros H. unfold put_start. simpl. rewrite Z.eqb_refl. f_equal. by apply put_start_fresh.
Qed.

(** ** The surgery on the locks of one owner *)

Section Surgery.
Context (C : file_lock) (new1 new2 : Z) (tail : list file_lock).
Hypothesis HC : span_ok C.
Hypothesis HCf : fl_flags C = FL_POSIX.
Hypothesis Htail : match tail with [] => True | y :: _ => locks_same_owner C y = false end.

Definition own (x : file_lock) : Prop :=
  locks_same_owner C x = true /\ fl_flags x = FL_POSIX /\ span_ok x /\ held_type (fl_type x).

Definition group_ok (M : list file_lock) : Prop :=
  Forall own M /\ StronglySorted before_lock M /\ NoDup (ids M).

(** The rest of [posix_lock_file] from a state of its loop. *)
Definition run (s : surgery) (l : list file_lock) : list file_lock * list lock_action :=
  let '(s', rest) := process_owner s l in finish_surgery new1 new2 s' rest.

Definition fix_left (L : option Z) (start : Z) (l : list file_lock) : list file_lock :=
  match L with Some id => put_end id (start - 1) l | None => l end.

Lemma held_not_unlck t : held_type t -> t <> F_UNLCK.
Proof. by intros [-> | ->]. Qed.

Lemma own_same c x : own c -> locks_same_owner c x = locks_same_owner C x.
Proof.
  intros ([H1 H2]%andb_true_iff & _). unfold locks_same_owner in *.
  apply Z.eqb_eq in H1, H2. by rewrite H1, H2.
Qed.

Lemma own_span c s e : own c -> 0 <= s <= e -> e <= OFFSET_MAX -> own (set_span c s e).
Proof. intros (? & ? & _ & ?) ??. split_and!; done. Qed.

Lemma group_cons x M :
  group_ok (x :: M) <->
  own x /\ group_ok M /\ Forall (before_lock x) M /\ fl_id x ∉ ids M.
Proof. unfold group_ok. rewrite Forall_cons, StronglySorted_cons. simpl. rewrite NoDup_cons. tauto. Qed.

Lemma group_single x : own x -> group_ok [x].
Proof.
  intros Hx. split; [by apply Forall_singleton|]. split; [by repeat constructor|]. apply NoDup_singleton.
Qed.

Lemma run_tail s : fl_owner (s_caller s) = fl_owner C -> fl_pid (s_caller s) = fl_pid C ->
  run s tail = finish_surgery new1 new2 s tail.
Proof.
  intros H1 H2. unfold run. destruct tail as [|y t]; [done|]. simpl.
  assert (locks_same_owner (s_caller s) y = false) as ->; [|done].
  unfold locks_same_owner in *. by rewrite H1, H2.
Qed.

Lemma own_ids c : own c -> fl_owner c = fl_owner C /\ fl_pid c = fl_pid C.
Proof.
  intros ([H1 H2]%andb_true_iff & _). apply Z.eqb_eq in H1, H2. done.
Qed.

Lemma s32_pred x : span_ok x -> s32 (fl_start x - 1) = fl_start x - 1.
Proof. intros [? ?]. unfold OFFSET_MAX in *. apply s32_id. lia. Qed.

(** The list and the addresses after the loop stopped at [rest]. *)
Lemma finish_alias c p L acts rest :
  own c ->
  exists acts', finish_surgery new1 new2 (Surgery (p ++ [c]) c true L None acts) rest
    = (fix_left L (fl_start c) (p ++ c :: rest), acts').
Proof.
  intros (_ & _ & Hc & _). unfold finish_surgery. simpl. rewrite <-app_assoc, s32_pred by done.
  destruct L; simpl; eauto.
Qed.

Lemma finish_alias_right c p L acts x rest :
  own c -> fl_end c < OFFSET_MAX -> L <> Some (fl_id x) -> fl_id x ∉ ids rest ->
  exists acts', finish_surgery new1 new2 (Surgery (p ++ [c]) c true L (Some (fl_id x)) acts) (x :: rest)
    = (fix_left L (fl_start c) (p ++ c :: set_span x (fl_end c + 1) (fl_end x) :: rest), acts').
Proof.
  intros (_ & _ & Hc & _) Hm HL Hx. unfold finish_surgery. cbn [s_added s_caller s_right s_left s_pre s_acts negb andb].
  rewrite decide_False by done. rewrite put_start_head by done. rewrite <-app_assoc, s32_pred by done.
  assert (s32 (fl_end c + 1) = fl_end c + 1) as ->.
  { destruct Hc. unfold OFFSET_MAX in *. apply s32_id. lia. }
  destruct L; simpl; eauto.
Qed.

(** [M] is the locks [grp] with the bytes from [s] to [e] given the type [t0]. *)
Definition overlaid (M grp : list file_lock) (s e : Z) (on : bool) : Prop :=
  forall a t, covers M a t <->
    (s <= a <= e /\ on = true /\ t = fl_type C) \/ (~ s <= a <= e /\ covers grp a t).

Lemma group_set_start x v M :
  group_ok (x :: M) -> fl_start x <= v <= fl_end x -> group_ok (set_span x v (fl_end x) :: M).
Proof.
  intros (Hx & Hr)%group_cons Hv. apply group_cons. split; [|done].
  pose proof Hx as (_ & _ & [Hs Hm] & _). apply own_span; [done|lia|done].
Qed.

Lemma overlaid_stop c grp :
  fl_type c = fl_type C -> Forall (fun x => fl_end c < fl_start x) grp ->
  overlaid (c :: grp) grp (fl_start c) (fl_end c) true.
Proof.
  intros Hc Hg a t. rewrite covers_cons, Hc. pose proof (covers_above grp a t _ Hg) as Ha.
  split; [|naive_solver]. intros [[? <-]|Hcov]; [by left|right]. specialize (Ha Hcov). split; [lia|done].
Qed.

(** A lock of the same type that reaches [e] or the byte behind it extends the
    range. *)
Lemma overlaid_merge M x grp s e :
  fl_type x = fl_type C -> s <= fl_start x <= e + 1 -> Forall (before_lock x) grp ->
  overlaid M grp s (Z.max (fl_end x) e) true -> overlaid M (x :: grp) s e true.
Proof.
  intros Ht Hx Hg HM a t. rewrite (HM a t), covers_cons, Ht.
  pose proof (covers_above grp a t _ Hg) as Ha. split.
  - intros [(? & _ & ->)|[? Hc]]; [|specialize (Ha Hc); right; split; [lia|by right]].
    destruct (decide (a <= e)); [left; split_and!; (done || lia)|right; split; [lia|left; split; [lia|done]]].
  - intros [(? & _ & ->)|[? [[? <-]|Hc]]]; [left; split_and!; (done || lia)| |].
    + left. split_and!; (done || lia).
    + specialize (Ha Hc). right. split; [lia|done].
Qed.

(** A lock inside the range goes. *)
Lemma overlaid_drop M x grp s e on :
  s <= fl_start x -> fl_end x <= e -> overlaid M grp s e on -> overlaid M (x :: grp) s e on.
Proof.
  intros Hs He HM a t. rewrite (HM a t), covers_cons. split; [tauto|].
  intros [?|[? [[? _]|?]]]; [by left|lia|by right].
Qed.

(** A lock of another type that reaches over the end of the range is cut. *)
Lemma overlaid_right M x grp s e on :
  s <= fl_start x <= e + 1 -> e < fl_end x -> Forall (before_lock x) grp ->
  (forall a t, covers M a t <-> s <= a <= e /\ on = true /\ t = fl_type C) ->
  overlaid (M ++ set_span x (e + 1) (fl_end x) :: grp) (x :: grp) s e on.
Proof.
  intros Hs He Hg HM a t. rewrite covers_app, HM, !covers_cons. simpl.
  pose proof (covers_above grp a t _ Hg) as Ha. split.
  - intros [?|[[? <-]|Hc]]; [by left|right; split; [lia|left; split; [lia|done]]|].
    specialize (Ha Hc). right. split; [lia|by right].
  - intros [?|[? [[? <-]|Hc]]]; [by left|right; left; split; [lia|done]|right; by right].
Qed.

Lemma covers_single x a t : covers [x] a t <-> fl_start x <= a <= fl_end x /\ fl_type x = t.
Proof. rewrite covers_cons, covers_nil. tauto. Qed.

Lemma ids_fresh p c grp :
  NoDup (ids (p ++ c :: grp ++ tail)) ->
  (fl_id c ∉ ids p) /\ (fl_id c ∉ ids grp) /\ (fl_id c ∉ ids tail) /\ (fl_id c ∉ ids (grp ++ tail)).
Proof.
  rewrite fmap_app, NoDup_app. simpl. rewrite NoDup_cons. intros (_ & Hp & Hc & _).
  rewrite fmap_app, elem_of_app in *. split_and!; try tauto. intros Hin. apply (Hp _ Hin). by left.
Qed.

Lemma ids_drop p c x grp :
  NoDup (ids (p ++ c :: (x :: grp) ++ tail)) -> NoDup (ids (p ++ c :: grp ++ tail)).
Proof.
  assert (p ++ c :: (x :: grp) ++ tail ≡ₚ x :: (p ++ c :: grp ++ tail)) as ->.
  { change (p ++ c :: (x :: grp) ++ tail) with (p ++ [c] ++ x :: (grp ++ tail)).
    rewrite app_assoc, <-Permutation_middle, <-app_assoc. done. }
  simpl. by intros [_ ?]%NoDup_cons.
Qed.

(** The request has been put in the list: [caller] is its element [c], the last
    one before [before]. *)
Lemma run_alias grp : forall c p L acts,
  own c -> fl_type c = fl_type C -> fl_end C <= fl_end c ->
  (fl_end c = fl_end C \/ Forall (fun x => fl_end c < fl_start x) grp) ->
  group_ok grp -> Forall (fun x => fl_start c < fl_start x) grp ->
  NoDup (ids (p ++ c :: grp ++ tail)) ->
  (fl_end C < OFFSET_MAX \/ Forall (fun x => fl_type x <> fl_type C) grp) ->
  (forall i, L = Some i -> i ∈ ids p) ->
  exists M acts',
    run (Surgery (p ++ [c]) c true L None acts) (grp ++ tail)
      = (fix_left L (fl_start c) (p ++ M ++ tail), acts')
    /\ group_ok M /\ (forall i, i ∈ ids M -> i ∈ ids (c :: grp))
    /\ Forall (fun x => fl_start c <= fl_start x) M
    /\ overlaid M grp (fl_start c) (fl_end c) true.
Proof.
  induction grp as [|x grp IH]; intros c p L acts Hc Hct HE Hend Hg Hst Hnd Hmax HL.
  - destruct (own_ids c Hc). rewrite run_tail by done.
    destruct (finish_alias c p L acts tail Hc) as [acts' ->]. exists [c], acts'. split_and!; try done.
    + by apply group_single.
    + by repeat constructor.
    + intros a t. rewrite covers_cons, !covers_nil, Hct. intuition congruence.
  - pose proof Hg as (Hx & Hg' & Hxg & Hxi)%group_cons. apply Forall_cons in Hst as [Hsx Hst].
    pose proof Hc as (_ & _ & [Hc0 Hc1] & _). pose proof Hx as (Hxo & _ & [Hx0 Hx1] & _).
    pose proof (ids_fresh _ _ _ Hnd) as (Hcp & Hcg & _ & _). pose proof (ids_drop _ _ _ _ Hnd) as Hnd'.
    assert (fl_id x ∉ ids (grp ++ tail)) as Hxt.
    { rewrite fmap_app, NoDup_app in Hnd. destruct Hnd as (_ & _ & Hnd). simpl in Hnd.
      by apply NoDup_cons in Hnd as [_ [? _]%NoDup_cons]. }
    unfold run. simpl. rewrite own_same, Hxo by done. simpl.
    assert (Forall (fun x => fl_end c < fl_start x) (x :: grp) ->
      exists M acts', finish_surgery new1 new2 (Surgery (p ++ [c]) c true L None acts) (x :: grp ++ tail)
        = (fix_left L (fl_start c) (p ++ M ++ tail), acts')
      /\ group_ok M /\ (forall i, i ∈ ids M -> i ∈ ids (c :: x :: grp))
      /\ Forall (fun x => fl_start c <= fl_start x) M
      /\ overlaid M (x :: grp) (fl_start c) (fl_end c) true) as Hstop.
    { intros Hall. destruct (finish_alias c p L acts (x :: grp ++ tail) Hc) as [acts' E].
      exists (c :: x :: grp), acts'. split; [exact E|]. split; [by apply group_cons|]. split; [done|].
      split; [|by apply overlaid_stop]. constructor; [done|]. eapply Forall_impl; [exact Hall|].
      simpl. lia. }
    destruct (Z.eqb_spec (fl_type c) (fl_type x)) as [Et|Et].
    + rewrite s32_pred by (by split). destruct (Z.ltb_spec (fl_end x) (fl_start c - 1)); [lia|].
      destruct Hmax as [Hmax|[Hmax _]%Forall_cons]; [|by destruct Hmax; congruence].
      destruct (Z.ltb_spec (s32 (fl_end c + 1)) (fl_start x)) as [Hbr|Hbr].
      * apply Hstop. destruct Hend as [Hend|Hend]; [|done].
        rewrite s32_id in Hbr by (unfold OFFSET_MAX in *; lia).
        constructor; [lia|]. eapply Forall_impl; [exact Hxg|]. unfold before_lock. intros y. lia.
      * rewrite sync_last by done.
        rewrite (Z.min_r (fl_start x) (fl_start c)) by lia.
        set (c1 := set_span c (fl_start c) (Z.max (fl_end x) (fl_end c))).
        assert (fl_start x <= fl_end c + 1) as Hadj.
        { destruct (decide (fl_end c = OFFSET_MAX)); [lia|].
          rewrite s32_id in Hbr by (unfold OFFSET_MAX in *; lia). lia. }
        edestruct (IH c1 p L) as (M & acts' & E & HM & Hid & Hs' & Hov); try done.
        -- apply own_span; [done|lia..].
        -- simpl. lia.
        -- simpl. destruct (decide (fl_end x <= fl_end c)).
           ++ rewrite Z.max_r by lia. destruct Hend as [?|[_ ?]%Forall_cons]; auto.
           ++ rewrite Z.max_l by lia. right. eapply Forall_impl; [exact Hxg|]. done.
        -- rewrite fmap_app in *. exact Hnd'.
        -- by left.
        -- exists M, acts'. split; [exact E|]. split; [done|]. split.
           { intros i Hi. apply Hid in Hi. simpl in Hi. rewrite !elem_of_cons in *. tauto. }
           split; [done|]. apply overlaid_merge; [congruence|lia|done|done].
    + destruct (Z.ltb_spec (fl_end x) (fl_start c)); [lia|].
      destruct (Z.ltb_spec (fl_end c) (fl_start x)) as [Hbr|Hbr].
      { apply Hstop. constructor; [lia|]. eapply Forall_impl; [exact Hxg|]. unfold before_lock. intros y. lia. }
      assert (fl_end c = fl_end C) as HeC by (destruct Hend as [|[? _]%Forall_cons]; [done|lia]).
      destruct (Z.ltb_spec (fl_start x) (fl_start c)); [lia|].
      destruct (Z.ltb_spec (fl_end c) (fl_end x)).
      * destruct (finish_alias_right c p L acts x (grp ++ tail)) as [acts' E]; [done|lia| |done|].
        { intros HLx. apply HL in HLx. rewrite fmap_app, NoDup_app in Hnd. destruct Hnd as (_ & Hd & _).
          apply (Hd _ HLx). simpl. rewrite !elem_of_cons. auto. }
        exists (c :: set_span x (fl_end c + 1) (fl_end x) :: grp), acts'. split; [exact E|]. split.
        { apply group_cons. split; [done|]. split; [apply group_set_start; [done|lia]|]. split; [|done].
          constructor; [unfold before_lock; simpl; lia|]. eapply Forall_impl; [exact Hxg|].
          unfold before_lock. intros y. lia. }
        split; [done|]. split.
        { constructor; [done|]. constructor; [simpl; lia|]. eapply Forall_impl; [exact Hst|]. simpl. lia. }
        apply (overlaid_right [c]); [lia..|done|]. intros a t. rewrite covers_single, Hct. intuition congruence.
      * destruct (Z.leb_spec (fl_start c) (fl_start x)); [|lia].
        edestruct (IH c p L) as (M & acts' & E & HM & Hid & Hs' & Hov); try done.
        -- destruct Hend as [?|[_ ?]%Forall_cons]; auto.
        -- destruct Hmax as [?|[_ ?]%Forall_cons]; auto.
        -- exists M, acts'. split; [exact E|]. split; [done|]. split.
           { intros i Hi. apply Hid in Hi. simpl in Hi. rewrite !elem_of_cons in *. tauto. }
           split; [done|]. apply overlaid_drop; [lia..|done].
Qed.

(** The lock to insert. *)
Lemma own_new id : held_type (fl_type C) -> own (locks_init_lock id C).
Proof.
  intros Ht. split_and!; try done; [|apply HC..]. unfold locks_same_owner. simpl. by rewrite !Z.eqb_refl.
Qed.

Lemma finish_insert p L acts rest :
  held_type (fl_type C) ->
  exists acts', finish_surgery new1 new2 (Surgery p C false L None acts) rest
    = (fix_left L (fl_start C) (p ++ locks_init_lock new1 C :: rest), acts').
Proof.
  intros Ht. unfold finish_surgery. cbn [s_added s_caller s_right s_left s_pre s_acts negb andb].
  destruct (Z.eqb_spec (fl_type C) F_UNLCK) as [E|_]; [by apply held_not_unlck in Ht|].
  rewrite s32_pred by done. destruct L; simpl; eauto.
Qed.

Lemma finish_insert_right p L acts x rest :
  held_type (fl_type C) -> fl_end C < OFFSET_MAX -> L <> Some (fl_id x) ->
  fl_id x ∉ ids rest -> new1 <> fl_id x ->
  exists acts', finish_surgery new1 new2 (Surgery p C false L (Some (fl_id x)) acts) (x :: rest)
    = (fix_left L (fl_start C)
         (p ++ locks_init_lock new1 C :: set_span x (fl_end C + 1) (fl_end x) :: rest), acts').
Proof.
  intros Ht Hm HL Hx Hn. unfold finish_surgery. cbn [s_added s_caller s_right s_left s_pre s_acts negb andb].
  destruct (Z.eqb_spec (fl_type C) F_UNLCK) as [E|_]; [by apply held_not_unlck in Ht|].
  rewrite decide_False by done. rewrite s32_pred by done.
  assert (s32 (fl_end C + 1) = fl_end C + 1) as ->.
  { destruct HC. unfold OFFSET_MAX in *. apply s32_id. lia. }
  rewrite put_start_skip, put_start_head by done.
  destruct L; simpl; eauto.
Qed.

Lemma new_before_stop grp :
  held_type (fl_type C) -> group_ok grp -> new1 ∉ ids grp -> Forall (fun x => fl_end C < fl_start x) grp ->
  group_ok (locks_init_lock new1 C :: grp)
  /\ overlaid (locks_init_lock new1 C :: grp) grp (fl_start C) (fl_end C) true.
Proof.
  intros Ht Hg Hn Hs. split; [apply group_cons; split_and!; try done; [by apply own_new|apply Hg..]|].
  by apply (overlaid_stop (locks_init_lock new1 C)).
Qed.

Lemma NoDup_ids_head p x rest : NoDup (ids (p ++ x :: rest)) -> fl_id x ∉ ids rest.
Proof. rewrite fmap_app, NoDup_app. simpl. rewrite NoDup_cons. tauto. Qed.

(** The request is not in the list yet and the remaining locks of the owner
    start at or behind its start. *)
Lemma run_middle grp p L acts :
  held_type (fl_type C) -> group_ok grp -> Forall (fun x => fl_start C <= fl_start x) grp ->
  NoDup (ids (p ++ grp ++ tail)) -> new1 ∉ ids (p ++ grp ++ tail) ->
  (fl_end C < OFFSET_MAX \/ Forall (fun x => fl_type x <> fl_type C) grp) ->
  (forall i, L = Some i -> i ∈ ids p) ->
  exists M acts',
    run (Surgery p C false L None acts) (grp ++ tail)
      = (fix_left L (fl_start C) (p ++ M ++ tail), acts')
    /\ group_ok M /\ (forall i, i ∈ ids M -> i = new1 \/ i ∈ ids grp)
    /\ overlaid M grp (fl_start C) (fl_end C) true.
Proof.
  intros Ht Hg Hst Hnd Hn Hmax HL.
  assert (new1 ∉ ids grp) as Hng.
  { rewrite !fmap_app, !elem_of_app in Hn. tauto. }
  assert (Forall (fun x => fl_end C < fl_start x) grp ->
    exists M acts', finish_surgery new1 new2 (Surgery p C false L None acts) (grp ++ tail)
      = (fix_left L (fl_start C) (p ++ M ++ tail), acts')
    /\ group_ok M /\ (forall i, i ∈ ids M -> i = new1 \/ i ∈ ids grp)
    /\ overlaid M grp (fl_start C) (fl_end C) true) as Hstop.
  { intros Hall. destruct (finish_insert p L acts (grp ++ tail) Ht) as [acts' E].
    exists (locks_init_lock new1 C :: grp), acts'. split; [exact E|].
    destruct (new_before_stop grp) as [? ?]; try done. split; [done|]. split; [|done].
    intros i Hi. simpl in Hi. by apply elem_of_cons in Hi. }
  destruct grp as [|x grp]; [rewrite run_tail by done; by apply Hstop|].
  pose proof Hg as (Hx & Hg' & Hxg & Hxi)%group_cons. apply Forall_cons in Hst as [Hsx Hst].
  pose proof Hx as (Hxo & Hxf & [Hx0 Hx1] & Hxt). unfold run. simpl. rewrite Hxo. simpl.
  assert (forall c, fl_id c = fl_id x -> NoDup (ids (p ++ c :: grp ++ tail))) as Hnd'.
  { intros c Hc. rewrite fmap_app in *. simpl in *. by rewrite Hc. }
  destruct (Z.eqb_spec (fl_type C) (fl_type x)) as [Et|Et].
  - rewrite s32_pred by done. destruct (Z.ltb_spec (fl_end x) (fl_start C - 1)); [lia|].
    destruct Hmax as [Hmax|[Hmax _]%Forall_cons]; [|by destruct Hmax].
    rewrite (s32_id (fl_end C + 1)) by (destruct HC; unfold OFFSET_MAX in *; lia).
    destruct (Z.ltb_spec (fl_end C + 1) (fl_start x)) as [Hbr|Hbr].
    + apply Hstop. constructor; [lia|]. eapply Forall_impl; [exact Hxg|]. unfold before_lock. intros y. lia.
    + rewrite Z.min_r by lia. set (c := set_span x (fl_start C) (Z.max (fl_end x) (fl_end C))).
      destruct (run_alias grp c p L acts) as (M & acts' & E & HM & Hid & _ & Hov); try done.
      * apply own_span; [done|destruct HC; lia|destruct HC; lia].
      * simpl. lia.
      * simpl. destruct (decide (fl_end x <= fl_end C)).
        -- left. lia.
        -- right. rewrite Z.max_l by lia. done.
      * eapply Forall_impl; [exact Hxg|]. unfold before_lock. simpl. intros y. lia.
      * by apply Hnd'.
      * by left.
      * exists M, acts'. split; [exact E|]. split; [done|]. split; [intros i Hi; right; by apply Hid|].
        apply overlaid_merge; [done|lia|done|done].
  - destruct (Z.ltb_spec (fl_end x) (fl_start C)); [lia|].
    destruct (Z.ltb_spec (fl_end C) (fl_start x)) as [Hbr|Hbr].
    { apply Hstop. constructor; [lia|]. eapply Forall_impl; [exact Hxg|]. unfold before_lock. intros y. lia. }
    destruct (Z.ltb_spec (fl_start x) (fl_start C)); [lia|].
    destruct (Z.eqb_spec (fl_type C) F_UNLCK); [by apply held_not_unlck in Ht|].
    destruct (Z.ltb_spec (fl_end C) (fl_end x)) as [Hr|Hr].
    + destruct (finish_insert_right p L acts x (grp ++ tail)) as [acts' E]; try done; [lia| | | |].
      * intros HLx. apply HL in HLx. rewrite fmap_app, NoDup_app in Hnd. destruct Hnd as (_ & Hd & _).
        apply (Hd _ HLx). simpl. by left.
      * by apply NoDup_ids_head in Hnd.
      * intros ->. apply Hng. by left.
      * exists (locks_init_lock new1 C :: set_span x (fl_end C + 1) (fl_end x) :: grp), acts'.
        split; [exact E|]. split.
        { apply group_cons. split; [by apply own_new|]. split; [apply group_set_start; [done|lia]|].
          split; [|done]. constructor; [unfold before_lock; simpl; lia|]. eapply Forall_impl; [exact Hxg|].
          unfold before_lock. simpl. intros y. lia. }
        split; [intros i Hi; simpl in Hi; by apply elem_of_cons in Hi|].
        apply (overlaid_right [locks_init_lock new1 C]); [lia..|done|]. intros a t.
        rewrite covers_single. simpl. intuition congruence.
    + destruct (Z.leb_spec (fl_start C) (fl_start x)); [|lia]. simpl.
      set (c := set_span_type x (fl_start C) (fl_end C) (fl_type C)).
      destruct (run_alias grp c p L (acts ++ [ActWake (fl_id x)])) as (M & acts' & E & HM & Hid & _ & Hov);
        try done; simpl; try lia.
      * eapply Forall_impl; [exact Hxg|]. unfold before_lock. simpl. intros y. lia.
      * by apply Hnd'.
      * destruct Hmax as [?|[_ ?]%Forall_cons]; auto.
      * exists M, acts'. split; [exact E|]. split; [done|]. split; [intros i Hi; right; by apply Hid|].
        apply overlaid_drop; [lia..|done].
Qed.

Lemma finish_unlock p L b acts rest :
  fl_type C = F_UNLCK -> L = None \/ b = true ->
  exists acts', finish_surgery new1 new2 (Surgery p C b L None acts) rest
    = (fix_left L (fl_start C) (p ++ rest), acts').
Proof.
  intros Ht HL. unfold finish_surgery. cbn [s_added s_caller s_right s_left s_pre s_acts negb andb].
  rewrite Ht, Z.eqb_refl, andb_true_r, s32_pred by done.
  destruct b; simpl; [destruct L; eauto|]. destruct HL as [->|]; [|done]. simpl. eauto.
Qed.

Lemma finish_unlock_right p L acts x rest :
  fl_end C < OFFSET_MAX -> L <> Some (fl_id x) -> fl_id x ∉ ids rest ->
  exists acts', finish_surgery new1 new2 (Surgery p C true L (Some (fl_id x)) acts) (x :: rest)
    = (fix_left L (fl_start C) (p ++ set_span x (fl_end C + 1) (fl_end x) :: rest), acts').
Proof.
  intros Hm HL Hx. unfold finish_surgery. cbn [s_added s_caller s_right s_left s_pre s_acts negb andb].
  rewrite decide_False by done. rewrite s32_pred by done.
  assert (s32 (fl_end C + 1) = fl_end C + 1) as ->.
  { destruct HC. unfold OFFSET_MAX in *. apply s32_id. lia. }
  rewrite put_start_head by done. destruct L; simpl; eauto.
Qed.

Lemma overlaid_self grp s e : Forall (fun x => e < fl_start x) grp -> overlaid grp grp s e false.
Proof.
  intros Hg a t. pose proof (covers_above grp a t _ Hg) as Ha. split; [|naive_solver].
  intros Hc. specialize (Ha Hc). right. split; [lia|done].
Qed.

Lemma run_middle_unlock grp : forall p L b acts,
  fl_type C = F_UNLCK -> L = None \/ b = true ->
  group_ok grp -> Forall (fun x => fl_start C <= fl_start x) grp ->
  NoDup (ids (p ++ grp ++ tail)) -> (forall i, L = Some i -> i ∈ ids p) ->
  exists M acts',
    run (Surgery p C b L None acts) (grp ++ tail)
      = (fix_left L (fl_start C) (p ++ M ++ tail), acts')
    /\ group_ok M /\ (forall i, i ∈ ids M -> i ∈ ids grp)
    /\ overlaid M grp (fl_start C) (fl_end C) false.
Proof.
  induction grp as [|x grp IH]; intros p L b acts Ht HLb Hg Hst Hnd HL.
  { rewrite run_tail by done. destruct (finish_unlock p L b acts tail Ht HLb) as [acts' ->].
    exists [], acts'. split; [done|]. split; [done|]. split; [done|]. by apply overlaid_self. }
  pose proof Hg as (Hx & Hg' & Hxg & Hxi)%group_cons. apply Forall_cons in Hst as [Hsx Hst].
  pose proof Hx as (Hxo & Hxf & [Hx0 Hx1] & Hxt). unfold run. simpl. rewrite Hxo. simpl.
  destruct (Z.eqb_spec (fl_type C) (fl_type x)) as [Et|Et].
  { apply held_not_unlck in Hxt. congruence. }
  destruct (Z.ltb_spec (fl_end x) (fl_start C)); [lia|].
  destruct (Z.ltb_spec (fl_end C) (fl_start x)) as [Hbr|Hbr].
  { destruct (finish_unlock p L b acts (x :: grp ++ tail) Ht HLb) as [acts' E].
    exists (x :: grp), acts'. split; [exact E|]. split; [done|]. split; [done|]. apply overlaid_self.
    constructor; [done|]. eapply Forall_impl; [exact Hxg|]. unfold before_lock. intros y. lia. }
  destruct (Z.ltb_spec (fl_start x) (fl_start C)); [lia|]. rewrite Ht, Z.eqb_refl, orb_true_r.
  destruct (Z.ltb_spec (fl_end C) (fl_end x)) as [Hr|Hr].
  - destruct (finish_unlock_right p L acts x (grp ++ tail)) as [acts' E]; [lia| | |].
    + intros HLx. apply HL in HLx. rewrite fmap_app, NoDup_app in Hnd. destruct Hnd as (_ & Hd & _).
      apply (Hd _ HLx). simpl. by left.
    + by apply NoDup_ids_head in Hnd.
    + exists (set_span x (fl_end C + 1) (fl_end x) :: grp), acts'. split; [exact E|].
      split; [apply group_set_start; [done|lia]|]. split; [done|].
      apply (overlaid_right []); [lia..|done|]. intros a t. rewrite covers_nil. naive_solver.
  - destruct (Z.leb_spec (fl_start C) (fl_start x)); [|lia].
    destruct (IH p L true (acts ++ [ActDelete (fl_id x)])) as (M & acts' & E & HM & Hid & Hov);
      try done; [by right| |].
    + rewrite fmap_app in *. simpl in Hnd. rewrite <-Permutation_middle in Hnd. by apply NoDup_cons in Hnd as [_ ?].
    + exists M, acts'. split; [exact E|]. split; [done|].
      split; [intros i Hi; simpl; right; by apply Hid|]. apply overlaid_drop; [lia..|done].
Qed.

(** Both kinds of request together: does the request leave a lock? *)
Definition keeps : bool := negb (fl_type C =? F_UNLCK).

Hypothesis HCt : held_type (fl_type C) \/ fl_type C = F_UNLCK.

Lemma run_middle_any grp p L acts :
  group_ok grp -> Forall (fun x => fl_start C <= fl_start x) grp ->
  NoDup (ids (p ++ grp ++ tail)) -> new1 ∉ ids (p ++ grp ++ tail) ->
  (fl_end C < OFFSET_MAX \/ Forall (fun x => fl_type x <> fl_type C) grp) ->
  (forall i, L = Some i -> i ∈ ids p) ->
  exists M acts',
    run (Surgery p C (bool_decide (is_Some L) && (fl_type C =? F_UNLCK)) L None acts) (grp ++ tail)
      = (fix_left L (fl_start C) (p ++ M ++ tail), acts')
    /\ group_ok M /\ (forall i, i ∈ ids M -> i = new1 \/ i ∈ ids grp)
    /\ overlaid M grp (fl_start C) (fl_end C) keeps.
Proof.
  intros Hg Hst Hnd Hn Hmax HL. unfold keeps. destruct HCt as [Ht|Ht].
  - rewrite (proj2 (Z.eqb_neq _ _) (held_not_unlck _ Ht)), andb_false_r. by apply run_middle.
  - rewrite Ht, Z.eqb_refl, andb_true_r.
    destruct (run_middle_unlock grp p L (bool_decide (is_Some L)) acts) as (M & acts' & E & HM & Hid & Hov);
      try done; [destruct L; [right|left]; done|].
    exists M, acts'. split_and!; try done; [apply HM..|]. intros i Hi. right. by apply Hid.
Qed.

(** A lock below the request stays in front of the result. *)
Lemma group_push x M grp on :
  own x -> fl_id x ∉ ids M -> group_ok M -> overlaid M grp (fl_start C) (fl_end C) on ->
  fl_end x < fl_start C -> Forall (before_lock x) grp -> group_ok (x :: M).
Proof.
  intros Hx Hi HM Hov Hlt Hg. apply group_cons. split_and!; try done; [apply HM..|].
  apply Forall_forall. intros y Hy. unfold before_lock. destruct HM as (Hown & _).
  pose proof Hown as Hown'. rewrite Forall_forall in Hown'. apply Hown' in Hy as Hyo.
  destruct Hyo as (_ & _ & [? _] & _).
  destruct (proj1 (Hov (fl_start y) (fl_type y))) as [?|[_ Hc]]; [|lia|].
  - exists y. split_and!; [done|lia..|done].
  - eapply covers_above in Hc; [|exact Hg]. done.
Qed.

Lemma overlaid_push M x grp s e on :
  fl_end x < s -> overlaid M grp s e on -> overlaid (x :: M) (x :: grp) s e on.
Proof.
  intros Hx HM a t. rewrite !covers_cons, (HM a t). split; [|tauto].
  intros [[? ?]|?]; [right; split; [lia|by left]|tauto].
Qed.

(** A lock of another type that reaches into the request is cut. *)
Lemma overlaid_cut_left M x grp s e on :
  fl_start x < s <= fl_end x -> fl_end x <= e -> overlaid M grp s e on ->
  overlaid (set_span x (fl_start x) (s - 1) :: M) (x :: grp) s e on.
Proof.
  intros Hx He HM a t. rewrite !covers_cons, (HM a t). simpl. split.
  - intros [[? ?]|?]; [right; split; [lia|left; split; [lia|done]]|tauto].
  - intros [?|[? [[? ?]|?]]]; [by right; left|left; split; [lia|done]|tauto].
Qed.

Lemma overlaid_merge_left M x grp s e :
  fl_type x = fl_type C -> fl_start x < s <= fl_end x + 1 -> s <= e -> Forall (before_lock x) grp ->
  overlaid M grp (fl_start x) (Z.max (fl_end x) e) true -> overlaid M (x :: grp) s e true.
Proof.
  intros Ht Hx Hse Hg HM a t. rewrite (HM a t), covers_cons, Ht.
  pose proof (covers_above grp a t _ Hg) as Ha. split.
  - intros [(? & _ & ->)|[? Hc]]; [|specialize (Ha Hc); right; split; [lia|by right]].
    destruct (decide (s <= a <= e)); [by left|right; split; [done|left; split; [lia|done]]].
  - intros [(? & _ & ->)|[? [[? <-]|Hc]]]; [left; split_and!; (done || lia)| |].
    + left. split_and!; (done || lia).
    + specialize (Ha Hc). right. split; [lia|done].
Qed.

Lemma overlaid_split y x grp M s e on :
  fl_start y = fl_start x -> fl_end y = s - 1 -> fl_type y = fl_type x ->
  fl_start x < s <= e -> e < fl_end x -> Forall (before_lock x) grp ->
  (forall a t, covers M a t <-> s <= a <= e /\ on = true /\ t = fl_type C) ->
  overlaid (y :: M ++ set_span x (e + 1) (fl_end x) :: grp) (x :: grp) s e on.
Proof.
  intros Hys Hye Hyt Hs He Hg HM a t.
  rewrite !covers_cons, covers_app, HM, covers_cons, Hys, Hye, Hyt. simpl.
  pose proof (covers_above grp a t _ Hg) as Ha. split.
  - intros [[? ?]|[?|[[? ?]|Hc]]]; [|by left| |].
    + right. split; [lia|left; split; [lia|done]].
    + right. split; [lia|left; split; [lia|done]].
    + specialize (Ha Hc). right. split; [lia|by right].
  - intros [?|[? [[? ?]|?]]]; [by right; left| |by do 3 right].
    destruct (decide (a < s)); [left; split; [lia|done]|do 2 right; left; split; [lia|done]].
Qed.

(** The new lock, if there is one, between the pieces of a lock it splits. *)
Definition new_lock : list file_lock := if keeps then [locks_init_lock new1 C] else [].

Lemma covers_new_lock a t :
  covers new_lock a t <-> fl_start C <= a <= fl_end C /\ keeps = true /\ t = fl_type C.
Proof.
  unfold new_lock. destruct keeps; [rewrite covers_single; simpl; intuition congruence|].
  rewrite covers_nil. naive_solver.
Qed.

Lemma finish_split p acts x rest :
  fl_end C < OFFSET_MAX -> fl_id x ∉ ids rest -> new2 ∉ ids (p ++ x :: rest) ->
  new1 <> new2 -> new1 <> fl_id x ->
  exists acts', finish_surgery new1 new2
      (Surgery p C (fl_type C =? F_UNLCK) (Some (fl_id x)) (Some (fl_id x)) acts) (x :: rest)
    = (p ++ set_span (locks_init_lock new2 x) (fl_start x) (fl_start C - 1)
         :: new_lock ++ set_span x (fl_end C + 1) (fl_end x) :: rest, acts').
Proof.
  intros Hm Hx Hn2 Hn Hn1. unfold finish_surgery, new_lock, keeps.
  cbn [s_added s_caller s_right s_left s_pre s_acts]. rewrite s32_pred by done.
  assert (s32 (fl_end C + 1) = fl_end C + 1) as ->.
  { destruct HC. unfold OFFSET_MAX in *. apply s32_id. lia. }
  rewrite fmap_app, elem_of_app in Hn2. simpl in Hn2. rewrite elem_of_cons in Hn2.
  destruct (fl_type C =? F_UNLCK); cbn [negb andb]; rewrite decide_True by done; cbn [list_find];
    rewrite decide_True by done; eexists;
    rewrite !put_start_skip, put_start_head, put_end_app, put_end_fresh by (simpl; naive_solver);
    change new2 with (fl_id (locks_init_lock new2 x)) at 1; rewrite put_end_head; try reflexivity;
    simpl; rewrite !not_elem_of_cons; naive_solver.
Qed.

Lemma group_split x grp :
  group_ok (x :: grp) -> fl_start x < fl_start C -> fl_end C < fl_end x ->
  new1 ∉ ids (x :: grp) -> new2 ∉ ids (x :: grp) -> new1 <> new2 ->
  group_ok (set_span (locks_init_lock new2 x) (fl_start x) (fl_start C - 1)
            :: new_lock ++ set_span x (fl_end C + 1) (fl_end x) :: grp).
Proof.
  intros Hg Hs He Hn1 Hn2 Hn. pose proof Hg as (Hx & Hg' & Hxg & Hxi)%group_cons.
  pose proof Hx as (Hxo & Hxf & [Hx0 Hx1] & Hxt). destruct HC as [HC0 HC1].
  assert (group_ok (set_span x (fl_end C + 1) (fl_end x) :: grp)) as Hr
    by (apply group_set_start; [done|lia]).
  assert (Forall (fun y => fl_end C < fl_start y) (set_span x (fl_end C + 1) (fl_end x) :: grp)) as Hab.
  { constructor; [simpl; lia|]. eapply Forall_impl; [exact Hxg|]. unfold before_lock. intros y. lia. }
  assert (group_ok (new_lock ++ set_span x (fl_end C + 1) (fl_end x) :: grp)) as Hm.
  { unfold new_lock. destruct keeps eqn:Ek; [|done]. apply group_cons. split_and!; try done; [|apply Hr..].
    apply own_new. unfold keeps in Ek. destruct HCt as [|Ht]; [done|]. by rewrite Ht in Ek. }
  apply group_cons. split_and!; [|apply Hm..| |].
  - apply (own_span (locks_init_lock new2 x)); [|lia..]. by split_and!.
  - apply Forall_app. split.
    + unfold new_lock. destruct keeps; [|constructor]. apply Forall_singleton. unfold before_lock. simpl. lia.
    + eapply Forall_impl; [exact Hab|]. unfold before_lock. simpl. intros y. lia.
  - rewrite fmap_app, elem_of_app. unfold new_lock. simpl in *. rewrite !not_elem_of_cons in *.
    destruct keeps; simpl; rewrite ?elem_of_cons, ?elem_of_nil; naive_solver.
Qed.

Lemma run_group grp : forall p acts,
  group_ok grp -> NoDup (ids (p ++ grp ++ tail)) ->
  new1 ∉ ids (p ++ grp ++ tail) -> new2 ∉ ids (p ++ grp ++ tail) -> new1 <> new2 ->
  (fl_end C < OFFSET_MAX \/ Forall (fun x => fl_type x <> fl_type C) grp) ->
  exists M acts',
    run (Surgery p C false None None acts) (grp ++ tail) = (p ++ M ++ tail, acts')
    /\ group_ok M /\ (forall i, i ∈ ids M -> i = new1 \/ i = new2 \/ i ∈ ids grp)
    /\ overlaid M grp (fl_start C) (fl_end C) keeps.
Proof.
  induction grp as [|x grp IH]; intros p acts Hg Hnd Hn1 Hn2 Hn Hmax.
  { destruct (run_middle_any [] p None acts) as (M & acts' & E & HM & Hid & Hov); try done.
    exists M, acts'. split; [exact E|]. split; [done|]. split; [|done]. intros i Hi. destruct (Hid i Hi); auto. }
  pose proof Hg as (Hx & Hg' & Hxg & Hxi)%group_cons.
  pose proof Hx as (Hxo & Hxf & [Hx0 Hx1] & Hxt). pose proof HC as [HC0 HC1].
  destruct (decide (fl_start C <= fl_start x)) as [Hge|Hlt].
  { destruct (run_middle_any (x :: grp) p None acts) as (M & acts' & E & HM & Hid & Hov); try done.
    - constructor; [done|]. eapply Forall_impl; [exact Hxg|]. unfold before_lock. intros y. lia.
    - exists M, acts'. split; [exact E|]. split; [done|]. split; [|done].
      intros i Hi. destruct (Hid i Hi); auto. }
  assert ((p ++ [x]) ++ grp ++ tail = p ++ (x :: grp) ++ tail) as Eapp by (by rewrite <-app_assoc).
  assert (fl_end C < OFFSET_MAX \/ Forall (fun x => fl_type x <> fl_type C) grp) as Hmax'
    by (destruct Hmax as [?|[_ ?]%Forall_cons]; auto).
  assert ((forall M : list file_lock, (forall i, i ∈ ids M -> i = new1 \/ i = new2 \/ i ∈ ids grp) ->
           fl_id x ∉ ids M)) as Hfresh.
  { intros M HM Hi. rewrite fmap_app, elem_of_app in Hn1, Hn2. simpl in Hn1, Hn2.
    rewrite elem_of_cons in Hn1, Hn2. destruct (HM _ Hi) as [?|[?|?]]; [|naive_solver..].
    naive_solver. }
  assert (fl_end x < fl_start C ->
    exists M acts', run (Surgery (p ++ [x]) C false None None acts) (grp ++ tail) = (p ++ M ++ tail, acts')
    /\ group_ok M /\ (forall i, i ∈ ids M -> i = new1 \/ i = new2 \/ i ∈ ids (x :: grp))
    /\ overlaid M (x :: grp) (fl_start C) (fl_end C) keeps) as Hpass.
  { intros Hlow. destruct (IH (p ++ [x]) acts) as (M & acts' & E & HM & Hid & Hov); rewrite ?Eapp; try done.
    exists (x :: M), acts'. rewrite E, <-app_assoc. split; [done|].
    split; [eapply group_push; eauto|]. split; [|by apply overlaid_push].
    intros i Hi. simpl in *. rewrite !elem_of_cons in *. destruct Hi as [?|Hi]; [tauto|].
    destruct (Hid i Hi) as [?|[?|?]]; auto. }
  unfold run. simpl. rewrite Hxo. simpl.
  destruct (Z.eqb_spec (fl_type C) (fl_type x)) as [Et|Et].
  - rewrite s32_pred by done. destruct (Z.ltb_spec (fl_end x) (fl_start C - 1)); [apply Hpass; lia|].
    destruct Hmax as [Hmax|[Hmax _]%Forall_cons]; [|by destruct Hmax].
    rewrite (s32_id (fl_end C + 1)) by (unfold OFFSET_MAX in *; lia).
    destruct (Z.ltb_spec (fl_end C + 1) (fl_start x)); [lia|]. rewrite Z.min_l by lia.
    set (c := set_span x (fl_start x) (Z.max (fl_end x) (fl_end C))).
    destruct (run_alias grp c p None acts) as (M & acts' & E & HM & Hid & _ & Hov); try done.
    + apply own_span; [done|lia..].
    + simpl. lia.
    + simpl. destruct (decide (fl_end x <= fl_end C)); [left; lia|right]. rewrite Z.max_l by lia. done.
    + eapply Forall_impl; [exact Hxg|]. unfold before_lock. simpl. intros y. lia.
    + rewrite fmap_app in *. done.
    + exists M, acts'. split; [exact E|]. split; [done|].
      split; [intros i Hi; right; right; by apply Hid|].
      assert (keeps = true) as ->.
      { unfold keeps. rewrite Et. by rewrite (proj2 (Z.eqb_neq _ _) (held_not_unlck _ Hxt)). }
      apply overlaid_merge_left; [done|lia|lia|done|done].
  - destruct (Z.ltb_spec (fl_end x) (fl_start C)); [by apply Hpass|].
    destruct (Z.ltb_spec (fl_end C) (fl_start x)); [lia|].
    destruct (Z.ltb_spec (fl_start x) (fl_start C)); [|lia].
    destruct (Z.ltb_spec (fl_end C) (fl_end x)) as [Hr|Hr].
    + destruct (finish_split p acts x (grp ++ tail)) as [acts' E]; [lia| |done|done| |].
      * by apply NoDup_ids_head in Hnd.
      * intros ->. apply Hn1. rewrite fmap_app, elem_of_app. right. simpl. by left.
      * exists (set_span (locks_init_lock new2 x) (fl_start x) (fl_start C - 1)
                :: new_lock ++ set_span x (fl_end C + 1) (fl_end x) :: grp), acts'.
        split; [by rewrite E, <-app_comm_cons, <-app_assoc|].
        assert (new1 ∉ ids (x :: grp)) by (rewrite !fmap_app, !elem_of_app in Hn1; tauto).
        assert (new2 ∉ ids (x :: grp)) by (rewrite !fmap_app, !elem_of_app in Hn2; tauto).
        split; [by apply group_split|]. split.
        { intros i. unfold new_lock. simpl. rewrite fmap_app, elem_of_cons, elem_of_app. simpl.
          rewrite !elem_of_cons. destruct keeps; simpl; rewrite ?elem_of_cons, ?elem_of_nil; tauto. }
        apply overlaid_split; [done..|lia|lia|done|]. intros a t. apply covers_new_lock.
    + destruct (Z.leb_spec (fl_start C) (fl_start x)); [lia|].
      destruct (run_middle_any grp (p ++ [x]) (Some (fl_id x)) acts) as (M & acts' & E & HM & Hid & Hov);
        rewrite ?Eapp; try done.
      { eapply Forall_impl; [exact Hxg|]. unfold before_lock. intros y. lia. }
      { intros i [= <-]. rewrite fmap_app, elem_of_app. right. by left. }
      assert (fl_id x ∉ ids M) as HxM by (apply Hfresh; intros i Hi; destruct (Hid i Hi); auto).
      exists (set_span x (fl_start x) (fl_start C - 1) :: M), acts'.
      pose proof (ids_fresh _ _ _ Hnd) as (Hxp & _ & Hxta & _). split.
      { unfold run in E. rewrite bool_decide_eq_true_2 in E by eauto. etrans; [exact E|]. unfold fix_left.
        rewrite <-app_assoc, put_end_app, put_end_fresh by done.
        change ([x] ++ M ++ tail) with (x :: M ++ tail). rewrite put_end_head; [done|]. rewrite fmap_app, elem_of_app. tauto. }
      split; [|split].
      * apply (group_push (set_span x (fl_start x) (fl_start C - 1)) M grp keeps); try done.
        -- apply own_span; [done|lia..].
        -- simpl. lia.
        -- eapply Forall_impl; [exact Hxg|]. unfold before_lock. simpl. intros y. lia.
      * intros i Hi. simpl in *. rewrite !elem_of_cons in *. destruct Hi as [?|Hi]; [tauto|].
        destruct (Hid i Hi); auto.
      * apply overlaid_cut_left; [lia..|done].
Qed.
End Surgery.

(** ** The invariant of the locks of an inode *)

Definition mine (o x : file_lock) : Prop := flag x FL_POSIX = true /\ locks_same_owner o x = true.

#[export] Instance mine_dec o x : Decision (mine o x).
Proof. unfold mine. apply _. Defined.

(** The elements that satisfy [P] are next to each other. *)
Definition contiguous {A} (P : A -> Prop) (l : list A) : Prop :=
  exists l1 g l2, l = l1 ++ g ++ l2 /\ Forall P g /\ Forall (fun x => ~ P x) (l1 ++ l2).

Definition kind_ok (x : file_lock) : Prop :=
  (fl_flags x = FL_POSIX /\ fl_owner x <> 0) \/ (fl_flags x = FL_FLOCK /\ fl_owner x = 0).

Definition lock_ok (x : file_lock) : Prop := span_ok x /\ held_type (fl_type x) /\ kind_ok x.

(** FLOCK locks come first; the POSIX locks of an owner are next to each other,
    disjoint and in order. *)
Definition locks_ok (l : list file_lock) : Prop :=
  NoDup (ids l) /\ Forall lock_ok l
  /\ (exists a b, l = a ++ b /\ Forall (fun x => fl_flags x = FL_FLOCK) a
                  /\ Forall (fun x => fl_flags x = FL_POSIX) b)
  /\ forall o, contiguous (mine o) l /\ StronglySorted before_lock (filter (mine o) l).

(** A request as [posix_make_lock] builds it. *)
Definition request_ok (C : file_lock) : Prop :=
  span_ok C /\ (held_type (fl_type C) \/ fl_type C = F_UNLCK) /\ fl_flags C = FL_POSIX /\ fl_owner C <> 0.

Lemma same_owner_eq x y :
  locks_same_owner x y = true <-> fl_owner x = fl_owner y /\ fl_pid x = fl_pid y.
Proof. unfold locks_same_owner. rewrite andb_true_iff, !Z.eqb_eq. done. Qed.

Lemma mine_iff o x y : mine o x -> mine o y <-> mine x y.
Proof.
  intros [_ H]. unfold mine. rewrite same_owner_eq in *. rewrite !same_owner_eq.
  destruct H as [-> ->]. done.
Qed.

(** Replacing a part that has no element with [P] keeps the others together. *)
Lemma contiguous_replace {A} (P : A -> Prop) l1 g M l2 :
  contiguous P (l1 ++ g ++ l2) -> g <> [] \/ l2 = [] -> Forall (fun x => ~ P x) g ->
  Forall (fun x => ~ P x) M -> contiguous P (l1 ++ M ++ l2).
Proof.
  intros (k1 & h & k2 & E & Hh & Hk) Hne Hg HM.
  apply Forall_app in Hk as [Hk1 Hk2].
  assert (forall m1 m2 : list A, Forall (fun x => ~ P x) m1 -> Forall (fun x => ~ P x) m2 ->
    contiguous P (m1 ++ h ++ m2)) as Hmk.
  { intros m1 m2 H1 H2. exists m1, h, m2. split_and!; [done..|]. by apply Forall_app. }
  apply app_eq_inv in E as [(k & -> & E)|(k & -> & E)].
  - apply app_eq_inv in E as [(m & -> & E)|(m & -> & E)].
    + apply Forall_app in Hh as [_ Hm]. assert (m = []) as ->.
      { destruct m as [|y m]; [done|]. apply Forall_cons in Hm as [Hy _]. exfalso.
        destruct g as [|z g]; [destruct Hne as [?| ->]; done|]. simplify_eq/=.
        by apply Forall_cons in Hg as [? _]. }
      simpl in E. subst k2. apply Forall_app in Hk2 as [_ Hl2]. rewrite app_nil_r in Hmk.
      rewrite <-app_assoc. apply Hmk; [done|by apply Forall_app].
    + subst k2. apply Forall_app in Hk2 as [Hm [_ Hl2]%Forall_app].
      rewrite <-!app_assoc. apply Hmk; [done|]. by rewrite !Forall_app.
  - apply Forall_app in Hk1 as [Hl1 Hk]. destruct h as [|y h].
    { exists [], [], (l1 ++ M ++ l2). split_and!; [done..|]. simpl. simpl in E.
      assert (Forall (fun x => ~ P x) (g ++ l2)) as [_ Hl2]%Forall_app by (rewrite E; by apply Forall_app).
      by rewrite !Forall_app. }
    apply app_eq_inv in E as [(m & -> & E)|(m & -> & E)].
    + apply Forall_app in Hg as [_ Hm]. destruct m as [|z m].
      * simpl in E. rewrite <-E, app_assoc. apply Hmk; [by apply Forall_app|done].
      * simplify_eq/=. apply Forall_cons in Hm as [? _]. by apply Forall_cons in Hh as [? _].
    + subst l2. apply Forall_app in Hk as [_ Hm]. rewrite !app_assoc, <-(app_assoc _ (y :: h)).
      apply Hmk; [by rewrite !Forall_app|done].
Qed.

Lemma holds_filter l o a t : holds l o a t <-> covers (filter (mine o) l) a t.
Proof.
  unfold holds, covers, mine. split; intros (x & Hx).
  - exists x. rewrite list_elem_of_filter. tauto.
  - exists x. rewrite list_elem_of_filter in Hx. tauto.
Qed.

Lemma skip_others_split C l1 rest :
  Forall (fun x => ~ mine C x) l1 -> match rest with [] => True | y :: _ => mine C y end ->
  skip_others C (l1 ++ rest) = (l1, rest).
Proof.
  intros Hl1 Hr. induction Hl1 as [|x l1 Hx _ IH]; simpl.
  - destruct rest as [|y rest]; [done|]. simpl. destruct Hr as [-> ->]. done.
  - destruct (negb (flag x FL_POSIX) || negb (locks_same_owner C x)) eqn:E; [by rewrite IH|].
    destruct Hx. unfold mine. bool_hyps. done.
Qed.

Lemma flag_posix x : kind_ok x -> flag x FL_POSIX = true <-> fl_flags x = FL_POSIX.
Proof. intros [[E _]|[E _]]; unfold flag; rewrite E; done. Qed.

Lemma mine_own C x : lock_ok x -> mine C x <-> own C x.
Proof.
  intros (? & ? & Hk). unfold mine, own. rewrite flag_posix by done. tauto.
Qed.

(** The decomposition that [posix_lock_file] finds. *)
Lemma owner_split C l :
  locks_ok l -> fl_owner C <> 0 ->
  exists l1 g l2, l = l1 ++ g ++ l2 /\ Forall (mine C) g /\ Forall (fun x => ~ mine C x) l1
    /\ Forall (fun x => ~ mine C x) l2 /\ (g <> [] \/ l2 = [])
    /\ skip_others C l = (l1, g ++ l2)
    /\ match l2 with [] => True | y :: _ => locks_same_owner C y = false end.
Proof.
  intros (_ & Hok & _ & Hown) Ho. destruct (Hown C) as [(l1 & g & l2 & -> & Hg & [H1 H2]%Forall_app) _].
  destruct g as [|x g].
  - exists (l1 ++ l2), [], []. split_and!; try done; [by rewrite app_nil_r|by apply Forall_app|by right|].
    simpl. rewrite <-(app_nil_r (l1 ++ l2)) at 1. apply skip_others_split; [by apply Forall_app|done].
  - exists l1, (x :: g), l2. split_and!; try done; [by left| |].
    + apply skip_others_split; [done|]. by apply Forall_cons in Hg as [? _].
    + destruct l2 as [|y l2]; [done|]. apply Forall_cons in H2 as [H2 _].
      rewrite !Forall_app, !Forall_cons in Hok. destruct Hok as (_ & _ & [(_ & _ & Hk) _]).
      destruct (locks_same_owner C y) eqn:E; [|done]. exfalso. apply H2. split; [|done].
      apply same_owner_eq in E. destruct Hk as [[Ef _]|[_ ?]]; [by unfold flag; rewrite Ef|].
      destruct Ho. destruct E. congruence.
Qed.

Lemma filter_mine_mid o l1 g l2 :
  Forall (mine o) g -> Forall (fun x => ~ mine o x) l1 -> Forall (fun x => ~ mine o x) l2 ->
  filter (mine o) (l1 ++ g ++ l2) = g.
Proof.
  intros. rewrite !filter_app, (filter_all _ g), !filter_none by done.
  by rewrite app_nil_r.
Qed.

Lemma filter_mine_out o l1 g l2 :
  Forall (fun x => ~ mine o x) g -> filter (mine o) (l1 ++ g ++ l2) = filter (mine o) (l1 ++ l2).
Proof. intros. rewrite !filter_app, (filter_none _ g) by done. done. Qed.

(** Seen from another owner. *)
Lemma mine_other C o x : mine C x -> locks_same_owner C o = false -> ~ mine o x.
Proof.
  intros [_ H] Ho [_ Hx]. rewrite same_owner_eq in H, Hx. destruct H as [H1 H2], Hx as [H3 H4].
  assert (locks_same_owner C o = true) by (apply same_owner_eq; split; congruence). congruence.
Qed.

Lemma mine_same C o x : locks_same_owner C o = true -> mine o x <-> mine C x.
Proof.
  intros H. unfold mine. rewrite same_owner_eq in H. rewrite !same_owner_eq.
  destruct H as [-> ->]. done.
Qed.

Lemma Forall_mine_same C o k :
  locks_same_owner C o = true -> Forall (mine C) k -> Forall (mine o) k.
Proof. intros Ho Hk. eapply Forall_impl; [exact Hk|]. intros x. by apply mine_same. Qed.

Lemma Forall_not_mine_same C o k :
  locks_same_owner C o = true -> Forall (fun x => ~ mine C x) k -> Forall (fun x => ~ mine o x) k.
Proof.
  intros Ho Hk. eapply Forall_impl; [exact Hk|]. intros x Hx Hox. apply Hx. by apply (mine_same C o).
Qed.

Lemma Forall_mine_other C o k :
  locks_same_owner C o = false -> Forall (mine C) k -> Forall (fun x => ~ mine o x) k.
Proof. intros Ho Hk. eapply Forall_impl; [exact Hk|]. intros x Hx. by apply (mine_other C). Qed.

(** The request does not reach the largest offset, or its owner has no lock of
    its type (see [posix_eof_not_merged]). *)
Definition eof_safe (C : file_lock) (l : list file_lock) : Prop :=
  fl_end C < OFFSET_MAX \/ Forall (fun x => mine C x -> fl_type x <> fl_type C) l.

(** The owner of the request locks, relocks or unlocks its bytes; nothing else
    changes. *)
Definition request_effect (C : file_lock) (l l' : list file_lock) : Prop :=
  forall o a t, holds l' o a t <->
    if locks_same_owner C o && (fl_start C <=? a) && (a <=? fl_end C)
    then fl_type C <> F_UNLCK /\ t = fl_type C
    else holds l o a t.

Lemma group_of C l1 g l2 :
  locks_ok (l1 ++ g ++ l2) -> Forall (mine C) g -> Forall (fun x => ~ mine C x) l1 ->
  Forall (fun x => ~ mine C x) l2 -> group_ok C g.
Proof.
  intros (Hnd & Hok & _ & Hown) Hg H1 H2. split_and!.
  - rewrite !Forall_app in Hok. destruct Hok as (_ & Hok & _). rewrite Forall_forall in *.
    intros x Hx. apply mine_own; auto.
  - destruct (Hown C) as [_ Hs]. by rewrite filter_mine_mid in Hs.
  - rewrite !fmap_app, !NoDup_app in Hnd. tauto.
Qed.

Lemma flocks_first_replace (l1 g M l2 : list file_lock) :
  (exists a b, l1 ++ g ++ l2 = a ++ b /\ Forall (fun x => fl_flags x = FL_FLOCK) a
     /\ Forall (fun x => fl_flags x = FL_POSIX) b) ->
  g <> [] \/ l2 = [] -> Forall (fun x => fl_flags x <> FL_FLOCK) g ->
  Forall (fun x => fl_flags x = FL_POSIX) M ->
  exists a b, l1 ++ M ++ l2 = a ++ b /\ Forall (fun x => fl_flags x = FL_FLOCK) a
     /\ Forall (fun x => fl_flags x = FL_POSIX) b.
Proof.
  intros (a & b & E & Ha & Hb) Hne Hg HM. apply app_eq_inv in E as [(k & -> & E)|(k & -> & E)].
  - subst b. rewrite !Forall_app in Hb. destruct Hb as (? & ? & ?).
    exists a, (k ++ M ++ l2). rewrite <-app_assoc, !Forall_app. done.
  - apply Forall_app in Ha as [Hl1 Hk]. destruct k as [|y k].
    + simpl in E. rewrite <-E in Hb. rewrite Forall_app in Hb. destruct Hb as (_ & ?).
      exists l1, (M ++ l2). rewrite !Forall_app. done.
    + exfalso. destruct g as [|z g]; [by destruct Hne as [?| ->]|]. simplify_eq/=.
      apply Forall_cons in Hg as [? _]. by apply Forall_cons in Hk as [? _].
Qed.

(** Replacing the locks of an owner by another group keeps the invariant. *)
Lemma replace_group_ok C l1 g M l2 new1 new2 :
  request_ok C -> locks_ok (l1 ++ g ++ l2) ->
  Forall (mine C) g -> Forall (fun x => ~ mine C x) l1 -> Forall (fun x => ~ mine C x) l2 ->
  g <> [] \/ l2 = [] -> group_ok C M ->
  (forall i, i ∈ ids M -> i = new1 \/ i = new2 \/ i ∈ ids g) ->
  new1 ∉ ids (l1 ++ g ++ l2) -> new2 ∉ ids (l1 ++ g ++ l2) ->
  locks_ok (l1 ++ M ++ l2) /\ Forall (mine C) M.
Proof.
  intros (_ & _ & _ & HCo) (Hnd & Hok & Hfl & Hown) Hg H1 H2 Hne (HMo & HMs & HMn) Hid Hn1 Hn2.
  assert (Forall lock_ok M /\ Forall (mine C) M) as [HMok HMm].
  { split; (eapply Forall_impl; [exact HMo|]); intros x (Hs & Hf & Hsp & Ht).
    - split_and!; try done; [apply Hsp..|]. left. split; [done|]. apply same_owner_eq in Hs as [<- _]. done.
    - split; [by unfold flag; rewrite Hf|done]. }
  split; [|done]. rewrite !Forall_app in Hok. destruct Hok as (Hok1 & _ & Hok2). split_and!.
  - rewrite !fmap_app, !NoDup_app in *. rewrite !elem_of_app in *.
    destruct Hnd as (? & Hd1 & ? & Hd2 & ?). split_and!; try done.
    + intros i Hi. rewrite elem_of_app. specialize (Hd1 i Hi). rewrite elem_of_app in Hd1.
      intros [Hx|Hx]; [|tauto]. destruct (Hid i Hx) as [->|[->|?]]; tauto.
    + intros i Hi Hx. destruct (Hid i Hi) as [->|[->|?]]; [tauto..|]. by apply (Hd2 i).
  - by rewrite !Forall_app.
  - assert (Forall (fun x => fl_flags x = FL_POSIX) M) as HMf.
    { eapply Forall_impl; [exact HMo|]. by intros x (_ & ? & _). }
    apply (flocks_first_replace l1 g); try done. eapply Forall_impl; [exact Hg|].
    intros x [Hf _] E. unfold flag in Hf. by rewrite E in Hf.
  - intros o. destruct (locks_same_owner C o) eqn:Eo; split.
    + exists l1, M, l2. rewrite Forall_app.
      split_and!; eauto using Forall_mine_same, Forall_not_mine_same.
    + rewrite filter_mine_mid; eauto using Forall_mine_same, Forall_not_mine_same.
    + apply (contiguous_replace _ l1 g); [apply Hown|done|..]; eauto using Forall_mine_other.
    + destruct (Hown o) as [_ Hs]. rewrite filter_mine_out in * by eauto using Forall_mine_other. done.
Qed.

Lemma replaced_tasks C l1 (g M l2 : list file_lock) new1 new2 x :
  Forall (mine C) g -> Forall (mine C) M ->
  (forall i, i ∈ ids M -> i = new1 \/ i = new2 \/ i ∈ ids g) -> x ∈ l1 ++ M ++ l2 ->
  (exists y, y ∈ l1 ++ g ++ l2 /\ fl_id y = fl_id x /\ task_eq y x) \/
  (task_eq C x /\ (fl_id x = new1 \/ fl_id x = new2)).
Proof.
  intros Hg HM Hid. rewrite !elem_of_app. rewrite Forall_forall in *.
  intros Hx. assert (x ∈ M \/ x ∈ l1 ++ g ++ l2) as [HxM|Hxl] by (rewrite !elem_of_app; tauto);
    [|by left; exists x].
  destruct (HM x HxM) as [_ Hxt%same_owner_eq].
  destruct (Hid (fl_id x)) as [?|[?|(y & Hyx & Hy)%list_elem_of_fmap]];
    [by apply list_elem_of_fmap_2|by auto..|]. left.
  exists y. destruct (Hg y Hy) as [_ Hyt%same_owner_eq]. unfold task_eq. destruct Hxt, Hyt.
  split_and!; try congruence. rewrite !elem_of_app. tauto.
Qed.

(** FLOCK locks are not touched. *)
Lemma mine_not_flock C x : lock_ok x -> mine C x -> flag x FL_FLOCK = false.
Proof.
  intros (_ & _ & [[E _]|[E _]]) [Hf _]; unfold flag in *; rewrite E in *; done.
Qed.

Lemma replaced_flocks C l1 (g M l2 : list file_lock) x :
  locks_ok (l1 ++ g ++ l2) -> locks_ok (l1 ++ M ++ l2) -> Forall (mine C) g -> Forall (mine C) M ->
  flag x FL_FLOCK = true -> x ∈ l1 ++ M ++ l2 <-> x ∈ l1 ++ g ++ l2.
Proof.
  intros (_ & Hg & _) (_ & HM & _) Hmg HmM Hf. rewrite !Forall_app in *. rewrite !elem_of_app.
  destruct Hg as (_ & Hg & _), HM as (_ & HM & _). rewrite Forall_forall in *.
  assert (x ∉ g) by (intros Hx; by rewrite (mine_not_flock C x) in Hf by auto).
  assert (x ∉ M) by (intros Hx; by rewrite (mine_not_flock C x) in Hf by auto). tauto.
Qed.

Lemma posix_apply_ok C l new1 new2 :
  locks_ok l -> request_ok C -> new1 ∉ ids l -> new2 ∉ ids l -> new1 <> new2 -> eof_safe C l ->
  locks_ok (posix_apply new1 new2 C l).1 /\ request_effect C l (posix_apply new1 new2 C l).1
  /\ (forall x, x ∈ (posix_apply new1 new2 C l).1 ->
       (exists y, y ∈ l /\ fl_id y = fl_id x /\ task_eq y x) \/
       (task_eq C x /\ (fl_id x = new1 \/ fl_id x = new2)))
  /\ forall x, flag x FL_FLOCK = true -> x ∈ (posix_apply new1 new2 C l).1 <-> x ∈ l.
Proof.
  intros Hl HC Hn1 Hn2 Hn He. pose proof HC as (Hspan & Ht & Hf & Ho).
  destruct (owner_split C l Hl Ho) as (l1 & g & l2 & -> & Hg & H1 & H2 & Hne & Hsk & Htl).
  pose proof (group_of C l1 g l2 Hl Hg H1 H2) as Hgok.
  assert (fl_end C < OFFSET_MAX \/ Forall (fun x => fl_type x <> fl_type C) g) as He'.
  { destruct He as [|He]; [by left|right]. rewrite !Forall_app in He. destruct He as (_ & He & _).
    rewrite Forall_forall in *. auto. }
  destruct (run_group C new1 new2 l2 Hspan Hf Htl Ht g l1 []) as (M & acts & E & HM & Hid & Hov); try done.
  { apply Hl. }
  assert ((posix_apply new1 new2 C (l1 ++ g ++ l2)).1 = l1 ++ M ++ l2) as ->.
  { unfold posix_apply. rewrite Hsk. unfold run in E. destruct (process_owner _ _). by rewrite E. }
  destruct (replace_group_ok C l1 g M l2 new1 new2) as [Hok' HMm]; try done. split; [done|].
  split; [|split; [intros x; by apply (replaced_tasks C l1 g M l2)|intros x; by apply (replaced_flocks C)]]. intros o a t. rewrite (holds_filter (l1 ++ M ++ l2)). destruct (locks_same_owner C o) eqn:Eo; simpl.
  - rewrite filter_mine_mid by eauto using Forall_mine_same, Forall_not_mine_same.
    rewrite (Hov a t). assert (keeps C = true <-> fl_type C <> F_UNLCK) as ->.
    { unfold keeps. rewrite negb_true_iff, Z.eqb_neq. done. }
    destruct (decide (fl_start C <= a <= fl_end C)) as [Ha|Ha].
    + assert ((fl_start C <=? a) && (a <=? fl_end C) = true) as -> by lia. tauto.
    + assert ((fl_start C <=? a) && (a <=? fl_end C) = false) as -> by lia.
      rewrite holds_filter, filter_mine_mid by eauto using Forall_mine_same, Forall_not_mine_same. tauto.
  - by rewrite holds_filter, !filter_mine_out by eauto using Forall_mine_other.
Qed.

(** ** The locks that come and go *)

Definition deleted (acts : list lock_action) : list Z :=
  omap (fun a => match a with ActDelete id => Some id | _ => None end) acts.

Definition inserted (acts : list lock_action) : list file_lock :=
  omap (fun a => match a with ActInsert fl => Some fl | _ => None end) acts.

Lemma ids_sync c l : ids (sync c l) = ids l.
Proof.
  unfold sync. rewrite <-list_fmap_compose. apply list_fmap_ext. intros _ x _. simpl.
  destruct (Z.eqb_spec (fl_id x) (fl_id c)); congruence.
Qed.

Lemma ids_put_start id v l : ids (put_start id v l) = ids l.
Proof.
  unfold put_start. rewrite <-list_fmap_compose. apply list_fmap_ext. intros _ x _. simpl. by case_match.
Qed.

Lemma ids_put_end id v l : ids (put_end id v l) = ids l.
Proof.
  unfold put_end. rewrite <-list_fmap_compose. apply list_fmap_ext. intros _ x _. simpl. by case_match.
Qed.

(** The loop only deletes, and records what it deletes; [caller] keeps its
    owner, and [right] is the lock it stopped at. *)
Definition loop_ids (s : surgery) (l : list file_lock) (s' : surgery) (r : list file_lock) : Prop :=
  (s_right s = None -> forall i, s_right s' = Some i -> exists x r', r = x :: r' /\ fl_id x = i
     /\ task_eq (s_caller s) x)
  /\ task_eq (s_caller s) (s_caller s')
  /\ exists acts, s_acts s' = s_acts s ++ acts /\ inserted acts = []
     /\ ids (s_pre s ++ l) ≡ₚ ids (s_pre s' ++ r) ++ deleted acts.

Lemma loop_ids_refl s l : loop_ids s l s l.
Proof.
  split; [by intros -> ?|]. split; [done|]. exists []. rewrite app_nil_r. by rewrite app_nil_r.
Qed.

Lemma loop_ids_step s l s1 l1 s' r a1 :
  s_right s1 = s_right s -> task_eq (s_caller s) (s_caller s1) -> s_acts s1 = s_acts s ++ a1 ->
  inserted a1 = [] -> ids (s_pre s ++ l) ≡ₚ ids (s_pre s1 ++ l1) ++ deleted a1 ->
  loop_ids s1 l1 s' r -> loop_ids s l s' r.
Proof.
  intros Hr [Ho Hp] Ha Hi Hids (H1 & [Ho' Hp'] & acts & Ha' & Hi' & Hids'). split; [|split].
  - intros Hn i Hsi. rewrite <-Hr in Hn. destruct (H1 Hn i Hsi) as (x & r' & ? & ? & ? & ?).
    exists x, r'. unfold task_eq. split_and!; congruence.
  - unfold task_eq. split; congruence.
  - exists (a1 ++ acts). unfold inserted, deleted in *. rewrite !omap_app, Hi, Hi', Ha', Ha, app_assoc.
    split_and!; try done. rewrite Hids, Hids', <-app_assoc. f_equiv. apply Permutation_app_comm.
Qed.

Lemma process_ids l : forall s s' r, process_owner s l = (s', r) -> loop_ids s l s' r.
Proof.
  induction l as [|fl l IH]; intros s s' r; simpl; [intros [= <- <-]; apply loop_ids_refl|].
  destruct (locks_same_owner (s_caller s) fl) eqn:Eo; simpl; [|intros [= <- <-]; apply loop_ids_refl].
  apply same_owner_eq in Eo.
  assert (ids (s_pre s ++ fl :: l) ≡ₚ ids (s_pre s ++ l) ++ [fl_id fl]) as Hdel.
  { rewrite <-Permutation_middle. simpl. by rewrite Permutation_cons_append. }
  assert (forall x c a t acts, fl_id x = fl_id fl -> task_eq (s_caller s) c ->
    acts = s_acts s \/ acts = s_acts s ++ [ActWake (fl_id fl)] ->
    process_owner (Surgery (s_pre s ++ [x]) c a t (s_right s) acts) l = (s', r) ->
    loop_ids s (fl :: l) s' r) as Hpass.
  { intros x c a t acts Hx Hc [->| ->] H%IH;
      [eapply (loop_ids_step _ _ _ _ _ _ []), H|eapply (loop_ids_step _ _ _ _ _ _ [_]), H];
      try done; simpl; rewrite ?app_nil_r, <-?app_assoc; try done; rewrite !fmap_app; simpl; by rewrite Hx. }
  assert (forall c pre a t, task_eq (s_caller s) c -> ids pre = ids (s_pre s) ->
    process_owner (Surgery pre c a t (s_right s) (s_acts s ++ [ActDelete (fl_id fl)])) l = (s', r) ->
    loop_ids s (fl :: l) s' r) as Hdrop.
  { intros c pre a t Hc Hpre H%IH. eapply (loop_ids_step _ _ _ _ _ _ [_]), H; try done.
    simpl. rewrite Hdel, !fmap_app, Hpre. done. }
  assert (task_eq (s_caller s) (s_caller s)) as Hrefl by done.
  assert (forall x, fl_id x = fl_id fl -> fl_owner x = fl_owner fl -> fl_pid x = fl_pid fl ->
    task_eq (s_caller s) x) as Hal.
  { intros x _ H1 H2. unfold task_eq. by rewrite H1, H2. }
  repeat match goal with
  | |- (if ?b then _ else _) = _ -> _ => destruct b
  end; try (intros [= <- <-]; apply loop_ids_refl); try (apply Hpass; auto; fail);
    try (apply Hdrop; rewrite ?ids_sync; auto; fail).
  intros [= <- <-]. split; [|split; [done|]].
  - intros _ i [= <-]. by exists fl, l.
  - exists []. simpl. by rewrite !app_nil_r.
Qed.

Lemma skip_others_app C l p r : skip_others C l = (p, r) -> l = p ++ r.
Proof.
  revert p r. induction l as [|x l IH]; simpl; intros p r; [by intros [= <- <-]|].
  case_match; [|by intros [= <- <-]]. destruct (skip_others C l) as [p' r'].
  intros [= <- <-]. simpl. by rewrite (IH p' r').
Qed.

#[local] Arguments put_start : simpl never.
#[local] Arguments put_end : simpl never.

(** The actions account for the locks that come and go: the new list has the
    locks of the old one, less the deleted ones, and the inserted ones. *)
Lemma finish_acts new1 new2 s rest l' acts :
  (forall i, s_right s = Some i -> exists x r', rest = x :: r' /\ fl_id x = i /\ task_eq (s_caller s) x) ->
  inserted (s_acts s) = [] -> finish_surgery new1 new2 s rest = (l', acts) ->
  deleted acts = deleted (s_acts s)
  /\ ids l' ≡ₚ ids (s_pre s ++ rest) ++ ids (inserted acts)
  /\ Forall (task_eq (s_caller s)) (inserted acts)
  /\ (ids (inserted acts) = [] \/ ids (inserted acts) = [new1] \/ ids (inserted acts) = [new2]
      \/ ids (inserted acts) = [new1; new2]).
Proof.
  intros Hr Hi. unfold finish_surgery.
  assert (forall a k, deleted (a ++ [ActWake k]) = deleted a /\ inserted (a ++ [ActWake k]) = inserted a) as Hw.
  { intros a k. unfold deleted, inserted. rewrite !omap_app. simpl. by rewrite !app_nil_r. }
  assert (forall a x, deleted (a ++ [ActInsert x]) = deleted a
    /\ inserted (a ++ [ActInsert x]) = inserted a ++ [x]) as Hin.
  { intros a x. unfold deleted, inserted. rewrite !omap_app. simpl. by rewrite app_nil_r. }
  assert (forall (a : list Z) b x, a ++ x :: b ≡ₚ (a ++ b) ++ [x]) as Hp.
  { intros a b x. rewrite <-app_assoc. f_equiv. by rewrite Permutation_cons_append. }
  assert (forall (a : list Z) b x y, a ++ y :: x :: b ≡ₚ (a ++ b) ++ [x; y]) as Hp2.
  { intros a b x y. rewrite <-app_assoc. f_equiv. rewrite (Permutation_app_comm b). simpl. apply perm_swap. }
  destruct (negb _ && _); [intros [= <- <-]; rewrite Hi; simpl; rewrite app_nil_r; by auto|].
  assert (task_eq (s_caller s) (locks_init_lock new1 (s_caller s))) as Ht1 by done.
  destruct (s_right s) as [r|].
  - destruct (Hr r eq_refl) as (x & r' & -> & Hx & Htx). simpl list_find.
    destruct (s_added s); (destruct (decide (s_left s = Some r));
      [rewrite decide_True by done; cbv beta iota|destruct (s_left s)]); intros [= <- <-];
      rewrite ?(proj1 (Hw _ _)), ?(proj2 (Hw _ _)), ?(proj1 (Hin _ _)), ?(proj2 (Hin _ _)),
        ?(proj1 (Hin _ _)), ?(proj2 (Hin _ _)), Hi; (split; [done|]);
      rewrite ?ids_put_end, !fmap_app, ?ids_put_start; simpl; rewrite ?app_nil_r;
      (split; [done || apply Hp || apply Hp2|]);
      (split; [repeat (apply Forall_cons; split; [done || apply Htx|]); done|by auto]).
  - destruct (s_added s), (s_left s); intros [= <- <-];
      rewrite ?(proj1 (Hw _ _)), ?(proj2 (Hw _ _)), ?(proj1 (Hin _ _)), ?(proj2 (Hin _ _)), Hi;
      (split; [done|]); rewrite ?ids_put_end, !fmap_app; simpl; rewrite ?app_nil_r;
      (split; [done || apply Hp|]);
      (split; [repeat (apply Forall_cons; split; [done|]); done|by auto]).
Qed.

Lemma posix_apply_acts C l new1 new2 l' acts :
  posix_apply new1 new2 C l = (l', acts) ->
  ids l' ++ deleted acts ≡ₚ ids l ++ ids (inserted acts)
  /\ (forall i, i ∈ deleted acts -> i ∈ ids l)
  /\ Forall (task_eq C) (inserted acts)
  /\ (ids (inserted acts) = [] \/ ids (inserted acts) = [new1] \/ ids (inserted acts) = [new2]
      \/ ids (inserted acts) = [new1; new2]).
Proof.
  unfold posix_apply. destruct (skip_others C l) as [p r] eqn:Es. apply skip_others_app in Es as ->.
  destruct (process_owner _ r) as [s rest] eqn:Ep.
  apply process_ids in Ep as (Hr & [Ho Hpd] & acts1 & Ha & Hi & Hids). simpl in *. intros Hf.
  apply finish_acts in Hf as (Hd & Hl & Hins & Hn); [|intros i Hsi|by rewrite Ha].
  - rewrite Hl, Hd, Ha, Hids. split; [|split; [|split; [|done]]].
    + rewrite <-!app_assoc. f_equiv. apply Permutation_app_comm.
    + intros i Hi'. rewrite Hids, elem_of_app. by right.
    + eapply Forall_impl; [exact Hins|]. intros x [H1 H2]. unfold task_eq. split; congruence.
  - destruct (Hr eq_refl i Hsi) as (x & r' & -> & Hx & H1 & H2). exists x, r'. unfold task_eq.
    split_and!; congruence.
Qed.

(** ** Properties *)

(** [posix_make_lock] accepts only read, write and unlock requests, and the
    lock it builds covers the bytes asked for: from the resolved start, up to
    the last byte of the length or to the largest offset when the length is 0
    or runs over it; the result is a well-formed request of the caller. *)
Theorem posix_make_lock_correct current filp id l fl :
  t_files current <> 0 -> 0 <= i_size filp <= OFFSET_MAX ->
  - 2 ^ 31 <= l_len l < 2 ^ 31 ->
  posix_make_lock current filp id l = Some fl ->
  request_ok fl /\ fl_id fl = id /\ fl_type fl = l_type l
  /\ fl_owner fl = t_files current /\ fl_pid fl = t_pid current
  /\ fl_end fl = (if (0 <? l_len l) && (fl_start fl + l_len l - 1 <=? OFFSET_MAX)
                  then fl_start fl + l_len l - 1 else OFFSET_MAX).
Proof.
  intros Hfiles Hsize Hlen. unfold posix_make_lock.
  destruct (negb _) eqn:Et; [done|]. bool_hyps.
  intros (start & _ & H)%bind_Some. pose proof (s32_range (start + l_start l)) as Hs.
  set (st := s32 (start + l_start l)) in *. destruct ((st <? 0) || (l_len l <? 0)) eqn:Eb; [done|].
  bool_hyps. simplify_eq/=. unfold request_ok, span_ok, held_type, OFFSET_MAX in *. simpl.
  assert (s32 (st + l_len l - 1) = if st + l_len l - 1 <=? 2 ^ 31 - 1 then st + l_len l - 1
          else st + l_len l - 1 - 2 ^ 32) as ->.
  { unfold s32. case_match; [rewrite Z.mod_small by lia; lia|].
    rewrite <-(Z.mod_unique (st + l_len l - 1 + 2 ^ 31) (2 ^ 32) 1 (st + l_len l - 1 + 2 ^ 31 - 2 ^ 32)); lia. }
  split_and!; try done; repeat case_match; lia.
Qed.

(** C3: The list surgery of [posix_lock_file] refines the map from bytes to
    locks: for a request that does not reach the largest offset (or whose owner
    has no lock of its type), afterwards the owner holds exactly the requested
    type on the bytes of the request (nothing for an unlock), every other byte
    and every other owner is as before, and the list is again well-formed:
    FLOCK locks first, the locks of an owner together, disjoint and in
    order. *)
Theorem posix_apply_correct C l new1 new2 :
  locks_ok l -> request_ok C -> new1 ∉ ids l -> new2 ∉ ids l -> new1 <> new2 -> eof_safe C l ->
  locks_ok (posix_apply new1 new2 C l).1
  /\ forall o a t, holds (posix_apply new1 new2 C l).1 o a t <->
       if locks_same_owner C o && (fl_start C <=? a) && (a <=? fl_end C)
       then fl_type C <> F_UNLCK /\ t = fl_type C
       else holds l o a t.
Proof. intros. destruct (posix_apply_ok C l new1 new2) as (? & ? & _); try done. Qed.

(** [posix_test_lock] (F_GETLK) reports a lock exactly when a non-blocking
    request (F_SETLK) would be refused, and the lock it reports is the first
    one that refuses it, although the two call the check with its arguments
    swapped. *)
Theorem posix_test_lock_agrees C l :
  locks_ok l -> request_ok C -> held_type (fl_type C) -> posix_test_lock l C = posix_conflict C l.
Proof.
  intros (_ & Hok & _ & _) (_ & _ & HCf & _) Ht. unfold posix_test_lock, posix_conflict. f_equal.
  induction Hok as [|x l (_ & Hx & Hk) _ IH]; simpl; [done|].
  assert (flag x FL_POSIX && posix_locks_conflict x C = flag x FL_POSIX && posix_locks_conflict C x) as E.
  { destruct (flag x FL_POSIX) eqn:Ef; [|done]. simpl. unfold posix_locks_conflict. rewrite Ef.
    assert (flag C FL_POSIX = true) as -> by (unfold flag; by rewrite HCf).
    assert (locks_same_owner x C = locks_same_owner C x) as ->.
    { unfold locks_same_owner. by rewrite (Z.eqb_sym (fl_owner x)), (Z.eqb_sym (fl_pid x)). }
    simpl. destruct (locks_same_owner C x); [done|]. unfold locks_conflict, locks_overlap.
    rewrite (andb_comm (fl_start x <=? fl_end C)).
    destruct (negb _); [done|]. destruct Ht as [-> | ->], Hx as [-> | ->]; done. }
  rewrite E. case_match; [done|]. by rewrite IH.
Qed.

(** A request that reaches the largest offset is not merged with an adjacent
    or overlapping lock of the same owner and type, because [fl_end + 1] wraps
    around: the owner ends up with both locks. *)
Theorem posix_eof_not_merged C x new1 new2 :
  mine C x -> fl_type x = fl_type C -> held_type (fl_type C) -> span_ok C -> span_ok x ->
  fl_end C = OFFSET_MAX -> fl_start C <= fl_end x + 1 ->
  (posix_apply new1 new2 C [x]).1 = [locks_init_lock new1 C; x].
Proof.
  intros [Hf Ho] Hty Hh HC Hx He Hadj. unfold posix_apply. simpl. rewrite Hf, Ho. simpl.
  rewrite Ho, Hty, Z.eqb_refl, s32_pred by done. simpl.
  destruct (Z.ltb_spec (fl_end x) (fl_start C - 1)); [lia|]. rewrite He.
  change (s32 (OFFSET_MAX + 1)) with (- 2 ^ 31). destruct Hx as [? _].
  destruct (Z.ltb_spec (- 2 ^ 31) (fl_start x)); [|lia]. unfold finish_surgery. simpl.
  destruct (Z.eqb_spec (fl_type C) F_UNLCK) as [E|]; [by apply held_not_unlck in Hh|]. done.
Qed.

(** ** Witnesses *)

Definition ex_task : task_id := TaskId 7 100.
Definition ex_filp : lock_filp := LockFilp 5 1 1000 4096 3.

Lemma posix_make_lock_correct_witness :
  exists fl, posix_make_lock ex_task ex_filp 9 (Flock F_WRLCK 1 (-10) 20 0) = Some fl
    /\ fl_start fl = 990 /\ request_ok fl /\ fl_end fl = 1009.
Proof.
  eexists. split; [reflexivity|]. split; [reflexivity|].
  edestruct (posix_make_lock_correct ex_task ex_filp 9 (Flock F_WRLCK 1 (-10) 20 0))
    as (H & _ & _ & _ & _ & He); [done..|reflexivity|]. split; [exact H|exact He].
Defined.

(** Owner 7 has bytes 0-99 read-locked and 200-299 write-locked, owner 8 has
    120-129. *)
Definition ex_locks : list file_lock :=
  [FileLock 1 7 100 5 FL_POSIX F_RDLCK 0 99; FileLock 2 7 100 5 FL_POSIX F_WRLCK 200 299;
   FileLock 3 8 101 6 FL_POSIX F_RDLCK 120 129].

Definition ex_req : file_lock := FileLock 50 7 100 5 FL_POSIX F_WRLCK 40 59.

Lemma ex_req_ok : request_ok ex_req.
Proof. split_and!; try done. left. by right. Qed.

Lemma contiguous_three (P : file_lock -> Prop) x y z :
  (P x -> P z -> P y) -> (forall w, Decision (P w)) -> contiguous P [x; y; z].
Proof.
  intros Hb Hd. destruct (Hd x), (Hd y), (Hd z); try (exfalso; by auto).
  - exists [], [x; y; z], []. split_and!; repeat constructor; done.
  - exists [], [x; y], [z]. split_and!; repeat constructor; done.
  - exists [], [x], [y; z]. split_and!; repeat constructor; done.
  - exists [x], [y; z], []. split_and!; repeat constructor; done.
  - exists [x], [y], [z]. split_and!; repeat constructor; done.
  - exists [x; y], [z], []. split_and!; repeat constructor; done.
  - exists [x; y; z], [], []. split_and!; repeat constructor; done.
Qed.

Lemma ex_locks_ok : locks_ok ex_locks.
Proof.
  split_and!.
  - by_decide.
  - repeat (apply Forall_cons; split; [split_and!; try done; [by (left + right)|by left]|]). done.
  - exists [], ex_locks. by repeat constructor.
  - intros o. split.
    + apply contiguous_three; [|intros; apply _]. unfold mine. rewrite !same_owner_eq. simpl.
      intros [_ [? _]] [_ [? _]]. lia.
    + unfold ex_locks. rewrite !filter_cons. repeat case_decide; repeat constructor; try done.
      all: unfold mine in *; rewrite !same_owner_eq in *; simpl in *; lia.
Qed.

(** A write lock inside the read lock splits it. *)
Lemma posix_apply_correct_witness :
  (posix_apply 60 61 ex_req ex_locks).1
    = [FileLock 61 7 100 5 FL_POSIX F_RDLCK 0 39; FileLock 60 7 100 5 FL_POSIX F_WRLCK 40 59;
       FileLock 1 7 100 5 FL_POSIX F_RDLCK 60 99; FileLock 2 7 100 5 FL_POSIX F_WRLCK 200 299;
       FileLock 3 8 101 6 FL_POSIX F_RDLCK 120 129]
  /\ holds (posix_apply 60 61 ex_req ex_locks).1 ex_req 50 F_WRLCK.
Proof.
  split; [reflexivity|].
  apply (posix_apply_correct ex_req ex_locks 60 61 ex_locks_ok ex_req_ok).
  - by_decide.
  - by_decide.
  - done.
  - by left.
  - by vm_compute.
Defined.

Lemma posix_test_lock_agrees_witness :
  posix_test_lock ex_locks (FileLock 50 9 102 5 FL_POSIX F_WRLCK 40 150)
    = Some (FileLock 1 7 100 5 FL_POSIX F_RDLCK 0 99).
Proof.
  rewrite (posix_test_lock_agrees (FileLock 50 9 102 5 FL_POSIX F_WRLCK 40 150) ex_locks ex_locks_ok).
  - reflexivity.
  - split_and!; try done. left. by right.
  - by right.
Defined.

(** Bytes 0-99 are write-locked, then 50 to the end; unlocking 60-69 leaves them
    locked by the first lock. *)
Lemma posix_eof_not_merged_witness :
  let x := FileLock 1 7 100 5 FL_POSIX F_WRLCK 0 99 in
  let C := FileLock 50 7 100 5 FL_POSIX F_WRLCK 50 OFFSET_MAX in
  let U := FileLock 51 7 100 5 FL_POSIX F_UNLCK 60 69 in
  (posix_apply 60 61 C [x]).1 = [locks_init_lock 60 C; x]
  /\ holds (posix_apply 62 63 U (posix_apply 60 61 C [x]).1).1 U 65 F_WRLCK.
Proof.
  split; [apply posix_eof_not_merged; try done; by right|].
  exists (FileLock 1 7 100 5 FL_POSIX F_WRLCK 0 99). split_and!; try done. vm_compute. set_solver.
Defined.
