(* ===== verification/Locks.v ===== *)
(** * fs/locks.c: blocking, deadlock detection and the lock operations

    The state is the lock list of every inode, the global table of locks and,
    for every lock, the queue of the requests that wait for it (the circular
    list [fl_nextblock] of fs/locks.c).  An operation runs until it returns or
    sleeps: [LRet] carries the return value, [LSleep] the lock the process was
    queued on, [LSched] the lock whose waiters it lets run.  What happens after
    the process is scheduled again is an operation of its own. *)

From S2P Require Import Prelude PosixLock.

(** An entry of [file_lock_table]: the address of the lock and the fields that
    never change. *)
Record table_entry := TableEntry { te_id : Z; te_owner : Z; te_pid : Z }.

Record lock_state := LockState {
  i_flock : gmap Z (list file_lock);
  file_lock_table : list table_entry;
  blocked : gmap Z (list file_lock);
  woken : list Z;
}.

Inductive lock_result :=
| LRet (err : Z)
| LSleep (blocker : Z)
| LSched (blocker : Z).

Definition inode_locks (st : lock_state) (ino : Z) : list file_lock := default [] (i_flock st !! ino).

Definition block_queue (st : lock_state) (id : Z) : list file_lock := default [] (blocked st !! id).

Definition set_inode (st : lock_state) (ino : Z) (l : list file_lock) : lock_state :=
  LockState (<[ino := l]> (i_flock st)) (file_lock_table st) (blocked st) (woken st).

Definition set_queue (st : lock_state) (id : Z) (q : list file_lock) : lock_state :=
  LockState (i_flock st) (file_lock_table st) (<[id := q]> (blocked st)) (woken st).

Definition set_table (st : lock_state) (t : list table_entry) : lock_state :=
  LockState (i_flock st) t (blocked st) (woken st).

Definition wake (st : lock_state) (ids : list Z) : lock_state :=
  LockState (i_flock st) (file_lock_table st) (blocked st) (woken st ++ ids).

Definition without (id : Z) (l : list file_lock) : list file_lock :=
  filter (fun x => fl_id x <> id) l.

(** ** Block queues *)

Definition locks_insert_block (st : lock_state) (blocker : Z) (waiter : file_lock) : lock_state :=
  set_queue st blocker (block_queue st blocker ++ [waiter]).

Definition locks_delete_block (st : lock_state) (blocker : Z) (waiter : file_lock) : lock_state :=
  set_queue st blocker (without (fl_id waiter) (block_queue st blocker)).

(** [locks_wake_up_blocks(blocker, 0)] *)
Definition locks_wake_up_blocks (st : lock_state) (blocker : Z) : lock_state :=
  set_queue (wake st (fl_id <$> block_queue st blocker)) blocker [].

(** ** The global table *)

Definition table_insert (st : lock_state) (fl : file_lock) : lock_state :=
  set_table st (TableEntry (fl_id fl) (fl_owner fl) (fl_pid fl) :: file_lock_table st).

Definition table_delete (st : lock_state) (id : Z) : lock_state :=
  set_table st (filter (fun e => te_id e <> id) (file_lock_table st)).

(** What the list surgery does to the table and to sleeping processes; the list
    itself has been changed already. *)
Definition run_action (st : lock_state) (act : lock_action) : lock_state :=
  match act with
  | ActInsert fl => table_insert st fl
  | ActDelete id => locks_wake_up_blocks (table_delete st id) id
  | ActWake id => locks_wake_up_blocks st id
  end.

(** ** Deadlock detection *)

Definition same_task (o p o' p' : Z) : bool := (o =? o') && (p =? p').

(** The search over the table: the owner of the first lock that the task waits
    for. *)
Fixpoint find_blocker (st : lock_state) (t : list table_entry) (owner pid : Z) : option (Z * Z) :=
  match t with
  | [] => None
  | e :: t' =>
    if (te_owner e =? 0) then find_blocker st t' owner pid
    else if existsb (fun b => same_task (fl_owner b) (fl_pid b) owner pid) (block_queue st (te_id e))
    then Some (te_owner e, te_pid e)
    else find_blocker st t' owner pid
  end.

(** [next_task]; [None] when the fuel runs out. *)
Fixpoint deadlock_loop (fuel : nat) (st : lock_state) (co cp bo bp : Z) : option bool :=
  match fuel with
  | O => None
  | S fuel =>
    if same_task co cp bo bp then Some true
    else match find_blocker st (file_lock_table st) bo bp with
         | None => Some false
         | Some (o, p) => if same_task o p co cp then Some true else deadlock_loop fuel st co cp o p
         end
  end.

(** The number of requests that wait. *)
Definition waiters (st : lock_state) : nat :=
  sum_list ((fun e => length (block_queue st (te_id e))) <$> file_lock_table st).

Definition posix_locks_deadlock (st : lock_state) (caller_fl block_fl : file_lock) : option bool :=
  deadlock_loop (S (waiters st)) st (fl_owner caller_fl) (fl_pid caller_fl)
    (fl_owner block_fl) (fl_pid block_fl).

(** ** posix_lock_file *)

(** From [repeat]; [signal] is [signal_pending(current)].  [None] is a deadlock
    search that does not end. *)
Definition posix_lock_repeat (st : lock_state) (ino : Z) (caller : file_lock) (wait signal : bool)
    (new1 new2 : Z) : option (lock_state * lock_result) :=
  let l := inode_locks st ino in
  match (if fl_type caller =? F_UNLCK then None else posix_conflict caller l) with
  | Some fl =>
    if negb wait then Some (st, LRet (- EAGAIN))
    else
      d ← posix_locks_deadlock st caller fl;
      if (d : bool) then Some (st, LRet (- EDEADLK))
      else if (signal : bool) then Some (st, LRet (- ERESTARTSYS))
      else Some (locks_insert_block st (fl_id fl) caller, LSleep (fl_id fl))
  | None =>
    let '(l', acts) := posix_apply new1 new2 caller l in
    Some (foldl run_action (set_inode st ino l') acts, LRet 0)
  end.

(** [alloc] is the outcome of the two allocations. *)
Definition posix_lock_file (st : lock_state) (ino : Z) (caller : file_lock) (wait signal alloc : bool)
    (new1 new2 : Z) : option (lock_state * lock_result) :=
  if negb alloc then Some (st, LRet (- ENOLCK))
  else posix_lock_repeat st ino caller wait signal new1 new2.

(** The process sleeping on [blocker] runs again. *)
Definition posix_lock_resume (st : lock_state) (ino : Z) (caller : file_lock) (blocker : Z)
    (signal : bool) (new1 new2 : Z) : option (lock_state * lock_result) :=
  posix_lock_repeat (locks_delete_block st blocker caller) ino caller true signal new1 new2.

Definition posix_block_lock (st : lock_state) (blocker : Z) (waiter : file_lock) : lock_state :=
  locks_insert_block st blocker waiter.

(** ** flock_lock_file *)

(** The walk over the FLOCK locks at the head of the list for one of the same
    file: the locks before it and from it on. *)
Fixpoint flock_search (file : Z) (l : list file_lock) : option (list file_lock * file_lock * list file_lock) :=
  match l with
  | [] => None
  | fl :: l' =>
    if negb (flag fl FL_FLOCK) then None
    else if file =? fl_file fl then Some ([], fl, l')
    else '(a, x, b) ← flock_search file l'; Some (fl :: a, x, b)
  end.

Fixpoint flock_conflict (caller : file_lock) (l : list file_lock) : option file_lock :=
  match l with
  | [] => None
  | fl :: l' =>
    if negb (flag fl FL_FLOCK) then None
    else if flock_locks_conflict caller fl then Some fl else flock_conflict caller l'
  end.

(** From [repeat] *)
Definition flock_lock_repeat (st : lock_state) (ino : Z) (new_fl : file_lock) (wait signal : bool)
  : lock_state * lock_result :=
  if signal then (st, LRet (- ERESTARTSYS))
  else match flock_conflict new_fl (inode_locks st ino) with
       | Some fl =>
         if negb wait then (st, LRet (- EAGAIN))
         else (locks_insert_block st (fl_id fl) new_fl, LSleep (fl_id fl))
       | None => (table_insert (set_inode st ino (new_fl :: inode_locks st ino)) new_fl, LRet 0)
       end.

(** [search], with one round for every lock of the list: a round that goes back
    to [search] has deleted one. *)
Fixpoint flock_lock_search (fuel : nat) (st : lock_state) (ino : Z) (caller new_fl : file_lock)
    (wait signal : bool) : option (lock_state * lock_result) :=
  match fuel with
  | O => None
  | S fuel =>
    let unlock := fl_type caller =? F_UNLCK in
    match flock_search (fl_file caller) (inode_locks st ino) with
    | Some (a, fl, b) =>
      if fl_type caller =? fl_type fl then Some (st, LRet 0)
      else
        let st := table_delete (set_inode st ino (a ++ b)) (fl_id fl) in
        if unlock then Some (locks_wake_up_blocks st (fl_id fl), LRet 0)
        else match block_queue st (fl_id fl) with
             | [] => flock_lock_search fuel st ino caller new_fl wait signal
             | w :: _ => Some (wake st [fl_id w], LSched (fl_id fl))
             end
    | None =>
      if unlock then Some (st, LRet 0) else Some (flock_lock_repeat st ino new_fl wait signal)
    end
  end.

Definition flock_lock_file (st : lock_state) (ino : Z) (caller : file_lock) (wait signal alloc : bool)
    (new1 : Z) : option (lock_state * lock_result) :=
  if negb (fl_type caller =? F_UNLCK) && negb alloc then Some (st, LRet (- ENOLCK))
  else flock_lock_search (S (length (inode_locks st ino))) st ino caller (locks_init_lock new1 caller)
         wait signal.

(** The process in [locks_wake_up_blocks(blocker, 1)] runs again. *)
Definition flock_lock_sched (st : lock_state) (ino : Z) (caller new_fl : file_lock) (blocker : Z)
    (wait signal : bool) : option (lock_state * lock_result) :=
  match block_queue st blocker with
  | w :: _ => Some (wake st [fl_id w], LSched blocker)
  | [] => flock_lock_search (S (length (inode_locks st ino))) st ino caller new_fl wait signal
  end.

(** The process sleeping on [blocker] runs again. *)
Definition flock_lock_resume (st : lock_state) (ino : Z) (new_fl : file_lock) (blocker : Z)
    (wait signal : bool) : lock_state * lock_result :=
  flock_lock_repeat (locks_delete_block st blocker new_fl) ino new_fl wait signal.

(** ** System calls *)

Definition sys_flock (st : lock_state) (filp : option lock_filp) (id cmd : Z) (signal alloc : bool)
    (new1 : Z) : option (lock_state * lock_result) :=
  match filp with
  | None => Some (st, LRet (- EBADF))
  | Some f =>
    match flock_make_lock f id cmd with
    | None => Some (st, LRet (- EINVAL))
    | Some fl =>
      if negb (fl_type fl =? F_UNLCK) && (Z.land (f_mode f) 3 =? 0) then Some (st, LRet (- EBADF))
      else flock_lock_file st (f_ino f) fl (Z.land cmd (Z.lor LOCK_UN LOCK_NB) =? 0) signal alloc new1
    end
  end.

(** The copy to user space at the end of F_GETLK; [fault_out] when it fails. *)
Definition write_back (fault_out : bool) (old new : flock) : Z * flock :=
  if fault_out then (- EFAULT, old) else (0, new).

(** The answer of F_GETLK. *)
Definition flock_of (fl : option file_lock) (l : flock) : flock :=
  match fl with
  | Some fl => Flock (fl_type fl) 0 (fl_start fl)
                 (if fl_end fl =? OFFSET_MAX then 0 else fl_end fl - fl_start fl + 1) (fl_pid fl)
  | None => Flock F_UNLCK (l_whence l) (l_start l) (l_len l) (l_pid l)
  end.

Definition fcntl_getlk (st : lock_state) (current : task_id) (filp : option lock_filp)
    (f_op_lock : option (file_lock -> Z * file_lock)) (id : Z) (l : flock)
    (fault_in fault_out : bool) : Z * flock :=
  if fault_in then (- EFAULT, l)
  else if negb ((l_type l =? F_RDLCK) || (l_type l =? F_WRLCK)) then (- EINVAL, l)
  else match filp with
       | None => (- EBADF, l)
       | Some f =>
         match posix_make_lock current f id l with
         | None => (- EINVAL, l)
         | Some fl =>
           match f_op_lock with
           | Some lock => let '(error, fl) := lock fl in
                          if error <? 0 then (error, l)
                          else write_back fault_out l (flock_of (Some fl) l)
           | None => write_back fault_out l
                       (flock_of (posix_test_lock (inode_locks st (f_ino f)) fl) l)
           end
         end
       end.

Definition F_SETLKW : Z := 7.
Definition FMODE_READ : Z := 1.
Definition FMODE_WRITE : Z := 2.

(** [f_op_lock] is [f_op->lock] of the file, if there is one: the value it
    returns; [mand_shared]: the inode is a candidate for mandatory locking and has a
    shared mapping. *)
Definition fcntl_setlk (st : lock_state) (current : task_id) (filp : option lock_filp)
    (mand_shared : bool) (f_op_lock : option (file_lock -> Z)) (id cmd : Z) (l : flock)
    (fault signal alloc : bool) (new1 new2 : Z) : option (lock_state * lock_result) :=
  if fault then Some (st, LRet (- EFAULT))
  else match filp with
  | None => Some (st, LRet (- EBADF))
  | Some f =>
    if mand_shared then Some (st, LRet (- EAGAIN))
    else
      match posix_make_lock current f id l with
      | None => Some (st, LRet (- EINVAL))
      | Some fl =>
        if (l_type l =? F_RDLCK) && (Z.land (f_mode f) FMODE_READ =? 0) then Some (st, LRet (- EBADF))
        else if (l_type l =? F_WRLCK) && (Z.land (f_mode f) FMODE_WRITE =? 0)
        then Some (st, LRet (- EBADF))
        else
          let error := match f_op_lock with Some lock => lock fl | None => 0 end in
          if error <? 0 then Some (st, LRet error)
          else posix_lock_file st (f_ino f) fl (cmd =? F_SETLKW) signal alloc new1 new2
      end
  end.

(** ** Closing a file *)

Definition locks_delete_lock (st : lock_state) (ino : Z) (fl : file_lock) : lock_state :=
  locks_wake_up_blocks
    (table_delete (set_inode st ino (without (fl_id fl) (inode_locks st ino))) (fl_id fl)) (fl_id fl).

(** Deletes the locks that satisfy [P] one by one; [lock] is what [f_op->lock]
    does when it is told. *)
Fixpoint remove_loop (fuel : nat) (P : file_lock -> bool) (lock : lock_state -> file_lock -> lock_state)
    (st : lock_state) (ino : Z) : option lock_state :=
  match fuel with
  | O => None
  | S fuel =>
    match list_find (fun fl => P fl = true) (inode_locks st ino) with
    | None => Some st
    | Some (_, fl) => remove_loop fuel P lock (lock (locks_delete_lock st ino fl) fl) ino
    end
  end.

Definition locks_remove_posix (lock : lock_state -> file_lock -> lock_state) (st : lock_state)
    (ino owner : Z) : option lock_state :=
  remove_loop (S (length (inode_locks st ino)))
    (fun fl => flag fl FL_POSIX && (fl_owner fl =? owner)) lock st ino.

Definition locks_remove_flock (lock : lock_state -> file_lock -> lock_state) (st : lock_state)
    (ino file : Z) : option lock_state :=
  remove_loop (S (length (inode_locks st ino)))
    (fun fl => flag fl FL_FLOCK && (fl_file fl =? file)) lock st ino.

(** ** Mandatory locks *)

Definition S_ISGID : Z := 0x400.
Definition S_IXGRP : Z := 0x8.

Definition mandatory_candidate (mandlock : bool) (i_mode : Z) : bool :=
  mandlock && (Z.land i_mode (Z.lor S_ISGID S_IXGRP) =? S_ISGID).

Definition locks_mandatory_locked (st : lock_state) (ino owner : Z) : Z :=
  if existsb (fun fl => flag fl FL_POSIX && negb (fl_owner fl =? owner)) (inode_locks st ino)
  then - EAGAIN else 0.

Definition locks_verify_locked (st : lock_state) (mandlock : bool) (i_mode ino owner : Z) : Z :=
  if mandatory_candidate mandlock i_mode then locks_mandatory_locked st ino owner else 0.

(** The access as a lock. *)
Definition access_lock (current : task_id) (id file : Z) (write : bool) (offset count : Z) : file_lock :=
  FileLock id (t_files current) (t_pid current) file (Z.lor FL_POSIX FL_ACCESS)
    (if write then F_WRLCK else F_RDLCK) (s32 offset) (s32 (offset + count - 1)).

(** The first lock [fl] with [posix_locks_conflict(fl, &tfl)] *)
Definition area_conflict (l : list file_lock) (tfl : file_lock) : option file_lock :=
  snd <$> list_find (fun fl => flag fl FL_POSIX && posix_locks_conflict fl tfl = true) l.

Definition locks_mandatory_area (st : lock_state) (ino : Z) (tfl : file_lock) (nonblock signal : bool)
  : option (lock_state * lock_result) :=
  match area_conflict (inode_locks st ino) tfl with
  | None => Some (st, LRet 0)
  | Some fl =>
    if nonblock then Some (st, LRet (- EAGAIN))
    else if signal then Some (st, LRet (- ERESTARTSYS))
    else
      d ← posix_locks_deadlock st tfl fl;
      if (d : bool) then Some (st, LRet (- EDEADLK))
      else Some (locks_insert_block st (fl_id fl) tfl, LSleep (fl_id fl))
  end.

(** The process sleeping in [locks_mandatory_area] runs again. *)
Definition mandatory_area_resume (st : lock_state) (ino i_mode : Z) (tfl : file_lock) (blocker : Z)
    (nonblock signal : bool) : option (lock_state * lock_result) :=
  let st := locks_delete_block st blocker tfl in
  if signal then Some (st, LRet (- ERESTARTSYS))
  else if negb (Z.land i_mode (Z.lor S_ISGID S_IXGRP) =? S_ISGID) then Some (st, LRet 0)
  else locks_mandatory_area st ino tfl nonblock signal.

Definition locks_verify_area (st : lock_state) (mandlock : bool) (i_mode ino : Z) (tfl : file_lock)
    (nonblock signal : bool) : option (lock_state * lock_result) :=
  if mandatory_candidate mandlock i_mode then locks_mandatory_area st ino tfl nonblock signal
  else Some (st, LRet 0).

(** ** The waits-for graph *)

Abbreviation task := (Z * Z)%type.

Definition task_of (fl : file_lock) : task := (fl_owner fl, fl_pid fl).

(** Task [a] waits for a lock of task [b]. *)
Definition edges_of (st : lock_state) (e : table_entry) : list (task * task) :=
  if te_owner e =? 0 then []
  else (fun b => (task_of b, (te_owner e, te_pid e))) <$> block_queue st (te_id e).

Definition edges (st : lock_state) : list (task * task) :=
  concat (edges_of st <$> file_lock_table st).

Definition waits (E : list (task * task)) (a b : task) : Prop := (a, b) ∈ E.

(** A task waits for the locks of at most one task, and no task waits for
    itself, directly or through others. *)
Definition graph_ok (E : list (task * task)) : Prop :=
  (forall a b c, waits E a b -> waits E a c -> b = c) /\ forall a, ~ tc (waits E) a a.

(** The first edge of a task *)
Definition next_task (E : list (task * task)) (a : task) : option task :=
  (fun x => x.2.2) <$> list_find (fun x => x.1 = a) E.

(** The loop of [posix_locks_deadlock] on the graph. *)
Fixpoint chase (fuel : nat) (E : list (task * task)) (caller a : task) : option bool :=
  match fuel with
  | O => None
  | S fuel =>
    if decide (caller = a) then Some true
    else match next_task E a with
         | None => Some false
         | Some b => if decide (b = caller) then Some true else chase fuel E caller b
         end
  end.

Lemma same_task_eq o p o' p' : same_task o p o' p' = bool_decide ((o, p) = (o', p')).
Proof.
  unfold same_task. destruct (Z.eqb_spec o o'), (Z.eqb_spec p p'); simpl; symmetry;
    (apply bool_decide_eq_true_2 || apply bool_decide_eq_false_2); congruence.
Qed.

Lemma next_task_app E1 E2 a :
  next_task (E1 ++ E2) a = match next_task E1 a with Some b => Some b | None => next_task E2 a end.
Proof.
  unfold next_task. induction E1 as [|[x y] E1 IH]; simpl; [done|].
  case_decide; [done|]. destruct (list_find _ (E1 ++ E2)), (list_find _ E1); simpl in *; done.
Qed.

Lemma find_blocker_next st t o p :
  find_blocker st t o p = next_task (concat (edges_of st <$> t)) (o, p).
Proof.
  induction t as [|e t IH]; simpl; [done|]. rewrite next_task_app. unfold edges_of at 1.
  destruct (te_owner e =? 0); [done|]. rewrite IH.
  assert (next_task ((fun b => (task_of b, (te_owner e, te_pid e))) <$> block_queue st (te_id e)) (o, p)
    = if existsb (fun b => same_task (fl_owner b) (fl_pid b) o p) (block_queue st (te_id e))
      then Some (te_owner e, te_pid e) else None) as ->; [|by case_match].
  unfold next_task. induction (block_queue st (te_id e)) as [|b q IHq]; simpl; [done|].
  rewrite same_task_eq. unfold task_of at 1. case_decide as E.
  - rewrite bool_decide_eq_true_2 by done. done.
  - rewrite bool_decide_eq_false_2 by done. simpl.
    destruct (list_find _ _); simpl in *; rewrite <-IHq; done.
Qed.

Lemma deadlock_loop_chase fuel st co cp bo bp :
  deadlock_loop fuel st co cp bo bp = chase fuel (edges st) (co, cp) (bo, bp).
Proof.
  revert bo bp. induction fuel as [|fuel IH]; intros bo bp; simpl; [done|].
  rewrite same_task_eq, find_blocker_next. fold (edges st).
  case_decide as E; [by rewrite bool_decide_eq_true_2|]. rewrite bool_decide_eq_false_2 by done.
  destruct (next_task (edges st) (bo, bp)) as [[o p]|]; [|done]. rewrite same_task_eq, IH.
  case_decide as E'; [by rewrite bool_decide_eq_true_2|]. by rewrite bool_decide_eq_false_2.
Qed.

Lemma next_task_some E a b : next_task E a = Some b -> waits E a b.
Proof.
  unfold next_task, waits. intros ([i [x y]] & E1 & E2)%fmap_Some.
  apply list_find_Some in E1 as (E1 & Hx & _). simpl in *. subst. by eapply list_elem_of_lookup_2.
Qed.

Lemma next_task_none E a b : next_task E a = None -> ~ waits E a b.
Proof.
  unfold next_task, waits. intros H Hin. apply fmap_None, list_find_None in H.
  rewrite Forall_forall in H. by apply (H (a, b)).
Qed.

Lemma waits_tc_subset (E E' : list (task * task)) a b :
  (forall x, x ∈ E' -> x ∈ E) -> tc (waits E') a b -> tc (waits E) a b.
Proof.
  intros Hs H. induction H as [a b H|a b c H _ IH]; [by apply tc_once, Hs|].
  eapply tc_l; [by apply Hs|done].
Qed.

Lemma graph_ok_subset (E E' : list (task * task)) :
  (forall x, x ∈ E' -> x ∈ E) -> graph_ok E -> graph_ok E'.
Proof.
  intros Hs [Hf Ha]. split.
  - intros a b c H1 H2. apply (Hf a); by apply Hs.
  - intros a H. apply (Ha a). by eapply waits_tc_subset.
Qed.

(** The search never comes back to a task it has left. *)
Lemma chase_restrict k E c a b :
  ~ rtc (waits E) b a ->
  chase k E c b = chase k (filter (fun e => e.1 <> a) E) c b.
Proof.
  revert b. induction k as [|k IH]; intros b Hb; simpl; [done|]. case_decide; [done|].
  assert (next_task E b = next_task (filter (fun e => e.1 <> a) E) b) as <-.
  { assert (b <> a) as Hba by (intros ->; apply Hb; reflexivity). clear -Hba. unfold next_task.
    induction E as [|[x y] E IH]; simpl; [done|]. rewrite filter_cons. simpl.
    case_decide as Hx; [subst x; rewrite decide_True by done; simpl; by rewrite decide_True|].
    case_decide; simpl; [rewrite decide_False by done|];
      destruct (list_find _ E), (list_find _ (filter _ E)); simpl in *; done. }
  destruct (next_task E b) as [b'|] eqn:Eb; [|done]. case_decide; [done|]. apply IH.
  intros Hr. apply Hb. eapply rtc_l; [|exact Hr]. by apply next_task_some.
Qed.

Lemma chase_total n E c a : (length E <= n)%nat -> graph_ok E -> chase (S n) E c a <> None.
Proof.
  revert E a. induction n as [|n IH]; intros E a Hlen Hok.
  - destruct E; [|simpl in Hlen; lia]. simpl. by case_decide.
  - cbn [chase]. case_decide; [done|]. destruct (next_task E a) as [b|] eqn:Eb; [|done].
    case_decide; [done|]. apply next_task_some in Eb. destruct Hok as [Hf Ha].
    assert (~ rtc (waits E) b a) as Hr.
    { intros Hr. apply (Ha a). by eapply tc_rtc_r; [apply tc_once|]. }
    change (chase (S n) E c b <> None). rewrite (chase_restrict _ E c a b Hr). apply IH.
    + assert (length (filter (fun e => e.1 <> a) E) < length E)%nat; [|lia].
      clear -Eb. unfold waits in Eb. induction E as [|x E IH]; [by apply elem_of_nil in Eb|].
      rewrite filter_cons. pose proof (length_filter (fun e : task * task => e.1 <> a) E).
      apply elem_of_cons in Eb as [<-|Eb]; [rewrite decide_False by naive_solver; simpl; lia|].
      case_decide; simpl; [specialize (IH Eb)|]; lia.
    + apply (graph_ok_subset E); [|by split]. intros x. rewrite list_elem_of_filter. tauto.
Qed.

Lemma chase_exact k E c a r :
  graph_ok E -> chase k E c a = Some r -> r = true <-> c = a \/ tc (waits E) a c.
Proof.
  intros [Hf Ha]. revert a. induction k as [|k IH]; intros a; simpl; [done|].
  case_decide as Eca; [intros [= <-]; naive_solver|].
  destruct (next_task E a) as [b|] eqn:Eb.
  - apply next_task_some in Eb as Hab. case_decide as Ebc.
    + intros [= <-]. subst. split; [|done]. intros _. right. by apply tc_once.
    + intros H%IH. rewrite H. split.
      * intros [->|Ht]; [right; by apply tc_once|right]. by eapply tc_l.
      * intros [?|Ht]; [done|]. right. destruct Ht as [x y Hxy|x y z Hxy Ht].
        -- by destruct Ebc; apply (Hf x).
        -- by rewrite (Hf x b y).
  - intros [= <-]. split; [done|]. intros [?|Ht]; [done|].
    destruct Ht as [x y Hxy|x y z Hxy Ht]; by eapply next_task_none in Eb.
Qed.

Lemma edges_length st : (length (edges st) <= waiters st)%nat.
Proof.
  unfold edges, waiters. induction (file_lock_table st) as [|e t IH]; [done|]. csimpl.
  rewrite length_app. unfold edges_of at 1. case_match; [|rewrite length_fmap]; simpl length; lia.
Qed.

Lemma deadlock_ok st C fl :
  graph_ok (edges st) ->
  exists r, posix_locks_deadlock st C fl = Some r
    /\ (r = true <-> task_of C = task_of fl \/ tc (waits (edges st)) (task_of fl) (task_of C)).
Proof.
  intros Hok. unfold posix_locks_deadlock. rewrite deadlock_loop_chase.
  destruct (chase _ _ _ _) as [r|] eqn:E.
  - exists r. split; [done|]. by apply chase_exact in E.
  - exfalso. revert E. apply chase_total; [apply edges_length|done].
Qed.

(** ** The invariant of the state *)

(** Two owners have a byte locked only for reading. *)
Definition conflict_free (l : list file_lock) : Prop :=
  forall o o' a t t', holds l o a t -> holds l o' a t' -> locks_same_owner o o' = false ->
    t = F_RDLCK /\ t' = F_RDLCK.

Definition is_flock (x : file_lock) : Prop := flag x FL_FLOCK = true.

(** Two files have FLOCK locks only if both are shared. *)
Definition flocks_ok (l : list file_lock) : Prop :=
  forall x y, x ∈ l -> y ∈ l -> is_flock x -> is_flock y -> fl_file x <> fl_file y ->
    fl_type x = F_RDLCK /\ fl_type y = F_RDLCK.

Record state_ok (st : lock_state) : Prop := StateOk {
  so_locks : forall ino, locks_ok (inode_locks st ino);
  so_posix : forall ino, conflict_free (inode_locks st ino);
  so_flock : forall ino, flocks_ok (inode_locks st ino);
  so_ids : forall ino ino' i, i ∈ ids (inode_locks st ino) -> i ∈ ids (inode_locks st ino') -> ino = ino';
  so_table : forall i, i ∈ te_id <$> file_lock_table st <-> exists ino, i ∈ ids (inode_locks st ino);
  so_nodup : NoDup (te_id <$> file_lock_table st);
  so_tasks : forall e ino x, e ∈ file_lock_table st -> x ∈ inode_locks st ino -> fl_id x = te_id e ->
    (te_owner e, te_pid e) = task_of x;
  so_graph : graph_ok (edges st);
}.

Definition fresh (st : lock_state) (id : Z) : Prop :=
  (forall ino, id ∉ ids (inode_locks st ino)) /\ block_queue st id = [].

Lemma inode_locks_set st ino l ino' :
  inode_locks (set_inode st ino l) ino' = if decide (ino' = ino) then l else inode_locks st ino'.
Proof.
  unfold inode_locks, set_inode. simpl. case_decide as E.
  - subst. by rewrite lookup_insert_eq.
  - by rewrite lookup_insert_ne.
Qed.

Lemma block_queue_set st id q id' :
  block_queue (set_queue st id q) id' = if decide (id' = id) then q else block_queue st id'.
Proof.
  unfold block_queue, set_queue. simpl. case_decide as E.
  - subst. by rewrite lookup_insert_eq.
  - by rewrite lookup_insert_ne.
Qed.

Lemma elem_of_edges st a b :
  (a, b) ∈ edges st <->
  exists e w, e ∈ file_lock_table st /\ te_owner e <> 0 /\ w ∈ block_queue st (te_id e)
    /\ a = task_of w /\ b = (te_owner e, te_pid e).
Proof.
  unfold edges. rewrite list_elem_of_In, in_concat. setoid_rewrite <-list_elem_of_In. split.
  - intros (es & (e & -> & He)%list_elem_of_fmap & Hab). unfold edges_of in Hab.
    destruct (Z.eqb_spec (te_owner e) 0); [by apply elem_of_nil in Hab|].
    apply list_elem_of_fmap in Hab as (w & [= -> ->] & Hw). by exists e, w.
  - intros (e & w & He & Ho & Hw & -> & ->). exists (edges_of st e). split; [by apply list_elem_of_fmap_2|].
    unfold edges_of. destruct (Z.eqb_spec (te_owner e) 0); [done|].
    apply list_elem_of_fmap. by exists w.
Qed.

(** *** Running the actions *)

Lemma run_action_inodes st a : i_flock (run_action st a) = i_flock st.
Proof. by destruct a. Qed.

Lemma run_actions_inodes acts st ino :
  inode_locks (foldl run_action st acts) ino = inode_locks st ino.
Proof.
  revert st. induction acts as [|a acts IH]; intros st; simpl; [done|]. rewrite IH.
  unfold inode_locks. by rewrite run_action_inodes.
Qed.

Lemma wake_up_queue st i j :
  block_queue (locks_wake_up_blocks st i) j = block_queue st j \/ block_queue (locks_wake_up_blocks st i) j = [].
Proof. unfold locks_wake_up_blocks. rewrite block_queue_set. case_decide; [by right|by left]. Qed.

Lemma run_actions_queue acts st i :
  block_queue (foldl run_action st acts) i = block_queue st i
  \/ block_queue (foldl run_action st acts) i = [].
Proof.
  revert st. induction acts as [|a acts IH]; intros st; simpl; [by left|].
  destruct (IH (run_action st a)) as [->| ->]; [|by right].
  destruct a as [fl|j|j]; simpl; [by left|apply (wake_up_queue (table_delete st j))|apply wake_up_queue].
Qed.

Lemma run_actions_table acts st e :
  (forall i, i ∈ deleted acts -> i ∉ ids (inserted acts)) ->
  e ∈ file_lock_table (foldl run_action st acts) <->
  (e ∈ file_lock_table st \/
   exists fl, fl ∈ inserted acts /\ e = TableEntry (fl_id fl) (fl_owner fl) (fl_pid fl))
  /\ te_id e ∉ deleted acts.
Proof.
  revert st. induction acts as [|a acts IH]; intros st Hd.
  - simpl. split; [intros; split; [by left|by apply not_elem_of_nil]|].
    intros [[?|(fl & Hf & _)] _]; [done|by apply elem_of_nil in Hf].
  - cbn [foldl]. destruct a as [fl|j|j].
    + rewrite IH; [|intros i Hi Hx; apply (Hd i Hi); by right]. simpl. unfold deleted. simpl.
      fold (deleted acts). rewrite elem_of_cons. unfold inserted. simpl. fold (inserted acts).
      setoid_rewrite elem_of_cons. naive_solver.
    + assert (forall i, i ∈ deleted acts -> i ∉ ids (inserted acts)) as Hd'
        by (intros i Hi; apply Hd; by right).
      rewrite IH by done. simpl. rewrite list_elem_of_filter. unfold deleted at 2. simpl.
      fold (deleted acts). rewrite not_elem_of_cons. unfold inserted. simpl. fold (inserted acts).
      assert (j ∉ ids (inserted acts)) as Hj by (apply Hd; by left).
      split; [|naive_solver]. intros [[[? ?]|(fl & Hf & ->)] ?]; [naive_solver|].
      split; [right; by eauto|]. split; [|done]. intros <-. apply Hj.
      simpl. by apply list_elem_of_fmap_2.
    + rewrite IH by done. done.
Qed.

Lemma run_actions_nodup acts st :
  NoDup (te_id <$> file_lock_table st) -> NoDup (ids (inserted acts)) ->
  (forall i, i ∈ ids (inserted acts) -> i ∉ te_id <$> file_lock_table st) ->
  NoDup (te_id <$> file_lock_table (foldl run_action st acts)).
Proof.
  revert st. induction acts as [|a acts IH]; intros st Hnd Hins Hfr; [done|]. cbn [foldl].
  destruct a as [fl|j|j]; [| |by apply IH].
  - unfold inserted in *. simpl in *. fold (inserted acts) in *. apply NoDup_cons in Hins as [Hn Hins].
    apply IH; [|done|].
    + simpl. apply NoDup_cons. split; [|done]. apply Hfr. by left.
    + intros i Hi. simpl. rewrite not_elem_of_cons. split; [by intros ->|]. apply Hfr. by right.
  - apply IH; [|done|].
    + by apply NoDup_fmap_filter.
    + intros i Hi (e & -> & [_ He]%list_elem_of_filter)%list_elem_of_fmap.
      apply (Hfr _ Hi). by apply list_elem_of_fmap_2.
Qed.

(** *** A request that is granted *)

Lemma holds_iff_elem l o a t :
  holds l o a t <-> exists x, x ∈ l /\ mine o x /\ fl_start x <= a <= fl_end x /\ fl_type x = t.
Proof. unfold holds, mine. naive_solver. Qed.

(** No lock of another owner refuses the request. *)
Lemma no_conflict C l :
  posix_conflict C l = None ->
  forall x, x ∈ l -> flag x FL_POSIX = true -> posix_locks_conflict C x = false.
Proof.
  unfold posix_conflict. intros H%fmap_None%list_find_None x Hx Hf. rewrite Forall_forall in H.
  specialize (H x Hx). rewrite Hf in H. by destruct (posix_locks_conflict C x).
Qed.

Lemma conflict_free_effect C l l' :
  conflict_free l -> span_ok C -> held_type (fl_type C) \/ fl_type C = F_UNLCK ->
  (forall x, x ∈ l -> held_type (fl_type x)) ->
  (fl_type C <> F_UNLCK -> posix_conflict C l = None) -> request_effect C l l' -> conflict_free l'.
Proof.
  intros Hcf HC Ht Hh Hno Heff o o' a t t' H1 H2 Ho.
  assert (forall p q u v, holds l' p a u -> locks_same_owner C p && (fl_start C <=? a) && (a <=? fl_end C) = true ->
    holds l q a v -> locks_same_owner C q = false -> u = F_RDLCK /\ v = F_RDLCK) as Hmix.
  { intros p q u v Hp Hpb Hq Hqo. apply Heff in Hp. rewrite Hpb in Hp. destruct Hp as [Hnu ->].
    apply holds_iff_elem in Hq as (x & Hx & [Hf Hs] & Ha & <-).
    pose proof (no_conflict C l (Hno Hnu) x Hx Hf) as Hc. unfold posix_locks_conflict in Hc.
    rewrite Hf in Hc. apply same_owner_eq in Hs.
    assert (locks_same_owner C x = false) as Hsx.
    { unfold locks_same_owner in *. destruct Hs as [<- <-]. done. }
    rewrite Hsx in Hc. simpl in Hc. unfold locks_conflict in Hc.
    assert (locks_overlap C x = true) as Hov by (unfold locks_overlap; bool_hyps; lia).
    rewrite Hov in Hc. simpl in Hc. destruct Ht as [[E|E]|?]; [| |done]; rewrite E in *; simpl in Hc.
    - destruct (Hh x Hx) as [->|E']; [done|]. by rewrite E' in Hc.
    - done. }
  pose proof (proj1 (Heff o a t) H1) as H1'. pose proof (proj1 (Heff o' a t') H2) as H2'.
  destruct (locks_same_owner C o && (fl_start C <=? a) && (a <=? fl_end C)) eqn:E1,
    (locks_same_owner C o' && (fl_start C <=? a) && (a <=? fl_end C)) eqn:E2.
  - exfalso. bool_hyps. rewrite same_owner_eq in *.
    assert (locks_same_owner o o' = true) by (apply same_owner_eq; split; destruct_and!; congruence). congruence.
  - apply (Hmix o o'); try done. bool_hyps.
    destruct (locks_same_owner C o') eqn:E3; [|done]. simpl in E2. rewrite andb_false_iff in E2. lia.
  - apply and_comm. apply (Hmix o' o); try done.
    destruct (locks_same_owner C o) eqn:E3; [|done]. simpl in *. bool_hyps. rewrite andb_false_iff in E1. lia.
  - by apply (Hcf o o' a).
Qed.

Lemma edges_subset st st' :
  (forall e, e ∈ file_lock_table st' -> e ∈ file_lock_table st \/ block_queue st (te_id e) = []) ->
  (forall i, block_queue st' i = block_queue st i \/ block_queue st' i = []) ->
  graph_ok (edges st) -> graph_ok (edges st').
Proof.
  intros Ht Hq. apply graph_ok_subset. intros [a b]. rewrite !elem_of_edges.
  intros (e & w & He & Ho & Hw & -> & ->).
  destruct (Hq (te_id e)) as [E|E]; rewrite E in Hw; [|by apply elem_of_nil in Hw].
  destruct (Ht e He) as [He'|En]; [|rewrite En in Hw; by apply elem_of_nil in Hw]. by exists e, w.
Qed.

Lemma posix_grant_ok st ino C new1 new2 l' acts :
  state_ok st -> request_ok C -> fresh st new1 -> fresh st new2 -> new1 <> new2 ->
  eof_safe C (inode_locks st ino) ->
  (fl_type C <> F_UNLCK -> posix_conflict C (inode_locks st ino) = None) ->
  posix_apply new1 new2 C (inode_locks st ino) = (l', acts) ->
  state_ok (foldl run_action (set_inode st ino l') acts)
  /\ request_effect C (inode_locks st ino) l'.
Proof.
  intros Hst HC [Hf1 Hq1] [Hf2 Hq2] Hn Heof Hno Eap. pose proof (so_locks _ Hst ino) as Hl.
  destruct (posix_apply_ok C (inode_locks st ino) new1 new2 Hl HC (Hf1 ino) (Hf2 ino) Hn Heof)
    as (Hl' & Heff & Htask & Hflock). rewrite Eap in Hl', Heff, Htask, Hflock. simpl in *.
  split; [|done]. destruct (posix_apply_acts _ _ _ _ _ _ Eap) as (Hids & Hdel & Hins & Hnew).
  set (st' := foldl _ _ _).
  assert (forall k, inode_locks st' k = if decide (k = ino) then l' else inode_locks st k) as Hil.
  { intros k. unfold st'. by rewrite run_actions_inodes, inode_locks_set. }
  assert (forall i, i ∈ ids (inserted acts) -> i = new1 \/ i = new2) as Hinew.
  { intros i. destruct Hnew as [->|[->|[->| ->]]]; rewrite ?elem_of_cons, ?elem_of_nil; tauto. }
  assert (forall i, i ∈ ids (inserted acts) -> fresh st i) as Hifr.
  { intros i Hi. destruct (Hinew i Hi) as [->| ->]; by split. }
  assert (NoDup (ids (inserted acts))) as Hind.
  { destruct Hnew as [->|[->|[->| ->]]]; repeat constructor; rewrite ?elem_of_cons, ?elem_of_nil; naive_solver. }
  assert (NoDup (ids l' ++ deleted acts)) as Hnd.
  { rewrite Hids. apply NoDup_app. split_and!; [apply Hl| |done]. intros i Hi Hx. by apply Hifr in Hx as [Hx _]; apply (Hx ino). }
  assert (forall i, i ∈ ids l' <-> (i ∈ ids (inode_locks st ino) /\ i ∉ deleted acts) \/ i ∈ ids (inserted acts)) as Hmem.
  { intros i. apply NoDup_app in Hnd as (_ & Hdis & _).
    assert (i ∈ ids l' ++ deleted acts <-> i ∈ ids (inode_locks st ino) ++ ids (inserted acts)) as Hi by (by rewrite Hids).
    rewrite !elem_of_app in Hi. pose proof (Hdis i). pose proof (Hdel i).
    assert (i ∈ ids (inserted acts) -> i ∉ ids (inode_locks st ino)) by (intros Hx; apply (Hifr i Hx)).
    destruct (decide (i ∈ deleted acts)); tauto. }
  assert (forall i, i ∈ deleted acts -> i ∉ ids (inserted acts)) as Hdi.
  { intros i Hi Hx. apply Hdel in Hi. by apply (Hifr i Hx) in Hi. }
  pose proof (fun e => run_actions_table acts (set_inode st ino l') e Hdi) as Htab.
  fold st' in Htab. simpl in Htab. constructor.
  - intros k. rewrite Hil. case_decide; [done|apply Hst].
  - intros k. rewrite Hil. case_decide; [|apply Hst]. destruct HC as (? & ? & _).
    eapply conflict_free_effect; try done; [apply Hst|]. destruct Hl as (_ & Hok & _).
    rewrite Forall_forall in Hok. intros x Hx. by apply Hok.
  - intros k. rewrite Hil. case_decide; [|apply Hst]. intros x y Hx Hy Hxf Hyf.
    apply (so_flock _ Hst ino); try done; by apply Hflock.
  - intros k k' i. rewrite !Hil.
    assert (forall k, i ∈ ids l' -> i ∈ ids (inode_locks st k) -> k = ino) as Hone.
    { intros k0 Hi Hk. apply Hmem in Hi as [[Hi _]|Hi]; [by apply (so_ids _ Hst k0 ino i)|].
      by apply (Hifr i Hi) in Hk. }
    repeat case_decide; subst; try done; [intros; symmetry; eauto|eauto|apply Hst].
  - intros i. rewrite list_elem_of_fmap. setoid_rewrite Htab. setoid_rewrite Hil. split.
    + intros (e & -> & [He|(fl & Hfl & ->)] & Hnd').
      * assert (te_id e ∈ te_id <$> file_lock_table st) as (k & Hk)%(so_table _ Hst)
          by (by apply list_elem_of_fmap_2).
        exists k. case_decide; [|done]. subst. apply Hmem. by left.
      * exists ino. rewrite decide_True by done. apply Hmem. right. simpl. by apply list_elem_of_fmap_2.
    + intros [k Hk]. assert ((exists j, i ∈ ids (inode_locks st j) /\ i ∉ deleted acts) \/ i ∈ ids (inserted acts)) as [(j & Hj & Hnj)|Hi].
      { case_decide; [subst; apply Hmem in Hk; naive_solver|]. left. exists k. split; [done|].
        intros Hx%Hdel. by apply (so_ids _ Hst k ino i) in Hx. }
      * assert (i ∈ te_id <$> file_lock_table st) as (e & -> & He)%list_elem_of_fmap
          by (apply (so_table _ Hst); eauto). exists e. eauto.
      * apply list_elem_of_fmap in Hi as (fl & -> & Hfl). eexists (TableEntry (fl_id fl) _ _).
        split; [done|]. split; [right; by eauto|]. simpl. intros Hx. apply (Hdi _ Hx).
        by apply list_elem_of_fmap_2.
  - apply run_actions_nodup; [apply Hst|done|]. intros i Hi Hx. apply (so_table _ Hst) in Hx as [k Hk].
    by apply (Hifr i Hi) in Hk.
  - intros e k x He Hx Hid. apply Htab in He as [He Hnd']. rewrite Hil in Hx. unfold task_of.
    assert (forall y k', y ∈ inode_locks st k' -> fl_id y = te_id e -> e ∈ file_lock_table st ->
      (te_owner e, te_pid e) = (fl_owner y, fl_pid y)) as Hold.
    { intros y k' Hy Hye Het. by apply (so_tasks _ Hst e k'). }
    destruct He as [He|(fl & Hfl & ->)].
    + case_decide; [|by eapply Hold]. destruct (Htask x Hx) as [(y & Hy & Hyi & Hyo & Hyp)|(_ & Hxi)].
      * rewrite <-Hyo, <-Hyp. eapply Hold; [done|congruence|done].
      * exfalso. assert (te_id e ∈ te_id <$> file_lock_table st) as (j & Hj)%(so_table _ Hst)
          by (by apply list_elem_of_fmap_2). rewrite <-Hid in Hj. destruct Hxi as [E|E]; rewrite E in Hj;
          [by apply (Hf1 j)|by apply (Hf2 j)].
    + simpl in *. rewrite Forall_forall in Hins. destruct (Hins fl Hfl) as [Hfo Hfp].
      assert (fresh st (fl_id x)) as Hfx.
      { rewrite Hid. apply Hifr. by apply list_elem_of_fmap_2. }
      case_decide; [|exfalso; apply (proj1 Hfx k); by apply list_elem_of_fmap_2].
      destruct (Htask x Hx) as [(y & Hy & Hyi & _)|([Hxo Hxp] & _)]; [|congruence].
      exfalso. apply (proj1 Hfx ino). rewrite <-Hyi. by apply list_elem_of_fmap_2.
  - apply (edges_subset st); [| |apply Hst].
    + intros e [[He|(fl & Hfl & ->)] _]%Htab; [by left|right]. simpl. apply Hifr.
      by apply list_elem_of_fmap_2.
    + intros i. apply (run_actions_queue acts (set_inode st ino l')).
Qed.

(** *** A request that sleeps *)

Definition idle (st : lock_state) (t : task) : Prop := forall b, ~ waits (edges st) t b.

Lemma tc_add_edge (E E' : list (task * task)) c f a b :
  (forall x y, waits E' x y -> waits E x y \/ (x = c /\ y = f)) ->
  tc (waits E') a b -> tc (waits E) a b \/ (rtc (waits E) a c /\ rtc (waits E) f b).
Proof.
  intros HE H. induction H as [a b H|a b d H _ IH].
  - destruct (HE _ _ H) as [|[-> ->]]; [left; by apply tc_once|right; by split].
  - destruct (HE _ _ H) as [Hab|[-> ->]].
    + destruct IH as [IH|[IH1 IH2]]; [left; by eapply tc_l|right; split; [by eapply rtc_l|done]].
    + right. split; [done|]. destruct IH as [IH|[_ IH2]]; [by apply tc_rtc|done].
Qed.

Lemma graph_add_edge (E E' : list (task * task)) c f :
  graph_ok E -> (forall b, ~ waits E c b) -> c <> f -> ~ tc (waits E) f c ->
  (forall x y, waits E' x y -> waits E x y \/ (x = c /\ y = f)) -> graph_ok E'.
Proof.
  intros [Hf Ha] Hc Hne Hfc HE. split.
  - intros a b d H1 H2. destruct (HE _ _ H1) as [H1'|[-> ->]], (HE _ _ H2) as [H2'|[? ->]]; subst; try done.
    + by apply (Hf a).
    + by apply Hc in H1'.
    + by apply Hc in H2'.
  - intros a [H|[H1 H2]]%(tc_add_edge E E' c f); [by apply (Ha a)| |done].
    assert (rtc (waits E) f c) as [Hx|Hx]%rtc_tc by (by etrans); congruence.
Qed.

(** A state that differs only in block queues. *)
Lemma state_ok_queues st st' :
  i_flock st' = i_flock st -> file_lock_table st' = file_lock_table st ->
  graph_ok (edges st') -> state_ok st -> state_ok st'.
Proof.
  intros Hi Ht Hg Hst. assert (forall k, inode_locks st' k = inode_locks st k) as Hil.
  { intros k. unfold inode_locks. by rewrite Hi. }
  constructor; intros *; rewrite ?Ht, ?Hil; try apply Hst; try done.
  setoid_rewrite Hil. apply Hst.
Qed.

Lemma insert_block_edges st b w x y :
  waits (edges (locks_insert_block st b w)) x y ->
  waits (edges st) x y \/
  (x = task_of w /\ exists e, e ∈ file_lock_table st /\ te_id e = b /\ te_owner e <> 0
                             /\ y = (te_owner e, te_pid e)).
Proof.
  unfold waits. rewrite !elem_of_edges. intros (e & v & He & Ho & Hv & -> & ->). simpl in He.
  unfold locks_insert_block in Hv. rewrite block_queue_set in Hv. case_decide as E.
  - apply elem_of_app in Hv as [Hv| ->%list_elem_of_singleton].
    + left. exists e, v. by rewrite E.
    + right. split; [done|]. by exists e.
  - left. by exists e, v.
Qed.

Lemma posix_sleep_ok st ino C fl :
  state_ok st -> idle st (task_of C) -> fl ∈ inode_locks st ino ->
  task_of C <> task_of fl -> ~ tc (waits (edges st)) (task_of fl) (task_of C) ->
  state_ok (locks_insert_block st (fl_id fl) C).
Proof.
  intros Hst Hid Hfl Hne Hnr. apply (state_ok_queues st); [done..| |exact Hst].
  eapply (graph_add_edge (edges st) _ (task_of C) (task_of fl)); try done; [apply Hst|].
  intros x y [?|(-> & e & He & Hei & _ & ->)]%insert_block_edges; [by left|right].
  split; [done|]. by apply (so_tasks _ Hst e ino fl).
Qed.

Lemma posix_conflict_elem C l fl :
  posix_conflict C l = Some fl ->
  fl ∈ l /\ flag fl FL_POSIX = true /\ posix_locks_conflict C fl = true.
Proof.
  unfold posix_conflict. intros ([i x] & (Hx & Hp & _)%list_find_Some & ->)%fmap_Some.
  simpl. apply andb_true_iff in Hp. split; [by eapply list_elem_of_lookup_2|done].
Qed.

(** What an attempt to lock or unlock bytes can come to. *)
Inductive posix_outcome (st : lock_state) (ino : Z) (C : file_lock) (wait signal : bool)
  : lock_state -> lock_result -> Prop :=
| po_granted st' :
    request_effect C (inode_locks st ino) (inode_locks st' ino) ->
    (forall k, k <> ino -> inode_locks st' k = inode_locks st k) ->
    (fl_type C <> F_UNLCK -> posix_conflict C (inode_locks st ino) = None) ->
    posix_outcome st ino C wait signal st' (LRet 0)
| po_again fl :
    posix_conflict C (inode_locks st ino) = Some fl -> wait = false ->
    posix_outcome st ino C wait signal st (LRet (- EAGAIN))
| po_deadlock fl :
    posix_conflict C (inode_locks st ino) = Some fl -> wait = true ->
    tc (waits (edges st)) (task_of fl) (task_of C) ->
    posix_outcome st ino C wait signal st (LRet (- EDEADLK))
| po_signal fl :
    posix_conflict C (inode_locks st ino) = Some fl -> wait = true -> signal = true ->
    posix_outcome st ino C wait signal st (LRet (- ERESTARTSYS))
| po_sleep fl :
    posix_conflict C (inode_locks st ino) = Some fl -> wait = true ->
    ~ tc (waits (edges st)) (task_of fl) (task_of C) ->
    posix_outcome st ino C wait signal (locks_insert_block st (fl_id fl) C) (LSleep (fl_id fl)).

Lemma posix_lock_repeat_ok st ino C wait signal new1 new2 :
  state_ok st -> request_ok C -> idle st (task_of C) ->
  fresh st new1 -> fresh st new2 -> new1 <> new2 -> eof_safe C (inode_locks st ino) ->
  exists st' r, posix_lock_repeat st ino C wait signal new1 new2 = Some (st', r)
    /\ state_ok st' /\ posix_outcome st ino C wait signal st' r.
Proof.
  intros Hst HC Hid Hf1 Hf2 Hn Heof. unfold posix_lock_repeat.
  destruct (if fl_type C =? F_UNLCK then None else posix_conflict C (inode_locks st ino)) as [fl|] eqn:Ec.
  - assert (posix_conflict C (inode_locks st ino) = Some fl) as Ec' by (by case_match).
    apply posix_conflict_elem in Ec' as Hel. destruct Hel as (Hfl & Hpf & Hcf).
    assert (task_of C <> task_of fl) as Hne.
    { unfold posix_locks_conflict in Hcf. rewrite Hpf in Hcf. simpl in Hcf.
      destruct (locks_same_owner C fl) eqn:Es; [done|]. intros [= E1 E2].
      assert (locks_same_owner C fl = true) by (by apply same_owner_eq). congruence. }
    destruct wait; simpl; [|eexists _, _; split; [done|]; split; [done|]; by eapply po_again].
    destruct (deadlock_ok st C fl (so_graph _ Hst)) as ([] & -> & Hd); simpl.
    + eexists _, _. split; [done|]. split; [done|]. eapply po_deadlock; [done..|].
      by destruct (proj1 Hd eq_refl) as [?|?].
    + assert (~ tc (waits (edges st)) (task_of fl) (task_of C)) as Hnr.
      { intros Ht. by assert (false = true) by (apply Hd; by right). }
      destruct signal; eexists _, _; (split; [done|]).
      * split; [done|]. by eapply po_signal.
      * split; [by apply (posix_sleep_ok st ino)|]. by eapply po_sleep.
  - destruct (posix_apply new1 new2 C (inode_locks st ino)) as [l' acts] eqn:Ea.
    assert (fl_type C <> F_UNLCK -> posix_conflict C (inode_locks st ino) = None) as Hno.
    { intros Hx. by rewrite (proj2 (Z.eqb_neq _ _) Hx) in Ec. }
    destruct (posix_grant_ok st ino C new1 new2 l' acts) as [Hok Heff]; try done.
    eexists _, _. split; [done|]. split; [done|]. constructor; [|intros k Hk|done];
      rewrite run_actions_inodes, inode_locks_set; [by rewrite decide_True|by rewrite decide_False].
Qed.

(** *** Deleting a lock *)

Lemma StronglySorted_filter {A} (R : A -> A -> Prop) (P : A -> Prop) `{!forall x, Decision (P x)} l :
  StronglySorted R l -> StronglySorted R (filter P l).
Proof.
  induction 1 as [|x l Hl IH Hx]; [constructor|]. rewrite filter_cons. case_decide; [|done].
  constructor; [done|]. rewrite Forall_forall in *. intros y [_ Hy]%list_elem_of_filter. auto.
Qed.

Lemma locks_ok_filter (Q : file_lock -> Prop) `{!forall x, Decision (Q x)} l :
  locks_ok l -> locks_ok (filter Q l).
Proof.
  intros (Hnd & Hok & (a & b & -> & Ha & Hb) & Hown).
  assert (forall (P : file_lock -> Prop) k, Forall P k -> Forall P (filter Q k)) as Hall.
  { intros P k. rewrite !Forall_forall. intros Hk x [_ Hx]%list_elem_of_filter. auto. }
  split_and!; [by apply NoDup_fmap_filter|by apply Hall| |].
  - exists (filter Q a), (filter Q b). by rewrite filter_app; auto.
  - intros o. destruct (Hown o) as [(l1 & g & l2 & E & Hg & Hn) Hs]. split.
    + exists (filter Q l1), (filter Q g), (filter Q l2). rewrite E, !filter_app. split_and!; auto.
      rewrite <-filter_app. auto.
    + assert (filter (mine o) (filter Q (a ++ b)) = filter Q (filter (mine o) (a ++ b))) as ->
        by (rewrite !list_filter_filter; apply list_filter_iff; tauto).
      by apply StronglySorted_filter.
Qed.

Lemma flocks_conflict_subset (l l' : list file_lock) :
  (forall x, x ∈ l' -> x ∈ l) -> (conflict_free l -> conflict_free l') /\ (flocks_ok l -> flocks_ok l').
Proof.
  intros Hs. split.
  - intros Hc o o' a t t' (x & Hx & H1) (y & Hy & H2). apply (Hc o o' a); [exists x|exists y]; auto.
  - intros Hf x y Hx Hy. apply Hf; auto.
Qed.

(** Taking a lock out of the list of its inode and out of the table. *)
Definition drop_lock (st : lock_state) (ino id : Z) : lock_state :=
  table_delete (set_inode st ino (without id (inode_locks st ino))) id.

Lemma ids_without id l i : i ∈ ids (without id l) <-> i ∈ ids l /\ i <> id.
Proof.
  unfold without. rewrite !list_elem_of_fmap. setoid_rewrite list_elem_of_filter. naive_solver.
Qed.

Lemma drop_lock_ok st ino id :
  state_ok st -> id ∈ ids (inode_locks st ino) -> state_ok (drop_lock st ino id).
Proof.
  intros Hst Hin. set (st' := drop_lock st ino id).
  assert (forall k, inode_locks st' k = if decide (k = ino) then without id (inode_locks st ino)
                                       else inode_locks st k) as Hil by (intros; apply inode_locks_set).
  assert (forall k x, x ∈ inode_locks st' k -> x ∈ inode_locks st k /\ fl_id x <> id) as Hsub.
  { intros k x. rewrite Hil. case_decide; [subst; unfold without; rewrite list_elem_of_filter; tauto|].
    intros Hx. split; [done|]. intros <-. destruct (so_ids _ Hst k ino (fl_id x)); try done.
    by apply list_elem_of_fmap_2. }
  assert (forall k i, i ∈ ids (inode_locks st' k) <-> i ∈ ids (inode_locks st k) /\ i <> id) as Hids.
  { intros k i. rewrite Hil. case_decide; [subst; apply ids_without|]. split; [|tauto].
    intros Hi. split; [done|]. intros ->. by destruct (so_ids _ Hst k ino id). }
  constructor.
  - intros k. rewrite Hil. case_decide; [|apply Hst]. apply locks_ok_filter, Hst.
  - intros k. eapply flocks_conflict_subset; [|apply (so_posix _ Hst k)]. intros x Hx. by apply Hsub.
  - intros k. eapply flocks_conflict_subset; [|apply (so_flock _ Hst k)]. intros x Hx. by apply Hsub.
  - intros k k' i [? _]%Hids [? _]%Hids. by apply (so_ids _ Hst k k' i).
  - intros i. setoid_rewrite Hids. unfold st', drop_lock, table_delete. simpl.
    rewrite list_elem_of_fmap. setoid_rewrite list_elem_of_filter. split.
    + intros (e & -> & Hne & He). destruct (proj1 (so_table _ Hst (te_id e))) as [k Hk]; [|by eauto].
      by apply list_elem_of_fmap_2.
    + intros (k & Hk & Hne). assert (i ∈ te_id <$> file_lock_table st) as (e & -> & He)%list_elem_of_fmap
        by (apply (so_table _ Hst); eauto). by eauto.
  - apply NoDup_fmap_filter, Hst.
  - intros e k x [_ He]%list_elem_of_filter [Hx _]%Hsub. by apply (so_tasks _ Hst e k).
  - apply (edges_subset st); [|by left|apply Hst]. intros e [_ He]%list_elem_of_filter. by left.
Qed.

Lemma wake_up_ok st i : state_ok st -> state_ok (locks_wake_up_blocks st i).
Proof.
  intros Hst. apply (state_ok_queues st); [done..| |done].
  apply (edges_subset st); [by left|intros; apply wake_up_queue|apply Hst].
Qed.

Lemma wake_ok st is_ : state_ok st -> state_ok (wake st is_).
Proof. intros Hst. apply (state_ok_queues st); [done..|apply (so_graph _ Hst)|done]. Qed.

Lemma delete_block_ok st b w : state_ok st -> state_ok (locks_delete_block st b w).
Proof.
  intros Hst. apply (state_ok_queues st); [done..| |done].
  apply (graph_ok_subset (edges st)); [|apply Hst]. intros [x y]. rewrite !elem_of_edges.
  intros (e & v & He & Ho & Hv & -> & ->). exists e, v. split_and!; try done.
  unfold locks_delete_block in Hv. rewrite block_queue_set in Hv. case_decide as E; [|done].
  unfold without in Hv. apply list_elem_of_filter in Hv as [_ Hv]. by rewrite E.
Qed.

Lemma locks_delete_lock_ok st ino fl :
  state_ok st -> fl ∈ inode_locks st ino -> state_ok (locks_delete_lock st ino fl).
Proof. intros Hst Hfl. apply wake_up_ok, drop_lock_ok; [done|]. by apply list_elem_of_fmap_2. Qed.

(** *** Removing the locks of a closed file *)

(** What [f_op->lock] of a file system may do when it is told of an unlock: it
    leaves the lock lists alone. *)
Definition driver_quiet (lock : lock_state -> file_lock -> lock_state) : Prop :=
  forall st fl, i_flock (lock st fl) = i_flock st /\ (state_ok st -> state_ok (lock st fl)).

Lemma without_split a fl b : NoDup (ids (a ++ fl :: b)) -> without (fl_id fl) (a ++ fl :: b) = a ++ b.
Proof.
  rewrite fmap_app. simpl. rewrite <-Permutation_middle, <-fmap_app. intros [Hn _]%NoDup_cons.
  unfold without. rewrite filter_app, filter_cons_False by naive_solver. rewrite <-filter_app.
  apply filter_all. apply Forall_forall. intros x Hx E. apply Hn. rewrite <-E.
  by apply list_elem_of_fmap_2.
Qed.

Lemma filter_without (P : file_lock -> bool) l fl :
  NoDup (ids l) -> fl ∈ l -> P fl = true ->
  filter (fun x => P x = false) (without (fl_id fl) l) = filter (fun x => P x = false) l.
Proof.
  intros Hnd (a & b & ->)%list_elem_of_split HP. rewrite without_split by done.
  rewrite !filter_app, filter_cons_False by congruence. done.
Qed.

Lemma remove_loop_ok fuel P lock st ino :
  driver_quiet lock -> state_ok st -> (length (inode_locks st ino) < fuel)%nat ->
  exists st', remove_loop fuel P lock st ino = Some st' /\ state_ok st'
    /\ inode_locks st' ino = filter (fun x => P x = false) (inode_locks st ino)
    /\ forall k, k <> ino -> inode_locks st' k = inode_locks st k.
Proof.
  intros Hq. revert st. induction fuel as [|fuel IH]; intros st Hst Hlen; [lia|]. cbn [remove_loop].
  destruct (list_find _ _) as [[i fl]|] eqn:Ef.
  - apply list_find_Some in Ef as (Hi & HP & _). pose proof (list_elem_of_lookup_2 _ _ _ Hi) as Hfl.
    destruct (Hq (locks_delete_lock st ino fl) fl) as [Hif Hok].
    set (st1 := lock _ fl) in *.
    assert (forall k, inode_locks st1 k = if decide (k = ino) then without (fl_id fl) (inode_locks st ino)
              else inode_locks st k) as Hil.
    { intros k. transitivity (inode_locks (locks_delete_lock st ino fl) k); [|apply inode_locks_set].
      unfold inode_locks. by rewrite Hif. }
    pose proof (so_locks _ Hst ino) as (Hnd & _).
    destruct (IH st1) as (st' & -> & Hst' & Hres & Hoth).
    + by apply Hok, locks_delete_lock_ok.
    + rewrite Hil, decide_True by done. assert (length (without (fl_id fl) (inode_locks st ino)) < length (inode_locks st ino))%nat; [|lia].
      unfold without. apply (length_filter_lt _ _ fl); [done|naive_solver].
    + exists st'. split_and!; try done.
      * rewrite Hres, Hil, decide_True by done. by apply filter_without.
      * intros k Hk. rewrite Hoth, Hil, decide_False by done. done.
  - apply list_find_None in Ef. exists st. split_and!; try done. symmetry. apply filter_all.
    eapply Forall_impl; [exact Ef|]. intros x Hx. by apply not_true_is_false.
Qed.

(** *** FLOCK locks *)

Definition flock_request_ok (C : file_lock) : Prop :=
  span_ok C /\ (held_type (fl_type C) \/ fl_type C = F_UNLCK) /\ fl_flags C = FL_FLOCK /\ fl_owner C = 0.

Definition is_flock_of (file : Z) (x : file_lock) : Prop := is_flock x /\ fl_file x = file.

Lemma is_flock_flags x : lock_ok x -> is_flock x <-> fl_flags x = FL_FLOCK.
Proof. intros (_ & _ & [[E _]|[E _]]); unfold is_flock, flag; rewrite E; done. Qed.

(** Behind the FLOCK locks there is none. *)
Lemma flock_prefix l1 x l2 :
  locks_ok (l1 ++ x :: l2) -> ~ is_flock x -> forall y, y ∈ l2 -> ~ is_flock y.
Proof.
  intros (_ & Hok & (a & b & E & Ha & Hb) & _) Hx y Hy Hfy.
  rewrite Forall_forall in Hok.
  assert (lock_ok x /\ lock_ok y) as [Hkx Hky].
  { split; apply Hok; rewrite elem_of_app, elem_of_cons; auto. }
  rewrite is_flock_flags in Hx, Hfy by done.
  apply app_eq_inv in E as [(k & -> & E)|(k & -> & E)].
  - subst b. rewrite Forall_app, Forall_cons in Hb. destruct Hb as (_ & _ & Hb).
    rewrite Forall_forall in Hb. specialize (Hb y Hy). simpl in Hb. by rewrite Hfy in Hb.
  - destruct k as [|z k].
    + simpl in E. subst b. rewrite Forall_cons in Hb. destruct Hb as [_ Hb].
      rewrite Forall_forall in Hb. specialize (Hb y Hy). simpl in Hb. by rewrite Hfy in Hb.
    + simplify_eq/=. rewrite Forall_app, Forall_cons in Ha. tauto.
Qed.

Lemma flock_search_some file l a x b :
  flock_search file l = Some (a, x, b) -> l = a ++ x :: b /\ is_flock_of file x.
Proof.
  revert a x b. induction l as [|y l IH]; intros a x b; simpl; [done|].
  destruct (flag y FL_FLOCK) eqn:Ef; simpl; [|done]. destruct (Z.eqb_spec file (fl_file y)).
  - intros [= <- <- <-]. done.
  - intros ([[a' x'] b'] & (-> & ?)%IH & [= <- <- <-])%bind_Some. done.
Qed.

Lemma flock_search_none file l0 l :
  locks_ok (l0 ++ l) -> flock_search file l = None -> forall y, y ∈ l -> ~ is_flock_of file y.
Proof.
  revert l0. induction l as [|x l IH]; intros l0 Hok; simpl; [intros _ y Hy; by apply elem_of_nil in Hy|].
  destruct (flag x FL_FLOCK) eqn:Ef; simpl.
  - destruct (Z.eqb_spec file (fl_file x)); [done|]. intros H y [->|Hy]%elem_of_cons; [by intros [_ ?]|].
    apply (IH (l0 ++ [x])); [by rewrite <-app_assoc| |done].
    destruct (flock_search file l) as [[[? ?] ?]|]; [done|done].
  - intros _ y [->|Hy]%elem_of_cons [Hfy _]; [by unfold is_flock in Hfy; congruence|].
    eapply flock_prefix in Hok; [by apply Hok|unfold is_flock; congruence|done].
Qed.

Lemma flock_conflict_none C l0 l :
  locks_ok (l0 ++ l) -> flock_conflict C l = None ->
  forall y, y ∈ l -> is_flock y -> flock_locks_conflict C y = false.
Proof.
  revert l0. induction l as [|x l IH]; intros l0 Hok; simpl; [intros _ y Hy; by apply elem_of_nil in Hy|].
  destruct (flag x FL_FLOCK) eqn:Ef; simpl.
  - destruct (flock_locks_conflict C x) eqn:Ec; [done|]. intros H y [->|Hy]%elem_of_cons Hfy; [done|].
    apply (IH (l0 ++ [x])); [by rewrite <-app_assoc|done..].
  - intros _ y [->|Hy]%elem_of_cons Hfy; [by unfold is_flock in Hfy; congruence|].
    eapply flock_prefix in Hok; [by destruct (Hok)|unfold is_flock; congruence|done].
Qed.

Lemma flock_conflict_some C l x :
  flock_conflict C l = Some x -> x ∈ l /\ is_flock x /\ flock_locks_conflict C x = true.
Proof.
  induction l as [|y l IH]; simpl; [done|]. destruct (flag y FL_FLOCK) eqn:Ef; simpl; [|done].
  destruct (flock_locks_conflict C y) eqn:Ec.
  - intros [= ->]. split; [by left|done].
  - intros (? & ? & ?)%IH. split; [by right|done].
Qed.

(** A lock that conflicts with no other goes in front of the list. *)
Lemma locks_ok_cons_flock C l :
  locks_ok l -> lock_ok C -> fl_flags C = FL_FLOCK -> fl_id C ∉ ids l -> locks_ok (C :: l).
Proof.
  intros (Hnd & Hok & (a & b & -> & Ha & Hb) & Hown) HC Hf Hid.
  assert (forall o, ~ mine o C) as Hnm.
  { intros o [Hp _]. unfold flag in Hp. by rewrite Hf in Hp. }
  split_and!.
  - simpl. by apply NoDup_cons.
  - by constructor.
  - exists (C :: a), b. split_and!; [done| |done]. by constructor.
  - intros o. destruct (Hown o) as [(l1 & g & l2 & E & Hg & Hn) Hs]. split.
    + exists (C :: l1), g, l2. rewrite E. split_and!; [done..|]. simpl. constructor; [apply Hnm|done].
    + by rewrite filter_cons_False by apply Hnm.
Qed.

Lemma flocks_ok_cons C l :
  flocks_ok l -> Forall lock_ok l -> lock_ok C -> is_flock C -> fl_start C = 0 -> fl_end C = OFFSET_MAX ->
  (forall y, y ∈ l -> is_flock y -> flock_locks_conflict C y = false) -> flocks_ok (C :: l).
Proof.
  intros Hf Hok HC HCf Hs He Hno. rewrite Forall_forall in Hok.
  assert (forall y, y ∈ l -> is_flock y -> fl_file C <> fl_file y -> fl_type C = F_RDLCK /\ fl_type y = F_RDLCK) as Hone.
  { intros y Hy Hyf Hne. specialize (Hno y Hy Hyf). unfold flock_locks_conflict in Hno.
    unfold is_flock in Hyf. rewrite Hyf in Hno. simpl in Hno.
    destruct (Z.eqb_spec (fl_file C) (fl_file y)); [done|]. unfold locks_conflict in Hno.
    destruct (Hok y Hy) as ([Hy0 Hy1] & Hyt & _).
    assert (locks_overlap C y = true) as Hov by (unfold locks_overlap; lia). rewrite Hov in Hno. simpl in Hno.
    destruct HC as (_ & [E|E] & _); rewrite E in *; simpl in Hno; [|done].
    destruct Hyt as [->|E']; [done|]. by rewrite E' in Hno. }
  intros x y [->|Hx]%elem_of_cons [->|Hy]%elem_of_cons Hxf Hyf Hne; [done|by apply Hone| |by apply Hf].
  apply and_comm. by apply Hone.
Qed.

(** The lock [flock_lock_file] inserts for the request [C]. *)
Definition flock_new_ok (st : lock_state) (C F : file_lock) : Prop :=
  lock_ok F /\ fl_flags F = FL_FLOCK /\ fl_start F = 0 /\ fl_end F = OFFSET_MAX
  /\ fl_file F = fl_file C /\ fl_type F = fl_type C /\ fresh st (fl_id F).

(** The locks of other files and all POSIX locks stay. *)
Definition others_kept (st st' : lock_state) (ino file : Z) : Prop :=
  (forall k, k <> ino -> inode_locks st' k = inode_locks st k)
  /\ forall x, ~ is_flock_of file x -> x ∈ inode_locks st' ino <-> x ∈ inode_locks st ino.

Lemma flock_insert_ok st ino C F :
  state_ok st -> flock_new_ok st C F ->
  (forall y, y ∈ inode_locks st ino -> is_flock y -> flock_locks_conflict F y = false) ->
  state_ok (table_insert (set_inode st ino (F :: inode_locks st ino)) F).
Proof.
  intros Hst (HF & Hff & Hs & He & _ & _ & Hfr & Hq) Hno. set (st' := table_insert _ _).
  assert (forall k, inode_locks st' k = if decide (k = ino) then F :: inode_locks st ino
                                       else inode_locks st k) as Hil by (intros; apply inode_locks_set).
  assert (is_flock F) as HFf by (by apply is_flock_flags).
  assert (forall k i, i ∈ ids (inode_locks st' k) <-> i ∈ ids (inode_locks st k) \/ (k = ino /\ i = fl_id F)) as Hids.
  { intros k i. rewrite Hil. case_decide; [subst; simpl; rewrite elem_of_cons|]; naive_solver. }
  assert (forall e, e ∈ file_lock_table st -> te_id e <> fl_id F) as Hte.
  { intros e Hin Heq. destruct (proj1 (so_table _ Hst (te_id e))) as [k Hk]; [by apply list_elem_of_fmap_2|].
    rewrite Heq in Hk. by apply (Hfr k). }
  constructor.
  - intros k. rewrite Hil. case_decide; [|apply Hst]. apply locks_ok_cons_flock; try done. apply Hst.
  - intros k. rewrite Hil. case_decide; [|apply Hst]. intros o o' a t t' H1 H2.
    assert (forall p u, holds (F :: inode_locks st ino) p a u -> holds (inode_locks st ino) p a u) as Hh.
    { intros p u (x & [->|Hx]%elem_of_cons & Hpx & Hrest); [|by exists x].
      unfold flag in Hpx. by rewrite Hff in Hpx. }
    apply (so_posix _ Hst ino o o' a); by apply Hh.
  - intros k. rewrite Hil. case_decide; [|apply Hst]. apply flocks_ok_cons; try done; [apply Hst|].
    apply (so_locks _ Hst ino).
  - intros k k' i [H1|[-> ->]]%Hids [H2|[-> E]]%Hids; [by apply (so_ids _ Hst k k' i)|..|done].
    + subst. by apply Hfr in H1.
    + by apply Hfr in H2.
  - intros i. setoid_rewrite Hids. unfold st', table_insert. simpl. rewrite elem_of_cons, (so_table _ Hst i).
    split; [intros [->|[k Hk]]; [exists ino; by right|exists k; by left]|].
    intros [k [Hk|[_ ->]]]; [right; by exists k|by left].
  - simpl. apply NoDup_cons. split; [|apply Hst]. intros (e & Heq & Hin)%list_elem_of_fmap.
    by apply (Hte e Hin).
  - intros e k x [->|Hin]%elem_of_cons Hx Hid; rewrite Hil in Hx.
    + simpl in *. case_decide; [|exfalso; apply (Hfr k); rewrite <-Hid; by apply list_elem_of_fmap_2].
      apply elem_of_cons in Hx as [->|Hx]; [done|]. exfalso. apply (Hfr ino). rewrite <-Hid.
      by apply list_elem_of_fmap_2.
    + case_decide; [|by apply (so_tasks _ Hst e k)]. apply elem_of_cons in Hx as [->|Hx].
      * by destruct (Hte e Hin).
      * by apply (so_tasks _ Hst e ino).
  - apply (edges_subset st); [|by left|apply Hst]. intros e [->|Hin]%elem_of_cons; [by right|by left].
Qed.

Lemma flock_sleep_ok st ino F fl :
  state_ok st -> fl ∈ inode_locks st ino -> is_flock fl -> state_ok (locks_insert_block st (fl_id fl) F).
Proof.
  intros Hst Hfl Hf. apply (state_ok_queues st); [done..| |done].
  apply (graph_ok_subset (edges st)); [|apply Hst]. intros [x y] Hxy.
  destruct (insert_block_edges st (fl_id fl) F x y Hxy) as [?|(_ & e & He & Hei & Ho & _)]; [done|].
  exfalso. pose proof (so_tasks _ Hst e ino fl He Hfl (eq_sym Hei)) as [= Ht _].
  destruct (so_locks _ Hst ino) as (_ & Hok & _). rewrite Forall_forall in Hok.
  destruct (Hok fl Hfl) as (_ & _ & [[Ef _]|[_ Ef]]); [|congruence].
  unfold is_flock, flag in Hf. by rewrite Ef in Hf.
Qed.

Lemma flock_lock_repeat_ok st ino C F wait signal st' r :
  state_ok st -> flock_new_ok st C F -> flock_lock_repeat st ino F wait signal = (st', r) ->
  state_ok st' /\ others_kept st st' ino (fl_file C)
  /\ (r = LRet 0 -> exists x, x ∈ inode_locks st' ino /\ is_flock_of (fl_file C) x /\ fl_type x = fl_type C).
Proof.
  intros Hst HF. unfold flock_lock_repeat.
  destruct signal; [by intros [= <- <-]|].
  destruct (flock_conflict F (inode_locks st ino)) as [fl|] eqn:Ec.
  - apply flock_conflict_some in Ec as (Hfl & Hff & _). destruct wait; simpl; intros [= <- <-].
    + split; [by apply (flock_sleep_ok st ino)|done].
    + done.
  - intros [= <- <-]. pose proof (flock_conflict_none F [] (inode_locks st ino) (so_locks _ Hst ino) Ec) as Hno.
    split; [by apply (flock_insert_ok st ino C)|]. destruct HF as (HF & Hff & _ & _ & Hfile & Hty & _).
    assert (is_flock F) as HFf by (by apply is_flock_flags).
    unfold others_kept. simpl. split; [split|].
    + intros k Hk. transitivity (inode_locks (set_inode st ino (F :: inode_locks st ino)) k); [done|].
      by rewrite inode_locks_set, decide_False.
    + intros x Hx. change (inode_locks (table_insert ?s F) ino) with (inode_locks s ino).
      rewrite inode_locks_set, decide_True by done. rewrite elem_of_cons. split; [|by right].
      intros [->|?]; [by destruct Hx|done].
    + intros _. exists F. change (inode_locks (table_insert ?s F) ino) with (inode_locks s ino).
      rewrite inode_locks_set, decide_True by done. split; [by left|done].
Qed.

Lemma drop_lock_fresh st ino id i : fresh st i -> fresh (drop_lock st ino id) i.
Proof.
  intros [Hf Hq]. split; [|done]. intros k. unfold drop_lock.
  change (inode_locks (table_delete ?s id) k) with (inode_locks s k). rewrite inode_locks_set.
  case_decide; [|apply Hf]. subst. rewrite ids_without. intros [? _]. by apply (Hf ino).
Qed.

Lemma drop_lock_kept st ino x :
  state_ok st -> x ∈ inode_locks st ino -> is_flock x ->
  others_kept st (drop_lock st ino (fl_id x)) ino (fl_file x).
Proof.
  intros Hst Hx Hf. unfold drop_lock. split.
  - intros k Hk. change (inode_locks (table_delete ?s _) k) with (inode_locks s k).
    by rewrite inode_locks_set, decide_False.
  - intros y Hy. change (inode_locks (table_delete ?s _) ino) with (inode_locks s ino).
    rewrite inode_locks_set, decide_True by done. unfold without. rewrite list_elem_of_filter.
    split; [tauto|]. intros Hin. split; [|done]. intros E. apply Hy.
    destruct (so_locks _ Hst ino) as (Hnd & _). apply list_elem_of_lookup in Hx as [i Hi], Hin as [j Hj].
    assert (i = j) as ->; [|by simplify_eq].
    apply (NoDup_lookup _ i j (fl_id x) Hnd); rewrite list_lookup_fmap, ?Hi, ?Hj; simpl; congruence.
Qed.

Lemma others_kept_trans st1 st2 st3 ino file :
  others_kept st1 st2 ino file -> others_kept st2 st3 ino file -> others_kept st1 st3 ino file.
Proof.
  intros [H1 H2] [H3 H4]. split; [intros k Hk; by rewrite H3, H1|].
  intros x Hx. by rewrite H4, H2.
Qed.

Lemma flock_lock_search_ok fuel st ino C F wait signal :
  state_ok st -> (fl_type C <> F_UNLCK -> flock_new_ok st C F) ->
  (length (inode_locks st ino) < fuel)%nat ->
  exists st' r, flock_lock_search fuel st ino C F wait signal = Some (st', r)
    /\ state_ok st' /\ others_kept st st' ino (fl_file C)
    /\ (r = LRet 0 -> fl_type C <> F_UNLCK ->
        exists x, x ∈ inode_locks st' ino /\ is_flock_of (fl_file C) x /\ fl_type x = fl_type C).
Proof.
  revert st. induction fuel as [|fuel IH]; intros st Hst HF Hlen; [lia|]. cbn [flock_lock_search].
  destruct (flock_search (fl_file C) (inode_locks st ino)) as [[[a x] b]|] eqn:Es.
  - apply flock_search_some in Es as (El & Hxf & Hxfile).
    assert (x ∈ inode_locks st ino) as Hx by (rewrite El; apply elem_of_app; right; by left).
    destruct (Z.eqb_spec (fl_type C) (fl_type x)) as [Et|Et].
    { eexists _, _. split; [done|]. split; [done|]. split; [done|]. intros _ _. by exists x. }
    assert (table_delete (set_inode st ino (a ++ b)) (fl_id x) = drop_lock st ino (fl_id x)) as ->.
    { unfold drop_lock. rewrite El, without_split; [done|]. rewrite <-El. apply (so_locks _ Hst ino). }
    assert (state_ok (drop_lock st ino (fl_id x))) as Hst1
      by (apply drop_lock_ok; [done|by apply list_elem_of_fmap_2]).
    pose proof (drop_lock_kept st ino x Hst Hx Hxf) as Hk. rewrite Hxfile in Hk.
    destruct (Z.eqb_spec (fl_type C) F_UNLCK) as [Eu|Eu].
    { eexists _, _. split; [done|]. split; [by apply wake_up_ok|]. split; [exact Hk|done]. }
    destruct (block_queue _ _) as [|w q].
    + destruct (IH (drop_lock st ino (fl_id x))) as (st' & r & E & Hst' & Hk' & Hr); [done|..].
      * intros Hne. destruct (HF Hne) as (? & ? & ? & ? & ? & ? & ?). split_and!; try done.
        -- by apply drop_lock_fresh.
      * unfold drop_lock. change (inode_locks (table_delete ?s _) ino) with (inode_locks s ino).
        rewrite inode_locks_set, decide_True by done.
        rewrite El, without_split; [|rewrite <-El; apply (so_locks _ Hst ino)].
        rewrite El, length_app in Hlen. simpl in Hlen. rewrite length_app. lia.
      * exists st', r. split; [done|]. split; [done|]. split; [by eapply others_kept_trans|done].
    + eexists _, _. split; [done|]. split; [by apply wake_ok|]. split; [exact Hk|done].
  - destruct (Z.eqb_spec (fl_type C) F_UNLCK) as [Eu|Eu].
    { eexists _, _. split; [done|]. done. }
    destruct (flock_lock_repeat st ino F wait signal) as [st' r] eqn:Er.
    destruct (flock_lock_repeat_ok st ino C F wait signal st' r) as (? & ? & ?); try done; [by apply HF|].
    exists st', r. split; [done|]. split; [done|]. split; [done|]. auto.
Qed.

Lemma flock_lock_file_ok st ino C wait signal alloc new1 :
  state_ok st -> flock_request_ok C -> fl_start C = 0 -> fl_end C = OFFSET_MAX -> fresh st new1 ->
  exists st' r, flock_lock_file st ino C wait signal alloc new1 = Some (st', r)
    /\ state_ok st' /\ others_kept st st' ino (fl_file C)
    /\ (r = LRet 0 -> fl_type C <> F_UNLCK ->
        exists x, x ∈ inode_locks st' ino /\ is_flock_of (fl_file C) x /\ fl_type x = fl_type C).
Proof.
  intros Hst (Hsp & Ht & Hf & Ho) Hs He Hfr. unfold flock_lock_file.
  destruct (negb _ && negb alloc) eqn:Ea; [by eexists _, _; split|].
  apply flock_lock_search_ok; [done| |lia]. intros Hne.
  destruct Ht as [Ht|?]; [|done]. split_and!; try done. split_and!; try done. by right.
Qed.

(** ** The system as a state machine

    Processes take turns; a step is what one process does until it returns or
    sleeps.  A process that waits makes no other request, new locks get
    addresses that are not in use. *)

Inductive lock_step (st : lock_state) : lock_state -> Prop :=
| step_posix ino C wait signal alloc new1 new2 st' r :
    request_ok C -> idle st (task_of C) -> fresh st new1 -> fresh st new2 -> new1 <> new2 ->
    eof_safe C (inode_locks st ino) ->
    posix_lock_file st ino C wait signal alloc new1 new2 = Some (st', r) -> lock_step st st'
| step_posix_resume ino C blocker signal new1 new2 st' r :
    request_ok C -> idle (locks_delete_block st blocker C) (task_of C) ->
    fresh (locks_delete_block st blocker C) new1 -> fresh (locks_delete_block st blocker C) new2 ->
    new1 <> new2 -> eof_safe C (inode_locks st ino) ->
    posix_lock_resume st ino C blocker signal new1 new2 = Some (st', r) -> lock_step st st'
| step_area ino tfl nonblock signal st' r :
    fl_owner tfl <> 0 -> idle st (task_of tfl) -> flag tfl FL_POSIX = true ->
    locks_mandatory_area st ino tfl nonblock signal = Some (st', r) -> lock_step st st'
| step_area_resume ino i_mode tfl blocker nonblock signal st' r :
    fl_owner tfl <> 0 -> idle (locks_delete_block st blocker tfl) (task_of tfl) -> flag tfl FL_POSIX = true ->
    mandatory_area_resume st ino i_mode tfl blocker nonblock signal = Some (st', r) -> lock_step st st'
| step_flock ino C wait signal alloc new1 st' r :
    flock_request_ok C -> fl_start C = 0 -> fl_end C = OFFSET_MAX -> fresh st new1 ->
    flock_lock_file st ino C wait signal alloc new1 = Some (st', r) -> lock_step st st'
| step_flock_sched ino C F blocker wait signal st' r :
    (fl_type C <> F_UNLCK -> flock_new_ok st C F) ->
    flock_lock_sched st ino C F blocker wait signal = Some (st', r) -> lock_step st st'
| step_flock_resume ino C F blocker wait signal st' r :
    flock_new_ok (locks_delete_block st blocker F) C F ->
    flock_lock_resume st ino F blocker wait signal = (st', r) -> lock_step st st'
| step_remove_posix lock ino owner st' :
    driver_quiet lock -> locks_remove_posix lock st ino owner = Some st' -> lock_step st st'
| step_remove_flock lock ino file st' :
    driver_quiet lock -> locks_remove_flock lock st ino file = Some st' -> lock_step st st'.

Definition lock_init : lock_state := LockState ∅ [] ∅ [].

Lemma lock_init_ok : state_ok lock_init.
Proof.
  assert (forall (A : Type) (x : A) (P : Prop), x ∈ [] -> P) as Hn
    by (intros A x P Hx; by apply elem_of_nil in Hx).
  constructor.
  - intros k. split_and!; [constructor|constructor|by exists [], []|].
    intros o. split; [by exists [], [], []|constructor].
  - intros k o o' a t t' (x & Hx & _). exact (Hn _ x _ Hx).
  - intros k x y Hx. exact (Hn _ x _ Hx).
  - intros k k' i Hi. exact (Hn _ i _ Hi).
  - intros i. split; [exact (Hn _ i _)|]. intros [k Hk]. exact (Hn _ i _ Hk).
  - constructor.
  - intros e k x He. exact (Hn _ e _ He).
  - split; [intros a b c Hx; exact (Hn _ _ _ Hx)|]. intros a Ha.
    assert (exists b, waits (edges lock_init) a b) as [b Hb] by (inversion Ha; eauto). exact (Hn _ _ _ Hb).
Qed.

Lemma inode_locks_queues st st' ino : i_flock st' = i_flock st -> inode_locks st' ino = inode_locks st ino.
Proof. intros E. unfold inode_locks. by rewrite E. Qed.

Lemma mandatory_area_ok st ino tfl nonblock signal :
  state_ok st -> idle st (task_of tfl) -> flag tfl FL_POSIX = true ->
  exists st' r, locks_mandatory_area st ino tfl nonblock signal = Some (st', r) /\ state_ok st'.
Proof.
  intros Hst Hid Hf. unfold locks_mandatory_area, area_conflict.
  destruct (list_find _ _) as [[i fl]|] eqn:Ef; simpl; [|by eauto].
  apply list_find_Some in Ef as (Hi & [Hfp Hc]%andb_true_iff & _).
  pose proof (list_elem_of_lookup_2 _ _ _ Hi) as Hfl.
  destruct nonblock; [by eauto|]. destruct signal; [by eauto|].
  destruct (deadlock_ok st tfl fl (so_graph _ Hst)) as ([] & -> & Hd); simpl; [by eauto|].
  eexists _, _. split; [done|]. apply (posix_sleep_ok st ino); try done.
  - intros E. assert (false = true) by (apply Hd; by left). done.
  - intros E. assert (false = true) by (apply Hd; by right). done.
Qed.

Lemma lock_step_ok st st' : state_ok st -> lock_step st st' -> state_ok st'.
Proof.
  intros Hst Hstep. destruct Hstep as
    [ino C wait signal alloc n1 n2 st' r HC Hid Hf1 Hf2 Hn He E
    |ino C bl signal n1 n2 st' r HC Hid Hf1 Hf2 Hn He E
    |ino tfl nb signal st' r Ho Hid Hf E
    |ino mode tfl bl nb signal st' r Ho Hid Hf E
    |ino C wait signal alloc n1 st' r HC Hs He Hf E
    |ino C F bl wait signal st' r HF E
    |ino C F bl wait signal st' r HF E
    |lock ino owner st' Hq E|lock ino file st' Hq E].
  - unfold posix_lock_file in E. destruct alloc; simpl in E; [|by simplify_eq].
    destruct (posix_lock_repeat_ok st ino C wait signal n1 n2) as (s & r' & E' & Hok & _); try done.
    rewrite E in E'. by simplify_eq.
  - destruct (posix_lock_repeat_ok (locks_delete_block st bl C) ino C true signal n1 n2)
      as (s & r' & E' & Hok & _); try done; [by apply delete_block_ok|].
    unfold posix_lock_resume in E. rewrite E in E'. by simplify_eq.
  - destruct (mandatory_area_ok st ino tfl nb signal) as (s & r' & E' & Hok); try done.
    rewrite E in E'. by simplify_eq.
  - pose proof (delete_block_ok st bl tfl Hst) as Hd. unfold mandatory_area_resume in E.
    destruct signal; [by simplify_eq|]. destruct (negb _); [by simplify_eq|].
    destruct (mandatory_area_ok (locks_delete_block st bl tfl) ino tfl nb false) as (s & r' & E' & Hok); try done.
    rewrite E in E'. by simplify_eq.
  - destruct (flock_lock_file_ok st ino C wait signal alloc n1) as (s & r' & E' & Hok & _); try done.
    rewrite E in E'. by simplify_eq.
  - unfold flock_lock_sched in E. destruct (block_queue st bl); [|simplify_eq; by apply wake_ok].
    destruct (flock_lock_search_ok (S (length (inode_locks st ino))) st ino C F wait signal)
      as (s & r' & E' & Hok & _); try done; [lia|]. rewrite E in E'. by simplify_eq.
  - unfold flock_lock_resume in E. eapply flock_lock_repeat_ok in E as (? & _); [done| |done].
    by apply delete_block_ok.
  - destruct (remove_loop_ok (S (length (inode_locks st ino)))
      (fun fl => flag fl FL_POSIX && (fl_owner fl =? owner)) lock st ino) as (s & E' & Hok & _); try done; [lia|].
    unfold locks_remove_posix in E. rewrite E in E'. by simplify_eq.
  - destruct (remove_loop_ok (S (length (inode_locks st ino)))
      (fun fl => flag fl FL_FLOCK && (fl_file fl =? file)) lock st ino) as (s & E' & Hok & _); try done; [lia|].
    unfold locks_remove_flock in E. rewrite E in E'. by simplify_eq.
Qed.

(** ** Properties *)

(** C17: In every state that is reached by requests for POSIX and FLOCK locks, accesses
    checked for mandatory locks, sleepers of all three that run again, and files being
    closed, no byte is locked by two owners unless both locks are read locks, no two
    files have FLOCK locks unless both are shared, every lock list is well-formed, every
    lock is in the global table, and no process waits for itself, directly or through
    other processes.  The histories leave out the requests that reach the largest
    offset while their owner has a lock of that type on the file (see [eof_safe] and
    [posix_eof_not_merged]). *)
Theorem locks_reachable_safe st :
  rtc lock_step lock_init st ->
  (forall ino, locks_ok (inode_locks st ino) /\ conflict_free (inode_locks st ino)
               /\ flocks_ok (inode_locks st ino))
  /\ (forall i, i ∈ te_id <$> file_lock_table st <-> exists ino, i ∈ ids (inode_locks st ino))
  /\ forall t, ~ tc (waits (edges st)) t t.
Proof.
  intros Hr. assert (state_ok st) as Hst.
  { pose proof lock_init_ok as Hi. revert Hi. induction Hr as [|x y z Hxy _ IH]; [done|].
    intros Hx. apply IH. by apply (lock_step_ok x). }
  split_and!; [intros ino; split_and!; apply Hst|apply Hst|apply (so_graph _ Hst)].
Qed.

(** [posix_lock_file] behaves as specified on every path: it returns or
    sleeps (the deadlock search ends); it is granted exactly when no lock of
    another owner conflicts, and then has the effect of the request on the map
    of bytes; it returns -EAGAIN on a conflict when it may not wait, -EDEADLK
    exactly when the owner of the conflicting lock waits, directly or through
    others, for the caller, -ERESTARTSYS on a signal, -ENOLCK without memory,
    and sleeps on the first conflicting lock otherwise; on an error nothing
    changes, and the state stays well-formed. *)
Theorem posix_lock_file_correct st ino C wait signal alloc new1 new2 :
  state_ok st -> request_ok C -> idle st (task_of C) ->
  fresh st new1 -> fresh st new2 -> new1 <> new2 -> eof_safe C (inode_locks st ino) ->
  exists st' r, posix_lock_file st ino C wait signal alloc new1 new2 = Some (st', r)
    /\ state_ok st'
    /\ (if alloc then posix_outcome st ino C wait signal st' r else st' = st /\ r = LRet (- ENOLCK)).
Proof.
  intros. unfold posix_lock_file. destruct alloc; simpl;
    [by apply posix_lock_repeat_ok|by exists st, (LRet (- ENOLCK))].
Qed.

(** C36: [posix_locks_deadlock] ends and is exact: when every task waits for at
    most one other and nobody waits for itself, it answers whether the owner of
    the blocking lock is the caller or waits for the caller, directly or
    through others. *)
Theorem posix_locks_deadlock_correct st C fl :
  graph_ok (edges st) ->
  exists r, posix_locks_deadlock st C fl = Some r
    /\ (r = true <-> task_of C = task_of fl \/ tc (waits (edges st)) (task_of fl) (task_of C)).
Proof. apply deadlock_ok. Qed.

(** [flock_lock_file] ends, keeps the state well-formed, touches only the
    FLOCK locks of its own file and, when it returns 0 for a lock request, the
    file has a FLOCK lock of the requested type. *)
Theorem flock_lock_file_correct st ino C wait signal alloc new1 :
  state_ok st -> flock_request_ok C -> fl_start C = 0 -> fl_end C = OFFSET_MAX -> fresh st new1 ->
  exists st' r, flock_lock_file st ino C wait signal alloc new1 = Some (st', r)
    /\ state_ok st' /\ others_kept st st' ino (fl_file C)
    /\ (r = LRet 0 -> fl_type C <> F_UNLCK ->
        exists x, x ∈ inode_locks st' ino /\ is_flock_of (fl_file C) x /\ fl_type x = fl_type C).
Proof. apply flock_lock_file_ok. Qed.

(** [locks_remove_posix] (close) ends and removes exactly the POSIX locks of
    the owner on that inode, keeps the order of the others and leaves the state
    well-formed. *)
Theorem locks_remove_posix_correct lock st ino owner :
  driver_quiet lock -> state_ok st ->
  exists st', locks_remove_posix lock st ino owner = Some st' /\ state_ok st'
    /\ inode_locks st' ino
       = filter (fun x => flag x FL_POSIX && (fl_owner x =? owner) = false) (inode_locks st ino)
    /\ forall k, k <> ino -> inode_locks st' k = inode_locks st k.
Proof. intros Hq Hst. apply remove_loop_ok; [done..|lia]. Qed.

(** F_GETLK describes a lock exactly: a request built from its answer covers
    the same bytes with the same type. *)
Theorem getlk_roundtrip current filp id l x :
  lock_ok x ->
  exists fl, posix_make_lock current filp id (flock_of (Some x) l) = Some fl
    /\ fl_start fl = fl_start x /\ fl_end fl = fl_end x /\ fl_type fl = fl_type x.
Proof.
  intros ([Hx0 Hx1] & Ht & _). unfold posix_make_lock, flock_of. simpl.
  assert ((fl_type x =? F_RDLCK) || (fl_type x =? F_WRLCK) || (fl_type x =? F_UNLCK) = true) as ->
    by (destruct Ht as [-> | ->]; done). simpl. unfold OFFSET_MAX in *.
  rewrite Z.add_0_l, (s32_id (fl_start x)) by lia. destruct (Z.ltb_spec (fl_start x) 0); [lia|].
  destruct (Z.eqb_spec (fl_end x) 0x7fffffff) as [E|E]; simpl.
  - eexists. split; [done|]. done.
  - destruct (Z.ltb_spec (fl_end x - fl_start x + 1) 0); [lia|]. simpl. eexists. split; [done|]. simpl.
    split_and!; try done. destruct (Z.eqb_spec (fl_end x - fl_start x + 1) 0); [lia|]. simpl.
    rewrite s32_id by lia. destruct (Z.ltb_spec (fl_start x + (fl_end x - fl_start x + 1) - 1) 0); lia.
Qed.

(** ** Witnesses *)

(** Process 100 locks bytes 0-99 of inode 1, process 101 bytes 200-299; then
    101 waits for 50-60, and 100 asks for 250-260. *)
Definition ex_a : file_lock := FileLock 50 7 100 5 FL_POSIX F_WRLCK 0 99.
Definition ex_b : file_lock := FileLock 51 8 101 6 FL_POSIX F_WRLCK 200 299.
Definition ex_b_waits : file_lock := FileLock 52 8 101 6 FL_POSIX F_RDLCK 50 60.
Definition ex_a_asks : file_lock := FileLock 53 7 100 5 FL_POSIX F_RDLCK 250 260.

Definition ex_lock (st : lock_state) (C : file_lock) (new1 new2 : Z) : lock_state :=
  match posix_lock_file st 1 C true false true new1 new2 with Some (st', _) => st' | None => st end.

Definition ex_st1 : lock_state := ex_lock lock_init ex_a 1 2.
Definition ex_st2 : lock_state := ex_lock ex_st1 ex_b 3 4.
Definition ex_st3 : lock_state := ex_lock ex_st2 ex_b_waits 5 6.

Lemma ex_lock_step st C new1 new2 :
  state_ok st -> request_ok C -> idle st (task_of C) -> fresh st new1 -> fresh st new2 -> new1 <> new2 ->
  eof_safe C (inode_locks st 1) -> lock_step st (ex_lock st C new1 new2).
Proof.
  intros Hst HC Hid Hf1 Hf2 Hn He.
  destruct (posix_lock_repeat_ok st 1 C true false new1 new2) as (st' & r & E & _); try done.
  unfold ex_lock, posix_lock_file. simpl. rewrite E.
  apply (step_posix st 1 C true false true new1 new2 st' r); try done.
Qed.

Lemma fresh_one l t q w id : id ∉ ids l -> q !! id = None -> fresh (LockState {[1 := l]} t q w) id.
Proof.
  intros Hl Hq. split; [|unfold block_queue; simpl; by rewrite Hq]. intros k. unfold inode_locks. simpl.
  destruct (decide (k = 1)) as [->|]; [by rewrite lookup_singleton_eq|].
  rewrite lookup_singleton_ne by done. by apply not_elem_of_nil.
Qed.

Lemma idle_edges st t : Forall (fun e => e.1 <> t) (edges st) -> idle st t.
Proof. rewrite Forall_forall. intros H b Hb. by apply (H (t, b) Hb). Qed.

Lemma fresh_init id : fresh lock_init id.
Proof. split; [|done]. intros k. by apply not_elem_of_nil. Qed.

Ltac ex_fresh := apply fresh_one; [by_decide|reflexivity].
Ltac ex_idle := apply idle_edges; by_decide.
Ltac ex_request := split_and!; try done; left; by (left + right).

Lemma ex_st1_ok : state_ok ex_st1.
Proof.
  apply (lock_step_ok lock_init); [apply lock_init_ok|]. apply ex_lock_step; try apply fresh_init; try done.
  - apply lock_init_ok.
  - ex_request.
  - ex_idle.
  - by left.
Qed.

Lemma ex_st2_ok : state_ok ex_st2.
Proof.
  apply (lock_step_ok ex_st1); [apply ex_st1_ok|]. apply ex_lock_step; try done.
  - apply ex_st1_ok.
  - ex_request.
  - ex_idle.
  - ex_fresh.
  - ex_fresh.
  - by left.
Qed.

Lemma ex_st3_ok : state_ok ex_st3.
Proof.
  apply (lock_step_ok ex_st2); [apply ex_st2_ok|]. apply ex_lock_step; try done.
  - apply ex_st2_ok.
  - ex_request.
  - ex_idle.
  - ex_fresh.
  - ex_fresh.
  - by left.
Qed.

Lemma locks_reachable_safe_witness :
  rtc lock_step lock_init ex_st1 /\ conflict_free (inode_locks ex_st1 1)
  /\ ids (inode_locks ex_st1 1) = [1].
Proof.
  assert (rtc lock_step lock_init ex_st1) as Hr.
  { apply rtc_once, ex_lock_step; try apply fresh_init; try done.
    - apply lock_init_ok.
    - ex_request.
    - ex_idle.
    - by left. }
  split; [exact Hr|]. split; [|reflexivity].
  destruct (locks_reachable_safe ex_st1 Hr) as [Hall _]. apply (Hall 1).
Defined.

(** The second process to close the circle gets -EDEADLK. *)
Lemma posix_lock_file_correct_witness :
  exists st' r, posix_lock_file ex_st3 1 ex_a_asks true false true 7 8 = Some (st', r)
    /\ st' = ex_st3 /\ r = LRet (- EDEADLK)
    /\ tc (waits (edges ex_st3)) (task_of ex_b) (task_of ex_a).
Proof.
  destruct (posix_lock_file_correct ex_st3 1 ex_a_asks true false true 7 8)
    as (st' & r & E & _ & Ho).
  - apply ex_st3_ok.
  - ex_request.
  - ex_idle.
  - ex_fresh.
  - ex_fresh.
  - done.
  - by left.
  - exists st', r. split; [exact E|].
    assert (snd <$> posix_lock_file ex_st3 1 ex_a_asks true false true 7 8 = Some (LRet (- EDEADLK))) as E'
      by (vm_compute; reflexivity).
    rewrite E in E'. injection E' as ->.
    inversion Ho as [| |fl Hfl _ Htc| |]; subst. split_and!; [done..|].
    vm_compute in Hfl. simplify_eq. exact Htc.
Defined.

Lemma posix_locks_deadlock_correct_witness :
  posix_locks_deadlock ex_st3 ex_a_asks ex_b = Some true
  /\ tc (waits (edges ex_st3)) (task_of ex_b) (task_of ex_a_asks).
Proof.
  destruct (posix_locks_deadlock_correct ex_st3 ex_a_asks ex_b) as (r & E & Hr).
  { apply (so_graph _ ex_st3_ok). }
  assert (r = true) as -> by (vm_compute in E; congruence).
  split; [exact E|]. by destruct (proj1 Hr eq_refl) as [[=]|?].
Defined.

Definition ex_flock : file_lock := FileLock 54 0 0 5 FL_FLOCK F_WRLCK 0 OFFSET_MAX.

Lemma flock_lock_file_correct_witness :
  exists st', flock_lock_file ex_st2 1 ex_flock false false true 9 = Some (st', LRet 0)
    /\ state_ok st' /\ exists x, x ∈ inode_locks st' 1 /\ is_flock_of 5 x.
Proof.
  destruct (flock_lock_file_correct ex_st2 1 ex_flock false false true 9) as (st' & r & E & Hok & _ & Hr).
  - apply ex_st2_ok.
  - split_and!; try done. left. by right.
  - done.
  - done.
  - ex_fresh.
  - assert (snd <$> flock_lock_file ex_st2 1 ex_flock false false true 9 = Some (LRet 0)) as E'
      by (vm_compute; reflexivity).
    rewrite E in E'. injection E' as ->. exists st'.
    split; [exact E|]. split; [exact Hok|]. destruct (Hr eq_refl ltac:(done)) as (x & Hx & Hf & _). by exists x.
Defined.

Lemma locks_remove_posix_correct_witness :
  exists st', locks_remove_posix (fun s _ => s) ex_st3 1 7 = Some st'
    /\ ids (inode_locks st' 1) = [3] /\ woken st' = [52].
Proof.
  destruct (locks_remove_posix_correct (fun s _ => s) ex_st3 1 7) as (st' & E & _).
  - by intros st fl.
  - apply ex_st3_ok.
  - exists st'. split; [exact E|].
    assert ((fun s => (ids (inode_locks s 1), woken s)) <$> locks_remove_posix (fun s _ => s) ex_st3 1 7
            = Some ([3], [52])) as E' by (vm_compute; reflexivity).
    rewrite E in E'. by injection E'.
Defined.

Lemma getlk_roundtrip_witness :
  exists fl, posix_make_lock ex_task ex_filp 9 (flock_of (Some ex_b) (Flock 0 0 0 0 0)) = Some fl
    /\ fl_start fl = 200 /\ fl_end fl = 299.
Proof.
  destruct (getlk_roundtrip ex_task ex_filp 9 (Flock 0 0 0 0 0) ex_b) as (fl & E & Hs & He & _).
  - split_and!; try done; [by right|by left].
  - exists fl. split; [exact E|]. split; [exact Hs|exact He].
Defined.

(** ** A second FLOCK lock

    A process that slept goes back to [repeat] and not to [search]: a lock that
    another process gave the same open file in the meantime stays, and the file
    has two locks.  An unlock then removes only the first. *)

Lemma flock_resume_inserts st ino F blocker wait :
  flock_conflict F (inode_locks (locks_delete_block st blocker F) ino) = None ->
  inode_locks (flock_lock_resume st ino F blocker wait false).1 ino
    = F :: inode_locks (locks_delete_block st blocker F) ino
  /\ (flock_lock_resume st ino F blocker wait false).2 = LRet 0.
Proof.
  intros H. unfold flock_lock_resume, flock_lock_repeat. rewrite H. split; [|done]. cbn [fst].
  change (inode_locks (table_insert ?s F) ino) with (inode_locks s ino).
  by rewrite inode_locks_set, decide_True.
Qed.
