(* ===== verification/Cred.v ===== *)
(** * kernel/sys.c, kernel/capability.c, kernel/fork.c: credentials

    The user and group ids of the calling process, its capability sets, the
    system calls that change them, and the cache of [user_struct]s that counts
    the processes of a user.  The calls run in a state monad over the
    credentials of [current] and the cache: [capable] marks the process when it
    grants, so the order of the tests is visible. *)

From S2P Require Import Prelude.

(** ** Data *)

Record user_struct := UserStruct { u_count : Z; u_uid : Z }.

(** The slab of [user_struct]s by address, and the chains of the hash table. *)
Record uid_cache := UidCache { users : gmap Z user_struct; uidhash : gmap Z (list Z) }.

(** The part of [task_struct] that carries credentials.  [user] is NULL when it
    is [None]. *)
Record cred := Cred {
  uid : Z; euid : Z; suid : Z; fsuid : Z;
  gid : Z; egid : Z; sgid : Z; fsgid : Z;
  ngroups : Z; groups : list Z;
  cap_effective : Z; cap_inheritable : Z; cap_permitted : Z;
  user : option Z;
  dumpable : bool;
  flags : Z
}.

Record cstate := CState { current : cred; cache : uid_cache; securebits : Z }.

Definition CAP_FS_MASK : Z := 0x1f.
Definition CAP_SETGID : Z := 6.
Definition CAP_SETUID : Z := 7.
Definition CAP_SETPCAP : Z := 8.
Definition PF_SUPERPRIV : Z := 0x100.
Definition SECUREBITS_DEFAULT : Z := 0.
Definition SECURE_NO_SETUID_FIXUP : Z := 2.
Definition UIDHASH_SZ : Z := 32.
Definition NGROUPS : Z := 32.

(** [(uid_t) -1]: "leave this id alone". *)
Definition NO_ID : Z := 2 ^ 32 - 1.

(** ** The monad *)

Definition M (A : Type) : Type := cstate -> A * cstate.

Definition ret {A} (x : A) : M A := fun s => (x, s).

Definition bind {A B} (m : M A) (k : A -> M B) : M B := fun s => let (x, s) := m s in k x s.

Declare Scope cred_scope.
Delimit Scope cred_scope with cred.
Notation "'let!' x := m 'in' k" := (bind m (fun x => k))
  (at level 10, x name, m at level 100, k at level 200) : cred_scope.
Notation "m ;; k" := (bind m (fun _ => k)) (at level 100, k at level 200, right associativity) : cred_scope.
Open Scope cred_scope.

Definition get_current : M cred := fun s => (current s, s).

Definition upd (f : cred -> cred) : M unit := fun s => (tt, CState (f (current s)) (cache s) (securebits s)).

Definition when (b : bool) (m : M unit) : M unit := if b then m else ret tt.

(** ** Assignments to fields of [current] *)

Definition set_uid (v : Z) (c : cred) : cred :=
  Cred v (euid c) (suid c) (fsuid c) (gid c) (egid c) (sgid c) (fsgid c) (ngroups c) (groups c)
       (cap_effective c) (cap_inheritable c) (cap_permitted c) (user c) (dumpable c) (flags c).

Definition set_euid (v : Z) (c : cred) : cred :=
  Cred (uid c) v (suid c) (fsuid c) (gid c) (egid c) (sgid c) (fsgid c) (ngroups c) (groups c)
       (cap_effective c) (cap_inheritable c) (cap_permitted c) (user c) (dumpable c) (flags c).

Definition set_suid (v : Z) (c : cred) : cred :=
  Cred (uid c) (euid c) v (fsuid c) (gid c) (egid c) (sgid c) (fsgid c) (ngroups c) (groups c)
       (cap_effective c) (cap_inheritable c) (cap_permitted c) (user c) (dumpable c) (flags c).

Definition set_fsuid (v : Z) (c : cred) : cred :=
  Cred (uid c) (euid c) (suid c) v (gid c) (egid c) (sgid c) (fsgid c) (ngroups c) (groups c)
       (cap_effective c) (cap_inheritable c) (cap_permitted c) (user c) (dumpable c) (flags c).

Definition set_gid (v : Z) (c : cred) : cred :=
  Cred (uid c) (euid c) (suid c) (fsuid c) v (egid c) (sgid c) (fsgid c) (ngroups c) (groups c)
       (cap_effective c) (cap_inheritable c) (cap_permitted c) (user c) (dumpable c) (flags c).

Definition set_egid (v : Z) (c : cred) : cred :=
  Cred (uid c) (euid c) (suid c) (fsuid c) (gid c) v (sgid c) (fsgid c) (ngroups c) (groups c)
       (cap_effective c) (cap_inheritable c) (cap_permitted c) (user c) (dumpable c) (flags c).

Definition set_sgid (v : Z) (c : cred) : cred :=
  Cred (uid c) (euid c) (suid c) (fsuid c) (gid c) (egid c) v (fsgid c) (ngroups c) (groups c)
       (cap_effective c) (cap_inheritable c) (cap_permitted c) (user c) (dumpable c) (flags c).

Definition set_fsgid (v : Z) (c : cred) : cred :=
  Cred (uid c) (euid c) (suid c) (fsuid c) (gid c) (egid c) (sgid c) v (ngroups c) (groups c)
       (cap_effective c) (cap_inheritable c) (cap_permitted c) (user c) (dumpable c) (flags c).

Definition set_groups (n : Z) (v : list Z) (c : cred) : cred :=
  Cred (uid c) (euid c) (suid c) (fsuid c) (gid c) (egid c) (sgid c) (fsgid c) n v
       (cap_effective c) (cap_inheritable c) (cap_permitted c) (user c) (dumpable c) (flags c).

Definition set_caps (e i p : Z) (c : cred) : cred :=
  Cred (uid c) (euid c) (suid c) (fsuid c) (gid c) (egid c) (sgid c) (fsgid c) (ngroups c) (groups c)
       e i p (user c) (dumpable c) (flags c).

Definition set_effective (e : Z) (c : cred) : cred := set_caps e (cap_inheritable c) (cap_permitted c) c.

Definition set_user (v : option Z) (c : cred) : cred :=
  Cred (uid c) (euid c) (suid c) (fsuid c) (gid c) (egid c) (sgid c) (fsgid c) (ngroups c) (groups c)
       (cap_effective c) (cap_inheritable c) (cap_permitted c) v (dumpable c) (flags c).

Definition set_dumpable (v : bool) (c : cred) : cred :=
  Cred (uid c) (euid c) (suid c) (fsuid c) (gid c) (egid c) (sgid c) (fsgid c) (ngroups c) (groups c)
       (cap_effective c) (cap_inheritable c) (cap_permitted c) (user c) v (flags c).

Definition set_flags (v : Z) (c : cred) : cred :=
  Cred (uid c) (euid c) (suid c) (fsuid c) (gid c) (egid c) (sgid c) (fsgid c) (ngroups c) (groups c)
       (cap_effective c) (cap_inheritable c) (cap_permitted c) (user c) (dumpable c) v.

(** ** include/linux/capability.h, include/linux/sched.h *)

Definition CAP_TO_MASK (x : Z) : Z := Z.shiftl 1 x.

Definition cap_raised (c flag : Z) : bool := negb (Z.land c (CAP_TO_MASK flag) =? 0).

Definition cap_issubset (a set : Z) : bool := Z.land a (Z.lnot set) =? 0.

Definition cap_combine (a b : Z) : Z := Z.lor a b.

Definition issecure (sb x : Z) : bool :=
  if negb (Z.land (Z.shiftl 1 (x + 1)) SECUREBITS_DEFAULT =? 0)
  then negb (Z.land (Z.shiftl 1 x) SECUREBITS_DEFAULT =? 0)
  else negb (Z.land (Z.shiftl 1 x) sb =? 0).

Definition capable (cap : Z) : M bool :=
  let! c := get_current in
  if cap_raised (cap_effective c) cap
  then upd (set_flags (Z.lor (flags c) PF_SUPERPRIV)) ;; ret true
  else ret false.

(** [b || capable(cap)] *)
Definition or_capable (b : bool) (cap : Z) : M bool := if b then ret true else capable cap.

(** ** kernel/fork.c: the cache of users *)

Definition uidhashfn (uid : Z) : Z := Z.land (Z.lxor (Z.shiftr uid 8) uid) (UIDHASH_SZ - 1).

Definition chain (k : uid_cache) (hashent : Z) : list Z := default [] (uidhash k !! hashent).

Definition uid_hash_insert (k : uid_cache) (up hashent : Z) : uid_cache :=
  UidCache (users k) (<[hashent := up :: chain k hashent]> (uidhash k)).

Definition uid_hash_remove (k : uid_cache) (up hashent : Z) : uid_cache :=
  UidCache (users k) (<[hashent := filter (fun a => a <> up) (chain k hashent)]> (uidhash k)).

(** The parameter of [uid_find] is an [unsigned short]. *)
Fixpoint uid_find_loop (k : uid_cache) (l : list Z) (uid : Z) : option Z :=
  match l with
  | [] => None
  | up :: l =>
    match users k !! up with
    | Some u => if u_uid u =? uid then Some up else uid_find_loop k l uid
    | None => uid_find_loop k l uid
    end
  end.

Definition uid_find (k : uid_cache) (uid hashent : Z) : option Z :=
  uid_find_loop k (chain k hashent) (u16 uid).

Definition set_count (k : uid_cache) (up : Z) (f : Z -> Z) : uid_cache :=
  UidCache (alter (fun u => UserStruct (f (u_count u)) (u_uid u)) up (users k)) (uidhash k).

Definition cache_release (k : uid_cache) (up : Z) : uid_cache :=
  let k := set_count k up Z.pred in
  match users k !! up with
  | Some u =>
    if u_count u =? 0 then
      let k := uid_hash_remove k up (uidhashfn (u_uid u)) in
      UidCache (delete up (users k)) (uidhash k)
    else k
  | None => k
  end.

(** [fresh] is what [kmem_cache_alloc] returns.  The result is [p->user] and
    the return value. *)
Definition cache_charge (fresh : option Z) (k : uid_cache) (u : Z) : option Z * Z * uid_cache :=
  let hashent := uidhashfn u in
  match uid_find k u hashent with
  | Some up => (Some up, 0, set_count k up Z.succ)
  | None =>
    match fresh with
    | None => (None, - EAGAIN, k)
    | Some up =>
      let k := UidCache (<[up := UserStruct 0 u]> (users k)) (uidhash k) in
      let k := uid_hash_insert k up hashent in
      (Some up, 0, set_count k up Z.succ)
    end
  end.

Definition free_uid : M unit := fun s =>
  match user (current s) with
  | None => (tt, s)
  | Some up => (tt, CState (set_user None (current s)) (cache_release (cache s) up) (securebits s))
  end.

Definition alloc_uid (fresh : option Z) : M Z := fun s =>
  let '(up, r, k) := cache_charge fresh (cache s) (uid (current s)) in
  (r, CState (set_user up (current s)) k (securebits s)).

(** ** kernel/sys.c *)

Section calls.
Context (fresh : option Z).

(** [free_uid(current); current->uid = new; alloc_uid(current);] *)
Definition change_uid (new : Z) : M unit :=
  free_uid ;; upd (set_uid new) ;; alloc_uid fresh ;; ret tt.

Definition sys_setregid (rgid egid_ : Z) : M Z :=
  let! c := get_current in
  let old_rgid := gid c in
  let old_egid := egid c in
  let! ok := (if rgid =? NO_ID then ret true else
              let! ok := or_capable ((old_rgid =? rgid) || (egid c =? rgid)) CAP_SETGID in
              when ok (upd (set_gid rgid)) ;; ret ok) in
  if negb ok then ret (- EPERM) else
  let! ok := (if egid_ =? NO_ID then ret true else
              let! ok := or_capable ((old_rgid =? egid_) || (egid c =? egid_) || (sgid c =? egid_)) CAP_SETGID in
              (if ok then upd (set_egid egid_) ;; upd (set_fsgid egid_) else upd (set_gid old_rgid)) ;; ret ok) in
  if negb ok then ret (- EPERM) else
  let! c := get_current in
  when (negb (rgid =? NO_ID) || (negb (egid_ =? NO_ID) && negb (egid_ =? old_rgid)))
       (upd (set_sgid (egid c))) ;;
  upd (set_fsgid (egid c)) ;;
  when (negb (egid c =? old_egid)) (upd (set_dumpable false)) ;;
  ret 0.

Definition sys_setgid (gid_ : Z) : M Z :=
  let! c := get_current in
  let old_egid := egid c in
  let! ok := (let! cap := capable CAP_SETGID in
              if cap then
                upd (set_fsgid gid_) ;; upd (set_sgid gid_) ;; upd (set_egid gid_) ;; upd (set_gid gid_) ;; ret true
              else if (gid_ =? gid c) || (gid_ =? sgid c) then
                upd (set_fsgid gid_) ;; upd (set_egid gid_) ;; ret true
              else ret false) in
  if negb ok then ret (- EPERM) else
  let! c := get_current in
  when (negb (egid c =? old_egid)) (upd (set_dumpable false)) ;;
  ret 0.

Definition cap_emulate_setxuid (old_ruid old_euid old_suid : Z) : M unit :=
  let! c := get_current in
  when (((old_ruid =? 0) || (old_euid =? 0) || (old_suid =? 0)) &&
        (negb (uid c =? 0) && negb (euid c =? 0) && negb (suid c =? 0)))
       (upd (set_caps 0 (cap_inheritable c) 0)) ;;
  when ((old_euid =? 0) && negb (euid c =? 0)) (upd (set_effective 0)) ;;
  let! c := get_current in
  when (negb (old_euid =? 0) && (euid c =? 0)) (upd (set_effective (cap_permitted c))).

(** The end of [setreuid], [setuid] and [setresuid]. *)
Definition setuid_fixup (old_ruid old_euid old_suid : Z) : M Z := fun s =>
  (when (negb (issecure (securebits s) SECURE_NO_SETUID_FIXUP))
        (cap_emulate_setxuid old_ruid old_euid old_suid) ;; ret 0) s.

Definition sys_setreuid (ruid euid_ : Z) : M Z :=
  let! c := get_current in
  let old_ruid := uid c in
  let old_euid := euid c in
  let old_suid := suid c in
  let! ok := (if ruid =? NO_ID then ret true
              else or_capable ((old_ruid =? ruid) || (euid c =? ruid)) CAP_SETUID) in
  if negb ok then ret (- EPERM) else
  let new_ruid := if ruid =? NO_ID then old_ruid else ruid in
  let! ok := (if euid_ =? NO_ID then ret true else
              let! ok := or_capable ((old_ruid =? euid_) || (euid c =? euid_) || (suid c =? euid_)) CAP_SETUID in
              when ok (upd (set_euid euid_) ;; upd (set_fsuid euid_)) ;; ret ok) in
  if negb ok then ret (- EPERM) else
  let! c := get_current in
  when (negb (ruid =? NO_ID) || (negb (euid_ =? NO_ID) && negb (euid_ =? old_ruid)))
       (upd (set_suid (euid c))) ;;
  upd (set_fsuid (euid c)) ;;
  when (negb (euid c =? old_euid)) (upd (set_dumpable false)) ;;
  when (negb (new_ruid =? old_ruid)) (change_uid new_ruid) ;;
  setuid_fixup old_ruid old_euid old_suid.

Definition sys_setuid (uid_ : Z) : M Z :=
  let! c := get_current in
  let old_ruid := uid c in
  let old_euid := euid c in
  let old_suid := suid c in
  let! new_ruid := (let! cap := capable CAP_SETUID in
                    if cap then
                      upd (set_fsuid uid_) ;; upd (set_suid uid_) ;; upd (set_euid uid_) ;; ret (Some uid_)
                    else if (uid_ =? uid c) || (uid_ =? suid c) then
                      upd (set_euid uid_) ;; upd (set_fsuid uid_) ;; ret (Some old_ruid)
                    else ret None) in
  match new_ruid with
  | None => ret (- EPERM)
  | Some new_ruid =>
    let! c := get_current in
    when (negb (euid c =? old_euid)) (upd (set_dumpable false)) ;;
    when (negb (new_ruid =? old_ruid)) (change_uid new_ruid) ;;
    setuid_fixup old_ruid old_euid old_suid
  end.

(** The test of [setresuid] and [setresgid] for one argument. *)
Definition one_of (id r e s : Z) : bool :=
  negb (negb (id =? NO_ID) && negb (id =? r) && negb (id =? e) && negb (id =? s)).

Definition sys_setresuid (ruid euid_ suid_ : Z) : M Z :=
  let! c := get_current in
  let old_ruid := uid c in
  let old_euid := euid c in
  let old_suid := suid c in
  let! cap := capable CAP_SETUID in
  if negb cap && negb (one_of ruid old_ruid old_euid old_suid) then ret (- EPERM) else
  if negb cap && negb (one_of euid_ old_ruid old_euid old_suid) then ret (- EPERM) else
  if negb cap && negb (one_of suid_ old_ruid old_euid old_suid) then ret (- EPERM) else
  when (negb (ruid =? NO_ID)) (change_uid ruid) ;;
  when (negb (euid_ =? NO_ID))
       (when (negb (euid_ =? old_euid)) (upd (set_dumpable false)) ;;
        upd (set_euid euid_) ;; upd (set_fsuid euid_)) ;;
  when (negb (suid_ =? NO_ID)) (upd (set_suid suid_)) ;;
  setuid_fixup old_ruid old_euid old_suid.

Definition sys_setresgid (rgid egid_ sgid_ : Z) : M Z :=
  let! c := get_current in
  let! cap := capable CAP_SETGID in
  if negb cap && negb (one_of rgid (gid c) (egid c) (sgid c)) then ret (- EPERM) else
  if negb cap && negb (one_of egid_ (gid c) (egid c) (sgid c)) then ret (- EPERM) else
  if negb cap && negb (one_of sgid_ (gid c) (egid c) (sgid c)) then ret (- EPERM) else
  when (negb (rgid =? NO_ID)) (upd (set_gid rgid)) ;;
  when (negb (egid_ =? NO_ID))
       (when (negb (egid_ =? egid c)) (upd (set_dumpable false)) ;;
        upd (set_egid egid_) ;; upd (set_fsgid egid_)) ;;
  when (negb (sgid_ =? NO_ID)) (upd (set_sgid sgid_)) ;;
  ret 0.

Definition sys_setfsuid (uid_ : Z) : M Z :=
  let! c := get_current in
  let old_fsuid := fsuid c in
  let! ok := or_capable ((uid_ =? uid c) || (uid_ =? euid c) || (uid_ =? suid c) || (uid_ =? fsuid c))
                        CAP_SETUID in
  when ok (upd (set_fsuid uid_)) ;;
  let! c := get_current in
  when (negb (fsuid c =? old_fsuid)) (upd (set_dumpable false)) ;;
  (fun s =>
     when (negb (issecure (securebits s) SECURE_NO_SETUID_FIXUP))
       (when ((old_fsuid =? 0) && negb (fsuid c =? 0))
          (upd (set_effective (Z.land (cap_effective c) (Z.lnot CAP_FS_MASK)))) ;;
        when (negb (old_fsuid =? 0) && (fsuid c =? 0))
          (upd (set_effective (Z.lor (cap_effective c) (Z.land (cap_permitted c) CAP_FS_MASK))))) s) ;;
  ret (s32 old_fsuid).

Definition sys_setfsgid (gid_ : Z) : M Z :=
  let! c := get_current in
  let old_fsgid := fsgid c in
  let! ok := or_capable ((gid_ =? gid c) || (gid_ =? egid c) || (gid_ =? sgid c) || (gid_ =? fsgid c))
                        CAP_SETGID in
  when ok (upd (set_fsgid gid_)) ;;
  let! c := get_current in
  when (negb (fsgid c =? old_fsgid)) (upd (set_dumpable false)) ;;
  ret (s32 old_fsgid).

End calls.

(** [copied] are the ids that [copy_from_user] copied before it faulted, if it
    did. *)
Definition sys_setgroups (gidsetsize : Z) (copied : list Z) : M Z :=
  let! cap := capable CAP_SETGID in
  if negb cap then ret (- EPERM) else
  if NGROUPS <? u32 gidsetsize then ret (- EINVAL) else
  let! c := get_current in
  let new := copied ++ drop (length copied) (groups c) in
  if Z.of_nat (length copied) <? gidsetsize then upd (set_groups (ngroups c) new) ;; ret (- EFAULT)
  else upd (set_groups gidsetsize new) ;; ret 0.

(** The result and the ids offered to [copy_to_user], which fails when [fault]
    holds. *)
Definition sys_getgroups (gidsetsize : Z) (fault : bool) : M (Z * list Z) :=
  if gidsetsize <? 0 then ret (- EINVAL, []) else
  let! c := get_current in
  let i := ngroups c in
  if gidsetsize =? 0 then ret (i, []) else
  if gidsetsize <? i then ret (- EINVAL, []) else
  if fault then ret (- EFAULT, []) else ret (i, take (Z.to_nat i) (groups c)).

Fixpoint groups_loop (i : nat) (l : list Z) (grp : Z) : bool :=
  match i, l with
  | S i, g :: l => if g =? grp then true else groups_loop i l grp
  | _, _ => false
  end.

Definition in_group_p (grp : Z) : M bool :=
  let! c := get_current in
  if negb (grp =? fsgid c) then ret (groups_loop (Z.to_nat (ngroups c)) (groups c) grp) else ret true.

(** ** kernel/capability.c *)

(** The three tests of [sys_capset] on the new sets of [target]. *)
Definition capset_allowed (cur target : cred) (effective inheritable permitted : Z) : bool :=
  cap_issubset inheritable (cap_combine (cap_inheritable target) (cap_permitted cur)) &&
  cap_issubset permitted (cap_combine (cap_permitted target) (cap_permitted cur)) &&
  cap_issubset effective permitted.

(** [sys_capset] for the calling process: [header->pid] is 0. *)
Definition capset_self (effective inheritable permitted : Z) : M Z :=
  let! c := get_current in
  if capset_allowed c c effective inheritable permitted
  then upd (set_caps effective inheritable permitted) ;; ret 0
  else ret (- EPERM).

(** ** Sequences of calls *)

Inductive cred_call :=
| Setregid (r e : Z) | Setgid (g : Z) | Setreuid (r e : Z) | Setuid (u : Z)
| Setresuid (r e s : Z) | Setresgid (r e s : Z) | Setfsuid (u : Z) | Setfsgid (g : Z)
| Setgroups (n : Z) (copied : list Z) | Capset (e i p : Z).

Definition run_call (fresh : option Z) (call : cred_call) : M Z :=
  match call with
  | Setregid r e => sys_setregid r e
  | Setgid g => sys_setgid g
  | Setreuid r e => sys_setreuid fresh r e
  | Setuid u => sys_setuid fresh u
  | Setresuid r e s => sys_setresuid fresh r e s
  | Setresgid r e s => sys_setresgid r e s
  | Setfsuid u => sys_setfsuid u
  | Setfsgid g => sys_setfsgid g
  | Setgroups n l => sys_setgroups n l
  | Capset e i p => capset_self e i p
  end.

Definition cred_step (s s' : cstate) : Prop :=
  exists fresh call, s' = (run_call fresh call s).2.

(** ** A program logic for the calls

    [triple P m Q]: run from credentials that satisfy [P], [m] returns a value
    and credentials that satisfy [Q]. *)

Definition triple {A} (P : cred -> Prop) (m : M A) (Q : A -> cred -> Prop) : Prop :=
  forall s, P (current s) -> Q (m s).1 (current (m s).2).

Lemma triple_ret {A} (P : cred -> Prop) (x : A) (Q : A -> cred -> Prop) :
  (forall c, P c -> Q x c) -> triple P (ret x) Q.
Proof. intros H s. apply H. Qed.

Lemma triple_bind {A B} (P : cred -> Prop) (m : M A) R (k : A -> M B) Q :
  triple P m R -> (forall x, triple (R x) (k x) Q) -> triple P (bind m k) Q.
Proof.
  intros Hm Hk s Hs. unfold bind. specialize (Hm s Hs). destruct (m s) as [x s'].
  apply (Hk x s' Hm).
Qed.

Lemma triple_conseq {A} (P P' : cred -> Prop) (m : M A) (Q Q' : A -> cred -> Prop) :
  triple P' m Q' -> (forall c, P c -> P' c) -> (forall x c, Q' x c -> Q x c) -> triple P m Q.
Proof. intros H HP HQ s Hs. apply HQ, H, HP, Hs. Qed.

Lemma triple_upd P f Q : (forall c, P c -> Q tt (f c)) -> triple P (upd f) Q.
Proof. intros H s. apply H. Qed.

Lemma triple_when P b m Q :
  (b = true -> triple P m Q) -> (b = false -> forall c, P c -> Q tt c) -> triple P (when b m) Q.
Proof. destruct b; intros Ht Hf; [by apply Ht|]. apply triple_ret. by apply Hf. Qed.

(** [when] restores an invariant. *)
Lemma triple_when_inv (I : cred -> Prop) b m :
  (b = true -> triple I m (fun _ => I)) -> triple I (when b m) (fun _ => I).
Proof. intros H. apply triple_when; auto. Qed.

Lemma triple_upd_inv (I : cred -> Prop) f : (forall c, I c -> I (f c)) -> triple I (upd f) (fun _ => I).
Proof. intros H. by apply triple_upd. Qed.

Lemma triple_seq {A} (I : cred -> Prop) (m : M unit) (k : M A) Q :
  triple I m (fun _ => I) -> triple I k Q -> triple I (bind m (fun _ => k)) Q.
Proof. intros Hm Hk. by eapply triple_bind. Qed.

Lemma triple_get {A} (P : cred -> Prop) (k : cred -> M A) Q :
  (forall c, P c -> triple (eq c) (k c) Q) -> triple P (bind get_current k) Q.
Proof. intros H s Hs. by apply (H (current s) Hs s). Qed.

(** A fact that does not depend on the state moves to the context. *)
Lemma triple_pure {A} (P : cred -> Prop) (X : Prop) (m : M A) Q :
  (X -> triple P m Q) -> triple (fun c => P c /\ X) m Q.
Proof. intros H s [Hs HX]. by apply (H HX). Qed.

(** A program that reads [securebits]. *)
Lemma triple_securebits {A} (P : cred -> Prop) (f : Z -> M A) Q :
  (forall sb, triple P (f sb) Q) -> triple P (fun s => f (securebits s) s) Q.
Proof. intros H s Hs. by apply (H (securebits s) s). Qed.

(** ** Sets of capabilities *)

Definition cap_sub (a b : Z) : Prop := forall i, Z.testbit a i = true -> Z.testbit b i = true.

Definition has_cap (set cap : Z) : Prop := Z.testbit set cap = true.

Lemma cap_raised_spec a cap : 0 <= cap -> cap_raised a cap = Z.testbit a cap.
Proof.
  intros Hc. unfold cap_raised, CAP_TO_MASK. rewrite Z.shiftl_1_l.
  destruct (Z.testbit a cap) eqn:E.
  - apply negb_true_iff, Z.eqb_neq. intros H.
    assert (Z.testbit (Z.land a (2 ^ cap)) cap = true) by (by rewrite Z.land_spec, Z.pow2_bits_true, E).
    rewrite H, Z.bits_0 in *. done.
  - apply negb_false_iff, Z.eqb_eq, Z.bits_inj. intros i. rewrite Z.land_spec, Z.bits_0.
    destruct (decide (i = cap)) as [->|]; [by rewrite E|].
    rewrite Z.pow2_bits_false by done. by rewrite andb_false_r.
Qed.

Lemma cap_issubset_spec a b : cap_issubset a b = true <-> cap_sub a b.
Proof.
  unfold cap_issubset, cap_sub. rewrite Z.eqb_eq. split.
  - intros H i Hi. destruct (Z.testbit b i) eqn:E; [done|].
    assert (0 <= i) by (destruct (decide (0 <= i)); [done|]; rewrite Z.testbit_neg_r in Hi by lia; done).
    assert (Z.testbit (Z.land a (Z.lnot b)) i = true) by (by rewrite Z.land_spec, Z.lnot_spec, Hi, E).
    rewrite H, Z.bits_0 in *. done.
  - intros H. apply Z.bits_inj'. intros i Hi. rewrite Z.land_spec, Z.lnot_spec, Z.bits_0 by done.
    specialize (H i). destruct (Z.testbit a i), (Z.testbit b i); simpl; auto. by rewrite H.
Qed.

Lemma cap_sub_refl a : cap_sub a a.
Proof. by intros i. Qed.

Lemma cap_sub_trans a b c : cap_sub a b -> cap_sub b c -> cap_sub a c.
Proof. intros H1 H2 i Hi. by apply H2, H1. Qed.

Lemma cap_sub_0 a : cap_sub 0 a.
Proof. intros i. by rewrite Z.bits_0. Qed.

Lemma cap_sub_0_eq a : cap_sub a 0 -> a = 0.
Proof.
  intros H. apply Z.bits_inj. intros i. rewrite Z.bits_0. specialize (H i).
  destruct (Z.testbit a i); [|done]. rewrite Z.bits_0 in H. discriminate H; done.
Qed.

Lemma cap_sub_lor a b c : cap_sub (Z.lor a b) c <-> cap_sub a c /\ cap_sub b c.
Proof.
  split.
  - intros H. split; intros i Hi; apply H; rewrite Z.lor_spec, Hi; [done|apply orb_true_r].
  - intros [H1 H2] i. rewrite Z.lor_spec. intros [?|?]%orb_true_iff; auto.
Qed.

Lemma cap_sub_land a b c : cap_sub a c -> cap_sub (Z.land a b) c.
Proof. intros H i. rewrite Z.land_spec. intros [? _]%andb_true_iff. auto. Qed.

#[export] Hint Resolve cap_sub_refl cap_sub_0 cap_sub_land : kernel.

(** ** What a process can reach from credentials [c0] *)

Definition allowed_uid (c0 : cred) (u : Z) : Prop :=
  has_cap (cap_permitted c0) CAP_SETUID \/ u = uid c0 \/ u = euid c0 \/ u = suid c0.

Definition allowed_gid (c0 : cred) (g : Z) : Prop :=
  has_cap (cap_permitted c0) CAP_SETGID \/ g = gid c0 \/ g = egid c0 \/ g = sgid c0.

Record confined (c0 c : cred) : Prop := Confined {
  cf_effective : cap_sub (cap_effective c) (cap_permitted c);
  cf_permitted : cap_sub (cap_permitted c) (cap_permitted c0);
  cf_inheritable : cap_sub (cap_inheritable c) (Z.lor (cap_inheritable c0) (cap_permitted c0));
  cf_uid : allowed_uid c0 (uid c);
  cf_euid : allowed_uid c0 (euid c);
  cf_suid : allowed_uid c0 (suid c);
  cf_fsuid : allowed_uid c0 (fsuid c) \/ fsuid c = fsuid c0;
  cf_gid : allowed_gid c0 (gid c);
  cf_egid : allowed_gid c0 (egid c);
  cf_sgid : allowed_gid c0 (sgid c);
  cf_fsgid : allowed_gid c0 (fsgid c) \/ fsgid c = fsgid c0;
  cf_groups : has_cap (cap_permitted c0) CAP_SETGID \/ (ngroups c = ngroups c0 /\ groups c = groups c0)
}.

Lemma confined_refl c : cap_sub (cap_effective c) (cap_permitted c) -> confined c c.
Proof.
  intros H. split; unfold allowed_uid, allowed_gid; auto with kernel.
  apply (cap_sub_lor (cap_inheritable c) (cap_permitted c) _). apply cap_sub_refl.
Qed.

Lemma capable_confined c0 cap (P : cred -> Prop) :
  0 <= cap -> (forall c, P c -> confined c0 c) ->
  (forall c v, P c -> P (set_flags v c)) ->
  triple P (capable cap) (fun b c => P c /\ (b = true -> has_cap (cap_permitted c0) cap)).
Proof.
  intros Hcap HP Hfl. apply triple_get. intros c Hc. pose proof (HP c Hc) as Hcf.
  rewrite cap_raised_spec by done. destruct (Z.testbit (cap_effective c) cap) eqn:E.
  - apply (triple_bind _ _ (fun _ => P)).
    + apply triple_upd. intros ? <-. by apply Hfl.
    + intros _. apply triple_ret. intros c' Hc'. split; [done|]. intros _.
      by apply (cf_permitted _ _ Hcf), (cf_effective _ _ Hcf).
  - apply triple_ret. by intros ? <-.
Qed.

(** [change_uid] changes [uid] and [user] of [current] only. *)
Lemma change_uid_cred fresh new s :
  exists up, current (change_uid fresh new s).2 = set_user up (set_uid new (current s))
             /\ securebits (change_uid fresh new s).2 = securebits s.
Proof.
  unfold change_uid, bind, free_uid, upd, alloc_uid, ret.
  destruct (user (current s)) as [a|]; simpl.
  all: match goal with |- context [cache_charge ?f ?k ?u] => destruct (cache_charge f k u) as [[up r] k'] end.
  all: by exists up.
Qed.

Lemma triple_change_uid P fresh new Q :
  (forall c up, P c -> Q tt (set_user up (set_uid new c))) -> triple P (change_uid fresh new) Q.
Proof.
  intros H s Hs. destruct (change_uid_cred fresh new s) as (up & E & _).
  destruct (change_uid fresh new s) as [[] s']. simpl in *. rewrite E. by apply H.
Qed.

Lemma triple_get_inv {A} (I : cred -> Prop) (k : cred -> M A) Q :
  (forall c, I c -> triple I (k c) Q) -> triple I (bind get_current k) Q.
Proof. intros H s Hs. by apply (H (current s) Hs s). Qed.

(** An assignment of an allowed id keeps the process confined. *)
Ltac confined_upd :=
  apply triple_upd_inv; intros ? []; split; simpl; auto with kernel.

Lemma or_capable_confined c0 t cap :
  0 <= cap ->
  triple (confined c0) (or_capable t cap)
         (fun b c => confined c0 c /\ (b = true -> t = true \/ has_cap (cap_permitted c0) cap)).
Proof.
  intros Hcap. destruct t; [apply triple_ret; auto|].
  eapply triple_conseq; [apply (capable_confined c0 cap (confined c0)); auto|done|].
  - intros c v []. by split.
  - intros b c [Hc Hb]. auto.
Qed.

(** The invariant for one continuation of a capability test. *)
Lemma triple_or_capable_inv {A} c0 t cap (k : bool -> M A) Q :
  0 <= cap ->
  (forall b, (b = true -> t = true \/ has_cap (cap_permitted c0) cap) -> triple (confined c0) (k b) Q) ->
  triple (confined c0) (bind (or_capable t cap) k) Q.
Proof.
  intros Hcap Hk. eapply triple_bind; [by apply or_capable_confined|]. intros b. apply triple_pure, Hk.
Qed.

Lemma triple_capable_inv {A} c0 cap (k : bool -> M A) Q :
  0 <= cap ->
  (forall b, (b = true -> has_cap (cap_permitted c0) cap) -> triple (confined c0) (k b) Q) ->
  triple (confined c0) (bind (capable cap) k) Q.
Proof.
  intros Hcap Hk. apply (triple_or_capable_inv c0 false); [done|]. intros b Hb. apply Hk.
  intros E. by destruct (Hb E).
Qed.

(** [allowed] closes [allowed_uid c0 u] and [allowed_gid c0 g] from the tests the
    code made on [u] or [g]. *)
Ltac allowed :=
  repeat match goal with
  | H : true = true -> _ |- _ => specialize (H eq_refl)
  | H : _ = true \/ _ |- _ => destruct H
  | H : _ || _ = true |- _ => apply orb_true_iff in H; destruct H
  | H : (_ =? _) = true |- _ => apply Z.eqb_eq in H; subst
  | H : confined _ ?c |- _ => is_var c; destruct H
  end; first [discriminate | assumption | left; assumption | left; left; assumption].

Ltac confine :=
  repeat match goal with
  | |- triple _ (ret _) _ => by apply triple_ret
  | |- triple _ (upd _) _ => confined_upd
  | |- triple _ (bind get_current _) _ => apply triple_get_inv; intros ?c ?Hc
  | |- triple _ (bind (capable _) _) _ => apply triple_capable_inv; [done|]; intros [] ?Hb
  | |- triple _ (bind (or_capable _ _) _) _ => apply triple_or_capable_inv; [done|]; intros [] ?Hb
  | |- triple _ (bind (when _ _) _) _ => apply triple_seq; [apply triple_when_inv; intros ?E|]
  | |- triple _ (bind (upd _) _) _ => apply triple_seq; [confined_upd|]
  | |- triple (confined ?c0) (bind _ _) _ => apply (triple_bind _ _ (fun _ => confined c0)); [|intros ?x]
  | |- triple _ (if ?b then _ else _) _ => destruct b eqn:?
  end.

Lemma confined_setgid c0 g : triple (confined c0) (sys_setgid g) (fun _ => confined c0).
Proof. unfold sys_setgid. confine. all: allowed. Qed.

Lemma confined_setregid c0 r e : triple (confined c0) (sys_setregid r e) (fun _ => confined c0).
Proof. unfold sys_setregid. confine. all: allowed. Qed.

Lemma confined_setfsgid c0 g : triple (confined c0) (sys_setfsgid g) (fun _ => confined c0).
Proof. unfold sys_setfsgid. confine. all: allowed. Qed.

Lemma one_of_spec cap id r e s :
  negb cap && negb (one_of id r e s) = false -> negb (id =? NO_ID) = true ->
  cap = true \/ id = r \/ id = e \/ id = s.
Proof. unfold one_of. lia. Qed.

Lemma confined_setresgid c0 r e s : triple (confined c0) (sys_setresgid r e s) (fun _ => confined c0).
Proof.
  unfold sys_setresgid. apply triple_get_inv. intros c Hc.
  apply triple_capable_inv; [done|]. intros cap Hcap.
  assert (forall x, negb cap && negb (one_of x (gid c) (egid c) (sgid c)) = false ->
                    negb (x =? NO_ID) = true -> allowed_gid c0 x) as Hone.
  { intros x Hx Hn. destruct Hc. destruct (one_of_spec _ _ _ _ _ Hx Hn) as [?|[->|[->| ->]]]; [left|..]; auto. }
  confine; eauto.
Qed.

Lemma confined_emulate c0 r e s : triple (confined c0) (cap_emulate_setxuid r e s) (fun _ => confined c0).
Proof.
  unfold cap_emulate_setxuid. apply triple_get_inv. intros c Hc.
  apply triple_seq; [|apply triple_seq; [apply triple_when_inv; intros _; confined_upd|]].
  - apply triple_when_inv. intros _. pose proof (cf_inheritable _ _ Hc). confined_upd.
  - apply triple_get. intros c' Hc'. apply triple_when.
    + intros _. apply triple_upd. intros ? <-. destruct Hc'. split; simpl; auto with kernel.
    + by intros _ ? <-.
Qed.

Lemma confined_fixup c0 r e s : triple (confined c0) (setuid_fixup r e s) (fun _ => confined c0).
Proof.
  unfold setuid_fixup.
  apply (triple_securebits _ (fun sb => when (negb (issecure sb SECURE_NO_SETUID_FIXUP)) _ ;; ret 0)).
  intros sb. apply triple_seq; [|by apply triple_ret].
  apply triple_when_inv. intros _. apply confined_emulate.
Qed.

Lemma confined_change_uid c0 fresh u :
  allowed_uid c0 u -> triple (confined c0) (change_uid fresh u) (fun _ => confined c0).
Proof. intros Hu. apply triple_change_uid. intros c up []. by split. Qed.

Lemma confined_setresuid c0 fresh r e s :
  triple (confined c0) (sys_setresuid fresh r e s) (fun _ => confined c0).
Proof.
  unfold sys_setresuid. apply triple_get_inv. intros c Hc.
  apply triple_capable_inv; [done|]. intros cap Hcap.
  assert (forall x, negb cap && negb (one_of x (uid c) (euid c) (suid c)) = false ->
                    negb (x =? NO_ID) = true -> allowed_uid c0 x) as Hone.
  { intros x Hx Hn. destruct Hc. destruct (one_of_spec _ _ _ _ _ Hx Hn) as [?|[->|[->| ->]]]; [left|..]; auto. }
  confine; eauto using confined_change_uid, confined_fixup.
Qed.

Lemma confined_setuid c0 fresh u : triple (confined c0) (sys_setuid fresh u) (fun _ => confined c0).
Proof.
  unfold sys_setuid. apply triple_get_inv. intros c Hc.
  apply (triple_bind _ _ (fun n c' => confined c0 c' /\ (forall v, n = Some v -> allowed_uid c0 v))).
  - apply triple_capable_inv; [done|]. intros [] Hb; [|destruct (_ || _) eqn:E].
    + assert (allowed_uid c0 u) by (left; auto).
      repeat (apply triple_seq; [confined_upd|]). apply triple_ret. intros ??. split; [done|]. by intros ? [= <-].
    + assert (allowed_uid c0 u) by allowed.
      repeat (apply triple_seq; [confined_upd|]). apply triple_ret. intros ??. split; [done|].
      intros ? [= <-]. by apply Hc.
    + by apply triple_ret.
  - intros [v|]; [|apply triple_ret; by intros ? []].
    apply triple_pure. intros Hv. specialize (Hv v eq_refl).
    confine; eauto using confined_change_uid, confined_fixup.
Qed.

Lemma confined_setreuid c0 fresh r e : triple (confined c0) (sys_setreuid fresh r e) (fun _ => confined c0).
Proof.
  unfold sys_setreuid. apply triple_get_inv. intros c Hc.
  apply (triple_bind _ _ (fun ok c' => confined c0 c' /\ (ok = true -> r = NO_ID \/ allowed_uid c0 r))).
  - destruct (r =? NO_ID) eqn:E; [apply triple_ret; intros; split; [done|]; left; lia|].
    eapply triple_conseq; [by apply or_capable_confined|done|]. intros b c' [Hc' Hb]. split; [done|].
    intros ->. right. allowed.
  - intros ok. apply triple_pure. intros Hr. destruct ok; [specialize (Hr eq_refl)|by apply triple_ret].
    assert (allowed_uid c0 (if r =? NO_ID then uid c else r)) as Hnew.
    { destruct (r =? NO_ID) eqn:E; [by apply Hc|]. destruct Hr; [lia|done]. }
    revert Hnew. generalize (if r =? NO_ID then uid c else r). intros new Hnew. simpl.
    confine; eauto using confined_change_uid, confined_fixup. all: allowed.
Qed.

Lemma confined_setfsuid c0 u : triple (confined c0) (sys_setfsuid u) (fun _ => confined c0).
Proof.
  unfold sys_setfsuid. apply triple_get_inv. intros c Hc.
  apply triple_or_capable_inv; [done|]. intros ok Hok.
  apply triple_seq; [apply triple_when_inv; intros ->; confined_upd; allowed|].
  apply triple_get. intros c1 Hc1.
  apply (triple_bind _ _ (fun _ c => confined c0 c /\ cap_permitted c = cap_permitted c1)).
  { apply triple_when; [intros _; apply triple_upd|intros _]; intros ? <-; [|done].
    split; [|done]. destruct Hc1. by split. }
  intros _. apply (triple_bind _ _ (fun _ => confined c0)); [|intros; by apply triple_ret].
  apply (triple_securebits _ (fun sb => when (negb (issecure sb SECURE_NO_SETUID_FIXUP)) _)). intros sb.
  apply triple_when; [intros _|by intros _ c2 [? _]].
  set (I := fun c => confined c0 c /\ cap_permitted c = cap_permitted c1).
  assert (forall e, cap_sub e (cap_permitted c1) -> triple I (upd (set_effective e)) (fun _ => I)) as Hset.
  { intros e He. apply triple_upd. intros c2 [[] E2]. split; [split; simpl; auto|done]. by rewrite E2. }
  destruct Hc1 as [He1 _ _ _ _ _ _ _ _ _ _ _]. apply (triple_bind _ _ (fun _ => I)).
  - apply triple_when_inv. intros _. apply Hset. auto with kernel.
  - intros _. eapply triple_conseq; [apply (triple_when_inv I)|done|by intros ? c2 [? _]].
    intros _. apply Hset, cap_sub_lor. auto with kernel.
Qed.

Lemma confined_setgroups c0 n l : triple (confined c0) (sys_setgroups n l) (fun _ => confined c0).
Proof.
  unfold sys_setgroups. apply triple_capable_inv; [done|]. intros cap Hcap. destruct cap; simpl.
  - specialize (Hcap eq_refl). confine.
  - by apply triple_ret.
Qed.

Lemma confined_capset c0 e i p : triple (confined c0) (capset_self e i p) (fun _ => confined c0).
Proof.
  apply triple_get_inv. intros c Hc. destruct (capset_allowed _ _ _ _ _) eqn:E; [|by apply triple_ret].
  unfold capset_allowed in E. bool_hyps.
  repeat match goal with H : cap_issubset _ _ = true |- _ => apply cap_issubset_spec in H end.
  apply triple_seq; [|by apply triple_ret]. destruct Hc. confined_upd.
  - eapply cap_sub_trans; [eassumption|]. by apply cap_sub_lor.
  - eapply cap_sub_trans; [eassumption|]. apply cap_sub_lor. split; [done|].
    eapply cap_sub_trans; [eassumption|]. eapply cap_sub_lor, cap_sub_refl.
Qed.

Lemma run_call_confined c0 fresh call : triple (confined c0) (run_call fresh call) (fun _ => confined c0).
Proof.
  destruct call; simpl; auto using confined_setregid, confined_setgid, confined_setreuid, confined_setuid,
    confined_setresuid, confined_setresgid, confined_setfsuid, confined_setfsgid, confined_setgroups, confined_capset.
Qed.

Lemma cred_steps_confined c0 s s' :
  rtc cred_step s s' -> confined c0 (current s) -> confined c0 (current s').
Proof.
  induction 1 as [|s1 s2 s3 (fresh & call & ->) _ IH]; [done|]. intros Hs.
  by apply IH, (run_call_confined c0 fresh call s1).
Qed.

(** ** The functional behaviour of the uid calls *)

(** Everything but the accounting flag is as before. *)
Definition same_but_flags (c c' : cred) : Prop := exists v, c' = set_flags v c.

Definition pick (id old : Z) : Z := if id =? NO_ID then old else id.

(** The capability fixup and the accounting do not touch the ids. *)
Definition ids (c : cred) : Z * Z * Z * Z := (uid c, euid c, suid c, fsuid c).

Lemma fixup_ids x r e s : triple (fun c => ids c = x) (setuid_fixup r e s) (fun v c => ids c = x /\ v = 0).
Proof.
  unfold setuid_fixup.
  apply (triple_securebits _ (fun sb => when (negb (issecure sb SECURE_NO_SETUID_FIXUP)) _ ;; ret 0)).
  intros sb. apply triple_seq; [|by apply triple_ret].
  apply triple_when_inv. intros _. unfold cap_emulate_setxuid. apply triple_get_inv. intros c Hc.
  apply triple_seq; [|apply triple_seq].
  1,2: apply triple_when_inv; intros _; by apply triple_upd_inv.
  apply triple_get_inv. intros c' Hc'. apply triple_when_inv. intros _. by apply triple_upd_inv.
Qed.

Lemma capable_exact c cap :
  triple (same_but_flags c) (capable cap)
         (fun b c' => same_but_flags c c' /\ b = cap_raised (cap_effective c) cap).
Proof.
  apply triple_get. intros ? [v ->]. simpl. destruct (cap_raised _ _); [|apply triple_ret; intros ? <-; by repeat eexists].
  apply (triple_bind _ _ (fun _ => same_but_flags c)).
  - apply triple_upd. intros ? <-. by eexists.
  - intros _. by apply triple_ret.
Qed.

Lemma or_capable_exact c t cap :
  triple (same_but_flags c) (or_capable t cap)
         (fun b c' => same_but_flags c c' /\ b = t || cap_raised (cap_effective c) cap).
Proof. destruct t; [by apply triple_ret|apply capable_exact]. Qed.

Lemma triple_when_ids b m x y :
  (b = true -> triple (fun c => ids c = x) m (fun _ c => ids c = y)) -> (b = false -> x = y) ->
  triple (fun c => ids c = x) (when b m) (fun _ c => ids c = y).
Proof. intros Ht Hf. apply triple_when; [done|]. by intros Hb c <-; rewrite Hf. Qed.

Lemma dumpable_ids b x : triple (fun c => ids c = x) (when b (upd (set_dumpable false))) (fun _ c => ids c = x).
Proof. apply triple_when_ids; [intros _; by apply triple_upd|done]. Qed.

Definition setuid_allowed (c : cred) (u : Z) : bool :=
  cap_raised (cap_effective c) CAP_SETUID || (u =? uid c) || (u =? suid c).

Definition setuid_ids (c : cred) (u : Z) : Z * Z * Z * Z :=
  if cap_raised (cap_effective c) CAP_SETUID then (u, u, u, u) else (uid c, u, suid c, u).

(** Straight-line code is run. *)
Ltac run_code :=
  intros ?st ?Hst; cbn;
  try match goal with H : same_but_flags _ _ |- _ => destruct H as [? H] end;
  rewrite ?Hst; cbn; try done.

Lemma setuid_tail fresh x y r0 e s f b old new oe os :
  x = (old, e, s, f) -> y = (new, e, s, f) ->
  triple (fun c => ids c = x)
    (when b (upd (set_dumpable false)) ;; when (negb (new =? old)) (change_uid fresh new) ;; setuid_fixup r0 oe os)
    (fun v c' => v = 0 /\ ids c' = y).
Proof.
  intros -> ->. apply triple_seq; [apply dumpable_ids|].
  apply (triple_bind _ _ (fun _ c => ids c = (new, e, s, f))).
  - apply triple_when_ids; [intros _|intros ?; by assert (new = old) as -> by lia].
    apply triple_change_uid. intros c up Hc. unfold ids in *. simplify_eq/=. done.
  - intros _. eapply triple_conseq; [apply (fixup_ids (new, e, s, f))|done|]. by intros v c [??].
Qed.

Lemma setuid_exact fresh c u :
  triple (eq c) (sys_setuid fresh u)
    (fun v c' => if setuid_allowed c u then v = 0 /\ ids c' = setuid_ids c u
                 else v = - EPERM /\ same_but_flags c c').
Proof.
  unfold sys_setuid, setuid_allowed, setuid_ids. apply triple_get. intros c1 Hc1. subst c1.
  set (cap := cap_raised (cap_effective c) CAP_SETUID).
  apply (triple_bind _ _ (fun n c' =>
    if cap then n = Some u /\ ids c' = (uid c, u, u, u)
    else if (u =? uid c) || (u =? suid c) then n = Some (uid c) /\ ids c' = (uid c, u, suid c, u)
    else n = None /\ same_but_flags c c')).
  - apply (triple_bind _ _ (fun b c' => same_but_flags c c' /\ b = cap)).
    { eapply triple_conseq; [apply (capable_exact c CAP_SETUID)| |done]. intros ? <-. exists (flags c). by destruct c. }
    intros b. apply triple_pure. intros ->. destruct cap; [|destruct (_ || _)].
    1,2: by run_code.
    by apply triple_ret.
  - intros n. simpl. destruct cap; simpl; [|destruct (_ || _)].
    all: intros st [-> Hst]. 3: done.
    all: unfold bind at 1; cbn [get_current]; eapply setuid_tail; try done.
Qed.

Definition setreuid_allowed (c : cred) (r e : Z) : bool :=
  let cap := cap_raised (cap_effective c) CAP_SETUID in
  ((r =? NO_ID) || (uid c =? r) || (euid c =? r) || cap) &&
  ((e =? NO_ID) || (uid c =? e) || (euid c =? e) || (suid c =? e) || cap).

Definition setreuid_ids (c : cred) (r e : Z) : Z * Z * Z * Z :=
  let e' := pick e (euid c) in
  (pick r (uid c), e',
   if negb (r =? NO_ID) || (negb (e =? NO_ID) && negb (e =? uid c)) then e' else suid c, e').

Lemma same_but_flags_refl c : same_but_flags c c.
Proof. exists (flags c). by destruct c. Qed.

Lemma same_but_flags_ids c c' : same_but_flags c c' -> ids c' = ids c.
Proof. by intros [v ->]. Qed.

Lemma setreuid_exact fresh c r e :
  triple (eq c) (sys_setreuid fresh r e)
    (fun v c' => if setreuid_allowed c r e then v = 0 /\ ids c' = setreuid_ids c r e
                 else v = - EPERM /\ same_but_flags c c').
Proof.
  unfold sys_setreuid, setreuid_allowed. apply triple_get. intros c1 Hc1. subst c1.
  set (cap := cap_raised (cap_effective c) CAP_SETUID).
  apply (triple_bind _ _ (fun ok c' => same_but_flags c c' /\
    ok = (r =? NO_ID) || (uid c =? r) || (euid c =? r) || cap)).
  { apply (triple_conseq _ (same_but_flags c) _ _
      (fun ok c' => same_but_flags c c' /\ ok = (r =? NO_ID) || (uid c =? r) || (euid c =? r) || cap)); [|by intros ? <-; apply same_but_flags_refl|done].
    destruct (r =? NO_ID); [by apply triple_ret|]. apply or_capable_exact. }
  intros ok. apply triple_pure. intros Hok. rewrite <-Hok. destruct ok; [|by apply triple_ret].
  simpl. set (oke := (e =? NO_ID) || (uid c =? e) || (euid c =? e) || (suid c =? e) || cap).
  apply (triple_bind _ _ (fun ok c' => (if oke then ids c' = (uid c, pick e (euid c), suid c, pick e (fsuid c))
    else same_but_flags c c') /\ ok = oke)).
  { unfold oke, pick. destruct (e =? NO_ID).
    - apply triple_ret. intros c1 E%same_but_flags_ids. done.
    - eapply triple_bind; [apply or_capable_exact|]. intros ok. apply triple_pure. intros ->. fold cap.
      simpl. destruct ((uid c =? e) || (euid c =? e) || (suid c =? e) || cap); [by run_code|by intros st]. }
  intros ok. apply triple_pure. intros ->. destruct oke; [|by apply triple_ret].
  simpl. apply triple_get_inv. intros c1 Hc1.
  assert (euid c1 = pick e (euid c)) as -> by (unfold ids in Hc1; congruence). clear c1 Hc1.
  apply (triple_bind _ _ (fun _ c' => ids c' = (uid c, pick e (euid c), (setreuid_ids c r e).1.2, pick e (fsuid c)))).
  { apply triple_when; simpl; [intros ->; apply triple_upd|intros ->]; intros c1; unfold ids; simpl; congruence. }
  intros _. apply (triple_bind _ _
    (fun _ c' => ids c' = (uid c, pick e (euid c), (setreuid_ids c r e).1.2, pick e (euid c)))).
  { apply triple_upd. intros c1. unfold ids. simpl. congruence. }
  intros _. by eapply setuid_tail.
Qed.

Definition setresuid_allowed (c : cred) (r e s : Z) : bool :=
  cap_raised (cap_effective c) CAP_SETUID ||
  (one_of r (uid c) (euid c) (suid c) && one_of e (uid c) (euid c) (suid c) && one_of s (uid c) (euid c) (suid c)).

Definition setresuid_ids (c : cred) (r e s : Z) : Z * Z * Z * Z :=
  (pick r (uid c), pick e (euid c), pick s (suid c), pick e (fsuid c)).

Lemma setresuid_exact fresh c r e s :
  triple (eq c) (sys_setresuid fresh r e s)
    (fun v c' => if setresuid_allowed c r e s then v = 0 /\ ids c' = setresuid_ids c r e s
                 else v = - EPERM /\ same_but_flags c c').
Proof.
  unfold sys_setresuid, setresuid_allowed. apply triple_get. intros c1 Hc1. subst c1.
  set (cap := cap_raised (cap_effective c) CAP_SETUID).
  apply (triple_bind _ _ (fun b c' => same_but_flags c c' /\ b = cap)).
  { eapply triple_conseq; [apply (capable_exact c CAP_SETUID)| |done]. intros ? <-. apply same_but_flags_refl. }
  intros b. apply triple_pure. intros ->.
  destruct (cap || _) eqn:E; [|confine; exfalso; lia].
  assert (negb cap && negb (one_of r (uid c) (euid c) (suid c)) = false) as -> by lia.
  assert (negb cap && negb (one_of e (uid c) (euid c) (suid c)) = false) as -> by lia.
  assert (negb cap && negb (one_of s (uid c) (euid c) (suid c)) = false) as -> by lia. clear E.
  apply (triple_bind _ _ (fun _ c' => ids c' = (pick r (uid c), euid c, suid c, fsuid c))).
  { unfold pick; apply triple_when; [intros ->%negb_true_iff; apply triple_change_uid|intros ->%negb_false_iff];
      intros c1; [intros up|]; by intros [v ->]. }
  intros _.
  apply (triple_bind _ _ (fun _ c' => ids c' = (pick r (uid c), pick e (euid c), suid c, pick e (fsuid c)))).
  { unfold pick at 3 4. apply triple_when_ids; [intros ->%negb_true_iff|by intros ->%negb_false_iff].
    apply triple_seq; [apply dumpable_ids|]. intros st. unfold ids; cbn; congruence. }
  intros _. apply (triple_bind _ _ (fun _ c' => ids c' = setresuid_ids c r e s)).
  { unfold setresuid_ids, pick at 6. apply triple_when_ids; [intros ->%negb_true_iff|by intros ->%negb_false_iff].
    apply triple_upd; intros c1; unfold ids; cbn; congruence. }
  intros _. eapply triple_conseq; [apply (fixup_ids (setresuid_ids c r e s))|done|by intros ?? []].
Qed.

(** Giving up uid 0 for good clears the capabilities. *)
Lemma emulate_drop r e s :
  r = 0 \/ e = 0 \/ s = 0 ->
  triple (fun c => uid c <> 0 /\ euid c <> 0 /\ suid c <> 0) (cap_emulate_setxuid r e s)
         (fun _ c => cap_permitted c = 0 /\ cap_effective c = 0).
Proof.
  intros Hold st (Hu & He & Hs). unfold cap_emulate_setxuid, bind, get_current, when, upd, ret.
  assert (((r =? 0) || (e =? 0) || (s =? 0)) && (negb (uid (current st) =? 0) &&
    negb (euid (current st) =? 0) && negb (suid (current st) =? 0)) = true) as -> by lia.
  cbn. destruct ((e =? 0) && _); cbn.
  all: assert (negb (e =? 0) && (euid (current st) =? 0) = false) as -> by lia; done.
Qed.

Lemma setuid_drop fresh s u :
  let c := current s in
  cap_raised (cap_effective c) CAP_SETUID = true ->
  issecure (securebits s) SECURE_NO_SETUID_FIXUP = false ->
  uid c = 0 \/ euid c = 0 \/ suid c = 0 -> u <> 0 ->
  let c' := current (sys_setuid fresh u s).2 in
  cap_permitted c' = 0 /\ cap_effective c' = 0.
Proof.
  intros c Hcap Hsec Hroot Hu. unfold sys_setuid, capable, setuid_fixup, bind, get_current, upd, ret.
  fold c. rewrite Hcap. cbn -[change_uid when cap_emulate_setxuid issecure].
  match goal with |- context [when ?b (fun s => (tt, @?f s)) ?s1] =>
    set (s2 := (when b (fun s => (tt, f s)) s1).2);
    assert (when b (fun s => (tt, f s)) s1 = (tt, s2)) as -> by (by unfold s2; destruct b);
    assert (ids (current s2) = (uid c, u, u, u) /\ securebits s2 = securebits s) as [E2 Es2]
      by (by unfold s2; destruct b) end.
  set (s3 := (when (negb (u =? uid c)) (change_uid fresh u) s2).2).
  assert (when (negb (u =? uid c)) (change_uid fresh u) s2 = (tt, s3)) as ->.
  { unfold s3. by destruct (when _ _ s2) as [[] ?]. }
  assert (ids (current s3) = (u, u, u, u) /\ securebits s3 = securebits s) as [E3 Es3].
  { unfold s3. destruct (u =? uid c) eqn:E; simpl.
    - split; [|done]. rewrite E2. f_equal. f_equal. f_equal. lia.
    - destruct (change_uid_cred fresh u s2) as (up & -> & ->). split; [|done].
      clearbody s2. unfold ids in *. simpl. congruence. }
  rewrite Es3, Hsec. unfold ids in E3. clearbody s3. cbn [negb when].
  pose proof (emulate_drop (uid c) (euid c) (suid c) Hroot s3) as H.
  destruct (cap_emulate_setxuid _ _ _ s3) as [[] s4]. apply H. repeat split; congruence.
Qed.

(** ** The cache of users counts the processes

    [procs] lists the uid and the [user] pointer of every process. *)

Definition charged (procs : list (Z * option Z)) (a : Z) : nat := length (filter (fun p => p.2 = Some a) procs).

Definition small (u : Z) : Prop := 0 <= u < 2 ^ 16.

Record accounts (procs : list (Z * option Z)) (k : uid_cache) : Prop := Accounts {
  co_nodup : forall h, NoDup (chain k h);
  co_chain : forall h a, a ∈ chain k h <-> exists u, users k !! a = Some u /\ uidhashfn (u_uid u) = h;
  co_count : forall a u, users k !! a = Some u -> u_count u = Z.of_nat (charged procs a);
  co_proc : forall i a, (i, Some a) ∈ procs -> exists u, users k !! a = Some u /\ u_uid u = i;
  co_inj : forall a b u v, users k !! a = Some u -> users k !! b = Some v -> u_uid u = u_uid v -> a = b;
  co_small : forall a u, users k !! a = Some u -> small (u_uid u)
}.

(** No [user_struct] is kept without a process. *)
Definition all_used (k : uid_cache) : Prop := forall a u, users k !! a = Some u -> 0 < u_count u.

Definition cache_ok (procs : list (Z * option Z)) (k : uid_cache) : Prop := accounts procs k /\ all_used k.

Lemma charged_cons i up procs a :
  charged ((i, up) :: procs) a = if bool_decide (up = Some a) then S (charged procs a) else charged procs a.
Proof. unfold charged. rewrite filter_cons. case_bool_decide; [by rewrite decide_True|by rewrite decide_False]. Qed.

Lemma uid_find_loop_spec k l i a :
  (forall b c u v, users k !! b = Some u -> users k !! c = Some v -> u_uid u = u_uid v -> b = c) ->
  a ∈ l -> (exists u, users k !! a = Some u /\ u_uid u = i) -> uid_find_loop k l i = Some a.
Proof.
  intros Hinj Hin (u & Ha & Hu). induction l as [|b l IH]; [by apply elem_of_nil in Hin|]. simpl.
  apply elem_of_cons in Hin as [<-|Hin]; [by rewrite Ha, Hu, Z.eqb_refl|].
  destruct (users k !! b) as [v|] eqn:Hb; [|by apply IH]. destruct (u_uid v =? i) eqn:E; [|by apply IH].
  f_equal. eapply Hinj; eauto. lia.
Qed.

Lemma uid_find_loop_some k l i a :
  uid_find_loop k l i = Some a -> a ∈ l /\ exists u, users k !! a = Some u /\ u_uid u = i.
Proof.
  induction l as [|b l IH]; simpl; [done|]. destruct (users k !! b) as [v|] eqn:Hb.
  - destruct (u_uid v =? i) eqn:E.
    + intros [= ->]. split; [by left|]. exists v. split; [done|lia].
    + intros [? ?]%IH. split; [by right|done].
  - intros [? ?]%IH. split; [by right|done].
Qed.

Lemma uid_find_spec procs k i a :
  accounts procs k -> small i ->
  uid_find k i (uidhashfn i) = Some a <-> exists u, users k !! a = Some u /\ u_uid u = i.
Proof.
  intros Hk Hi. unfold uid_find. assert (u16 i = i) as -> by (apply Z.mod_small; exact Hi). split.
  - intros [_ H]%uid_find_loop_some. done.
  - intros H. apply uid_find_loop_spec; [apply (co_inj _ _ Hk)| |done]. apply (co_chain _ _ Hk).
    destruct H as (u & Ha & Hu). exists u. by rewrite Hu.
Qed.

Lemma chain_insert k h h' l us :
  chain (UidCache us (<[h := l]> (uidhash k))) h' = if bool_decide (h = h') then l else chain k h'.
Proof. unfold chain. simpl. rewrite lookup_insert. by case_decide; case_bool_decide. Qed.

Lemma accounts_none i procs k : accounts ((i, None) :: procs) k <-> accounts procs k.
Proof.
  split; intros [H1 H2 H3 H4 H5 H6]; split; try done.
  - intros i' a Hin. apply H4. by right.
  - intros i' a [?|Hin]%elem_of_cons; [done|by apply H4].
Qed.

(** The count of [a] follows the processes. *)
Lemma accounts_set procs procs' k a f :
  accounts procs k ->
  (forall u, users k !! a = Some u -> f (u_count u) = Z.of_nat (charged procs' a)) ->
  (forall b, b <> a -> charged procs' b = charged procs b) ->
  (forall j b, (j, Some b) ∈ procs' -> exists u, users k !! b = Some u /\ u_uid u = j) ->
  accounts procs' (set_count k a f).
Proof.
  intros [H1 H2 H3 H4 H5 H6] Hf Hne Hin.
  assert (forall b v, users (set_count k a f) !! b = Some v ->
    u_count v = Z.of_nat (charged procs' b) /\ exists v0, users k !! b = Some v0 /\ u_uid v0 = u_uid v) as Hs.
  { intros b v. unfold set_count. simpl. rewrite lookup_alter. case_decide as E; [subst b|].
    - destruct (users k !! a) as [u|] eqn:Ha; [|done]. intros [= <-]. eauto.
    - intros Hb. rewrite Hne by done. eauto. }
  assert (forall b v0, users k !! b = Some v0 ->
    exists v, users (set_count k a f) !! b = Some v /\ u_uid v = u_uid v0) as Hr.
  { intros b v0 Hb. unfold set_count. simpl. rewrite lookup_alter. case_decide; [subst b|]; rewrite Hb; by eexists. }
  split.
  - done.
  - intros h b. change (chain (set_count k a f) h) with (chain k h). rewrite H2. split.
    + intros (v0 & Hb & <-). destruct (Hr _ _ Hb) as (v & ? & E). exists v. by rewrite E.
    + intros (v & Hb & <-). destruct (Hs _ _ Hb) as (_ & v0 & ? & E). exists v0. by rewrite E.
  - intros b v Hb. by destruct (Hs _ _ Hb).
  - intros j b (v0 & Hb & <-)%Hin. destruct (Hr _ _ Hb) as (v & ? & E). eauto.
  - intros b c v w Hb Hc E. destruct (Hs _ _ Hb) as (_ & v0 & Hb0 & Ev), (Hs _ _ Hc) as (_ & w0 & Hc0 & Ew).
    eapply H5; eauto. congruence.
  - intros b v Hb. destruct (Hs _ _ Hb) as (_ & v0 & Hb0 & <-). eauto.
Qed.

(** One more process of the user at [a]. *)
Lemma accounts_succ procs k i a u :
  accounts procs k -> users k !! a = Some u -> u_uid u = i ->
  accounts ((i, Some a) :: procs) (set_count k a Z.succ).
Proof.
  intros Hk Ha Hu. apply (accounts_set procs); [done|..].
  - intros v Hv. rewrite charged_cons, bool_decide_true by done. rewrite (co_count _ _ Hk _ _ Hv). lia.
  - intros b Hb. rewrite charged_cons, bool_decide_false by congruence. done.
  - intros j b [[= -> ->]|Hin]%elem_of_cons; [eauto|]. by apply (co_proc _ _ Hk).
Qed.

(** One process less. *)
Lemma accounts_pred procs k i a :
  accounts ((i, Some a) :: procs) k -> accounts procs (set_count k a Z.pred).
Proof.
  intros Hk. apply (accounts_set ((i, Some a) :: procs)); [done|..].
  - intros v Hv. rewrite (co_count _ _ Hk _ _ Hv), charged_cons, bool_decide_true by done. lia.
  - intros b Hb. rewrite charged_cons, bool_decide_false by congruence. done.
  - intros j b Hin. apply (co_proc _ _ Hk). by right.
Qed.

Lemma charged_zero procs a : (forall i, (i, Some a) ∉ procs) -> charged procs a = 0%nat.
Proof.
  induction procs as [|[i up] procs IH]; [done|]. intros H. rewrite charged_cons, bool_decide_false.
  - apply IH. intros j Hj. apply (H j). by right.
  - intros ->. apply (H i). by left.
Qed.

Lemma accounts_new procs k i a :
  accounts procs k -> users k !! a = None -> small i -> (forall b u, users k !! b = Some u -> u_uid u <> i) ->
  accounts procs (uid_hash_insert (UidCache (<[a := UserStruct 0 i]> (users k)) (uidhash k)) a (uidhashfn i)).
Proof.
  intros [H1 H2 H3 H4 H5 H6] Ha Hi Hnew. unfold uid_hash_insert. simpl.
  change (chain (UidCache (<[a := UserStruct 0 i]> (users k)) (uidhash k)) (uidhashfn i)) with (chain k (uidhashfn i)).
  assert (forall h, a ∉ chain k h) as Hfresh by (intros h (u & Hu & _)%H2; congruence).
  split; simpl.
  - intros h. rewrite chain_insert. case_bool_decide; [|done]. apply NoDup_cons. auto.
  - intros h b. rewrite chain_insert. rewrite lookup_insert. destruct (decide (a = b)) as [<-|Hab].
    + case_bool_decide as E; [rewrite elem_of_cons|].
      * split; [intros _; by eexists|by left].
      * split; [by intros ?%Hfresh|intros (u & [= <-] & ?)]. done.
    + rewrite <-(H2 h b). case_bool_decide as E; [subst h|done]. rewrite elem_of_cons. naive_solver.
  - intros b u. rewrite lookup_insert. case_decide as E; [subst b; intros [= <-]|apply H3].
    simpl. rewrite charged_zero; [done|]. intros j (u & Hu & _)%H4. congruence.
  - intros j b (u & Hb & <-)%H4. exists u. rewrite lookup_insert_ne; [done|congruence].
  - intros b c u v. rewrite !lookup_insert. case_decide; case_decide; [congruence|..|apply H5].
    + intros [= <-] Hc E. by destruct (Hnew _ _ Hc).
    + intros Hb [= <-] E. by destruct (Hnew _ _ Hb).
  - intros b u. rewrite lookup_insert. case_decide; [by intros [= <-]|apply H6].
Qed.

Lemma cache_charge_ok fresh procs k i :
  cache_ok procs k -> small i -> (forall a, fresh = Some a -> users k !! a = None) ->
  cache_ok ((i, (cache_charge fresh k i).1.1) :: procs) (cache_charge fresh k i).2.
Proof.
  intros [Hk Hu] Hi Hfresh. unfold cache_charge. destruct (uid_find k i (uidhashfn i)) as [a|] eqn:E.
  - apply (uid_find_spec procs) in E as (u & Ha & E); [|done..]. simpl. split; [by eapply accounts_succ|].
    intros b v. unfold set_count. simpl. rewrite lookup_alter. case_decide as Eb; [subst b|by apply Hu].
    rewrite Ha. intros [= <-]. simpl. specialize (Hu _ _ Ha). lia.
  - destruct fresh as [a|]; simpl; [|split; [by apply accounts_none|done]].
    specialize (Hfresh a eq_refl).
    assert (forall b u, users k !! b = Some u -> u_uid u <> i) as Hnew.
    { intros b u Hb <-. assert (uid_find k (u_uid u) (uidhashfn (u_uid u)) = Some b) by (apply (uid_find_spec procs); eauto).
      congruence. }
    split.
    + eapply accounts_succ; [by apply accounts_new|simpl; apply lookup_insert_eq|done].
    + intros b v. unfold set_count. simpl. rewrite lookup_alter. case_decide as Eb; [subst b|].
      * rewrite lookup_insert_eq. intros [= <-]. done.
      * rewrite lookup_insert_ne by done. apply Hu.
Qed.

(** A [user_struct] without processes can go. *)
Lemma accounts_remove procs k a u :
  accounts procs k -> users k !! a = Some u -> u_count u = 0 ->
  accounts procs (UidCache (delete a (users k)) (uidhash (uid_hash_remove k a (uidhashfn (u_uid u))))).
Proof.
  intros Hk Ha Hu. pose proof Hk as [H1 H2 H3 H4 H5 H6]. unfold uid_hash_remove. simpl. split; simpl.
  - intros h. rewrite chain_insert. case_bool_decide; [|done]. by apply NoDup_filter.
  - intros h b. rewrite chain_insert. destruct (decide (a = b)) as [<-|Hab].
    + rewrite lookup_delete_eq. split; [|by intros (? & ? & _)]. case_bool_decide as E.
      * by intros [? _]%list_elem_of_filter.
      * intros (v & Hv & <-)%H2. rewrite Ha in Hv. by simplify_eq.
    + rewrite lookup_delete_ne by done. rewrite <-H2. case_bool_decide as E; [|done].
      rewrite list_elem_of_filter, E. naive_solver.
  - intros b v [_ Hb]%lookup_delete_Some. by apply H3.
  - intros j b Hin. destruct (H4 _ _ Hin) as (v & Hb & <-). exists v. rewrite lookup_delete_ne; [done|].
    intros <-. rewrite Ha in Hb. simplify_eq. specialize (H3 _ _ Ha). rewrite Hu in H3.
    assert (charged procs a <> 0%nat) as []; [|lia]. clear -Hin. unfold charged.
    intros E%length_zero_iff_nil. assert ((u_uid v, Some a) ∈ filter (fun p : Z * option Z => p.2 = Some a) procs) as Hf
      by (by apply list_elem_of_filter). rewrite E in Hf. by apply elem_of_nil in Hf.
  - intros b c v w [_ Hb]%lookup_delete_Some [_ Hc]%lookup_delete_Some. by apply (H5 b c v w).
  - intros b v [_ Hb]%lookup_delete_Some. by eapply H6.
Qed.

Lemma cache_release_ok procs k i a :
  cache_ok ((i, Some a) :: procs) k -> cache_ok procs (cache_release k a).
Proof.
  intros [Hk Hu]. pose proof (accounts_pred _ _ _ _ Hk) as Hk'. unfold cache_release.
  destruct (users (set_count k a Z.pred) !! a) as [u|] eqn:Ha; [destruct (u_count u =? 0) eqn:E|].
  - split; [apply (accounts_remove _ (set_count k a Z.pred)); [done..|lia]|]. intros b v. simpl.
    intros [Hne Hb]%lookup_delete_Some. rewrite lookup_alter_ne in Hb by done. by eapply Hu.
  - split; [done|]. intros b v. simpl. rewrite lookup_alter. case_decide as Eb; [subst b|by apply Hu].
    simpl in Ha. rewrite lookup_alter_eq in Ha. rewrite Ha. intros [= <-].
    rewrite (co_count _ _ Hk' a u) by (simpl; by rewrite lookup_alter_eq).
    pose proof (co_count _ _ Hk' a u) as Hc. simpl in Hc. rewrite lookup_alter_eq in Hc. specialize (Hc Ha). lia.
  - split; [done|]. destruct (co_proc _ _ Hk i a) as (v & Hv & _); [by left|].
    simpl in Ha. rewrite lookup_alter_eq, Hv in Ha. done.
Qed.

(** ** The uid calls keep the accounts *)

(** The process as the cache sees it. *)
Definition account (c : cred) : Z * option Z := (uid c, user c).

Definition accounted (others : list (Z * option Z)) (s : cstate) : Prop :=
  cache_ok (account (current s) :: others) (cache s).

Definition fresh_for (fresh : option Z) (s : cstate) : Prop :=
  forall a, fresh = Some a -> users (cache (free_uid s).2) !! a = None.

(** The account and the cache of [s] do not change. *)
Definition quiet {A} (m : M A) : Prop :=
  forall s, account (current (m s).2) = account (current s) /\ cache (m s).2 = cache s.

Lemma quiet_ret {A} (x : A) : quiet (ret x).
Proof. done. Qed.

Lemma quiet_upd f : (forall c, account (f c) = account c) -> quiet (upd f).
Proof. intros H s. by split; [apply H|]. Qed.

Lemma quiet_bind {A B} (m : M A) (k : A -> M B) : quiet m -> (forall x, quiet (k x)) -> quiet (bind m k).
Proof.
  intros Hm Hk s. unfold bind. destruct (Hm s) as [E1 E2], (m s) as [x s']. simpl in *.
  destruct (Hk x s') as [E3 E4]. by rewrite E3, E4.
Qed.

Lemma quiet_get : quiet get_current.
Proof. done. Qed.

Lemma quiet_when b m : quiet m -> quiet (when b m).
Proof. by destruct b. Qed.

Lemma quiet_if {A} (b : bool) (m1 m2 : M A) : quiet m1 -> quiet m2 -> quiet (if b then m1 else m2).
Proof. by destruct b. Qed.

Lemma quiet_securebits {A} (f : Z -> M A) : (forall sb, quiet (f sb)) -> quiet (fun s => f (securebits s) s).
Proof. intros H s. apply (H (securebits s) s). Qed.

Create HintDb quiet.
#[export] Hint Resolve quiet_ret quiet_upd quiet_bind quiet_get quiet_when quiet_if : quiet.

Lemma quiet_capable cap : quiet (capable cap).
Proof. unfold capable. auto 10 with quiet. Qed.

Lemma quiet_or_capable t cap : quiet (or_capable t cap).
Proof. destruct t; [apply quiet_ret|apply quiet_capable]. Qed.

Lemma quiet_fixup r e s : quiet (setuid_fixup r e s).
Proof.
  apply (quiet_securebits (fun sb => when (negb (issecure sb SECURE_NO_SETUID_FIXUP)) _ ;; ret 0)).
  unfold cap_emulate_setxuid. auto 10 with quiet.
Qed.

#[export] Hint Resolve quiet_capable quiet_or_capable quiet_fixup : quiet.

(** [pays fresh m]: a call keeps the accounts, whatever the other processes. *)
Definition ready (others : list (Z * option Z)) (fresh : option Z) (s : cstate) : Prop :=
  accounted others s /\ fresh_for fresh s /\ small (uid (current s)).

Definition pays {A} (fresh : option Z) (m : M A) : Prop :=
  forall others s, ready others fresh s -> accounted others (m s).2.

Definition small_arg (x : Z) : Prop := x = NO_ID \/ small x.

Lemma free_uid_cache s :
  cache (free_uid s).2 = match user (current s) with None => cache s | Some a => cache_release (cache s) a end.
Proof. unfold free_uid. by destruct (user (current s)). Qed.

Lemma quiet_ready {A} others fresh (m : M A) s : quiet m -> ready others fresh s -> ready others fresh (m s).2.
Proof.
  intros Hm (Ha & Hf & Hs). destruct (Hm s) as [E1 E2]. unfold ready, accounted, fresh_for in *.
  rewrite free_uid_cache in *. injection E1 as E3 E4. unfold account in *. by rewrite E2, E3, E4.
Qed.

Lemma pays_quiet {A} fresh (m : M A) : quiet m -> pays fresh m.
Proof. intros Hm others s Hs. by apply (quiet_ready _ fresh m s Hm) in Hs as [? _]. Qed.

Lemma pays_bind {A B} fresh (m : M A) (k : A -> M B) :
  quiet m -> (forall x, pays fresh (k x)) -> pays fresh (bind m k).
Proof.
  intros Hm Hk others s Hs. apply (quiet_ready _ fresh m s Hm) in Hs. unfold bind.
  destruct (m s) as [x s']. by apply Hk.
Qed.

(** The same with a fact about the value that [m] returns. *)
Lemma pays_bind_value {A B} fresh (P : A -> Prop) (m : M A) (k : A -> M B) :
  quiet m -> (forall s, P (m s).1) -> (forall x, P x -> pays fresh (k x)) -> pays fresh (bind m k).
Proof.
  intros Hm HP Hk others s Hs. apply (quiet_ready _ fresh m s Hm) in Hs. specialize (HP s). unfold bind.
  destruct (m s) as [x s']. by apply Hk.
Qed.

Lemma pays_get {A} fresh (k : cred -> M A) :
  (forall c, small (uid c) -> pays fresh (k c)) -> pays fresh (bind get_current k).
Proof. intros Hk others s Hs. apply (Hk (current s)); [apply Hs|done]. Qed.

Lemma pays_then {A} fresh (m : M unit) (k : M A) : pays fresh m -> quiet k -> pays fresh (m ;; k).
Proof.
  intros Hm Hk others s Hs. unfold bind. specialize (Hm others s Hs). destruct (m s) as [x s'].
  destruct (Hk s') as [E1 E2]. unfold accounted in *. by rewrite E1, E2.
Qed.

Lemma pays_when fresh b m : pays fresh m -> pays fresh (when b m).
Proof. destruct b; [done|]. intros _. apply pays_quiet, quiet_ret. Qed.

Lemma pays_change_uid fresh new : small new -> pays fresh (change_uid fresh new).
Proof.
  intros Hnew others s (Ha & Hf & _). unfold accounted, fresh_for in *. rewrite free_uid_cache in Hf.
  assert (cache_ok others (cache (free_uid s).2)) as Hc.
  { rewrite free_uid_cache. unfold account in Ha. destruct (user (current s)) as [a|].
    - by apply cache_release_ok in Ha.
    - destruct Ha as [Ha ?]. split; [by apply accounts_none in Ha|done]. }
  rewrite free_uid_cache in Hc. unfold change_uid, bind, alloc_uid, upd, ret.
  pose proof (free_uid_cache s) as E. destruct (free_uid s) as [[] s1]. simpl in *. rewrite <-E in Hc, Hf.
  pose proof (cache_charge_ok fresh others (cache s1) new Hc Hnew Hf) as H.
  by destruct (cache_charge fresh (cache s1) new) as [[up r] k].
Qed.

Lemma pays_setresuid fresh r e s : small_arg r -> pays fresh (sys_setresuid fresh r e s).
Proof.
  intros Hr. unfold sys_setresuid. apply pays_get. intros c Hc. apply pays_bind; [auto with quiet|].
  intros cap. destruct (_ && _); [apply pays_quiet, quiet_ret|]. do 2 (destruct (_ && _); [apply pays_quiet, quiet_ret|]).
  apply pays_then; [|auto 10 with quiet]. destruct (r =? NO_ID) eqn:E; [apply pays_quiet, quiet_ret|].
  apply pays_when, pays_change_uid. destruct Hr; [lia|done].
Qed.

Lemma pays_setreuid fresh r e : small_arg r -> pays fresh (sys_setreuid fresh r e).
Proof.
  intros Hr. unfold sys_setreuid. apply pays_get. intros c Hc. apply pays_bind; [auto with quiet|].
  intros ok. destruct (negb ok); [apply pays_quiet, quiet_ret|]. apply pays_bind; [auto 10 with quiet|].
  intros ok'. destruct (negb ok'); [apply pays_quiet, quiet_ret|]. apply pays_bind; [auto with quiet|]. intros c'.
  do 3 (apply pays_bind; [auto with quiet|intros _]).
  apply pays_then; [|auto with quiet]. apply pays_when, pays_change_uid.
  destruct (r =? NO_ID) eqn:E; [done|]. destruct Hr; [lia|done].
Qed.

Lemma pays_setuid fresh u : small u -> pays fresh (sys_setuid fresh u).
Proof.
  intros Hu. unfold sys_setuid. apply pays_get. intros c Hc.
  apply (pays_bind_value _ (fun n => match n with Some v => small v | None => True end)); [auto 12 with quiet|..].
  - intros s. unfold bind, upd, ret. destruct (capable CAP_SETUID s) as [[] s']; [done|]. by destruct (_ || _).
  - intros [v|] Hv; [|apply pays_quiet, quiet_ret]. do 2 (apply pays_bind; [auto with quiet|intros ?]).
    apply pays_then; [|auto with quiet]. by apply pays_when, pays_change_uid.
Qed.

(** ** Properties *)

Definition small_call (call : cred_call) : Prop :=
  match call with
  | Setreuid r _ | Setresuid r _ _ => small_arg r
  | Setuid u => small u
  | _ => True
  end.

(** The calls that do not concern the uid. *)
Definition keeps_uid (call : cred_call) : bool :=
  match call with Setreuid _ _ | Setuid _ | Setresuid _ _ _ => false | _ => true end.

Lemma run_call_quiet fresh call : keeps_uid call = true -> quiet (run_call fresh call).
Proof.
  destruct call; simpl; try done; intros _.
  - unfold sys_setregid. auto 20 with quiet.
  - unfold sys_setgid. auto 20 with quiet.
  - unfold sys_setresgid. auto 20 with quiet.
  - unfold sys_setfsuid. do 5 (apply quiet_bind; [auto with quiet|intros ?]). apply quiet_bind; [|auto with quiet].
    apply (quiet_securebits (fun sb => when (negb (issecure sb SECURE_NO_SETUID_FIXUP)) _)). auto 10 with quiet.
  - unfold sys_setfsgid. auto 20 with quiet.
  - unfold sys_setgroups. auto 20 with quiet.
  - unfold capset_self. auto 20 with quiet.
Qed.

Lemma run_call_pays fresh call : small_call call -> pays fresh (run_call fresh call).
Proof.
  intros Hc. destruct (keeps_uid call) eqn:E; [by apply pays_quiet, run_call_quiet|].
  destruct call; simpl in *; try done; auto using pays_setreuid, pays_setuid, pays_setresuid.
Qed.

(** The processes of the user [i] that hold a [user_struct]. *)
Definition charged_uid (procs : list (Z * option Z)) (i : Z) : nat :=
  length (filter (fun p : Z * option Z => p.1 = i /\ p.2 <> None) procs).

Lemma accounts_by_uid procs k i a u :
  accounts procs k -> users k !! a = Some u -> u_uid u = i -> charged procs a = charged_uid procs i.
Proof.
  intros Hk Ha Hu.
  assert (forall p : Z * option Z, p ∈ procs -> p.2 = Some a <-> p.1 = i /\ p.2 <> None) as H.
  { intros [j [b|]] Hp; simpl; [|naive_solver]. destruct (co_proc _ _ Hk _ _ Hp) as (v & Hb & <-).
    split; [intros [= ->]; split; [congruence|done]|]. intros [E _]. f_equal.
    eapply (co_inj _ _ Hk); [done..|congruence]. }
  clear -H. unfold charged, charged_uid. induction procs as [|p procs IH]; [done|].
  rewrite !filter_cons. assert (p ∈ p :: procs) as Hp by (by left). specialize (H p Hp) as Hiff.
  specialize (IH (fun q Hq => H q (list_elem_of_further q p procs Hq))).
  destruct (decide (p.2 = Some a)); [rewrite decide_True by (by apply Hiff); simpl; by rewrite IH|].
  rewrite decide_False; [done|]. by intros ?%Hiff.
Qed.

(** C37: whatever sequence of id and capability calls a process makes, its permitted
    capabilities never grow, its effective ones stay within them, its
    inheritable ones come from the inheritable and permitted sets it started
    with; without [CAP_SETUID] in the permitted set its uids stay among the
    real, effective and saved uid it started with, and without [CAP_SETGID] its
    gids and its groups likewise ([confined]). *)
Theorem credentials_confined s s' :
  cap_sub (cap_effective (current s)) (cap_permitted (current s)) ->
  rtc cred_step s s' ->
  confined (current s) (current s').
Proof. intros Hs Hr. eapply cred_steps_confined; [done|]. by apply confined_refl. Qed.

(** A process with uid 0 that calls [setuid] with another uid succeeds, all its
    uids become that uid and it loses every permitted and effective capability;
    no later sequence of calls gives any of them back. *)
Theorem setuid_drop_irrevocable fresh s u s' :
  let c := current s in
  cap_raised (cap_effective c) CAP_SETUID = true ->
  issecure (securebits s) SECURE_NO_SETUID_FIXUP = false ->
  uid c = 0 \/ euid c = 0 \/ suid c = 0 -> u <> 0 ->
  rtc cred_step (sys_setuid fresh u s).2 s' ->
  (sys_setuid fresh u s).1 = 0 /\ ids (current s') = (u, u, u, u) /\
  cap_permitted (current s') = 0 /\ cap_effective (current s') = 0.
Proof.
  intros c Hcap Hsec Hroot Hu Hr.
  destruct (setuid_drop fresh s u Hcap Hsec Hroot Hu) as [Hp He]. cbv zeta in Hp, He.
  pose proof (setuid_exact fresh c u s eq_refl) as Hx. unfold setuid_allowed, setuid_ids in Hx.
  rewrite Hcap in Hx. destruct Hx as [Hret Hids]. split; [done|].
  apply (cred_steps_confined (current (sys_setuid fresh u s).2)) in Hr.
  2: { apply confined_refl. rewrite He. apply cap_sub_0. }
  destruct Hr as [Heff Hperm _ Hu1 Hu2 Hu3 Hu4 _ _ _ _ _]. rewrite Hp in Hperm.
  apply cap_sub_0_eq in Hperm. rewrite Hperm in Heff. apply cap_sub_0_eq in Heff.
  unfold allowed_uid, has_cap in *. rewrite Hp, Z.bits_0 in *. unfold ids in *. injection Hids as E1 E2 E3 E4.
  repeat split; try done. repeat f_equal; lia.
Qed.

(** [setuid], [setreuid] and [setresuid] are exact: each succeeds on precisely
    the arguments that POSIX and BSD allow for the process's ids and
    capability, then gives the real, effective, saved and filesystem uid the
    values they prescribe, and otherwise fails with EPERM and changes nothing
    but the accounting flag. *)
Theorem uid_calls_correct fresh s :
  let c := current s in
  (forall u, let '(v, s') := sys_setuid fresh u s in
     if setuid_allowed c u then v = 0 /\ ids (current s') = setuid_ids c u
     else v = - EPERM /\ same_but_flags c (current s')) /\
  (forall r e, let '(v, s') := sys_setreuid fresh r e s in
     if setreuid_allowed c r e then v = 0 /\ ids (current s') = setreuid_ids c r e
     else v = - EPERM /\ same_but_flags c (current s')) /\
  (forall r e x, let '(v, s') := sys_setresuid fresh r e x s in
     if setresuid_allowed c r e x then v = 0 /\ ids (current s') = setresuid_ids c r e x
     else v = - EPERM /\ same_but_flags c (current s')).
Proof.
  intros c. split; [|split].
  - intros u. pose proof (setuid_exact fresh c u s eq_refl) as H. by destruct (sys_setuid fresh u s).
  - intros r e. pose proof (setreuid_exact fresh c r e s eq_refl) as H. by destruct (sys_setreuid fresh r e s).
  - intros r e x. pose proof (setresuid_exact fresh c r e x s eq_refl) as H. by destruct (sys_setresuid fresh r e x s).
Qed.

(** With uids below 65536, every call keeps the cache of users exact: it holds
    one [user_struct] for each user, hashed where it is looked up, and the count
    of the process's [user_struct] is the number of processes of that uid that
    hold one. *)
Theorem users_counted fresh call others s :
  cache_ok (account (current s) :: others) (cache s) ->
  small (uid (current s)) -> small_call call -> fresh_for fresh s ->
  let s' := (run_call fresh call s).2 in
  let procs := account (current s') :: others in
  cache_ok procs (cache s') /\
  (forall a, user (current s') = Some a ->
     exists x, users (cache s') !! a = Some x /\ u_count x = Z.of_nat (charged_uid procs (uid (current s')))).
Proof.
  intros Hs Hu Hc Hf s' procs. assert (cache_ok procs (cache s')) as Hs' by (by apply run_call_pays).
  split; [done|]. destruct Hs' as [Hk _]. intros a Ha.
  destruct (co_proc _ _ Hk (uid (current s')) a) as (x & Hx & Ex); [unfold procs, account; rewrite Ha; by left|].
  exists x. split; [done|]. rewrite (co_count _ _ Hk _ _ Hx). by erewrite accounts_by_uid.
Qed.

(** [uid_find] takes an [unsigned short]: a uid of 65536 or more is never found,
    so every process of such a user gets a [user_struct] of its own. *)
Lemma big_uid_not_found k i h a u :
  2 ^ 16 <= i -> uid_find k i h = Some a -> users k !! a = Some u -> u_uid u <> i.
Proof.
  intros Hi (_ & v & Hv & E)%uid_find_loop_some Ha. rewrite Ha in Hv. simplify_eq.
  rewrite E. unfold u16. pose proof (Z.mod_pos_bound i (2 ^ 16)). lia.
Qed.

Lemma big_uid_counted_once :
  let k1 := (cache_charge (Some 1) (UidCache ∅ ∅) 70000).2 in
  let k2 := (cache_charge (Some 2) k1 70000).2 in
  users k2 !! 1 = Some (UserStruct 1 70000) /\ users k2 !! 2 = Some (UserStruct 1 70000).
Proof. by vm_compute. Qed.

(** ** Examples *)

Definition ex_root : cred :=
  Cred 0 0 0 0 0 0 0 0 0 (replicate 32 0) 0xfffffeff 0xfffffeff 0xfffffeff (Some 1) true 0.

Definition ex_cache : uid_cache :=
  (cache_charge (Some 1) (cache_charge (Some 2) (UidCache ∅ ∅) 1000).2 0).2.

Definition ex_state : cstate := CState ex_root ex_cache 0.

Definition ex_dropped : cstate := (run_call None (Setuid 1000) ex_state).2.

Definition ex_lone : cstate := CState (set_user None ex_root) (UidCache ∅ ∅) 0.

Lemma ex_step fresh call s s' : (run_call fresh call s).2 = s' -> rtc cred_step s s'.
Proof. intros <-. apply rtc_once. by exists fresh, call. Qed.

Lemma empty_cache_ok : cache_ok [] (UidCache ∅ ∅).
Proof.
  assert (forall h, chain (UidCache ∅ ∅) h = []) as Hc by done.
  split; [split|]; simpl; try done.
  - intros h. rewrite Hc. apply NoDup_nil_2.
  - intros h a. rewrite Hc. split; [by intros ?%elem_of_nil|by intros (? & ? & _)].
  - by intros ?? ?%elem_of_nil.
Qed.

Lemma ex_cache_ok : cache_ok [(0, Some 1); (1000, Some 2)] ex_cache.
Proof.
  pose proof (cache_charge_ok (Some 2) [] (UidCache ∅ ∅) 1000 empty_cache_ok) as H1.
  specialize (H1 ltac:(done) ltac:(done)).
  pose proof (cache_charge_ok (Some 1) _ _ 0 H1) as H2. apply H2; [done|]. by intros a [= <-].
Qed.

Lemma credentials_confined_witness : confined ex_root (current ex_dropped).
Proof.
  apply (credentials_confined ex_state ex_dropped).
  - apply cap_sub_refl.
  - unfold ex_dropped. apply (ex_step None (Setuid 1000)). reflexivity.
Defined.

Lemma setuid_drop_irrevocable_witness :
  exists s', s' = (run_call None (Setuid 0) (sys_setuid None 1000 ex_lone).2).2 /\
    ids (current s') = (1000, 1000, 1000, 1000) /\ cap_permitted (current s') = 0.
Proof.
  exists (run_call None (Setuid 0) (sys_setuid None 1000 ex_lone).2).2. split; [reflexivity|].
  destruct (setuid_drop_irrevocable None ex_lone 1000 (run_call None (Setuid 0) (sys_setuid None 1000 ex_lone).2).2) as (_ & H1 & H2 & _).
  - reflexivity.
  - reflexivity.
  - left. reflexivity.
  - discriminate.
  - apply (ex_step None (Setuid 0)). reflexivity.
  - split; assumption.
Defined.

Lemma users_counted_witness :
  cache_ok [account (current ex_dropped); (1000, Some 2)] (cache ex_dropped) /\
  users (cache ex_dropped) !! 2 = Some (UserStruct 2 1000) /\ users (cache ex_dropped) !! 1 = None.
Proof.
  split; [|by vm_compute].
  destruct (users_counted None (Setuid 1000) [(1000, Some 2)] ex_state) as [H _].
  - apply ex_cache_ok.
  - done.
  - done.
  - intros a [=].
  - exact H.
Defined.
