(* ===== verification/Task.v ===== *)
(** * kernel/fork.c, kernel/exit.c, kernel/sys.c, include/linux/sched.h: processes

    The task list, the pid hash table, the allocation of process ids, the
    process-relevant part of [do_fork] and [release], process groups and
    sessions, and the calls of kernel/capability.c on other processes.

    A task is named by its address.  [order] is the circular task list after
    [init_task], in the order of [for_each_task]; the chains of the hash table
    are lists, newest first, as the [pidhash_next]/[pidhash_pprev] links hold
    them. *)

From stdpp Require Import functions.
From S2P Require Import Prelude Cred.

Record task_struct := Task {
  pid : Z; pgrp : Z; session : Z; leader : bool;
  tty : option Z; tty_old_pgrp : Z;
  p_pptr : Z; p_opptr : Z; did_exec : bool;
  priority : Z; rlim : list (Z * Z); tarray_ptr : Z;
  t_cred : cred
}.

Record kstate := KState {
  task : Z -> task_struct;
  order : list Z;
  pidhash : gmap Z (list Z);
  cur : Z;
  last_pid : Z; next_safe : Z;
  nr_tasks : Z;
  tarray_freelist : list Z;
  kcache : uid_cache;
  ksecurebits : Z
}.

Definition PID_MAX : Z := 0x8000.
Definition NR_TASKS : Z := 512.
Definition MIN_TASKS_LEFT_FOR_ROOT : Z := 4.
Definition PIDHASH_SZ : Z := Z.shiftr NR_TASKS 2.
Definition CLONE_PID : Z := 0x1000.
Definition CLONE_PTRACE : Z := 0x2000.
Definition CLONE_VFORK : Z := 0x4000.
Definition PF_PTRACED : Z := 0x10.
Definition PF_TRACESYS : Z := 0x20.
Definition PF_FORKNOEXEC : Z := 0x40.
Definition PF_VFORK : Z := 0x1000.
Definition PF_USEDFPU : Z := 0x100000.
Definition RLIMIT_NPROC : nat := 6.

(** [p] is [current]. *)
Definition curr (k : kstate) : task_struct := task k (cur k).

(** ** Assignments *)

Definition with_task (k : kstate) (a : Z) (f : task_struct -> task_struct) : kstate :=
  KState (<[a := f (task k a)]> (task k)) (order k) (pidhash k) (cur k) (last_pid k) (next_safe k)
         (nr_tasks k) (tarray_freelist k) (kcache k) (ksecurebits k).

Definition with_pids (k : kstate) (last next : Z) : kstate :=
  KState (task k) (order k) (pidhash k) (cur k) last next (nr_tasks k) (tarray_freelist k) (kcache k) (ksecurebits k).

Definition with_links (k : kstate) (o : list Z) (h : gmap Z (list Z)) (n : Z) : kstate :=
  KState (task k) o h (cur k) (last_pid k) (next_safe k) n (tarray_freelist k) (kcache k) (ksecurebits k).

Definition with_slots (k : kstate) (l : list Z) : kstate :=
  KState (task k) (order k) (pidhash k) (cur k) (last_pid k) (next_safe k) (nr_tasks k) l (kcache k) (ksecurebits k).

Definition with_cache (k : kstate) (c : uid_cache) : kstate :=
  KState (task k) (order k) (pidhash k) (cur k) (last_pid k) (next_safe k) (nr_tasks k) (tarray_freelist k) c (ksecurebits k).

Definition set_pgrp (v : Z) (t : task_struct) : task_struct :=
  Task (pid t) v (session t) (leader t) (tty t) (tty_old_pgrp t) (p_pptr t) (p_opptr t) (did_exec t)
       (priority t) (rlim t) (tarray_ptr t) (t_cred t).

Definition set_priority (v : Z) (t : task_struct) : task_struct :=
  Task (pid t) (pgrp t) (session t) (leader t) (tty t) (tty_old_pgrp t) (p_pptr t) (p_opptr t) (did_exec t)
       v (rlim t) (tarray_ptr t) (t_cred t).

Definition set_cred (v : cred) (t : task_struct) : task_struct :=
  Task (pid t) (pgrp t) (session t) (leader t) (tty t) (tty_old_pgrp t) (p_pptr t) (p_opptr t) (did_exec t)
       (priority t) (rlim t) (tarray_ptr t) v.

(** [leader = 1; session = pgrp = pid; tty = NULL; tty_old_pgrp = 0] *)
Definition lead_session (t : task_struct) : task_struct :=
  Task (pid t) (pid t) (pid t) true None 0 (p_pptr t) (p_opptr t) (did_exec t)
       (priority t) (rlim t) (tarray_ptr t) (t_cred t).

Definition copy_flags (clone_flags old : Z) : Z :=
  let new_flags := Z.land old (Z.lnot (Z.lor (Z.lor PF_SUPERPRIV PF_USEDFPU) PF_VFORK)) in
  let new_flags := Z.lor new_flags PF_FORKNOEXEC in
  let new_flags := if Z.land clone_flags CLONE_PTRACE =? 0
                   then Z.land new_flags (Z.lnot (Z.lor PF_PTRACED PF_TRACESYS)) else new_flags in
  if Z.land clone_flags CLONE_VFORK =? 0 then new_flags else Z.lor new_flags PF_VFORK.

(** The child: a copy of the parent with the fields that [do_fork] sets. *)
Definition child_of (parent : task_struct) (clone_flags current pid_ slot : Z) : task_struct :=
  Task pid_ (pgrp parent) (session parent) false (tty parent) 0 current current false
       (priority parent) (rlim parent) slot
       (set_flags (copy_flags clone_flags (flags (t_cred parent))) (t_cred parent)).

(** ** The pid hash table *)

Definition pid_hashfn (x : Z) : Z := Z.land (Z.lxor (Z.shiftr x 8) x) (PIDHASH_SZ - 1).

Definition bucket (k : kstate) (h : Z) : list Z := default [] (pidhash k !! h).

Definition hash_pid (k : kstate) (p : Z) : gmap Z (list Z) :=
  let h := pid_hashfn (pid (task k p)) in <[h := p :: bucket k h]> (pidhash k).

Definition unhash_pid (k : kstate) (p : Z) : gmap Z (list Z) :=
  let h := pid_hashfn (pid (task k p)) in <[h := filter (fun a => a <> p) (bucket k h)]> (pidhash k).

Fixpoint find_loop (k : kstate) (l : list Z) (pid_ : Z) : option Z :=
  match l with
  | [] => None
  | p :: l => if pid (task k p) =? pid_ then Some p else find_loop k l pid_
  end.

Definition find_task_by_pid (k : kstate) (pid_ : Z) : option Z :=
  find_loop k (bucket k (pid_hashfn pid_)) pid_.

(** ** Allocation of process ids *)

Inductive scan_result := Done (last next : Z) | Repeat (last : Z).

Definition over (last : Z) : bool := negb (Z.land last 0xffff8000 =? 0).

(** [if(x > last_pid && next_safe > x) next_safe = x] *)
Definition lower_safe (last next x : Z) : Z := if (last <? x) && (x <? next) then x else next.

(** One pass of [for_each_task] in [get_pid]. *)
Fixpoint scan (k : kstate) (l : list Z) (last next : Z) : scan_result :=
  match l with
  | [] => Done last next
  | p :: l =>
    let t := task k p in
    let used := (pid t =? last) || (pgrp t =? last) || (session t =? last) in
    let last := if used then last + 1 else last in
    if used && (next <=? last) then Repeat (if over last then 300 else last)
    else
      let next := lower_safe last next (pid t) in
      let next := lower_safe last next (pgrp t) in
      let next := lower_safe last next (session t) in
      scan k l last next
  end.

Fixpoint scan_repeat (fuel : nat) (k : kstate) (last : Z) : option (Z * Z) :=
  match fuel with
  | O => None
  | S fuel =>
    match scan k (order k) last PID_MAX with
    | Done last next => Some (last, next)
    | Repeat last => scan_repeat fuel k last
    end
  end.

(** Passes that are always enough (theorem [get_pid_fresh]). *)
Definition pid_fuel : nat := Z.to_nat (2 * PID_MAX + 2).

Definition get_pid (k : kstate) (flags : Z) : option (Z * kstate) :=
  if negb (Z.land flags CLONE_PID =? 0) then Some (pid (curr k), k) else
  let last := last_pid k + 1 in
  let inside last := '(last, next) ← scan_repeat pid_fuel k last; Some (last, with_pids k last next) in
  if over last then inside 300
  else if next_safe k <=? last then inside last
  else Some (last, with_pids k last (next_safe k)).

(** ** Birth and death *)

Definition find_empty_process (k : kstate) : option Z * kstate :=
  if (nr_tasks k <? NR_TASKS - MIN_TASKS_LEFT_FOR_ROOT) || (uid (t_cred (curr k)) =? 0) then
    match tarray_freelist k with
    | [] => (None, k)
    | s :: l => (Some s, with_slots k l)
    end
  else (None, k).

(** [p] is what [alloc_task_struct] returns and [copied] the result of the first
    failing routine among [copy_files], [copy_fs], [copy_sighand], [copy_mm] and
    [copy_thread], or 0.  [None] is a loop of [get_pid] that does not end. *)
Definition do_fork (k : kstate) (clone_flags : Z) (p : option Z) (copied : Z) : option (Z * kstate) :=
  match p with
  | None => Some (- ENOMEM, k)
  | Some p =>
    let parent := curr k in
    let limit := (default (0, 0) (rlim parent !! RLIMIT_NPROC)).1 in
    let count := match user (t_cred parent) with
                 | Some up => u_count (default (UserStruct 0 0) (users (kcache k) !! up))
                 | None => 0
                 end in
    if bool_decide (user (t_cred parent) <> None) && (limit <=? count) then Some (- ENOMEM, k) else
    let '(slot, k) := find_empty_process k in
    match slot with
    | None => Some (- EAGAIN, k)
    | Some slot =>
      '(id, k) ← get_pid k clone_flags;
      if negb (copied =? 0) then Some (copied, with_slots k (slot :: tarray_freelist k)) else
      let k := with_task k p (fun _ => child_of parent clone_flags (cur k) id slot) in
      if id =? 0 then Some (0, k) else
      let k := with_links k (order k ++ [p]) (hash_pid k p) (nr_tasks k + 1) in
      let k := match user (t_cred parent) with
               | Some up => with_cache k (set_count (kcache k) up Z.succ)
               | None => k
               end in
      Some (id, k)
    end
  end.

Definition release (k : kstate) (p : Z) : kstate :=
  if p =? cur k then k else
  let c := t_cred (task k p) in
  let k := match user c with
           | Some up => with_cache (with_task k p (set_cred (set_user None c))) (cache_release (kcache k) up)
           | None => k
           end in
  let k := with_slots k (tarray_ptr (task k p) :: tarray_freelist k) in
  with_links k (filter (fun a => a <> p) (order k)) (unhash_pid k p) (nr_tasks k - 1).

(** ** Process groups and sessions *)

Definition sys_setpgid (k : kstate) (pid_ pgid : Z) : Z * kstate :=
  let pid_ := if pid_ =? 0 then pid (curr k) else pid_ in
  let pgid := if pgid =? 0 then pid_ else pgid in
  if pgid <? 0 then (- EINVAL, k) else
  match find_task_by_pid k pid_ with
  | None => (- ESRCH, k)
  | Some p =>
    let t := task k p in
    let child := (p_pptr t =? cur k) || (p_opptr t =? cur k) in
    if child && negb (session t =? session (curr k)) then (- EPERM, k) else
    if child && did_exec t then (- EACCES, k) else
    if negb child && negb (p =? cur k) then (- ESRCH, k) else
    if leader t then (- EPERM, k) else
    if negb (pgid =? pid_) &&
       negb (existsb (fun a => (pgrp (task k a) =? pgid) && (session (task k a) =? session (curr k))) (order k))
    then (- EPERM, k)
    else (0, with_task k p (set_pgrp pgid))
  end.

Definition sys_getpgid (k : kstate) (pid_ : Z) : Z :=
  if pid_ =? 0 then pgrp (curr k)
  else match find_task_by_pid k pid_ with None => - ESRCH | Some p => pgrp (task k p) end.

Definition sys_getpgrp (k : kstate) : Z := pgrp (curr k).

Definition sys_getsid (k : kstate) (pid_ : Z) : Z :=
  if pid_ =? 0 then session (curr k)
  else match find_task_by_pid k pid_ with None => - ESRCH | Some p => session (task k p) end.

Definition sys_setsid (k : kstate) : Z * kstate :=
  if existsb (fun a => pgrp (task k a) =? pid (curr k)) (order k) then (- EPERM, k)
  else (pid (curr k), with_task k (cur k) lead_session).

(** [fallback] runs along; a process of the group stops the loop. *)
Fixpoint session_loop (k : kstate) (l : list Z) (pgrp_ fallback : Z) : Z :=
  match l with
  | [] => fallback
  | a :: l =>
    let t := task k a in
    if session t <=? 0 then session_loop k l pgrp_ fallback
    else if pgrp t =? pgrp_ then session t
    else session_loop k l pgrp_ (if pid t =? pgrp_ then session t else fallback)
  end.

Definition session_of_pgrp (k : kstate) (pgrp_ : Z) : Z := session_loop k (order k) pgrp_ (- 1).

(** ** kernel/sys.c: priorities *)

Definition DEF_PRIORITY : Z := 20.
Definition CAP_SYS_NICE : Z := 23.

(** [which] is PRIO_PROCESS (0), PRIO_PGRP (1) or PRIO_USER (2). *)
Definition proc_sel (k : kstate) (p which who : Z) : bool :=
  let t := task k p in
  if pid t =? 0 then false
  else if which =? 0 then ((who =? 0) && (p =? cur k)) || (pid t =? who)
  else if which =? 1 then pgrp t =? (if who =? 0 then pgrp (curr k) else who)
  else if which =? 2 then uid (t_cred t) =? (if who =? 0 then uid (t_cred (curr k)) else u32 who)
  else false.

(** A computation on the credentials of [current]. *)
Definition on_current {A} (m : M A) (k : kstate) : A * kstate :=
  let '(x, s) := m (CState (t_cred (curr k)) (kcache k) (ksecurebits k)) in
  (x, with_cache (with_task k (cur k) (set_cred (current s))) (cache s)).

(** From a nice value to a time slice. *)
Definition nice_to_priority (niceval : Z) : Z :=
  let priority := if niceval <? 0 then u32 (- niceval) else niceval in
  let priority := if 20 <? priority then 20 else priority in
  let priority := (priority * DEF_PRIORITY + 10) / 20 + DEF_PRIORITY in
  if 0 <=? niceval then
    let priority := 2 * DEF_PRIORITY - priority in if priority =? 0 then 1 else priority
  else priority.

Fixpoint setpriority_loop (k : kstate) (l : list Z) (which who prio error : Z) : Z * kstate :=
  match l with
  | [] => (error, k)
  | p :: l =>
    if negb (proc_sel k p which who) then setpriority_loop k l which who prio error else
    let mine := (uid (t_cred (task k p)) =? euid (t_cred (curr k))) || (uid (t_cred (task k p)) =? uid (t_cred (curr k))) in
    let '(ok, k) := on_current (or_capable mine CAP_SYS_NICE) k in
    if negb ok then setpriority_loop k l which who prio EPERM else
    let error := if error =? ESRCH then 0 else error in
    let '(ok, k) := on_current (or_capable (prio <=? priority (task k p)) CAP_SYS_NICE) k in
    if negb ok then setpriority_loop k l which who prio EACCES
    else setpriority_loop (with_task k p (set_priority prio)) l which who prio error
  end.

Definition sys_setpriority (k : kstate) (which who niceval : Z) : Z * kstate :=
  if (2 <? which) || (which <? 0) then (- EINVAL, k) else
  let '(error, k) := setpriority_loop k (order k) which who (nice_to_priority niceval) ESRCH in
  (- error, k).

Definition sys_getpriority (k : kstate) (which who : Z) : Z :=
  if (2 <? which) || (which <? 0) then - EINVAL else
  let max_prio := fold_left (fun m p => if proc_sel k p which who && (m <? priority (task k p))
                                        then priority (task k p) else m) (order k) (- ESRCH) in
  if 0 <? max_prio then (max_prio * 20 + DEF_PRIORITY / 2) / DEF_PRIORITY else max_prio.

(** ** kernel/capability.c

    What the calls read from user memory is an argument: [None] is a fault. *)

Definition CAPABILITY_VERSION : Z := 0x19980330.

(** [fault] tells whether [put_user] of the version fails, [data_fault] whether
    the copy of the sets to the caller does. *)
Definition sys_capget (k : kstate) (version : option Z) (fault : bool) (pid_ : option Z) (data_fault : bool)
    : Z * option (Z * Z * Z) :=
  match version with
  | None => (- EFAULT, None)
  | Some v =>
    if negb (v =? CAPABILITY_VERSION) then ((if fault then - EFAULT else - EINVAL), None) else
    match pid_ with
    | None => (- EFAULT, None)
    | Some p =>
      if p <? 0 then (- EINVAL, None) else
      let target := if negb (p =? 0) && negb (p =? pid (curr k)) then find_task_by_pid k p else Some (cur k) in
      match target with
      | None => (- ESRCH, None)
      | Some a =>
        let c := t_cred (task k a) in
        if data_fault then (- EFAULT, None) else (0, Some (cap_effective c, cap_inheritable c, cap_permitted c))
      end
    end
  end.

(** [for_each_task(target) { if (skip) continue; set the sets of target }] *)
Fixpoint cap_set_where (k : kstate) (l : list Z) (sel : kstate -> Z -> bool) (e i p : Z) : kstate :=
  match l with
  | [] => k
  | a :: l =>
    cap_set_where (if sel k a then with_task k a (fun t => set_cred (set_caps e i p (t_cred t)) t) else k) l sel e i p
  end.

Definition cap_set_pg (k : kstate) (pgrp_ e i p : Z) : kstate :=
  cap_set_where k (order k) (fun k a => pgrp (task k a) =? pgrp_) e i p.

Definition cap_set_all (k : kstate) (e i p : Z) : kstate :=
  cap_set_where k (order k) (fun k a => negb ((a =? cur k) || (pid (task k a) =? 1))) e i p.

Definition sys_capset (k : kstate) (version : option Z) (fault : bool) (pid_ : option Z)
    (data : option (Z * Z * Z)) : Z * kstate :=
  match version with
  | None => (- EFAULT, k)
  | Some v =>
    if negb (v =? CAPABILITY_VERSION) then ((if fault then - EFAULT else - EINVAL), k) else
    match pid_ with
    | None => (- EFAULT, k)
    | Some p =>
      let '(ok, k) := on_current (or_capable (p =? 0) CAP_SETPCAP) k in
      if negb ok then (- EPERM, k) else
      match data with
      | None => (- EFAULT, k)
      | Some (e, i, pm) =>
        let target := if (0 <? p) && negb (p =? pid (curr k)) then find_task_by_pid k p else Some (cur k) in
        match target with
        | None => (- ESRCH, k)
        | Some a =>
          if negb (capset_allowed (t_cred (curr k)) (t_cred (task k a)) e i pm) then (- EPERM, k) else
          if p <? 0 then (0, if p =? - 1 then cap_set_all k e i pm else cap_set_pg k (- p) e i pm)
          else (0, with_task k a (fun t => set_cred (set_caps e i pm (t_cred t)) t))
        end
      end
    end
  end.
