(* ===== verification/TaskProof.v ===== *)
(** * Processes: invariants and properties

    The invariant of the task list, the pid hash table, process groups,
    sessions and the cache of users, and the theorems on the allocation of
    process ids and on the calls of Task.v. *)

From stdpp Require Import functions.
From S2P Require Import Prelude Cred Task.

(** ** Process ids in use *)

Definition ids_of (t : task_struct) : list Z := [pid t; pgrp t; session t].

Definition all_ids (k : kstate) (l : list Z) : list Z := l ≫= (fun a => ids_of (task k a)).

Definition used (k : kstate) (x : Z) : Prop := x ∈ all_ids k (order k).

(** No process has two ids that follow each other. *)
Definition no_consecutive (k : kstate) : Prop :=
  forall a x, a ∈ order k -> x ∈ ids_of (task k a) -> x + 1 ∉ ids_of (task k a).

Lemma elem_of_all_ids k l x : x ∈ all_ids k l <-> exists a, a ∈ l /\ x ∈ ids_of (task k a).
Proof. unfold all_ids. rewrite list_elem_of_bind. naive_solver. Qed.

Lemma elem_of_ids x t : x ∈ ids_of t <-> x = pid t \/ x = pgrp t \/ x = session t.
Proof. unfold ids_of. rewrite !elem_of_cons, elem_of_nil. tauto. Qed.

Lemma all_ids_cons k a l x : x ∈ all_ids k (a :: l) <-> x ∈ ids_of (task k a) \/ x ∈ all_ids k l.
Proof. unfold all_ids. by rewrite bind_cons, elem_of_app. Qed.

Lemma all_ids_length k l : length (all_ids k l) = (3 * length l)%nat.
Proof. induction l as [|a l IH]; [done|]. unfold all_ids in *. rewrite bind_cons, length_app, IH. simpl. lia. Qed.

(** A list shorter than a range of numbers misses one of them. *)
Lemma free_number (l : list Z) lo n :
  (length l < n)%nat -> exists f, lo <= f < lo + Z.of_nat n /\ f ∉ l.
Proof.
  intros Hlen. destruct (decide (Forall (fun x => x ∈ l) (seqZ lo (Z.of_nat n)))) as [Hall|Hno].
  - assert (length (seqZ lo (Z.of_nat n)) <= length l)%nat as H.
    { apply submseteq_length, NoDup_submseteq; [apply NoDup_seqZ|]. intros x Hx.
      rewrite Forall_forall in Hall. by apply Hall. }
    rewrite length_seqZ in H. lia.
  - apply not_Forall_Exists in Hno; [|intros x; apply _]. apply Exists_exists in Hno as (f & Hf & Hfl).
    exists f. apply elem_of_seqZ in Hf. split; [lia|done].
Qed.

(** ** One pass over the task list *)

Lemma over_spec x : 0 <= x <= PID_MAX -> over x = (x =? PID_MAX).
Proof.
  intros Hx. unfold over. destruct (decide (x = PID_MAX)) as [->|Hne]; [done|].
  replace (x =? PID_MAX) with false by lia. apply negb_false_iff, Z.eqb_eq, Z.bits_inj'. intros i Hi.
  rewrite Z.land_spec, Z.bits_0. change 0xffff8000 with (Z.shiftl 131071 15).
  destruct (decide (i < 15)); [rewrite Z.shiftl_spec_low by done; apply andb_false_r|].
  replace (Z.testbit x i) with false; [done|]. symmetry. unfold PID_MAX in *.
  destruct (decide (x = 0)) as [->|]; [apply Z.bits_0|]. apply Z.bits_above_log2; [lia|].
  apply Z.log2_lt_pow2; [lia|]. assert (2 ^ 15 <= 2 ^ i) by (apply Z.pow_le_mono_r; lia). lia.
Qed.

Lemma lower_safe_spec last next x :
  last < next ->
  last < lower_safe last next x /\ lower_safe last next x <= next /\
  (x <= last \/ lower_safe last next x <= x).
Proof. unfold lower_safe. intros. destruct ((last <? x) && (x <? next)) eqn:E; lia. Qed.

Definition in_use (t : task_struct) (x : Z) : bool := (pid t =? x) || (pgrp t =? x) || (session t =? x).

Lemma in_use_spec t x : in_use t x = true <-> x ∈ ids_of t.
Proof. unfold in_use. rewrite elem_of_ids. lia. Qed.

(** What a pass guarantees: the ids of the processes it saw are at most the new
    [last_pid] or at least the new [next_safe]; a process with consecutive ids
    apart, the new [last_pid] is none of them. *)
Lemma scan_done k l last next last' next' :
  scan k l last next = Done last' next' -> last < next ->
  last <= last' /\ last' < next' /\ next' <= next /\
  (forall x, x ∈ all_ids k l -> x <= last' \/ next' <= x) /\
  ((forall a x, a ∈ l -> x ∈ ids_of (task k a) -> x + 1 ∉ ids_of (task k a)) ->
   forall x, x ∈ all_ids k l -> x <> last').
Proof.
  revert last next. induction l as [|a l IH]; intros last next; cbn [scan].
  { intros [= <- <-] H. split_and!; [lia..|by intros ? ?%elem_of_nil|by intros _ ? ?%elem_of_nil]. }
  fold (in_use (task k a) last). set (t := task k a). set (u := in_use t last).
  set (last1 := if u then last + 1 else last). destruct (u && (next <=? last1)) eqn:Er; [done|].
  set (n1 := lower_safe last1 next (pid t)). set (n2 := lower_safe last1 n1 (pgrp t)).
  set (n3 := lower_safe last1 n2 (session t)). intros Hs Hlt.
  assert (last <= last1 < next) as Hl1 by (unfold last1; destruct u; lia).
  destruct (lower_safe_spec last1 next (pid t)) as (Ha1 & Ha2 & Ha3); [lia|]. fold n1 in Ha1, Ha2, Ha3.
  destruct (lower_safe_spec last1 n1 (pgrp t)) as (Hb1 & Hb2 & Hb3); [lia|]. fold n2 in Hb1, Hb2, Hb3.
  destruct (lower_safe_spec last1 n2 (session t)) as (Hc1 & Hc2 & Hc3); [lia|]. fold n3 in Hc1, Hc2, Hc3.
  destruct (IH _ _ Hs Hc1) as (H1 & H2 & H3 & H4 & H5). clear IH Hs.
  split_and!; [lia..| |].
  - intros x. rewrite all_ids_cons. fold t. intros [Hx|Hx]; [|by apply H4].
    apply elem_of_ids in Hx. lia.
  - intros Hc x. rewrite all_ids_cons. fold t. intros [Hx|Hx].
    + assert (x <> last1) as Hne.
      { unfold last1. destruct u eqn:Eu.
        - intros ->. apply (Hc a last); [by left|by apply in_use_spec|done].
        - intros ->. apply in_use_spec in Hx. fold u in Hx. congruence. }
      apply elem_of_ids in Hx. lia.
    + apply H5; [|done]. intros b y Hb. apply Hc. by right.
Qed.

(** A pass does not step over a free id, and it restarts further on. *)
Lemma scan_repeat_at k l last next last' f :
  scan k l last next = Repeat last' -> last < next -> next <= PID_MAX -> 0 <= last -> 300 <= f < PID_MAX ->
  f ∉ all_ids k l ->
  (last < last' < PID_MAX /\ (last <= f -> last' <= f)) \/ (f < last /\ last' = 300).
Proof.
  revert last next. induction l as [|a l IH]; intros last next; cbn [scan]; [done|].
  fold (in_use (task k a) last). set (t := task k a). set (u := in_use t last).
  set (last1 := if u then last + 1 else last). intros Hs Hlt Hn H0 Hf Hfree.
  rewrite all_ids_cons in Hfree. fold t in Hfree.
  assert (u = true -> last <> f) as Huf by (intros Hu ->; apply Hfree; left; by apply in_use_spec).
  destruct (u && (next <=? last1)) eqn:Er.
  - apply andb_true_iff in Er as [Hu Hle]. injection Hs as <-. specialize (Huf Hu). unfold last1 in *. rewrite Hu in *.
    rewrite over_spec by lia. destruct (last + 1 =? PID_MAX) eqn:E; lia.
  - assert (last <= last1 < next) as Hl1 by (unfold last1; destruct u; lia).
    destruct (lower_safe_spec last1 next (pid t)) as (Ha1 & Ha2 & _); [lia|].
    set (n1 := lower_safe last1 next (pid t)) in *.
    destruct (lower_safe_spec last1 n1 (pgrp t)) as (Hb1 & Hb2 & _); [lia|].
    set (n2 := lower_safe last1 n1 (pgrp t)) in *.
    destruct (lower_safe_spec last1 n2 (session t)) as (Hc1 & Hc2 & _); [lia|].
    destruct (IH _ _ Hs) as [[H1 H2]|[H1 H2]]; try lia. by intros ?; apply Hfree; right.
Qed.

(** Steps left until the free id [f], going round at [PID_MAX]. *)
Definition distance (f last : Z) : Z := if last <=? f then f - last else PID_MAX - last + (f - 300) + 1.

Lemma scan_repeat_total k f fuel last :
  300 <= f < PID_MAX -> ~ used k f -> 0 <= last < PID_MAX -> distance f last < Z.of_nat fuel ->
  exists last' next', scan_repeat fuel k last = Some (last', next').
Proof.
  intros Hf Hfree. revert last. induction fuel as [|fuel IH]; intros last Hlast Hd.
  { unfold distance in Hd. destruct (last <=? f) eqn:E; lia. }
  simpl. destruct (scan k (order k) last PID_MAX) as [l n|l] eqn:E; [eauto|]. apply IH.
  - destruct (scan_repeat_at _ _ _ _ _ f E) as [[? _]|[_ ->]]; unfold PID_MAX in *; try lia; done.
  - destruct (scan_repeat_at _ _ _ _ _ f E) as [[H1 H2]|[H1 ->]]; try lia; [done|..].
    + unfold distance in *. destruct (last <=? f) eqn:E1, (l <=? f) eqn:E2; lia.
    + unfold distance in *. replace (300 <=? f) with true by lia. replace (last <=? f) with false in Hd by lia. lia.
Qed.

Lemma scan_repeat_range k l last next last' :
  scan k l last next = Repeat last' -> 0 < last < next -> next <= PID_MAX -> 0 < last' < PID_MAX.
Proof.
  revert last next. induction l as [|a l IH]; intros last next; cbn [scan]; [done|].
  fold (in_use (task k a) last). set (t := task k a). set (u := in_use t last).
  set (last1 := if u then last + 1 else last). intros Hs Hlt Hn.
  destruct (u && (next <=? last1)) eqn:Er.
  - injection Hs as <-. unfold last1 in *. destruct u; [|done]. unfold PID_MAX in *.
    rewrite over_spec by (unfold PID_MAX; lia). unfold PID_MAX. destruct (_ =? _) eqn:E; lia.
  - assert (last <= last1 < next) as Hl1 by (unfold last1; destruct u; lia).
    destruct (lower_safe_spec last1 next (pid t)) as (Ha1 & Ha2 & _); [lia|].
    destruct (lower_safe_spec last1 (lower_safe last1 next (pid t)) (pgrp t)) as (Hb1 & Hb2 & _); [lia|].
    destruct (lower_safe_spec last1 (lower_safe last1 (lower_safe last1 next (pid t)) (pgrp t)) (session t))
      as (Hc1 & Hc2 & _); [lia|].
    eapply IH; [exact Hs|lia..].
Qed.

Lemma scan_repeat_done fuel k last last' next' :
  scan_repeat fuel k last = Some (last', next') -> 0 < last < PID_MAX ->
  0 < last' < next' /\ next' <= PID_MAX /\
  (forall x, used k x -> x <= last' \/ next' <= x) /\ (no_consecutive k -> ~ used k last').
Proof.
  revert last. induction fuel as [|fuel IH]; intros last; simpl; [done|].
  destruct (scan k (order k) last PID_MAX) as [l n|l] eqn:E; intros Hs Hl.
  - injection Hs as <- <-. destruct (scan_done _ _ _ _ _ _ E) as (H1 & H2 & H3 & H4 & H5); [lia|].
    split_and!; [lia..|done|]. intros Hc Hu. by eapply H5.
  - apply (IH _ Hs). by eapply scan_repeat_range.
Qed.

(** ** The invariant *)

Definition accounts_of (k : kstate) : list (Z * option Z) := (fun a => account (t_cred (task k a))) <$> order k.

Record tasks_ok (k : kstate) : Prop := TasksOk {
  tk_nodup : NoDup (order k);
  tk_cur : cur k ∈ order k;
  tk_pids : forall a b, a ∈ order k -> b ∈ order k -> pid (task k a) = pid (task k b) -> a = b;
  tk_range : forall a, a ∈ order k -> 0 < pid (task k a) < PID_MAX;
  tk_hash : forall h a, a ∈ bucket k h <-> a ∈ order k /\ pid_hashfn (pid (task k a)) = h;
  (* a process group lies in one session, that of the process it is named after *)
  tk_group : forall a b, a ∈ order k -> b ∈ order k -> pgrp (task k a) = pgrp (task k b) ->
    session (task k a) = session (task k b);
  tk_founder : forall a b, a ∈ order k -> b ∈ order k -> pgrp (task k a) = pid (task k b) ->
    session (task k a) = session (task k b);
  tk_leader : forall a, a ∈ order k -> leader (task k a) = true ->
    session (task k a) = pid (task k a) /\ pgrp (task k a) = pid (task k a);
  (* the pids between last_pid and next_safe are free *)
  tk_last : 0 <= last_pid k < PID_MAX /\ next_safe k <= PID_MAX;
  tk_safe : forall x, used k x -> x <= last_pid k \/ next_safe k <= x;
  tk_count : nr_tasks k = Z.of_nat (length (order k));
  tk_slots : (length (order k) + length (tarray_freelist k) <= Z.to_nat NR_TASKS)%nat;
  tk_small : forall a, a ∈ order k -> small (uid (t_cred (task k a)));
  tk_cache : cache_ok (accounts_of k) (kcache k)
}.

Lemma free_pid k : tasks_ok k -> exists f, 300 <= f < PID_MAX /\ ~ used k f.
Proof.
  intros Hk. destruct (free_number (all_ids k (order k)) 300 (Z.to_nat 32468)) as (f & Hf & Hn).
  - rewrite all_ids_length. pose proof (tk_slots _ Hk). unfold NR_TASKS in *. lia.
  - exists f. unfold PID_MAX. split; [lia|done].
Qed.

(** [get_pid] ends; without consecutive ids the pid is fresh. *)
Lemma get_pid_ok k flags :
  tasks_ok k -> Z.land flags CLONE_PID = 0 ->
  exists id next, get_pid k flags = Some (id, with_pids k id next) /\
    0 < id < PID_MAX /\ next <= PID_MAX /\
    (forall x, used k x -> x <= id \/ next <= x) /\ (no_consecutive k -> ~ used k id).
Proof.
  intros Hk Hfl. unfold get_pid. rewrite Hfl. cbn [Z.eqb negb].
  destruct (tk_last _ Hk) as [Hl Hn].
  assert (forall last, 0 < last < PID_MAX -> exists id next,
    ('(last, next) ← scan_repeat pid_fuel k last; Some (last, with_pids k last next)) = Some (id, with_pids k id next) /\
    0 < id < PID_MAX /\ next <= PID_MAX /\
    (forall x, used k x -> x <= id \/ next <= x) /\ (no_consecutive k -> ~ used k id)) as Hin.
  { intros last Hlast. destruct (free_pid k Hk) as (f & Hf & Hfree).
    destruct (scan_repeat_total k f pid_fuel last Hf Hfree) as (l & n & E); [lia|..].
    { unfold pid_fuel, distance, PID_MAX in *. destruct (last <=? f) eqn:El; lia. }
    rewrite E. apply scan_repeat_done in E as (H1 & H2 & H3 & H4); [|done].
    exists l, n. simpl. split_and!; [done|lia..|done|done]. }
  rewrite over_spec by lia. destruct (last_pid k + 1 =? PID_MAX) eqn:E1; [apply Hin; unfold PID_MAX; lia|].
  destruct (next_safe k <=? last_pid k + 1) eqn:E2; [apply Hin; lia|].
  exists (last_pid k + 1), (next_safe k). split_and!; [done|lia..| |].
  - intros x Hx. destruct (tk_safe _ Hk x Hx); lia.
  - intros _ Hu. destruct (tk_safe _ Hk _ Hu); lia.
Qed.

(** The hash table finds exactly the processes of the list. *)
Lemma find_loop_spec k l x a :
  find_loop k l x = Some a -> a ∈ l /\ pid (task k a) = x.
Proof.
  induction l as [|b l IH]; simpl; [done|]. destruct (pid (task k b) =? x) eqn:E.
  - intros [= ->]. split; [by left|lia].
  - intros [? ?]%IH. split; [by right|done].
Qed.

Lemma find_loop_none k l x a : find_loop k l x = None -> a ∈ l -> pid (task k a) <> x.
Proof.
  induction l as [|b l IH]; simpl; [by intros _ ?%elem_of_nil|]. destruct (pid (task k b) =? x) eqn:E; [done|].
  intros Hn [->|Ha]%elem_of_cons; [lia|by apply IH].
Qed.

Lemma find_task_spec k x a :
  tasks_ok k -> find_task_by_pid k x = Some a <-> a ∈ order k /\ pid (task k a) = x.
Proof.
  intros Hk. unfold find_task_by_pid. split.
  - intros [Ha <-]%find_loop_spec. apply (tk_hash _ Hk) in Ha as [Ha _]. done.
  - intros [Ha Hx]. destruct (find_loop k _ x) as [b|] eqn:E.
    + apply find_loop_spec in E as [Hb Eb]. apply (tk_hash _ Hk) in Hb as [Hb _]. f_equal.
      apply (tk_pids _ Hk); [done..|congruence].
    + eapply find_loop_none in E; [done|]. apply (tk_hash _ Hk). split; [exact Ha|by rewrite Hx].
Qed.

Lemma find_task_none k x :
  tasks_ok k -> find_task_by_pid k x = None <-> forall a, a ∈ order k -> pid (task k a) <> x.
Proof.
  intros Hk. split.
  - intros Hn a Ha Hx. assert (find_task_by_pid k x = Some a) by (by apply find_task_spec). congruence.
  - intros H. destruct (find_task_by_pid k x) as [a|] eqn:E; [|done].
    apply find_task_spec in E as [Ha Ex]; [|done]. by destruct (H a Ha).
Qed.

(** ** The accounts do not depend on the order of the processes *)

#[export] Instance charged_proper : Proper ((≡ₚ) ==> (=) ==> (=)) charged.
Proof. intros l l' Hl a a' <-. unfold charged. by rewrite Hl. Qed.

Lemma cache_ok_perm l l' c : l ≡ₚ l' -> cache_ok l c -> cache_ok l' c.
Proof.
  intros Hl [[H1 H2 H3 H4 H5 H6] Hu]. split; [split|]; auto.
  - intros a u Ha. rewrite <-Hl. by apply H3.
  - intros i a. rewrite <-Hl. apply H4.
Qed.

#[export] Instance cache_ok_proper : Proper ((≡ₚ) ==> (=) ==> iff) cache_ok.
Proof. intros l l' Hl c c' <-. split; apply cache_ok_perm; [done|by symmetry]. Qed.

(** ** Changes that leave the ids alone *)

Record same_ids (k k' : kstate) : Prop := SameIds {
  si_order : order k' = order k;
  si_hash : pidhash k' = pidhash k;
  si_cur : cur k' = cur k;
  si_last : last_pid k' = last_pid k;
  si_next : next_safe k' = next_safe k;
  si_nr : nr_tasks k' = nr_tasks k;
  si_slots : tarray_freelist k' = tarray_freelist k;
  si_task : forall a, pid (task k' a) = pid (task k a) /\ pgrp (task k' a) = pgrp (task k a) /\
    session (task k' a) = session (task k a) /\ leader (task k' a) = leader (task k a)
}.

Lemma same_ids_refl k : same_ids k k.
Proof. by split. Qed.

Lemma same_ids_trans k1 k2 k3 : same_ids k1 k2 -> same_ids k2 k3 -> same_ids k1 k3.
Proof.
  intros [? ? ? ? ? ? ? H1] [? ? ? ? ? ? ? H2]. split; try congruence.
  intros a. destruct (H1 a) as (? & ? & ? & ?), (H2 a) as (? & ? & ? & ?). split_and!; congruence.
Qed.

Lemma same_ids_all k k' l : same_ids k k' -> all_ids k' l = all_ids k l.
Proof.
  intros Hs. unfold all_ids. induction l as [|a l IH]; [done|]. rewrite !bind_cons, IH. f_equal.
  destruct (si_task _ _ Hs a) as (E1 & E2 & E3 & _). unfold ids_of. by rewrite E1, E2, E3.
Qed.

Lemma tasks_ok_same k k' :
  tasks_ok k -> same_ids k k' ->
  (forall a, a ∈ order k -> small (uid (t_cred (task k' a)))) ->
  cache_ok (accounts_of k') (kcache k') -> tasks_ok k'.
Proof.
  intros Hk Hs Hsm Hc. pose proof Hs as [E1 E2 E3 E4 E5 E6 E7 Ht].
  assert (forall a, pid (task k' a) = pid (task k a)) as Hp by (intros a; apply Ht).
  assert (forall a, pgrp (task k' a) = pgrp (task k a)) as Hg by (intros a; apply Ht).
  assert (forall a, session (task k' a) = session (task k a)) as Hss by (intros a; apply Ht).
  assert (forall a, leader (task k' a) = leader (task k a)) as Hl by (intros a; apply Ht).
  destruct Hk as [H1 H2 H3 H4 H5 H6 H7 H8 H9 H10 H11 H12 H13 H14].
  split; rewrite ?E1, ?E3, ?E4, ?E5, ?E6, ?E7; auto.
  - intros a b. rewrite !Hp. auto.
  - intros a. rewrite Hp. auto.
  - intros h a. unfold bucket. rewrite E2, Hp. apply H5.
  - intros a b. rewrite !Hg, !Hss. auto.
  - intros a b. rewrite Hg, Hp, !Hss. auto.
  - intros a. rewrite Hl, Hss, Hg, Hp. auto.
  - intros x. unfold used. rewrite E1, (same_ids_all _ _ _ Hs). apply H10.
Qed.

(** ... and the accounts. *)
Lemma tasks_ok_quiet k k' :
  tasks_ok k -> same_ids k k' ->
  (forall a, account (t_cred (task k' a)) = account (t_cred (task k a))) -> kcache k' = kcache k ->
  tasks_ok k'.
Proof.
  intros Hk Hs Ha Hc. apply (tasks_ok_same k); [done..| |].
  - intros a Hin. specialize (Ha a). unfold account in Ha. injection Ha as -> _. by apply Hk.
  - rewrite Hc. replace (accounts_of k') with (accounts_of k); [apply Hk|].
    unfold accounts_of. rewrite (si_order _ _ Hs). apply list_fmap_ext. intros _ a _. by rewrite Ha.
Qed.

Lemma same_ids_set k a f :
  (forall t, pid (f t) = pid t /\ pgrp (f t) = pgrp t /\ session (f t) = session t /\ leader (f t) = leader t) ->
  same_ids k (with_task k a f).
Proof.
  intros Hf. split; try done. intros b. simpl. destruct (decide (a = b)) as [<-|].
  - rewrite fn_lookup_insert. apply Hf.
  - by rewrite fn_lookup_insert_ne.
Qed.

Lemma same_ids_cache k c : same_ids k (with_cache k c).
Proof. by split. Qed.

Lemma same_ids_current {A} (m : M A) k : same_ids k (on_current m k).2.
Proof.
  unfold on_current. destruct (m _) as [x s]. simpl. eapply same_ids_trans; [|apply same_ids_cache].
  by apply same_ids_set.
Qed.

(** The accounts after a call of the current process. *)
Lemma accounts_current k c l :
  NoDup (order k) -> cur k ∈ order k ->
  exists others, accounts_of k ≡ₚ account (t_cred (curr k)) :: others /\
    accounts_of (with_cache (with_task k (cur k) (set_cred c)) l) ≡ₚ account c :: others.
Proof.
  intros Hnd Hcur. apply list_elem_of_split in Hcur as (l1 & l2 & E).
  exists ((fun a => account (t_cred (task k a))) <$> (l1 ++ l2)). unfold accounts_of. simpl. rewrite E in *.
  assert ((cur k ∉ l1) /\ (cur k ∉ l2)) as [Hn1 Hn2].
  { apply NoDup_app in Hnd as (_ & Hd & [Hn _]%NoDup_cons). split; [|done]. intros Hin. apply (Hd _ Hin). by left. }
  rewrite !fmap_app, !fmap_cons. split; [by rewrite Permutation_middle|].
  rewrite fn_lookup_insert. simpl. rewrite <-Permutation_middle. constructor. apply reflexive_eq. f_equal.
  - apply list_fmap_ext. intros i a Ha%list_elem_of_lookup_2. rewrite fn_lookup_insert_ne; [done|congruence].
  - apply list_fmap_ext. intros i a Ha%list_elem_of_lookup_2. rewrite fn_lookup_insert_ne; [done|congruence].
Qed.

Lemma tasks_ok_current {A} (m : M A) k :
  tasks_ok k ->
  (forall others s, s = CState (t_cred (curr k)) (kcache k) (ksecurebits k) ->
     accounted others s -> accounted others (m s).2) ->
  small (uid (current (m (CState (t_cred (curr k)) (kcache k) (ksecurebits k))).2)) ->
  tasks_ok (on_current m k).2.
Proof.
  intros Hk Hm Hsm. apply (tasks_ok_same k); [done|apply same_ids_current|..].
  - intros a Ha. unfold on_current. destruct (m _) as [x s]. simpl in *.
    destruct (decide (cur k = a)) as [<-|]; [by rewrite fn_lookup_insert|].
    rewrite fn_lookup_insert_ne by done. by apply Hk.
  - unfold on_current.
    set (s0 := CState (t_cred (curr k)) (kcache k) (ksecurebits k)) in *.
    destruct (accounts_current k (current (m s0).2) (cache (m s0).2) (tk_nodup _ Hk) (tk_cur _ Hk)) as (others & E1 & E2).
    destruct (m s0) as [x s] eqn:Em. simpl in *. rewrite E2. specialize (Hm others s0 eq_refl).
    rewrite Em in Hm. apply Hm. unfold accounted. simpl. rewrite <-E1. apply Hk.
Qed.

Lemma tasks_ok_current_quiet {A} (m : M A) k : quiet m -> tasks_ok k -> tasks_ok (on_current m k).2.
Proof.
  intros Hm Hk. apply tasks_ok_current; [done|..].
  - intros others s _ Hs. destruct (Hm s) as [E1 E2]. unfold accounted in *. by rewrite E1, E2.
  - destruct (Hm (CState (t_cred (curr k)) (kcache k) (ksecurebits k))) as [E _]. unfold account in E.
    injection E as -> _. simpl. apply Hk, Hk.
Qed.

(** ** The calls on credentials, capabilities and priorities *)

Lemma small_pick r old : small_arg r -> small old -> small (pick r old).
Proof. unfold pick. intros [->|Hr] Ho; [done|]. by destruct (r =? NO_ID). Qed.

Lemma call_uid_small fresh call s :
  small_call call -> small (uid (current s)) -> small (uid (current (run_call fresh call s).2)).
Proof.
  intros Hc Hs.
  assert (forall A (m : M A), quiet m -> small (uid (current (m s).2))) as Hq.
  { intros A m Hm. destruct (Hm s) as [E _]. unfold account in E. by injection E as -> _. }
  assert (forall c', same_but_flags (current s) c' -> small (uid c')) as Hf by (by intros ? [v ->]).
  destruct (keeps_uid call) eqn:E0; [by apply Hq, run_call_quiet|]. destruct call; try done.
  - pose proof (setreuid_exact fresh _ r e s eq_refl) as H. simpl in *.
    destruct (setreuid_allowed _ _ _); [|by apply Hf, H]. destruct H as [_ E]. unfold ids, setreuid_ids in E.
    injection E as -> _ _ _. by apply small_pick.
  - pose proof (setuid_exact fresh _ u s eq_refl) as H. simpl in *.
    destruct (setuid_allowed _ _); [|by apply Hf, H]. destruct H as [_ E]. unfold ids, setuid_ids in E.
    destruct (cap_raised _ _); by injection E as -> _ _ _.
  - pose proof (setresuid_exact fresh _ r e s0 s eq_refl) as H. simpl in *.
    destruct (setresuid_allowed _ _ _ _); [|by apply Hf, H]. destruct H as [_ E]. unfold ids, setresuid_ids in E.
    injection E as -> _ _ _. by apply small_pick.
Qed.

Lemma tasks_ok_call k fresh call :
  tasks_ok k -> small_call call -> fresh_for fresh (CState (t_cred (curr k)) (kcache k) (ksecurebits k)) ->
  tasks_ok (on_current (run_call fresh call) k).2.
Proof.
  intros Hk Hc Hf. assert (small (uid (t_cred (curr k)))) as Hs by (apply Hk, Hk).
  apply tasks_ok_current; [done| |by apply call_uid_small].
  intros others s -> Ha. by apply run_call_pays.
Qed.

Lemma tasks_ok_set k a f :
  (forall t, pid (f t) = pid t /\ pgrp (f t) = pgrp t /\ session (f t) = session t /\ leader (f t) = leader t) ->
  (forall t, account (t_cred (f t)) = account (t_cred t)) ->
  tasks_ok k -> tasks_ok (with_task k a f).
Proof.
  intros Hf Ha Hk. apply (tasks_ok_quiet k); [done|by apply same_ids_set| |done].
  intros b. simpl. destruct (decide (a = b)) as [<-|]; [by rewrite fn_lookup_insert|by rewrite fn_lookup_insert_ne].
Qed.

Lemma tasks_ok_setpriority k which who niceval : tasks_ok k -> tasks_ok (sys_setpriority k which who niceval).2.
Proof.
  intros Hk. unfold sys_setpriority. destruct (_ || _); [done|].
  enough (forall l prio error k, tasks_ok k -> tasks_ok (setpriority_loop k l which who prio error).2) as H.
  { specialize (H (order k) (nice_to_priority niceval) ESRCH k Hk). by destruct (setpriority_loop _ _ _ _ _ _). }
  clear k Hk. induction l as [|p l IH]; intros prio error k Hk; [done|]. cbn [setpriority_loop].
  destruct (negb (proc_sel _ _ _ _)); [by apply IH|].
  match goal with |- context [on_current ?m k] =>
    pose proof (tasks_ok_current_quiet m k (quiet_or_capable _ _) Hk) as Hk1; destruct (on_current m k) as [ok k1] end.
  destruct (negb ok); [by apply IH|].
  match goal with |- context [on_current ?m k1] =>
    pose proof (tasks_ok_current_quiet m k1 (quiet_or_capable _ _) Hk1) as Hk2; destruct (on_current m k1) as [ok2 k2] end.
  destruct (negb ok2); [by apply IH|]. apply IH. by apply tasks_ok_set.
Qed.

Lemma tasks_ok_cap_set k l sel e i p : tasks_ok k -> tasks_ok (cap_set_where k l sel e i p).
Proof.
  revert k. induction l as [|a l IH]; intros k Hk; [done|]. cbn [cap_set_where]. apply IH.
  destruct (sel k a); [|done]. by apply tasks_ok_set.
Qed.

Lemma tasks_ok_capset k version fault pid_ data : tasks_ok k -> tasks_ok (sys_capset k version fault pid_ data).2.
Proof.
  intros Hk. unfold sys_capset. destruct version as [v|]; [|done]. destruct (negb (v =? _)); [done|].
  destruct pid_ as [p|]; [|done].
  pose proof (tasks_ok_current_quiet _ k (quiet_or_capable (p =? 0) CAP_SETPCAP) Hk) as Hk1.
  destruct (on_current _ k) as [ok k1]. simpl in Hk1.
  destruct (negb ok); [done|]. destruct data as [[[e i] pm]|]; [|done].
  destruct (if (0 <? p) && negb (p =? pid (curr k1)) then find_task_by_pid k1 p else Some (cur k1)) as [a|]; [|done].
  destruct (negb (capset_allowed _ _ _ _ _)); [done|]. destruct (p <? 0).
  - simpl. destruct (p =? - 1); by apply tasks_ok_cap_set.
  - by apply tasks_ok_set.
Qed.

(** ** Process groups and sessions *)

(** Moving [p] to a group of its own session keeps the invariant. *)
Lemma tasks_ok_set_pgrp k p g :
  tasks_ok k -> p ∈ order k -> leader (task k p) = false ->
  (forall a, a ∈ order k -> pgrp (task k a) = g -> session (task k a) = session (task k p)) ->
  (forall a, a ∈ order k -> pid (task k a) = g -> session (task k a) = session (task k p)) ->
  (g = pid (task k p) \/ used k g) ->
  tasks_ok (with_task k p (set_pgrp g)).
Proof.
  intros Hk Hp Hl Hg Hf Hu.
  pose proof Hk as [H1 H2 H3 H4 H5 H6 H7 H8 H9 H10 H11 H12 H13 H14].
  set (k' := with_task k p (set_pgrp g)).
  assert (forall a, pid (task k' a) = pid (task k a) /\ session (task k' a) = session (task k a) /\
    leader (task k' a) = leader (task k a) /\ t_cred (task k' a) = t_cred (task k a) /\
    pgrp (task k' a) = if decide (p = a) then g else pgrp (task k a)) as Ht.
  { intros a. simpl. case_decide as E; [subst a; by rewrite fn_lookup_insert|by rewrite fn_lookup_insert_ne]. }
  assert (forall a, pid (task k' a) = pid (task k a)) as Tp by (intros a; apply Ht).
  assert (forall a, session (task k' a) = session (task k a)) as Ts by (intros a; apply Ht).
  assert (forall a, pgrp (task k' a) = if decide (p = a) then g else pgrp (task k a)) as Tg by (intros a; apply Ht).
  assert (forall x, used k' x -> used k x) as Hused.
  { intros x. unfold used. rewrite !elem_of_all_ids. intros (a & Ha & Hx). rewrite elem_of_ids in Hx.
    rewrite Tp, Ts, Tg in Hx.
    assert (x = g \/ x ∈ ids_of (task k a)) as [->|Hx'].
    { rewrite elem_of_ids. case_decide; naive_solver. }
    - destruct Hu as [->|Hu]; [|by apply elem_of_all_ids in Hu]. exists p. split; [done|]. apply elem_of_ids. auto.
    - eauto. }
  split; try done.
  - intros a b. rewrite !Tp. apply H3.
  - intros a. rewrite Tp. apply H4.
  - intros h a. rewrite Tp. apply H5.
  - intros a b Ha Hb. rewrite !Tg, !Ts. repeat case_decide; subst; auto.
    + intros E. symmetry. by apply Hg.
  - intros a b Ha Hb. rewrite Tg, Tp, !Ts. case_decide; subst; auto. intros ->. symmetry. by apply Hf.
  - intros a Ha. rewrite Tp, Ts, Tg. destruct (Ht a) as (_ & _ & -> & _). case_decide; subst; auto. congruence.
  - intros x Hx. by apply H10, Hused.
  - intros a Ha. destruct (Ht a) as (_ & _ & _ & -> & _). auto.
  - replace (accounts_of k') with (accounts_of k); [done|]. unfold accounts_of.
    apply list_fmap_ext. intros _ a _. by destruct (Ht a) as (_ & _ & _ & -> & _).
Qed.

Lemma existsb_in {A} (f : A -> bool) l : existsb f l = true <-> exists x, x ∈ l /\ f x = true.
Proof. rewrite existsb_exists. by setoid_rewrite list_elem_of_In. Qed.

Lemma existsb_not_in {A} (f : A -> bool) l : existsb f l = false -> forall x, x ∈ l -> f x = false.
Proof.
  intros H x Hx. destruct (f x) eqn:E; [|done]. assert (existsb f l = true) by (apply existsb_in; eauto). congruence.
Qed.

(** The conditions under which [setpgid] moves the process at [p]. *)
Definition may_setpgid (k : kstate) (p pgid : Z) : Prop :=
  let t := task k p in
  let child := p_pptr t = cur k \/ p_opptr t = cur k in
  (child -> session t = session (curr k) /\ did_exec t = false) /\
  (child \/ p = cur k) /\ leader t = false /\
  (pgid = pid t \/ exists a, a ∈ order k /\ pgrp (task k a) = pgid /\ session (task k a) = session (curr k)).

(** The tests of [setpgid], in the order of the code, decide it. *)
Lemma may_setpgid_tests k p g :
  let t := task k p in
  let child := (p_pptr t =? cur k) || (p_opptr t =? cur k) in
  may_setpgid k p g <->
  child && negb (session t =? session (curr k)) = false /\ child && did_exec t = false /\
  negb child && negb (p =? cur k) = false /\ leader t = false /\
  negb (g =? pid t) &&
    negb (existsb (fun a => (pgrp (task k a) =? g) && (session (task k a) =? session (curr k))) (order k)) = false.
Proof.
  intros t child. unfold may_setpgid. fold t.
  assert (child = true <-> p_pptr t = cur k \/ p_opptr t = cur k) as Hch by (unfold child; lia).
  rewrite <-Hch.
  assert (existsb (fun a => (pgrp (task k a) =? g) && (session (task k a) =? session (curr k))) (order k) = true <->
    exists a, a ∈ order k /\ pgrp (task k a) = g /\ session (task k a) = session (curr k)) as He.
  { rewrite existsb_in. split; intros (a & Ha & E); exists a; (split; [done|lia]). }
  rewrite <-He. generalize (existsb (fun a => (pgrp (task k a) =? g) && (session (task k a) =? session (curr k))) (order k)).
  intros b. destruct child, b, (did_exec t), (leader t), (session t =? session (curr k)) eqn:E1, (p =? cur k) eqn:E2,
    (g =? pid t) eqn:E3; simpl; naive_solver lia.
Qed.

Lemma setpgid_ok k pid_ pgid :
  tasks_ok k ->
  let id := if pid_ =? 0 then pid (curr k) else pid_ in
  let g := if pgid =? 0 then id else pgid in
  let '(r, k') := sys_setpgid k pid_ pgid in
  (r = 0 /\ 0 <= g /\ exists p, p ∈ order k /\ pid (task k p) = id /\ may_setpgid k p g /\ k' = with_task k p (set_pgrp g)) \/
  (k' = k /\ (r = - EINVAL \/ r = - ESRCH \/ r = - EPERM \/ r = - EACCES) /\
   (g < 0 \/ forall p, p ∈ order k -> pid (task k p) = id -> ~ may_setpgid k p g)).
Proof.
  intros Hk id g. unfold sys_setpgid. fold id. fold g. destruct (g <? 0) eqn:Eg.
  { right. split_and!; [done|by left|left; lia]. }
  destruct (find_task_by_pid k id) as [p|] eqn:Ef.
  2: { right. pose proof (proj1 (find_task_none k id Hk) Ef) as Hno. split_and!; [done|by right; left|].
       right. intros p Hp E. by destruct (Hno p Hp). }
  apply find_task_spec in Ef as [Hp Eid]; [|done]. rewrite <-Eid.
  assert (forall r, r = - ESRCH \/ r = - EPERM \/ r = - EACCES -> ~ may_setpgid k p g ->
    (k = k /\ (r = - EINVAL \/ r = - ESRCH \/ r = - EPERM \/ r = - EACCES) /\
     (g < 0 \/ forall q, q ∈ order k -> pid (task k q) = pid (task k p) -> ~ may_setpgid k q g))) as Hbad.
  { intros r Hr Hno. split_and!; [done|by right|]. right. intros q Hq Eq.
    by rewrite (tk_pids _ Hk q p Hq Hp Eq). }
  pose proof (may_setpgid_tests k p g) as Hm. cbv zeta in Hm.
  set (t := task k p) in *. set (child := (p_pptr t =? cur k) || (p_opptr t =? cur k)) in *.
  destruct (child && negb (session t =? session (curr k))); [right; apply Hbad; [auto|by intros (? & _)%Hm]|].
  destruct (child && did_exec t); [right; apply Hbad; [auto|by intros (_ & ? & _)%Hm]|].
  destruct (negb child && negb (p =? cur k)); [right; apply Hbad; [auto|by intros (_ & _ & ? & _)%Hm]|].
  destruct (leader t); [right; apply Hbad; [auto|by intros (_ & _ & _ & ? & _)%Hm]|].
  destruct (negb (g =? pid t) && _) eqn:E; [right; apply Hbad; [auto|by intros (_ & _ & _ & _ & ?)%Hm]|].
  left. split_and!; [done|lia|]. exists p. split_and!; [done..|by apply Hm|done].
Qed.

Lemma tasks_ok_setpgid k pid_ pgid : tasks_ok k -> tasks_ok (sys_setpgid k pid_ pgid).2.
Proof.
  intros Hk. pose proof (setpgid_ok k pid_ pgid Hk) as H. cbv zeta in H.
  destruct (sys_setpgid k pid_ pgid) as [r k']. simpl.
  destruct H as [(_ & _ & p & Hp & _ & (Hch & Hown & Hl & Hg) & ->)|[-> _]]; [|done].
  assert (session (task k p) = session (curr k)) as Hs.
  { destruct Hown as [Hc| ->]; [by apply Hch|done]. }
  apply tasks_ok_set_pgrp; try done.
  - intros a Ha E. destruct Hg as [Eg|(b & Hb & Eb & Sb)].
    + apply (tk_founder _ Hk); [done..|congruence].
    + rewrite Hs, <-Sb. apply (tk_group _ Hk); [done..|congruence].
  - intros a Ha E. destruct Hg as [Eg|(b & Hb & Eb & Sb)].
    + f_equal. f_equal. apply (tk_pids _ Hk); [done..|congruence].
    + rewrite Hs, <-Sb. symmetry. apply (tk_founder _ Hk); [done..|congruence].
  - destruct Hg as [Eg|(b & Hb & Eb & Sb)]; [by left|right]. apply elem_of_all_ids. exists b.
    split; [done|]. apply elem_of_ids. auto.
Qed.

Lemma tasks_ok_setsid k : tasks_ok k -> tasks_ok (sys_setsid k).2.
Proof.
  intros Hk. unfold sys_setsid. destruct (existsb _ _) eqn:E; [done|]. cbn [snd].
  assert (forall a, a ∈ order k -> pgrp (task k a) <> pid (curr k)) as Hno.
  { intros a Ha. pose proof (existsb_not_in _ _ E a Ha) as H. simpl in H. lia. }
  pose proof Hk as [H1 H2 H3 H4 H5 H6 H7 H8 H9 H10 H11 H12 H13 H14].
  set (c := cur k) in *. set (k' := with_task k c lead_session).
  assert (forall a, task k' a = if decide (c = a) then lead_session (task k c) else task k a) as Ht.
  { intros a. simpl. case_decide as Ea; [subst a; by rewrite fn_lookup_insert|by rewrite fn_lookup_insert_ne]. }
  change (curr k) with (task k c) in Hno.
  split; try done.
  - intros a b. rewrite !Ht. intros Ha Hb. repeat case_decide; subst; simpl; auto.
  - intros a. rewrite Ht. case_decide; subst; simpl; auto.
  - intros h a. rewrite Ht. change (bucket k' h) with (bucket k h). case_decide; subst; apply H5.
  - intros a b Ha Hb. rewrite !Ht. repeat case_decide; subst; simpl; auto.
    + intros Eb. symmetry in Eb. by apply Hno in Eb.
    + intros Eb. by apply Hno in Eb.
  - intros a b Ha Hb. rewrite !Ht. repeat case_decide; subst; simpl; auto.
    + intros Eb. exfalso. match goal with H : c <> _ |- _ => apply H end. by apply H3.
    + intros Eb. by apply Hno in Eb.
  - intros a Ha. rewrite Ht. case_decide; subst; simpl; auto.
  - intros x. unfold used. rewrite elem_of_all_ids. intros (a & Ha & Hx). apply H10, elem_of_all_ids.
    exists a. split; [done|]. rewrite Ht in Hx. case_decide; [subst a|done].
    rewrite elem_of_ids in *. simpl in Hx. naive_solver.
  - intros a. rewrite Ht. case_decide; subst; simpl; auto.
  - replace (accounts_of k') with (accounts_of k); [done|]. unfold accounts_of.
    apply list_fmap_ext. intros _ a _. rewrite Ht. by case_decide; subst.
Qed.

(** ** Birth *)

Lemma tasks_ok_slots k l :
  tasks_ok k -> (length l <= length (tarray_freelist k))%nat -> tasks_ok (with_slots k l).
Proof.
  intros Hk Hl. pose proof (tk_slots _ Hk). destruct Hk. split; try done. simpl. lia.
Qed.

Lemma tasks_ok_pids k last next :
  tasks_ok k -> 0 <= last < PID_MAX -> next <= PID_MAX -> (forall x, used k x -> x <= last \/ next <= x) ->
  tasks_ok (with_pids k last next).
Proof. intros [] ? ? ?. by split. Qed.

(** One more process for the user of [i]. *)
Lemma cache_ok_succ procs c i up :
  cache_ok procs c -> (i, up) ∈ procs ->
  cache_ok ((i, up) :: procs) (match up with Some a => set_count c a Z.succ | None => c end).
Proof.
  intros [Hc Hu] Hin. destruct up as [a|]; [|by split; [apply accounts_none|]].
  destruct (co_proc _ _ Hc i a Hin) as (u & Ha & Eu). split; [by eapply accounts_succ|].
  intros b v. simpl. rewrite lookup_alter. case_decide as Eb; [subst b|by apply Hu].
  rewrite Ha. intros [= <-]. simpl. specialize (Hu _ _ Ha). lia.
Qed.

Section born.
Context (k : kstate) (p : Z) (t : task_struct).

Definition born : kstate :=
  let k1 := with_task k p (fun _ => t) in
  let k2 := with_links k1 (order k1 ++ [p]) (hash_pid k1 p) (nr_tasks k1 + 1) in
  match user (t_cred t) with
  | Some up => with_cache k2 (set_count (kcache k2) up Z.succ)
  | None => k2
  end.

Hypothesis (Hk : tasks_ok k) (Hp : p ∉ order k).
Hypothesis (Hpid : ~ used k (pid t)) (Hrange : 0 < pid t < PID_MAX).
Hypothesis (Hsafe : pid t <= last_pid k \/ next_safe k <= pid t).
Hypothesis (Hgrp : pgrp t = pgrp (curr k)) (Hses : session t = session (curr k)) (Hlead : leader t = false).
Hypothesis (Hacc : account (t_cred t) = account (t_cred (curr k))).
Hypothesis (Hslots : (length (order k) + length (tarray_freelist k) < Z.to_nat NR_TASKS)%nat).

Lemma born_order : order born = order k ++ [p].
Proof. unfold born. by destruct (user _). Qed.

Lemma born_task a : task born a = if decide (p = a) then t else task k a.
Proof.
  assert (task born a = task (with_task k p (fun _ => t)) a) as -> by (unfold born; by destruct (user _)).
  simpl. case_decide as E; [subst a; apply fn_lookup_insert|by apply fn_lookup_insert_ne].
Qed.

Lemma born_old a : a ∈ order k -> task born a = task k a.
Proof. intros Ha. rewrite born_task, decide_False; [done|]. by intros ->. Qed.

Lemma born_in a : a ∈ order born <-> a ∈ order k \/ a = p.
Proof. rewrite born_order, elem_of_app, list_elem_of_singleton. done. Qed.

Lemma born_bucket h : bucket born h = if decide (pid_hashfn (pid t) = h) then p :: bucket k h else bucket k h.
Proof.
  assert (pidhash born = hash_pid (with_task k p (fun _ => t)) p) as E by (unfold born; by destruct (user _)).
  unfold bucket at 1. rewrite E. unfold hash_pid. simpl. rewrite fn_lookup_insert, lookup_insert.
  case_decide as Eh; [subst h; done|done].
Qed.

Lemma born_used x : used born x -> used k x \/ x = pid t.
Proof.
  unfold used. rewrite !elem_of_all_ids. intros (a & [Ha| ->]%born_in & Hx).
  - rewrite born_old in Hx by done. eauto.
  - rewrite born_task, decide_True in Hx by done. rewrite elem_of_ids, Hgrp, Hses in Hx.
    destruct Hx as [->|Hx]; [by right|left]. exists (cur k). split; [apply Hk|]. apply elem_of_ids.
    unfold curr in Hx. tauto.
Qed.

Lemma born_accounts : accounts_of born ≡ₚ account (t_cred t) :: accounts_of k.
Proof.
  unfold accounts_of. rewrite born_order, fmap_app. simpl. rewrite born_task, decide_True by done.
  rewrite Permutation_app_comm. simpl. constructor. apply reflexive_eq, list_fmap_ext.
  intros i a Ha%list_elem_of_lookup_2. by rewrite born_old.
Qed.

Lemma born_fields :
  cur born = cur k /\ last_pid born = last_pid k /\ next_safe born = next_safe k /\
  nr_tasks born = nr_tasks k + 1 /\ tarray_freelist born = tarray_freelist k /\
  kcache born = match user (t_cred t) with Some up => set_count (kcache k) up Z.succ | None => kcache k end.
Proof. unfold born. by destruct (user _). Qed.

Lemma pid_used a : a ∈ order k -> used k (pid (task k a)).
Proof. intros Ha. apply elem_of_all_ids. exists a. split; [done|]. apply elem_of_ids. auto. Qed.

Lemma pgrp_used a : a ∈ order k -> used k (pgrp (task k a)).
Proof. intros Ha. apply elem_of_all_ids. exists a. split; [done|]. apply elem_of_ids. auto. Qed.

Lemma tasks_ok_born : tasks_ok born.
Proof.
  pose proof Hk as [H1 H2 H3 H4 H5 H6 H7 H8 H9 H10 H11 H12 H13 H14].
  destruct born_fields as (Ec & El & En & Er & Ef & Eca).
  assert (task born p = t) as Etp by (rewrite born_task; by rewrite decide_True).
  split; rewrite ?Ec, ?El, ?En, ?Er, ?Ef; try done.
  - rewrite born_order. apply NoDup_app. split_and!; [done| |apply NoDup_singleton].
    intros x Hx. rewrite list_elem_of_singleton. by intros ->.
  - apply born_in. by left.
  - intros a b. rewrite !born_in. intros [Ha| ->] [Hb| ->]; rewrite ?Etp, ?born_old by done; auto.
    + intros E. destruct Hpid. rewrite <-E. by apply pid_used.
    + intros E. destruct Hpid. rewrite E. by apply pid_used.
  - intros a. rewrite born_in. intros [Ha| ->]; [by rewrite born_old; auto|by rewrite Etp].
  - intros h a. rewrite born_bucket, born_in.
    destruct (decide (a = p)) as [->|Hne].
    + rewrite Etp. case_decide; [rewrite elem_of_cons|]; split; try tauto.
      intros [? _]%H5. tauto.
    + assert (a ∈ bucket k h <-> (a ∈ order k \/ a = p) /\ pid_hashfn (pid (task born a)) = h) as Hb.
      { rewrite H5. split; intros [Ha Eh]; [rewrite born_old by done; tauto|]. destruct Ha as [Ha| ->]; [|done].
        rewrite born_old in Eh; done. }
      case_decide; [rewrite elem_of_cons|]; tauto.
  - intros a b. rewrite !born_in. intros [Ha| ->] [Hb| ->]; rewrite ?Etp, ?born_old, ?Hgrp, ?Hses by done; auto;
      unfold curr; intros E; [|symmetry]; by apply H6.
  - intros a b. rewrite !born_in. intros [Ha| ->] [Hb| ->]; rewrite ?Etp, ?born_old, ?Hgrp, ?Hses by done; auto.
    + intros E. destruct Hpid. rewrite <-E. by apply pgrp_used.
    + unfold curr. intros E. by apply H7.
  - intros a. rewrite born_in. intros [Ha| ->]; [by rewrite born_old; auto|]. rewrite Etp. congruence.
  - intros x [Hx| ->]%born_used; [by apply H10|done].
  - rewrite born_order, length_app, H11. simpl. lia.
  - rewrite born_order, length_app. simpl. lia.
  - intros a. rewrite born_in. intros [Ha| ->]; [by rewrite born_old; auto|]. rewrite Etp.
    unfold account in Hacc. injection Hacc as -> _. by apply H13.
  - rewrite born_accounts, Eca, Hacc. assert (user (t_cred t) = (account (t_cred (curr k))).2) as ->.
    { by rewrite <-Hacc. }
    destruct (account (t_cred (curr k))) as [i up] eqn:Ea. apply cache_ok_succ; [done|].
    unfold accounts_of. apply list_elem_of_fmap. exists (cur k). split; [symmetry; exact Ea|done].
Qed.

End born.

(** [do_fork] returns; it fails without a new process, or the child is born with
    the pid it returns. *)
Lemma do_fork_ok k flags p copied :
  tasks_ok k -> Z.land flags CLONE_PID = 0 -> no_consecutive k -> (forall a, p = Some a -> a ∉ order k) ->
  copied <= 0 ->
  exists r k', do_fork k flags p copied = Some (r, k') /\ tasks_ok k' /\
    ((r < 0 /\ order k' = order k /\ task k' = task k) \/
     (0 < r /\ ~ used k r /\ exists a, p = Some a /\ order k' = order k ++ [a] /\
        pid (task k' a) = r /\ p_pptr (task k' a) = cur k /\
        pgrp (task k' a) = pgrp (curr k) /\ session (task k' a) = session (curr k) /\
        (forall b, b ∈ order k -> task k' b = task k b))).
Proof.
  intros Hk Hfl Hc Hp Hcp. unfold do_fork. destruct p as [p|].
  2: { exists (- ENOMEM), k. split_and!; [done..|]. left. by unfold ENOMEM. }
  specialize (Hp p eq_refl). destruct (bool_decide _ && _).
  { exists (- ENOMEM), k. split_and!; [done..|]. left. by unfold ENOMEM. }
  unfold find_empty_process. destruct (_ || _).
  2: { exists (- EAGAIN), k. split_and!; [done..|]. left. by unfold EAGAIN. }
  destruct (tarray_freelist k) as [|slot l] eqn:El.
  { exists (- EAGAIN), k. split_and!; [done..|]. left. by unfold EAGAIN. }
  set (k1 := with_slots k l).
  assert (tasks_ok k1) as Hk1 by (apply tasks_ok_slots; [done|]; rewrite El; simpl; lia).
  destruct (get_pid_ok k1 flags Hk1 Hfl) as (id & next & -> & Hid & Hnext & Hsafe & Hfresh).
  assert (~ used k id) as Hnew by (by apply Hfresh). cbn [mbind option_bind].
  set (k2 := with_pids k1 id next).
  assert (tasks_ok k2) as Hk2 by (apply tasks_ok_pids; [done|lia..|done]).
  destruct (copied =? 0) eqn:Ecp; cbn [negb].
  2: { eexists copied, _. split; [done|]. split; [|left; split_and!; [lia|done..]].
       destruct Hk2 as [H1 H2 H3 H4 H5 H6 H7 H8 H9 H10 H11 H12 H13 H14]. split; try done.
       pose proof (tk_slots _ Hk) as H. rewrite El in H. simpl in *. lia. }
  replace (id =? 0) with false by lia.
  set (t := child_of (curr k) flags (cur k2) id slot).
  assert (match user (t_cred (curr k)) with Some up => _ | None => _ end = born k2 p t) as -> by done.
  eexists id, (born k2 p t). split; [done|].
  assert (account (t_cred t) = account (t_cred (curr k2))) as Hacc by done.
  split.
  - apply tasks_ok_born; try done.
    + left. simpl. lia.
    + pose proof (tk_slots _ Hk) as H. rewrite El in H. simpl in *. lia.
  - right. split_and!; [lia|done|]. exists p. rewrite born_order, born_task, decide_True by done.
    split_and!; try done. intros b Hb. by apply (born_old k2 p t Hp).
Qed.

(** ** Death *)

Lemma tasks_ok_release k p : tasks_ok k -> p ∈ order k -> tasks_ok (release k p).
Proof.
  intros Hk Hp. unfold release. destruct (p =? cur k) eqn:Ec; [done|].
  set (k1 := match user (t_cred (task k p)) with Some up => _ | None => _ end).
  set (k2 := with_slots k1 _). set (k3 := with_links k2 _ _ _).
  assert (order k1 = order k /\ pidhash k1 = pidhash k /\ cur k1 = cur k /\ last_pid k1 = last_pid k /\
    next_safe k1 = next_safe k /\ nr_tasks k1 = nr_tasks k /\ tarray_freelist k1 = tarray_freelist k) as
    (Eo & Eh & Ecu & El & En & Enr & Ef) by (unfold k1; by destruct (user _)).
  assert (forall a, pid (task k1 a) = pid (task k a) /\ (a <> p -> task k1 a = task k a)) as Ht.
  { intros a. unfold k1. destruct (user _); [|done]. simpl. destruct (decide (p = a)) as [<-|].
    - by rewrite fn_lookup_insert.
    - by rewrite fn_lookup_insert_ne. }
  assert (forall a, a ∈ order k3 <-> a ∈ order k /\ a <> p) as Hin.
  { intros a. simpl. rewrite list_elem_of_filter, Eo. tauto. }
  assert (forall a, a ∈ order k3 -> task k3 a = task k a) as Hold by (intros a [_ Ha]%Hin; by apply Ht).
  assert (forall x, used k3 x -> used k x) as Hused.
  { intros x. unfold used. rewrite !elem_of_all_ids. intros (a & Ha & Hx). rewrite Hold in Hx by done.
    exists a. split; [by apply Hin|done]. }
  assert (order k ≡ₚ p :: order k3) as Hperm.
  { simpl. rewrite Eo. apply NoDup_Permutation; [apply Hk|apply NoDup_cons; split; [|apply NoDup_filter, Hk]|].
    - rewrite list_elem_of_filter. tauto.
    - intros x. rewrite elem_of_cons, list_elem_of_filter. destruct (decide (x = p)); naive_solver. }
  pose proof Hk as [H1 H2 H3 H4 H5 H6 H7 H8 H9 H10 H11 H12 H13 H14].
  assert (length (order k) = S (length (order k3))) as Hlen by (by rewrite Hperm).
  split.
  - simpl. rewrite Eo. by apply NoDup_filter.
  - change (cur k3) with (cur k1). rewrite Ecu. apply Hin. split; [done|]. lia.
  - intros a b Ha Hb. rewrite !Hold by done. apply Hin in Ha as [Ha _], Hb as [Hb _]. auto.
  - intros a Ha. rewrite Hold by done. apply Hin in Ha as [Ha _]. auto.
  - intros h a. assert (bucket k3 h = if decide (pid_hashfn (pid (task k p)) = h)
      then filter (fun b => b <> p) (bucket k h) else bucket k h) as ->.
    { unfold bucket at 1. simpl. unfold unhash_pid. simpl. unfold bucket. simpl. rewrite Eh.
      rewrite (proj1 (Ht p)). rewrite lookup_insert. case_decide; [subst h; done|done]. }
    assert (a ∈ bucket k h /\ a <> p <-> a ∈ order k3 /\ pid_hashfn (pid (task k3 a)) = h) as Hb.
    { rewrite H5, Hin. split.
      - intros [[Ha E] Hne]. rewrite Hold by (by apply Hin). done.
      - intros [[Ha Hne] E]. rewrite Hold in E by (by apply Hin). done. }
    rewrite <-Hb. case_decide as E; [rewrite list_elem_of_filter; tauto|].
    split; [|tauto]. intros Ha. split; [done|]. intros ->. apply H5 in Ha as [_ Ha]. done.
  - intros a b Ha Hb. rewrite !Hold by done. apply Hin in Ha as [Ha _], Hb as [Hb _]. auto.
  - intros a b Ha Hb. rewrite !Hold by done. apply Hin in Ha as [Ha _], Hb as [Hb _]. auto.
  - intros a Ha. rewrite Hold by done. apply Hin in Ha as [Ha _]. auto.
  - change (last_pid k3) with (last_pid k1). change (next_safe k3) with (next_safe k1). by rewrite El, En.
  - intros x Hx. change (last_pid k3) with (last_pid k1). change (next_safe k3) with (next_safe k1).
    rewrite El, En. by apply H10, Hused.
  - change (nr_tasks k3) with (nr_tasks k1 - 1). rewrite Enr, H11. lia.
  - change (tarray_freelist k3) with (tarray_ptr (task k1 p) :: tarray_freelist k1). rewrite Ef, length_cons. lia.
  - intros a Ha. rewrite Hold by done. apply Hin in Ha as [Ha _]. auto.
  - assert (accounts_of k ≡ₚ account (t_cred (task k p)) :: accounts_of k3) as Hacc.
    { unfold accounts_of. rewrite Hperm, fmap_cons. constructor. apply reflexive_eq, list_fmap_ext.
      intros i a Ha%list_elem_of_lookup_2. by rewrite Hold. }
    rewrite Hacc in H14. unfold account at 1 in H14. change (kcache k3) with (kcache k1). unfold k1.
    destruct (user (t_cred (task k p))) as [up|].
    + by eapply cache_release_ok.
    + destruct H14 as [Ha Hu]. split; [by apply accounts_none in Ha|done].
Qed.

(** ** Sequences of operations *)

(** The scheduler runs another process. *)
Definition switch_to (k : kstate) (a : Z) : kstate :=
  KState (task k) (order k) (pidhash k) a (last_pid k) (next_safe k) (nr_tasks k) (tarray_freelist k)
         (kcache k) (ksecurebits k).

Inductive task_step : kstate -> kstate -> Prop :=
| Step_fork k flags p copied r k' :
    Z.land flags CLONE_PID = 0 -> no_consecutive k -> (forall a, p = Some a -> a ∉ order k) -> copied <= 0 ->
    do_fork k flags p copied = Some (r, k') -> task_step k k'
| Step_release k p : p ∈ order k -> task_step k (release k p)
| Step_setpgid k pid_ pgid : task_step k (sys_setpgid k pid_ pgid).2
| Step_setsid k : task_step k (sys_setsid k).2
| Step_setpriority k which who niceval : task_step k (sys_setpriority k which who niceval).2
| Step_capset k version fault pid_ data : task_step k (sys_capset k version fault pid_ data).2
| Step_cred k fresh call :
    small_call call -> fresh_for fresh (CState (t_cred (curr k)) (kcache k) (ksecurebits k)) ->
    task_step k (on_current (run_call fresh call) k).2
| Step_schedule k a : a ∈ order k -> task_step k (switch_to k a).

Lemma task_step_ok k k' : task_step k k' -> tasks_ok k -> tasks_ok k'.
Proof.
  destruct 1 as [k flags p copied r k' Hf Hc Hp Hcp E|k p Hp|k x g|k|k w x n|k v f x d|k fresh call Hs Hf|k a Ha]; intros Hk.
  - destruct (do_fork_ok k flags p copied Hk Hf Hc Hp Hcp) as (r' & k1 & E' & Hk1 & _). congruence.
  - by apply tasks_ok_release.
  - by apply tasks_ok_setpgid.
  - by apply tasks_ok_setsid.
  - by apply tasks_ok_setpriority.
  - by apply tasks_ok_capset.
  - by apply tasks_ok_call.
  - destruct Hk. by split.
Qed.

(** ** Properties *)

(** C27: in every state that forks, exits, group and session calls, priority,
    credential and capability calls and context switches reach, in any order and
    under the conditions named at the end,
    the task list, the hash table, the groups and sessions, the pid allocator,
    the task slots and the cache of users are consistent ([tasks_ok]): pids are
    unique, every process group lies in one session, a session leader leads its
    own group, the counts of the cache are exact; and a lookup by pid finds
    exactly the process of the list with that pid.  The conditions: forks are without
    [CLONE_PID], and in states in which no process has two consecutive numbers as pid,
    group and session (otherwise the new pid may be in use, see [get_pid_duplicates]);
    the user ids of the credential calls are below 65536 (the cache takes them to 16
    bits). *)
Theorem processes_reachable_ok k k' :
  tasks_ok k -> rtc task_step k k' ->
  tasks_ok k' /\
  (forall x a, find_task_by_pid k' x = Some a <-> a ∈ order k' /\ pid (task k' a) = x).
Proof.
  intros Hk Hr. assert (tasks_ok k') as Hk'.
  { revert Hk. induction Hr as [|k1 k2 k3 Hs _ IH]; [done|]. eauto using task_step_ok. }
  split; [done|]. intros x a. by apply find_task_spec.
Qed.

(** [get_pid] ends within its passes and returns a pid between 1 and 32767;
    afterwards no process has an id between [last_pid] and [next_safe]; and when
    no process has two consecutive ids, the pid is not in use as a pid, a
    process group or a session. *)
Theorem get_pid_fresh k flags :
  tasks_ok k -> Z.land flags CLONE_PID = 0 ->
  exists id next, get_pid k flags = Some (id, with_pids k id next) /\
    0 < id < PID_MAX /\ tasks_ok (with_pids k id next) /\ (no_consecutive k -> ~ used k id).
Proof.
  intros Hk Hf. destruct (get_pid_ok k flags Hk Hf) as (id & next & E & Hid & Hn & Hs & Hfr).
  exists id, next. split_and!; [done|lia..| |done]. apply tasks_ok_pids; [done|lia..|done].
Qed.

(** [do_fork] returns, fails without a trace in the task list, or adds one
    process with a fresh pid, in the group and session of its parent, and leaves
    the other processes alone. *)
Theorem do_fork_correct k flags p copied :
  tasks_ok k -> Z.land flags CLONE_PID = 0 -> no_consecutive k -> (forall a, p = Some a -> a ∉ order k) ->
  copied <= 0 ->
  exists r k', do_fork k flags p copied = Some (r, k') /\ tasks_ok k' /\
    ((r < 0 /\ order k' = order k /\ task k' = task k) \/
     (0 < r /\ ~ used k r /\ exists a, p = Some a /\ order k' = order k ++ [a] /\
        pid (task k' a) = r /\ p_pptr (task k' a) = cur k /\
        pgrp (task k' a) = pgrp (curr k) /\ session (task k' a) = session (curr k) /\
        (forall b, b ∈ order k -> task k' b = task k b))).
Proof. intros. by apply do_fork_ok. Qed.

(** [setpgid] succeeds exactly when the process exists, is the caller or a child
    in its session that has not called exec, leads no session, and the group is
    its own or exists in the session ([may_setpgid]); then only that process's
    group changes, otherwise nothing does and an error is returned. *)
Theorem setpgid_correct k pid_ pgid :
  tasks_ok k ->
  let id := if pid_ =? 0 then pid (curr k) else pid_ in
  let g := if pgid =? 0 then id else pgid in
  let '(r, k') := sys_setpgid k pid_ pgid in
  (r = 0 /\ 0 <= g /\ exists p, p ∈ order k /\ pid (task k p) = id /\ may_setpgid k p g /\ k' = with_task k p (set_pgrp g)) \/
  (k' = k /\ (r = - EINVAL \/ r = - ESRCH \/ r = - EPERM \/ r = - EACCES) /\
   (g < 0 \/ forall p, p ∈ order k -> pid (task k p) = id -> ~ may_setpgid k p g)).
Proof. apply setpgid_ok. Qed.

(** ** Examples *)

Definition ex_task (id group : Z) : task_struct :=
  Task id group group false None 0 0 0 false 20 (replicate 10 (256, 256)) id (set_user (Some 1) ex_root).

Definition ex_users : uid_cache := set_count (cache_charge (Some 1) (UidCache ∅ ∅) 0).2 1 Z.succ.

(** Process 1 and process 501 of a group [g]. *)
Definition ex_two (g last next : Z) : kstate :=
  KState (<[2 := ex_task 501 g]> (fun _ => ex_task 1 1)) [1; 2]
         {[ pid_hashfn 1 := [1]; pid_hashfn 501 := [2] ]} 1 last next 2 [3; 4; 5] ex_users 0.

Lemma ex_users_ok : cache_ok [(0, Some 1); (0, Some 1)] ex_users.
Proof.
  pose proof (cache_charge_ok (Some 1) [] (UidCache ∅ ∅) 0 empty_cache_ok ltac:(done) ltac:(done)) as H.
  apply (cache_ok_succ _ _ 0 (Some 1) H). by left.
Qed.

Lemma ex_two_ok g last next :
  1 < g -> 1 <= last < PID_MAX -> next <= PID_MAX -> (g <= last \/ next <= g) -> (501 <= last \/ next <= 501) ->
  tasks_ok (ex_two g last next).
Proof.
  intros Hg Hl Hn Hs1 Hs2. set (k := ex_two g last next).
  assert (forall a, a ∈ order k -> a = 1 \/ a = 2) as Hin.
  { intros a. simpl. rewrite !elem_of_cons, elem_of_nil. tauto. }
  split.
  - by_decide.
  - by_decide.
  - intros a b [->| ->]%Hin [->| ->]%Hin; done.
  - intros a [->| ->]%Hin; done.
  - intros h a. unfold bucket. change (pidhash k) with ({[ pid_hashfn 1 := [1]; pid_hashfn 501 := [2] ]} : gmap Z (list Z)).
    change (pid_hashfn 1) with 1. change (pid_hashfn 501) with 116. split.
    + destruct (decide (h = 1)) as [->|]; [|destruct (decide (h = 116)) as [->|]].
      * simplify_map_eq. intros ->%list_elem_of_singleton. split; [by left|done].
      * simplify_map_eq. intros ->%list_elem_of_singleton. split; [by right; left|done].
      * rewrite lookup_insert_ne, lookup_singleton_ne by done. by intros ?%elem_of_nil.
    + intros [[->| ->]%Hin <-]; by_decide.
  - intros a b [->| ->]%Hin [->| ->]%Hin; simpl; try done; lia.
  - intros a b [->| ->]%Hin [->| ->]%Hin; simpl; try done; lia.
  - intros a [->| ->]%Hin; done.
  - simpl. lia.
  - intros x (a & [->| ->]%Hin & Hx)%elem_of_all_ids; apply elem_of_ids in Hx; simpl in *; lia.
  - done.
  - by_decide.
  - intros a [->| ->]%Hin; done.
  - apply ex_users_ok.
Qed.

(** The group of 501 is 500, whose first process is gone, and the allocator has come
    round to 499. *)
Definition ex_wrap : kstate := ex_two 500 499 500.

(** Process 501 leads its own group. *)
Definition ex_calm : kstate := ex_two 501 501 PID_MAX.

Lemma ex_calm_ok : tasks_ok ex_calm.
Proof. apply ex_two_ok; unfold PID_MAX; lia. Qed.

Lemma ex_calm_apart : no_consecutive ex_calm.
Proof.
  intros a x Ha. assert (a = 1 \/ a = 2) as [->| ->].
  { revert Ha. simpl. rewrite !elem_of_cons, elem_of_nil. tauto. }
  all: rewrite !elem_of_ids; simpl; lia.
Qed.

(** [get_pid] can return the pid of a living process: after it skipped an id of a
    process it does not look at the other ids of the same process again, so a
    process with consecutive ids, such as the second of a pipeline whose first
    process is gone, loses its pid to the next fork. *)
Theorem get_pid_duplicates :
  tasks_ok ex_wrap /\ pid (task ex_wrap 2) = 501 /\
  (fst <$> get_pid ex_wrap 0) = Some 501 /\
  match do_fork ex_wrap 0 (Some 3) 0 with
  | Some (id, k) =>
    id = 501 /\ pid (task k 2) = 501 /\ pid (task k 3) = 501 /\ find_task_by_pid k 501 = Some 3
  | None => False
  end.
Proof.
  split; [apply ex_two_ok; unfold PID_MAX; lia|]. split; [done|]. split; by vm_compute.
Qed.

Lemma get_pid_fresh_witness :
  exists id next, get_pid ex_calm 0 = Some (id, with_pids ex_calm id next) /\ ~ used ex_calm id.
Proof.
  destruct (get_pid_fresh ex_calm 0 ex_calm_ok eq_refl) as (id & next & E & _ & _ & H).
  exists id, next. split; [exact E|]. apply H, ex_calm_apart.
Defined.

Lemma do_fork_correct_witness :
  exists r k', do_fork ex_calm 0 (Some 3) 0 = Some (r, k') /\ tasks_ok k'.
Proof.
  destruct (do_fork_correct ex_calm 0 (Some 3) 0) as (r & k' & E & Hk & _).
  - apply ex_calm_ok.
  - reflexivity.
  - apply ex_calm_apart.
  - intros a [= <-]. by_decide.
  - lia.
  - exists r, k'. split; [exact E|exact Hk].
Defined.

Lemma setpgid_correct_witness :
  exists p, p ∈ order ex_calm /\ may_setpgid ex_calm p 1.
Proof.
  pose proof (setpgid_correct ex_calm 1 1 ex_calm_ok) as H.
  assert ((sys_setpgid ex_calm 1 1).1 = 0) as E by (vm_compute; reflexivity).
  destruct (sys_setpgid ex_calm 1 1) as [r k']. cbn [fst] in E. subst r.
  destruct H as [(_ & _ & p & Hp & _ & Hm & _)|(_ & Hr & _)].
  - exists p. split; [exact Hp|exact Hm].
  - exfalso. vm_compute in Hr. intuition discriminate.
Defined.

Lemma processes_reachable_ok_witness :
  tasks_ok (sys_setsid (switch_to (sys_setpgid ex_calm 501 501).2 2)).2.
Proof.
  apply (processes_reachable_ok ex_calm); [apply ex_calm_ok|].
  apply (rtc_l _ _ (sys_setpgid ex_calm 501 501).2); [apply Step_setpgid|].
  apply (rtc_l _ _ (switch_to (sys_setpgid ex_calm 501 501).2 2)); [apply Step_schedule; by_decide|].
  apply rtc_once. apply Step_setsid.
Defined.
