(* ===== verification/Bitops.v ===== *)
(** * arch/i370/kernel/bitops.c, include/asm-i370/bitops.h, include/linux/bitops.h

    Bit operations on arrays of 32-bit words: the compare-and-swap loops, the
    search for a zero bit and the little-endian variants that the ext2 and minix
    file systems use on this big-endian machine.  An array is a function from
    word indices to words. *)

From stdpp Require Import functions.
From S2P Require Import Prelude.

Abbreviation words := (Z -> Z).

Definition ones : Z := 2 ^ 32 - 1.

(** [1 << (nr & 0x1f)] *)
Definition bit_mask (nr : Z) : Z := u32 (Z.shiftl 1 (Z.land nr 0x1f)).

(** ** The compare-and-swap loop

    "1: L old,p; L new,p; op new,mask; CS old,new,p; BNE 1b".  Other processors
    may store between the two loads and before the compare-and-swap of each
    attempt; the list holds what they do in the attempts they disturb. *)

Record interference := Interference { between_loads : Z -> Z; before_cs : Z -> Z }.

(** The old value and the word that [CS] stores. *)
Fixpoint cs_loop (op : Z -> Z) (env : list interference) (p : Z) : Z * Z :=
  match env with
  | [] => (p, op p)
  | e :: env =>
    let oldval := p in
    let p := between_loads e p in
    let newval := op p in
    let p := before_cs e p in
    if p =? oldval then (oldval, newval) else cs_loop op env p
  end.

(** ** Single bits *)

Definition update_bit (op : Z -> Z) (m : words) (nr : Z) : Z * words :=
  let p := Z.shiftr nr 5 in
  let '(oldval, newval) := cs_loop op [] (m p) in
  (oldval, <[p := newval]> m).

Definition set_bit (nr : Z) (m : words) : words := (update_bit (fun v => Z.lor v (bit_mask nr)) m nr).2.

Definition clear_bit (nr : Z) (m : words) : words :=
  (update_bit (fun v => Z.land v (u32 (Z.lnot (bit_mask nr)))) m nr).2.

Definition change_bit (nr : Z) (m : words) : words := (update_bit (fun v => Z.lxor v (bit_mask nr)) m nr).2.

Definition test_and_set_bit (nr : Z) (m : words) : Z * words :=
  let '(oldval, m) := update_bit (fun v => Z.lor v (bit_mask nr)) m nr in (Z.land oldval (bit_mask nr), m).

Definition test_and_clear_bit (nr : Z) (m : words) : Z * words :=
  let '(oldval, m) := update_bit (fun v => Z.land v (u32 (Z.lnot (bit_mask nr)))) m nr in
  (Z.land oldval (bit_mask nr), m).

Definition test_and_change_bit (nr : Z) (m : words) : Z * words :=
  let '(oldval, m) := update_bit (fun v => Z.lxor v (bit_mask nr)) m nr in (Z.land oldval (bit_mask nr), m).

Definition test_bit (nr : Z) (m : words) : Z := Z.land (Z.shiftr (m (Z.shiftr nr 5)) (Z.land nr 0x1f)) 1.

(** ** Searches *)

(** [if (word & mask) { k -= n; word <<= n; }] *)
Definition ffz_step (mask n : Z) (kw : Z * Z) : Z * Z :=
  let '(k, word) := kw in
  if Z.land word mask =? 0 then (k, word) else (k - n, u32 (Z.shiftl word n)).

Definition ffz (word : Z) : Z :=
  let word := u32 (Z.lnot word) in
  let kw := ffz_step 0x0000ffff 16 (31, word) in
  let kw := ffz_step 0x00ff0000 8 kw in
  let kw := ffz_step 0x0f000000 4 kw in
  let kw := ffz_step 0x30000000 2 kw in
  let '(k, word) := kw in
  if Z.land word 0x40000000 =? 0 then k else k - 1.

(** [get p] is [*p], or [cpu_to_le32p(p)]. *)
Fixpoint zero_loop (fuel : nat) (get : Z -> Z) (p result size : Z) : Z :=
  match fuel with
  | O => result
  | S fuel =>
    if 32 <=? size then
      let tmp := get p in
      if negb (tmp =? ones) then result + ffz tmp else zero_loop fuel get (p + 1) (result + 32) (size - 32)
    else if size =? 0 then result
    else result + ffz (Z.lor (get p) (u32 (Z.shiftl ones size)))
  end.

Definition next_zero (get : Z -> Z) (size offset : Z) : Z :=
  let p := Z.shiftr offset 5 in
  let result := Z.land offset (Z.lnot 31) in
  if size <=? offset then size else
  let size := size - result in
  let offset := Z.land offset 31 in
  let loop := zero_loop (S (Z.to_nat (size / 32))) get in
  if offset =? 0 then loop p result size else
  let tmp := Z.lor (get p) (Z.shiftr ones (32 - offset)) in
  if size <? 32 then result + ffz (Z.lor tmp (u32 (Z.shiftl ones size)))
  else if negb (tmp =? ones) then result + ffz tmp
  else loop (p + 1) (result + 32) (size - 32).

Definition find_next_zero_bit (m : words) (size offset : Z) : Z := next_zero m size offset.

Definition find_first_zero_bit (m : words) (size : Z) : Z := find_next_zero_bit m size 0.

(** ** Little-endian bitmaps *)

Definition swab32 (x : Z) : Z :=
  Z.lor (Z.lor (Z.lor (Z.shiftl (Z.land x 0x000000ff) 24) (Z.shiftl (Z.land x 0x0000ff00) 8))
               (Z.shiftr (Z.land x 0x00ff0000) 8)) (Z.shiftr (Z.land x 0xff000000) 24).

Definition ext2_set_bit (nr : Z) (m : words) : Z * words := test_and_set_bit (Z.lxor nr 0x18) m.

Definition ext2_clear_bit (nr : Z) (m : words) : Z * words := test_and_clear_bit (Z.lxor nr 0x18) m.

(** The byte at an address of the array: the machine is big-endian. *)
Definition byte_of (m : words) (a : Z) : Z :=
  Z.land (Z.shiftr (m (Z.shiftr a 2)) (8 * (3 - Z.land a 3))) 0xff.

Definition ext2_test_bit (nr : Z) (m : words) : Z :=
  Z.land (Z.shiftr (byte_of m (Z.shiftr nr 3)) (Z.land nr 7)) 1.

Definition ext2_find_next_zero_bit (m : words) (size offset : Z) : Z :=
  next_zero (fun p => swab32 (m p)) size offset.

(** ** include/linux/bitops.h *)

Definition generic_ffs (x : Z) : Z :=
  if x =? 0 then 0 else
  let step mask n (xr : Z * Z) :=
    let '(x, r) := xr in if Z.land x mask =? 0 then (Z.shiftr x n, r + n) else (x, r) in
  (step 1 1 (step 3 2 (step 0xf 4 (step 0xff 8 (step 0xffff 16 (x, 1)))))).2.

(** ** Bits of a word *)

(** Bit [nr] of the array. *)
Definition bit (m : words) (nr : Z) : bool := Z.testbit (m (Z.shiftr nr 5)) (Z.land nr 0x1f).

Definition words_ok (m : words) : Prop := forall p, 0 <= m p < 2 ^ 32.

Lemma land_31 nr : 0 <= Z.land nr 31 < 32.
Proof. change 31 with (Z.ones 5). rewrite Z.land_ones by lia. apply Z.mod_pos_bound. lia. Qed.

Lemma bit_index nr nr' :
  Z.shiftr nr 5 = Z.shiftr nr' 5 -> Z.land nr 0x1f = Z.land nr' 0x1f -> nr = nr'.
Proof.
  change 0x1f with (Z.ones 5). rewrite !Z.land_ones, !Z.shiftr_div_pow2 by lia. intros E1 E2.
  rewrite (Z.div_mod nr (2 ^ 5)), (Z.div_mod nr' (2 ^ 5)) by lia. congruence.
Qed.

Lemma bit_mask_eq nr : bit_mask nr = 2 ^ (Z.land nr 31).
Proof.
  unfold bit_mask. rewrite Z.shiftl_1_l. apply u32_id. pose proof (land_31 nr).
  split; [apply Z.pow_nonneg; lia|]. apply Z.pow_lt_mono_r; lia.
Qed.

Lemma bit_mask_spec nr i : 0 <= i -> Z.testbit (bit_mask nr) i = (i =? Z.land nr 31).
Proof.
  intros Hi. rewrite bit_mask_eq. pose proof (land_31 nr). rewrite Z.pow2_bits_eqb by lia.
  by rewrite Z.eqb_sym.
Qed.

Lemma testbit_above x i : 0 <= x < 2 ^ 32 -> 32 <= i -> Z.testbit x i = false.
Proof.
  intros Hx Hi. destruct (decide (x = 0)) as [->|]; [apply Z.bits_0|]. apply Z.bits_above_log2; [lia|].
  apply Z.log2_lt_pow2; [lia|]. assert (2 ^ 32 <= 2 ^ i) by (apply Z.pow_le_mono_r; lia). lia.
Qed.

(** A word without bits from 32 on fits the width. *)
Lemma word_bound x : 0 <= x -> (forall i, 32 <= i -> Z.testbit x i = false) -> x < 2 ^ 32.
Proof.
  intros Hx H. destruct (decide (x = 0)) as [->|]; [lia|]. apply Z.log2_lt_pow2; [lia|].
  destruct (decide (Z.log2 x < 32)); [done|]. specialize (H (Z.log2 x) ltac:(lia)).
  rewrite Z.bit_log2 in H by lia. done.
Qed.

Lemma u32_testbit x i : 0 <= i < 32 -> Z.testbit (u32 x) i = Z.testbit x i.
Proof. intros Hi. unfold u32. by rewrite Z.mod_pow2_bits_low by lia. Qed.

Lemma u32_lnot_testbit x i : 0 <= i < 32 -> Z.testbit (u32 (Z.lnot x)) i = negb (Z.testbit x i).
Proof. intros Hi. rewrite u32_testbit by done. apply Z.lnot_spec. lia. Qed.

Lemma ones_testbit i : 0 <= i < 32 -> Z.testbit ones i = true.
Proof. intros Hi. change ones with (Z.ones 32). apply Z.ones_spec_low. lia. Qed.

(** An operation that acts on one bit of a word only. *)
Lemma update_bit_spec (op : Z -> Z) (f : bool -> bool) m nr i :
  (forall v j, 0 <= j -> Z.testbit (op v) j = if j =? Z.land nr 31 then f (Z.testbit v j) else Z.testbit v j) ->
  bit (update_bit op m nr).2 i = if i =? nr then f (bit m nr) else bit m i.
Proof.
  intros Hop. unfold update_bit, bit. cbn [cs_loop fst snd].
  destruct (decide (Z.shiftr nr 5 = Z.shiftr i 5)) as [E|Hne].
  - rewrite E, fn_lookup_insert, Hop by apply land_31. destruct (Z.land i 31 =? Z.land nr 31) eqn:E2.
    + assert (i = nr) as -> by (apply bit_index; [done|lia]). by rewrite Z.eqb_refl.
    + replace (i =? nr) with false; [done|]. symmetry. apply Z.eqb_neq. intros ->. lia.
  - rewrite fn_lookup_insert_ne by done. replace (i =? nr) with false; [done|]. symmetry. apply Z.eqb_neq. congruence.
Qed.

Lemma lor_mask nr v j :
  0 <= j -> Z.testbit (Z.lor v (bit_mask nr)) j = if j =? Z.land nr 31 then true else Z.testbit v j.
Proof.
  intros Hj. rewrite Z.lor_spec, bit_mask_spec by done. destruct (j =? _); [apply orb_true_r|apply orb_false_r].
Qed.

Lemma lxor_mask nr v j :
  0 <= j -> Z.testbit (Z.lxor v (bit_mask nr)) j = if j =? Z.land nr 31 then negb (Z.testbit v j) else Z.testbit v j.
Proof.
  intros Hj. rewrite Z.lxor_spec, bit_mask_spec by done. destruct (j =? _); [apply xorb_true_r|apply xorb_false_r].
Qed.

Lemma lnot_mask nr v j :
  0 <= v < 2 ^ 32 -> 0 <= j ->
  Z.testbit (Z.land v (u32 (Z.lnot (bit_mask nr)))) j = if j =? Z.land nr 31 then false else Z.testbit v j.
Proof.
  intros Hv Hj. rewrite Z.land_spec. destruct (decide (j < 32)).
  - rewrite u32_lnot_testbit, bit_mask_spec by lia. destruct (j =? _); [apply andb_false_r|apply andb_true_r].
  - rewrite (testbit_above v) by lia. by destruct (j =? _).
Qed.

Lemma change_bit_spec nr m i : bit (change_bit nr m) i = if i =? nr then negb (bit m nr) else bit m i.
Proof. apply (update_bit_spec _ negb). intros v j Hj. by apply lxor_mask. Qed.

Lemma set_bit_spec nr m i : bit (set_bit nr m) i = if i =? nr then true else bit m i.
Proof. apply (update_bit_spec _ (fun _ => true)). intros v j Hj. by apply lor_mask. Qed.

Lemma clear_bit_spec nr m i : words_ok m -> bit (clear_bit nr m) i = if i =? nr then false else bit m i.
Proof.
  intros Hm. unfold clear_bit, update_bit, bit. cbn [cs_loop fst snd].
  destruct (decide (Z.shiftr nr 5 = Z.shiftr i 5)) as [E|Hne].
  - rewrite E, fn_lookup_insert, lnot_mask by (apply Hm || apply land_31). destruct (Z.land i 31 =? Z.land nr 31) eqn:E2.
    + assert (i = nr) as -> by (apply bit_index; [done|lia]). by rewrite Z.eqb_refl.
    + replace (i =? nr) with false; [done|]. symmetry. apply Z.eqb_neq. intros ->. lia.
  - rewrite fn_lookup_insert_ne by done. replace (i =? nr) with false; [done|]. symmetry. apply Z.eqb_neq. congruence.
Qed.

(** The value that the test-and-modify routines return is non-zero when the bit was
    set. *)
Lemma old_bit m nr : (Z.land (m (Z.shiftr nr 5)) (bit_mask nr) =? 0) = negb (bit m nr).
Proof.
  unfold bit. set (v := m (Z.shiftr nr 5)). pose proof (land_31 nr) as Hr.
  destruct (Z.testbit v (Z.land nr 31)) eqn:E; simpl.
  - apply Z.eqb_neq. intros H. assert (Z.testbit (Z.land v (bit_mask nr)) (Z.land nr 31) = true) as Hb.
    { rewrite Z.land_spec, bit_mask_spec by lia. by rewrite E, Z.eqb_refl. }
    rewrite H, Z.bits_0 in Hb. done.
  - apply Z.eqb_eq, Z.bits_inj'. intros i Hi. rewrite Z.land_spec, bit_mask_spec, Z.bits_0 by done.
    destruct (i =? _) eqn:Ei; [|apply andb_false_r]. assert (i = Z.land nr 31) as -> by lia. by rewrite E.
Qed.

Lemma test_bit_spec nr m : test_bit nr m = Z.b2z (bit m nr).
Proof.
  unfold test_bit, bit. pose proof (land_31 nr). change 1 with (Z.ones 1). rewrite Z.land_ones by lia.
  change (2 ^ 1) with 2. rewrite <-Z.bit0_mod. f_equal. rewrite Z.shiftr_spec by lia. by rewrite Z.add_0_l.
Qed.

(** ** Atomicity

    Without a store between the two loads the loop is atomic: the value it
    returns is the word at the moment of the successful compare-and-swap, and
    the stored word is the operation applied to it. *)
Lemma cs_loop_atomic op env p :
  Forall (fun e => forall x, between_loads e x = x) env ->
  let '(oldval, newval) := cs_loop op env p in newval = op oldval.
Proof.
  revert p. induction env as [|e env IH]; intros p He; simpl; [done|].
  apply Forall_cons in He as [He Henv]. rewrite He. destruct (before_cs e p =? p); [done|]. by apply IH.
Qed.

(** With stores between the loads and back again the update of another processor
    is lost: bit 1, set and cleared meanwhile, comes back. *)
Lemma cs_loop_lost_update :
  cs_loop (fun v => Z.lor v 1) [Interference (fun v => Z.lor v 2) (fun v => Z.land v (Z.lnot 2))] 0 = (0, 3).
Proof. reflexivity. Qed.

(** ** A bitmap, as its clients see it *)

Class Bitmap (B : Type) := {
  bm_get : B -> Z -> bool;
  bm_change : Z -> B -> B;
  bm_test_and_change : Z -> B -> bool * B;
  bm_change_get : forall nr m i, bm_get (bm_change nr m) i = if i =? nr then negb (bm_get m nr) else bm_get m i;
  bm_test_and_change_eq : forall nr m, bm_test_and_change nr m = (bm_get m nr, bm_change nr m)
}.

(** The routines of arch/i370/kernel/bitops.c implement it. *)
#[export, refine] Instance words_bitmap : Bitmap words := {|
  bm_get := bit;
  bm_change := change_bit;
  bm_test_and_change nr m := let '(v, m) := test_and_change_bit nr m in (negb (v =? 0), m)
|}.
Proof.
  - apply change_bit_spec.
  - intros nr m. unfold test_and_change_bit, change_bit, update_bit. cbn [cs_loop fst snd].
    by rewrite old_bit, negb_involutive.
Defined.

(** ** The first zero bit of a word *)

(** [z] is the lowest bit set in [w]. *)
Definition lowest (w z : Z) : Prop :=
  0 <= z < 32 /\ Z.testbit w z = true /\ forall j, 0 <= j < z -> Z.testbit w j = false.

Lemma field_testbit lo n j :
  0 <= lo -> 0 <= n -> 0 <= j -> Z.testbit (Z.shiftl (Z.ones n) lo) j = (lo <=? j) && (j <? lo + n).
Proof.
  intros Hlo Hn Hj. rewrite Z.shiftl_spec by done. destruct (decide (lo <= j)).
  - rewrite Z.testbit_ones_nonneg by lia. lia.
  - rewrite Z.testbit_neg_r by lia. lia.
Qed.

Lemma field_zero w lo n z :
  lowest w z -> 0 <= lo <= z -> 0 < n -> (Z.land w (Z.shiftl (Z.ones n) lo) =? 0) = negb (z <? lo + n).
Proof.
  intros (Hz & Hb & Hl) Hlo Hn. destruct (z <? lo + n) eqn:E; simpl.
  - apply Z.eqb_neq. intros H. assert (Z.testbit (Z.land w (Z.shiftl (Z.ones n) lo)) z = true) as Ht.
    { rewrite Z.land_spec, field_testbit, Hb by lia. lia. }
    rewrite H, Z.bits_0 in Ht. done.
  - apply Z.eqb_eq, Z.bits_inj'. intros j Hj. rewrite Z.land_spec, field_testbit, Z.bits_0 by lia.
    destruct (decide (j < z)); [rewrite Hl by lia; done|].
    replace (j <? lo + n) with false by lia. by rewrite andb_false_r, andb_false_r.
Qed.

Lemma lowest_shift w z n : lowest w z -> 0 <= n -> z + n < 32 -> lowest (u32 (Z.shiftl w n)) (z + n).
Proof.
  intros (Hz & Hb & Hl) Hn Hzn. split; [lia|]. split.
  - rewrite u32_testbit, Z.shiftl_spec by lia. by replace (z + n - n) with z by lia.
  - intros j Hj. rewrite u32_testbit, Z.shiftl_spec by lia. destruct (decide (j < n)).
    + apply Z.testbit_neg_r. lia.
    + apply Hl. lia.
Qed.

Lemma ffz_step_spec lo n z k w z' :
  lowest w z' -> 0 <= lo <= z' -> 0 < n -> lo + 2 * n = 32 -> z = k - 31 + z' ->
  let '(k1, w1) := ffz_step (Z.shiftl (Z.ones n) lo) n (k, w) in
  exists z1, lowest w1 z1 /\ lo + n <= z1 /\ z = k1 - 31 + z1.
Proof.
  intros Hw Hlo Hn Hsum Hz. unfold ffz_step. rewrite (field_zero w lo n z') by done.
  destruct (z' <? lo + n) eqn:E; simpl.
  - exists (z' + n). split; [apply lowest_shift; [done|lia..]|lia].
  - exists z'. split; [done|lia].
Qed.

Lemma ffz_lowest w z : lowest (u32 (Z.lnot w)) z -> ffz w = z.
Proof.
  intros Hw. unfold ffz. pose proof Hw as [Hz _].
  change 0x0000ffff with (Z.shiftl (Z.ones 16) 0). change 0x00ff0000 with (Z.shiftl (Z.ones 8) 16).
  change 0x0f000000 with (Z.shiftl (Z.ones 4) 24). change 0x30000000 with (Z.shiftl (Z.ones 2) 28).
  change 0x40000000 with (Z.shiftl (Z.ones 1) 30).
  pose proof (ffz_step_spec 0 16 z 31 _ z Hw ltac:(lia) ltac:(lia) ltac:(lia) ltac:(lia)) as H1.
  destruct (ffz_step _ 16 _) as [k1 w1]. destruct H1 as (z1 & Hw1 & Hz1 & E1).
  pose proof (ffz_step_spec 16 8 z k1 w1 z1 Hw1 ltac:(lia) ltac:(lia) ltac:(lia) E1) as H2.
  destruct (ffz_step _ 8 _) as [k2 w2]. destruct H2 as (z2 & Hw2 & Hz2 & E2).
  pose proof (ffz_step_spec 24 4 z k2 w2 z2 Hw2 ltac:(lia) ltac:(lia) ltac:(lia) E2) as H3.
  destruct (ffz_step _ 4 _) as [k3 w3]. destruct H3 as (z3 & Hw3 & Hz3 & E3).
  pose proof (ffz_step_spec 28 2 z k3 w3 z3 Hw3 ltac:(lia) ltac:(lia) ltac:(lia) E3) as H4.
  destruct (ffz_step _ 2 _) as [k4 w4]. destruct H4 as (z4 & Hw4 & Hz4 & E4).
  pose proof Hw4 as [Hr _]. rewrite (field_zero w4 30 1 z4) by (done || lia).
  destruct (z4 <? 30 + 1) eqn:E; simpl; lia.
Qed.

(** A word that is not all ones has a lowest zero bit. *)
Lemma lowest_exists w n :
  (exists i, 0 <= i < Z.of_nat n /\ Z.testbit w i = true) ->
  exists z, 0 <= z < Z.of_nat n /\ Z.testbit w z = true /\ forall j, 0 <= j < z -> Z.testbit w j = false.
Proof.
  induction n as [|n IH]; intros (i & Hi & Hb); [lia|].
  destruct (decide (Exists (fun i => Z.testbit w i = true) (seqZ 0 (Z.of_nat n)))) as [He|Hne].
  - apply Exists_exists in He as (j & Hj & Hbj). apply elem_of_seqZ in Hj.
    destruct IH as (z & Hz & Hbz & Hl); [exists j; split; [lia|done]|]. exists z. split; [lia|done].
  - exists i. split; [done|split; [done|]]. intros j Hj. destruct (Z.testbit w j) eqn:E; [|done].
    destruct Hne. apply Exists_exists. exists j. split; [apply elem_of_seqZ; lia|done].
Qed.

(** [ffz w] is the first zero bit of [w]. *)
Lemma ffz_spec w :
  (exists i, 0 <= i < 32 /\ Z.testbit w i = false) ->
  0 <= ffz w < 32 /\ Z.testbit w (ffz w) = false /\ forall j, 0 <= j < ffz w -> Z.testbit w j = true.
Proof.
  intros (i & Hi & Hb).
  destruct (lowest_exists (u32 (Z.lnot w)) 32) as (z & Hz & Hbz & Hl).
  { exists i. split; [lia|]. rewrite u32_lnot_testbit by lia. by rewrite Hb. }
  rewrite (ffz_lowest w z); [|by split]. rewrite u32_lnot_testbit in Hbz by lia.
  split; [lia|split].
  - by destruct (Z.testbit w z).
  - intros j Hj. specialize (Hl j Hj). rewrite u32_lnot_testbit in Hl by lia. by destruct (Z.testbit w j).
Qed.

(** On a word of ones it is 31. *)
Lemma ffz_full w : (forall i, 0 <= i < 32 -> Z.testbit w i = true) -> ffz w = 31.
Proof.
  intros H. unfold ffz. replace (u32 (Z.lnot w)) with 0; [reflexivity|].
  symmetry. apply Z.bits_inj'. intros i Hi. rewrite Z.bits_0. destruct (decide (i < 32)).
  - rewrite u32_lnot_testbit by lia. by rewrite H by lia.
  - apply testbit_above; [apply u32_range|lia].
Qed.

(** ** The search in an array *)

Section search.
Context (get : Z -> Z) (Hget : forall p, 0 <= get p < 2 ^ 32).

Definition gbit (i : Z) : bool := Z.testbit (get (Z.shiftr i 5)) (Z.land i 31).

(** [r] is the first zero bit from [lo] on when it is below [hi]; there is none
    when it is not. *)
Definition first_zero (lo hi r : Z) : Prop :=
  (r < hi -> lo <= r /\ gbit r = false /\ forall i, lo <= i < r -> gbit i = true) /\
  (hi <= r -> forall i, lo <= i < hi -> gbit i = true).

Lemma gbit_word p j : 0 <= j < 32 -> gbit (32 * p + j) = Z.testbit (get p) j.
Proof.
  intros Hj. unfold gbit. change 31 with (Z.ones 5). rewrite Z.land_ones, Z.shiftr_div_pow2 by lia.
  change (2 ^ 5) with 32. f_equal; [f_equal|].
  - rewrite Z.add_comm, Z.mul_comm, Z.div_add, Z.div_small by lia. lia.
  - rewrite Z.add_comm, Z.mul_comm, Z.mod_add, Z.mod_small by lia. lia.
Qed.

Lemma first_zero_app lo mid hi r :
  lo <= mid -> (forall i, lo <= i < mid -> gbit i = true) -> first_zero mid hi r -> first_zero lo hi r.
Proof.
  intros Hle Hones [H1 H2]. split.
  - intros Hr. destruct (H1 Hr) as (H3 & H4 & H5). split; [lia|]. split; [done|].
    intros i Hi. destruct (decide (i < mid)); [apply Hones|apply H5]; lia.
  - intros Hr i Hi. destruct (decide (i < mid)); [apply Hones|apply H2]; lia.
Qed.

(** One word, its bits outside of [lo..hi) set. *)
Lemma word_zero p lo hi tmp :
  0 <= lo < 32 -> 0 <= hi <= 32 ->
  (forall j, 0 <= j < 32 -> Z.testbit tmp j = (j <? lo) || Z.testbit (get p) j || (hi <=? j)) ->
  hi < 32 \/ (exists j, 0 <= j < 32 /\ Z.testbit tmp j = false) ->
  first_zero (32 * p + lo) (32 * p + hi) (32 * p + ffz tmp).
Proof.
  intros Hlo Hhi Ht Hex.
  destruct (decide (Exists (fun j => Z.testbit tmp j = false) (seqZ 0 32))) as [He|Hne].
  - apply Exists_exists in He as (j & Hj & Hbj). apply elem_of_seqZ in Hj.
    destruct (ffz_spec tmp) as (Hf & Hbf & Hl); [exists j; split; [lia|done]|].
    rewrite Ht in Hbf by lia. assert (lo <= ffz tmp < hi) as Hin by lia.
    split; [|intros; lia]. intros _. split; [lia|]. split; [rewrite gbit_word by lia; by destruct (Z.testbit _ _); lia|].
    intros i Hi. replace i with (32 * p + (i - 32 * p)) by lia. rewrite gbit_word by lia.
    specialize (Hl (i - 32 * p) ltac:(lia)). rewrite Ht in Hl by lia. destruct (Z.testbit _ _); [done|lia].
  - assert (forall j, 0 <= j < 32 -> Z.testbit tmp j = true) as Hall.
    { intros j Hj. destruct (Z.testbit tmp j) eqn:E; [done|]. destruct Hne. apply Exists_exists.
      exists j. split; [apply elem_of_seqZ; lia|done]. }
    rewrite ffz_full by done. destruct Hex as [Hlt|(j & Hj & Hb)]; [|by rewrite Hall in Hb].
    split; [lia|]. intros _ i Hi. replace i with (32 * p + (i - 32 * p)) by lia. rewrite gbit_word by lia.
    specialize (Hall (i - 32 * p) ltac:(lia)). rewrite Ht in Hall by lia. destruct (Z.testbit _ _); [done|lia].
Qed.

Lemma not_ones_zero tmp : 0 <= tmp < 2 ^ 32 -> tmp <> ones -> exists j, 0 <= j < 32 /\ Z.testbit tmp j = false.
Proof.
  intros Hr Hne. destruct (decide (Exists (fun j => Z.testbit tmp j = false) (seqZ 0 32))) as [He|Hno].
  - apply Exists_exists in He as (j & Hj & Hb). apply elem_of_seqZ in Hj. exists j. split; [lia|done].
  - destruct Hne. apply Z.bits_inj'. intros i Hi. destruct (decide (i < 32)).
    + rewrite ones_testbit by lia. destruct (Z.testbit tmp i) eqn:E; [done|]. destruct Hno. apply Exists_exists.
      exists i. split; [apply elem_of_seqZ; lia|done].
    + rewrite !testbit_above; try done; unfold ones; lia.
Qed.

Lemma high_mask_testbit size j : 0 <= size -> 0 <= j < 32 -> Z.testbit (u32 (Z.shiftl ones size)) j = (size <=? j).
Proof.
  intros Hs Hj. rewrite u32_testbit, Z.shiftl_spec by lia. destruct (size <=? j) eqn:E.
  - apply ones_testbit. lia.
  - apply Z.testbit_neg_r. lia.
Qed.

Lemma low_mask_testbit off j : 0 < off < 32 -> 0 <= j < 32 -> Z.testbit (Z.shiftr ones (32 - off)) j = (j <? off).
Proof.
  intros Ho Hj. rewrite Z.shiftr_spec by lia. destruct (j <? off) eqn:E.
  - apply ones_testbit. lia.
  - apply testbit_above; unfold ones; lia.
Qed.

Lemma zero_loop_spec fuel p size :
  0 <= size -> (Z.to_nat (size / 32) < fuel)%nat -> first_zero (32 * p) (32 * p + size) (zero_loop fuel get p (32 * p) size).
Proof.
  revert p size. induction fuel as [|fuel IH]; intros p size Hs Hf; [lia|]. cbn [zero_loop].
  destruct (32 <=? size) eqn:E1; [destruct (get p =? ones) eqn:E2; cbn [negb]|destruct (size =? 0) eqn:E3].
  - apply (first_zero_app _ (32 * p + 32)); [lia|..].
    + intros i Hi. replace i with (32 * p + (i - 32 * p)) by lia. rewrite gbit_word by lia.
      assert (get p = ones) as -> by lia. apply ones_testbit. lia.
    + replace (32 * p + 32) with (32 * (p + 1)) by lia. replace (32 * p + size) with (32 * (p + 1) + (size - 32)) by lia.
      apply IH; [lia|]. assert ((size - 32) / 32 = size / 32 - 1)
        by (replace (size - 32) with (size + (-1) * 32) by lia; rewrite Z.div_add by lia; lia).
      assert (1 <= size / 32) by (apply Z.div_le_lower_bound; lia). lia.
  - destruct (word_zero p 0 32 (get p)) as [H1 H2]; [lia..| |right; apply not_ones_zero; [apply Hget|lia]|].
    { intros j Hj. replace (j <? 0) with false by lia. replace (32 <=? j) with false by lia. by rewrite orb_false_r. }
    rewrite Z.add_0_r in *. pose proof (ffz_spec (get p) (not_ones_zero _ (Hget p) ltac:(lia))) as [Hr _].
    split; [|intros; lia]. intros _. apply H1. lia.
  - split; [lia|intros; lia].
  - destruct (word_zero p 0 size (Z.lor (get p) (u32 (Z.shiftl ones size)))) as [H1 H2]; [lia..| |left; lia|].
    { intros j Hj. rewrite Z.lor_spec, high_mask_testbit by lia. by replace (j <? 0) with false by lia. }
    rewrite Z.add_0_r in *. split; done.
Qed.

Lemma next_zero_spec size offset :
  0 <= offset -> first_zero offset size (next_zero get size offset).
Proof.
  intros Ho. unfold next_zero. destruct (size <=? offset) eqn:E0; [split; [lia|intros; lia]|].
  assert (Z.land offset (Z.lnot 31) = 32 * Z.shiftr offset 5) as ->.
  { change 31 with (Z.ones 5). rewrite <-Z.ldiff_land, Z.ldiff_ones_r, Z.shiftl_mul_pow2 by lia. lia. }
  assert (offset = 32 * Z.shiftr offset 5 + Z.land offset 31) as Eo.
  { change 31 with (Z.ones 5). rewrite Z.land_ones, Z.shiftr_div_pow2 by lia. apply (Z.div_mod offset 32). lia. }
  set (p := Z.shiftr offset 5) in *. pose proof (land_31 offset) as Hr. set (off := Z.land offset 31) in *.
  replace size with (32 * p + (size - 32 * p)) at 1 by lia. set (sz := size - 32 * p).
  destruct (off =? 0) eqn:E1.
  { replace offset with (32 * p) by lia. apply zero_loop_spec; lia. }
  assert (forall j, 0 <= j < 32 -> Z.testbit (Z.lor (get p) (Z.shiftr ones (32 - off))) j =
    (j <? off) || Z.testbit (get p) j) as Htmp.
  { intros j Hj. rewrite Z.lor_spec, low_mask_testbit by lia. apply orb_comm. }
  set (tmp := Z.lor (get p) (Z.shiftr ones (32 - off))) in *. rewrite Eo at 1.
  destruct (sz <? 32) eqn:E2.
  - apply word_zero; [lia..| |left; lia]. intros j Hj. rewrite Z.lor_spec, Htmp, high_mask_testbit by lia. done.
  - assert (0 <= tmp < 2 ^ 32) as Hb.
    { unfold tmp. assert (0 <= Z.lor (get p) (Z.shiftr ones (32 - off))) as H0.
      { apply Z.lor_nonneg. split; [apply Hget|]. apply Z.shiftr_nonneg. unfold ones. lia. }
      split; [done|]. apply word_bound; [done|]. intros i Hi. rewrite Z.lor_spec, Z.shiftr_spec by lia.
      rewrite testbit_above by (apply Hget || lia). apply testbit_above; unfold ones; lia. }
    destruct (tmp =? ones) eqn:E3; cbn [negb].
    + apply (first_zero_app _ (32 * (p + 1))); [lia|..].
      * intros i Hi. replace i with (32 * p + (i - 32 * p)) by lia. rewrite gbit_word by lia.
        specialize (Htmp (i - 32 * p) ltac:(lia)). assert (tmp = ones) as Et by lia. rewrite Et, ones_testbit in Htmp by lia.
        destruct (Z.testbit (get p) _); [done|lia].
      * replace (32 * p + sz) with (32 * (p + 1) + (sz - 32)) by lia. replace (32 * p + 32) with (32 * (p + 1)) by lia.
        apply zero_loop_spec; [lia|]. assert ((sz - 32) / 32 <= sz / 32) by (apply Z.div_le_mono; lia).
        assert (0 <= (sz - 32) / 32) by (apply Z.div_pos; lia). lia.
    + destruct (not_ones_zero tmp Hb ltac:(lia)) as (j & Hj & Hbj).
      assert (ffz tmp < 32) as Hf by (apply ffz_spec; eauto).
      destruct (word_zero p off 32 tmp) as [H1 H2]; [lia..| |right; eauto|].
      { intros i Hi. rewrite Htmp by lia. replace (32 <=? i) with false by lia. by rewrite orb_false_r. }
      split; [|intros; lia]. intros _. apply H1. lia.
Qed.

End search.

(** ** Little-endian bitmaps *)

Lemma lxor_24 nr : Z.shiftr (Z.lxor nr 24) 5 = Z.shiftr nr 5 /\ Z.land (Z.lxor nr 24) 31 = Z.lxor (Z.land nr 31) 24.
Proof.
  split.
  - rewrite Z.shiftr_lxor. change (Z.shiftr 24 5) with 0. apply Z.lxor_0_r.
  - apply Z.bits_inj'. intros i Hi. rewrite Z.land_spec, !Z.lxor_spec, Z.land_spec.
    destruct (Z.testbit 31 i) eqn:E; [by rewrite !andb_true_r|].
    rewrite !andb_false_r. replace (Z.testbit 24 i) with false; [done|]. symmetry.
    destruct (decide (i < 5)) as [Hlt|]; [|apply Z.bits_above_log2; [lia|]; change (Z.log2 24) with 4; lia].
    assert (i = 0 \/ i = 1 \/ i = 2 \/ i = 3 \/ i = 4) as Hc by lia.
    destruct Hc as [->|[->|[->|[->| ->]]]]; done.
Qed.

(** Cases on a bit number below 32. *)
Lemma below_32 (P : Z -> Prop) : Forall P (seqZ 0 32) -> forall i, 0 <= i < 32 -> P i.
Proof. intros H i Hi. rewrite Forall_forall in H. apply H, elem_of_seqZ. lia. Qed.

Ltac all_bits :=
  let l := eval vm_compute in (seqZ 0 32) in change (seqZ 0 32) with l;
  rewrite !Forall_cons; split_and!; try apply Forall_nil_2.

(** [eval_bits w] evaluates the bits of constants and the indices of bits of [w]. *)
Ltac eval_bits w :=
  repeat match goal with
  | |- context [Z.testbit (Zpos ?m) ?e] =>
    let v := eval vm_compute in (Z.testbit (Zpos m) e) in change (Z.testbit (Zpos m) e) with v
  | |- context [Z.testbit w ?e] =>
    let v := eval vm_compute in e in progress change (Z.testbit w e) with (Z.testbit w v)
  end.

Lemma swab32_testbit w i : 0 <= w < 2 ^ 32 -> 0 <= i < 32 -> Z.testbit (swab32 w) i = Z.testbit w (Z.lxor i 24).
Proof.
  intros Hw. revert i. apply below_32. unfold swab32.
  assert (forall m s i, 0 <= i -> 0 <= s -> Z.testbit (Z.shiftl (Z.land w m) s) i = Z.testbit w (i - s) && Z.testbit m (i - s)) as Hl.
  { intros m s i Hi Hs. rewrite Z.shiftl_spec by lia. apply Z.land_spec. }
  assert (forall m s i, 0 <= i -> Z.testbit (Z.shiftr (Z.land w m) s) i = Z.testbit w (i + s) && Z.testbit m (i + s)) as Hr.
  { intros m s i Hi. rewrite Z.shiftr_spec by lia. apply Z.land_spec. }
  assert (forall i, i < 0 -> Z.testbit w i = false) as Hn by (intros; by apply Z.testbit_neg_r).
  assert (forall i, 32 <= i -> Z.testbit w i = false) as Hh by (intros; by apply testbit_above).
  all_bits.
  all: rewrite !Z.lor_spec, !Hl, !Hr by lia; eval_bits w.
  all: rewrite ?andb_true_r, ?andb_false_r, ?orb_false_r; done.
Qed.

(** The byte view of a bit is the bit of the word with the byte order reversed. *)
Lemma ext2_test_bit_spec nr m : words_ok m -> ext2_test_bit nr m = Z.b2z (bit m (Z.lxor nr 24)).
Proof.
  intros Hm. unfold ext2_test_bit, byte_of, bit. destruct (lxor_24 nr) as [-> ->].
  assert (Z.shiftr (Z.shiftr nr 3) 2 = Z.shiftr nr 5) as -> by (rewrite Z.shiftr_shiftr by lia; done).
  set (w := m (Z.shiftr nr 5)).
  assert (Z.land (Z.shiftr nr 3) 3 = Z.shiftr (Z.land nr 31) 3) as ->.
  { rewrite Z.shiftr_land. done. }
  assert (Z.land nr 7 = Z.land (Z.land nr 31) 7) as -> by (by rewrite <-Z.land_assoc).
  pose proof (land_31 nr) as Hr. revert Hr. generalize (Z.land nr 31). intros i Hi.
  change 1 with (Z.ones 1). rewrite Z.land_ones by lia. change (2 ^ 1) with 2. rewrite <-Z.bit0_mod. f_equal.
  revert i Hi. apply below_32. all_bits.
  all: rewrite Z.shiftr_spec, Z.land_spec, Z.shiftr_spec by (vm_compute; discriminate).
  all: eval_bits w; rewrite andb_true_r; done.
Qed.

Lemma words_ok_set m p v : words_ok m -> 0 <= v < 2 ^ 32 -> words_ok (<[p := v]> m).
Proof.
  intros Hm Hv q. destruct (decide (p = q)) as [<-|]; [by rewrite fn_lookup_insert|].
  rewrite fn_lookup_insert_ne by done. apply Hm.
Qed.

Lemma lor_word a b : 0 <= a < 2 ^ 32 -> 0 <= b < 2 ^ 32 -> 0 <= Z.lor a b < 2 ^ 32.
Proof.
  intros Ha Hb. assert (0 <= Z.lor a b) by (apply Z.lor_nonneg; lia). split; [done|].
  apply word_bound; [done|]. intros i Hi. by rewrite Z.lor_spec, !testbit_above.
Qed.

Lemma land_word a b : 0 <= a < 2 ^ 32 -> 0 <= b < 2 ^ 32 -> 0 <= Z.land a b < 2 ^ 32.
Proof.
  intros Ha Hb. assert (0 <= Z.land a b) by (apply Z.land_nonneg; lia). split; [done|].
  apply word_bound; [done|]. intros i Hi. by rewrite Z.land_spec, !testbit_above.
Qed.

Lemma test_and_set_bit_ok nr m :
  words_ok m -> words_ok (test_and_set_bit nr m).2 /\ negb ((test_and_set_bit nr m).1 =? 0) = bit m nr /\
    forall i, bit (test_and_set_bit nr m).2 i = if i =? nr then true else bit m i.
Proof.
  intros Hm. split_and!.
  - apply words_ok_set; [done|]. apply lor_word; [apply Hm|apply u32_range].
  - unfold test_and_set_bit, update_bit. cbn [cs_loop fst]. by rewrite old_bit, negb_involutive.
  - intros i. apply set_bit_spec.
Qed.

Lemma test_and_clear_bit_ok nr m :
  words_ok m -> words_ok (test_and_clear_bit nr m).2 /\ negb ((test_and_clear_bit nr m).1 =? 0) = bit m nr /\
    forall i, bit (test_and_clear_bit nr m).2 i = if i =? nr then false else bit m i.
Proof.
  intros Hm. split_and!.
  - apply words_ok_set; [done|]. apply land_word; [apply Hm|apply u32_range].
  - unfold test_and_clear_bit, update_bit. cbn [cs_loop fst]. by rewrite old_bit, negb_involutive.
  - intros i. by apply clear_bit_spec.
Qed.

Lemma swab32_range w : 0 <= w < 2 ^ 32 -> 0 <= swab32 w < 2 ^ 32.
Proof.
  intros Hw. assert (0 <= swab32 w) as H0.
  { unfold swab32. rewrite !Z.lor_nonneg, !Z.shiftl_nonneg, !Z.shiftr_nonneg. rewrite !Z.land_nonneg. lia. }
  split; [done|]. apply word_bound; [done|]. intros i Hi. unfold swab32.
  rewrite !Z.lor_spec, !Z.shiftl_spec, !Z.shiftr_spec, !Z.land_spec by lia.
  rewrite (testbit_above w (i + 8)), (testbit_above w (i + 24)) by lia.
  rewrite (Z.bits_above_log2 0xff (i - 24)), (Z.bits_above_log2 0xff00 (i - 8)) by (cbn; lia).
  by rewrite !andb_false_r.
Qed.

Lemma lxor_24_eq i nr : (Z.lxor i 24 =? Z.lxor nr 24) = (i =? nr).
Proof.
  destruct (i =? nr) eqn:E; [assert (i = nr) as -> by lia; apply Z.eqb_refl|].
  apply Z.eqb_neq. intros H. assert (i = nr); [|lia].
  rewrite <-(Z.lxor_0_r i), <-(Z.lxor_nilpotent 24), <-Z.lxor_assoc, H, Z.lxor_assoc, Z.lxor_nilpotent.
  apply Z.lxor_0_r.
Qed.

(** ** Properties *)

(** [find_next_zero_bit] ends and returns the first zero bit of the array from
    [offset] on when there is one below [size], and a number of at least [size]
    when there is none. *)
Theorem find_next_zero_bit_correct m size offset :
  words_ok m -> 0 <= offset ->
  let r := find_next_zero_bit m size offset in
  (r < size -> offset <= r /\ bit m r = false /\ forall i, offset <= i < r -> bit m i = true) /\
  (size <= r -> forall i, offset <= i < size -> bit m i = true).
Proof. intros Hm Ho. by apply next_zero_spec. Qed.

(** The bitmap routines of the ext2 and minix file systems agree with each other
    on this big-endian machine: [ext2_test_bit] reads the bit that
    [ext2_set_bit] set and [ext2_clear_bit] cleared and no other bit changes,
    both return whether the bit was set, and [ext2_find_next_zero_bit] returns
    the first bit that [ext2_test_bit] reads as 0. *)
Theorem ext2_bitmap_correct m nr size offset :
  words_ok m -> 0 <= offset ->
  let '(v, m1) := ext2_set_bit nr m in
  let '(w, m2) := ext2_clear_bit nr m in
  let r := ext2_find_next_zero_bit m size offset in
  (v <> 0 <-> ext2_test_bit nr m = 1) /\ (w <> 0 <-> ext2_test_bit nr m = 1) /\
  (forall i, ext2_test_bit i m1 = if i =? nr then 1 else ext2_test_bit i m) /\
  (forall i, ext2_test_bit i m2 = if i =? nr then 0 else ext2_test_bit i m) /\
  (r < size -> offset <= r /\ ext2_test_bit r m = 0 /\ forall i, offset <= i < r -> ext2_test_bit i m = 1) /\
  (size <= r -> forall i, offset <= i < size -> ext2_test_bit i m = 1).
Proof.
  intros Hm Ho. unfold ext2_set_bit, ext2_clear_bit.
  pose proof (test_and_set_bit_ok (Z.lxor nr 24) m Hm) as (H1 & H2 & H3).
  pose proof (test_and_clear_bit_ok (Z.lxor nr 24) m Hm) as (H4 & H5 & H6).
  destruct (test_and_set_bit _ m) as [v m1], (test_and_clear_bit _ m) as [w m2]. cbn [fst snd] in *.
  rewrite ext2_test_bit_spec by done.
  assert (forall i, gbit (fun p => swab32 (m p)) i = bit m (Z.lxor i 24)) as Hg.
  { intros i. unfold gbit, bit. rewrite swab32_testbit by (apply Hm || apply land_31).
      destruct (lxor_24 i) as [-> ->]. done. }
  assert (forall p, 0 <= swab32 (m p) < 2 ^ 32) as Hs by (intros p; apply swab32_range, Hm).
  destruct (next_zero_spec (fun p => swab32 (m p)) Hs size offset Ho) as [Hz1 Hz2].
  change (next_zero (fun p => swab32 (m p)) size offset) with (ext2_find_next_zero_bit m size offset) in Hz1, Hz2.
  split_and!.
  - rewrite <-H2. destruct (v =? 0) eqn:E; simpl; lia.
  - rewrite <-H5. destruct (w =? 0) eqn:E; simpl; lia.
  - intros i. rewrite !ext2_test_bit_spec, H3, lxor_24_eq by done. by destruct (i =? nr).
  - intros i. rewrite !ext2_test_bit_spec, H6, lxor_24_eq by done. by destruct (i =? nr).
  - intros Hr. destruct (Hz1 Hr) as (Ha & Hb & Hc). split; [done|].
    rewrite ext2_test_bit_spec, <-Hg, Hb by done. split; [done|].
    intros i Hi. by rewrite ext2_test_bit_spec, <-Hg, Hc.
  - intros Hr i Hi. by rewrite ext2_test_bit_spec, <-Hg, Hz2.
Qed.

Definition ex_bits (p : Z) : Z := if p =? 0 then ones else if p =? 1 then 0xfffffff7 else 0.

Lemma ex_bits_ok : words_ok ex_bits.
Proof. intros p. unfold ex_bits, ones. destruct (p =? 0); [lia|]. destruct (p =? 1); lia. Qed.

Lemma find_next_zero_bit_correct_witness :
  find_next_zero_bit ex_bits 64 5 = 35 /\ bit ex_bits 35 = false /\ (forall i, 5 <= i < 35 -> bit ex_bits i = true).
Proof.
  assert (find_next_zero_bit ex_bits 64 5 = 35) as E by (vm_compute; reflexivity).
  destruct (find_next_zero_bit_correct ex_bits 64 5 ex_bits_ok ltac:(lia)) as [H _].
  rewrite E in H. destruct (H ltac:(lia)) as (_ & H1 & H2). split; [exact E|]. split; [exact H1|exact H2].
Defined.

Lemma ext2_bitmap_correct_witness :
  ext2_find_next_zero_bit ex_bits 64 5 = 59 /\ ext2_test_bit 59 ex_bits = 0.
Proof.
  assert (ext2_find_next_zero_bit ex_bits 64 5 = 59) as E by (vm_compute; reflexivity).
  pose proof (ext2_bitmap_correct ex_bits 3 64 5 ex_bits_ok ltac:(lia)) as H.
  destruct (ext2_set_bit 3 ex_bits) as [v m1], (ext2_clear_bit 3 ex_bits) as [w m2].
  destruct H as (_ & _ & _ & _ & H & _). rewrite E in H. destruct (H ltac:(lia)) as (_ & H1 & _).
  split; [exact E|exact H1].
Defined.
