(* ===== verification/Buddy.v ===== *)
(** * mm/page_alloc.c: the buddy allocator

    Pages are numbers (indices of [mem_map]).  The free blocks of an order hang
    on a queue, a list of the numbers of their first pages; the bitmap of the
    order has one bit for each pair of buddies.  The bitmaps are used through
    the interface [Bitmap], which arch/i370/kernel/bitops.c implements. *)

From stdpp Require Import functions.
From S2P Require Import Prelude Bitops.

Definition NR_MEM_LISTS : Z := 6.
Definition PG_referenced : Z := 2.
Definition PG_DMA : Z := 8.
Definition PG_swap_cache : Z := 10.
Definition PG_reserved : Z := 31.
Definition GFP_WAIT : Z := 0x01.
Definition GFP_MED : Z := 0x04.
Definition GFP_HIGH : Z := 0x08.
Definition GFP_DMA : Z := 0x80.
Definition page_shift : Z := 12.

Section allocator.
Context {B : Type} `{!Bitmap B}.

Record zone := Zone {
  queue : Z -> list Z;
  map : Z -> B;
  nr_free_pages : Z;
  count : Z -> Z;
  pflags : Z -> Z
}.

Definition set_queue (z : zone) (q : Z -> list Z) : zone :=
  Zone q (map z) (nr_free_pages z) (count z) (pflags z).

Definition set_map (z : zone) (area : Z) (b : B) : zone :=
  Zone (queue z) (<[area := b]> (map z)) (nr_free_pages z) (count z) (pflags z).

Definition set_nr_free (z : zone) (n : Z) : zone := Zone (queue z) (map z) n (count z) (pflags z).

Definition set_page_count (z : zone) (p n : Z) : zone :=
  Zone (queue z) (map z) (nr_free_pages z) (<[p := n]> (count z)) (pflags z).

Definition set_page_flags (z : zone) (p f : Z) : zone :=
  Zone (queue z) (map z) (nr_free_pages z) (count z) (<[p := f]> (pflags z)).

Definition add_mem_queue (z : zone) (area entry : Z) : zone :=
  set_queue z (<[area := entry :: queue z area]> (queue z)).

(** The entry leaves the queue it is linked in. *)
Definition remove_mem_queue (z : zone) (entry : Z) : zone :=
  set_queue z (fun area => filter (fun p => p <> entry) (queue z area)).

(** ** Freeing *)

(** The loop runs for each order at most once. *)
Fixpoint free_loop (n : nat) (z : zone) (map_nr mask area index : Z) : zone * Z * Z :=
  match n with
  | O => (z, area, map_nr)
  | S n =>
    if u32 (mask + Z.shiftl 1 (NR_MEM_LISTS - 1)) =? 0 then (z, area, map_nr) else
    let '(old, b) := bm_test_and_change index (map z area) in
    let z := set_map z area b in
    if negb old then (z, area, map_nr) else
    let z := remove_mem_queue z (Z.lxor map_nr (u32 (- mask))) in
    let mask := u32 (Z.shiftl mask 1) in
    free_loop n z (Z.land map_nr mask) mask (area + 1) (Z.shiftr index 1)
  end.

Definition free_pages_ok (z : zone) (map_nr order : Z) : zone :=
  let index := Z.shiftr map_nr (1 + order) in
  let mask := u32 (Z.shiftl ones order) in
  let map_nr := Z.land map_nr mask in
  let z := set_nr_free z (s32 (nr_free_pages z - mask)) in
  let '(z, area, map_nr) := free_loop (Z.to_nat NR_MEM_LISTS) z map_nr mask order index in
  add_mem_queue z area map_nr.

Definition page_flag (z : zone) (p f : Z) : bool := Z.testbit (pflags z p) f.

(** [atomic_dec_and_test] and what follows it in [__free_page] and [free_pages].
    [None] is a panic. *)
Definition put_pages (z : zone) (map_nr order : Z) : option zone :=
  if page_flag z map_nr PG_reserved then Some z else
  let z := set_page_count z map_nr (s32 (count z map_nr - 1)) in
  if negb (count z map_nr =? 0) then Some z else
  if page_flag z map_nr PG_swap_cache then None else
  Some (free_pages_ok (set_page_flags z map_nr (Z.land (pflags z map_nr) (Z.lnot (Z.shiftl 1 PG_referenced))))
                      map_nr order).

Definition __free_page (z : zone) (page : Z) : option zone := put_pages z page 0.

Definition free_pages (max_mapnr : Z) (z : zone) (addr order : Z) : option zone :=
  let map_nr := Z.shiftr addr page_shift in
  if map_nr <? max_mapnr then put_pages z map_nr order else Some z.

(** ** Allocating *)

Definition MARK_USED (z : zone) (index order : Z) : zone :=
  set_map z order (bm_change (Z.shiftr index (1 + order)) (map z order)).

(** [n] is [high - low]: the lower half of the block is freed, the upper half
    split on. *)
Fixpoint EXPAND (n : nat) (z : zone) (index high : Z) : zone * Z :=
  match n with
  | O => (set_page_count z index 1, index)
  | S n =>
    let high := high - 1 in
    let z := add_mem_queue z high index in
    let z := MARK_USED z index high in
    EXPAND n z (index + Z.shiftl 1 high) high
  end.

(** The first block of the queue that suits the request. *)
Fixpoint find_block (z : zone) (gfp_mask : Z) (l : list Z) : option Z :=
  match l with
  | [] => None
  | p :: l => if (Z.land gfp_mask GFP_DMA =? 0) || page_flag z p PG_DMA then Some p else find_block z gfp_mask l
  end.

(** [n] is the number of orders from [new_order] on. *)
Fixpoint RMQUEUE (n : nat) (z : zone) (gfp_mask order new_order : Z) : option (Z * zone) :=
  match n with
  | O => None
  | S n =>
    match find_block z gfp_mask (queue z new_order) with
    | None => RMQUEUE n z gfp_mask order (new_order + 1)
    | Some p =>
      let z := set_queue z (<[new_order := filter (fun q => q <> p) (queue z new_order)]> (queue z)) in
      let z := MARK_USED z p new_order in
      let z := set_nr_free z (s32 (nr_free_pages z - Z.shiftl 1 order)) in
      let '(z, p) := EXPAND (Z.to_nat (new_order - order)) z p new_order in
      Some (p, z)
    end
  end.

Record watermarks := Watermarks { fp_min : Z; fp_low : Z; fp_high : Z; low_on_memory : bool }.

(** The call of [try_to_free_pages] (mm/vmscan.c), which writes dirty pages out,
    is an argument.  The result is the address (0 when there is none), the new
    state and whether the caller yielded the processor. *)
Definition __get_free_pages (try_to_free_pages : Z -> zone -> Z * zone) (memalloc : bool)
    (w : watermarks) (z : zone) (gfp_mask order : Z) : Z * zone * watermarks * bool :=
  if NR_MEM_LISTS <=? order then (0, z, w, false) else
  let enough := (fp_min w <? nr_free_pages z) && (negb (low_on_memory w) || (fp_high w <=? nr_free_pages z)) in
  let '(z, w, go) :=
    if memalloc then (z, w, true)
    else if enough then (z, Watermarks (fp_min w) (fp_low w) (fp_high w) false, true)
    else let '(freed, z) := try_to_free_pages gfp_mask z in
         (z, Watermarks (fp_min w) (fp_low w) (fp_high w) true,
          negb ((freed =? 0) && (Z.land gfp_mask (Z.lor GFP_MED GFP_HIGH) =? 0))) in
  if negb go then (0, z, w, false) else
  match RMQUEUE (Z.to_nat (NR_MEM_LISTS - order)) z gfp_mask order order with
  | Some (p, z) => (Z.shiftl p page_shift, z, w, false)
  | None => (0, z, w, negb (Z.land gfp_mask GFP_WAIT =? 0))
  end.

Definition PAGE_MASK : Z := u32 (Z.lnot (Z.ones page_shift)).

Definition LONG_ALIGN (x : Z) : Z := Z.land (u32 (x + 3)) (u32 (Z.lnot 3)).

(** The places of the bitmaps, each with its size in bytes, and the end of the last. *)
Fixpoint place_maps (n : nat) (i mask end_mem start_mem : Z) : list (Z * Z) * Z :=
  match n with
  | O => ([], start_mem)
  | S n =>
    let mask := u32 (mask + mask) in
    let end_mem := Z.land (u32 (end_mem + u32 (Z.lnot mask))) mask in
    let bitmap_size := Z.shiftr end_mem (page_shift + i) in
    let bitmap_size := Z.shiftr (bitmap_size + 7) 3 in
    let bitmap_size := LONG_ALIGN bitmap_size in
    let '(maps, last) := place_maps n (i + 1) mask end_mem (u32 (start_mem + bitmap_size)) in
    ((start_mem, bitmap_size) :: maps, last)
  end.

(** Nothing is free, the bitmaps are clear and every page is reserved.
    [sizeof_page] is the size of a [struct page]. *)
Definition free_area_init (clear : B) (sizeof_page start_mem end_mem : Z)
  : zone * watermarks * list (Z * Z) * Z :=
  let i := Z.shiftr end_mem (page_shift + 7) in
  let i := if i <? 10 then 10 else i in
  let i := if 256 <? i then 256 else i in
  let mem_map := LONG_ALIGN start_mem in
  let p := u32 (mem_map + sizeof_page * Z.shiftr end_mem page_shift) in
  let '(maps, last) := place_maps (Z.to_nat NR_MEM_LISTS) 0 PAGE_MASK end_mem (LONG_ALIGN p) in
  (Zone (fun _ => []) (fun _ => clear) 0 (fun _ => 0) (fun _ => Z.lor (Z.shiftl 1 PG_DMA) (Z.shiftl 1 PG_reserved)),
   Watermarks i (i * 2) (i * 3) false, maps, last).

(** ** Blocks and buddies *)

Definition aligned (o i : Z) : Prop := exists m, 0 <= m /\ i = m * 2 ^ o.

Definition buddy (o i : Z) : Z := Z.lxor i (2 ^ o).

Definition in_block (o i p : Z) : Prop := i <= p < i + 2 ^ o.

(** Page [p] is on a free list. *)
Definition is_free (z : zone) (p : Z) : Prop := exists o i, i ∈ queue z o /\ in_block o i p.

(** The other half of the pair. *)
Definition sibling (m : Z) : Z := m + 1 - 2 * (m mod 2).

Lemma sibling_spec m : sibling (sibling m) = m /\ sibling m / 2 = m / 2 /\ sibling m <> m /\ (0 <= m -> 0 <= sibling m).
Proof. unfold sibling. split_and!; Z.div_mod_to_equations; lia. Qed.

Lemma buddy_eq o m : 0 <= o -> buddy o (m * 2 ^ o) = sibling m * 2 ^ o.
Proof.
  intros Ho. unfold buddy. rewrite <-!Z.shiftl_mul_pow2 by done. rewrite <-(Z.shiftl_1_l o), <-Z.shiftl_lxor.
  f_equal. unfold sibling. pose proof (Z.add_lxor_2land m 1) as H.
  assert (Z.land m 1 = m mod 2) as E by (change 1 with (Z.ones 1); by rewrite Z.land_ones).
  rewrite E in H. lia.
Qed.

Lemma index_eq o m : 0 <= o -> Z.shiftr (m * 2 ^ o) (1 + o) = m / 2.
Proof.
  intros Ho. rewrite Z.shiftr_div_pow2 by lia. rewrite Z.pow_add_r by lia. change (2 ^ 1) with 2.
  rewrite Z.mul_comm, (Z.mul_comm 2). apply Z.div_mul_cancel_l; [lia|]. apply Z.pow_nonzero; lia.
Qed.

Lemma pow2_pos o : 0 <= o -> 0 < 2 ^ o.
Proof. intros. apply Z.pow_pos_nonneg; lia. Qed.

(** Two blocks of an order meet only when they are the same. *)
Lemma block_apart o m m' p :
  0 <= o -> in_block o (m * 2 ^ o) p -> in_block o (m' * 2 ^ o) p -> m = m'.
Proof. intros Ho [H1 H2] [H3 H4]. pose proof (pow2_pos o Ho). nia. Qed.

(** A block is its two halves. *)
Lemma block_halves o m p :
  0 <= o -> in_block (o + 1) (m * 2 ^ (o + 1)) p <->
  in_block o (2 * m * 2 ^ o) p \/ in_block o ((2 * m + 1) * 2 ^ o) p.
Proof. intros Ho. unfold in_block. rewrite Z.pow_add_r by lia. pose proof (pow2_pos o Ho). nia. Qed.

(** ** The invariant *)

Section invariant.
Context (max_mapnr : Z) (Hmax : max_mapnr <= 2 ^ 20).

Record blocks_ok (z : zone) : Prop := BlocksOk {
  bo_block : forall o i, i ∈ queue z o -> 0 <= o < NR_MEM_LISTS /\ aligned o i /\ i + 2 ^ o <= max_mapnr;
  bo_nodup : forall o, NoDup (queue z o);
  bo_disj : forall o1 i1 o2 i2 p, i1 ∈ queue z o1 -> i2 ∈ queue z o2 -> in_block o1 i1 p -> in_block o2 i2 p ->
    o1 = o2 /\ i1 = i2;
  bo_buddy : forall o m, o < NR_MEM_LISTS - 1 -> m * 2 ^ o ∈ queue z o -> sibling m * 2 ^ o ∉ queue z o;
  (* the bit of a pair tells whether one of the two is free *)
  bo_bits : forall o m, 0 <= o < NR_MEM_LISTS - 1 -> 0 <= m ->
    bm_get (map z o) (m / 2) = bool_decide (m * 2 ^ o ∈ queue z o \/ sibling m * 2 ^ o ∈ queue z o)
}.

(** A block that is in nobody's queue. *)
Definition held (z : zone) (o m : Z) : Prop :=
  0 <= o < NR_MEM_LISTS /\ 0 <= m /\ m * 2 ^ o + 2 ^ o <= max_mapnr /\
  forall p, in_block o (m * 2 ^ o) p -> ~ is_free z p.

(** [z'] is [z] with the bit of the pair of [m] changed. *)
Definition flipped (o m : Z) (z z' : zone) : Prop :=
  forall o' m', 0 <= o' < NR_MEM_LISTS - 1 -> 0 <= m' ->
    bm_get (map z' o') (m' / 2) =
    if bool_decide (o' = o /\ m' / 2 = m / 2) then negb (bm_get (map z o') (m' / 2)) else bm_get (map z o') (m' / 2).

Definition taken (o m : Z) (z z' : zone) : Prop :=
  flipped o m z z' /\
  forall o', queue z' o' = if decide (o = o') then filter (fun i => i <> m * 2 ^ o) (queue z o) else queue z o'.

Definition given (o m : Z) (z z' : zone) : Prop :=
  flipped o m z z' /\
  forall o', queue z' o' = if decide (o = o') then m * 2 ^ o :: queue z o else queue z o'.

Lemma pair_cases m m' : m' / 2 = m / 2 -> m' = m \/ m' = sibling m.
Proof. unfold sibling. intros. Z.div_mod_to_equations. lia. Qed.

Lemma in_block_first o i : 0 <= o -> in_block o i i.
Proof. intros Ho. pose proof (pow2_pos o Ho). unfold in_block. lia. Qed.

Lemma block_order z o i : blocks_ok z -> i ∈ queue z o -> 0 <= o < NR_MEM_LISTS.
Proof. intros Hz Hi. by apply Hz in Hi as [? _]. Qed.

Lemma mul_pow_inj o m m' : 0 <= o -> m * 2 ^ o = m' * 2 ^ o -> m = m'.
Proof. intros Ho. pose proof (pow2_pos o Ho). nia. Qed.

(** Taking a free block. *)
Lemma take_ok z z' o m :
  blocks_ok z -> m * 2 ^ o ∈ queue z o -> taken o m z z' ->
  blocks_ok z' /\ held z' o m /\ (forall p, is_free z p <-> is_free z' p \/ in_block o (m * 2 ^ o) p).
Proof.
  intros Hz Hm [Hf Hq]. pose proof Hz as [H1 H2 H3 H4 H5].
  destruct (H1 _ _ Hm) as (Ho & (m0 & Hm0 & E0) & Hb). apply mul_pow_inj in E0; [subst m0|lia].
  assert (forall o' i, i ∈ queue z' o' <-> i ∈ queue z o' /\ ~ (o' = o /\ i = m * 2 ^ o)) as Hin.
  { intros o' i. rewrite Hq. case_decide as E; [subst o'; rewrite list_elem_of_filter|]; naive_solver. }
  split; [split|split].
  - intros o' i [Hi _]%Hin. by apply H1.
  - intros o'. rewrite Hq. case_decide; [by apply NoDup_filter|done].
  - intros o1 i1 o2 i2 p [Ha _]%Hin [Hc _]%Hin. by apply H3.
  - intros o' m' Ho' [Ha _]%Hin [Hc _]%Hin. by destruct (H4 o' m').
  - intros o' m' Ho' Hm'. rewrite Hf by done. rewrite H5 by done. case_bool_decide as E.
    + destruct E as [-> Ep]. destruct (pair_cases _ _ Ep) as [-> | ->].
      * rewrite bool_decide_true by (by left). symmetry. apply bool_decide_false. rewrite !Hin.
        pose proof (H4 o m ltac:(lia) Hm). naive_solver.
      * destruct (sibling_spec m) as (-> & _). rewrite bool_decide_true by (by right). symmetry.
        apply bool_decide_false. rewrite !Hin. pose proof (H4 o m ltac:(lia) Hm). naive_solver.
    + apply bool_decide_ext. rewrite !Hin. split; [|tauto].
      intros [Hi|Hi]; [left|right]; (split; [done|]); intros [-> E2]; apply E; (split; [done|]).
      * by apply mul_pow_inj in E2 as ->; [|lia].
      * apply mul_pow_inj in E2; [|lia]. rewrite <-E2. by destruct (sibling_spec m') as (_ & -> & _).
  - split_and!; [lia..|]. intros p Hp (o' & i & [Hi Hne]%Hin & Hpi). apply Hne.
    destruct (H3 o' i o (m * 2 ^ o) p) as [-> ->]; done.
  - intros p. split.
    + intros (o' & i & Hi & Hp). destruct (decide (o' = o /\ i = m * 2 ^ o)) as [[-> ->]|Hne]; [by right|].
      left. exists o', i. split; [by apply Hin|done].
    + intros [(o' & i & [Hi _]%Hin & Hp)|Hp]; [by exists o', i|by exists o, (m * 2 ^ o)].
Qed.

(** Giving a block back, when its buddy is not free. *)
Lemma give_ok z z' o m :
  blocks_ok z -> held z o m -> (o = NR_MEM_LISTS - 1 \/ sibling m * 2 ^ o ∉ queue z o) -> given o m z z' ->
  blocks_ok z' /\ (forall p, is_free z' p <-> is_free z p \/ in_block o (m * 2 ^ o) p).
Proof.
  intros Hz (Ho & Hm & Hb & Hh) Hsib [Hf Hq]. pose proof Hz as [H1 H2 H3 H4 H5].
  assert (forall o' i, i ∈ queue z' o' <-> i ∈ queue z o' \/ (o' = o /\ i = m * 2 ^ o)) as Hin.
  { intros o' i. rewrite Hq. case_decide as E; [subst o'; rewrite elem_of_cons|]; naive_solver. }
  assert (forall o' i p, i ∈ queue z o' -> in_block o' i p -> in_block o (m * 2 ^ o) p -> False) as Hdis.
  { intros o' i p Hi Hp Hp'. apply (Hh p Hp'). by exists o', i. }
  assert (m * 2 ^ o ∉ queue z o) as Hnot.
  { intros Hi. eapply Hdis; [exact Hi|apply in_block_first; lia..]. }
  split; [split|].
  - intros o' i [Hi|[-> ->]]%Hin; [by apply H1|]. split_and!; [lia..|by exists m|done].
  - intros o'. rewrite Hq. case_decide; [subst o'|done]. by apply NoDup_cons.
  - intros o1 i1 o2 i2 p [Ha|[-> ->]]%Hin [Hc|[-> ->]]%Hin Hp1 Hp2; [by eapply H3|by destruct (Hdis o1 i1 p)|by destruct (Hdis o2 i2 p)|done].
  - intros o' m' Ho' [Ha|[-> E]]%Hin [Hc|[Eo E']]%Hin; try subst o'.
    + by destruct (H4 o' m').
    + destruct (H1 _ _ Ha) as [? _]. apply mul_pow_inj in E'; [|lia]. destruct Hsib as [?|Hsib]; [lia|].
      apply Hsib. rewrite <-E'. by destruct (sibling_spec m') as (-> & _).
    + apply mul_pow_inj in E; [|lia]. subst m'. destruct Hsib; [lia|done].
    + apply mul_pow_inj in E, E'; [|lia..]. subst m'. destruct (sibling_spec m) as (_ & _ & ? & _). done.
  - intros o' m' Ho' Hm'. rewrite Hf by done. rewrite H5 by done. case_bool_decide as E.
    + destruct E as [-> Ep]. assert (sibling m * 2 ^ o ∉ queue z o) as Hs by (destruct Hsib; [lia|done]).
      destruct (pair_cases _ _ Ep) as [-> | ->].
      * rewrite bool_decide_false by naive_solver. symmetry. apply bool_decide_true. rewrite !Hin. naive_solver.
      * destruct (sibling_spec m) as (-> & _). rewrite bool_decide_false by naive_solver. symmetry.
        apply bool_decide_true. rewrite !Hin. naive_solver.
    + apply bool_decide_ext. rewrite !Hin. split; [tauto|].
      intros [[Hi|[-> E2]]|[Hi|[-> E2]]]; [by left| |by right|]; destruct E; (split; [done|]).
      * by apply mul_pow_inj in E2 as ->; [|lia].
      * apply mul_pow_inj in E2; [|lia]. rewrite <-E2. by destruct (sibling_spec m') as (_ & -> & _).
  - intros p. split.
    + intros (o' & i & [Hi|[-> ->]]%Hin & Hp); [left; by exists o', i|by right].
    + intros [(o' & i & Hi & Hp)|Hp]; [exists o', i|exists o, (m * 2 ^ o)]; (split; [apply Hin; tauto|done]).
Qed.

(** ** The number of free pages *)

Definition total (z : zone) : Z :=
  let n o := Z.of_nat (length (queue z o)) in n 0 + 2 * n 1 + 4 * n 2 + 8 * n 3 + 16 * n 4 + 32 * n 5.

Lemma order_cases o :
  0 <= o < NR_MEM_LISTS -> o = 0 \/ o = 1 \/ o = 2 \/ o = 3 \/ o = 4 \/ o = 5.
Proof. unfold NR_MEM_LISTS. lia. Qed.

Ltac each_order H := destruct (order_cases _ H) as [->|[->|[->|[->|[->| ->]]]]].

Lemma given_total z z' o m : 0 <= o < NR_MEM_LISTS -> given o m z z' -> total z' = total z + 2 ^ o.
Proof.
  intros Ho [_ Hq]. unfold total. rewrite !Hq. each_order Ho; simpl; lia.
Qed.

Lemma filter_out_length (l : list Z) x : NoDup l -> x ∈ l -> S (length (filter (fun y => y <> x) l)) = length l.
Proof.
  intros Hnd Hx. assert (l ≡ₚ x :: filter (fun y => y <> x) l) as Hp.
  { apply NoDup_Permutation; [done|apply NoDup_cons; split; [|by apply NoDup_filter]|].
    - rewrite list_elem_of_filter. tauto.
    - intros y. rewrite elem_of_cons, list_elem_of_filter. destruct (decide (y = x)); naive_solver. }
  by rewrite Hp at 2.
Qed.

Lemma taken_total z z' o m :
  0 <= o < NR_MEM_LISTS -> NoDup (queue z o) -> m * 2 ^ o ∈ queue z o -> taken o m z z' -> total z' = total z - 2 ^ o.
Proof.
  intros Ho Hnd Hm [_ Hq]. pose proof (filter_out_length _ _ Hnd Hm) as Hl. unfold total. rewrite !Hq.
  clear Hq Hm Hnd. each_order Ho; simpl in Hl |- *; lia.
Qed.

(** ** Masks *)

Lemma order_mask o : 0 <= o < NR_MEM_LISTS ->
  u32 (Z.shiftl ones o) = 2 ^ 32 - 2 ^ o /\ u32 (- (2 ^ 32 - 2 ^ o)) = 2 ^ o /\
  u32 (Z.shiftl (2 ^ 32 - 2 ^ o) 1) = 2 ^ 32 - 2 ^ (o + 1) /\
  (u32 (2 ^ 32 - 2 ^ o + Z.shiftl 1 (NR_MEM_LISTS - 1)) =? 0) = (o =? NR_MEM_LISTS - 1).
Proof. intros Ho. each_order Ho; vm_compute; auto. Qed.

Lemma land_mask x k : 0 <= k <= 31 -> 0 <= x < 2 ^ 32 -> Z.land x (2 ^ 32 - 2 ^ k) = x / 2 ^ k * 2 ^ k.
Proof.
  intros Hk Hx. assert (2 ^ 32 - 2 ^ k = Z.shiftl (Z.ones (32 - k)) k) as ->.
  { rewrite Z.shiftl_mul_pow2, Z.ones_equiv by lia.
    assert (2 ^ 32 = 2 ^ (32 - k) * 2 ^ k) by (rewrite <-Z.pow_add_r by lia; f_equal; lia). lia. }
  rewrite <-Z.shiftr_div_pow2, <-Z.shiftl_mul_pow2 by lia. apply Z.bits_inj'. intros i Hi.
  rewrite Z.land_spec, field_testbit by lia. rewrite Z.shiftl_spec by lia. destruct (decide (k <= i)).
  - rewrite Z.shiftr_spec by lia. replace (i - k + k) with i by lia. destruct (decide (i < 32)).
    + replace ((k <=? i) && (i <? k + (32 - k))) with true by lia. apply andb_true_r.
    + rewrite (testbit_above x) by lia. done.
  - rewrite (Z.testbit_neg_r _ (i - k)) by lia. replace (k <=? i) with false by lia. apply andb_false_r.
Qed.

(** ** Freeing *)

Lemma set_map_get z area b o j :
  bm_get (map (set_map z area b) o) j = if decide (area = o) then bm_get b j else bm_get (map z o) j.
Proof. simpl. case_decide as E; [subst o; by rewrite fn_lookup_insert|by rewrite fn_lookup_insert_ne]. Qed.

(** Changing the bit of [m] in the bitmap of its order. *)
Lemma flip_ok z o m : flipped o m z (set_map z o (bm_change (m / 2) (map z o))).
Proof.
  intros o' m' Ho' Hm'. rewrite set_map_get. case_decide as E.
  - subst o'. rewrite bm_change_get. case_bool_decide as E2.
    + destruct E2 as [_ ->]. by rewrite Z.eqb_refl.
    + replace (m' / 2 =? m / 2) with false; [done|]. symmetry. apply Z.eqb_neq. intros E3. by apply E2.
  - rewrite bool_decide_false; [done|]. intros [-> _]. done.
Qed.

Lemma flipped_sibling z z' o m : flipped o m z z' -> flipped o (sibling m) z z'.
Proof. intros H o' m' Ho' Hm'. rewrite H by done. by destruct (sibling_spec m) as (_ & -> & _). Qed.

Lemma held_not_queued z o m : held z o m -> m * 2 ^ o ∉ queue z o.
Proof.
  intros (Ho & _ & _ & Hh) Hi. apply (Hh (m * 2 ^ o)); [apply in_block_first; lia|].
  exists o, (m * 2 ^ o). split; [done|]. apply in_block_first. lia.
Qed.

(** The block that a block and its buddy make up. *)
Lemma pair_block o m p :
  0 <= o -> in_block (o + 1) (m / 2 * 2 ^ (o + 1)) p <-> in_block o (m * 2 ^ o) p \/ in_block o (sibling m * 2 ^ o) p.
Proof.
  intros Ho. rewrite block_halves by lia. unfold sibling.
  assert (m = 2 * (m / 2) /\ m mod 2 = 0 \/ m = 2 * (m / 2) + 1 /\ m mod 2 = 1) as [[E ->]|[E ->]]
    by (Z.div_mod_to_equations; lia); rewrite <-E.
  - by replace (m + 1 - 2 * 0) with (m + 1) by lia.
  - replace (2 * (m / 2)) with (m + 1 - 2 * 1) by lia. tauto.
Qed.

Lemma pair_end o m b :
  0 <= o -> m / 2 * 2 ^ (o + 1) + 2 ^ (o + 1) <= b <-> m * 2 ^ o + 2 ^ o <= b /\ sibling m * 2 ^ o + 2 ^ o <= b.
Proof.
  intros Ho. rewrite Z.pow_add_r by lia. pose proof (pow2_pos o Ho). unfold sibling.
  assert (m = 2 * (m / 2) /\ m mod 2 = 0 \/ m = 2 * (m / 2) + 1 /\ m mod 2 = 1) as [[E ->]|[E ->]]
    by (Z.div_mod_to_equations; lia); set (q := m / 2) in *; rewrite E; nia.
Qed.

Lemma land_pair o m :
  0 <= o < NR_MEM_LISTS - 1 -> 0 <= m * 2 ^ o < 2 ^ 32 ->
  Z.land (m * 2 ^ o) (2 ^ 32 - 2 ^ (o + 1)) = m / 2 * 2 ^ (o + 1).
Proof.
  unfold NR_MEM_LISTS. intros Ho Hm. rewrite land_mask by lia. f_equal.
  rewrite <-(index_eq o m), Z.shiftr_div_pow2 by lia. f_equal. f_equal. lia.
Qed.

(** The free buddy of a held block leaves its queue: the two make up a held block. *)
Lemma merge_ok z z' o m :
  blocks_ok z -> held z o m -> o < NR_MEM_LISTS - 1 -> sibling m * 2 ^ o ∈ queue z o -> taken o (sibling m) z z' ->
  blocks_ok z' /\ held z' (o + 1) (m / 2) /\
  (forall p, is_free z p <-> is_free z' p \/ in_block o (sibling m * 2 ^ o) p) /\ total z' = total z - 2 ^ o.
Proof.
  intros Hz (Ho & Hm & Hb & Hfree) Ho5 Hsib Ht.
  destruct (take_ok z z' o (sibling m) Hz Hsib Ht) as (Hz' & (_ & Hsm & Hsb & Hh') & Hf').
  split_and!; [done| |done|apply (taken_total z z' o (sibling m)); [done|apply Hz|done|done]].
  split_and!; [lia|unfold NR_MEM_LISTS in *; lia|apply Z.div_pos; lia|by apply pair_end; [lia|]|].
  intros p [Hp|Hp]%pair_block Hfp; [|by apply Hh' in Hfp|lia]. apply (Hfree p Hp), Hf'. by left.
Qed.

Lemma remove_buddy z o m :
  blocks_ok z -> sibling m * 2 ^ o ∈ queue z o ->
  taken o (sibling m) z (remove_mem_queue (set_map z o (bm_change (m / 2) (map z o))) (sibling m * 2 ^ o)).
Proof.
  intros Hz Hsib. split; [apply flipped_sibling, flip_ok|]. intros o'. simpl. case_decide as E; [by subst o'|].
  apply filter_absent. intros Hi.
  destruct (bo_disj _ Hz o' (sibling m * 2 ^ o) o (sibling m * 2 ^ o) (sibling m * 2 ^ o)); try done;
    apply in_block_first; eapply block_order; done.
Qed.

Lemma queue_block z z0 o m :
  flipped o m z z0 -> queue z0 = queue z -> given o m z (add_mem_queue z0 o (m * 2 ^ o)).
Proof.
  intros Hf Hq. split; [done|]. intros o'. simpl. rewrite Hq.
  case_decide as E; [subst o'; by rewrite fn_lookup_insert|by rewrite fn_lookup_insert_ne].
Qed.

Lemma flipped_top m z : flipped (NR_MEM_LISTS - 1) m z z.
Proof. intros o' m' Ho' Hm'. rewrite bool_decide_false; [done|]. lia. Qed.

Lemma free_loop_ok n z o m :
  blocks_ok z -> held z o m -> NR_MEM_LISTS - o <= Z.of_nat n ->
  let '(z1, area, i) := free_loop n z (m * 2 ^ o) (2 ^ 32 - 2 ^ o) o (m / 2) in
  let z2 := add_mem_queue z1 area i in
  blocks_ok z2 /\ (forall p, is_free z2 p <-> is_free z p \/ in_block o (m * 2 ^ o) p) /\
  total z2 = total z + 2 ^ o /\ nr_free_pages z2 = nr_free_pages z /\ count z2 = count z /\ pflags z2 = pflags z.
Proof.
  revert z o m. induction n as [|n IH]; intros z o m Hz Hh Hn.
  { destruct Hh as [? _]. unfold NR_MEM_LISTS in *. lia. }
  pose proof Hh as (Ho & Hm & Hb & _). destruct (order_mask o Ho) as (_ & Hneg & Hshl & Hend).
  cbn [free_loop]. rewrite Hend. destruct (Z.eqb_spec o (NR_MEM_LISTS - 1)) as [E5|E5].
  { pose proof (queue_block z z o m ltac:(rewrite E5; apply flipped_top) eq_refl) as Hg.
    destruct (give_ok z _ o m Hz Hh ltac:(left; lia) Hg) as [H1 H2].
    split_and!; [done|done|by apply (given_total z _ o m)|done|done|done]. }
  rewrite bm_test_and_change_eq, (bo_bits _ Hz) by lia. case_bool_decide as Eb; cbn [negb].
  2: { pose proof (queue_block z _ o m (flip_ok z o m) eq_refl) as Hg.
    destruct (give_ok z _ o m Hz Hh ltac:(right; tauto) Hg) as [H1 H2].
    split_and!; [done|done|by apply (given_total z _ o m)|done|done|done]. }
  destruct Eb as [?%(held_not_queued _ _ _ Hh)|Hsib]; [done|]. rewrite Hneg, Hshl.
  change (Z.lxor (m * 2 ^ o) (2 ^ o)) with (buddy o (m * 2 ^ o)). rewrite buddy_eq, land_pair by (pose proof (pow2_pos o); nia).
  destruct (merge_ok z _ o m Hz Hh ltac:(lia) Hsib (remove_buddy z o m Hz Hsib)) as (Hz' & Hh2 & Hf' & Ht').
  replace (Z.shiftr (m / 2) 1) with (m / 2 / 2) by (rewrite Z.shiftr_div_pow2 by lia; done).
  set (z' := remove_mem_queue _ _) in *. pose proof (IH z' (o + 1) (m / 2) Hz' Hh2 ltac:(lia)) as Hrec.
  destruct (free_loop n z' _ _ (o + 1) _) as [[z1 area] i]. destruct Hrec as (R1 & R2 & R3 & R4 & R5 & R6).
  split_and!; [done| | |done..].
  - intros p. rewrite R2, pair_block, Hf' by lia. tauto.
  - rewrite R3, Ht', Z.pow_add_r by lia. lia.
Qed.

(** ** The free pages, counted *)

Definition zone_pages (z : zone) : list Z := o ← seqZ 0 NR_MEM_LISTS; i ← queue z o; seqZ i (2 ^ o).

Lemma elem_of_zone_pages z p : blocks_ok z -> p ∈ zone_pages z <-> is_free z p.
Proof.
  intros Hz. unfold zone_pages, is_free, in_block. rewrite list_elem_of_bind. split.
  - intros (o & (i & Hp%elem_of_seqZ & Hi)%list_elem_of_bind & Ho). exists o, i. done.
  - intros (o & i & Hi & Hp). exists o. split.
    + apply list_elem_of_bind. exists i. by rewrite elem_of_seqZ.
    + apply elem_of_seqZ. pose proof (block_order z o i Hz Hi). lia.
Qed.

Lemma NoDup_bind {A C} (f : A -> list C) (l : list A) :
  NoDup l -> (forall x, x ∈ l -> NoDup (f x)) ->
  (forall x y c, x ∈ l -> y ∈ l -> c ∈ f x -> c ∈ f y -> x = y) -> NoDup (l ≫= f).
Proof.
  induction 1 as [|x l Hx Hl IH]; intros Hf Hd; [constructor|]. cbn. apply NoDup_app. split_and!.
  - apply Hf. set_solver.
  - intros c Hc (y & Hcy & Hy)%list_elem_of_bind.
    assert (x = y) as <-; [|done]. eapply (Hd _ _ c); set_solver.
  - apply IH; [set_solver|]. intros y1 y2 c ????. eapply (Hd _ _ c); set_solver.
Qed.

Lemma zone_pages_NoDup z : blocks_ok z -> NoDup (zone_pages z).
Proof.
  intros Hz. apply NoDup_bind; [apply NoDup_seqZ| |].
  - intros o _. apply NoDup_bind; [apply Hz|intros i _; apply NoDup_seqZ|].
    intros i1 i2 p H1 H2 Hp1%elem_of_seqZ Hp2%elem_of_seqZ. by apply (bo_disj z Hz o i1 o i2 p).
  - intros o1 o2 p _ _ (i1 & Hp1%elem_of_seqZ & H1)%list_elem_of_bind (i2 & Hp2%elem_of_seqZ & H2)%list_elem_of_bind.
    by apply (bo_disj z Hz o1 i1 o2 i2 p).
Qed.

Lemma length_blocks (q : list Z) o : length (q ≫= fun i => seqZ i (2 ^ o)) = (length q * Z.to_nat (2 ^ o))%nat.
Proof. induction q as [|i q IH]; [done|]. cbn. by rewrite length_app, IH, length_seqZ. Qed.

Lemma total_pages z : total z = Z.of_nat (length (zone_pages z)).
Proof.
  unfold zone_pages, total. change (seqZ 0 NR_MEM_LISTS) with [0; 1; 2; 3; 4; 5].
  cbn [mbind list_bind]. rewrite !length_app, !length_blocks. cbn [length]. lia.
Qed.

Lemma total_range z : blocks_ok z -> 0 <= total z <= Z.max 0 max_mapnr.
Proof.
  intros Hz. rewrite total_pages. split; [lia|].
  assert (zone_pages z ⊆+ seqZ 0 max_mapnr) as Hsub%submseteq_length.
  { apply NoDup_submseteq; [by apply zone_pages_NoDup|]. intros p (o & i & Hi & Hp)%elem_of_zone_pages; [|done].
    apply Hz in Hi as (_ & (m & Hm & ->) & Hb). apply elem_of_seqZ. unfold in_block in Hp.
    pose proof (Z.pow_nonneg 2 o). nia. }
  rewrite length_seqZ in Hsub. lia.
Qed.

(** The allocator's invariant: the free blocks are in order and counted. *)
Definition zone_ok (z : zone) : Prop := blocks_ok z /\ nr_free_pages z = total z.

Lemma s32_total z x : blocks_ok z -> x mod 2 ^ 32 = total z mod 2 ^ 32 -> s32 x = total z.
Proof.
  intros Hz Hx. pose proof (total_range z Hz). unfold s32. rewrite <-Zplus_mod_idemp_l, Hx, Zplus_mod_idemp_l.
  rewrite Z.mod_small; lia.
Qed.

(** ** Freeing a block *)

Lemma free_pages_ok_ok z p o :
  zone_ok z -> 0 <= p -> held z o (p / 2 ^ o) ->
  let z' := free_pages_ok z p o in
  zone_ok z' /\ (forall q, is_free z' q <-> is_free z q \/ in_block o (p / 2 ^ o * 2 ^ o) q) /\
  total z' = total z + 2 ^ o /\ count z' = count z /\ pflags z' = pflags z.
Proof.
  intros [Hz Hn] Hp Hh. pose proof Hh as (Ho & Hm & Hb & _). pose proof (pow2_pos o ltac:(lia)) as Hpow.
  destruct (order_mask o Ho) as (Hmask & _). unfold free_pages_ok. rewrite Hmask.
  set (z0 := set_nr_free z _).
  assert (0 <= p < 2 ^ 32) as Hp32 by (pose proof (Z.mul_succ_div_gt p (2 ^ o) Hpow); nia).
  rewrite land_mask by (unfold NR_MEM_LISTS in *; lia).
  replace (Z.shiftr p (1 + o)) with (p / 2 ^ o / 2).
  2: { rewrite Z.shiftr_div_pow2, Z.div_div by lia. f_equal. rewrite Z.pow_add_r by lia. lia. }
  pose proof (free_loop_ok (Z.to_nat NR_MEM_LISTS) z0 o (p / 2 ^ o)) as HL.
  destruct (free_loop _ _ _ _ _ _) as [[z1 area] i].
  destruct HL as (R1 & R2 & R3 & R4 & R5 & R6); [by destruct Hz|done|rewrite Z2Nat.id; [lia|done]|].
  change (total z0) with (total z) in R3.
  split_and!; [|done..]. split; [done|]. rewrite R4. subst z0. cbn [set_nr_free nr_free_pages].
  apply s32_total; [done|]. rewrite R3, Hn.
  replace (total z - (2 ^ 32 - 2 ^ o)) with (total z + 2 ^ o + -1 * 2 ^ 32) by lia. apply Z_mod_plus_full.
Qed.

(** ** Allocating a block *)

Lemma held_half z o m b :
  held z (o + 1) m -> 0 <= o -> 0 <= b <= 1 -> held z o (2 * m + b).
Proof.
  intros (Ho & Hm & Hb & Hh) Ho0 Hbb. pose proof (pow2_pos o Ho0). rewrite Z.pow_add_r in Hb by lia.
  split_and!; [lia..|nia|]. intros p Hp. apply Hh. apply block_halves; [done|].
  assert (b = 0 \/ b = 1) as [->| ->] by lia; [left|by right]. by rewrite Z.add_0_r in Hp.
Qed.

Lemma sibling_even m : sibling (2 * m) = 2 * m + 1.
Proof. unfold sibling. Z.div_mod_to_equations. lia. Qed.

Lemma split_given z o m :
  0 <= o -> given o (2 * m) z (MARK_USED (add_mem_queue z o (2 * m * 2 ^ o)) (2 * m * 2 ^ o) o).
Proof.
  intros Ho. unfold MARK_USED. rewrite index_eq by done. split; [exact (flip_ok (add_mem_queue z o _) o (2 * m))|].
  intros o'. simpl. case_decide as E; [subst o'; by rewrite fn_lookup_insert|by rewrite fn_lookup_insert_ne].
Qed.

Lemma EXPAND_ok n z m low :
  0 <= low -> blocks_ok z -> held z (low + Z.of_nat n) m ->
  let '(z', p) := EXPAND n z (m * 2 ^ (low + Z.of_nat n)) (low + Z.of_nat n) in
  exists m', p = m' * 2 ^ low /\ blocks_ok z' /\ held z' low m' /\
  (forall q, is_free z q \/ in_block (low + Z.of_nat n) (m * 2 ^ (low + Z.of_nat n)) q <->
             is_free z' q \/ in_block low p q) /\
  (forall q, in_block low p q -> in_block (low + Z.of_nat n) (m * 2 ^ (low + Z.of_nat n)) q) /\
  total z' = total z + 2 ^ (low + Z.of_nat n) - 2 ^ low /\ nr_free_pages z' = nr_free_pages z /\
  count z' = <[p := 1]> (count z) /\ pflags z' = pflags z.
Proof.
  intros Hlow. revert z m. induction n as [|n IH]; intros z m Hz Hh.
  - cbn [EXPAND]. rewrite Z.add_0_r in *. exists m. destruct Hz. split_and!; try done.
    change (total (set_page_count z (m * 2 ^ low) 1)) with (total z). lia.
  - cbn [EXPAND]. replace (low + Z.of_nat (S n)) with (low + Z.of_nat n + 1) in * by lia.
    set (o := low + Z.of_nat n) in *. rewrite Z.add_simpl_r.
    assert (m * 2 ^ (o + 1) = 2 * m * 2 ^ o) as E by (rewrite Z.pow_add_r by lia; lia). rewrite E.
    replace (2 * m * 2 ^ o + Z.shiftl 1 o) with ((2 * m + 1) * 2 ^ o) by (rewrite Z.shiftl_1_l; lia).
    set (z1 := MARK_USED _ _ _). pose proof (split_given z o m ltac:(lia)) as Hg. fold z1 in Hg.
    pose proof (held_half _ _ _ 0 Hh ltac:(lia) ltac:(lia)) as H0. rewrite Z.add_0_r in H0.
    pose proof (held_half _ _ _ 1 Hh ltac:(lia) ltac:(lia)) as H1.
    destruct (give_ok z z1 o (2 * m) Hz H0) as [Hz1 Hf1]; [right; rewrite sibling_even; by apply held_not_queued|done|].
    assert (held z1 o (2 * m + 1)) as Hh1.
    { destruct H1 as (? & ? & ? & Hn). split_and!; [lia..|]. intros p Hp [Hfp|Hfp]%Hf1; [by apply (Hn p)|].
      assert (2 * m + 1 = 2 * m); [|lia]. by apply (block_apart o _ _ p); [lia|..]. }
    pose proof (IH z1 (2 * m + 1) Hz1 Hh1) as HE. fold o in HE. destruct (EXPAND n z1 _ o) as [z' p].
    destruct HE as (m' & -> & R1 & R2 & R3 & RB & R4 & R5 & R6 & R7). exists m'. split_and!; try done.
    + intros q. pose proof (block_halves o m q ltac:(lia)) as Hb. rewrite E in Hb. rewrite <-R3, Hf1. tauto.
    + intros q Hq%RB. pose proof (block_halves o m q ltac:(lia)) as Hb. rewrite E in Hb. tauto.
    + rewrite R4, (given_total z z1 o (2 * m)), Z.pow_add_r; [lia..|by destruct H0|done].
Qed.

(** The block at the head of the search. *)
Definition suits (z : zone) (gfp_mask p : Z) : bool := (Z.land gfp_mask GFP_DMA =? 0) || page_flag z p PG_DMA.

Lemma find_block_spec z gfp_mask l :
  match find_block z gfp_mask l with
  | Some p => p ∈ l /\ suits z gfp_mask p = true
  | None => forall p, p ∈ l -> suits z gfp_mask p = false
  end.
Proof.
  unfold suits. induction l as [|p l IH]; cbn [find_block]; [set_solver|].
  destruct (_ || _) eqn:E; [set_solver|]. destruct (find_block z gfp_mask l); set_solver.
Qed.

Lemma RMQUEUE_ok n z gfp_mask order k :
  0 <= order -> zone_ok z -> order + k + Z.of_nat n = NR_MEM_LISTS -> 0 <= k ->
  match RMQUEUE n z gfp_mask order (order + k) with
  | None => forall o p, order + k <= o -> p ∈ queue z o -> suits z gfp_mask p = false
  | Some (p, z') => exists m, p = m * 2 ^ order /\ zone_ok z' /\ held z' order m /\
    (forall q, is_free z q <-> is_free z' q \/ in_block order p q) /\ total z' = total z - 2 ^ order /\
    count z' = <[p := 1]> (count z) /\ pflags z' = pflags z /\
    exists o b, order <= o /\ b ∈ queue z o /\ suits z gfp_mask b = true /\ in_block o b p
  end.
Proof.
  intros Ho [Hz Hn]. revert k. induction n as [|n IH]; intros k Hk Hk0; cbn [RMQUEUE].
  { intros o p Hop Hp. apply (block_order _ _ _ Hz) in Hp. lia. }
  pose proof (find_block_spec z gfp_mask (queue z (order + k))) as Hb.
  destruct (find_block z gfp_mask _) as [b|].
  - destruct Hb as [Hb Hs]. pose proof (bo_block _ Hz _ _ Hb) as (Ho' & (m & Hm & ->) & Hend).
    set (z1 := MARK_USED _ _ _).
    assert (taken (order + k) m z z1) as Ht.
    { unfold z1, MARK_USED. rewrite index_eq by lia. split; [exact (flip_ok (set_queue z _) _ m)|].
      intros o'. simpl. case_decide as E; [subst o'; by rewrite fn_lookup_insert|by rewrite fn_lookup_insert_ne]. }
    destruct (take_ok z z1 _ m Hz Hb Ht) as (Hz1 & Hh1 & Hf1).
    pose proof (taken_total z z1 _ m Ho' (bo_nodup _ Hz _) Hb Ht) as Ht1.
    set (z2 := set_nr_free z1 _). assert (blocks_ok z2) as Hz2 by (by destruct Hz1).
    replace (order + k - order) with k by lia.
    pose proof (EXPAND_ok (Z.to_nat k) z2 m order Ho Hz2) as HE. rewrite Z2Nat.id in HE by done.
    specialize (HE Hh1). destruct (EXPAND _ z2 _ _) as [z' p].
    destruct HE as (m' & -> & R1 & R2 & R3 & RB & R4 & R5 & R6 & R7). change (total z2) with (total z1) in R4.
    assert (total z' = total z - 2 ^ order) as Ht' by lia.
    exists m'. split_and!; try done.
    + split; [done|]. rewrite R5. subst z2. cbn [set_nr_free nr_free_pages]. apply s32_total; [done|].
      rewrite Ht', Z.shiftl_1_l. subst z1. cbn [MARK_USED set_map set_queue nr_free_pages]. by rewrite Hn.
    + intros q. rewrite Hf1. change (is_free z1 q) with (is_free z2 q). by rewrite R3.
    + exists (order + k), (m * 2 ^ (order + k)). split_and!; [lia|done|done|].
      apply RB, in_block_first, Ho.
  - replace (order + k + 1) with (order + (k + 1)) by lia. pose proof (IH (k + 1) ltac:(lia) ltac:(lia)) as HR.
    destruct (RMQUEUE n z _ _ _) as [[p z']|]; [done|].
    intros o p Hop Hp. destruct (decide (o = order + k)) as [->|]; [by apply Hb|]. apply (HR o); [lia|done].
Qed.

(** ** Free memory is coalesced *)

Definition all_free (z : zone) (o m : Z) : Prop := forall p, in_block o (m * 2 ^ o) p -> is_free z p.

Lemma block_nested o m o' m' p q :
  0 <= o <= o' -> in_block o (m * 2 ^ o) p -> in_block o' (m' * 2 ^ o') p -> in_block o (m * 2 ^ o) q ->
  in_block o' (m' * 2 ^ o') q.
Proof.
  intros Ho. unfold in_block. assert (2 ^ o' = 2 ^ (o' - o) * 2 ^ o) as -> by (rewrite <-Z.pow_add_r by lia; f_equal; lia).
  pose proof (pow2_pos o ltac:(lia)). set (k := 2 ^ (o' - o)). set (x := 2 ^ o) in *. intros [H1 H2] [H3 H4] [H5 H6].
  assert (m' * k <= m) by nia. assert (m + 1 <= m' * k + k) by nia. nia.
Qed.

(** A free block of memory is part of a queued block. *)
Lemma coalesced z o m :
  blocks_ok z -> 0 <= o < NR_MEM_LISTS -> all_free z o m ->
  exists o' m', o <= o' /\ m' * 2 ^ o' ∈ queue z o' /\ forall p, in_block o (m * 2 ^ o) p -> in_block o' (m' * 2 ^ o') p.
Proof.
  intros Hz [Ho Ho6]. revert o Ho m Ho6. apply (natlike_ind (fun o => forall m, o < NR_MEM_LISTS -> all_free z o m -> _)).
  - intros m _ Hm. destruct (Hm m) as (o' & i & Hi & Hp); [unfold in_block; lia|].
    pose proof (bo_block _ Hz _ _ Hi) as (? & (m' & _ & ->) & _). exists o', m'. split_and!; [lia|done|].
    intros p [? ?]. by replace p with m by lia.
  - intros o Ho IH m Ho6 Hm. rewrite <-Z.add_1_r in *.
    destruct (IH (2 * m)) as (o1 & m1 & Ho1 & Hq1 & Hin1).
    { lia. } { intros p Hp. apply Hm, block_halves; tauto. }
    destruct (IH (2 * m + 1)) as (o2 & m2 & Ho2 & Hq2 & Hin2).
    { lia. } { intros p Hp. apply Hm, block_halves; tauto. }
    pose proof (in_block_first o (2 * m * 2 ^ o) Ho) as F1. pose proof (in_block_first o ((2 * m + 1) * 2 ^ o) Ho) as F2.
    destruct (decide (o1 = o)) as [->|].
    2: { exists o1, m1. split_and!; [lia|done|]. intros p Hp.
         eapply block_nested; [|apply block_halves; [done|left; exact F1]|by apply Hin1|done]. lia. }
    destruct (decide (o2 = o)) as [->|].
    2: { exists o2, m2. split_and!; [lia|done|]. intros p Hp.
         eapply block_nested; [|apply block_halves; [done|right; exact F2]|by apply Hin2|done]. lia. }
    exfalso. pose proof (block_apart o _ _ _ Ho F1 (Hin1 _ F1)) as E1. pose proof (block_apart o _ _ _ Ho F2 (Hin2 _ F2)) as E2.
    subst m1 m2.
    apply (bo_buddy _ Hz o (2 * m)); [lia|done|by rewrite sibling_even].
Qed.

(** The queues are determined by the set of free pages. *)
Lemma queued_iff z o m :
  blocks_ok z -> 0 <= o < NR_MEM_LISTS ->
  m * 2 ^ o ∈ queue z o <-> all_free z o m /\ (o = NR_MEM_LISTS - 1 \/ ~ all_free z (o + 1) (m / 2)).
Proof.
  intros Hz Ho. pose proof (in_block_first o (m * 2 ^ o) ltac:(lia)) as F. split.
  - intros Hq. split; [intros p Hp; by exists o, (m * 2 ^ o)|]. destruct (decide (o = NR_MEM_LISTS - 1)); [by left|].
    right. intros Hall. destruct (coalesced z (o + 1) (m / 2) Hz ltac:(lia) Hall) as (o' & m' & Ho' & Hq' & Hin).
    destruct (bo_disj _ Hz o (m * 2 ^ o) o' (m' * 2 ^ o') (m * 2 ^ o) Hq Hq' F); [|lia].
    apply Hin, pair_block; [lia|by left].
  - intros [Hall Hmax']. destruct (coalesced z o m Hz Ho Hall) as (o' & m' & Ho' & Hq' & Hin).
    destruct (decide (o' = o)) as [->|Hne].
    { apply Hin in F as F'. by rewrite (block_apart o _ _ _ ltac:(lia) F F'). }
    destruct Hmax' as [->|[]]; [pose proof (block_order _ _ _ Hz Hq'); lia|].
    intros p Hp. exists o', (m' * 2 ^ o'). split; [done|].
    eapply (block_nested (o + 1) (m / 2)); [lia|apply pair_block; [lia|left; exact F]|by apply Hin|done].
Qed.

Lemma queues_unique z z' :
  blocks_ok z -> blocks_ok z' -> (forall p, is_free z p <-> is_free z' p) -> forall o, queue z o ≡ₚ queue z' o.
Proof.
  intros Hz Hz' Hf o.
  assert (forall o m, all_free z o m <-> all_free z' o m) as Ha by (intros; unfold all_free; by setoid_rewrite Hf).
  apply NoDup_Permutation; [apply Hz|apply Hz'|]. intros i. split; intros Hi.
  - pose proof (bo_block _ Hz _ _ Hi) as (Ho & (m & _ & ->) & _). apply queued_iff; [done..|]. rewrite <-!Ha. by apply queued_iff.
  - pose proof (bo_block _ Hz' _ _ Hi) as (Ho & (m & _ & ->) & _). apply queued_iff; [done..|]. rewrite !Ha. by apply queued_iff.
Qed.

(** ** The operations *)

(** Enough memory is free to allocate without reclaiming. *)
Definition enough (w : watermarks) (z : zone) : bool :=
  (fp_min w <? nr_free_pages z) && (negb (low_on_memory w) || (fp_high w <=? nr_free_pages z)).

(** The zone that the allocation works on. *)
Definition reclaimed (try_to_free_pages : Z -> zone -> Z * zone) (memalloc : bool) (w : watermarks) (z : zone)
    (gfp_mask order : Z) : zone :=
  if (NR_MEM_LISTS <=? order) || memalloc || enough w z then z else (try_to_free_pages gfp_mask z).2.

Definition refused (try_to_free_pages : Z -> zone -> Z * zone) (memalloc : bool) (w : watermarks) (z : zone)
    (gfp_mask : Z) : Prop :=
  memalloc = false /\ enough w z = false /\ (try_to_free_pages gfp_mask z).1 = 0 /\
  Z.land gfp_mask (Z.lor GFP_MED GFP_HIGH) = 0.

(** [z'] is [z] without a block of the order, which starts at page [p]. *)
Definition allocated (z : zone) (order p : Z) (z' : zone) : Prop :=
  zone_ok z' /\ (exists m, p = m * 2 ^ order /\ held z' order m) /\
  (forall q, is_free z q <-> is_free z' q \/ in_block order p q) /\
  count z' = <[p := 1]> (count z) /\ pflags z' = pflags z.

(** No free block suits. *)
Definition exhausted (z : zone) (gfp_mask order : Z) : Prop :=
  (forall o p, order <= o -> p ∈ queue z o -> suits z gfp_mask p = false) /\
  (Z.land gfp_mask GFP_DMA = 0 -> forall m, ~ all_free z order m).

Lemma allocate_ok z gfp_mask order :
  zone_ok z -> 0 <= order < NR_MEM_LISTS ->
  match RMQUEUE (Z.to_nat (NR_MEM_LISTS - order)) z gfp_mask order order with
  | None => exhausted z gfp_mask order
  | Some (p, z') => allocated z order p z'
  end.
Proof.
  intros Hz Ho. pose proof (RMQUEUE_ok (Z.to_nat (NR_MEM_LISTS - order)) z gfp_mask order 0) as H.
  rewrite Z.add_0_r in H. specialize (H ltac:(lia) Hz ltac:(lia) ltac:(lia)).
  destruct (RMQUEUE _ z _ _ _) as [[p z']|].
  - destruct H as (m & H1 & H2 & H3 & H4 & _ & H5 & H6 & _). split_and!; try done. by exists m.
  - split; [done|]. intros Hd m Hm. destruct (coalesced z order m (proj1 Hz) Ho Hm) as (o & m' & Ho' & Hq & _).
    pose proof (H o _ Ho' Hq) as Hs. unfold suits in Hs. rewrite Hd in Hs. done.
Qed.

Lemma block_address z o m :
  held z o m -> Z.shiftl (m * 2 ^ o) page_shift = m * 2 ^ o * 4096 /\ m * 2 ^ o * 4096 < 2 ^ 32.
Proof.
  intros (Ho & Hm & Hb & _). pose proof (pow2_pos o ltac:(lia)). rewrite Z.shiftl_mul_pow2 by done.
  change (2 ^ page_shift) with 4096. split; [done|]. nia.
Qed.

(** What the search of the queues returns. *)
Lemma search_ok z0 gfp_mask order (w : watermarks) (P Q : Prop) :
  zone_ok z0 -> 0 <= order < NR_MEM_LISTS ->
  let '(addr, z', w', yielded) :=
    match RMQUEUE (Z.to_nat (NR_MEM_LISTS - order)) z0 gfp_mask order order with
    | Some (p, z) => (Z.shiftl p page_shift, z, w, false)
    | None => (0, z0, w, negb (Z.land gfp_mask GFP_WAIT =? 0))
    end in
  zone_ok z' /\
  ((exists p, addr = p * 4096 /\ addr < 2 ^ 32 /\ yielded = false /\ allocated z0 order p z') \/
   (addr = 0 /\ z' = z0 /\ (P \/ Q \/ exhausted z0 gfp_mask order /\ yielded = negb (Z.land gfp_mask GFP_WAIT =? 0)))).
Proof.
  intros Hz Ho. pose proof (allocate_ok z0 gfp_mask order Hz Ho) as Ha.
  destruct (RMQUEUE _ z0 _ _ _) as [[p z1]|]; [|split; [done|right; tauto]].
  pose proof Ha as (Hz1 & (m & -> & Hh) & _). destruct (block_address z1 order m Hh) as [-> Hlt].
  split; [done|]. left. by exists (m * 2 ^ order).
Qed.

(** C26: [__get_free_pages] of order [o] returns the address of a block of
    2^[o] pages, aligned to its size and below 4 GB, all of which were free;
    exactly these pages stop being free, the first gets a use count of one, and
    the zone stays in order (free blocks disjoint, aligned and coalesced, one bit
    per pair of buddies telling whether one of the two is free, the free pages
    counted).  It returns 0, with the zone as reclaiming left it, only if the
    order is too large, or reclaiming freed nothing and the request may not dig
    into the reserve, or no free block suits: for a request without GFP_DMA, if
    no aligned block of that size is free.  [try_to_free_pages] is any function
    that keeps the zone in order. *)
Theorem get_free_pages_correct try_to_free_pages memalloc w z gfp_mask order :
  (forall g z, zone_ok z -> zone_ok (try_to_free_pages g z).2) -> zone_ok z -> 0 <= order ->
  let z0 := reclaimed try_to_free_pages memalloc w z gfp_mask order in
  let '(addr, z', w', yielded) := __get_free_pages try_to_free_pages memalloc w z gfp_mask order in
  zone_ok z' /\
  ((exists p, addr = p * 4096 /\ addr < 2 ^ 32 /\ yielded = false /\ allocated z0 order p z') \/
   (addr = 0 /\ z' = z0 /\
     (NR_MEM_LISTS <= order \/ refused try_to_free_pages memalloc w z gfp_mask \/
      exhausted z0 gfp_mask order /\ yielded = negb (Z.land gfp_mask GFP_WAIT =? 0)))).
Proof.
  intros Hreclaim Hz Ho z0. assert (zone_ok z0) as Hz0.
  { unfold z0, reclaimed. destruct (_ || _); [done|by apply Hreclaim]. }
  unfold __get_free_pages. destruct (NR_MEM_LISTS <=? order) eqn:Eo.
  { unfold z0, reclaimed in *. rewrite Eo in *. split; [done|]. right. split_and!; [done..|]. left. lia. }
  assert (0 <= order < NR_MEM_LISTS) as Ho' by lia.
  unfold z0, reclaimed in *. rewrite Eo in *. cbn [orb] in *. fold (enough w z).
  destruct memalloc; [by apply search_ok|]. destruct (enough w z) eqn:Ee; cbn [orb negb] in *; [by apply search_ok|].
  destruct (try_to_free_pages gfp_mask z) as [freed z1] eqn:Et. cbn [snd fst] in *.
  destruct (freed =? 0) eqn:Ef; cbn [andb negb]; [|by apply search_ok].
  destruct (Z.land gfp_mask _ =? 0) eqn:Eg; cbn [negb]; [|by apply search_ok].
  split; [done|]. right. split_and!; [done..|]. right. left. unfold refused. rewrite Et. cbn [fst]. split_and!; [done..|lia|lia].
Qed.

(** What becomes of the zone when a reference to page [p] is put. *)
Definition put_result (z : zone) (p order : Z) (r : option zone) : Prop :=
  if page_flag z p PG_reserved then r = Some z
  else if negb (count z p =? 1) then r = Some (set_page_count z p (count z p - 1))
  else if page_flag z p PG_swap_cache then r = None
  else exists z', r = Some z' /\ zone_ok z' /\
    (forall q, is_free z' q <-> is_free z q \/ in_block order (p / 2 ^ order * 2 ^ order) q) /\
    count z' = <[p := 0]> (count z) /\
    pflags z' = <[p := Z.land (pflags z p) (Z.lnot (Z.shiftl 1 PG_referenced))]> (pflags z).

Lemma put_pages_ok z p order :
  zone_ok z -> 0 <= p -> held z order (p / 2 ^ order) -> 1 <= count z p < 2 ^ 31 ->
  put_result z p order (put_pages z p order).
Proof.
  intros Hz Hp Hh Hc. unfold put_result, put_pages. destruct (page_flag z p PG_reserved); [done|].
  rewrite s32_id by lia. cbn [set_page_count count]. rewrite fn_lookup_insert.
  replace (count z p - 1 =? 0) with (count z p =? 1) by lia. destruct (count z p =? 1) eqn:E1; [|done]. cbn [negb].
  change (page_flag (set_page_count z p (count z p - 1)) p PG_swap_cache) with (page_flag z p PG_swap_cache).
  destruct (page_flag z p PG_swap_cache); [done|]. replace (count z p - 1) with 0 by lia.
  cbn [set_page_count pflags]. set (z0 := set_page_flags _ _ _).
  assert (zone_ok z0) as Hz0 by (destruct Hz as [[] ?]; by split).
  destruct (free_pages_ok_ok z0 p order Hz0 Hp Hh) as (H1 & H2 & _ & H3 & H4).
  exists (free_pages_ok z0 p order). by rewrite H3, H4.
Qed.

Lemma held_page z o p : 0 <= p -> held z o (p / 2 ^ o) -> p < max_mapnr.
Proof. intros Hp (Ho & _ & Hb & _). pose proof (Z.mul_succ_div_gt p (2 ^ o) (pow2_pos o ltac:(lia))). lia. Qed.

(** C28: [free_pages] and [__free_page] give a block that is not free back to
    the zone when the last reference to it goes: exactly its pages become free,
    the zone stays in order with the block coalesced with its free buddies (the
    invariant has no two free buddies), and the page's count is 0 and its
    referenced bit clear.  A reserved page is left alone, a reference that is
    not the last is only counted, freeing a page of the swap cache panics and an
    address beyond memory is ignored. *)
Theorem free_pages_correct z addr order :
  zone_ok z -> let p := Z.shiftr addr page_shift in
  (0 <= p -> held z order (p / 2 ^ order) -> 1 <= count z p < 2 ^ 31 ->
   put_result z p order (free_pages max_mapnr z addr order) /\ (order = 0 -> put_result z p 0 (__free_page z p))) /\
  (max_mapnr <= p -> free_pages max_mapnr z addr order = Some z).
Proof.
  intros Hz p. unfold free_pages, __free_page. fold p. split.
  - intros Hp Hh Hc. pose proof (held_page z order p Hp Hh). replace (p <? max_mapnr) with true by lia.
    split; [by apply put_pages_ok|]. intros ->. by apply put_pages_ok.
  - intros Hp. by replace (p <? max_mapnr) with false by lia.
Qed.

(** C29: what [RMQUEUE] takes, [free_pages] puts back: when the block is freed at
    once the queues of all orders hold the same blocks as before and the same
    number of pages is free. *)
Theorem alloc_free_roundtrip z gfp_mask order p z' :
  zone_ok z -> 0 <= order < NR_MEM_LISTS ->
  RMQUEUE (Z.to_nat (NR_MEM_LISTS - order)) z gfp_mask order order = Some (p, z') ->
  page_flag z p PG_reserved = false -> page_flag z p PG_swap_cache = false ->
  exists z'', free_pages max_mapnr z' (Z.shiftl p page_shift) order = Some z'' /\ zone_ok z'' /\
    nr_free_pages z'' = nr_free_pages z /\ forall o, queue z'' o ≡ₚ queue z o.
Proof.
  intros Hz Ho Hr Hres Hswap. pose proof (allocate_ok z gfp_mask order Hz Ho) as Ha. rewrite Hr in Ha.
  destruct Ha as (Hz' & (m & -> & Hh) & Hf & Hc & Hpf). pose proof (pow2_pos order ltac:(lia)) as Hpow.
  pose proof Hh as (_ & Hm & _). unfold free_pages.
  rewrite Z.shiftr_shiftl_l, Z.sub_diag, Z.shiftl_0_r by done.
  assert (m * 2 ^ order / 2 ^ order = m) as Em by (apply Z.div_mul; lia).
  assert (held z' order (m * 2 ^ order / 2 ^ order)) as Hh' by (by rewrite Em).
  pose proof (held_page z' order (m * 2 ^ order) ltac:(nia) Hh').
  replace (m * 2 ^ order <? max_mapnr) with true by lia.
  pose proof (put_pages_ok z' (m * 2 ^ order) order Hz' ltac:(nia) Hh') as Hput.
  rewrite Hc, fn_lookup_insert in Hput. specialize (Hput ltac:(lia)). unfold put_result, page_flag in *.
  rewrite Hpf, Hres, Hswap, Hc, fn_lookup_insert, Em in Hput. cbn [negb Z.eqb Pos.eqb] in Hput.
  destruct Hput as (z'' & -> & Hz'' & Hf'' & _). exists z''. split_and!; try done.
  - rewrite (proj2 Hz), (proj2 Hz''), !total_pages. f_equal. apply Permutation_length.
    apply NoDup_Permutation; [apply zone_pages_NoDup, Hz''|apply zone_pages_NoDup, Hz|].
    intros q. rewrite !elem_of_zone_pages by (by apply Hz'' || apply Hz). by rewrite Hf, Hf''.
  - apply queues_unique; [apply Hz''|apply Hz|]. intros q. by rewrite Hf, Hf''.
Qed.

(** ** Start of day *)

Lemma free_area_init_ok clear sizeof_page start_mem end_mem :
  (forall i, bm_get clear i = false) -> zone_ok (free_area_init clear sizeof_page start_mem end_mem).1.1.1.
Proof.
  intros Hclear. unfold free_area_init. destruct (place_maps _ _ _ _ _) as [maps last]. split; [|done]. split; cbn.
  - intros o i []%not_elem_of_nil.
  - intros o. constructor.
  - intros ????? []%not_elem_of_nil.
  - intros o m _ []%not_elem_of_nil.
  - intros o m _ _. rewrite Hclear. symmetry. apply bool_decide_false. intros [[]%not_elem_of_nil|[]%not_elem_of_nil].
Qed.

(** The word of a bitmap that holds the bit of the pair of page [p] at order [o]. *)
Definition pair_word (o p : Z) : Z := Z.shiftr (Z.shiftr p (1 + o)) 5.

Lemma map_size_ok e i size :
  0 <= e -> 0 <= i <= 5 -> size = LONG_ALIGN (Z.shiftr (Z.shiftr (e * 2 ^ (13 + i)) (page_shift + i) + 7) 3) ->
  e * 2 ^ (13 + i) <= 2 ^ 31 -> forall p, 0 <= p -> p < e * 2 ^ (1 + i) -> 4 * pair_word i p + 4 <= size.
Proof.
  intros He Hi -> Hend p Hp Hpe. pose proof (pow2_pos (12 + i) ltac:(lia)) as H12. pose proof (pow2_pos (1 + i) ltac:(lia)).
  assert (2 ^ (13 + i) = 2 * 2 ^ (12 + i)) as E by (replace (13 + i) with (1 + (12 + i)) by lia; by rewrite Z.pow_add_r by lia).
  rewrite E in *. unfold pair_word. rewrite !Z.shiftr_div_pow2 by (unfold page_shift; lia).
  replace (2 ^ (page_shift + i)) with (2 ^ (12 + i)) by done.
  replace (e * (2 * 2 ^ (12 + i))) with (2 * e * 2 ^ (12 + i)) in * by lia. rewrite Z.div_mul by lia.
  assert (p / 2 ^ (1 + i) < e) as Hj by (apply Z.div_lt_upper_bound; lia).
  assert (0 <= p / 2 ^ (1 + i)) by (apply Z.div_pos; lia). set (j := p / 2 ^ (1 + i)) in *.
  assert (2 ^ 12 <= 2 ^ (12 + i)) by (apply Z.pow_le_mono_r; lia).
  assert (e <= 2 ^ 19) by nia. change (2 ^ 3) with 8. change (2 ^ 5) with 32.
  unfold LONG_ALIGN. rewrite u32_id by (Z.div_mod_to_equations; lia).
  change (u32 (Z.lnot 3)) with (2 ^ 32 - 2 ^ 2). rewrite land_mask by (try lia; Z.div_mod_to_equations; lia).
  change (2 ^ 2) with 4. Z.div_mod_to_equations. lia.
Qed.

Lemma place_maps_ok n i end_mem start_mem :
  0 <= end_mem <= 2 ^ 31 -> 0 <= i -> i + Z.of_nat n <= NR_MEM_LISTS ->
  forall k a size, (place_maps n i (2 ^ 32 - 2 ^ (12 + i)) end_mem start_mem).1 !! k = Some (a, size) ->
  forall p, 0 <= p -> p < end_mem / 4096 -> 4 * pair_word (i + Z.of_nat k) p + 4 <= size.
Proof.
  unfold NR_MEM_LISTS. revert i end_mem start_mem. induction n as [|n IH]; intros i end_mem start_mem He Hi Hn k a size; [done|].
  cbn [place_maps].
  assert (0 < 2 ^ (13 + i) <= 2 ^ 18) as Hpow by (split; [apply pow2_pos; lia|apply Z.pow_le_mono_r; lia]).
  assert (u32 (2 ^ 32 - 2 ^ (12 + i) + (2 ^ 32 - 2 ^ (12 + i))) = 2 ^ 32 - 2 ^ (13 + i)) as ->.
  { unfold u32. replace (13 + i) with (1 + (12 + i)) in * by lia. rewrite (Z.pow_add_r 2 1) in * by lia.
    change (2 ^ 1) with 2 in *. rewrite <-(Z_mod_plus_full _ (-1)). rewrite Z.mod_small; lia. }
  assert (u32 (Z.lnot (2 ^ 32 - 2 ^ (13 + i))) = 2 ^ (13 + i) - 1) as ->.
  { unfold u32. rewrite Z.lnot_eq_pred_opp, <-(Z_mod_plus_full _ 1). rewrite Z.mod_small; lia. }
  rewrite u32_id, land_mask by lia. set (e := (end_mem + (2 ^ (13 + i) - 1)) / 2 ^ (13 + i)).
  assert (0 <= e) by (apply Z.div_pos; lia).
  assert (end_mem <= e * 2 ^ (13 + i)) as Hup by (unfold e; Z.div_mod_to_equations; nia).
  assert (e * 2 ^ (13 + i) <= 2 ^ 31) as Hlim.
  { assert (2 ^ 31 = 2 ^ (18 - i) * 2 ^ (13 + i)) as E by (rewrite <-Z.pow_add_r by lia; f_equal; lia).
    assert (e <= 2 ^ (18 - i)); [|nia]. apply Z.lt_succ_r, Z.div_lt_upper_bound; lia. }
  destruct (place_maps n _ _ _ _) as [maps last] eqn:Em. intros Hk p Hp Hpe.
  assert (p < e * 2 ^ (13 + i) / 4096) as Hpe' by (pose proof (Z.div_le_mono _ _ 4096 ltac:(lia) Hup); lia).
  destruct k as [|k]; cbn in Hk.
  - injection Hk as <- <-. rewrite Z.add_0_r. eapply (map_size_ok e); [done|lia|done|done|done|].
    replace (13 + i) with (1 + i + 12) in Hpe' by lia. rewrite Z.pow_add_r, Z.mul_assoc in Hpe' by lia.
    change (2 ^ 12) with 4096 in Hpe'. by rewrite Z.div_mul in Hpe' by lia.
  - replace (i + Z.of_nat (S k)) with (i + 1 + Z.of_nat k) by lia.
    replace (13 + i) with (12 + (i + 1)) in * by lia.
    eapply (IH (i + 1) (e * 2 ^ (12 + (i + 1)))); [lia|lia|lia| |done|exact Hpe']. by rewrite Em.
Qed.

(** The bitmaps that [free_area_init] lays out are large enough: the word
    that holds the bit of a page's pair lies within the bitmap of the order, for
    every page and every order, so that [change_bit] and [test_and_change_bit]
    stay inside. *)
Theorem bitmaps_fit clear sizeof_page start_mem end_mem :
  0 <= end_mem <= 2 ^ 31 ->
  let '(_, _, maps, _) := free_area_init clear sizeof_page start_mem end_mem in
  length maps = Z.to_nat NR_MEM_LISTS /\
  forall o a size p, maps !! o = Some (a, size) -> 0 <= p < Z.shiftr end_mem page_shift ->
    4 * pair_word (Z.of_nat o) p + 4 <= size.
Proof.
  intros He. unfold free_area_init. destruct (place_maps _ _ _ _ _) as [maps last] eqn:Em. split.
  - assert (forall n i m e s, length (place_maps n i m e s).1 = n) as Hl.
    { induction n as [|n IH]; intros i m e s; [done|]. cbn [place_maps]. destruct (place_maps n _ _ _ _) as [l ?] eqn:E.
      cbn. f_equal. erewrite <-IH. by rewrite E. }
    erewrite <-(Hl (Z.to_nat NR_MEM_LISTS)). by rewrite Em.
  - intros o a size p Ho Hp. rewrite Z.shiftr_div_pow2 in Hp by done.
    apply (place_maps_ok (Z.to_nat NR_MEM_LISTS) 0 end_mem (LONG_ALIGN (u32 (LONG_ALIGN start_mem + sizeof_page * Z.shiftr end_mem page_shift))) He
      ltac:(lia) ltac:(done) o a size); [|lia|apply Hp].
    by change (2 ^ 32 - 2 ^ (12 + 0)) with PAGE_MASK; rewrite Em.
Qed.

End invariant.

End allocator.

(** ** A zone of 64 pages with one free block *)

Definition fresh_zone : zone :=
  let z := (free_area_init (B := words) (fun _ => 0) 40 4096 262144).1.1.1 in
  Zone (queue z) (map z) (nr_free_pages z) (count z) (fun _ => Z.shiftl 1 PG_DMA).

Definition demo_zone : zone := free_pages_ok fresh_zone 8 3.

Definition reclaim_nothing (gfp_mask : Z) (z : zone (B := words)) : Z * zone := (0, z).

Lemma fresh_zone_ok : zone_ok 64 fresh_zone.
Proof.
  destruct (free_area_init_ok 64 (fun _ => 0) 40 4096 262144) as [[] ?]; [intros i; apply Z.testbit_0_l|]. by split.
Qed.

Lemma fresh_zone_held o m : 0 <= o < NR_MEM_LISTS -> 0 <= m -> m * 2 ^ o + 2 ^ o <= 64 -> held 64 fresh_zone o m.
Proof. intros. split_and!; [lia..|]. intros p _ (o' & i & []%not_elem_of_nil & _). Qed.

Lemma demo_zone_ok : zone_ok 64 demo_zone.
Proof.
  apply (free_pages_ok_ok 64); [done|apply fresh_zone_ok|done|]. by apply fresh_zone_held.
Qed.

Lemma get_free_pages_correct_witness :
  let r := __get_free_pages reclaim_nothing true (Watermarks 10 20 30 false) demo_zone 0 0 in
  r.1.1.1 = 15 * 4096 /\ zone_ok 64 r.1.1.2.
Proof.
  intros r. split; [reflexivity|].
  pose proof (get_free_pages_correct 64 ltac:(done) reclaim_nothing true (Watermarks 10 20 30 false) demo_zone 0 0
    (fun g z H => H) demo_zone_ok ltac:(done)) as H.
  cbv zeta in H. fold r in H. destruct r as [[[addr z'] w'] y]. exact (proj1 H).
Defined.

(** The lower half of a block whose upper half is free: the two are one block of
    the next order. *)
Lemma free_pages_correct_witness :
  let z := set_page_count demo_zone 0 1 in
  put_result 64 z 0 3 (free_pages 64 z 0 3) /\ exists z', free_pages 64 z 0 3 = Some z' /\ queue z' 4 = [0].
Proof.
  intros z. split; [|by eexists].
  assert (zone_ok 64 z) as Hz by (destruct demo_zone_ok as [[] ?]; by split).
  pose proof (free_pages_correct 64 ltac:(done) z 0 3 Hz) as [H _].
  change (Z.shiftr 0 page_shift) with 0 in H. destruct H as [H _]; [done| |split; reflexivity || discriminate|exact H].
  - split_and!; [done..|]. intros p [Hp1 Hp2] (o & i & Hi & Hp3).
    destruct (free_pages_ok_ok 64 ltac:(done) fresh_zone 8 3 fresh_zone_ok ltac:(done)) as (_ & Hf & _).
    { by apply fresh_zone_held. }
    destruct (proj1 (Hf p)) as [(? & ? & []%not_elem_of_nil & _)|[Hp4 _]]; [by exists o, i|].
    change (8 `div` 2 ^ 3 * 2 ^ 3) with 8 in Hp4. change (0 `div` 2 ^ 3 * 2 ^ 3 + 2 ^ 3) with 8 in Hp2. lia.
Defined.

Lemma alloc_free_roundtrip_witness :
  exists p z' z'', RMQUEUE 5 demo_zone 0 1 1 = Some (p, z') /\ free_pages 64 z' (Z.shiftl p page_shift) 1 = Some z'' /\
    nr_free_pages z'' = 8 /\ (forall o, queue z'' o ≡ₚ queue demo_zone o).
Proof.
  destruct (RMQUEUE 5 demo_zone 0 1 1) as [[p z']|] eqn:E; [|discriminate E].
  destruct (alloc_free_roundtrip 64 ltac:(done) demo_zone 0 1 p z' demo_zone_ok ltac:(done) E) as (z'' & H1 & _ & H2 & H3).
  1,2: injection E as <- _; reflexivity.
  exists p, z', z''. split_and!; done.
Defined.

Lemma bitmaps_fit_witness :
  let '(_, _, maps, _) := free_area_init (B := words) (fun _ => 0) 40 4096 262144 in
  length maps = 6%nat /\ Forall (fun e => 4 <= snd e) maps.
Proof.
  pose proof (bitmaps_fit (B := words) (fun _ => 0) 40 4096 262144 ltac:(done)) as [H1 H2].
  split; [exact H1|]. apply Forall_lookup. intros o [a size] Ho. cbn.
  pose proof (H2 o a size 0 Ho ltac:(done)) as H. unfold pair_word in H. rewrite !Z.shiftr_0_l in H. exact H.
Defined.
