(* ===== verification/Vsprintf.v ===== *)
(** * lib/vsprintf.c: formatting and reading numbers

    A string is the list of its bytes, without the NUL; what lies behind a
    pointer into it is a suffix.  What a call writes to the buffer is the list of
    the bytes in order, so that [str - buf] is a length.  An int, a long and a
    pointer have 32 bits. *)

From Stdlib Require Import String Ascii.
From S2P Require Import Prelude KString.
Import Ctype.

(** ** Reading *)

(** The byte that a pointer points to. *)
Definition peek (cp : list Z) : Z := hd 0 cp.

Definition digit_value (c : Z) : Z :=
  if isdigit c then c - 48 else (if islower c then toupper c else c) - 65 + 10.

Fixpoint strtoul_loop (cp : list Z) (base result : Z) : Z * list Z :=
  match cp with
  | [] => (result, [])
  | c :: rest =>
    if isxdigit c && (digit_value c <? base)
    then strtoul_loop rest base (u32 (result * base + digit_value c))
    else (result, cp)
  end.

(** The value and [*endp]. *)
Definition simple_strtoul (cp : list Z) (base : Z) : Z * list Z :=
  let '(cp, base) :=
    if base =? 0 then
      if peek cp =? 48 then
        let cp := tl cp in
        if (peek cp =? 120) && isxdigit (nth 1 cp 0) then (tl cp, 16) else (cp, 8)
      else (cp, 10)
    else (cp, base) in
  strtoul_loop cp base 0.

Definition simple_strtol (cp : list Z) (base : Z) : Z * list Z :=
  if peek cp =? 45
  then let '(r, endp) := simple_strtoul (tl cp) base in (s32 (- r), endp)
  else let '(r, endp) := simple_strtoul cp base in (s32 r, endp).

Definition is_digit (c : Z) : bool := (48 <=? c) && (c <=? 57).

Fixpoint skip_atoi_loop (s : list Z) (i : Z) : Z * list Z :=
  match s with
  | [] => (i, [])
  | c :: rest => if is_digit c then skip_atoi_loop rest (s32 (i * 10 + c - 48)) else (i, s)
  end.

Definition skip_atoi (s : list Z) : Z * list Z := skip_atoi_loop s 0.

(** ** Writing *)

Definition ZEROPAD : Z := 1.
Definition SIGN : Z := 2.
Definition PLUS : Z := 4.
Definition SPACE : Z := 8.
Definition LEFT : Z := 16.
Definition SPECIAL : Z := 32.
Definition LARGE : Z := 64.

Definition has (type flag : Z) : bool := negb (Z.land type flag =? 0).

(** "0123456789abcdefghijklmnopqrstuvwxyz", or the capitals *)
Definition digit_char (large : bool) (d : Z) : Z :=
  if d <? 10 then 48 + d else (if large then 65 else 97) + (d - 10).

(** [while (num != 0) tmp[i++] = digits[do_div(num,base)]]: a number of 32 bits
    has at most 32 digits. *)
Fixpoint digit_loop (fuel : nat) (large : bool) (num base : Z) : list Z :=
  match fuel with
  | O => []
  | S fuel =>
    if num =? 0 then [] else digit_char large (num mod base) :: digit_loop fuel large (num / base) base
  end.

(** [while (size-- > 0) *str++ = c]: what is written and [size] afterwards *)
Definition pad_loop (size c : Z) : list Z * Z :=
  (replicate (Z.to_nat size) c, if 0 <? size then -1 else s32 (size - 1)).

(** What is written; [None] is the null pointer that an odd base gives. *)
Definition number (num base size precision type : Z) : option (list Z) :=
  let large := has type LARGE in
  let type := if has type LEFT then Z.land type (Z.lnot ZEROPAD) else type in
  if (base <? 2) || (36 <? base) then None else
  let c := if has type ZEROPAD then 48 else 32 in
  let '(sign, num, size) :=
    if has type SIGN then
      if num <? 0 then ([45], s32 (- num), s32 (size - 1))
      else if has type PLUS then ([43], num, s32 (size - 1))
      else if has type SPACE then ([32], num, s32 (size - 1))
      else ([], num, size)
    else ([], num, size) in
  let size :=
    if has type SPECIAL then
      if base =? 16 then s32 (size - 2) else if base =? 8 then s32 (size - 1) else size
    else size in
  let tmp := if num =? 0 then [48] else digit_loop 32 large (u32 num) base in
  let i := Z.of_nat (length tmp) in
  let precision := if precision <? i then i else precision in
  let size := s32 (size - precision) in
  let '(lpad, size) := if negb (has type (ZEROPAD + LEFT)) then pad_loop size 32 else ([], size) in
  let prefix :=
    if has type SPECIAL then
      if base =? 8 then [48] else if base =? 16 then [48; digit_char large 33] else []
    else [] in
  let '(cpad, size) := if negb (has type LEFT) then pad_loop size c else ([], size) in
  let zeros := replicate (Z.to_nat (precision - i)) 48 in
  let '(rpad, size) := pad_loop size 32 in
  Some (lpad ++ sign ++ prefix ++ cpad ++ zeros ++ rev tmp ++ rpad).

(** ** Formats *)

(** A variable argument: a number or an address, or a string ([None] is NULL). *)
Inductive va := VNum (n : Z) | VStr (s : option (list Z)).

Fixpoint parse_flags (fmt : list Z) (flags : Z) : Z * list Z :=
  match fmt with
  | 45 :: fmt => parse_flags fmt (Z.lor flags LEFT)
  | 43 :: fmt => parse_flags fmt (Z.lor flags PLUS)
  | 32 :: fmt => parse_flags fmt (Z.lor flags SPACE)
  | 35 :: fmt => parse_flags fmt (Z.lor flags SPECIAL)
  | 48 :: fmt => parse_flags fmt (Z.lor flags ZEROPAD)
  | _ => (flags, fmt)
  end.

(** [va_arg]: it is undefined when no argument, or one of another kind, is left. *)
Definition va_num (args : list va) : option (Z * list va) :=
  match args with VNum n :: args => Some (n, args) | _ => None end.

Definition va_str (args : list va) : option (option (list Z) * list va) :=
  match args with VStr s :: args => Some (s, args) | _ => None end.

Definition parse_width (fmt : list Z) (args : list va) (flags : Z) : option (Z * Z * list Z * list va) :=
  if is_digit (peek fmt) then let '(w, fmt) := skip_atoi fmt in Some (w, flags, fmt, args)
  else if peek fmt =? 42 then
    '(n, args) ← va_num args;
    let w := s32 n in
    if w <? 0 then Some (s32 (- w), Z.lor flags LEFT, tl fmt, args) else Some (w, flags, tl fmt, args)
  else Some (-1, flags, fmt, args).

Definition parse_precision (fmt : list Z) (args : list va) : option (Z * list Z * list va) :=
  if peek fmt =? 46 then
    let fmt := tl fmt in
    '(p, fmt, args) ←
      (if is_digit (peek fmt) then let '(p, fmt) := skip_atoi fmt in Some (p, fmt, args)
       else if peek fmt =? 42 then '(n, args) ← va_num args; Some (s32 n, tl fmt, args)
       else Some (-1, fmt, args));
    Some (if p <? 0 then 0 else p, fmt, args)
  else Some (-1, fmt, args).

Definition parse_qualifier (fmt : list Z) : Z * list Z :=
  if (peek fmt =? 104) || (peek fmt =? 108) || (peek fmt =? 76) then (peek fmt, tl fmt) else (-1, fmt).

(** What a conversion writes, what it stores through pointers, and what is left
    of the format and of the arguments. *)
Record step := Step { written : list Z; stored : list (Z * Z); rest_fmt : list Z; rest_args : list va }.

Definition null_str : list Z := [60; 78; 85; 76; 76; 62].

Definition convert_char (flags w n : Z) : list Z :=
  let pad := replicate (Z.to_nat (w - 1)) 32 in
  if has flags LEFT then u8 n :: pad else pad ++ [u8 n].

Definition convert_str (flags w precision : Z) (s : option (list Z)) : list Z :=
  let s := match s with Some s => s | None => null_str end in
  let s := if precision <? 0 then s else firstn (Z.to_nat precision) s in
  let pad := replicate (Z.to_nat (w - Z.of_nat (length s))) 32 in
  if has flags LEFT then s ++ pad else pad ++ s.

(** The argument of an integer conversion. *)
Definition int_arg (qualifier flags n : Z) : Z :=
  if qualifier =? 108 then u32 n
  else if qualifier =? 104 then
    let num := u16 n in if has flags SIGN then u32 (s16 num) else num
  else if has flags SIGN then u32 (s32 n) else u32 n.

Definition convert_int (fmt : list Z) (args : list va) (base qualifier flags w precision : Z) : option step :=
  '(n, args) ← va_num args;
  s ← number (s32 (int_arg qualifier flags n)) base w precision flags;
  Some (Step s [] fmt args).

(** The conversion that starts behind a '%', with [len] bytes written before it. *)
Definition convert (len : Z) (fmt : list Z) (args : list va) : option step :=
  let '(flags, fmt) := parse_flags fmt 0 in
  '(w, flags, fmt, args) ← parse_width fmt args flags;
  '(precision, fmt, args) ← parse_precision fmt args;
  let '(qualifier, fmt) := parse_qualifier fmt in
  let c := peek fmt in
  let fmt' := tl fmt in
  if c =? 99 then '(n, args) ← va_num args; Some (Step (convert_char flags w n) [] fmt' args)
  else if c =? 115 then '(s, args) ← va_str args; Some (Step (convert_str flags w precision s) [] fmt' args)
  else if c =? 112 then
    '(n, args) ← va_num args;
    let '(w, flags) := if w =? -1 then (8, Z.lor flags ZEROPAD) else (w, flags) in
    s ← number (s32 (u32 n)) 16 w precision flags;
    Some (Step s [] fmt' args)
  else if c =? 110 then '(p, args) ← va_num args; Some (Step [] [(p, s32 len)] fmt' args)
  else if c =? 111 then convert_int fmt' args 8 qualifier flags w precision
  else if c =? 88 then convert_int fmt' args 16 qualifier (Z.lor flags LARGE) w precision
  else if c =? 120 then convert_int fmt' args 16 qualifier flags w precision
  else if (c =? 100) || (c =? 105) then convert_int fmt' args 10 qualifier (Z.lor flags SIGN) w precision
  else if c =? 117 then convert_int fmt' args 10 qualifier flags w precision
  else Some (Step ((if c =? 37 then [] else [37]) ++ (if c =? 0 then [] else [c])) [] fmt' args).

(** Each turn of the loop uses up a byte of the format. *)
Fixpoint vsprintf_loop (fuel : nat) (len : Z) (fmt : list Z) (args : list va) : option (list Z * list (Z * Z)) :=
  match fuel, fmt with
  | _, [] => Some ([], [])
  | O, _ => None
  | S fuel, c :: fmt =>
    s ← (if c =? 37 then convert len fmt args else Some (Step [c] [] fmt args));
    '(out, stores) ← vsprintf_loop fuel (len + Z.of_nat (length (written s))) (rest_fmt s) (rest_args s);
    Some (written s ++ out, stored s ++ stores)
  end.

(** The bytes written before the final NUL, whose number is the result, and the
    stores through the pointers of %n. *)
Definition vsprintf (fmt : list Z) (args : list va) : option (list Z * list (Z * Z)) :=
  vsprintf_loop (length fmt) 0 fmt args.

Definition sprintf (fmt : list Z) (args : list va) : option (list Z * list (Z * Z)) := vsprintf fmt args.

(** ** Digits *)

Definition str_of (s : string) : list Z := List.map (fun c => Z.of_N (Ascii.N_of_ascii c)) (list_ascii_of_string s).

Example sprintf_sample :
  sprintf (str_of "<%-4d|%+05i|%#x|%.3u|%5.2s|%c%%") [VNum 42; VNum 7; VNum 255; VNum 9; VStr (Some (str_of "abc")); VNum 33]
  = Some (str_of "<42  |+0007|0xff|009|   ab|!%", []).
Proof. reflexivity. Qed.

(** The digits of a number, the least significant first. *)
Fixpoint digit_nums (fuel : nat) (num base : Z) : list Z :=
  match fuel with
  | O => []
  | S fuel => if num =? 0 then [] else num mod base :: digit_nums fuel (num / base) base
  end.

Fixpoint value (base : Z) (ds : list Z) : Z :=
  match ds with [] => 0 | d :: ds => d + base * value base ds end.

Lemma digit_loop_nums fuel large num base :
  digit_loop fuel large num base = List.map (digit_char large) (digit_nums fuel num base).
Proof. revert num. induction fuel as [|n IH]; intros num; [done|]. cbn. destruct (num =? 0); [done|]. cbn. by rewrite IH. Qed.

Lemma digit_nums_spec fuel num base :
  2 <= base -> 0 <= num < base ^ Z.of_nat fuel ->
  value base (digit_nums fuel num base) = num /\ Forall (fun d => 0 <= d < base) (digit_nums fuel num base).
Proof.
  intros Hb. revert num. induction fuel as [|n IH]; intros num Hn; [cbn in *; split; [lia|done]|].
  cbn [digit_nums]. destruct (Z.eqb_spec num 0) as [->|]; [done|].
  rewrite Nat2Z.inj_succ, Z.pow_succ_r in Hn by lia.
  destruct (IH (num / base)) as [H1 H2].
  { split; [apply Z.div_pos; lia|apply Z.div_lt_upper_bound; lia]. }
  cbn [value]. rewrite H1. split.
  - pose proof (Z.div_mod num base ltac:(lia)). lia.
  - constructor; [apply Z.mod_pos_bound; lia|done].
Qed.

Lemma digit_nums_nil fuel num base : fuel <> O -> digit_nums fuel num base = [] -> num = 0.
Proof. destruct fuel; [done|]. cbn. destruct (Z.eqb_spec num 0); done. Qed.

Lemma word_digits num base : 2 <= base -> 0 <= num < 2 ^ 32 -> 0 <= num < base ^ Z.of_nat 32.
Proof. intros Hb Hn. pose proof (Z.pow_le_mono_l 2 base (Z.of_nat 32)). change (Z.of_nat 32) with 32 in *. lia. Qed.

Lemma digit_char_spec large d :
  0 <= d < 16 -> isxdigit (digit_char large d) = true /\ digit_value (digit_char large d) = d.
Proof.
  intros Hd. assert (exists n, (n < 16)%nat /\ d = Z.of_nat n) as (n & Hn & ->) by (exists (Z.to_nat d); lia).
  destruct large; do 16 (destruct n as [|n]; [by vm_compute|]); lia.
Qed.

(** ** Reading digits back *)

Definition horner (base : Z) (ds : list Z) (r : Z) : Z := fold_left (fun r d => r * base + d) ds r.

Lemma horner_rev base ds : horner base (rev ds) 0 = value base ds.
Proof.
  unfold horner. rewrite <-fold_left_rev_right, rev_involutive. induction ds as [|d ds IH]; [done|]. cbn. rewrite IH. lia.
Qed.

Lemma strtoul_loop_digits large base ds rest r :
  base <= 16 -> Forall (fun d => 0 <= d < base) ds ->
  strtoul_loop (List.map (digit_char large) ds ++ rest) base (u32 r) = strtoul_loop rest base (u32 (horner base ds r)).
Proof.
  intros Hb. revert r. induction ds as [|d ds IH]; intros r Hds; [done|]. inversion_clear Hds as [|? ? Hd Hds'].
  destruct (digit_char_spec large d ltac:(lia)) as [H1 H2]. cbn [List.map app strtoul_loop]. rewrite H1, H2.
  replace (d <? base) with true by lia. cbn [andb].
  replace (u32 (u32 r * base + d)) with (u32 (r * base + d)).
  2: { unfold u32. by rewrite <-Zplus_mod_idemp_l, <-Zmult_mod_idemp_l, Zplus_mod_idemp_l. }
  by rewrite IH.
Qed.

(** Nothing of [rest] is read as a digit. *)
Definition stops (base : Z) (rest : list Z) : Prop :=
  isxdigit (peek rest) && (digit_value (peek rest) <? base) = false.

Lemma strtoul_loop_stops base rest r : stops base rest -> strtoul_loop rest base r = (r, rest).
Proof. unfold stops. destruct rest as [|c rest]; [done|]. cbn. by intros ->. Qed.

(** The digits that [number] writes. *)
Definition number_digits (large : bool) (num base : Z) : list Z :=
  if num =? 0 then [48] else digit_loop 32 large num base.

Lemma strtoul_number_digits large num base rest :
  2 <= base <= 16 -> 0 <= num < 2 ^ 32 -> stops base rest ->
  strtoul_loop (rev (number_digits large num base) ++ rest) base 0 = (num, rest).
Proof.
  intros Hb Hn Hrest. unfold number_digits. change 0 with (u32 0) at 2. destruct (Z.eqb_spec num 0) as [->|].
  - change (rev [48]) with (List.map (digit_char large) [0]). rewrite strtoul_loop_digits; [|lia|repeat constructor; lia].
    by rewrite strtoul_loop_stops.
  - rewrite digit_loop_nums, <-map_rev. destruct (digit_nums_spec 32 num base) as [H1 H2]; [lia|by apply word_digits; lia|].
    rewrite strtoul_loop_digits by (try lia; by apply Forall_rev). rewrite horner_rev, H1, u32_id by lia.
    by rewrite strtoul_loop_stops.
Qed.

(** ** The layout of a number *)

Lemma has_bit type k : 0 <= k -> has type (2 ^ k) = Z.testbit type k.
Proof.
  intros Hk. unfold has. rewrite Z.testbit_odd, Z.shiftr_div_pow2 by done.
  assert (Z.land type (2 ^ k) = Z.b2z (Z.testbit type k) * 2 ^ k) as ->.
  { apply Z.bits_inj'. intros i Hi. rewrite Z.land_spec, Z.pow2_bits_eqb by done.
    destruct (Z.eqb_spec k i) as [->|Hne].
    - rewrite andb_true_r. destruct (Z.testbit type i) eqn:E; [by rewrite Z.mul_1_l, Z.pow2_bits_true by done|by rewrite Z.testbit_0_l].
    - rewrite andb_false_r. destruct (Z.testbit type k); [|by rewrite Z.testbit_0_l].
      cbn [Z.b2z]. by rewrite Z.mul_1_l, Z.pow2_bits_false. }
  rewrite <-Z.shiftr_div_pow2, <-Z.testbit_odd by done. pose proof (Z.pow_pos_nonneg 2 k).
  destruct (Z.testbit type k); cbn [Z.b2z]; lia.
Qed.

Lemma has_clear type k : 0 <= k -> has (Z.land type (Z.lnot ZEROPAD)) (2 ^ k) = negb (k =? 0) && has type (2 ^ k).
Proof.
  intros Hk. rewrite !has_bit by done. rewrite Z.land_spec, Z.lnot_spec by done. unfold ZEROPAD.
  change 1 with (2 ^ 0). rewrite Z.pow2_bits_eqb by done. rewrite (Z.eqb_sym 0). apply andb_comm.
Qed.

Lemma has_pad type : has type (ZEROPAD + LEFT) = has type ZEROPAD || has type LEFT.
Proof.
  unfold has. change (ZEROPAD + LEFT) with (Z.lor ZEROPAD LEFT). rewrite Z.land_lor_distr_r.
  pose proof (Z.lor_eq_0_iff (Z.land type ZEROPAD) (Z.land type LEFT)).
  destruct (Z.eqb_spec (Z.lor (Z.land type ZEROPAD) (Z.land type LEFT)) 0), (Z.eqb_spec (Z.land type ZEROPAD) 0),
    (Z.eqb_spec (Z.land type LEFT) 0); tauto.
Qed.

(** The sign and the prefix. *)
Definition sign_part (num type : Z) : list Z :=
  if has type SIGN then
    if num <? 0 then [45] else if has type PLUS then [43] else if has type SPACE then [32] else []
  else [].

Definition prefix_part (base type : Z) : list Z :=
  if has type SPECIAL then
    if base =? 8 then [48] else if base =? 16 then [48; digit_char (has type LARGE) 33] else []
  else [].

(** The magnitude: signed numbers lose their sign, others are read as unsigned. *)
Definition magnitude (num type : Z) : Z := if has type SIGN then Z.abs num else u32 num.

(** The reference layout: the digits, filled up to the precision with zeros,
    behind sign and prefix, and the whole filled up to the width: on the right
    with blanks, behind the prefix with zeros, or on the left with blanks. *)
Definition layout (num base size precision type : Z) : list Z :=
  let digits := rev (number_digits (has type LARGE) (magnitude num type) base) in
  let body := replicate (Z.to_nat (precision - Z.of_nat (length digits))) 48 ++ digits in
  let head := sign_part num type ++ prefix_part base type in
  let fill c := replicate (Z.to_nat (size - Z.of_nat (length head + length body))) c in
  if has type LEFT then head ++ body ++ fill 32
  else if has type ZEROPAD then head ++ fill 48 ++ body
  else fill 32 ++ head ++ body.

Lemma layout_length num base size precision type :
  Z.of_nat (length (layout num base size precision type)) =
  Z.max size (Z.of_nat (length (sign_part num type) + length (prefix_part base type)) +
              Z.max precision (Z.of_nat (length (number_digits (has type LARGE) (magnitude num type) base)))).
Proof.
  unfold layout. destruct (has type LEFT); [|destruct (has type ZEROPAD)];
    rewrite ?length_app, ?length_replicate, ?length_rev, ?length_app, ?length_replicate, ?length_rev; lia.
Qed.

(** The flags that [number] works with. *)
Lemma left_flags type k :
  0 < k -> has (if has type LEFT then Z.land type (Z.lnot ZEROPAD) else type) (2 ^ k) = has type (2 ^ k).
Proof. intros Hk. destruct (has type LEFT); [|done]. rewrite has_clear by lia. by replace (k =? 0) with false by lia. Qed.

Lemma left_zeropad type :
  has (if has type LEFT then Z.land type (Z.lnot ZEROPAD) else type) ZEROPAD = negb (has type LEFT) && has type ZEROPAD.
Proof. destruct (has type LEFT); [|done]. exact (has_clear type 0 ltac:(lia)). Qed.

Lemma pad_done size c : - 2 ^ 31 < size <= 0 -> pad_loop size c = ([], size - 1).
Proof.
  intros Hs. unfold pad_loop. replace (Z.to_nat size) with O by lia. replace (0 <? size) with false by lia.
  by rewrite s32_id by lia.
Qed.

Lemma pad_run size c :
  - 2 ^ 31 < size -> exists size', pad_loop size c = (replicate (Z.to_nat size) c, size') /\ size' <= -1 /\ size - 1 <= size' + Z.max 0 size.
Proof.
  intros Hs. unfold pad_loop. destruct (Z.ltb_spec 0 size); [exists (-1)|exists (s32 (size - 1))]; (split; [done|]); [lia|].
  unfold s32. rewrite Z.mod_small by lia. lia.
Qed.

(** What is left of the number and of the width when the sign is known. *)
Definition unsigned_num (num type : Z) : Z := if has type SIGN && (num <? 0) then s32 (- num) else num.

Lemma unsigned_num_eq num type :
  - 2 ^ 31 <= num < 2 ^ 31 ->
  u32 (unsigned_num num type) = magnitude num type /\ (unsigned_num num type =? 0) = (magnitude num type =? 0).
Proof.
  intros Hn. unfold unsigned_num, magnitude. destruct (has type SIGN); cbn [andb].
  - destruct (Z.ltb_spec num 0).
    + unfold u32, s32. Z.div_mod_to_equations. lia.
    + rewrite u32_id by lia. lia.
  - unfold u32. Z.div_mod_to_equations. lia.
Qed.

Lemma sign_eq num size type :
  - 2 ^ 31 < size < 2 ^ 31 ->
  (if has type SIGN then
     if num <? 0 then ([45], s32 (- num), s32 (size - 1))
     else if has type PLUS then ([43], num, s32 (size - 1))
     else if has type SPACE then ([32], num, s32 (size - 1))
     else ([], num, size)
   else ([], num, size))
  = (sign_part num type, unsigned_num num type, size - Z.of_nat (length (sign_part num type))).
Proof.
  intros Hs. unfold sign_part, unsigned_num. rewrite s32_id with (z := size - 1) by lia.
  destruct (has type SIGN); [destruct (num <? 0); [|destruct (has type PLUS); [|destruct (has type SPACE)]]|];
    cbn [andb length]; f_equal; lia.
Qed.

Lemma prefix_eq base size type :
  - 2 ^ 31 + 1 < size < 2 ^ 31 ->
  (if has type SPECIAL then
     if base =? 16 then s32 (size - 2) else if base =? 8 then s32 (size - 1) else size
   else size) = size - Z.of_nat (length (prefix_part base type)).
Proof.
  intros Hs. unfold prefix_part. rewrite !s32_id by lia.
  destruct (has type SPECIAL), (Z.eqb_spec base 16), (Z.eqb_spec base 8); cbn [length]; lia.
Qed.

Lemma sign_part_length num type : (length (sign_part num type) <= 1)%nat.
Proof.
  unfold sign_part. destruct (has type SIGN), (num <? 0), (has type PLUS), (has type SPACE); cbn; lia.
Qed.

Lemma prefix_part_length base type : (length (prefix_part base type) <= 2)%nat.
Proof. unfold prefix_part. destruct (has type SPECIAL), (base =? 8), (base =? 16); cbn; lia. Qed.

Lemma number_digits_length large num base : (1 <= length (number_digits large num base) <= 32)%nat.
Proof.
  unfold number_digits. destruct (Z.eqb_spec num 0); [cbn; lia|]. rewrite digit_loop_nums, length_map.
  assert (forall n m, (length (digit_nums n m base) <= n)%nat) as Hl.
  { intros k. induction k as [|k IH]; intros m; [done|]. cbn. destruct (m =? 0); cbn; [lia|]. specialize (IH (m / base)). lia. }
  specialize (Hl 32%nat num). destruct (digit_nums 32 num base) eqn:E; cbn [length] in *; [|lia].
  by apply digit_nums_nil in E.
Qed.

(** The three ways to fill up to the width. *)
Lemma fill_eq (left zeropad : bool) size (head body : list Z) :
  - 2 ^ 31 + 2 < size < 2 ^ 31 ->
  (let '(lpad, size) := if negb (zeropad || left) then pad_loop size 32 else ([], size) in
   let '(cpad, size) := if negb left then pad_loop size (if zeropad then 48 else 32) else ([], size) in
   let '(rpad, size) := pad_loop size 32 in
   lpad ++ head ++ cpad ++ body ++ rpad)
  = (if left then head ++ body ++ replicate (Z.to_nat size) 32
     else if zeropad then head ++ replicate (Z.to_nat size) 48 ++ body
     else replicate (Z.to_nat size) 32 ++ head ++ body).
Proof.
  intros Hs. destruct left; [rewrite orb_true_r|destruct zeropad]; cbn [negb orb].
  - destruct (pad_run size 32 ltac:(lia)) as (s1 & -> & _). done.
  - destruct (pad_run size 48 ltac:(lia)) as (s1 & -> & ? & ?). rewrite pad_done by lia. by rewrite app_nil_r.
  - destruct (pad_run size 32 ltac:(lia)) as (s1 & -> & ? & ?). rewrite !pad_done by lia. by rewrite app_nil_r.
Qed.

Lemma number_ok num base size precision type :
  2 <= base <= 36 -> - 2 ^ 31 <= num < 2 ^ 31 -> -1 <= size <= 2 ^ 30 -> precision <= 2 ^ 30 ->
  number num base size precision type = Some (layout num base size precision type).
Proof.
  intros Hb Hn Hs Hp. unfold number, layout. replace ((base <? 2) || (36 <? base)) with false by lia.
  set (type' := if has type LEFT then _ else type).
  assert (forall k, 0 < k -> has type' (2 ^ k) = has type (2 ^ k)) as Hk by apply left_flags.
  rewrite (Hk 1 ltac:(lia) : has type' SIGN = has type SIGN), (Hk 2 ltac:(lia) : has type' PLUS = has type PLUS),
    (Hk 3 ltac:(lia) : has type' SPACE = has type SPACE), (Hk 4 ltac:(lia) : has type' LEFT = has type LEFT),
    !(Hk 5 ltac:(lia) : has type' SPECIAL = has type SPECIAL).
  rewrite has_pad, (Hk 4 ltac:(lia) : has type' LEFT = has type LEFT), (left_zeropad type : has type' ZEROPAD = _).
  rewrite sign_eq by lia. pose proof (sign_part_length num type). pose proof (prefix_part_length base type).
  rewrite prefix_eq by lia. destruct (unsigned_num_eq num type Hn) as [-> ->]. fold (prefix_part base type).
  change (if magnitude num type =? 0 then [48] else digit_loop 32 (has type LARGE) (magnitude num type) base)
    with (number_digits (has type LARGE) (magnitude num type) base).
  pose proof (number_digits_length (has type LARGE) (magnitude num type) base).
  set (ds := number_digits _ _ _) in *. set (pr := if precision <? Z.of_nat (length ds) then _ else precision).
  assert (pr = Z.max precision (Z.of_nat (length ds))) as Hpr by (unfold pr; destruct (Z.ltb_spec precision (Z.of_nat (length ds))); lia).
  rewrite s32_id by lia.
  pose proof (fill_eq (has type LEFT) (negb (has type LEFT) && has type ZEROPAD)
    (size - Z.of_nat (length (sign_part num type)) - Z.of_nat (length (prefix_part base type)) - pr)
    (sign_part num type ++ prefix_part base type) (replicate (Z.to_nat (pr - Z.of_nat (length ds))) 48 ++ rev ds) ltac:(lia)) as Hf.
  rewrite !length_app, !length_replicate, !length_rev.
  replace (size - Z.of_nat (length (sign_part num type) + length (prefix_part base type) + (Z.to_nat (precision - Z.of_nat (length ds)) + length ds)))
    with (size - Z.of_nat (length (sign_part num type)) - Z.of_nat (length (prefix_part base type)) - pr) by lia.
  replace (Z.to_nat (precision - Z.of_nat (length ds))) with (Z.to_nat (pr - Z.of_nat (length ds))) by lia.
  destruct (if negb _ then pad_loop _ 32 else _) as [lpad s1]. destruct (if negb (has type LEFT) then _ else _) as [cpad s2].
  destruct (pad_loop s2 32) as [rpad s3]. f_equal. rewrite !app_assoc in *. rewrite Hf.
  destruct (has type LEFT); [done|]. destruct (has type ZEROPAD); done.
Qed.

Lemma digit_nums_last fuel num base :
  2 <= base -> 0 < num < base ^ Z.of_nat fuel -> exists ds d, digit_nums fuel num base = ds ++ [d] /\ d <> 0.
Proof.
  intros Hb. revert num. induction fuel as [|n IH]; intros num Hn; [cbn in *; lia|].
  cbn [digit_nums]. replace (num =? 0) with false by lia. rewrite Nat2Z.inj_succ, Z.pow_succ_r in Hn by lia.
  assert (0 <= num / base) as [Hq|Hq]%Z.lt_eq_cases by (apply Z.div_pos; lia).
  - destruct (IH (num / base)) as (ds & d & -> & Hd); [split; [lia|apply Z.div_lt_upper_bound; lia]|].
    by exists (num mod base :: ds), d.
  - exists [], (num mod base). split; [|pose proof (Z.div_mod num base ltac:(lia)); lia].
    rewrite <-Hq. by destruct n.
Qed.

(** The digits are the number's, without a zero in front. *)
Definition denotes (large : bool) (base n : Z) (s : list Z) : Prop :=
  exists nums, s = List.map (digit_char large) nums /\ Forall (fun d => 0 <= d < base) nums /\ horner base nums 0 = n /\
    (nums = [0] \/ hd 0 nums <> 0).

Lemma number_digits_denote large num base :
  2 <= base -> 0 <= num < 2 ^ 32 -> denotes large base num (rev (number_digits large num base)).
Proof.
  intros Hb Hn. unfold number_digits. destruct (Z.eqb_spec num 0) as [->|].
  { exists [0]. split_and!; [done|repeat constructor; lia|done|by left]. }
  pose proof (word_digits num base Hb Hn) as Hw. destruct (digit_nums_spec 32 num base Hb Hw) as [Hv Hf].
  destruct (digit_nums_last 32 num base Hb) as (ds & d & E & Hd); [lia|].
  exists (rev (digit_nums 32 num base)). rewrite digit_loop_nums, map_rev, horner_rev. split_and!; [done|by apply Forall_rev|done|].
  right. by rewrite E, rev_app_distr.
Qed.

Lemma magnitude_range num type : - 2 ^ 31 <= num < 2 ^ 31 -> 0 <= magnitude num type < 2 ^ 32.
Proof. intros Hn. unfold magnitude. destruct (has type SIGN); [lia|apply u32_range]. Qed.

(** C39: [number] writes the reference layout for every base from 2 to 36, width,
    precision and combination of flags: the digits of the number (its absolute
    value under SIGN, which is right for the smallest number too), none of them a
    leading zero, at most 32 of them, filled up to the precision with zeros,
    behind sign and prefix, and filled up to the width on the side and with the
    character that the flags ask for.  The result is exactly as wide as the
    width, or as sign, prefix and digits if that is more. *)
Theorem number_layout num base size precision type :
  2 <= base <= 36 -> - 2 ^ 31 <= num < 2 ^ 31 -> -1 <= size <= 2 ^ 30 -> precision <= 2 ^ 30 ->
  let digits := number_digits (has type LARGE) (magnitude num type) base in
  let s := layout num base size precision type in
  number num base size precision type = Some s /\
  denotes (has type LARGE) base (magnitude num type) (rev digits) /\ (length digits <= 32)%nat /\
  Z.of_nat (length s) =
    Z.max size (Z.of_nat (length (sign_part num type) + length (prefix_part base type)) +
                Z.max precision (Z.of_nat (length digits))).
Proof.
  intros Hb Hn Hs Hp digits s. split_and!.
  - by apply number_ok.
  - apply number_digits_denote; [lia|by apply magnitude_range].
  - apply number_digits_length.
  - apply layout_length.
Qed.

(** The plain layout of an unsigned number. *)
Lemma number_plain num base type :
  2 <= base <= 36 -> 0 <= num < 2 ^ 32 -> has type SIGN = false -> has type LEFT = false -> has type ZEROPAD = false ->
  number (s32 num) base (-1) (-1) type =
  Some (prefix_part base type ++ rev (number_digits (has type LARGE) num base)).
Proof.
  intros Hb Hn Hsign Hleft Hzero. rewrite number_ok by (try apply s32_range; lia). f_equal. unfold layout.
  assert (magnitude (s32 num) type = num) as ->.
  { unfold magnitude. rewrite Hsign. unfold u32, s32. Z.div_mod_to_equations. lia. }
  rewrite Hleft, Hzero. unfold sign_part. rewrite Hsign. cbn [app length].
  pose proof (number_digits_length (has type LARGE) num base). set (ds := number_digits _ _ _) in *.
  rewrite length_app, length_replicate, length_rev.
  replace (Z.to_nat (-1 - Z.of_nat (length ds))) with O by lia. cbn [replicate app Nat.add length].
  by replace (Z.to_nat _) with O by lia.
Qed.

Lemma number_digits_xdigit large num base rest :
  2 <= base <= 16 -> 0 <= num < 2 ^ 32 -> isxdigit (peek (rev (number_digits large num base) ++ rest)) = true.
Proof.
  intros Hb Hn. destruct (number_digits_denote large num base ltac:(lia) Hn) as (nums & -> & Hf & _ & Hh).
  destruct nums as [|d nums]; [by destruct Hh|]. inversion_clear Hf. cbn. apply digit_char_spec. lia.
Qed.

Lemma strtoul_base cp base : base <> 0 -> simple_strtoul cp base = strtoul_loop cp base 0.
Proof. intros Hb. unfold simple_strtoul. by replace (base =? 0) with false by lia. Qed.

Lemma xdigit_not s c : isxdigit (peek s) = true -> isxdigit c = false -> (peek s =? c) = false.
Proof. intros Hx Hc. apply Z.eqb_neq. intros E. congruence. Qed.

(** The layout of a signed number in base 10. *)
Lemma number_signed num :
  - 2 ^ 31 <= num < 2 ^ 31 ->
  number num 10 (-1) (-1) SIGN = Some ((if num <? 0 then [45] else []) ++ rev (number_digits false (Z.abs num) 10)).
Proof.
  intros Hn. rewrite number_ok by lia. f_equal. unfold layout. change (magnitude num SIGN) with (Z.abs num).
  change (has SIGN LARGE) with false. change (has SIGN LEFT) with false. change (has SIGN ZEROPAD) with false.
  change (sign_part num SIGN) with (if num <? 0 then [45] else []). change (prefix_part 10 SIGN) with (@nil Z). cbv iota.
  pose proof (number_digits_length false (Z.abs num) 10). set (ds := number_digits _ _ _) in *.
  rewrite app_nil_r, length_app, length_replicate, length_rev.
  replace (Z.to_nat (-1 - Z.of_nat (length ds))) with O by lia. cbn [replicate app].
  by replace (Z.to_nat _) with O by lia.
Qed.

(** C40: what [number] writes, [simple_strtoul] and [simple_strtol] read back,
    leaving the text behind it: an unsigned number in any base up to 16, in
    capitals or not, read in that base; one written with the prefix 0x or 0 of
    base 16 or 8, read with the base left open; and a signed number in base 10. *)
Theorem number_read_roundtrip num base type rest :
  0 <= num < 2 ^ 32 -> 2 <= base <= 16 -> stops base rest ->
  (type = 0 \/ type = LARGE ->
   exists s, number (s32 num) base (-1) (-1) type = Some s /\ simple_strtoul (s ++ rest) base = (num, rest)) /\
  (base = 8 \/ base = 16 ->
   exists s, number (s32 num) base (-1) (-1) SPECIAL = Some s /\ simple_strtoul (s ++ rest) 0 = (num, rest)) /\
  (base = 10 ->
   exists s, number (s32 num) 10 (-1) (-1) SIGN = Some s /\ simple_strtol (s ++ rest) 10 = (s32 num, rest)).
Proof.
  intros Hn Hb Hrest. split_and!.
  - intros Ht. exists (rev (number_digits (has type LARGE) num base)). split.
    + rewrite number_plain by (destruct Ht as [-> | ->]; done || lia). destruct Ht as [-> | ->]; done.
    + rewrite strtoul_base by lia. by apply strtoul_number_digits.
  - intros Ht. eexists. split; [apply number_plain; done || lia|]. change (has SPECIAL LARGE) with false.
    pose proof (number_digits_xdigit false num base rest Hb Hn) as Hx.
    pose proof (strtoul_number_digits false num base rest Hb Hn Hrest) as Hl. rewrite <-app_assoc.
    set (s := rev _ ++ rest) in *. unfold simple_strtoul. cbn [Z.eqb]. destruct Ht as [-> | ->].
    + change (prefix_part 8 SPECIAL) with [48]. cbn [app peek hd tl Z.eqb Pos.eqb]. by rewrite xdigit_not.
    + change (prefix_part 16 SPECIAL) with [48; 120]. cbn [app peek hd tl Z.eqb Pos.eqb andb nth].
      replace (nth 0 s 0) with (peek s) by (by destruct s). by rewrite Hx.
  - intros ->. pose proof (s32_range num) as Hr. eexists. split; [by apply number_signed|].
    assert (0 <= Z.abs (s32 num) < 2 ^ 32) as Ha by lia.
    pose proof (number_digits_xdigit false _ 10 rest Hb Ha) as Hx.
    pose proof (strtoul_number_digits false _ 10 rest Hb Ha Hrest) as Hl. rewrite <-app_assoc.
    set (s := rev _ ++ rest) in *. unfold simple_strtol. destruct (Z.ltb_spec (s32 num) 0); cbn [app peek hd tl Z.eqb Pos.eqb].
    + rewrite strtoul_base, Hl by done. f_equal. rewrite s32_id; lia.
    + rewrite xdigit_not by done. rewrite strtoul_base, Hl by done. f_equal. rewrite Z.abs_eq by lia. apply s32_id. lia.
Qed.

(** ** The loop over the format ends *)

Lemma length_tl (l : list Z) : (length (tl l) <= length l)%nat.
Proof. destruct l; cbn; lia. Qed.

Lemma parse_flags_length fmt flags : (length (parse_flags fmt flags).2 <= length fmt)%nat.
Proof.
  revert flags. induction fmt as [|c fmt IH]; intros flags; [done|].
  assert (forall f, (length (parse_flags fmt f).2 <= length (c :: fmt))%nat) as H.
  { intros f. specialize (IH f). cbn. lia. }
  cbn [parse_flags]. repeat case_match; cbn [snd]; try apply H; lia.
Qed.

Lemma skip_atoi_length s i : (length (skip_atoi_loop s i).2 <= length s)%nat.
Proof.
  revert i. induction s as [|c s IH]; intros i; [done|]. cbn [skip_atoi_loop].
  destruct (is_digit c); [|done]. etrans; [apply IH|]. cbn. lia.
Qed.

Lemma parse_width_length fmt args flags w f fmt' args' :
  parse_width fmt args flags = Some (w, f, fmt', args') -> (length fmt' <= length fmt)%nat.
Proof.
  unfold parse_width, skip_atoi. pose proof (skip_atoi_length fmt 0) as Hs. pose proof (length_tl fmt) as Ht.
  destruct (skip_atoi_loop fmt 0). intros H. repeat case_match; simplify_option_eq; repeat case_match; simplify_eq/=; lia.
Qed.

Lemma parse_precision_length fmt args p fmt' args' :
  parse_precision fmt args = Some (p, fmt', args') -> (length fmt' <= length fmt)%nat.
Proof.
  unfold parse_precision, skip_atoi. pose proof (skip_atoi_length (tl fmt) 0) as Hs. pose proof (length_tl fmt) as Ht.
  pose proof (length_tl (tl fmt)) as Htt. destruct (skip_atoi_loop (tl fmt) 0). intros H.
  repeat case_match; simplify_option_eq; repeat case_match; simplify_eq/=; lia.
Qed.

Lemma convert_length len fmt args s : convert len fmt args = Some s -> (length (rest_fmt s) <= length fmt)%nat.
Proof.
  unfold convert. pose proof (parse_flags_length fmt 0) as Hf. destruct (parse_flags fmt 0) as [flags fmt1].
  destruct (parse_width fmt1 args flags) as [[[[w flags2] fmt2] args2]|] eqn:Ew; [|done]. apply parse_width_length in Ew.
  cbn [mbind option_bind]. destruct (parse_precision fmt2 args2) as [[[p fmt3] args3]|] eqn:Ep; [|done].
  apply parse_precision_length in Ep. cbn [mbind option_bind].
  destruct (parse_qualifier fmt3) as [q fmt4] eqn:Eq. pose proof (length_tl fmt3) as H3. pose proof (length_tl fmt4) as H4.
  assert (length fmt4 <= length fmt3)%nat as H34.
  { revert Eq. unfold parse_qualifier. case_match; intros; simplify_eq; lia. }
  cbn [snd] in Hf. intros H. assert (rest_fmt s = tl fmt4) as ->; [|lia].
  unfold convert_int in H. repeat case_match; simplify_option_eq; repeat case_match; simplify_option_eq; done.
Qed.

(** The fuel of [vsprintf] never runs out: with more of it the result is the same. *)
Lemma vsprintf_ends n n' len fmt args :
  (length fmt <= n)%nat -> (length fmt <= n')%nat -> vsprintf_loop n len fmt args = vsprintf_loop n' len fmt args.
Proof.
  revert n' len fmt args. induction n as [|n IH]; intros n' len [|c fmt] args; cbn [length]; [by destruct n'|lia|by destruct n'|].
  destruct n' as [|n']; [lia|]. intros Hn Hn'. cbn [vsprintf_loop].
  destruct (if c =? 37 then convert len fmt args else Some (Step [c] [] fmt args)) as [s|] eqn:Es; [|done].
  cbn [mbind option_bind]. assert (length (rest_fmt s) <= length fmt)%nat as Hs.
  { destruct (c =? 37); [by apply convert_length in Es|]. by injection Es as <-. }
  by rewrite (IH n') by lia.
Qed.

(** Text without a '%' is copied. *)
Lemma vsprintf_text fmt args : Forall (fun c => c <> 37) fmt -> vsprintf fmt args = Some (fmt, []).
Proof.
  unfold vsprintf. generalize 0. induction fmt as [|c fmt IH]; intros len Hf; [done|]. inversion_clear Hf.
  cbn [length vsprintf_loop]. replace (c =? 37) with false by lia. cbn [mbind option_bind written stored rest_fmt rest_args].
  by rewrite IH.
Qed.

Lemma number_layout_witness :
  number (-7) 10 5 3 (SIGN + LEFT) = Some (layout (-7) 10 5 3 (SIGN + LEFT)) /\
  layout (-7) 10 5 3 (SIGN + LEFT) = str_of "-007 ".
Proof. split; [apply number_layout; split || idtac; discriminate || reflexivity|reflexivity]. Defined.

Lemma number_read_roundtrip_witness :
  exists s, number (s32 3735928559) 16 (-1) (-1) SPECIAL = Some s /\ s = str_of "0xdeadbeef" /\
    simple_strtoul (s ++ str_of " end") 0 = (3735928559, str_of " end").
Proof.
  destruct (number_read_roundtrip 3735928559 16 0 (str_of " end")) as (_ & H & _); [split; reflexivity || discriminate..|reflexivity|].
  destruct H as (s & H1 & H2); [by right|]. exists s. split_and!; [done| |done].
  vm_compute in H1. injection H1 as <-. reflexivity.
Defined.
