(* ===== verification/Timer.v ===== *)
(** * kernel/sched.c: the timer wheel

    Five vectors of lists hold the pending timers: the first one slot for each of
    the next 256 ticks, the others 64 slots each of 2^8, 2^14, 2^20 and 2^26
    ticks.  The vectors are numbered 0 to 4 (tv1 to tv5), a timer is the number
    that stands for its address. *)

From stdpp Require Import functions gmap.
From S2P Require Import Prelude.

Definition TVN_BITS : Z := 6.
Definition TVR_BITS : Z := 8.
Definition TVN_SIZE : Z := Z.shiftl 1 TVN_BITS.
Definition TVR_SIZE : Z := Z.shiftl 1 TVR_BITS.
Definition TVN_MASK : Z := TVN_SIZE - 1.
Definition TVR_MASK : Z := TVR_SIZE - 1.
Definition NOOF_TVECS : Z := 5.

(** [pending] tells whether the timer's [prev] is not NULL. *)
Record wheel := Wheel {
  timer_jiffies : Z;
  index : Z -> Z;
  vec : Z -> Z -> list Z;
  expires : Z -> Z;
  pending : Z -> bool
}.

Definition set_vec (w : wheel) (n i : Z) (l : list Z) : wheel :=
  Wheel (timer_jiffies w) (index w) (<[n := <[i := l]> (vec w n)]> (vec w)) (expires w) (pending w).

Definition set_index (w : wheel) (n i : Z) : wheel :=
  Wheel (timer_jiffies w) (<[n := i]> (index w)) (vec w) (expires w) (pending w).

Definition set_pending (w : wheel) (timer : Z) (b : bool) : wheel :=
  Wheel (timer_jiffies w) (index w) (vec w) (expires w) (<[timer := b]> (pending w)).

Definition set_expires (w : wheel) (timer e : Z) : wheel :=
  Wheel (timer_jiffies w) (index w) (vec w) (<[timer := e]> (expires w)) (pending w).

Definition set_jiffies (w : wheel) (t : Z) : wheel :=
  Wheel t (index w) (vec w) (expires w) (pending w).

Definition insert_timer (w : wheel) (timer n idx : Z) : wheel :=
  set_pending (set_vec w n idx (timer :: vec w n idx)) timer true.

Definition internal_add_timer (w : wheel) (timer : Z) : wheel :=
  let e := expires w timer in
  let idx := u32 (e - timer_jiffies w) in
  if idx <? TVR_SIZE then insert_timer w timer 0 (Z.land e TVR_MASK)
  else if idx <? Z.shiftl 1 (TVR_BITS + TVN_BITS)
  then insert_timer w timer 1 (Z.land (Z.shiftr e TVR_BITS) TVN_MASK)
  else if idx <? Z.shiftl 1 (TVR_BITS + 2 * TVN_BITS)
  then insert_timer w timer 2 (Z.land (Z.shiftr e (TVR_BITS + TVN_BITS)) TVN_MASK)
  else if idx <? Z.shiftl 1 (TVR_BITS + 3 * TVN_BITS)
  then insert_timer w timer 3 (Z.land (Z.shiftr e (TVR_BITS + 2 * TVN_BITS)) TVN_MASK)
  else if s32 idx <? 0 then insert_timer w timer 0 (index w 0)
  else insert_timer w timer 4 (Z.land (Z.shiftr e (TVR_BITS + 3 * TVN_BITS)) TVN_MASK).

Definition add_timer (w : wheel) (timer : Z) : wheel := internal_add_timer w timer.

(** The timer leaves the list it is linked in. *)
Definition detach_timer (w : wheel) (timer : Z) : bool * wheel :=
  if pending w timer
  then (true, Wheel (timer_jiffies w) (index w) (fun n i => filter (fun t => t <> timer) (vec w n i)) (expires w) (pending w))
  else (false, w).

Definition mod_timer (w : wheel) (timer e : Z) : wheel :=
  let w := set_expires w timer e in
  let w := (detach_timer w timer).2 in
  internal_add_timer w timer.

Definition del_timer (w : wheel) (timer : Z) : bool * wheel :=
  let '(ret, w) := detach_timer w timer in
  (ret, set_pending w timer false).

Definition cascade_timers (w : wheel) (n : Z) : wheel :=
  let i := index w n in
  let w := fold_left internal_add_timer (vec w n i) w in
  let w := set_vec w n i [] in
  set_index w n (Z.land (i + 1) TVN_MASK).

(** [do cascade_timers(tvecs[n]); while (tvecs[n]->index == 1 && ++n < NOOF_TVECS)]:
    [k] is [NOOF_TVECS - n]. *)
Fixpoint cascade_loop (k : nat) (w : wheel) (n : Z) : wheel :=
  match k with
  | O => w
  | S k =>
    let w := cascade_timers w n in
    if index w n =? 1 then cascade_loop k w (n + 1) else w
  end.

(** What a timer's function does to the timers. *)
Inductive timer_op := Mod (timer e : Z) | Del (timer : Z).

Definition run_op (w : wheel) (op : timer_op) : wheel :=
  match op with Mod t e => mod_timer w t e | Del t => (del_timer w t).2 end.

(** The timers of the current slot: the new wheel and the functions called, each
    with the tick.  [fn t] is what the function of timer [t] does. *)
Fixpoint run_slot (fuel : nat) (fn : Z -> list timer_op) (w : wheel) : option (wheel * list (Z * Z)) :=
  match vec w 0 (index w 0) with
  | [] => Some (w, [])
  | timer :: _ =>
    match fuel with
    | O => None
    | S fuel =>
      let w := (detach_timer w timer).2 in
      let w := set_pending w timer false in
      '(w', log) ← run_slot fuel fn (fold_left run_op (fn timer) w);
      Some (w', (timer, timer_jiffies w) :: log)
    end
  end.

(** One turn of the outer loop. *)
Definition tick (fuel : nat) (fn : Z -> list timer_op) (w : wheel) : option (wheel * list (Z * Z)) :=
  let w := if index w 0 =? 0 then cascade_loop (Z.to_nat (NOOF_TVECS - 1)) w 1 else w in
  '(w, log) ← run_slot fuel fn w;
  let w := set_jiffies w (u32 (timer_jiffies w + 1)) in
  Some (set_index w 0 (Z.land (index w 0 + 1) TVR_MASK), log).

(** [n] bounds the turns, [fuel] the timers of a turn. *)
Fixpoint run_timer_list (n fuel : nat) (fn : Z -> list timer_op) (w : wheel) (jiffies : Z)
  : option (wheel * list (Z * Z)) :=
  if s32 (jiffies - timer_jiffies w) <? 0 then Some (w, []) else
  match n with
  | O => None
  | S n =>
    '(w, log) ← tick fuel fn w;
    '(w, log') ← run_timer_list n fuel fn w jiffies;
    Some (w, log ++ log')
  end.

(** ** The abstract timers

    Time does not wrap around here: [T] is the tick, and [timer_jiffies] is [T]
    modulo 2^32.  A set of pending timers gives each the tick it is due at. *)

(** A timer set for tick [e] (modulo 2^32): one that lies in the past is due now. *)
Definition due (T e : Z) : Z :=
  let idx := u32 (e - T) in if idx <? 2 ^ 31 then T + idx else T.

Definition sh (n : Z) : Z := 8 + 6 * (n - 1).

(** Timer with expiry [e], due at [d], may be in slot [i] of vector [n]; [nx n] is
    the number of the slot of vector [n] that comes down next. *)
Definition slot_ok (T : Z) (nx : Z -> Z) (e n i d : Z) : Prop :=
  0 <= n < 5 /\
  (n = 0 -> T <= d < T + 256 /\ i = d mod 256) /\
  (n <> 0 -> nx n <= d / 2 ^ sh n < nx n + 64 /\ i = (d / 2 ^ sh n) mod 64 /\ e = u32 d).

Record core (v : Z -> Z -> list Z) (T : Z) (nx ex : Z -> Z) (P : gmap Z Z) : Prop := Core {
  c_slot : forall n i t, t ∈ v n i -> exists d, P !! t = Some d /\ slot_ok T nx (ex t) n i d;
  c_all : forall t d, P !! t = Some d -> exists n i, t ∈ v n i;
  c_once : forall n i n' i' t, t ∈ v n i -> t ∈ v n' i' -> n = n' /\ i = i';
  c_nodup : forall n i, NoDup (v n i)
}.

(** Where the vectors stand: before the vectors have come down for tick [T], and after. *)
Definition before (T : Z) (nx : Z -> Z) : Prop :=
  forall n, 1 <= n < 5 -> T <= nx n * 2 ^ sh n < T + 2 ^ sh n.

Definition after (T : Z) (nx : Z -> Z) : Prop :=
  forall n, 1 <= n < 5 -> T < nx n * 2 ^ sh n <= T + 2 ^ sh n.

Definition near (T : Z) (nx : Z -> Z) : Prop :=
  forall n, 1 <= n < 5 -> T <= nx n * 2 ^ sh n <= T + 2 ^ sh n.

Lemma before_near T nx : before T nx -> near T nx.
Proof. intros H n Hn. specialize (H n Hn). lia. Qed.

Lemma after_near T nx : after T nx -> near T nx.
Proof. intros H n Hn. specialize (H n Hn). lia. Qed.

(** The registers of the wheel. *)
Record gears (w : wheel) (T : Z) (nx : Z -> Z) : Prop := Gears {
  g_jiffies : timer_jiffies w = u32 T;
  g_index0 : index w 0 = T mod 256;
  g_index : forall n, 1 <= n < 5 -> index w n = nx n mod 64;
  g_near : near T nx;
  g_expires : forall t, 0 <= expires w t < 2 ^ 32
}.

Record rep (w : wheel) (T : Z) (nx : Z -> Z) (P : gmap Z Z) : Prop := Rep {
  r_gears : gears w T nx;
  r_core : core (vec w) T nx (expires w) P;
  r_pending : forall t, pending w t = bool_decide (is_Some (P !! t))
}.

(** ** Adding a timer *)

Lemma pow_sh n : 1 <= n < 5 -> n = 1 /\ 2 ^ sh n = 2 ^ 8 \/ n = 2 /\ 2 ^ sh n = 2 ^ 14 \/ n = 3 /\ 2 ^ sh n = 2 ^ 20 \/ n = 4 /\ 2 ^ sh n = 2 ^ 26.
Proof. intros Hn. assert (n = 1 \/ n = 2 \/ n = 3 \/ n = 4) as [->|[->|[->| ->]]] by lia; tauto. Qed.

Lemma slot_index e s : 0 <= s -> Z.land (Z.shiftr e s) TVN_MASK = (e / 2 ^ s) mod 64.
Proof. intros Hs. change TVN_MASK with (Z.ones 6). by rewrite Z.land_ones, Z.shiftr_div_pow2 by lia. Qed.

Lemma due_spec T e :
  0 <= e < 2 ^ 32 -> u32 (e - T) < 2 ^ 31 -> e = u32 (due T e) /\ due T e = T + u32 (e - T).
Proof.
  intros He Hi. unfold due. replace (u32 (e - T) <? 2 ^ 31) with true by lia. split; [|done].
  unfold u32. rewrite Zplus_mod_idemp_r. replace (T + (e - T)) with e by lia. by rewrite Z.mod_small.
Qed.

Lemma wrapped_slot d s : 0 <= s <= 26 -> (u32 d / 2 ^ s) mod 64 = (d / 2 ^ s) mod 64.
Proof.
  intros Hs. unfold u32. replace (2 ^ 32) with (2 ^ s * (64 * 2 ^ (26 - s))).
  2: { change 64 with (2 ^ 6). rewrite <-!Z.pow_add_r by lia. f_equal. lia. }
  pose proof (Z.pow_pos_nonneg 2 s). pose proof (Z.pow_pos_nonneg 2 (26 - s)).
  rewrite Z.rem_mul_r, Z.mul_comm, Z.div_add by lia.
  rewrite (Z.div_small (d mod 2 ^ s)) by (apply Z.mod_pos_bound; lia). rewrite Z.add_0_l.
  rewrite Z.rem_mul_r by lia. rewrite Z.mul_comm, Z.mod_add by lia. apply Z.mod_mod. lia.
Qed.

(** The slot is right, and a higher vector takes the timer only if it is far away. *)
Lemma upper_slot T nx e n :
  1 <= n < 5 -> near T nx -> 0 <= e < 2 ^ 32 -> u32 (e - T) < 2 ^ 31 ->
  2 ^ sh n <= u32 (e - T) < 2 ^ (sh n + 6) ->
  slot_ok T nx e n (Z.land (Z.shiftr e (sh n)) TVN_MASK) (due T e).
Proof.
  intros Hn Hnear He Hi Hd. destruct (due_spec T e He Hi) as [Hu Hdue]. split; [lia|]. split; [lia|]. intros _.
  assert (0 <= sh n <= 26) as Hs by (unfold sh; lia). rewrite slot_index by lia. split_and!; [| | |done].
  - specialize (Hnear n Hn). apply Z.div_le_lower_bound; [lia|]. lia.
  - specialize (Hnear n Hn). apply Z.div_lt_upper_bound; [lia|]. rewrite Z.pow_add_r in Hd by lia. lia.
  - rewrite Hu at 1. by apply wrapped_slot.
Qed.

Lemma root_slot T nx e i d x : T <= d < T + 256 -> i = d mod 256 -> slot_ok T nx e 0 i d /\ (0 <> 0 -> x).
Proof. intros Hd Hi. split; [|lia]. split; [lia|]. split; [done|lia]. Qed.

Lemma internal_add_slot w T nx t :
  gears w T nx ->
  exists n i, internal_add_timer w t = insert_timer w t n i /\
    slot_ok T nx (expires w t) n i (due T (expires w t)) /\ (n <> 0 -> 2 ^ sh n <= due T (expires w t) - T).
Proof.
  intros [Hj H0 _ Hnear Hex]. specialize (Hex t). unfold internal_add_timer. set (e := expires w t) in *. rewrite Hj.
  replace (u32 (e - u32 T)) with (u32 (e - T)) by (unfold u32; by rewrite Zminus_mod_idemp_r).
  pose proof (u32_range (e - T)) as Hr.
  assert (forall n, 1 <= n < 5 -> 2 ^ sh n <= u32 (e - T) < 2 ^ (sh n + 6) -> u32 (e - T) < 2 ^ 31 ->
    slot_ok T nx e n (Z.land (Z.shiftr e (sh n)) TVN_MASK) (due T e) /\ (n <> 0 -> 2 ^ sh n <= due T e - T)) as Hup.
  { intros n Hn Hd Hi. split; [by apply upper_slot|]. intros _. destruct (due_spec T e Hex Hi). lia. }
  destruct (Z.ltb_spec (u32 (e - T)) TVR_SIZE) as [E|E].
  { change TVR_SIZE with 256 in E. destruct (due_spec T e Hex ltac:(lia)) as [Hu Hd]. exists 0, (Z.land e TVR_MASK). split; [done|].
    apply root_slot; [lia|]. rewrite Hu at 1. change TVR_MASK with (Z.ones 8). rewrite Z.land_ones by lia. unfold u32.
    change (2 ^ 32) with (2 ^ 8 * 2 ^ 24). by rewrite Z.rem_mul_r, Z.mul_comm, Z.mod_add, Z.mod_mod by lia. }
  change TVR_SIZE with 256 in E.
  destruct (Z.ltb_spec (u32 (e - T)) (Z.shiftl 1 (TVR_BITS + TVN_BITS))) as [E2|E2]; change (Z.shiftl 1 (TVR_BITS + TVN_BITS)) with (2 ^ 14) in E2.
  { eexists 1, _. split; [done|]. apply (Hup 1); change (sh 1) with 8; lia. }
  destruct (Z.ltb_spec (u32 (e - T)) (Z.shiftl 1 (TVR_BITS + 2 * TVN_BITS))) as [E3|E3]; change (Z.shiftl 1 (TVR_BITS + 2 * TVN_BITS)) with (2 ^ 20) in E3.
  { eexists 2, _. split; [done|]. apply (Hup 2); change (sh 2) with 14; lia. }
  destruct (Z.ltb_spec (u32 (e - T)) (Z.shiftl 1 (TVR_BITS + 3 * TVN_BITS))) as [E4|E4]; change (Z.shiftl 1 (TVR_BITS + 3 * TVN_BITS)) with (2 ^ 26) in E4.
  { eexists 3, _. split; [done|]. apply (Hup 3); change (sh 3) with 20; lia. }
  destruct (Z.ltb_spec (s32 (u32 (e - T))) 0) as [E5|E5].
  - exists 0, (index w 0). assert (2 ^ 31 <= u32 (e - T)) by (unfold s32 in E5; revert E5; Z.div_mod_to_equations; lia).
    unfold due. replace (u32 (e - T) <? 2 ^ 31) with false by lia. split; [done|]. apply root_slot; [lia|done].
  - assert (u32 (e - T) < 2 ^ 31) by (unfold s32 in E5; revert E5; Z.div_mod_to_equations; lia).
    eexists 4, _. split; [done|]. apply (Hup 4); change (sh 4) with 26; lia.
Qed.

Lemma core_insert v v' T nx ex P t n i d :
  core v T nx ex P -> P !! t = None -> slot_ok T nx (ex t) n i d ->
  (forall n' i', v' n' i' = if decide (n' = n /\ i' = i) then t :: v n i else v n' i') ->
  core v' T nx ex (<[t := d]> P).
Proof.
  intros [H1 H2 H3 H4] Ht Hok Hv.
  assert (forall n i, t ∉ v n i) as Hnot. { intros n' i' (d' & Hd & _)%H1. congruence. }
  assert (forall n' i' x, x ∈ v' n' i' <-> x ∈ v n' i' \/ (x = t /\ n' = n /\ i' = i)) as Hin.
  { intros n' i' x. rewrite Hv. case_decide as E; [destruct E as [-> ->]; rewrite elem_of_cons|]; naive_solver. }
  split.
  - intros n' i' x [Hx|(-> & -> & ->)]%Hin.
    + destruct (H1 _ _ _ Hx) as (d' & Hd & Hs). exists d'. split; [|done]. rewrite lookup_insert_ne; [done|congruence].
    + exists d. by rewrite lookup_insert_eq.
  - intros x d'. destruct (decide (t = x)) as [<-|Hne].
    + intros _. exists n, i. apply Hin. auto.
    + rewrite lookup_insert_ne by done. intros (n' & i' & Hx)%H2. exists n', i'. apply Hin. auto.
  - intros n1 i1 n2 i2 x [Hx1|(-> & -> & ->)]%Hin [Hx2|(? & -> & ->)]%Hin; try done; [by eapply H3|subst x|]; by destruct (Hnot _ _ Hx1) || by destruct (Hnot _ _ Hx2).
  - intros n' i'. rewrite Hv. case_decide; [|done]. by apply NoDup_cons.
Qed.

Lemma core_remove v v' T nx ex P t :
  core v T nx ex P -> (forall n i, v' n i = filter (fun x => x <> t) (v n i)) -> core v' T nx ex (delete t P).
Proof.
  intros [H1 H2 H3 H4] Hv.
  assert (forall n i x, x ∈ v' n i <-> x <> t /\ x ∈ v n i) as Hin by (intros; by rewrite Hv, list_elem_of_filter).
  split.
  - intros n i x [Hne Hx]%Hin. destruct (H1 _ _ _ Hx) as (d & Hd & Hs). exists d. by rewrite lookup_delete_ne.
  - intros x d [Hne Hx]%lookup_delete_Some. destruct (H2 _ _ Hx) as (n & i & Hi). exists n, i. apply Hin. auto.
  - intros n i n' i' x [_ Hx]%Hin [_ Hx']%Hin. by eapply H3.
  - intros n i. rewrite Hv. by apply NoDup_filter.
Qed.

Lemma core_absent v T nx ex P t n i : core v T nx ex P -> P !! t = None -> t ∉ v n i.
Proof. intros Hc Ht Hi. destruct (c_slot _ _ _ _ _ Hc _ _ _ Hi) as (d & Hd & _). congruence. Qed.

Lemma core_expires v T nx ex P t e : core v T nx ex P -> P !! t = None -> core v T nx (<[t := e]> ex) P.
Proof.
  intros Hc Ht. pose proof Hc as [H1 H2 H3 H4]. split; [|done..]. intros n i x Hx. destruct (H1 _ _ _ Hx) as (d & Hd & Hs).
  exists d. split; [done|]. rewrite fn_lookup_insert_ne; [done|congruence].
Qed.

Lemma insert_vec w t n i n' i' :
  vec (insert_timer w t n i) n' i' = if decide (n' = n /\ i' = i) then t :: vec w n i else vec w n' i'.
Proof.
  cbn. destruct (decide (n' = n)) as [->|Hn].
  - rewrite fn_lookup_insert. destruct (decide (i' = i)) as [->|Hi].
    + rewrite fn_lookup_insert. by rewrite decide_True.
    + rewrite fn_lookup_insert_ne by done. rewrite decide_False by tauto. done.
  - rewrite fn_lookup_insert_ne by done. rewrite decide_False by tauto. done.
Qed.

Lemma pending_insert w T nx P (t : Z) d :
  rep w T nx P -> forall x, (<[t := true]> (pending w)) x = bool_decide (is_Some ((<[t := d]> P) !! x)).
Proof.
  intros Hr x. destruct (decide (t = x)) as [<-|Hne].
  - rewrite fn_lookup_insert, lookup_insert_eq. symmetry. apply bool_decide_true. by eexists.
  - rewrite fn_lookup_insert_ne, lookup_insert_ne by done. apply Hr.
Qed.

Lemma gears_same w w' T nx :
  gears w T nx -> timer_jiffies w' = timer_jiffies w -> index w' = index w -> (forall t, 0 <= expires w' t < 2 ^ 32) ->
  gears w' T nx.
Proof. intros [H1 H2 H3 H4 H5] E1 E2 E3. split; [by rewrite E1|by rewrite E2| |done..]. intros n Hn. rewrite E2. auto. Qed.

Lemma add_timer_rep w T nx P t :
  rep w T nx P -> P !! t = None -> rep (add_timer w t) T nx (<[t := due T (expires w t)]> P).
Proof.
  intros Hr Ht. pose proof Hr as [Hg Hc Hp]. unfold add_timer.
  destruct (internal_add_slot w T nx t Hg) as (n & i & -> & Hok & _). split.
  - apply (gears_same w); [done..|apply Hg].
  - eapply core_insert; [done..|]. intros. apply insert_vec.
  - exact (pending_insert w T nx P t _ Hr).
Qed.

Lemma detach_ok w T nx P t :
  rep w T nx P ->
  let '(ret, w') := detach_timer w t in
  ret = bool_decide (is_Some (P !! t)) /\ core (vec w') T nx (expires w) (delete t P) /\
  timer_jiffies w' = timer_jiffies w /\ index w' = index w /\ expires w' = expires w /\ pending w' = pending w.
Proof.
  intros [Hg Hc Hp]. unfold detach_timer. rewrite Hp. case_bool_decide as E.
  - split_and!; try done. eapply core_remove; [exact Hc|done].
  - split_and!; try done. apply eq_None_not_Some in E. by rewrite delete_id.
Qed.

Lemma pending_delete w T nx P (t : Z) :
  rep w T nx P -> forall x, (<[t := false]> (pending w)) x = bool_decide (is_Some ((delete t P) !! x)).
Proof.
  intros Hr x. destruct (decide (t = x)) as [<-|Hne].
  - rewrite fn_lookup_insert, lookup_delete_eq. symmetry. apply bool_decide_false. by intros [? ?].
  - rewrite fn_lookup_insert_ne, lookup_delete_ne by done. apply Hr.
Qed.

Lemma del_timer_rep w T nx P t :
  rep w T nx P ->
  let '(ret, w') := del_timer w t in ret = bool_decide (is_Some (P !! t)) /\ rep w' T nx (delete t P).
Proof.
  intros Hr. unfold del_timer. pose proof (detach_ok w T nx P t Hr) as Hd. destruct (detach_timer w t) as [ret w'].
  destruct Hd as (H1 & H2 & H3 & H4 & H5 & H6). split; [done|]. split.
  - apply (gears_same w); [apply Hr|done..|]. cbn. rewrite H5. apply Hr.
  - cbn. by rewrite H5.
  - cbn. rewrite H6. exact (pending_delete w T nx P t Hr).
Qed.

Lemma mod_timer_rep w T nx P t e :
  rep w T nx P -> 0 <= e < 2 ^ 32 -> rep (mod_timer w t e) T nx (<[t := due T e]> P).
Proof.
  intros Hr He. unfold mod_timer.
  assert ((detach_timer (set_expires w t e) t).2 = set_expires (detach_timer w t).2 t e) as ->.
  { unfold detach_timer. cbn. by destruct (pending w t). }
  pose proof (detach_ok w T nx P t Hr) as Hd. destruct (detach_timer w t) as [ret w1]. destruct Hd as (_ & H2 & H3 & H4 & H5 & H6).
  set (w2 := set_expires w1 t e). assert (expires w2 t = e) as He2 by (cbn; by rewrite fn_lookup_insert).
  assert (forall x, 0 <= expires w2 x < 2 ^ 32) as Hex.
  { intros x. destruct (decide (t = x)) as [<-|Hne]; [by rewrite He2|]. cbn. rewrite fn_lookup_insert_ne, H5 by done. apply Hr. }
  assert (gears w2 T nx) as Hg2 by (apply (gears_same w); [apply Hr|done..]).
  cbn [snd]. fold w2. destruct (internal_add_slot w2 T nx t Hg2) as (n & i & -> & Hok & _). rewrite He2 in Hok.
  rewrite <-insert_delete_eq. split.
  - by apply (gears_same w2).
  - eapply (core_insert (vec w2)); [|apply lookup_delete_eq|cbn; rewrite fn_lookup_insert; exact Hok|intros; apply insert_vec].
    cbn. rewrite H5. apply core_expires; [done|apply lookup_delete_eq].
  - cbn. rewrite H6. rewrite insert_delete_eq. exact (pending_insert w T nx P t _ Hr).
Qed.

(** ** Bringing a slot down *)

Lemma core_ext v v' T nx ex P : core v T nx ex P -> (forall n i, v' n i = v n i) -> core v' T nx ex P.
Proof.
  intros [H1 H2 H3 H4] E. split.
  - intros n i t. rewrite E. apply H1.
  - intros t d Hd. destruct (H2 t d Hd) as (n & i & Hi). exists n, i. by rewrite E.
  - intros n i n' i' t. rewrite !E. apply H3.
  - intros n i. rewrite E. apply H4.
Qed.

(** Slot [i] of vector [n] emptied. *)
Definition clear_slot (n i : Z) (v : Z -> Z -> list Z) (n' i' : Z) : list Z :=
  if decide (n' = n /\ i' = i) then [] else v n' i'.

Lemma set_vec_eq w n i l n' i' :
  vec (set_vec w n i l) n' i' = if decide (n' = n /\ i' = i) then l else vec w n' i'.
Proof.
  cbn. destruct (decide (n' = n)) as [->|Hn].
  - rewrite fn_lookup_insert. destruct (decide (i' = i)) as [->|Hi].
    + rewrite fn_lookup_insert. by rewrite decide_True.
    + rewrite fn_lookup_insert_ne by done. by rewrite decide_False by tauto.
  - rewrite fn_lookup_insert_ne by done. by rewrite decide_False by tauto.
Qed.

Lemma slot_ok_nx T nx nx' e n i d : nx' n = nx n -> slot_ok T nx e n i d -> slot_ok T nx' e n i d.
Proof. unfold slot_ok. by intros ->. Qed.

(** What stays the same while timers are added. *)
Definition same_regs (w w' : wheel) : Prop :=
  timer_jiffies w' = timer_jiffies w /\ index w' = index w /\ expires w' = expires w.

(** The timers [l] of the slot are added again, further down. *)
Lemma readd_ok n i T nx nx' (l : list Z) :
  n <> 0 -> (forall m, m <> n -> nx' m = nx m) ->
  forall w P, gears w T nx -> core (clear_slot n i (vec w)) T nx' (expires w) P -> NoDup l ->
  (forall t, t ∈ l -> P !! t = None /\ due T (expires w t) - T < 2 ^ sh n) ->
  let w' := fold_left internal_add_timer l w in
  same_regs w w' /\ (forall x, pending w' x = pending w x || bool_decide (x ∈ l)) /\
  core (clear_slot n i (vec w')) T nx' (expires w) (fold_left (fun P t => <[t := due T (expires w t)]> P) l P).
Proof.
  intros Hn Hnx. induction l as [|t l IH]; intros w P Hg Hc Hnd Hl; cbn [fold_left].
  { split_and!; [done..| |done]. intros x. by rewrite orb_false_r. }
  apply NoDup_cons in Hnd as [Ht Hnd]. destruct (Hl t ltac:(set_solver)) as [Hpt Hdt].
  destruct (internal_add_slot w T nx t Hg) as (m & j & -> & Hok & Hfar).
  assert (m <> n) as Hmn by (intros ->; specialize (Hfar Hn); lia).
  assert (slot_ok T nx' (expires w t) m j (due T (expires w t))) as Hok' by (eapply slot_ok_nx; [by apply Hnx|done]).
  destruct (IH (insert_timer w t m j) (<[t := due T (expires w t)]> P)) as ((E1 & E2 & E3) & Hpend & Hcore).
  - apply (gears_same w); [done..|apply Hg].
  - eapply core_insert; [exact Hc|done|exact Hok'|]. intros n' i'. unfold clear_slot. rewrite insert_vec.
    destruct (decide (n' = m /\ i' = j)) as [[-> ->]|Hne].
    + rewrite !(decide_False (P := m = n /\ _)) by tauto. done.
    + done.
  - done.
  - intros x Hx. cbn. split; [|apply Hl; set_solver]. rewrite lookup_insert_ne; [apply Hl; set_solver|]. by intros <-.
  - split_and!; [done..| |exact Hcore]. intros x. rewrite Hpend. cbn. destruct (decide (t = x)) as [<-|Hne].
    + rewrite fn_lookup_insert, (bool_decide_true (t ∈ t :: l)) by set_solver. by rewrite orb_true_r.
    + rewrite fn_lookup_insert_ne by done. f_equal. apply bool_decide_ext. set_solver.
Qed.

Lemma fold_insert_lookup (f : Z -> Z) (l : list Z) (P : gmap Z Z) x :
  fold_left (fun P t => <[t := f t]> P) l P !! x = if decide (x ∈ l) then Some (f x) else P !! x.
Proof.
  revert P. induction l as [|t l IH]; intros P; cbn [fold_left]; [done|]. rewrite IH.
  destruct (decide (x ∈ l)) as [Hx|Hx]; [by rewrite decide_True by set_solver|].
  destruct (decide (t = x)) as [->|Hne].
  - rewrite lookup_insert_eq. by rewrite decide_True by set_solver.
  - rewrite lookup_insert_ne by done. by rewrite decide_False by set_solver.
Qed.

Lemma slot_near T nx ex n d i :
  1 <= n < 5 -> nx n * 2 ^ sh n = T -> slot_ok T nx ex n i d -> i = nx n mod 64 -> T <= d < T + 2 ^ sh n.
Proof.
  intros Hn HT (_ & _ & H) Hi. destruct H as (H1 & H2 & _); [lia|].
  assert (d / 2 ^ sh n = nx n) as E.
  { rewrite Hi in H2. Z.div_mod_to_equations. lia. }
  pose proof (Z.pow_pos_nonneg 2 (sh n) ltac:(lia) ltac:(unfold sh; lia)).
  pose proof (Z.div_mod d (2 ^ sh n) ltac:(lia)). pose proof (Z.mod_pos_bound d (2 ^ sh n) ltac:(lia)). rewrite E in *. lia.
Qed.

(** Emptying the slot that comes down next. *)
Lemma clear_core w T nx P n :
  rep w T nx P -> 1 <= n < 5 -> nx n * 2 ^ sh n = T ->
  core (clear_slot n (index w n) (vec w)) T (<[n := nx n + 1]> nx) (expires w)
       (filter (fun p => p.1 ∉ vec w n (index w n)) P).
Proof.
  intros [Hg [H1 H2 H3 H4] _] Hn HT. set (i := index w n). assert (i = nx n mod 64) as Hi by (by apply Hg).
  assert (forall n' i' t, t ∈ clear_slot n i (vec w) n' i' -> t ∈ vec w n' i' /\ ~ (n' = n /\ i' = i)) as Hin.
  { intros n' i' t. unfold clear_slot. case_decide; [by intros ?%not_elem_of_nil|done]. }
  split.
  - intros n' i' t [Ht Hne]%Hin. destruct (H1 _ _ _ Ht) as (d & Hd & Hs). exists d. split.
    + apply map_lookup_filter_Some. split; [done|]. cbn. intros Ht'. destruct (H3 _ _ _ _ _ Ht Ht'). tauto.
    + destruct (decide (n = n')) as [<-|Hn']; [|by eapply slot_ok_nx; [apply fn_lookup_insert_ne|]].
      destruct Hs as (S1 & S2 & S3). split_and!; [lia..|done|]. intros Hn0. destruct (S3 Hn0) as (S4 & S5 & S6).
      rewrite fn_lookup_insert. split_and!; [|lia|done..]. assert (d / 2 ^ sh n <> nx n); [|lia].
      intros E. apply Hne. split; [done|]. by rewrite Hi, S5, E.
  - intros t d [Hd Ht]%map_lookup_filter_Some. destruct (H2 _ _ Hd) as (n' & i' & Hi'). exists n', i'. unfold clear_slot.
    rewrite decide_False; [done|]. intros [-> ->]. done.
  - intros n1 i1 n2 i2 t [Ha _]%Hin [Hb _]%Hin. by eapply H3.
  - intros n' i'. unfold clear_slot. case_decide; [constructor|done].
Qed.

Lemma cascade_ok w T nx P n :
  rep w T nx P -> 1 <= n < 5 -> nx n * 2 ^ sh n = T -> rep (cascade_timers w n) T (<[n := nx n + 1]> nx) P.
Proof.
  intros Hr Hn HT. pose proof Hr as [Hg Hc Hp]. pose proof (clear_core w T nx P n Hr Hn HT) as Hcl.
  unfold cascade_timers. set (i := index w n) in *. assert (i = nx n mod 64) as Hi by (by apply Hg).
  set (l := vec w n i) in *. assert (0 < 2 ^ sh n < 2 ^ 31) as Hpow by (destruct (pow_sh n Hn) as [[_ E]|[[_ E]|[[_ E]|[_ E]]]]; rewrite E; lia).
  assert (forall t, t ∈ l -> exists d, P !! t = Some d /\ due T (expires w t) = d /\ d - T < 2 ^ sh n) as Hl.
  { intros t Ht. destruct (c_slot _ _ _ _ _ Hc _ _ _ Ht) as (d & Hd & Hs). exists d. split; [done|].
    pose proof (slot_near T nx _ n d i Hn HT Hs Hi) as Hd'. destruct Hs as (_ & _ & Hs). destruct Hs as (_ & _ & ->); [lia|].
    split; [|lia]. unfold due. replace (u32 (u32 d - T)) with (d - T).
    - replace (d - T <? 2 ^ 31) with true by lia. lia.
    - unfold u32. rewrite Zminus_mod_idemp_l. rewrite Z.mod_small; lia. }
  destruct (readd_ok n i T nx (<[n := nx n + 1]> nx) l ltac:(lia)) with (w := w) (P := filter (fun p => p.1 ∉ l) P)
    as ((E1 & E2 & E3) & Hpend & Hcore); [|done|done|apply Hc| |].
  { intros m Hm. by rewrite fn_lookup_insert_ne. }
  { intros t Ht. destruct (Hl t Ht) as (d & Hd & -> & Hlt). split; [|done]. apply map_lookup_filter_None. right. intros ? _. cbn. tauto. }
  set (w' := fold_left internal_add_timer l w) in *. split.
  - destruct Hg as [G1 G2 G3 G4 G5]. split; cbn; [by rewrite E1| | | |by rewrite E3].
    + rewrite fn_lookup_insert_ne by lia. by rewrite E2.
    + intros m Hm. destruct (decide (n = m)) as [<-|Hnm].
      * rewrite !fn_lookup_insert. change TVN_MASK with (Z.ones 6). rewrite Z.land_ones by lia. rewrite Hi.
        change (2 ^ 6) with 64. by rewrite Zplus_mod_idemp_l.
      * rewrite !fn_lookup_insert_ne by done. rewrite E2. auto.
    + intros m Hm. destruct (decide (n = m)) as [<-|Hnm]; [rewrite fn_lookup_insert; lia|].
      rewrite fn_lookup_insert_ne by done. auto.
  - cbn. rewrite E3. eapply core_ext; [|intros n' i'; apply set_vec_eq].
    replace P with (fold_left (fun P t => <[t := due T (expires w t)]> P) l (filter (fun p => p.1 ∉ l) P)); [exact Hcore|].
    apply map_eq. intros x. rewrite fold_insert_lookup. case_decide as Ex.
    + destruct (Hl x Ex) as (d & -> & -> & _). done.
    + destruct (P !! x) as [d|] eqn:Ed; [by apply map_lookup_filter_Some|]. apply map_lookup_filter_None. by left.
  - cbn. intros x. rewrite Hpend, Hp. destruct (decide (x ∈ l)) as [Hx|Hx].
    + destruct (Hl x Hx) as (d & -> & _). by rewrite (bool_decide_true (is_Some (Some d))) by (by eexists).
    + rewrite (bool_decide_false (x ∈ l)) by done. apply orb_false_r.
Qed.

(** The vectors below [n] have come down for tick [T], the others not yet. *)
Definition mixed (T : Z) (nx : Z -> Z) (n : Z) : Prop :=
  (forall m, 1 <= m < n -> T < nx m * 2 ^ sh m <= T + 2 ^ sh m) /\
  (forall m, n <= m < 5 -> T <= nx m * 2 ^ sh m < T + 2 ^ sh m).

Lemma sh_pos n : 1 <= n -> 0 < 2 ^ sh n.
Proof. intros Hn. apply Z.pow_pos_nonneg; unfold sh; lia. Qed.

Lemma sh_split n m : 1 <= n <= m -> 2 ^ sh m = 2 ^ (6 * (m - n)) * 2 ^ sh n.
Proof. intros Hn. rewrite <-Z.pow_add_r by (unfold sh; lia). f_equal. unfold sh. lia. Qed.

(** A tick that is not the start of a slot of vector [n] is not the start of one
    of a vector above it. *)
Lemma no_start T nx n m :
  1 <= n <= m -> T mod 2 ^ sh n <> 0 -> T <= nx m * 2 ^ sh m < T + 2 ^ sh m -> T < nx m * 2 ^ sh m.
Proof.
  intros Hn HT Hm. destruct (decide (T = nx m * 2 ^ sh m)) as [E|]; [|lia]. destruct HT. rewrite E, (sh_split n m), Z.mul_assoc by lia.
  apply Z.mod_mul. pose proof (sh_pos n). lia.
Qed.

Lemma slot_start T nx n :
  1 <= n -> T mod 2 ^ sh n = 0 -> T <= nx n * 2 ^ sh n < T + 2 ^ sh n -> nx n * 2 ^ sh n = T.
Proof. intros Hn HT Hx. pose proof (sh_pos n Hn). destruct (proj1 (Z.mod_divide T (2 ^ sh n) ltac:(lia)) HT) as [q ->]. set (x := 2 ^ sh n) in *. clearbody x. assert (q <= nx n) by nia. assert (nx n < q + 1) by nia. nia. Qed.

Lemma cascade_loop_ok k : forall n w T nx P,
  rep w T nx P -> mixed T nx n -> 1 <= n -> n + Z.of_nat k = 5 -> (k <> O -> T mod 2 ^ sh n = 0) ->
  exists nx', rep (cascade_loop k w n) T nx' P /\ after T nx'.
Proof.
  induction k as [|k IH]; intros n w T nx P Hr [Hlow Hhigh] Hn Hk HT; cbn [cascade_loop].
  { exists nx. split; [done|]. intros m Hm. apply Hlow. lia. }
  pose proof (sh_pos n Hn) as Hpos. assert (nx n * 2 ^ sh n = T) as Hx by (apply slot_start; [lia|auto|apply Hhigh; lia]).
  pose proof (cascade_ok w T nx P n Hr ltac:(lia) Hx) as Hr'. set (nx' := <[n := nx n + 1]> nx) in *.
  assert (mixed T nx' (n + 1)) as [Hlow' Hhigh'].
  { split; intros m Hm; unfold nx'.
    - destruct (decide (n = m)) as [<-|]; [rewrite fn_lookup_insert; lia|]. rewrite fn_lookup_insert_ne by done. apply Hlow. lia.
    - rewrite fn_lookup_insert_ne by lia. apply Hhigh. lia. }
  assert (index (cascade_timers w n) n = (nx n + 1) mod 64) as ->.
  { rewrite (g_index _ _ _ (r_gears _ _ _ _ Hr') n) by lia. unfold nx'. by rewrite fn_lookup_insert. }
  assert (2 ^ sh (n + 1) = 64 * 2 ^ sh n) as Hsh.
  { rewrite (sh_split n (n + 1)) by lia. by replace (6 * (n + 1 - n)) with 6 by lia. }
  assert (T mod 2 ^ sh (n + 1) = nx n mod 64 * 2 ^ sh n) as Hmod by (by rewrite Hsh, <-Hx, Z.mul_mod_distr_r by lia).
  destruct (Z.eqb_spec ((nx n + 1) mod 64) 1) as [E|E].
  - apply (IH (n + 1) _ T nx'); [done|done|lia|lia|]. intros _. rewrite Hmod. replace (nx n mod 64) with 0; [lia|].
    Z.div_mod_to_equations. lia.
  - exists nx'. split; [done|]. intros m Hm. destruct (decide (m < n + 1)); [apply Hlow'; lia|].
    pose proof (Hhigh' m ltac:(lia)). split; [|lia]. apply (no_start T nx' (n + 1)); [lia| |done]. rewrite Hmod.
    assert (nx n mod 64 <> 0) by (intros E0; apply E; Z.div_mod_to_equations; lia).
    pose proof (Z.mod_pos_bound (nx n) 64). nia.
Qed.

(** ** The abstract machine

    A step either calls the function of a timer that is due, which is no longer
    pending then and may change timers, or, when none is due, ends the tick. *)

Definition abs_op (T : Z) (P : gmap Z Z) (op : timer_op) : gmap Z Z :=
  match op with Mod t e => <[t := due T e]> P | Del t => delete t P end.

Inductive abs_run (fn : Z -> list timer_op) : Z -> gmap Z Z -> list (Z * Z) -> Z -> gmap Z Z -> Prop :=
| abs_stop T P : abs_run fn T P [] T P
| abs_fire T P t log T' P' :
    P !! t = Some T -> abs_run fn T (fold_left (abs_op T) (fn t) (delete t P)) log T' P' ->
    abs_run fn T P ((t, T) :: log) T' P'
| abs_tick T P log T' P' :
    (forall t d, P !! t = Some d -> T < d) -> abs_run fn (T + 1) P log T' P' -> abs_run fn T P log T' P'.

(** The log of the wheel gives the ticks modulo 2^32. *)
Definition wrap (log : list (Z * Z)) : list (Z * Z) := List.map (fun p => (p.1, u32 p.2)) log.

Definition op_ok (op : timer_op) : Prop := match op with Mod _ e => 0 <= e < 2 ^ 32 | Del _ => True end.

Lemma run_op_rep w T nx P op : rep w T nx P -> op_ok op -> rep (run_op w op) T nx (abs_op T P op).
Proof.
  intros Hr Hop. destruct op as [t e|t]; cbn.
  - by apply mod_timer_rep.
  - pose proof (del_timer_rep w T nx P t Hr) as H. destruct (del_timer w t). apply H.
Qed.

Lemma run_ops_rep ops : forall w T nx P,
  rep w T nx P -> Forall op_ok ops -> rep (fold_left run_op ops w) T nx (fold_left (abs_op T) ops P).
Proof.
  induction ops as [|op ops IH]; intros w T nx P Hr Hops; [done|]. inversion_clear Hops. apply IH; [|done]. by apply run_op_rep.
Qed.

(** ** The loops *)

Lemma slot_head w T nx P t : rep w T nx P -> t ∈ vec w 0 (index w 0) -> P !! t = Some T.
Proof.
  intros [Hg Hc _] Ht. destruct (c_slot _ _ _ _ _ Hc _ _ _ Ht) as (d & -> & _ & H & _). f_equal.
  destruct H as [H1 H2]; [done|]. rewrite (g_index0 _ _ _ Hg) in H2. Z.div_mod_to_equations. lia.
Qed.

Lemma rep_later w T nx P t d : rep w T nx P -> P !! t = Some d -> T <= d.
Proof.
  intros [Hg Hc _] Hd. destruct (c_all _ _ _ _ _ Hc t d Hd) as (n & i & Hi).
  destruct (c_slot _ _ _ _ _ Hc _ _ _ Hi) as (d' & Hd' & Hn & H0 & H1). assert (d' = d) as -> by congruence.
  destruct (decide (n = 0)) as [->|Hn0]; [lia|]. destruct (H1 Hn0) as [H _]. pose proof (sh_pos n ltac:(lia)).
  pose proof (g_near _ _ _ Hg n ltac:(lia)). pose proof (Z.mul_div_le d (2 ^ sh n) ltac:(lia)). nia.
Qed.

Lemma slot_empty w T nx P t d :
  rep w T nx P -> after T nx -> vec w 0 (index w 0) = [] -> P !! t = Some d -> T < d.
Proof.
  intros Hr Ha He Hd. pose proof Hr as [Hg Hc _]. destruct (c_all _ _ _ _ _ Hc t d Hd) as (n & i & Hi).
  destruct (c_slot _ _ _ _ _ Hc _ _ _ Hi) as (d' & Hd' & Hn & H0 & H1). assert (d' = d) as -> by congruence.
  destruct (decide (n = 0)) as [->|Hn0].
  - destruct H0 as [H0 ->]; [done|]. destruct (decide (d = T)) as [->|]; [|lia].
    rewrite <-(g_index0 _ _ _ Hg), He in Hi. by apply not_elem_of_nil in Hi.
  - destruct (H1 Hn0) as [H _]. pose proof (sh_pos n ltac:(lia)). specialize (Ha n ltac:(lia)).
    pose proof (Z.mul_div_le d (2 ^ sh n) ltac:(lia)). nia.
Qed.

Section run.
Context (fn : Z -> list timer_op) (Hfn : forall t, Forall op_ok (fn t)).

Lemma run_slot_ok fuel : forall w T nx P w' log,
  rep w T nx P -> after T nx -> run_slot fuel fn w = Some (w', log) ->
  exists P' alog, log = wrap alog /\ rep w' T nx P' /\ (forall t d, P' !! t = Some d -> T < d) /\
    Forall (fun p => p.2 = T) alog /\
    forall log2 T2 P2, abs_run fn T P' log2 T2 P2 -> abs_run fn T P (alog ++ log2) T2 P2.
Proof.
  induction fuel as [|fuel IH]; intros w T nx P w' log Hr Ha; cbn [run_slot].
  all: destruct (vec w 0 (index w 0)) as [|t l] eqn:El.
  1,3: intros [= <- <-]; exists P, []; split_and!; try done; intros t d; by eapply slot_empty.
  { done. }
  assert (P !! t = Some T) as Ht by (eapply slot_head; [done|rewrite El; set_solver]).
  pose proof (del_timer_rep w T nx P t Hr) as Hd. unfold del_timer in Hd. destruct (detach_timer w t) as [r w1].
  destruct Hd as [_ Hd]. cbn [snd]. set (w2 := set_pending w1 t false) in *.
  pose proof (run_ops_rep (fn t) w2 T nx (delete t P) Hd (Hfn t)) as Hf.
  destruct (run_slot fuel fn _) as [[w3 log3]|] eqn:E3; [|done]. cbn. intros [= <- <-].
  destruct (IH _ _ _ _ _ _ Hf Ha E3) as (P' & alog & -> & R1 & R2 & R3 & R4).
  exists P', ((t, T) :: alog). split_and!; [|done..|by constructor|].
  - cbn. f_equal. f_equal. apply (g_jiffies _ _ _ (r_gears _ _ _ _ Hd)).
  - intros log2 T2 P2 H2. cbn. constructor; [done|]. by apply R4.
Qed.

Lemma next_tick w T nx P :
  rep w T nx P -> after T nx -> (forall t d, P !! t = Some d -> T < d) ->
  let w1 := set_jiffies w (u32 (timer_jiffies w + 1)) in
  rep (set_index w1 0 (Z.land (index w1 0 + 1) TVR_MASK)) (T + 1) nx P /\ before (T + 1) nx.
Proof.
  intros [Hg Hc Hp] Ha HT. cbn. assert (before (T + 1) nx) as Hb by (intros n Hn; specialize (Ha n Hn); lia).
  split; [|done]. pose proof Hg as [G1 G2 G3 G4 G5]. split; [|split|].
  - split; cbn; [|rewrite fn_lookup_insert|intros n Hn; rewrite fn_lookup_insert_ne by lia; auto|by apply before_near|done].
    + rewrite G1. unfold u32. by rewrite Zplus_mod_idemp_l.
    + rewrite G2. change TVR_MASK with (Z.ones 8). rewrite Z.land_ones by lia. change (2 ^ 8) with 256. by rewrite Zplus_mod_idemp_l.
  - intros n i t Ht. destruct (c_slot _ _ _ _ _ Hc n i t Ht) as (d & Hd & H1 & H2 & H3). exists d. split; [done|].
    split_and!; [lia..| |done]. intros Hn. destruct (H2 Hn). split; [|done]. specialize (HT t d Hd). lia.
  - apply Hc.
  - apply Hc.
  - apply Hc.
  - done.
Qed.

Lemma tick_ok fuel w T nx P w' log :
  rep w T nx P -> before T nx -> tick fuel fn w = Some (w', log) ->
  exists nx' P' alog, log = wrap alog /\ rep w' (T + 1) nx' P' /\ before (T + 1) nx' /\
    Forall (fun p => p.2 = T) alog /\
    forall log2 T2 P2, abs_run fn (T + 1) P' log2 T2 P2 -> abs_run fn T P (alog ++ log2) T2 P2.
Proof.
  intros Hr Hb. unfold tick.
  assert (exists nx', rep (if index w 0 =? 0 then cascade_loop (Z.to_nat (NOOF_TVECS - 1)) w 1 else w) T nx' P /\ after T nx')
    as (nx' & Hr' & Ha').
  { rewrite (g_index0 _ _ _ (r_gears _ _ _ _ Hr)). destruct (Z.eqb_spec (T mod 256) 0) as [E|E].
    - apply (cascade_loop_ok 4 1 w T nx P Hr); [|done..]. split; [lia|]. intros m Hm. apply Hb. lia.
    - exists nx. split; [done|]. intros n Hn. specialize (Hb n Hn). split; [|lia]. by apply (no_start T nx 1); [lia|..]. }
  set (w0 := if index w 0 =? 0 then _ else w) in *. destruct (run_slot fuel fn w0) as [[w1 log1]|] eqn:E1; [|done].
  cbn [mbind option_bind]. intros [= <- <-].
  destruct (run_slot_ok _ _ _ _ _ _ _ Hr' Ha' E1) as (P' & alog & -> & R1 & R2 & R3 & R4).
  destruct (next_tick w1 T nx' P' R1 Ha' R2) as [N1 N2]. exists nx', P', alog. split_and!; try done.
  intros log2 T2 P2 H2. apply R4. by apply abs_tick.
Qed.

Lemma jiffies_ahead J T : - 2 ^ 31 <= J - T < 2 ^ 31 -> s32 (u32 J - u32 T) = J - T.
Proof.
  intros H. unfold s32, u32. rewrite <-Zplus_mod_idemp_l, <-Zminus_mod, Zplus_mod_idemp_l. rewrite Z.mod_small; lia.
Qed.

Lemma run_timer_list_ok n fuel : forall w T nx P J w' log,
  rep w T nx P -> before T nx -> -1 <= J - T < 2 ^ 31 -> run_timer_list n fuel fn w (u32 J) = Some (w', log) ->
  exists nx' P' alog, log = wrap alog /\ rep w' (J + 1) nx' P' /\ before (J + 1) nx' /\
    Forall (fun p => T <= p.2 <= J) alog /\ abs_run fn T P alog (J + 1) P'.
Proof.
  induction n as [|n IH]; intros w T nx P J w' log Hr Hb HJ; cbn [run_timer_list].
  all: rewrite (g_jiffies _ _ _ (r_gears _ _ _ _ Hr)), jiffies_ahead by lia; destruct (Z.ltb_spec (J - T) 0) as [E|E].
  1,3: intros [= <- <-]; assert (J + 1 = T) as -> by lia; exists nx, P, []; split_and!; try done; constructor.
  { done. }
  destruct (tick fuel fn w) as [[w1 log1]|] eqn:E1; [|done]. cbn [mbind option_bind].
  destruct (run_timer_list n fuel fn w1 (u32 J)) as [[w2 log2]|] eqn:E2; [|done]. cbn. intros [= <- <-].
  destruct (tick_ok _ _ _ _ _ _ _ Hr Hb E1) as (nx1 & P1 & alog1 & -> & T1 & T2 & T3 & T4).
  destruct (IH w1 (T + 1) nx1 P1 J w2 log2 T1 T2 ltac:(lia) E2) as (nx2 & P2 & alog2 & -> & R1 & R2 & R3 & R4).
  exists nx2, P2, (alog1 ++ alog2). split_and!; [|done..| |].
  - unfold wrap. by rewrite map_app.
  - apply Forall_app. split; [eapply Forall_impl; [exact T3|]; cbn; intros; lia|eapply Forall_impl; [exact R3|]; cbn; intros; lia].
  - by apply T4.
Qed.

End run.

(** ** The functions are called in the order of time *)

Lemma abs_run_times fn T P log T' P' :
  abs_run fn T P log T' P' -> Forall (fun p => T <= p.2) log /\ StronglySorted (fun p q => p.2 <= q.2) log.
Proof.
  induction 1 as [T P|T P t log T' P' Ht _ [IH1 IH2]|T P log T' P' Hd _ [IH1 IH2]].
  - split; constructor.
  - split; constructor; cbn; try done; lia.
  - split; [|done]. eapply Forall_impl; [exact IH1|]. cbn. lia.
Qed.

(** ** Functions that set timers for later

    The function of a timer may remove any timer, or set one, its own too, for a tick
    that lies beyond the current jiffy. *)

Definition late (T J : Z) (op : timer_op) : Prop :=
  match op with Mod _ e => exists d, e = u32 d /\ J < d < T + 2 ^ 31 | Del _ => True end.

Definition op_timer (op : timer_op) : Z := match op with Mod t _ | Del t => t end.

(** The timers due by jiffy [J]. *)
Definition soon (J : Z) (P : gmap Z Z) : gmap Z Z := filter (fun p => p.2 <= J) P.

Lemma late_op_ok T J op : late T J op -> op_ok op.
Proof. destruct op; [|done]. intros (d & -> & _). apply Z.mod_pos_bound. lia. Qed.

Lemma due_later T d : T <= d < T + 2 ^ 31 -> due T (u32 d) = d.
Proof.
  intros H. unfold due, u32. rewrite Zminus_mod_idemp_l, Z.mod_small by lia. destruct (Z.ltb_spec (d - T) (2 ^ 31)); lia.
Qed.

Lemma soon_lookup J P t d : soon J P !! t = Some d <-> P !! t = Some d /\ d <= J.
Proof. apply map_lookup_filter_Some. Qed.

Lemma soon_size J P Q : (forall t d, d <= J -> Q !! t = Some d -> P !! t = Some d) -> (size (soon J Q) <= size (soon J P))%nat.
Proof.
  intros H. apply map_subseteq_size, map_subseteq_spec. intros t d [Hd Hj]%soon_lookup. apply soon_lookup. split; [by apply H|done].
Qed.

Lemma soon_delete J P Q t T :
  P !! t = Some T -> T <= J -> (forall x d, d <= J -> Q !! x = Some d -> delete t P !! x = Some d) ->
  (size (soon J Q) < size (soon J P))%nat.
Proof.
  intros Ht HT H. assert (soon J P !! t = Some T) as Hs by (by apply soon_lookup).
  assert (Q' : (size (soon J Q) <= size (delete t (soon J P)))%nat).
  { apply map_subseteq_size, map_subseteq_spec. intros x d [Hd Hj]%soon_lookup.
    specialize (H x d Hj Hd). apply lookup_delete_Some in H as [Hne H]. apply lookup_delete_Some. split; [done|]. by apply soon_lookup. }
  rewrite map_size_delete, Hs in Q'. cbn in Q'.
  assert (size (soon J P) <> 0%nat) by (intros E%map_size_empty_inv; rewrite E, lookup_empty in Hs; done). lia.
Qed.

Section late.
Context (fn : Z -> list timer_op) (T0 J : Z) (Hl : forall t, Forall (late T0 J) (fn t)).

Lemma late_ok t : Forall op_ok (fn t).
Proof. eapply Forall_impl; [apply Hl|]. apply late_op_ok. Qed.

(** What an operation leaves pending was pending, or is set for later. *)
Lemma abs_ops_late T ops : T0 <= T <= J -> Forall (late T0 J) ops -> forall P x d,
  fold_left (abs_op T) ops P !! x = Some d -> P !! x = Some d \/ Mod x (u32 d) ∈ ops /\ J < d.
Proof.
  intros HT. induction 1 as [|op ops Hop _ IH]; intros P x d Hd; [by left|]. cbn in Hd.
  destruct (IH _ _ _ Hd) as [H|[H ?]]; [|right; split; [by right|done]]. destruct op as [t e|t]; cbn in H.
  - destruct Hop as (d' & -> & Hd'). rewrite due_later in H by lia.
    apply lookup_insert_Some in H as [[<- <-]|[_ H]]; [right; split; [left|lia]|by left].
  - apply lookup_delete_Some in H as [_ H]. by left.
Qed.

Lemma abs_ops_same T x ops : Forall (fun op => op_timer op <> x) ops -> forall P, fold_left (abs_op T) ops P !! x = P !! x.
Proof.
  induction 1 as [|op ops Hop _ IH]; intros P; [done|]. cbn. rewrite IH. destruct op; cbn in *; [by apply lookup_insert_ne|by apply lookup_delete_ne].
Qed.

Lemma abs_ops_soon T ops P x d : T0 <= T <= J -> Forall (late T0 J) ops -> d <= J ->
  fold_left (abs_op T) ops P !! x = Some d -> P !! x = Some d.
Proof. intros HT Ho Hd [H|[_ H]]%abs_ops_late; [done|lia|done..]. Qed.

(** The functions called are those of timers that were pending, each once; what is
    pending at the end was so before or was set by one of them. *)
Lemma abs_run_old T P log T' P' :
  abs_run fn T P log T' P' -> T0 <= T -> Forall (fun p => p.2 <= J) log ->
  NoDup log.*1 /\ (forall x d, (x, d) ∈ log -> P !! x = Some d) /\
  forall x d, P' !! x = Some d -> P !! x = Some d \/ exists y dy, (y, dy) ∈ log /\ Mod x (u32 d) ∈ fn y /\ J < d.
Proof.
  induction 1 as [T P|T P t log T' P' Ht Hrun IH|T P log T' P' Hd _ IH]; intros HT Hj.
  - split_and!; [constructor|by intros ? ? ?%not_elem_of_nil|by left].
  - apply Forall_cons in Hj as [Hjt Hj]. cbn in Hjt. destruct (IH HT Hj) as (IH1 & IH2 & IH3). rewrite Forall_forall in Hj.
    assert (Hold : forall x d, (x, d) ∈ log -> delete t P !! x = Some d).
    { intros x d Hx. eapply (abs_ops_soon T (fn t)); [lia|apply Hl|by apply (Hj (x, d))|by apply IH2]. }
    split_and!.
    + cbn. constructor; [|done]. intros ([x d] & -> & Hx)%list_elem_of_fmap. specialize (Hold _ _ Hx). cbn in Hold.
      by rewrite lookup_delete_eq in Hold.
    + intros x d [[= -> ->]|Hx]%elem_of_cons; [done|]. apply Hold in Hx. by apply lookup_delete_Some in Hx as [_ ?].
    + intros x d [Hx|(y & dy & Hy & Hm)]%IH3; [|right; exists y, dy; split; [by right|done]].
      destruct (abs_ops_late T (fn t) ltac:(lia) (Hl t) _ _ _ Hx) as [[_ ?]%lookup_delete_Some|Hm]; [by left|right].
      exists t, T. split; [left|done].
  - apply IH; [lia|done].
Qed.

(** A timer that no function called up to its tick changes is called, or stays. *)
Lemma abs_run_kept T P log T' P' :
  abs_run fn T P log T' P' -> T0 <= T -> (forall x d, P !! x = Some d -> T <= d) -> Forall (fun p => p.2 <= J) log ->
  forall x d, P !! x = Some d -> (forall y dy, (y, dy) ∈ log -> dy <= d -> Forall (fun op => op_timer op <> x) (fn y)) ->
  (x, d) ∈ log \/ P' !! x = Some d.
Proof.
  induction 1 as [T P|T P t log T' P' Ht Hrun IH|T P log T' P' Hd _ IH]; intros HT Hlow Hj x d Hx Hun.
  - by right.
  - apply Forall_cons in Hj as [Hjt Hj]. cbn in Hjt. destruct (decide (t = x)) as [<-|Hne].
    + left. rewrite Ht in Hx. injection Hx as ->. left.
    + destruct (IH HT) with (x := x) (d := d) as [H|H].
      * intros y dy [[_ Hy]%lookup_delete_Some|[_ ?]]%abs_ops_late; [by eapply Hlow|lia|lia|apply Hl].
      * done.
      * rewrite abs_ops_same, lookup_delete_ne by first [done|eapply Hun; [left|by eapply Hlow]]. done.
      * intros y dy Hy. apply Hun. by right.
      * left. by right.
      * by right.
  - apply IH; try done; [lia|]. intros y dy Hy. specialize (Hd y dy Hy). lia.
Qed.

Lemma run_slot_ends fuel : forall w T nx P,
  T0 <= T <= J -> rep w T nx P -> (size (soon J P) <= fuel)%nat -> exists r, run_slot fuel fn w = Some r.
Proof.
  induction fuel as [|fuel IH]; intros w T nx P HT Hr Hs; cbn [run_slot].
  all: destruct (vec w 0 (index w 0)) as [|t l] eqn:El; [by eexists|].
  all: assert (P !! t = Some T) as Ht by (eapply slot_head; [done|rewrite El; set_solver]).
  { assert (size (soon J P) = 0%nat) as E%map_size_empty_inv by lia.
    assert (soon J P !! t = Some T) as H by (apply soon_lookup; split; [done|lia]). by rewrite E, lookup_empty in H. }
  pose proof (del_timer_rep w T nx P t Hr) as Hd. unfold del_timer in Hd. destruct (detach_timer w t) as [r w1].
  destruct Hd as [_ Hd]. cbn [snd]. pose proof (run_ops_rep (fn t) _ _ _ _ Hd (late_ok t)) as Hf.
  destruct (IH _ _ _ _ HT Hf) as [[w3 log3] ->]; [|by eexists].
  enough (size (soon J (fold_left (abs_op T) (fn t) (delete t P))) < size (soon J P))%nat by lia.
  eapply soon_delete; [done|lia|]. intros x d Hx. by apply abs_ops_soon.
Qed.

Lemma tick_ends fuel w T nx P : T0 <= T <= J ->
  rep w T nx P -> before T nx -> (size (soon J P) <= fuel)%nat -> exists r, tick fuel fn w = Some r.
Proof.
  intros HT Hr Hb Hs. unfold tick.
  assert (exists nx', rep (if index w 0 =? 0 then cascade_loop (Z.to_nat (NOOF_TVECS - 1)) w 1 else w) T nx' P) as (nx' & Hr').
  { rewrite (g_index0 _ _ _ (r_gears _ _ _ _ Hr)). destruct (Z.eqb_spec (T mod 256) 0) as [E|E]; [|by exists nx].
    destruct (cascade_loop_ok 4 1 w T nx P Hr) as (nx' & ? & _); [|done..|by exists nx'].
    split; [lia|]. intros m Hm. apply Hb. lia. }
  destruct (run_slot_ends fuel _ _ _ _ HT Hr' Hs) as [[w1 log1] ->]. by eexists.
Qed.

Lemma run_timer_list_ends n fuel : forall w T nx P,
  T0 <= T -> rep w T nx P -> before T nx -> -1 <= J - T < 2 ^ 31 -> J - T < Z.of_nat n -> (size (soon J P) <= fuel)%nat ->
  exists r, run_timer_list n fuel fn w (u32 J) = Some r.
Proof.
  induction n as [|n IH]; intros w T nx P HT Hr Hb HJ Hn Hs; cbn [run_timer_list].
  all: rewrite (g_jiffies _ _ _ (r_gears _ _ _ _ Hr)), jiffies_ahead by lia; destruct (Z.ltb_spec (J - T) 0) as [E|E]; [by eexists|].
  { lia. }
  destruct (tick_ends fuel w T nx P ltac:(lia) Hr Hb Hs) as [[w1 log1] E1]. rewrite E1. cbn [mbind option_bind].
  destruct (tick_ok fn late_ok _ _ _ _ _ _ _ Hr Hb E1) as (nx1 & P1 & alog1 & -> & T1 & T2 & T3 & T4).
  specialize (T4 [] (T + 1) P1 (abs_stop fn (T + 1) P1)). rewrite app_nil_r in T4.
  assert ((size (soon J P1) <= size (soon J P))%nat).
  { apply soon_size. intros t d Hd Ht. destruct (abs_run_old _ _ _ _ _ T4 HT) as (_ & _ & H).
    - eapply Forall_impl; [exact T3|]. cbn. lia.
    - destruct (H t d Ht) as [?|(_ & _ & _ & _ & ?)]; [done|lia]. }
  destruct (IH w1 (T + 1) nx1 P1 ltac:(lia) T1 T2 ltac:(lia) ltac:(lia) ltac:(lia)) as [[w2 log2] ->]. by eexists.
Qed.

End late.

(** ** The wheel and the timers it holds *)

(** Between ticks: the wheel holds the pending timers [P] at tick [T]. *)
Definition represents (w : wheel) (T : Z) (P : gmap Z Z) : Prop := exists nx, rep w T nx P /\ before T nx.

(** All is zero at start of day. *)
Definition wheel_init : wheel := Wheel 0 (fun _ => 0) (fun _ _ => []) (fun _ => 0) (fun _ => false).

Lemma wheel_init_ok : represents wheel_init 0 ∅.
Proof.
  exists (fun _ => 0). split; [|intros n Hn; pose proof (sh_pos n); lia]. split; [|split|].
  - split; try done; intros n Hn; pose proof (sh_pos n); cbn; lia.
  - intros n i t []%not_elem_of_nil.
  - intros t d Hd. by rewrite lookup_empty in Hd.
  - intros n i n' i' t []%not_elem_of_nil.
  - constructor.
  - done.
Qed.

(** C30: the timer wheel implements a set of timers with due dates.  It starts
    empty; [add_timer] adds a timer that is not pending (due at once when it lies
    in the past), [mod_timer] sets one whether it is pending or not, [del_timer]
    removes it and tells whether it was pending; and [run_timer_list], whatever
    the functions of the timers do with timers, behaves like the abstract
    machine: it calls the function of a pending timer exactly at the tick it is
    due, which makes the timer inactive, leaves a tick only when nothing is due
    any more, and ends behind the current jiffy.  Ticks wrap around at 2^32. *)
Theorem timer_wheel_refines :
  represents wheel_init 0 ∅ /\
  (forall w T P t, represents w T P -> P !! t = None -> represents (add_timer w t) T (<[t := due T (expires w t)]> P)) /\
  (forall w T P t e, represents w T P -> 0 <= e < 2 ^ 32 -> represents (mod_timer w t e) T (<[t := due T e]> P)) /\
  (forall w T P t, represents w T P ->
     (del_timer w t).1 = bool_decide (is_Some (P !! t)) /\ represents (del_timer w t).2 T (delete t P)) /\
  (forall fn n fuel w T P J w' log,
     (forall t, Forall op_ok (fn t)) -> represents w T P -> -1 <= J - T < 2 ^ 31 ->
     run_timer_list n fuel fn w (u32 J) = Some (w', log) ->
     exists P' alog, log = wrap alog /\ abs_run fn T P alog (J + 1) P' /\ represents w' (J + 1) P').
Proof.
  split_and!.
  - exact wheel_init_ok.
  - intros w T P t (nx & Hr & Hb) Ht. exists nx. split; [|done]. by apply add_timer_rep.
  - intros w T P t e (nx & Hr & Hb) He. exists nx. split; [|done]. by apply mod_timer_rep.
  - intros w T P t (nx & Hr & Hb). pose proof (del_timer_rep w T nx P t Hr) as Hd. destruct (del_timer w t) as [ret w'].
    destruct Hd as [-> Hd]. split; [done|]. by exists nx.
  - intros fn n fuel w T P J w' log Hfn (nx & Hr & Hb) HJ Hrun.
    destruct (run_timer_list_ok fn Hfn n fuel w T nx P J w' log Hr Hb HJ Hrun) as (nx' & P' & alog & H1 & H2 & H3 & _ & H4).
    exists P', alog. split_and!; [done..|]. by exists nx'.
Qed.

(** C31: [run_timer_list] ends and forgets no timer, when the functions called set
    timers, their own or others, only for ticks after the current jiffy [J] (they may
    remove any): it takes one turn for each tick, and no more calls than timers are due.
    It calls only functions of timers that were pending and are due by [J], each once,
    at its tick and in the order of the ticks; a timer that was pending is called if it
    is due and stays pending if not, unless a function called up to then changed it; and
    what is pending afterwards is due after [J], and was pending before or has been set
    by one of the functions called. *)
Theorem run_timer_list_fires_all fn n fuel w T P J :
  (forall t, Forall (late T J) (fn t)) -> represents w T P -> -1 <= J - T < 2 ^ 31 ->
  J - T < Z.of_nat n -> (size (soon J P) <= fuel)%nat ->
  exists w' log P', run_timer_list n fuel fn w (u32 J) = Some (w', wrap log) /\ represents w' (J + 1) P' /\
    StronglySorted (fun p q => p.2 <= q.2) log /\ NoDup log.*1 /\
    (forall t d, (t, d) ∈ log -> P !! t = Some d /\ d <= J) /\
    (forall t d, P !! t = Some d ->
       (forall t' d', (t', d') ∈ log -> d' <= d -> Forall (fun op => op_timer op <> t) (fn t')) ->
       if d <=? J then (t, d) ∈ log else P' !! t = Some d) /\
    (forall t d, P' !! t = Some d -> J < d /\ (P !! t = Some d \/ exists t' d', (t', d') ∈ log /\ Mod t (u32 d) ∈ fn t')).
Proof.
  intros Hl (nx & Hr & Hb) HJ Hn Hs.
  destruct (run_timer_list_ends fn T J Hl n fuel w T nx P ltac:(lia) Hr Hb HJ Hn Hs) as [[w' log] Hrun].
  destruct (run_timer_list_ok fn (late_ok fn T J Hl) n fuel w T nx P J w' log Hr Hb HJ Hrun) as (nx' & P' & alog & -> & H2 & H3 & H4 & H5).
  assert (H6 : Forall (fun p => p.2 <= J) alog) by (eapply Forall_impl; [exact H4|]; cbn; intros; lia).
  destruct (abs_run_old fn T J Hl _ _ _ _ _ H5 ltac:(lia) H6) as (O1 & O2 & O3). rewrite Forall_forall in H4.
  assert (forall t d, P' !! t = Some d -> J < d) as Hlate.
  { intros t d Hd. pose proof (rep_later w' _ _ _ t d H2 Hd). lia. }
  exists w', alog, P'. split_and!; [done|by exists nx'|by eapply abs_run_times|done| | |].
  - intros t d Ht. split; [by apply O2|]. pose proof (H4 _ Ht). cbn in *. lia.
  - intros t d Ht Hu. destruct (abs_run_kept fn T J Hl _ _ _ _ _ H5) with (x := t) (d := d) as [H|H]; try done; [by intros; eapply rep_later|..].
    + pose proof (H4 _ H) as Hd. cbn in Hd. by rewrite (proj2 (Z.leb_le _ _)) by lia.
    + specialize (Hlate t d H). by rewrite (proj2 (Z.leb_gt _ _)) by lia.
  - intros t d Ht. split; [by eapply Hlate|]. destruct (O3 t d Ht) as [?|(y & dy & Hy & Hm & _)]; [by left|right; by exists y, dy].
Qed.

(** A timer set for tick 300, which comes down from the second vector at tick 256. *)
Definition demo_wheel : wheel := mod_timer wheel_init 7 300.

Lemma demo_wheel_ok : represents demo_wheel 0 (<[7 := 300]> ∅).
Proof. destruct wheel_init_ok as (nx & Hr & Hb). exists nx. split; [|done]. by apply (mod_timer_rep wheel_init 0 nx ∅ 7 300). Qed.

Lemma timer_wheel_refines_witness :
  represents (mod_timer wheel_init 7 300) 0 (<[7 := due 0 300]> ∅) /\ due 0 300 = 300.
Proof.
  split; [|reflexivity]. destruct timer_wheel_refines as (H1 & _ & H2 & _). apply (H2 wheel_init 0 ∅ 7 300 H1). lia.
Defined.

(** A timer that is set again, for a second later, each time its function is called. *)
Lemma run_timer_list_fires_all_witness :
  exists w' log P', run_timer_list 302 1 (fun _ => [Mod 7 401]) demo_wheel (u32 301) = Some (w', wrap log) /\
    (7, 300) ∈ log /\ represents w' 302 P' /\ (forall t d, P' !! t = Some d -> t = 7 /\ u32 d = 401).
Proof.
  assert (Hl : forall t : Z, Forall (late 0 301) [Mod 7 401]).
  { intros _. constructor; [|done]. exists 401. split; [reflexivity|lia]. }
  destruct (run_timer_list_fires_all (fun _ => [Mod 7 401]) 302 1 demo_wheel 0 (<[7 := 300]> ∅) 301
    Hl demo_wheel_ok ltac:(lia) ltac:(lia) ltac:(vm_compute; lia)) as (w' & log & P' & H1 & H2 & _ & _ & H3 & H4 & H5).
  assert (H6 : forall t d, (t, d) ∈ log -> t = 7).
  { intros t d [H _]%H3. apply lookup_insert_Some in H as [[? _]|[_ H]]; [done|by rewrite lookup_empty in H]. }
  exists w', log, P'. split_and!; [done| |done|].
  - destruct (decide ((7, 300) ∈ log)) as [|Hn]; [done|]. apply (H4 7 300); [apply lookup_insert_eq|].
    intros t' d' Hin Hd. exfalso. pose proof (H6 _ _ Hin) as ->. destruct (H3 _ _ Hin) as [H _].
    rewrite lookup_insert_eq in H. injection H as <-. exact (Hn Hin).
  - intros t d Ht. destruct (H5 t d Ht) as [Hd [H|(t' & d' & _ & [= -> E]%list_elem_of_singleton)]]; [|split; [reflexivity|exact E]].
    apply lookup_insert_Some in H as [[_ <-]|[_ H]]; [lia|by rewrite lookup_empty in H].
Defined.

Example demo_wheel_run :
  (r ← run_timer_list 302 1 (fun _ => []) demo_wheel 301; Some r.2) = Some [(7, 300)].
Proof. vm_compute. reflexivity. Qed.
