(* ===== verification/Sem.v ===== *)
(** * ipc/sem.c: System V semaphores

    The state is the table of semaphore sets, the undo structures of all processes
    (each with its owner; those that carry the identifier of a set are the list
    [sma->undo] of that set) and the queue entries of the sleeping processes.  A
    set's list of pending operations holds the pids of the entries linked in it.
    A call of [sys_semop] returns a value or goes to sleep; [semop_wake] is what a
    sleeper does when a wake-up or a signal ends its sleep.  User memory is
    readable and writable, and allocation does not sleep. *)

From stdpp Require Import functions gmap.
From S2P Require Import Prelude.

Definition SEMMNI : Z := 128.
Definition SEMMSL : Z := 32.
Definition SEMMNS : Z := SEMMNI * SEMMSL.
Definition SEMOPM : Z := 32.
Definition SEMVMX : Z := 32767.
Definition SEM_UNDO : Z := 0x1000.
Definition IPC_PRIVATE : Z := 0.
Definition IPC_CREAT : Z := 512.
Definition IPC_EXCL : Z := 1024.
Definition IPC_NOWAIT : Z := 2048.
Definition S_IRUGO : Z := 292.
Definition S_IWUGO : Z := 146.
Definition S_IRWXUGO : Z := 511.

Record ipc_perm := IpcPerm { key : Z; uid : Z; gid : Z; cuid : Z; cgid : Z; mode : Z; seq : Z }.

Record sem := Sem { semval : Z; sempid : Z }.

Record sembuf := Sembuf { sem_num : Z; sem_op : Z; sem_flg : Z }.

Record semid_ds := SemidDs {
  sem_perm : ipc_perm; sem_otime : Z; sem_ctime : Z; sem_base : Z -> sem; sem_pending : list Z; sem_nsems : Z }.

(** [q_set] is the index of the set; [q_linked] tells whether [prev] is not NULL;
    [q_any] is the local variable [alter] of the sleeping [sys_semop], [q_alter]
    the field. *)
Record sem_queue := SemQueue {
  q_set : Z; q_semid : Z; q_sops : list sembuf; q_undo : bool; q_status : Z; q_alter : bool; q_any : bool; q_linked : bool }.

Record sem_undo := SemUndo { un_owner : Z; un_semid : Z; semadj : Z -> Z }.

Record ipc := Ipc {
  semary : Z -> option semid_ds; used_sems : Z; used_semids : Z; max_semid : Z; sem_seq : Z;
  undos : list sem_undo; sleepers : gmap Z sem_queue }.

(** The caller: its ids and what [in_group_p] and [capable] answer. *)
Record caller := Caller {
  c_pid : Z; c_euid : Z; c_egid : Z; c_in_group : Z -> bool; c_ipc_owner : bool; c_sys_admin : bool }.

Definition set_semary (st : ipc) (id : Z) (s : option semid_ds) : ipc :=
  Ipc (<[id := s]> (semary st)) (used_sems st) (used_semids st) (max_semid st) (sem_seq st) (undos st) (sleepers st).

Definition set_undos (st : ipc) (u : list sem_undo) : ipc :=
  Ipc (semary st) (used_sems st) (used_semids st) (max_semid st) (sem_seq st) u (sleepers st).

Definition set_sleepers (st : ipc) (q : gmap Z sem_queue) : ipc :=
  Ipc (semary st) (used_sems st) (used_semids st) (max_semid st) (sem_seq st) (undos st) q.

Definition set_base (s : semid_ds) (b : Z -> sem) : semid_ds :=
  SemidDs (sem_perm s) (sem_otime s) (sem_ctime s) b (sem_pending s) (sem_nsems s).

Definition set_otime (s : semid_ds) (now : Z) : semid_ds :=
  SemidDs (sem_perm s) now (sem_ctime s) (sem_base s) (sem_pending s) (sem_nsems s).

Definition set_ctime (s : semid_ds) (now : Z) : semid_ds :=
  SemidDs (sem_perm s) (sem_otime s) now (sem_base s) (sem_pending s) (sem_nsems s).

Definition set_perm (s : semid_ds) (p : ipc_perm) : semid_ds :=
  SemidDs p (sem_otime s) (sem_ctime s) (sem_base s) (sem_pending s) (sem_nsems s).

Definition set_sem_pending (s : semid_ds) (l : list Z) : semid_ds :=
  SemidDs (sem_perm s) (sem_otime s) (sem_ctime s) (sem_base s) l (sem_nsems s).

Definition set_status (q : sem_queue) (status : Z) (linked : bool) : sem_queue :=
  SemQueue (q_set q) (q_semid q) (q_sops q) (q_undo q) status (q_alter q) (q_any q) linked.

(** ** Permissions (ipc/util.c) *)

(** [true] when access is refused. *)
Definition ipcperms (c : caller) (p : ipc_perm) (flag : Z) : bool :=
  let requested_mode := Z.lor (Z.lor (Z.shiftr flag 6) (Z.shiftr flag 3)) flag in
  let granted_mode :=
    if (c_euid c =? cuid p) || (c_euid c =? uid p) then Z.shiftr (mode p) 6
    else if c_in_group c (cgid p) || c_in_group c (gid p) then Z.shiftr (mode p) 3
    else mode p in
  negb (Z.land (Z.land requested_mode (Z.lnot granted_mode)) 7 =? 0) && negb (c_ipc_owner c).

(** ** Operations on a set *)

Definition has_flag (sop : sembuf) (flag : Z) : bool := negb (Z.land (sem_flg sop) flag =? 0).

(** The values, and the adjustments of the caller's undo structure. *)
Definition do_op (pid : Z) (b : (Z -> sem) * (Z -> Z)) (sop : sembuf) : (Z -> sem) * (Z -> Z) :=
  let '(base, adj) := b in
  let curr := base (sem_num sop) in
  (<[sem_num sop := Sem (s32 (semval curr + sem_op sop)) (Z.lor (s32 (Z.shiftl (sempid curr) 16)) pid)]> base,
   if has_flag sop SEM_UNDO then <[sem_num sop := s16 (adj (sem_num sop) - sem_op sop)]> adj else adj).

Definition undo_op (b : (Z -> sem) * (Z -> Z)) (sop : sembuf) : (Z -> sem) * (Z -> Z) :=
  let '(base, adj) := b in
  let curr := base (sem_num sop) in
  (<[sem_num sop := Sem (s32 (semval curr - sem_op sop)) (Z.shiftr (sempid curr) 16)]> base,
   if has_flag sop SEM_UNDO then <[sem_num sop := s16 (adj (sem_num sop) + sem_op sop)]> adj else adj).

(** [done] holds the operations before [sop], the last first.  The result is the
    error, if the loop was left early, and the operations to be undone. *)
Fixpoint semop_loop (pid : Z) (b : (Z -> sem) * (Z -> Z)) (done todo : list sembuf)
  : option Z * ((Z -> sem) * (Z -> Z)) * list sembuf :=
  match todo with
  | [] => (None, b, done)
  | sop :: todo =>
    let would_block := if has_flag sop IPC_NOWAIT then - EAGAIN else 1 in
    if (sem_op sop =? 0) && negb (semval (b.1 (sem_num sop)) =? 0) then (Some would_block, b, sop :: done) else
    let b := do_op pid b sop in
    if semval (b.1 (sem_num sop)) <? 0 then (Some would_block, b, sop :: done)
    else if SEMVMX <? semval (b.1 (sem_num sop)) then (Some (- ERANGE), b, sop :: done)
    else semop_loop pid b (sop :: done) todo
  end.

Definition try_atomic_semop (sma : semid_ds) (sops : list sembuf) (adj : Z -> Z) (pid : Z) (do_undo : bool) (now : Z)
  : Z * semid_ds * (Z -> Z) :=
  let '(err, b, done) := semop_loop pid (sem_base sma, adj) [] sops in
  let undo result := let '(base, adj) := fold_left undo_op done b in (result, set_base sma base, adj) in
  match err with
  | Some e => undo e
  | None => if do_undo then undo 0 else (0, set_otime (set_base sma b.1) now, b.2)
  end.

(** ** Undo structures *)

Definition has_key (pid semid : Z) (u : sem_undo) : bool := (un_owner u =? pid) && (un_semid u =? semid).

Definition find_undo (pid semid : Z) (l : list sem_undo) : option sem_undo := find (has_key pid semid) l.

Definition adj_of (st : ipc) (pid semid : Z) : Z -> Z :=
  match find_undo pid semid (undos st) with Some u => semadj u | None => fun _ => 0 end.

Definition set_adj (pid semid : Z) (adj : Z -> Z) (l : list sem_undo) : list sem_undo :=
  List.map (fun u => if has_key pid semid u then SemUndo pid semid adj else u) l.

(** [try_atomic_semop] for a process, on the set in slot [id]. *)
Definition try_semop (st : ipc) (id : Z) (sma : semid_ds) (semid : Z) (sops : list sembuf) (undo : bool) (pid : Z)
    (do_undo : bool) (now : Z) : Z * ipc :=
  let '(error, sma, adj) := try_atomic_semop sma sops (adj_of st pid semid) pid do_undo now in
  let st := set_semary st id (Some sma) in
  (error, if undo then set_undos st (set_adj pid semid adj (undos st)) else st).

(** ** The pending queue *)

Definition append_to_queue (st : ipc) (id : Z) (pid : Z) : ipc :=
  match semary st id with
  | Some sma => set_semary st id (Some (set_sem_pending sma (sem_pending sma ++ [pid])))
  | None => st
  end.

Definition prepend_to_queue (st : ipc) (id : Z) (pid : Z) : ipc :=
  match semary st id with
  | Some sma => set_semary st id (Some (set_sem_pending sma (pid :: sem_pending sma)))
  | None => st
  end.

Definition remove_from_queue (st : ipc) (id : Z) (pid : Z) : ipc :=
  match semary st id with
  | Some sma => set_semary st id (Some (set_sem_pending sma (filter (fun p => p <> pid) (sem_pending sma))))
  | None => st
  end.

Definition set_q (st : ipc) (pid : Z) (q : sem_queue) : ipc := set_sleepers st (<[pid := q]> (sleepers st)).

(** The pending operations from [l] on. *)
Fixpoint update_loop (l : list Z) (st : ipc) (id now : Z) : ipc :=
  match l with
  | [] => st
  | pid :: l =>
    match semary st id, sleepers st !! pid with
    | Some sma, Some q =>
      if q_status q =? 1 then st else
      let '(error, st) := try_semop st id sma (q_semid q) (q_sops q) (q_undo q) pid (q_alter q) now in
      if error <=? 0 then
        if (error =? 0) && q_alter q then set_q st pid (set_status q 1 (q_linked q))
        else update_loop l (set_q (remove_from_queue st id pid) pid (set_status q error false)) id now
      else update_loop l st id now
    | _, _ => st
    end
  end.

Definition update_queue (st : ipc) (id now : Z) : ipc :=
  match semary st id with Some sma => update_loop (sem_pending sma) st id now | None => st end.

Definition count_ops (st : ipc) (sma : semid_ds) (semnum : Z) (p : Z -> bool) : Z :=
  Z.of_nat (length (filter (fun sop => (sem_num sop =? semnum) && p (sem_op sop) && negb (has_flag sop IPC_NOWAIT) = true)
    (pid ← sem_pending sma; match sleepers st !! pid with Some q => q_sops q | None => [] end))).

Definition count_semncnt (st : ipc) (sma : semid_ds) (semnum : Z) : Z := count_ops st sma semnum (fun op => op <? 0).

Definition count_semzcnt (st : ipc) (sma : semid_ds) (semnum : Z) : Z := count_ops st sma semnum (fun op => op =? 0).

(** ** Sets *)

Definition sem_init : ipc := Ipc (fun _ => None) 0 0 0 0 [] ∅.

(** The first of the slots [id], [id + 1], ... that satisfies [p]. *)
Fixpoint find_slot {A} (n : nat) (p : option A -> bool) (a : Z -> option A) (id : Z) : option Z :=
  match n with
  | O => None
  | S n => if p (a id) then Some id else find_slot n p a (id + 1)
  end.

Definition findkey (st : ipc) (k : Z) : option Z :=
  find_slot (Z.to_nat (max_semid st + 1))
    (fun s => match s with Some sma => k =? key (sem_perm sma) | None => false end) (semary st) 0.

Definition is_unused {A} (s : option A) : bool := match s with None => true | Some _ => false end.

(** [alloc] tells whether [kmalloc] succeeds. *)
Definition newary (c : caller) (st : ipc) (k nsems semflg : Z) (alloc : bool) (now : Z) : Z * ipc :=
  if nsems =? 0 then (- EINVAL, st)
  else if SEMMNS <? used_sems st + nsems then (- ENOSPC, st)
  else match find_slot (Z.to_nat SEMMNI) is_unused (semary st) 0 with
  | None => (- ENOSPC, st)
  | Some id =>
    if negb alloc then (- ENOMEM, st) else
    let perm := IpcPerm k (c_euid c) (c_egid c) (c_euid c) (c_egid c) (Z.land semflg S_IRWXUGO) (sem_seq st) in
    let sma := SemidDs perm 0 now (fun _ => Sem 0 0) [] nsems in
    (sem_seq st * SEMMNI + id,
     Ipc (<[id := Some sma]> (semary st)) (used_sems st + nsems) (used_semids st + 1)
         (if max_semid st <? id then id else max_semid st) (sem_seq st) (undos st) (sleepers st))
  end.

Definition sys_semget (c : caller) (st : ipc) (k nsems semflg : Z) (alloc : bool) (now : Z) : Z * ipc :=
  if (nsems <? 0) || (SEMMSL <? nsems) then (- EINVAL, st)
  else if k =? IPC_PRIVATE then newary c st k nsems semflg alloc now
  else match findkey st k with
  | None =>
    if Z.land semflg IPC_CREAT =? 0 then (- ENOENT, st) else newary c st k nsems semflg alloc now
  | Some id =>
    if negb (Z.land semflg IPC_CREAT =? 0) && negb (Z.land semflg IPC_EXCL =? 0) then (- EEXIST, st)
    else match semary st id with
    | None => (- EINVAL, st)
    | Some sma =>
      if sem_nsems sma <? nsems then (- EINVAL, st)
      else if ipcperms c (sem_perm sma) semflg then (- EACCES, st)
      else (seq (sem_perm sma) * SEMMNI + id, st)
    end
  end.

(** [while (max_semid && (semary[--max_semid] == IPC_UNUSED));] *)
Fixpoint shrink_max {A} (n : nat) (a : Z -> option A) (m : Z) : Z :=
  match n with
  | O => m
  | S n => if m =? 0 then m else if is_unused (a (m - 1)) then shrink_max n a (m - 1) else m - 1
  end.

(** Every pending process is told that the set is gone. *)
Definition fail_pending (l : list Z) (q : gmap Z sem_queue) : gmap Z sem_queue :=
  fold_left (fun q pid => alter (fun e => set_status e (- EIDRM) false) pid q) l q.

Definition freeary (st : ipc) (id : Z) (sma : semid_ds) : ipc :=
  let semid := seq (sem_perm sma) * SEMMNI + id in
  Ipc (<[id := None]> (semary st)) (used_sems st - sem_nsems sma) (used_semids st - 1)
      (if id =? max_semid st then shrink_max (Z.to_nat SEMMNI) (semary st) id else max_semid st)
      (u16 ((sem_seq st + 1) mod (2 ^ 31 / SEMMNI)))
      (List.map (fun u => if un_semid u =? semid then SemUndo (un_owner u) (-1) (semadj u) else u) (undos st))
      (fail_pending (sem_pending sma) (sleepers st)).

Inductive semcmd :=
| GETPID | GETVAL | GETALL | GETNCNT | GETZCNT
| SETVAL (val : Z) | SETALL (sem_io : Z -> Z)
| IPC_RMID | IPC_SET (new_uid new_gid new_mode : Z) | IPC_STAT | IPC_INFO | SEM_STAT | OTHER.

(** The adjustments of all undo structures of a set, changed by [f]. *)
Definition adjust_undos (semid : Z) (f : (Z -> Z) -> Z -> Z) (l : list sem_undo) : list sem_undo :=
  List.map (fun u => if un_semid u =? semid then SemUndo (un_owner u) (un_semid u) (f (semadj u)) else u) l.

Definition owns (c : caller) (p : ipc_perm) : bool :=
  (c_euid c =? cuid p) || (c_euid c =? uid p) || c_sys_admin c.

Definition set_values (sma : semid_ds) (f : Z -> Z) (l : list Z) : semid_ds :=
  set_base sma (fold_left (fun b i => <[i := Sem (f i) (sempid (b i))]> b) l (sem_base sma)).

(** The commands on a set whose identifier has been checked. *)
Definition semctl_set (c : caller) (st : ipc) (id : Z) (sma : semid_ds) (semid semnum : Z) (cmd : semcmd) (now : Z) : Z * ipc :=
  let perm := sem_perm sma in
  let curr := sem_base sma semnum in
  let bad_num := sem_nsems sma <=? semnum in
  let no_read := ipcperms c perm S_IRUGO in
  match cmd with
  | GETVAL => (if bad_num then - EINVAL else if no_read then - EACCES else semval curr, st)
  | GETPID => (if bad_num then - EINVAL else if no_read then - EACCES else Z.land (sempid curr) 0xffff, st)
  | GETNCNT => (if bad_num then - EINVAL else if no_read then - EACCES else count_semncnt st sma semnum, st)
  | GETZCNT => (if bad_num then - EINVAL else if no_read then - EACCES else count_semzcnt st sma semnum, st)
  | GETALL | IPC_STAT => (if no_read then - EACCES else 0, st)
  | SETVAL val =>
    if bad_num then (- EINVAL, st)
    else if (SEMVMX <? val) || (val <? 0) then (- ERANGE, st)
    else if ipcperms c perm S_IWUGO then (- EACCES, st)
    else
      let st := set_undos st (adjust_undos semid (fun adj => <[semnum := 0]> adj) (undos st)) in
      let sma := set_ctime (set_values sma (fun _ => val) [semnum]) now in
      (0, update_queue (set_semary st id (Some sma)) id now)
  | SETALL sem_io =>
    if existsb (fun i => SEMVMX <? u16 (sem_io i)) (seqZ 0 (sem_nsems sma)) then (- ERANGE, st)
    else if ipcperms c perm S_IWUGO then (- EACCES, st)
    else
      let st := set_undos st (adjust_undos semid (fun adj i => if (0 <=? i) && (i <? sem_nsems sma) then 0 else adj i) (undos st)) in
      let sma := set_ctime (set_values sma (fun i => u16 (sem_io i)) (seqZ 0 (sem_nsems sma))) now in
      (0, update_queue (set_semary st id (Some sma)) id now)
  | IPC_RMID => if owns c perm then (0, freeary st id sma) else (- EPERM, st)
  | IPC_SET new_uid new_gid new_mode =>
    if owns c perm then
      let perm := IpcPerm (key perm) new_uid new_gid (cuid perm) (cgid perm)
        (Z.lor (Z.land (mode perm) (Z.lnot S_IRWXUGO)) (Z.land new_mode S_IRWXUGO)) (seq perm) in
      (0, set_semary st id (Some (set_ctime (set_perm sma perm) now)))
    else (- EPERM, st)
  | _ => (- EINVAL, st)
  end.

Definition sys_semctl (c : caller) (st : ipc) (semid semnum : Z) (cmd : semcmd) (now : Z) : Z * ipc :=
  if (semid <? 0) || (semnum <? 0) then (- EINVAL, st) else
  match cmd with
  | IPC_INFO => (max_semid st, st)
  | SEM_STAT =>
    if max_semid st <? semid then (- EINVAL, st) else
    match semary st semid with
    | None => (- EINVAL, st)
    | Some sma => (if ipcperms c (sem_perm sma) S_IRUGO then - EACCES else seq (sem_perm sma) * SEMMNI + semid, st)
    end
  | _ =>
    let id := semid mod SEMMNI in
    match semary st id with
    | None => (- EINVAL, st)
    | Some sma =>
      if negb (seq (sem_perm sma) =? semid / SEMMNI) then (- EIDRM, st)
      else semctl_set c st id sma semid semnum cmd now
    end
  end.

(** ** semop *)

(** A new undo structure for the caller, if it has none for the set. *)
Definition make_undo (st : ipc) (pid semid : Z) (alloc : bool) : option ipc :=
  match find_undo pid semid (undos st) with
  | Some _ => Some st
  | None => if alloc then Some (set_undos st (SemUndo pid semid (fun _ => 0) :: undos st)) else None
  end.

Definition finish (st : ipc) (id now : Z) (any : bool) : ipc := if any then update_queue st id now else st.

(** [None] as a result: the caller sleeps. *)
Definition sys_semop (c : caller) (st : ipc) (semid : Z) (sops : list sembuf) (alloc : bool) (now : Z) : option Z * ipc :=
  if (Z.of_nat (length sops) <? 1) || (semid <? 0) then (Some (- EINVAL), st)
  else if SEMOPM <? Z.of_nat (length sops) then (Some (- E2BIG), st)
  else
  let id := semid mod SEMMNI in
  match semary st id with
  | None => (Some (- EINVAL), st)
  | Some sma =>
    if negb (seq (sem_perm sma) =? semid / SEMMNI) then (Some (- EIDRM), st)
    else if existsb (fun sop => sem_nsems sma <=? sem_num sop) sops then (Some (- EFBIG), st)
    else
    let undo := existsb (fun sop => has_flag sop SEM_UNDO) sops in
    let decrease := existsb (fun sop => sem_op sop <? 0) sops in
    let any := existsb (fun sop => 0 <? sem_op sop) sops || decrease in
    if ipcperms c (sem_perm sma) (if any then S_IWUGO else S_IRUGO) then (Some (- EACCES), st)
    else match (if undo then make_undo st (c_pid c) semid alloc else Some st) with
    | None => (Some (- ENOMEM), st)
    | Some st =>
      let '(error, st) := try_semop st id sma semid sops undo (c_pid c) false now in
      if error <=? 0 then (Some error, finish st id now any)
      else
        let st := set_q st (c_pid c) (SemQueue id semid sops undo (- EINTR) decrease any true) in
        (None, if any then append_to_queue st id (c_pid c) else prepend_to_queue st id (c_pid c))
    end
  end.

Definition set_awake (st : ipc) (pid : Z) : ipc := set_sleepers st (delete pid (sleepers st)).

(** The body of the loop after [interruptible_sleep_on] returns. *)
Definition semop_wake (st : ipc) (pid now : Z) : option Z * ipc :=
  match sleepers st !! pid with
  | None => (None, st)
  | Some q =>
    if q_status q =? 1 then
      match semary st (q_set q) with
      | None => (None, st)
      | Some sma =>
        let '(error, st) := try_semop st (q_set q) sma (q_semid q) (q_sops q) (q_undo q) pid false now in
        if error <=? 0 then (Some error, finish (remove_from_queue (set_awake st pid) (q_set q) pid) (q_set q) now (q_any q))
        else (None, set_q st pid (set_status q (- EINTR) (q_linked q)))
      end
    else if q_linked q
    then (Some (q_status q), finish (remove_from_queue (set_awake st pid) (q_set q) pid) (q_set q) now (q_any q))
    else (Some (q_status q), set_awake st pid)
  end.

(** ** Exit *)

Definition exit_sem (pid : Z) (adj : Z -> Z) (b : Z -> sem) (i : Z) : Z -> sem :=
  let v := s32 (semval (b i) + adj i) in <[i := Sem (if v <? 0 then 0 else v) pid]> b.

(** One undo structure of the process. *)
Definition exit_undo (pid now : Z) (st : ipc) (u : sem_undo) : ipc :=
  if un_semid u =? -1 then st else
  let id := un_semid u mod SEMMNI in
  match semary st id with
  | None => st
  | Some sma =>
    if negb (seq (sem_perm sma) =? un_semid u / SEMMNI) then st else
    let sma := set_otime (set_base sma (fold_left (exit_sem pid (semadj u)) (seqZ 0 (sem_nsems sma)) (sem_base sma))) now in
    update_queue (set_semary st id (Some sma)) id now
  end.

Definition sem_exit (st : ipc) (pid now : Z) : ipc :=
  let st := match sleepers st !! pid with
            | Some q => set_awake (if q_linked q then remove_from_queue st (q_set q) pid else st) pid
            | None => st
            end in
  let mine := List.filter (fun u => un_owner u =? pid) (undos st) in
  fold_left (exit_undo pid now) mine (set_undos st (List.filter (fun u => negb (un_owner u =? pid)) (undos st))).

(** ** The operations of a call take effect together or not at all *)

(** The reference: the values after the operations, or the error. *)
Fixpoint ref_ops (v : Z -> Z) (sops : list sembuf) : (Z -> Z) + Z :=
  match sops with
  | [] => inl v
  | sop :: sops =>
    let would_block := if has_flag sop IPC_NOWAIT then - EAGAIN else 1 in
    let x := s32 (v (sem_num sop) + sem_op sop) in
    if (sem_op sop =? 0) && negb (v (sem_num sop) =? 0) then inr would_block
    else if x <? 0 then inr would_block
    else if SEMVMX <? x then inr (- ERANGE)
    else ref_ops (<[sem_num sop := x]> v) sops
  end.

(** The adjustments after the operations. *)
Definition ref_adj (adj : Z -> Z) (sops : list sembuf) : Z -> Z :=
  fold_left (fun adj sop => if has_flag sop SEM_UNDO then <[sem_num sop := s16 (adj (sem_num sop) - sem_op sop)]> adj else adj)
    sops adj.

(** The same values and adjustments; the pids may differ. *)
Definition same (b b' : (Z -> sem) * (Z -> Z)) : Prop :=
  (forall i, semval (b.1 i) = semval (b'.1 i)) /\ (forall i, b.2 i = b'.2 i).

Definition in_range (b : (Z -> sem) * (Z -> Z)) : Prop :=
  (forall i, - 2 ^ 31 <= semval (b.1 i) < 2 ^ 31) /\ (forall i, - 2 ^ 15 <= b.2 i < 2 ^ 15).

Lemma s16_range z : - 2 ^ 15 <= s16 z < 2 ^ 15.
Proof. unfold s16. pose proof (Z.mod_pos_bound (z + 2 ^ 15) (2 ^ 16)). lia. Qed.

Lemma s32_sub_add v x : - 2 ^ 31 <= v < 2 ^ 31 -> s32 (s32 (v + x) - x) = v.
Proof.
  intros Hv. unfold s32. replace ((v + x + 2 ^ 31) mod 2 ^ 32 - 2 ^ 31 - x + 2 ^ 31) with ((v + x + 2 ^ 31) mod 2 ^ 32 - x) by lia.
  rewrite Zminus_mod_idemp_l. replace (v + x + 2 ^ 31 - x) with (v + 2 ^ 31) by lia. rewrite Z.mod_small; lia.
Qed.

Lemma s16_add_sub v x : - 2 ^ 15 <= v < 2 ^ 15 -> s16 (s16 (v - x) + x) = v.
Proof.
  intros Hv. unfold s16. replace ((v - x + 2 ^ 15) mod 2 ^ 16 - 2 ^ 15 + x + 2 ^ 15) with ((v - x + 2 ^ 15) mod 2 ^ 16 + x) by lia.
  rewrite Zplus_mod_idemp_l. replace (v - x + 2 ^ 15 + x) with (v + 2 ^ 15) by lia. rewrite Z.mod_small; lia.
Qed.

#[export] Instance same_equiv : Equivalence same.
Proof.
  split.
  - by intros b.
  - intros b b' [H1 H2]. by split.
  - intros b1 b2 b3 [H1 H2] [H3 H4]. split; intros i; [by rewrite H1|by rewrite H2].
Qed.

Lemma insert_val (b : Z -> sem) k s i : semval ((<[k := s]> b) i) = if decide (k = i) then semval s else semval (b i).
Proof. case_decide as E; [subst i; by rewrite fn_lookup_insert|by rewrite fn_lookup_insert_ne]. Qed.

Lemma insert_adj (a : Z -> Z) k x i : (<[k := x]> a) i = if decide (k = i) then x else a i.
Proof. case_decide as E; [subst i; by rewrite fn_lookup_insert|by rewrite fn_lookup_insert_ne]. Qed.

#[export] Instance undo_op_proper : Proper (same ==> eq ==> same) undo_op.
Proof.
  intros [b a] [b' a'] [H1 H2] sop _ <-. cbn in *. split; cbn.
  - intros i. rewrite !insert_val. case_decide; [cbn; by rewrite H1|done].
  - intros i. destruct (has_flag sop SEM_UNDO); [|done]. rewrite !insert_adj. case_decide; [by rewrite H2|done].
Qed.

#[export] Instance undo_ops_proper dn : Proper (same ==> same) (fold_left undo_op dn).
Proof. induction dn as [|sop dn IH]; intros b b' H; [done|]. cbn. apply IH. by rewrite H. Qed.

Lemma undo_do pid b sop : in_range b -> same (undo_op (do_op pid b sop) sop) b.
Proof.
  destruct b as [base adj]. intros [H1 H2]. cbn in *. split; cbn.
  - intros i. rewrite !insert_val. case_decide as E; [|done]. subst i. cbn.
    rewrite decide_True by done. by apply s32_sub_add.
  - intros i. destruct (has_flag sop SEM_UNDO); [|done]. rewrite insert_adj. case_decide as E.
    + subst i. rewrite fn_lookup_insert. by apply s16_add_sub.
    + by rewrite insert_adj, decide_False by done.
Qed.

(** A waiting operation that was not carried out is undone harmlessly. *)
Lemma undo_zero b sop : in_range b -> sem_op sop = 0 -> same (undo_op b sop) b.
Proof.
  destruct b as [base adj]. intros [H1 H2] E. cbn in *. rewrite E. split; cbn; intros i.
  - rewrite insert_val. case_decide as Ei; [subst i; cbn|done]. rewrite Z.sub_0_r. apply s32_id. apply H1.
  - destruct (has_flag sop SEM_UNDO); [|done]. rewrite insert_adj. case_decide as Ei; [subst i|done].
    pose proof (s16_add_sub (adj (sem_num sop)) 0 (H2 _)) as H. rewrite Z.sub_0_r in H.
    assert (s16 (adj (sem_num sop)) = adj (sem_num sop)) as Hs by (unfold s16; rewrite Z.mod_small; specialize (H2 (sem_num sop)); lia).
    by rewrite Hs in H.
Qed.

Lemma do_op_range pid b sop : in_range b -> in_range (do_op pid b sop).
Proof.
  destruct b as [base adj]. intros [H1 H2]. cbn in *. split; cbn; intros i.
  - rewrite insert_val. case_decide; [apply s32_range|apply H1].
  - destruct (has_flag sop SEM_UNDO); [|apply H2]. rewrite insert_adj. case_decide; [apply s16_range|apply H2].
Qed.

(** Undoing what the loop did gives back the values it started from. *)
Lemma semop_loop_undo pid todo : forall b dn b0,
  in_range b -> same (fold_left undo_op dn b) b0 ->
  let '(_, b', dn') := semop_loop pid b dn todo in same (fold_left undo_op dn' b') b0.
Proof.
  induction todo as [|sop todo IH]; intros b dn b0 Hr Hb; cbn [semop_loop]; [done|].
  destruct (Z.eqb_spec (sem_op sop) 0) as [E0|E0]; cbn [andb]; [destruct (semval (b.1 (sem_num sop)) =? 0); cbn [negb]|].
  2: { cbn. by rewrite undo_zero. }
  all: assert (same (fold_left undo_op (sop :: dn) (do_op pid b sop)) b0) as H by (cbn; by rewrite undo_do).
  all: destruct (semval _ <? 0); [done|]; destruct (SEMVMX <? _); [done|]; apply IH; [by apply do_op_range|done].
Qed.

(** The loop computes the reference. *)
Lemma semop_loop_ref pid todo : forall b dn (v : Z -> Z),
  (forall i, semval (b.1 i) = v i) ->
  let '(err, b', _) := semop_loop pid b dn todo in
  match ref_ops v todo with
  | inl v' => err = None /\ (forall i, semval (b'.1 i) = v' i) /\ b'.2 = ref_adj b.2 todo
  | inr e => err = Some e
  end.
Proof.
  induction todo as [|sop todo IH]; intros [base adj] dn v Hv; cbn [semop_loop ref_ops fst snd]; [done|]. cbn in Hv. rewrite <-Hv.
  destruct (_ && _); [done|]. cbn [do_op fst snd]. rewrite insert_val, decide_True by done. cbn [semval].
  destruct (_ <? 0); [done|]. destruct (SEMVMX <? _); [done|].
  apply (IH (_, _)). cbn. intros i. rewrite insert_val, insert_adj. case_decide; [done|apply Hv].
Qed.

Lemma ref_ops_range sops : forall v v' i, ref_ops v sops = inl v' -> v' i = v i \/ 0 <= v' i <= SEMVMX.
Proof.
  induction sops as [|sop sops IH]; intros v v' i; cbn [ref_ops]; [intros [= <-]; by left|].
  destruct (_ && _); [done|]. destruct (Z.ltb_spec (s32 (v (sem_num sop) + sem_op sop)) 0); [done|].
  destruct (Z.ltb_spec SEMVMX (s32 (v (sem_num sop) + sem_op sop))); [done|].
  intros [->|H']%(IH _ _ i); [|by right]. rewrite insert_adj. case_decide; [by right|by left].
Qed.

Lemma try_atomic_semop_ok sma sops adj pid do_undo now :
  in_range (sem_base sma, adj) ->
  let '(r, sma', adj') := try_atomic_semop sma sops adj pid do_undo now in
  sem_perm sma' = sem_perm sma /\ sem_pending sma' = sem_pending sma /\ sem_nsems sma' = sem_nsems sma /\
  match ref_ops (fun i => semval (sem_base sma i)) sops with
  | inl v =>
    r = 0 /\ (forall i, v i = semval (sem_base sma i) \/ 0 <= v i <= SEMVMX) /\
    if do_undo then same (sem_base sma', adj') (sem_base sma, adj)
    else (forall i, semval (sem_base sma' i) = v i) /\ adj' = ref_adj adj sops
  | inr e => r = e /\ same (sem_base sma', adj') (sem_base sma, adj)
  end.
Proof.
  intros Hr. unfold try_atomic_semop.
  pose proof (semop_loop_undo pid sops (sem_base sma, adj) [] (sem_base sma, adj) Hr ltac:(done)) as Hu.
  pose proof (semop_loop_ref pid sops (sem_base sma, adj) [] (fun i => semval (sem_base sma i)) ltac:(done)) as Hl.
  destruct (semop_loop _ _ _ _) as [[err b] dn].
  destruct (ref_ops _ sops) as [v|e] eqn:E.
  - destruct Hl as (-> & Hv & Ha). destruct do_undo.
    + destruct (fold_left undo_op dn b) as [base' adj']. split_and!; try done. intros i. by apply (ref_ops_range _ _ _ i E).
    + split_and!; try done. intros i. by apply (ref_ops_range _ _ _ i E).
  - subst err. destruct (fold_left undo_op dn b) as [base' adj']. done.
Qed.

(** C33: the operations of a call take effect together or not at all.
    [try_atomic_semop] finds the first operation that would block (a wait for
    zero on a value that is not zero, or a value that would become negative) or
    leave the range, counting the earlier operations of the call as done; if
    there is one the result is 1, -EAGAIN or -ERANGE accordingly and all values
    and all undo adjustments are as before.  If there is none the result is 0,
    and unless only a test was asked for, all operations are done, every changed
    value lies between 0 and SEMVMX, and the undo adjustments are reduced by the
    operations that ask for it. *)
Theorem try_atomic_semop_correct sma sops adj pid do_undo now :
  in_range (sem_base sma, adj) ->
  let '(r, sma', adj') := try_atomic_semop sma sops adj pid do_undo now in
  sem_perm sma' = sem_perm sma /\ sem_pending sma' = sem_pending sma /\ sem_nsems sma' = sem_nsems sma /\
  match ref_ops (fun i => semval (sem_base sma i)) sops with
  | inl v =>
    r = 0 /\ (forall i, v i = semval (sem_base sma i) \/ 0 <= v i <= SEMVMX) /\
    if do_undo then same (sem_base sma', adj') (sem_base sma, adj)
    else (forall i, semval (sem_base sma' i) = v i) /\ adj' = ref_adj adj sops
  | inr e => r = e /\ same (sem_base sma', adj') (sem_base sma, adj)
  end.
Proof. apply try_atomic_semop_ok. Qed.

(** ** A run *)

Definition root_caller (pid : Z) : caller := Caller pid 0 0 (fun _ => false) true true.

(** Two semaphores, both zero. *)
Definition demo_sems : ipc := (sys_semget (root_caller 10) sem_init 0 2 384 true 1).2.

Definition op (n x : Z) : sembuf := Sembuf n x 0.

(** A process waits for zero on a semaphore whose value is 1: its last pid is gone. *)
Lemma wait_loses_pid :
  let st := (sys_semop (root_caller 11) demo_sems 0 [op 0 1] true 2).2 in
  let st' := (sys_semop (root_caller 12) st 0 [op 0 0] true 3).2 in
  (sys_semctl (root_caller 10) st 0 0 GETPID 4).1 = 11 /\
  (sys_semctl (root_caller 10) st' 0 0 GETPID 4).1 = 0.
Proof. split; vm_compute; reflexivity. Qed.

(** Processes 21 and 22 wait for the two semaphores; 23 gives the first, which 24
    takes away before 21 runs; 25 gives the second, whose waiter is not looked at
    because 21 has yet to run.  When 21 goes back to sleep, 22 sleeps on although
    its operation could be done, and nothing will wake it. *)
Definition lost_wakeup_state : ipc :=
  let st := (sys_semop (root_caller 21) demo_sems 0 [op 0 (-1)] true 2).2 in
  let st := (sys_semop (root_caller 22) st 0 [op 1 (-1)] true 3).2 in
  let st := (sys_semop (root_caller 23) st 0 [op 0 1] true 4).2 in
  let st := (sys_semop (root_caller 24) st 0 [op 0 (-1)] true 5).2 in
  let st := (sys_semop (root_caller 25) st 0 [op 1 1] true 6).2 in
  (semop_wake st 21 7).2.

Lemma semop_lost_wakeup :
  match semary lost_wakeup_state 0 with
  | Some sma => sem_pending sma = [21; 22] /\ semval (sem_base sma 1) = 1
  | None => False
  end /\
  option_map (fun q => (q_status q, q_sops q)) (sleepers lost_wakeup_state !! 22) = Some (- EINTR, [op 1 (-1)]) /\
  option_map q_status (sleepers lost_wakeup_state !! 21) = Some (- EINTR).
Proof. split_and!; vm_compute; try split; reflexivity. Qed.

(** The exit of a process that took one with SEM_UNDO, when the value has been
    brought back to the maximum by another. *)
Lemma exit_exceeds_maximum :
  let st := (sys_semctl (root_caller 10) demo_sems 0 0 (SETVAL SEMVMX) 2).2 in
  let st := (sys_semop (root_caller 31) st 0 [Sembuf 0 (-1) SEM_UNDO] true 3).2 in
  let st := (sys_semop (root_caller 32) st 0 [op 0 1] true 4).2 in
  (sys_semctl (root_caller 10) (sem_exit st 31 5) 0 0 GETVAL 6).1 = SEMVMX + 1.
Proof. vm_compute. reflexivity. Qed.

(** ** The invariant *)

Definition nsems_in (s : option semid_ds) : Z := match s with Some sma => sem_nsems sma | None => 0 end.

Definition total_sems (a : Z -> option semid_ds) : Z := foldr Z.add 0 (List.map (fun id => nsems_in (a id)) (seqZ 0 SEMMNI)).

Definition values_ok (sma : semid_ds) : Prop := forall i, 0 <= semval (sem_base sma i) < 2 ^ 31.

Definition adjs_ok (l : list sem_undo) : Prop := Forall (fun u => forall i, - 2 ^ 15 <= semadj u i < 2 ^ 15) l.

(** The operations of entry [q] stay inside the set. *)
Definition ops_inside (sma : semid_ds) (sops : list sembuf) : Prop := Forall (fun sop => 0 <= sem_num sop < sem_nsems sma) sops.

Record sem_ok (st : ipc) : Prop := SemOk {
  so_set : forall id sma, semary st id = Some sma ->
    0 <= id < SEMMNI /\ 1 <= sem_nsems sma <= SEMMSL /\ values_ok sma /\ NoDup (sem_pending sma);
  so_adj : adjs_ok (undos st);
  so_pending : forall id sma pid, semary st id = Some sma -> pid ∈ sem_pending sma ->
    exists q, sleepers st !! pid = Some q /\ q_linked q = true /\ q_set q = id /\ ops_inside sma (q_sops q);
  so_linked : forall pid q, sleepers st !! pid = Some q -> q_linked q = true ->
    exists sma, semary st (q_set q) = Some sma /\ pid ∈ sem_pending sma;
  so_retry : forall pid q, sleepers st !! pid = Some q -> q_status q = 1 -> q_linked q = true;
  so_used : used_sems st = total_sems (semary st);
  so_max : 0 <= max_semid st < SEMMNI /\ forall id, max_semid st < id -> semary st id = None
}.

Lemma total_update_list (a : Z -> option semid_ds) id s l :
  NoDup l ->
  foldr Z.add 0 (List.map (fun i => nsems_in ((<[id := s]> a) i)) l) =
  foldr Z.add 0 (List.map (fun i => nsems_in (a i)) l) + (if decide (id ∈ l) then nsems_in s - nsems_in (a id) else 0).
Proof.
  induction 1 as [|x l Hx Hl IH]; [done|]. cbn. rewrite IH. destruct (decide (id = x)) as [->|Hne].
  - rewrite fn_lookup_insert, (decide_True (P := x ∈ x :: l)), (decide_False (P := x ∈ l)) by set_solver. lia.
  - rewrite fn_lookup_insert_ne by done. destruct (decide (id ∈ l)).
    + rewrite decide_True by set_solver. lia.
    + rewrite decide_False by set_solver. lia.
Qed.

Lemma total_update a id s :
  0 <= id < SEMMNI -> total_sems (<[id := s]> a) = total_sems a + nsems_in s - nsems_in (a id).
Proof.
  intros Hid. unfold total_sems. rewrite total_update_list by apply NoDup_seqZ. rewrite decide_True by (by apply elem_of_seqZ). lia.
Qed.

(** A set changes, but not its size. *)
Lemma ok_set st id sma sma' :
  sem_ok st -> semary st id = Some sma -> sem_nsems sma' = sem_nsems sma -> sem_pending sma' = sem_pending sma ->
  values_ok sma' -> sem_ok (set_semary st id (Some sma')).
Proof.
  intros [H1 H2 H3 H4 H5 H6 [H7 H8]] Hs Hn Hp Hv. destruct (H1 _ _ Hs) as (Hid & Hns & _ & Hnd).
  assert (forall i s, (<[id := Some sma']> (semary st)) i = Some s ->
    (i = id /\ s = sma') \/ (i <> id /\ semary st i = Some s)) as Hl.
  { intros i s. destruct (decide (id = i)) as [<-|Hne]; [rewrite fn_lookup_insert; intros [= <-]; auto|].
    rewrite fn_lookup_insert_ne by done. auto. }
  split; cbn.
  - intros i s [[-> ->]|[_ Hi]]%Hl; [rewrite Hn, Hp; auto|by apply H1].
  - done.
  - intros i s pid [[-> ->]|[_ Hi]]%Hl Hpid; [|by eapply H3]. rewrite Hp in Hpid. unfold ops_inside. rewrite Hn. by eapply H3.
  - intros pid q Hq Hlk. destruct (H4 pid q Hq Hlk) as (s & Hs' & Hin). destruct (decide (id = q_set q)) as [E|Hne].
    + exists sma'. rewrite <-E in Hs' |- *. rewrite fn_lookup_insert. split; [done|]. rewrite Hp. by assert (s = sma) as <- by congruence.
    + exists s. by rewrite fn_lookup_insert_ne.
  - done.
  - rewrite total_update, Hs by done. cbn. lia.
  - split; [done|]. intros i Hi. destruct (decide (id = i)) as [<-|Hne]; [by rewrite H8 in Hs|]. rewrite fn_lookup_insert_ne by done. auto.
Qed.

Lemma ok_undos st l : sem_ok st -> adjs_ok l -> sem_ok (set_undos st l).
Proof. intros [H1 H2 H3 H4 H5 H6 H7] Hl. by split. Qed.

(** The status of an entry changes. *)
Lemma ok_status st pid q status :
  sem_ok st -> sleepers st !! pid = Some q -> (status = 1 -> q_linked q = true) ->
  sem_ok (set_q st pid (set_status q status (q_linked q))).
Proof.
  intros [H1 H2 H3 H4 H5 H6 H7] Hq Hst. set (q' := set_status q status (q_linked q)).
  assert (forall p x, <[pid := q']> (sleepers st) !! p = Some x -> exists y, sleepers st !! p = Some y /\
    q_linked x = q_linked y /\ q_set x = q_set y /\ (q_status x = 1 -> q_linked y = true)) as Hl.
  { intros p x [[<- <-]|[Hne Hp]]%lookup_insert_Some; [by exists q|]. exists x. split_and!; try done. by eapply H5. }
  split; cbn; try done.
  - intros id sma p Hs Hp. destruct (H3 id sma p Hs Hp) as (y & Hy & Hrest). destruct (decide (pid = p)) as [<-|Hne].
    + exists q'. rewrite lookup_insert_eq. by assert (y = q) as -> by congruence.
    + exists y. by rewrite lookup_insert_ne.
  - intros p x (y & Hy & -> & -> & _)%Hl. eauto.
  - intros p x (y & Hy & -> & _ & H)%Hl. auto.
Qed.

(** An entry leaves the queue of its set. *)
Lemma ok_leave st id sma pid (m : gmap Z sem_queue) :
  sem_ok st -> semary st id = Some sma ->
  (forall p, p <> pid -> m !! p = sleepers st !! p) ->
  (forall q, sleepers st !! pid = Some q -> q_linked q = true -> q_set q = id) ->
  (forall q, m !! pid = Some q -> q_linked q = false /\ q_status q <> 1) ->
  sem_ok (set_sleepers (set_semary st id (Some (set_sem_pending sma (filter (fun p => p <> pid) (sem_pending sma))))) m).
Proof.
  intros [H1 H2 H3 H4 H5 H6 [H7 H8]] Hs Hm Hset Hpid. destruct (H1 _ _ Hs) as (Hid & Hns & Hv & Hnd).
  set (sma' := set_sem_pending sma _).
  assert (forall i s p, (<[id := Some sma']> (semary st)) i = Some s -> p ∈ sem_pending s -> p <> pid /\
    exists s0, semary st i = Some s0 /\ sem_nsems s = sem_nsems s0 /\ p ∈ sem_pending s0) as Hl.
  { intros i s p. destruct (decide (id = i)) as [<-|Hne].
    - rewrite fn_lookup_insert. intros [= <-]. cbn. rewrite list_elem_of_filter. intros [? ?]. split; [done|]. by exists sma.
    - rewrite fn_lookup_insert_ne by done. intros Hi Hp. split; [|by exists s]. intros ->.
      destruct (H3 _ _ _ Hi Hp) as (q & Hq & Hlk & Hqs & _). specialize (Hset q Hq Hlk). congruence. }
  split; cbn.
  - intros i s. destruct (decide (id = i)) as [<-|Hne]; [|rewrite fn_lookup_insert_ne by done; apply H1].
    rewrite fn_lookup_insert. intros [= <-]. split; [done|]. split; [exact Hns|]. split; [exact Hv|]. by apply NoDup_filter.
  - done.
  - intros i s p Hi Hp. destruct (Hl i s p Hi Hp) as (Hne & s0 & Hi0 & Hn & Hp0). rewrite Hm by done. unfold ops_inside. rewrite Hn. by eapply H3.
  - intros p q Hq Hlk. destruct (decide (p = pid)) as [->|Hne]; [by destruct (Hpid q Hq); congruence|].
    rewrite Hm in Hq by done. destruct (H4 p q Hq Hlk) as (s & Hs' & Hin). destruct (decide (id = q_set q)) as [E|Hne'].
    + exists sma'. rewrite <-E in Hs' |- *. rewrite fn_lookup_insert. split; [done|]. assert (s = sma) as -> by congruence.
      cbn. by rewrite list_elem_of_filter.
    + exists s. by rewrite fn_lookup_insert_ne.
  - intros p q Hq Hst. destruct (decide (p = pid)) as [->|Hne]; [by destruct (Hpid q Hq)|]. rewrite Hm in Hq by done. by eapply H5.
  - rewrite total_update, Hs by done. cbn. lia.
  - split; [done|]. intros i Hi. destruct (decide (id = i)) as [<-|Hne]; [by rewrite H8 in Hs|]. rewrite fn_lookup_insert_ne by done. auto.
Qed.

(** A sleeper that is in no queue goes. *)
Lemma ok_awake st pid :
  sem_ok st -> (forall q, sleepers st !! pid = Some q -> q_linked q = false) -> sem_ok (set_awake st pid).
Proof.
  intros [H1 H2 H3 H4 H5 H6 H7] Hq. split; cbn; try done.
  - intros id sma p Hs Hp. destruct (H3 _ _ _ Hs Hp) as (q & Hqp & Hlk & Hrest). exists q. rewrite lookup_delete_ne; [done|].
    intros <-. specialize (Hq q Hqp). congruence.
  - intros p q [_ Hp]%lookup_delete_Some. by apply H4.
  - intros p q [_ Hp]%lookup_delete_Some. by eapply H5.
Qed.

(** A process goes to sleep. *)
Lemma ok_sleep st id sma pid q l :
  sem_ok st -> semary st id = Some sma -> sleepers st !! pid = None ->
  q_linked q = true -> q_set q = id -> ops_inside sma (q_sops q) ->
  (forall p, p ∈ l <-> p = pid \/ p ∈ sem_pending sma) -> NoDup l ->
  sem_ok (set_semary (set_q st pid q) id (Some (set_sem_pending sma l))).
Proof.
  intros [H1 H2 H3 H4 H5 H6 [H7 H8]] Hs Hfree Hlk Hqs Hops Hl Hnd. destruct (H1 _ _ Hs) as (Hid & Hns & Hv & _).
  split; cbn.
  - intros i s. destruct (decide (id = i)) as [<-|Hne]; [|rewrite fn_lookup_insert_ne by done; apply H1].
    rewrite fn_lookup_insert. by intros [= <-].
  - done.
  - intros i s p. assert (p <> pid -> forall s0, semary st i = Some s0 -> p ∈ sem_pending s0 -> exists q0,
      <[pid := q]> (sleepers st) !! p = Some q0 /\ q_linked q0 = true /\ q_set q0 = i /\ ops_inside s0 (q_sops q0)) as Hold.
    { intros Hne s0 Hs0 Hp. rewrite lookup_insert_ne by done. by eapply H3. }
    destruct (decide (id = i)) as [<-|Hne].
    + rewrite fn_lookup_insert. intros [= <-]. cbn. rewrite Hl. destruct (decide (p = pid)) as [->|Hp].
      * intros _. exists q. by rewrite lookup_insert_eq.
      * intros [?|Hin]; [done|]. apply (Hold Hp sma Hs Hin).
    + rewrite fn_lookup_insert_ne by done. intros Hi Hp. apply Hold; [|done..]. intros ->.
      destruct (H3 _ _ _ Hi Hp) as (q0 & Hq0 & _). congruence.
  - intros p q0. destruct (decide (pid = p)) as [<-|Hp].
    + rewrite lookup_insert_eq. intros [= <-] _. rewrite Hqs, fn_lookup_insert. eexists. split; [done|]. cbn. apply Hl. auto.
    + rewrite lookup_insert_ne by done. intros Hq0 Hlk0. destruct (H4 _ _ Hq0 Hlk0) as (s & Hs' & Hin).
      destruct (decide (id = q_set q0)) as [E|Hne].
      * rewrite <-E in Hs' |- *. rewrite fn_lookup_insert. eexists. split; [done|]. cbn. apply Hl. right. by assert (s = sma) as <- by congruence.
      * rewrite fn_lookup_insert_ne by done. by exists s.
  - intros p q0. destruct (decide (pid = p)) as [<-|Hp]; [rewrite lookup_insert_eq; by intros [= <-]|].
    rewrite lookup_insert_ne by done. apply H5.
  - rewrite total_update, Hs by done. cbn. lia.
  - split; [done|]. intros i Hi. destruct (decide (id = i)) as [<-|Hne]; [by rewrite H8 in Hs|]. rewrite fn_lookup_insert_ne by done. auto.
Qed.

(** ** Trying an operation *)

Lemma adj_of_range st pid semid : adjs_ok (undos st) -> forall i, - 2 ^ 15 <= adj_of st pid semid i < 2 ^ 15.
Proof.
  intros Ha i. unfold adj_of, find_undo. destruct (find _ _) as [u|] eqn:E; [|lia]. apply find_some in E as [E _].
  unfold adjs_ok in Ha. rewrite Forall_forall in Ha. apply (Ha u). by apply list_elem_of_In.
Qed.

Lemma set_adj_ok pid semid adj l : adjs_ok l -> (forall i, - 2 ^ 15 <= adj i < 2 ^ 15) -> adjs_ok (set_adj pid semid adj l).
Proof.
  intros Hl Ha. unfold adjs_ok, set_adj in *. apply Forall_fmap. eapply Forall_impl; [exact Hl|]. intros u Hu. cbn.
  destruct (has_key pid semid u); done.
Qed.

Lemma ref_adj_range sops : forall adj, (forall i, - 2 ^ 15 <= adj i < 2 ^ 15) -> forall i, - 2 ^ 15 <= ref_adj adj sops i < 2 ^ 15.
Proof.
  induction sops as [|sop sops IH]; intros adj Ha; [done|]. unfold ref_adj. cbn [fold_left]. apply IH. intros i.
  destruct (has_flag sop SEM_UNDO); [|done]. rewrite insert_adj. case_decide; [apply s16_range|done].
Qed.

Lemma try_semop_ok st id sma semid sops undo pid do_undo now :
  sem_ok st -> semary st id = Some sma ->
  let '(r, st') := try_semop st id sma semid sops undo pid do_undo now in
  sem_ok st' /\ sleepers st' = sleepers st /\
  exists sma', semary st' id = Some sma' /\ sem_pending sma' = sem_pending sma /\ sem_nsems sma' = sem_nsems sma.
Proof.
  intros Hok Hs. unfold try_semop. destruct (so_set _ Hok _ _ Hs) as (_ & _ & Hv & _).
  pose proof (adj_of_range st pid semid (so_adj _ Hok)) as Ha.
  assert (in_range (sem_base sma, adj_of st pid semid)) as Hr by (split; cbn; [intros i; specialize (Hv i); lia|done]).
  pose proof (try_atomic_semop_ok sma sops (adj_of st pid semid) pid do_undo now Hr) as H.
  destruct (try_atomic_semop _ _ _ _ _ _) as [[r sma'] adj']. destruct H as (_ & Hp & Hn & H).
  assert (values_ok sma' /\ (forall i, - 2 ^ 15 <= adj' i < 2 ^ 15)) as [Hv' Ha'].
  { destruct (ref_ops _ sops) as [v|e].
    - destruct H as (_ & Hrange & H). destruct do_undo.
      + destruct H as [H1 H2]. cbn in *. split; intros i; [by rewrite H1|by rewrite H2].
      + destruct H as [H1 ->]. split; [intros i|by apply ref_adj_range]. rewrite H1. unfold SEMVMX in *.
        specialize (Hv i). destruct (Hrange i) as [->|?]; lia.
    - destruct H as (_ & H1 & H2). cbn in *. split; intros i; [by rewrite H1|by rewrite H2]. }
  pose proof (ok_set st id sma sma' Hok Hs Hn Hp Hv') as Hok'.
  destruct undo; cbn.
  - split_and!; [apply ok_undos; [done|by apply set_adj_ok; [apply Hok|]]|done|]. rewrite fn_lookup_insert. by exists sma'.
  - split_and!; [done|done|]. rewrite fn_lookup_insert. by exists sma'.
Qed.

Lemma remove_from_queue_eq st id sma pid :
  semary st id = Some sma ->
  remove_from_queue st id pid = set_semary st id (Some (set_sem_pending sma (filter (fun p => p <> pid) (sem_pending sma)))).
Proof. unfold remove_from_queue. by intros ->. Qed.

(** ** The pending queue *)

Lemma update_loop_ok l : forall st id now,
  sem_ok st -> NoDup l -> (forall sma p, semary st id = Some sma -> p ∈ l -> p ∈ sem_pending sma) ->
  sem_ok (update_loop l st id now).
Proof.
  induction l as [|pid l IH]; intros st id now Hok Hnd Hl; cbn [update_loop]; [done|].
  apply NoDup_cons in Hnd as [Hpl Hnd]. destruct (semary st id) as [sma|] eqn:Hs; [|done].
  destruct (so_pending _ Hok id sma pid Hs) as (q & Hq & Hlk & Hqs & _); [apply (Hl sma); set_solver|]. rewrite Hq.
  destruct (q_status q =? 1); [done|].
  pose proof (try_semop_ok st id sma (q_semid q) (q_sops q) (q_undo q) pid (q_alter q) now Hok Hs) as Ht.
  destruct (try_semop _ _ _ _ _ _ _ _ _) as [error st']. destruct Ht as (Hok' & Hsl & sma' & Hs' & Hp' & Hn').
  rewrite <-Hsl in Hq. destruct (Z.leb_spec error 0) as [He|He].
  - destruct ((error =? 0) && q_alter q); [by apply ok_status|]. rewrite (remove_from_queue_eq _ _ _ _ Hs'). apply IH; [|done|].
    + apply (ok_leave st' id sma' pid (<[pid := set_status q error false]> (sleepers st')) Hok' Hs').
      * intros p Hp. by rewrite lookup_insert_ne.
      * intros q0 Hq0 _. congruence.
      * intros q0. rewrite lookup_insert_eq. intros [= <-]. cbn. split; [done|lia].
    + cbn. intros s p. rewrite fn_lookup_insert. intros [= <-] Hp. cbn. rewrite list_elem_of_filter, Hp'. split.
      * intros ->. done.
      * apply (Hl sma); [done|set_solver].
  - apply IH; [done..|]. intros s p Hs2 Hp. assert (s = sma') as -> by congruence. rewrite Hp'. apply (Hl sma); [done|set_solver].
Qed.

Lemma update_queue_ok st id now : sem_ok st -> sem_ok (update_queue st id now).
Proof.
  intros Hok. unfold update_queue. destruct (semary st id) as [sma|] eqn:Hs; [|done]. apply update_loop_ok; [done|by eapply so_set|].
  intros s p Hs'. by assert (s = sma) as -> by congruence.
Qed.

Lemma finish_ok st id now any : sem_ok st -> sem_ok (finish st id now any).
Proof. intros Hok. unfold finish. destruct any; [by apply update_queue_ok|done]. Qed.

Lemma leave_awake st id sma pid q :
  sem_ok st -> semary st id = Some sma -> sleepers st !! pid = Some q -> q_set q = id ->
  sem_ok (remove_from_queue (set_awake st pid) id pid).
Proof.
  intros Hok Hs Hq Hqs. rewrite (remove_from_queue_eq (set_awake st pid) id sma pid Hs).
  apply (ok_leave st id sma pid (delete pid (sleepers st)) Hok Hs).
  - intros p Hp. by rewrite lookup_delete_ne.
  - intros q0 Hq0 _. congruence.
  - intros q0 Hq0. by rewrite lookup_delete_eq in Hq0.
Qed.

(** ** The calls *)

Lemma semop_wake_ok st pid now : sem_ok st -> sem_ok (semop_wake st pid now).2.
Proof.
  intros Hok. unfold semop_wake. destruct (sleepers st !! pid) as [q|] eqn:Hq; [|done].
  destruct (Z.eqb_spec (q_status q) 1) as [E1|E1].
  - pose proof (so_retry _ Hok _ _ Hq E1) as Hlk. destruct (so_linked _ Hok _ _ Hq Hlk) as (sma & Hs & _). rewrite Hs.
    pose proof (try_semop_ok st (q_set q) sma (q_semid q) (q_sops q) (q_undo q) pid false now Hok Hs) as Ht.
    destruct (try_semop _ _ _ _ _ _ _ _ _) as [error st']. destruct Ht as (Hok' & Hsl & sma' & Hs' & _).
    rewrite <-Hsl in Hq. destruct (error <=? 0); cbn [snd].
    + apply finish_ok. by eapply leave_awake.
    + by apply ok_status.
  - destruct (q_linked q) eqn:Hlk; cbn [snd].
    + apply finish_ok. destruct (so_linked _ Hok _ _ Hq Hlk) as (sma & Hs & _). by eapply leave_awake.
    + apply ok_awake; [done|]. intros q0 Hq0. congruence.
Qed.

Lemma exit_sem_ok pid adj l : forall b, (forall i, 0 <= semval (b i) < 2 ^ 31) ->
  forall i, 0 <= semval (fold_left (exit_sem pid adj) l b i) < 2 ^ 31.
Proof.
  induction l as [|k l IH]; intros b Hb i; cbn [fold_left]; [done|]. apply IH. intros j. unfold exit_sem. rewrite insert_val.
  case_decide; [cbn|done]. pose proof (s32_range (semval (b k) + adj k)). destruct (Z.ltb_spec (s32 (semval (b k) + adj k)) 0); lia.
Qed.

Lemma exit_undo_ok pid now st u : sem_ok st -> sem_ok (exit_undo pid now st u).
Proof.
  intros Hok. unfold exit_undo. destruct (un_semid u =? -1); [done|]. destruct (semary st _) as [sma|] eqn:Hs; [|done].
  destruct (negb _); [done|]. apply update_queue_ok. eapply ok_set; [done..|]. intros i. cbn. apply exit_sem_ok. by eapply so_set.
Qed.

Lemma sem_exit_ok st pid now : sem_ok st -> sem_ok (sem_exit st pid now).
Proof.
  intros Hok. unfold sem_exit.
  assert (sem_ok (match sleepers st !! pid with
    | Some q => set_awake (if q_linked q then remove_from_queue st (q_set q) pid else st) pid | None => st end)) as Hok1.
  { destruct (sleepers st !! pid) as [q|] eqn:Hq; [|done]. destruct (q_linked q) eqn:Hlk.
    - destruct (so_linked _ Hok _ _ Hq Hlk) as (sma & Hs & _). pose proof (leave_awake st _ sma pid q Hok Hs Hq eq_refl) as H.
      revert H. unfold remove_from_queue. cbn. by rewrite Hs.
    - apply ok_awake; [done|]. intros q0 Hq0. congruence. }
  set (st1 := match sleepers st !! pid with Some _ => _ | None => _ end) in *.
  assert (sem_ok (set_undos st1 (List.filter (fun u => negb (un_owner u =? pid)) (undos st1)))) as Hok2.
  { apply ok_undos; [done|]. pose proof (so_adj _ Hok1) as Ha. unfold adjs_ok in *. rewrite Forall_forall in *.
    intros u Hu. apply Ha. apply list_elem_of_In, filter_In in Hu as [Hu _]. by apply list_elem_of_In. }
  generalize (List.filter (fun u => un_owner u =? pid) (undos st1)). intros l. revert Hok2. generalize (set_undos st1 (List.filter (fun u => negb (un_owner u =? pid)) (undos st1))).
  induction l as [|u l IH]; intros s Hs; [done|]. cbn. apply IH. by apply exit_undo_ok.
Qed.

Lemma make_undo_ok st pid semid alloc st' :
  sem_ok st -> make_undo st pid semid alloc = Some st' -> sem_ok st' /\ semary st' = semary st /\ sleepers st' = sleepers st.
Proof.
  intros Hok. unfold make_undo. destruct (find_undo _ _ _); [by intros [= <-]|]. destruct alloc; [|done]. intros [= <-].
  split; [|done]. apply ok_undos; [done|]. constructor; [cbn; lia|apply Hok].
Qed.

(** What the types of the arguments say. *)
Definition sops_ok (sops : list sembuf) : Prop := Forall (fun sop => 0 <= sem_num sop) sops.

Lemma sys_semop_ok c st semid sops alloc now :
  sem_ok st -> sops_ok sops -> sleepers st !! c_pid c = None -> sem_ok (sys_semop c st semid sops alloc now).2.
Proof.
  intros Hok Hsops Hfree. unfold sys_semop. destruct (_ || _); [done|]. destruct (SEMOPM <? _); [done|].
  destruct (semary st (semid mod SEMMNI)) as [sma|] eqn:Hs; [|done]. destruct (negb _); [done|].
  destruct (existsb (fun sop => sem_nsems sma <=? sem_num sop) sops) eqn:Ein; [done|].
  set (undo := existsb (fun sop => has_flag sop SEM_UNDO) sops).
  set (decrease := existsb (fun sop => sem_op sop <? 0) sops). set (any := _ || decrease).
  destruct (ipcperms _ _ _); [done|].
  destruct (if undo then make_undo st (c_pid c) semid alloc else Some st) as [st1|] eqn:Eu; [|done].
  assert (sem_ok st1 /\ semary st1 = semary st /\ sleepers st1 = sleepers st) as (Hok1 & Hs1 & Hsl1).
  { destruct undo; [by eapply make_undo_ok|by injection Eu as <-]. }
  assert (semary st1 (semid mod SEMMNI) = Some sma) as Hs2 by (by rewrite Hs1).
  pose proof (try_semop_ok st1 _ sma semid sops undo (c_pid c) false now Hok1 Hs2) as Ht.
  destruct (try_semop _ _ _ _ _ _ _ _ _) as [error st2]. destruct Ht as (Hok2 & Hsl & sma' & Hs' & Hp' & Hn').
  destruct (error <=? 0); cbn [snd]; [by apply finish_ok|].
  assert (sleepers st2 !! c_pid c = None) as Hfree2 by (by rewrite Hsl, Hsl1).
  assert (c_pid c ∉ sem_pending sma') as Hnp.
  { intros Hin. destruct (so_pending _ Hok2 _ _ _ Hs' Hin) as (q & Hq & _). congruence. }
  assert (ops_inside sma' sops) as Hins.
  { unfold ops_inside, sops_ok in *. rewrite Forall_forall in *. intros sop Hsop. split; [by apply Hsops|]. rewrite Hn'.
    destruct (Z.leb_spec (sem_nsems sma) (sem_num sop)); [|done]. exfalso.
    assert (existsb (fun sop => sem_nsems sma <=? sem_num sop) sops = true); [|congruence].
    apply existsb_exists. exists sop. split; [by apply list_elem_of_In|lia]. }
  destruct any; unfold append_to_queue, prepend_to_queue; cbn; rewrite Hs'.
  - eapply ok_sleep; try done; [set_solver|]. apply NoDup_app. split_and!; [by eapply so_set|set_solver|apply NoDup_singleton].
  - eapply ok_sleep; try done; [set_solver|]. apply NoDup_cons. split; [done|by eapply so_set].
Qed.

Lemma find_slot_spec {A} n p (a : Z -> option A) : forall id0 id, find_slot n p a id0 = Some id -> id0 <= id < id0 + Z.of_nat n /\ p (a id) = true.
Proof.
  induction n as [|n IH]; intros id0 id; cbn [find_slot]; [done|]. destruct (p (a id0)) eqn:E; [intros [= <-]; split; [lia|done]|].
  intros [? ?]%IH. split; [lia|done].
Qed.

Lemma newary_ok c st k nsems semflg alloc now :
  sem_ok st -> 0 <= nsems <= SEMMSL -> sem_ok (newary c st k nsems semflg alloc now).2.
Proof.
  intros Hok Hn. unfold newary. destruct (Z.eqb_spec nsems 0); [done|]. destruct (_ <? _); [done|].
  destruct (find_slot _ _ _ _) as [id|] eqn:Ef; [|done]. destruct alloc; [|done]. cbn [negb snd].
  apply find_slot_spec in Ef as [Hid Hu]. rewrite Z2Nat.id in Hid by done. destruct (semary st id) as [|] eqn:Hs; [done|].
  destruct Hok as [H1 H2 H3 H4 H5 H6 [H7 H8]]. split; cbn.
  - intros i s. destruct (decide (id = i)) as [<-|Hne]; [|rewrite fn_lookup_insert_ne by done; apply H1].
    rewrite fn_lookup_insert. intros [= <-]. cbn. split; [lia|]. split; [lia|]. split; [intros j; cbn; lia|constructor].
  - done.
  - intros i s pid. destruct (decide (id = i)) as [<-|Hne]; [|rewrite fn_lookup_insert_ne by done; apply H3].
    rewrite fn_lookup_insert. intros [= <-] []%not_elem_of_nil.
  - intros pid q Hq Hlk. destruct (H4 pid q Hq Hlk) as (s & Hs' & Hin). exists s. rewrite fn_lookup_insert_ne; [done|congruence].
  - done.
  - rewrite total_update, Hs by lia. cbn. lia.
  - split; [destruct (Z.ltb_spec (max_semid st) id); lia|]. intros i Hi. destruct (decide (id = i)) as [<-|Hne].
    + destruct (Z.ltb_spec (max_semid st) id); lia.
    + rewrite fn_lookup_insert_ne by done. apply H8. destruct (Z.ltb_spec (max_semid st) id); lia.
Qed.

Lemma sys_semget_ok c st k nsems semflg alloc now : sem_ok st -> sem_ok (sys_semget c st k nsems semflg alloc now).2.
Proof.
  intros Hok. unfold sys_semget. destruct (_ || _) eqn:E; [done|]. assert (0 <= nsems <= SEMMSL) as Hn by lia.
  destruct (k =? IPC_PRIVATE); [by apply newary_ok|]. destruct (findkey st k) as [id|].
  - destruct (_ && _); [done|]. destruct (semary st id) as [sma|]; [|done]. destruct (sem_nsems sma <? nsems); [done|]. by destruct (ipcperms _ _ _).
  - destruct (_ =? 0); [done|by apply newary_ok].
Qed.

Lemma fail_pending_lookup l : forall q p,
  fail_pending l q !! p = (if decide (p ∈ l) then (fun e => set_status e (- EIDRM) false) <$> q !! p else q !! p).
Proof.
  induction l as [|x l IH]; intros q p; [done|]. unfold fail_pending in *. cbn [fold_left]. rewrite IH.
  destruct (decide (x = p)) as [->|Hne].
  - rewrite lookup_alter_eq. rewrite (decide_True (P := p ∈ p :: l)) by set_solver. destruct (decide (p ∈ l)); [|done].
    by destruct (q !! p).
  - rewrite lookup_alter_ne by done. destruct (decide (p ∈ l)); [by rewrite decide_True by set_solver|by rewrite decide_False by set_solver].
Qed.

Lemma shrink_max_spec {A} n (a : Z -> option A) : forall m, 0 <= m <= Z.of_nat n ->
  0 <= shrink_max n a m <= m /\ forall i, shrink_max n a m < i < m -> a i = None.
Proof.
  induction n as [|n IH]; intros m Hm; cbn [shrink_max]; [split; [lia|intros; lia]|].
  destruct (Z.eqb_spec m 0); [split; [lia|intros; lia]|]. destruct (is_unused (a (m - 1))) eqn:E; [|split; [lia|intros; lia]].
  destruct (IH (m - 1) ltac:(lia)) as [H1 H2]. split; [lia|]. intros i Hi. destruct (decide (i = m - 1)) as [->|]; [|apply H2; lia].
  by destruct (a (m - 1)).
Qed.

Lemma freeary_ok st id sma : sem_ok st -> semary st id = Some sma -> sem_ok (freeary st id sma).
Proof.
  intros [H1 H2 H3 H4 H5 H6 [H7 H8]] Hs. destruct (H1 _ _ Hs) as (Hid & Hns & Hv & Hnd).
  assert (forall i s, (<[id := None]> (semary st)) i = Some s -> i <> id /\ semary st i = Some s) as Hl.
  { intros i s. destruct (decide (id = i)) as [<-|Hne]; [by rewrite fn_lookup_insert|]. rewrite fn_lookup_insert_ne by done. auto. }
  split; unfold freeary; cbn.
  - intros i s [_ Hi]%Hl. by apply H1.
  - unfold adjs_ok in *. apply Forall_fmap. eapply Forall_impl; [exact H2|]. intros u Hu. cbn. by destruct (_ =? _).
  - intros i s pid [Hne Hi]%Hl Hp. destruct (H3 _ _ _ Hi Hp) as (q & Hq & Hlk & Hqs & Hin). exists q.
    rewrite fail_pending_lookup, decide_False; [done|]. intros Hp'. destruct (H3 _ _ _ Hs Hp') as (q' & Hq' & _ & Hqs' & _). congruence.
  - intros pid q. rewrite fail_pending_lookup. case_decide as Ep.
    + destruct (sleepers st !! pid); [|done]. by intros [= <-].
    + intros Hq Hlk. destruct (H4 _ _ Hq Hlk) as (s & Hs' & Hin). exists s. rewrite fn_lookup_insert_ne; [done|]. intros E.
      rewrite <-E in Hs'. apply Ep. by assert (s = sma) as <- by congruence.
  - intros pid q. rewrite fail_pending_lookup. case_decide as Ep; [|apply H5]. destruct (sleepers st !! pid); [|done]. by intros [= <-].
  - rewrite total_update, Hs by done. cbn. lia.
  - destruct (Z.eqb_spec id (max_semid st)) as [E|E].
    + destruct (shrink_max_spec (Z.to_nat SEMMNI) (semary st) id) as [S1 S2]; [rewrite Z2Nat.id; [lia|done]|].
      split; [lia|]. intros i Hi. destruct (decide (id = i)) as [<-|Hne]; [by rewrite fn_lookup_insert|].
      rewrite fn_lookup_insert_ne by done. destruct (decide (i < id)); [apply S2; lia|apply H8; lia].
    + split; [done|]. intros i Hi. destruct (decide (id = i)) as [<-|Hne]; [by rewrite fn_lookup_insert|].
      rewrite fn_lookup_insert_ne by done. auto.
Qed.

Lemma adjust_undos_ok semid f l :
  adjs_ok l -> (forall adj, (forall i, - 2 ^ 15 <= adj i < 2 ^ 15) -> forall i, - 2 ^ 15 <= f adj i < 2 ^ 15) -> adjs_ok (adjust_undos semid f l).
Proof.
  intros Hl Hf. unfold adjs_ok, adjust_undos in *. apply Forall_fmap. eapply Forall_impl; [exact Hl|]. intros u Hu. cbn.
  destruct (_ =? _); [by apply Hf|done].
Qed.

Lemma set_values_ok sma f l : values_ok sma -> (forall i, i ∈ l -> 0 <= f i <= SEMVMX) -> values_ok (set_values sma f l).
Proof.
  intros Hv Hf. unfold set_values, values_ok. cbn. unfold values_ok in Hv. revert Hv Hf. generalize (sem_base sma).
  induction l as [|k l IH]; intros b Hb Hf; cbn [fold_left]; [done|]. apply IH; [|set_solver]. intros i. rewrite insert_val.
  case_decide; [|done]. cbn. unfold SEMVMX in *. specialize (Hf k ltac:(set_solver)). lia.
Qed.

Lemma sys_semctl_ok c st semid semnum cmd now : sem_ok st -> sem_ok (sys_semctl c st semid semnum cmd now).2.
Proof.
  intros Hok. unfold sys_semctl. destruct (_ || _); [done|].
  assert (sem_ok (match semary st (semid mod SEMMNI) with
    | None => (- EINVAL, st)
    | Some sma => if negb (seq (sem_perm sma) =? semid / SEMMNI) then (- EIDRM, st)
      else semctl_set c st (semid mod SEMMNI) sma semid semnum cmd now end).2) as Hset.
  { destruct (semary st _) as [sma|] eqn:Hs; [|done]. destruct (negb _); [done|]. destruct (so_set _ Hok _ _ Hs) as (_ & _ & Hv & _).
    destruct cmd as [| | | | |val|sem_io| |u g md| | | |]; cbn; try done.
    - destruct (_ <=? _); [done|]. destruct (_ || _) eqn:Ev; [done|]. destruct (ipcperms _ _ _); [done|]. cbn. apply update_queue_ok.
      eapply ok_set; [apply ok_undos; [done|apply adjust_undos_ok; [apply Hok|]]|exact Hs|done|done|].
      + intros adj Ha i. rewrite insert_adj. case_decide; [lia|done].
      + apply (set_values_ok sma (fun _ => val) [semnum] Hv). intros. lia.
    - destruct (existsb _ _) eqn:Ev; [done|]. destruct (ipcperms _ _ _); [done|]. cbn. apply update_queue_ok.
      eapply ok_set; [apply ok_undos; [done|apply adjust_undos_ok; [apply Hok|]]|exact Hs|done|done|].
      + intros adj Ha i. destruct (_ && _); [lia|done].
      + apply (set_values_ok sma (fun i => u16 (sem_io i)) _ Hv). intros i Hi. split; [unfold u16; apply Z.mod_pos_bound; lia|].
        destruct (Z.ltb_spec SEMVMX (u16 (sem_io i))) as [El|]; [|done]. exfalso.
        assert (existsb (fun i => SEMVMX <? u16 (sem_io i)) (seqZ 0 (sem_nsems sma)) = true); [|congruence].
        apply existsb_exists. exists i. split; [by apply list_elem_of_In|lia].
    - destruct (owns _ _); [|done]. by apply freeary_ok.
    - destruct (owns _ _); [|done]. by eapply ok_set. }
  destruct cmd; try exact Hset; [done|]. destruct (_ <? _); [done|]. by destruct (semary st semid).
Qed.

(** ** Reachable states *)

Inductive sem_step : ipc -> ipc -> Prop :=
| step_semget c st k nsems semflg alloc now : sem_step st (sys_semget c st k nsems semflg alloc now).2
| step_semctl c st semid semnum cmd now : sem_step st (sys_semctl c st semid semnum cmd now).2
| step_semop c st semid sops alloc now :
    sops_ok sops -> sleepers st !! c_pid c = None -> sem_step st (sys_semop c st semid sops alloc now).2
| step_wake st pid now : sem_step st (semop_wake st pid now).2
| step_exit st pid now : sem_step st (sem_exit st pid now).

Lemma sem_init_ok : sem_ok sem_init.
Proof.
  split; cbn; try done.
  - constructor.
Qed.

Lemma sem_step_ok st st' : sem_ok st -> sem_step st st' -> sem_ok st'.
Proof.
  intros Hok Hst. revert Hok.
  destruct Hst as [c s k nsems semflg alloc now|c s semid semnum cmd now|c s semid sops alloc now Hsops Hfree|s pid now|s pid now];
    intros Hok.
  - by apply sys_semget_ok.
  - by apply sys_semctl_ok.
  - by apply sys_semop_ok.
  - by apply semop_wake_ok.
  - by apply sem_exit_ok.
Qed.

(** C34: in every state that calls of semget, semctl and semop, wake-ups (also
    spurious ones and signals) and exits of processes can lead to, in any order:
    all semaphore values are between 0 and 2^31 and all undo adjustments fit a
    short; the pending list of a set holds exactly the entries of the sleeping
    processes linked in it, each once and with operations on semaphores inside
    the set; an entry told to retry is linked in the list of a set that exists;
    the number of semaphores in use is the sum over the sets; and no set lies
    above [max_semid]. *)
Theorem sem_reachable_ok st : rtc sem_step sem_init st -> sem_ok st.
Proof.
  intros H. cut (sem_ok sem_init -> sem_ok st); [intros Hi; apply Hi, sem_init_ok|].
  induction H as [s|s1 s2 s3 Hst _ IH]; [done|]. intros Hs. by apply IH, (sem_step_ok s1).
Qed.

Lemma try_atomic_semop_correct_witness :
  let sma := SemidDs (IpcPerm 0 0 0 0 0 0 0) 0 0 (fun _ => Sem 3 9) [] 2 in
  let '(r, sma', adj') := try_atomic_semop sma [op 0 (-2); op 1 (-4)] (fun _ => 0) 11 false 5 in
  r = 1 /\ same (sem_base sma', adj') (sem_base sma, fun _ => 0).
Proof.
  intros sma.
  pose proof (try_atomic_semop_correct sma [op 0 (-2); op 1 (-4)] (fun _ => 0) 11 false 5) as H.
  destruct (try_atomic_semop _ _ _ _ _ _) as [[r sma'] adj']. destruct H as (_ & _ & _ & H); [split; intros i; cbn; lia|].
  exact H.
Defined.

Lemma sem_reachable_ok_witness : sem_ok lost_wakeup_state /\ used_sems lost_wakeup_state = 2.
Proof.
  split; [|vm_compute; reflexivity]. apply sem_reachable_ok. unfold lost_wakeup_state.
  assert (forall n x, sops_ok [op n x] <-> 0 <= n) as Hs by (intros; unfold sops_ok; rewrite Forall_singleton; done).
  eapply rtc_r; [|apply step_wake].
  eapply rtc_r; [|apply step_semop; [apply Hs; done|vm_compute; reflexivity]].
  eapply rtc_r; [|apply step_semop; [apply Hs; done|vm_compute; reflexivity]].
  eapply rtc_r; [|apply step_semop; [apply Hs; done|vm_compute; reflexivity]].
  eapply rtc_r; [|apply step_semop; [apply Hs; done|vm_compute; reflexivity]].
  eapply rtc_r; [|apply step_semop; [apply Hs; done|vm_compute; reflexivity]].
  eapply rtc_r; [|apply step_semget]. apply rtc_refl.
Defined.
