(* ===== verification/Pipe.v ===== *)
(** * fs/pipe.c and fs/fifo.c: pipes and fifos

    One pipe inode with everything that uses it: the ring buffer and its counters,
    the open files, and the calls in progress.  A call runs from one point where
    it can sleep to the next; [step] executes one such piece of one call, so that
    a list of labels is a schedule and [run] executes it.  The reader takes bytes
    out of the ring, and the writer reserves room in it, before the bytes are
    copied: the copy is a piece of its own.  Sleeping is explicit ([asleep]), and
    so is waking up.

    The state also records the finished calls, all bytes that writers put into the
    ring and all bytes that readers got, since the page was allocated.  User memory
    is accessible; [i_sem], which a writer gives up for the time of the call, and
    the time stamps are left out. *)

From stdpp Require Import functions gmap.
From S2P Require Import Prelude.

Definition PIPE_BUF : Z := 4096.

(** ** The inode *)

Record pipe_inode_info := Pipe {
  base : option (Z -> Z); start : Z; len : Z; lock : Z; rd_openers : Z; wr_openers : Z; readers : Z; writers : Z }.

Abbreviation pipe := pipe_inode_info.

Definition set_base (p : pipe) (b : option (Z -> Z)) : pipe :=
  Pipe b (start p) (len p) (lock p) (rd_openers p) (wr_openers p) (readers p) (writers p).

Definition set_ring (p : pipe) (s l : Z) : pipe :=
  Pipe (base p) s l (lock p) (rd_openers p) (wr_openers p) (readers p) (writers p).

Definition add_lock (p : pipe) (n : Z) : pipe :=
  Pipe (base p) (start p) (len p) (lock p + n) (rd_openers p) (wr_openers p) (readers p) (writers p).

Definition add_openers (p : pipe) (r w : Z) : pipe :=
  Pipe (base p) (start p) (len p) (lock p) (rd_openers p + r) (wr_openers p + w) (readers p) (writers p).

Definition add_users (p : pipe) (r w : Z) : pipe :=
  Pipe (base p) (start p) (len p) (lock p) (rd_openers p) (wr_openers p) (readers p + r) (writers p + w).

Definition PIPE_EMPTY (p : pipe) : bool := len p =? 0.

Definition PIPE_FREE (p : pipe) : Z := PIPE_BUF - len p.

Definition PIPE_END (p : pipe) : Z := Z.land (start p + len p) (PIPE_BUF - 1).

Definition PIPE_MAX_RCHUNK (p : pipe) : Z := PIPE_BUF - start p.

Definition PIPE_MAX_WCHUNK (p : pipe) : Z := PIPE_BUF - PIPE_END p.

(** ** One turn of the copying loops *)

(** The new state of the ring, where the bytes are, and how many; [None] when the
    loop ends. *)
Definition read_chunk (p : pipe) (count : Z) : option (pipe * Z * Z) :=
  let size := len p in
  if (0 <? count) && negb (size =? 0) then
    let chars := PIPE_MAX_RCHUNK p in
    let chars := if count <? chars then count else chars in
    let chars := if size <? chars then size else chars in
    Some (set_ring p (Z.land (start p + chars) (PIPE_BUF - 1)) (len p - chars), start p, chars)
  else None.

Definition write_chunk (p : pipe) (count : Z) : option (pipe * Z * Z) :=
  let free := PIPE_FREE p in
  if (0 <? count) && negb (free =? 0) then
    let chars := PIPE_MAX_WCHUNK p in
    let chars := if count <? chars then count else chars in
    let chars := if free <? chars then free else chars in
    Some (set_ring p (start p) (len p + chars), PIPE_END p, chars)
  else None.

(** [copy_to_user] from the page and [copy_from_user] into it. *)
Definition copy_out (b : Z -> Z) (src chars : Z) : list Z := (fun i => b (src + i)) <$> seqZ 0 chars.

Definition copy_in (b : Z -> Z) (dst : Z) (data : list Z) : Z -> Z :=
  fun a => if (dst <=? a) && (a <? dst + Z.of_nat (length data)) then data !!! Z.to_nat (a - dst) else b a.

(** ** Files and calls in progress *)

(** The tables of operations. *)
Inductive file_operations :=
| connecting_fifo_fops | read_fifo_fops | write_fifo_fops | rdwr_fifo_fops
| read_pipe_fops | write_pipe_fops | rdwr_pipe_fops.

#[global] Instance file_operations_eq_dec : EqDecision file_operations.
Proof. solve_decision. Defined.

(** [f_mode] by its bits FMODE_READ and FMODE_WRITE. *)
Record file := File { f_rd : bool; f_wr : bool; f_nonblock : bool; f_op : file_operations }.

Definition set_op (fl : file) (op : file_operations) : file := File (f_rd fl) (f_wr fl) (f_nonblock fl) op.

Definition set_nonblock (fl : file) (nb : bool) : file := File (f_rd fl) (f_wr fl) nb (f_op fl).

(** Where a call is.  [buf] holds what the reader has been given; [count] is what it
    still wants.  Of the writer's [data], [written] bytes have got their place; in
    [WriteCopy] the last [chars] of them are about to be copied to [dst].  The
    locations of [fifo_open] are its loops and the allocation of the page. *)
Inductive thread :=
| ReadTest (f count : Z) (asleep : bool)
| ReadLoop (f count : Z) (buf : list Z)
| ReadCopy (f count : Z) (buf : list Z) (src chars : Z)
| WriteDown (f : Z) (data : list Z) (free : Z)
| WriteTest (f : Z) (data : list Z) (free written : Z) (asleep : bool)
| WriteLoop (f : Z) (data : list Z) (written : Z)
| WriteCopy (f : Z) (data : list Z) (written dst chars : Z)
| OpenRdWait (nonblock asleep : bool)
| OpenRdEnd (nonblock : bool) (retval : Z) (asleep : bool)
| OpenWrWait (nonblock asleep : bool)
| OpenWrEnd (nonblock : bool) (retval : Z) (asleep : bool)
| OpenRwFirst (nonblock asleep : bool)
| OpenRwSecond (nonblock asleep : bool)
| OpenPage (fl : file).

(** Finished calls. *)
Record rcall := Rcall { r_count : Z; r_buf : list Z; r_result : Z }.
Record wcall := Wcall { w_data : list Z; w_result : Z; w_sigpipe : bool }.

(** [holder] is the call that has raised [lock]; [mutex] is the call that has got
    [i_atomic_write]; [lost_r] and [lost_w] count the users that a failed open has
    left in [readers] and [writers]. *)
Record sys := Sys {
  fifo : bool; pp : pipe; mutex : option Z; files : gmap Z file; threads : gmap Z thread;
  holder : option Z; sent : list Z; rcvd : list Z; wlog : list wcall; rlog : list rcall; olog : list Z;
  lost_r : Z; lost_w : Z }.

Definition set_pipe (s : sys) (p : pipe) : sys :=
  Sys (fifo s) p (mutex s) (files s) (threads s) (holder s) (sent s) (rcvd s) (wlog s) (rlog s) (olog s) (lost_r s) (lost_w s).

Definition set_mutex (s : sys) (m : option Z) : sys :=
  Sys (fifo s) (pp s) m (files s) (threads s) (holder s) (sent s) (rcvd s) (wlog s) (rlog s) (olog s) (lost_r s) (lost_w s).

Definition set_files (s : sys) (f : gmap Z file) : sys :=
  Sys (fifo s) (pp s) (mutex s) f (threads s) (holder s) (sent s) (rcvd s) (wlog s) (rlog s) (olog s) (lost_r s) (lost_w s).

Definition set_threads (s : sys) (t : gmap Z thread) : sys :=
  Sys (fifo s) (pp s) (mutex s) (files s) t (holder s) (sent s) (rcvd s) (wlog s) (rlog s) (olog s) (lost_r s) (lost_w s).

Definition set_holder (s : sys) (h : option Z) : sys :=
  Sys (fifo s) (pp s) (mutex s) (files s) (threads s) h (sent s) (rcvd s) (wlog s) (rlog s) (olog s) (lost_r s) (lost_w s).

Definition set_data (s : sys) (w r : list Z) : sys :=
  Sys (fifo s) (pp s) (mutex s) (files s) (threads s) (holder s) w r (wlog s) (rlog s) (olog s) (lost_r s) (lost_w s).

Definition set_logs (s : sys) (w : list wcall) (r : list rcall) : sys :=
  Sys (fifo s) (pp s) (mutex s) (files s) (threads s) (holder s) (sent s) (rcvd s) w r (olog s) (lost_r s) (lost_w s).

Definition set_opens (s : sys) (o : list Z) (lr lw : Z) : sys :=
  Sys (fifo s) (pp s) (mutex s) (files s) (threads s) (holder s) (sent s) (rcvd s) (wlog s) (rlog s) o lr lw.

Definition put (s : sys) (t : Z) (th : thread) : sys := set_threads s (<[t := th]> (threads s)).

Definition gone (s : sys) (t : Z) : sys := set_threads s (delete t (threads s)).

Definition wake (th : thread) : thread :=
  match th with
  | ReadTest f n _ => ReadTest f n false
  | WriteTest f d fr w _ => WriteTest f d fr w false
  | OpenRdWait nb _ => OpenRdWait nb false
  | OpenRdEnd nb r _ => OpenRdEnd nb r false
  | OpenWrWait nb _ => OpenWrWait nb false
  | OpenWrEnd nb r _ => OpenWrEnd nb r false
  | OpenRwFirst nb _ => OpenRwFirst nb false
  | OpenRwSecond nb _ => OpenRwSecond nb false
  | th => th
  end.

Definition wake_up_interruptible (s : sys) : sys := set_threads s (wake <$> threads s).

Definition wake_if (c : bool) (s : sys) : sys := if c then wake_up_interruptible s else s.

(** ** pipe_read *)

Definition read_return (s : sys) (t count : Z) (buf : list Z) (result : Z) : sys :=
  gone (set_logs s (wlog s) (rlog s ++ [Rcall count buf result])) t.

Definition read_lock (s : sys) (t f count : Z) : sys :=
  put (set_holder (set_pipe s (add_lock (pp s) 1)) (Some t)) t (ReadLoop f count []).

(** [at_pos]: the position is that of the file ([ppos == &filp->f_pos]). *)
Definition pipe_read (s : sys) (t f : Z) (fl : file) (count : Z) (at_pos : bool) : sys :=
  let p := pp s in
  if negb at_pos then read_return s t count [] (- ESPIPE)
  else if f_nonblock fl then
    if negb (lock p =? 0) then read_return s t count [] (- EAGAIN)
    else if PIPE_EMPTY p then read_return s t count [] (if negb (writers p =? 0) then - EAGAIN else 0)
    else read_lock s t f count
  else put s t (ReadTest f count false).

(** The loop that waits for bytes; [sig] is [signal_pending]. *)
Definition read_test (s : sys) (t f count : Z) (sig : bool) : sys :=
  let p := pp s in
  if PIPE_EMPTY p || negb (lock p =? 0) then
    if PIPE_EMPTY p && ((writers p =? 0) || (count =? 0)) then read_return s t count [] 0
    else if sig then read_return s t count [] (- ERESTARTSYS)
    else put s t (ReadTest f count true)
  else read_lock s t f count.

Definition read_loop (s : sys) (t f count : Z) (buf : list Z) : sys :=
  match read_chunk (pp s) count with
  | Some (p, src, chars) => put (set_pipe s p) t (ReadCopy f (count - chars) buf src chars)
  | None =>
    let read := Z.of_nat (length buf) in
    let s := wake_up_interruptible (set_holder (set_pipe s (add_lock (pp s) (-1))) None) in
    read_return s t (count + read) buf
      (if negb (read =? 0) then read else if negb (writers (pp s) =? 0) then - EAGAIN else 0)
  end.

Definition read_copy (s : sys) (t f count : Z) (buf : list Z) (src chars : Z) : option sys :=
  b ← base (pp s);
  let bytes := copy_out b src chars in
  Some (put (set_data s (sent s) (rcvd s ++ bytes)) t (ReadLoop f count (buf ++ bytes))).

(** ** pipe_write *)

Definition write_return (s : sys) (t : Z) (data : list Z) (result : Z) (sigpipe : bool) : sys :=
  gone (set_logs s (wlog s ++ [Wcall data result sigpipe]) (rlog s)) t.

Definition pipe_write (s : sys) (t f : Z) (data : list Z) (at_pos : bool) : sys :=
  let count := Z.of_nat (length data) in
  if negb at_pos then write_return s t data (- ESPIPE) false
  else if readers (pp s) =? 0 then write_return s t data (- EPIPE) true
  else put s t (WriteDown f data (if count <=? PIPE_BUF then count else 1)).

(** [down_interruptible(&inode->i_atomic_write)]. *)
Definition write_down (s : sys) (t f : Z) (data : list Z) (free : Z) (sig : bool) : option sys :=
  match mutex s with
  | None => Some (put (set_mutex s (Some t)) t (WriteTest f data free 0 false))
  | Some _ => if sig then Some (write_return s t data (- ERESTARTSYS) false) else None
  end.

(** From [errout] on; also the end of the loop, with [err = 0]. *)
Definition write_finish (s : sys) (t : Z) (data : list Z) (written err : Z) : sys :=
  write_return (set_mutex s None) t data (if written =? 0 then err else written) (err =? - EPIPE).

Definition write_test (s : sys) (t f : Z) (fl : file) (data : list Z) (free written : Z) (sig : bool) : sys :=
  let p := pp s in
  if negb (0 <? Z.of_nat (length data) - written) then write_finish s t data written 0
  else if (PIPE_FREE p <? free) || negb (lock p =? 0) then
    if readers p =? 0 then write_finish s t data written (- EPIPE)
    else if sig then write_finish s t data written (- ERESTARTSYS)
    else if f_nonblock fl then write_finish s t data written (- EAGAIN)
    else put s t (WriteTest f data free written true)
  else put (set_holder (set_pipe s (add_lock p 1)) (Some t)) t (WriteLoop f data written).

(** The bytes of the chunk of [chars] bytes that ends at [written]. *)
Definition chunk (data : list Z) (written chars : Z) : list Z :=
  take (Z.to_nat chars) (drop (Z.to_nat (written - chars)) data).

Definition write_loop (s : sys) (t f : Z) (data : list Z) (written : Z) : sys :=
  match write_chunk (pp s) (Z.of_nat (length data) - written) with
  | Some (p, dst, chars) =>
    put (set_data (set_pipe s p) (sent s ++ chunk data (written + chars) chars) (rcvd s)) t
      (WriteCopy f data (written + chars) dst chars)
  | None =>
    put (wake_up_interruptible (set_holder (set_pipe s (add_lock (pp s) (-1))) None)) t (WriteTest f data 1 written false)
  end.

Definition write_copy (s : sys) (t f : Z) (data : list Z) (written dst chars : Z) : option sys :=
  b ← base (pp s);
  Some (put (set_pipe s (set_base (pp s) (Some (copy_in b dst (chunk data written chars))))) t (WriteLoop f data written)).

(** ** The other operations of a file *)

Definition pipe_lseek (offset orig : Z) : Z := - ESPIPE.

Definition bad_pipe_r (s : sys) (t count : Z) : sys := read_return s t count [] (- EBADF).

Definition bad_pipe_w (s : sys) (t : Z) (data : list Z) : sys := write_return s t data (- EBADF) false.

(** The value stored by FIONREAD, or the error. *)
Definition pipe_ioctl (p : pipe) (fionread : bool) : Z := if fionread then len p else - EINVAL.

Definition POLLIN : Z := 1.
Definition POLLOUT : Z := 4.
Definition POLLERR : Z := 8.
Definition POLLHUP : Z := 16.
Definition POLLRDNORM : Z := 0x40.
Definition POLLWRNORM : Z := 0x100.

Definition pipe_poll (p : pipe) : Z :=
  let mask := if PIPE_EMPTY p then Z.lor POLLOUT POLLWRNORM else Z.lor POLLIN POLLRDNORM in
  let mask := if writers p =? 0 then Z.lor mask POLLHUP else mask in
  if readers p =? 0 then Z.lor mask POLLERR else mask.

Definition connect_read (s : sys) (t f : Z) (fl : file) (count : Z) (at_pos : bool) : sys :=
  if PIPE_EMPTY (pp s) && (writers (pp s) =? 0) then read_return s t count [] 0
  else
    let fl := set_op fl read_fifo_fops in
    pipe_read (set_files s (<[f := fl]> (files s))) t f fl count at_pos.

Definition connect_poll (s : sys) (f : Z) (fl : file) : Z * sys :=
  let connected := set_files s (<[f := set_op fl read_fifo_fops]> (files s)) in
  if negb (PIPE_EMPTY (pp s)) then (Z.lor POLLIN POLLRDNORM, connected)
  else (Z.lor POLLOUT POLLWRNORM, if negb (writers (pp s) =? 0) then connected else s).

(** With the page go the bytes in it: the record of the bytes starts anew. *)
Definition pipe_release (s : sys) : sys :=
  let p := pp s in
  wake_up_interruptible
    (if (readers p =? 0) && (writers p =? 0) then set_logs (set_data (set_pipe s (set_base p None)) [] []) [] [] else s).

Definition bump (b : bool) (n : Z) : Z := if b then n else 0.

Definition pipe_read_release (s : sys) : sys := pipe_release (set_pipe s (add_users (pp s) (-1) 0)).

Definition pipe_write_release (s : sys) : sys := pipe_release (set_pipe s (add_users (pp s) 0 (-1))).

Definition pipe_rdwr_release (s : sys) (fl : file) : sys :=
  pipe_release (set_pipe s (add_users (pp s) (bump (f_rd fl) (-1)) (bump (f_wr fl) (-1)))).

Definition pipe_read_open (s : sys) : sys := set_pipe s (add_users (pp s) 1 0).

Definition pipe_write_open (s : sys) : sys := set_pipe s (add_users (pp s) 0 1).

Definition pipe_rdwr_open (s : sys) (fl : file) : sys :=
  set_pipe s (add_users (pp s) (bump (f_rd fl) 1) (bump (f_wr fl) 1)).

(** The entries [read], [write], [poll] and [release] of the tables. *)
Definition op_read (s : sys) (t f : Z) (fl : file) (count : Z) (at_pos : bool) : sys :=
  match f_op fl with
  | connecting_fifo_fops => connect_read s t f fl count at_pos
  | read_fifo_fops | rdwr_fifo_fops | read_pipe_fops | rdwr_pipe_fops => pipe_read s t f fl count at_pos
  | write_fifo_fops | write_pipe_fops => bad_pipe_r s t count
  end.

Definition op_write (s : sys) (t f : Z) (fl : file) (data : list Z) (at_pos : bool) : sys :=
  match f_op fl with
  | write_fifo_fops | rdwr_fifo_fops | write_pipe_fops | rdwr_pipe_fops => pipe_write s t f data at_pos
  | connecting_fifo_fops | read_fifo_fops | read_pipe_fops => bad_pipe_w s t data
  end.

Definition op_poll (s : sys) (f : Z) (fl : file) : Z * sys :=
  match f_op fl with
  | connecting_fifo_fops => connect_poll s f fl
  | _ => (pipe_poll (pp s), s)
  end.

Definition op_release (s : sys) (fl : file) : sys :=
  match f_op fl with
  | connecting_fifo_fops | read_fifo_fops | read_pipe_fops => pipe_read_release s
  | write_fifo_fops | write_pipe_fops => pipe_write_release s
  | rdwr_fifo_fops | rdwr_pipe_fops => pipe_rdwr_release s fl
  end.

(** ** fifo_open *)

Definition open_return (s : sys) (t result : Z) : sys :=
  gone (set_opens s (olog s ++ [result]) (lost_r s) (lost_w s)) t.

(** A successful open: the file gets the name [f]. *)
Definition open_file (s : sys) (t f : Z) (fl : file) : option sys :=
  match files s !! f with
  | None => Some (open_return (set_files s (<[f := fl]> (files s))) t 0)
  | Some _ => None
  end.

(** After the switch, with [retval] being zero. *)
Definition open_page (s : sys) (t f : Z) (fl : file) : option sys :=
  match base (pp s) with
  | Some _ => open_file s t f fl
  | None => Some (put s t (OpenPage fl))
  end.

(** The beginnings of the three cases. *)
Definition fifo_open (s : sys) (t : Z) (rd wr nonblock : bool) : sys :=
  let p := pp s in
  if rd && negb wr then
    let s := wake_if (readers p =? 0) (set_pipe s (add_users p 1 0)) in
    if negb nonblock && (writers p =? 0) then put (set_pipe s (add_openers (pp s) 1 0)) t (OpenRdWait nonblock false)
    else put s t (OpenRdEnd nonblock 0 false)
  else if negb rd && wr then
    if nonblock && (readers p =? 0) then open_return s t (- ENXIO) else
    let s := wake_if (writers p =? 0) (set_pipe s (add_users p 0 1)) in
    if readers p =? 0 then put (set_pipe s (add_openers (pp s) 0 1)) t (OpenWrWait nonblock false)
    else put s t (OpenWrEnd nonblock 0 false)
  else if rd && wr then
    put (wake_if (readers p =? 0) (set_pipe s (add_users p 1 0))) t (OpenRwFirst nonblock false)
  else open_return s t (- EINVAL).

Definition open_rd_wait (s : sys) (t : Z) (nb sig : bool) : sys :=
  let leave retval :=
    let s := set_pipe s (add_openers (pp s) (-1) 0) in
    put (wake_if (rd_openers (pp s) =? 0) s) t (OpenRdEnd nb retval false) in
  if negb (writers (pp s) =? 0) then leave 0
  else if sig then leave (- ERESTARTSYS)
  else put s t (OpenRdWait nb true).

Definition open_rd_end (s : sys) (t f : Z) (nb : bool) (retval : Z) : option sys :=
  let p := pp s in
  if negb (wr_openers p =? 0) then Some (put s t (OpenRdEnd nb retval true))
  else if retval =? 0 then
    open_page s t f (File true false nb (if negb (writers p =? 0) then read_fifo_fops else connecting_fifo_fops))
  else
    let s := set_pipe s (add_users p (-1) 0) in
    Some (open_return (wake_if (readers (pp s) =? 0) s) t retval).

Definition open_wr_wait (s : sys) (t : Z) (nb sig : bool) : sys :=
  let leave retval :=
    let s := set_pipe s (add_openers (pp s) 0 (-1)) in
    put (wake_if (wr_openers (pp s) =? 0) s) t (OpenWrEnd nb retval false) in
  if negb (readers (pp s) =? 0) then leave 0
  else if sig then leave (- ERESTARTSYS)
  else put s t (OpenWrWait nb true).

Definition open_wr_end (s : sys) (t f : Z) (nb : bool) (retval : Z) : option sys :=
  let p := pp s in
  if negb (rd_openers p =? 0) then Some (put s t (OpenWrEnd nb retval true))
  else if retval =? 0 then open_page s t f (File false true nb write_fifo_fops)
  else
    let s := set_pipe s (add_users p 0 (-1)) in
    Some (open_return (wake_if (writers (pp s) =? 0) s) t retval).

Definition open_rw_first (s : sys) (t : Z) (nb : bool) : sys :=
  let p := pp s in
  if negb (wr_openers p =? 0) then put s t (OpenRwFirst nb true)
  else put (wake_if (writers p =? 0) (set_pipe s (add_users p 0 1))) t (OpenRwSecond nb false).

Definition open_rw_second (s : sys) (t f : Z) (nb : bool) : option sys :=
  if negb (rd_openers (pp s) =? 0) then Some (put s t (OpenRwSecond nb true))
  else open_page s t f (File true true nb rdwr_fifo_fops).

(** [page] is the page that [__get_free_page] finds, with whatever it contains. *)
Definition open_alloc (s : sys) (t f : Z) (fl : file) (page : option (Z -> Z)) : option sys :=
  let p := pp s in
  match base p with
  | Some _ => open_file s t f fl
  | None =>
    match page with
    | Some _ => open_file (set_pipe s (Pipe page 0 0 0 (rd_openers p) (wr_openers p) (readers p) (writers p))) t f fl
    | None => Some (open_return (set_opens s (olog s) (lost_r s + bump (f_rd fl) 1) (lost_w s + bump (f_wr fl) 1)) t (- ENOMEM))
    end
  end.

Definition init_fifo : sys :=
  Sys true (Pipe None 0 0 0 0 0 0 0) None ∅ ∅ None [] [] [] [] [] 0 0.

(** ** pipe(2) *)

(** A new pipe, and the two files that [do_pipe] installs. *)
Definition get_pipe_inode (page : Z -> Z) : pipe := Pipe (Some page) 0 0 0 0 0 1 1.

Definition new_pipe (page : Z -> Z) (i j : Z) : sys :=
  Sys false (get_pipe_inode page) None
    (<[i := File true false false read_pipe_fops]> {[j := File false true false write_pipe_fops]}) ∅ None [] [] [] [] [] 0 0.

(** What [do_pipe] takes and gives back: file structures, inodes, pages, descriptors. *)
Record taken := Taken { n_filp : Z; n_inode : Z; n_page : Z; n_fd : Z }.

Definition add_filp (r : taken) (n : Z) : taken := Taken (n_filp r + n) (n_inode r) (n_page r) (n_fd r).

Definition add_inode (r : taken) (n : Z) : taken := Taken (n_filp r) (n_inode r + n) (n_page r) (n_fd r).

Definition add_page (r : taken) (n : Z) : taken := Taken (n_filp r) (n_inode r) (n_page r + n) (n_fd r).

Definition add_fd (r : taken) (n : Z) : taken := Taken (n_filp r) (n_inode r) (n_page r) (n_fd r + n).

(** The labels of [do_pipe] after an error; each falls through to the next. *)
Definition close_f1 (r : taken) : taken := add_filp r (-1).

Definition close_f12 (r : taken) : taken := close_f1 (add_filp r (-1)).

Definition close_f12_inode (r : taken) : taken := close_f12 (add_inode (add_page r (-1)) (-1)).

Definition close_f12_inode_i (r : taken) : taken := close_f12_inode (add_fd r (-1)).

Definition close_f12_inode_i_j (r : taken) : taken := close_f12_inode_i (add_fd r (-1)).

(** What the allocators answer to [do_pipe]. *)
Record answers := Answers {
  filp1 : bool; filp2 : bool; empty_inode : bool; user_page : option (Z -> Z); fd1 : Z; fd2 : Z; root_dentry : bool }.

(** The inode that was found, if any, and what is held afterwards. *)
Definition take_pipe_inode (a : answers) (r : taken) : option (Z -> Z) * taken :=
  if negb (empty_inode a) then (None, r) else
  let r := add_inode r 1 in
  match user_page a with
  | None => (None, add_inode r (-1))
  | Some page => (Some page, add_page r 1)
  end.

(** The result, what is held afterwards, and the new pipe. *)
Definition do_pipe (a : answers) (r : taken) : Z * taken * option sys :=
  if negb (filp1 a) then (- ENFILE, r, None) else
  let r := add_filp r 1 in
  if negb (filp2 a) then (- ENFILE, close_f1 r, None) else
  let r := add_filp r 1 in
  match take_pipe_inode a r with
  | (None, r) => (- ENFILE, close_f12 r, None)
  | (Some page, r) =>
    if fd1 a <? 0 then (fd1 a, close_f12_inode r, None) else
    let r := add_fd r 1 in
    if fd2 a <? 0 then (fd2 a, close_f12_inode_i r, None) else
    let r := add_fd r 1 in
    if negb (root_dentry a) then (- ENOMEM, close_f12_inode_i_j r, None)
    else (0, r, Some (new_pipe page (fd1 a) (fd2 a)))
  end.

(** ** Schedules *)

Inductive label :=
| Read (t f count : Z) (at_pos : bool)
| Write (t f : Z) (data : list Z) (at_pos : bool)
| Poll (f : Z)
| Setfl (f : Z) (nonblock : bool)
| OpenFifo (t : Z) (rd wr nonblock : bool)
| OpenPipe (f : Z) (rd wr nonblock : bool)
| Close (f : Z)
| Signal (t : Z)
| Go (t : Z) (sig : bool) (page : option (Z -> Z)) (f : Z).

Definition uses (f : Z) (th : thread) : bool :=
  match th with
  | ReadTest g _ _ | ReadLoop g _ _ | ReadCopy g _ _ _ _ | WriteDown g _ _ | WriteTest g _ _ _ _ | WriteLoop g _ _
  | WriteCopy g _ _ _ _ => g =? f
  | _ => false
  end.

Definition in_use (f : Z) (s : sys) : bool := negb (bool_decide (map_Forall (fun _ th => uses f th = false) (threads s))).

(** The next piece of a call. *)
Definition go (s : sys) (t : Z) (sig : bool) (page : option (Z -> Z)) (name : Z) : option sys :=
  th ← threads s !! t;
  match th with
  | ReadTest f n false => Some (read_test s t f n sig)
  | ReadLoop f n buf => Some (read_loop s t f n buf)
  | ReadCopy f n buf src chars => read_copy s t f n buf src chars
  | WriteDown f d free => write_down s t f d free sig
  | WriteTest f d free w false => fl ← files s !! f; Some (write_test s t f fl d free w sig)
  | WriteLoop f d w => Some (write_loop s t f d w)
  | WriteCopy f d w dst chars => write_copy s t f d w dst chars
  | OpenRdWait nb false => Some (open_rd_wait s t nb sig)
  | OpenRdEnd nb r false => open_rd_end s t name nb r
  | OpenWrWait nb false => Some (open_wr_wait s t nb sig)
  | OpenWrEnd nb r false => open_wr_end s t name nb r
  | OpenRwFirst nb false => Some (open_rw_first s t nb)
  | OpenRwSecond nb false => open_rw_second s t name nb
  | OpenPage fl => open_alloc s t name fl page
  | _ => None
  end.

Definition is_None_b {A} (o : option A) : bool := match o with None => true | Some _ => false end.

(** [None]: the label does not apply.  A file is released when no call uses it
    (the reference that [fget] takes); [sys_read] and [sys_write] check the mode; a
    pipe is opened again only through a file that is open, and for reading or
    writing. *)
Definition step (s : sys) (l : label) : option sys :=
  match l with
  | Read t f count at_pos =>
    fl ← files s !! f;
    if negb (is_None_b (threads s !! t)) || (count <? 0) then None
    else if negb (f_rd fl) then Some (bad_pipe_r s t count)
    else Some (op_read s t f fl count at_pos)
  | Write t f data at_pos =>
    fl ← files s !! f;
    if negb (is_None_b (threads s !! t)) then None
    else if negb (f_wr fl) then Some (bad_pipe_w s t data)
    else Some (op_write s t f fl data at_pos)
  | Poll f => fl ← files s !! f; Some (op_poll s f fl).2
  | Setfl f nb => fl ← files s !! f; Some (set_files s (<[f := set_nonblock fl nb]> (files s)))
  | OpenFifo t rd wr nb =>
    if negb (is_None_b (threads s !! t)) || negb (fifo s) then None else Some (fifo_open s t rd wr nb)
  | OpenPipe f rd wr nb =>
    if fifo s || negb (is_None_b (files s !! f)) || bool_decide (files s = ∅) || negb (rd || wr) then None
    else let fl := File rd wr nb rdwr_pipe_fops in Some (pipe_rdwr_open (set_files s (<[f := fl]> (files s))) fl)
  | Close f =>
    fl ← files s !! f;
    if in_use f s then None else Some (op_release (set_files s (delete f (files s))) fl)
  | Signal t => th ← threads s !! t; Some (put s t (wake th))
  | Go t sig page f => go s t sig page f
  end.

Fixpoint run (s : sys) (l : list label) : option sys :=
  match l with
  | [] => Some s
  | x :: l => s' ← step s x; run s' l
  end.

Inductive reachable : sys -> Prop :=
| reach_pipe page i j : i <> j -> reachable (new_pipe page i j)
| reach_fifo : reachable init_fifo
| reach_step s l s' : reachable s -> step s l = Some s' -> reachable s'.
