(* ===== verification/PipeProof.v ===== *)
(** * Pipes and fifos: the invariant and what a pipe promises

    The invariant of [Pipe] relates the counters to the files and the calls in
    progress, the locks to their holders, every sleeper to its reason, and the
    bytes written to the bytes read.  [inv_move] says what a move of one call must
    satisfy; each operation is a case of it. *)

From stdpp Require Import functions gmap.
From S2P Require Import Prelude Pipe.

(** ** The invariant *)

Definition mask (a : Z) : Z := Z.land a (PIPE_BUF - 1).

(** The [n] bytes of the ring from [st] on. *)
Definition contents (b : Z -> Z) (st n : Z) : list Z := (fun i => b (mask (st + i))) <$> seqZ 0 n.

Definition holds_lock (th : thread) : bool :=
  match th with ReadLoop _ _ _ | ReadCopy _ _ _ _ _ | WriteLoop _ _ _ | WriteCopy _ _ _ _ _ => true | _ => false end.

Definition holds_mutex (th : thread) : bool :=
  match th with WriteTest _ _ _ _ _ | WriteLoop _ _ _ | WriteCopy _ _ _ _ _ => true | _ => false end.

Definition is_opener (th : thread) : bool :=
  match th with
  | OpenRdWait _ _ | OpenRdEnd _ _ _ | OpenWrWait _ _ | OpenWrEnd _ _ _ | OpenRwFirst _ _ | OpenRwSecond _ _ | OpenPage _ => true
  | _ => false
  end.

Definition asleep (th : thread) : bool :=
  match th with
  | ReadTest _ _ sl | WriteTest _ _ _ _ sl | OpenRdWait _ sl | OpenRdEnd _ _ sl | OpenWrWait _ sl | OpenWrEnd _ _ sl
  | OpenRwFirst _ sl | OpenRwSecond _ sl => sl
  | _ => false
  end.

(** What a call in progress contributes to the counters. *)
Definition rd_of (th : thread) : Z :=
  match th with
  | OpenRdWait _ _ | OpenRdEnd _ _ _ | OpenRwFirst _ _ | OpenRwSecond _ _ => 1
  | OpenPage fl => bump (f_rd fl) 1
  | _ => 0
  end.

Definition wr_of (th : thread) : Z :=
  match th with
  | OpenWrWait _ _ | OpenWrEnd _ _ _ | OpenRwSecond _ _ => 1
  | OpenPage fl => bump (f_wr fl) 1
  | _ => 0
  end.

Definition rdo_of (th : thread) : Z := match th with OpenRdWait _ _ => 1 | _ => 0 end.

Definition wro_of (th : thread) : Z := match th with OpenWrWait _ _ => 1 | _ => 0 end.

Record counts_ok (s : sys) : Prop := {
  c_readers : readers (pp s) = msum (fun fl => bump (f_rd fl) 1) (files s) + msum rd_of (threads s) + lost_r s;
  c_writers : writers (pp s) = msum (fun fl => bump (f_wr fl) 1) (files s) + msum wr_of (threads s) + lost_w s;
  c_rdo : rd_openers (pp s) = msum rdo_of (threads s);
  c_wro : wr_openers (pp s) = msum wro_of (threads s);
  c_lost : 0 <= lost_r s /\ 0 <= lost_w s }.

(** [h] is the one call that satisfies [P]. *)
Definition owner (P : thread -> bool) (h : option Z) (m : gmap Z thread) : Prop :=
  forall u, h = Some u <-> exists th, m !! u = Some th /\ P th = true.

Record locks_ok (s : sys) : Prop := {
  l_lock : lock (pp s) = if holder s is Some _ then 1 else 0;
  l_holder : owner holds_lock (holder s) (threads s);
  l_mutex : owner holds_mutex (mutex s) (threads s) }.

Definition fops_ok (fl : file) : bool :=
  match f_op fl with
  | connecting_fifo_fops | read_fifo_fops | read_pipe_fops => f_rd fl && negb (f_wr fl)
  | write_fifo_fops | write_pipe_fops => negb (f_rd fl) && f_wr fl
  | rdwr_fifo_fops => f_rd fl && f_wr fl
  | rdwr_pipe_fops => f_rd fl || f_wr fl
  end.

Definition can_read (fs : gmap Z file) (f : Z) : Prop := exists fl, fs !! f = Some fl /\ f_rd fl = true.

Definition can_write (fs : gmap Z file) (f : Z) : Prop := exists fl, fs !! f = Some fl /\ f_wr fl = true.

Abbreviation zlen l := (Z.of_nat (length l)).

(** What holds of a call wherever the others are. *)
Definition th_ok (fs : gmap Z file) (th : thread) : Prop :=
  match th with
  | ReadTest f n _ | ReadLoop f n _ => can_read fs f /\ 0 <= n
  | ReadCopy f n _ src chars => can_read fs f /\ 0 <= n /\ 0 < chars
  | WriteDown f d free => can_write fs f /\ free = (if zlen d <=? PIPE_BUF then zlen d else 1)
  | WriteTest f d free w _ =>
    can_write fs f /\ 0 <= w <= zlen d /\
    (w = 0 /\ free = (if zlen d <=? PIPE_BUF then zlen d else 1) \/ free = 1 /\ (zlen d <= PIPE_BUF -> w = zlen d))
  | WriteLoop f d w => can_write fs f /\ 0 <= w <= zlen d
  | WriteCopy f d w dst chars => can_write fs f /\ 0 < chars <= w /\ w <= zlen d
  | OpenRdEnd _ r _ | OpenWrEnd _ r _ => r = 0 \/ r = - ERESTARTSYS
  | OpenPage fl => fops_ok fl = true
  | _ => True
  end.

(** What holds of the call that has the lock. *)
Definition ring_ok (p : pipe) (th : thread) : Prop :=
  match th with
  | ReadLoop _ n buf => buf = [] -> len p <> 0
  | WriteLoop _ d w => zlen d <= PIPE_BUF -> zlen d - w <= PIPE_FREE p
  | WriteCopy _ d w dst chars =>
    (zlen d <= PIPE_BUF -> zlen d - w <= PIPE_FREE p) /\ chars <= len p /\
    dst = mask (start p + (len p - chars)) /\ dst + chars <= PIPE_BUF
  | _ => True
  end.

(** Why a call sleeps. *)
Definition reason (p : pipe) (th : thread) : Prop :=
  match th with
  | ReadTest _ n _ => lock p <> 0 \/ len p = 0 /\ writers p <> 0 /\ n <> 0
  | WriteTest _ d free w _ => w < zlen d /\ (lock p <> 0 \/ PIPE_FREE p < free /\ readers p <> 0)
  | OpenRdWait _ _ => writers p = 0
  | OpenWrWait _ _ => readers p = 0
  | OpenRdEnd _ _ _ | OpenRwFirst _ _ => wr_openers p <> 0
  | OpenWrEnd _ _ _ | OpenRwSecond _ _ => rd_openers p <> 0
  | _ => True
  end.

Record threads_ok (s : sys) : Prop := {
  t_ok : map_Forall (fun _ th => th_ok (files s) th) (threads s);
  t_ring : map_Forall (fun _ th => ring_ok (pp s) th) (threads s);
  t_sleep : map_Forall (fun _ th => asleep th = true -> reason (pp s) th) (threads s);
  t_kind : map_Forall (fun _ th => is_opener th = true -> fifo s = true) (threads s);
  t_files : map_Forall (fun _ fl => fops_ok fl = true) (files s) }.

(** The bytes between the writers and the readers, given the call that has the lock. *)
Definition flight (p : pipe) (b : Z -> Z) (th : option thread) : list Z :=
  match th with
  | Some (ReadCopy _ _ _ src chars) => copy_out b src chars ++ contents b (start p) (len p)
  | Some (WriteCopy _ d w _ chars) => contents b (start p) (len p - chars) ++ chunk d w chars
  | _ => contents b (start p) (len p)
  end.

(** The part of an unfinished write that is in the ring; of a read that was copied. *)
Definition written_by (th : option thread) : list Z :=
  match th with
  | Some (WriteTest _ d _ w _) | Some (WriteLoop _ d w) | Some (WriteCopy _ d w _ _) => take (Z.to_nat w) d
  | _ => []
  end.

Definition read_by (th : option thread) : list Z :=
  match th with Some (ReadLoop _ _ buf) | Some (ReadCopy _ _ buf _ _) => buf | _ => [] end.

Definition current (h : option Z) (m : gmap Z thread) : option thread := t ← h; m !! t.

(** What the finished calls wrote and read. *)
Definition wbytes (l : list wcall) : list Z := c ← l; take (Z.to_nat (w_result c)) (w_data c).

Definition rbytes (l : list rcall) : list Z := c ← l; r_buf c.

Definition is_error (l : list Z) (r : Z) : Prop := exists e, e ∈ l /\ r = - e.

Definition wcall_ok (c : wcall) : Prop :=
  is_error [ESPIPE; EBADF; EPIPE; EAGAIN; ERESTARTSYS] (w_result c) \/
  0 <= w_result c <= zlen (w_data c) /\ (zlen (w_data c) <= PIPE_BUF -> w_result c = zlen (w_data c)).

Definition rcall_ok (c : rcall) : Prop :=
  r_buf c = [] /\ (r_result c = 0 \/ is_error [ESPIPE; EBADF; EAGAIN; ERESTARTSYS] (r_result c)) \/
  r_result c = zlen (r_buf c) /\ 0 < r_result c <= r_count c.

Record data_ok (s : sys) (b : Z -> Z) : Prop := {
  d_ring : 0 <= start (pp s) < PIPE_BUF /\ 0 <= len (pp s) <= PIPE_BUF;
  d_fifo : sent s = rcvd s ++ flight (pp s) b (current (holder s) (threads s));
  d_sent : sent s = wbytes (wlog s) ++ written_by (current (mutex s) (threads s));
  d_rcvd : rcvd s = rbytes (rlog s) ++ read_by (current (holder s) (threads s)) }.

Record page_ok (s : sys) : Prop := {
  p_data : forall b, base (pp s) = Some b -> data_ok s b;
  p_none : base (pp s) = None -> files s = ∅ /\ sent s = [] /\ rcvd s = [] /\ wlog s = [] /\ rlog s = [];
  p_wlog : Forall wcall_ok (wlog s);
  p_rlog : Forall rcall_ok (rlog s) }.

Record inv (s : sys) : Prop := {
  i_counts : counts_ok s; i_locks : locks_ok s; i_threads : threads_ok s; i_page : page_ok s }.

(** ** One call moves, the others may be woken up *)

Definition upd (t : Z) (new : option thread) (m : gmap Z thread) : gmap Z thread := partial_alter (fun _ => new) t m.

Definition wk (w : bool) : thread -> thread := if w then wake else id.

Definition contrib (f : thread -> Z) (o : option thread) : Z := match o with Some th => f th | None => 0 end.

Lemma put_upd t th (m : gmap Z thread) : <[t := th]> m = upd t (Some th) m.
Proof. done. Qed.

Lemma gone_upd t (m : gmap Z thread) : delete t m = upd t None m.
Proof. done. Qed.

Lemma wk_false (m : gmap Z thread) : m = wk false <$> m.
Proof. symmetry. apply map_fmap_id. Qed.

Lemma lookup_upd t new m : upd t new m !! t = new.
Proof. apply lookup_partial_alter_eq. Qed.

Lemma lookup_upd_ne t new m u : u <> t -> upd t new m !! u = m !! u.
Proof. intros. by apply lookup_partial_alter_ne. Qed.

Lemma upd_upd t new new' m : upd t new (upd t new' m) = upd t new m.
Proof.
  apply map_eq. intros u. destruct (decide (u = t)) as [->|]; [by rewrite !lookup_upd|by rewrite !lookup_upd_ne].
Qed.

Lemma fmap_upd g t new m : g <$> upd t new m = upd t (g <$> new) (g <$> m).
Proof.
  apply map_eq. intros u. rewrite lookup_fmap. destruct (decide (u = t)) as [->|].
  - by rewrite !lookup_upd.
  - by rewrite !lookup_upd_ne, lookup_fmap.
Qed.

Lemma msum_upd f w t new (m : gmap Z thread) :
  (forall th, f (wake th) = f th) ->
  msum f (upd t new (wk w <$> m)) = msum f m - contrib f (m !! t) + contrib f new.
Proof.
  intros Hf. assert (Hw : msum f (wk w <$> m) = msum f m) by (apply msum_fmap; by destruct w).
  assert (Hc : contrib f ((wk w <$> m) !! t) = contrib f (m !! t)).
  { rewrite lookup_fmap. destruct (m !! t); [by destruct w; simpl|done]. }
  rewrite <-Hw, <-Hc. destruct ((wk w <$> m) !! t) as [old|] eqn:Ht, new as [th|]; simpl.
  - rewrite <-put_upd, (msum_update f _ t old th Ht). lia.
  - rewrite <-gone_upd, (msum_delete f _ t old Ht). lia.
  - rewrite <-put_upd, msum_insert by done. lia.
  - rewrite <-gone_upd, delete_id by done. lia.
Qed.

Lemma wake_contrib th : rd_of (wake th) = rd_of th /\ wr_of (wake th) = wr_of th /\
  rdo_of (wake th) = rdo_of th /\ wro_of (wake th) = wro_of th.
Proof. by destruct th. Qed.

Definition file_rd (fs : gmap Z file) : Z := msum (fun fl => bump (f_rd fl) 1) fs.

Definition file_wr (fs : gmap Z file) : Z := msum (fun fl => bump (f_wr fl) 1) fs.

Lemma counts_move s s' t new w :
  counts_ok s ->
  threads s' = upd t new (wk w <$> threads s) ->
  (readers (pp s') - file_rd (files s') - lost_r s') - (readers (pp s) - file_rd (files s) - lost_r s) =
    contrib rd_of new - contrib rd_of (threads s !! t) ->
  (writers (pp s') - file_wr (files s') - lost_w s') - (writers (pp s) - file_wr (files s) - lost_w s) =
    contrib wr_of new - contrib wr_of (threads s !! t) ->
  rd_openers (pp s') - rd_openers (pp s) = contrib rdo_of new - contrib rdo_of (threads s !! t) ->
  wr_openers (pp s') - wr_openers (pp s) = contrib wro_of new - contrib wro_of (threads s !! t) ->
  lost_r s <= lost_r s' -> lost_w s <= lost_w s' ->
  counts_ok s'.
Proof.
  unfold file_rd, file_wr. intros [H1 H2 H3 H4 H5] Ht E1 E2 E3 E4 L1 L2.
  constructor; [rewrite Ht, msum_upd by apply wake_contrib; lia..|lia].
Qed.

Lemma owner_fmap P h m w : (forall th, P (wake th) = P th) -> owner P h m -> owner P h (wk w <$> m).
Proof.
  intros HP Ho u. rewrite (Ho u), lookup_fmap. destruct (m !! u) as [th|]; simpl.
  - split; intros (x & E & Hx); simplify_eq; eexists; (split; [done|]); destruct w; simpl in *; by rewrite ?HP in *.
  - naive_solver.
Qed.

Lemma owner_upd P h h' t new m :
  owner P h m -> (h' = Some t <-> exists th, new = Some th /\ P th = true) ->
  (forall u, u <> t -> h' = Some u <-> h = Some u) -> owner P h' (upd t new m).
Proof.
  intros Ho Ht Hne u. destruct (decide (u = t)) as [->|Hu].
  - by rewrite lookup_upd.
  - rewrite lookup_upd_ne, (Hne u) by done. apply Ho.
Qed.

Lemma wake_holds th : holds_lock (wake th) = holds_lock th /\ holds_mutex (wake th) = holds_mutex th.
Proof. by destruct th. Qed.

Definition holds_opt (P : thread -> bool) (o : option thread) : bool := match o with Some th => P th | None => false end.

Lemma owner_opt P h m t : owner P h m -> holds_opt P (m !! t) = true <-> h = Some t.
Proof. intros Ho. rewrite (Ho t). destruct (m !! t); simpl; naive_solver. Qed.

(** The lock and the mutex: each is kept, taken or given up by the call that moves. *)
Definition passes (P : thread -> bool) (h h' : option Z) (t : Z) (new : option thread) : Prop :=
  h' = (if holds_opt P new then Some t else if bool_decide (h = Some t) then None else h) /\
  (holds_opt P new = true -> h = None \/ h = Some t).

Lemma owner_passes P h h' t new m w :
  (forall th, P (wake th) = P th) -> owner P h m -> passes P h h' t new -> owner P h' (upd t new (wk w <$> m)).
Proof.
  intros HP Ho [-> Hfree]. eapply owner_upd; [by apply owner_fmap| |].
  - destruct (holds_opt P new) eqn:E; destruct new as [th|]; simpl in E; try done.
    + split; [eauto|done].
    + split; [case_bool_decide; congruence|]. intros (? & ? & ?). congruence.
    + split; [case_bool_decide; congruence|]. by intros (? & ? & ?).
  - intros u Hu. destruct (holds_opt P new); [|case_bool_decide; [|done]].
    + split; [congruence|]. destruct (Hfree eq_refl); congruence.
    + split; congruence.
Qed.

Lemma locks_move s s' t new w :
  locks_ok s -> threads s' = upd t new (wk w <$> threads s) ->
  lock (pp s') = (if holder s' is Some _ then 1 else 0) ->
  passes holds_lock (holder s) (holder s') t new ->
  passes holds_mutex (mutex s) (mutex s') t new ->
  locks_ok s'.
Proof.
  intros [H1 H2 H3] Ht El Eh Em. constructor; [done| |];
    rewrite Ht; (eapply owner_passes; [|done..]; intros; apply wake_holds).
Qed.

Lemma wake_th_ok fs p w th :
  (th_ok fs th -> th_ok fs (wk w th)) /\ (ring_ok p th -> ring_ok p (wk w th)) /\
  (is_opener (wk w th) = is_opener th).
Proof. destruct w; [by destruct th|done]. Qed.

Lemma wk_awake th : asleep (wk true th) = false.
Proof. by destruct th. Qed.

Lemma ring_ok_free p th : holds_lock th = false -> ring_ok p th.
Proof. by destruct th. Qed.

Lemma threads_move s s' t new w :
  threads_ok s -> threads s' = upd t new (wk w <$> threads s) -> fifo s' = fifo s ->
  map_Forall (fun _ fl => fops_ok fl = true) (files s') ->
  (forall th, new = Some th -> th_ok (files s') th /\ ring_ok (pp s') th /\ (asleep th = true -> reason (pp s') th) /\
                               (is_opener th = true -> fifo s = true)) ->
  (forall u th, u <> t -> threads s !! u = Some th -> th_ok (files s) th -> th_ok (files s') th) ->
  (forall u th, u <> t -> threads s !! u = Some th -> ring_ok (pp s) th -> ring_ok (pp s') th) ->
  (w = false -> forall u th, u <> t -> threads s !! u = Some th -> asleep th = true -> reason (pp s) th -> reason (pp s') th) ->
  threads_ok s'.
Proof.
  intros [H1 H2 H3 H4 H5] Ht Hk Hf Hnew Ho Hr Hs.
  assert (Hcase : forall u th', threads s' !! u = Some th' ->
    new = Some th' /\ u = t \/ u <> t /\ exists th, threads s !! u = Some th /\ th' = wk w th).
  { intros u th'. rewrite Ht. destruct (decide (u = t)) as [->|Hu]; [rewrite lookup_upd; by left|].
    rewrite lookup_upd_ne, lookup_fmap by done. intros (th & -> & ?)%fmap_Some. right. eauto. }
  assert (Hpt : map_Forall (fun _ th => th_ok (files s') th /\ ring_ok (pp s') th /\
    (asleep th = true -> reason (pp s') th) /\ (is_opener th = true -> fifo s' = true)) (threads s')).
  { intros u th' [[E ->]|(Hu & th & E & ->)]%Hcase; [rewrite Hk; by apply Hnew|].
    destruct (wake_th_ok (files s') (pp s') w th) as (W1 & W2 & W3).
    split_and!; [apply W1; eauto|apply W2; eauto| |rewrite W3, Hk; eauto].
    destruct w; [by rewrite wk_awake|]. simpl. unfold id. intros. eapply Hs; eauto. }
  constructor; [| | | |done]; intros u th E; by apply (Hpt u th E).
Qed.

(** ** The ring *)

Lemma mask_mod a : mask a = a mod PIPE_BUF.
Proof. unfold mask. change (PIPE_BUF - 1) with (Z.ones 12). by rewrite Z.land_ones. Qed.

Lemma mask_range a : 0 <= mask a < PIPE_BUF.
Proof. rewrite mask_mod. apply Z.mod_pos_bound. done. Qed.

Lemma mask_small a : 0 <= a < PIPE_BUF -> mask a = a.
Proof. rewrite mask_mod. apply Z.mod_small. Qed.

Lemma mask_add a b : mask (mask a + b) = mask (a + b).
Proof. rewrite !mask_mod. unfold PIPE_BUF. by rewrite Zplus_mod_idemp_l. Qed.

Lemma mask_eq a b : mask a = mask b -> - PIPE_BUF < a - b < PIPE_BUF -> a = b.
Proof. rewrite !mask_mod. unfold PIPE_BUF. intros. Z.to_euclidean_division_equations. lia. Qed.

Lemma contents_app b st n m : 0 <= n -> 0 <= m -> contents b st (n + m) = contents b st n ++ contents b (st + n) m.
Proof.
  intros. unfold contents. rewrite seqZ_app, fmap_app by lia. f_equal.
  rewrite (Z.add_comm 0 n), <-fmap_add_seqZ, <-list_fmap_compose. apply list_fmap_ext. intros i x _. simpl.
  do 2 f_equal. lia.
Qed.

Lemma contents_mask b st n : contents b (mask st) n = contents b st n.
Proof. apply list_fmap_ext. intros i x _. by rewrite mask_add. Qed.

Lemma contents_flat b st n : 0 <= st -> st + n <= PIPE_BUF -> contents b st n = copy_out b st n.
Proof.
  intros. apply list_fmap_ext. intros i x Hx%list_elem_of_lookup_2%elem_of_seqZ. rewrite mask_small; [done|lia].
Qed.

(** Bytes beyond the end of the contents do not change them. *)
Lemma contents_copy_in b st n d :
  0 <= n -> n + zlen d <= PIPE_BUF -> mask (st + n) + zlen d <= PIPE_BUF ->
  contents (copy_in b (mask (st + n)) d) st n = contents b st n.
Proof.
  intros Hn Hd He. apply list_fmap_ext. intros i x Hx%list_elem_of_lookup_2%elem_of_seqZ. unfold copy_in.
  destruct (_ && _) eqn:E; [|done]. bool_hyps. exfalso.
  assert (Hj : exists j, 0 <= j < zlen d /\ mask (st + x) = mask (st + n) + j) by (exists (mask (st + x) - mask (st + n)); lia).
  destruct Hj as (j & Hj & Eq).
  pose proof (mask_range (st + n)).
  assert (Em : mask (st + x) = mask (st + n + j)) by (rewrite <-(mask_add (st + n) j), (mask_small (mask (st + n) + j)); lia).
  apply mask_eq in Em; lia.
Qed.

Lemma copy_out_in b dst d : copy_out (copy_in b dst d) dst (zlen d) = d.
Proof.
  apply list_eq_same_length with (length d); [done|unfold copy_out; rewrite length_fmap, length_seqZ; lia|].
  intros i x y Hi. unfold copy_out. rewrite list_lookup_fmap, lookup_seqZ_lt by lia. simpl. intros Hx Hy. simplify_eq.
  unfold copy_in. rewrite (proj2 (Z.leb_le _ _)), (proj2 (Z.ltb_lt _ _)) by lia. simpl.
  apply list_lookup_total_correct. rewrite <-Hy. f_equal. lia.
Qed.

(** The chunk taken out is the head of the contents. *)
Lemma read_chunk_ok p p' b count src chars :
  0 <= start p < PIPE_BUF -> 0 <= len p <= PIPE_BUF -> read_chunk p count = Some (p', src, chars) ->
  0 < chars <= count /\ 0 <= start p' < PIPE_BUF /\ 0 <= len p' <= PIPE_BUF /\
  copy_out b src chars ++ contents b (start p') (len p') = contents b (start p) (len p) /\
  p' = set_ring p (start p') (len p').
Proof.
  unfold read_chunk, PIPE_MAX_RCHUNK. intros Hs Hl. destruct (_ && _) eqn:E; [|done]. bool_hyps.
  set (c1 := if count <? PIPE_BUF - start p then count else PIPE_BUF - start p).
  set (c2 := if len p <? c1 then len p else c1).
  assert (Hc : 0 < c2 /\ c2 <= count /\ c2 <= len p /\ start p + c2 <= PIPE_BUF) by (unfold c2, c1; repeat case_match; lia).
  intros [= <- <- <-]. simpl. fold (mask (start p + c2)). pose proof (mask_range (start p + c2)).
  split_and!; try lia; try done.
  rewrite contents_mask, <-contents_flat, <-contents_app by lia. f_equal. lia.
Qed.

(** The chunk added is free room behind the contents. *)
Lemma write_chunk_ok p p' count dst chars :
  0 <= start p < PIPE_BUF -> 0 <= len p <= PIPE_BUF -> write_chunk p count = Some (p', dst, chars) ->
  0 < chars <= count /\ p' = set_ring p (start p) (len p + chars) /\ len p + chars <= PIPE_BUF /\
  dst = mask (start p + len p) /\ dst + chars <= PIPE_BUF.
Proof.
  unfold write_chunk, PIPE_MAX_WCHUNK, PIPE_FREE. change (PIPE_END p) with (mask (start p + len p)).
  pose proof (mask_range (start p + len p)). intros Hs Hl. destruct (_ && _) eqn:E; [|done]. bool_hyps.
  set (c1 := if count <? PIPE_BUF - mask (start p + len p) then count else PIPE_BUF - mask (start p + len p)).
  set (c2 := if PIPE_BUF - len p <? c1 then PIPE_BUF - len p else c1).
  assert (Hc : 0 < c2 /\ c2 <= count /\ c2 <= PIPE_BUF - len p /\ mask (start p + len p) + c2 <= PIPE_BUF)
    by (unfold c2, c1; repeat case_match; lia).
  intros [= <- <- <-]. split_and!; try lia; done.
Qed.

Lemma length_chunk d w chars : 0 <= chars <= w -> w <= zlen d -> zlen (chunk d w chars) = chars.
Proof. intros. unfold chunk. rewrite length_take, length_drop. lia. Qed.

Lemma take_chunk d w chars :
  0 <= chars -> 0 <= w -> take (Z.to_nat (w + chars)) d = take (Z.to_nat w) d ++ chunk d (w + chars) chars.
Proof.
  intros. unfold chunk. replace (w + chars - chars) with w by lia.
  rewrite take_take_drop. f_equal. lia.
Qed.

(** Copying the chunk completes the contents. *)
Lemma contents_chunk b st n dst d :
  0 <= n -> n + zlen d <= PIPE_BUF -> dst = mask (st + n) -> dst + zlen d <= PIPE_BUF ->
  contents (copy_in b dst d) st (n + zlen d) = contents b st n ++ d.
Proof.
  intros Hn Hd -> He. rewrite contents_app, contents_copy_in by lia. f_equal.
  rewrite <-contents_mask, contents_flat by (pose proof (mask_range (st + n)); lia). apply copy_out_in.
Qed.

(** ** A move of one call keeps the invariant *)

Definition reasons_kept (p p' : pipe) : Prop :=
  (lock p' <> 0 \/ lock p' = lock p /\ len p' = len p /\ (writers p <> 0 -> writers p' <> 0) /\ (readers p <> 0 -> readers p' <> 0)) /\
  (writers p = 0 -> writers p' = 0) /\ (readers p = 0 -> readers p' = 0) /\
  (wr_openers p <> 0 -> wr_openers p' <> 0) /\ (rd_openers p <> 0 -> rd_openers p' <> 0).

Lemma reason_kept p p' th : reasons_kept p p' -> reason p th -> reason p' th.
Proof.
  intros (Hl & Hw & Hr & Ho & Ho'). destruct th; simpl; unfold PIPE_FREE; try tauto; destruct Hl as [?|(-> & -> & ? & ?)]; tauto.
Qed.

Lemma reasons_kept_refl p : reasons_kept p p.
Proof. unfold reasons_kept. tauto. Qed.

Lemma inv_move s s' t new w :
  inv s -> threads s' = upd t new (wk w <$> threads s) -> fifo s' = fifo s ->
  (readers (pp s') - file_rd (files s') - lost_r s') - (readers (pp s) - file_rd (files s) - lost_r s) =
    contrib rd_of new - contrib rd_of (threads s !! t) ->
  (writers (pp s') - file_wr (files s') - lost_w s') - (writers (pp s) - file_wr (files s) - lost_w s) =
    contrib wr_of new - contrib wr_of (threads s !! t) ->
  rd_openers (pp s') - rd_openers (pp s) = contrib rdo_of new - contrib rdo_of (threads s !! t) ->
  wr_openers (pp s') - wr_openers (pp s) = contrib wro_of new - contrib wro_of (threads s !! t) ->
  lost_r s <= lost_r s' -> lost_w s <= lost_w s' ->
  lock (pp s') = (if holder s' is Some _ then 1 else 0) ->
  passes holds_lock (holder s) (holder s') t new ->
  passes holds_mutex (mutex s) (mutex s') t new ->
  map_Forall (fun _ fl => fops_ok fl = true) (files s') ->
  (forall u th, u <> t -> threads s !! u = Some th -> th_ok (files s) th -> th_ok (files s') th) ->
  (forall th, new = Some th -> th_ok (files s') th /\ ring_ok (pp s') th /\ (asleep th = true -> reason (pp s') th) /\
                               (is_opener th = true -> fifo s = true)) ->
  (start (pp s') = start (pp s) /\ len (pp s') = len (pp s) \/ holder s = Some t) ->
  (w = false -> reasons_kept (pp s) (pp s')) ->
  page_ok s' -> inv s'.
Proof.
  intros [Hc Hl Ht Hp] Hup Hk E1 E2 E3 E4 L1 L2 El Eh Em Hf Ho Hnew Hring Hreas Hpage. constructor; [| | |done].
  - by eapply counts_move.
  - by eapply locks_move.
  - eapply threads_move; [done|done|done|done|done|done| |].
    + intros u th Hu Eu Hr. destruct Hring as [[Es El']|Hh].
      * destruct th; simpl in *; unfold PIPE_FREE in *; by rewrite ?Es, ?El'.
      * apply ring_ok_free. destruct (holds_lock th) eqn:E; [|done].
        assert (holder s = Some u) by (apply (l_holder s Hl); eauto). congruence.
    + intros -> u th _ _ _. apply reason_kept. by apply Hreas.
Qed.

Lemma current_ne h t new w m : h <> Some t -> current h (upd t new (wk w <$> m)) = wk w <$> current h m.
Proof.
  intros Hh. destruct h as [u|]; [|done]. simpl. rewrite lookup_upd_ne by congruence. apply lookup_fmap.
Qed.

Lemma current_eq t new m : current (Some t) (upd t new m) = new.
Proof. apply lookup_upd. Qed.

Lemma view_wk p b w o :
  flight p b (wk w <$> o) = flight p b o /\ written_by (wk w <$> o) = written_by o /\ read_by (wk w <$> o) = read_by o.
Proof. destruct o as [th|]; [|done]. destruct w; [by destruct th|done]. Qed.

(** A call without the lock and the mutex moves; it may leave an entry in a log. *)
Lemma page_quiet s s' t new w lw lr :
  page_ok s -> threads s' = upd t new (wk w <$> threads s) ->
  holder s' = holder s -> mutex s' = mutex s -> holder s <> Some t -> mutex s <> Some t ->
  base (pp s') = base (pp s) -> start (pp s') = start (pp s) -> len (pp s') = len (pp s) ->
  (base (pp s) = None -> files s = ∅ -> files s' = ∅ /\ lw = [] /\ lr = []) ->
  sent s' = sent s -> rcvd s' = rcvd s -> wlog s' = wlog s ++ lw -> rlog s' = rlog s ++ lr ->
  Forall wcall_ok lw -> Forall rcall_ok lr -> wbytes lw = [] -> rbytes lr = [] -> page_ok s'.
Proof.
  intros [Hd Hn Hw Hr] Ht Eh Em Nh Nm Eb Es El Hb Ese Erc Ewl Erl Fw Fr Bw Br. constructor.
  - intros b Hbase. rewrite Eb in Hbase. destruct (Hd b Hbase) as [D1 D2 D3 D4].
    destruct (view_wk (pp s) b w (current (holder s) (threads s))) as (V1 & _ & V3).
    destruct (view_wk (pp s) b w (current (mutex s) (threads s))) as (_ & V2 & _).
    constructor; rewrite ?Es, ?El, ?Ht, ?Ese, ?Erc, ?Ewl, ?Erl, ?Eh, ?Em; [done| | |].
    + rewrite current_ne by done. rewrite D2. f_equal. rewrite <-V1.
      unfold flight. by rewrite Es, El.
    + rewrite current_ne, V2 by done. unfold wbytes in *. rewrite bind_app, Bw, app_nil_r. done.
    + rewrite current_ne, V3 by done. unfold rbytes in *. rewrite bind_app, Br, app_nil_r. done.
  - intros Hbase. rewrite Eb in Hbase. destruct (Hn Hbase) as (Hf & N1 & N2 & E1 & E2).
    destruct (Hb Hbase Hf) as (-> & -> & ->). rewrite Ewl, Erl, E1, E2, Ese, Erc. auto.
  - rewrite Ewl. by apply Forall_app.
  - rewrite Erl. by apply Forall_app.
Qed.

Lemma passes_idle P h t new m :
  owner P h m -> holds_opt P (m !! t) = false -> holds_opt P new = false -> passes P h h t new.
Proof.
  intros Ho Hold Hnew. split; rewrite Hnew; [|done]. case_bool_decide as E; [|done].
  apply (owner_opt P h m t) in E; [|done]. congruence.
Qed.

Lemma passes_keep P h t new m :
  owner P h m -> holds_opt P (m !! t) = true -> holds_opt P new = true -> passes P h h t new.
Proof. intros Ho Hold Hnew. apply (owner_opt P h m t) in Hold as ->; [|done]. split; rewrite Hnew; auto. Qed.

Lemma passes_take P t new : holds_opt P new = true -> passes P None (Some t) t new.
Proof. intros Hnew. split; rewrite Hnew; auto. Qed.

Lemma passes_drop P t new : holds_opt P new = false -> passes P (Some t) None t new.
Proof. intros Hnew. split; rewrite Hnew; [|done]. by rewrite bool_decide_eq_true_2. Qed.

Lemma not_owner P h m t : owner P h m -> holds_opt P (m !! t) = false -> h <> Some t.
Proof. intros Ho E H. apply (owner_opt P h m t) in H; [congruence|done]. Qed.

Lemma is_owner P h m t th : owner P h m -> m !! t = Some th -> P th = true -> h = Some t.
Proof. intros Ho E HP. apply Ho. eauto. Qed.

Lemma view_passes {A} (f : option thread -> A) P h h' t new w m :
  (forall o, f (wk w <$> o) = f o) -> owner P h m -> passes P h h' t new ->
  f (current h' (upd t new (wk w <$> m))) =
    if holds_opt P new then f new else if holds_opt P (m !! t) then f None else f (current h m).
Proof.
  intros Hf Ho [-> Hfree]. destruct (holds_opt P new) eqn:E; [by rewrite current_eq|].
  case_bool_decide as Eh.
  - apply (owner_opt P h m t Ho) in Eh as ->. done.
  - destruct (holds_opt P (m !! t)) eqn:Eo; [by apply (owner_opt P h m t Ho) in Eo|]. by rewrite current_ne, Hf.
Qed.

(** A call with one of the locks, before or after, moves. *)
Lemma page_move s s' t new w b b' :
  page_ok s -> locks_ok s -> threads s' = upd t new (wk w <$> threads s) ->
  passes holds_lock (holder s) (holder s') t new -> passes holds_mutex (mutex s) (mutex s') t new ->
  base (pp s) = Some b -> base (pp s') = Some b' ->
  0 <= start (pp s') < PIPE_BUF /\ 0 <= len (pp s') <= PIPE_BUF ->
  sent s' = rcvd s' ++ (if holds_opt holds_lock new then flight (pp s') b' new
    else if holds_opt holds_lock (threads s !! t) then contents b' (start (pp s')) (len (pp s'))
    else flight (pp s') b' (current (holder s) (threads s))) ->
  sent s' = wbytes (wlog s') ++ (if holds_opt holds_mutex new then written_by new
    else if holds_opt holds_mutex (threads s !! t) then [] else written_by (current (mutex s) (threads s))) ->
  rcvd s' = rbytes (rlog s') ++ (if holds_opt holds_lock new then read_by new
    else if holds_opt holds_lock (threads s !! t) then [] else read_by (current (holder s) (threads s))) ->
  Forall wcall_ok (wlog s') -> Forall rcall_ok (rlog s') -> page_ok s'.
Proof.
  intros Hp [L1 L2 L3] Ht Ph Pm Hb Hb' Hring Ef Ew Er Fw Fr. constructor; [|by rewrite Hb'|done|done].
  rewrite Hb'. intros ? [= <-]. constructor; [done| | |]; rewrite Ht.
  - rewrite Ef at 1. f_equal. rewrite (view_passes (flight (pp s') b') holds_lock (holder s)); [done| |done..].
    intros. apply view_wk.
  - rewrite Ew at 1. f_equal. rewrite (view_passes written_by holds_mutex (mutex s)); [done| |done..].
    intros. by apply (view_wk (pp s) b).
  - rewrite Er at 1. f_equal. rewrite (view_passes read_by holds_lock (holder s)); [done| |done..].
    intros. by apply (view_wk (pp s) b).
Qed.

Ltac upd_tac :=
  cbn; rewrite ?put_upd, ?gone_upd;
  first [reflexivity | by rewrite <-wk_false | by rewrite upd_upd, <-wk_false | by rewrite upd_upd].

(** A call that takes no part in the counters and holds neither lock moves. *)
Definition is_idle (o : option thread) : bool :=
  match o with Some th => negb (holds_lock th) && negb (holds_mutex th) && negb (is_opener th) | None => true end.

Lemma idle_contrib o : is_idle o = true ->
  contrib rd_of o = 0 /\ contrib wr_of o = 0 /\ contrib rdo_of o = 0 /\ contrib wro_of o = 0 /\
  holds_opt holds_lock o = false /\ holds_opt holds_mutex o = false.
Proof. destruct o as [[]|]; done. Qed.

Lemma idle_no_opener o : is_idle o = true -> match o with Some th => negb (is_opener th) | None => true end = true.
Proof. destruct o as [[]|]; done. Qed.

Lemma inv_idle s s' t new lw lr :
  inv s -> is_idle (threads s !! t) = true -> is_idle new = true ->
  s' = set_logs (set_threads s (upd t new (threads s))) (wlog s ++ lw) (rlog s ++ lr) ->
  (forall th, new = Some th -> th_ok (files s) th /\ (asleep th = true -> reason (pp s) th)) ->
  (base (pp s) <> None \/ lw = [] /\ lr = []) ->
  Forall wcall_ok lw -> Forall rcall_ok lr -> wbytes lw = [] -> rbytes lr = [] -> inv s'.
Proof.
  intros Hinv Hold Hnew -> Hok Hb Fw Fr Bw Br. destruct Hinv as [Hc Hl Ht Hp] eqn:E.
  destruct (idle_contrib _ Hold) as (O1 & O2 & O3 & O4 & O5 & O6).
  destruct (idle_contrib _ Hnew) as (N1 & N2 & N3 & N4 & N5 & N6).
  destruct Hl as [L1 L2 L3] eqn:El.
  eapply (inv_move s _ t new false); cbn; [done|by rewrite <-wk_false|done|lia|lia|lia|lia|lia|lia|done| | |apply Ht|done| |by left| |].
  - by eapply passes_idle.
  - by eapply passes_idle.
  - intros th Hth. specialize (Hok th Hth). split_and!; [naive_solver| |naive_solver|].
    + apply ring_ok_free. subst. simpl in *. by destruct (holds_lock th).
    + subst. simpl in *. destruct (is_opener th); [|done]. by rewrite andb_false_r in Hnew.
  - intros _. apply reasons_kept_refl.
  - eapply (page_quiet s _ t new false lw lr); cbn; try done.
    + by rewrite <-wk_false.
    + by eapply not_owner.
    + by eapply not_owner.
    + intros Hn Hf. destruct Hb as [|[-> ->]]; done.
Qed.

(** A read or a write moves, all else but the ring, the locks and the logs being equal. *)
Definition same_users (s s' : sys) : Prop :=
  fifo s' = fifo s /\ files s' = files s /\ lost_r s' = lost_r s /\ lost_w s' = lost_w s /\
  readers (pp s') = readers (pp s) /\ writers (pp s') = writers (pp s) /\
  rd_openers (pp s') = rd_openers (pp s) /\ wr_openers (pp s') = wr_openers (pp s).

Definition no_opener (o : option thread) : bool := match o with Some th => negb (is_opener th) | None => true end.

Lemma no_opener_contrib o : no_opener o = true ->
  contrib rd_of o = 0 /\ contrib wr_of o = 0 /\ contrib rdo_of o = 0 /\ contrib wro_of o = 0.
Proof. destruct o as [[]|]; done. Qed.

Lemma inv_call s s' t new w b b' :
  inv s -> threads s' = upd t new (wk w <$> threads s) -> same_users s s' ->
  no_opener (threads s !! t) = true -> no_opener new = true ->
  lock (pp s') = (if holder s' is Some _ then 1 else 0) ->
  passes holds_lock (holder s) (holder s') t new ->
  passes holds_mutex (mutex s) (mutex s') t new ->
  (forall th, new = Some th -> th_ok (files s) th /\ ring_ok (pp s') th /\ (asleep th = true -> reason (pp s') th)) ->
  (start (pp s') = start (pp s) /\ len (pp s') = len (pp s) \/ holder s = Some t) ->
  (w = false -> lock (pp s') <> 0 \/ lock (pp s') = lock (pp s) /\ len (pp s') = len (pp s)) ->
  base (pp s) = Some b -> base (pp s') = Some b' ->
  0 <= start (pp s') < PIPE_BUF /\ 0 <= len (pp s') <= PIPE_BUF ->
  sent s' = rcvd s' ++ (if holds_opt holds_lock new then flight (pp s') b' new
    else if holds_opt holds_lock (threads s !! t) then contents b' (start (pp s')) (len (pp s'))
    else flight (pp s') b' (current (holder s) (threads s))) ->
  sent s' = wbytes (wlog s') ++ (if holds_opt holds_mutex new then written_by new
    else if holds_opt holds_mutex (threads s !! t) then [] else written_by (current (mutex s) (threads s))) ->
  rcvd s' = rbytes (rlog s') ++ (if holds_opt holds_lock new then read_by new
    else if holds_opt holds_lock (threads s !! t) then [] else read_by (current (holder s) (threads s))) ->
  Forall wcall_ok (wlog s') -> Forall rcall_ok (rlog s') -> inv s'.
Proof.
  intros Hi Hup (U1 & U2 & U3 & U4 & U5 & U6 & U7 & U8) Ho Hn El Ph Pm Hnew Hring Hreas Hb Hb' Hbounds Ef Ew Er Fw Fr.
  destruct (no_opener_contrib _ Ho) as (O1 & O2 & O3 & O4). destruct (no_opener_contrib _ Hn) as (N1 & N2 & N3 & N4).
  eapply (inv_move s s' t new w); rewrite ?U2, ?U3, ?U4;
    [done|done|done|lia|lia|lia|lia|lia|lia|done|done|done|apply Hi|done| |done| |].
  - intros th Hth. specialize (Hnew th Hth). split_and!; [naive_solver..|].
    rewrite Hth in Hn. simpl in Hn. by destruct (is_opener th).
  - intros Hw. specialize (Hreas Hw). unfold reasons_kept. lia.
  - eapply (page_move s s' t new w b b'); try done; apply Hi.
Qed.

(** ** pipe_read keeps the invariant *)

Lemma has_base s f fl : inv s -> files s !! f = Some fl -> exists b, base (pp s) = Some b.
Proof.
  intros [_ _ _ Hp] Hf. destruct (base (pp s)) as [b|] eqn:E; [eauto|].
  destruct (p_none s Hp E) as [E' _]. by rewrite E' in Hf.
Qed.

Lemma can_read_base s f : inv s -> can_read (files s) f -> exists b, base (pp s) = Some b.
Proof. intros Hi (fl & Hf & _). by eapply has_base. Qed.

Lemma can_write_base s f : inv s -> can_write (files s) f -> exists b, base (pp s) = Some b.
Proof. intros Hi (fl & Hf & _). by eapply has_base. Qed.

Definition read_errors : list Z := [ESPIPE; EBADF; EAGAIN; ERESTARTSYS].

Definition write_errors : list Z := [ESPIPE; EBADF; EPIPE; EAGAIN; ERESTARTSYS].

Lemma inv_read_return s t f count r :
  inv s -> is_idle (threads s !! t) = true -> can_read (files s) f \/ base (pp s) <> None ->
  r = 0 \/ is_error read_errors r -> inv (read_return s t count [] r).
Proof.
  intros Hi Hid Hr Herr. eapply (inv_idle s _ t None [] [Rcall count [] r]); try done.
  - unfold read_return, gone, set_logs. cbn. by rewrite app_nil_r.
  - left. destruct Hr as [Hr|]; [|done]. destruct (can_read_base s f Hi Hr) as [b ->]. done.
  - apply Forall_singleton. by left.
Qed.

Lemma lock_free s : inv s -> lock (pp s) = 0 -> holder s = None.
Proof. intros Hi E. pose proof (l_lock s (i_locks s Hi)). destruct (holder s); [congruence|done]. Qed.

Ltac error_tac := eexists; split; [|reflexivity]; by_decide.

Lemma inv_read_lock s t f count :
  inv s -> is_idle (threads s !! t) = true -> can_read (files s) f -> 0 <= count ->
  lock (pp s) = 0 -> len (pp s) <> 0 -> inv (read_lock s t f count).
Proof.
  intros Hi Hid Hr Hc Hlock Hlen. destruct (can_read_base s f Hi Hr) as [b Hb].
  destruct (idle_contrib _ Hid) as (_ & _ & _ & _ & O5 & O6).
  pose proof (lock_free s Hi Hlock) as Hh. pose proof Hi as [_ [L1 L2 L3] _ Hp].
  destruct (p_data s Hp b Hb) as [D1 D2 D3 D4]. rewrite Hh in *.
  eapply (inv_call s _ t (Some (ReadLoop f count [])) false b b); cbn; rewrite ?Hh, ?O5, ?O6; try done.
  - by rewrite <-wk_false.
  - by apply idle_no_opener.
  - by rewrite Hlock.
  - by apply passes_take.
  - by eapply passes_idle.
  - intros th [= <-]. simpl. by split_and!.
  - by left.
  - rewrite Hlock. lia.
  - apply Hp.
  - apply Hp.
Qed.

Lemma inv_pipe_read s t f fl count at_pos :
  inv s -> threads s !! t = None -> files s !! f = Some fl -> f_rd fl = true -> 0 <= count ->
  inv (pipe_read s t f fl count at_pos).
Proof.
  intros Hi Ht Hf Hr Hc. assert (Hcan : can_read (files s) f) by (exists fl; done).
  assert (Hid : is_idle (threads s !! t) = true) by (by rewrite Ht).
  assert (Hret : forall r, r = 0 \/ is_error read_errors r -> inv (read_return s t count [] r)).
  { intros r. apply (inv_read_return s t f); auto. }
  unfold pipe_read, PIPE_EMPTY. destruct at_pos; simpl; [|apply Hret; right; error_tac].
  destruct (f_nonblock fl).
  - destruct (lock (pp s) =? 0) eqn:El; simpl; [|apply Hret; right; error_tac].
    destruct (len (pp s) =? 0) eqn:En; [|apply inv_read_lock; auto; lia].
    apply Hret. destruct (negb _); [right; error_tac|by left].
  - eapply (inv_idle s _ t (Some (ReadTest f count false)) [] []); try done.
    + unfold put, set_threads, set_logs. cbn. by rewrite !app_nil_r.
    + by intros th [= <-].
    + by right.
Qed.

Lemma inv_read_test s t f count sig :
  inv s -> threads s !! t = Some (ReadTest f count false) -> inv (read_test s t f count sig).
Proof.
  intros Hi Ht. destruct (t_ok s (i_threads s Hi) t _ Ht) as [Hcan Hc].
  assert (Hid : is_idle (threads s !! t) = true) by (by rewrite Ht).
  assert (Hret : forall r, r = 0 \/ is_error read_errors r -> inv (read_return s t count [] r)).
  { intros r. apply (inv_read_return s t f); auto. }
  unfold read_test, PIPE_EMPTY. destruct (_ || _) eqn:E; [|bool_hyps; apply inv_read_lock; auto; lia].
  destruct (_ && _) eqn:E'; [apply Hret; by left|]. destruct sig; [apply Hret; right; error_tac|].
  eapply (inv_idle s _ t (Some (ReadTest f count true)) [] []); try done.
  - unfold put, set_threads, set_logs. cbn. by rewrite !app_nil_r.
  - intros th [= <-]. simpl. split_and!; [done|done|]. intros _.
    destruct (lock (pp s) =? 0) eqn:El; [right|left; lia].
    rewrite orb_false_r in E. rewrite E in E'. simpl in E'. bool_hyps. lia.
  - by right.
Qed.

Lemma t_holder s t th : inv s -> threads s !! t = Some th -> holds_lock th = true -> holder s = Some t.
Proof. intros Hi Ht Hh. by eapply is_owner; [apply Hi| |]. Qed.

Lemma t_mutex s t th : inv s -> threads s !! t = Some th -> holds_mutex th = true -> mutex s = Some t.
Proof. intros Hi Ht Hh. by eapply is_owner; [apply Hi| |]. Qed.

Lemma inv_read_loop s t f count buf :
  inv s -> threads s !! t = Some (ReadLoop f count buf) -> inv (read_loop s t f count buf).
Proof.
  intros Hi Ht. destruct (t_ok s (i_threads s Hi) t _ Ht) as [Hcan Hc].
  destruct (can_read_base s f Hi Hcan) as [b Hb]. pose proof (t_holder s t _ Hi Ht eq_refl) as Hh.
  pose proof Hi as [Hcnt [L1 L2 L3] Hth Hp]. destruct (p_data s Hp b Hb) as [D1 D2 D3 D4].
  rewrite Hh in *. cbn in D2, D4. rewrite Ht in D2, D4. cbn in D2, D4.
  unfold read_loop. destruct (read_chunk (pp s) count) as [[[p src] chars]|] eqn:Ec.
  - destruct (read_chunk_ok (pp s) p b count src chars) as (C1 & C2 & C3 & C4 & C5); [apply D1|apply D1|done|].
    rewrite C5 in *. cbn in C2, C3, C4.
    eapply (inv_call s _ t (Some (ReadCopy f (count - chars) buf src chars)) false b b); cbn; rewrite ?Hh, ?Ht; try done; cbn.
    + by rewrite <-wk_false.
    + eapply passes_keep; [exact L2|by rewrite Ht|done].
    + eapply passes_idle; [done|by rewrite Ht|done].
    + intros th [= <-]. simpl. split_and!; try done; lia.
    + by right.
    + rewrite L1. lia.
    + by rewrite C4.
    + apply Hp.
    + apply Hp.
  - assert (Hend : count = 0 \/ len (pp s) = 0).
    { unfold read_chunk in Ec. destruct (0 <? count) eqn:E1, (len (pp s) =? 0) eqn:E2; simpl in Ec; try done; lia. }
    eapply (inv_call s _ t None true b b); cbn; rewrite ?Hh, ?Ht; try done; cbn.
    + rewrite L1. done.
    + by apply passes_drop.
    + eapply passes_idle; [done|by rewrite Ht|done].
    + by left.
    + rewrite D4. unfold rbytes. rewrite bind_app. cbn. by rewrite !app_nil_r.
    + apply Hp.
    + apply Forall_app. split; [apply Hp|]. apply Forall_singleton. unfold rcall_ok. cbn.
      destruct buf as [|x buf]; [left|right].
      * split; [done|]. change (negb (zlen (@nil Z) =? 0)) with false. cbn iota.
        destruct (negb _); [right; error_tac|by left].
      * rewrite (proj2 (Z.eqb_neq (zlen (x :: buf)) 0)) by (simpl; lia). cbn [negb length r_count r_buf r_result]. lia.
Qed.

Lemma inv_read_copy s s' t f count buf src chars :
  inv s -> threads s !! t = Some (ReadCopy f count buf src chars) -> read_copy s t f count buf src chars = Some s' -> inv s'.
Proof.
  intros Hi Ht. destruct (t_ok s (i_threads s Hi) t _ Ht) as (Hcan & Hc & Hch).
  pose proof (t_holder s t _ Hi Ht eq_refl) as Hh.
  pose proof Hi as [Hcnt [L1 L2 L3] Hth Hp]. unfold read_copy. destruct (base (pp s)) as [b|] eqn:Hb; simpl; [|done].
  intros [= <-]. destruct (p_data s Hp b Hb) as [D1 D2 D3 D4].
  rewrite Hh in *. cbn in D2, D4. rewrite Ht in D2, D4. cbn in D2, D4.
  eapply (inv_call s _ t (Some (ReadLoop f count (buf ++ copy_out b src chars))) false b b); cbn; rewrite ?Hh, ?Ht; try done; cbn.
  - by rewrite <-wk_false.
  - eapply passes_keep; [exact L2|by rewrite Ht|done].
  - eapply passes_idle; [done|by rewrite Ht|done].
  - intros th [= <-]. simpl. split_and!; try done. intros E. exfalso.
    apply app_eq_nil in E as [_ E%(f_equal length)]. unfold copy_out in E. rewrite length_fmap, length_seqZ in E. simpl in E. lia.
  - by left.
  - rewrite L1. lia.
  - by rewrite <-app_assoc.
  - by rewrite D4, <-app_assoc.
  - apply Hp.
  - apply Hp.
Qed.

(** ** pipe_write keeps the invariant *)

Lemma error_negative l r : Forall (fun e => 0 < e) l -> is_error l r -> r < 0.
Proof. intros Hl (e & He & ->). rewrite Forall_forall in Hl. specialize (Hl e He). lia. Qed.

Lemma write_errors_negative r : is_error write_errors r -> r < 0.
Proof. apply error_negative. by_decide. Qed.

Lemma take_negative {A} r (l : list A) : r <= 0 -> take (Z.to_nat r) l = [].
Proof. intros. by rewrite Z2Nat.nonpos. Qed.

Lemma inv_write_return s t f data r sp :
  inv s -> is_idle (threads s !! t) = true -> can_write (files s) f \/ base (pp s) <> None ->
  is_error write_errors r -> inv (write_return s t data r sp).
Proof.
  intros Hi Hid Hr Herr. eapply (inv_idle s _ t None [Wcall data r sp] []); try done.
  - unfold write_return, gone, set_logs. cbn. by rewrite app_nil_r.
  - left. destruct Hr as [Hr|]; [|done]. destruct (can_write_base s f Hi Hr) as [b ->]. done.
  - apply Forall_singleton. by left.
  - unfold wbytes. cbn. rewrite take_negative; [done|]. pose proof (write_errors_negative r Herr). lia.
Qed.

Lemma inv_pipe_write s t f fl data at_pos :
  inv s -> threads s !! t = None -> files s !! f = Some fl -> f_wr fl = true -> inv (pipe_write s t f data at_pos).
Proof.
  intros Hi Ht Hf Hw. assert (Hcan : can_write (files s) f) by (exists fl; done).
  assert (Hid : is_idle (threads s !! t) = true) by (by rewrite Ht).
  unfold pipe_write. destruct at_pos; simpl; [|eapply inv_write_return; eauto; error_tac].
  destruct (readers (pp s) =? 0); [eapply inv_write_return; eauto; error_tac|].
  eapply (inv_idle s _ t (Some (WriteDown f data (if zlen data <=? PIPE_BUF then zlen data else 1))) [] []); try done.
  - unfold put, set_threads, set_logs. cbn. by rewrite !app_nil_r.
  - by intros th [= <-].
  - by right.
Qed.

Lemma inv_write_down s s' t f data free sig :
  inv s -> threads s !! t = Some (WriteDown f data free) -> write_down s t f data free sig = Some s' -> inv s'.
Proof.
  intros Hi Ht. destruct (t_ok s (i_threads s Hi) t _ Ht) as [Hcan Hfree].
  destruct (can_write_base s f Hi Hcan) as [b Hb]. pose proof Hi as [_ [L1 L2 L3] _ Hp].
  assert (Hid : is_idle (threads s !! t) = true) by (by rewrite Ht).
  unfold write_down. destruct (mutex s) as [o|] eqn:Hm.
  - destruct sig; intros [= <-]. eapply inv_write_return; eauto; error_tac.
  - intros [= <-]. destruct (p_data s Hp b Hb) as [D1 D2 D3 D4]. rewrite Hm in *.
    eapply (inv_call s _ t (Some (WriteTest f data free 0 false)) false b b); cbn; rewrite ?Hm, ?Ht; try done; cbn.
    + by rewrite <-wk_false.
    + eapply passes_idle; [done|by rewrite Ht|done].
    + by apply passes_take.
    + intros th [= <-]. simpl. split_and!; try done; lia.
    + by left.
    + lia.
    + apply Hp.
    + apply Hp.
Qed.

Lemma inv_write_finish s t f data free w err :
  inv s -> threads s !! t = Some (WriteTest f data free w false) ->
  err = 0 /\ w = zlen data \/ is_error write_errors err -> inv (write_finish s t data w err).
Proof.
  intros Hi Ht Herr. destruct (t_ok s (i_threads s Hi) t _ Ht) as (Hcan & Hw & Hfree).
  destruct (can_write_base s f Hi Hcan) as [b Hb]. pose proof (t_mutex s t _ Hi Ht eq_refl) as Hm.
  pose proof Hi as [_ [L1 L2 L3] _ Hp]. destruct (p_data s Hp b Hb) as [D1 D2 D3 D4].
  rewrite Hm in *. cbn in D3. rewrite Ht in D3. cbn in D3.
  eapply (inv_call s _ t None false b b); cbn; rewrite ?Hm, ?Ht; try done; cbn.
  - by rewrite <-wk_false.
  - eapply passes_idle; [done|by rewrite Ht|done].
  - by apply passes_drop.
  - by left.
  - lia.
  - rewrite D3. unfold wbytes. rewrite bind_app. cbn. rewrite !app_nil_r. f_equal.
    destruct (w =? 0) eqn:E; [|done]. rewrite take_negative by lia. symmetry. apply take_negative.
    destruct Herr as [[-> _]|He]; [lia|]. pose proof (write_errors_negative err He). lia.
  - apply Forall_app. split; [apply Hp|]. apply Forall_singleton. unfold wcall_ok. cbn.
    destruct (w =? 0) eqn:E; [|right; lia]. destruct Herr as [[-> ?]|He]; [right; lia|by left].
  - apply Hp.
Qed.

Lemma inv_write_test s t f fl data free w sig :
  inv s -> threads s !! t = Some (WriteTest f data free w false) -> inv (write_test s t f fl data free w sig).
Proof.
  intros Hi Ht. destruct (t_ok s (i_threads s Hi) t _ Ht) as (Hcan & Hw & Hfree).
  destruct (can_write_base s f Hi Hcan) as [b Hb]. pose proof (t_mutex s t _ Hi Ht eq_refl) as Hm.
  pose proof Hi as [_ [L1 L2 L3] _ Hp]. destruct (p_data s Hp b Hb) as [D1 D2 D3 D4].
  unfold write_test. destruct (negb (0 <? zlen data - w)) eqn:E0.
  { bool_hyps. eapply inv_write_finish; [done|done|]. left. lia. }
  bool_hyps. destruct (_ || _) eqn:E1.
  - destruct (readers (pp s) =? 0) eqn:Er; [eapply inv_write_finish; [done|done|right; error_tac]|].
    destruct sig; [eapply inv_write_finish; [done|done|right; error_tac]|].
    destruct (f_nonblock fl); [eapply inv_write_finish; [done|done|right; error_tac]|].
    rewrite Hm in *. cbn in D3. rewrite Ht in D3. cbn in D3.
    eapply (inv_call s _ t (Some (WriteTest f data free w true)) false b b); cbn; rewrite ?Hm, ?Ht; try done; cbn.
    + by rewrite <-wk_false.
    + eapply passes_idle; [done|by rewrite Ht|done].
    + eapply passes_keep; [exact L3|by rewrite Ht|done].
    + intros th [= <-]. simpl. split_and!; try done; lia.
    + by left.
    + lia.
    + apply Hp.
    + apply Hp.
  - bool_hyps. assert (Hlock : lock (pp s) = 0) by lia. pose proof (lock_free s Hi Hlock) as Hh.
    rewrite Hm, Hh in *. cbn in D3. rewrite Ht in D3. cbn in D3.
    eapply (inv_call s _ t (Some (WriteLoop f data w)) false b b); cbn; rewrite ?Hm, ?Hh, ?Ht; try done; cbn.
    + by rewrite <-wk_false.
    + by rewrite Hlock.
    + by apply passes_take.
    + eapply passes_keep; [exact L3|by rewrite Ht|done].
    + intros th [= <-]. simpl. split_and!; try done; try lia. unfold PIPE_FREE in *. cbn. intros.
      destruct Hfree as [[-> ->]|[-> ?]]; [|lia]. rewrite (proj2 (Z.leb_le _ _)) in * by done. lia.
    + by left.
    + rewrite Hlock. lia.
    + apply Hp.
    + apply Hp.
Qed.

Lemma inv_write_loop s t f data w :
  inv s -> threads s !! t = Some (WriteLoop f data w) -> inv (write_loop s t f data w).
Proof.
  intros Hi Ht. destruct (t_ok s (i_threads s Hi) t _ Ht) as [Hcan Hw].
  pose proof (t_ring s (i_threads s Hi) t _ Ht) as Hring. simpl in Hring.
  destruct (can_write_base s f Hi Hcan) as [b Hb].
  pose proof (t_mutex s t _ Hi Ht eq_refl) as Hm. pose proof (t_holder s t _ Hi Ht eq_refl) as Hh.
  pose proof Hi as [_ [L1 L2 L3] _ Hp]. destruct (p_data s Hp b Hb) as [D1 D2 D3 D4].
  rewrite Hm, Hh in *. cbn in D2, D3, D4. rewrite Ht in D2, D3, D4. cbn in D2, D3, D4.
  unfold write_loop. destruct (write_chunk (pp s) (zlen data - w)) as [[[p dst] chars]|] eqn:Ec.
  - destruct (write_chunk_ok (pp s) p (zlen data - w) dst chars) as (C1 & C2 & C3 & C4 & C5); [apply D1|apply D1|done|].
    rewrite C2 in *.
    eapply (inv_call s _ t (Some (WriteCopy f data (w + chars) dst chars)) false b b); cbn; rewrite ?Hm, ?Hh, ?Ht; try done; cbn.
    + by rewrite <-wk_false.
    + eapply passes_keep; [exact L2|by rewrite Ht|done].
    + eapply passes_keep; [exact L3|by rewrite Ht|done].
    + intros th [= <-]. simpl. unfold PIPE_FREE in *. cbn. split_and!; try done; try lia.
      rewrite C4. f_equal. lia.
    + by right.
    + rewrite L1. lia.
    + lia.
    + rewrite D2, <-app_assoc. do 3 f_equal. lia.
    + rewrite D3, take_chunk by lia. by rewrite <-app_assoc.
    + apply Hp.
    + apply Hp.
  - assert (Hend : zlen data = w \/ PIPE_FREE (pp s) = 0).
    { unfold write_chunk in Ec. destruct (0 <? zlen data - w) eqn:E1, (PIPE_FREE (pp s) =? 0) eqn:E2; simpl in Ec; try done; lia. }
    eapply (inv_call s _ t (Some (WriteTest f data 1 w false)) true b b); cbn; rewrite ?Hm, ?Hh, ?Ht; try done; cbn.
    + by rewrite L1.
    + by apply passes_drop.
    + eapply passes_keep; [exact L3|by rewrite Ht|done].
    + intros th [= <-]. simpl. split_and!; try done; try lia.
    + by left.
    + apply Hp.
    + apply Hp.
Qed.

Lemma inv_write_copy s s' t f data w dst chars :
  inv s -> threads s !! t = Some (WriteCopy f data w dst chars) -> write_copy s t f data w dst chars = Some s' -> inv s'.
Proof.
  intros Hi Ht. destruct (t_ok s (i_threads s Hi) t _ Ht) as (Hcan & Hw & Hw').
  pose proof (t_ring s (i_threads s Hi) t _ Ht) as (R1 & R2 & R3 & R4).
  unfold write_copy. destruct (base (pp s)) as [b|] eqn:Hb; simpl; [|done]. intros [= <-].
  pose proof (t_mutex s t _ Hi Ht eq_refl) as Hm. pose proof (t_holder s t _ Hi Ht eq_refl) as Hh.
  pose proof Hi as [_ [L1 L2 L3] _ Hp]. destruct (p_data s Hp b Hb) as [D1 D2 D3 D4].
  rewrite Hm, Hh in *. cbn in D2, D3, D4. rewrite Ht in D2, D3, D4. cbn in D2, D3, D4.
  pose proof (length_chunk data w chars ltac:(lia) ltac:(lia)) as Hlen.
  eapply (inv_call s _ t (Some (WriteLoop f data w)) false b); cbn; rewrite ?Hm, ?Hh, ?Ht; try done; cbn.
  - by rewrite <-wk_false.
  - eapply passes_keep; [exact L2|by rewrite Ht|done].
  - eapply passes_keep; [exact L3|by rewrite Ht|done].
  - intros th [= <-]. simpl. split_and!; try done; lia.
  - by left.
  - lia.
  - rewrite D2. f_equal. replace (len (pp s)) with ((len (pp s) - chars) + zlen (chunk data w chars)) at 2 by lia.
    symmetry. apply contents_chunk; lia.
  - apply Hp.
  - apply Hp.
Qed.

(** ** fifo_open keeps the invariant *)

Lemma users_nonneg s : inv s ->
  0 <= readers (pp s) /\ 0 <= writers (pp s) /\ 0 <= rd_openers (pp s) /\ 0 <= wr_openers (pp s).
Proof.
  intros [[C1 C2 C3 C4 C5] _ _ _]. rewrite C1, C2, C3, C4.
  assert (Hb : forall b, 0 <= bump b 1) by (by intros []).
  pose proof (msum_nonneg (fun fl => bump (f_rd fl) 1) (files s) (fun fl => Hb (f_rd fl))).
  pose proof (msum_nonneg (fun fl => bump (f_wr fl) 1) (files s) (fun fl => Hb (f_wr fl))).
  pose proof (msum_nonneg rd_of (threads s) ltac:(intros []; simpl; auto; lia)).
  pose proof (msum_nonneg wr_of (threads s) ltac:(intros []; simpl; auto; lia)).
  pose proof (msum_nonneg rdo_of (threads s) ltac:(intros []; simpl; lia)).
  pose proof (msum_nonneg wro_of (threads s) ltac:(intros []; simpl; lia)). lia.
Qed.

Lemma users_ge s t th : inv s -> threads s !! t = Some th -> rd_of th <= readers (pp s) /\ wr_of th <= writers (pp s).
Proof.
  intros [[C1 C2 C3 C4 C5] _ _ _] Ht. rewrite C1, C2. assert (Hb : forall b, 0 <= bump b 1) by (by intros []).
  pose proof (msum_nonneg (fun fl => bump (f_rd fl) 1) (files s) (fun fl => Hb (f_rd fl))).
  pose proof (msum_nonneg (fun fl => bump (f_wr fl) 1) (files s) (fun fl => Hb (f_wr fl))).
  pose proof (msum_ge rd_of (threads s) t th ltac:(intros []; simpl; auto; lia) Ht).
  pose proof (msum_ge wr_of (threads s) t th ltac:(intros []; simpl; auto; lia) Ht). lia.
Qed.

(** The state after a move of an opener, without a new file. *)
Definition opener_move (s : sys) (t : Z) (new : option thread) (w : bool) (p : pipe) (o : list Z) (lr lw : Z) : sys :=
  set_opens (set_threads (set_pipe s p) (upd t new (wk w <$> threads s))) o lr lw.

(** Neither the ring nor the locks are changed. *)
Definition same_ring (p p' : pipe) : Prop :=
  base p' = base p /\ start p' = start p /\ len p' = len p /\ lock p' = lock p.

Definition no_holder (o : option thread) : bool :=
  match o with Some th => negb (holds_lock th) && negb (holds_mutex th) | None => true end.

Lemma no_holder_holds o : no_holder o = true -> holds_opt holds_lock o = false /\ holds_opt holds_mutex o = false.
Proof. destruct o as [[]|]; done. Qed.

(** Files that are kept, with their modes, still serve the calls. *)
Lemma th_ok_modes fs fs' th :
  (forall g fl, fs !! g = Some fl -> uses g th = true -> exists fl', fs' !! g = Some fl' /\ f_rd fl' = f_rd fl /\ f_wr fl' = f_wr fl) ->
  th_ok fs th -> th_ok fs' th.
Proof.
  intros Hfs.
  assert (Hr : forall g, uses g th = true -> can_read fs g -> can_read fs' g).
  { intros g Hu (fl & Hg & Hr). destruct (Hfs g fl Hg Hu) as (fl' & ? & ? & ?). exists fl'. split; congruence. }
  assert (Hw : forall g, uses g th = true -> can_write fs g -> can_write fs' g).
  { intros g Hu (fl & Hg & Hw). destruct (Hfs g fl Hg Hu) as (fl' & ? & ? & ?). exists fl'. split; congruence. }
  destruct th; simpl in *; intuition auto using Z.eqb_refl.
Qed.

Lemma th_ok_files fs fs' th : (forall g fl, fs !! g = Some fl -> fs' !! g = Some fl) -> th_ok fs th -> th_ok fs' th.
Proof. intros Hfs. apply th_ok_modes. intros g fl Hg _. eauto. Qed.

Lemma inv_opener s t new w p o lr lw :
  inv s -> fifo s = true -> no_holder (threads s !! t) = true -> no_holder new = true -> same_ring (pp s) p ->
  (readers p - lr) - (readers (pp s) - lost_r s) = contrib rd_of new - contrib rd_of (threads s !! t) ->
  (writers p - lw) - (writers (pp s) - lost_w s) = contrib wr_of new - contrib wr_of (threads s !! t) ->
  rd_openers p - rd_openers (pp s) = contrib rdo_of new - contrib rdo_of (threads s !! t) ->
  wr_openers p - wr_openers (pp s) = contrib wro_of new - contrib wro_of (threads s !! t) ->
  lost_r s <= lr -> lost_w s <= lw ->
  (forall th, new = Some th -> th_ok (files s) th /\ (asleep th = true -> reason p th)) ->
  (w = false -> reasons_kept (pp s) p) ->
  inv (opener_move s t new w p o lr lw).
Proof.
  intros Hi Hk Hold Hnew (R1 & R2 & R3 & R4) E1 E2 E3 E4 L1 L2 Hok Hreas.
  destruct (no_holder_holds _ Hold) as [O1 O2]. destruct (no_holder_holds _ Hnew) as [N1 N2].
  pose proof Hi as [Hc [L3 L4 L5] Ht Hp].
  eapply (inv_move s _ t new w); cbn; rewrite ?R4;
    [done|done|done|lia|lia|lia|lia|lia|lia|done| | |apply Ht|done| |by left|done|].
  - by eapply passes_idle.
  - by eapply passes_idle.
  - intros th Hth. specialize (Hok th Hth). split_and!; [naive_solver| |naive_solver|done].
    apply ring_ok_free. subst. simpl in *. by destruct (holds_lock th).
  - eapply (page_quiet s _ t new w [] []); cbn; rewrite ?app_nil_r; try done; by eapply not_owner.
Qed.

(** ... with a new file, when the call returns. *)
Lemma inv_open_file s s' t f fl :
  inv s -> fifo s = true -> no_holder (threads s !! t) = true -> fops_ok fl = true ->
  contrib rd_of (threads s !! t) = bump (f_rd fl) 1 -> contrib wr_of (threads s !! t) = bump (f_wr fl) 1 ->
  contrib rdo_of (threads s !! t) = 0 -> contrib wro_of (threads s !! t) = 0 ->
  base (pp s) <> None -> open_file s t f fl = Some s' -> inv s'.
Proof.
  intros Hi Hk Hold Hf C1 C2 C3 C4 Hb. unfold open_file. destruct (files s !! f) eqn:Ef; [done|]. intros [= <-].
  destruct (no_holder_holds _ Hold) as [O1 O2]. pose proof Hi as [Hc [L3 L4 L5] Ht Hp].
  assert (Hrd : file_rd (<[f := fl]> (files s)) = bump (f_rd fl) 1 + file_rd (files s)) by (unfold file_rd; by rewrite msum_insert).
  assert (Hwr : file_wr (<[f := fl]> (files s)) = bump (f_wr fl) 1 + file_wr (files s)) by (unfold file_wr; by rewrite msum_insert).
  eapply (inv_move s _ t None false); cbn;
    [done|by rewrite <-wk_false|done|lia|lia|lia|lia|lia|lia|done| | | | |done|by left| |].
  - by eapply passes_idle.
  - by eapply passes_idle.
  - apply map_Forall_insert_2; [done|apply Ht].
  - intros u th _ _. apply th_ok_files. intros g gl Hg. rewrite lookup_insert_ne; [done|congruence].
  - intros _. apply reasons_kept_refl.
  - eapply (page_quiet s _ t None false [] []); cbn; rewrite ?app_nil_r; try done.
    + by rewrite <-wk_false.
    + by eapply not_owner.
    + by eapply not_owner.
Qed.

Lemma opener_move_wake_if s t th w p :
  put (wake_if w (set_pipe s p)) t th = opener_move s t (Some th) w p (olog s) (lost_r s) (lost_w s).
Proof. destruct w; unfold opener_move, put, wake_if, wake_up_interruptible, set_threads, set_pipe, set_opens; cbn; [done|]. by rewrite map_fmap_id. Qed.

Lemma set_pipe_wake_if w s p (g : pipe -> pipe) :
  set_pipe (wake_if w (set_pipe s p)) (g (pp (wake_if w (set_pipe s p)))) = wake_if w (set_pipe s (g p)).
Proof. by destruct w. Qed.

Lemma opener_move_put s t th :
  put s t th = opener_move s t (Some th) false (pp s) (olog s) (lost_r s) (lost_w s).
Proof. unfold opener_move, put, set_threads, set_pipe, set_opens. cbn. rewrite map_fmap_id. by destruct s. Qed.

Lemma opener_move_return s t r w p :
  open_return (wake_if w (set_pipe s p)) t r = opener_move s t None w p (olog s ++ [r]) (lost_r s) (lost_w s).
Proof.
  destruct w; unfold opener_move, open_return, gone, wake_if, wake_up_interruptible, set_threads, set_pipe, set_opens; cbn; [done|].
  by rewrite map_fmap_id.
Qed.

Lemma set_pipe_id s : set_pipe s (pp s) = s.
Proof. by destruct s. Qed.

Lemma opener_move_end s t r :
  open_return s t r = opener_move s t None false (pp s) (olog s ++ [r]) (lost_r s) (lost_w s).
Proof. rewrite <-opener_move_return. cbn. by rewrite set_pipe_id. Qed.

Lemma inv_open_page s s' t f fl old :
  inv s -> threads s !! t = Some old -> is_opener old = true -> fops_ok fl = true ->
  rd_of old = bump (f_rd fl) 1 -> wr_of old = bump (f_wr fl) 1 -> rdo_of old = 0 -> wro_of old = 0 ->
  open_page s t f fl = Some s' -> inv s'.
Proof.
  intros Hi Ht Ho Hf C1 C2 C3 C4. pose proof (t_kind s (i_threads s Hi) t old Ht Ho) as Hk.
  assert (Hold : no_holder (threads s !! t) = true) by (rewrite Ht; by destruct old).
  unfold open_page. destruct (base (pp s)) eqn:Hb.
  - apply inv_open_file; try done; rewrite ?Ht, ?Hb; done.
  - intros [= <-]. rewrite opener_move_put.
    apply inv_opener; try done; rewrite ?Ht; cbn; try lia.
    + by intros th [= <-].
    + intros _. apply reasons_kept_refl.
Qed.

Ltac opener_tac := first [done | lia | split_and!; (done || lia)].

Lemma inv_fifo_open s t rd wr nb :
  inv s -> fifo s = true -> threads s !! t = None -> inv (fifo_open s t rd wr nb).
Proof.
  intros Hi Hk Ht. pose proof (users_nonneg s Hi) as (U1 & U2 & U3 & U4).
  unfold fifo_open. destruct rd, wr; cbn [andb negb].
  - rewrite opener_move_wake_if. apply inv_opener; rewrite ?Ht; cbn; try opener_tac.
    + by intros th [= <-].
    + unfold reasons_kept. cbn. lia.
  - destruct (_ && _) eqn:E.
    + bool_hyps. rewrite (set_pipe_wake_if _ s _ (fun p => add_openers p 1 0)), opener_move_wake_if.
      apply inv_opener; rewrite ?Ht; cbn; try opener_tac; [by intros th [= <-]|]. unfold reasons_kept. cbn. lia.
    + rewrite opener_move_wake_if.
      apply inv_opener; rewrite ?Ht; cbn; try opener_tac; [intros th [= <-]; split; [by left|done]|].
      unfold reasons_kept. cbn. lia.
  - destruct (nb && _) eqn:E.
    + rewrite opener_move_end.
      apply inv_opener; rewrite ?Ht; cbn; try opener_tac. intros _. apply reasons_kept_refl.
    + destruct (readers (pp s) =? 0) eqn:Er.
      * rewrite (set_pipe_wake_if _ s _ (fun p => add_openers p 0 1)), opener_move_wake_if.
        apply inv_opener; rewrite ?Ht; cbn; try opener_tac; [by intros th [= <-]|]. unfold reasons_kept. cbn. lia.
      * rewrite opener_move_wake_if.
        apply inv_opener; rewrite ?Ht; cbn; try opener_tac; [intros th [= <-]; split; [by left|done]|].
        unfold reasons_kept. cbn. lia.
  - rewrite opener_move_end.
    apply inv_opener; rewrite ?Ht; cbn; try opener_tac. intros _. apply reasons_kept_refl.
Qed.

Lemma inv_open_rd_wait s t nb sig :
  inv s -> threads s !! t = Some (OpenRdWait nb false) -> inv (open_rd_wait s t nb sig).
Proof.
  intros Hi Ht. pose proof (t_kind s (i_threads s Hi) t _ Ht eq_refl) as Hk.
  pose proof (users_nonneg s Hi) as (U1 & U2 & U3 & U4). unfold open_rd_wait.
  assert (Hleave : forall r, r = 0 \/ r = - ERESTARTSYS ->
    inv (put (wake_if (rd_openers (pp s) + -1 =? 0) (set_pipe s (add_openers (pp s) (-1) 0))) t (OpenRdEnd nb r false))).
  { intros r Hr. rewrite opener_move_wake_if. apply inv_opener; rewrite ?Ht; cbn; try opener_tac.
    - by intros th [= <-].
    - unfold reasons_kept. cbn. lia. }
  destruct (negb _) eqn:E; [apply Hleave; auto|]. destruct sig; [apply Hleave; auto|]. bool_hyps.
  rewrite opener_move_put. apply inv_opener; rewrite ?Ht; cbn; try opener_tac.
  - intros th [= <-]. simpl. split; [done|lia].
  - intros _. apply reasons_kept_refl.
Qed.

Lemma inv_open_wr_wait s t nb sig :
  inv s -> threads s !! t = Some (OpenWrWait nb false) -> inv (open_wr_wait s t nb sig).
Proof.
  intros Hi Ht. pose proof (t_kind s (i_threads s Hi) t _ Ht eq_refl) as Hk.
  pose proof (users_nonneg s Hi) as (U1 & U2 & U3 & U4). unfold open_wr_wait.
  assert (Hleave : forall r, r = 0 \/ r = - ERESTARTSYS ->
    inv (put (wake_if (wr_openers (pp s) + -1 =? 0) (set_pipe s (add_openers (pp s) 0 (-1)))) t (OpenWrEnd nb r false))).
  { intros r Hr. rewrite opener_move_wake_if. apply inv_opener; rewrite ?Ht; cbn; try opener_tac.
    - by intros th [= <-].
    - unfold reasons_kept. cbn. lia. }
  destruct (negb _) eqn:E; [apply Hleave; auto|]. destruct sig; [apply Hleave; auto|]. bool_hyps.
  rewrite opener_move_put. apply inv_opener; rewrite ?Ht; cbn; try opener_tac.
  - intros th [= <-]. simpl. split; [done|lia].
  - intros _. apply reasons_kept_refl.
Qed.

Lemma inv_open_rd_end s s' t f nb r :
  inv s -> threads s !! t = Some (OpenRdEnd nb r false) -> open_rd_end s t f nb r = Some s' -> inv s'.
Proof.
  intros Hi Ht. pose proof (t_kind s (i_threads s Hi) t _ Ht eq_refl) as Hk.
  pose proof (t_ok s (i_threads s Hi) t _ Ht) as Hr. simpl in Hr.
  pose proof (users_nonneg s Hi) as (U1 & U2 & U3 & U4). pose proof (users_ge s t _ Hi Ht) as [G1 G2]. simpl in G1, G2. unfold open_rd_end.
  destruct (negb (wr_openers (pp s) =? 0)) eqn:E.
  - intros [= <-]. rewrite opener_move_put. apply inv_opener; rewrite ?Ht; cbn; try opener_tac.
    + intros th [= <-]. simpl. split; [done|lia].
    + intros _. apply reasons_kept_refl.
  - destruct (r =? 0).
    + apply (inv_open_page s s' t f _ _ Hi Ht); try done. cbn. by destruct (writers (pp s) =? 0).
    + intros [= <-]. rewrite opener_move_return. apply inv_opener; rewrite ?Ht; cbn; try opener_tac.
      unfold reasons_kept. cbn. lia.
Qed.

Lemma inv_open_wr_end s s' t f nb r :
  inv s -> threads s !! t = Some (OpenWrEnd nb r false) -> open_wr_end s t f nb r = Some s' -> inv s'.
Proof.
  intros Hi Ht. pose proof (t_kind s (i_threads s Hi) t _ Ht eq_refl) as Hk.
  pose proof (t_ok s (i_threads s Hi) t _ Ht) as Hr. simpl in Hr.
  pose proof (users_nonneg s Hi) as (U1 & U2 & U3 & U4). pose proof (users_ge s t _ Hi Ht) as [G1 G2]. simpl in G1, G2. unfold open_wr_end.
  destruct (negb (rd_openers (pp s) =? 0)) eqn:E.
  - intros [= <-]. rewrite opener_move_put. apply inv_opener; rewrite ?Ht; cbn; try opener_tac.
    + intros th [= <-]. simpl. split; [done|lia].
    + intros _. apply reasons_kept_refl.
  - destruct (r =? 0).
    + by apply (inv_open_page s s' t f _ _ Hi Ht).
    + intros [= <-]. rewrite opener_move_return. apply inv_opener; rewrite ?Ht; cbn; try opener_tac.
      unfold reasons_kept. cbn. lia.
Qed.

Lemma inv_open_rw_first s t nb :
  inv s -> threads s !! t = Some (OpenRwFirst nb false) -> inv (open_rw_first s t nb).
Proof.
  intros Hi Ht. pose proof (t_kind s (i_threads s Hi) t _ Ht eq_refl) as Hk.
  pose proof (users_nonneg s Hi) as (U1 & U2 & U3 & U4). unfold open_rw_first.
  destruct (negb (wr_openers (pp s) =? 0)) eqn:E.
  - rewrite opener_move_put. apply inv_opener; rewrite ?Ht; cbn; try opener_tac.
    + intros th [= <-]. simpl. split; [done|lia].
    + intros _. apply reasons_kept_refl.
  - rewrite opener_move_wake_if. apply inv_opener; rewrite ?Ht; cbn; try opener_tac.
    + by intros th [= <-].
    + unfold reasons_kept. cbn. lia.
Qed.

Lemma inv_open_rw_second s s' t f nb :
  inv s -> threads s !! t = Some (OpenRwSecond nb false) -> open_rw_second s t f nb = Some s' -> inv s'.
Proof.
  intros Hi Ht. pose proof (t_kind s (i_threads s Hi) t _ Ht eq_refl) as Hk. unfold open_rw_second.
  destruct (negb (rd_openers (pp s) =? 0)) eqn:E.
  - intros [= <-]. rewrite opener_move_put. apply inv_opener; rewrite ?Ht; cbn; try opener_tac.
    + intros th [= <-]. simpl. split; [done|lia].
    + intros _. apply reasons_kept_refl.
  - by apply (inv_open_page s s' t f _ _ Hi Ht).
Qed.

Lemma no_files_no_holder s : inv s -> files s = ∅ -> holder s = None /\ mutex s = None.
Proof.
  intros Hi Hf. pose proof Hi as [_ [_ L2 L3] _ _].
  assert (Hno : forall t th, threads s !! t = Some th -> holds_lock th = true \/ holds_mutex th = true -> False).
  { intros t th Ht Hh. pose proof (t_ok s (i_threads s Hi) t th Ht) as Hok. rewrite Hf in Hok.
    destruct th; simpl in *; destruct Hh as [Hh|Hh]; try done; destruct Hok as ((fl & E & _) & _); by rewrite lookup_empty in E. }
  split.
  - destruct (holder s) as [t|]; [|done]. destruct (proj1 (L2 t) eq_refl) as (th & Ht & Hh). exfalso. eauto.
  - destruct (mutex s) as [t|]; [|done]. destruct (proj1 (L3 t) eq_refl) as (th & Ht & Hh). exfalso. eauto.
Qed.

(** A fresh page: the ring is empty, and nobody has used it yet. *)
Lemma inv_fresh_page s page :
  inv s -> base (pp s) = None ->
  inv (set_pipe s (Pipe (Some page) 0 0 0 (rd_openers (pp s)) (wr_openers (pp s)) (readers (pp s)) (writers (pp s)))).
Proof.
  intros Hi Hb. pose proof Hi as [[C1 C2 C3 C4 C5] [L1 L2 L3] Ht Hp].
  destruct (p_none s Hp Hb) as (Hf & Hs & Hr & Hw & Hrl). destruct (no_files_no_holder s Hi Hf) as [Hh Hm].
  assert (Huse : forall t th, threads s !! t = Some th -> is_opener th = true).
  { intros t th E. pose proof (t_ok s Ht t th E) as Hok. rewrite Hf in Hok.
    destruct th; simpl in *; try done; destruct Hok as ((fl & E' & _) & _); by rewrite lookup_empty in E'. }
  constructor; constructor; cbn; try done; try apply Ht.
  - by rewrite Hh.
  - intros t th E. apply ring_ok_free. pose proof (Huse t th E). by destruct th.
  - intros t th E Ha. pose proof (t_sleep s Ht t th E Ha) as Hreason. pose proof (Huse t th E). by destruct th.
  - intros b [= <-]. constructor; cbn; [done| | |]; by rewrite ?Hh, ?Hm, ?Hs, ?Hr, ?Hw, ?Hrl.
  - apply Hp.
  - apply Hp.
Qed.

Lemma inv_open_alloc s s' t f fl page :
  inv s -> threads s !! t = Some (OpenPage fl) -> open_alloc s t f fl page = Some s' -> inv s'.
Proof.
  intros Hi Ht. pose proof (t_kind s (i_threads s Hi) t _ Ht eq_refl) as Hk.
  pose proof (t_ok s (i_threads s Hi) t _ Ht) as Hf. simpl in Hf. unfold open_alloc.
  destruct (base (pp s)) as [b|] eqn:Hb.
  - apply inv_open_file; rewrite ?Ht, ?Hb; done.
  - destruct page as [page|].
    + apply inv_open_file; cbn; rewrite ?Ht; try done. by apply inv_fresh_page.
    + intros [= <-]. set (lr := lost_r s + bump (f_rd fl) 1). set (lw := lost_w s + bump (f_wr fl) 1).
      assert (Hbump : forall b, 0 <= bump b 1) by (by intros []).
      pose proof (Hbump (f_rd fl)). pose proof (Hbump (f_wr fl)).
      pose proof (inv_opener s t None false (pp s) (olog s ++ [- ENOMEM]) lr lw) as Hinv.
      unfold opener_move in Hinv. rewrite <-wk_false in Hinv.
      apply Hinv; rewrite ?Ht; unfold lr, lw; cbn; try opener_tac. intros _. apply reasons_kept_refl.
Qed.

(** ** The other labels keep the invariant *)

(** A file gets other flags or operations. *)
Lemma inv_set_file s f fl fl' :
  inv s -> files s !! f = Some fl -> f_rd fl' = f_rd fl -> f_wr fl' = f_wr fl -> fops_ok fl' = true ->
  inv (set_files s (<[f := fl']> (files s))).
Proof.
  intros Hi Hf Er Ew Hok. pose proof Hi as [[C1 C2 C3 C4 C5] Hl [T1 T2 T3 T4 T5] [P1 P2 P3 P4]].
  destruct (has_base s f fl Hi Hf) as [b Hb]. constructor; [|by destruct Hl| |].
  - constructor; cbn; try done; rewrite (msum_update _ _ f fl fl' Hf), ?Er, ?Ew; lia.
  - constructor; cbn; try done; [|by apply map_Forall_insert_2].
    intros t th Ht. eapply th_ok_modes; [|by eapply T1]. intros g gl Hg _.
    destruct (decide (g = f)) as [->|]; [|rewrite lookup_insert_ne by done; eauto].
    rewrite lookup_insert_eq. simplify_eq. eauto.
  - constructor; cbn; try done; [|by rewrite Hb]. intros b' Hb'. destruct (P1 b' Hb') as [D1 D2 D3 D4]. by constructor.
Qed.

Lemma fops_connected fl : fops_ok fl = true -> f_op fl = connecting_fifo_fops -> fops_ok (set_op fl read_fifo_fops) = true.
Proof. unfold fops_ok, set_op. cbn. intros H E. by rewrite E in H. Qed.

Lemma inv_op_read s t f fl count at_pos :
  inv s -> threads s !! t = None -> files s !! f = Some fl -> f_rd fl = true -> 0 <= count ->
  inv (op_read s t f fl count at_pos).
Proof.
  intros Hi Ht Hf Hr Hc. pose proof (t_files s (i_threads s Hi) f fl Hf) as Hok.
  destruct (has_base s f fl Hi Hf) as [b Hb].
  unfold op_read. destruct (f_op fl) eqn:Eop; try (by apply inv_pipe_read).
  - unfold connect_read. destruct (_ && _).
    + apply (inv_read_return s t f); [done|by rewrite Ht|right; by rewrite Hb|by left].
    + apply inv_pipe_read; try done.
      * eapply inv_set_file; try done. by apply fops_connected.
      * cbn. by rewrite lookup_insert_eq.
  - apply (inv_read_return s t f); [done|by rewrite Ht|right; by rewrite Hb|right; error_tac].
  - apply (inv_read_return s t f); [done|by rewrite Ht|right; by rewrite Hb|right; error_tac].
Qed.

Lemma inv_op_poll s f fl : inv s -> files s !! f = Some fl -> inv (op_poll s f fl).2.
Proof.
  intros Hi Hf. pose proof (t_files s (i_threads s Hi) f fl Hf) as Hok.
  unfold op_poll. destruct (f_op fl) eqn:Eop; try done. unfold connect_poll.
  assert (Hc : inv (set_files s (<[f := set_op fl read_fifo_fops]> (files s)))).
  { eapply inv_set_file; try done. by apply fops_connected. }
  destruct (negb (PIPE_EMPTY (pp s))); [done|]. simpl. by destruct (negb _).
Qed.

Lemma passes_same P h m t th th' :
  owner P h m -> m !! t = Some th -> P th' = P th -> passes P h h t (Some th').
Proof.
  intros Ho Ht HP. destruct (P th) eqn:E.
  - by eapply passes_keep; [done|rewrite Ht|].
  - by eapply passes_idle; [done|rewrite Ht|].
Qed.

Lemma inv_signal s t th : inv s -> threads s !! t = Some th -> inv (put s t (wake th)).
Proof.
  intros Hi Ht. pose proof Hi as [Hc [L1 L2 L3] Hth Hp]. destruct (wake_contrib th) as (W1 & W2 & W3 & W4).
  destruct (wake_holds th) as [W5 W6]. destruct (wake_th_ok (files s) (pp s) true th) as (V1 & V2 & V3). simpl in *.
  pose proof (t_ok s Hth t th Ht). pose proof (t_ring s Hth t th Ht). pose proof (t_kind s Hth t th Ht).
  eapply (inv_move s _ t (Some (wake th)) false); cbn; rewrite ?Ht; cbn;
    [done|by rewrite <-wk_false|done|lia|lia|lia|lia|lia|lia|done| | |apply Hth|done| |by left| |].
  - by eapply passes_same.
  - by eapply passes_same.
  - intros th' [= <-]. rewrite V3. pose proof (wk_awake th) as E. simpl in E. rewrite E. split_and!; auto; done.
  - intros _. apply reasons_kept_refl.
  - assert (Hcur : forall h (A : Type) (f : option thread -> A), (forall o, f (wk true <$> o) = f o) ->
      f (current h (<[t := wake th]> (threads s))) = f (current h (threads s))).
    { intros h A f Hf. destruct h as [u|]; [|done]. simpl. destruct (decide (u = t)) as [->|].
      - rewrite lookup_insert_eq, Ht. apply (Hf (Some th)).
      - by rewrite lookup_insert_ne. }
    destruct Hp as [P1 P2 P3 P4]. constructor; cbn; try done. intros b Hb. destruct (P1 b Hb) as [D1 D2 D3 D4].
    constructor; [done| | |].
    + etrans; [exact D2|]. f_equal. symmetry. apply (Hcur (holder s) _ (flight (pp s) b)). intros. apply view_wk.
    + etrans; [exact D3|]. f_equal. symmetry. apply (Hcur (mutex s) _ written_by). intros. apply (view_wk (pp s) b).
    + etrans; [exact D4|]. f_equal. symmetry. apply (Hcur (holder s) _ read_by). intros. apply (view_wk (pp s) b).
Qed.

Lemma op_release_rdwr s fl : fops_ok fl = true -> op_release s fl = pipe_rdwr_release s fl.
Proof.
  unfold fops_ok, op_release, pipe_read_release, pipe_write_release, pipe_rdwr_release.
  destruct fl as [[] [] nb op]; cbn; by destruct op.
Qed.

(** Without users there are no files. *)
Lemma no_users_no_files fs :
  map_Forall (fun _ fl => fops_ok fl = true) fs -> file_rd fs = 0 -> file_wr fs = 0 -> fs = (∅ : gmap Z file).
Proof.
  intros Hok Hr Hw. apply map_empty. intros f. destruct (fs !! f) as [fl|] eqn:Hf; [|done]. exfalso.
  assert (Hb : forall b, 0 <= bump b 1) by (by intros []).
  pose proof (msum_zero (fun fl => bump (f_rd fl) 1) fs (fun fl => Hb (f_rd fl)) Hr f fl Hf) as E1.
  pose proof (msum_zero (fun fl => bump (f_wr fl) 1) fs (fun fl => Hb (f_wr fl)) Hw f fl Hf) as E2.
  specialize (Hok f fl Hf). simpl in Hok. destruct fl as [[] [] nb op]; simpl in *; try done. by destruct op.
Qed.

Lemma in_use_false f s : in_use f s = false -> forall t th, threads s !! t = Some th -> uses f th = false.
Proof. unfold in_use. intros H%negb_false_iff%bool_decide_eq_true_1 t th Ht. by apply (H t th). Qed.

Lemma inv_close s f fl :
  inv s -> files s !! f = Some fl -> in_use f s = false -> inv (op_release (set_files s (delete f (files s))) fl).
Proof.
  intros Hi Hf Huse. pose proof Hi as [[C1 C2 C3 C4 C5] [L1 L2 L3] [T1 T2 T3 T4 T5] [P1 P2 P3 P4]].
  pose proof (in_use_false f s Huse) as Hnot. rewrite op_release_rdwr by (by eapply T5).
  assert (Hrd : file_rd (delete f (files s)) = file_rd (files s) - bump (f_rd fl) 1) by (unfold file_rd; by rewrite (msum_delete _ _ f fl Hf)).
  assert (Hwr : file_wr (delete f (files s)) = file_wr (files s) - bump (f_wr fl) 1) by (unfold file_wr; by rewrite (msum_delete _ _ f fl Hf)).
  assert (Hfs : map_Forall (fun _ fl => fops_ok fl = true) (delete f (files s))) by (by apply map_Forall_delete).
  set (t := fresh (dom (threads s))).
  assert (Ht : threads s !! t = None) by (apply not_elem_of_dom, is_fresh).
  assert (Hup : wake <$> threads s = upd t None (wk true <$> threads s)).
  { rewrite <-gone_upd. cbn. rewrite delete_id; [done|]. by rewrite lookup_fmap, Ht. }
  assert (Hneg : forall b, bump b (-1) = - bump b 1) by (by intros []).
  destruct (has_base s f fl Hi Hf) as [b Hb].
  assert (Hold : forall m, th_ok (files s) m -> uses f m = false -> th_ok (delete f (files s)) m).
  { intros m Hm Hu. eapply th_ok_modes; [|done]. intros g gl Hg Hug. exists gl.
    rewrite lookup_delete_ne; [done|]. intros ->. congruence. }
  unfold pipe_rdwr_release, pipe_release. cbn.
  destruct (_ && _) eqn:Efree; (eapply (inv_move s _ t None true); cbn; rewrite ?Ht; cbn;
    [done|done|done|rewrite Hneg; lia|rewrite Hneg; lia|lia|lia|lia|lia|done| | |done| |done|by left|done|]);
    try (by eapply passes_idle; [done|rewrite Ht|]); try (intros u th _ Hu Hok; by eapply Hold, Hnot).
  - rewrite !Hneg in Efree. bool_hyps.
    assert (Hb0 : forall b, 0 <= bump b 1) by (by intros []).
    assert (Hr0 : forall x, 0 <= rd_of x) by (intros []; simpl; auto; lia).
    assert (Hw0 : forall x, 0 <= wr_of x) by (intros []; simpl; auto; lia).
    pose proof (msum_nonneg rd_of (threads s) Hr0). pose proof (msum_nonneg wr_of (threads s) Hw0).
    pose proof (msum_nonneg _ (delete f (files s)) (fun fl => Hb0 (f_rd fl))) as N1.
    pose proof (msum_nonneg _ (delete f (files s)) (fun fl => Hb0 (f_wr fl))) as N2.
    fold (file_rd (delete f (files s))) in N1. fold (file_wr (delete f (files s))) in N2.
    fold (file_rd (files s)) in C1. fold (file_wr (files s)) in C2.
    constructor; cbn; try done. intros _. split_and!; try done. apply no_users_no_files; [done|lia|lia].
  - eapply (page_quiet s _ t None true [] []); cbn; rewrite ?app_nil_r; try done.
    + eapply not_owner; [done|by rewrite Ht].
    + eapply not_owner; [done|by rewrite Ht].
    + by rewrite Hb.
Qed.

Lemma inv_open_pipe s f rd wr nb :
  inv s -> fifo s = false -> files s !! f = None -> files s <> ∅ -> rd || wr = true ->
  let fl := File rd wr nb rdwr_pipe_fops in inv (pipe_rdwr_open (set_files s (<[f := fl]> (files s))) fl).
Proof.
  intros Hi Hk Hf Hne Hm fl. pose proof Hi as [[C1 C2 C3 C4 C5] [L1 L2 L3] [T1 T2 T3 T4 T5] [P1 P2 P3 P4]].
  pose proof (users_nonneg s Hi) as (U1 & U2 & _ & _). assert (Hb0 : forall b, 0 <= bump b 1) by (by intros []).
  destruct (base (pp s)) as [b|] eqn:Hb; [|by destruct (P2 eq_refl)].
  unfold pipe_rdwr_open, fl. constructor; [| | |].
  - constructor; cbn; try done; rewrite msum_insert by done; cbn; lia.
  - by constructor.
  - constructor; cbn; try done; [| |by apply map_Forall_insert_2].
    + intros t th Ht. eapply th_ok_files; [|by eapply T1]. intros g gl Hg. rewrite lookup_insert_ne; [done|congruence].
    + intros t th Ht Ha. pose proof (T3 t th Ht Ha) as Hr. pose proof (T4 t th Ht) as Hop. rewrite Hk in Hop.
      pose proof (Hb0 rd). pose proof (Hb0 wr).
      destruct th; cbn in *; unfold PIPE_FREE in *; cbn; try (by specialize (Hop eq_refl)); lia.
  - constructor; cbn; rewrite ?Hb; try done. intros b' Hb'. destruct (P1 b' Hb') as [D1 D2 D3 D4]. by constructor.
Qed.

Lemma inv_new_pipe page i j : i <> j -> inv (new_pipe page i j).
Proof.
  intros Hij. assert (Hn : ({[j := File false true false write_pipe_fops]} : gmap Z file) !! i = None) by (by apply lookup_singleton_ne).
  constructor; constructor; cbn; try done.
  - rewrite msum_insert, <-insert_empty, msum_insert by done. done.
  - rewrite msum_insert, <-insert_empty, msum_insert by done. done.
  - intros u. split; [done|]. intros (th & E & _). by rewrite lookup_empty in E.
  - intros u. split; [done|]. intros (th & E & _). by rewrite lookup_empty in E.
  - apply map_Forall_insert_2; [done|]. by apply map_Forall_singleton.
Qed.

Lemma inv_init_fifo : inv init_fifo.
Proof.
  constructor; constructor; cbn; try done.
  - intros u. split; [done|]. intros (th & E & _). by rewrite lookup_empty in E.
  - intros u. split; [done|]. intros (th & E & _). by rewrite lookup_empty in E.
Qed.

Lemma inv_go s t sig page f s' : inv s -> go s t sig page f = Some s' -> inv s'.
Proof.
  intros Hi. unfold go. destruct (threads s !! t) as [th|] eqn:Ht; [|done]. simpl.
  destruct th as [g n [] |g n buf|g n buf src chars|g d free|g d free w []|g d w|g d w dst chars
                 |nb []|nb r []|nb []|nb r []|nb []|nb []|fl]; try done.
  - intros [= <-]. by apply inv_read_test.
  - intros [= <-]. by apply inv_read_loop.
  - by apply inv_read_copy.
  - by apply inv_write_down.
  - destruct (files s !! g) as [fl|]; [|done]. intros [= <-]. by apply inv_write_test.
  - intros [= <-]. by apply inv_write_loop.
  - by apply inv_write_copy.
  - intros [= <-]. by apply inv_open_rd_wait.
  - by apply inv_open_rd_end.
  - intros [= <-]. by apply inv_open_wr_wait.
  - by apply inv_open_wr_end.
  - intros [= <-]. by apply inv_open_rw_first.
  - by apply inv_open_rw_second.
  - by apply inv_open_alloc.
Qed.

Lemma is_None_b_true {A} (o : option A) : is_None_b o = true -> o = None.
Proof. by destruct o. Qed.

Lemma inv_op_write s t f fl data at_pos :
  inv s -> threads s !! t = None -> files s !! f = Some fl -> f_wr fl = true -> inv (op_write s t f fl data at_pos).
Proof.
  intros Hi Ht Hf Hw. destruct (has_base s f fl Hi Hf) as [b Hb].
  assert (Hbad : inv (bad_pipe_w s t data)).
  { apply (inv_write_return s t f); [done|by rewrite Ht|right; by rewrite Hb|error_tac]. }
  unfold op_write. destruct (f_op fl); try done; by apply (inv_pipe_write s t f fl).
Qed.

Lemma inv_step s l s' : inv s -> step s l = Some s' -> inv s'.
Proof.
  intros Hi. destruct l as [t f n ap|t f d ap|f|f nb|t rd wr nb|f rd wr nb|f|t|t sig page f]; simpl.
  - destruct (files s !! f) as [fl|] eqn:Hf; [|done]. simpl. destruct (_ || _) eqn:E; [done|]. bool_hyps.
    destruct (has_base s f fl Hi Hf) as [b Hb]. apply is_None_b_true in H.
    destruct (f_rd fl) eqn:Er; intros [= <-]; [apply inv_op_read; auto; lia|].
    apply (inv_read_return s t f); [done|by rewrite H|right; by rewrite Hb|right; error_tac].
  - destruct (files s !! f) as [fl|] eqn:Hf; [|done]. simpl. destruct (negb _) eqn:E; [done|]. bool_hyps.
    destruct (has_base s f fl Hi Hf) as [b Hb]. apply is_None_b_true in E.
    destruct (f_wr fl) eqn:Er; intros [= <-]; [by apply inv_op_write|].
    apply (inv_write_return s t f); [done|by rewrite E|right; by rewrite Hb|error_tac].
  - destruct (files s !! f) as [fl|] eqn:Hf; [|done]. intros [= <-]. by apply inv_op_poll.
  - destruct (files s !! f) as [fl|] eqn:Hf; [|done]. intros [= <-].
    eapply inv_set_file; try done. apply (t_files s (i_threads s Hi) f fl Hf).
  - destruct (_ || _) eqn:E; [done|]. bool_hyps. intros [= <-]. apply inv_fifo_open; auto using is_None_b_true.
  - destruct (fifo s) eqn:Hk; [done|]. destruct (is_None_b (files s !! f)) eqn:Hf; [|done].
    case_bool_decide; [done|]. destruct (rd || wr) eqn:Em; [|done]. intros [= <-].
    apply inv_open_pipe; auto using is_None_b_true.
  - destruct (files s !! f) as [fl|] eqn:Hf; [|done]. simpl. destruct (in_use f s) eqn:Hu; [done|]. intros [= <-].
    by apply inv_close.
  - destruct (threads s !! t) as [th|] eqn:Ht; [|done]. intros [= <-]. by apply inv_signal.
  - apply inv_go. done.
Qed.

Lemma inv_reachable s : reachable s -> inv s.
Proof.
  induction 1; [by apply inv_new_pipe|apply inv_init_fifo|by eapply inv_step].
Qed.

(** ** What the pipe promises *)

Lemma length_contents b st n : 0 <= n -> zlen (contents b st n) = n.
Proof. intros. unfold contents. rewrite length_fmap, length_seqZ. lia. Qed.

(** C18: A pipe is a queue of bytes, in every interleaving of its users: what all
    writers have put into it, call after call, is what all readers have got out of
    it, call after call, followed by the bytes that are still in it; and those are
    the contents of the ring when no copy is under way. *)
Theorem pipe_is_fifo s b :
  reachable s -> base (pp s) = Some b ->
  let reader := current (holder s) (threads s) in
  let writer := current (mutex s) (threads s) in
  wbytes (wlog s) ++ written_by writer = (rbytes (rlog s) ++ read_by reader) ++ flight (pp s) b reader /\
  (holder s = None -> flight (pp s) b reader = contents b (start (pp s)) (len (pp s)) /\
                      zlen (contents b (start (pp s)) (len (pp s))) = len (pp s) /\ len (pp s) <= PIPE_BUF).
Proof.
  intros Hs Hb reader writer. destruct (p_data s (i_page s (inv_reachable s Hs)) b Hb) as [D1 D2 D3 D4]. split.
  - unfold reader, writer. rewrite <-D3, <-D4. exact D2.
  - unfold reader. intros ->. split; [done|]. rewrite length_contents by lia. lia.
Qed.

(** C19: Writes are atomic: the bytes of a finished write are together in the stream,
    and a write of at most [PIPE_BUF] bytes either has put in all of its bytes or has
    failed and put in none. *)
Theorem pipe_write_atomic s b l1 c l2 :
  reachable s -> base (pp s) = Some b -> wlog s = l1 ++ c :: l2 -> zlen (w_data c) <= PIPE_BUF ->
  w_result c = zlen (w_data c) /\ (exists rest, sent s = wbytes l1 ++ w_data c ++ wbytes l2 ++ rest) \/
  w_result c < 0 /\ (exists rest, sent s = wbytes l1 ++ wbytes l2 ++ rest).
Proof.
  intros Hs Hb Hlog Hlen. pose proof (i_page s (inv_reachable s Hs)) as Hp.
  destruct (p_data s Hp b Hb) as [D1 D2 D3 D4]. rewrite Hlog in D3. unfold wbytes in *. rewrite bind_app in D3. cbn in D3.
  pose proof (p_wlog s Hp) as Hok. rewrite Hlog in Hok. apply Forall_app in Hok as [_ [Hc _]%Forall_cons].
  destruct Hc as [He|[Hr Hall]].
  - right. pose proof (write_errors_negative _ He). split; [done|].
    rewrite take_negative in D3 by lia. simpl in D3. rewrite <-app_assoc in D3. eauto.
  - left. specialize (Hall Hlen). split; [done|].
    rewrite Hall, Nat2Z.id, firstn_all in D3. rewrite <-!app_assoc in D3. eauto.
Qed.

(** What a call in [s] may answer at the end of the stream. *)
Definition read_answer (s : sys) (c : rcall) : Prop :=
  r_result c = 0 -> 0 < r_count c -> len (pp s) = 0 /\ writers (pp s) = 0.

Definition write_answer (s : sys) (c : wcall) : Prop :=
  w_result c = - EPIPE -> readers (pp s) = 0 /\ w_sigpipe c = true.

(** The logs grow by at most one entry, which fits, or start anew. *)
Definition rlog_grows (s s' : sys) : Prop :=
  rlog s' = rlog s \/ rlog s' = [] \/ exists c, rlog s' = rlog s ++ [c] /\ read_answer s c.

Definition wlog_grows (s s' : sys) : Prop :=
  wlog s' = wlog s \/ wlog s' = [] \/ exists c, wlog s' = wlog s ++ [c] /\ write_answer s c.

Definition logs_grow (s s' : sys) : Prop := rlog_grows s s' /\ wlog_grows s s'.

Lemma logs_same s s' : rlog s' = rlog s -> wlog s' = wlog s -> logs_grow s s'.
Proof. by split; left. Qed.

Lemma logs_read s s' c : rlog s' = rlog s ++ [c] -> wlog s' = wlog s -> read_answer s c -> logs_grow s s'.
Proof. split; [right; right; eauto|by left]. Qed.

Lemma logs_write s s' c : wlog s' = wlog s ++ [c] -> rlog s' = rlog s -> write_answer s c -> logs_grow s s'.
Proof. split; [by left|right; right; eauto]. Qed.

Lemma logs_read_return s s0 t n buf r :
  rlog s0 = rlog s -> wlog s0 = wlog s -> read_answer s (Rcall n buf r) -> logs_grow s (read_return s0 t n buf r).
Proof. intros E1 E2 Ha. eapply logs_read; [unfold read_return; cbn; by rewrite E1|done|done]. Qed.

Lemma logs_write_return s s0 t d r sp :
  rlog s0 = rlog s -> wlog s0 = wlog s -> write_answer s (Wcall d r sp) -> logs_grow s (write_return s0 t d r sp).
Proof. intros E1 E2 Ha. eapply logs_write; [unfold write_return; cbn; by rewrite E2|done|done]. Qed.

Lemma logs_pipe_read s s0 t f fl n ap :
  rlog s0 = rlog s -> wlog s0 = wlog s -> pp s0 = pp s -> logs_grow s (pipe_read s0 t f fl n ap).
Proof.
  intros E1 E2 E3. unfold pipe_read, PIPE_EMPTY. rewrite E3.
  destruct ap; simpl; [|by apply logs_read_return]. destruct (f_nonblock fl); [|by apply logs_same].
  destruct (lock (pp s) =? 0); simpl; [|by apply logs_read_return].
  destruct (len (pp s) =? 0) eqn:El; [|by apply logs_same]. apply logs_read_return; try done.
  unfold read_answer. cbn [r_result r_count]. destruct (writers (pp s) =? 0) eqn:Ew; simpl; [lia|done].
Qed.

Lemma logs_go s t sig page f s' : inv s -> go s t sig page f = Some s' -> logs_grow s s'.
Proof.
  intros Hi. unfold go. destruct (threads s !! t) as [th|] eqn:Ht; [|done]. simpl.
  assert (Hfile : forall s0 fl, rlog s0 = rlog s -> wlog s0 = wlog s -> open_file s0 t f fl = Some s' -> logs_grow s s').
  { unfold open_file. intros s0 fl E1 E2. destruct (files s0 !! f); [done|]. intros [= <-]. by apply logs_same. }
  assert (Hpage : forall fl, open_page s t f fl = Some s' -> logs_grow s s').
  { unfold open_page. intros fl. destruct (base (pp s)); [by apply Hfile|]. intros [= <-]. by apply logs_same. }
  assert (Hwr : forall c s0, rlog (wake_if c s0) = rlog s0) by (by intros []).
  assert (Hww : forall c s0, wlog (wake_if c s0) = wlog s0) by (by intros []).
  destruct th as [g n [] |g n buf|g n buf src chars|g d free|g d free w []|g d w|g d w dst chars
                 |nb []|nb r []|nb []|nb r []|nb []|nb []|fl]; try done.
  - intros [= <-]. unfold read_test, PIPE_EMPTY. destruct (_ || _); [|by apply logs_same].
    destruct (_ && _) eqn:E; [|destruct sig; [by apply logs_read_return|by apply logs_same]].
    apply logs_read_return; try done. unfold read_answer. cbn. lia.
  - intros [= <-]. pose proof (t_ring s (i_threads s Hi) t _ Ht) as Hring. simpl in Hring.
    unfold read_loop. destruct (read_chunk (pp s) n) as [[[p src] chars]|] eqn:Ec; [by apply logs_same|].
    apply logs_read_return; try done. unfold read_answer. cbn.
    destruct buf as [|x buf]; [|rewrite (proj2 (Z.eqb_neq (zlen (x :: buf)) 0)) by (simpl; lia); cbn [negb length]; lia].
    specialize (Hring eq_refl). simpl.
    unfold read_chunk in Ec. destruct (0 <? n) eqn:E1, (len (pp s) =? 0) eqn:E2; simpl in Ec; try done; lia.
  - unfold read_copy. destruct (base (pp s)); [|done]. intros [= <-]. by apply logs_same.
  - unfold write_down. destruct (mutex s); [destruct sig; [|done]|]; intros [= <-];
      [by apply logs_write_return|by apply logs_same].
  - destruct (files s !! g) as [fl|]; [|done]. intros [= <-]. unfold write_test.
    assert (Hfin : forall err, (err = - EPIPE -> readers (pp s) = 0) -> w <> - EPIPE -> logs_grow s (write_finish s t d w err)).
    { intros err He Hw. apply logs_write_return; try done. unfold write_answer. cbn. destruct (w =? 0); [|done].
      intros ->. auto. }
    assert (Hw : w <> - EPIPE). { destruct (t_ok s (i_threads s Hi) t _ Ht) as (_ & ? & _). unfold EPIPE. lia. }
    destruct (negb _); [by apply Hfin|]. destruct (_ || _); [|by apply logs_same].
    destruct (readers (pp s) =? 0) eqn:Er; [apply Hfin; [lia|done]|].
    destruct sig; [by apply Hfin|]. destruct (f_nonblock fl); [by apply Hfin|by apply logs_same].
  - intros [= <-]. unfold write_loop. destruct (write_chunk _ _) as [[[p dst] chars]|]; by apply logs_same.
  - unfold write_copy. destruct (base (pp s)); [|done]. intros [= <-]. by apply logs_same.
  - intros [= <-]. unfold open_rd_wait. destruct (negb _); [|destruct sig]; apply logs_same; cbn; by rewrite ?Hwr, ?Hww.
  - unfold open_rd_end. destruct (negb _); [intros [= <-]; by apply logs_same|]. destruct (r =? 0); [by apply Hpage|].
    intros [= <-]. apply logs_same; cbn; by rewrite ?Hwr, ?Hww.
  - intros [= <-]. unfold open_wr_wait. destruct (negb _); [|destruct sig]; apply logs_same; cbn; by rewrite ?Hwr, ?Hww.
  - unfold open_wr_end. destruct (negb _); [intros [= <-]; by apply logs_same|]. destruct (r =? 0); [by apply Hpage|].
    intros [= <-]. apply logs_same; cbn; by rewrite ?Hwr, ?Hww.
  - intros [= <-]. unfold open_rw_first. destruct (negb _); apply logs_same; cbn; by rewrite ?Hwr, ?Hww.
  - unfold open_rw_second. destruct (negb _); [intros [= <-]; by apply logs_same|by apply Hpage].
  - unfold open_alloc. destruct (base (pp s)); [by apply Hfile|]. destruct page; [by apply Hfile|].
    intros [= <-]. by apply logs_same.
Qed.

Lemma logs_step s l s' : inv s -> step s l = Some s' -> logs_grow s s'.
Proof.
  intros Hi. destruct l as [t f n ap|t f d ap|f|f nb|t rd wr nb|f rd wr nb|f|t|t sig page f]; simpl.
  - destruct (files s !! f) as [fl|]; [|done]. simpl. destruct (_ || _); [done|].
    destruct (f_rd fl); intros [= <-]; [|by apply logs_read_return].
    unfold op_read. destruct (f_op fl); try (by apply logs_pipe_read); try (by apply logs_read_return).
    unfold connect_read. destruct (_ && _) eqn:E; [|by apply logs_pipe_read].
    apply logs_read_return; try done. unfold read_answer, PIPE_EMPTY in *. cbn. lia.
  - destruct (files s !! f) as [fl|]; [|done]. simpl. destruct (negb _); [done|].
    assert (Hw : logs_grow s (pipe_write s t f d ap)).
    { unfold pipe_write. destruct ap; simpl; [|by apply logs_write_return].
      destruct (readers (pp s) =? 0) eqn:Er; [|by apply logs_same]. apply logs_write_return; try done.
      unfold write_answer. cbn. split; [lia|done]. }
    destruct (f_wr fl); intros [= <-]; [|by apply logs_write_return].
    unfold op_write. destruct (f_op fl); try done; by apply logs_write_return.
  - destruct (files s !! f) as [fl|]; [|done]. intros [= <-]. unfold op_poll.
    destruct (f_op fl); try (by apply logs_same). unfold connect_poll.
    destruct (negb (PIPE_EMPTY (pp s))); [by apply logs_same|]. simpl. destruct (negb _); by apply logs_same.
  - destruct (files s !! f) as [fl|]; [|done]. intros [= <-]. by apply logs_same.
  - destruct (_ || _); [done|]. intros [= <-]. unfold fifo_open, wake_if, wake_up_interruptible.
    apply logs_same; repeat case_match; done.
  - repeat case_match; try done. intros [= <-]. by apply logs_same.
  - destruct (files s !! f) as [fl|] eqn:Hf; [|done]. simpl. destruct (in_use f s); [done|]. intros [= <-].
    rewrite op_release_rdwr by (by eapply (t_files s (i_threads s Hi))). unfold pipe_rdwr_release, pipe_release. cbn.
    destruct (_ && _); [|by apply logs_same]. split; right; by left.
  - destruct (threads s !! t); [|done]. intros [= <-]. by apply logs_same.
  - by apply logs_go.
Qed.

Lemma log_snoc {A} (l : list A) c c' (P : A -> Prop) :
  (l ++ [c] = l \/ l ++ [c] = [] \/ exists x, l ++ [c] = l ++ [x] /\ P x) -> c = c' -> P c'.
Proof.
  intros [E|[E|(x & E & Hx)]] <-.
  - apply (f_equal length) in E. rewrite length_app in E. simpl in E. lia.
  - by apply app_eq_nil in E as [_ ?].
  - apply app_inv_head in E. by simplify_eq.
Qed.

Lemma no_writers s f fl : inv s -> writers (pp s) = 0 -> files s !! f = Some fl -> f_wr fl = false.
Proof.
  intros Hi Hw Hf. pose proof (i_counts s Hi) as [C1 C2 C3 C4 C5]. assert (Hb : forall b, 0 <= bump b 1) by (by intros []).
  pose proof (msum_ge (fun fl => bump (f_wr fl) 1) (files s) f fl (fun fl => Hb (f_wr fl)) Hf) as Hge.
  pose proof (msum_nonneg wr_of (threads s) ltac:(intros []; simpl; auto; lia)). simpl in Hge.
  destruct (f_wr fl); [simpl in Hge; lia|done].
Qed.

Lemma no_readers s f fl : inv s -> readers (pp s) = 0 -> files s !! f = Some fl -> f_rd fl = false.
Proof.
  intros Hi Hw Hf. pose proof (i_counts s Hi) as [C1 C2 C3 C4 C5]. assert (Hb : forall b, 0 <= bump b 1) by (by intros []).
  pose proof (msum_ge (fun fl => bump (f_rd fl) 1) (files s) f fl (fun fl => Hb (f_rd fl)) Hf) as Hge.
  pose proof (msum_nonneg rd_of (threads s) ltac:(intros []; simpl; auto; lia)). simpl in Hge.
  destruct (f_rd fl); [simpl in Hge; lia|done].
Qed.

(** The end of the stream is told truly: a read of at least one byte that returns
    0 has found the pipe empty and no file open for writing; a write that fails with
    EPIPE has found no file open for reading, and has sent SIGPIPE. *)
Theorem pipe_end_detected s l s' :
  reachable s -> step s l = Some s' ->
  (forall n buf, rlog s' = rlog s ++ [Rcall n buf 0] -> 0 < n ->
     len (pp s) = 0 /\ (forall f fl, files s !! f = Some fl -> f_wr fl = false)) /\
  (forall d sp, wlog s' = wlog s ++ [Wcall d (- EPIPE) sp] ->
     sp = true /\ (forall f fl, files s !! f = Some fl -> f_rd fl = false)).
Proof.
  intros Hs Hstep. pose proof (inv_reachable s Hs) as Hi. destruct (logs_step s l s' Hi Hstep) as [Hr Hw]. split.
  - intros n buf E Hn. unfold rlog_grows in Hr. rewrite E in Hr.
    destruct (log_snoc _ _ _ (read_answer s) Hr eq_refl eq_refl Hn) as [? ?]. split; [done|].
    intros f fl. by apply no_writers.
  - intros d sp E. unfold wlog_grows in Hw. rewrite E in Hw.
    destruct (log_snoc _ _ _ (write_answer s) Hw eq_refl eq_refl) as [? ?]. split; [done|].
    intros f fl. by apply no_readers.
Qed.

(** What a sleeper waits for when nobody has the lock. *)
Definition blocked (p : pipe) (th : thread) : Prop :=
  match th with
  | ReadTest _ n _ => len p = 0 /\ writers p <> 0 /\ n <> 0
  | WriteTest _ d free w _ => w < zlen d /\ PIPE_FREE p < free /\ readers p <> 0
  | OpenRdWait _ _ => writers p = 0
  | OpenWrWait _ _ => readers p = 0
  | OpenRdEnd _ _ _ | OpenRwFirst _ _ => wr_openers p <> 0
  | OpenWrEnd _ _ _ | OpenRwSecond _ _ => rd_openers p <> 0
  | _ => False
  end.

Lemma holder_runs s u th sig page f :
  inv s -> threads s !! u = Some th -> holds_lock th = true -> exists s', go s u sig page f = Some s'.
Proof.
  intros Hi Hu Hh. pose proof (t_ok s (i_threads s Hi) u th Hu) as Hok. unfold go. rewrite Hu. simpl.
  destruct th; try done; simpl in Hok; try (eexists; reflexivity).
  - destruct (can_read_base s f0 Hi (proj1 Hok)) as [b Hb]. unfold read_copy. rewrite Hb. simpl. eauto.
  - destruct (can_write_base s f0 Hi (proj1 Hok)) as [b Hb]. unfold write_copy. rewrite Hb. simpl. eauto.
Qed.

(** C20: No wake-up is lost: in every reachable state a call that sleeps either still
    has what it waits for ahead of it, or the lock is held by a call that can go on
    (and wakes everyone when it gives the lock up). *)
Theorem pipe_no_lost_wakeup s t th :
  reachable s -> threads s !! t = Some th -> asleep th = true ->
  blocked (pp s) th \/
  exists u hd, holder s = Some u /\ threads s !! u = Some hd /\ asleep hd = false /\
    forall sig page f, exists s', go s u sig page f = Some s'.
Proof.
  intros Hs Ht Ha. pose proof (inv_reachable s Hs) as Hi. pose proof (t_sleep s (i_threads s Hi) t th Ht Ha) as Hr.
  pose proof (i_locks s Hi) as [L1 L2 L3]. destruct (holder s) as [u|] eqn:Eh.
  - right. destruct (proj1 (L2 u) eq_refl) as (hd & Hu & Hh). exists u, hd. split_and!; [done|done|by destruct hd|].
    intros sig page f. by eapply holder_runs.
  - left. destruct th; simpl in *; try done; lia.
Qed.

(** ** pipe(2) *)

(** A failed [do_pipe] gives back all it took; a successful one keeps two files, one
    inode with a page, and two descriptors. *)
Lemma do_pipe_balanced a r :
  let '(result, r', s) := do_pipe a r in
  (s = None -> r' = r) /\
  (forall x, s = Some x -> result = 0 /\ r' = Taken (n_filp r + 2) (n_inode r + 1) (n_page r + 1) (n_fd r + 2)).
Proof.
  assert (Heq : forall a1 a2 b1 b2 c1 c2 d1 d2, a1 = a2 -> b1 = b2 -> c1 = c2 -> d1 = d2 ->
    Taken a1 b1 c1 d1 = Taken a2 b2 c2 d2) by congruence.
  destruct r as [n1 n2 n3 n4]. unfold do_pipe, take_pipe_inode.
  destruct (filp1 a), (filp2 a), (empty_inode a), (user_page a), (fd1 a <? 0), (fd2 a <? 0), (root_dentry a); cbn -[Z.add];
    (split; [intros E; first [done | apply Heq; cbn -[Z.add]; lia]
            |intros x E; first [done | split; [done|]; apply Heq; cbn -[Z.add]; lia]]).
Qed.

(** ** Schedules, executed *)

Lemma reachable_run l s : reachable s -> reachable (default s (run s l)).
Proof.
  revert s. induction l as [|x l IH]; intros s Hs; [done|]. simpl.
  destruct (step s x) as [s1|] eqn:E; simpl; [|done]. assert (H1 : reachable s1) by (by eapply reach_step).
  specialize (IH s1 H1). destruct (run s1 l); [done|]. done.
Qed.

Definition go_on (t : Z) : label := Go t false None 9.

(** Three bytes are written, two are read. *)
Definition demo_labels : list label :=
  Write 1 1 [1; 2; 3] true :: replicate 6 (go_on 1) ++ Read 2 0 2 true :: replicate 4 (go_on 2).

Definition pipe0 : sys := new_pipe (fun _ => 0) 0 1.

Definition demo : sys := default pipe0 (run pipe0 demo_labels).

Lemma demo_reachable : reachable demo.
Proof. apply (reachable_run demo_labels pipe0). by apply reach_pipe. Qed.

Example demo_run : (wlog demo, rlog demo, len (pp demo), start (pp demo)) =
  ([Wcall [1; 2; 3] 3 false], [Rcall 2 [1; 2] 2], 1, 2).
Proof. vm_compute. reflexivity. Qed.

(** A read that waits, a write that fails, the end of the stream. *)
Example demo_empty :
  (fun s => (threads s !! 2, rlog s)) <$> run pipe0 [Read 2 0 5 true; go_on 2; Close 1] =
    Some (Some (ReadTest 0 5 false), []) /\
  rlog <$> run pipe0 [Read 2 0 5 true; go_on 2; Close 1; go_on 2] = Some [Rcall 5 [] 0] /\
  wlog <$> run pipe0 [Close 0; Write 2 1 [7] true] = Some [Wcall [7] (- EPIPE) true].
Proof. vm_compute. auto. Qed.

Definition sleeper : sys := default pipe0 (run pipe0 [Read 2 0 5 true; go_on 2]).

Lemma pipe_is_fifo_witness :
  wbytes (wlog demo) ++ written_by (current (mutex demo) (threads demo)) =
  (rbytes (rlog demo) ++ read_by (current (holder demo) (threads demo))) ++
  flight (pp demo) (default (fun _ => 0) (base (pp demo))) (current (holder demo) (threads demo)).
Proof. apply (pipe_is_fifo demo); [apply demo_reachable|vm_compute; reflexivity]. Defined.

Lemma pipe_write_atomic_witness : exists rest, sent demo = wbytes [] ++ [1; 2; 3] ++ wbytes [] ++ rest.
Proof.
  destruct (pipe_write_atomic demo (default (fun _ => 0) (base (pp demo))) [] (Wcall [1; 2; 3] 3 false) []) as [[_ H]|[H _]].
  - apply demo_reachable.
  - vm_compute. reflexivity.
  - vm_compute. reflexivity.
  - by_decide.
  - exact H.
  - by exfalso.
Defined.

Lemma pipe_end_detected_witness :
  exists s s', step s (go_on 2) = Some s' /\ len (pp s) = 0 /\ (forall f fl, files s !! f = Some fl -> f_wr fl = false).
Proof.
  set (s0 := pipe0). set (l := [Read 2 0 5 true; go_on 2; Close 1]).
  exists (default s0 (run s0 l)), (default s0 (run s0 (l ++ [go_on 2]))).
  assert (Hs : step (default s0 (run s0 l)) (go_on 2) = Some (default s0 (run s0 (l ++ [go_on 2])))) by (vm_compute; reflexivity).
  split; [exact Hs|].
  apply (proj1 (pipe_end_detected (default s0 (run s0 l)) (go_on 2) _ (reachable_run l s0 (reach_pipe _ 0 1 ltac:(done))) Hs) 5 []).
  - vm_compute. reflexivity.
  - lia.
Defined.

Lemma pipe_no_lost_wakeup_witness : blocked (pp sleeper) (ReadTest 0 5 true) \/ holder sleeper <> None.
Proof.
  destruct (pipe_no_lost_wakeup sleeper 2 (ReadTest 0 5 true)) as [H|(u & hd & H & _)].
  - apply (reachable_run [Read 2 0 5 true; go_on 2] pipe0). by apply reach_pipe.
  - vm_compute. reflexivity.
  - reflexivity.
  - by left.
  - right. by rewrite H.
Defined.

(** ** Where the code falls short *)

(** When no page can be allocated, [fifo_open] fails but leaves its count behind:
    there is a reader for ever, without a file. *)
Example fifo_open_leaks_reader :
  (fun s => (readers (pp s), bool_decide (files s = ∅), bool_decide (threads s = ∅), olog s)) <$>
    run init_fifo [OpenFifo 1 true false true; go_on 1; go_on 1] = Some (1, true, true, [- ENOMEM]).
Proof. vm_compute. reflexivity. Qed.

(** A byte is left in the fifo by a writer that has gone; the last reader closes its
    file while another process waits in [fifo_open] for a writer, and that process is
    interrupted.  Nobody has the fifo open, but the page is kept, and the next reader
    gets the old byte. *)
Definition stale_labels : list label :=
  [OpenFifo 1 true false true; go_on 1; Go 1 false (Some (fun _ => 0)) 5; OpenFifo 2 false true false; Go 2 false None 6] ++
  Write 2 6 [42] true :: replicate 6 (go_on 2) ++
  [Close 6; OpenFifo 3 true false false; go_on 3; Close 5; Go 3 true None 9; go_on 3].

Example fifo_keeps_stale_bytes :
  (fun s => (readers (pp s), writers (pp s), bool_decide (files s = ∅), len (pp s), olog s)) <$> run init_fifo stale_labels =
    Some (0, 0, true, 1, [0; 0; - ERESTARTSYS]) /\
  rlog <$> run init_fifo (stale_labels ++ [OpenFifo 4 true false true; Go 4 false None 7; Read 4 7 10 true] ++ replicate 3 (go_on 4)) =
    Some [Rcall 10 [42] 1].
Proof. vm_compute. auto. Qed.

(** A read of no bytes fails when the pipe is not empty, and succeeds when it is. *)
Example pipe_read_nothing :
  rlog <$> run pipe0 (Write 1 1 [1] true :: replicate 6 (go_on 1) ++ Read 2 0 0 true :: replicate 2 (go_on 2)) =
    Some [Rcall 0 [] (- EAGAIN)] /\
  rlog <$> run pipe0 [Read 2 0 0 true; go_on 2] = Some [Rcall 0 [] 0].
Proof. vm_compute. auto. Qed.

(** [pipe_rdwr_open] counts a user of a pipe whose page has been freed. *)
Example pipe_rdwr_open_without_page :
  (fun s => let s := pipe_rdwr_open s (File true true false rdwr_pipe_fops) in (readers (pp s), writers (pp s), is_None_b (base (pp s))))
    <$> run pipe0 [Close 0; Close 1] = Some (1, 1, true).
Proof. vm_compute. reflexivity. Qed.
