(* ===== verification/Msg.v ===== *)
(** * ipc/msg.c: System V message queues

    The state is the table of queues with the global counters, and the calls that
    have not returned: a sender waiting for room, a sender that sleeps in [kmalloc] or
    [copy_from_user] after it has found room, a receiver waiting for a message.  A
    queue carries the chain of its messages as a list and, for the statements, the
    messages ever sent to it and taken out of it, each of these with what became of it:
    stored in the receiver's memory, or lost because it could not be stored there.  [freeque] waits until the
    sleepers have left; here it takes effect at once and they are told that the queue
    is gone.  Creating a queue does not sleep. *)

From stdpp Require Import functions gmap.
From S2P Require Import Prelude Sem.

Definition MSGMNI : Z := 128.
Definition MSGMAX : Z := 4056.
Definition MSGMNB : Z := 16384.
Definition MSG_NOERROR : Z := 0x1000.
Definition MSG_EXCEPT : Z := 0x2000.

(** ** Data *)

Record msg := Msg { msg_type : Z; msg_text : list Z }.

(** [msg_ts], a short. *)
Definition msg_ts (m : msg) : Z := s16 (Z.of_nat (length (msg_text m))).

Record msqid_ds := MsqidDs {
  msg_perm : ipc_perm; msgs : list msg; msg_stime : Z; msg_rtime : Z; msg_ctime : Z;
  msg_cbytes : Z; msg_qnum : Z; msg_qbytes : Z; msg_lspid : Z; msg_lrpid : Z;
  log_sent : list msg; log_rcvd : list (msg * bool) }.

Inductive call :=
| Snd (msqid mtype : Z) (text : list Z) (msgflg : Z)
| Rcv (msqid msgsz msgtyp msgflg : Z).

(** [Woken] also stands for a call that has just begun. *)
Inductive place := Asleep | Woken | Allocating.

#[global] Instance place_eq_dec : EqDecision place.
Proof. solve_decision. Defined.

(** [w_removed]: the queue was removed while the call slept. *)
Record waiter := Waiter { w_caller : caller; w_call : call; w_place : place; w_removed : bool }.

Record state := State {
  msgque : Z -> option msqid_ds; msgbytes : Z; msghdrs : Z; msg_seq : Z; used_queues : Z; max_msqid : Z;
  waiters : gmap Z waiter }.

Definition set_que (st : state) (id : Z) (q : option msqid_ds) : state :=
  State (<[id := q]> (msgque st)) (msgbytes st) (msghdrs st) (msg_seq st) (used_queues st) (max_msqid st) (waiters st).

Definition set_totals (st : state) (bytes hdrs : Z) : state :=
  State (msgque st) bytes hdrs (msg_seq st) (used_queues st) (max_msqid st) (waiters st).

Definition set_waiters (st : state) (w : gmap Z waiter) : state :=
  State (msgque st) (msgbytes st) (msghdrs st) (msg_seq st) (used_queues st) (max_msqid st) w.

Definition call_id (c : call) : Z := match c with Snd msqid _ _ _ | Rcv msqid _ _ _ => msqid mod MSGMNI end.

Definition is_snd (c : call) : bool := match c with Snd _ _ _ _ => true | Rcv _ _ _ _ => false end.

Definition with_place (w : waiter) (p : place) (removed : bool) : waiter := Waiter (w_caller w) (w_call w) p removed.

(** The senders ([snd = true]) or the receivers that sleep on the queue are woken. *)
Definition wake_up_queue (id : Z) (snd : bool) (w : waiter) : waiter :=
  if (call_id (w_call w) =? id) && Bool.eqb (is_snd (w_call w)) snd && bool_decide (w_place w = Asleep)
  then with_place w Woken (w_removed w) else w.

Definition wake_up (st : state) (id : Z) (snd : bool) : state := set_waiters st (wake_up_queue id snd <$> waiters st).

Definition park (st : state) (pid : Z) (w : waiter) : state := set_waiters st (<[pid := w]> (waiters st)).

Definition leave (st : state) (pid : Z) : state := set_waiters st (delete pid (waiters st)).

(** ** msgsnd *)

(** The message at the end of the chain; the accounting. *)
Definition enqueue (st : state) (id : Z) (q : msqid_ds) (m : msg) (pid now : Z) : state :=
  let ts := Z.of_nat (length (msg_text m)) in
  let q := MsqidDs (msg_perm q) (msgs q ++ [m]) now (msg_rtime q) (msg_ctime q)
    (u16 (msg_cbytes q + ts)) (u16 (msg_qnum q + 1)) (msg_qbytes q) pid (msg_lrpid q) (log_sent q ++ [m]) (log_rcvd q) in
  wake_up (set_totals (set_que st id (Some q)) (msgbytes st + ts) (msghdrs st + 1)) id false.

(** From the label [slept]: a result, or [None] and the call sleeps or goes on to
    allocate.  [sig] is [signal_pending]. *)
Definition msgsnd_slept (st : state) (w : waiter) (msqid : Z) (text : list Z) (msgflg : Z) (sig : bool) : option Z * state :=
  let pid := c_pid (w_caller w) in
  let msgsz := Z.of_nat (length text) in
  match (if w_removed w then None else msgque st (msqid mod MSGMNI)) with
  | None => (Some (- EIDRM), leave st pid)
  | Some q =>
    if negb (seq (msg_perm q) =? msqid / MSGMNI) then (Some (- EIDRM), leave st pid)
    else if ipcperms (w_caller w) (msg_perm q) S_IWUGO then (Some (- EACCES), leave st pid)
    else if msg_qbytes q <? msgsz + msg_cbytes q then
      if negb (Z.land msgflg IPC_NOWAIT =? 0) then (Some (- EAGAIN), leave st pid)
      else if sig then (Some (- EINTR), leave st pid)
      else (None, park st pid (with_place w Asleep false))
    else (None, park st pid (with_place w Allocating false))
  end.

Definition real_msgsnd (c : caller) (st : state) (msqid : Z) (mtype : option Z) (text : list Z) (msgflg : Z) (sig : bool)
  : option Z * state :=
  if (MSGMAX <? Z.of_nat (length text)) || (msqid <? 0) then (Some (- EINVAL), st)
  else match mtype with
  | None => (Some (- EFAULT), st)
  | Some mtype =>
    if mtype <? 1 then (Some (- EINVAL), st)
    else match msgque st (msqid mod MSGMNI) with
    | None => (Some (- EINVAL), st)
    | Some _ => msgsnd_slept st (Waiter c (Snd msqid mtype text msgflg) Woken false) msqid text msgflg sig
    end
  end.

(** After [kmalloc] and [copy_from_user], which succeed or not.  The memory of a queue
    that has been removed meanwhile is free: if another queue has taken its place in the
    table, the sequence number is read from that memory, and [stale] is what is found
    there; [None] if the message would then be linked into it. *)
Definition msgsnd_finish (st : state) (w : waiter) (msqid mtype : Z) (text : list Z) (alloc copied : bool) (stale now : Z)
  : option (Z * state) :=
  let pid := c_pid (w_caller w) in
  let id := msqid mod MSGMNI in
  let st := leave st pid in
  if negb alloc then Some (- ENOMEM, st)
  else if negb copied then Some (- EFAULT, st)
  else match msgque st id with
  | None => Some (- EIDRM, st)
  | Some q =>
    if negb ((if w_removed w then stale else seq (msg_perm q)) =? msqid / MSGMNI) then Some (- EIDRM, st)
    else if w_removed w then None
    else Some (0, enqueue st id q (Msg mtype text) pid now)
  end.

(** ** msgrcv *)

(** The first message that satisfies [p], with its place in the chain. *)
Fixpoint find_msg (p : msg -> bool) (i : nat) (l : list msg) : option (nat * msg) :=
  match l with
  | [] => None
  | m :: l => if p m then Some (i, m) else find_msg p (S i) l
  end.

(** The loop with [leastp]. *)
Fixpoint least_msg (leastp : nat * msg) (i : nat) (l : list msg) : nat * msg :=
  match l with
  | [] => leastp
  | m :: l => least_msg (if msg_type m <? msg_type leastp.2 then (i, m) else leastp) (S i) l
  end.

Definition select_msg (l : list msg) (msgtyp msgflg : Z) : option (nat * msg) :=
  if msgtyp =? 0 then find_msg (fun _ => true) 0 l
  else if 0 <? msgtyp then
    if negb (Z.land msgflg MSG_EXCEPT =? 0) then find_msg (fun m => negb (msg_type m =? msgtyp)) 0 l
    else find_msg (fun m => msg_type m =? msgtyp) 0 l
  else match l with
  | [] => None
  | m :: l' =>
    let leastp := least_msg (0%nat, m) 0 (m :: l') in
    if msg_type leastp.2 <=? s32 (- msgtyp) then Some leastp else None
  end.

(** The message at place [i] is taken out of the chain, before it is stored in user
    memory. *)
Definition dequeue (st : state) (id : Z) (q : msqid_ds) (i : nat) (m : msg) (pid : Z) (copied : bool) (now : Z) : state :=
  let qnum := u16 (msg_qnum q - 1) in
  let l := if qnum =? 0 then [] else delete i (msgs q) in
  let q := MsqidDs (msg_perm q) l (msg_stime q) now (msg_ctime q)
    (u16 (msg_cbytes q - msg_ts m)) qnum (msg_qbytes q) (msg_lspid q) pid (log_sent q) (log_rcvd q ++ [(m, copied)]) in
  wake_up (set_totals (set_que st id (Some q)) (msgbytes st - msg_ts m) (msghdrs st - 1)) id true.

(** One turn of the loop.  [copied] tells whether the message could be stored in user
    memory.  With the result come the type and the text that were stored. *)
Definition msgrcv_turn (st : state) (w : waiter) (msqid msgsz msgtyp msgflg : Z) (sig copied : bool) (now : Z)
  : option (Z * option msg) * state :=
  let pid := c_pid (w_caller w) in
  match (if w_removed w then None else msgque st (msqid mod MSGMNI)) with
  | None => (Some (- EIDRM, None), leave st pid)
  | Some q =>
    if negb (seq (msg_perm q) =? msqid / MSGMNI) then (Some (- EIDRM, None), leave st pid)
    else if ipcperms (w_caller w) (msg_perm q) S_IRUGO then (Some (- EACCES, None), leave st pid)
    else match select_msg (msgs q) msgtyp msgflg with
    | Some (i, m) =>
      if (msgsz <? msg_ts m) && (Z.land msgflg MSG_NOERROR =? 0) then (Some (- E2BIG, None), leave st pid) else
      let msgsz := if msg_ts m <? msgsz then msg_ts m else msgsz in
      let st := dequeue (leave st pid) (msqid mod MSGMNI) q i m pid copied now in
      (Some (if copied then (msgsz, Some (Msg (msg_type m) (take (Z.to_nat msgsz) (msg_text m)))) else (- EFAULT, None)), st)
    | None =>
      if negb (Z.land msgflg IPC_NOWAIT =? 0) then (Some (- ENOMSG, None), leave st pid)
      else if sig then (Some (- EINTR, None), leave st pid)
      else (None, park st pid (with_place w Asleep false))
    end
  end.

Definition real_msgrcv (c : caller) (st : state) (msqid msgsz msgtyp msgflg : Z) (sig copied : bool) (now : Z)
  : option (Z * option msg) * state :=
  if (msqid <? 0) || (msgsz <? 0) then (Some (- EINVAL, None), st)
  else match msgque st (msqid mod MSGMNI) with
  | None => (Some (- EINVAL, None), st)
  | Some _ => msgrcv_turn st (Waiter c (Rcv msqid msgsz msgtyp msgflg) Woken false) msqid msgsz msgtyp msgflg sig copied now
  end.

(** ** Queues *)

Definition msg_init : state := State (fun _ => None) 0 0 0 0 0 ∅.

Definition findkey (st : state) (k : Z) : option Z :=
  find_slot (Z.to_nat (max_msqid st + 1))
    (fun s => match s with Some q => k =? key (msg_perm q) | None => false end) (msgque st) 0.

(** [alloc] tells whether [kmalloc] succeeds. *)
Definition newque (c : caller) (st : state) (k msgflg : Z) (alloc : bool) (now : Z) : Z * state :=
  match find_slot (Z.to_nat MSGMNI) is_unused (msgque st) 0 with
  | None => (- ENOSPC, st)
  | Some id =>
    if negb alloc then (- ENOMEM, st) else
    let perm := IpcPerm k (c_euid c) (c_egid c) (c_euid c) (c_egid c) (Z.land msgflg S_IRWXUGO) (msg_seq st) in
    let q := MsqidDs perm [] 0 0 now 0 0 MSGMNB 0 0 [] [] in
    (msg_seq st * MSGMNI + id,
     State (<[id := Some q]> (msgque st)) (msgbytes st) (msghdrs st) (msg_seq st) (used_queues st + 1)
       (if max_msqid st <? id then id else max_msqid st) (waiters st))
  end.

Definition sys_msgget (c : caller) (st : state) (k msgflg : Z) (alloc : bool) (now : Z) : Z * state :=
  if k =? IPC_PRIVATE then newque c st k msgflg alloc now
  else match findkey st k with
  | None => if Z.land msgflg IPC_CREAT =? 0 then (- ENOENT, st) else newque c st k msgflg alloc now
  | Some id =>
    if negb (Z.land msgflg IPC_CREAT =? 0) && negb (Z.land msgflg IPC_EXCL =? 0) then (- EEXIST, st)
    else match msgque st id with
    | None => (- EIDRM, st)
    | Some q => (if ipcperms c (msg_perm q) msgflg then - EACCES else seq (msg_perm q) * MSGMNI + id, st)
    end
  end.

(** The calls on the queue find its sequence number changed. *)
Definition evict (id : Z) (w : waiter) : waiter :=
  if call_id (w_call w) =? id
  then with_place w (if bool_decide (w_place w = Asleep) then Woken else w_place w) true else w.

Definition freeque (st : state) (id : Z) (q : msqid_ds) : state :=
  State (<[id := None]> (msgque st)) (msgbytes st - msg_cbytes q) (msghdrs st - Z.of_nat (length (msgs q)))
    (u16 ((msg_seq st + 1) mod (2 ^ 31 / MSGMNI))) (used_queues st - 1)
    (if id =? max_msqid st then shrink_max (Z.to_nat MSGMNI) (msgque st) id else max_msqid st)
    (evict id <$> waiters st).

(** What [sys_msgctl] stores for the caller. *)
Record msginfo := MsgInfo {
  msgpool : Z; msgmap : Z; i_msgmax : Z; i_msgmnb : Z; i_msgmni : Z; i_msgssz : Z; msgtql : Z; i_msgseg : Z }.

Definition MSGPOOL : Z := MSGMNI * MSGMNB / 1024.
Definition MSGTQL : Z := MSGMNB.
Definition MSGMAP : Z := MSGMNB.
Definition MSGSSZ : Z := 16.
Definition MSGSEG : Z := if MSGPOOL * 1024 / MSGSSZ <=? 0xffff then MSGPOOL * 1024 / MSGSSZ else 0xffff.

Record msqid_stat := MsqidStat {
  t_perm : ipc_perm; t_stime : Z; t_rtime : Z; t_ctime : Z; t_cbytes : Z; t_qnum : Z; t_qbytes : Z; t_lspid : Z; t_lrpid : Z }.

Definition stat_of (q : msqid_ds) : msqid_stat :=
  MsqidStat (msg_perm q) (msg_stime q) (msg_rtime q) (msg_ctime q) (msg_cbytes q) (msg_qnum q) (msg_qbytes q) (msg_lspid q) (msg_lrpid q).

Inductive stored := Nothing | Info (i : msginfo) | Stat (t : msqid_stat).

(** [buf] tells whether the pointer is not null, [copied] whether the copy succeeds.
    For [CMD_SET], [tbuf] is the local variable after the copy: when the copy fails
    it is not what the caller wrote. *)
Inductive msgcmd :=
| CMD_INFO (msg_info buf copied : bool)
| CMD_MSG_STAT (buf copied : bool)
| CMD_SET (buf : bool) (tbuf : msqid_stat) (resource : bool)
| CMD_STAT (buf copied : bool)
| CMD_RMID
| CMD_OTHER.

Definition msgctl_info (st : state) (msg_info : bool) : msginfo :=
  if msg_info then MsgInfo (used_queues st) (msghdrs st) MSGMAX MSGMNB MSGMNI MSGSSZ (msgbytes st) MSGSEG
  else MsgInfo MSGPOOL MSGMAP MSGMAX MSGMNB MSGMNI MSGSSZ MSGTQL MSGSEG.

Definition set_stat (q : msqid_ds) (t : msqid_stat) (now : Z) : msqid_ds :=
  let p := msg_perm q in
  let mode := Z.lor (Z.land (mode p) (Z.lnot S_IRWXUGO)) (Z.land S_IRWXUGO (mode (t_perm t))) in
  MsqidDs (IpcPerm (key p) (uid (t_perm t)) (gid (t_perm t)) (cuid p) (cgid p) mode (seq p))
    (msgs q) (msg_stime q) (msg_rtime q) now (msg_cbytes q) (msg_qnum q) (t_qbytes t) (msg_lspid q) (msg_lrpid q)
    (log_sent q) (log_rcvd q).

(** The second switch of [sys_msgctl]. *)
Definition msgctl_queue (c : caller) (st : state) (id : Z) (q : msqid_ds) (cmd : msgcmd) (now : Z) : Z * stored * state :=
  match cmd with
  | CMD_STAT _ copied =>
    if ipcperms c (msg_perm q) S_IRUGO then (- EACCES, Nothing, st)
    else if copied then (0, Stat (stat_of q), st) else (- EFAULT, Nothing, st)
  | CMD_SET _ tbuf resource =>
    if negb (owns c (msg_perm q)) then (- EPERM, Nothing, st)
    else if (MSGMNB <? t_qbytes tbuf) && negb resource then (- EPERM, Nothing, st)
    else (0, Nothing, set_que st id (Some (set_stat q tbuf now)))
  | CMD_RMID => if owns c (msg_perm q) then (0, Nothing, freeque st id q) else (- EPERM, Nothing, st)
  | _ => (- EINVAL, Nothing, st)
  end.

Definition sys_msgctl (c : caller) (st : state) (msqid : Z) (cmd : msgcmd) (now : Z) : Z * stored * state :=
  if msqid <? 0 then (- EINVAL, Nothing, st)
  else match cmd with
  | CMD_INFO msg_info buf copied =>
    if negb buf || negb copied then (- EFAULT, Nothing, st) else (max_msqid st, Info (msgctl_info st msg_info), st)
  | CMD_MSG_STAT buf copied =>
    if negb buf then (- EFAULT, Nothing, st)
    else if max_msqid st <? msqid then (- EINVAL, Nothing, st)
    else match msgque st msqid with
    | None => (- EINVAL, Nothing, st)
    | Some q =>
      if ipcperms c (msg_perm q) S_IRUGO then (- EACCES, Nothing, st)
      else if copied then (seq (msg_perm q) * MSGMNI + msqid, Stat (stat_of q), st) else (- EFAULT, Nothing, st)
    end
  | _ =>
    if match cmd with CMD_SET buf _ _ | CMD_STAT buf _ => negb buf | _ => false end then (- EFAULT, Nothing, st)
    else match msgque st (msqid mod MSGMNI) with
    | None => (- EINVAL, Nothing, st)
    | Some q =>
      if negb (seq (msg_perm q) =? msqid / MSGMNI) then (- EIDRM, Nothing, st)
      else msgctl_queue c st (msqid mod MSGMNI) q cmd now
    end
  end.

(** ** Histories *)

Inductive label :=
| Msgget (c : caller) (k msgflg : Z) (alloc : bool)
| Msgctl (c : caller) (msqid : Z) (cmd : msgcmd)
| Msgsnd (c : caller) (msqid : Z) (mtype : option Z) (text : list Z) (msgflg : Z) (sig : bool)
| Msgrcv (c : caller) (msqid msgsz msgtyp msgflg : Z) (sig copied : bool)
| Resume (pid : Z) (sig alloc copied : bool) (stale : Z)
| Signal (pid : Z).

(** A process that has a call in progress makes no other; [msgtyp] is a [long]. *)
Definition idle (st : state) (pid : Z) : bool := match waiters st !! pid with Some _ => false | None => true end.

Definition resume (st : state) (pid : Z) (w : waiter) (sig alloc copied : bool) (stale now : Z) : option state :=
  match w_place w, w_call w with
  | Asleep, _ => None
  | Woken, Snd msqid _ text msgflg => Some (msgsnd_slept st w msqid text msgflg sig).2
  | Woken, Rcv msqid msgsz msgtyp msgflg => Some (msgrcv_turn st w msqid msgsz msgtyp msgflg sig copied now).2
  | Allocating, Snd msqid mtype text _ => snd <$> msgsnd_finish st w msqid mtype text alloc copied stale now
  | Allocating, Rcv _ _ _ _ => None
  end.

Definition step (st : state) (l : label) (now : Z) : option state :=
  match l with
  | Msgget c k flg alloc => Some (sys_msgget c st k flg alloc now).2
  | Msgctl c msqid cmd => Some (sys_msgctl c st msqid cmd now).2
  | Msgsnd c msqid mtype text flg sig =>
    if idle st (c_pid c) then Some (real_msgsnd c st msqid mtype text flg sig).2 else None
  | Msgrcv c msqid msgsz msgtyp flg sig copied =>
    if idle st (c_pid c) && (s32 msgtyp =? msgtyp) then Some (real_msgrcv c st msqid msgsz msgtyp flg sig copied now).2 else None
  | Resume pid sig alloc copied stale => w ← waiters st !! pid; resume st pid w sig alloc copied stale now
  | Signal pid =>
    w ← waiters st !! pid;
    Some (park st pid (if bool_decide (w_place w = Asleep) then with_place w Woken (w_removed w) else w))
  end.

Definition text_len (m : msg) : Z := Z.of_nat (length (msg_text m)).

Definition bytes_of (l : list msg) : Z := foldr (fun m n => text_len m + n) 0 l.

(** No queue holds 2^16 messages or bytes, or more: beyond that its 16-bit counters
    do not count them (see [msgrcv_forgets]). *)
Definition uncrowded (st : state) : Prop :=
  forall id q, msgque st id = Some q -> Z.of_nat (length (msgs q)) < 2 ^ 16 /\ bytes_of (msgs q) < 2 ^ 16.

Inductive reachable : state -> Prop :=
| reach_init : reachable msg_init
| reach_step st l now st' : reachable st -> step st l now = Some st' -> uncrowded st' -> reachable st'.

(** ** Which message is received *)

(** What [msgtyp] and [msgflg] ask for. *)
Definition wanted (msgtyp msgflg : Z) (m : msg) : Prop :=
  msgtyp = 0 \/
  (0 < msgtyp /\ Z.land msgflg MSG_EXCEPT = 0 /\ msg_type m = msgtyp) \/
  (0 < msgtyp /\ Z.land msgflg MSG_EXCEPT <> 0 /\ msg_type m <> msgtyp) \/
  (msgtyp < 0 /\ msg_type m <= - msgtyp).

Lemma find_msg_some p n l i m :
  find_msg p n l = Some (i, m) ->
  exists k, i = (n + k)%nat /\ l !! k = Some m /\ p m = true /\ forall j m', (j < k)%nat -> l !! j = Some m' -> p m' = false.
Proof.
  revert n. induction l as [|x l IH]; intros n; simpl; [done|]. destruct (p x) eqn:E.
  - intros [= <- <-]. exists 0%nat. split_and!; [lia|done|done|]. intros; lia.
  - intros (k & -> & Hk & Hp & Hj)%IH. exists (S k). split_and!; [lia|done|done|].
    intros [|j] m' Hlt; simpl; [by intros [= <-]|]. apply Hj. lia.
Qed.

Lemma find_msg_none p n l : find_msg p n l = None -> Forall (fun m => p m = false) l.
Proof.
  revert n. induction l as [|x l IH]; intros n; simpl; [constructor|]. destruct (p x) eqn:E; [done|].
  intros H. constructor; [done|by eapply IH].
Qed.

(** The first of the messages with the least type. *)
Definition is_least (l : list msg) (i : nat) (m : msg) : Prop :=
  l !! i = Some m /\ (forall j m', l !! j = Some m' -> msg_type m <= msg_type m') /\
  (forall j m', (j < i)%nat -> l !! j = Some m' -> msg_type m < msg_type m').

Lemma least_msg_spec l1 l2 i m :
  is_least l1 i m -> let '(k, x) := least_msg (i, m) (length l1) l2 in is_least (l1 ++ l2) k x.
Proof.
  revert l1 i m. induction l2 as [|y l2 IH]; intros l1 i m (Hi & Hall & Hlt); simpl.
  - rewrite app_nil_r. by split_and!.
  - replace (S (length l1)) with (length (l1 ++ [y])) by (rewrite length_app; simpl; lia).
    rewrite (cons_middle y l1 l2), app_assoc.
    assert (Hlook : forall j m', (l1 ++ [y]) !! j = Some m' -> l1 !! j = Some m' \/ j = length l1 /\ m' = y).
    { intros j m' [?|[? Hj]]%lookup_app_Some; [by left|right]. apply list_lookup_singleton_Some in Hj as [? ->]. split; [lia|done]. }
    destruct (msg_type y <? msg_type m) eqn:E; apply IH.
    + split_and!.
      * rewrite lookup_app_r, Nat.sub_diag by lia. done.
      * intros j m' [Hj|[-> ->]]%Hlook; [|lia]. specialize (Hall j m' Hj). lia.
      * intros j m' Hl [Hj|[-> ->]]%Hlook; [|lia]. specialize (Hall j m' Hj). lia.
    + split_and!.
      * by apply lookup_app_l_Some.
      * intros j m' [Hj|[-> ->]]%Hlook; [|lia]. by eapply Hall.
      * intros j m' Hl [Hj|[-> ->]]%Hlook; [by eapply Hlt|]. apply lookup_lt_Some in Hi. lia.
Qed.

Lemma least_msg_cons m l : let '(k, x) := least_msg (0%nat, m) 0 (m :: l) in is_least (m :: l) k x.
Proof.
  simpl. rewrite Z.ltb_irrefl. apply (least_msg_spec [m] l 0 m).
  split_and!; [done| |intros; lia]. intros [|j] m'; simpl; [intros [= <-]; lia|by rewrite lookup_nil].
Qed.

(** The selected message is the first wanted one, of the least type when the request
    gives an upper bound; in each case it is the first one of its own type. *)
Record selected (l : list msg) (msgtyp msgflg : Z) (i : nat) (m : msg) : Prop := {
  s_there : l !! i = Some m;
  s_wanted : wanted msgtyp msgflg m;
  s_first : 0 <= msgtyp -> forall j m', (j < i)%nat -> l !! j = Some m' -> ~ wanted msgtyp msgflg m';
  s_least : msgtyp < 0 -> is_least l i m;
  s_fifo : forall j m', (j < i)%nat -> l !! j = Some m' -> msg_type m' <> msg_type m }.

Lemma select_msg_some l t f i m : - 2 ^ 31 < t < 2 ^ 31 -> select_msg l t f = Some (i, m) -> selected l t f i m.
Proof.
  intros Ht. unfold select_msg. destruct (t =? 0) eqn:E0.
  - intros (k & -> & Hk & _ & Hj)%find_msg_some. destruct k as [|k].
    + assert (t = 0) by lia. constructor; [done|by left|intros; lia..].
    + exfalso. destruct (l !! 0%nat) as [x|] eqn:E; [by specialize (Hj 0%nat x ltac:(lia) E)|].
      apply lookup_ge_None in E. apply lookup_lt_Some in Hk. lia.
  - destruct (0 <? t) eqn:E1.
    + destruct (Z.land f MSG_EXCEPT =? 0) eqn:E2; simpl; intros (k & -> & Hk & Hp & Hj)%find_msg_some; simpl in *.
      * constructor; [done|right; left; lia| |lia|].
        -- intros _ j m' Hl Hm. specialize (Hj j m' Hl Hm). unfold wanted. lia.
        -- intros j m' Hl Hm. specialize (Hj j m' Hl Hm). lia.
      * constructor; [done|right; right; left; lia| |lia|].
        -- intros _ j m' Hl Hm. specialize (Hj j m' Hl Hm). unfold wanted. lia.
        -- intros j m' Hl Hm. specialize (Hj j m' Hl Hm). lia.
    + destruct l as [|x l]; [done|]. pose proof (least_msg_cons x l) as Hl.
      destruct (least_msg (0%nat, x) 0 (x :: l)) as [k y]. rewrite s32_id by lia. simpl. case_match; [|done].
      intros [= <- <-]. constructor; [apply Hl|right; right; right; lia|lia|done|].
      intros j m' Hj Hm. destruct Hl as (_ & _ & Hlt). specialize (Hlt j m' Hj Hm). lia.
Qed.

Lemma select_msg_none l t f m : - 2 ^ 31 < t < 2 ^ 31 -> select_msg l t f = None -> m ∈ l -> ~ wanted t f m.
Proof.
  intros Ht. unfold select_msg, wanted. destruct (t =? 0) eqn:E0.
  - intros H%find_msg_none Hm. rewrite Forall_forall in H. by specialize (H m Hm).
  - destruct (0 <? t) eqn:E1.
    + destruct (Z.land f MSG_EXCEPT =? 0) eqn:E2; simpl; intros H%find_msg_none Hm; rewrite Forall_forall in H;
        specialize (H m Hm); simpl in H; lia.
    + destruct l as [|x l]; [by intros _ ?%elem_of_nil|]. pose proof (least_msg_cons x l) as Hl.
      destruct (least_msg (0%nat, x) 0 (x :: l)) as [k y]. rewrite s32_id by lia. simpl. case_match; [done|].
      intros _ (j & Hj)%list_elem_of_lookup. destruct Hl as (_ & Hall & _). specialize (Hall j m Hj). lia.
Qed.

(** ** The invariant *)

Definition msg_ok (m : msg) : Prop := 1 <= msg_type m /\ text_len m <= MSGMAX.

Definition of_type (ty : Z) (l : list msg) : list msg := filter (fun m => msg_type m = ty) l.

Record que_ok (q : msqid_ds) : Prop := {
  k_qnum : msg_qnum q = Z.of_nat (length (msgs q));
  k_cbytes : msg_cbytes q = bytes_of (msgs q);
  k_msgs : Forall msg_ok (msgs q);
  k_fifo : forall ty, of_type ty (log_sent q) = of_type ty (log_rcvd q).*1 ++ of_type ty (msgs q) }.

(** The sum over the table of queues. *)
Definition slots (f : option msqid_ds -> Z) (a : Z -> option msqid_ds) : Z :=
  foldr Z.add 0 ((fun id => f (a id)) <$> seqZ 0 MSGMNI).

Definition hdrs_in (s : option msqid_ds) : Z := match s with Some q => Z.of_nat (length (msgs q)) | None => 0 end.

Definition bytes_in (s : option msqid_ds) : Z := match s with Some q => bytes_of (msgs q) | None => 0 end.

Definition one_in (s : option msqid_ds) : Z := match s with Some _ => 1 | None => 0 end.

Definition call_ok (c : call) : Prop :=
  match c with Snd msqid mtype text _ => 0 <= msqid /\ msg_ok (Msg mtype text) | Rcv msqid msgsz msgtyp _ => 0 <= msqid /\ 0 <= msgsz /\ - 2 ^ 31 <= msgtyp < 2 ^ 31 end.

Record state_ok (st : state) : Prop := {
  o_que : forall id q, msgque st id = Some q -> 0 <= id < MSGMNI /\ que_ok q;
  o_bytes : msgbytes st = slots bytes_in (msgque st);
  o_hdrs : msghdrs st = slots hdrs_in (msgque st);
  o_used : used_queues st = slots one_in (msgque st);
  o_max : 0 <= max_msqid st < MSGMNI /\ forall id, max_msqid st < id -> msgque st id = None;
  o_waiters : map_Forall (fun pid w => c_pid (w_caller w) = pid /\ call_ok (w_call w)) (waiters st) }.

Lemma slots_update_list (f : option msqid_ds -> Z) (a : Z -> option msqid_ds) id s (l : list Z) :
  NoDup l -> foldr Z.add 0 ((fun i => f ((<[id := s]> a) i)) <$> l) =
    foldr Z.add 0 ((fun i => f (a i)) <$> l) + (if decide (id ∈ l) then f s - f (a id) else 0).
Proof.
  induction 1 as [|x l Hx Hl IH]; [done|]. cbn. rewrite IH. destruct (decide (id = x)) as [->|Hne].
  - rewrite fn_lookup_insert, decide_False, decide_True by (done || set_solver). lia.
  - rewrite fn_lookup_insert_ne by done. repeat case_decide; set_solver || lia.
Qed.

Lemma slots_update f a id s : 0 <= id < MSGMNI -> slots f (<[id := s]> a) = slots f a + f s - f (a id).
Proof.
  intros Hid. unfold slots. rewrite slots_update_list by apply NoDup_seqZ.
  rewrite decide_True by (by apply elem_of_seqZ). lia.
Qed.

Lemma ok_update st st' id s :
  state_ok st -> 0 <= id < MSGMNI -> msgque st' = <[id := s]> (msgque st) ->
  (forall q, s = Some q -> que_ok q) ->
  msgbytes st' = msgbytes st + bytes_in s - bytes_in (msgque st id) ->
  msghdrs st' = msghdrs st + hdrs_in s - hdrs_in (msgque st id) ->
  used_queues st' = used_queues st + one_in s - one_in (msgque st id) ->
  (0 <= max_msqid st' < MSGMNI /\ forall i, max_msqid st' < i -> (<[id := s]> (msgque st)) i = None) ->
  map_Forall (fun pid w => c_pid (w_caller w) = pid /\ call_ok (w_call w)) (waiters st') ->
  state_ok st'.
Proof.
  intros [H1 H2 H3 H4 H5 H6] Hid Hq Hok Eb Eh Eu Hm Hw. constructor; rewrite ?Hq, ?slots_update by done; try done; try lia.
  intros i q. destruct (decide (id = i)) as [<-|Hne].
  - rewrite fn_lookup_insert. intros E. split; [done|by apply Hok].
  - rewrite fn_lookup_insert_ne by done. apply H1.
Qed.

(** The bound on the identifiers is kept when a used slot stays used. *)
Lemma max_kept st id s :
  state_ok st -> msgque st id <> None ->
  0 <= max_msqid st < MSGMNI /\ forall i, max_msqid st < i -> (<[id := s]> (msgque st)) i = None.
Proof.
  intros Hst Hid. destruct (o_max st Hst) as [Hb Hn]. split; [done|]. intros i Hi.
  destruct (decide (id = i)) as [<-|Hne]; [by specialize (Hn id Hi)|]. rewrite fn_lookup_insert_ne by done. by apply Hn.
Qed.

Lemma ok_waiters st w :
  state_ok st -> map_Forall (fun pid w => c_pid (w_caller w) = pid /\ call_ok (w_call w)) w -> state_ok (set_waiters st w).
Proof. intros [H1 H2 H3 H4 H5 H6] Hw. by constructor. Qed.

Lemma park_ok st pid w :
  state_ok st -> c_pid (w_caller w) = pid -> call_ok (w_call w) -> state_ok (park st pid w).
Proof. intros Hst Hp Hc. apply ok_waiters; [done|]. apply map_Forall_insert_2; [done|]. apply Hst. Qed.

Lemma leave_ok st pid : state_ok st -> state_ok (leave st pid).
Proof. intros Hst. apply ok_waiters; [done|]. apply map_Forall_delete, Hst. Qed.

Lemma wake_waiters_ok (w : gmap Z waiter) id snd :
  map_Forall (fun pid w => c_pid (w_caller w) = pid /\ call_ok (w_call w)) w ->
  map_Forall (fun pid w => c_pid (w_caller w) = pid /\ call_ok (w_call w)) (wake_up_queue id snd <$> w).
Proof.
  intros Hw pid x. rewrite lookup_fmap. intros (y & Hy & ->)%fmap_Some. specialize (Hw pid y Hy).
  unfold wake_up_queue. by case_match.
Qed.

Lemma evict_ok (w : gmap Z waiter) id :
  map_Forall (fun pid w => c_pid (w_caller w) = pid /\ call_ok (w_call w)) w ->
  map_Forall (fun pid w => c_pid (w_caller w) = pid /\ call_ok (w_call w)) (evict id <$> w).
Proof.
  intros Hw pid x. rewrite lookup_fmap. intros (y & Hy & ->)%fmap_Some. specialize (Hw pid y Hy).
  unfold evict. by case_match.
Qed.

#[export] Hint Resolve park_ok leave_ok : kernel.

Lemma bytes_app l1 l2 : bytes_of (l1 ++ l2) = bytes_of l1 + bytes_of l2.
Proof. induction l1 as [|m l1 IH]; simpl; [done|]. rewrite IH. lia. Qed.

Lemma bytes_delete l i m : l !! i = Some m -> bytes_of (delete i l) = bytes_of l - text_len m.
Proof.
  intros Hi. rewrite delete_take_drop, bytes_app. rewrite <-(take_drop_middle l i m Hi) at 3. rewrite bytes_app. simpl. lia.
Qed.

Lemma bytes_nonneg l : 0 <= bytes_of l.
Proof. induction l; simpl; unfold text_len; lia. Qed.

Lemma bytes_one m : bytes_of [m] = text_len m.
Proof. simpl. lia. Qed.

#[local] Arguments bytes_of : simpl never.
#[local] Arguments of_type : simpl never.
#[local] Arguments text_len : simpl never.

Lemma msg_ts_id m : msg_ok m -> msg_ts m = text_len m.
Proof. intros [_ H]. unfold msg_ts, s16, text_len, MSGMAX in *. rewrite Z.mod_small; lia. Qed.

Lemma u16_id z : 0 <= z < 2 ^ 16 -> u16 z = z.
Proof. apply Z.mod_small. Qed.

(** Taking out the first message of its type keeps the order of each type. *)
Lemma of_type_delete ty l i m :
  l !! i = Some m -> (forall j m', (j < i)%nat -> l !! j = Some m' -> msg_type m' <> msg_type m) ->
  of_type ty [m] ++ of_type ty (delete i l) = of_type ty l.
Proof.
  intros Hi Hf. rewrite delete_take_drop. rewrite <-(take_drop_middle l i m Hi) at 3. unfold of_type. rewrite !filter_app, !filter_cons, filter_nil.
  simpl. case_decide as E; [|done]. simpl.
  destruct (filter (fun x => msg_type x = ty) (take i l)) as [|x k] eqn:Ek; [done|]. exfalso.
  assert (Hx : x ∈ filter (fun x => msg_type x = ty) (take i l)) by (rewrite Ek; left).
  apply list_elem_of_filter in Hx as [Hx (j & Hj)%list_elem_of_lookup]. apply lookup_take_Some in Hj as [Hj Hlt].
  apply (Hf j x Hlt Hj). congruence.
Qed.

Lemma ok_enqueue st id q m pid now :
  state_ok st -> msgque st id = Some q -> msg_ok m -> uncrowded (enqueue st id q m pid now) -> state_ok (enqueue st id q m pid now).
Proof.
  intros Hst Hq Hm Hu. destruct (o_que st Hst id q Hq) as [Hid [K1 K2 K3 K4]].
  unfold enqueue in *. set (q' := MsqidDs _ _ _ _ _ _ _ _ _ _ _ _) in *.
  destruct (Hu id q') as [U1 U2]; [cbn; by rewrite fn_lookup_insert|]. cbn in U1, U2. rewrite length_app in U1. cbn in U1.
  rewrite bytes_app, bytes_one in U2. pose proof (bytes_nonneg (msgs q)).
  eapply (ok_update st _ id (Some q')); cbn; rewrite ?Hq; try done; cbn.
  - intros x [= <-]. constructor; cbn.
    + rewrite length_app, u16_id; cbn; lia.
    + rewrite bytes_app, bytes_one, K2. apply u16_id. unfold text_len in *. lia.
    + apply Forall_app. split; [done|]. by apply Forall_singleton.
    + intros ty. unfold of_type. rewrite !filter_app. fold (of_type ty (log_sent q)). rewrite K4. by rewrite <-app_assoc.
  - rewrite bytes_app, bytes_one. unfold text_len. lia.
  - rewrite length_app. cbn. lia.
  - lia.
  - apply max_kept; [done|by rewrite Hq].
  - apply wake_waiters_ok, Hst.
Qed.

Lemma ok_dequeue st id q t f i m pid copied now :
  state_ok st -> uncrowded st -> msgque st id = Some q -> selected (msgs q) t f i m -> state_ok (dequeue st id q i m pid copied now).
Proof.
  intros Hst Hu Hq Hs. destruct (o_que st Hst id q Hq) as [Hid [K1 K2 K3 K4]]. destruct (Hu id q Hq) as [U1 U2].
  pose proof (s_there _ _ _ _ _ Hs) as Hi. pose proof (lookup_lt_Some _ _ _ Hi) as Hlt.
  assert (Hm : msg_ok m) by (rewrite Forall_forall in K3; apply K3; by eapply list_elem_of_lookup_2).
  pose proof (bytes_delete _ _ _ Hi) as Hb. pose proof (bytes_nonneg (delete i (msgs q))).
  assert (Hlen : Z.of_nat (length (delete i (msgs q))) = Z.of_nat (length (msgs q)) - 1).
  { rewrite length_delete by done. lia. }
  assert (Hqn : u16 (msg_qnum q - 1) = Z.of_nat (length (delete i (msgs q)))) by (rewrite u16_id; lia).
  assert (Hl : (if u16 (msg_qnum q - 1) =? 0 then [] else delete i (msgs q)) = delete i (msgs q)).
  { rewrite Hqn. destruct (delete i (msgs q)) as [|x l]; [done|]. rewrite (proj2 (Z.eqb_neq _ 0)) by (cbn; lia). done. }
  unfold dequeue. rewrite Hl, (msg_ts_id m Hm). set (q' := MsqidDs _ _ _ _ _ _ _ _ _ _ _ _).
  eapply (ok_update st _ id (Some q')); cbn; rewrite ?Hq; try done; cbn.
  - intros x [= <-]. constructor; cbn; [done| | |].
    + rewrite u16_id; unfold text_len in *; lia.
    + by apply Forall_delete.
    + intros ty. rewrite K4, <-(of_type_delete ty (msgs q) i m Hi (s_fifo _ _ _ _ _ Hs)).
      unfold of_type. rewrite fmap_app, filter_app. by rewrite <-app_assoc.
  - lia.
  - lia.
  - lia.
  - apply max_kept; [done|by rewrite Hq].
  - apply wake_waiters_ok, Hst.
Qed.

(** The negation of the least [long] overflows: nothing is selected. *)
Lemma select_msg_least l f : Forall msg_ok l -> select_msg l (- 2 ^ 31) f = None.
Proof.
  intros Hl. unfold select_msg. change (- 2 ^ 31 =? 0) with false. change (0 <? - 2 ^ 31) with false. cbn iota.
  destruct l as [|x l]; [done|]. pose proof (least_msg_cons x l) as Hk.
  destruct (least_msg (0%nat, x) 0 (x :: l)) as [k y]. destruct Hk as (Hk & _ & _).
  rewrite Forall_forall in Hl. destruct (Hl y) as [H _]; [by eapply list_elem_of_lookup_2|].
  change (s32 (- - 2 ^ 31)) with (- 2 ^ 31). cbn [fst snd]. rewrite (proj2 (Z.leb_gt _ _)); [done|lia].
Qed.

Lemma ok_msgsnd_slept st w msqid mtype text flg sig :
  state_ok st -> w_call w = Snd msqid mtype text flg -> call_ok (w_call w) -> state_ok (msgsnd_slept st w msqid text flg sig).2.
Proof. intros Hst Hw Hc. unfold msgsnd_slept. repeat case_match; cbn; auto using leave_ok, park_ok. Qed.

Lemma ok_msgrcv_turn st w msqid msgsz t flg sig copied now :
  state_ok st -> uncrowded st -> w_call w = Rcv msqid msgsz t flg -> call_ok (w_call w) ->
  state_ok (msgrcv_turn st w msqid msgsz t flg sig copied now).2.
Proof.
  intros Hst Hu Hw Hc. unfold msgrcv_turn.
  destruct (if w_removed w then None else msgque st (msqid mod MSGMNI)) as [q|] eqn:Hq; [|cbn; auto using leave_ok].
  destruct (w_removed w); [done|]. destruct (negb _); [cbn; auto using leave_ok|]. destruct (ipcperms _ _ _); [cbn; auto using leave_ok|].
  destruct (select_msg (msgs q) t flg) as [[i m]|] eqn:Es.
  - destruct (_ && _); [cbn; auto using leave_ok|]. cbn. eapply ok_dequeue; [by apply leave_ok|done|done|].
    destruct (decide (t = - 2 ^ 31)) as [->|]; [|eapply select_msg_some; [|done]; rewrite Hw in Hc; cbn in Hc; lia].
    rewrite select_msg_least in Es; [done|]. apply (o_que st Hst _ q Hq).
  - repeat case_match; cbn; auto using leave_ok, park_ok.
Qed.

Lemma ok_msgsnd_finish st w msqid mtype text flg alloc copied stale now st' :
  state_ok st -> w_call w = Snd msqid mtype text flg -> call_ok (w_call w) ->
  snd <$> msgsnd_finish st w msqid mtype text alloc copied stale now = Some st' -> uncrowded st' -> state_ok st'.
Proof.
  intros Hst Hw Hc. rewrite Hw in Hc. destruct Hc as [_ Hm]. unfold msgsnd_finish.
  destruct (negb alloc); [intros [= <-]; auto using leave_ok|]. destruct (negb copied); [intros [= <-]; auto using leave_ok|].
  destruct (msgque _ _) as [q|] eqn:Hq; [|intros [= <-]; auto using leave_ok].
  destruct (negb _); [intros [= <-]; auto using leave_ok|]. destruct (w_removed w); [done|].
  intros [= <-]. apply ok_enqueue; auto using leave_ok.
Qed.

Lemma ok_newque c st k flg alloc now : state_ok st -> state_ok (newque c st k flg alloc now).2.
Proof.
  intros Hst. unfold newque. destruct (find_slot _ _ _ _) as [id|] eqn:Ef; [|done]. destruct (negb alloc); [done|]. cbn.
  apply find_slot_spec in Ef as [Hid Hu]. assert (Hn : msgque st id = None) by (by destruct (msgque st id)).
  destruct (o_max st Hst) as [Hb Hmax]. set (q := MsqidDs _ _ _ _ _ _ _ _ _ _ _ _).
  eapply (ok_update st _ id (Some q)); cbn; rewrite ?Hn; cbn; change (bytes_of []) with 0; try done; try lia.
  - intros x [= <-]. by constructor.
  - change (Z.of_nat (Z.to_nat MSGMNI)) with MSGMNI in Hid. split; [case_match; lia|]. intros i Hi.
    destruct (decide (id = i)) as [<-|Hne]; [case_match; lia|]. rewrite fn_lookup_insert_ne by done. apply Hmax. case_match; lia.
  - apply Hst.
Qed.

Lemma ok_freeque st id q : state_ok st -> msgque st id = Some q -> state_ok (freeque st id q).
Proof.
  intros Hst Hq. destruct (o_que st Hst id q Hq) as [Hid [K1 K2 K3 K4]]. destruct (o_max st Hst) as [Hb Hmax].
  eapply (ok_update st _ id None); cbn; rewrite ?Hq; cbn; try done; try lia.
  - destruct (id =? max_msqid st) eqn:E.
    + assert (id = max_msqid st) as Eid by lia.
      destruct (shrink_max_spec (Z.to_nat MSGMNI) (msgque st) id) as [S1 S2]; [unfold MSGMNI in *; lia|].
      split; [lia|]. intros i Hi. destruct (decide (id = i)) as [<-|Hne]; [by rewrite fn_lookup_insert|].
      rewrite fn_lookup_insert_ne by done. destruct (decide (id < i)); [apply Hmax; lia|]. apply S2. lia.
    + split; [done|]. intros i Hi. destruct (decide (id = i)) as [<-|Hne]; [by rewrite fn_lookup_insert|].
      rewrite fn_lookup_insert_ne by done. by apply Hmax.
  - apply evict_ok, Hst.
Qed.

Lemma ok_sys_msgctl c st msqid cmd now : state_ok st -> state_ok (sys_msgctl c st msqid cmd now).2.
Proof.
  intros Hst. assert (Hq : forall id q, msgque st id = Some q -> state_ok (msgctl_queue c st id q cmd now).2).
  { intros id q Hq. unfold msgctl_queue. destruct cmd; cbn; try done; try (repeat case_match; done).
    - repeat case_match; try done. cbn. destruct (o_que st Hst id q Hq) as [Hid [K1 K2 K3 K4]].
      eapply (ok_update st _ id (Some (set_stat q tbuf now))); cbn; rewrite ?Hq; cbn; try done; try lia.
      + intros x [= <-]. by constructor.
      + apply max_kept; [done|by rewrite Hq].
      + apply Hst.
    - case_match; [|done]. by apply ok_freeque. }
  unfold sys_msgctl. destruct (msqid <? 0); [done|].
  destruct cmd; repeat (case_match; try done); cbn; by eapply Hq.
Qed.

Lemma ok_step st l now st' : state_ok st -> uncrowded st -> step st l now = Some st' -> uncrowded st' -> state_ok st'.
Proof.
  intros Hst Hu. destruct l as [c k flg alloc|c msqid cmd|c msqid mtype text flg sig|c msqid msgsz t flg sig copied|pid sig alloc copied stale|pid]; cbn [step].
  - intros [= <-] _. unfold sys_msgget. repeat case_match; try done; by apply ok_newque.
  - intros [= <-] _. by apply ok_sys_msgctl.
  - destruct (idle st (c_pid c)); [|done]. intros [= <-] _. unfold real_msgsnd.
    destruct (_ || _) eqn:E; [done|]. destruct mtype as [mtype|]; [|done]. destruct (mtype <? 1) eqn:Et; [done|].
    case_match; [|done]. eapply ok_msgsnd_slept; [done|done|]. cbn. unfold msg_ok, text_len. cbn. lia.
  - destruct (_ && _) eqn:Ei; [|done]. intros [= <-] _. unfold real_msgrcv. destruct (_ || _) eqn:E; [done|].
    case_match; [|done]. eapply ok_msgrcv_turn; [done|done|done|]. cbn. pose proof (s32_range t). lia.
  - destruct (waiters st !! pid) as [w|] eqn:Hw; [|done]. destruct (o_waiters st Hst pid w Hw) as [Hp Hc]. cbn. unfold resume.
    destruct (w_place w), (w_call w) eqn:Ew; try done; rewrite <-Ew in Hc.
    + intros [= <-] _. by eapply ok_msgsnd_slept.
    + intros [= <-] _. by apply ok_msgrcv_turn.
    + by eapply ok_msgsnd_finish.
  - destruct (waiters st !! pid) as [w|] eqn:Hw; [|done]. destruct (o_waiters st Hst pid w Hw) as [Hp Hc]. cbn.
    intros [= <-] _. apply park_ok; [done| |]; by case_match.
Qed.

Lemma reachable_ok st : reachable st -> state_ok st /\ uncrowded st.
Proof.
  induction 1 as [|st l now st' _ [IH Hu] Hs Hu'].
  - split; [|done]. by constructor.
  - split; [by eapply ok_step|done].
Qed.

(** C35: in every state that the calls on message queues can lead to, in any order,
    with senders sleeping between finding room and queueing the message, as long as
    no queue holds 2^16 messages or bytes (beyond that messages are lost, see
    [msgrcv_forgets]) and no sender links its message into the freed memory of a
    removed queue (see [msgsnd_reads_freed]): each queue's counters of messages and
    bytes are exact; for each type, the messages sent are those taken out by receivers
    followed by those still queued, in the same order, so that none disappears in the
    queue, is duplicated or overtaken by another of its type; the global counters are
    the sums over the queues; and no queue lies above [max_msqid].  A message taken out
    is stored in its receiver's memory, or, if that fails, lost (the flag in the log,
    see [msgrcv_fault_loses_message]). *)
Theorem msg_reachable_ok st :
  reachable st ->
  (forall id q, msgque st id = Some q ->
     msg_qnum q = Z.of_nat (length (msgs q)) /\ msg_cbytes q = bytes_of (msgs q) /\
     forall ty, of_type ty (log_sent q) = of_type ty (log_rcvd q).*1 ++ of_type ty (msgs q)) /\
  msghdrs st = slots hdrs_in (msgque st) /\ msgbytes st = slots bytes_in (msgque st) /\
  used_queues st = slots one_in (msgque st) /\ (forall id, max_msqid st < id -> msgque st id = None).
Proof.
  intros Hr. destruct (reachable_ok st Hr) as [[H1 H2 H3 H4 [_ H5] H6] _]. split_and!; try done.
  intros id q Hq. destruct (H1 id q Hq) as [_ [K1 K2 K3 K4]]. by split_and!.
Qed.

(** [msgrcv] takes the message it is asked for: the first message of the queue;
    the first of the given type, or with MSG_EXCEPT the first of another type; or,
    for a negative type, the first of those with the least type, if that is not
    above the bound.  It finds none only if no message of the queue is wanted. *)
Theorem msgrcv_selects l msgtyp msgflg :
  - 2 ^ 31 < msgtyp < 2 ^ 31 ->
  match select_msg l msgtyp msgflg with
  | Some (i, m) => selected l msgtyp msgflg i m
  | None => forall m, m ∈ l -> ~ wanted msgtyp msgflg m
  end.
Proof.
  intros Ht. destruct (select_msg l msgtyp msgflg) as [[i m]|] eqn:E; [by apply select_msg_some|].
  intros m. by apply select_msg_none.
Qed.

(** ** Runs *)

Definition root (pid : Z) : caller := Caller pid 0 0 (fun _ => false) true true.

Fixpoint run (st : state) (l : list (label * Z)) : option state :=
  match l with
  | [] => Some st
  | (x, now) :: l => st' ← step st x now; run st' l
  end.

Definition msg_new : state := (sys_msgget (root 1) msg_init 0 384 true 1).2.

Definition send (pid ty : Z) (text : list Z) : list (label * Z) :=
  [(Msgsnd (root pid) 0 (Some ty) text 0 false, 2); (Resume pid false true true 0, 3)].

(** Messages of types 5, 3, 4 and 3. *)
Definition msg_demo : state := default msg_new (run msg_new (send 2 5 [1] ++ send 2 3 [2; 2] ++ send 3 4 [] ++ send 3 3 [4])).

Example msg_demo_receive :
  let rcv typ flg := (real_msgrcv (root 9) msg_demo 0 10 typ flg false true 4).1 in
  rcv 0 0 = Some (1, Some (Msg 5 [1])) /\ rcv 3 0 = Some (2, Some (Msg 3 [2; 2])) /\
  rcv 5 MSG_EXCEPT = Some (2, Some (Msg 3 [2; 2])) /\ rcv (-4) 0 = Some (2, Some (Msg 3 [2; 2])) /\
  rcv (-2) IPC_NOWAIT = Some (- ENOMSG, None) /\ rcv 7 0 = None.
Proof. vm_compute. split_and!; reflexivity. Qed.

Lemma msgrcv_selects_witness : selected [Msg 5 [1]; Msg 3 [2; 2]; Msg 4 []; Msg 3 [4]] (-3) 0 1 (Msg 3 [2; 2]).
Proof. apply (msgrcv_selects [Msg 5 [1]; Msg 3 [2; 2]; Msg 4 []; Msg 3 [4]] (-3) 0). lia. Defined.

Lemma uncrowded_table (st : state) :
  (forall id, id <> 0 -> msgque st id = None) ->
  (forall q, msgque st 0 = Some q -> Z.of_nat (length (msgs q)) < 2 ^ 16 /\ bytes_of (msgs q) < 2 ^ 16) -> uncrowded st.
Proof. intros Hn H0 id q Hq. destruct (decide (id = 0)) as [->|]; [by apply H0|]. by rewrite Hn in Hq. Qed.

Ltac uncrowded_tac :=
  apply uncrowded_table; [intros [|p|p] Hid; [done|reflexivity..]|intros q [= <-]; done].

(** One message is sent; the sender has found room and will queue it. *)
Definition msg_steps : list state :=
  let st := default msg_new (step msg_new (Msgsnd (root 2) 0 (Some 5) [1] 0 false) 2) in
  [st; default msg_new (step st (Resume 2 false true true 0) 3)].

Definition msg_sent : state := default msg_new (msg_steps !! 1%nat).

Lemma msg_sent_reachable : reachable msg_sent.
Proof.
  assert (H0 : uncrowded msg_new) by uncrowded_tac.
  assert (H1 : uncrowded (default msg_new (msg_steps !! 0%nat))) by uncrowded_tac.
  assert (H2 : uncrowded msg_sent) by uncrowded_tac.
  apply (reach_step (default msg_new (msg_steps !! 0%nat)) (Resume 2 false true true 0) 3); [|reflexivity|exact H2].
  apply (reach_step msg_new (Msgsnd (root 2) 0 (Some 5) [1] 0 false) 2); [|reflexivity|exact H1].
  apply (reach_step msg_init (Msgget (root 1) 0 384 true) 1); [apply reach_init|reflexivity|exact H0].
Qed.

Lemma msg_reachable_ok_witness : msghdrs msg_sent = 1 /\ slots hdrs_in (msgque msg_sent) = 1.
Proof.
  assert (E : msghdrs msg_sent = 1) by reflexivity. split; [exact E|].
  rewrite <-E. symmetry. apply msg_reachable_ok, msg_sent_reachable.
Defined.

(** ** Where the code falls short *)

(** With 2^16 + 1 messages in a queue (empty ones need no room) the counter is 1, and
    receiving any one of them empties the queue: the others are gone. *)
Lemma msgrcv_forgets st id q i m pid copied now :
  msgque st id = Some q -> Z.of_nat (length (msgs q)) = 2 ^ 16 + 1 -> msg_qnum q = u16 (Z.of_nat (length (msgs q))) ->
  msgs <$> msgque (dequeue st id q i m pid copied now) id = Some [].
Proof. intros Hq Hl Hn. unfold dequeue. cbn. rewrite fn_lookup_insert, Hn, Hl. reflexivity. Qed.

(** An empty message is always accepted. *)
Lemma msgsnd_empty_accepted st w msqid flg sig q :
  w_removed w = false -> msgque st (msqid mod MSGMNI) = Some q -> seq (msg_perm q) = msqid / MSGMNI ->
  ipcperms (w_caller w) (msg_perm q) S_IWUGO = false -> msg_cbytes q <= msg_qbytes q ->
  msgsnd_slept st w msqid [] flg sig = (None, park st (c_pid (w_caller w)) (with_place w Allocating false)).
Proof.
  intros Hr Hq Hs Hp Hb. unfold msgsnd_slept. rewrite Hr, Hq, Hs, Z.eqb_refl, Hp. cbn [length].
  by rewrite (proj2 (Z.ltb_ge _ _)) by lia.
Qed.

(** Five senders find room for 4000 bytes in turn, all before the first of them has
    queued its message: the queue then holds more than [msg_qbytes] bytes. *)
Definition race : list (label * Z) :=
  ((fun pid => (Msgsnd (root pid) 0 (Some 1) (replicate 4000 7) 0 false, 2)) <$> [11; 12; 13; 14; 15]) ++
  ((fun pid => (Resume pid false true true 0, 3)) <$> [11; 12; 13; 14; 15]).

Example msgsnd_exceeds_limit :
  (fun st => (fun q => (msg_cbytes q, msg_qbytes q)) <$> msgque st 0) <$> run msg_new race = Some (Some (20000, 16384)).
Proof. vm_compute. reflexivity. Qed.

(** A message that cannot be stored in user memory is lost. *)
Example msgrcv_fault_loses_message :
  let '(r, st) := real_msgrcv (root 9) msg_demo 0 10 4 0 false false 4 in
  r = Some (- EFAULT, None) /\
  (fun q => (msg_type <$> msgs q, log_rcvd q)) <$> msgque st 0 = Some ([5; 3; 3], [(Msg 4 [], false)]).
Proof. vm_compute. split; reflexivity. Qed.

(** While a sender allocates, its queue is removed and another one is created in its
    place.  The sender compares with a number in memory that is free: with the old
    number there, it would link its message into that memory. *)
Example msgsnd_reads_freed :
  let history := [(Msgsnd (root 2) 0 (Some 5) [1] 0 false, 2); (Msgctl (root 1) 0 CMD_RMID, 3);
                  (Msgget (root 1) 0 384 true, 4)] in
  let queued st := (fun q => (seq (msg_perm q), msgs q)) <$> msgque st 0 in
  (fun st => (queued st, queued <$> step st (Resume 2 false true true 0) 5, queued <$> step st (Resume 2 false true true 1) 5))
    <$> run msg_new history = Some (Some (1, []), None, Some (Some (1, []))).
Proof. vm_compute. reflexivity. Qed.

(** IPC_SET takes its values from the local variable even if nothing could be copied
    into it: the owner changes to whatever was on the stack. *)
Example msgctl_set_uses_garbage :
  let stack := MsqidStat (IpcPerm 0 4711 4711 0 0 511 0) 0 0 0 0 0 9999 0 0 in
  let '(r, _, st) := sys_msgctl (root 1) msg_new 0 (CMD_SET true stack false) 5 in
  r = 0 /\ (fun q => (uid (msg_perm q), msg_qbytes q)) <$> msgque st 0 = Some (4711, 9999).
Proof. vm_compute. split; reflexivity. Qed.

(** A sender waits for room; the limit is raised, and there is room; nobody wakes the
    sender. *)
Definition small_limit (n : Z) : msgcmd := CMD_SET true (MsqidStat (IpcPerm 0 0 0 0 0 384 0) 0 0 0 0 0 n 0 0) true.

Example msgctl_set_wakes_nobody :
  (fun st => ((fun w => w_place w) <$> waiters st !! 2, (fun q => (msg_cbytes q, msg_qbytes q)) <$> msgque st 0)) <$>
    run msg_new [(Msgctl (root 1) 0 (small_limit 3), 2); (Msgsnd (root 2) 0 (Some 1) [1; 2; 3; 4] 0 false, 3);
                 (Msgctl (root 1) 0 (small_limit 100), 4)] = Some (Some Asleep, Some (0, 100)).
Proof. vm_compute. reflexivity. Qed.
