(* ===== verification/Signal.v ===== *)
(** * kernel/signal.c and the delivery of signals on the i370

    The state holds what signals need of the processes (their ids, state, signal
    sets and queues), the tables of handlers, which processes can share, and the
    number of queued signals.  A call is made by a current process [cur]; [admin] is
    what [capable] answers for it.  [None] as a result means that the kernel follows
    an invalid pointer.  [find_task_by_pid] is a lookup ([TaskProof] shows that for
    the pid hash).  A sleep in [sys_rt_sigtimedwait] divides it in two.

    The tail pointer of a queue points to its end, or nowhere ([tail_ok] is false):
    a node appended through such a pointer cannot be reached from the queue, and is
    counted in [lost].  [waits] holds the local variables of the calls of
    [sys_rt_sigtimedwait] that sleep. *)

From stdpp Require Import functions gmap.
From S2P Require Import Prelude Bitops.

(** ** Signal sets *)

Definition NSIG : Z := 64.
Definition NSIG_BPW : Z := 32.

Record sigset := Sigset { sig0 : Z; sig1 : Z }.

(** [a & ~b] on 32-bit words. *)
Definition andn (a b : Z) : Z := Z.land a (u32 (Z.lnot b)).

Definition on_word (f : Z -> Z) (i : Z) (s : sigset) : sigset :=
  if i =? 0 then Sigset (f (sig0 s)) (sig1 s) else Sigset (sig0 s) (f (sig1 s)).

Definition word_of (s : sigset) (i : Z) : Z := if i =? 0 then sig0 s else sig1 s.

Definition sigaddset (s : sigset) (n : Z) : sigset :=
  on_word (fun w => Z.lor w (Z.shiftl 1 ((n - 1) mod NSIG_BPW))) ((n - 1) / NSIG_BPW) s.

Definition sigdelset (s : sigset) (n : Z) : sigset :=
  on_word (fun w => andn w (Z.shiftl 1 ((n - 1) mod NSIG_BPW))) ((n - 1) / NSIG_BPW) s.

Definition sigismember (s : sigset) (n : Z) : bool :=
  negb (Z.land 1 (Z.shiftr (word_of s ((n - 1) / NSIG_BPW)) ((n - 1) mod NSIG_BPW)) =? 0).

Definition sigmask (n : Z) : Z := Z.shiftl 1 (n - 1).

Definition sigorsets (a b : sigset) : sigset := Sigset (Z.lor (sig0 a) (sig0 b)) (Z.lor (sig1 a) (sig1 b)).

Definition sigandsets (a b : sigset) : sigset := Sigset (Z.land (sig0 a) (sig0 b)) (Z.land (sig1 a) (sig1 b)).

Definition signandsets (a b : sigset) : sigset := Sigset (andn (sig0 a) (sig0 b)) (andn (sig1 a) (sig1 b)).

Definition signotset (s : sigset) : sigset := Sigset (u32 (Z.lnot (sig0 s))) (u32 (Z.lnot (sig1 s))).

Definition sigemptyset : sigset := Sigset 0 0.

Definition sigaddsetmask (s : sigset) (mask : Z) : sigset := Sigset (Z.lor (sig0 s) mask) (sig1 s).

Definition sigdelsetmask (s : sigset) (mask : Z) : sigset := Sigset (andn (sig0 s) mask) (sig1 s).

Definition siginitset (mask : Z) : sigset := Sigset mask 0.

Definition SIGQUIT : Z := 3.
Definition SIGILL : Z := 4.
Definition SIGTRAP : Z := 5.
Definition SIGABRT : Z := 6.
Definition SIGFPE : Z := 8.
Definition SIGKILL : Z := 9.
Definition SIGSEGV : Z := 11.
Definition SIGCHLD : Z := 17.
Definition SIGCONT : Z := 18.
Definition SIGSTOP : Z := 19.
Definition SIGTSTP : Z := 20.
Definition SIGTTIN : Z := 21.
Definition SIGTTOU : Z := 22.
Definition SIGURG : Z := 23.
Definition SIGWINCH : Z := 28.
Definition SIGRTMIN : Z := 32.

(** ** Processes *)

Definition TASK_RUNNING : Z := 0.
Definition TASK_INTERRUPTIBLE : Z := 1.
Definition TASK_ZOMBIE : Z := 4.
Definition TASK_STOPPED : Z := 8.

Definition SI_USER : Z := 0.
Definition SI_KERNEL : Z := 0x80.

Record siginfo := Siginfo { si_signo : Z; si_errno : Z; si_code : Z; si_pid : Z; si_uid : Z; si_value : Z }.

(** The [info] argument: null, 1, or a pointer to a structure. *)
Inductive sender := SendUser | SendKernel | SendInfo (info : siginfo).

Definition SIG_DFL : Z := 0.
Definition SIG_IGN : Z := 1.
Definition SA_NOCLDSTOP : Z := 1.
Definition SA_SIGINFO : Z := 0x4.
Definition SA_NODEFER : Z := 0x40000000.
Definition SA_ONESHOT : Z := 0x80000000.

Record k_sigaction := Sigaction { sa_handler : Z; sa_flags : Z; sa_mask : sigset }.

(** [sigh] is the table of handlers, if the process still has one. *)
Record task := Task {
  pgrp : Z; session : Z; leader : bool; uid : Z; euid : Z; suid : Z; p_pptr : Z;
  tstate : Z; ptraced : bool; exit_code : Z; sigh : option Z;
  blocked : sigset; signal : sigset; sigpending : bool; sigqueue : list siginfo; tail_ok : bool;
  sas_ss_sp : Z; sas_ss_size : Z }.

Record state := State {
  tasks : gmap Z task; order : list Z; action : Z -> Z -> k_sigaction;
  nr_queued_signals : Z; max_queued_signals : Z; lost : Z; waits : gmap Z (sigset * sigset) }.

Definition with_state (t : task) (st : Z) : task :=
  Task (pgrp t) (session t) (leader t) (uid t) (euid t) (suid t) (p_pptr t) st (ptraced t) (exit_code t) (sigh t)
    (blocked t) (signal t) (sigpending t) (sigqueue t) (tail_ok t) (sas_ss_sp t) (sas_ss_size t).

Definition with_exit (t : task) (code : Z) : task :=
  Task (pgrp t) (session t) (leader t) (uid t) (euid t) (suid t) (p_pptr t) (tstate t) (ptraced t) code (sigh t)
    (blocked t) (signal t) (sigpending t) (sigqueue t) (tail_ok t) (sas_ss_sp t) (sas_ss_size t).

Definition with_sigh (t : task) (h : option Z) : task :=
  Task (pgrp t) (session t) (leader t) (uid t) (euid t) (suid t) (p_pptr t) (tstate t) (ptraced t) (exit_code t) h
    (blocked t) (signal t) (sigpending t) (sigqueue t) (tail_ok t) (sas_ss_sp t) (sas_ss_size t).

Definition with_sets (t : task) (b s : sigset) (p : bool) : task :=
  Task (pgrp t) (session t) (leader t) (uid t) (euid t) (suid t) (p_pptr t) (tstate t) (ptraced t) (exit_code t) (sigh t)
    b s p (sigqueue t) (tail_ok t) (sas_ss_sp t) (sas_ss_size t).

Definition with_queue (t : task) (q : list siginfo) (ok : bool) : task :=
  Task (pgrp t) (session t) (leader t) (uid t) (euid t) (suid t) (p_pptr t) (tstate t) (ptraced t) (exit_code t) (sigh t)
    (blocked t) (signal t) (sigpending t) q ok (sas_ss_sp t) (sas_ss_size t).

Definition with_stack (t : task) (sp size : Z) : task :=
  Task (pgrp t) (session t) (leader t) (uid t) (euid t) (suid t) (p_pptr t) (tstate t) (ptraced t) (exit_code t) (sigh t)
    (blocked t) (signal t) (sigpending t) (sigqueue t) (tail_ok t) sp size.

Definition set_task (st : state) (p : Z) (t : task) : state :=
  State (<[p := t]> (tasks st)) (order st) (action st) (nr_queued_signals st) (max_queued_signals st) (lost st) (waits st).

Definition set_queued (st : state) (n l : Z) : state :=
  State (tasks st) (order st) (action st) n (max_queued_signals st) l (waits st).

Definition set_action (st : state) (h sig : Z) (ka : k_sigaction) : state :=
  State (tasks st) (order st) (<[h := <[sig := ka]> (action st h)]> (action st)) (nr_queued_signals st) (max_queued_signals st) (lost st) (waits st).

Definition set_waits (st : state) (w : gmap Z (sigset * sigset)) : state :=
  State (tasks st) (order st) (action st) (nr_queued_signals st) (max_queued_signals st) (lost st) w.

Definition set_signal (t : task) (s : sigset) : task := with_sets t (blocked t) s (sigpending t).

Definition set_blocked (t : task) (b : sigset) : task := with_sets t b (signal t) (sigpending t).

Definition recalc_sigpending (t : task) : task :=
  let ready := Z.lor (andn (sig1 (signal t)) (sig1 (blocked t))) (andn (sig0 (signal t)) (sig0 (blocked t))) in
  with_sets t (blocked t) (signal t) (negb (ready =? 0)).

Definition wake_up_process (t : task) : task := with_state t TASK_RUNNING.

(** ** Pending signals *)

Definition flush_signals (st : state) (p : Z) (t : task) : state :=
  set_queued (set_task st p (with_queue (with_sets t (blocked t) sigemptyset false) [] true))
    (nr_queued_signals st - Z.of_nat (length (sigqueue t))) (lost st).

Definition flush_signal_handlers (st : state) (h : Z) : state :=
  State (tasks st) (order st)
    (<[h := fun sig => if (1 <=? sig) && (sig <=? NSIG) then
              Sigaction (if sa_handler (action st h sig) =? SIG_IGN then SIG_IGN else SIG_DFL) 0 sigemptyset
            else action st h sig]> (action st))
    (nr_queued_signals st) (max_queued_signals st) (lost st) (waits st).

(** The number of the first signal of [s] that is not in [mask], or 0. *)
Definition next_signal (s mask : sigset) : Z :=
  let x0 := andn (sig0 s) (sig0 mask) in
  let x1 := andn (sig1 s) (sig1 mask) in
  if negb (x0 =? 0) then 1 + ffz (u32 (Z.lnot x0))
  else if negb (x1 =? 0) then NSIG_BPW + 1 + ffz (u32 (Z.lnot x1))
  else 0.

Definition no_info (sig : Z) : siginfo := Siginfo sig 0 0 0 0 0.

(** The first queued signal with that number: what is before it, it, what follows. *)
Fixpoint split_queue (sig : Z) (q : list siginfo) : option (list siginfo * siginfo * list siginfo) :=
  match q with
  | [] => None
  | i :: q =>
    if si_signo i =? sig then Some ([], i, q)
    else match split_queue sig q with Some (a, x, b) => Some (i :: a, x, b) | None => None end
  end.

Definition is_queued (sig : Z) (q : list siginfo) : bool := existsb (fun i => si_signo i =? sig) q.

(** [is_blocked]: the mask is that of the process itself, as in the check at the end. *)
Definition dequeue_signal (st : state) (p : Z) (t : task) (mask : sigset) (is_blocked : bool) : Z * siginfo * state :=
  let sig := next_signal (signal t) mask in
  if negb (sig =? 0) then
    let del t := set_signal t (sigdelset (signal t) sig) in
    if sig <? SIGRTMIN then (sig, no_info sig, set_task st p (recalc_sigpending (del t)))
    else match split_queue sig (sigqueue t) with
    | Some (a, info, b) =>
      let t := with_queue t (a ++ b) (match b with [] => true | _ => tail_ok t end) in
      let t := if is_queued sig b then t else del t in
      (sig, info, set_queued (set_task st p (recalc_sigpending t)) (nr_queued_signals st - 1) (lost st))
    | None => (sig, no_info sig, set_task st p (recalc_sigpending (del t)))
    end
  else
    (0, no_info 0,
     if is_blocked && sigpending t then set_task st p (with_sets t (blocked t) (signal t) false) else st).

Definition default_ignored (sig : Z) : bool :=
  (sig =? SIGCONT) || (sig =? SIGWINCH) || (sig =? SIGCHLD) || (sig =? SIGURG).

Definition ignored_signal (st : state) (sig : Z) (t : task) : bool :=
  if ptraced t || sigismember (blocked t) sig then false
  else match sigh t with
  | None => true
  | Some h =>
    let handler := sa_handler (action st h sig) in
    if handler =? SIG_DFL then default_ignored sig
    else if handler =? SIG_IGN then negb (sig =? SIGCHLD)
    else false
  end.

Definition from_user (info : sender) : bool :=
  match info with SendUser => true | SendKernel => false | SendInfo i => si_code i <=? 0 end.

Definition may_signal (c : task) (admin : bool) (sig : Z) (info : sender) (t : task) : bool :=
  negb (from_user info && (negb (sig =? SIGCONT) || negb (session c =? session t)) &&
        negb (euid c =? suid t) && negb (euid c =? uid t) && negb (uid c =? suid t) && negb (uid c =? uid t) && negb admin).

Definition stop_signal (sig : Z) : bool :=
  (sig =? SIGSTOP) || (sig =? SIGTSTP) || (sig =? SIGTTIN) || (sig =? SIGTTOU).

(** The first switch of [send_sig_info]. *)
Definition stop_or_continue (sig : Z) (t : task) : task :=
  if (sig =? SIGKILL) || (sig =? SIGCONT) then
    let t := if tstate t =? TASK_STOPPED then wake_up_process t else t in
    let t := with_exit t 0 in
    recalc_sigpending (set_signal t (sigdelsetmask (signal t)
      (Z.lor (Z.lor (Z.lor (sigmask SIGSTOP) (sigmask SIGTSTP)) (sigmask SIGTTOU)) (sigmask SIGTTIN))))
  else if stop_signal sig then recalc_sigpending (set_signal t (sigdelset (signal t) SIGCONT))
  else t.

(** The [siginfo] that is queued. *)
Definition queued_info (cur : Z) (c : task) (sig : Z) (info : sender) : siginfo :=
  match info with
  | SendUser => Siginfo sig 0 SI_USER cur (uid c) 0
  | SendKernel => Siginfo sig 0 SI_KERNEL 0 0 0
  | SendInfo i => i
  end.

Definition mark_pending (t : task) (sig : Z) : task :=
  with_sets t (blocked t) (sigaddset (signal t) sig) (if sigismember (blocked t) sig then sigpending t else true).

(** The label [out]. *)
Definition notify_task (st : state) (p : Z) (t : task) : state :=
  set_task st p (if (tstate t =? TASK_INTERRUPTIBLE) && sigpending t then wake_up_process t else t).

(** [alloc] is the answer of [kmem_cache_alloc]. *)
Definition send_sig_info (st : state) (cur : Z) (admin : bool) (sig : Z) (info : sender) (p : Z) (alloc : bool) : option (Z * state) :=
  match tasks st !! cur, tasks st !! p with
  | Some c, Some t =>
    if (sig <? 0) || (NSIG <? sig) then Some (- EINVAL, st)
    else if negb (may_signal c admin sig info t) then Some (- EPERM, st)
    else if (sig =? 0) || (if sigh t is None then true else false) then Some (0, st)
    else
      let t := stop_or_continue sig t in
      if ignored_signal st sig t then Some (0, notify_task st p t)
      else if sig <? SIGRTMIN then
        Some (0, notify_task st p (if sigismember (signal t) sig then t else mark_pending t sig))
      else if (nr_queued_signals st <? max_queued_signals st) && alloc then
        let t' := if tail_ok t then with_queue t (sigqueue t ++ [queued_info cur c sig info]) true else t in
        let st := set_queued st (nr_queued_signals st + 1) (if tail_ok t then lost st else lost st + 1) in
        Some (0, notify_task st p (mark_pending t' sig))
      else match info with
      | SendInfo i => if si_code i <? 0 then Some (- EAGAIN, notify_task st p t) else Some (0, notify_task st p (mark_pending t sig))
      | _ => None
      end
  | _, _ => Some (- ESRCH, st)
  end.

Definition force_sig_info (st : state) (cur : Z) (admin : bool) (sig : Z) (info : sender) (p : Z) (alloc : bool) : option (Z * state) :=
  match tasks st !! p with
  | None => Some (- ESRCH, st)
  | Some t =>
    match sigh t with
    | None => Some (- ESRCH, st)
    | Some h =>
      let ka := action st h sig in
      let st := if sa_handler ka =? SIG_IGN then set_action st h sig (Sigaction SIG_DFL (sa_flags ka) (sa_mask ka)) else st in
      send_sig_info (set_task st p (set_blocked t (sigdelset (blocked t) sig))) cur admin sig info p alloc
    end
  end.

(** ** Sending *)

(** The loop of [kill_pg_info] and [kill_sl_info]: the signal goes to the processes of
    the list that satisfy [q]; the result so far and the number reached. *)
Fixpoint send_each (st : state) (l : list Z) (q : Z -> task -> bool) (cur : Z) (admin : bool) (sig : Z) (info : sender)
    (alloc : Z -> bool) (retval found : Z) : option (Z * Z * state) :=
  match l with
  | [] => Some (retval, found, st)
  | p :: l =>
    match tasks st !! p with
    | Some t =>
      if q p t then
        '(err, st) ← send_sig_info st cur admin sig info p (alloc p);
        if err =? 0 then send_each st l q cur admin sig info alloc retval (found + 1)
        else send_each st l q cur admin sig info alloc err found
      else send_each st l q cur admin sig info alloc retval found
    | None => send_each st l q cur admin sig info alloc retval found
    end
  end.

Definition kill_each (st : state) (q : Z -> task -> bool) (cur : Z) (admin : bool) (sig : Z) (info : sender) (alloc : Z -> bool)
  : option (Z * state) :=
  '(retval, found, st) ← send_each st (order st) q cur admin sig info alloc (- ESRCH) 0;
  Some (if found =? 0 then retval else 0, st).

Definition kill_pg_info (st : state) (cur : Z) (admin : bool) (sig : Z) (info : sender) (pg : Z) (alloc : Z -> bool) : option (Z * state) :=
  if 0 <? pg then kill_each st (fun _ t => pgrp t =? pg) cur admin sig info alloc else Some (- EINVAL, st).

Definition kill_sl_info (st : state) (cur : Z) (admin : bool) (sig : Z) (info : sender) (sess : Z) (alloc : Z -> bool) : option (Z * state) :=
  if 0 <? sess then kill_each st (fun _ t => leader t && (session t =? sess)) cur admin sig info alloc else Some (- EINVAL, st).

Definition kill_proc_info (st : state) (cur : Z) (admin : bool) (sig : Z) (info : sender) (pid : Z) (alloc : Z -> bool) : option (Z * state) :=
  match tasks st !! pid with
  | None => Some (- ESRCH, st)
  | Some _ => send_sig_info st cur admin sig info pid (alloc pid)
  end.

(** The loop for pid -1. *)
Fixpoint send_all (st : state) (l : list Z) (cur : Z) (admin : bool) (sig : Z) (info : sender) (alloc : Z -> bool) (retval count : Z)
  : option (Z * Z * state) :=
  match l with
  | [] => Some (retval, count, st)
  | p :: l =>
    if (1 <? p) && negb (p =? cur) then
      '(err, st) ← send_sig_info st cur admin sig info p (alloc p);
      send_all st l cur admin sig info alloc (if err =? - EPERM then retval else err) (count + 1)
    else send_all st l cur admin sig info alloc retval count
  end.

Definition kill_something_info (st : state) (cur : Z) (admin : bool) (sig : Z) (info : sender) (pid : Z) (alloc : Z -> bool)
  : option (Z * state) :=
  if pid =? 0 then
    match tasks st !! cur with
    | Some c => kill_pg_info st cur admin sig info (pgrp c) alloc
    | None => Some (- ESRCH, st)
    end
  else if pid =? -1 then
    '(retval, count, st) ← send_all st (order st) cur admin sig info alloc 0 0;
    Some (if count =? 0 then - ESRCH else retval, st)
  else if pid <? 0 then kill_pg_info st cur admin sig info (- pid) alloc
  else kill_proc_info st cur admin sig info pid alloc.

(** [priv] chooses between the null pointer and 1. *)
Definition priv_info (priv : bool) : sender := if priv then SendKernel else SendUser.

Definition send_sig (st : state) (cur : Z) (admin : bool) (sig p : Z) (priv alloc : bool) : option (Z * state) :=
  send_sig_info st cur admin sig (priv_info priv) p alloc.

Definition force_sig (st : state) (cur : Z) (admin : bool) (sig p : Z) (alloc : bool) : option (Z * state) :=
  force_sig_info st cur admin sig SendKernel p alloc.

Definition kill_pg (st : state) (cur : Z) (admin : bool) (pg sig : Z) (priv : bool) (alloc : Z -> bool) : option (Z * state) :=
  kill_pg_info st cur admin sig (priv_info priv) pg alloc.

Definition kill_sl (st : state) (cur : Z) (admin : bool) (sess sig : Z) (priv : bool) (alloc : Z -> bool) : option (Z * state) :=
  kill_sl_info st cur admin sig (priv_info priv) sess alloc.

Definition kill_proc (st : state) (cur : Z) (admin : bool) (pid sig : Z) (priv : bool) (alloc : Z -> bool) : option (Z * state) :=
  kill_proc_info st cur admin sig (priv_info priv) pid alloc.

Definition sys_kill (st : state) (cur : Z) (admin : bool) (pid sig : Z) (alloc : Z -> bool) : option (Z * state) :=
  match tasks st !! cur with
  | Some c => kill_something_info st cur admin sig (SendInfo (Siginfo sig 0 SI_USER cur (uid c) 0)) pid alloc
  | None => None
  end.

(** [uinfo] is what could be copied from the user. *)
Definition sys_rt_sigqueueinfo (st : state) (cur : Z) (admin : bool) (pid sig : Z) (uinfo : option siginfo) (alloc : Z -> bool) : option (Z * state) :=
  match uinfo with
  | None => Some (- EFAULT, st)
  | Some i =>
    if 0 <=? si_code i then Some (- EPERM, st)
    else kill_proc_info st cur admin sig (SendInfo (Siginfo sig (si_errno i) (si_code i) (si_pid i) (si_uid i) (si_value i))) pid alloc
  end.

Definition CLD_EXITED : Z := 1.
Definition CLD_KILLED : Z := 2.
Definition CLD_DUMPED : Z := 3.
Definition CLD_STOPPED : Z := 5.

(** [garbage] is the part of the structure that is not initialised.  The queue on which
    the parent waits for children is not part of the state. *)
Definition notify_parent (st : state) (cur : Z) (admin : bool) (tsk sig garbage : Z) (alloc : bool) : option (Z * state) :=
  match tasks st !! tsk with
  | None => Some (0, st)
  | Some t =>
    let why :=
      if tstate t =? TASK_ZOMBIE then
        if negb (Z.land (exit_code t) 0x80 =? 0) then CLD_DUMPED
        else if negb (Z.land (exit_code t) 0x7f =? 0) then CLD_KILLED
        else CLD_EXITED
      else if tstate t =? TASK_STOPPED then CLD_STOPPED
      else SI_KERNEL in
    send_sig_info st cur admin sig (SendInfo (Siginfo sig 0 why tsk garbage garbage)) (p_pptr t) alloc
  end.

(** ** Masks *)

Definition unblockable : Z := Z.lor (sigmask SIGKILL) (sigmask SIGSTOP).

Definition SIG_BLOCK : Z := 0.
Definition SIG_UNBLOCK : Z := 1.
Definition SIG_SETMASK : Z := 2.

(** [set] is the argument: null, not readable, or a set; [oset] is null, or a pointer
    that can be written to or not.  With the result comes the old set, if stored. *)
Definition sys_rt_sigprocmask (st : state) (cur : Z) (t : task) (how : Z) (set : option (option sigset)) (oset : option bool) (size_ok : bool)
  : Z * option sigset * state :=
  let old := blocked t in
  let store st :=
    match oset with
    | None => (0, None, st)
    | Some true => (0, Some old, st)
    | Some false => (- EFAULT, None, st)
    end in
  if negb size_ok then (- EINVAL, None, st)
  else match set with
  | None => store st
  | Some None => (- EFAULT, None, st)
  | Some (Some new) =>
    let new := sigdelsetmask new unblockable in
    let '(error, new) :=
      if how =? SIG_BLOCK then (0, sigorsets old new)
      else if how =? SIG_UNBLOCK then (0, signandsets old new)
      else if how =? SIG_SETMASK then (0, new)
      else (- EINVAL, new) in
    let st := set_task st cur (recalc_sigpending (set_blocked t new)) in
    if negb (error =? 0) then (error, None, st) else store st
  end.

Definition sys_sigprocmask (st : state) (cur : Z) (t : task) (how : Z) (set : option (option Z)) (oset : option bool)
  : Z * option Z * state :=
  let old := sig0 (blocked t) in
  let store st :=
    match oset with
    | None => (0, None, st)
    | Some true => (0, Some old, st)
    | Some false => (- EFAULT, None, st)
    end in
  match set with
  | None => store st
  | Some None => (- EFAULT, None, st)
  | Some (Some new) =>
    let new := andn new unblockable in
    let '(error, b) :=
      if how =? SIG_BLOCK then (0, sigaddsetmask (blocked t) new)
      else if how =? SIG_UNBLOCK then (0, sigdelsetmask (blocked t) new)
      else if how =? SIG_SETMASK then (0, Sigset new (sig1 (blocked t)))
      else (- EINVAL, blocked t) in
    let st := set_task st cur (recalc_sigpending (set_blocked t b)) in
    if negb (error =? 0) then (error, None, st) else store st
  end.

Definition sys_rt_sigpending (t : task) (size_ok copied : bool) : Z * option sigset :=
  if negb size_ok then (- EINVAL, None)
  else if copied then (0, Some (sigandsets (blocked t) (signal t))) else (- EFAULT, None).

Definition sys_sigpending (t : task) (copied : bool) : Z * option Z :=
  if copied then (0, Some (Z.land (sig0 (blocked t)) (sig0 (signal t)))) else (- EFAULT, None).

Definition sys_sgetmask (t : task) : Z := sig0 (blocked t).

Definition sys_ssetmask (st : state) (cur : Z) (t : task) (newmask : Z) : Z * state :=
  (sig0 (blocked t), set_task st cur (recalc_sigpending (set_blocked t (siginitset (andn (u32 newmask) unblockable))))).

(** The end of [sys_rt_sigtimedwait]: the result, and the information if it could be
    stored; [uinfo] is null, or a pointer that can be written to or not; [timeout] is
    what was left of the sleep. *)
Definition wait_result (sig : Z) (info : siginfo) (uinfo : option bool) (timeout : Z) : Z * option siginfo :=
  if negb (sig =? 0) then
    match uinfo with
    | None => (sig, None)
    | Some true => (sig, Some info)
    | Some false => (- EFAULT, None)
    end
  else (if negb (timeout =? 0) then - EINTR else - EAGAIN, None).

(** The time to wait: null, not readable, or seconds and nanoseconds; the error. *)
Definition check_timespec (uts : option (option (Z * Z))) : Z :=
  match uts with
  | None => 0
  | Some None => - EFAULT
  | Some (Some (sec, nsec)) => if (1000000000 <=? nsec) || (nsec <? 0) || (sec <? 0) then - EINVAL else 0
  end.

(** [sys_rt_sigtimedwait] up to the sleep.  [these] is the argument, if readable.  The
    right result: the process sleeps, and will go on with the set and the old mask. *)
Definition sys_rt_sigtimedwait (st : state) (cur : Z) (t : task) (these : option sigset) (uts : option (option (Z * Z))) (uinfo : option bool)
    (size_ok : bool) : (Z * option siginfo * state) + (sigset * sigset * state) :=
  if negb size_ok then inl (- EINVAL, None, st)
  else match these with
  | None => inl (- EFAULT, None, st)
  | Some these =>
    let these := signotset these in
    if negb (check_timespec uts =? 0) then inl (check_timespec uts, None, st) else
    let '(sig, info, st') := dequeue_signal st cur t these false in
    if negb (sig =? 0) then inl (wait_result sig info uinfo 0, st')
    else
      let t' := recalc_sigpending (set_blocked t (sigandsets (blocked t) these)) in
      inr (these, blocked t, set_task st cur (with_state t' TASK_INTERRUPTIBLE))
  end.

(** After the sleep. *)
Definition sigtimedwait_second (st : state) (cur : Z) (t : task) (these old : sigset) (uinfo : option bool) (timeout : Z) : Z * option siginfo * state :=
  let '(sig, info, st) := dequeue_signal st cur t these false in
  let t := default t (tasks st !! cur) in
  (wait_result sig info uinfo timeout, set_task st cur (recalc_sigpending (set_blocked t old))).

(** ** Handlers *)

(** The queued signals with that number are removed, without a look at the tail. *)
Definition remove_queued (sig : Z) (q : list siginfo) : list siginfo := filter (fun i => si_signo i <> sig) q.

Definition tail_removed (sig : Z) (q : list siginfo) : bool :=
  match last q with Some i => si_signo i =? sig | None => false end.

(** The result and the old action. *)
Definition do_sigaction (st : state) (cur : Z) (t : task) (h sig : Z) (act : option k_sigaction) : Z * option k_sigaction * state :=
  if (sig <? 1) || (NSIG <? sig) || (if act is Some _ then (sig =? SIGKILL) || (sig =? SIGSTOP) else false)
  then (- EINVAL, None, st)
  else
  let oact := action st h sig in
  match act with
  | None => (0, Some oact, st)
  | Some act =>
    let k := Sigaction (sa_handler act) (sa_flags act) (sigdelsetmask (sa_mask act) unblockable) in
    let st := set_action st h sig k in
    if (sa_handler k =? SIG_IGN) ||
       ((sa_handler k =? SIG_DFL) && ((sig =? SIGCONT) || (sig =? SIGCHLD) || (sig =? SIGWINCH))) then
      let '(t, n) :=
        if (SIGRTMIN <=? sig) && sigismember (signal t) sig then
          (with_queue t (remove_queued sig (sigqueue t)) (tail_ok t && negb (tail_removed sig (sigqueue t))),
           nr_queued_signals st - (Z.of_nat (length (sigqueue t)) - Z.of_nat (length (remove_queued sig (sigqueue t)))))
        else (t, nr_queued_signals st) in
      (0, Some oact, set_queued (set_task st cur (recalc_sigpending (set_signal t (sigdelset (signal t) sig)))) n (lost st))
    else (0, Some oact, st)
  end.

(** [act]: null, not readable, or an action; [oact]: null, or writable or not. *)
Definition sys_rt_sigaction (st : state) (cur : Z) (t : task) (h sig : Z) (act : option (option k_sigaction)) (oact : option bool) (size_ok : bool)
  : Z * option k_sigaction * state :=
  if negb size_ok then (- EINVAL, None, st)
  else match act with
  | Some None => (- EFAULT, None, st)
  | _ =>
    let '(ret, old, st) := do_sigaction st cur t h sig (a ← act; a) in
    if (ret =? 0) && (if oact is Some false then true else false) then (- EFAULT, None, st)
    else (ret, if oact is Some true then old else None, st)
  end.

(** [mask] is what the local variable happens to contain. *)
Definition sys_signal (st : state) (cur : Z) (t : task) (h sig handler : Z) (mask : sigset) : Z * state :=
  let '(ret, old, st) := do_sigaction st cur t h sig (Some (Sigaction handler (Z.lor SA_ONESHOT SA_NODEFER) mask)) in
  (if negb (ret =? 0) then ret else match old with Some k => sa_handler k | None => 0 end, st).

Definition SS_ONSTACK : Z := 1.
Definition SS_DISABLE : Z := 2.
Definition MINSIGSTKSZ : Z := 2048.

Definition on_sig_stack (t : task) (sp : Z) : bool :=
  (sas_ss_sp t <=? sp) && (sp <? u32 (sas_ss_sp t + sas_ss_size t)).

Definition sas_ss_flags (t : task) (sp : Z) : Z :=
  if sas_ss_size t =? 0 then SS_DISABLE else if on_sig_stack t sp then SS_ONSTACK else 0.

Record stack_t := Stack { ss_sp : Z; ss_flags : Z; ss_size : Z }.

Definition do_sigaltstack (st : state) (cur : Z) (t : task) (uss : option (option stack_t)) (uoss : option bool) (sp : Z)
  : Z * option stack_t * state :=
  let oss := Stack (sas_ss_sp t) (sas_ss_flags t sp) (sas_ss_size t) in
  let store st :=
    match uoss with
    | None => (0, None, st)
    | Some true => (0, Some oss, st)
    | Some false => (- EFAULT, None, st)
    end in
  match uss with
  | None => store st
  | Some None => (- EFAULT, None, st)
  | Some (Some ss) =>
    if on_sig_stack t sp then (- EPERM, None, st)
    else if negb (Z.land (ss_flags ss) (Z.lnot SS_DISABLE) =? 0) then (- EINVAL, None, st)
    else if negb (Z.land (ss_flags ss) SS_DISABLE =? 0) then store (set_task st cur (with_stack t 0 0))
    else if ss_size ss <? MINSIGSTKSZ then (- ENOMEM, None, st)
    else store (set_task st cur (with_stack t (ss_sp ss) (ss_size ss)))
  end.

(** ** Delivery (arch/i370/kernel/signal.c) *)

(** The flag of the parent's action for SIGCHLD, if it has a table of handlers. *)
Definition nocldstop_of (st : state) (p : Z) : option bool :=
  t ← tasks st !! p; h ← sigh t; Some (negb (Z.land (sa_flags (action st h SIGCHLD)) SA_NOCLDSTOP =? 0)).

Definition exit_sighand (st : state) (p : Z) (t : task) : state := flush_signals st p (with_sigh t None).

(** What one turn of the loop of [i370_do_signal] comes to; after [Exit] the process
    has gone through the signal part of [do_exit]; after [Halted] the machine has
    stopped. *)
Inductive delivery :=
| NoSignal | Continue | TraceStop (signr : Z) (info : siginfo) | Stopped | Exit (code : Z) | Handler (sig handler : Z) | Halted.

(** The handler starts, with its mask.  [frame]: the frame could be written to the user's
    stack; if not, the process exits.  The frame for SA_SIGINFO is not implemented: the
    machine halts. *)
Definition handle_signal (st : state) (cur : Z) (t : task) (h sig : Z) (frame : bool) : delivery * state :=
  let ka := action st h sig in
  if negb (Z.land (sa_flags ka) SA_SIGINFO =? 0) then (Halted, st)
  else if negb frame then (Exit SIGSEGV, exit_sighand st cur (with_exit (with_state t TASK_ZOMBIE) SIGSEGV))
  else
    let handler := sa_handler ka in
    let st := if negb (Z.land (sa_flags ka) SA_ONESHOT =? 0) then set_action st h sig (Sigaction SIG_DFL (sa_flags ka) (sa_mask ka)) else st in
    let st := if Z.land (sa_flags ka) SA_NODEFER =? 0
              then set_task st cur (recalc_sigpending (set_blocked t (sigaddset (sigorsets (blocked t) (sa_mask ka)) sig)))
              else st in
    (Handler sig handler, st).

(** From the handler of the signal on; [orphaned] is [is_orphaned_pgrp], [dumped] the
    result of the core dump.  The children that are reaped when SIGCHLD is ignored
    are not modelled. *)
Definition act_on (st : state) (cur : Z) (admin : bool) (t : task) (signr : Z) (orphaned dumped : bool) (garbage : Z) (alloc frame : bool)
  : option (delivery * state) :=
  h ← sigh t;
  let ka := action st h signr in
  if sa_handler ka =? SIG_IGN then Some (Continue, st)
  else if sa_handler ka =? SIG_DFL then
    if cur =? 1 then Some (Continue, st)
    else if (signr =? SIGCONT) || (signr =? SIGCHLD) || (signr =? SIGWINCH) then Some (Continue, st)
    else if stop_signal signr then
      if negb (signr =? SIGSTOP) && orphaned then Some (Continue, st)
      else
        let st := set_task st cur (with_exit (with_state t TASK_STOPPED) signr) in
        nocldstop ← nocldstop_of st (p_pptr t);
        if (nocldstop : bool) then Some (Stopped, st)
        else '(_, st) ← notify_parent st cur admin cur SIGCHLD garbage alloc; Some (Stopped, st)
    else
      let core := (signr =? SIGQUIT) || (signr =? SIGILL) || (signr =? SIGTRAP) || (signr =? SIGABRT) || (signr =? SIGFPE) || (signr =? SIGSEGV) in
      let code := if core && dumped then Z.lor signr 0x80 else signr in
      let t := set_signal t (sigaddset (signal t) signr) in
      Some (Exit code, exit_sighand st cur (with_exit (with_state t TASK_ZOMBIE) code))
  else Some (handle_signal st cur t h signr frame).

Definition do_signal_turn (st : state) (cur : Z) (admin : bool) (orphaned dumped : bool) (garbage : Z) (alloc frame : bool) : option (delivery * state) :=
  t ← tasks st !! cur;
  let '(signr, info, st) := dequeue_signal st cur t (blocked t) true in
  t ← tasks st !! cur;
  if signr =? 0 then Some (NoSignal, st)
  else if ptraced t && negb (signr =? SIGKILL) then
    let st := set_task st cur (with_state (with_exit t signr) TASK_STOPPED) in
    '(_, st) ← notify_parent st cur admin cur SIGCHLD garbage alloc; Some (TraceStop signr info, st)
  else act_on st cur admin t signr orphaned dumped garbage alloc frame.

(** After the debugger has let the process go on. *)
Definition do_signal_traced (st : state) (cur : Z) (admin : bool) (info : siginfo) (orphaned dumped : bool) (garbage : Z) (alloc frame : bool)
  : option (delivery * state) :=
  t ← tasks st !! cur;
  let signr := exit_code t in
  if signr =? 0 then Some (Continue, st)
  else
    let t := with_exit t 0 in
    let st := set_task st cur t in
    if signr =? SIGSTOP then Some (Continue, st)
    else
      let info := if signr =? si_signo info then info
                  else Siginfo signr 0 SI_USER (p_pptr t) (match tasks st !! p_pptr t with Some q => uid q | None => 0 end) 0 in
      if sigismember (blocked t) signr then
        '(_, st) ← send_sig_info st cur admin signr (SendInfo info) cur alloc; Some (Continue, st)
      else act_on st cur admin t signr orphaned dumped garbage alloc frame.

(** What a turn needs to know of the rest of the system. *)
Record outside := Outside { o_admin : bool; o_orphaned : bool; o_dumped : bool; o_garbage : Z; o_alloc : bool; o_frame : bool }.

(** The loop of [i370_do_signal], one turn for each element of [env]; it ends when a handler
    starts, when no signal is left, and when the process exits.  A process that stops in
    it sleeps there and goes on with a new call. *)
Fixpoint i370_do_signal (env : list outside) (st : state) (cur : Z) : option (delivery * state) :=
  match env with
  | [] => Some (Continue, st)
  | e :: env =>
    '(d, st) ← do_signal_turn st cur (o_admin e) (o_orphaned e) (o_dumped e) (o_garbage e) (o_alloc e) (o_frame e);
    match d with Continue => i370_do_signal env st cur | _ => Some (d, st) end
  end.

(** The end of each system call, after the process has been rescheduled. *)
Definition ret_from_syscall (env : list outside) (st : state) (cur : Z) : option (delivery * state) :=
  t ← tasks st !! cur;
  if sigpending t then i370_do_signal env st cur else Some (NoSignal, st).

(** ** Creation and end of a process *)

(** What [do_fork] does for signals: [share] is CLONE_SIGHAND, [trace] CLONE_PTRACE; [h] is
    the new table. *)
Definition fork_signals (st : state) (cur child : Z) (t : task) (share trace : bool) (h : Z) : state :=
  let hc := if share then sigh t else Some h in
  let c := Task (pgrp t) (session t) false (uid t) (euid t) (suid t) cur TASK_RUNNING (ptraced t && trace) (exit_code t) hc
             (blocked t) sigemptyset false [] true (sas_ss_sp t) (sas_ss_size t) in
  let a := match sigh t with Some h0 => if share then action st else <[h := action st h0]> (action st) | None => action st end in
  State (<[child := c]> (tasks st)) (order st ++ [child]) a (nr_queued_signals st) (max_queued_signals st) (lost st) (waits st).

(** [release], once the process has exited. *)
Definition release_task (st : state) (p : Z) : state :=
  State (delete p (tasks st)) (filter (fun q => q <> p) (order st)) (action st) (nr_queued_signals st) (max_queued_signals st) (lost st) (waits st).
