(* ===== verification/SignalProof.v ===== *)
(** * Signals: sets as sets, the invariant, sending and delivery

    The operations on signal sets are shown to be those on sets of the numbers 1 to
    64; the invariant of [Signal] says what all reachable states have in common
    (signals that cannot be blocked, the summary flag, the queues). *)

From stdpp Require Import functions gmap.
From S2P Require Import Prelude Bitops Signal.

(** ** Signal sets *)

Definition is_sig (n : Z) : Prop := 1 <= n <= NSIG.

Definition is_word (w : Z) : Prop := 0 <= w < 2 ^ 32.

Definition set_ok (s : sigset) : Prop := is_word (sig0 s) /\ is_word (sig1 s).

Lemma sig_index n : is_sig n -> 0 <= (n - 1) mod NSIG_BPW < 32 /\ n = 32 * ((n - 1) / NSIG_BPW) + (n - 1) mod NSIG_BPW + 1 /\
  ((n - 1) / NSIG_BPW = 0 \/ (n - 1) / NSIG_BPW = 1).
Proof. unfold is_sig, NSIG, NSIG_BPW. intros. Z.to_euclidean_division_equations. lia. Qed.

Lemma sigismember_bit s n : is_sig n ->
  sigismember s n = Z.testbit (word_of s ((n - 1) / NSIG_BPW)) ((n - 1) mod NSIG_BPW).
Proof.
  intros Hn. destruct (sig_index n Hn) as (Hr & _ & _). unfold sigismember. rewrite Z.land_comm.
  rewrite (Z.land_ones (Z.shiftr _ _) 1 ltac:(lia) : Z.land (Z.shiftr _ _) 1 = _).
  rewrite <-(Z.bit0_mod (Z.shiftr _ _)), Z.shiftr_spec, Z.add_0_l by lia. by destruct (Z.testbit _ _).
Qed.

Lemma andn_bit a b i : 0 <= i < 32 -> Z.testbit (andn a b) i = Z.testbit a i && negb (Z.testbit b i).
Proof. intros. unfold andn. by rewrite Z.land_spec, u32_lnot_testbit. Qed.

Lemma andn_word a b : is_word a -> is_word (andn a b).
Proof. intros. apply land_word; [done|apply u32_range]. Qed.

Lemma shift_word k : 0 <= k < 32 -> is_word (Z.shiftl 1 k).
Proof. intros. rewrite Z.shiftl_1_l. split; [lia|]. apply Z.pow_lt_mono_r; lia. Qed.

Lemma word_on f i j s : (i = 0 \/ i = 1) -> (j = 0 \/ j = 1) -> word_of (on_word f i s) j = if i =? j then f (word_of s j) else word_of s j.
Proof. by intros [-> | ->] [-> | ->]. Qed.

Lemma on_word_ok f i s : set_ok s -> (forall w, is_word w -> is_word (f w)) -> set_ok (on_word f i s).
Proof. intros [H0 H1] Hf. unfold on_word. case_match; split; cbn; auto. Qed.

Lemma sigaddset_ok s n : is_sig n -> set_ok s -> set_ok (sigaddset s n).
Proof. intros Hn Hs. apply on_word_ok; [done|]. intros w Hw. apply lor_word; [done|]. apply shift_word. by apply sig_index. Qed.

Lemma sigdelset_ok s n : set_ok s -> set_ok (sigdelset s n).
Proof. intros Hs. apply on_word_ok; [done|]. intros w. apply andn_word. Qed.

Lemma sig_eq n m : is_sig n -> is_sig m ->
  (n =? m) = ((n - 1) / NSIG_BPW =? (m - 1) / NSIG_BPW) && ((n - 1) mod NSIG_BPW =? (m - 1) mod NSIG_BPW).
Proof.
  intros Hn Hm. destruct (sig_index n Hn) as (Hr & E & _). destruct (sig_index m Hm) as (Hr' & E' & _).
  destruct (n =? m) eqn:En; [assert (n = m) as -> by lia; by rewrite !Z.eqb_refl|].
  destruct (Z.eqb_spec ((n - 1) / NSIG_BPW) ((m - 1) / NSIG_BPW)); [|done]. simpl. lia.
Qed.

Lemma one_bit k i : 0 <= k -> 0 <= i -> Z.testbit (Z.shiftl 1 k) i = (k =? i).
Proof. intros. rewrite Z.shiftl_1_l, Z.pow2_bits_eqb by done. done. Qed.

Lemma mem_add s n m : is_sig n -> is_sig m -> sigismember (sigaddset s n) m = (n =? m) || sigismember s m.
Proof.
  intros Hn Hm. rewrite !sigismember_bit, sig_eq by done. unfold sigaddset.
  destruct (sig_index n Hn) as (Hr & _ & Hq). destruct (sig_index m Hm) as (Hr' & _ & Hq').
  rewrite word_on by done. destruct (_ =? (m - 1) / NSIG_BPW); simpl; [|done].
  rewrite Z.lor_spec, one_bit by lia. apply orb_comm.
Qed.

Lemma mem_del s n m : is_sig n -> is_sig m -> sigismember (sigdelset s n) m = negb (n =? m) && sigismember s m.
Proof.
  intros Hn Hm. rewrite !sigismember_bit, sig_eq by done. unfold sigdelset.
  destruct (sig_index n Hn) as (Hr & _ & Hq). destruct (sig_index m Hm) as (Hr' & _ & Hq').
  rewrite word_on by done. destruct (_ =? (m - 1) / NSIG_BPW); simpl; [|done].
  rewrite andn_bit, one_bit by lia. apply andb_comm.
Qed.

Lemma mem_or a b n : is_sig n -> sigismember (sigorsets a b) n = sigismember a n || sigismember b n.
Proof. intros Hn. rewrite !sigismember_bit by done. destruct (sig_index n Hn) as (_ & _ & [-> | ->]); apply Z.lor_spec. Qed.

Lemma mem_and a b n : is_sig n -> sigismember (sigandsets a b) n = sigismember a n && sigismember b n.
Proof. intros Hn. rewrite !sigismember_bit by done. destruct (sig_index n Hn) as (_ & _ & [-> | ->]); apply Z.land_spec. Qed.

Lemma mem_nand a b n : is_sig n -> sigismember (signandsets a b) n = sigismember a n && negb (sigismember b n).
Proof.
  intros Hn. rewrite !sigismember_bit by done. destruct (sig_index n Hn) as (Hr & _ & [-> | ->]); by apply andn_bit.
Qed.

Lemma mem_not s n : is_sig n -> sigismember (signotset s) n = negb (sigismember s n).
Proof.
  intros Hn. rewrite !sigismember_bit by done. destruct (sig_index n Hn) as (Hr & _ & [-> | ->]); by apply u32_lnot_testbit.
Qed.

Lemma mem_empty n : is_sig n -> sigismember sigemptyset n = false.
Proof. intros Hn. rewrite sigismember_bit by done. destruct (sig_index n Hn) as (_ & _ & [-> | ->]); apply Z.bits_0. Qed.

(** The mask of some of the first 32 signals. *)
Definition in_mask (mask n : Z) : bool := (n <=? 32) && Z.testbit mask (n - 1).

Lemma low_index n : is_sig n -> n <= 32 -> (n - 1) / NSIG_BPW = 0 /\ (n - 1) mod NSIG_BPW = n - 1.
Proof. unfold is_sig, NSIG_BPW. intros. split; [apply Z.div_small|apply Z.mod_small]; lia. Qed.

Lemma high_index n : is_sig n -> 32 < n -> (n - 1) / NSIG_BPW = 1.
Proof. unfold is_sig, NSIG, NSIG_BPW. intros. symmetry. apply (Z.div_unique _ _ 1 (n - 33)); lia. Qed.

Lemma mem_delmask s mask n : is_sig n -> sigismember (sigdelsetmask s mask) n = sigismember s n && negb (in_mask mask n).
Proof.
  intros Hn. rewrite !sigismember_bit by done. unfold in_mask. destruct (n <=? 32) eqn:E.
  - destruct (low_index n Hn ltac:(lia)) as [-> ->]. apply andn_bit. unfold is_sig in Hn. lia.
  - rewrite (high_index n Hn ltac:(lia)). simpl. by rewrite andb_true_r.
Qed.

Lemma mem_addmask s mask n : is_sig n -> sigismember (sigaddsetmask s mask) n = sigismember s n || in_mask mask n.
Proof.
  intros Hn. rewrite !sigismember_bit by done. unfold in_mask. destruct (n <=? 32) eqn:E.
  - destruct (low_index n Hn ltac:(lia)) as [-> ->]. apply Z.lor_spec.
  - rewrite (high_index n Hn ltac:(lia)). simpl. by rewrite orb_false_r.
Qed.

Lemma sigdelsetmask_ok s mask : set_ok s -> set_ok (sigdelsetmask s mask).
Proof. intros [H0 H1]. split; [by apply andn_word|done]. Qed.

Lemma sigaddsetmask_ok s mask : is_word mask -> set_ok s -> set_ok (sigaddsetmask s mask).
Proof. intros Hm [H0 H1]. split; [by apply lor_word|done]. Qed.

Lemma sigorsets_ok a b : set_ok a -> set_ok b -> set_ok (sigorsets a b).
Proof. intros [? ?] [? ?]. split; by apply lor_word. Qed.

Lemma sigandsets_ok a b : set_ok a -> set_ok b -> set_ok (sigandsets a b).
Proof. intros [? ?] [? ?]. split; by apply land_word. Qed.

Lemma signandsets_ok a b : set_ok a -> set_ok (signandsets a b).
Proof. intros [? ?]. split; by apply andn_word. Qed.

Lemma signotset_ok a : set_ok (signotset a).
Proof. split; apply u32_range. Qed.

Lemma word_nonzero w : is_word w -> w <> 0 -> exists i, 0 <= i < 32 /\ Z.testbit w i = true.
Proof.
  intros Hw Hn. destruct (Z.testbit w (Z.log2 w)) eqn:E; [|rewrite Z.bit_log2 in E by (unfold is_word in Hw; lia); done].
  exists (Z.log2 w). split; [|done]. split; [apply Z.log2_nonneg|]. apply Z.log2_lt_pow2; unfold is_word in Hw; lia.
Qed.

(** The signals in [s] that are not in [mask]. *)
Definition deliverable (s mask : sigset) (n : Z) : Prop := is_sig n /\ sigismember s n = true /\ sigismember mask n = false.

Lemma deliverable_bit s mask n : is_sig n ->
  deliverable s mask n <-> Z.testbit (andn (word_of s ((n - 1) / NSIG_BPW)) (word_of mask ((n - 1) / NSIG_BPW))) ((n - 1) mod NSIG_BPW) = true.
Proof.
  intros Hn. destruct (sig_index n Hn) as (Hr & _ & _). rewrite andn_bit by done. unfold deliverable.
  rewrite !sigismember_bit by done. rewrite andb_true_iff, negb_true_iff. tauto.
Qed.

Lemma word_sig q i : 0 <= q <= 1 -> 0 <= i < 32 -> is_sig (32 * q + i + 1) /\
  (32 * q + i + 1 - 1) / NSIG_BPW = q /\ (32 * q + i + 1 - 1) mod NSIG_BPW = i.
Proof.
  intros. unfold is_sig, NSIG, NSIG_BPW. split; [lia|]. replace (32 * q + i + 1 - 1) with (i + q * 32) by lia.
  rewrite Z.div_add, Z.mod_add, Z.div_small, Z.mod_small by lia. lia.
Qed.

Lemma word_deliverable s mask q : 0 <= q <= 1 -> set_ok s ->
  andn (word_of s q) (word_of mask q) <> 0 <-> exists i, 0 <= i < 32 /\ deliverable s mask (32 * q + i + 1).
Proof.
  intros Hq Hs. assert (Hw : is_word (andn (word_of s q) (word_of mask q))).
  { apply andn_word. destruct Hs. unfold word_of. by case_match. }
  split.
  - intros (i & Hi & Hb)%word_nonzero; [|done]. exists i. split; [done|].
    destruct (word_sig q i Hq Hi) as (Hv & E1 & E2). apply deliverable_bit; [done|]. by rewrite E1, E2.
  - intros (i & Hi & Hd) E. destruct (word_sig q i Hq Hi) as (Hv & E1 & E2).
    apply deliverable_bit in Hd; [|done]. rewrite E1, E2, E, Z.bits_0 in Hd. done.
Qed.

Lemma word_lowest s mask q : 0 <= q <= 1 -> set_ok s -> andn (word_of s q) (word_of mask q) <> 0 ->
  let n := 32 * q + 1 + ffz (u32 (Z.lnot (andn (word_of s q) (word_of mask q)))) in
  deliverable s mask n /\ 32 * q < n <= 32 * q + 32 /\ forall k, 32 * q < k -> deliverable s mask k -> n <= k.
Proof.
  intros Hq Hs Hn. set (x := andn (word_of s q) (word_of mask q)) in *.
  destruct (proj1 (word_deliverable s mask q Hq Hs) Hn) as (i & Hi & Hd).
  destruct (word_sig q i Hq Hi) as (Hv & E1 & E2). apply deliverable_bit in Hd; [|done]. rewrite E1, E2 in Hd. fold x in Hd.
  destruct (ffz_spec (u32 (Z.lnot x))) as (Hf & Hb & Hl).
  { exists i. split; [done|]. by rewrite u32_lnot_testbit, Hd. }
  set (f := ffz (u32 (Z.lnot x))) in *. rewrite u32_lnot_testbit in Hb by done. apply negb_false_iff in Hb.
  destruct (word_sig q f Hq Hf) as (Hv' & E1' & E2').
  replace (32 * q + 1 + f) with (32 * q + f + 1) by lia. split_and!; [|lia|lia|].
  - apply deliverable_bit; [done|]. by rewrite E1', E2'.
  - intros k Hk Hdk. destruct (decide (k < 32 * q + f + 1)) as [Hlt|]; [|lia]. exfalso.
    assert (exists j, 0 <= j < 32 /\ k = 32 * q + j + 1) as (j & Hj & ->) by (exists (k - 32 * q - 1); lia).
    destruct (word_sig q j Hq Hj) as (Hvj & Ej1 & Ej2). apply deliverable_bit in Hdk; [|done].
    rewrite Ej1, Ej2 in Hdk. fold x in Hdk. specialize (Hl j ltac:(lia)). rewrite u32_lnot_testbit, Hdk in Hl by done. done.
Qed.

Lemma next_signal_some s mask : set_ok s -> next_signal s mask <> 0 ->
  deliverable s mask (next_signal s mask) /\ forall k, deliverable s mask k -> next_signal s mask <= k.
Proof.
  intros Hs. unfold next_signal. destruct (Z.eqb_spec (andn (sig0 s) (sig0 mask)) 0) as [E0|E0]; simpl.
  - destruct (Z.eqb_spec (andn (sig1 s) (sig1 mask)) 0) as [E1|E1]; simpl; [done|]. intros _.
    destruct (word_lowest s mask 1 ltac:(lia) Hs E1) as (Hd & _ & Hk). split; [done|]. intros k Hdk. apply Hk; [|done].
    destruct (decide (32 * 1 < k)); [done|]. exfalso.
    apply (proj2 (word_deliverable s mask 0 ltac:(lia) Hs)); [|done].
    exists (k - 1). destruct Hdk as [Hv ?]. unfold is_sig in Hv. split; [lia|]. replace (32 * 0 + (k - 1) + 1) with k by lia. done.
  - intros _. destruct (word_lowest s mask 0 ltac:(lia) Hs E0) as (Hd & _ & Hk). split; [done|]. intros k Hdk. apply Hk; [|done].
    destruct Hdk as [Hv _]. unfold is_sig in Hv. lia.
Qed.

Lemma next_signal_none s mask : set_ok s -> next_signal s mask = 0 -> forall k, ~ deliverable s mask k.
Proof.
  intros Hs. unfold next_signal. destruct (Z.eqb_spec (andn (sig0 s) (sig0 mask)) 0) as [E0|E0]; simpl.
  - destruct (Z.eqb_spec (andn (sig1 s) (sig1 mask)) 0) as [E1|E1]; simpl.
    + intros _ k Hd. pose proof Hd as [Hv _]. apply deliverable_bit in Hd; [|done].
      destruct (sig_index k Hv) as (_ & _ & [E|E]); rewrite E in Hd; unfold word_of in Hd; simpl in Hd;
        rewrite ?E0, ?E1, Z.bits_0 in Hd; done.
    + destruct (word_lowest s mask 1 ltac:(lia) Hs E1) as (_ & Hr & _). unfold NSIG_BPW. unfold word_of in Hr. simpl in Hr. lia.
  - destruct (word_lowest s mask 0 ltac:(lia) Hs E0) as (_ & Hr & _). unfold word_of in Hr. simpl in Hr. lia.
Qed.

Definition ready (t : task) : Prop := exists n, deliverable (signal t) (blocked t) n.

Lemma recalc_ready t : set_ok (signal t) -> sigpending (recalc_sigpending t) = true <-> ready t.
Proof.
  intros Hs. unfold recalc_sigpending, ready. cbn. rewrite negb_true_iff, Z.eqb_neq, Z.lor_eq_0_iff. split.
  - intros Hne. destruct (Z.eq_dec (andn (sig0 (signal t)) (sig0 (blocked t))) 0) as [E0|E0].
    + destruct (proj1 (word_deliverable (signal t) (blocked t) 1 ltac:(lia) Hs)) as (i & _ & Hd); [cbn; tauto|]. eauto.
    + destruct (proj1 (word_deliverable (signal t) (blocked t) 0 ltac:(lia) Hs)) as (i & _ & Hd); [cbn; tauto|]. eauto.
  - intros (n & Hd) [E1 E0]. pose proof Hd as [Hv _]. apply deliverable_bit in Hd; [|done].
    destruct (sig_index n Hv) as (_ & _ & [E|E]); rewrite E in Hd; unfold word_of in Hd; simpl in Hd;
      rewrite ?E0, ?E1, Z.bits_0 in Hd; done.
Qed.

(** ** The invariant *)

(** A mask without SIGKILL and SIGSTOP. *)
Definition mask_ok (s : sigset) : Prop := set_ok s /\ sigismember s SIGKILL = false /\ sigismember s SIGSTOP = false.

Record task_ok (t : task) : Prop := {
  tk_blocked : mask_ok (blocked t);
  tk_signal : set_ok (signal t);
  tk_pending : sigpending t = true <-> ready t;
  tk_queue : Forall (fun i => SIGRTMIN <= si_signo i <= NSIG /\ sigismember (signal t) (si_signo i) = true) (sigqueue t);
  tk_zombie : sigh t = None -> sigqueue t = [] }.

Record state_ok (st : state) : Prop := {
  ok_tasks : map_Forall (fun _ t => task_ok t) (tasks st);
  ok_masks : forall h n, is_sig n -> mask_ok (sa_mask (action st h n));
  ok_fixed : forall h, sa_handler (action st h SIGKILL) = SIG_DFL /\ sa_handler (action st h SIGSTOP) = SIG_DFL;
  ok_queued : nr_queued_signals st = msum (fun t => Z.of_nat (length (sigqueue t))) (tasks st) + lost st;
  ok_lost : 0 <= lost st;
  ok_waits : map_Forall (fun _ w => set_ok w.1 /\ mask_ok w.2) (waits st) }.

Lemma sig_kill : is_sig SIGKILL.
Proof. unfold is_sig, SIGKILL, NSIG. lia. Qed.

Lemma sig_stop : is_sig SIGSTOP.
Proof. unfold is_sig, SIGSTOP, NSIG. lia. Qed.

#[export] Hint Resolve sig_kill sig_stop sigdelset_ok sigdelsetmask_ok sigandsets_ok signandsets_ok signotset_ok sigorsets_ok : kernel.

(** A task is replaced by another whose queue has changed with the counter. *)
Lemma ok_set_task st st' p t t' :
  state_ok st -> tasks st !! p = Some t -> task_ok t' ->
  tasks st' = <[p := t']> (tasks st) -> action st' = action st -> waits st' = waits st ->
  (nr_queued_signals st' - lost st') - (nr_queued_signals st - lost st) = Z.of_nat (length (sigqueue t')) - Z.of_nat (length (sigqueue t)) ->
  lost st <= lost st' -> state_ok st'.
Proof.
  intros [H1 H2 H3 H4 H5 H6] Hp Hok Et Ea Ew Eq El. constructor; rewrite ?Et, ?Ea, ?Ew; try done.
  - by apply map_Forall_insert_2.
  - rewrite (msum_update _ _ p t t' Hp). lia.
  - lia.
Qed.

(** The sets of a task change; the queue stays. *)
Lemma ok_set_sets st p t t' :
  state_ok st -> tasks st !! p = Some t -> task_ok t' -> length (sigqueue t') = length (sigqueue t) -> state_ok (set_task st p t').
Proof. intros Hst Hp Hok Hq. eapply (ok_set_task st _ p t t'); cbn; try done; lia. Qed.

Lemma mask_del b n : is_sig n -> mask_ok b -> mask_ok (sigdelset b n).
Proof.
  intros Hn (Hb & Hk & Hs). split; [by apply sigdelset_ok|]. rewrite !mem_del by auto with kernel. by rewrite Hk, Hs, !andb_false_r.
Qed.

Lemma mask_delmask s : set_ok s -> mask_ok (sigdelsetmask s unblockable).
Proof.
  intros Hs. split; [by apply sigdelsetmask_ok|]. rewrite !mem_delmask by auto with kernel.
  change (in_mask unblockable SIGKILL) with true. change (in_mask unblockable SIGSTOP) with true. by rewrite !andb_false_r.
Qed.

Lemma mask_or a b : mask_ok a -> mask_ok b -> mask_ok (sigorsets a b).
Proof.
  intros (Ha & Hk & Hs) (Hb & Hk' & Hs'). split; [by apply sigorsets_ok|]. rewrite !mem_or by auto with kernel.
  by rewrite Hk, Hs, Hk', Hs'.
Qed.

Lemma mask_nand a b : mask_ok a -> mask_ok (signandsets a b).
Proof. intros (Ha & Hk & Hs). split; [by apply signandsets_ok|]. rewrite !mem_nand by auto with kernel. by rewrite Hk, Hs. Qed.

Lemma mask_and a b : mask_ok a -> set_ok b -> mask_ok (sigandsets a b).
Proof. intros (Ha & Hk & Hs) Hb. split; [by apply sigandsets_ok|]. rewrite !mem_and by auto with kernel. by rewrite Hk, Hs. Qed.

(** Changing the mask, with the flag computed anew. *)
Lemma task_mask t b : task_ok t -> mask_ok b -> task_ok (recalc_sigpending (set_blocked t b)).
Proof.
  intros [H1 H2 H3 H4 H5] Hb. constructor; try done. rewrite recalc_ready by done. done.
Qed.

(** Taking a signal off the set that is not queued. *)
Lemma task_signal t s :
  task_ok t -> set_ok s -> (forall i, i ∈ sigqueue t -> sigismember s (si_signo i) = true) -> task_ok (recalc_sigpending (set_signal t s)).
Proof.
  intros [H1 H2 H3 H4 H5] Hs Hq. constructor; try done; [by rewrite recalc_ready|]. cbn.
  rewrite Forall_forall in *. intros i Hi. split; [by apply H4|by apply Hq].
Qed.

Lemma sig_rt n : SIGRTMIN <= n <= NSIG -> is_sig n.
Proof. unfold SIGRTMIN, NSIG, is_sig, NSIG. lia. Qed.

Lemma task_queued t i : task_ok t -> i ∈ sigqueue t -> SIGRTMIN <= si_signo i <= NSIG /\ is_sig (si_signo i) /\ sigismember (signal t) (si_signo i) = true.
Proof. intros Ht Hi. pose proof (tk_queue t Ht) as Hq. rewrite Forall_forall in Hq. destruct (Hq i Hi). split; [done|]. split; [by apply sig_rt|done]. Qed.

(** ** Delivery keeps the invariant *)

Lemma split_queue_some sig q a i b : split_queue sig q = Some (a, i, b) -> q = a ++ i :: b /\ si_signo i = sig /\ Forall (fun x => si_signo x <> sig) a.
Proof.
  revert a. induction q as [|x q IH]; intros a; simpl; [done|]. destruct (Z.eqb_spec (si_signo x) sig).
  - intros [= <- <- <-]. done.
  - destruct (split_queue sig q) as [[[a' i'] b']|]; [|done]. intros [= <- <- <-].
    destruct (IH a' eq_refl) as (-> & E & Hf). split_and!; [done|done|]. by constructor.
Qed.

Lemma split_queue_none sig q : split_queue sig q = None -> Forall (fun x => si_signo x <> sig) q.
Proof.
  induction q as [|x q IH]; simpl; [done|]. destruct (Z.eqb_spec (si_signo x) sig); [done|].
  destruct (split_queue sig q) as [[[a i] b]|]; [done|]. intros _. constructor; auto.
Qed.

Lemma is_queued_false sig q : is_queued sig q = false -> Forall (fun x => si_signo x <> sig) q.
Proof.
  induction q as [|x q IH]; simpl; [done|]. intros [E ?]%orb_false_iff. constructor; [lia|auto].
Qed.

(** The signal [n] leaves the set, no such signal being queued. *)
Lemma task_del t n : is_sig n -> task_ok t -> Forall (fun x => si_signo x <> n) (sigqueue t) ->
  task_ok (recalc_sigpending (set_signal t (sigdelset (signal t) n))).
Proof.
  intros Hn Ht Hf. apply task_signal; [done|apply sigdelset_ok, Ht|]. intros i Hi.
  destruct (task_queued t i Ht Hi) as (_ & Hs & Hm). rewrite mem_del, Hm by done.
  rewrite Forall_forall in Hf. specialize (Hf i Hi). rewrite andb_true_r. apply negb_true_iff. lia.
Qed.

Lemma task_queue t q ok : task_ok t -> (forall i, i ∈ q -> i ∈ sigqueue t) -> (sigh t = None -> q = []) -> task_ok (with_queue t q ok).
Proof.
  intros [H1 H2 H3 H4 H5] Hq Hz. constructor; try done. cbn. rewrite Forall_forall in *. auto.
Qed.

Lemma ok_dequeue_signal st p t mask is_blocked sig info st' :
  state_ok st -> tasks st !! p = Some t -> (is_blocked = true -> mask = blocked t) ->
  dequeue_signal st p t mask is_blocked = (sig, info, st') ->
  state_ok st' /\ exists t', tasks st' = <[p := t']> (tasks st) /\ action st' = action st /\ waits st' = waits st /\
    blocked t' = blocked t /\ sigh t' = sigh t /\ tstate t' = tstate t /\ ptraced t' = ptraced t /\ p_pptr t' = p_pptr t.
Proof.
  intros Hst Hp Hmask. pose proof (ok_tasks st Hst p t Hp) as Ht. pose proof (tk_signal t Ht) as Hs. unfold dequeue_signal.
  destruct (Z.eqb_spec (next_signal (signal t) mask) 0) as [E|E]; cbn [negb].
  - intros [= <- <- <-]. destruct (is_blocked && sigpending t) eqn:Eb.
    + exfalso. apply andb_true_iff in Eb as [Eb Hpend]. apply (tk_pending t Ht) in Hpend as [n Hd].
      rewrite (Hmask Eb) in E. by apply (next_signal_none _ _ Hs E n).
    + split; [done|]. exists t. by rewrite insert_id.
  - destruct (next_signal_some (signal t) mask Hs E) as [(Hn & Hm & _) _]. set (n := next_signal (signal t) mask) in *.
    assert (Hdel : Forall (fun x => si_signo x <> n) (sigqueue t) ->
      state_ok (set_task st p (recalc_sigpending (set_signal t (sigdelset (signal t) n))))).
    { intros Hf. eapply ok_set_sets; try done. by apply task_del. }
    destruct (n <? SIGRTMIN) eqn:Ert.
    + intros [= <- <- <-]. split; [|by eexists]. apply Hdel. rewrite Forall_forall. intros i Hi.
      destruct (task_queued t i Ht Hi) as (? & _). lia.
    + destruct (split_queue n (sigqueue t)) as [[[a i] b]|] eqn:Es.
      * apply split_queue_some in Es as (Eq & Ei & Ha). intros [= <- <- <-].
        assert (Hq : task_ok (with_queue t (a ++ b) (match b with [] => true | _ => tail_ok t end))).
        { apply task_queue; [done|rewrite Eq; set_solver|]. intros Hz. rewrite (tk_zombie t Ht Hz) in Eq.
          by destruct a. }
        assert (Hlen : Z.of_nat (length (sigqueue t)) = Z.of_nat (length (a ++ b)) + 1) by (rewrite Eq, !length_app; cbn; lia).
        split.
        -- eapply (ok_set_task st _ p t); [done|done| |done|done|done| |done].
           ++ destruct (is_queued n b) eqn:Eb.
              ** apply (task_signal (with_queue t (a ++ b) _) (signal t)); [done|done|].
                 intros x Hx. by apply (task_queued _ x Hq Hx).
              ** apply (task_del (with_queue t (a ++ b) _) n); [done|done|]. apply Forall_app. split; [done|by apply is_queued_false].
           ++ cbn. destruct (is_queued n b); cbn; lia.
        -- eexists. split_and!; try reflexivity; by destruct (is_queued n b).
      * intros [= <- <- <-]. split; [|by eexists]. apply Hdel. by apply split_queue_none.
Qed.

(** ** Sending keeps the invariant *)

Lemma task_with_state t s : task_ok t -> task_ok (with_state t s).
Proof. intros [H1 H2 H3 H4 H5]. by constructor. Qed.

Lemma task_with_exit t c : task_ok t -> task_ok (with_exit t c).
Proof. intros [H1 H2 H3 H4 H5]. by constructor. Qed.

Lemma stop_mask_rt n : SIGRTMIN <= n <= NSIG ->
  in_mask (Z.lor (Z.lor (Z.lor (sigmask SIGSTOP) (sigmask SIGTSTP)) (sigmask SIGTTOU)) (sigmask SIGTTIN)) n = false.
Proof.
  intros Hn. unfold in_mask. destruct (n <=? 32) eqn:E; [|done]. assert (n = 32) as -> by (unfold SIGRTMIN in Hn; lia). reflexivity.
Qed.

Lemma task_stop_or_continue sig t : task_ok t -> task_ok (stop_or_continue sig t) /\ sigqueue (stop_or_continue sig t) = sigqueue t.
Proof.
  intros Ht. unfold stop_or_continue. destruct (_ || _).
  - split; [|by destruct (_ =? TASK_STOPPED)].
    assert (Ht' : task_ok (with_exit (if tstate t =? TASK_STOPPED then wake_up_process t else t) 0)).
    { apply task_with_exit. destruct (_ =? _); [by apply task_with_state|done]. }
    apply task_signal; [done|apply sigdelsetmask_ok, Ht'|]. intros i Hi. destruct (task_queued _ i Ht' Hi) as (Hr & Hs & Hm).
    rewrite mem_delmask, Hm, stop_mask_rt by done. done.
  - destruct (stop_signal sig); [|done]. split; [|done]. apply task_del; [by_decide|done|].
    rewrite Forall_forall. intros i Hi. destruct (task_queued t i Ht Hi) as (Hr & _). unfold SIGRTMIN, SIGCONT in *. lia.
Qed.

(** The signal is added to the set, after its information to the queue. *)
Lemma task_mark t q sig :
  task_ok t -> is_sig sig -> Forall (fun i => i ∈ sigqueue t \/ (si_signo i = sig /\ SIGRTMIN <= sig)) q ->
  (sigh t = None -> q = []) -> task_ok (mark_pending (with_queue t q (tail_ok t)) sig).
Proof.
  intros [H1 H2 H3 H4 H5] Hs Hq Hz. constructor; try done.
  - cbn. by apply sigaddset_ok.
  - unfold mark_pending, ready. cbn. destruct (sigismember (blocked t) sig) eqn:Eb.
    + rewrite H3. unfold ready, deliverable. split; intros (n & Hn & Hm & Hb); exists n.
      * rewrite mem_add, Hm, orb_true_r by done. done.
      * rewrite mem_add in Hm by done. destruct (Z.eqb_spec sig n) as [->|]; [congruence|done].
    + split; [|done]. intros _. exists sig. split_and!; [apply Hs..| |done]. rewrite mem_add, Z.eqb_refl by done. done.
  - cbn. rewrite Forall_forall in *. intros i Hi. destruct (Hq i Hi) as [Hi'|[-> ?]].
    + destruct (H4 i Hi') as [Hr Hm]. split; [done|]. rewrite mem_add, Hm, orb_true_r by (done || by apply sig_rt). done.
    + split; [unfold is_sig in Hs; lia|]. rewrite mem_add, Z.eqb_refl by done. done.
Qed.

Lemma task_mark_only t sig : task_ok t -> is_sig sig -> task_ok (mark_pending t sig).
Proof.
  intros Ht Hs. pose proof (task_mark t (sigqueue t) sig Ht Hs) as H. unfold with_queue in H.
  destruct t; cbn in *. apply H; [|by apply (tk_zombie _ Ht)]. apply Forall_forall. auto.
Qed.

Lemma ok_notify st p t t' :
  state_ok st -> tasks st !! p = Some t -> task_ok t' -> length (sigqueue t') = length (sigqueue t) -> state_ok (notify_task st p t').
Proof.
  intros Hst Hp Hok Hq. unfold notify_task. eapply ok_set_sets; try done; destruct (_ && _); try done. by apply task_with_state.
Qed.

Definition info_ok (sig : Z) (info : sender) : Prop := match info with SendInfo i => si_signo i = sig | _ => True end.

Lemma queued_signo cur c sig info : info_ok sig info -> si_signo (queued_info cur c sig info) = sig.
Proof. by destruct info. Qed.

Lemma ok_send_sig_info st cur admin sig info p alloc r st' :
  state_ok st -> info_ok sig info -> send_sig_info st cur admin sig info p alloc = Some (r, st') -> state_ok st'.
Proof.
  intros Hst Hinfo. unfold send_sig_info. destruct (tasks st !! cur) as [c|]; [|by intros [= <- <-]].
  destruct (tasks st !! p) as [t|] eqn:Hp; [|by intros [= <- <-]].
  destruct (_ || _) eqn:Er; [by intros [= <- <-]|]. destruct (negb _); [by intros [= <- <-]|].
  destruct ((sig =? 0) || _) eqn:E0; [by intros [= <- <-]|].
  apply orb_false_iff in Er as [Er1 Er2]. apply orb_false_iff in E0 as [E0 Eh].
  assert (Hs : is_sig sig) by (unfold is_sig; lia).
  assert (Hsome : sigh t <> None) by (by destruct (sigh t)).
  pose proof (ok_tasks st Hst p t Hp) as Ht. destruct (task_stop_or_continue sig t Ht) as [Ht' Hq].
  assert (Hh : sigh (stop_or_continue sig t) = sigh t).
  { unfold stop_or_continue. repeat case_match; done. }
  set (t1 := stop_or_continue sig t) in *.
  assert (Hmark : state_ok (notify_task st p (mark_pending t1 sig))).
  { eapply ok_notify; try done; [by apply task_mark_only|by cbn; rewrite Hq]. }
  assert (Hkeep : state_ok (notify_task st p t1)) by (eapply ok_notify; try done; by rewrite Hq).
  destruct (ignored_signal st sig t1); [by intros [= <- <-]|].
  destruct (sig <? SIGRTMIN) eqn:Ert; [intros [= <- <-]; by destruct (sigismember (signal t1) sig)|].
  destruct (_ && _).
  - intros [= <- <-].
    destruct (tail_ok t1) eqn:Etail.
    + assert (Hnew : task_ok (mark_pending (with_queue t1 (sigqueue t1 ++ [queued_info cur c sig info]) true) sig)).
      { rewrite <-Etail. apply task_mark; [done|done| |by rewrite Hh].
        apply Forall_app. split; [apply Forall_forall; auto|]. apply Forall_singleton. right. rewrite queued_signo by done. split; [done|lia]. }
      unfold notify_task. eapply (ok_set_task st _ p t); [done|done| |done|done|done| |done].
      * destruct (_ && _); [by apply task_with_state|done].
      * destruct (_ && _); cbn; rewrite length_app, Hq; cbn; lia.
    + unfold notify_task. eapply (ok_set_task st _ p t); [done|done| |done|done|done| |cbn; lia].
      * destruct (_ && _); [apply task_with_state|]; by apply task_mark_only.
      * destruct (_ && _); cbn; rewrite Hq; cbn; lia.
  - destruct info as [| |i]; [done|done|]. destruct (si_code i <? 0); intros E; injection E as _ <-; done.
Qed.

Lemma ok_set_action st h n ka :
  state_ok st -> is_sig n -> mask_ok (sa_mask ka) -> (n = SIGKILL \/ n = SIGSTOP -> sa_handler ka = SIG_DFL) -> state_ok (set_action st h n ka).
Proof.
  intros [H1 H2 H3 H4 H5 H6] Hn Hm Hd.
  assert (Hlook : forall h' n', action (set_action st h n ka) h' n' = ka /\ h' = h /\ n' = n \/ action (set_action st h n ka) h' n' = action st h' n').
  { intros h' n'. cbn. destruct (decide (h = h')) as [<-|]; [|rewrite fn_lookup_insert_ne by done; by right].
    rewrite fn_lookup_insert. destruct (decide (n = n')) as [<-|]; [rewrite fn_lookup_insert; by left|].
    rewrite fn_lookup_insert_ne by done. by right. }
  constructor; try done.
  - intros h' n' Hn'. destruct (Hlook h' n') as [(-> & _)| ->]; auto.
  - intros h'. split.
    + destruct (Hlook h' SIGKILL) as [(-> & _ & E)| ->]; [auto|apply H3].
    + destruct (Hlook h' SIGSTOP) as [(-> & _ & E)| ->]; [auto|apply H3].
Qed.

(** [force_sig_info] keeps the invariant unless the signal was pending and blocked. *)
Lemma ok_force_sig_info st cur admin sig info p alloc r st' :
  state_ok st -> info_ok sig info -> is_sig sig ->
  (forall t, tasks st !! p = Some t -> sigismember (signal t) sig && sigismember (blocked t) sig = false) ->
  force_sig_info st cur admin sig info p alloc = Some (r, st') -> state_ok st'.
Proof.
  intros Hst Hinfo Hs Hfresh. unfold force_sig_info. destruct (tasks st !! p) as [t|] eqn:Hp; [|by intros [= <- <-]].
  destruct (sigh t) as [h|] eqn:Eh; [|by intros [= <- <-]]. specialize (Hfresh t eq_refl).
  apply ok_send_sig_info; [|done]. pose proof (ok_tasks st Hst p t Hp) as Ht.
  assert (Hact : state_ok (if sa_handler (action st h sig) =? SIG_IGN then set_action st h sig (Sigaction SIG_DFL (sa_flags (action st h sig)) (sa_mask (action st h sig))) else st)).
  { destruct (_ =? SIG_IGN); [|done]. apply ok_set_action; [done|done|by apply Hst|done]. }
  eapply (ok_set_sets _ p t); [done|by destruct (_ =? SIG_IGN)| |done].
  destruct Ht as [[B1 B2] H2 H3 H4 H5]. constructor; try done; [by apply mask_del|]. cbn. rewrite H3.
  unfold ready, deliverable. cbn. split; intros (n & Hn & Hm & Hb); exists n; (split; [done|split; [done|]]).
  - rewrite mem_del, Hb, andb_false_r by done. done.
  - rewrite mem_del in Hb by done. destruct (Z.eqb_spec sig n) as [->|]; [|done]. by rewrite Hm in Hfresh.
Qed.

Lemma ok_send_each l st q cur admin sig info alloc retval found r n st' :
  state_ok st -> info_ok sig info -> send_each st l q cur admin sig info alloc retval found = Some (r, n, st') -> state_ok st'.
Proof.
  revert st retval found. induction l as [|p l IH]; intros st retval found Hst Hi; simpl; [by intros [= <- <- <-]|].
  destruct (tasks st !! p) as [t|]; [|by apply IH]. destruct (q p t); [|by apply IH].
  destruct (send_sig_info st cur admin sig info p (alloc p)) as [[err st1]|] eqn:E; simpl; [|done].
  apply ok_send_sig_info in E; [|done|done]. destruct (err =? 0); by apply IH.
Qed.

Lemma ok_send_all l st cur admin sig info alloc retval count r n st' :
  state_ok st -> info_ok sig info -> send_all st l cur admin sig info alloc retval count = Some (r, n, st') -> state_ok st'.
Proof.
  revert st retval count. induction l as [|p l IH]; intros st retval count Hst Hi; simpl; [by intros [= <- <- <-]|].
  destruct (_ && _); [|by apply IH].
  destruct (send_sig_info st cur admin sig info p (alloc p)) as [[err st1]|] eqn:E; simpl; [|done].
  apply ok_send_sig_info in E; [|done|done]. by apply IH.
Qed.

Lemma ok_kill_each st q cur admin sig info alloc r st' :
  state_ok st -> info_ok sig info -> kill_each st q cur admin sig info alloc = Some (r, st') -> state_ok st'.
Proof.
  intros Hst Hi. unfold kill_each. destruct (send_each _ _ _ _ _ _ _ _ _ _) as [[[x n] st1]|] eqn:E; simpl; [|done].
  intros [= _ <-]. by eapply ok_send_each.
Qed.

Lemma ok_kill_pg_info st cur admin sig info pg alloc r st' :
  state_ok st -> info_ok sig info -> kill_pg_info st cur admin sig info pg alloc = Some (r, st') -> state_ok st'.
Proof. intros Hst Hi. unfold kill_pg_info. case_match; [by apply ok_kill_each|by intros [= _ <-]]. Qed.

Lemma ok_kill_sl_info st cur admin sig info sess alloc r st' :
  state_ok st -> info_ok sig info -> kill_sl_info st cur admin sig info sess alloc = Some (r, st') -> state_ok st'.
Proof. intros Hst Hi. unfold kill_sl_info. case_match; [by apply ok_kill_each|by intros [= _ <-]]. Qed.

Lemma ok_kill_proc_info st cur admin sig info pid alloc r st' :
  state_ok st -> info_ok sig info -> kill_proc_info st cur admin sig info pid alloc = Some (r, st') -> state_ok st'.
Proof. intros Hst Hi. unfold kill_proc_info. case_match; [by apply ok_send_sig_info|by intros [= _ <-]]. Qed.

Lemma ok_kill_something_info st cur admin sig info pid alloc r st' :
  state_ok st -> info_ok sig info -> kill_something_info st cur admin sig info pid alloc = Some (r, st') -> state_ok st'.
Proof.
  intros Hst Hi. unfold kill_something_info. destruct (pid =? 0); [case_match; [by apply ok_kill_pg_info|by intros [= _ <-]]|].
  destruct (pid =? -1).
  - destruct (send_all _ _ _ _ _ _ _ _ _) as [[[x n] st1]|] eqn:E; simpl; [|done]. intros [= _ <-]. by eapply ok_send_all.
  - destruct (pid <? 0); [by apply ok_kill_pg_info|by apply ok_kill_proc_info].
Qed.

Lemma ok_notify_parent st cur admin tsk sig garbage alloc r st' :
  state_ok st -> notify_parent st cur admin tsk sig garbage alloc = Some (r, st') -> state_ok st'.
Proof.
  intros Hst. unfold notify_parent. destruct (tasks st !! tsk); [|by intros [= _ <-]]. by apply ok_send_sig_info.
Qed.

(** ** Masks and handlers keep the invariant *)

Lemma ok_set_mask st p t b : state_ok st -> tasks st !! p = Some t -> mask_ok b -> state_ok (set_task st p (recalc_sigpending (set_blocked t b))).
Proof. intros Hst Hp Hb. eapply ok_set_sets; try done. apply task_mask; [by apply (ok_tasks st Hst p)|done]. Qed.

Lemma ok_sys_rt_sigprocmask st p t how set oset size_ok :
  state_ok st -> tasks st !! p = Some t -> (forall s, set = Some (Some s) -> set_ok s) ->
  state_ok (sys_rt_sigprocmask st p t how set oset size_ok).2.
Proof.
  intros Hst Hp Hset. pose proof (tk_blocked t (ok_tasks st Hst p t Hp)) as Hb. unfold sys_rt_sigprocmask.
  destruct (negb size_ok); [done|]. destruct set as [[s|]|]; [|done|by destruct oset as [[]|]].
  pose proof (mask_delmask s (Hset s eq_refl)) as Hn.
  assert (Hs : forall b, mask_ok b -> state_ok (set_task st p (recalc_sigpending (set_blocked t b)))) by (intros; by apply ok_set_mask).
  destruct (how =? SIG_BLOCK); [|destruct (how =? SIG_UNBLOCK); [|destruct (how =? SIG_SETMASK)]]; simpl;
    try (destruct oset as [[]|]); apply Hs; auto using mask_or, mask_nand.
Qed.

Lemma mask_low s w : mask_ok s -> is_word w -> mask_ok (Sigset (andn w unblockable) (sig1 s)).
Proof.
  intros [[_ H1] _] Hw. apply (mask_delmask (Sigset w (sig1 s))). by split.
Qed.

Lemma mask_addmask s w : mask_ok s -> is_word w -> mask_ok (sigaddsetmask s (andn w unblockable)).
Proof.
  intros (Hs & Hk & Ht) Hw. split; [apply sigaddsetmask_ok; [by apply andn_word|done]|].
  rewrite !mem_addmask, Hk, Ht by auto with kernel. unfold in_mask. rewrite !andn_bit by by_decide.
  change (Z.testbit unblockable (SIGKILL - 1)) with true. change (Z.testbit unblockable (SIGSTOP - 1)) with true. by rewrite !andb_false_r.
Qed.

Lemma mask_delete s w : mask_ok s -> mask_ok (sigdelsetmask s w).
Proof.
  intros (Hs & Hk & Ht). split; [by apply sigdelsetmask_ok|]. rewrite !mem_delmask, Hk, Ht by auto with kernel. done.
Qed.

Lemma ok_sys_sigprocmask st p t how set oset :
  state_ok st -> tasks st !! p = Some t -> (forall w, set = Some (Some w) -> is_word w) ->
  state_ok (sys_sigprocmask st p t how set oset).2.
Proof.
  intros Hst Hp Hset. pose proof (tk_blocked t (ok_tasks st Hst p t Hp)) as Hb. unfold sys_sigprocmask.
  destruct set as [[w|]|]; [|done|by destruct oset as [[]|]].
  assert (Hs : forall b, mask_ok b -> state_ok (set_task st p (recalc_sigpending (set_blocked t b)))) by (intros; by apply ok_set_mask).
  specialize (Hset w eq_refl).
  destruct (how =? SIG_BLOCK); [|destruct (how =? SIG_UNBLOCK); [|destruct (how =? SIG_SETMASK)]]; simpl;
    try (destruct oset as [[]|]); apply Hs; auto using mask_addmask, mask_delete, mask_low.
Qed.

Lemma ok_sys_ssetmask st p t newmask : state_ok st -> tasks st !! p = Some t -> state_ok (sys_ssetmask st p t newmask).2.
Proof.
  intros Hst Hp. apply ok_set_mask; [done|done|]. apply (mask_low (siginitset 0)); [by repeat split|apply u32_range].
Qed.

Lemma ok_waits_insert st p these old : state_ok st -> set_ok these -> mask_ok old -> state_ok (set_waits st (<[p := (these, old)]> (waits st))).
Proof. intros [H1 H2 H3 H4 H5 H6] Hs Ho. constructor; try done. cbn. by apply map_Forall_insert_2. Qed.

Lemma ok_waits_delete st p : state_ok st -> state_ok (set_waits st (delete p (waits st))).
Proof. intros [H1 H2 H3 H4 H5 H6]. constructor; try done. cbn. by apply map_Forall_delete. Qed.

Lemma ok_sigtimedwait_start st p t these uts uinfo size_ok :
  state_ok st -> tasks st !! p = Some t ->
  match sys_rt_sigtimedwait st p t these uts uinfo size_ok with
  | inl (_, _, st') => state_ok st'
  | inr (th, old, st') => state_ok st' /\ set_ok th /\ mask_ok old
  end.
Proof.
  intros Hst Hp. pose proof (ok_tasks st Hst p t Hp) as Ht. unfold sys_rt_sigtimedwait. destruct (negb size_ok); [done|]. destruct these as [s|]; [|done].
  destruct (negb (check_timespec uts =? 0)); [done|]. destruct (dequeue_signal st p t (signotset s) false) as [[sig info] st1] eqn:E.
  apply ok_dequeue_signal in E as [Hst1 _]; [|done|done|done]. destruct (negb (sig =? 0)); [by destruct (wait_result _ _ _ _)|].
  split; [|split; [apply signotset_ok|apply Ht]]. eapply ok_set_sets; try done. apply task_with_state, task_mask; [done|].
  apply mask_and; [apply Ht|apply signotset_ok].
Qed.

Lemma ok_sigtimedwait_second st p t these old uinfo timeout :
  state_ok st -> tasks st !! p = Some t -> mask_ok old -> state_ok (sigtimedwait_second st p t these old uinfo timeout).2.
Proof.
  intros Hst Hp Ho. unfold sigtimedwait_second. destruct (dequeue_signal st p t these false) as [[sig info] st1] eqn:E.
  apply ok_dequeue_signal in E as (Hst1 & t1 & Et & _); [|done|done|done].
  assert (Hp1 : tasks st1 !! p = Some t1) by (rewrite Et; apply lookup_insert_eq). rewrite Hp1. by apply ok_set_mask.
Qed.

Lemma ok_do_sigaction st p t h sig act :
  state_ok st -> tasks st !! p = Some t -> (forall a, act = Some a -> set_ok (sa_mask a)) -> state_ok (do_sigaction st p t h sig act).2.
Proof.
  intros Hst Hp Hact. pose proof (ok_tasks st Hst p t Hp) as Ht. unfold do_sigaction. destruct (_ || _) eqn:E; [done|].
  apply orb_false_iff in E as [E Ekill]. apply orb_false_iff in E as [E1 E2]. assert (Hs : is_sig sig) by (unfold is_sig; lia).
  destruct act as [a|]; [|done]. cbn zeta. set (ka := Sigaction _ _ _). set (st1 := set_action st h sig ka).
  assert (Hst1 : state_ok st1).
  { apply ok_set_action; [done|done|apply mask_delmask; by apply Hact|]. unfold SIGKILL, SIGSTOP in *. lia. }
  destruct ((sa_handler ka =? SIG_IGN) || _); [|done]. destruct ((SIGRTMIN <=? sig) && _) eqn:Ert; cbn.
  - assert (Hq : task_ok (with_queue t (remove_queued sig (sigqueue t)) (tail_ok t && negb (tail_removed sig (sigqueue t))))).
    { apply task_queue; [done|by intros i [_ ?]%list_elem_of_filter|]. intros Hz. by rewrite (tk_zombie t Ht Hz). }
    eapply (ok_set_task st1 _ p t); [done|done| |done|done|done|cbn; lia|done].
    apply (task_del (with_queue t _ _) sig); [done|done|]. apply Forall_forall. by intros i [? _]%list_elem_of_filter.
  - eapply (ok_set_task st1 _ p t); [done|done| |done|done|done|cbn; lia|done].
    apply task_del; [done|done|]. apply Forall_forall. intros i Hi <-. destruct (task_queued t i Ht Hi) as (Hr & _ & Hm).
    rewrite Hm in Ert. lia.
Qed.

Lemma ok_sys_rt_sigaction st p t h sig act oact size_ok :
  state_ok st -> tasks st !! p = Some t -> (forall a, act = Some (Some a) -> set_ok (sa_mask a)) ->
  state_ok (sys_rt_sigaction st p t h sig act oact size_ok).2.
Proof.
  intros Hst Hp Hact. unfold sys_rt_sigaction. destruct (negb size_ok); [done|].
  destruct act as [[a|]|]; [|done|].
  - pose proof (ok_do_sigaction st p t h sig (Some a) Hst Hp) as H. cbn.
    destruct (do_sigaction st p t h sig (Some a)) as [[r o] st1].
    assert (state_ok st1) by (apply H; intros x [= <-]; auto). by destruct (_ && _).
  - pose proof (ok_do_sigaction st p t h sig None Hst Hp) as H. cbn.
    destruct (do_sigaction st p t h sig None) as [[r o] st1].
    assert (state_ok st1) by (by apply H). by destruct (_ && _).
Qed.

Lemma ok_sys_signal st p t h sig handler mask :
  state_ok st -> tasks st !! p = Some t -> set_ok mask -> state_ok (sys_signal st p t h sig handler mask).2.
Proof.
  intros Hst Hp Hm. unfold sys_signal.
  pose proof (ok_do_sigaction st p t h sig (Some (Sigaction handler (Z.lor SA_ONESHOT SA_NODEFER) mask)) Hst Hp) as H.
  destruct (do_sigaction _ _ _ _ _ _) as [[r o] st1]. apply H. by intros a [= <-].
Qed.

Lemma mask_add_sig s n : mask_ok s -> is_sig n -> n <> SIGKILL -> n <> SIGSTOP -> mask_ok (sigaddset s n).
Proof.
  intros (Hs & Hk & Ht) Hn H1 H2. split; [by apply sigaddset_ok|]. rewrite !mem_add, Hk, Ht by auto with kernel.
  split; apply orb_false_iff; split; try done; lia.
Qed.

Lemma task_flushed t : task_ok t -> task_ok (with_queue (with_sets t (blocked t) sigemptyset false) [] true).
Proof.
  intros [H1 H2 H3 H4 H5]. constructor; try done. split; [done|]. intros (n & Hn & Hm & _). cbn in Hm. by rewrite mem_empty in Hm.
Qed.

(** The flag and the set of the flushed task do not matter. *)
Lemma ok_flush st p t t' :
  state_ok st -> tasks st !! p = Some t -> sigqueue t' = sigqueue t -> mask_ok (blocked t') -> state_ok (flush_signals st p t').
Proof.
  intros Hst Hp Hq Hb. eapply (ok_set_task st _ p t); [done|done| |done|done|done|cbn; rewrite Hq; lia|done].
  constructor; try done. split; [done|]. intros (n & Hn & Hm & _). cbn in Hm. by rewrite mem_empty in Hm.
Qed.

Lemma ok_handle_signal st p t h sig frame :
  state_ok st -> tasks st !! p = Some t -> is_sig sig -> sa_handler (action st h sig) <> SIG_DFL -> state_ok (handle_signal st p t h sig frame).2.
Proof.
  intros Hst Hp Hs Hd. unfold handle_signal. destruct (negb (_ =? 0)); [done|]. destruct (negb frame).
  { cbn [snd]. eapply (ok_flush st p t); try done. apply (ok_tasks st Hst p t Hp). }
  cbn [snd]. assert (Hst1 : state_ok (if negb (Z.land (sa_flags (action st h sig)) SA_ONESHOT =? 0)
    then set_action st h sig (Sigaction SIG_DFL (sa_flags (action st h sig)) (sa_mask (action st h sig))) else st)).
  { destruct (negb _); [|done]. apply ok_set_action; [done|done|by apply Hst|done]. }
  destruct (Z.land (sa_flags (action st h sig)) SA_NODEFER =? 0); [|done]. apply ok_set_mask; [done|by destruct (negb _)|].
  apply mask_add_sig; [|done| |].
  - apply mask_or; [apply (ok_tasks st Hst p t Hp)|by apply Hst].
  - intros ->. apply Hd. apply (ok_fixed st Hst h).
  - intros ->. apply Hd. apply (ok_fixed st Hst h).
Qed.

Lemma ok_act_on st p admin t signr orphaned dumped garbage alloc frame r st' :
  state_ok st -> tasks st !! p = Some t -> is_sig signr -> act_on st p admin t signr orphaned dumped garbage alloc frame = Some (r, st') -> state_ok st'.
Proof.
  intros Hst Hp Hs. unfold act_on. destruct (sigh t) as [h|] eqn:Hh; simpl; [|done]. pose proof (ok_tasks st Hst p t Hp) as Ht.
  destruct (Z.eqb_spec (sa_handler (action st h signr)) SIG_IGN) as [|Hi]; [by intros [= _ <-]|].
  destruct (Z.eqb_spec (sa_handler (action st h signr)) SIG_DFL) as [|Hd].
  - destruct (p =? 1); [by intros [= _ <-]|]. destruct ((signr =? SIGCONT) || _ || _); [by intros [= _ <-]|].
    destruct (stop_signal signr).
    + destruct (_ && _); [by intros [= _ <-]|].
      assert (Hst1 : state_ok (set_task st p (with_exit (with_state t TASK_STOPPED) signr))).
      { eapply ok_set_sets; try done. by apply task_with_exit, task_with_state. }
      destruct (nocldstop_of _ _) as [[]|]; cbn [mbind option_bind]; [by intros [= _ <-]| |done].
      destruct (notify_parent _ _ _ _ _ _ _) as [[x st1]|] eqn:E; simpl; [|done]. intros [= _ <-].
      by eapply ok_notify_parent.
    + intros [= _ <-]. unfold exit_sighand. eapply (ok_flush st p t); try done. apply Ht.
  - pose proof (ok_handle_signal st p t h signr frame Hst Hp Hs Hd) as Hh'. intros [= E]. by rewrite E in Hh'.
Qed.

Lemma ok_do_signal_turn st p admin orphaned dumped garbage alloc frame r st' :
  state_ok st -> do_signal_turn st p admin orphaned dumped garbage alloc frame = Some (r, st') -> state_ok st'.
Proof.
  intros Hst. unfold do_signal_turn. destruct (tasks st !! p) as [t|] eqn:Hp; simpl; [|done].
  pose proof (tk_signal t (ok_tasks st Hst p t Hp)) as Hset.
  destruct (dequeue_signal st p t (blocked t) true) as [[signr info] st1] eqn:E.
  assert (Hnum : signr <> 0 -> is_sig signr).
  { intros Hn. unfold dequeue_signal in E. destruct (Z.eqb_spec (next_signal (signal t) (blocked t)) 0) as [E0|E0]; simpl in E; [by simplify_eq|].
    destruct (next_signal_some _ _ Hset E0) as [(Hv & _) _]. repeat case_match; by simplify_eq. }
  apply ok_dequeue_signal in E as (Hst1 & t1 & Et & _); [|done|done|done].
  rewrite Et, lookup_insert_eq. simpl. destruct (Z.eqb_spec signr 0); [by intros [= _ <-]|].
  assert (Hp1 : tasks st1 !! p = Some t1) by (by rewrite Et, lookup_insert_eq).
  destruct (_ && _); [|apply ok_act_on; auto].
  assert (Hst2 : state_ok (set_task st1 p (with_state (with_exit t1 signr) TASK_STOPPED))).
  { eapply ok_set_sets; try done. apply task_with_state, task_with_exit. by apply (ok_tasks st1 Hst1 p). }
  destruct (notify_parent _ _ _ _ _ _ _) as [[x st2]|] eqn:E; simpl; [|done]. intros [= _ <-]. by eapply ok_notify_parent.
Qed.

Lemma ok_do_signal_traced st p admin info orphaned dumped garbage alloc frame r st' :
  state_ok st -> (forall t, tasks st !! p = Some t -> exit_code t <> 0 -> is_sig (exit_code t)) ->
  do_signal_traced st p admin info orphaned dumped garbage alloc frame = Some (r, st') -> state_ok st'.
Proof.
  intros Hst Hcode. unfold do_signal_traced. destruct (tasks st !! p) as [t|] eqn:Hp; simpl; [|done].
  destruct (Z.eqb_spec (exit_code t) 0) as [|Hne]; [by intros [= _ <-]|]. specialize (Hcode t eq_refl Hne).
  assert (Hst1 : state_ok (set_task st p (with_exit t 0))).
  { eapply ok_set_sets; try done. apply task_with_exit. by apply (ok_tasks st Hst p). }
  destruct (exit_code t =? SIGSTOP); [by intros [= _ <-]|].
  set (info' := if exit_code t =? si_signo info then info else _).
  assert (Hinfo : si_signo info' = exit_code t) by (unfold info'; by destruct (Z.eqb_spec (exit_code t) (si_signo info))).
  destruct (sigismember _ _).
  - destruct (send_sig_info _ _ _ _ _ _ _) as [[x st2]|] eqn:E; simpl; [|done]. intros [= _ <-].
    eapply ok_send_sig_info; [| |exact E]; [exact Hst1|exact Hinfo].
  - apply ok_act_on; [done|cbn; by rewrite lookup_insert_eq|done].
Qed.

(** ** Creation and end *)

Lemma ok_fork_signals st cur child t share trace h :
  state_ok st -> tasks st !! cur = Some t -> tasks st !! child = None -> state_ok (fork_signals st cur child t share trace h).
Proof.
  intros [H1 H2 H3 H4 H5 H6] Ht Hc. pose proof (H1 cur t Ht) as Hok. constructor; cbn; try done.
  - apply map_Forall_insert_2; [|done]. constructor; try done; [apply Hok|].
    cbn. split; [done|]. intros (n & Hn & Hm & _). cbn in Hm. by rewrite mem_empty in Hm.
  - intros h' n Hn. destruct (sigh t) as [h0|]; [|by apply H2]. destruct share; [by apply H2|].
    destruct (decide (h = h')) as [<-|]; [rewrite fn_lookup_insert|rewrite fn_lookup_insert_ne by done]; by apply H2.
  - intros h'. destruct (sigh t) as [h0|]; [|by apply H3]. destruct share; [by apply H3|].
    destruct (decide (h = h')) as [<-|]; [rewrite fn_lookup_insert|rewrite fn_lookup_insert_ne by done]; by apply H3.
  - rewrite msum_insert by done. cbn. lia.
Qed.

Lemma ok_release_task st p t : state_ok st -> tasks st !! p = Some t -> sigh t = None -> state_ok (release_task st p).
Proof.
  intros [H1 H2 H3 H4 H5 H6] Ht Hz. pose proof (tk_zombie t (H1 p t Ht) Hz) as Hq. constructor; cbn; try done.
  - by apply map_Forall_delete.
  - rewrite (msum_delete _ _ p t Ht), Hq. cbn. lia.
Qed.

Lemma ok_flush_signal_handlers st h : state_ok st -> state_ok (flush_signal_handlers st h).
Proof.
  intros [H1 H2 H3 H4 H5 H6]. constructor; cbn; try done.
  - intros h' n Hn. destruct (decide (h = h')) as [<-|]; [|rewrite fn_lookup_insert_ne by done; auto].
    rewrite fn_lookup_insert. case_match; [|auto]. by repeat split.
  - intros h'. destruct (decide (h = h')) as [<-|]; [|rewrite fn_lookup_insert_ne by done; auto].
    rewrite fn_lookup_insert. destruct (H3 h) as [-> ->]. done.
Qed.

(** ** Reachable states *)

(** One call, delivery, creation or end of a process.  Sets from user memory are
    64 bits wide; a [siginfo] that the kernel passes on carries the number of its
    signal; a debugger leaves a signal number or 0.  [force_sig_info] for a signal
    that is pending and blocked is left out: see [force_sig_not_delivered]. *)
Inductive sig_step (st : state) : state -> Prop :=
| step_send cur admin sig info p alloc r st' :
    info_ok sig info -> send_sig_info st cur admin sig info p alloc = Some (r, st') -> sig_step st st'
| step_force cur admin sig info p alloc r st' :
    info_ok sig info -> is_sig sig ->
    (forall t, tasks st !! p = Some t -> sigismember (signal t) sig && sigismember (blocked t) sig = false) ->
    force_sig_info st cur admin sig info p alloc = Some (r, st') -> sig_step st st'
| step_kill cur admin pid sig alloc r st' : sys_kill st cur admin pid sig alloc = Some (r, st') -> sig_step st st'
| step_kill_pg cur admin sig info pg alloc r st' :
    info_ok sig info -> kill_pg_info st cur admin sig info pg alloc = Some (r, st') -> sig_step st st'
| step_kill_sl cur admin sig info sess alloc r st' :
    info_ok sig info -> kill_sl_info st cur admin sig info sess alloc = Some (r, st') -> sig_step st st'
| step_queueinfo cur admin pid sig uinfo alloc r st' :
    sys_rt_sigqueueinfo st cur admin pid sig uinfo alloc = Some (r, st') -> sig_step st st'
| step_notify_parent cur admin tsk sig garbage alloc r st' :
    notify_parent st cur admin tsk sig garbage alloc = Some (r, st') -> sig_step st st'
| step_procmask cur t how set oset size_ok :
    tasks st !! cur = Some t -> (forall s, set = Some (Some s) -> set_ok s) ->
    sig_step st (sys_rt_sigprocmask st cur t how set oset size_ok).2
| step_old_procmask cur t how set oset :
    tasks st !! cur = Some t -> (forall w, set = Some (Some w) -> is_word w) -> sig_step st (sys_sigprocmask st cur t how set oset).2
| step_ssetmask cur t newmask : tasks st !! cur = Some t -> sig_step st (sys_ssetmask st cur t newmask).2
| step_wait_done cur t these uts uinfo size_ok sig info st' :
    tasks st !! cur = Some t -> sys_rt_sigtimedwait st cur t these uts uinfo size_ok = inl (sig, info, st') -> sig_step st st'
| step_wait_sleep cur t these uts uinfo size_ok th old st' :
    tasks st !! cur = Some t -> sys_rt_sigtimedwait st cur t these uts uinfo size_ok = inr (th, old, st') ->
    sig_step st (set_waits st' (<[cur := (th, old)]> (waits st')))
| step_wait_end cur t th old uinfo timeout :
    tasks st !! cur = Some t -> waits st !! cur = Some (th, old) ->
    sig_step st (set_waits (sigtimedwait_second st cur t th old uinfo timeout).2 (delete cur (waits (sigtimedwait_second st cur t th old uinfo timeout).2)))
| step_sigaction cur t h sig act oact size_ok :
    tasks st !! cur = Some t -> sigh t = Some h -> (forall a, act = Some (Some a) -> set_ok (sa_mask a)) ->
    sig_step st (sys_rt_sigaction st cur t h sig act oact size_ok).2
| step_signal cur t h sig handler mask :
    tasks st !! cur = Some t -> sigh t = Some h -> set_ok mask -> sig_step st (sys_signal st cur t h sig handler mask).2
| step_altstack cur t uss uoss sp : tasks st !! cur = Some t -> sig_step st (do_sigaltstack st cur t uss uoss sp).2
| step_deliver cur admin orphaned dumped garbage alloc frame r st' :
    do_signal_turn st cur admin orphaned dumped garbage alloc frame = Some (r, st') -> sig_step st st'
| step_traced cur admin info orphaned dumped garbage alloc frame r st' :
    (forall t, tasks st !! cur = Some t -> exit_code t <> 0 -> is_sig (exit_code t)) ->
    do_signal_traced st cur admin info orphaned dumped garbage alloc frame = Some (r, st') -> sig_step st st'
| step_exec cur t h : tasks st !! cur = Some t -> sigh t = Some h -> sig_step st (flush_signal_handlers st h)
| step_flush cur t : tasks st !! cur = Some t -> sig_step st (flush_signals st cur t)
| step_fork cur child t share trace h :
    tasks st !! cur = Some t -> tasks st !! child = None -> sig_step st (fork_signals st cur child t share trace h)
| step_exit cur t : tasks st !! cur = Some t -> sig_step st (exit_sighand st cur t)
| step_release p t : tasks st !! p = Some t -> sigh t = None -> sig_step st (release_task st p).

(** One process, which has all default actions. *)
Definition first_task : task :=
  Task 0 0 false 0 0 0 0 TASK_RUNNING false 0 (Some 0) sigemptyset sigemptyset false [] true 0 0.

Definition sig_init : state := State {[1 := first_task]} [1] (fun _ _ => Sigaction SIG_DFL 0 sigemptyset) 0 1024 0 ∅.

Lemma ok_init : state_ok sig_init.
Proof.
  constructor; cbn; try done.
  - apply map_Forall_singleton. constructor; cbn; try done. split; [done|]. intros (n & Hn & Hm & _). cbn in Hm. by rewrite mem_empty in Hm.
Qed.

Lemma ok_sigaltstack st cur t uss uoss sp : state_ok st -> tasks st !! cur = Some t -> state_ok (do_sigaltstack st cur t uss uoss sp).2.
Proof.
  intros Hst Ht. assert (Hs : forall a b, state_ok (set_task st cur (with_stack t a b))).
  { intros a b. eapply ok_set_sets; try done. destruct (ok_tasks st Hst cur t Ht) as [H1 H2 H3 H4 H5]. by constructor. }
  unfold do_sigaltstack. destruct uss as [[ss|]|]; [|done|by destruct uoss as [[]|]].
  repeat case_match; try done; apply Hs.
Qed.

Lemma sig_step_ok st st' : state_ok st -> sig_step st st' -> state_ok st'.
Proof.
  intros Hst. destruct 1.
  - by eapply ok_send_sig_info.
  - by eapply ok_force_sig_info.
  - unfold sys_kill in H. destruct (tasks st !! cur); [|done]. eapply ok_kill_something_info; [done| |exact H]. done.
  - by eapply ok_kill_pg_info.
  - by eapply ok_kill_sl_info.
  - unfold sys_rt_sigqueueinfo in H. destruct uinfo; [|by simplify_eq]. case_match; [by simplify_eq|].
    eapply ok_kill_proc_info; [done| |exact H]. done.
  - by eapply ok_notify_parent.
  - by apply ok_sys_rt_sigprocmask.
  - by apply ok_sys_sigprocmask.
  - by apply ok_sys_ssetmask.
  - pose proof (ok_sigtimedwait_start st cur t these uts uinfo size_ok Hst H) as Hw. by rewrite H0 in Hw.
  - pose proof (ok_sigtimedwait_start st cur t these uts uinfo size_ok Hst H) as Hw. rewrite H0 in Hw.
    destruct Hw as (H1 & H2 & H3). by apply ok_waits_insert.
  - apply ok_waits_delete, ok_sigtimedwait_second; [done|done|]. by destruct (ok_waits st Hst cur _ H0).
  - by apply ok_sys_rt_sigaction.
  - by apply ok_sys_signal.
  - by apply ok_sigaltstack.
  - by eapply ok_do_signal_turn.
  - by eapply ok_do_signal_traced.
  - by apply ok_flush_signal_handlers.
  - eapply ok_flush; try done. apply (ok_tasks st Hst cur t H).
  - by apply ok_fork_signals.
  - eapply (ok_flush st cur t); try done. apply (ok_tasks st Hst cur t H).
  - by eapply ok_release_task.
Qed.

Lemma steps_ok st st' : state_ok st -> rtc sig_step st st' -> state_ok st'.
Proof. intros Hst H. induction H as [s|s1 s2 s3 Hs _ IH]; [done|]. by eapply IH, sig_step_ok. Qed.

Lemma sig_reachable st : rtc sig_step sig_init st -> state_ok st.
Proof. intros H. eapply steps_ok; [apply ok_init|done]. Qed.

(** C25: in every state that calls, deliveries, forks and exits can lead to, in any order:
    no process blocks SIGKILL or SIGSTOP, no handler runs with them blocked, and their
    action is the default; the flag [sigpending] is set exactly when a signal is
    pending that is not blocked; every queued signal is a real-time signal that is
    pending; a process that has exited has none; and [nr_queued_signals] counts the
    queued signals, with those lost through a stale tail pointer.  The histories leave out
    [force_sig_info] for a signal that is pending and blocked: it unblocks the signal
    without setting the flag (see [force_sig_not_delivered]). *)
Theorem sig_reachable_ok st :
  rtc sig_step sig_init st ->
  (forall p t, tasks st !! p = Some t ->
     sigismember (blocked t) SIGKILL = false /\ sigismember (blocked t) SIGSTOP = false /\
     (sigpending t = true <-> exists n, 1 <= n <= NSIG /\ sigismember (signal t) n = true /\ sigismember (blocked t) n = false) /\
     (forall i, i ∈ sigqueue t -> SIGRTMIN <= si_signo i <= NSIG /\ sigismember (signal t) (si_signo i) = true) /\
     (sigh t = None -> sigqueue t = [])) /\
  (forall h n, 1 <= n <= NSIG ->
     sigismember (sa_mask (action st h n)) SIGKILL = false /\ sigismember (sa_mask (action st h n)) SIGSTOP = false) /\
  (forall h, sa_handler (action st h SIGKILL) = SIG_DFL /\ sa_handler (action st h SIGSTOP) = SIG_DFL) /\
  nr_queued_signals st = msum (fun t => Z.of_nat (length (sigqueue t))) (tasks st) + lost st.
Proof.
  intros [H1 H2 H3 H4 H5 H6]%sig_reachable. split_and!; try done.
  - intros p t Ht. destruct (H1 p t Ht) as [(_ & Hk & Hs) _ Hp Hq Hz]. split_and!; try done.
    intros i Hi. rewrite Forall_forall in Hq. by apply Hq.
  - intros h n Hn. by destruct (H2 h n Hn) as (_ & ? & ?).
Qed.

(** ** What is taken *)

Definition of_sig (n : Z) (q : list siginfo) : list siginfo := filter (fun i => si_signo i = n) q.

Definition not_of_sig (n : Z) (q : list siginfo) : list siginfo := filter (fun i => si_signo i <> n) q.

Arguments of_sig : simpl never.
Arguments not_of_sig : simpl never.

Lemma of_sig_nil n q : Forall (fun i => si_signo i <> n) q -> of_sig n q = [].
Proof. induction 1 as [|i q Hi _ IH]; [done|]. unfold of_sig in *. by rewrite filter_cons_False. Qed.

Lemma not_of_sig_all n q : Forall (fun i => si_signo i <> n) q -> not_of_sig n q = q.
Proof. induction 1 as [|i q Hi _ IH]; [done|]. unfold not_of_sig in *. by rewrite filter_cons_True, IH. Qed.

Lemma is_queued_spec n q : is_queued n q = bool_decide (of_sig n q <> []).
Proof.
  induction q as [|i q IH]; [done|]. simpl. unfold of_sig in *. destruct (Z.eqb_spec (si_signo i) n).
  - rewrite filter_cons_True by done. symmetry. by apply bool_decide_eq_true.
  - by rewrite filter_cons_False.
Qed.

(** What [dequeue_signal] leaves when it takes the signal [n]. *)
Record taken (st st' : state) (t t' : task) (n : Z) (info : siginfo) : Prop := {
  tk_info : match of_sig n (sigqueue t) with
            | [] => info = no_info n /\ of_sig n (sigqueue t') = []
            | i :: l => info = i /\ of_sig n (sigqueue t') = l
            end;
  tk_others : not_of_sig n (sigqueue t') = not_of_sig n (sigqueue t);
  tk_bit : sigismember (signal t') n = bool_decide (of_sig n (sigqueue t') <> []);
  tk_bits : forall m, is_sig m -> m <> n -> sigismember (signal t') m = sigismember (signal t) m;
  tk_count : nr_queued_signals st' = nr_queued_signals st - Z.of_nat (length (sigqueue t)) + Z.of_nat (length (sigqueue t')) }.

Lemma taken_del st t n p : is_sig n -> Forall (fun x => si_signo x <> n) (sigqueue t) ->
  taken st (set_task st p (recalc_sigpending (set_signal t (sigdelset (signal t) n)))) t
    (recalc_sigpending (set_signal t (sigdelset (signal t) n))) n (no_info n).
Proof.
  intros Hn Hf. constructor; cbn; [by rewrite of_sig_nil|done| | |lia].
  - rewrite of_sig_nil, mem_del, Z.eqb_refl by done. done.
  - intros m Hm Hne. rewrite mem_del by done. by destruct (Z.eqb_spec n m).
Qed.

Lemma dequeue_found st p t mask is_blocked :
  state_ok st -> tasks st !! p = Some t -> next_signal (signal t) mask <> 0 ->
  exists info t' st', dequeue_signal st p t mask is_blocked = (next_signal (signal t) mask, info, st') /\
    tasks st' !! p = Some t' /\ taken st st' t t' (next_signal (signal t) mask) info.
Proof.
  intros Hst Hp E. pose proof (ok_tasks st Hst p t Hp) as Ht. pose proof (tk_signal t Ht) as Hs. unfold dequeue_signal.
  destruct (next_signal_some (signal t) mask Hs E) as [(Hn & Hm & _) _]. set (n := next_signal (signal t) mask) in *.
  destruct (Z.eqb_spec n 0) as [|_]; [done|]. cbn [negb].
  destruct (n <? SIGRTMIN) eqn:Ert.
  { do 3 eexists. split; [done|]. split; [apply lookup_insert_eq|]. apply taken_del; [done|]. rewrite Forall_forall. intros i Hi.
    destruct (task_queued t i Ht Hi) as (? & _). lia. }
  destruct (split_queue n (sigqueue t)) as [[[a i] b]|] eqn:Es.
  - apply split_queue_some in Es as (Eq & Ei & Ha). do 3 eexists. split; [done|]. split; [apply lookup_insert_eq|].
    assert (Hoa : of_sig n (sigqueue t) = i :: of_sig n b /\ not_of_sig n (sigqueue t) = a ++ not_of_sig n b).
    { rewrite Eq. unfold of_sig, not_of_sig. rewrite !filter_app. rewrite filter_cons_True, filter_cons_False by auto.
      fold (of_sig n a) (not_of_sig n a). by rewrite of_sig_nil, not_of_sig_all. }
    assert (Hob : of_sig n (a ++ b) = of_sig n b /\ not_of_sig n (a ++ b) = a ++ not_of_sig n b).
    { unfold of_sig, not_of_sig. rewrite !filter_app. fold (of_sig n a) (not_of_sig n a). by rewrite of_sig_nil, not_of_sig_all. }
    destruct Hoa as [Hoa1 Hoa2], Hob as [Hob1 Hob2].
    assert (Hlen : length (sigqueue t) = S (length (a ++ b))) by (rewrite Eq, !length_app; cbn; lia).
    rewrite is_queued_spec. case_bool_decide as Hnil; (constructor; cbn;
      [rewrite Hoa1, Hob1; done|by rewrite Hoa2, Hob2|rewrite Hob1| |rewrite Hlen; lia]).
    + by rewrite Hm, bool_decide_eq_true_2.
    + done.
    + rewrite mem_del, Z.eqb_refl by done. by rewrite Hnil.
    + intros m Hsm Hne. rewrite mem_del by done. by destruct (Z.eqb_spec n m).
  - do 3 eexists. split; [done|]. split; [apply lookup_insert_eq|]. apply taken_del; [done|]. by apply split_queue_none.
Qed.

(** [dequeue_signal] takes the lowest-numbered pending signal that is not in the mask,
    if there is one.  Its information is that of the oldest queued signal with that
    number, which leaves the queue; the others stay in their order, the signal stays
    pending exactly when another of that number is queued, no other signal changes,
    and [nr_queued_signals] follows the queue. *)
Theorem dequeue_signal_correct st p t mask :
  rtc sig_step sig_init st -> tasks st !! p = Some t ->
  let '(sig, info, st') := dequeue_signal st p t mask false in
  (sig = 0 /\ st' = st /\ forall n, ~ deliverable (signal t) mask n) \/
  (deliverable (signal t) mask sig /\ (forall n, deliverable (signal t) mask n -> sig <= n) /\
   exists t', tasks st' = <[p := t']> (tasks st) /\ taken st st' t t' sig info /\ (sigpending t' = true <-> ready t')).
Proof.
  intros Hst%sig_reachable Hp. pose proof (tk_signal t (ok_tasks st Hst p t Hp)) as Hs.
  destruct (decide (next_signal (signal t) mask = 0)) as [E|E].
  - unfold dequeue_signal. rewrite E. cbn. left. split_and!; [done|done|]. by apply next_signal_none.
  - destruct (dequeue_found st p t mask false Hst Hp E) as (info & t' & st' & Ed & Ht' & Htk).
    destruct (ok_dequeue_signal st p t mask false _ info st' Hst Hp ltac:(done) Ed) as (Hok & t2 & Et & _).
    rewrite Ed. right. destruct (next_signal_some (signal t) mask Hs E) as [Hd Hl]. split_and!; [done|done|].
    rewrite Et, lookup_insert_eq in Ht'. injection Ht' as ->. exists t'. split_and!; [done|done|].
    apply (ok_tasks st' Hok p). rewrite Et. apply lookup_insert_eq.
Qed.

(** ** What is sent *)

(** The signals that sending [sig] takes back. *)
Definition cancelled (sig n : Z) : bool :=
  (((sig =? SIGKILL) || (sig =? SIGCONT)) && stop_signal n) || (stop_signal sig && (n =? SIGCONT)).

Lemma stop_mask_mem n : is_sig n ->
  in_mask (Z.lor (Z.lor (Z.lor (sigmask SIGSTOP) (sigmask SIGTSTP)) (sigmask SIGTTOU)) (sigmask SIGTTIN)) n = stop_signal n.
Proof.
  intros Hn. unfold in_mask, stop_signal, sigmask, SIGSTOP, SIGTSTP, SIGTTIN, SIGTTOU. unfold is_sig in Hn.
  rewrite !Z.lor_spec, !one_bit by lia. lia.
Qed.

Lemma stop_or_continue_mem sig t n : is_sig n ->
  sigismember (signal (stop_or_continue sig t)) n = sigismember (signal t) n && negb (cancelled sig n).
Proof.
  intros Hn. unfold stop_or_continue, cancelled. destruct ((sig =? SIGKILL) || (sig =? SIGCONT)) eqn:Ek.
  - assert (stop_signal sig = false) as -> by (unfold stop_signal, SIGKILL, SIGCONT, SIGSTOP, SIGTSTP, SIGTTIN, SIGTTOU in *; lia).
    cbn. rewrite mem_delmask, stop_mask_mem by done. rewrite orb_false_r. by destruct (tstate t =? TASK_STOPPED).
  - destruct (stop_signal sig); [|by rewrite andb_true_r]. cbn. rewrite mem_del by (done || by_decide).
    rewrite Z.eqb_sym, andb_comm. done.
Qed.

Lemma stop_or_continue_keeps sig t :
  blocked (stop_or_continue sig t) = blocked t /\ sigh (stop_or_continue sig t) = sigh t /\
  ptraced (stop_or_continue sig t) = ptraced t /\ tail_ok (stop_or_continue sig t) = tail_ok t /\
  sigqueue (stop_or_continue sig t) = sigqueue t /\ p_pptr (stop_or_continue sig t) = p_pptr t.
Proof. unfold stop_or_continue. repeat case_match; by split_and!. Qed.

Lemma stop_or_continue_state sig t :
  tstate (stop_or_continue sig t) =
    if ((sig =? SIGKILL) || (sig =? SIGCONT)) && (tstate t =? TASK_STOPPED) then TASK_RUNNING else tstate t.
Proof. unfold stop_or_continue. destruct ((sig =? SIGKILL) || _); cbn; [by destruct (_ =? TASK_STOPPED)|by case_match]. Qed.

Lemma ignored_continue st sig t : ignored_signal st sig (stop_or_continue sig t) = ignored_signal st sig t.
Proof. destruct (stop_or_continue_keeps sig t) as (Hb & Hh & Hp & _). unfold ignored_signal. by rewrite Hb, Hh, Hp. Qed.

(** What a process has when the signal has been sent to it. *)
Record sent (t t' : task) (sig : Z) (post : bool) (queued : list siginfo) : Prop := {
  st_others : forall n, is_sig n -> n <> sig -> sigismember (signal t') n = sigismember (signal t) n && negb (cancelled sig n);
  st_bit : sigismember (signal t') sig = sigismember (signal t) sig || post;
  st_queue : sigqueue t' = sigqueue t ++ queued;
  st_blocked : blocked t' = blocked t;
  st_same : sigh t' = sigh t /\ ptraced t' = ptraced t /\ p_pptr t' = p_pptr t;
  st_state : tstate t' = if ((sig =? SIGKILL) || (sig =? SIGCONT)) && (tstate t =? TASK_STOPPED) then TASK_RUNNING
                         else if (tstate t =? TASK_INTERRUPTIBLE) && sigpending t' then TASK_RUNNING else tstate t }.

Lemma cancelled_self sig : cancelled sig sig = false.
Proof. unfold cancelled, stop_signal, SIGKILL, SIGCONT, SIGSTOP, SIGTSTP, SIGTTIN, SIGTTOU. lia. Qed.

(** The end of [send_sig_info], from what precedes the label [out] on. *)
Lemma notify_sent st p t t2 sig post queued : is_sig sig ->
  (forall n, is_sig n -> sigismember (signal t2) n = sigismember (signal (stop_or_continue sig t)) n || ((sig =? n) && post)) ->
  sigqueue t2 = sigqueue t ++ queued -> blocked t2 = blocked t -> sigh t2 = sigh t /\ ptraced t2 = ptraced t /\ p_pptr t2 = p_pptr t ->
  tstate t2 = tstate (stop_or_continue sig t) ->
  exists t', tasks (notify_task st p t2) = <[p := t']> (tasks st) /\ sent t t' sig post queued.
Proof.
  intros Hs Hm Hq Hb Hsame Hst. unfold notify_task. eexists. split; [reflexivity|]. rewrite Hst, stop_or_continue_state.
  set (s := if ((sig =? SIGKILL) || (sig =? SIGCONT)) && (tstate t =? TASK_STOPPED) then TASK_RUNNING else tstate t).
  assert (Hkeep : forall c : bool, signal (if c then wake_up_process t2 else t2) = signal t2 /\
    sigqueue (if c then wake_up_process t2 else t2) = sigqueue t2 /\ blocked (if c then wake_up_process t2 else t2) = blocked t2 /\
    sigpending (if c then wake_up_process t2 else t2) = sigpending t2 /\ sigh (if c then wake_up_process t2 else t2) = sigh t2 /\
    ptraced (if c then wake_up_process t2 else t2) = ptraced t2 /\ p_pptr (if c then wake_up_process t2 else t2) = p_pptr t2) by (by intros []).
  destruct (Hkeep ((s =? TASK_INTERRUPTIBLE) && sigpending t2)) as (K1 & K2 & K3 & K4 & K5 & K6 & K7).
  constructor; rewrite ?K1, ?K2, ?K3, ?K4, ?K5, ?K6, ?K7; try done.
  - intros n Hn Hne. rewrite Hm, stop_or_continue_mem by done. destruct (Z.eqb_spec sig n); [done|]. by rewrite orb_false_r.
  - rewrite Hm, stop_or_continue_mem, cancelled_self, Z.eqb_refl by done. cbn. by rewrite andb_true_r.
  - subst s. destruct (_ && (tstate t =? TASK_STOPPED)) eqn:E1; [cbn; by rewrite Hst, stop_or_continue_state, E1|].
    destruct (_ && sigpending t2); [done|]. rewrite Hst, stop_or_continue_state. by rewrite E1.
Qed.

(** Who may send a signal to whom. *)
Definition permitted (c : task) (admin : bool) (sig : Z) (info : sender) (t : task) : Prop :=
  from_user info = false \/ (sig = SIGCONT /\ session c = session t) \/
  euid c = suid t \/ euid c = uid t \/ uid c = suid t \/ uid c = uid t \/ admin = true.

Lemma may_signal_spec c admin sig info t : may_signal c admin sig info t = true <-> permitted c admin sig info t.
Proof.
  unfold may_signal, permitted. rewrite negb_true_iff. destruct (from_user info), admin; cbn; try (split; tauto).
  all: rewrite ?andb_true_r, ?andb_false_r; lia.
Qed.

(** There is room for another queued signal. *)
Definition room (st : state) (alloc : bool) : bool := (nr_queued_signals st <? max_queued_signals st) && alloc.

(** The signal is posted: it ends pending. *)
Lemma mark_sent st p t q ok sig queued : is_sig sig -> q = sigqueue t ++ queued ->
  exists t', tasks (notify_task st p (mark_pending (with_queue (stop_or_continue sig t) q ok) sig)) = <[p := t']> (tasks st) /\
    sent t t' sig true queued.
Proof.
  intros Hs Hq. destruct (stop_or_continue_keeps sig t) as (Hb & Hh & Hp & _ & _ & Hpp). apply notify_sent; cbn; try done.
  intros n Hn. rewrite mem_add by done. rewrite andb_true_r. apply orb_comm.
Qed.

Lemma with_queue_id t : with_queue t (sigqueue t) (tail_ok t) = t.
Proof. by destruct t. Qed.

Lemma mark_sent_only st p t sig : is_sig sig ->
  exists t', tasks (notify_task st p (mark_pending (stop_or_continue sig t) sig)) = <[p := t']> (tasks st) /\ sent t t' sig true [].
Proof.
  intros Hs. rewrite <-(with_queue_id (stop_or_continue sig t)). apply mark_sent; [done|].
  destruct (stop_or_continue_keeps sig t) as (_ & _ & _ & _ & -> & _). by rewrite app_nil_r.
Qed.

(** Nothing is posted: the signal was ignored, or pending before. *)
Lemma keep_sent st p t sig post : is_sig sig -> (post = true -> sigismember (signal t) sig = true) ->
  exists t', tasks (notify_task st p (stop_or_continue sig t)) = <[p := t']> (tasks st) /\ sent t t' sig post [].
Proof.
  intros Hs Hpost. destruct (stop_or_continue_keeps sig t) as (Hb & Hh & Hp & _ & Hq & Hpp). apply notify_sent; try done.
  - intros n Hn. destruct post; [|by rewrite andb_false_r, orb_false_r]. rewrite andb_true_r.
    destruct (Z.eqb_spec sig n) as [<-|]; [|by rewrite orb_false_r].
    rewrite stop_or_continue_mem, cancelled_self, Hpost by done. done.
  - by rewrite app_nil_r.
Qed.

Section send.
Context (st : state) (cur : Z) (admin : bool) (sig : Z) (info : sender) (p : Z) (alloc : bool) (c t : task).
Context (Hc : tasks st !! cur = Some c) (Ht : tasks st !! p = Some t).

(** What [send_sig_info] queues for the process. *)
Definition what_is_queued : list siginfo :=
  if ignored_signal st sig t || (sig <? SIGRTMIN) || negb (tail_ok t) then [] else [queued_info cur c sig info].

Lemma send_posts : is_sig sig -> permitted c admin sig info t -> sigh t <> None ->
  ignored_signal st sig t = true \/ sig < SIGRTMIN \/ room st alloc = true ->
  exists st' t', send_sig_info st cur admin sig info p alloc = Some (0, st') /\ tasks st' = <[p := t']> (tasks st) /\
    action st' = action st /\ sent t t' sig (negb (ignored_signal st sig t)) what_is_queued.
Proof.
  intros Hs Hperm%may_signal_spec Hh Hroom. unfold is_sig in Hs.
  unfold send_sig_info, what_is_queued. rewrite Hc, Ht, Hperm. cbn [negb].
  destruct ((sig <? 0) || (NSIG <? sig)) eqn:E; [lia|]. destruct (sigh t) as [h|] eqn:Eh; [|done].
  destruct (sig =? 0) eqn:E0; [lia|]. cbn [orb]. rewrite ignored_continue.
  destruct (ignored_signal st sig t) eqn:Ei; cbn [negb orb].
  { destruct (keep_sent st p t sig false Hs ltac:(done)) as (t' & E1 & E2). by exists (notify_task st p (stop_or_continue sig t)), t'. }
  destruct (stop_or_continue_keeps sig t) as (Hb & Hh2 & Hp & Htl & Hq & Hpp).
  destruct (sig <? SIGRTMIN) eqn:Er; cbn [orb].
  { destruct (sigismember (signal (stop_or_continue sig t)) sig) eqn:Em.
    - rewrite stop_or_continue_mem in Em by done. apply andb_true_iff in Em as [Em _].
      destruct (keep_sent st p t sig true Hs ltac:(done)) as (t' & E1 & E2). by exists (notify_task st p (stop_or_continue sig t)), t'.
    - destruct (mark_sent_only st p t sig Hs) as (t' & E1 & E2). by eexists _, t'. }
  destruct Hroom as [|[|Hroom]]; [done|lia|]. unfold room in Hroom. rewrite Hroom, Htl.
  destruct (tail_ok t) eqn:Et; cbn [negb].
  - destruct (mark_sent (set_queued st (nr_queued_signals st + 1) (lost st)) p t (sigqueue t ++ [queued_info cur c sig info]) true sig _ Hs eq_refl)
      as (t' & E1 & E2). rewrite Hq. by eexists _, t'.
  - destruct (mark_sent_only (set_queued st (nr_queued_signals st + 1) (lost st + 1)) p t sig Hs) as (t' & E1 & E2). by eexists _, t'.
Qed.

End send.

Lemma send_refused st cur admin sig info p alloc c t :
  tasks st !! cur = Some c -> tasks st !! p = Some t ->
  (sig < 0 \/ NSIG < sig -> send_sig_info st cur admin sig info p alloc = Some (- EINVAL, st)) /\
  (0 <= sig <= NSIG -> ~ permitted c admin sig info t -> send_sig_info st cur admin sig info p alloc = Some (- EPERM, st)) /\
  (0 <= sig <= NSIG -> permitted c admin sig info t -> sig = 0 \/ sigh t = None ->
     send_sig_info st cur admin sig info p alloc = Some (0, st)).
Proof.
  intros Hc Ht. unfold send_sig_info. rewrite Hc, Ht, <-may_signal_spec.
  destruct ((sig <? 0) || (NSIG <? sig)) eqn:E; [split_and!; [done|lia..]|]. split_and!; [lia| |].
  - intros _ Hp. by destruct (may_signal c admin sig info t).
  - intros _ -> [-> | ->]; cbn; [done|]. by rewrite orb_true_r.
Qed.

(** Without room for a queued signal. *)
Lemma send_no_room st cur admin sig i p alloc c t :
  tasks st !! cur = Some c -> tasks st !! p = Some t -> SIGRTMIN <= sig <= NSIG -> permitted c admin sig (SendInfo i) t -> sigh t <> None ->
  ignored_signal st sig t = false -> room st alloc = false ->
  exists st' t', send_sig_info st cur admin sig (SendInfo i) p alloc = Some (if si_code i <? 0 then - EAGAIN else 0, st') /\
    tasks st' = <[p := t']> (tasks st) /\ sent t t' sig (negb (si_code i <? 0)) [].
Proof.
  intros Hc Ht Hs Hperm%may_signal_spec Hh Hi Hroom. pose proof (sig_rt sig Hs) as Hsig. unfold SIGRTMIN in Hs.
  unfold send_sig_info. rewrite Hc, Ht, Hperm. cbn [negb].
  destruct ((sig <? 0) || (NSIG <? sig)) eqn:E; [lia|]. destruct (sigh t) as [h|] eqn:Eh; [|done].
  destruct (sig =? 0) eqn:E0; [lia|]. cbn [orb]. rewrite ignored_continue, Hi.
  destruct (sig <? SIGRTMIN) eqn:Er; [unfold SIGRTMIN in Er; lia|]. unfold room in Hroom. rewrite Hroom.
  destruct (si_code i <? 0); cbn [negb].
  - destruct (keep_sent st p t sig false Hsig ltac:(done)) as (t' & E1 & E2). by eexists _, t'.
  - destruct (mark_sent_only st p t sig Hsig) as (t' & E1 & E2). by eexists _, t'.
Qed.

(** [send_sig_info], on every path.  A number that is no signal: EINVAL.  A sender that
    may not: EPERM.  Signal 0, or a process that has exited: nothing.  Otherwise the
    signal becomes pending unless the process ignores it (and, if it is a real-time
    signal, its information is put at the end of the queue); SIGKILL and SIGCONT take
    pending stop signals back and let a stopped process run, a stop signal takes
    SIGCONT back; nothing else changes, the flag [sigpending] is right, and a process
    that sleeps interruptibly with a signal to take is woken.  Without room in the
    queue a signal from sigqueue is refused with EAGAIN, one from kill becomes
    pending without its information. *)
Theorem send_sig_info_correct st cur admin sig info p alloc c t :
  rtc sig_step sig_init st -> info_ok sig info -> tasks st !! cur = Some c -> tasks st !! p = Some t ->
  (sig < 0 \/ NSIG < sig -> send_sig_info st cur admin sig info p alloc = Some (- EINVAL, st)) /\
  (0 <= sig <= NSIG -> ~ permitted c admin sig info t -> send_sig_info st cur admin sig info p alloc = Some (- EPERM, st)) /\
  (0 <= sig <= NSIG -> permitted c admin sig info t -> sig = 0 \/ sigh t = None ->
     send_sig_info st cur admin sig info p alloc = Some (0, st)) /\
  (is_sig sig -> permitted c admin sig info t -> sigh t <> None ->
     ignored_signal st sig t = true \/ sig < SIGRTMIN \/ room st alloc = true ->
     exists st' t', send_sig_info st cur admin sig info p alloc = Some (0, st') /\ tasks st' = <[p := t']> (tasks st) /\
       action st' = action st /\ sent t t' sig (negb (ignored_signal st sig t)) (what_is_queued st cur sig info c t) /\
       (sigpending t' = true <-> ready t')) /\
  (forall i, info = SendInfo i -> SIGRTMIN <= sig <= NSIG -> permitted c admin sig info t -> sigh t <> None ->
     ignored_signal st sig t = false -> room st alloc = false ->
     exists st' t', send_sig_info st cur admin sig info p alloc = Some (if si_code i <? 0 then - EAGAIN else 0, st') /\
       tasks st' = <[p := t']> (tasks st) /\ sent t t' sig (negb (si_code i <? 0)) [] /\ (sigpending t' = true <-> ready t')).
Proof.
  intros Hst%sig_reachable Hinfo Hc Ht. destruct (send_refused st cur admin sig info p alloc c t Hc Ht) as (R1 & R2 & R3).
  assert (Hflag : forall r st' t', send_sig_info st cur admin sig info p alloc = Some (r, st') -> tasks st' = <[p := t']> (tasks st) ->
    sigpending t' = true <-> ready t').
  { intros r st' t' E Et. apply (ok_send_sig_info st cur admin sig info p alloc r st' Hst Hinfo) in E.
    apply (ok_tasks st' E p). rewrite Et. apply lookup_insert_eq. }
  split_and!; [done|done|done| |].
  - intros Hs Hp Hh Hr. destruct (send_posts st cur admin sig info p alloc c t Hc Ht Hs Hp Hh Hr) as (st' & t' & E & Et & Ea & Hsent).
    exists st', t'. split_and!; try done; by eapply Hflag.
  - intros i -> Hs Hp Hh Hi Hr. destruct (send_no_room st cur admin sig i p alloc c t Hc Ht Hs Hp Hh Hi Hr) as (st' & t' & E & Et & Hsent).
    exists st', t'. split_and!; try done; by eapply Hflag.
Qed.

(** ** SIGKILL *)

(** The pending signals below SIGKILL. *)
Definition below (t : task) : list Z := filter (fun n => sigismember (signal t) n = true) (seqZ 1 8).

Lemma filter_fewer (f g : Z -> bool) n l :
  (forall x, x ∈ l -> g x = true -> f x = true) -> n ∈ l -> f n = true -> g n = false ->
  (length (filter (fun x => g x = true) l) < length (filter (fun x => f x = true) l))%nat.
Proof.
  intros Hgf Hn Hf Hg. induction l as [|x l IH]; [by apply elem_of_nil in Hn|].
  assert (Hle : forall l, (forall x, x ∈ l -> g x = true -> f x = true) ->
    (length (filter (fun x => g x = true) l) <= length (filter (fun x => f x = true) l))%nat).
  { clear. induction l as [|x l IH]; intros Hgf; [done|]. rewrite !filter_cons. specialize (IH ltac:(set_solver)).
    repeat case_decide; cbn; try lia. exfalso. assert (f x = true) by (apply Hgf; set_solver). done. }
  specialize (Hle l ltac:(set_solver)). rewrite !filter_cons. apply elem_of_cons in Hn as [<-|Hn].
  - rewrite Hf, Hg. repeat case_decide; cbn; (done || lia).
  - specialize (IH ltac:(set_solver) Hn). repeat case_decide; cbn; try lia. exfalso. assert (f x = true) by (apply Hgf; set_solver). done.
Qed.

(** A process that is to die: it has not exited, it is not traced, SIGKILL is pending. *)
Record doomed (st : state) (p : Z) (t : task) : Prop := {
  dm_ok : state_ok st;
  dm_task : tasks st !! p = Some t;
  dm_live : sigh t <> None;
  dm_untraced : ptraced t = false;
  dm_kill : sigismember (signal t) SIGKILL = true }.

Lemma doomed_next st p t : doomed st p t ->
  deliverable (signal t) (blocked t) (next_signal (signal t) (blocked t)) /\ 1 <= next_signal (signal t) (blocked t) <= SIGKILL.
Proof.
  intros [Hst Hp Hh Hu Hk]. pose proof (ok_tasks st Hst p t Hp) as Ht. pose proof (tk_blocked t Ht) as (_ & Hb & _).
  assert (Hd : deliverable (signal t) (blocked t) SIGKILL) by (split; [apply sig_kill|done]).
  destruct (decide (next_signal (signal t) (blocked t) = 0)) as [E|E].
  - exfalso. by apply (next_signal_none _ _ (tk_signal t Ht) E SIGKILL).
  - destruct (next_signal_some _ _ (tk_signal t Ht) E) as [Hn Hl]. split; [done|]. specialize (Hl _ Hd). destruct Hn as [Hn _].
    unfold is_sig in Hn. lia.
Qed.

Lemma dequeue_action st p t mask b sig info st' : dequeue_signal st p t mask b = (sig, info, st') -> action st' = action st.
Proof. unfold dequeue_signal. repeat case_match; intros; by simplify_eq. Qed.

(** What [act_on] does with one of the first nine signals. *)
Lemma act_on_low st cur admin t n orphaned dumped garbage alloc frame h :
  sigh t = Some h -> cur <> 1 -> 1 <= n <= SIGKILL ->
  (exists code t', act_on st cur admin t n orphaned dumped garbage alloc frame =
     Some (Exit code, flush_signals st cur t') /\ tstate t' = TASK_ZOMBIE /\ sigh t' = None /\ Z.land code 0x7f = n) \/
  sa_handler (action st h n) <> SIG_DFL /\
  (act_on st cur admin t n orphaned dumped garbage alloc frame = Some (Continue, st) \/
   act_on st cur admin t n orphaned dumped garbage alloc frame = Some (handle_signal st cur t h n frame)).
Proof.
  intros Eh Hc Hn. unfold act_on. rewrite Eh. cbn [mbind option_bind].
  destruct (Z.eqb_spec (sa_handler (action st h n)) SIG_IGN) as [E|E].
  { right. rewrite E. split; [done|by left]. }
  destruct (Z.eqb_spec (sa_handler (action st h n)) SIG_DFL) as [E'|E']; [|right; auto].
  destruct (Z.eqb_spec cur 1); [done|].
  destruct ((n =? SIGCONT) || (n =? SIGCHLD) || (n =? SIGWINCH)) eqn:E1; [unfold SIGKILL, SIGCONT, SIGCHLD, SIGWINCH in *; lia|].
  destruct (stop_signal n) eqn:E2; [unfold stop_signal, SIGKILL, SIGSTOP, SIGTSTP, SIGTTIN, SIGTTOU in *; lia|].
  left. do 2 eexists. split; [reflexivity|]. split_and!; [done|done|].
  assert (n = 1 \/ n = 2 \/ n = 3 \/ n = 4 \/ n = 5 \/ n = 6 \/ n = 7 \/ n = 8 \/ n = 9) as Hcase by (unfold SIGKILL in Hn; lia).
  by destruct dumped; repeat destruct Hcase as [-> | Hcase]; subst.
Qed.

(** The three ways in which a handler starts, or does not. *)
Lemma handle_signal_cases st cur t h n frame : tasks st !! cur = Some t ->
  match handle_signal st cur t h n frame with
  | (Handler n' _, st') => n' = n /\ exists t', tasks st' !! cur = Some t' /\ signal t' = signal t /\ sigh t' = sigh t /\ ptraced t' = ptraced t
  | (Exit code, st') => code = SIGSEGV /\ exists t', tasks st' !! cur = Some t' /\ tstate t' = TASK_ZOMBIE /\ sigh t' = None
  | (Halted, _) => Z.land (sa_flags (action st h n)) SA_SIGINFO <> 0
  | _ => False
  end.
Proof.
  intros Ht. unfold handle_signal. destruct (Z.eqb_spec (Z.land (sa_flags (action st h n)) SA_SIGINFO) 0) as [E|E]; [|done].
  cbn [negb]. destruct frame; cbn [negb]; (split; [done|]).
  - destruct (Z.land _ SA_NODEFER =? 0); [eexists; split; [cbn; apply lookup_insert_eq|done]|]. exists t. by destruct (negb _).
  - eexists. split; [cbn; apply lookup_insert_eq|done].
Qed.

(** What the delivery of one signal, or of several, can come to for a process that is to
    die: it exits, killed by one of the first nine signals or because the stack of a
    handler is unusable; or a handler starts for a lower-numbered signal, which is no
    longer pending then; or such a handler wants SA_SIGINFO, and the machine halts. *)
Definition fatal (st : state) (p : Z) (t : task) (d : delivery) (st' : state) : Prop :=
  match d with
  | Exit code => (1 <= Z.land code 0x7f <= SIGKILL \/ code = SIGSEGV) /\ exists t', tasks st' !! p = Some t' /\ tstate t' = TASK_ZOMBIE /\ sigh t' = None
  | Handler n _ => 1 <= n < SIGKILL /\ sigismember (signal t) n = true /\
      exists t', doomed st' p t' /\ (length (below t') < length (below t))%nat
  | Halted => exists n h, 1 <= n < SIGKILL /\ sigismember (signal t) n = true /\ sigh t = Some h /\ Z.land (sa_flags (action st h n)) SA_SIGINFO <> 0
  | _ => False
  end.

Lemma turn_progress st p t admin orphaned dumped garbage alloc frame : doomed st p t -> p <> 1 ->
  exists d st', do_signal_turn st p admin orphaned dumped garbage alloc frame = Some (d, st') /\
    (fatal st p t d st' \/
     d = Continue /\ action st' = action st /\ exists t', doomed st' p t' /\ sigh t' = sigh t /\ (length (below t') < length (below t))%nat /\
       forall n, 1 <= n < SIGKILL -> sigismember (signal t') n = true -> sigismember (signal t) n = true).
Proof.
  intros Hd Hp1. destruct (doomed_next st p t Hd) as [Hnext Hrange]. destruct Hd as [Hst Hp Hh Hu Hk].
  assert (E0 : next_signal (signal t) (blocked t) <> 0) by lia.
  destruct (dequeue_found st p t (blocked t) true Hst Hp E0) as (info & t1 & st1 & Ed & Ht1 & Htk).
  pose proof (dequeue_action _ _ _ _ _ _ _ _ Ed) as Hact1.
  destruct (ok_dequeue_signal st p t (blocked t) true _ info st1 Hst Hp ltac:(done) Ed) as (Hok1 & t1' & Et & _ & _ & _ & Hh1 & _ & Hu1 & _).
  rewrite Et, lookup_insert_eq in Ht1. injection Ht1 as ->. set (n := next_signal (signal t) (blocked t)) in *.
  assert (Ht1 : tasks st1 !! p = Some t1) by (rewrite Et; apply lookup_insert_eq).
  assert (Hturn : do_signal_turn st p admin orphaned dumped garbage alloc frame = act_on st1 p admin t1 n orphaned dumped garbage alloc frame).
  { unfold do_signal_turn. rewrite Hp. cbn [mbind option_bind]. rewrite Ed, Ht1. cbn [mbind option_bind].
    destruct (Z.eqb_spec n 0); [lia|]. by rewrite Hu1, Hu. }
  destruct (sigh t) as [h|] eqn:Eh; [|done]. rewrite Hturn.
  destruct (act_on_low st1 p admin t1 n orphaned dumped garbage alloc frame h Hh1 Hp1 Hrange) as [(code & t' & E & Hz & Hn' & Hcode)|[Hne Hact]].
  - exists (Exit code), (flush_signals st1 p t'). split; [done|]. left. split; [left; lia|]. eexists. split; [cbn; apply lookup_insert_eq|]. by split.
  - assert (Hnk : n <> SIGKILL).
    { intros E. rewrite E in Hne. by apply Hne, (ok_fixed st1 Hok1). }
    assert (Hsub : forall x, 1 <= x < SIGKILL -> sigismember (signal t1) x = true -> sigismember (signal t) x = true).
    { intros x Hx. destruct (decide (x = n)) as [->|]; [by destruct Hnext as (_ & -> & _)|].
      rewrite (tk_bits _ _ _ _ _ _ Htk); [done| |done]. unfold is_sig, NSIG, SIGKILL in *. lia. }
    assert (Hless : forall t', signal t' = signal t1 -> (length (below t') < length (below t))%nat).
    { intros t' Es. unfold below. rewrite Es. apply (filter_fewer (sigismember (signal t)) (sigismember (signal t1)) n).
      - intros x Hx. apply Hsub. apply elem_of_seqZ in Hx. unfold SIGKILL. lia.
      - apply elem_of_seqZ. unfold SIGKILL in *. lia.
      - by destruct Hnext as (_ & -> & _).
      - rewrite (tk_bit _ _ _ _ _ _ Htk). apply bool_decide_eq_false. intros Hq. apply Hq, of_sig_nil, Forall_forall.
        intros i Hi. destruct (task_queued t1 i (ok_tasks st1 Hok1 p t1 Ht1) Hi) as (? & _). unfold SIGRTMIN, SIGKILL in *. lia. }
    assert (Hk1 : sigismember (signal t1) SIGKILL = true).
    { rewrite (tk_bits _ _ _ _ _ _ Htk); [done|apply sig_kill|done]. }
    assert (Hlow : 1 <= n < SIGKILL /\ sigismember (signal t) n = true) by (split; [lia|by destruct Hnext as (_ & ? & _)]).
    destruct Hact as [E|E].
    + do 2 eexists. split; [exact E|]. right. split; [done|]. split; [done|]. exists t1. split; [|split; [congruence|split; [by apply Hless|exact Hsub]]]. constructor; try done; congruence.
    + pose proof (handle_signal_cases st1 p t1 h n frame Ht1) as Hc. pose proof (ok_handle_signal st1 p t1 h n frame Hok1 Ht1 (proj1 Hnext) Hne) as Hok2.
      destruct (handle_signal st1 p t1 h n frame) as [d st2]. exists d, st2. split; [done|]. left. destruct d; try done; cbn [fatal].
      * destruct Hc as [-> Hc]. split; [by right|exact Hc].
      * destruct Hc as [-> (t' & Ht' & Es & Eh' & Eu')]. destruct Hlow as [H1 H2]. split; [done|]. split; [done|]. exists t'. split; [|by apply Hless].
        constructor; [done|done|congruence|congruence|by rewrite Es].
      * exists n, h. rewrite <- Hact1. by destruct Hlow.
Qed.

(** A call of [i370_do_signal] ends. *)
Lemma do_signal_fatal env st p t : doomed st p t -> p <> 1 -> (length (below t) < length env)%nat ->
  exists d st', i370_do_signal env st p = Some (d, st') /\ fatal st p t d st'.
Proof.
  revert st t. induction env as [|e env IH]; intros st t Hd Hp1 Hk; cbn [length] in Hk; [lia|]. cbn [i370_do_signal].
  destruct (turn_progress st p t (o_admin e) (o_orphaned e) (o_dumped e) (o_garbage e) (o_alloc e) (o_frame e) Hd Hp1) as (d & st1 & -> & Hcase). cbn [mbind option_bind].
  destruct Hcase as [Hf|(-> & Ha & t' & Hd' & Hh & Hl & Hsub)]; [by exists d, st1; destruct d|].
  destruct (IH st1 t' Hd' Hp1 ltac:(lia)) as (d & st' & -> & Hf). exists d, st'. split; [done|]. destruct d; try done; cbn [fatal] in *.
  - destruct Hf as (H1 & H2 & t2 & H3 & H4). split; [done|]. split; [by apply Hsub|]. exists t2. split; [done|lia].
  - destruct Hf as (n & h & H1 & H2 & H3 & H4). exists n, h. rewrite <- Ha, <- Hh. split; [done|]. split; [by apply Hsub|done].
Qed.

Lemma below_length t : (length (below t) <= 8)%nat.
Proof. unfold below. rewrite length_filter. done. Qed.

Lemma doomed_pending st p t : doomed st p t -> sigpending t = true.
Proof. intros Hd. apply (ok_tasks st (dm_ok _ _ _ Hd) p t (dm_task _ _ _ Hd)). eexists. apply (doomed_next st p t Hd). Qed.

(** C24: SIGKILL cannot be caught, blocked, ignored or slept through.  Sent by one who may to a
    process other than init that has not exited and is not traced, in any reachable state:
    the call succeeds, SIGKILL is pending, and the process is not left stopped or in an
    interruptible sleep.  Whatever happens next, in the process and elsewhere: as long as
    SIGKILL is still pending (sigtimedwait can take it, see [sigtimedwait_takes_sigkill])
    and the process untraced, [sigpending] stays set, and at the end of its next system
    call the process exits, or a handler starts for a pending signal with a lower number,
    which is then no longer pending while SIGKILL still is (the machine halts if that
    handler has SA_SIGINFO).  So it exits as soon as no lower-numbered signal with a
    handler is left.  (The histories leave out [force_sig_info] for a signal that is
    pending and blocked.) *)
Theorem sigkill_terminates st cur admin info p alloc c t :
  rtc sig_step sig_init st -> info_ok SIGKILL info ->
  tasks st !! cur = Some c -> tasks st !! p = Some t -> permitted c admin SIGKILL info t ->
  p <> 1 -> sigh t <> None -> ptraced t = false ->
  exists st1 t1, send_sig_info st cur admin SIGKILL info p alloc = Some (0, st1) /\ tasks st1 !! p = Some t1 /\
    sigismember (signal t1) SIGKILL = true /\ sigpending t1 = true /\ tstate t1 <> TASK_STOPPED /\ tstate t1 <> TASK_INTERRUPTIBLE /\
    forall st2 t2 env, rtc sig_step st1 st2 -> tasks st2 !! p = Some t2 ->
      sigismember (signal t2) SIGKILL = true -> ptraced t2 = false -> sigh t2 <> None -> (9 <= length env)%nat ->
      sigpending t2 = true /\ exists d st3, ret_from_syscall env st2 p = Some (d, st3) /\ fatal st2 p t2 d st3.
Proof.
  intros Hst%sig_reachable Hinfo Hc Ht Hperm Hp1 Hh Hu. pose proof (ok_tasks st Hst p t Ht) as Htk.
  assert (Hig : ignored_signal st SIGKILL t = false).
  { unfold ignored_signal. rewrite Hu. destruct (tk_blocked t Htk) as (_ & -> & _). cbn. destruct (sigh t); [|done].
    by destruct (ok_fixed st Hst z) as [-> _]. }
  destruct (send_posts st cur admin SIGKILL info p alloc c t Hc Ht sig_kill Hperm Hh (or_intror (or_introl (eq_refl : SIGKILL < SIGRTMIN))))
    as (st1 & t1 & E & Et & _ & Hsent).
  pose proof (ok_send_sig_info st cur admin SIGKILL info p alloc 0 st1 Hst Hinfo E) as Hok1.
  assert (Ht1 : tasks st1 !! p = Some t1) by (rewrite Et; apply lookup_insert_eq).
  pose proof (st_bit _ _ _ _ _ Hsent) as Hbit. rewrite Hig, orb_true_r in Hbit.
  pose proof (st_same _ _ _ _ _ Hsent) as (Hh1 & Hu1 & _).
  assert (Hd : doomed st1 p t1) by (constructor; try done; congruence).
  pose proof (doomed_pending st1 p t1 Hd) as Hpend.
  pose proof (st_state _ _ _ _ _ Hsent) as Hstate. rewrite Hpend, andb_true_r in Hstate. cbn [Z.eqb] in Hstate.
  exists st1, t1. split_and!; [done..| | |].
  - rewrite Hstate. repeat case_match; try done. intros E'. rewrite E' in *. done.
  - rewrite Hstate. repeat case_match; try done. intros E'. rewrite E' in *. done.
  - intros st2 t2 env Hsteps Ht2 Hk2 Hu2 Hh2 Henv. assert (state_ok st2) as Hok2 by (by eapply steps_ok).
    assert (Hd2 : doomed st2 p t2) by (by constructor). pose proof (doomed_pending st2 p t2 Hd2) as Hp2. split; [done|].
    unfold ret_from_syscall. rewrite Ht2. cbn [mbind option_bind]. rewrite Hp2. apply do_signal_fatal; [done|done|]. pose proof (below_length t2). lia.
Qed.

(** ** Examples *)

Definition after {A} (o : option (A * state)) : state := match o with Some (_, st) => st | None => sig_init end.

(** init forks process 2, and queues it three real-time signals. *)
Definition demo_fork : state := fork_signals sig_init 1 2 first_task false false 5.

Definition queue_to (st : state) (pid sig value : Z) : option (Z * state) :=
  sys_rt_sigqueueinfo st 1 false pid sig (Some (Siginfo 0 0 (-1) 1 0 value)) (fun _ => true).

Definition demo_one : state := after (queue_to demo_fork 2 40 10).

Definition demo_two : state := after (queue_to demo_one 2 34 20).

Definition demo : state := after (queue_to demo_two 2 34 30).

Definition demo_task : task :=
  Task 0 0 false 0 0 0 1 TASK_RUNNING false 0 (Some 5) sigemptyset (Sigset 0 (Z.lor (Z.shiftl 1 1) (Z.shiftl 1 7))) true
    [Siginfo 40 0 (-1) 1 0 10; Siginfo 34 0 (-1) 1 0 20; Siginfo 34 0 (-1) 1 0 30] true 0 0.

Lemma queue_step st st' pid sig value : queue_to st pid sig value = Some (0, st') -> sig_step st st'.
Proof. apply step_queueinfo. Qed.

Lemma sig_demo_reachable : rtc sig_step sig_init demo.
Proof.
  eapply rtc_l; [by apply (step_fork _ 1 2 first_task false false 5)|].
  eapply rtc_l; [apply (queue_step demo_fork demo_one 2 40 10); reflexivity|].
  eapply rtc_l; [apply (queue_step demo_one demo_two 2 34 20); reflexivity|].
  eapply rtc_l; [apply (queue_step demo_two demo 2 34 30); reflexivity|]. apply rtc_refl.
Qed.

Lemma demo_lookup : tasks demo !! 2 = Some demo_task.
Proof. reflexivity. Qed.

Lemma demo_init : tasks demo !! 1 = Some first_task.
Proof. reflexivity. Qed.

Lemma sig_reachable_ok_witness :
  rtc sig_step sig_init demo /\ nr_queued_signals demo = 3 /\
  nr_queued_signals demo = msum (fun t => Z.of_nat (length (sigqueue t))) (tasks demo) + lost demo.
Proof.
  split; [exact sig_demo_reachable|]. split; [reflexivity|]. apply (sig_reachable_ok demo sig_demo_reachable).
Defined.

Lemma dequeue_signal_correct_witness :
  let '(sig, info, st') := dequeue_signal demo 2 demo_task sigemptyset false in
  sig = 34 /\ si_value info = 20 /\
  exists t', tasks st' = <[2 := t']> (tasks demo) /\ taken demo st' demo_task t' sig info.
Proof.
  pose proof (dequeue_signal_correct demo 2 demo_task sigemptyset sig_demo_reachable demo_lookup) as H.
  assert (Hs : (dequeue_signal demo 2 demo_task sigemptyset false).1.1 = 34 /\
               si_value (dequeue_signal demo 2 demo_task sigemptyset false).1.2 = 20) by (split; reflexivity).
  destruct (dequeue_signal demo 2 demo_task sigemptyset false) as [[sig info] st']. cbn in Hs. destruct Hs as [-> Hv].
  split; [done|]. split; [done|]. destruct H as [(? & _)|(_ & _ & t' & Et & Htk & _)]; [done|]. by exists t'.
Defined.

Lemma send_sig_info_correct_witness :
  info_ok SIGSTOP SendUser /\ is_sig SIGSTOP /\ permitted first_task false SIGSTOP SendUser demo_task /\
  exists st' t', send_sig_info demo 1 false SIGSTOP SendUser 2 true = Some (0, st') /\
    tasks st' = <[2 := t']> (tasks demo) /\ sent demo_task t' SIGSTOP true [].
Proof.
  assert (Hp : permitted first_task false SIGSTOP SendUser demo_task) by (right; right; left; reflexivity).
  split; [done|]. split; [apply sig_stop|]. split; [done|].
  destruct (send_sig_info_correct demo 1 false SIGSTOP SendUser 2 true first_task demo_task sig_demo_reachable I demo_init demo_lookup)
    as (_ & _ & _ & H & _).
  destruct (H sig_stop Hp ltac:(done) ltac:(right; left; reflexivity)) as (st' & t' & E & Et & _ & Hs & _).
  exists st', t'. exact (conj E (conj Et Hs)).
Defined.

Lemma sigkill_terminates_witness :
  permitted first_task false SIGKILL SendUser demo_task /\
  exists st1 t1, send_sig_info demo 1 false SIGKILL SendUser 2 true = Some (0, st1) /\ tasks st1 !! 2 = Some t1 /\
    exists d st2, ret_from_syscall (replicate 9 (Outside false false false 0 true true)) st1 2 = Some (d, st2) /\ fatal st1 2 t1 d st2 /\ d = Exit SIGKILL.
Proof.
  assert (Hp : permitted first_task false SIGKILL SendUser demo_task) by (right; right; left; reflexivity). split; [done|].
  destruct (sigkill_terminates demo 1 false SendUser 2 true first_task demo_task sig_demo_reachable I demo_init demo_lookup Hp
    ltac:(done) ltac:(done) eq_refl) as (st1 & t1 & E & Et & Hk & _ & _ & _ & H).
  exists st1, t1. refine (conj E (conj Et _)). pose proof E as E'. vm_compute in E'. injection E' as <-. pose proof Et as Et'. vm_compute in Et'. injection Et' as <-.
  destruct (H _ _ (replicate 9 (Outside false false false 0 true true)) (rtc_refl _ _) eq_refl Hk eq_refl ltac:(done) (le_n 9)) as (_ & d & st3 & E3 & Hf).
  exists d, st3. refine (conj E3 (conj Hf _)). vm_compute in E3. injection E3 as <- _. reflexivity.
Defined.

(** ** Where the code departs from what it means to do *)

(** With an invalid [how] the call fails with EINVAL, but the mask has been replaced. *)
Example rt_sigprocmask_invalid_how :
  let '(r, _, st') := sys_rt_sigprocmask demo 2 demo_task 7 (Some (Some (Sigset 6 0))) None true in
  r = - EINVAL /\ (blocked <$> tasks st' !! 2) = Some (Sigset 6 0).
Proof. by vm_compute. Qed.

(** Ignoring the real-time signal that is last in the queue leaves [sigqueue_tail] in
    the freed node: the next signal is counted and pending, but not in the queue. *)
Example sigaction_loses_signals :
  let st := (do_sigaction demo 2 demo_task 5 34 (Some (Sigaction SIG_IGN 0 sigemptyset))).2 in
  let st' := after (queue_to st 2 50 99) in
  (fst <$> queue_to st 2 50 99) = Some 0 /\
  (sigqueue <$> tasks st' !! 2) = Some [Siginfo 40 0 (-1) 1 0 10] /\ nr_queued_signals st' = 2 /\ lost st' = 1 /\
  ((fun t => sigismember (signal t) 50) <$> tasks st' !! 2) = Some true.
Proof. by vm_compute. Qed.

(** A real-time signal from the kernel when there is no memory: [info->si_code] is read
    through the pointer 1. *)
Example send_full_queue_faults : send_sig_info demo 1 false 35 SendKernel 2 false = None.
Proof. by vm_compute. Qed.

(** Process 2 with these signals blocked and pending. *)
Definition demo_with (b s : sigset) : state :=
  set_task demo 2 (Task 0 0 false 0 0 0 1 TASK_RUNNING false 0 (Some 5) b s false [] true 0 0).

(** SIGSEGV is blocked and pending when [force_sig_info] unblocks it: [send_sig_info] finds
    it pending, and [sigpending] stays clear. *)
Example force_sig_not_delivered :
  let segv := sigaddset sigemptyset SIGSEGV in
  let st' := after (force_sig (demo_with segv segv) 2 false SIGSEGV 2 true) in
  (fst <$> force_sig (demo_with segv segv) 2 false SIGSEGV 2 true) = Some 0 /\
  ((fun t => (sigismember (signal t) SIGSEGV, sigismember (blocked t) SIGSEGV, sigpending t)) <$> tasks st' !! 2) = Some (true, false, false).
Proof. by vm_compute. Qed.

(** [sys_rt_sigtimedwait] takes a pending SIGKILL as any other signal: the process goes on. *)
Example sigtimedwait_takes_sigkill :
  let st1 := after (send_sig_info demo 1 false SIGKILL SendUser 2 true) in
  match sys_rt_sigtimedwait st1 2 (default demo_task (tasks st1 !! 2)) (Some (sigaddset sigemptyset SIGKILL)) None None true with
  | inl (sig, _, st2) => sig = SIGKILL /\ ((fun t => sigismember (signal t) SIGKILL) <$> tasks st2 !! 2) = Some false
  | inr _ => False
  end.
Proof. by vm_compute. Qed.

(** SIGURG, whose default action is to be ignored, kills when it was blocked. *)
Example sigurg_kills :
  let st1 := after (send_sig_info (demo_with (sigaddset sigemptyset SIGURG) sigemptyset) 1 false SIGURG SendUser 2 true) in
  let st2 := (sys_rt_sigprocmask st1 2 (default demo_task (tasks st1 !! 2)) SIG_SETMASK (Some (Some sigemptyset)) None true).2 in
  (fst <$> do_signal_turn st2 2 false false false 0 true true) = Some (Exit SIGURG).
Proof. by vm_compute. Qed.

(** kill(-1) reports success when it was not permitted to signal any process. *)
Example kill_all_hides_eperm :
  let u := Task 0 0 false 7 7 7 1 TASK_RUNNING false 0 (Some 5) sigemptyset sigemptyset false [] true 0 0 in
  let st := State (<[3 := u]> (tasks demo)) [1; 2; 3] (action demo) (nr_queued_signals demo) (max_queued_signals demo) 0 ∅ in
  (fst <$> sys_kill st 3 false (-1) SIGKILL (fun _ => true)) = Some 0 /\
  (fst <$> sys_kill st 3 false 2 SIGKILL (fun _ => true)) = Some (- EPERM).
Proof. by vm_compute. Qed.
