(* ===== verification/Ksem.v ===== *)
(** * The kernel's own semaphores (include/asm-i370/semaphore.h, kernel/sched.c)

    [down], [down_interruptible] and [up] with their slow paths, divided into their
    atomic steps: other processors, processes and interrupts can run between any two
    of them.  The state adds two numbers to the semaphore that the code does not
    have, how often it has been acquired and released.  A process that is in none of
    the operations is not in [procs]; an interrupt that calls [up] counts as a
    process. *)

From S2P Require Import Prelude Bitops.

(** ** Atomic counters (include/asm-i370/atomic.h) *)

Definition atomic_inc_return (env : list interference) (v : Z) : Z := (cs_loop (fun x => s32 (x + 1)) env v).2.

Definition atomic_dec_return (env : list interference) (v : Z) : Z := (cs_loop (fun x => s32 (x - 1)) env v).2.

(** The answer, and the counter afterwards. *)
Fixpoint atomic_dec_if_positive (env : list interference) (cnt : Z) : bool * Z :=
  if cnt <=? 0 then (false, cnt)
  else match env with
  | [] => (true, s32 (cnt - 1))
  | e :: env =>
    let oldval := cnt in
    let cnt := between_loads e cnt in
    let newval := s32 (cnt - 1) in
    let cnt := before_cs e cnt in
    if cnt =? oldval then (true, newval) else atomic_dec_if_positive env cnt
  end.

(** ** The semaphore and the processes *)

Record semaphore := Semaphore { count : Z; waking : Z; wait : list Z }.

(** Only the count is set. *)
Definition sema_init (s : semaphore) (val : Z) : semaphore := Semaphore val (waking s) (wait s).

Definition MUTEX : semaphore := Semaphore 1 0 [].

Definition MUTEX_LOCKED : semaphore := Semaphore 0 0 [].

(** Where a process is.  In [__down] and [__down_interruptible]: before it joins the
    wait queue; before [waking_non_zero]; before [signal_pending]; before it gives
    up; in [schedule]; after the loop, with its result.  In [__up]: before
    [wake_one_more]; before [wake_up]. *)
Inductive location := Enqueue | Test | Check_signal | Give_up | Sleep | Leave (ret : Z) | Up_waking | Up_wake.

(** [intr]: the interruptible variant; [running]: the state is TASK_RUNNING. *)
Record proc := Proc { loc : location; intr : bool; running : bool }.

Record state := State { sem : semaphore; procs : gmap Z proc; acquired : Z; released : Z }.

(** A semaphore in cleared memory that [sema_init] sets up; with 1 and 0 these are [MUTEX]
    and [MUTEX_LOCKED]. *)
Definition sem_start (val : Z) : state := State (sema_init (Semaphore 0 0 []) val) ∅ 0 0.

(** ** The operations *)

(** The start of [down] and [down_interruptible]; without contention that is all. *)
Definition down (st : state) (p : Z) (intr : bool) : state :=
  let s := sem st in
  let c := atomic_dec_return [] (count s) in
  let s := Semaphore c (waking s) (wait s) in
  if c <? 0 then State s (<[p := Proc Enqueue intr true]> (procs st)) (acquired st) (released st)
  else State s (procs st) (acquired st + 1) (released st).

(** The start of [up]. *)
Definition up (st : state) (p : Z) : state :=
  let s := sem st in
  let c := atomic_inc_return [] (count s) in
  let s := Semaphore c (waking s) (wait s) in
  State s (if c <=? 0 then <[p := Proc Up_waking false true]> (procs st) else procs st) (acquired st) (released st + 1).

Definition wake_up (wait : list Z) (procs : gmap Z proc) : gmap Z proc :=
  map_imap (fun q pr => Some (if decide (q ∈ wait) then Proc (loc pr) (intr pr) true else pr)) procs.

Definition move (st : state) (s : semaphore) (p : Z) (pr : proc) : state := State s (<[p := pr]> (procs st)) (acquired st) (released st).

(** The next atomic step of a process; [signal] is the answer of [signal_pending], if it
    is asked for.  [None]: the process sleeps. *)
Definition run (st : state) (p : Z) (pr : proc) (signal : bool) : option state :=
  let s := sem st in
  match loc pr with
  | Enqueue => Some (move st (Semaphore (count s) (waking s) (p :: wait s)) p (Proc Test (intr pr) false))
  | Test =>
    let '(woken, w) := atomic_dec_if_positive [] (waking s) in
    let s := Semaphore (count s) w (wait s) in
    if woken then Some (State s (<[p := Proc (Leave 0) (intr pr) (running pr)]> (procs st)) (acquired st + 1) (released st))
    else Some (move st s p (Proc (if intr pr then Check_signal else Sleep) (intr pr) (running pr)))
  | Check_signal => Some (move st s p (Proc (if signal then Give_up else Sleep) (intr pr) (running pr)))
  | Give_up => Some (move st (Semaphore (atomic_inc_return [] (count s)) (waking s) (wait s)) p (Proc (Leave (- EINTR)) (intr pr) (running pr)))
  | Sleep =>
    if running pr || (intr pr && signal) then Some (move st s p (Proc Test (intr pr) false)) else None
  | Leave _ =>
    Some (State (Semaphore (count s) (waking s) (filter (fun q => q <> p) (wait s))) (delete p (procs st)) (acquired st) (released st))
  | Up_waking => Some (move st (Semaphore (count s) (atomic_inc_return [] (waking s)) (wait s)) p (Proc Up_wake (intr pr) (running pr)))
  | Up_wake => Some (State s (wake_up (wait s) (delete p (procs st))) (acquired st) (released st))
  end.

(** ** Steps

    A process starts an operation, or goes on with it.  The counters do not overflow:
    there are fewer than 2^31 processes, and not so many calls of [up] more than of
    [down]. *)
Inductive start (st : state) : state -> Prop :=
| start_down p i : procs st !! p = None -> - 2 ^ 31 < count (sem st) -> start st (down st p i)
| start_up p : procs st !! p = None -> count (sem st) < 2 ^ 31 - 1 -> start st (up st p).

(** The calls of [up] that have changed [count] and not yet [waking]. *)
Definition at_loc (f : location -> bool) (pr : proc) : Z := if f (loc pr) then 1 else 0.

Definition is_up_waking (l : location) : bool := match l with Up_waking => true | _ => false end.
Definition is_up_wake (l : location) : bool := match l with Up_wake => true | _ => false end.

Definition waiting (l : location) : bool :=
  match l with Enqueue | Test | Check_signal | Give_up | Sleep => true | _ => false end.

Definition number (f : location -> bool) (st : state) : Z := msum (at_loc f) (procs st).

(** A waiter gives up.  With [strict], only before another [up] came after it had looked at
    [waking]; otherwise at any moment (and the counter does not overflow). *)
Definition gives_up (strict : bool) (st : state) (pr : proc) : Prop :=
  loc pr = Give_up -> if strict then waking (sem st) = 0 /\ number is_up_waking st = 0 else count (sem st) < 2 ^ 31 - 1.

Inductive continue (strict : bool) (signal : Z -> bool) (st : state) : state -> Prop :=
| continue_run p pr st' :
    procs st !! p = Some pr -> gives_up strict st pr -> waking (sem st) < 2 ^ 31 - 1 -> run st p pr (signal p) = Some st' -> continue strict signal st st'.

Definition any_step (strict : bool) (st st' : state) : Prop := start st st' \/ exists signal, continue strict signal st st'.

(** The interleavings in which no [up] comes between a waiter's look at [waking] and its
    giving up. *)
Definition sem_step : state -> state -> Prop := any_step true.

(** ** The invariant *)

(** On the wait queue. *)
Definition queued (l : location) : bool := match l with Test | Check_signal | Give_up | Sleep | Leave _ => true | _ => false end.

(** Has found [waking] zero, and has not been woken since. *)
Definition dormant (pr : proc) : bool := match loc pr with Check_signal | Sleep => negb (running pr) | _ => false end.

Record sem_ok (strict : bool) (val : Z) (st : state) : Prop := {
  so_count : - 2 ^ 31 <= count (sem st) < 2 ^ 31;
  so_waking : 0 <= waking (sem st) < 2 ^ 31;
  so_waiters : count (sem st) + number waiting st = val + released st - acquired st;
  so_free : val + released st - acquired st <= Z.max (count (sem st)) 0 + waking (sem st) + number is_up_waking st;
  so_exact : strict = true -> Z.max (count (sem st)) 0 + waking (sem st) + number is_up_waking st <= val + released st - acquired st;
  so_queue : forall p, p ∈ wait (sem st) <-> exists pr, procs st !! p = Some pr /\ queued (loc pr) = true;
  so_dormant : forall p pr, procs st !! p = Some pr -> dormant pr = true -> waking (sem st) <= number is_up_wake st }.

Lemma cs_inc v : atomic_inc_return [] v = s32 (v + 1).
Proof. done. Qed.

Lemma cs_dec v : atomic_dec_return [] v = s32 (v - 1).
Proof. done. Qed.

Lemma dec_if_positive v : 0 <= v < 2 ^ 31 -> atomic_dec_if_positive [] v = if v =? 0 then (false, 0) else (true, v - 1).
Proof.
  intros. cbn [atomic_dec_if_positive]. destruct (v <=? 0) eqn:E, (v =? 0) eqn:E'; try lia.
  - f_equal. lia.
  - f_equal. apply s32_id. lia.
Qed.

(** Without stores between the two loads of the loop the counter never loses a change. *)
Lemma dec_if_positive_atomic env cnt :
  Forall (fun e => forall x, between_loads e x = x) env ->
  exists v, atomic_dec_if_positive env cnt = if v <=? 0 then (false, v) else (true, s32 (v - 1)).
Proof.
  revert cnt. induction env as [|e env IH]; intros cnt He; cbn [atomic_dec_if_positive].
  - exists cnt. by destruct (cnt <=? 0).
  - apply Forall_cons in He as [He Henv]. rewrite He. destruct (cnt <=? 0) eqn:E0; [exists cnt; by rewrite E0|].
    destruct (before_cs e cnt =? cnt); [|by apply IH]. exists cnt. by rewrite E0.
Qed.

Lemma at_loc_nonneg f pr : 0 <= at_loc f pr.
Proof. unfold at_loc. by case_match. Qed.

Lemma number_nonneg f st : 0 <= number f st.
Proof. apply msum_nonneg. intros. apply at_loc_nonneg. Qed.

Lemma number_ge f st p pr : procs st !! p = Some pr -> f (loc pr) = true -> 1 <= number f st.
Proof.
  intros Hp Hf. pose proof (msum_ge (at_loc f) (procs st) p pr (at_loc_nonneg f) Hp) as H. unfold at_loc at 1 in H. by rewrite Hf in H.
Qed.

(** A process moves from one place to another. *)
Lemma ok_move strict val st s p pr pr' acq :
  sem_ok strict val st -> procs st !! p = Some pr ->
  - 2 ^ 31 <= count s < 2 ^ 31 -> 0 <= waking s < 2 ^ 31 ->
  (count s - count (sem st)) + (at_loc waiting pr' - at_loc waiting pr) = acquired st - acq ->
  acquired st - acq <= (Z.max (count s) 0 + waking s) - (Z.max (count (sem st)) 0 + waking (sem st)) + (at_loc is_up_waking pr' - at_loc is_up_waking pr) ->
  (strict = true -> (Z.max (count s) 0 + waking s) - (Z.max (count (sem st)) 0 + waking (sem st)) + (at_loc is_up_waking pr' - at_loc is_up_waking pr) <= acquired st - acq) ->
  (p ∈ wait s <-> queued (loc pr') = true) -> (forall q, q <> p -> q ∈ wait s <-> q ∈ wait (sem st)) ->
  waking s - at_loc is_up_wake pr' <= waking (sem st) - at_loc is_up_wake pr ->
  (dormant pr' = true -> dormant pr = true \/ waking s <= at_loc is_up_wake pr' - at_loc is_up_wake pr) ->
  sem_ok strict val (State s (<[p := pr']> (procs st)) acq (released st)).
Proof.
  intros [H1 H2 H3 H4 H4' H5 H6] Hp Hc Hw E1 E2 E2' Hq1 Hq2 Hd1 Hd2.
  assert (Hn : forall f, number f (State s (<[p := pr']> (procs st)) acq (released st)) = number f st - at_loc f pr + at_loc f pr').
  { intros f. apply (msum_update (at_loc f) _ p pr pr' Hp). }
  constructor; cbn [sem procs acquired released]; rewrite ?Hn; try lia.
  - intros q. destruct (decide (q = p)) as [->|Hne].
    + rewrite Hq1, lookup_insert_eq. split; [by eauto|]. by intros (? & [= <-] & ?).
    + by rewrite Hq2, H5, lookup_insert_ne by done.
  - intros q qr Hq Hd. destruct (decide (q = p)) as [->|Hne].
    + rewrite lookup_insert_eq in Hq. injection Hq as <-. destruct (Hd2 Hd) as [Hd'|Hd'].
      * specialize (H6 p pr Hp Hd'). lia.
      * pose proof (number_nonneg is_up_wake st). pose proof (at_loc_nonneg is_up_wake pr). lia.
    + rewrite lookup_insert_ne in Hq by done. specialize (H6 q qr Hq Hd). lia.
Qed.

(** A process leaves. *)
Lemma number_delete f st s p pr a r : procs st !! p = Some pr ->
  number f (State s (delete p (procs st)) a r) = number f st - at_loc f pr.
Proof. intros Hp. by apply (msum_delete (at_loc f)). Qed.

Lemma msum_imap (f : proc -> Z) (g : Z -> proc -> proc) (m : gmap Z proc) :
  (forall k x, f (g k x) = f x) -> msum f (map_imap (fun k x => Some (g k x)) m) = msum f m.
Proof.
  intros Hg. induction m as [|k x m Hk _ IH] using map_first_key_ind; [by rewrite map_imap_empty|].
  rewrite (map_imap_insert_Some _ _ _ _ (g k x)) by done. rewrite !msum_insert; [by rewrite Hg, IH|done|].
  by rewrite map_lookup_imap, Hk.
Qed.

Lemma number_wake_up f l s a r (m : gmap Z proc) : number f (State s (wake_up l m) a r) = number f (State s m a r).
Proof. unfold number, wake_up. cbn. apply msum_imap. intros k x. by destruct (decide (k ∈ l)). Qed.

Lemma wake_up_lookup l m q pr : wake_up l m !! q = Some pr ->
  exists pr0, m !! q = Some pr0 /\ loc pr = loc pr0 /\ intr pr = intr pr0 /\ (q ∈ l -> running pr = true) /\ (q ∉ l -> pr = pr0).
Proof.
  unfold wake_up. rewrite map_lookup_imap. destruct (m !! q) as [x|]; simpl; [|done]. intros [= <-]. exists x.
  destruct (decide (q ∈ l)); by split_and!.
Qed.

Lemma size_wake_up l (m : gmap Z proc) : size (wake_up l m) = size m.
Proof.
  unfold wake_up. induction m as [|p x m Hp _ IH] using map_first_key_ind; [by rewrite map_imap_empty|].
  rewrite (map_imap_insert_Some _ _ _ _ (if decide (p ∈ l) then Proc (loc x) (intr x) true else x)) by done.
  rewrite !map_size_insert_None, IH; [done|done|]. by rewrite map_lookup_imap, Hp.
Qed.

Lemma lookup_wake_up l m q pr : m !! q = Some pr -> exists pr', wake_up l m !! q = Some pr' /\ loc pr' = loc pr.
Proof. intros Hq. unfold wake_up. rewrite map_lookup_imap, Hq. simpl. eexists. split; [done|]. by destruct (decide (q ∈ l)). Qed.

Lemma ok_leaves strict val st p pr r : sem_ok strict val st -> procs st !! p = Some pr -> loc pr = Leave r ->
  sem_ok strict val (State (Semaphore (count (sem st)) (waking (sem st)) (filter (fun q => q <> p) (wait (sem st)))) (delete p (procs st)) (acquired st) (released st)).
Proof.
  intros [H1 H2 H3 H4 H4' H5 H6] Hp Hl. constructor; cbn [sem procs count waking wait acquired released]; try done.
  - rewrite (number_delete _ st _ p pr) by done. unfold at_loc. rewrite Hl. cbn. lia.
  - rewrite (number_delete _ st _ p pr) by done. unfold at_loc. rewrite Hl. cbn. lia.
  - rewrite (number_delete _ st _ p pr) by done. unfold at_loc. rewrite Hl. cbn. lia.
  - intros q. rewrite list_elem_of_filter, H5. destruct (decide (q = p)) as [->|].
    + rewrite lookup_delete_eq. split; [by intros [? _]|by intros (? & ? & _)].
    + rewrite lookup_delete_ne by done. tauto.
  - intros q qr Hq Hd. rewrite (number_delete _ st _ p pr) by done. unfold at_loc. rewrite Hl. cbn. rewrite Z.sub_0_r.
    apply lookup_delete_Some in Hq as [_ Hq]. by eapply H6.
Qed.

Lemma ok_up_wake strict val st p pr : sem_ok strict val st -> procs st !! p = Some pr -> loc pr = Up_wake ->
  sem_ok strict val (State (sem st) (wake_up (wait (sem st)) (delete p (procs st))) (acquired st) (released st)).
Proof.
  intros [H1 H2 H3 H4 H4' H5 H6] Hp Hl. constructor; cbn [sem procs acquired released]; rewrite ?number_wake_up by done; try done.
  - rewrite (number_delete _ st _ p pr) by done. unfold at_loc. rewrite Hl. cbn. lia.
  - rewrite (number_delete _ st _ p pr) by done. unfold at_loc. rewrite Hl. cbn. lia.
  - rewrite (number_delete _ st _ p pr) by done. unfold at_loc. rewrite Hl. cbn. lia.
  - intros q. rewrite H5. split.
    + intros (x & Hq & Hx). assert (q <> p) by (intros ->; simplify_eq; by rewrite Hl in Hx).
      destruct (lookup_wake_up (wait (sem st)) (delete p (procs st)) q x) as (y & Hy & E); [by rewrite lookup_delete_ne|].
      exists y. by rewrite E.
    + intros (y & (x & [_ Hx]%lookup_delete_Some & E & _)%wake_up_lookup & Hy). exists x. by rewrite <-E.
  - intros q y (x & [_ Hx]%lookup_delete_Some & E & _ & Hrun & _)%wake_up_lookup Hd. exfalso.
    assert (Hin : q ∈ wait (sem st)).
    { apply H5. exists x. split; [done|]. rewrite <-E. unfold dormant in Hd. by destruct (loc y). }
    unfold dormant in Hd. rewrite (Hrun Hin) in Hd. by destruct (loc y).
Qed.

Lemma ok_run strict val st p pr signal st' :
  sem_ok strict val st -> procs st !! p = Some pr -> gives_up strict st pr -> waking (sem st) < 2 ^ 31 - 1 ->
  run st p pr signal = Some st' -> sem_ok strict val st'.
Proof.
  intros Hok Hp Halone Hmax. pose proof Hok as [H1 H2 H3 H4 H4' H5 H6]. specialize (H5 p). rewrite Hp in H5.
  assert (Hin : p ∈ wait (sem st) <-> queued (loc pr) = true) by (rewrite H5; split; [by intros (? & [= <-] & ?)|by eauto]).
  pose proof (number_ge waiting st p pr Hp) as Hw. unfold gives_up in Halone.
  destruct pr as [l i r]. unfold run, move. cbn [loc intr running] in *. destruct l; cbn [loc queued waiting] in *.
  - intros [= <-]. eapply ok_move; try done; cbn; try lia; [set_solver|set_solver].
  - rewrite dec_if_positive by done. destruct (waking (sem st) =? 0) eqn:E; intros [= <-].
    + destruct i; (eapply ok_move; try done; cbn; try lia); intros _; lia.
    + eapply ok_move; try done; cbn; lia.
  - intros [= <-]. destruct signal; (eapply ok_move; try done; cbn; try lia); auto.
  - specialize (Halone eq_refl). specialize (Hw eq_refl). intros [= <-].
    assert (count (sem st) < 2 ^ 31 - 1) by (destruct strict; lia). rewrite cs_inc, s32_id by lia.
    eapply ok_move; try done; cbn; try lia.
  - destruct (r || (i && signal)); [|done]. intros [= <-]. eapply ok_move; try done; cbn; try lia.
  - intros [= <-]. by eapply ok_leaves.
  - intros [= <-]. rewrite cs_inc, s32_id by lia. eapply ok_move; try done; cbn; try lia.
  - intros [= <-]. by eapply ok_up_wake.
Qed.

(** A process begins an operation. *)
Lemma ok_begin strict val st s p pr' rel : sem_ok strict val st -> procs st !! p = None ->
  - 2 ^ 31 <= count s < 2 ^ 31 -> waking s = waking (sem st) -> wait s = wait (sem st) ->
  count s - count (sem st) + at_loc waiting pr' = rel - released st ->
  rel - released st = Z.max (count s) 0 - Z.max (count (sem st)) 0 + at_loc is_up_waking pr' ->
  queued (loc pr') = false -> at_loc is_up_wake pr' = 0 ->
  sem_ok strict val (State s (<[p := pr']> (procs st)) (acquired st) rel).
Proof.
  intros [H1 H2 H3 H4 H4' H5 H6] Hp Hc Hw Hq E1 E2 Hn1 Hn2.
  assert (Hn : forall f, number f (State s (<[p := pr']> (procs st)) (acquired st) rel) = at_loc f pr' + number f st).
  { intros f. by apply (msum_insert (at_loc f)). }
  constructor; cbn [sem procs acquired released]; rewrite ?Hn, ?Hw, ?Hq, ?Hn2; try lia.
  - intros q. rewrite H5. destruct (decide (q = p)) as [->|].
    + rewrite Hp, lookup_insert_eq. split; [by intros (? & ? & _)|]. intros (? & [= <-] & ?). congruence.
    + by rewrite lookup_insert_ne.
  - intros q qr Hqr Hd. destruct (decide (q = p)) as [->|].
    + rewrite lookup_insert_eq in Hqr. injection Hqr as <-. unfold dormant in Hd. by destruct (loc pr').
    + rewrite lookup_insert_ne in Hqr by done. by eapply H6.
Qed.

(** An operation is over at once. *)
Lemma ok_quick strict val st s acq rel : sem_ok strict val st ->
  - 2 ^ 31 <= count s < 2 ^ 31 -> waking s = waking (sem st) -> wait s = wait (sem st) ->
  0 <= count (sem st) -> 0 <= count s -> count s - count (sem st) = (rel - acq) - (released st - acquired st) -> sem_ok strict val (State s (procs st) acq rel).
Proof.
  intros [H1 H2 H3 H4 H4' H5 H6] Hc Hw Hq Hpos Hpos' E.
  assert (Hn : forall f, number f (State s (procs st) acq rel) = number f st) by done.
  constructor; cbn [sem procs acquired released]; rewrite ?Hn, ?Hw, ?Hq; try lia; done.
Qed.

Lemma ok_start strict val st st' : sem_ok strict val st -> start st st' -> sem_ok strict val st'.
Proof.
  intros Hok. pose proof (so_count _ val st Hok) as Hc. destruct 1 as [p i Hp Hmin|p Hp Hmax].
  - unfold down. rewrite cs_dec, s32_id by lia. destruct (count (sem st) - 1 <? 0) eqn:E.
    + apply ok_begin; try done; cbn; lia.
    + apply ok_quick; try done; cbn; lia.
  - unfold up. rewrite cs_inc, s32_id by lia. destruct (count (sem st) + 1 <=? 0) eqn:E.
    + apply ok_begin; try done; cbn; lia.
    + apply ok_quick; try done; cbn; lia.
Qed.

Lemma ksem_step_ok strict val st st' : sem_ok strict val st -> any_step strict st st' -> sem_ok strict val st'.
Proof. intros Hok [Hs|(signal & [p pr st1 Hp Ha Hm Hr])]; [by eapply ok_start|by eapply ok_run]. Qed.

Lemma sem_ok_start strict val : 0 <= val < 2 ^ 31 -> sem_ok strict val (sem_start val).
Proof.
  intros. constructor; unfold number, msum; cbn; rewrite ?map_fold_empty; try lia.
  intros p. rewrite lookup_empty. split; [by intros ?%elem_of_nil|by intros (? & ? & _)].
Qed.

Lemma sem_reachable strict val st : 0 <= val < 2 ^ 31 -> rtc (any_step strict) (sem_start val) st -> sem_ok strict val st.
Proof.
  intros Hv H. cut (sem_ok strict val (sem_start val) -> sem_ok strict val st); [intros Hi; by apply Hi, sem_ok_start|].
  induction H as [s|s1 s2 s3 Hst _ IH]; [done|]. intros Hs. by eapply IH, ksem_step_ok.
Qed.

(** ** Progress *)

(** Asleep, with no signal to wake it. *)
Definition asleep (signal : bool) (pr : proc) : bool :=
  match loc pr with Sleep => negb (running pr || (intr pr && signal)) | _ => false end.

(** The steps that a process can make, when [n] processes can be woken by an [up]. *)
Definition weight (n : Z) (signal : bool) (pr : proc) : Z :=
  match loc pr with
  | Leave _ => 1
  | Up_wake => 1 + 10 * n
  | Up_waking => 2 + 10 * n
  | l =>
    (if running pr then 10 else 0) +
    match l with Enqueue => 5 | Test => 4 | Check_signal => 3 | Give_up => 2 | _ => if intr pr && signal then 5 else 2 end
  end.

Definition effort (n : Z) (signal : Z -> bool) (st : state) : Z := map_fold (fun p pr k => weight n (signal p) pr + k) 0 (procs st).

Section effort.
Context (n : Z) (signal : Z -> bool) (Hn : 0 <= n).

Lemma weight_pos p pr : 1 <= weight n (signal p) pr.
Proof. unfold weight. destruct (loc pr), (running pr); try lia; by destruct (intr pr && signal p). Qed.

Abbreviation total := (map_fold (fun p pr k => weight n (signal p) pr + k) 0).

Lemma total_insert (m : gmap Z proc) p pr : m !! p = None -> total (<[p := pr]> m) = weight n (signal p) pr + total m.
Proof. intros. rewrite map_fold_insert_L; [done| |done]. intros; lia. Qed.

Lemma total_delete (m : gmap Z proc) p pr : m !! p = Some pr -> total (delete p m) = total m - weight n (signal p) pr.
Proof.
  intros Hp. pose proof (total_insert (delete p m) p pr (lookup_delete_eq m p)) as He. rewrite insert_delete_id in He by done. lia.
Qed.

Lemma effort_update (m : gmap Z proc) p pr pr' : m !! p = Some pr -> total (<[p := pr']> m) = total m - weight n (signal p) pr + weight n (signal p) pr'.
Proof.
  intros Hp. rewrite <-(insert_delete_eq m p pr'), total_insert by apply lookup_delete_eq. rewrite (total_delete m p pr Hp). lia.
Qed.

Lemma total_nonneg (m : gmap Z proc) : 0 <= total m.
Proof.
  induction m as [|p x m Hp _ IH] using map_first_key_ind; [done|]. rewrite total_insert by done. pose proof (weight_pos p x). lia.
Qed.

Lemma total_wake_up l (m : gmap Z proc) : total (wake_up l m) <= total m + 10 * Z.of_nat (size m).
Proof.
  unfold wake_up. induction m as [|p x m Hp _ IH] using map_first_key_ind; [by rewrite map_imap_empty|].
  rewrite map_size_insert_None, (map_imap_insert_Some _ _ _ _ (if decide (p ∈ l) then Proc (loc x) (intr x) true else x)) by done.
  rewrite !total_insert; [|done|by rewrite map_lookup_imap, Hp].
  assert (weight n (signal p) (if decide (p ∈ l) then Proc (loc x) (intr x) true else x) <= weight n (signal p) x + 10).
  { destruct (decide (p ∈ l)); [|lia]. unfold weight. cbn. destruct (loc x), (running x); cbn; lia. }
  lia.
Qed.

(** Every step of a process uses up some of the effort. *)
Lemma run_effort st p pr st' :
  procs st !! p = Some pr -> Z.of_nat (size (procs st)) <= n -> run st p pr (signal p) = Some st' ->
  effort n signal st' < effort n signal st /\ Z.of_nat (size (procs st')) <= n.
Proof.
  intros Hp Hsize. unfold effort.
  assert (Hmove : forall pr', weight n (signal p) pr' < weight n (signal p) pr ->
    total (<[p := pr']> (procs st)) < total (procs st) /\ Z.of_nat (size (<[p := pr']> (procs st))) <= n).
  { intros pr' Hw. rewrite (effort_update _ p pr) by done. rewrite map_size_insert_Some by (by eexists). lia. }
  pose proof (map_size_delete_Some p (procs st) (mk_is_Some _ _ Hp)) as Hdel.
  pose proof (total_delete (procs st) p pr Hp) as Ht. pose proof (weight_pos p pr) as Hpos.
  pose proof (total_wake_up (wait (sem st)) (delete p (procs st))) as Hwake.
  destruct pr as [l i r]. unfold run, move, weight in *. cbn [loc intr running] in *. destruct l.
  - intros [= <-]. apply Hmove. destruct r; cbn; lia.
  - destruct (atomic_dec_if_positive _ _) as [[] w]; intros [= <-]; apply Hmove; destruct r, i; cbn; lia.
  - intros [= <-]. apply Hmove. destruct r, (signal p), i; cbn; lia.
  - intros [= <-]. apply Hmove. destruct r; cbn; lia.
  - destruct r, i, (signal p); cbn; try done; intros [= <-]; apply Hmove; cbn; lia.
  - intros [= <-]. cbn. lia.
  - intros [= <-]. apply Hmove. cbn. lia.
  - intros [= <-]. cbn [procs]. rewrite size_wake_up. lia.
Qed.

End effort.

(** A process goes on; nothing is asked of the moment at which a waiter gives up. *)
Definition goes_on (signal : Z -> bool) (st st' : state) : Prop :=
  exists p pr, procs st !! p = Some pr /\ run st p pr (signal p) = Some st'.

Lemma goes_on_bounded n signal k st st' : 0 <= n -> Z.of_nat (size (procs st)) <= n ->
  nsteps (goes_on signal) k st st' -> Z.of_nat k + effort n signal st' <= effort n signal st.
Proof.
  intros Hn Hsize H. revert Hsize. induction H as [st|k st1 st2 st3 (p & pr & Hp & Hr) _ IH]; intros Hsize; [lia|].
  destruct (run_effort n signal Hn st1 p pr st2 Hp Hsize Hr) as [H1 H2]. specialize (IH H2). lia.
Qed.

Lemma number_zero f st : (forall p pr, procs st !! p = Some pr -> f (loc pr) = false) -> number f st = 0.
Proof.
  unfold number. generalize (procs st). intros m. induction m as [|p x m Hp _ IH] using map_first_key_ind; intros Hf; [done|].
  rewrite msum_insert by done. unfold at_loc at 1. rewrite (Hf p x) by apply lookup_insert_eq. rewrite IH; [done|].
  intros q y Hq. apply (Hf q). rewrite lookup_insert_ne; [done|]. intros ->. congruence.
Qed.

(** What a process that cannot go on is like. *)
Lemma run_none st p pr signal : run st p pr signal = None -> loc pr = Sleep /\ dormant pr = true.
Proof.
  unfold run, dormant. destruct pr as [l i r]. cbn [loc intr running]. destruct l; try done.
  - by destruct (atomic_dec_if_positive _ _) as [[] w].
  - by destruct r.
Qed.

Lemma stuck_no_permit strict val st signal : sem_ok strict val st ->
  (forall p pr, procs st !! p = Some pr -> run st p pr (signal p) = None) ->
  procs st = ∅ \/ val + released st <= acquired st /\ (strict = true -> acquired st = val + released st).
Proof.
  intros [H1 H2 H3 H4 H4' H5 H6] Hstuck. destruct (decide (procs st = ∅)) as [|Hne]; [by left|right].
  apply map_choose in Hne as (p & pr & Hp).
  destruct (run_none st p pr (signal p) (Hstuck p pr Hp)) as [Hl Hd].
  assert (Hsleep : forall q qr, procs st !! q = Some qr -> loc qr = Sleep) by (intros q qr Hq; by eapply run_none, Hstuck).
  rewrite (number_zero is_up_waking) in H4, H4' by (intros q qr Hq; by rewrite (Hsleep q qr Hq)).
  pose proof (H6 p pr Hp Hd) as Hw. rewrite (number_zero is_up_wake) in Hw by (intros q qr Hq; by rewrite (Hsleep q qr Hq)).
  pose proof (number_ge waiting st p pr Hp ltac:(by rewrite Hl)). lia.
Qed.



(** ** Examples *)

(** Process 1 has a mutex, process 2 has begun to wait for it. *)
Definition ex_held : state := down (down (sem_start 1) 1 false) 2 true.

Lemma ex_held_reachable : rtc sem_step (sem_start 1) ex_held.
Proof.
  eapply rtc_l; [left; by apply (start_down (sem_start 1) 1 false)|].
  eapply rtc_l; [left; by apply (start_down (down (sem_start 1) 1 false) 2 true)|]. apply rtc_refl.
Qed.



(** The next step of a process, in a run given by the processes that move. *)
Definition go (signal : bool) (p : Z) (st : state) : state :=
  match procs st !! p with
  | Some pr => default st (run st p pr signal)
  | None => st
  end.

(** The mutex is held by 1.  Process 2 finds [waking] zero and a signal pending; now 1 calls
    [up], which sees that somebody waits and leaves a wake-up; then 2 gives up and
    adds one to [count]: both 3 and 4 acquire the mutex. *)
Example giving_up_duplicates_permit :
  let st := go true 2 (go true 2 (go true 2 ex_held)) in
  let st := go true 1 (go true 1 (up st 1)) in
  let st := go true 2 (go true 2 st) in
  let st := down (down st 3 false) 4 false in
  let st := go false 4 (go false 4 (go false 4 st)) in
  procs st = ∅ /\ acquired st - released st = 2.
Proof. split; reflexivity. Qed.

(** A decrement is lost: the counter changes from 1 to 2 between the two loads and back
    before the compare-and-swap, which stores 1. *)
Example dec_if_positive_lost : atomic_dec_if_positive [Interference (fun v => v + 1) (fun v => v - 1)] 1 = (true, 1).
Proof. reflexivity. Qed.
