(* ===== verification/RunQueue.v ===== *)
(** * The rings of kernel/sched.c and include/linux/sched.h: run queue, wait queues

    The run queue is a circular list through [next_run] and [prev_run] of the
    processes, which starts and ends at [init_task] (process 0); a wait queue is a
    circular list of nodes through [next] that starts and ends at an imagined node
    in front of the queue's pointer.  The fields are maps from processes or nodes;
    what is not in a map has NULL there, and [None] is a NULL dereference.  The
    functions are proved to implement operations on sequences. *)

From S2P Require Import Prelude LockBlocks.

(** ** The run queue *)

Record runqueue := Runqueue { next_run : gmap Z Z; prev_run : gmap Z Z }.

Definition init_task : Z := 0.

Definition set_next_run (q : runqueue) (x y : Z) : runqueue := Runqueue (<[x := y]> (next_run q)) (prev_run q).

Definition set_prev_run (q : runqueue) (x y : Z) : runqueue := Runqueue (next_run q) (<[x := y]> (prev_run q)).

Definition add_to_runqueue (q : runqueue) (p : Z) : option runqueue :=
  next ← next_run q !! init_task;
  let q := set_prev_run q p init_task in
  let q := set_next_run q init_task p in
  let q := set_next_run q p next in
  Some (set_prev_run q next p).

Definition del_from_runqueue (q : runqueue) (p : Z) : option runqueue :=
  next ← next_run q !! p;
  prev ← prev_run q !! p;
  let q := set_prev_run q next prev in
  let q := set_next_run q prev next in
  Some (Runqueue (delete p (next_run q)) (delete p (prev_run q))).

Definition move_last_runqueue (q : runqueue) (p : Z) : option runqueue :=
  next ← next_run q !! p;
  prev ← prev_run q !! p;
  let q := set_prev_run q next prev in
  let q := set_next_run q prev next in
  let q := set_next_run q p init_task in
  prev ← prev_run q !! init_task;
  let q := set_prev_run q init_task p in
  let q := set_prev_run q p prev in
  Some (set_next_run q prev p).

Definition move_first_runqueue (q : runqueue) (p : Z) : option runqueue :=
  next ← next_run q !! p;
  prev ← prev_run q !! p;
  let q := set_prev_run q next prev in
  let q := set_next_run q prev next in
  let q := set_prev_run q p init_task in
  next ← next_run q !! init_task;
  let q := set_next_run q init_task p in
  let q := set_next_run q p next in
  Some (set_prev_run q next p).

(** ** Wait queues

    [head] is the address WAIT_QUEUE_HEAD computes from the queue's pointer, so that
    the pointer is [next] of the head. *)

Abbreviation wnext := (gmap Z Z).

Definition __add_wait_queue (w : wnext) (head wait : Z) : wnext :=
  let w' := <[wait := default head (w !! head)]> w in
  <[head := wait]> w'.

(** The loop: the node whose [next] is [wait]. *)
Fixpoint wait_pred (fuel : nat) (w : wnext) (head wait : Z) : option Z :=
  match fuel with
  | O => None
  | S fuel =>
    tmp ← w !! head;
    if tmp =? wait then Some head else wait_pred fuel w tmp wait
  end.

Definition __remove_wait_queue (fuel : nat) (w : wnext) (wait : Z) : option wnext :=
  next ← w !! wait;
  head ← wait_pred fuel w next wait;
  Some (<[head := next]> w).

Definition init_waitqueue (w : wnext) (head : Z) : wnext := <[head := head]> w.

Definition waitqueue_active (w : wnext) (head : Z) : bool :=
  match w !! head with Some x => negb (x =? head) | None => false end.

(** The nodes that the loop of [__wake_up] visits. *)
Fixpoint wait_nodes_from (fuel : nat) (w : wnext) (head next : Z) : option (list Z) :=
  if next =? head then Some []
  else match fuel with
  | O => None
  | S fuel =>
    next' ← w !! next;
    l ← wait_nodes_from fuel w head next';
    Some (next :: l)
  end.

Definition wait_nodes (fuel : nat) (w : wnext) (head : Z) : option (list Z) :=
  match w !! head with
  | None => Some []
  | Some next => wait_nodes_from fuel w head next
  end.

(** ** Rings as sequences of edges *)

Definition edges (l : list Z) : list (Z * Z) := adjacent (init_task :: l ++ [init_task]).

Lemma adjacent_fsts l z : (adjacent (l ++ [z])).*1 = l.
Proof.
  induction l as [|a l IH]; [done|]. simpl. destruct (l ++ [z]) as [|b k] eqn:E; [by destruct l|]. cbn in *. by rewrite IH.
Qed.

Lemma adjacent_snds z l : (adjacent (z :: l)).*2 = l.
Proof. revert z. induction l as [|b l IH]; intros z; [done|]. simpl in *. by rewrite IH. Qed.

(** The edges at a process of the queue, and what they become without it. *)
Lemma edges_split z a p c : exists A B x y,
  adjacent (z :: (a ++ p :: c) ++ [z]) = A ++ (x, p) :: (p, y) :: B /\ adjacent (z :: (a ++ c) ++ [z]) = A ++ (x, y) :: B /\
  x = tail_of z a /\ y = head_of z c.
Proof.
  destruct (tail_split z a) as [a' Ea], (head_split z c) as [k Ek].
  exists (adjacent (a' ++ [tail_of z a])), (adjacent (head_of z c :: k)), (tail_of z a), (head_of z c).
  rewrite <-!app_assoc. change (z :: a ++ (p :: c) ++ [z]) with ((z :: a) ++ p :: (c ++ [z])).
  change (z :: a ++ c ++ [z]) with ((z :: a) ++ (c ++ [z])). rewrite Ea, Ek, <-!app_assoc. cbn [app].
  rewrite !adjacent_app. done.
Qed.

Definition run_linked (q : runqueue) (e : Z * Z) : Prop := next_run q !! e.1 = Some e.2 /\ prev_run q !! e.2 = Some e.1.

(** The processes [l] are on the run queue, in this order. *)
Record ring (q : runqueue) (l : list Z) : Prop := {
  rg_nodup : NoDup (init_task :: l);
  rg_linked : Forall (run_linked q) (edges l);
  rg_others : forall x, x ∉ init_task :: l -> next_run q !! x = None /\ prev_run q !! x = None }.

Lemma edges_fsts l : (edges l).*1 = init_task :: l.
Proof. apply (adjacent_fsts (init_task :: l)). Qed.

Lemma edges_snds l : (edges l).*2 = l ++ [init_task].
Proof. apply adjacent_snds. Qed.

Lemma edges_nodup l : NoDup (init_task :: l) -> NoDup ((edges l).*1) /\ NoDup ((edges l).*2).
Proof.
  intros H. rewrite edges_fsts, edges_snds. split; [done|]. apply NoDup_cons in H as [? ?]. by apply NoDup_snoc.
Qed.

(** Cells other than those of an edge keep the other edges. *)
Lemma linked_update (q q' : runqueue) (E : list (Z * Z)) :
  Forall (run_linked q) E ->
  (forall x, x ∈ (E.*1) -> next_run q' !! x = next_run q !! x) -> (forall y, y ∈ (E.*2) -> prev_run q' !! y = prev_run q !! y) ->
  Forall (run_linked q') E.
Proof.
  intros H H1 H2. rewrite Forall_forall in *. intros [x y] Hxy. destruct (H _ Hxy) as [Hn Hp].
  split; cbn in *; [rewrite H1|rewrite H2]; try done; apply list_elem_of_fmap; by exists (x, y).
Qed.

Lemma NoDup_middle {B} (l1 l2 : list B) (x : B) : NoDup (l1 ++ x :: l2) -> (x ∉ l1) /\ (x ∉ l2).
Proof. intros (_ & H & [? _]%NoDup_cons)%NoDup_app. split; [|done]. intros Hx. apply (H x Hx). by left. Qed.

(** [p] is linked in between the two ends of an edge. *)
Lemma edges_insert q q' A B x y p :
  Forall (run_linked q) (A ++ (x, y) :: B) -> NoDup ((A ++ (x, y) :: B).*1) -> NoDup ((A ++ (x, y) :: B).*2) ->
  p ∉ (A ++ (x, y) :: B).*1 -> p ∉ (A ++ (x, y) :: B).*2 ->
  next_run q' !! x = Some p -> next_run q' !! p = Some y -> (forall z, z <> x -> z <> p -> next_run q' !! z = next_run q !! z) ->
  prev_run q' !! p = Some x -> prev_run q' !! y = Some p -> (forall z, z <> y -> z <> p -> prev_run q' !! z = prev_run q !! z) ->
  Forall (run_linked q') (A ++ (x, p) :: (p, y) :: B).
Proof.
  rewrite !fmap_app, !fmap_cons. cbn [fst snd]. rewrite Forall_app, Forall_cons. intros (HA & _ & HB) [N1 N2]%NoDup_middle [N3 N4]%NoDup_middle.
  rewrite !not_elem_of_app, !not_elem_of_cons. intros (P1 & P2 & P3) (P4 & P5 & P6) Hx Hp Hn Hpp Hy Hpr.
  apply Forall_app. split; [|constructor; [done|constructor; [done|]]].
  - apply (linked_update q); [done|..]; intros z Hz; [apply Hn|apply Hpr]; by intros ->.
  - apply (linked_update q); [done|..]; intros z Hz; [apply Hn|apply Hpr]; by intros ->.
Qed.

(** [p] is taken out. *)
Lemma edges_remove q q' A B x y p :
  Forall (run_linked q) (A ++ (x, p) :: (p, y) :: B) -> NoDup ((A ++ (x, p) :: (p, y) :: B).*1) -> NoDup ((A ++ (x, p) :: (p, y) :: B).*2) ->
  next_run q' !! x = Some y -> (forall z, z <> x -> z <> p -> next_run q' !! z = next_run q !! z) ->
  prev_run q' !! y = Some x -> (forall z, z <> y -> z <> p -> prev_run q' !! z = prev_run q !! z) ->
  Forall (run_linked q') (A ++ (x, y) :: B).
Proof.
  rewrite !fmap_app, !fmap_cons. cbn [fst snd]. rewrite Forall_app, !Forall_cons. intros (HA & _ & _ & HB) Nf Ns Hx Hn Hy Hpr.
  pose proof (NoDup_middle _ _ _ Nf) as [F1 F2]. rewrite cons_middle, app_assoc in Nf. pose proof (NoDup_middle _ _ _ Nf) as [F3 F4].
  pose proof (NoDup_middle _ _ _ Ns) as [S1 S2]. rewrite cons_middle, app_assoc in Ns. pose proof (NoDup_middle _ _ _ Ns) as [S3 S4].
  rewrite not_elem_of_cons in F2, S2. rewrite not_elem_of_app in F3, S3.
  apply Forall_app. split; [|constructor; [done|]].
  - apply (linked_update q); [done|..]; intros z Hz; [apply Hn|apply Hpr]; intros ->; tauto.
  - apply (linked_update q); [done|..]; intros z Hz; [apply Hn|apply Hpr]; intros ->; tauto.
Qed.

(** The neighbours of a process on the run queue. *)
Lemma ring_split q a p c : ring q (a ++ p :: c) -> exists A B,
  let x := tail_of init_task a in let y := head_of init_task c in
  edges (a ++ p :: c) = A ++ (x, p) :: (p, y) :: B /\ edges (a ++ c) = A ++ (x, y) :: B /\
  next_run q !! x = Some p /\ prev_run q !! p = Some x /\ next_run q !! p = Some y /\ prev_run q !! y = Some p /\ x <> p /\ y <> p.
Proof.
  intros [Hnd Hl _]. destruct (edges_split init_task a p c) as (A & B & x & y & E1 & E2 & -> & ->).
  exists A, B. split; [done|]. split; [done|]. unfold edges in Hl. rewrite E1 in Hl.
  apply Forall_app in Hl as [_ [[H1 H2] [[H3 H4] _]%Forall_cons]%Forall_cons]. cbn in H1, H2, H3, H4.
  change (init_task :: a ++ p :: c) with ((init_task :: a) ++ p :: c) in Hnd. pose proof (NoDup_middle _ _ _ Hnd) as [N1 N2].
  assert (N3 : p <> init_task) by set_solver. split_and!; try done.
  - destruct (tail_split init_task a) as [a' Ea]. intros E. assert (Hin : tail_of init_task a ∈ init_task :: a) by (rewrite Ea; set_solver).
    rewrite E in Hin. set_solver.
  - destruct (head_split init_task c) as [k Ek]. intros E. assert (Hin : head_of init_task c ∈ c ++ [init_task]) by (rewrite Ek; set_solver).
    rewrite E in Hin. set_solver.
Qed.

Lemma edges_cons l : exists B, edges l = (init_task, head_of init_task l) :: B.
Proof. unfold edges. destruct (head_split init_task l) as [k ->]. by eexists. Qed.

Lemma edges_snoc l : exists A, edges l = A ++ [(tail_of init_task l, init_task)].
Proof.
  unfold edges. change (init_task :: l ++ [init_task]) with ((init_task :: l) ++ [init_task]).
  destruct (tail_split init_task l) as [k ->]. rewrite <-app_assoc. cbn [app]. rewrite adjacent_app. by eexists.
Qed.

Lemma ring_head q l : ring q l -> next_run q !! init_task = Some (head_of init_task l).
Proof. intros [_ Hl _]. destruct (edges_cons l) as [B E]. rewrite E in Hl. apply Forall_cons in Hl as [[H _] _]. exact H. Qed.

Lemma ring_tail q l : ring q l -> prev_run q !! init_task = Some (tail_of init_task l).
Proof. intros [_ Hl _]. destruct (edges_snoc l) as [A E]. rewrite E in Hl. apply Forall_app in Hl as [_ [[_ H] _]%Forall_cons]. exact H. Qed.

Lemma not_edge p l : p ∉ init_task :: l -> (p ∉ (edges l).*1) /\ (p ∉ (edges l).*2).
Proof. rewrite edges_fsts, edges_snds. intros H. split; [done|]. set_solver. Qed.

Lemma head_of_in l : head_of init_task l ∈ init_task :: l.
Proof. destruct l; set_solver. Qed.

Lemma tail_of_in l : tail_of init_task l ∈ init_task :: l.
Proof. destruct (tail_split init_task l) as [k E]. rewrite E. set_solver. Qed.

(** Linking [p] in at the front, or at the end. *)
Lemma ring_push q q' l p : ring q l -> p ∉ init_task :: l ->
  next_run q' = <[p := head_of init_task l]> (<[init_task := p]> (next_run q)) ->
  prev_run q' = <[head_of init_task l := p]> (<[p := init_task]> (prev_run q)) -> ring q' (p :: l).
Proof.
  intros [Hnd Hl Ho] Hp En Ep. pose proof (head_of_in l) as Hh. destruct (edges_cons l) as [B E].
  assert (Hp0 : p <> init_task /\ p <> head_of init_task l) by (split; intros ->; set_solver). destruct Hp0 as [P1 P2].
  destruct (edges_nodup l Hnd) as [N1 N2]. destruct (not_edge p l Hp) as [Q1 Q2]. constructor.
  - rewrite NoDup_cons in *. rewrite NoDup_cons. set_solver.
  - destruct (edges_split init_task [] p l) as (A & B' & x & y & E1 & E2 & -> & ->). unfold edges in *. cbn [app] in *. rewrite E1.
    rewrite E2 in *. eapply edges_insert; try done; rewrite ?En, ?Ep; cbn [tail_of last]; try by simplify_map_eq.
    + intros z Hz1 Hz2. by rewrite !lookup_insert_ne by done.
    + intros z Hz1 Hz2. by rewrite !lookup_insert_ne by done.
  - intros z Hz. rewrite En, Ep. assert (z <> p /\ z <> init_task /\ z ∉ init_task :: l) as (Z1 & Z2 & Z3) by set_solver.
    assert (z <> head_of init_task l) by (intros ->; done). rewrite !lookup_insert_ne by done. by apply Ho.
Qed.

Lemma ring_push_back q q' l p : ring q l -> p ∉ init_task :: l ->
  next_run q' = <[tail_of init_task l := p]> (<[p := init_task]> (next_run q)) ->
  prev_run q' = <[p := tail_of init_task l]> (<[init_task := p]> (prev_run q)) -> ring q' (l ++ [p]).
Proof.
  intros [Hnd Hl Ho] Hp En Ep. pose proof (tail_of_in l) as Hh.
  assert (Hp0 : p <> init_task /\ p <> tail_of init_task l) by (split; intros ->; set_solver). destruct Hp0 as [P1 P2].
  destruct (edges_nodup l Hnd) as [N1 N2]. destruct (not_edge p l Hp) as [Q1 Q2]. constructor.
  - change (init_task :: l ++ [p]) with ((init_task :: l) ++ [p]). by apply NoDup_snoc.
  - destruct (edges_split init_task l p []) as (A & B' & x & y & E1 & E2 & -> & ->). rewrite app_nil_r in E2. unfold edges in *. rewrite E1.
    rewrite E2 in *. eapply edges_insert; try done; rewrite ?En, ?Ep; cbn [head_of]; try by simplify_map_eq.
    + intros z Hz1 Hz2. by rewrite !lookup_insert_ne by done.
    + intros z Hz1 Hz2. by rewrite !lookup_insert_ne by done.
  - intros z Hz. rewrite En, Ep. assert (z <> p /\ z <> init_task /\ z ∉ init_task :: l) as (Z1 & Z2 & Z3) by set_solver.
    assert (z <> tail_of init_task l) by (intros ->; done). rewrite !lookup_insert_ne by done. by apply Ho.
Qed.

(** The queue without [p]; its own cells do not matter yet. *)
Lemma ring_cut q a p c : ring q (a ++ p :: c) ->
  let x := tail_of init_task a in let y := head_of init_task c in
  next_run q !! p = Some y /\ prev_run q !! p = Some x /\
  ring (Runqueue (delete p (<[x := y]> (next_run q))) (delete p (<[y := x]> (prev_run q)))) (a ++ c).
Proof.
  intros Hr. destruct (ring_split q a p c Hr) as (A & B & E1 & E2 & _ & Hp & Hn & _ & Hx & Hy). destruct Hr as [Hnd Hl Ho].
  cbn zeta. split; [done|]. split; [done|]. destruct (edges_nodup _ Hnd) as [N1 N2]. rewrite E1 in Hl, N1, N2. constructor.
  - rewrite <-Permutation_middle in Hnd. rewrite NoDup_cons in *. rewrite NoDup_cons in Hnd. set_solver.
  - rewrite E2. eapply edges_remove; try done; cbn [next_run prev_run]; try by simplify_map_eq.
    + intros z Hz1 Hz2. by rewrite lookup_delete_ne, lookup_insert_ne by done.
    + intros z Hz1 Hz2. by rewrite lookup_delete_ne, lookup_insert_ne by done.
  - intros z Hz. cbn [next_run prev_run]. destruct (decide (z = p)) as [->|Hne]; [by rewrite !lookup_delete_eq|].
    rewrite !lookup_delete_ne by done. pose proof (tail_of_in a). pose proof (head_of_in c).
    rewrite !lookup_insert_ne by (intros <-; set_solver). apply Ho. set_solver.
Qed.

Lemma ring_add q l p : ring q l -> p ∉ init_task :: l -> exists q', add_to_runqueue q p = Some q' /\ ring q' (p :: l).
Proof.
  intros Hr Hp. unfold add_to_runqueue. rewrite (ring_head q l Hr). cbn [mbind option_bind]. eexists. split; [done|].
  by eapply ring_push.
Qed.

Lemma ring_del q a p c : ring q (a ++ p :: c) -> exists q', del_from_runqueue q p = Some q' /\ ring q' (a ++ c).
Proof.
  intros Hr. destruct (ring_cut q a p c Hr) as (Hn & Hp & Hc). unfold del_from_runqueue. rewrite Hn, Hp. cbn [mbind option_bind].
  eexists. split; [done|]. exact Hc.
Qed.

Lemma ring_not_in q a p c : ring q (a ++ p :: c) -> p ∉ init_task :: a ++ c.
Proof. intros [Hnd _ _]. rewrite <-Permutation_middle in Hnd. rewrite !NoDup_cons in Hnd. set_solver. Qed.

Lemma insert_delete_other (m : gmap Z Z) p y : <[p := y]> (delete p m) = <[p := y]> m.
Proof. apply insert_delete_eq. Qed.

Lemma insert_other_delete (m : gmap Z Z) p x v y : p <> x -> <[p := y]> (<[x := v]> (delete p m)) = <[p := y]> (<[x := v]> m).
Proof. intros. rewrite <-delete_insert_ne by done. apply insert_delete_eq. Qed.

Lemma ring_move_last q a p c : ring q (a ++ p :: c) -> exists q', move_last_runqueue q p = Some q' /\ ring q' (a ++ c ++ [p]).
Proof.
  intros Hr. pose proof (ring_not_in q a p c Hr) as Hp. destruct (ring_cut q a p c Hr) as (Hn & Hpr & Hc). unfold move_last_runqueue.
  rewrite Hn, Hpr. cbn [mbind option_bind set_prev_run set_next_run next_run prev_run].
  pose proof (ring_tail _ _ Hc) as Ht. cbn [prev_run] in Ht. rewrite lookup_delete_ne in Ht by set_solver. rewrite Ht.
  cbn [mbind option_bind]. eexists. split; [done|]. rewrite app_assoc.
  assert (p <> tail_of init_task (a ++ c) /\ p <> init_task) as [P1 P2].
  { pose proof (tail_of_in (a ++ c)). split; intros E; rewrite <-?E in *; set_solver. }
  eapply ring_push_back; [exact Hc|done|cbn [next_run]|cbn [prev_run]].
  - by rewrite insert_delete_other.
  - by rewrite insert_other_delete.
Qed.

Lemma ring_move_first q a p c : ring q (a ++ p :: c) -> exists q', move_first_runqueue q p = Some q' /\ ring q' (p :: a ++ c).
Proof.
  intros Hr. pose proof (ring_not_in q a p c Hr) as Hp. destruct (ring_cut q a p c Hr) as (Hn & Hpr & Hc). unfold move_first_runqueue.
  rewrite Hn, Hpr. cbn [mbind option_bind set_prev_run set_next_run next_run prev_run].
  pose proof (ring_head _ _ Hc) as Ht. cbn [next_run] in Ht. rewrite lookup_delete_ne in Ht by set_solver. rewrite Ht.
  cbn [mbind option_bind]. eexists. split; [done|].
  assert (p <> head_of init_task (a ++ c) /\ p <> init_task) as [P1 P2].
  { pose proof (head_of_in (a ++ c)). split; intros E; rewrite <-?E in *; set_solver. }
  eapply ring_push; [exact Hc|done|cbn [next_run]|cbn [prev_run]].
  - by rewrite insert_other_delete.
  - by rewrite insert_delete_other.
Qed.

(** On the queue or not, by the pointer. *)
Lemma ring_on_queue q l p : ring q l -> p <> init_task -> next_run q !! p = None <-> p ∉ l.
Proof.
  intros Hr Hp. split.
  - intros Hn Hin. apply list_elem_of_split in Hin as (a & c & ->). destruct (ring_cut q a p c Hr) as (E & _). congruence.
  - intros Hin. apply Hr. set_solver.
Qed.

Lemma ring_next q a p c : ring q (a ++ p :: c) -> next_run q !! p = Some (head_of init_task c).
Proof. intros Hr. by destruct (ring_cut q a p c Hr) as (E & _). Qed.

(** ** Wait queues as sequences *)

Definition follows (w : wnext) (e : Z * Z) : Prop := w !! e.1 = Some e.2.

(** The nodes [l] wait on the queue; the pointer of a queue never used is NULL. *)
Definition waitq (w : wnext) (head : Z) (l : list Z) : Prop :=
  NoDup (head :: l) /\ (Forall (follows w) (adjacent (head :: l ++ [head])) \/ (l = [] /\ w !! head = None)).

Lemma adjacent_overlap l1 x l2 : adjacent (l1 ++ x :: l2) = adjacent (l1 ++ [x]) ++ adjacent (x :: l2).
Proof. destruct l2 as [|y l2]; [by rewrite app_nil_r|]. apply adjacent_app. Qed.

Lemma follows_update w w' (E : list (Z * Z)) : Forall (follows w) E -> (forall x, x ∈ (E.*1) -> w' !! x = w !! x) -> Forall (follows w') E.
Proof.
  intros H H1. rewrite Forall_forall in *. intros [x y] Hxy. unfold follows. cbn. rewrite H1; [by apply (H (x, y))|].
  apply list_elem_of_fmap. by exists (x, y).
Qed.

Lemma waitq_first w head l : waitq w head l -> default head (w !! head) = head_of head l.
Proof.
  intros [_ [H|[-> ->]]]; [|done]. destruct (head_split head l) as [k E]. rewrite E in H. apply Forall_cons in H as [H _].
  unfold follows in H. cbn in H. by rewrite H.
Qed.

Lemma waitq_add w head l wait : waitq w head l -> wait ∉ head :: l -> waitq (__add_wait_queue w head wait) head (wait :: l).
Proof.
  intros Hq Hw. pose proof (waitq_first w head l Hq) as Hf. destruct Hq as [Hnd Hq]. split.
  { rewrite !NoDup_cons in *. set_solver. }
  left. unfold __add_wait_queue. rewrite Hf. destruct (head_split head l) as [k E].
  change (head :: (wait :: l) ++ [head]) with (head :: wait :: l ++ [head]). rewrite E.
  assert (wait <> head) by set_solver. cbn [adjacent]. constructor; [unfold follows; by simplify_map_eq|].
  constructor; [unfold follows; by simplify_map_eq|]. destruct Hq as [Hq|[-> _]]; [|injection E as <-; constructor].
  rewrite E in Hq. apply Forall_cons in Hq as [_ Hq]. eapply follows_update; [exact Hq|]. intros x Hx.
  assert (x ∈ l) as Hin.
  { change (x ∈ (adjacent (head_of head l :: k)).*1) in Hx. by rewrite <-E, adjacent_fsts in Hx. }
  rewrite !lookup_insert_ne; [done|..]; intros <-; rewrite ?NoDup_cons in Hnd; set_solver.
Qed.

Lemma wait_pred_walk w p path x fuel :
  Forall (follows w) (adjacent (x :: path ++ [p])) -> p ∉ x :: path -> (length path < fuel)%nat ->
  wait_pred fuel w x p = Some (tail_of x path).
Proof.
  revert x fuel. induction path as [|y path IH]; intros x fuel Hl Hp Hf; (destruct fuel as [|fuel]; [cbn in Hf; lia|]); cbn [wait_pred].
  - apply Forall_cons in Hl as [Hx _]. unfold follows in Hx. cbn in Hx. rewrite Hx. cbn. by rewrite Z.eqb_refl.
  - cbn [app adjacent] in Hl. apply Forall_cons in Hl as [Hx Hl]. unfold follows in Hx. cbn in Hx. rewrite Hx. cbn [mbind option_bind].
    destruct (Z.eqb_spec y p) as [->|]; [set_solver|]. rewrite IH; [|done|set_solver|cbn in Hf; lia].
    unfold tail_of. f_equal. destruct path using rev_ind; [done|]. by rewrite app_comm_cons, !last_snoc.
Qed.

Lemma tail_of_app z a x : tail_of z (a ++ [x]) = x.
Proof. unfold tail_of. by rewrite last_snoc. Qed.

Lemma waitq_remove w head a p c fuel : waitq w head (a ++ p :: c) -> (length (a ++ p :: c) < fuel)%nat ->
  exists w', __remove_wait_queue fuel w p = Some w' /\ waitq w' head (a ++ c).
Proof.
  intros [Hnd [Hl|[E _]]] Hf; [|by destruct a].
  destruct (edges_split head a p c) as (A & B & x & y & E1 & E2 & Ex & Ey). rewrite E1 in Hl.
  apply Forall_app in Hl as Hl'. destruct Hl' as [HA [Hx [Hy HB]%Forall_cons]%Forall_cons].
  assert (Hp : p ∉ head :: a ++ c) by (rewrite <-Permutation_middle in Hnd; rewrite !NoDup_cons in Hnd; set_solver).
  assert (Hpred : wait_pred fuel w y p = Some x).
  { rewrite Ey, Ex. rewrite <-E1 in Hl. rewrite <-app_assoc in Hl.
    change (head :: a ++ (p :: c) ++ [head]) with ((head :: a) ++ p :: (c ++ [head])) in Hl. rewrite adjacent_overlap in Hl.
    apply Forall_app in Hl as [L1 L2]. destruct c as [|z c]; cbn [head_of].
    - apply wait_pred_walk; [exact L1|set_solver|rewrite length_app in Hf; cbn in Hf; lia].
    - assert (L3 : Forall (follows w) (adjacent ((z :: c) ++ head :: a ++ [p]))).
      { rewrite adjacent_overlap. apply Forall_app. split; [|exact L1]. cbn [app adjacent] in L2. by apply Forall_cons in L2 as [_ L2]. }
      rewrite (wait_pred_walk w p (c ++ head :: a) z); [|by rewrite <-app_assoc|set_solver|rewrite !length_app in *; cbn in *; lia].
      f_equal. destruct a as [|? a _] using rev_ind; [by rewrite tail_of_app|]. by rewrite app_comm_cons, app_assoc, !tail_of_app. }
  unfold __remove_wait_queue. unfold follows in Hx, Hy. cbn in Hx, Hy. rewrite Hy. cbn [mbind option_bind]. rewrite Hpred.
  cbn [mbind option_bind]. eexists. split; [done|]. split; [rewrite <-Permutation_middle in Hnd; rewrite !NoDup_cons in *; set_solver|].
  left. rewrite E2. assert (Hfst : NoDup ((A ++ (x, p) :: (p, y) :: B).*1)) 
    by (rewrite <-E1; change (head :: (a ++ p :: c) ++ [head]) with ((head :: a ++ p :: c) ++ [head]); by rewrite adjacent_fsts).
  rewrite fmap_app in Hfst. cbn in Hfst. destruct (NoDup_middle _ _ _ Hfst) as [N1 N2].
  apply Forall_app. split; [|constructor; [unfold follows; cbn; by simplify_map_eq|]];
    (eapply follows_update; [done|]; intros z Hz; rewrite lookup_insert_ne; [done|]; intros <-; set_solver).
Qed.

Lemma wait_nodes_walk w head l fuel : Forall (follows w) (adjacent (l ++ [head])) -> head ∉ l -> (length l <= fuel)%nat ->
  wait_nodes_from fuel w head (head_of head l) = Some l.
Proof.
  revert fuel. induction l as [|x l IH]; intros fuel Hl Hh Hf; [by destruct fuel; cbn; rewrite Z.eqb_refl|].
  destruct fuel as [|fuel]; [cbn in Hf; lia|]. cbn [wait_nodes_from head_of]. destruct (Z.eqb_spec x head); [set_solver|].
  destruct (head_split head l) as [k E]. cbn [app] in Hl. rewrite E in Hl. apply Forall_cons in Hl as [Hx Hl]. unfold follows in Hx. cbn in Hx.
  rewrite Hx. cbn [mbind option_bind]. rewrite IH; [done|by rewrite E|set_solver|cbn in Hf; lia].
Qed.

Lemma waitq_nodes w head l fuel : waitq w head l -> (length l <= fuel)%nat -> wait_nodes fuel w head = Some l.
Proof.
  intros Hq Hf. pose proof (waitq_first w head l Hq) as H1. destruct Hq as [Hnd [Hl|[-> E]]]; unfold wait_nodes; [|by rewrite E].
  destruct (w !! head) as [n|] eqn:En; cbn in H1.
  - subst n. apply wait_nodes_walk; [|by apply NoDup_cons in Hnd as [? _]|done].
    destruct (head_split head l) as [k E]. rewrite E in *. by apply Forall_cons in Hl as [_ Hl].
  - destruct (head_split head l) as [k E]. rewrite E in Hl. apply Forall_cons in Hl as [Hx _]. unfold follows in Hx. cbn in Hx. congruence.
Qed.

(** ** Properties *)

(** The run queue implements a sequence of processes: [add_to_runqueue] puts a process at
    the front, [del_from_runqueue] removes one wherever it is and clears its links,
    [move_last_runqueue] and [move_first_runqueue] move one to an end and keep the order
    of the others; none of them follows a NULL pointer, and a process is on the queue
    exactly when its [next_run] is not NULL. *)
Theorem runqueue_is_sequence q l :
  ring q l ->
  (forall p, p <> init_task -> p ∉ l -> exists q', add_to_runqueue q p = Some q' /\ ring q' (p :: l)) /\
  (forall a p c, l = a ++ p :: c ->
     (exists q', del_from_runqueue q p = Some q' /\ ring q' (a ++ c)) /\
     (exists q', move_last_runqueue q p = Some q' /\ ring q' (a ++ c ++ [p])) /\
     (exists q', move_first_runqueue q p = Some q' /\ ring q' (p :: a ++ c))) /\
  (forall p, p <> init_task -> next_run q !! p = None <-> p ∉ l).
Proof.
  intros Hr. split; [|split].
  - intros p H1 H2. apply ring_add; [done|set_solver].
  - intros a p c ->. split; [|split]; [by apply ring_del|by apply ring_move_last|by apply ring_move_first].
  - intros p. by apply ring_on_queue.
Qed.

(** A wait queue implements a sequence of nodes: [__add_wait_queue] puts a node at the
    front, [__remove_wait_queue] finds and removes one wherever it is, and [__wake_up]
    visits all nodes, in order; the loops end. *)
Theorem waitqueue_is_sequence w head l :
  waitq w head l ->
  (forall wait, wait ∉ head :: l -> waitq (__add_wait_queue w head wait) head (wait :: l)) /\
  (forall a p c fuel, l = a ++ p :: c -> (length l < fuel)%nat ->
     exists w', __remove_wait_queue fuel w p = Some w' /\ waitq w' head (a ++ c)) /\
  (forall fuel, (length l <= fuel)%nat -> wait_nodes fuel w head = Some l) /\
  waitqueue_active w head = negb (bool_decide (l = [])).
Proof.
  intros Hq. split; [|split; [|split]].
  - intros wait. by apply waitq_add.
  - intros a p c fuel -> Hf. by apply waitq_remove.
  - intros fuel. by apply waitq_nodes.
  - pose proof (waitq_first w head l Hq) as Hf. unfold waitqueue_active. destruct Hq as [Hnd Hq].
    destruct (w !! head) as [n|] eqn:E; cbn in Hf.
    + subst n. destruct l as [|x l]; cbn; [by rewrite Z.eqb_refl|]. rewrite NoDup_cons in Hnd. destruct (Z.eqb_spec x head); [set_solver|done].
    + destruct Hq as [Hq|[-> _]]; [|done]. destruct (head_split head l) as [k Ek]. rewrite Ek in Hq. apply Forall_cons in Hq as [Hx _].
      unfold follows in Hx. cbn in Hx. congruence.
Qed.

(** The run queue at the start: [init_task] alone. *)
Definition empty_runqueue : runqueue := Runqueue {[init_task := init_task]} {[init_task := init_task]}.

Lemma ring_empty : ring empty_runqueue [].
Proof.
  constructor.
  - apply NoDup_singleton.
  - constructor; [split; done|constructor].
  - intros x Hx. unfold empty_runqueue. cbn [next_run prev_run]. rewrite !lookup_singleton_ne by set_solver. done.
Qed.

Lemma runqueue_is_sequence_witness :
  exists q q', ring q [5; 7] /\ move_last_runqueue q 5 = Some q' /\ ring q' [7; 5].
Proof.
  destruct (ring_add empty_runqueue [] 7 ring_empty ltac:(by_decide)) as (q1 & _ & R1).
  destruct (ring_add q1 [7] 5 R1 ltac:(by_decide)) as (q2 & _ & R2).
  destruct (runqueue_is_sequence q2 [5; 7] R2) as (_ & H & _). destruct (H [] 5 [7] eq_refl) as (_ & (q' & E & R) & _).
  exists q2, q'. exact (conj R2 (conj E R)).
Defined.

Lemma waitq_unused head : waitq ∅ head [].
Proof. split; [apply NoDup_singleton|]. by right. Qed.

Lemma waitqueue_is_sequence_witness :
  waitq (__add_wait_queue (__add_wait_queue ∅ 100 1) 100 2) 100 [2; 1] /\
  exists w', __remove_wait_queue 3 (__add_wait_queue (__add_wait_queue ∅ 100 1) 100 2) 1 = Some w' /\ waitq w' 100 [2].
Proof.
  assert (H1 : waitq (__add_wait_queue ∅ 100 1) 100 [1]).
  { apply (waitqueue_is_sequence ∅ 100 [] (waitq_unused 100)). by_decide. }
  assert (H2 : waitq (__add_wait_queue (__add_wait_queue ∅ 100 1) 100 2) 100 [2; 1]).
  { apply (waitqueue_is_sequence _ 100 [1] H1). by_decide. }
  split; [exact H2|]. destruct (waitqueue_is_sequence _ 100 [2; 1] H2) as (_ & H & _).
  apply (H [2] 1 [] 3%nat); [done|cbn; lia].
Defined.
