(* ===== verification/Sched.v ===== *)
(** * kernel/sched.c: the scheduler

    The state holds what the scheduler needs of each process, the run queue as the
    ring of [RunQueue], and the process that runs; process 0 is the idle task.  There
    is one processor.  [schedule] leaves interrupts enabled while it looks for the
    next process: the processes that they wake meanwhile are an argument.  The work
    it does first for bottom halves and task queues is not modelled.  [None] is a
    NULL dereference.  [find_task_by_pid] is a lookup. *)

From S2P Require Import Prelude LockBlocks RunQueue.

(** ** Data *)

Definition SCHED_OTHER : Z := 0.
Definition SCHED_FIFO : Z := 1.
Definition SCHED_RR : Z := 2.
Definition SCHED_YIELD : Z := 0x10.

Definition HZ : Z := 100.
Definition DEF_PRIORITY : Z := 20 * HZ / 100.

Definition TASK_RUNNING : Z := 0.
Definition TASK_INTERRUPTIBLE : Z := 1.
Definition TASK_UNINTERRUPTIBLE : Z := 2.
Definition TASK_ZOMBIE : Z := 4.
Definition TASK_SWAPPING : Z := 16.

Record task := Task {
  policy : Z; rt_priority : Z; counter : Z; priority : Z; mm : Z; tstate : Z; sigpending : bool; need_resched : bool;
  uid : Z; euid : Z }.

Record state := State {
  tasks : gmap Z task; order : list Z; rq : runqueue; nr_running : Z; current : Z; context_swtch : Z }.

Definition with_policy (t : task) (pol rt : Z) : task :=
  Task pol rt (counter t) (priority t) (mm t) (tstate t) (sigpending t) (need_resched t) (uid t) (euid t).

Definition with_counter (t : task) (c : Z) : task :=
  Task (policy t) (rt_priority t) c (priority t) (mm t) (tstate t) (sigpending t) (need_resched t) (uid t) (euid t).

Definition with_priority (t : task) (v : Z) : task :=
  Task (policy t) (rt_priority t) (counter t) v (mm t) (tstate t) (sigpending t) (need_resched t) (uid t) (euid t).

Definition with_state (t : task) (s : Z) : task :=
  Task (policy t) (rt_priority t) (counter t) (priority t) (mm t) s (sigpending t) (need_resched t) (uid t) (euid t).

Definition with_resched (t : task) (b : bool) : task :=
  Task (policy t) (rt_priority t) (counter t) (priority t) (mm t) (tstate t) (sigpending t) b (uid t) (euid t).

Definition set_task (st : state) (p : Z) (t : task) : state :=
  State (<[p := t]> (tasks st)) (order st) (rq st) (nr_running st) (current st) (context_swtch st).

Definition set_tasks (st : state) (ts : gmap Z task) : state :=
  State ts (order st) (rq st) (nr_running st) (current st) (context_swtch st).

Definition set_rq (st : state) (q : runqueue) (n : Z) : state :=
  State (tasks st) (order st) q n (current st) (context_swtch st).

(** ** Waking *)

Definition reschedule_idle (st : state) (p : Z) : option state :=
  t ← tasks st !! p;
  c ← tasks st !! current st;
  Some (if negb (policy t =? SCHED_OTHER) || (counter c + 3 <? counter t) then set_task st (current st) (with_resched c true) else st).

Definition wake_up_process (st : state) (p : Z) : option state :=
  t ← tasks st !! p;
  let st := set_task st p (with_state t TASK_RUNNING) in
  match next_run (rq st) !! p with
  | Some _ => Some st
  | None =>
    q ← add_to_runqueue (rq st) p;
    reschedule_idle (set_rq st q (nr_running st + 1)) p
  end.

(** [p->state & mode] is asked of the process of each node. *)
Fixpoint wake_nodes (st : state) (task_of : Z -> Z) (nodes : list Z) (mode : Z) : option state :=
  match nodes with
  | [] => Some st
  | n :: nodes =>
    t ← tasks st !! task_of n;
    st ← (if negb (Z.land (tstate t) mode =? 0) then wake_up_process st (task_of n) else Some st);
    wake_nodes st task_of nodes mode
  end.

Definition __wake_up (fuel : nat) (st : state) (w : wnext) (task_of : Z -> Z) (head mode : Z) : option state :=
  nodes ← wait_nodes fuel w head;
  wake_nodes st task_of nodes mode.

(** ** The choice *)

(** The weight, and the process without the mark that it yields. *)
Definition goodness (t : task) (prev_mm : Z) : Z * task :=
  if negb (Z.land (policy t) SCHED_YIELD =? 0) then (0, with_policy t (Z.land (policy t) (Z.lnot SCHED_YIELD)) (rt_priority t))
  else if negb (policy t =? SCHED_OTHER) then (1000 + rt_priority t, t)
  else
    let weight := counter t in
    (if negb (weight =? 0) then weight + (if mm t =? prev_mm then 1 else 0) + priority t else weight, t).

(** The loop over the run queue, from [p] on: the greatest weight and who has it. *)
Fixpoint pick (fuel : nat) (ts : gmap Z task) (q : runqueue) (prev_mm p c next : Z) : option (Z * Z * gmap Z task) :=
  if p =? init_task then Some (c, next, ts)
  else match fuel with
  | O => None
  | S fuel =>
    t ← ts !! p;
    let '(weight, t) := goodness t prev_mm in
    let ts := <[p := t]> ts in
    p' ← next_run q !! p;
    if c <? weight then pick fuel ts q prev_mm p' weight p else pick fuel ts q prev_mm p' c next
  end.

Definition recalculate (l : list Z) (ts : gmap Z task) : gmap Z task :=
  fold_left (fun ts p => alter (fun t => with_counter t (s32 (Z.shiftr (counter t) 1 + priority t))) p ts) l ts.

(** [schedule] up to the moment when it lets interrupts in again; the result also has
    the process at which the search will start. *)
Definition schedule_first (st : state) : option (Z * state) :=
  let prev := current st in
  t ← tasks st !! prev;
  let t := with_resched t false in
  st ← (if (counter t =? 0) && (policy t =? SCHED_RR) then
          q ← move_last_runqueue (rq st) prev;
          Some (set_rq (set_task st prev (with_counter t (priority t))) q (nr_running st))
        else Some (set_task st prev t));
  t ← tasks st !! prev;
  st ← (if tstate t =? TASK_RUNNING then Some st
        else if (tstate t =? TASK_INTERRUPTIBLE) && sigpending t then Some (set_task st prev (with_state t TASK_RUNNING))
        else q ← del_from_runqueue (rq st) prev; Some (set_rq st q (nr_running st - 1)));
  p ← next_run (rq st) !! init_task;
  Some (p, st).

(** From there on. *)
Definition schedule_second (st : state) (p : Z) : option state :=
  let prev := current st in
  pt ← tasks st !! prev;
  '(c, next, ts) ← pick (size (tasks st)) (tasks st) (rq st) (mm pt) p (-1000) init_task;
  let ts := if c =? 0 then recalculate (order st) ts else ts in
  Some (State ts (order st) (rq st) (nr_running st) next (if prev =? next then context_swtch st else context_swtch st + 1)).

Fixpoint wake_all (st : state) (l : list Z) : option state :=
  match l with
  | [] => Some st
  | p :: l => st ← wake_up_process st p; wake_all st l
  end.

(** [woken]: the processes that interrupts wake in between. *)
Definition schedule (st : state) (woken : list Z) : option state :=
  '(p, st) ← schedule_first st;
  st ← wake_all st woken;
  schedule_second st p.

(** ** Time *)

Definition update_process_times (st : state) (ticks : Z) : option state :=
  if current st =? 0 then Some st
  else
    t ← tasks st !! current st;
    let c := s32 (counter t - ticks) in
    Some (set_task st (current st) (if c <? 0 then with_resched (with_counter t 0) true else with_counter t c)).

(** ** Calls *)

Definition sys_sched_yield (st : state) : option (Z * state) :=
  t ← tasks st !! current st;
  let t := if policy t =? SCHED_OTHER then with_policy t (Z.lor (policy t) SCHED_YIELD) (rt_priority t) else t in
  q ← move_last_runqueue (rq st) (current st);
  Some (0, set_rq (set_task st (current st) (with_resched t true)) q (nr_running st)).

Definition find_process_by_pid (st : state) (pid : Z) : option (Z * task) :=
  let p := if pid =? 0 then current st else pid in
  t ← tasks st !! p; Some (p, t).

(** [param]: null, not readable, or the priority; [cap]: CAP_SYS_NICE.  The outer option
    is a NULL dereference. *)
Definition setscheduler (st : state) (pid pol : Z) (param : option (option Z)) (cap : bool) : option (Z * state) :=
  match param with
  | None => Some (- EINVAL, st)
  | Some lp =>
    if pid <? 0 then Some (- EINVAL, st)
    else match lp with
    | None => Some (- EFAULT, st)
    | Some prio =>
      c ← tasks st !! current st;
      match find_process_by_pid st pid with
      | None => Some (- ESRCH, st)
      | Some (p, t) =>
        let pol' := if pol <? 0 then policy t else pol in
        if negb (pol <? 0) && negb (pol =? SCHED_FIFO) && negb (pol =? SCHED_RR) && negb (pol =? SCHED_OTHER) then Some (- EINVAL, st)
        else if (prio <? 0) || (99 <? prio) then Some (- EINVAL, st)
        else if negb (Bool.eqb (pol' =? SCHED_OTHER) (prio =? 0)) then Some (- EINVAL, st)
        else if ((pol' =? SCHED_FIFO) || (pol' =? SCHED_RR)) && negb cap then Some (- EPERM, st)
        else if negb (euid c =? euid t) && negb (euid c =? uid t) && negb cap then Some (- EPERM, st)
        else
          let st := set_task st p (with_policy t pol' prio) in
          q ← (match next_run (rq st) !! p with Some _ => move_first_runqueue (rq st) p | None => Some (rq st) end);
          c ← tasks st !! current st;
          Some (0, set_rq (set_task st (current st) (with_resched c true)) q (nr_running st))
      end
    end
  end.

Definition sys_sched_setscheduler (st : state) (pid pol : Z) (param : option (option Z)) (cap : bool) : option (Z * state) :=
  setscheduler st pid pol param cap.

Definition sys_sched_setparam (st : state) (pid : Z) (param : option (option Z)) (cap : bool) : option (Z * state) :=
  setscheduler st pid (-1) param cap.

Definition sys_sched_getscheduler (st : state) (pid : Z) : Z :=
  if pid <? 0 then - EINVAL
  else match find_process_by_pid st pid with None => - ESRCH | Some (_, t) => policy t end.

(** [param]: null, or writable or not; with the result comes what is stored. *)
Definition sys_sched_getparam (st : state) (pid : Z) (param : option bool) : Z * option Z :=
  match param with
  | None => (- EINVAL, None)
  | Some ok =>
    if pid <? 0 then (- EINVAL, None)
    else match find_process_by_pid st pid with
    | None => (- ESRCH, None)
    | Some (_, t) => if ok then (0, Some (rt_priority t)) else (- EFAULT, None)
    end
  end.

Definition sys_sched_get_priority_max (pol : Z) : Z :=
  if (pol =? SCHED_FIFO) || (pol =? SCHED_RR) then 99 else if pol =? SCHED_OTHER then 0 else - EINVAL.

Definition sys_sched_get_priority_min (pol : Z) : Z :=
  if (pol =? SCHED_FIFO) || (pol =? SCHED_RR) then 1 else if pol =? SCHED_OTHER then 0 else - EINVAL.

(** [copied]: whether the result could be stored. *)
Definition sys_sched_rr_get_interval (pid : Z) (copied : bool) : Z * option (Z * Z) :=
  if copied then (0, Some (0, 150000)) else (- EFAULT, None).

Definition sys_nice (st : state) (increment : Z) (cap : bool) : option (Z * state) :=
  t ← tasks st !! current st;
  if (increment <? 0) && negb cap then Some (- EPERM, st)
  else
    let newprio := if increment <? 0 then u32 (- increment) else increment in
    let newprio := if 40 <? newprio then 40 else newprio in
    let newprio := (newprio * DEF_PRIORITY + 10) / 20 in
    let increment := if increment <? 0 then - newprio else newprio in
    let newprio := u32 (priority t - increment) in
    let newprio := if s32 newprio <? 1 then 1 else newprio in
    let newprio := if DEF_PRIORITY * 2 <? newprio then DEF_PRIORITY * 2 else newprio in
    Some (0, set_task st (current st) (with_priority t newprio)).

(** ** Sleeping, creation and end of a process *)

(** [current->state = s], before a call of [schedule]. *)
Definition set_current_state (st : state) (s : Z) : option state :=
  t ← tasks st !! current st;
  Some (set_task st (current st) (with_state t s)).

(** The child of [t], before it is on the run queue: a copy without pending signals; [m] is
    its memory, that of the parent with CLONE_VM. *)
Definition child_task (t : task) (m : Z) : task :=
  Task (policy t) (rt_priority t) (counter t) (priority t) m TASK_RUNNING false (need_resched t) (uid t) (euid t).

(** What [do_fork] does for the scheduler. *)
Definition fork_sched (st : state) (child m : Z) : option state :=
  t ← tasks st !! current st;
  let t := with_counter t (Z.shiftr (counter t) 1) in
  let st := set_task st (current st) t in
  let st := State (<[child := child_task t m]> (tasks st)) (order st ++ [child]) (rq st) (nr_running st) (current st) (context_swtch st) in
  wake_up_process st child.

(** [release] of a process that has exited. *)
Definition release_sched (st : state) (p : Z) : state :=
  State (delete p (tasks st)) (filter (fun q => q <> p) (order st)) (rq st) (nr_running st) (current st) (context_swtch st).
