(* ===== verification/SchedProof.v ===== *)
(** * The scheduler: the choice of the next process, the invariant, no starvation *)

From S2P Require Import Prelude LockBlocks RunQueue Sched.

(** ** The choice as a fold over the queue *)

Definition weight_of (ts : gmap Z task) (prev_mm p : Z) : Z := match ts !! p with Some t => (goodness t prev_mm).1 | None => 0 end.

Definition best (ts : gmap Z task) (prev_mm : Z) (l : list Z) (c next : Z) : Z * Z :=
  fold_left (fun '(c, n) p => if c <? weight_of ts prev_mm p then (weight_of ts prev_mm p, p) else (c, n)) l (c, next).

Definition unyield (ts : gmap Z task) (prev_mm : Z) (l : list Z) : gmap Z task :=
  fold_left (fun ts p => alter (fun t => (goodness t prev_mm).2) p ts) l ts.

Lemma best_ext ts ts' mmv l c n : (forall p, p ∈ l -> weight_of ts mmv p = weight_of ts' mmv p) -> best ts mmv l c n = best ts' mmv l c n.
Proof.
  revert c n. induction l as [|p l IH]; intros c n H; [done|]. unfold best in *. cbn [fold_left]. rewrite (H p) by set_solver.
  destruct (c <? weight_of ts' mmv p); apply IH; set_solver.
Qed.

Lemma pick_spec fuel ts q pre l mmv c next :
  ring q (pre ++ l) -> (forall p, p ∈ l -> is_Some (ts !! p)) -> (length l <= fuel)%nat ->
  pick fuel ts q mmv (head_of init_task l) c next = Some (best ts mmv l c next, unyield ts mmv l).
Proof.
  revert fuel ts pre c next. induction l as [|p l IH]; intros fuel ts pre c next Hr Hl Hf.
  { by destruct fuel. }
  destruct fuel as [|fuel]; [cbn in Hf; lia|]. cbn [head_of pick].
  assert (Hp : p <> init_task /\ p ∉ l).
  { destruct Hr as [Hnd _ _]. rewrite <-Permutation_middle in Hnd. rewrite !NoDup_cons in Hnd. set_solver. }
  destruct Hp as [Hp0 Hpl]. destruct (Z.eqb_spec p init_task); [done|]. destruct (Hl p ltac:(set_solver)) as [t Ht]. rewrite Ht.
  cbn [mbind option_bind]. destruct (goodness t mmv) as [w t'] eqn:Eg. rewrite (ring_next q pre p l Hr). cbn [mbind option_bind].
  assert (Hstep : forall c n, pick fuel (<[p := t']> ts) q mmv (head_of init_task l) c n = Some (best ts mmv l c n, unyield ts mmv (p :: l))).
  { intros c' n'. rewrite (IH fuel _ (pre ++ [p])); [| |intros x Hx; rewrite lookup_insert_ne by (intros ->; done); apply Hl; set_solver|cbn in Hf; lia].
    - f_equal. f_equal.
      + apply best_ext. intros x Hx. unfold weight_of. by rewrite lookup_insert_ne by (intros ->; done).
      + unfold unyield. cbn [fold_left]. do 2 f_equal. apply map_eq. intros i. destruct (decide (i = p)) as [->|].
        * by rewrite lookup_insert_eq, lookup_alter_eq, Ht; cbn; rewrite Eg.
        * by rewrite lookup_insert_ne, lookup_alter_ne.
    - by rewrite <-app_assoc. }
  rewrite !Hstep. unfold best. cbn [fold_left]. assert (weight_of ts mmv p = w) as -> by (unfold weight_of; by rewrite Ht, Eg).
  by destruct (c <? w).
Qed.

(** The choice is the first process of the greatest weight. *)
Lemma best_spec ts mmv l c n : let '(c', n') := best ts mmv l c n in
  (c' = c /\ n' = n /\ forall p, p ∈ l -> weight_of ts mmv p <= c) \/
  (exists a b, l = a ++ n' :: b /\ c' = weight_of ts mmv n' /\ c < c' /\
     (forall p, p ∈ a -> weight_of ts mmv p < c') /\ forall p, p ∈ b -> weight_of ts mmv p <= c').
Proof.
  revert c n. induction l as [|p l IH]; intros c n.
  { left. split_and!; [done|done|]. set_solver. }
  unfold best in *. cbn [fold_left]. set (w := weight_of ts mmv p). destruct (c <? w) eqn:E.
  - specialize (IH w p). destruct (fold_left _ l _) as [c' n']. destruct IH as [(-> & -> & H)|(a & b & -> & -> & H1 & H2 & H3)]; right.
    + exists [], l. split_and!; try done; [lia|set_solver].
    + exists (p :: a), b. split_and!; try done; [lia|]. intros x [->|Hx]%elem_of_cons; [done|auto].
  - specialize (IH c n). destruct (fold_left _ l _) as [c' n']. destruct IH as [(-> & -> & H)|(a & b & -> & -> & H1 & H2 & H3)].
    + left. split_and!; try done. intros x [->|Hx]%elem_of_cons; [subst w; lia|auto].
    + right. exists (p :: a), b. split_and!; try done. intros x [->|Hx]%elem_of_cons; [subst w; lia|auto].
Qed.

(** A fold of updates of single processes. *)
Lemma fold_alter_lookup (f : task -> task) l (ts : gmap Z task) p : NoDup l ->
  fold_left (fun ts p => alter f p ts) l ts !! p = if decide (p ∈ l) then f <$> ts !! p else ts !! p.
Proof.
  revert ts. induction l as [|x l IH]; intros ts Hnd; [done|]. apply NoDup_cons in Hnd as [Hx Hnd]. cbn [fold_left]. rewrite IH by done.
  destruct (decide (p = x)) as [->|Hne].
  - rewrite decide_False, decide_True by set_solver. apply lookup_alter_eq.
  - rewrite lookup_alter_ne by done. destruct (decide (p ∈ l)); [rewrite decide_True by set_solver|rewrite decide_False by set_solver]; done.
Qed.

Definition refilled (t : task) : task := with_counter t (s32 (Z.shiftr (counter t) 1 + priority t)).

Lemma unyield_lookup ts mmv l p : NoDup l ->
  unyield ts mmv l !! p = if decide (p ∈ l) then (fun t => (goodness t mmv).2) <$> ts !! p else ts !! p.
Proof. apply fold_alter_lookup. Qed.

Lemma recalculate_lookup l ts p : NoDup l -> recalculate l ts !! p = if decide (p ∈ l) then refilled <$> ts !! p else ts !! p.
Proof. apply fold_alter_lookup. Qed.

(** ** The invariant *)

Definition policy_ok (pol : Z) : Prop := pol = SCHED_OTHER \/ pol = SCHED_FIFO \/ pol = SCHED_RR \/ pol = SCHED_YIELD.

Record task_ok (t : task) : Prop := {
  tk_policy : policy_ok (policy t);
  tk_rt : 0 <= rt_priority t <= 99;
  tk_counter : 0 <= counter t <= 4 * DEF_PRIORITY;
  tk_priority : 1 <= priority t <= 2 * DEF_PRIORITY }.

(** The processes of [l] are on the run queue.  [mid]: in the middle of [schedule], when
    the current process is treated as the others. *)
Record sched_ok (mid : bool) (st : state) (l : list Z) : Prop := {
  ok_ring : ring (rq st) l;
  ok_nr : nr_running st = Z.of_nat (length l);
  ok_idle : exists t, tasks st !! init_task = Some t /\ policy t = SCHED_OTHER /\ tstate t = TASK_RUNNING;
  ok_order : NoDup (order st) /\ forall p, p ∈ order st <-> p <> init_task /\ is_Some (tasks st !! p);
  ok_tasks : forall p t, p <> init_task -> tasks st !! p = Some t -> task_ok t;
  ok_queue : forall p, p ∈ l -> is_Some (tasks st !! p);
  ok_state : forall p t, p <> init_task -> mid = true \/ p <> current st -> tasks st !! p = Some t -> p ∈ l <-> tstate t = TASK_RUNNING;
  ok_current : is_Some (tasks st !! current st) /\ (mid = false -> current st <> init_task -> current st ∈ l) }.

Lemma ok_nodup mid st l : sched_ok mid st l -> NoDup l /\ init_task ∉ l.
Proof. intros H. destruct (ok_ring mid st l H) as [Hnd _ _]. apply NoDup_cons in Hnd. tauto. Qed.

Lemma ok_length mid st l : sched_ok mid st l -> (length l <= size (tasks st))%nat.
Proof.
  intros H. destruct (ok_nodup mid st l H) as [Hnd _]. pose proof (ok_queue mid st l H) as Hq.
  rewrite <-size_dom. rewrite <-(size_list_to_set (C := gset Z) l Hnd). apply subseteq_size. intros p Hp.
  apply elem_of_list_to_set in Hp. by apply elem_of_dom, Hq.
Qed.

(** A process is replaced by one of the same state. *)
Lemma ok_update_task mid st l p t t' :
  sched_ok mid st l -> tasks st !! p = Some t -> tstate t' = tstate t -> (p <> init_task -> task_ok t') ->
  (p = init_task -> policy t' = policy t) -> sched_ok mid (set_task st p t') l.
Proof.
  intros [H1 H2 H3 H4 H5 H6 H7 H8] Hp Hs Hok Hpol.
  assert (Hsome : forall q, is_Some (<[p := t']> (tasks st) !! q) <-> is_Some (tasks st !! q)).
  { intros q. destruct (decide (q = p)) as [->|]; [rewrite lookup_insert_eq, Hp; split; by eexists|by rewrite lookup_insert_ne]. }
  constructor; cbn; try done.
  - destruct H3 as (t0 & Ht0 & Hp0 & Hs0). destruct (decide (p = init_task)) as [->|].
    + rewrite lookup_insert_eq. exists t'. simplify_eq. split; [done|]. split; [by rewrite Hpol|by rewrite Hs].
    + rewrite lookup_insert_ne by done. by exists t0.
  - split; [apply H4|]. intros q. rewrite Hsome. apply H4.
  - intros q x Hq. destruct (decide (q = p)) as [->|]; [rewrite lookup_insert_eq; intros [= <-]; auto|rewrite lookup_insert_ne by done; by apply H5].
  - intros q Hq. apply Hsome. auto.
  - intros q x Hq Hm. destruct (decide (q = p)) as [->|].
    + rewrite lookup_insert_eq. intros [= <-]. rewrite Hs. by apply H7.
    + rewrite lookup_insert_ne by done. by apply H7.
  - rewrite Hsome. apply H8.
Qed.

(** The state of the current process is its own affair outside [schedule]. *)
Lemma ok_update_current st l t s :
  sched_ok false st l -> tasks st !! current st = Some t -> current st <> init_task -> sched_ok false (set_task st (current st) (with_state t s)) l.
Proof.
  intros [H1 H2 H3 H4 H5 H6 H7 H8] Hp H0.
  assert (Hsome : forall q, is_Some (<[current st := with_state t s]> (tasks st) !! q) <-> is_Some (tasks st !! q)).
  { intros q. destruct (decide (q = current st)) as [->|]; [rewrite lookup_insert_eq, Hp; split; by eexists|by rewrite lookup_insert_ne]. }
  constructor; cbn; try done.
  - destruct H3 as (t0 & Ht0 & ?). rewrite lookup_insert_ne by done. by exists t0.
  - split; [apply H4|]. intros q. rewrite Hsome. apply H4.
  - intros q x Hq. destruct (decide (q = current st)) as [->|]; [rewrite lookup_insert_eq; intros [= <-]|rewrite lookup_insert_ne by done; by apply H5].
    destruct (H5 _ t H0 Hp). by constructor.
  - intros q Hq. apply Hsome. auto.
  - intros q x Hq [?|Hm]; [done|]. rewrite lookup_insert_ne by done. apply H7; auto.
  - rewrite Hsome. apply H8.
Qed.

(** The queue changes, with the counter, to one with the same processes. *)
Lemma ok_reorder mid st l l' q : sched_ok mid st l -> ring q l' -> l' ≡ₚ l -> sched_ok mid (set_rq st q (nr_running st)) l'.
Proof.
  intros [H1 H2 H3 H4 H5 H6 H7 H8] Hq Hp. constructor; cbn; try done.
  - rewrite H2. by rewrite Hp.
  - intros p. rewrite Hp. apply H6.
  - intros p t Hp0 Hm Ht. rewrite Hp. by apply H7.
  - by rewrite Hp.
Qed.

(** ** Waking *)

Definition woken_queue (l : list Z) (p : Z) : list Z := if decide (p ∈ l) then l else p :: l.

(** What the choice looks at. *)
Definition same_task (t t' : task) : Prop :=
  policy t' = policy t /\ rt_priority t' = rt_priority t /\ counter t' = counter t /\ priority t' = priority t /\ mm t' = mm t.

Definition same_tasks (ts ts' : gmap Z task) : Prop := forall p, match ts !! p, ts' !! p with Some t, Some t' => same_task t t' | None, None => True | _, _ => False end.

#[global] Instance same_tasks_pre : PreOrder same_tasks.
Proof.
  split.
  - intros ts p. by destruct (ts !! p).
  - intros a b c Hab Hbc p. specialize (Hab p). specialize (Hbc p). destruct (a !! p), (b !! p), (c !! p); try done.
    unfold same_task in *. intuition congruence.
Qed.

Lemma same_insert ts p t t' : ts !! p = Some t -> same_task t t' -> same_tasks ts (<[p := t']> ts).
Proof. intros Hp Hs q. destruct (decide (q = p)) as [->|]; [by rewrite lookup_insert_eq, Hp|rewrite lookup_insert_ne by done]. by destruct (ts !! q). Qed.

(** A process wakes: its state, then the queue. *)
Lemma ok_wakes mid st l p t : sched_ok mid st l -> tasks st !! p = Some t -> p ∈ l -> sched_ok mid (set_task st p (with_state t TASK_RUNNING)) l.
Proof.
  intros Hok Hp Hin. pose proof (ok_nodup _ _ _ Hok) as [_ H0].
  destruct (decide (mid = true \/ p <> current st)) as [Hm|Hm].
  - eapply ok_update_task; try done.
    + cbn. symmetry. apply (ok_state _ _ _ Hok p t); [by intros ->|done|done|done].
    + intros Hne. destruct (ok_tasks _ _ _ Hok p t Hne Hp). by constructor.
  - destruct mid; [tauto|]. assert (p = current st) as -> by (destruct (decide (p = current st)); tauto).
    apply ok_update_current; [done|done|]. intros E. by rewrite E in Hin.
Qed.

Lemma ok_enqueued mid st l p t q : sched_ok mid st l -> tasks st !! p = Some t -> p <> init_task -> p ∉ l -> ring q (p :: l) ->
  sched_ok mid (set_rq (set_task st p (with_state t TASK_RUNNING)) q (nr_running st + 1)) (p :: l).
Proof.
  intros [H1 H2 H3 H4 H5 H6 H7 H8] Hp H0 Hnin Hq.
  assert (Hsome : forall x, is_Some (<[p := with_state t TASK_RUNNING]> (tasks st) !! x) <-> is_Some (tasks st !! x)).
  { intros x. destruct (decide (x = p)) as [->|]; [rewrite lookup_insert_eq, Hp; split; by eexists|by rewrite lookup_insert_ne]. }
  constructor; cbn [set_rq set_task tasks order rq nr_running current]; try done.
  - cbn [length]. lia.
  - destruct H3 as (t0 & Ht0 & ?). rewrite lookup_insert_ne by done. by exists t0.
  - split; [apply H4|]. intros x. rewrite Hsome. apply H4.
  - intros x y Hx. destruct (decide (x = p)) as [->|]; [rewrite lookup_insert_eq; intros [= <-]|rewrite lookup_insert_ne by done; by apply H5].
    destruct (H5 p t H0 Hp). by constructor.
  - intros x [->|Hx]%elem_of_cons; apply Hsome; [by eexists|auto].
  - intros x y Hx Hm. destruct (decide (x = p)) as [->|].
    + rewrite lookup_insert_eq. intros [= <-]. cbn. set_solver.
    + rewrite lookup_insert_ne by done. intros Hy. rewrite elem_of_cons. rewrite <-(H7 x y Hx Hm Hy). tauto.
  - rewrite Hsome. destruct H8 as [? H8]. split; [done|]. intros Hm Hc. right. auto.
Qed.

Lemma wake_spec mid st l p : sched_ok mid st l -> p <> init_task -> is_Some (tasks st !! p) ->
  exists st', wake_up_process st p = Some st' /\ sched_ok mid st' (woken_queue l p) /\ same_tasks (tasks st) (tasks st') /\
    order st' = order st /\ current st' = current st /\ context_swtch st' = context_swtch st.
Proof.
  intros Hok H0 [t Hp]. unfold wake_up_process. rewrite Hp. cbn [mbind option_bind set_task rq].
  assert (Hsame : same_tasks (tasks st) (<[p := with_state t TASK_RUNNING]> (tasks st))) by (by eapply same_insert).
  destruct (next_run (rq st) !! p) as [n|] eqn:En.
  - assert (Hin : p ∈ l). { destruct (decide (p ∈ l)); [done|]. apply (ring_on_queue _ _ _ (ok_ring _ _ _ Hok) H0) in n0. congruence. }
    eexists. split; [done|]. unfold woken_queue. rewrite decide_True by done. split_and!; [by apply ok_wakes|done..].
  - assert (Hin : p ∉ l) by (by apply (ring_on_queue _ _ _ (ok_ring _ _ _ Hok) H0)).
    destruct (ring_add (rq st) l p (ok_ring _ _ _ Hok) ltac:(set_solver)) as (q & Eq & Hq). rewrite Eq. cbn [mbind option_bind].
    pose proof (ok_enqueued mid st l p t q Hok Hp H0 Hin Hq) as Hok'. unfold woken_queue. rewrite decide_False by done.
    unfold reschedule_idle. cbn [set_rq set_task tasks current nr_running order rq] in *. rewrite lookup_insert_eq. cbn [mbind option_bind].
    destruct (ok_current _ _ _ Hok') as [[c Hc] _]. cbn [set_rq set_task tasks current] in Hc. rewrite Hc. cbn [mbind option_bind].
    eexists. split; [done|]. destruct (_ || _).
    + split_and!; [|etrans; [exact Hsame|]; by eapply same_insert|done..].
      eapply (ok_update_task mid _ (p :: l) (current st) c); [exact Hok'|done|done| |done].
      intros Hc0. destruct (ok_tasks _ _ _ Hok' _ c Hc0 Hc). by constructor.
    + split_and!; [exact Hok'|done..].
Qed.

Lemma wake_all_spec mid st l woken : sched_ok mid st l -> (forall p, p ∈ woken -> p <> init_task /\ is_Some (tasks st !! p)) ->
  exists st' pre, wake_all st woken = Some st' /\ sched_ok mid st' (pre ++ l) /\ same_tasks (tasks st) (tasks st') /\
    order st' = order st /\ current st' = current st /\ context_swtch st' = context_swtch st /\
    (forall p, p ∈ pre -> p ∈ woken) /\ forall p, p ∈ woken -> p ∈ pre ++ l.
Proof.
  revert st l. induction woken as [|p woken IH]; intros st l Hok Hw.
  { exists st, []. split_and!; try done; set_solver. }
  cbn [wake_all]. destruct (Hw p ltac:(set_solver)) as [H0 Hp].
  destruct (wake_spec mid st l p Hok H0 Hp) as (st1 & E1 & Hok1 & Hs1 & Ho1 & Hc1 & Hx1). rewrite E1. cbn [mbind option_bind].
  destruct (IH st1 (woken_queue l p) Hok1) as (st2 & pre & E2 & Hok2 & Hs2 & Ho2 & Hc2 & Hx2 & Hpre & Hin).
  { intros q Hq. destruct (Hw q ltac:(set_solver)) as [? [tq Htq]]. split; [done|]. specialize (Hs1 q). rewrite Htq in Hs1.
    destruct (tasks st1 !! q); [by eexists|done]. }
  assert (exists pre', pre ++ woken_queue l p = pre' ++ l /\ (forall q, q ∈ pre' -> q = p \/ q ∈ pre)) as (pre' & E & Hpre').
  { unfold woken_queue. destruct (decide (p ∈ l)); [exists pre; split; [done|auto]|]. exists (pre ++ [p]). split; [by rewrite <-app_assoc|set_solver]. }
  rewrite E in *. exists st2, pre'. split_and!; try done; try congruence.
  - by etrans.
  - intros q Hq. destruct (Hpre' q Hq) as [->|]; set_solver.
  - intros q [->|Hq]%elem_of_cons; [|by apply Hin]. rewrite <-E. unfold woken_queue. destruct (decide (p ∈ l)); set_solver.
Qed.

(** ** The first half of [schedule] *)

Definition stays (t : task) : bool := (tstate t =? TASK_RUNNING) || ((tstate t =? TASK_INTERRUPTIBLE) && sigpending t).

Definition exhausted (t : task) : bool := (counter t =? 0) && (policy t =? SCHED_RR).

Definition others (l : list Z) (p : Z) : list Z := filter (fun q => q <> p) l.

(** The queue that the choice is made from. *)
Definition candidates (t : task) (prev : Z) (l : list Z) : list Z :=
  let l := if exhausted t then others l prev ++ [prev] else l in
  if stays t then l else others l prev.

(** The current process, when the choice is made. *)
Definition settled (t : task) : task :=
  let t := with_resched t false in
  let t := if exhausted t then with_counter t (priority t) else t in
  if stays t then with_state t TASK_RUNNING else t.

Lemma others_split a p c : p ∉ a ++ c -> others (a ++ p :: c) p = a ++ c.
Proof.
  intros Hp. unfold others. rewrite filter_app, filter_cons_False by auto.
  assert (Hid : forall k : list Z, p ∉ k -> filter (fun q => q <> p) k = k).
  { intros k Hk. induction k as [|x k IH]; [done|]. rewrite filter_cons_True by set_solver. by rewrite IH by set_solver. }
  rewrite !Hid by set_solver. done.
Qed.

Lemma ok_dequeued st l p q a c t : sched_ok false st (a ++ p :: c) -> p = current st -> p <> init_task -> tasks st !! p = Some t ->
  tstate t <> TASK_RUNNING -> l = a ++ c -> ring q l -> sched_ok true (set_rq st q (nr_running st - 1)) l.
Proof.
  intros Hok -> H0 Hp Hs -> Hq. pose proof (ring_not_in _ _ _ _ (ok_ring _ _ _ Hok)) as Hnin.
  destruct Hok as [H1 H2 H3 H4 H5 H6 H7 H8]. constructor; cbn; try done.
  - rewrite length_app in *. cbn in H2. lia.
  - intros x Hx. apply H6. set_solver.
  - intros x y Hx _ Hy. destruct (decide (x = current st)) as [->|Hne].
    + split; [set_solver|]. intros. simplify_eq.
    + rewrite <-(H7 x y Hx (or_intror Hne) Hy). set_solver.
Qed.

(** Seen from the middle of [schedule]. *)
Lemma ok_mid st l t : sched_ok false st l -> tasks st !! current st = Some t -> tstate t = TASK_RUNNING -> sched_ok true st l.
Proof.
  intros [H1 H2 H3 H4 H5 H6 H7 H8] Hp Hs. constructor; try done.
  - intros x y Hx _ Hy. destruct (decide (x = current st)) as [->|Hne]; [|by apply H7; auto]. simplify_eq. split; [done|].
    intros _. by apply H8.
Qed.

(** Removing and moving the current process, on the queue as it is. *)
Lemma ok_current_split st l : sched_ok false st l -> current st <> init_task ->
  exists a c, l = a ++ current st :: c /\ others l (current st) = a ++ c.
Proof.
  intros Hok H0. destruct (ok_current _ _ _ Hok) as [_ Hc]. specialize (Hc eq_refl H0).
  apply list_elem_of_split in Hc as (a & c & E). exists a, c. split; [done|]. subst l. apply others_split.
  pose proof (ring_not_in _ _ _ _ (ok_ring _ _ _ Hok)). set_solver.
Qed.

(** The queue of an exhausted round-robin process is rotated. *)
Lemma rotate_spec st l t : sched_ok false st l -> tasks st !! current st = Some t ->
  exists st' t', (if (counter (with_resched t false) =? 0) && (policy (with_resched t false) =? SCHED_RR) then
       q ← move_last_runqueue (rq st) (current st);
       Some (set_rq (set_task st (current st) (with_counter (with_resched t false) (priority (with_resched t false)))) q (nr_running st))
     else Some (set_task st (current st) (with_resched t false))) = Some st' /\
    t' = (if exhausted t then with_counter (with_resched t false) (priority t) else with_resched t false) /\
    tasks st' = <[current st := t']> (tasks st) /\ order st' = order st /\ current st' = current st /\ context_swtch st' = context_swtch st /\
    sched_ok false st' (if exhausted t then others l (current st) ++ [current st] else l).
Proof.
  intros Hok Ht. unfold exhausted. cbn [with_resched counter policy priority].
  destruct ((counter t =? 0) && (policy t =? SCHED_RR)) eqn:E.
  - apply andb_true_iff in E as [E1 E2]. assert (H0 : current st <> init_task).
    { intros E. destruct (ok_idle _ _ _ Hok) as (t0 & Ht0 & Hp0 & _). rewrite E in Ht. simplify_eq. unfold SCHED_RR, SCHED_OTHER in *. lia. }
    destruct (ok_current_split st l Hok H0) as (a & c & El & Eo).
    pose proof (ok_ring _ _ _ Hok) as Hr. rewrite El in Hr. destruct (ring_move_last _ _ _ _ Hr) as (q & Eq & Hq). rewrite Eq. cbn [mbind option_bind].
    do 2 eexists. split_and!; try done. rewrite Eo, <-app_assoc.
    apply (ok_reorder false (set_task st (current st) (with_counter (with_resched t false) (priority t))) l).
    + eapply ok_update_task; try done. intros _. destruct (ok_tasks _ _ _ Hok _ t H0 Ht) as [K1 K2 K3 K4]. constructor; cbn; try done. lia.
    + done.
    + rewrite El, app_assoc, Permutation_app_comm. cbn. by rewrite Permutation_middle.
  - do 2 eexists. split_and!; try done. eapply ok_update_task; try done.
    intros H0. destruct (ok_tasks _ _ _ Hok _ t H0 Ht). by constructor.
Qed.

Lemma schedule_first_spec st l t : sched_ok false st l -> tasks st !! current st = Some t ->
  exists st', schedule_first st = Some (head_of init_task (candidates t (current st) l), st') /\
    sched_ok true st' (candidates t (current st) l) /\ tasks st' = <[current st := settled t]> (tasks st) /\
    order st' = order st /\ current st' = current st /\ context_swtch st' = context_swtch st.
Proof.
  intros Hok Ht. unfold schedule_first. rewrite Ht. cbn [mbind option_bind].
  destruct (rotate_spec st l t Hok Ht) as (st1 & t1 & E1 & Et1 & Ets & Eo & Ec & Ex & Hok1).
  rewrite E1. cbn [mbind option_bind]. assert (Ht1 : tasks st1 !! current st = Some t1) by (rewrite Ets; apply lookup_insert_eq).
  rewrite Ht1. cbn [mbind option_bind]. clear E1.
  set (l1 := if exhausted t then others l (current st) ++ [current st] else l) in *.
  assert (Hst : tstate t1 = tstate t /\ sigpending t1 = sigpending t) by (rewrite Et1; by destruct (exhausted t)). destruct Hst as [Hs1 Hs2].
  assert (Hset : settled t = if stays t then with_state t1 TASK_RUNNING else t1).
  { unfold settled. rewrite Et1. change (exhausted (with_resched t false)) with (exhausted t). by destruct (exhausted t). }
  assert (Hcand : candidates t (current st) l = if stays t then l1 else others l1 (current st)) by done.
  rewrite <-Ec in Ht1. pose proof (ok_current _ _ _ Hok1) as [_ Hcl]. specialize (Hcl eq_refl).
  rewrite Hcand, Hset. unfold stays. rewrite Hs1, Hs2.
  destruct (Z.eqb_spec (tstate t) TASK_RUNNING) as [Er|Er]; cbn [orb mbind option_bind].
  - assert (Hid : with_state t1 TASK_RUNNING = t1) by (rewrite <-Er, <-Hs1; by destruct t1).
    rewrite (ring_head _ _ (ok_ring _ _ _ Hok1)). cbn [mbind option_bind]. eexists. split; [done|]. rewrite Hid.
    split_and!; try done. eapply ok_mid; [done|exact Ht1|congruence].
  - assert (H0 : current st <> init_task).
    { intros E. destruct (ok_idle _ _ _ Hok) as (t0 & Ht0 & _ & Hr0). rewrite E in Ht. simplify_eq. }
    destruct ((tstate t =? TASK_INTERRUPTIBLE) && sigpending t); cbn [mbind option_bind].
    + assert (Hok2 : sched_ok false (set_task st1 (current st1) (with_state t1 TASK_RUNNING)) l1) by (apply ok_update_current; [done|done|congruence]).
      rewrite Ec in Hok2. cbn [set_task rq]. rewrite (ring_head _ _ (ok_ring _ _ _ Hok1)). cbn [mbind option_bind]. eexists. split; [done|].
      split_and!; try done; [|cbn; by rewrite Ets, insert_insert_eq].
      eapply (ok_mid _ _ (with_state t1 TASK_RUNNING)); [done| |done]. cbn. rewrite Ec. apply lookup_insert_eq.
    + destruct (ok_current_split st1 l1 Hok1 ltac:(congruence)) as (a & c & El & Eoth). rewrite Ec in *.
      pose proof (ok_ring _ _ _ Hok1) as Hr. rewrite El in Hr. destruct (ring_del _ _ _ _ Hr) as (q & Eq & Hq).
      rewrite Eq. cbn [mbind option_bind set_rq rq]. rewrite Eoth, (ring_head _ _ Hq). cbn [mbind option_bind]. eexists. split; [done|].
      split_and!; try done. rewrite El in Hok1.
      eapply (ok_dequeued st1 (a ++ c) (current st) q a c t1); try done; congruence.
Qed.

(** ** The second half *)

Lemma goodness_bounds t mmv : task_ok t -> 0 <= (goodness t mmv).1 /\ task_ok (goodness t mmv).2 /\ tstate (goodness t mmv).2 = tstate t.
Proof.
  intros Hok. pose proof Hok as [H1 H2 H3 H4]. unfold goodness. destruct (negb (Z.land (policy t) SCHED_YIELD =? 0)) eqn:Ey; cbn.
  - split; [done|]. split; [|done]. constructor; cbn; try done.
    destruct H1 as [-> |[-> |[-> | ->]]]; unfold policy_ok; cbn; auto.
  - destruct (negb (policy t =? SCHED_OTHER)); cbn; [split; [lia|by split]|].
    split; [|by split]. destruct (negb (counter t =? 0)), (mm t =? mmv); lia.
Qed.

Lemma refilled_counter t : task_ok t -> counter (refilled t) = counter t / 2 + priority t.
Proof.
  intros [H1 H2 H3 H4]. unfold refilled, with_counter, DEF_PRIORITY, HZ in *. cbn [counter]. rewrite Z.shiftr_div_pow2 by lia.
  change (2 ^ 1) with 2. apply s32_id. change (20 * 100 / 100) with 20 in *. Z.to_euclidean_division_equations. lia.
Qed.

Lemma refilled_ok t : task_ok t -> task_ok (refilled t).
Proof.
  intros Hok. pose proof (refilled_counter t Hok) as Hc. destruct Hok as [H1 H2 H3 H4]. constructor; try done. rewrite Hc.
  unfold DEF_PRIORITY, HZ in *. change (20 * 100 / 100) with 20 in *. Z.to_euclidean_division_equations. lia.
Qed.

(** All processes change in a way that the queue does not notice, and another one runs. *)
Lemma ok_retask st l ts next sw : sched_ok true st l ->
  (forall p, match tasks st !! p, ts !! p with
             | Some t, Some t' => tstate t' = tstate t /\ (p <> init_task -> task_ok t') /\ (p = init_task -> policy t' = policy t)
             | None, None => True
             | _, _ => False
             end) ->
  next = init_task \/ next ∈ l -> sched_ok false (State ts (order st) (rq st) (nr_running st) next sw) l.
Proof.
  intros [H1 H2 H3 H4 H5 H6 H7 H8] Hts Hnext.
  assert (Hsome : forall p, is_Some (ts !! p) <-> is_Some (tasks st !! p)).
  { intros p. specialize (Hts p). destruct (tasks st !! p), (ts !! p); try done; split; by eexists. }
  constructor; cbn; try done.
  - destruct H3 as (t0 & Ht0 & Hp0 & Hs0). pose proof (Hts init_task) as Hi. rewrite Ht0 in Hi. destruct (ts !! init_task) as [t'|]; [|done].
    exists t'. destruct Hi as (Hi1 & _ & Hi2). split; [done|]. split; [rewrite Hi2; done|congruence].
  - split; [apply H4|]. intros p. rewrite Hsome. apply H4.
  - intros p t Hp Ht. specialize (Hts p). rewrite Ht in Hts. destruct (tasks st !! p); [|done]. by apply Hts.
  - intros p Hp. apply Hsome. auto.
  - intros p t Hp _ Ht. specialize (Hts p). rewrite Ht in Hts. destruct (tasks st !! p) as [t0|] eqn:Et; [|done].
    destruct Hts as [-> _]. apply H7; [done|by left|done].
  - rewrite Hsome. split; [|intros _ Hn; destruct Hnext; [done|done]]. destruct Hnext as [-> |Hn]; [|auto].
    destruct H3 as (t0 & Ht0 & _). by eexists.
Qed.

Definition chosen_tasks (st : state) (mmv : Z) (l0 : list Z) : gmap Z task :=
  let ts := unyield (tasks st) mmv l0 in
  if (best (tasks st) mmv l0 (-1000) init_task).1 =? 0 then recalculate (order st) ts else ts.

Lemma weight_nonneg mid st l mmv p : sched_ok mid st l -> p <> init_task -> 0 <= weight_of (tasks st) mmv p.
Proof.
  intros Hok H0. unfold weight_of. destruct (tasks st !! p) as [t|] eqn:E; [|done]. apply goodness_bounds, (ok_tasks _ _ _ Hok p); done.
Qed.

(** Who is chosen: the idle task if there is no candidate, else the first of the best. *)
Lemma best_choice mid st pre l0 mmv : sched_ok mid st (pre ++ l0) ->
  let next := (best (tasks st) mmv l0 (-1000) init_task).2 in
  (l0 = [] /\ next = init_task) \/
  (exists a b, l0 = a ++ next :: b /\ (best (tasks st) mmv l0 (-1000) init_task).1 = weight_of (tasks st) mmv next /\
     (forall p, p ∈ a -> weight_of (tasks st) mmv p < weight_of (tasks st) mmv next) /\
     (forall p, p ∈ b -> weight_of (tasks st) mmv p <= weight_of (tasks st) mmv next)).
Proof.
  intros Hok. pose proof (best_spec (tasks st) mmv l0 (-1000) init_task) as Hb. destruct (best _ _ _ _ _) as [c n].
  destruct Hb as [(-> & -> & H)|(a & b & -> & -> & _ & Ha & Hb)]; [|right; by exists a, b]. left. destruct l0 as [|p l0]; [done|exfalso].
  specialize (H p ltac:(set_solver)). pose proof (ok_nodup _ _ _ Hok) as [_ Hnin].
  pose proof (weight_nonneg mid st _ mmv p Hok ltac:(intros ->; set_solver)). lia.
Qed.

Lemma schedule_second_spec st pre l0 pt : sched_ok true st (pre ++ l0) -> tasks st !! current st = Some pt ->
  let next := (best (tasks st) (mm pt) l0 (-1000) init_task).2 in
  let st' := State (chosen_tasks st (mm pt) l0) (order st) (rq st) (nr_running st) next
               (if current st =? next then context_swtch st else context_swtch st + 1) in
  schedule_second st (head_of init_task l0) = Some st' /\ sched_ok false st' (pre ++ l0).
Proof.
  intros Hok Hpt. pose proof (ok_nodup _ _ _ Hok) as [Hnd Hni]. apply NoDup_app in Hnd as (_ & _ & Hnd0). cbn zeta. split.
  - unfold schedule_second. rewrite Hpt. cbn [mbind option_bind]. rewrite (pick_spec _ _ _ pre); [|apply (ok_ring _ _ _ Hok)| |].
    + unfold chosen_tasks. by destruct (best _ _ _ _ _).
    + intros p Hp. apply (ok_queue _ _ _ Hok). set_solver.
    + pose proof (ok_length _ _ _ Hok) as Hlen. rewrite length_app in Hlen. lia.
  - apply ok_retask; [done| |].
    + intros p. unfold chosen_tasks. destruct (ok_order _ _ _ Hok) as [Hndo Hord].
      assert (Hun : match tasks st !! p, unyield (tasks st) (mm pt) l0 !! p with
        | Some t, Some t' => tstate t' = tstate t /\ (p <> init_task -> task_ok t') /\ (p = init_task -> policy t' = policy t)
        | None, None => True | _, _ => False end).
      { rewrite unyield_lookup by done. destruct (tasks st !! p) as [t|] eqn:Et; [|by destruct (decide (p ∈ l0))].
        destruct (decide (p ∈ l0)); cbn; [|split; [done|]; split; [|done]; intros; by apply (ok_tasks _ _ _ Hok p)].
        assert (Hp0 : p <> init_task) by (intros ->; set_solver).
        destruct (goodness_bounds t (mm pt) (ok_tasks _ _ _ Hok p t Hp0 Et)) as (_ & ? & ?). done. }
      destruct (_ =? 0); [|done]. rewrite recalculate_lookup by done. destruct (decide (p ∈ order st)) as [Hin|]; [|done].
      destruct (tasks st !! p), (unyield _ _ _ !! p); cbn; try done. destruct Hun as (E1 & E2 & _).
      apply Hord in Hin as [Hp0 _]. split; [done|]. split; [|done]. intros _. by apply refilled_ok, E2.
    + destruct (best_choice true st pre l0 (mm pt) Hok) as [[-> E]|(a & b & E & _)]; [left; by rewrite E|]. right.
      set (n := (best _ _ _ _ _).2) in *. rewrite E. set_solver.
Qed.

(** ** The whole of [schedule] *)

Lemma goodness_same t t' mmv : same_task t t' -> (goodness t' mmv).1 = (goodness t mmv).1.
Proof. intros (E1 & E2 & E3 & E4 & E5). unfold goodness. rewrite E1, E2, E3, E4, E5. by repeat case_match. Qed.

Lemma weight_same ts ts' mmv p : same_tasks ts ts' -> weight_of ts' mmv p = weight_of ts mmv p.
Proof. intros H. specialize (H p). unfold weight_of. destruct (ts !! p), (ts' !! p); try done. by apply goodness_same. Qed.

Lemma weight_settled ts mmv cur t p : ts !! cur = Some t -> weight_of (<[cur := settled t]> ts) mmv p = weight_of ts mmv p.
Proof.
  intros Ht. unfold weight_of. destruct (decide (p = cur)) as [->|]; [|by rewrite lookup_insert_ne].
  rewrite lookup_insert_eq, Ht. unfold settled. change (exhausted (with_resched t false)) with (exhausted t).
  destruct (exhausted t) eqn:E.
  - unfold exhausted in E. apply andb_true_iff in E as [_ E%Z.eqb_eq].
    assert (Hrt : forall t', policy t' = SCHED_RR -> (goodness t' mmv).1 = 1000 + rt_priority t') by (intros t' Et; unfold goodness; by rewrite Et).
    destruct (stays _); rewrite !Hrt; done.
  - destruct (stays _); by apply goodness_same.
Qed.

Lemma mm_settled t : mm (settled t) = mm t.
Proof. unfold settled. by repeat case_match. Qed.

Lemma same_counter ts ts' p t : same_tasks ts ts' -> ts !! p = Some t -> exists t', ts' !! p = Some t' /\ same_task t t'.
Proof. intros H Hp. specialize (H p). rewrite Hp in H. destruct (ts' !! p); [by eexists|done]. Qed.

Lemma goodness_keeps t mmv : counter (goodness t mmv).2 = counter t /\ priority (goodness t mmv).2 = priority t.
Proof. unfold goodness. by repeat case_match. Qed.

Lemma goodness_policy t mmv : policy_ok (policy t) -> policy (goodness t mmv).2 = Z.land (policy t) (Z.lnot SCHED_YIELD).
Proof.
  intros H. unfold goodness. destruct (negb (Z.land (policy t) SCHED_YIELD =? 0)) eqn:E; [done|].
  assert (Hp : policy t = Z.land (policy t) (Z.lnot SCHED_YIELD)).
  { destruct H as [Hp|[Hp|[Hp|Hp]]]; rewrite Hp in *; done. }
  by repeat case_match.
Qed.

(** What becomes of the time slice of a process. *)
Lemma chosen_counter st l pre l0 mmv p tp : sched_ok true st l -> l = pre ++ l0 -> p <> init_task -> tasks st !! p = Some tp ->
  exists t', chosen_tasks st mmv l0 !! p = Some t' /\
    counter t' = (if (best (tasks st) mmv l0 (-1000) init_task).1 =? 0 then counter tp / 2 + priority tp else counter tp) /\
    policy t' = (if decide (p ∈ l0) then Z.land (policy tp) (Z.lnot SCHED_YIELD) else policy tp) /\
    priority t' = priority tp /\ (p ∈ l0 -> tstate t' = TASK_RUNNING).
Proof.
  intros Hok -> Hp0 Ht. pose proof (ok_nodup _ _ _ Hok) as [Hnd _]. apply NoDup_app in Hnd as (_ & _ & Hnd0).
  destruct (ok_order _ _ _ Hok) as [Hndo Hord]. unfold chosen_tasks.
  pose proof (ok_tasks _ _ _ Hok p tp Hp0 Ht) as Htk.
  assert (Hrun : p ∈ l0 -> tstate tp = TASK_RUNNING) by (intros Hin; apply (ok_state _ _ _ Hok p tp); [done|by left|done|set_solver]).
  assert (Hun : exists t', unyield (tasks st) mmv l0 !! p = Some t' /\ counter t' = counter tp /\ priority t' = priority tp /\ task_ok t' /\
    policy t' = (if decide (p ∈ l0) then Z.land (policy tp) (Z.lnot SCHED_YIELD) else policy tp) /\ tstate t' = tstate tp).
  { rewrite unyield_lookup, Ht by done. destruct (decide (p ∈ l0)); cbn; [|by exists tp].
    eexists. split; [done|]. destruct (goodness_keeps tp mmv) as [-> ->]. rewrite (goodness_policy tp mmv (tk_policy tp Htk)).
    by destruct (goodness_bounds tp mmv Htk) as (_ & ? & ?). }
  destruct Hun as (t' & Et' & Ec & Epr & Hok' & Epol & Est). destruct (_ =? 0); [|exists t'; split_and!; try done; rewrite Est; done].
  rewrite recalculate_lookup, Et' by done. rewrite decide_True by (apply Hord; split; [done|by eexists]). cbn [fmap option_fmap option_map].
  eexists. split; [done|]. rewrite refilled_counter by done. rewrite Ec, Epr. split_and!; try done. cbn. by rewrite Est.
Qed.

Lemma schedule_spec st l t woken :
  sched_ok false st l -> tasks st !! current st = Some t -> (forall p, p ∈ woken -> p <> init_task /\ is_Some (tasks st !! p)) ->
  let l0 := candidates t (current st) l in
  let w := weight_of (tasks st) (mm t) in
  exists st' pre, schedule st woken = Some st' /\ sched_ok false st' (pre ++ l0) /\
    (forall p, p ∈ pre -> p ∈ woken) /\ (forall p, p ∈ woken -> p ∈ pre ++ l0) /\
    (l0 = [] -> current st' = init_task) /\
    (l0 <> [] -> exists a b, l0 = a ++ current st' :: b /\ (forall p, p ∈ a -> w p < w (current st')) /\ forall p, p ∈ b -> w p <= w (current st')) /\
    (forall p tp, p <> init_task -> tasks st !! p = Some tp ->
       let c := if bool_decide (p = current st) && exhausted tp then priority tp else counter tp in
       exists t', tasks st' !! p = Some t' /\
         counter t' = (if bool_decide (l0 <> []) && (w (current st') =? 0) then c / 2 + priority tp else c) /\
         policy t' = (if decide (p ∈ l0) then Z.land (policy tp) (Z.lnot SCHED_YIELD) else policy tp) /\
         priority t' = priority tp /\ (p ∈ l0 -> tstate t' = TASK_RUNNING)).
Proof.
  intros Hok Ht Hw. cbn zeta. destruct (schedule_first_spec st l t Hok Ht) as (st1 & E1 & Hok1 & Ets1 & Eo1 & Ec1 & Ex1).
  set (l0 := candidates t (current st) l) in *.
  destruct (wake_all_spec true st1 l0 woken Hok1) as (st2 & pre & E2 & Hok2 & Hs2 & Eo2 & Ec2 & Ex2 & Hpre & Hin).
  { intros p Hp. destruct (Hw p Hp) as [Hp0 [tp Htp]]. split; [done|]. rewrite Ets1. destruct (decide (p = current st)) as [->|].
    - rewrite lookup_insert_eq. by eexists.
    - rewrite lookup_insert_ne by done. by eexists. }
  assert (Hcur1 : tasks st1 !! current st = Some (settled t)) by (rewrite Ets1; apply lookup_insert_eq).
  destruct (same_counter _ _ _ _ Hs2 Hcur1) as (pt & Hpt & Hsame).
  assert (Emm : mm pt = mm t) by (destruct Hsame as (_ & _ & _ & _ & ->); apply mm_settled).
  rewrite <-Ec1, <-Ec2 in Hpt. destruct (schedule_second_spec st2 pre l0 pt Hok2 Hpt) as [E3 Hok3].
  pose proof (best_choice true st2 pre l0 (mm pt) Hok2) as Hch. cbn zeta in *. set (next := (best (tasks st2) (mm pt) l0 (-1000) init_task).2) in *.
  assert (Ew : forall p, weight_of (tasks st2) (mm pt) p = weight_of (tasks st) (mm t) p).
  { intros p. rewrite (weight_same _ _ _ _ Hs2), Ets1, Emm. by apply weight_settled. }
  eexists _, pre. split; [|split; [exact Hok3|]].
  { unfold schedule. rewrite E1. cbn [mbind option_bind]. rewrite E2. cbn [mbind option_bind]. exact E3. }
  cbn [current tasks]. split; [done|]. split; [done|]. split; [|split].
  - intros En. destruct Hch as [[_ ?]|(a & b & E & _)]; [done|]. rewrite En in E. by destruct a.
  - intros Hne. destruct Hch as [[? _]|(a & b & E & _ & Ha & Hb)]; [done|]. exists a, b. split; [done|].
    split; intros p Hp; rewrite <-!Ew; auto.
  - intros p tp Hp0 Htp. assert (Htp2 : exists tp2, tasks st2 !! p = Some tp2 /\ priority tp2 = priority tp /\ policy tp2 = policy tp /\
      counter tp2 = if bool_decide (p = current st) && exhausted tp then priority tp else counter tp).
    { assert (H1 : exists tp1, tasks st1 !! p = Some tp1 /\ priority tp1 = priority tp /\ policy tp1 = policy tp /\
        counter tp1 = if bool_decide (p = current st) && exhausted tp then priority tp else counter tp).
      { rewrite Ets1. destruct (decide (p = current st)) as [->|].
        - rewrite lookup_insert_eq. simplify_eq. eexists. split; [done|]. rewrite bool_decide_eq_true_2 by done. unfold settled.
          change (exhausted (with_resched t false)) with (exhausted t). destruct (exhausted t); cbn; by destruct (stays _).
        - rewrite lookup_insert_ne, bool_decide_eq_false_2 by done. by exists tp. }
      destruct H1 as (tp1 & H1 & H1p & H1pol & H1c). destruct (same_counter _ _ _ _ Hs2 H1) as (tp2 & H2 & Hs). exists tp2.
      destruct Hs as (-> & _ & -> & -> & _). done. }
    destruct Htp2 as (tp2 & Htp2 & Epr & Epol & Ecn).
    destruct (chosen_counter st2 _ pre l0 (mm pt) p tp2 Hok2 eq_refl Hp0 Htp2) as (t' & Et' & Ect & Ect2 & Ect3 & Ect4).
    rewrite Epol in Ect2. exists t'. split; [done|]. split; [|split_and!; [done|congruence|done]]. rewrite Ect, Epr, Ecn. replace ((best (tasks st2) (mm pt) l0 (-1000) init_task).1 =? 0)
      with (bool_decide (l0 <> []) && (weight_of (tasks st) (mm t) next =? 0)); [done|].
    destruct Hch as [[En _]|(a & b & E & Eb & _)].
    + rewrite En. done.
    + rewrite Eb, Ew. rewrite bool_decide_eq_true_2; [done|]. intros En. rewrite En in E. by destruct a.
Qed.

(** ** Reachable states *)

Definition set_priority (st : state) (p : Z) (t : task) (v : Z) : state := set_task st p (with_priority t v).

Definition set_sigpending (st : state) (p : Z) (t : task) (b : bool) : state :=
  set_task st p (Task (policy t) (rt_priority t) (counter t) (priority t) (mm t) (tstate t) b (need_resched t) (uid t) (euid t)).

(** What can happen to the scheduler: calls of the current process, which is not the idle
    task, interrupts, and [schedule] itself. *)
Inductive sched_step (st : state) : state -> Prop :=
| step_schedule woken st' :
    (forall p, p ∈ woken -> p <> init_task /\ is_Some (tasks st !! p)) -> schedule st woken = Some st' -> sched_step st st'
| step_wake p st' : p <> init_task -> wake_up_process st p = Some st' -> sched_step st st'
| step_tick ticks st' : 0 <= ticks < 2 ^ 31 -> update_process_times st ticks = Some st' -> sched_step st st'
| step_yield r st' : current st <> init_task -> sys_sched_yield st = Some (r, st') -> sched_step st st'
| step_setscheduler pid pol param cap r st' :
    current st <> init_task -> setscheduler st pid pol param cap = Some (r, st') -> sched_step st st'
| step_nice increment cap r st' :
    current st <> init_task -> - 2 ^ 31 <= increment < 2 ^ 31 -> sys_nice st increment cap = Some (r, st') -> sched_step st st'
| step_setpriority p t v :
    p <> init_task -> tasks st !! p = Some t -> 1 <= v <= 2 * DEF_PRIORITY -> sched_step st (set_priority st p t v)
| step_signal p t b : p <> init_task -> tasks st !! p = Some t -> sched_step st (set_sigpending st p t b)
| step_state s st' : current st <> init_task -> set_current_state st s = Some st' -> sched_step st st'
| step_fork child m st' :
    current st <> init_task -> child <> init_task -> tasks st !! child = None -> fork_sched st child m = Some st' -> sched_step st st'
| step_release p t :
    p <> init_task -> p <> current st -> tasks st !! p = Some t -> tstate t = TASK_ZOMBIE -> sched_step st (release_sched st p).

Lemma ok_tick st l ticks st' : sched_ok false st l -> 0 <= ticks < 2 ^ 31 -> update_process_times st ticks = Some st' -> sched_ok false st' l.
Proof.
  intros Hok Htk. unfold update_process_times. destruct (Z.eqb_spec (current st) 0) as [|H0]; [by intros [= <-]|].
  destruct (tasks st !! current st) as [t|] eqn:Ht; [|done]. cbn [mbind option_bind]. intros [= <-].
  pose proof (ok_tasks _ _ _ Hok _ t H0 Ht) as [K1 K2 K3 K4]. eapply ok_update_task; [exact Hok|exact Ht| | |done].
  - by destruct (_ <? 0).
  - intros _. assert (Hd : DEF_PRIORITY = 20) by done. rewrite s32_id by lia.
    destruct (counter t - ticks <? 0) eqn:E; constructor; cbn; try done; lia.
Qed.

Lemma ok_yield st l r st' : sched_ok false st l -> current st <> init_task -> sys_sched_yield st = Some (r, st') -> exists l', sched_ok false st' l'.
Proof.
  intros Hok H0. unfold sys_sched_yield. destruct (tasks st !! current st) as [t|] eqn:Ht; [|done]. cbn [mbind option_bind].
  destruct (ok_current_split st l Hok H0) as (a & c & El & _). pose proof (ok_ring _ _ _ Hok) as Hr. rewrite El in Hr.
  destruct (ring_move_last _ _ _ _ Hr) as (q & Eq & Hq). rewrite Eq. cbn [mbind option_bind]. intros [= <- <-].
  exists (a ++ c ++ [current st]). apply (ok_reorder false (set_task st (current st) _) l); [|done|].
  - pose proof (ok_tasks _ _ _ Hok _ t H0 Ht) as [K1 K2 K3 K4]. eapply ok_update_task; [exact Hok|exact Ht| | |done].
    + by destruct (policy t =? SCHED_OTHER).
    + intros _. destruct (Z.eqb_spec (policy t) SCHED_OTHER) as [E|]; constructor; cbn; try done. rewrite E. unfold policy_ok. cbn. auto.
  - rewrite El, app_assoc, Permutation_app_comm. cbn. by rewrite Permutation_middle.
Qed.

Lemma move_first_ok st l p t : sched_ok false st l -> p <> init_task -> tasks st !! p = Some t ->
  exists q l', (match next_run (rq st) !! p with Some _ => move_first_runqueue (rq st) p | None => Some (rq st) end) = Some q /\
    ring q l' /\ l' ≡ₚ l.
Proof.
  intros Hok H0 Ht. pose proof (ok_ring _ _ _ Hok) as Hr. destruct (next_run (rq st) !! p) eqn:E; [|by exists (rq st), l].
  assert (Hin : p ∈ l). { destruct (decide (p ∈ l)); [done|]. apply (ring_on_queue _ _ _ Hr H0) in n. congruence. }
  apply list_elem_of_split in Hin as (a & c & ->). destruct (ring_move_first _ _ _ _ Hr) as (q & Eq & Hq). exists q, (p :: a ++ c).
  split; [done|]. split; [done|]. by rewrite Permutation_middle.
Qed.

Lemma find_process st pid p t : find_process_by_pid st pid = Some (p, t) -> current st <> init_task -> p <> init_task /\ tasks st !! p = Some t.
Proof.
  unfold find_process_by_pid. intros H Hc. destruct (Z.eqb_spec pid 0) as [->|Hp].
  - destruct (tasks st !! current st) eqn:E; [|done]. cbn in H. by simplify_eq.
  - destruct (tasks st !! pid) eqn:E; [|done]. cbn in H. by simplify_eq.
Qed.

Lemma ok_setscheduler st l pid pol param cap r st' :
  sched_ok false st l -> current st <> init_task -> setscheduler st pid pol param cap = Some (r, st') -> exists l', sched_ok false st' l'.
Proof.
  intros Hok Hc. unfold setscheduler. destruct param as [lp|]; [|intros [= <- <-]; by exists l].
  destruct (pid <? 0); [intros [= <- <-]; by exists l|]. destruct lp as [prio|]; [|intros [= <- <-]; by exists l].
  destruct (tasks st !! current st) as [c|] eqn:Ec; [|done]. cbn [mbind option_bind].
  destruct (find_process_by_pid st pid) as [[p t]|] eqn:Ef; [|intros [= <- <-]; by exists l].
  destruct (find_process st pid p t Ef Hc) as [Hp0 Ht]. set (pol' := if pol <? 0 then policy t else pol).
  destruct (negb (pol <? 0) && _ && _ && _) eqn:E1; [intros [= <- <-]; by exists l|].
  destruct ((prio <? 0) || _) eqn:E2; [intros [= <- <-]; by exists l|]. do 3 (case_match; [intros [= <- <-]; by exists l|]).
  pose proof (ok_tasks _ _ _ Hok p t Hp0 Ht) as [K1 K2 K3 K4].
  assert (Hpol : policy_ok pol').
  { unfold pol'. destruct (pol <? 0) eqn:En; [done|]. unfold policy_ok. cbn in E1. lia. }
  assert (Hok1 : sched_ok false (set_task st p (with_policy t pol' prio)) l).
  { eapply ok_update_task; [exact Hok|exact Ht|done| |done]. intros _. constructor; cbn; try done. lia. }
  destruct (move_first_ok (set_task st p (with_policy t pol' prio)) l p (with_policy t pol' prio) Hok1 Hp0 (lookup_insert_eq _ _ _))
    as (q & l' & Eq & Hq & Hperm). rewrite Eq. cbn [mbind option_bind].
  change (current (set_task st p (with_policy t pol' prio))) with (current st).
  destruct (tasks (set_task st p (with_policy t pol' prio)) !! current st) as [c'|] eqn:Ec'; [|done]. cbn [mbind option_bind]. intros [= <- <-].
  exists l'. apply (ok_reorder false (set_task (set_task st p (with_policy t pol' prio)) (current st) (with_resched c' true)) l); [|done|done].
  eapply ok_update_task; [exact Hok1|exact Ec'|done| |done]. intros Hc0. destruct (ok_tasks _ _ _ Hok1 _ c' Hc0 Ec'). by constructor.
Qed.

Lemma nice_range prio increment : 1 <= prio <= 40 -> - 2 ^ 31 <= increment < 2 ^ 31 ->
  let newprio := if increment <? 0 then u32 (- increment) else increment in
  let newprio := if 40 <? newprio then 40 else newprio in
  let newprio := (newprio * DEF_PRIORITY + 10) / 20 in
  let d := if increment <? 0 then - newprio else newprio in
  let newprio := u32 (prio - d) in
  let newprio := if s32 newprio <? 1 then 1 else newprio in
  let newprio := if DEF_PRIORITY * 2 <? newprio then DEF_PRIORITY * 2 else newprio in
  newprio = Z.max 1 (Z.min 40 (prio - (if increment <? 0 then - Z.min 40 (- increment) else Z.min 40 increment))).
Proof.
  intros Hp Hi. change DEF_PRIORITY with 20. cbn zeta.
  set (m := if 40 <? (if increment <? 0 then u32 (- increment) else increment) then 40 else (if increment <? 0 then u32 (- increment) else increment)).
  assert (Hm : m = if increment <? 0 then Z.min 40 (- increment) else Z.min 40 increment).
  { unfold m. clear m. destruct (increment <? 0) eqn:E; [rewrite u32_id by lia|]; destruct (40 <? _) eqn:E2; lia. }
  assert (Hm' : 0 <= m <= 40) by (rewrite Hm; destruct (increment <? 0) eqn:E; lia).
  replace ((m * 20 + 10) / 20) with m by (Z.to_euclidean_division_equations; lia).
  set (d := if increment <? 0 then - m else m).
  assert (Hd : - 40 <= d <= 40) by (unfold d; destruct (increment <? 0); lia).
  assert (Ed : d = if increment <? 0 then - Z.min 40 (- increment) else Z.min 40 increment) by (unfold d; rewrite Hm; by destruct (increment <? 0)).
  rewrite <-Ed. destruct (decide (0 <= prio - d)) as [Hpos|Hneg].
  - rewrite u32_id, s32_id by lia. destruct (prio - d <? 1) eqn:E1; destruct (20 * 2 <? _) eqn:E2; lia.
  - assert (Hs : s32 (u32 (prio - d)) = prio - d).
    { unfold s32, u32. replace ((prio - d) mod 2 ^ 32) with (prio - d + 2 ^ 32) by (apply (Z.mod_unique _ _ (-1)); lia).
      replace (prio - d + 2 ^ 32 + 2 ^ 31) with (prio - d + 2 ^ 31 + 1 * 2 ^ 32) by lia. rewrite Z.mod_add, Z.mod_small by lia. lia. }
    rewrite Hs. destruct (prio - d <? 1) eqn:E1; [|lia]. destruct (20 * 2 <? 1) eqn:E2; lia.
Qed.

Lemma ok_nice st l increment cap r st' :
  sched_ok false st l -> current st <> init_task -> - 2 ^ 31 <= increment < 2 ^ 31 -> sys_nice st increment cap = Some (r, st') -> sched_ok false st' l.
Proof.
  intros Hok H0 Hi. unfold sys_nice. destruct (tasks st !! current st) as [t|] eqn:Ht; [|done]. cbn [mbind option_bind].
  destruct (_ && _); [by intros [= <- <-]|]. intros [= <- <-]. pose proof (ok_tasks _ _ _ Hok _ t H0 Ht) as [K1 K2 K3 K4].
  eapply ok_update_task; [exact Hok|exact Ht|done| |done]. intros _. constructor; cbn [with_priority policy rt_priority counter priority]; try done.
  change (2 * DEF_PRIORITY) with 40 in *. rewrite (nice_range (priority t) increment K4 Hi). lia.
Qed.

Lemma ok_fork st l child m st' :
  sched_ok false st l -> current st <> init_task -> child <> init_task -> tasks st !! child = None -> fork_sched st child m = Some st' -> exists l', sched_ok false st' l'.
Proof.
  intros Hok Hc Hch Hnone. unfold fork_sched. destruct (tasks st !! current st) as [t|] eqn:Ht; [|done]. cbn [mbind option_bind].
  set (t1 := with_counter t (Z.shiftr (counter t) 1)). set (st1 := set_task st (current st) t1).
  pose proof (ok_tasks _ _ _ Hok _ t Hc Ht) as [K1 K2 K3 K4].
  assert (Hk : task_ok t1).
  { constructor; cbn [with_counter t1 policy rt_priority counter priority]; try done. rewrite Z.shiftr_div_pow2 by lia. change (2 ^ 1) with 2.
    change (4 * DEF_PRIORITY) with 80 in *. Z.to_euclidean_division_equations. lia. }
  assert (Hok1 : sched_ok false st1 l) by (eapply ok_update_task; done).
  assert (Hn1 : tasks st1 !! child = None) by (cbn; rewrite lookup_insert_ne; [done|]; intros E; rewrite E in Ht; congruence).
  assert (Hnin : child ∉ l) by (intros Hin; apply (ok_queue _ _ _ Hok1) in Hin as [? ?]; congruence).
  set (st2 := State (<[child := with_state (child_task t1 m) TASK_UNINTERRUPTIBLE]> (tasks st1)) (order st1 ++ [child]) (rq st1) (nr_running st1) (current st1) (context_swtch st1)).
  assert (Hok2 : sched_ok false st2 l).
  { destruct Hok1 as [H1 H2 H3 H4 H5 H6 H7 H8]. clearbody st1.
    assert (Hne : forall p x, tasks st1 !! p = Some x -> <[child := with_state (child_task t1 m) TASK_UNINTERRUPTIBLE]> (tasks st1) !! p = Some x).
    { intros p x Hp. rewrite lookup_insert_ne; [done|]. intros ->. congruence. }
    constructor; cbn; try done.
    - destruct H3 as (t0 & Ht0 & ?). exists t0. by rewrite lookup_insert_ne.
    - destruct H4 as [H4 H4']. split.
      + apply NoDup_snoc. split; [done|]. rewrite H4', Hn1. by intros [_ [? ?]].
      + intros p. rewrite elem_of_app, list_elem_of_singleton, H4'. destruct (decide (p = child)) as [->|].
        * rewrite lookup_insert_eq. split; [|tauto]. intros _. split; [done|by eexists].
        * rewrite lookup_insert_ne by done. tauto.
    - intros p x Hp. destruct (decide (p = child)) as [->|]; [rewrite lookup_insert_eq; intros [= <-]; destruct Hk; by constructor|].
      rewrite lookup_insert_ne by done. by apply H5.
    - intros p Hp. destruct (H6 p Hp) as [x Hx]. exists x. auto.
    - intros p x Hp Hm. destruct (decide (p = child)) as [->|]; [rewrite lookup_insert_eq; by intros [= <-]|].
      rewrite lookup_insert_ne by done. by apply H7.
    - destruct H8 as [[x Hx] H8]. split; [exists x; auto|done]. }
  destruct (wake_spec false st2 l child Hok2 Hch) as (st3 & E3 & Hok3 & _); [cbn; rewrite lookup_insert_eq; by eexists|].
  intros E. exists (woken_queue l child).
  assert (Esame : wake_up_process (State (<[child := child_task t1 m]> (tasks st1)) (order st1 ++ [child]) (rq st1) (nr_running st1) (current st1) (context_swtch st1)) child
    = wake_up_process st2 child).
  { unfold wake_up_process, st2. cbn [tasks set_task]. rewrite !lookup_insert_eq. cbn [mbind option_bind]. unfold set_task. cbn [tasks order rq nr_running current context_swtch].
    by rewrite !insert_insert_eq. }
  rewrite Esame, E3 in E. by injection E as <-.
Qed.

Lemma ok_release st l p t : sched_ok false st l -> p <> init_task -> p <> current st -> tasks st !! p = Some t -> tstate t = TASK_ZOMBIE ->
  sched_ok false (release_sched st p) l.
Proof.
  intros [H1 H2 H3 H4 H5 H6 H7 H8] H0 Hc Hp Hz.
  assert (Hnin : p ∉ l) by (rewrite (H7 p t H0 (or_intror Hc) Hp), Hz; done).
  constructor; cbn; try done.
  - destruct H3 as (t0 & Ht0 & ?). exists t0. by rewrite lookup_delete_ne.
  - destruct H4 as [H4 H4']. split; [by apply NoDup_filter|]. intros q. rewrite list_elem_of_filter, H4'. destruct (decide (q = p)) as [->|].
    + rewrite lookup_delete_eq. split; [tauto|]. by intros [_ [? ?]].
    + rewrite lookup_delete_ne by done. tauto.
  - intros q x Hq [_ Hx]%lookup_delete_Some. by apply (H5 q).
  - intros q Hq. rewrite lookup_delete_ne by (intros ->; done). auto.
  - intros q x Hq Hm [_ Hx]%lookup_delete_Some. by apply H7.
  - rewrite lookup_delete_ne by done. done.
Qed.

Lemma sched_step_ok st st' : (exists l, sched_ok false st l) -> sched_step st st' -> exists l, sched_ok false st' l.
Proof.
  intros [l Hok] Hstep.
  assert (Hset : forall p t t', p <> init_task -> tasks st !! p = Some t -> tstate t' = tstate t -> task_ok t' -> exists l, sched_ok false (set_task st p t') l).
  { intros p t t' H0 Hp Hs Ht. exists l. by eapply ok_update_task. }
  destruct Hstep as [woken st' Hw E|p st' H0 E|ticks st' Ht E|r st' Hc E|pid pol param cap r st' Hc E|increment cap r st' Hc Hi E
    |p t v H0 Hp Hv|p t b H0 Hp|s st' Hc E|child m st' Hc Hch Hn E|p t H0 Hc Hp Hz].
  - destruct (ok_current _ _ _ Hok) as [[t Ht] _]. destruct (schedule_spec st l t woken Hok Ht Hw) as (st1 & pre & E1 & Hok1 & _). simplify_eq. by eexists.
  - destruct (tasks st !! p) as [t|] eqn:Hp; [|unfold wake_up_process in E; by rewrite Hp in E].
    destruct (wake_spec false st l p Hok H0 (mk_is_Some _ _ Hp)) as (st1 & E1 & Hok1 & _). simplify_eq. by eexists.
  - exists l. by eapply ok_tick.
  - by eapply ok_yield.
  - by eapply ok_setscheduler.
  - exists l. by eapply ok_nice.
  - eapply (Hset p t); try done. destruct (ok_tasks _ _ _ Hok p t H0 Hp). by constructor.
  - eapply (Hset p t); try done. destruct (ok_tasks _ _ _ Hok p t H0 Hp). by constructor.
  - unfold set_current_state in E. destruct (tasks st !! current st) as [t|] eqn:Ht; [|done]. cbn in E. simplify_eq. exists l. by apply ok_update_current.
  - by eapply ok_fork.
  - exists l. by eapply ok_release.
Qed.

(** The idle task, and init, which is on the run queue. *)
Definition idle : task := Task SCHED_OTHER 0 DEF_PRIORITY DEF_PRIORITY 0 TASK_RUNNING false false 0 0.

Definition init_process : task := Task SCHED_OTHER 0 DEF_PRIORITY DEF_PRIORITY 1 TASK_RUNNING false false 0 0.

Definition sched_init : state :=
  State (<[1 := init_process]> {[init_task := idle]}) [1] (Runqueue (<[1 := 0]> {[0 := 1]}) (<[1 := 0]> {[0 := 1]})) 1 init_task 0.

Lemma sched_init_ok : sched_ok false sched_init [1].
Proof.
  destruct (ring_add empty_runqueue [] 1 ring_empty ltac:(by_decide)) as (q & Eq & Hq).
  assert (q = rq sched_init) as -> by (apply (inj Some); rewrite <-Eq; reflexivity).
  assert (Hlook : forall p t, p <> init_task -> tasks sched_init !! p = Some t -> p = 1 /\ t = init_process).
  { intros p t H0 Hp. unfold sched_init in Hp. cbn [tasks] in Hp. destruct (decide (p = 1)) as [->|]; [rewrite lookup_insert_eq in Hp; by simplify_eq|].
    rewrite lookup_insert_ne, lookup_singleton_ne in Hp by done. done. }
  constructor; try done.
  - by exists idle.
  - split; [apply NoDup_singleton|]. intros p. change (order sched_init) with [1]. rewrite list_elem_of_singleton. split; [intros ->; split; [done|by eexists]|].
    intros [H0 [t Ht]]. by destruct (Hlook p t H0 Ht).
  - intros p t H0 Ht. destruct (Hlook p t H0 Ht) as [_ ->]. constructor; [by left|by_decide..].
  - intros p ->%list_elem_of_singleton. by eexists.
  - intros p t H0 _ Ht. destruct (Hlook p t H0 Ht) as [-> ->]. split; [done|]. intros _. apply list_elem_of_singleton. done.
Qed.

Lemma sched_reachable st : rtc sched_step sched_init st -> exists l, sched_ok false st l.
Proof.
  intros H. cut ((exists l, sched_ok false sched_init l) -> exists l, sched_ok false st l); [intros Hi; apply Hi; exists [1]; apply sched_init_ok|].
  induction H as [s|s1 s2 s3 Hst _ IH]; [done|]. intros Hs. by eapply IH, sched_step_ok.
Qed.

(** C23: in every state that calls, interrupts and [schedule] lead to, in any order: the run
    queue is an intact ring without repetition, [nr_running] is its length; a process
    other than the current one is on it exactly when its state is TASK_RUNNING, the
    current process is on it unless it is the idle task; time slices are between 0 and
    80 ticks, priorities between 1 and 40. *)
Theorem sched_reachable_ok st :
  rtc sched_step sched_init st ->
  exists l, ring (rq st) l /\ nr_running st = Z.of_nat (length l) /\
    (forall p t, p <> init_task -> p <> current st -> tasks st !! p = Some t -> p ∈ l <-> tstate t = TASK_RUNNING) /\
    (current st <> init_task -> current st ∈ l) /\ (forall p, p ∈ l -> is_Some (tasks st !! p)) /\
    (forall p t, p <> init_task -> tasks st !! p = Some t -> 0 <= counter t <= 80 /\ 1 <= priority t <= 40).
Proof.
  intros [l [H1 H2 H3 H4 H5 H6 H7 H8]]%sched_reachable. exists l. split_and!; try done.
  - intros p t Hp Hc Ht. apply H7; auto.
  - by apply H8.
  - intros p t Hp Ht. destruct (H5 p t Hp Ht). done.
Qed.

(** C21: [schedule] always returns.  The candidates are the processes that were on the run queue
    when it began, without the current one if that goes to sleep, and with it at the end
    if its round-robin slice is used up; processes that interrupts wake meanwhile are put
    in front and do not disturb the search.  With no candidate the idle task runs; else
    the first of the candidates with the greatest weight.  Exactly when the greatest weight
    is 0, all processes get new time slices; no candidate stays marked as yielding. *)
Theorem schedule_correct st t woken :
  rtc sched_step sched_init st -> tasks st !! current st = Some t ->
  (forall p, p ∈ woken -> p <> init_task /\ is_Some (tasks st !! p)) ->
  exists l, ring (rq st) l /\
  let l0 := candidates t (current st) l in
  let w := weight_of (tasks st) (mm t) in
  exists st' pre, schedule st woken = Some st' /\ ring (rq st') (pre ++ l0) /\
    (forall p, p ∈ pre -> p ∈ woken) /\ (forall p, p ∈ woken -> p ∈ pre ++ l0) /\
    (l0 = [] -> current st' = init_task) /\
    (l0 <> [] -> exists a b, l0 = a ++ current st' :: b /\ (forall p, p ∈ a -> w p < w (current st')) /\ forall p, p ∈ b -> w p <= w (current st')) /\
    (forall p tp, p <> init_task -> tasks st !! p = Some tp ->
       let c := if bool_decide (p = current st) && exhausted tp then priority tp else counter tp in
       exists t', tasks st' !! p = Some t' /\
         counter t' = (if bool_decide (l0 <> []) && (w (current st') =? 0) then c / 2 + priority tp else c) /\
         policy t' = (if decide (p ∈ l0) then Z.land (policy tp) (Z.lnot SCHED_YIELD) else policy tp) /\
         priority t' = priority tp /\ (p ∈ l0 -> tstate t' = TASK_RUNNING)).
Proof.
  intros [l Hok]%sched_reachable Ht Hw. exists l. split; [apply (ok_ring _ _ _ Hok)|].
  destruct (schedule_spec st l t woken Hok Ht Hw) as (st' & pre & E & Hok' & H1 & H2 & H3 & H4 & H5).
  exists st', pre. split; [exact E|]. split; [apply (ok_ring _ _ _ Hok')|]. split_and!; assumption.
Qed.

(** ** Wait queues and the scheduler *)

Lemma wake_states st p st' : wake_up_process st p = Some st' ->
  forall q, (tstate <$> tasks st' !! q) = if decide (q = p) then Some TASK_RUNNING else tstate <$> tasks st !! q.
Proof.
  unfold wake_up_process. destruct (tasks st !! p) as [t|] eqn:Ht; [|done]. cbn [mbind option_bind set_task rq].
  assert (Hset : forall q, (tstate <$> <[p := with_state t TASK_RUNNING]> (tasks st) !! q) = if decide (q = p) then Some TASK_RUNNING else tstate <$> tasks st !! q).
  { intros q. destruct (decide (q = p)) as [->|]; [by rewrite lookup_insert_eq|by rewrite lookup_insert_ne]. }
  destruct (next_run (rq st) !! p); [by intros [= <-]|]. destruct (add_to_runqueue (rq st) p) as [q'|]; [|done]. cbn [mbind option_bind].
  unfold reschedule_idle. cbn [set_rq set_task tasks current]. rewrite lookup_insert_eq. cbn [mbind option_bind].
  destruct (<[p := with_state t TASK_RUNNING]> (tasks st) !! current st) as [c|] eqn:Ec; [|done]. cbn [mbind option_bind]. intros [= <-] q.
  destruct (_ || _); cbn [set_rq set_task tasks]; [|apply Hset]. rewrite <-Hset. destruct (decide (q = current st)) as [->|].
  - by rewrite lookup_insert_eq, Ec.
  - by rewrite lookup_insert_ne by done.
Qed.

Lemma wake_nodes_spec st l task_of nodes mode : sched_ok false st l ->
  (forall n, n ∈ nodes -> task_of n <> init_task /\ is_Some (tasks st !! task_of n)) ->
  exists st' l', wake_nodes st task_of nodes mode = Some st' /\ sched_ok false st' l' /\ (forall p, p ∈ l -> p ∈ l') /\
    (forall q, is_Some (tasks st' !! q) <-> is_Some (tasks st !! q)) /\
    (forall q, (tstate <$> tasks st' !! q) = Some TASK_RUNNING \/ (tstate <$> tasks st' !! q) = (tstate <$> tasks st !! q)) /\
    (forall q, ((exists n, n ∈ nodes /\ task_of n = q) -> False) -> (tstate <$> tasks st' !! q) = (tstate <$> tasks st !! q)) /\
    (forall n t, n ∈ nodes -> tasks st !! task_of n = Some t -> Z.land (tstate t) mode <> 0 ->
       (tstate <$> tasks st' !! task_of n) = Some TASK_RUNNING /\ task_of n ∈ l').
Proof.
  revert st l. induction nodes as [|n nodes IH]; intros st l Hok Hn.
  { exists st, l. split_and!; try done; [auto|]. intros n t Hnil. by apply not_elem_of_nil in Hnil. }
  destruct (Hn n ltac:(set_solver)) as [Hn0 [t Ht]]. cbn [wake_nodes]. rewrite Ht. cbn [mbind option_bind].
  assert (Hone : exists st1 l1, (if negb (Z.land (tstate t) mode =? 0) then wake_up_process st (task_of n) else Some st) = Some st1 /\
    sched_ok false st1 l1 /\ (forall p, p ∈ l -> p ∈ l1) /\
    (forall q, (tstate <$> tasks st1 !! q) = if decide (q = task_of n /\ Z.land (tstate t) mode <> 0) then Some TASK_RUNNING else tstate <$> tasks st !! q) /\
    (Z.land (tstate t) mode <> 0 -> task_of n ∈ l1)).
  { destruct (Z.eqb_spec (Z.land (tstate t) mode) 0) as [E|E]; cbn [negb].
    - exists st, l. split_and!; try done. intros q. by rewrite decide_False by tauto.
    - destruct (wake_spec false st l (task_of n) Hok Hn0 (mk_is_Some _ _ Ht)) as (st1 & E1 & Hok1 & _). exists st1, (woken_queue l (task_of n)).
      split_and!; try done; [|intros q; rewrite (wake_states _ _ _ E1)|]; unfold woken_queue.
      + intros p Hp. destruct (decide _); set_solver.
      + destruct (decide (q = task_of n)); [rewrite decide_True by done|rewrite decide_False by tauto]; done.
      + intros _. destruct (decide _); set_solver. }
  destruct Hone as (st1 & l1 & E1 & Hok1 & Hl1 & Hs1 & Hin1). rewrite E1. cbn [mbind option_bind].
  assert (Hsome : forall q, is_Some (tasks st1 !! q) <-> is_Some (tasks st !! q)).
  { intros q. rewrite <-!(fmap_is_Some tstate), Hs1. destruct (decide _) as [[-> _]|]; [rewrite Ht|done]. split; intros _; by eexists. }
  destruct (IH st1 l1 Hok1) as (st2 & l2 & E2 & Hok2 & Hl2 & Hsome2 & Hor & Hoth & Hw).
  { intros x Hx. rewrite Hsome. apply Hn. set_solver. }
  exists st2, l2. split; [done|]. split; [done|]. split; [auto|]. split; [intros q; by rewrite Hsome2|]. split_and!.
  - intros q. destruct (Hor q) as [->| ->]; [by left|]. rewrite Hs1. destruct (decide _); auto.
  - intros q Hq. rewrite Hoth by (intros (x & Hx & Ex); apply Hq; exists x; set_solver). rewrite Hs1.
    destruct (decide _) as [[-> _]|]; [|done]. exfalso. apply Hq. exists n. set_solver.
  - intros x tx [->|Hx]%elem_of_cons Htx Hm.
    + simplify_eq. split; [|by apply Hl2, Hin1]. destruct (Hor (task_of n)) as [->| ->]; [done|]. rewrite Hs1. by rewrite decide_True by done.
    + assert (Hst1 : tstate <$> tasks st1 !! task_of x = Some TASK_RUNNING \/ (tstate <$> tasks st1 !! task_of x) = Some (tstate tx)).
      { rewrite Hs1. destruct (decide _); [by left|right]. by rewrite Htx. }
      destruct (tasks st1 !! task_of x) as [tx1|] eqn:Etx1; [|by destruct Hst1]. cbn in Hst1. destruct Hst1 as [[= Er]|[= Er]].
      * destruct (decide (Z.land (tstate t) mode <> 0 /\ task_of x = task_of n)) as [[H1 H2]|Hno].
        -- rewrite H2 in *. split; [|by apply Hl2, Hin1]. destruct (Hor (task_of n)) as [->| ->]; [done|]. by rewrite Etx1; cbn; rewrite Er.
        -- exfalso. pose proof (Hs1 (task_of x)) as Hsx. rewrite Etx1, decide_False, Htx in Hsx by tauto. cbn in Hsx. injection Hsx as Hsx.
           rewrite <-Hsx, Er in Hm. by apply Hm.
      * apply (Hw x tx1); [done|done|by rewrite Er].
Qed.

(** [__wake_up] wakes everybody it should: it visits the whole wait queue and ends; every process
    on it whose state is one of those asked for becomes TASK_RUNNING and is on the run
    queue afterwards; no process that is not on the wait queue changes its state, and no
    process leaves the run queue. *)
Theorem wake_up_correct st w task_of head nodes mode fuel :
  rtc sched_step sched_init st -> waitq w head nodes -> (length nodes <= fuel)%nat ->
  (forall n, n ∈ nodes -> task_of n <> init_task /\ is_Some (tasks st !! task_of n)) ->
  exists st' l l', __wake_up fuel st w task_of head mode = Some st' /\ ring (rq st) l /\ ring (rq st') l' /\ (forall p, p ∈ l -> p ∈ l') /\
    (forall n t, n ∈ nodes -> tasks st !! task_of n = Some t -> Z.land (tstate t) mode <> 0 ->
       (tstate <$> tasks st' !! task_of n) = Some TASK_RUNNING /\ task_of n ∈ l') /\
    (forall q, ((exists n, n ∈ nodes /\ task_of n = q) -> False) -> (tstate <$> tasks st' !! q) = (tstate <$> tasks st !! q)).
Proof.
  intros [l Hok]%sched_reachable Hq Hf Hn. destruct (wake_nodes_spec st l task_of nodes mode Hok Hn) as (st' & l' & E & Hok' & Hl & _ & _ & Ho & Hw).
  exists st', l, l'. unfold __wake_up. rewrite (waitq_nodes w head nodes fuel Hq Hf). cbn [mbind option_bind].
  split_and!; try done; [apply (ok_ring _ _ _ Hok)|apply (ok_ring _ _ _ Hok')].
Qed.

(** ** No starvation

    Processes that only compute: each runs until its time slice is used up. *)

Definition turn (st : state) : option state :=
  t ← tasks st !! current st;
  st ← update_process_times st (counter t + 1);
  schedule st [].

Fixpoint turns (k : nat) (st : state) : option state :=
  match k with
  | O => Some st
  | S k => st ← turn st; turns k st
  end.

(** All runnable processes are ordinary ones, and none is about to sleep. *)
Record computing (st : state) (l : list Z) : Prop := {
  cp_ok : sched_ok false st l;
  cp_some : l <> [];
  cp_tasks : forall p, p ∈ l -> exists t, tasks st !! p = Some t /\ policy t = SCHED_OTHER /\ tstate t = TASK_RUNNING }.

(** The processes that can run before the slices are refilled. *)
Definition has_time (st : state) (p : Z) : bool := match tasks st !! p with Some t => 0 <? counter t | None => false end.

Definition ahead (st : state) (l : list Z) : list Z := filter (fun p => has_time st p = true /\ p <> current st) l.

(** The current process has used up its slice. *)
Definition spent (st : state) : option state :=
  t ← tasks st !! current st; update_process_times st (counter t + 1).

Lemma spent_spec st l : computing st l -> exists st1 t1, spent st = Some st1 /\ computing st1 l /\ current st1 = current st /\
  tasks st1 !! current st = Some t1 /\ policy t1 = SCHED_OTHER /\ tstate t1 = TASK_RUNNING /\
  (forall p, p ∈ l -> has_time st1 p = bool_decide (p ∈ ahead st l)) /\
  (forall p t, p ∈ l -> tasks st !! p = Some t -> exists t', tasks st1 !! p = Some t' /\ priority t' = priority t).
Proof.
  intros [Hok Hne Hall]. pose proof (ok_nodup _ _ _ Hok) as [_ Hni]. unfold spent. destruct (ok_current _ _ _ Hok) as [[t Ht] Hcl]. rewrite Ht. cbn [mbind option_bind].
  destruct (decide (current st = init_task)) as [E0|H0].
  - unfold update_process_times. rewrite E0. cbn. exists st, t. destruct (ok_idle _ _ _ Hok) as (t0 & Ht0 & Hp0 & Hs0). rewrite E0 in Ht. simplify_eq.
    split_and!; try done.
    + intros p Hp. unfold ahead. apply eq_bool_prop_intro. rewrite bool_decide_spec, list_elem_of_filter, E0.
      split; [intros ?%Is_true_true; split; [split; [done|by intros ->]|done]|]. intros [[? _] _]. by apply Is_true_true.
    + intros p x _ Hx. by exists x.
  - specialize (Hcl eq_refl H0). destruct (ok_tasks _ _ _ Hok _ t H0 Ht) as [K1 K2 K3 K4]. assert (Hd : DEF_PRIORITY = 20) by done.
    assert (Htick : exists st1, update_process_times st (counter t + 1) = Some st1 /\ st1 = set_task st (current st) (with_resched (with_counter t 0) true)).
    { eexists. split; [|done]. unfold update_process_times. destruct (Z.eqb_spec (current st) 0); [done|]. rewrite Ht. cbn [mbind option_bind].
      rewrite s32_id by lia. destruct (counter t - (counter t + 1) <? 0) eqn:E; [done|lia]. }
    destruct Htick as (st1 & Et1 & Est1). exists st1, (with_resched (with_counter t 0) true). split; [done|].
    assert (Hok1 : sched_ok false st1 l) by (eapply ok_tick; [exact Hok| |exact Et1]; lia). subst st1.
    destruct (Hall _ Hcl) as (t0 & Ht0 & Hpol & Hst). simplify_eq.
    split_and!; try done; try (cbn; apply lookup_insert_eq).
    + constructor; [done|done|]. intros p Hp. cbn. destruct (decide (p = current st)) as [->|]; [rewrite lookup_insert_eq; by eexists|].
      rewrite lookup_insert_ne by done. auto.
    + intros p Hp. apply eq_bool_prop_intro. unfold ahead, has_time. cbn. rewrite bool_decide_spec, list_elem_of_filter.
      destruct (decide (p = current st)) as [->|]; [rewrite lookup_insert_eq; cbn; tauto|]. rewrite lookup_insert_ne by done.
      split; [intros ?%Is_true_true; done|]. intros [[? _] _]. by apply Is_true_true.
    + intros p x Hp Hx. cbn. destruct (decide (p = current st)) as [->|]; [rewrite lookup_insert_eq; simplify_eq; by eexists|].
      rewrite lookup_insert_ne by done. by exists x.
Qed.

Lemma weight_positive st l mmv p : computing st l -> p ∈ l ->
  0 <= weight_of (tasks st) mmv p /\ (0 < weight_of (tasks st) mmv p <-> has_time st p = true).
Proof.
  intros [Hok _ Hall] Hp. destruct (Hall p Hp) as (t & Ht & Hpol & _). unfold weight_of, has_time. rewrite Ht. unfold goodness. rewrite Hpol.
  change (Z.land SCHED_OTHER SCHED_YIELD) with 0. change (SCHED_OTHER =? SCHED_OTHER) with true. cbn [Z.eqb negb].
  assert (Hp0 : p <> init_task) by (intros ->; by apply (ok_nodup _ _ _ Hok)).
  destruct (ok_tasks _ _ _ Hok p t Hp0 Ht) as [K1 K2 K3 K4].
  destruct (Z.eqb_spec (counter t) 0), (mm t =? mmv); cbn; lia.
Qed.

(** One turn: the next process has time left, if any has; else all get new slices. *)
Lemma turn_spec st l : computing st l -> exists st', turn st = Some st' /\ computing st' l /\ current st' ∈ l /\
  ((ahead st l <> [] /\ current st' ∈ ahead st l /\ forall p, p ∈ l -> p ∈ ahead st' l <-> p ∈ ahead st l /\ p <> current st') \/
   (ahead st l = [] /\ forall p, p ∈ l -> p ∈ ahead st' l <-> p <> current st')).
Proof.
  intros Hcp. destruct (spent_spec st l Hcp) as (st1 & t1 & E1 & Hcp1 & Ec1 & Ht1 & Hpol1 & Hst1 & Htime & _).
  pose proof (cp_ok _ _ Hcp1) as Hok1. pose proof (ok_nodup _ _ _ Hok1) as [Hnd Hni]. rewrite <-Ec1 in Ht1.
  assert (Hx : exhausted t1 = false) by (unfold exhausted; rewrite Hpol1; by rewrite andb_false_r).
  assert (Hcand : candidates t1 (current st1) l = l) by (unfold candidates, stays; by rewrite Hx, Hst1).
  destruct (schedule_spec st1 l t1 [] Hok1 Ht1 ltac:(set_solver)) as (st' & pre & E2 & Hok2 & Hpre & _ & _ & Hcho & Hcnt).
  rewrite Hcand in *. assert (pre = []) as -> by (destruct pre as [|x pre]; [done|]; specialize (Hpre x ltac:(set_solver)); set_solver). cbn [app] in *.
  destruct (Hcho (cp_some _ _ Hcp1)) as (a & b & El & Ha & Hb). set (n := current st') in *. set (w := weight_of (tasks st1) (mm t1)) in *.
  assert (Hn : n ∈ l) by (rewrite El; set_solver). assert (Hmax : forall p, p ∈ l -> w p <= w n).
  { intros p Hp. rewrite El in Hp. apply elem_of_app in Hp as [Hp|[->|Hp]%elem_of_cons]; [specialize (Ha p Hp); lia|lia|auto]. }
  assert (Hcp2 : computing st' l).
  { constructor; [done|apply Hcp1|]. intros p Hp. destruct (cp_tasks _ _ Hcp1 p Hp) as (tp & Htp & Hpp & _).
    destruct (Hcnt p tp ltac:(intros ->; done) Htp) as (t' & Ht' & _ & Epol & _ & Erun). exists t'. split; [done|]. split; [|auto].
    rewrite Epol, Hpp. by destruct (decide (p ∈ l)). }
  assert (Hturn : turn st = Some st').
  { unfold turn. unfold spent in E1. destruct (tasks st !! current st); [|done]. cbn [mbind option_bind] in *. by rewrite E1. }
  exists st'. split; [done|]. split; [done|]. split; [done|].
  assert (Hahead : forall p, p ∈ l -> p ∈ ahead st' l <-> has_time st' p = true /\ p <> n) by (intros p Hp; unfold ahead; rewrite list_elem_of_filter; tauto).
  assert (Hnt : forall p, p ∈ l -> has_time st' p = if w n =? 0 then true else has_time st1 p).
  { intros p Hp. destruct (cp_tasks _ _ Hcp1 p Hp) as (tp & Htp & Hpp & _). assert (Hp0 : p <> init_task) by (intros ->; done).
    destruct (Hcnt p tp Hp0 Htp) as (t' & Ht' & Ecn & _). unfold has_time. rewrite Ht', Htp, Ecn.
    assert (bool_decide (p = current st1) && exhausted tp = false) as -> by (unfold exhausted; rewrite Hpp; by rewrite !andb_false_r).
    rewrite bool_decide_eq_true_2 by apply Hcp1. cbn [andb]. destruct (w n =? 0); [|done].
    destruct (ok_tasks _ _ _ Hok1 p tp Hp0 Htp) as [K1 K2 K3 K4]. pose proof (Z.div_pos (counter tp) 2). lia. }
  destruct (weight_positive st1 l (mm t1) n Hcp1 Hn) as [Hw0 Hw1]. fold w in Hw0, Hw1.
  destruct (decide (ahead st l = [])) as [Enil|Hne].
  - right. split; [done|]. assert (Hz : w n = 0).
    { destruct (decide (0 < w n)) as [Hpos|]; [|lia]. apply Hw1 in Hpos. rewrite (Htime n Hn), Enil in Hpos. apply bool_decide_eq_true in Hpos. set_solver. }
    intros p Hp. rewrite Hahead, (Hnt p Hp), Hz by done. cbn. tauto.
  - left. split; [done|]. destruct (ahead st l) as [|x k] eqn:Ex; [done|]. assert (Hxa : x ∈ ahead st l) by (rewrite Ex; set_solver).
    assert (Hxl : x ∈ l) by (unfold ahead in Hxa; apply list_elem_of_filter in Hxa; tauto). rewrite <-Ex in *.
    assert (Hpos : 0 < w n).
    { specialize (Hmax x Hxl). destruct (weight_positive st1 l (mm t1) x Hcp1 Hxl) as [_ Hwx]. fold w in Hwx.
      assert (0 < w x) by (apply Hwx; rewrite (Htime x Hxl); by apply bool_decide_eq_true). lia. }
    split; [apply Hw1 in Hpos; rewrite (Htime n Hn) in Hpos; by apply bool_decide_eq_true in Hpos|].
    intros p Hp. rewrite Hahead, (Hnt p Hp) by done. destruct (Z.eqb_spec (w n) 0); [lia|]. rewrite (Htime p Hp), bool_decide_eq_true. tauto.
Qed.

Lemma ahead_nodup st l : computing st l -> NoDup (ahead st l) /\ (forall p, p ∈ ahead st l -> p ∈ l /\ p <> current st).
Proof.
  intros [Hok _ _]. split; [apply NoDup_filter, (ok_nodup _ _ _ Hok)|]. intros p Hp. unfold ahead in Hp. apply list_elem_of_filter in Hp. tauto.
Qed.

(** A sequence without repetition in another, and without an element of it, is shorter. *)
Lemma subset_shorter (k l : list Z) n : NoDup k -> n ∈ l -> n ∉ k -> (forall p, p ∈ k -> p ∈ l) -> (length k < length l)%nat.
Proof.
  intros Hk Hn Hnk Hsub. assert (Hs : n :: k ⊆+ l) by (apply NoDup_submseteq; [by constructor|set_solver]).
  apply submseteq_length in Hs. cbn in Hs. lia.
Qed.

Lemma turn_then k st st1 st2 : turn st = Some st1 -> turns k st1 = Some st2 -> turns (S k) st = Some st2.
Proof. intros E1 E2. cbn [turns]. by rewrite E1. Qed.

Lemma turns_then k j st st1 st2 : turns k st = Some st1 -> turns j st1 = Some st2 -> turns (k + j) st = Some st2.
Proof.
  revert st. induction k as [|k IH]; intros st E1 E2; [by simplify_eq/=|]. cbn [turns Nat.add] in *.
  destruct (turn st); [|done]. cbn [mbind option_bind] in *. by apply IH.
Qed.

(** A turn leaves fewer processes ahead, while there are some. *)
Lemma ahead_less st st' l : computing st l -> computing st' l -> current st' ∈ ahead st l ->
  (forall p, p ∈ l -> p ∈ ahead st' l <-> p ∈ ahead st l /\ p <> current st') -> (length (ahead st' l) < length (ahead st l))%nat.
Proof.
  intros Hcp Hcp' Hc Heq. destruct (ahead_nodup st' l Hcp') as [Hnd Hin]. apply (subset_shorter _ _ (current st')); [done|done| |].
  - intros Hx. by destruct (Hin _ Hx).
  - intros p Hp. destruct (Hin p Hp) as [Hpl _]. by apply Heq.
Qed.

(** A process with time left runs before the slices are refilled. *)
Lemma ahead_runs st l p : computing st l -> p ∈ ahead st l ->
  exists k st', (k <= length (ahead st l))%nat /\ turns k st = Some st' /\ current st' = p.
Proof.
  remember (length (ahead st l)) as m eqn:Em. revert st Em. induction m as [m IH] using lt_wf_ind. intros st Em Hcp Hp.
  destruct (turn_spec st l Hcp) as (st1 & E1 & Hcp1 & _ & [(Hne & Hc & Heq)|[Hnil _]]); [|rewrite Hnil in Hp; set_solver].
  pose proof (ahead_less st st1 l Hcp Hcp1 Hc Heq) as Hless. destruct (decide (p = current st1)) as [->|Hpc].
  - exists 1%nat, st1. split; [lia|]. split; [by apply (turn_then 0 st st1)|done].
  - destruct (ahead_nodup st l Hcp) as [_ Hin]. destruct (Hin p Hp) as [Hpl _].
    destruct (IH (length (ahead st1 l)) ltac:(lia) st1 eq_refl Hcp1) as (k & st' & Hk & Ek & Ep); [by apply Heq|].
    exists (S k), st'. split; [lia|]. split; [by apply (turn_then k st st1)|done].
Qed.

(** The others come to their end, and the slices are refilled. *)
Lemma ahead_drains st l p : computing st l -> p ∈ l ->
  exists k st', (k <= S (length (ahead st l)))%nat /\ turns k st = Some st' /\ computing st' l /\ current st' ∈ l /\ (current st' = p \/ p ∈ ahead st' l).
Proof.
  remember (length (ahead st l)) as m eqn:Em. revert st Em. induction m as [m IH] using lt_wf_ind. intros st Em Hcp Hp.
  destruct (turn_spec st l Hcp) as (st1 & E1 & Hcp1 & Hcl & [(Hne & Hc & Heq)|[Hnil Heq]]).
  - pose proof (ahead_less st st1 l Hcp Hcp1 Hc Heq) as Hless.
    destruct (IH (length (ahead st1 l)) ltac:(lia) st1 eq_refl Hcp1 Hp) as (k & st' & Hk & Ek & Hrest).
    exists (S k), st'. split; [lia|]. split; [by apply (turn_then k st st1)|done].
  - exists 1%nat, st1. split; [lia|]. split; [by apply (turn_then 0 st st1)|]. split; [done|]. split; [done|].
    destruct (decide (current st1 = p)) as [|Hpc]; [by left|right]. apply Heq; [done|]. intros ->. done.
Qed.

Lemma computing_no_starvation st l p : computing st l -> p ∈ l ->
  exists k st', (k <= 2 * length l)%nat /\ turns k st = Some st' /\ current st' = p.
Proof.
  intros Hcp Hp. destruct (decide (current st = p)) as [Ep|Hne]; [exists O, st; split; [lia|done]|].
  destruct (ahead_drains st l p Hcp Hp) as (k1 & st1 & Hk1 & E1 & Hcp1 & Hcl1 & Hcase).
  assert (Hlen : (length (ahead st l) <= length l)%nat) by apply length_filter.
  destruct Hcase as [Ep|Hah].
  - exists k1, st1. split; [|done]. destruct l as [|x l]; [set_solver|]. cbn [length] in *. lia.
  - destruct (ahead_runs st1 l p Hcp1 Hah) as (k2 & st2 & Hk2 & E2 & Ep). exists (k1 + k2)%nat, st2. split; [|split; [by eapply turns_then|done]].
    destruct (ahead_nodup st1 l Hcp1) as [Hnd1 Hin1].
    assert (length (ahead st1 l) < length l)%nat by (apply (subset_shorter _ _ (current st1)); [done|done|intros Hx; by destruct (Hin1 _ Hx)|intros q Hq; by apply Hin1]).
    lia.
Qed.

(** C22: no ordinary process starves: in a reachable state in which only ordinary processes are
    runnable and each of them computes until its time slice is used up, every runnable
    process gets the processor, within twice as many slices as there are runnable
    processes. *)
Theorem sched_no_starvation st p t :
  rtc sched_step sched_init st ->
  (forall q tq, q <> init_task -> tasks st !! q = Some tq -> tstate tq = TASK_RUNNING -> policy tq = SCHED_OTHER) ->
  (forall tc, tasks st !! current st = Some tc -> tstate tc = TASK_RUNNING) ->
  p <> init_task -> tasks st !! p = Some t -> tstate t = TASK_RUNNING ->
  exists k st', Z.of_nat k <= 2 * nr_running st /\ turns k st = Some st' /\ current st' = p.
Proof.
  intros [l Hok]%sched_reachable Hpol Hcur Hp Ht Hrun.
  assert (Hin : forall q tq, q <> init_task -> tasks st !! q = Some tq -> q ∈ l <-> tstate tq = TASK_RUNNING).
  { intros q tq Hq Htq. destruct (decide (q = current st)) as [->|]; [|apply (ok_state _ _ _ Hok); auto].
    split; [intros _; by apply Hcur|intros _; by apply (ok_current _ _ _ Hok)]. }
  assert (Hpl : p ∈ l) by (by apply (Hin p t)).
  assert (Hcp : computing st l).
  { constructor; [done|intros El; rewrite El in Hpl; by apply not_elem_of_nil in Hpl|]. intros q Hq. destruct (ok_queue _ _ _ Hok q Hq) as [tq Htq].
    assert (Hq0 : q <> init_task) by (intros ->; by apply (ok_nodup _ _ _ Hok)). exists tq. apply (Hin q tq Hq0 Htq) in Hq as Hr.
    split_and!; [done|by eapply Hpol|done]. }
  destruct (computing_no_starvation st l p Hcp Hpl) as (k & st' & Hk & E & Ep). exists k, st'. split; [|done].
  rewrite (ok_nr _ _ _ Hok). lia.
Qed.

(** The policy that a call asks for: a negative one, as of sched_setparam, is that of the
    process. *)
Definition asked_policy (t : task) (pol : Z) : Z := if pol <? 0 then policy t else pol.

(** Policy and priority fit together. *)
Definition sched_valid (t : task) (pol prio : Z) : Prop :=
  (pol < 0 \/ pol = SCHED_OTHER \/ pol = SCHED_FIFO \/ pol = SCHED_RR) /\ 0 <= prio <= 99 /\ (asked_policy t pol = SCHED_OTHER <-> prio = 0).

(** The caller [c] may ask for it. *)
Definition sched_allowed (c t : task) (pol : Z) (cap : bool) : Prop :=
  cap = true \/ (asked_policy t pol <> SCHED_FIFO /\ asked_policy t pol <> SCHED_RR /\ (euid c = euid t \/ euid c = uid t)).

(** Policy and priority are set and nothing else of the process; it goes to the front of the
    queue if it is there, and a new choice is requested; every other process is as before. *)
Definition rescheduled (st st' : state) (p : Z) (t : task) (pol prio : Z) : Prop := exists t' c' l l',
  tasks st' !! p = Some t' /\ policy t' = pol /\ rt_priority t' = prio /\ counter t' = counter t /\ priority t' = priority t /\
  tstate t' = tstate t /\ tasks st' !! current st = Some c' /\ need_resched c' = true /\
  (forall q, q <> p -> q <> current st -> tasks st' !! q = tasks st !! q) /\ ring (rq st) l /\ ring (rq st') l' /\
  ((p ∉ l) -> l' = l) /\ (p ∈ l -> exists a b, l = a ++ p :: b /\ l' = p :: a ++ b).

(** What [setscheduler] does once all tests are passed. *)
Definition set_scheduler (st : state) (p : Z) (t : task) (pol prio : Z) : option (Z * state) :=
  let st := set_task st p (with_policy t pol prio) in
  q ← (match next_run (rq st) !! p with Some _ => move_first_runqueue (rq st) p | None => Some (rq st) end);
  c ← tasks st !! current st;
  Some (0, set_rq (set_task st (current st) (with_resched c true)) q (nr_running st)).

(** The tests. *)
Lemma setscheduler_code st pid pol prio cap c p t : 0 <= pid -> tasks st !! current st = Some c -> find_process_by_pid st pid = Some (p, t) ->
  (~ sched_valid t pol prio -> setscheduler st pid pol (Some (Some prio)) cap = Some (- EINVAL, st)) /\
  (sched_valid t pol prio -> ~ sched_allowed c t pol cap -> setscheduler st pid pol (Some (Some prio)) cap = Some (- EPERM, st)) /\
  (sched_valid t pol prio -> sched_allowed c t pol cap -> setscheduler st pid pol (Some (Some prio)) cap = set_scheduler st p t (asked_policy t pol) prio).
Proof.
  intros Hpid Hc Hf. unfold setscheduler, sched_valid, sched_allowed. destruct (pid <? 0) eqn:E; [lia|]. rewrite Hc. cbn [mbind option_bind]. rewrite Hf.
  fold (asked_policy t pol). cbv zeta. fold (set_scheduler st p t (asked_policy t pol) prio). generalize (set_scheduler st p t (asked_policy t pol) prio). intros res.
  generalize (asked_policy t pol). intros pol'. unfold SCHED_FIFO, SCHED_RR, SCHED_OTHER.
  destruct (negb (pol <? 0) && _ && _ && _) eqn:E1; [split_and!; intros; done || lia|]. destruct ((prio <? 0) || _) eqn:E2; [split_and!; intros; done || lia|].
  destruct (negb (Bool.eqb _ _)) eqn:E3; [split_and!; intros; done || lia|]. split; [intros Hv; destruct Hv; lia|].
  destruct (((pol' =? 1) || _) && _) eqn:E4; [split; [done|intros _ [-> |Ha]; lia]|].
  destruct (negb (euid c =? euid t) && _ && _) eqn:E5; [split; [done|intros _ [-> |Ha]; lia]|]. split; [|done].
  intros _ Ha. exfalso. apply Ha. destruct cap; [by left|right]. lia.
Qed.

Lemma set_scheduler_ok st l p t c pol prio : sched_ok false st l -> p <> init_task -> tasks st !! p = Some t -> tasks st !! current st = Some c ->
  exists st', set_scheduler st p t pol prio = Some (0, st') /\ rescheduled st st' p t pol prio.
Proof.
  intros Hok Hp0 Ht Hc. pose proof (ok_ring _ _ _ Hok) as Hr. unfold set_scheduler. cbv zeta. set (st1 := set_task st p (with_policy t pol prio)).
  assert (exists q l', (match next_run (rq st1) !! p with Some _ => move_first_runqueue (rq st1) p | None => Some (rq st1) end) = Some q /\
    ring q l' /\ ((p ∉ l) -> l' = l) /\ (p ∈ l -> exists a b, l = a ++ p :: b /\ l' = p :: a ++ b)) as (q & l' & Eq & Hq & Hl1 & Hl2).
  { change (rq st1) with (rq st). destruct (next_run (rq st) !! p) eqn:E.
    - assert (Hin : p ∈ l). { destruct (decide (p ∈ l)); [done|]. apply (ring_on_queue _ _ _ Hr Hp0) in n. congruence. }
      pose proof Hin as (a & b & El)%list_elem_of_split. rewrite El in Hr. destruct (ring_move_first _ _ _ _ Hr) as (q & Eq & Hq).
      exists q, (p :: a ++ b). split_and!; try done. intros _. by exists a, b.
    - apply (ring_on_queue _ _ _ Hr Hp0) in E. by exists (rq st), l. }
  rewrite Eq. cbn [mbind option_bind]. change (current st1) with (current st).
  assert (exists c', tasks st1 !! current st = Some c') as [c' Hc'].
  { unfold st1; cbn. destruct (decide (p = current st)) as [->|]; [rewrite lookup_insert_eq|rewrite lookup_insert_ne by done]; by eexists. }
  rewrite Hc'. cbn [mbind option_bind].
  assert (Ht1 : tasks st1 !! p = Some (with_policy t pol prio)) by apply lookup_insert_eq. eexists. split; [reflexivity|].
  assert (forall q', q' <> p -> q' <> current st -> tasks (set_task st1 (current st) (with_resched c' true)) !! q' = tasks st !! q') as Hoth
    by (intros q' H1 H2; cbn; by rewrite !lookup_insert_ne).
  exists (if decide (p = current st) then with_resched c' true else with_policy t pol prio), (with_resched c' true), l, l'.
  cbn [set_rq tasks set_task rq] in *. destruct (decide (p = current st)) as [Epc|].
  - rewrite <-Epc in *. simplify_eq. rewrite lookup_insert_eq. by split_and!.
  - rewrite lookup_insert_ne by done. rewrite lookup_insert_eq. by split_and!.
Qed.

(** C38: the result of [setscheduler] for every argument, of sched_setscheduler and, with a
    negative policy, of sched_setparam.  EINVAL for a null parameter or a negative pid;
    EFAULT if the parameter cannot be read; ESRCH if there is no such process; EINVAL if
    the policy is not one of the three or the priority does not fit it (0 for the ordinary
    policy, 1 to 99 for others); EPERM unless the caller is privileged, or owns the process
    and asks for no real-time policy.  In each of these cases nothing changes; otherwise the
    call succeeds, policy and priority are set, a runnable process goes to the front of the
    queue and a new choice is requested. *)
Theorem setscheduler_correct st pid pol param cap c :
  rtc sched_step sched_init st -> current st <> init_task -> tasks st !! current st = Some c ->
  ((param = None \/ pid < 0) -> setscheduler st pid pol param cap = Some (- EINVAL, st)) /\
  (0 <= pid -> param = Some None -> setscheduler st pid pol param cap = Some (- EFAULT, st)) /\
  (forall prio, 0 <= pid -> param = Some (Some prio) ->
    (find_process_by_pid st pid = None -> setscheduler st pid pol param cap = Some (- ESRCH, st)) /\
    (forall p t, find_process_by_pid st pid = Some (p, t) ->
      (~ sched_valid t pol prio -> setscheduler st pid pol param cap = Some (- EINVAL, st)) /\
      (sched_valid t pol prio -> ~ sched_allowed c t pol cap -> setscheduler st pid pol param cap = Some (- EPERM, st)) /\
      (sched_valid t pol prio -> sched_allowed c t pol cap ->
         exists st', setscheduler st pid pol param cap = Some (0, st') /\ rescheduled st st' p t (asked_policy t pol) prio))).
Proof.
  intros [l Hok]%sched_reachable Hc0 Hc. split_and!.
  - unfold setscheduler. intros [-> |Hn]; [done|]. by replace (pid <? 0) with true by lia; destruct param.
  - unfold setscheduler. intros Hp ->. by replace (pid <? 0) with false by lia.
  - intros prio Hp ->. split.
    + intros Hf. unfold setscheduler. replace (pid <? 0) with false by lia. by rewrite Hc, Hf.
    + intros p t Hf. destruct (setscheduler_code st pid pol prio cap c p t Hp Hc Hf) as (H1 & H2 & H3). split; [done|]. split; [done|].
      intros Hv Ha. rewrite (H3 Hv Ha). destruct (find_process st pid p t Hf Hc0) as [Hp0 Ht]. by eapply set_scheduler_ok.
Qed.

(** ** Examples *)

(** init gets the processor and forks process 2. *)
Definition demo_one : state := default sched_init (schedule sched_init []).

Definition demo : state := default demo_one (fork_sched demo_one 2 2).

Lemma sched_demo_reachable : rtc sched_step sched_init demo.
Proof.
  eapply rtc_l; [apply (step_schedule sched_init [] demo_one); [intros p Hp; by apply elem_of_nil in Hp|reflexivity]|].
  eapply rtc_l; [apply (step_fork demo_one 2 2 demo); [done|done|reflexivity|reflexivity]|]. apply rtc_refl.
Qed.

Definition demo_task (p : Z) : task := default idle (tasks demo !! p).

Lemma demo_current : tasks demo !! current demo = Some (demo_task 1).
Proof. reflexivity. Qed.

Lemma demo_policies q tq : q <> init_task -> tasks demo !! q = Some tq -> policy tq = SCHED_OTHER.
Proof.
  intros Hq Ht. assert (H : map_Forall (fun _ t => policy t = SCHED_OTHER) (tasks demo)) by (by_decide). exact (H q tq Ht).
Qed.

Lemma sched_reachable_ok_witness : exists l, ring (rq demo) l /\ nr_running demo = Z.of_nat (length l) /\ nr_running demo = 2.
Proof.
  destruct (sched_reachable_ok demo sched_demo_reachable) as (l & H1 & H2 & _). exists l. exact (conj H1 (conj H2 eq_refl)).
Defined.

Lemma schedule_correct_witness : exists l, ring (rq demo) l /\ exists st', schedule demo [] = Some st'.
Proof.
  destruct (schedule_correct demo (demo_task 1) [] sched_demo_reachable demo_current (fun p Hp => False_ind _ (not_elem_of_nil p Hp)))
    as (l & H1 & st' & pre & H2 & _). exists l. exact (conj H1 (ex_intro _ st' H2)).
Defined.

Lemma sched_no_starvation_witness :
  tstate (demo_task 2) = TASK_RUNNING /\ exists k st', Z.of_nat k <= 4 /\ turns k demo = Some st' /\ current st' = 2.
Proof.
  split; [reflexivity|].
  assert (Hc : forall tc, tasks demo !! current demo = Some tc -> tstate tc = TASK_RUNNING) by (intros tc; rewrite demo_current; by intros [= <-]).
  exact (sched_no_starvation demo 2 (demo_task 2) sched_demo_reachable (fun q tq Hq Ht _ => demo_policies q tq Hq Ht) Hc
    ltac:(done) eq_refl eq_refl).
Defined.

Lemma wake_up_correct_witness :
  let st := default demo (set_current_state demo TASK_INTERRUPTIBLE) in
  let st := default st (schedule st []) in
  waitq (__add_wait_queue ∅ 100 7) 100 [7] /\
  exists st', __wake_up 1 st (__add_wait_queue ∅ 100 7) (fun _ => 1) 100 TASK_INTERRUPTIBLE = Some st' /\ (tstate <$> tasks st' !! 1) = Some TASK_RUNNING.
Proof.
  set (st1 := default demo (set_current_state demo TASK_INTERRUPTIBLE)). set (st2 := default st1 (schedule st1 [])). cbn zeta.
  assert (Hr : rtc sched_step sched_init st2).
  { etrans; [exact sched_demo_reachable|]. eapply rtc_l; [apply (step_state demo TASK_INTERRUPTIBLE st1); [done|reflexivity]|].
    eapply rtc_l; [apply (step_schedule st1 [] st2); [intros p Hp; by apply elem_of_nil in Hp|reflexivity]|]. apply rtc_refl. }
  assert (Hq : waitq (__add_wait_queue ∅ 100 7) 100 [7]) by (apply waitq_add; [apply waitq_unused|by_decide]). split; [exact Hq|].
  assert (Hn : forall n, n ∈ [7] -> 1 <> init_task /\ is_Some (tasks st2 !! 1)) by (intros n _; split; [done|by eexists]).
  destruct (wake_up_correct st2 (__add_wait_queue ∅ 100 7) (fun _ => 1) 100 [7] TASK_INTERRUPTIBLE 1 Hr Hq (le_n 1) Hn)
    as (st' & l & l' & E & _ & _ & _ & Hw & _). exists st'. split; [exact E|].
  assert (Ht : tasks st2 !! 1 = Some (default idle (tasks st2 !! 1))) by reflexivity.
  apply (Hw 7 _ (list_elem_of_here 7 []) Ht). vm_compute. done.
Defined.

Lemma setscheduler_correct_witness :
  setscheduler demo 2 SCHED_FIFO (Some (Some 0)) true = Some (- EINVAL, demo) /\
  setscheduler demo 2 SCHED_FIFO (Some (Some 5)) false = Some (- EPERM, demo) /\
  setscheduler demo 9 SCHED_FIFO (Some (Some 5)) true = Some (- ESRCH, demo) /\
  exists st' t', setscheduler demo 2 SCHED_FIFO (Some (Some 5)) true = Some (0, st') /\ tasks st' !! 2 = Some t' /\ rt_priority t' = 5.
Proof.
  assert (Hc : current demo <> init_task) by done.
  assert (Hv : sched_valid (demo_task 2) SCHED_FIFO 5) by (unfold sched_valid, asked_policy, SCHED_FIFO, SCHED_OTHER, SCHED_RR; cbn; lia).
  destruct (setscheduler_correct demo 2 SCHED_FIFO (Some (Some 0)) true (demo_task 1) sched_demo_reachable Hc demo_current) as (_ & _ & H).
  destruct (H 0 ltac:(lia) eq_refl) as [_ H1]. destruct (H1 2 (demo_task 2) eq_refl) as (E1 & _).
  split; [apply E1; unfold sched_valid, asked_policy, SCHED_FIFO, SCHED_OTHER, SCHED_RR; cbn; lia|]. clear H H1 E1.
  destruct (setscheduler_correct demo 2 SCHED_FIFO (Some (Some 5)) false (demo_task 1) sched_demo_reachable Hc demo_current) as (_ & _ & H).
  destruct (H 5 ltac:(lia) eq_refl) as [_ H1]. destruct (H1 2 (demo_task 2) eq_refl) as (_ & E2 & _).
  split; [apply E2; [exact Hv|intros [|[Hn _]]; [done|exact (Hn eq_refl)]]|]. clear H H1 E2.
  destruct (setscheduler_correct demo 9 SCHED_FIFO (Some (Some 5)) true (demo_task 1) sched_demo_reachable Hc demo_current) as (_ & _ & H).
  split; [exact (proj1 (H 5 ltac:(lia) eq_refl) eq_refl)|]. clear H.
  destruct (setscheduler_correct demo 2 SCHED_FIFO (Some (Some 5)) true (demo_task 1) sched_demo_reachable Hc demo_current) as (_ & _ & H).
  destruct (H 5 ltac:(lia) eq_refl) as [_ H1]. destruct (H1 2 (demo_task 2) eq_refl) as (_ & _ & E3).
  destruct (E3 Hv (or_introl eq_refl)) as (st' & E & t' & c' & l & l' & Et & _ & Er & _). exists st', t'. exact (conj E (conj Et Er)).
Defined.

(** While [schedule] searches, an interrupt wakes the real-time process 2: the request for a
    new choice is left with the old process 1, and the new one, 3, does not know of it. *)
Example wakeup_during_search :
  let t pol s := Task pol (if pol =? SCHED_FIFO then 50 else 0) 20 20 1 s false false 0 0 in
  let q := Runqueue (<[3 := 0]> (<[1 := 3]> {[0 := 1]})) (<[0 := 3]> (<[3 := 1]> {[1 := 0]})) in
  let st := State (<[1 := t SCHED_OTHER TASK_INTERRUPTIBLE]> (<[2 := t SCHED_FIFO TASK_INTERRUPTIBLE]> (<[3 := t SCHED_OTHER TASK_RUNNING]> {[0 := idle]})))
                  [1; 2; 3] q 2 1 0 in
  match schedule st [2] with
  | Some st' => current st' = 3 /\ (need_resched <$> tasks st' !! 3) = Some false /\ (need_resched <$> tasks st' !! 1) = Some true /\
      (tstate <$> tasks st' !! 2) = Some TASK_RUNNING
  | None => False
  end.
Proof. by vm_compute. Qed.
