(* ===== verification/Exit.v ===== *)
(** * kernel/exit.c: the end of a process, and waiting for it

    The family of processes is a structure of pointers: a process points to its
    youngest child, and siblings are linked both ways.  It is kept beside the state of
    [Signal], whose tasks have the parent ([p_pptr]), the state and the exit code, and
    whose [order] is the ring of all tasks.  A process is named by its pid; 0 is the
    idle task, which is the parent of init but is not in the ring.

    [waiting] holds, for each process inside [sys_wait4], the arguments of the call, and
    the group that the process had when it last looked at its children: the
    process is then on its own queue [wait_chldexit].  [None] as a result means that the
    kernel follows an invalid pointer (or, in [do_exit], that it panics). *)

From S2P Require Import Prelude Signal.

(** ** The state *)

Record usage := Usage {
  tms_utime : Z; tms_stime : Z; tms_cutime : Z; tms_cstime : Z;
  min_flt : Z; maj_flt : Z; nswap : Z; cmin_flt : Z; cmaj_flt : Z; cnswap : Z }.

Record kin := Kin {
  p_opptr : Z; p_cptr : option Z; p_ysptr : option Z; p_osptr : option Z;
  exit_signal : Z; pdeath_signal : Z; times : usage }.

Record xstate := XState { sg : state; kins : gmap Z kin; waiting : gmap Z (Z * Z * Z) }.

Definition child_reaper : Z := 1.

Definition with_sg (x : xstate) (st : state) : xstate := XState st (kins x) (waiting x).

Definition upd (p : Z) (f : kin -> kin) (x : xstate) : xstate := XState (sg x) (alter f p (kins x)) (waiting x).

Definition with_waiting (x : xstate) (w : gmap Z (Z * Z * Z)) : xstate := XState (sg x) (kins x) w.

Definition set_opptr (q : Z) (k : kin) : kin :=
  Kin q (p_cptr k) (p_ysptr k) (p_osptr k) (exit_signal k) (pdeath_signal k) (times k).

Definition set_cptr (c : option Z) (k : kin) : kin :=
  Kin (p_opptr k) c (p_ysptr k) (p_osptr k) (exit_signal k) (pdeath_signal k) (times k).

Definition set_ysptr (y : option Z) (k : kin) : kin :=
  Kin (p_opptr k) (p_cptr k) y (p_osptr k) (exit_signal k) (pdeath_signal k) (times k).

Definition set_osptr (o : option Z) (k : kin) : kin :=
  Kin (p_opptr k) (p_cptr k) (p_ysptr k) o (exit_signal k) (pdeath_signal k) (times k).

Definition set_exit_signal (s : Z) (k : kin) : kin :=
  Kin (p_opptr k) (p_cptr k) (p_ysptr k) (p_osptr k) s (pdeath_signal k) (times k).

Definition set_pdeath (s : Z) (k : kin) : kin :=
  Kin (p_opptr k) (p_cptr k) (p_ysptr k) (p_osptr k) (exit_signal k) s (times k).

Definition set_times (u : usage) (k : kin) : kin :=
  Kin (p_opptr k) (p_cptr k) (p_ysptr k) (p_osptr k) (exit_signal k) (pdeath_signal k) u.

(** The task with another parent, and with the trace flag set to [tr]. *)
Definition with_parent (t : task) (q : Z) (tr : bool) : task :=
  Task (pgrp t) (session t) (leader t) (uid t) (euid t) (suid t) q (tstate t) tr (exit_code t) (sigh t)
    (blocked t) (signal t) (sigpending t) (sigqueue t) (tail_ok t) (sas_ss_sp t) (sas_ss_size t).

Definition with_group (t : task) (pg sess : Z) (ld : bool) : task :=
  Task pg sess ld (uid t) (euid t) (suid t) (p_pptr t) (tstate t) (ptraced t) (exit_code t) (sigh t)
    (blocked t) (signal t) (sigpending t) (sigqueue t) (tail_ok t) (sas_ss_sp t) (sas_ss_size t).

Definition set_order (st : state) (l : list Z) : state :=
  State (tasks st) l (action st) (nr_queued_signals st) (max_queued_signals st) (lost st) (waits st).

Definition upd_task (p : Z) (f : task -> task) (x : xstate) : xstate :=
  match tasks (sg x) !! p with Some t => with_sg x (set_task (sg x) p (f t)) | None => x end.

Definition pptr (x : xstate) (p : Z) : Z := match tasks (sg x) !! p with Some t => p_pptr t | None => 0 end.

Definition cptr (x : xstate) (p : Z) : option Z := k ← kins x !! p; p_cptr k.

(** ** The links of the family *)

(** The part of REMOVE_LINKS that concerns the family. *)
Definition unlink_family (x : xstate) (p : Z) : xstate :=
  match kins x !! p with
  | None => x
  | Some k =>
    let x := match p_osptr k with Some o => upd o (set_ysptr (p_ysptr k)) x | None => x end in
    match p_ysptr k with
    | Some y => upd y (set_osptr (p_osptr k)) x
    | None => upd (pptr x p) (set_cptr (p_osptr k)) x
    end
  end.

(** The part of SET_LINKS that concerns the family. *)
Definition link_family (x : xstate) (p : Z) : xstate :=
  let q := pptr x p in
  let c := cptr x q in
  let x := upd p (fun k => set_osptr c (set_ysptr None k)) x in
  let x := match c with Some o => upd o (set_ysptr (Some p)) x | None => x end in
  upd q (set_cptr (Some p)) x.

Definition remove_links (x : xstate) (p : Z) : xstate :=
  unlink_family (with_sg x (set_order (sg x) (filter (fun a => a <> p) (order (sg x))))) p.

Definition set_links (x : xstate) (p : Z) : xstate :=
  link_family (with_sg x (set_order (sg x) (order (sg x) ++ [p]))) p.

(** ** Process groups *)

(** A process of the group whose parent is outside of the group but in its session. *)
Definition connects (st : state) (pg : Z) (ignored : option Z) (p : Z) : bool :=
  match tasks st !! p with
  | Some t =>
    if bool_decide (Some p = ignored) || negb (pgrp t =? pg) || (tstate t =? TASK_ZOMBIE) || (p_pptr t =? 1) then false
    else match tasks st !! p_pptr t with
         | Some f => negb (pgrp f =? pg) && (session f =? session t)
         | None => false
         end
  | None => false
  end.

Definition will_become_orphaned_pgrp (st : state) (pg : Z) (ignored : option Z) : bool :=
  negb (existsb (connects st pg ignored) (order st)).

Definition is_orphaned_pgrp (st : state) (pg : Z) : bool := will_become_orphaned_pgrp st pg None.

Definition has_stopped_jobs (st : state) (pg : Z) : bool :=
  existsb (fun p => match tasks st !! p with
                    | Some t => (pgrp t =? pg) && (tstate t =? TASK_STOPPED)
                    | None => false
                    end) (order st).

(** ** The end of a process

    [cur] is the current process, [admin] what [capable] answers for it, [garbage] the
    part of a signal's data that is not initialised, [alloc p] the answer of the
    allocator when a signal is queued for [p]. *)

Definition SIGHUP : Z := 1.

Section Exit.
Context (cur : Z) (admin : bool) (garbage : Z) (alloc : Z -> bool).

(** [wake_up_interruptible (&p->wait_chldexit)]. *)
Definition wake_waiter (x : xstate) (p : Z) : xstate :=
  match waiting x !! p with
  | Some _ => upd_task p (fun t => if tstate t =? TASK_INTERRUPTIBLE then wake_up_process t else t) x
  | None => x
  end.

Definition notify_parent (x : xstate) (tsk sig : Z) : option xstate :=
  '(_, st) ← Signal.notify_parent (sg x) cur admin tsk sig garbage (alloc (pptr x tsk));
  Some (wake_waiter (with_sg x st) (pptr x tsk)).

Fixpoint forget_each (x : xstate) (l : list Z) (father : Z) : option xstate :=
  match l with
  | [] => Some x
  | p :: l =>
    match kins x !! p with
    | Some k =>
      if p_opptr k =? father then
        let x := upd p (fun k => set_opptr child_reaper (set_exit_signal SIGCHLD k)) x in
        if pdeath_signal k =? 0 then forget_each x l father
        else '(_, st) ← send_sig (sg x) cur admin (pdeath_signal k) p false (alloc p);
             forget_each (with_sg x st) l father
      else forget_each x l father
    | None => forget_each x l father
    end
  end.

Definition forget_original_parent (x : xstate) (father : Z) : option xstate := forget_each x (order (sg x)) father.

Definition hangup_group (x : xstate) (pg : Z) : option xstate :=
  '(_, st) ← kill_pg (sg x) cur admin pg SIGHUP true alloc;
  '(_, st) ← kill_pg st cur admin pg SIGCONT true alloc;
  Some (with_sg x st).

(** The body of the loop of [exit_notify]; [p] is the youngest child. *)
Definition inherit_turn (x : xstate) (p : Z) : option xstate :=
  k ← kins x !! p;
  let x := upd cur (set_cptr (p_osptr k)) x in
  let x := upd_task p (fun t => with_parent t (p_opptr k) false) x in
  let x := link_family x p in
  t ← tasks (sg x) !! p;
  x ← (if tstate t =? TASK_ZOMBIE then notify_parent x p (exit_signal k) else Some x);
  c ← tasks (sg x) !! cur;
  if negb (pgrp t =? pgrp c) && (session t =? session c) then
    if is_orphaned_pgrp (sg x) (pgrp t) && has_stopped_jobs (sg x) (pgrp t)
    then hangup_group x (pgrp t) else Some x
  else Some x.

(** The loop; the flag is false when the fuel has run out. *)
Fixpoint inherit (fuel : nat) (x : xstate) : option (bool * xstate) :=
  match cptr x cur with
  | None => Some (true, x)
  | Some p =>
    match fuel with
    | O => Some (false, x)
    | S fuel => x ← inherit_turn x p; inherit fuel x
    end
  end.

(** The signals of [disassociate_ctty (1)]: [tty] is the foreground group of the
    controlling terminal, if there is one, [old] the group that is kept without one. *)
Definition disassociate_ctty (x : xstate) (tty : option Z) (old : Z) : option xstate :=
  match tty with
  | None => if old =? 0 then Some x else hangup_group x old
  | Some pg => if 0 <? pg then '(_, st) ← kill_pg (sg x) cur admin pg SIGHUP true alloc; Some (with_sg x st) else Some x
  end.

(** The first check for orphaned groups. *)
Definition orphan_own_group (x : xstate) : option xstate :=
  c ← tasks (sg x) !! cur;
  f ← tasks (sg x) !! p_pptr c;
  if negb (pgrp f =? pgrp c) && (session f =? session c) &&
     will_become_orphaned_pgrp (sg x) (pgrp c) (Some cur) && has_stopped_jobs (sg x) (pgrp c)
  then hangup_group x (pgrp c) else Some x.

Definition exit_notify (fuel : nat) (x : xstate) (tty : option Z) (old : Z) : option (bool * xstate) :=
  x ← forget_original_parent x cur;
  x ← orphan_own_group x;
  k ← kins x !! cur;
  x ← notify_parent x cur (exit_signal k);
  '(done, x) ← inherit fuel x;
  if (done : bool) then
    c ← tasks (sg x) !! cur;
    x ← (if leader c then disassociate_ctty x tty old else Some x);
    Some (true, x)
  else Some (false, x).

(** What [do_exit] does to signals and the family; the resources of the process that
    other parts of the kernel keep are given up before. *)
Definition do_exit (fuel : nat) (x : xstate) (code : Z) (tty : option Z) (old : Z) : option (bool * xstate) :=
  if cur =? 0 then None else
  t ← tasks (sg x) !! cur;
  let x := with_sg x (exit_sighand (sg x) cur t) in
  let x := upd_task cur (fun t => with_exit (with_state t TASK_ZOMBIE) (s32 code)) x in
  exit_notify fuel x tty old.

Definition sys_exit (fuel : nat) (x : xstate) (error_code : Z) (tty : option Z) (old : Z) : option (bool * xstate) :=
  do_exit fuel x (Z.shiftl (Z.land error_code 0xff) 8) tty old.

(** ** Resource usage *)

Definition HZ : Z := 100.
Definition CT_TO_SECS (t : Z) : Z := t ÷ HZ.
Definition CT_TO_USECS (t : Z) : Z := Z.rem t HZ * 1000000 ÷ HZ.

Record rusage := Rusage {
  ru_utime : Z * Z; ru_stime : Z * Z; ru_minflt : Z; ru_majflt : Z; ru_nswap : Z }.

Definition RUSAGE_SELF : Z := 0.
Definition RUSAGE_CHILDREN : Z := -1.
Definition RUSAGE_BOTH : Z := -2.

Definition timeval_of (t : Z) : Z * Z := (CT_TO_SECS t, CT_TO_USECS t).

(** [copied] tells whether the structure could be copied to the user. *)
Definition getrusage (u : usage) (who : Z) (copied : bool) : Z * option rusage :=
  let r :=
    if who =? RUSAGE_SELF then Rusage (timeval_of (tms_utime u)) (timeval_of (tms_stime u)) (min_flt u) (maj_flt u) (nswap u)
    else if who =? RUSAGE_CHILDREN then Rusage (timeval_of (tms_cutime u)) (timeval_of (tms_cstime u)) (cmin_flt u) (cmaj_flt u) (cnswap u)
    else Rusage (timeval_of (s32 (tms_utime u + tms_cutime u))) (timeval_of (s32 (tms_stime u + tms_cstime u)))
           (u32 (min_flt u + cmin_flt u)) (u32 (maj_flt u + cmaj_flt u)) (u32 (nswap u + cnswap u)) in
  if copied then (0, Some r) else (- EFAULT, None).

Definition sys_getrusage (u : usage) (who : Z) (copied : bool) : Z * option rusage :=
  if negb (who =? RUSAGE_SELF) && negb (who =? RUSAGE_CHILDREN) then (- EINVAL, None) else getrusage u who copied.

(** The time of a child that is added when it is found dead, and the faults that are
    added when it is released. *)
Definition add_times (p u : usage) : usage :=
  Usage (tms_utime u) (tms_stime u)
    (s32 (tms_cutime u + (tms_utime p + tms_cutime p))) (s32 (tms_cstime u + (tms_stime p + tms_cstime p)))
    (min_flt u) (maj_flt u) (nswap u) (cmin_flt u) (cmaj_flt u) (cnswap u).

Definition add_faults (p u : usage) : usage :=
  Usage (tms_utime u) (tms_stime u) (tms_cutime u) (tms_cstime u) (min_flt u) (maj_flt u) (nswap u)
    (u32 (cmin_flt u + (min_flt p + cmin_flt p))) (u32 (cmaj_flt u + (maj_flt p + cmaj_flt p)))
    (u32 (cnswap u + (nswap p + cnswap p))).

(** ** Waiting *)

Definition release (x : xstate) (p : Z) : xstate :=
  if p =? cur then x else
  let u := match kins x !! p with Some k => times k | None => Usage 0 0 0 0 0 0 0 0 0 0 end in
  let x := remove_links x p in
  let x := upd cur (fun k => set_times (add_faults u (times k)) k) x in
  XState (release_task (sg x) p) (delete p (kins x)) (waiting x).

Definition WNOHANG : Z := 1.
Definition WUNTRACED : Z := 2.
Definition WCLONE : Z := 0x80000000.

Definition has_option (options o : Z) : bool := negb (Z.land (u32 options) o =? 0).

(** The tests at the head of the loop of [sys_wait4]. *)
Definition eligible (c : task) (pid options p : Z) (t : task) (k : kin) : bool :=
  (if 0 <? pid then p =? pid
   else if pid =? 0 then pgrp t =? pgrp c
   else if negb (pid =? -1) then pgrp t =? - pid
   else true) &&
  negb (xorb (negb (exit_signal k =? SIGCHLD)) (has_option options WCLONE)).

Definition reports_stop (options : Z) (t : task) : bool :=
  (tstate t =? TASK_STOPPED) && negb (exit_code t =? 0) && (has_option options WUNTRACED || ptraced t).

Inductive found := FoundNone (flag : bool) | FoundStopped (p : Z) | FoundZombie (p : Z).

(** The loop over the children; [None]: an invalid pointer, or not enough fuel. *)
Fixpoint wait_scan (fuel : nat) (x : xstate) (c : task) (pid options : Z) (p : option Z) (flag : bool) : option found :=
  match p with
  | None => Some (FoundNone flag)
  | Some p =>
    match fuel with
    | O => None
    | S fuel =>
      k ← kins x !! p;
      t ← tasks (sg x) !! p;
      if eligible c pid options p t k then
        if reports_stop options t then Some (FoundStopped p)
        else if tstate t =? TASK_ZOMBIE then Some (FoundZombie p)
        else wait_scan fuel x c pid options (p_osptr k) true
      else wait_scan fuel x c pid options (p_osptr k) flag
    end
  end.

(** How a turn of [sys_wait4] ends: with its result and what it has stored for the
    user, or asleep. *)
Inductive wait_end := Returns (retval : Z) (stat : option Z) (ru : option rusage) | Sleeps.

(** The usage and the status are stored for the user; [stat_addr] and [ru] are
    [None] for a null pointer, [Some ok] for an address that can be written or not. *)
Definition store_result (u : usage) (status : Z) (stat_addr ru : option bool) : Z * option Z * option rusage :=
  let '(retval, r) := match ru with Some ok => getrusage u RUSAGE_BOTH ok | None => (0, None) end in
  if retval =? 0 then
    match stat_addr with
    | None => (0, None, r)
    | Some true => (0, Some (u32 status), r)
    | Some false => (- EFAULT, None, r)
    end
  else (retval, None, r).

(** The end of a child that was found dead. *)
Definition reap (x : xstate) (p : Z) (k : kin) (t : task) : option xstate :=
  if negb (p_opptr k =? p_pptr t) then
    let x := remove_links x p in
    let x := upd_task p (fun t => with_parent t (p_opptr k) (ptraced t)) x in
    let x := set_links x p in
    notify_parent x p SIGCHLD
  else Some (release x p).

(** From the label [repeat] on. *)
Definition wait_turn (fuel : nat) (x : xstate) (pid options : Z) (stat_addr ru : option bool) : option (wait_end * xstate) :=
  c ← tasks (sg x) !! cur;
  let leave x := with_waiting x (delete cur (waiting x)) in
  f ← wait_scan fuel x c pid options (cptr x cur) false;
  match f with
  | FoundStopped p =>
    k ← kins x !! p; t ← tasks (sg x) !! p;
    let '(retval, stat, r) := store_result (times k) (Z.lor (Z.shiftl (exit_code t) 8) 0x7f) stat_addr ru in
    if retval =? 0 then Some (Returns p stat r, leave (upd_task p (fun t => with_exit t 0) x))
    else Some (Returns retval stat r, leave x)
  | FoundZombie p =>
    k ← kins x !! p; t ← tasks (sg x) !! p;
    let x := upd cur (fun kc => set_times (add_times (times k) (times kc)) kc) x in
    let '(retval, stat, r) := store_result (times k) (exit_code t) stat_addr ru in
    if negb (retval =? 0) then Some (Returns retval stat r, leave x)
    else x ← reap x p k t; Some (Returns p stat r, leave x)
  | FoundNone flag =>
    if flag then
      if has_option options WNOHANG then Some (Returns 0 None None, leave x)
      else if sigpending c then Some (Returns (- ERESTARTSYS) None None, leave x)
      else Some (Sleeps, upd_task cur (fun t => with_state t TASK_INTERRUPTIBLE) x)
    else Some (Returns (- ECHILD) None None, leave x)
  end.

(** [options & ~(WNOHANG|WUNTRACED|__WCLONE)]. *)
Definition bad_options (options : Z) : bool :=
  negb (andn (u32 options) (Z.lor (Z.lor WNOHANG WUNTRACED) WCLONE) =? 0).

(** A turn, at the start of the call or after a sleep in it. *)
Definition wait_pass (fuel : nat) (x : xstate) (pid options : Z) (stat_addr ru : option bool) : option (wait_end * xstate) :=
  c ← tasks (sg x) !! cur;
  wait_turn fuel (with_waiting x (<[cur := (pid, options, pgrp c)]> (waiting x))) pid options stat_addr ru.

Definition sys_wait4 (fuel : nat) (x : xstate) (pid options : Z) (stat_addr ru : option bool) : option (wait_end * xstate) :=
  if bad_options options then Some (Returns (- EINVAL) None None, x)
  else wait_pass fuel x pid options stat_addr ru.

Definition sys_waitpid (fuel : nat) (x : xstate) (pid options : Z) (stat_addr : option bool) : option (wait_end * xstate) :=
  sys_wait4 fuel x pid options stat_addr None.

(** [i370_do_signal], when SIGCHLD is ignored: the loop that reaps every child.  The
    flag is false when the turns have run out. *)
Fixpoint reap_children (turns fuel : nat) (x : xstate) : option (bool * xstate) :=
  match turns with
  | O => Some (false, x)
  | S turns =>
    '(r, x) ← sys_wait4 fuel x (-1) WNOHANG None None;
    match r with
    | Returns retval _ _ => if 0 <? retval then reap_children turns fuel x else Some (true, x)
    | Sleeps => Some (false, x)
    end
  end.

(** ** Other changes of the family *)

Definition CSIGNAL : Z := 0xff.
Definition CLONE_VM : Z := 0x100.

(** The counters of the child: [do_fork] clears the times, and [copy_mm] the page faults
    unless the memory is shared. *)
Definition child_usage (clone_flags : Z) (u : usage) : usage :=
  if negb (Z.land clone_flags CLONE_VM =? 0)
  then Usage 0 0 0 0 (min_flt u) (maj_flt u) (nswap u) (cmin_flt u) (cmaj_flt u) (cnswap u)
  else Usage 0 0 0 0 0 0 0 0 0 0.

(** The part of [do_fork] that concerns the family; [share], [trace] and [h] are as in
    [fork_signals]. *)
Definition fork_family (x : xstate) (child clone_flags : Z) (t : task) (share trace : bool) (h : Z) : xstate :=
  let u := match kins x !! cur with Some k => times k | None => Usage 0 0 0 0 0 0 0 0 0 0 end in
  let k := Kin cur None None None (Z.land clone_flags CSIGNAL) 0 (child_usage clone_flags u) in
  link_family (XState (fork_signals (sg x) cur child t share trace h) (<[child := k]> (kins x)) (waiting x)) child.

(** The option PR_SET_PDEATHSIG of [sys_prctl]. *)
Definition sys_prctl (x : xstate) (is_pdeathsig : bool) (arg2 : Z) : Z * xstate :=
  if is_pdeathsig then
    let sig := s32 arg2 in
    if NSIG <? sig then (- EINVAL, x) else (0, upd cur (set_pdeath sig) x)
  else (- EINVAL, x).

(** PTRACE_ATTACH, on the machines that have it; [allowed] is the comparison of ids.  The
    idle task is not found by its pid. *)
Definition ptrace_attach (x : xstate) (pid : Z) (allowed : bool) : option (Z * xstate) :=
  match tasks (sg x) !! pid with
  | None => Some (- ESRCH, x)
  | Some t =>
    if pid =? 0 then Some (- ESRCH, x)
    else if (pid =? 1) || (pid =? cur) || negb allowed || ptraced t then Some (- EPERM, x)
    else
      let x := if negb (p_pptr t =? cur)
               then set_links (upd_task pid (fun t => with_parent t cur true) (remove_links x pid)) pid
               else upd_task pid (fun t => with_parent t cur true) x in
      '(_, st) ← send_sig (sg x) cur admin SIGSTOP pid true (alloc pid);
      Some (0, with_sg x st)
  end.

Definition EIO : Z := 5.

(** PTRACE_DETACH. *)
Definition ptrace_detach (x : xstate) (pid data : Z) : Z * xstate :=
  match tasks (sg x) !! pid, kins x !! pid with
  | Some t, Some k =>
    if pid =? 0 then (- ESRCH, x)
    else if pid =? 1 then (- EPERM, x)
    else if negb (ptraced t) || negb (tstate t =? TASK_STOPPED) || negb (p_pptr t =? cur) then (- ESRCH, x)
    else if NSIG <? u32 data then (- EIO, x)
    else
      let x := upd_task pid (fun t => with_exit (with_parent t (p_pptr t) false) (s32 data)) x in
      let x := remove_links x pid in
      let x := set_links (upd_task pid (fun t => with_parent t (p_opptr k) false) x) pid in
      (0, upd_task pid wake_up_process x)
  | _, _ => (- ESRCH, x)
  end.

End Exit.
