(* ===== verification/ExitProof.v ===== *)
(** * The end of a process: the family stays a family, and no dead child is missed *)

From stdpp Require Import functions.
From S2P Require Import Prelude Signal SignalProof Exit.

(** ** Signals leave the family alone *)

(** What sending signals can change of a task. *)
Record quiet (t t' : task) : Prop := {
  q_pgrp : pgrp t' = pgrp t; q_session : session t' = session t; q_leader : leader t' = leader t;
  q_pptr : p_pptr t' = p_pptr t; q_ptraced : ptraced t' = ptraced t; q_sigh : sigh t' = sigh t;
  q_state : tstate t' = tstate t \/ (tstate t' = TASK_RUNNING /\ tstate t <> TASK_ZOMBIE);
  q_dead : tstate t = TASK_ZOMBIE -> sigh t = None -> t' = t }.

#[export] Instance quiet_refl : Reflexive quiet.
Proof. intros t. constructor; auto. Qed.

#[export] Instance quiet_trans : Transitive quiet.
Proof.
  intros a b c [] []. constructor; try congruence.
  - destruct q_state0 as [|[]], q_state1 as [|[]]; [left; congruence|right; split; congruence|right; split; congruence|right; split; congruence].
  - intros Hz Hs. assert (b = a) as -> by auto. auto.
Qed.

Record quietly (st st' : state) : Prop := {
  ql_order : order st' = order st;
  ql_tasks p : option_Forall2 quiet (tasks st !! p) (tasks st' !! p) }.

#[export] Instance quietly_refl : Reflexive quietly.
Proof. intros st. constructor; [done|]. intros p. apply option_Forall2_refl. intros t. reflexivity. Qed.

#[export] Instance quietly_trans : Transitive quietly.
Proof.
  intros a b c [Ho1 H1] [Ho2 H2]. constructor; [congruence|]. intros p.
  specialize (H1 p); specialize (H2 p). destruct H1; inversion H2; simplify_eq; constructor. by etrans.
Qed.

Lemma quietly_set st st' p t t' :
  tasks st !! p = Some t -> quiet t t' -> tasks st' = tasks st -> order st' = order st -> quietly st (set_task st' p t').
Proof.
  intros Ht Hq Htt Ho. constructor; [done|]. intros q. cbn. rewrite Htt.
  destruct (decide (q = p)) as [->|]; [rewrite lookup_insert_eq, Ht; by constructor|].
  rewrite lookup_insert_ne by done. apply option_Forall2_refl. intros u. reflexivity.
Qed.

Lemma quiet_alive t t' :
  pgrp t' = pgrp t -> session t' = session t -> leader t' = leader t -> p_pptr t' = p_pptr t -> ptraced t' = ptraced t ->
  sigh t' = sigh t -> sigh t <> None -> tstate t' = tstate t \/ (tstate t' = TASK_RUNNING /\ tstate t <> TASK_ZOMBIE) -> quiet t t'.
Proof. intros. constructor; try done. Qed.

Lemma quiet_notified st st' p t t' :
  tasks st !! p = Some t -> quiet t t' -> tasks st' = tasks st -> order st' = order st -> sigh t <> None -> quietly st (notify_task st' p t').
Proof.
  intros Ht Hq Htt Ho Hs. unfold notify_task. eapply quietly_set; eauto. case_ifs; [|done].
  etrans; [exact Hq|]. apply quiet_alive; try done; [by rewrite (q_sigh _ _ Hq)|].
  right. split; [done|]. unfold TASK_ZOMBIE, TASK_INTERRUPTIBLE in *. lia.
Qed.

Lemma stop_or_continue_quiet sig t : sigh t <> None -> quiet t (stop_or_continue sig t).
Proof.
  intros Hs. unfold stop_or_continue. case_ifs; try (apply quiet_alive; by auto).
  apply quiet_alive; try done. right. split; [done|]. unfold TASK_ZOMBIE, TASK_STOPPED in *. lia.
Qed.

Lemma mark_quiet t q ok sig : sigh t <> None -> quiet t (mark_pending (with_queue t q ok) sig).
Proof. intros. apply quiet_alive; auto. Qed.

Lemma mark_only_quiet t sig : sigh t <> None -> quiet t (mark_pending t sig).
Proof. intros. apply quiet_alive; auto. Qed.

Lemma send_quiet st cur admin sig info p alloc r st' :
  send_sig_info st cur admin sig info p alloc = Some (r, st') -> quietly st st'.
Proof.
  unfold send_sig_info. destruct (tasks st !! cur) as [c|]; [|by intros [= <- <-]].
  destruct (tasks st !! p) as [t|] eqn:Ht; [|by intros [= <- <-]].
  case_match; [by intros [= <- <-]|]. case_match; [by intros [= <- <-]|]. destruct ((sig =? 0) || (if sigh t is None then true else false)) eqn:Hs; [by intros [= <- <-]|].
  apply orb_false_iff in Hs as [_ Hs]. assert (sigh t <> None) as Hh by (by destruct (sigh t)).
  pose proof (stop_or_continue_quiet sig t Hh) as Hq.
  assert (sigh (stop_or_continue sig t) <> None) as Hh' by (by rewrite (q_sigh _ _ Hq)).
  cbv zeta. destruct (ignored_signal _ _ _); [intros [= <- <-]; by eapply quiet_notified|].
  destruct (sig <? SIGRTMIN).
  { intros [= <- <-]. eapply quiet_notified; eauto. destruct (sigismember _ _); [done|]. etrans; [exact Hq|by apply mark_only_quiet]. }
  destruct (_ && alloc).
  - intros [= <- <-]. eapply quiet_notified; eauto. etrans; [exact Hq|].
    destruct (tail_ok (stop_or_continue sig t)); [by apply mark_quiet|by apply mark_only_quiet].
  - destruct info as [| |i]; try done. destruct (si_code i <? 0); intros [= <- <-]; eapply quiet_notified; eauto.
    etrans; [exact Hq|by apply mark_only_quiet].
Qed.

Lemma send_each_quiet l st q cur admin sig info alloc retval n r m st' :
  send_each st l q cur admin sig info alloc retval n = Some (r, m, st') -> quietly st st'.
Proof.
  revert st retval n. induction l as [|p l IH]; intros st retval n; cbn; [by intros [= <- <- <-]|].
  destruct (tasks st !! p) as [t|]; [|apply IH]. destruct (q p t); [|apply IH].
  destruct (send_sig_info _ _ _ _ _ _ _) as [[err st1]|] eqn:Hs; [|done]. cbn. apply send_quiet in Hs.
  case_match; intros ?%IH; by etrans.
Qed.

Lemma kill_pg_quiet st cur admin pg sig priv alloc r st' : kill_pg st cur admin pg sig priv alloc = Some (r, st') -> quietly st st'.
Proof.
  unfold kill_pg, kill_pg_info, kill_each. case_match; [|by intros [= <- <-]].
  destruct (send_each _ _ _ _ _ _ _ _ _ _) as [[[retval n] st1]|] eqn:Hs; [|done]. cbn. intros [= <- <-]. by eapply send_each_quiet.
Qed.

(** The same for the whole state. *)
Record xquiet (x x' : xstate) : Prop := {
  xq_sg : quietly (sg x) (sg x'); xq_kins : kins x' = kins x; xq_waiting : waiting x' = waiting x }.

#[export] Instance xquiet_refl : Reflexive xquiet.
Proof. intros x. by constructor. Qed.

#[export] Instance xquiet_trans : Transitive xquiet.
Proof. intros a b c [] []. constructor; [by etrans|congruence|congruence]. Qed.

Lemma xquiet_sg x st : quietly (sg x) st -> xquiet x (with_sg x st).
Proof. by constructor. Qed.

Lemma xquiet_wake x p : xquiet x (wake_waiter x p).
Proof.
  unfold wake_waiter, upd_task. case_match; [|reflexivity]. destruct (tasks (sg x) !! p) as [t|] eqn:Ht; [|reflexivity].
  apply xquiet_sg. eapply quietly_set; eauto. case_match eqn:Hi; [|reflexivity]. apply Z.eqb_eq in Hi.
  constructor; try done; [right; split; [done|]|]; rewrite Hi; [done|]. intros ?. done.
Qed.

Lemma xquiet_hangup cur admin alloc x pg x' : hangup_group cur admin alloc x pg = Some x' -> xquiet x x'.
Proof.
  unfold hangup_group. destruct (kill_pg _ _ _ _ _ _ _) as [[r st]|] eqn:H1; [|done]. cbn.
  destruct (kill_pg st _ _ _ _ _ _) as [[r' st']|] eqn:H2; [|done]. cbn. intros [= <-].
  apply xquiet_sg. etrans; by eapply kill_pg_quiet.
Qed.

Lemma xquiet_notify cur admin garbage alloc x p sig x' : Exit.notify_parent cur admin garbage alloc x p sig = Some x' -> xquiet x x'.
Proof.
  unfold Exit.notify_parent. destruct (Signal.notify_parent _ _ _ _ _ _ _) as [[r st]|] eqn:H1; [|done]. cbn. intros [= <-].
  etrans; [|apply xquiet_wake]. apply xquiet_sg. unfold Signal.notify_parent in H1.
  destruct (tasks (sg x) !! p); [by eapply send_quiet|by simplify_eq].
Qed.

(** ** Lists of siblings *)

Definition head_or (l : list Z) (d : option Z) : option Z := match l with [] => d | a :: _ => Some a end.

Definition last_or (l : list Z) (d : option Z) : option Z := match last l with Some a => Some a | None => d end.

(** The processes of [l], from the youngest to the oldest, are linked both ways; the
    links at the ends are [prev] and [next]. *)
Fixpoint siblings (ks : gmap Z kin) (prev : option Z) (l : list Z) (next : option Z) : Prop :=
  match l with
  | [] => True
  | a :: l => (exists k, ks !! a = Some k /\ p_ysptr k = prev /\ p_osptr k = head_or l next) /\ siblings ks (Some a) l next
  end.

Lemma siblings_app ks prev l1 l2 next :
  siblings ks prev (l1 ++ l2) next <-> siblings ks prev l1 (head_or l2 next) /\ siblings ks (last_or l1 prev) l2 next.
Proof.
  revert prev. induction l1 as [|a l1 IH]; intros prev; cbn [siblings app]; [unfold last_or; cbn; tauto|].
  rewrite IH. assert (head_or (l1 ++ l2) next = head_or l1 (head_or l2 next)) as -> by (by destruct l1).
  assert (last_or (a :: l1) prev = last_or l1 (Some a)) as ->.
  { unfold last_or. rewrite last_cons. by destruct (last l1). }
  tauto.
Qed.

Lemma siblings_frame ks ks' prev l next :
  (forall a k, a ∈ l -> ks !! a = Some k -> exists k', ks' !! a = Some k' /\ p_ysptr k' = p_ysptr k /\ p_osptr k' = p_osptr k) ->
  siblings ks prev l next -> siblings ks' prev l next.
Proof.
  revert prev. induction l as [|a l IH]; intros prev Hf; cbn; [done|]. intros [(k & Hk & Hy & Ho) Hl].
  destruct (Hf a k) as (k' & Hk' & Hy' & Ho'); [by left|done|]. split; [exists k'; repeat split; congruence|].
  apply IH; [|done]. intros b kb Hb. apply Hf. by right.
Qed.

Lemma siblings_alter_other ks f q prev l next : q ∉ l -> siblings ks prev l next -> siblings (alter f q ks) prev l next.
Proof.
  intros Hq. apply siblings_frame. intros a k Ha Hk. exists k. rewrite lookup_alter_ne; [done|]. by intros ->.
Qed.

(** A change of a process that keeps its place among its siblings. *)
Definition keeps_place (f : kin -> kin) : Prop := forall k, p_ysptr (f k) = p_ysptr k /\ p_osptr (f k) = p_osptr k.

Lemma siblings_alter ks f q prev l next : keeps_place f -> siblings ks prev l next -> siblings (alter f q ks) prev l next.
Proof.
  intros Hf. apply siblings_frame. intros a k Ha Hk. destruct (decide (a = q)) as [->|].
  - exists (f k). rewrite lookup_alter_eq, Hk. by destruct (Hf k).
  - exists k. by rewrite lookup_alter_ne.
Qed.

Lemma siblings_set_ys ks o prev l next v : o ∉ l ->
  siblings ks prev (o :: l) next -> siblings (alter (set_ysptr v) o ks) v (o :: l) next.
Proof.
  intros Ho. cbn. intros [(k & Hk & Hy & Hn) Hl]. split; [|by apply siblings_alter_other].
  exists (set_ysptr v k). by rewrite lookup_alter_eq, Hk.
Qed.

Lemma siblings_set_os ks y prev l next v : y ∉ l ->
  siblings ks prev (l ++ [y]) next -> siblings (alter (set_osptr v) y ks) prev (l ++ [y]) v.
Proof.
  intros Hy. rewrite !siblings_app. intros [Hl [(k & Hk & Hys & Hn) _]]. split; [by apply siblings_alter_other|].
  split; [|done]. exists (set_osptr v k). by rewrite lookup_alter_eq, Hk.
Qed.

(** ** The lists of children

    [ch p] are the children of [p], the youngest first.  While [exit_notify] takes the
    list of [lax] apart, the youngest of the rest may still point to one that has left. *)

Record chains (ks : gmap Z kin) (ch : Z -> list Z) (lax : option Z) : Prop := {
  cn_first p k : ks !! p = Some k -> p_cptr k = head (ch p);
  cn_linked p : exists prev, siblings ks prev (ch p) None /\ (Some p <> lax -> prev = None);
  cn_nodup p : NoDup (ch p);
  cn_one p q c : c ∈ ch p -> c ∈ ch q -> p = q }.

Lemma head_head_or l : head_or l None = head l.
Proof. by destruct l. Qed.

Lemma chains_alter ks ch lax f q :
  keeps_place f -> (forall k, p_cptr (f k) = p_cptr k) -> chains ks ch lax -> chains (alter f q ks) ch lax.
Proof.
  intros Hf Hc [H1 H2 H3 H4]. constructor; [| |done|done].
  - intros p k. destruct (decide (p = q)) as [->|]; [rewrite lookup_alter_eq|rewrite lookup_alter_ne by done; apply H1].
    destruct (ks !! q) as [k0|] eqn:Hk; [|done]. cbn. intros [= <-]. rewrite Hc. by apply H1.
  - intros p. destruct (H2 p) as (prev & Hs & Hp). exists prev. split; [by apply siblings_alter|done].
Qed.

Lemma first_alter (ks : gmap Z kin) f q p k c : (forall k, p_cptr (f k) = p_cptr k) ->
  (forall k, ks !! p = Some k -> p_cptr k = c) -> alter f q ks !! p = Some k -> p_cptr k = c.
Proof.
  intros Hf H. destruct (decide (p = q)) as [->|]; [rewrite lookup_alter_eq|rewrite lookup_alter_ne by done; apply H].
  destruct (ks !! q) as [k0|]; [|done]. cbn. intros [= <-]. rewrite Hf. by apply H.
Qed.

Lemma first_set (ks : gmap Z kin) q p k v (ch : Z -> list Z) l : (forall p k, ks !! p = Some k -> p_cptr k = head (ch p)) ->
  v = head l -> alter (set_cptr v) q ks !! p = Some k -> p_cptr k = head (<[q := l]> ch p).
Proof.
  intros H ->. destruct (decide (p = q)) as [->|].
  - rewrite lookup_alter_eq, fn_lookup_insert. destruct (ks !! q); [|done]. by intros [= <-].
  - rewrite lookup_alter_ne, fn_lookup_insert_ne by done. apply H.
Qed.

(** The effects of the links on the table. *)
Definition unlink_kins (ks : gmap Z kin) (p q : Z) (k : kin) : gmap Z kin :=
  let ks := match p_osptr k with Some o => alter (set_ysptr (p_ysptr k)) o ks | None => ks end in
  match p_ysptr k with Some y => alter (set_osptr (p_osptr k)) y ks | None => alter (set_cptr (p_osptr k)) q ks end.

Definition link_kins (ks : gmap Z kin) (p q : Z) : gmap Z kin :=
  let c := k ← ks !! q; p_cptr k in
  let ks := alter (fun k => set_osptr c (set_ysptr None k)) p ks in
  let ks := match c with Some o => alter (set_ysptr (Some p)) o ks | None => ks end in
  alter (set_cptr (Some p)) q ks.

Lemma keeps_cptr v : keeps_place (set_cptr v).
Proof. by intros k. Qed.

Lemma siblings_place ks prev l1 p l2 next k : siblings ks prev (l1 ++ p :: l2) next -> ks !! p = Some k ->
  p_ysptr k = last_or l1 prev /\ p_osptr k = head_or l2 next.
Proof. rewrite siblings_app. intros [_ [(k' & Hk' & Hy & Ho) _]] Hk. by simplify_eq. Qed.

Lemma siblings_cut ks p q k l1 l2 : NoDup (l1 ++ p :: l2) -> ks !! p = Some k ->
  siblings ks None (l1 ++ p :: l2) None -> siblings (unlink_kins ks p q k) None (l1 ++ l2) None.
Proof.
  intros Hnd Hk Hs. destruct (siblings_place _ _ _ _ _ _ _ Hs Hk) as [Hy Ho]. unfold unlink_kins. rewrite Hy, Ho.
  apply siblings_app in Hs as [H1 [_ H2]]. apply NoDup_app in Hnd as (Hn1 & Hdis & Hn2).
  apply NoDup_cons in Hn2 as [Hp2 Hn2]. apply siblings_app.
  assert (siblings (match head_or l2 None with Some o => alter (set_ysptr (last_or l1 None)) o ks | None => ks end) (last_or l1 None) l2 None /\
          siblings (match head_or l2 None with Some o => alter (set_ysptr (last_or l1 None)) o ks | None => ks end) None l1 (Some p)) as [Ha Hb].
  { destruct l2 as [|o l2]; [done|]. cbn [head_or]. apply NoDup_cons in Hn2 as [Ho2 Hn2]. split.
    - eapply siblings_set_ys; [done|exact H2].
    - apply siblings_alter_other; [|exact H1]. intros Hin. apply (Hdis o Hin). right. by left. }
  revert Ha Hb. generalize (match head_or l2 None with Some o => alter (set_ysptr (last_or l1 None)) o ks | None => ks end). intros ks' Ha Hb.
  destruct l1 as [|y l1 _] using rev_ind; [cbn; split; [done|]; apply siblings_alter; [apply keeps_cptr|exact Ha]|].
  unfold last_or in *. rewrite last_snoc in *. apply NoDup_app in Hn1 as (_ & Hy1 & _). split.
  - eapply siblings_set_os; [|exact Hb]. intros Hin. apply (Hy1 y Hin). by left.
  - apply siblings_alter_other; [|exact Ha]. intros Hin. apply (Hdis y); [apply elem_of_app; right; by left|by right].
Qed.

Lemma siblings_unlink_other ks p q k prev l next :
  (forall o, p_osptr k = Some o -> o ∉ l) -> (forall y, p_ysptr k = Some y -> y ∉ l) ->
  siblings ks prev l next -> siblings (unlink_kins ks p q k) prev l next.
Proof.
  intros Ho Hy Hs. unfold unlink_kins.
  assert (siblings (match p_osptr k with Some o => alter (set_ysptr (p_ysptr k)) o ks | None => ks end) prev l next) as Hs'.
  { destruct (p_osptr k) as [o|]; [|done]. apply siblings_alter_other; [by apply Ho|done]. }
  destruct (p_ysptr k) as [y|]; [apply siblings_alter_other; [by apply Hy|done]|]. apply siblings_alter; [apply keeps_cptr|done].
Qed.

Lemma chains_unlink ks ch p q k l1 l2 :
  chains ks ch None -> ks !! p = Some k -> ch q = l1 ++ p :: l2 -> chains (unlink_kins ks p q k) (<[q := l1 ++ l2]> ch) None.
Proof.
  intros [H1 H2 H3 H4] Hk Hq. destruct (H2 q) as (prev & Hs & Hprev). rewrite Hprev in Hs by done. rewrite Hq in Hs.
  pose proof (H3 q) as Hnd. rewrite Hq in Hnd. destruct (siblings_place _ _ _ _ _ _ _ Hs Hk) as [Hy Ho].
  assert (forall r c, c ∈ <[q := l1 ++ l2]> ch r -> c ∈ ch r) as Hsub.
  { intros r c. destruct (decide (r = q)) as [->|]; [rewrite fn_lookup_insert, Hq|by rewrite fn_lookup_insert_ne].
    rewrite !elem_of_app, elem_of_cons. tauto. }
  constructor.
  - intros r kr. unfold unlink_kins. rewrite Hy, Ho. destruct l1 as [|y l1 _] using rev_ind.
    + cbn [last_or last app]. apply first_set; [|apply head_head_or]. destruct l2 as [|o l2]; [exact H1|]. cbn [head_or].
      intros r' k'. apply first_alter; [done|]. intros k0. apply H1.
    + unfold last_or. rewrite last_snoc. apply first_alter; [done|]. intros k0 Hk0.
      assert (p_cptr k0 = head (ch r)) as ->.
      { destruct l2 as [|o l2]; [by apply H1|]. revert Hk0. apply first_alter; [done|]. intros k1. apply H1. }
      destruct (decide (r = q)) as [->|]; [rewrite fn_lookup_insert, Hq|by rewrite fn_lookup_insert_ne]. by destruct l1.
  - intros r. exists None. split; [|done]. destruct (decide (r = q)) as [->|].
    + rewrite fn_lookup_insert. by apply siblings_cut.
    + rewrite fn_lookup_insert_ne by done. destruct (H2 r) as (pr & Hr & Hpr). rewrite Hpr in Hr by done.
      apply siblings_unlink_other; [| |exact Hr].
      * intros o Ho' Hin. rewrite Ho in Ho'. destruct l2 as [|o2 l2]; [done|]. cbn in Ho'. simplify_eq.
        apply n. apply (H4 r q o Hin). rewrite Hq. apply elem_of_app. right. right. by left.
      * intros y Hy' Hin. rewrite Hy in Hy'. destruct l1 as [|y' l1 _] using rev_ind; [done|].
        unfold last_or in Hy'. rewrite last_snoc in Hy'. simplify_eq.
        apply n. apply (H4 r q y Hin). rewrite Hq. apply elem_of_app. left. apply elem_of_app. right. by left.
  - intros r. destruct (decide (r = q)) as [->|]; [rewrite fn_lookup_insert|rewrite fn_lookup_insert_ne by done; apply H3].
    apply NoDup_app in Hnd as (? & Hd & [_ ?]%NoDup_cons). apply NoDup_app. split_and!; try done.
    intros c Hc Hc'. apply (Hd c Hc). by right.
  - intros r r' c Hc Hc'. eauto.
Qed.

Lemma chains_link ks ch lax p q k kq :
  chains ks ch lax -> ks !! p = Some k -> ks !! q = Some kq -> (forall r, p ∉ ch r) -> Some q <> lax ->
  chains (link_kins ks p q) (<[q := p :: ch q]> ch) lax.
Proof.
  intros [H1 H2 H3 H4] Hk Hq Hp Hlax. unfold link_kins. rewrite Hq. cbn. rewrite (H1 q kq Hq).
  set (ks1 := alter _ p ks).
  assert (forall r kr, ks1 !! r = Some kr -> p_cptr kr = head (ch r)) as Hf1.
  { intros r kr. apply first_alter; [done|]. intros k0. apply H1. }
  assert (forall prev r, siblings ks prev (ch r) None -> siblings ks1 prev (ch r) None) as Hs1.
  { intros prev r. apply siblings_alter_other. apply Hp. }
  assert (exists k1, ks1 !! p = Some k1 /\ p_ysptr k1 = None /\ p_osptr k1 = head (ch q)) as (k1 & Hk1 & Hy1 & Ho1).
  { eexists. unfold ks1. rewrite lookup_alter_eq, Hk. by split. }
  destruct (H2 q) as (prev & Hsq & Hprev). rewrite (Hprev Hlax) in Hsq. apply Hs1 in Hsq.
  set (ks2 := match head (ch q) with Some o => alter (set_ysptr (Some p)) o ks1 | None => ks1 end).
  assert (siblings ks2 (Some p) (ch q) None) as Hsq2.
  { unfold ks2. pose proof (H3 q) as Hnd. destruct (ch q) as [|o l]; [done|]. apply NoDup_cons in Hnd as [Ho _].
    cbn [head]. eapply siblings_set_ys; [done|exact Hsq]. }
  assert (ks2 !! p = Some k1) as Hk2.
  { unfold ks2. destruct (head (ch q)) as [o|] eqn:Ho; [|done]. rewrite lookup_alter_ne; [done|]. intros <-.
    apply (Hp q). apply head_Some in Ho as [l ->]. by left. }
  assert (forall r prev, r <> q -> siblings ks1 prev (ch r) None -> siblings ks2 prev (ch r) None) as Hs2.
  { intros r pr Hne Hr. unfold ks2. destruct (head (ch q)) as [o|] eqn:Ho; [|done]. apply siblings_alter_other; [|done].
    intros Hin. apply Hne, (H4 r q o Hin). apply head_Some in Ho as [l ->]. by left. }
  constructor.
  - intros r kr. apply first_set; [|done]. intros r' k'. unfold ks2. destruct (head (ch q)); [|apply Hf1].
    apply first_alter; [done|]. intros k0. apply Hf1.
  - intros r. destruct (decide (r = q)) as [->|].
    + exists None. rewrite fn_lookup_insert. split; [|done]. apply siblings_alter; [apply keeps_cptr|].
      cbn. split; [|done]. exists k1. by rewrite head_head_or.
    + rewrite fn_lookup_insert_ne by done. destruct (H2 r) as (pr & Hr & Hpr). exists pr. split; [|done].
      apply siblings_alter; [apply keeps_cptr|]. auto.
  - intros r. destruct (decide (r = q)) as [->|]; [rewrite fn_lookup_insert|rewrite fn_lookup_insert_ne by done; apply H3].
    apply NoDup_cons. split; [apply Hp|apply H3].
  - intros r r' c. destruct (decide (r = q)) as [->|], (decide (r' = q)) as [->|];
      rewrite ?fn_lookup_insert, ?fn_lookup_insert_ne by done; rewrite ?elem_of_cons; [done| | |apply H4].
    + intros [->|Hc] Hc'; [by apply Hp in Hc'|eauto].
    + intros Hc [->|Hc']; [by apply Hp in Hc|eauto].
Qed.

Lemma chains_pop ks ch lax c p k l :
  chains ks ch lax -> (lax = None \/ lax = Some c) -> ks !! p = Some k -> ch c = p :: l ->
  chains (alter (set_cptr (p_osptr k)) c ks) (<[c := l]> ch) (Some c).
Proof.
  intros [H1 H2 H3 H4] Hlax Hk Hc. destruct (H2 c) as (prev & Hs & _). rewrite Hc in Hs.
  destruct Hs as [(k' & Hk' & _ & Ho) Hl]. simplify_eq. rewrite Ho, head_head_or. constructor.
  - intros r kr. apply first_set; done.
  - intros r. destruct (decide (r = c)) as [->|].
    + exists (Some p). rewrite fn_lookup_insert. split; [|done]. apply siblings_alter; [apply keeps_cptr|done].
    + rewrite fn_lookup_insert_ne by done. destruct (H2 r) as (pr & Hr & Hpr). exists pr. split; [|intros _; apply Hpr].
      * apply siblings_alter; [apply keeps_cptr|done].
      * destruct Hlax as [->| ->]; [done|]. by intros [= <-].
  - intros r. destruct (decide (r = c)) as [->|]; [rewrite fn_lookup_insert|rewrite fn_lookup_insert_ne by done; apply H3].
    pose proof (H3 c) as Hn. rewrite Hc in Hn. by apply NoDup_cons in Hn as [_ ?].
  - assert (forall r a, a ∈ <[c := l]> ch r -> a ∈ ch r) as Hsub; [|intros; eauto].
    intros r a. destruct (decide (r = c)) as [->|]; [rewrite fn_lookup_insert, Hc; by right|by rewrite fn_lookup_insert_ne].
Qed.

Lemma chains_close ks ch c : chains ks ch (Some c) -> ch c = [] -> chains ks ch None.
Proof.
  intros [H1 H2 H3 H4] Hc. constructor; try done. intros r. destruct (decide (r = c)) as [->|].
  - exists None. by rewrite Hc.
  - destruct (H2 r) as (pr & Hr & Hpr). exists pr. split; [done|]. intros _. apply Hpr. congruence.
Qed.

(** ** The family *)

Record family (x : xstate) (ch : Z -> list Z) (lax : option Z) : Prop := {
  fm_chains : chains (kins x) ch lax;
  fm_dom p : is_Some (kins x !! p) <-> is_Some (tasks (sg x) !! p);
  fm_ring p : p ∈ order (sg x) <-> p <> 0 /\ is_Some (tasks (sg x) !! p);
  fm_once : NoDup (order (sg x));
  fm_child p c : c ∈ ch p <-> c ∈ order (sg x) /\ pptr x c = p }.

Lemma unlink_family_eq x p k : kins x !! p = Some k ->
  unlink_family x p = XState (sg x) (unlink_kins (kins x) p (pptr x p) k) (waiting x).
Proof. intros Hk. unfold unlink_family, unlink_kins. rewrite Hk. destruct (p_osptr k), (p_ysptr k); done. Qed.

Lemma link_family_eq x p : link_family x p = XState (sg x) (link_kins (kins x) p (pptr x p)) (waiting x).
Proof. unfold link_family, link_kins, cptr. destruct (k ← kins x !! pptr x p; p_cptr k); done. Qed.

Lemma unlink_kins_dom ks p q k r : is_Some (unlink_kins ks p q k !! r) <-> is_Some (ks !! r).
Proof. unfold unlink_kins. destruct (p_osptr k), (p_ysptr k); by rewrite ?lookup_alter_is_Some. Qed.

Lemma link_kins_dom ks p q r : is_Some (link_kins ks p q !! r) <-> is_Some (ks !! r).
Proof. unfold link_kins. destruct (k ← ks !! q; p_cptr k); by rewrite ?lookup_alter_is_Some. Qed.

Lemma pptr_quiet x x' p : quietly (sg x) (sg x') -> pptr x' p = pptr x p.
Proof. intros [_ H]. unfold pptr. destruct (H p) as [t t' Hq|]; [apply Hq|done]. Qed.

Lemma is_some_quiet st st' p : quietly st st' -> is_Some (tasks st' !! p) <-> is_Some (tasks st !! p).
Proof. intros [_ H]. destruct (H p); [by split; eexists|done]. Qed.

Lemma family_quiet x x' ch lax : xquiet x x' -> family x ch lax -> family x' ch lax.
Proof.
  intros [Hs Hk _] [H1 H2 H3 H4 H5]. pose proof (ql_order _ _ Hs) as Ho. constructor.
  - by rewrite Hk.
  - intros p. by rewrite Hk, (is_some_quiet _ _ p Hs).
  - intros p. by rewrite Ho, (is_some_quiet _ _ p Hs).
  - by rewrite Ho.
  - intros p c. by rewrite Ho, (pptr_quiet x x').
Qed.

Lemma family_upd x ch lax f q :
  keeps_place f -> (forall k, p_cptr (f k) = p_cptr k) -> family x ch lax -> family (upd q f x) ch lax.
Proof.
  intros Hf Hc [H1 H2 H3 H4 H5]. constructor; try done; [by apply chains_alter|].
  intros p. cbn. rewrite lookup_alter_is_Some. apply H2.
Qed.

(** A change of tasks that keeps the table, the ring and the parents. *)
Lemma family_tasks x ch lax st :
  order st = order (sg x) -> (forall p, is_Some (tasks st !! p) <-> is_Some (tasks (sg x) !! p)) ->
  (forall p, pptr (with_sg x st) p = pptr x p) -> family x ch lax -> family (with_sg x st) ch lax.
Proof.
  intros Ho Hd Hp [H1 H2 H3 H4 H5]. constructor; cbn; rewrite ?Ho; try done.
  - intros p. by rewrite Hd.
  - intros p. by rewrite Hd.
  - intros p c. by rewrite Hp.
Qed.

Lemma family_upd_task x ch lax q f : (forall t, p_pptr (f t) = p_pptr t) -> family x ch lax -> family (upd_task q f x) ch lax.
Proof.
  intros Hf Hx. unfold upd_task. destruct (tasks (sg x) !! q) as [t|] eqn:Ht; [|done].
  apply family_tasks; [done| | |done].
  - intros p. cbn. destruct (decide (p = q)) as [->|]; [rewrite lookup_insert_eq, Ht; by split; eexists|by rewrite lookup_insert_ne].
  - intros p. unfold pptr. cbn. destruct (decide (p = q)) as [->|]; [by rewrite lookup_insert_eq, Ht, Hf|by rewrite lookup_insert_ne].
Qed.

Lemma family_waiting x ch lax w : family x ch lax -> family (with_waiting x w) ch lax.
Proof. by intros [H1 H2 H3 H4 H5]. Qed.

(** The children of each process after [p] has gone from [r] to [q]. *)
Definition moved (ch : Z -> list Z) (r p q : Z) : Z -> list Z :=
  let ch := <[r := filter (fun a => a <> p) (ch r)]> ch in <[q := p :: ch q]> ch.

Lemma filter_ne_split (p : Z) l1 l2 : NoDup (l1 ++ p :: l2) -> filter (fun a => a <> p) (l1 ++ p :: l2) = l1 ++ l2.
Proof.
  intros (H1 & Hd & [Hp H2]%NoDup_cons)%NoDup_app. rewrite filter_app, filter_cons_False by tauto.
  f_equal; apply filter_absent; [|done]. intros Ha. apply (Hd p Ha). by left.
Qed.

Lemma chains_remove ks ch p q k :
  chains ks ch None -> ks !! p = Some k -> p ∈ ch q ->
  chains (unlink_kins ks p q k) (<[q := filter (fun a => a <> p) (ch q)]> ch) None.
Proof.
  intros H Hk Hp. apply list_elem_of_split in Hp as (l1 & l2 & Hq). pose proof (cn_nodup _ _ _ H q) as Hn. rewrite Hq in *.
  rewrite filter_ne_split by done. by apply chains_unlink.
Qed.

Lemma removed_child (ch : Z -> list Z) r p c s : c ∈ <[r := filter (fun a => a <> p) (ch r)]> ch s -> c ∈ ch s /\ (s = r -> c <> p).
Proof.
  destruct (decide (s = r)) as [->|]; [rewrite fn_lookup_insert, list_elem_of_filter; tauto|].
  rewrite fn_lookup_insert_ne by done. tauto.
Qed.

Lemma removed_gone ch r p lax ks s : chains ks ch lax -> p ∈ ch r -> p ∉ <[r := filter (fun a => a <> p) (ch r)]> ch s.
Proof.
  intros H Hp [Hc Hs]%removed_child. apply Hs; [|done]. by apply (cn_one _ _ _ H s r p).
Qed.

Lemma moved_child ch r p q s c lax ks : chains ks ch lax -> p ∈ ch r ->
  c ∈ moved ch r p q s <-> (c = p /\ s = q) \/ (c <> p /\ c ∈ ch s).
Proof.
  intros H Hp. unfold moved. set (ch1 := <[r := _]> ch).
  assert (forall s, c ∈ ch1 s <-> c <> p /\ c ∈ ch s) as Hc1.
  { intros s'. unfold ch1. destruct (decide (s' = r)) as [->|].
    - rewrite fn_lookup_insert, list_elem_of_filter. tauto.
    - rewrite fn_lookup_insert_ne by done. split; [|tauto]. intros Hc. split; [|done]. intros ->.
      apply n. by apply (cn_one _ _ _ H s' r p). }
  destruct (decide (s = q)) as [->|].
  - rewrite fn_lookup_insert, elem_of_cons, Hc1. tauto.
  - rewrite fn_lookup_insert_ne, Hc1 by done. tauto.
Qed.

(** The state after [p] has been moved to another parent with the macros. *)
Definition relinked (x : xstate) (p : Z) (f : task -> task) : xstate := set_links (upd_task p f (remove_links x p)) p.

Lemma relinked_eq x p f t k : tasks (sg x) !! p = Some t -> kins x !! p = Some k ->
  relinked x p f = XState (set_order (set_task (sg x) p (f t)) (filter (fun a => a <> p) (order (sg x)) ++ [p]))
                     (link_kins (unlink_kins (kins x) p (p_pptr t) k) p (p_pptr (f t))) (waiting x).
Proof.
  intros Ht Hk. unfold relinked, remove_links, set_links. rewrite (unlink_family_eq _ p k) by done.
  unfold upd_task. cbn. rewrite Ht, link_family_eq. unfold pptr. cbn. by rewrite lookup_insert_eq, Ht.
Qed.

Lemma family_moved x ch p f t q k kq :
  family x ch None -> tasks (sg x) !! p = Some t -> kins x !! p = Some k -> p <> 0 -> p_pptr (f t) = q -> kins x !! q = Some kq ->
  family (relinked x p f) (moved ch (p_pptr t) p q) None.
Proof.
  intros [H1 H2 H3 H4 H5] Ht Hk Hp Hq Hkq. rewrite (relinked_eq x p f t k) by done.
  assert (p ∈ order (sg x)) as Hin by (apply H3; split; [done|by eexists]).
  assert (p ∈ ch (p_pptr t)) as Hch by (apply H5; split; [done|]; unfold pptr; by rewrite Ht).
  constructor; cbn.
  - rewrite Hq. unfold moved.
    destruct (proj2 (unlink_kins_dom (kins x) p (p_pptr t) k p)) as [k' Hk']; [by eexists|].
    destruct (proj2 (unlink_kins_dom (kins x) p (p_pptr t) k q)) as [kq' Hkq']; [by eexists|].
    eapply chains_link; [by apply chains_remove|exact Hk'|exact Hkq'| |done]. intros s. by eapply removed_gone.
  - intros r. rewrite link_kins_dom, unlink_kins_dom, H2. destruct (decide (r = p)) as [->|].
    + rewrite lookup_insert_eq, Ht. by split; eexists.
    + by rewrite lookup_insert_ne.
  - intros r. rewrite elem_of_app, list_elem_of_filter, list_elem_of_singleton, H3. destruct (decide (r = p)) as [->|].
    + rewrite lookup_insert_eq. split; [intros _; split; [done|by eexists]|tauto].
    + rewrite lookup_insert_ne by done. tauto.
  - apply NoDup_app. split_and!; [by apply NoDup_filter| |apply NoDup_singleton].
    intros a [Ha _]%list_elem_of_filter ->%list_elem_of_singleton. done.
  - intros s c. rewrite (moved_child _ _ _ _ _ _ _ _ H1 Hch). rewrite elem_of_app, list_elem_of_filter, list_elem_of_singleton.
    unfold pptr. cbn. destruct (decide (c = p)) as [->|].
    + rewrite lookup_insert_eq, Hq. intuition congruence.
    + rewrite lookup_insert_ne, H5 by done. unfold pptr. tauto.
Qed.

(** A turn of the loop of [exit_notify]. *)
Definition inherited (x : xstate) (cur p : Z) (k : kin) : xstate :=
  link_family (upd_task p (fun t => with_parent t (p_opptr k) false) (upd cur (set_cptr (p_osptr k)) x)) p.

Lemma inherited_eq x cur p k t : tasks (sg x) !! p = Some t ->
  inherited x cur p k = XState (set_task (sg x) p (with_parent t (p_opptr k) false))
                          (link_kins (alter (set_cptr (p_osptr k)) cur (kins x)) p (p_opptr k)) (waiting x).
Proof.
  intros Ht. unfold inherited, upd_task. cbn. rewrite Ht, link_family_eq. unfold pptr. cbn. by rewrite lookup_insert_eq.
Qed.

Lemma family_inherited x ch lax cur p k kq t l :
  family x ch lax -> (lax = None \/ lax = Some cur) -> ch cur = p :: l -> kins x !! p = Some k -> tasks (sg x) !! p = Some t ->
  kins x !! p_opptr k = Some kq -> p_opptr k <> cur ->
  family (inherited x cur p k) (moved ch cur p (p_opptr k)) (Some cur).
Proof.
  intros [H1 H2 H3 H4 H5] Hlax Hc Hk Ht Hkq Hne. rewrite (inherited_eq x cur p k t) by done.
  assert (p ∈ ch cur) as Hch by (rewrite Hc; by left). destruct (proj1 (H5 cur p) Hch) as [Hin Hpp].
  constructor; cbn; [| | |done|].
  - unfold moved. pose proof (cn_nodup _ _ _ H1 cur) as Hn. rewrite Hc in Hn. rewrite Hc.
    assert (filter (fun a => a <> p) (p :: l) = l) as -> by apply (filter_ne_split p [] l Hn).
    destruct (proj2 (lookup_alter_is_Some (set_cptr (p_osptr k)) (kins x) cur p)) as [k' Hk']; [by eexists|].
    destruct (proj2 (lookup_alter_is_Some (set_cptr (p_osptr k)) (kins x) cur (p_opptr k))) as [kq' Hkq']; [by eexists|].
    eapply chains_link; [by eapply chains_pop|exact Hk'|exact Hkq'| |congruence].
    intros s. destruct (decide (s = cur)) as [->|].
    + rewrite fn_lookup_insert. by apply NoDup_cons in Hn as [? _].
    + rewrite fn_lookup_insert_ne by done. intros Hp. by apply n, (cn_one _ _ _ H1 s cur p).
  - intros r. rewrite link_kins_dom, lookup_alter_is_Some, H2. destruct (decide (r = p)) as [->|].
    + rewrite lookup_insert_eq, Ht. by split; eexists.
    + by rewrite lookup_insert_ne.
  - intros r. rewrite H3. destruct (decide (r = p)) as [->|].
    + rewrite lookup_insert_eq, Ht. split; intros [? _]; split; try done; by eexists.
    + by rewrite lookup_insert_ne.
  - intros s c. rewrite (moved_child _ _ _ _ _ _ _ _ H1 Hch). unfold pptr. cbn. destruct (decide (c = p)) as [->|].
    + rewrite lookup_insert_eq. cbn. intuition congruence.
    + rewrite lookup_insert_ne, H5 by done. unfold pptr. tauto.
Qed.

Lemma chains_delete ks ch lax p : chains ks ch lax -> (forall s, p ∉ ch s) -> chains (delete p ks) ch lax.
Proof.
  intros [H1 H2 H3 H4] Hp. constructor; try done.
  - intros r k [_ Hk]%lookup_delete_Some. by apply H1.
  - intros r. destruct (H2 r) as (prev & Hs & Hpr). exists prev. split; [|done]. revert Hs. apply siblings_frame.
    intros a k Ha Hk. exists k. rewrite lookup_delete_ne; [done|]. intros <-. by apply (Hp r).
Qed.

Lemma release_eq cur x p t k : p <> cur -> tasks (sg x) !! p = Some t -> kins x !! p = Some k ->
  release cur x p = XState (release_task (sg x) p)
    (delete p (alter (fun kc => set_times (add_faults (times k) (times kc)) kc) cur (unlink_kins (kins x) p (p_pptr t) k))) (waiting x).
Proof.
  intros Hne Ht Hk. unfold release. rewrite (proj2 (Z.eqb_neq p cur) Hne), Hk. unfold remove_links. rewrite (unlink_family_eq _ p k) by done.
  unfold pptr. cbn. rewrite Ht. unfold release_task. cbn. f_equal. f_equal.
  apply filter_all, Forall_forall. by intros a [? _]%list_elem_of_filter.
Qed.

Lemma family_release x ch cur p t k : family x ch None -> tasks (sg x) !! p = Some t -> kins x !! p = Some k -> p <> 0 -> p <> cur ->
  family (release cur x p) (<[p_pptr t := filter (fun a => a <> p) (ch (p_pptr t))]> ch) None.
Proof.
  intros [H1 H2 H3 H4 H5] Ht Hk Hp Hne. rewrite (release_eq cur x p t k) by done.
  assert (p ∈ order (sg x)) as Hin by (apply H3; split; [done|by eexists]).
  assert (p ∈ ch (p_pptr t)) as Hch by (apply H5; split; [done|]; unfold pptr; by rewrite Ht).
  constructor; cbn.
  - apply chains_delete; [|intros s; by eapply removed_gone]. apply chains_alter; [done|done|]. by apply chains_remove.
  - intros r. destruct (decide (r = p)) as [->|]; [rewrite !lookup_delete_eq; by split; intros []|].
    rewrite !lookup_delete_ne, lookup_alter_is_Some, unlink_kins_dom by done. apply H2.
  - intros r. rewrite list_elem_of_filter, H3. destruct (decide (r = p)) as [->|].
    + rewrite lookup_delete_eq. split; [tauto|]. by intros [_ []].
    + rewrite lookup_delete_ne by done. tauto.
  - by apply NoDup_filter.
  - intros s c. rewrite list_elem_of_filter. unfold pptr. cbn. split.
    + intros Hc. pose proof Hc as [Hcs _]%removed_child. assert (c <> p) as Hcp.
      { intros ->. by apply (removed_gone _ _ _ _ _ s H1 Hch) in Hc. }
      rewrite lookup_delete_ne by done. apply H5 in Hcs as [? ?]. done.
    + intros [[Hcp Hc] Hs]. rewrite lookup_delete_ne in Hs by done. assert (c ∈ ch s) as Hcs by (apply H5; done).
      destruct (decide (s = p_pptr t)) as [->|]; [rewrite fn_lookup_insert; by apply list_elem_of_filter|by rewrite fn_lookup_insert_ne].
Qed.

Lemma chains_insert ks ch lax p k : chains ks ch lax -> ks !! p = None -> ch p = [] -> p_cptr k = None -> chains (<[p := k]> ks) ch lax.
Proof.
  intros [H1 H2 H3 H4] Hk Hp Hc. constructor; try done.
  - intros r kr. destruct (decide (r = p)) as [->|]; [rewrite lookup_insert_eq|rewrite lookup_insert_ne by done; apply H1].
    intros [= <-]. by rewrite Hp.
  - intros r. destruct (H2 r) as (prev & Hs & Hpr). exists prev. split; [|done]. revert Hs. apply siblings_frame.
    intros a ka _ Ha. exists ka. rewrite lookup_insert_ne; [done|]. intros <-. congruence.
Qed.

Lemma fork_eq cur x child flags t share trace h : tasks (sg x) !! child = None ->
  fork_family cur x child flags t share trace h =
    XState (fork_signals (sg x) cur child t share trace h)
      (link_kins (<[child := Kin cur None None None (Z.land flags CSIGNAL) 0
         (child_usage flags match kins x !! cur with Some k => times k | None => Usage 0 0 0 0 0 0 0 0 0 0 end)]> (kins x)) child cur) (waiting x).
Proof. intros Hc. unfold fork_family. rewrite link_family_eq. unfold pptr. cbn. by rewrite lookup_insert_eq. Qed.

Lemma family_fork x ch cur child flags t share trace h :
  family x ch None -> tasks (sg x) !! child = None -> child <> 0 -> ch child = [] -> tasks (sg x) !! cur = Some t ->
  family (fork_family cur x child flags t share trace h) (<[cur := child :: ch cur]> ch) None.
Proof.
  intros [H1 H2 H3 H4 H5] Hc H0 Hch Ht. rewrite fork_eq by done.
  assert (kins x !! child = None) as Hkc.
  { apply eq_None_not_Some. rewrite H2, Hc. by intros []. }
  assert (child ∉ order (sg x)) as Hnew by (rewrite H3, Hc; by intros [_ []]).
  assert (child <> cur) as Hne by congruence. destruct (proj2 (H2 cur)) as [kc Hkcur]; [by eexists|].
  constructor; cbn.
  - eapply chains_link; [by apply chains_insert|apply lookup_insert_eq|by rewrite lookup_insert_ne| |done].
    intros s Hin. by apply H5 in Hin as [? _].
  - intros r. rewrite link_kins_dom. destruct (decide (r = child)) as [->|]; [rewrite !lookup_insert_eq; by split; eexists|].
    rewrite !lookup_insert_ne by done. apply H2.
  - intros r. rewrite elem_of_app, list_elem_of_singleton, H3. destruct (decide (r = child)) as [->|].
    + rewrite lookup_insert_eq. split; [intros _; split; [done|by eexists]|tauto].
    + rewrite lookup_insert_ne by done. tauto.
  - apply NoDup_app. split_and!; [done| |apply NoDup_singleton]. intros a Ha ->%list_elem_of_singleton. done.
  - intros s c. rewrite elem_of_app, list_elem_of_singleton. unfold pptr. cbn. destruct (decide (c = child)) as [->|].
    + rewrite lookup_insert_eq. cbn. destruct (decide (s = cur)) as [->|].
      * rewrite fn_lookup_insert. split; [tauto|]. intros _. by left.
      * rewrite fn_lookup_insert_ne, H5 by done. intuition congruence.
    + rewrite lookup_insert_ne by done. destruct (decide (s = cur)) as [->|].
      * rewrite fn_lookup_insert, elem_of_cons, H5. unfold pptr. tauto.
      * rewrite fn_lookup_insert_ne, H5 by done. unfold pptr. tauto.
Qed.
