(* ===== verification/ExitInv.v ===== *)
(** * The invariant of the family of processes

    Parents and original parents are alive, the dead have no children, and a process
    that sleeps in [sys_wait4] has no dead child that it waits for. *)

From stdpp Require Import functions.
From S2P Require Import Prelude Signal SignalProof Exit ExitProof.

Lemma f2_some_l {A} (R : relation A) a y : option_Forall2 R (Some a) y -> exists b, y = Some b /\ R a b.
Proof. inversion 1; simplify_eq; eauto. Qed.

Lemma f2_some_r {A} (R : relation A) x b : option_Forall2 R x (Some b) -> exists a, x = Some a /\ R a b.
Proof. inversion 1; simplify_eq; eauto. Qed.

(** ** The invariant *)

Definition alive (x : xstate) (q : Z) : Prop := exists t, tasks (sg x) !! q = Some t /\ tstate t <> TASK_ZOMBIE.

Definition member (x : xstate) (p : Z) (t : task) (k : kin) : Prop :=
  p ∈ order (sg x) /\ tasks (sg x) !! p = Some t /\ kins x !! p = Some k.

(** What a process that waits for [pid] is told of in time: its own children; and others
    that it traces, unless their original parent is init (their exit signal may have
    changed when they got to it) or the call asks for a group (which the original parent
    can change). *)
Definition told (w pid : Z) (k : kin) : Prop := p_opptr k = w \/ (p_opptr k <> child_reaper /\ (pid = -1 \/ 0 < pid)).

Lemma told_same w pid k k' : p_opptr k' = p_opptr k -> told w pid k' -> told w pid k.
Proof. unfold told. by intros ->. Qed.

(** While a process exits, it is [lax]: its children still have it as a parent; its
    parent has not yet been told of the death of [unseen]. *)
Record xinv (x : xstate) (ch : Z -> list Z) (lax unseen : option Z) : Prop := {
  iv_family : family x ch lax;
  iv_dead p t : p ∈ order (sg x) -> tasks (sg x) !! p = Some t -> tstate t = TASK_ZOMBIE <-> sigh t = None;
  iv_parent p t k : member x p t k -> alive x (p_pptr t) \/ Some (p_pptr t) = lax;
  iv_origin p t k : member x p t k -> alive x (p_opptr k) \/ Some (p_opptr k) = lax;
  iv_idle : alive x 0;
  iv_init : alive x child_reaper;
  iv_reaper p t k : member x p t k -> p_pptr t = child_reaper -> p_opptr k = child_reaper;
  iv_waiting w a : waiting x !! w = Some a ->
    w <> 0 /\ exists t, tasks (sg x) !! w = Some t /\ (tstate t = TASK_RUNNING \/ tstate t = TASK_INTERRUPTIBLE);
  iv_seen w pid options g tw c tc kc u : waiting x !! w = Some (pid, options, g) -> (pid = 0 -> pgrp u = g) ->
    tasks (sg x) !! w = Some tw -> tstate tw = TASK_INTERRUPTIBLE ->
    member x c tc kc -> p_pptr tc = w -> told w pid kc -> tstate tc = TASK_ZOMBIE -> Some c <> unseen ->
    eligible u pid options c tc kc = false }.

Lemma eligible_same u pid options c tc tc' kc kc' : pgrp tc' = pgrp tc -> exit_signal kc' = exit_signal kc ->
  eligible u pid options c tc' kc' = eligible u pid options c tc kc.
Proof. intros Hg He. unfold eligible. by rewrite Hg, He. Qed.

Lemma eligible_group u u' pid options c tc kc : (pid = 0 -> pgrp u = pgrp u') -> eligible u pid options c tc kc = eligible u' pid options c tc kc.
Proof. intros Hu. unfold eligible. destruct (Z.eqb_spec pid 0) as [->|]; [by rewrite Hu|done]. Qed.

Lemma quietly_back st st' p t' : quietly st st' -> tasks st' !! p = Some t' -> exists t, tasks st !! p = Some t /\ quiet t t'.
Proof. intros [_ H] Ht. specialize (H p). rewrite Ht in H. by apply f2_some_r in H. Qed.

Lemma quietly_fwd st st' p t : quietly st st' -> tasks st !! p = Some t -> exists t', tasks st' !! p = Some t' /\ quiet t t'.
Proof. intros [_ H] Ht. specialize (H p). rewrite Ht in H. by apply f2_some_l in H. Qed.

Lemma quiet_zombie t t' : quiet t t' -> tstate t' = TASK_ZOMBIE <-> tstate t = TASK_ZOMBIE.
Proof. intros Hq. destruct (q_state _ _ Hq) as [->|[-> ?]]; [done|]. split; [done|tauto]. Qed.

Lemma quiet_asleep t t' : quiet t t' -> tstate t' = TASK_INTERRUPTIBLE -> tstate t = TASK_INTERRUPTIBLE.
Proof. intros Hq. destruct (q_state _ _ Hq) as [->|[-> ?]]; [done|]. done. Qed.

Lemma alive_quiet x x' q : quietly (sg x) (sg x') -> alive x q -> alive x' q.
Proof.
  intros Hq (t & Ht & Hz). destruct (quietly_fwd _ _ q t Hq Ht) as (t' & Ht' & Hqt). exists t'. split; [done|].
  by rewrite (quiet_zombie _ _ Hqt).
Qed.

Lemma member_back x x' p t' k : quietly (sg x) (sg x') -> kins x' = kins x -> member x' p t' k ->
  exists t, member x p t k /\ quiet t t'.
Proof.
  intros Hq Hk (Hin & Ht & Hkk). rewrite (ql_order _ _ Hq) in Hin. rewrite Hk in Hkk.
  destruct (quietly_back _ _ p t' Hq Ht) as (t & Ht0 & Hqt). exists t. split; [split_and!; done|done].
Qed.

(** The part of the invariant that does not concern the tables of siblings; the
    original parents may have changed from the exiting process to init. *)
Lemma xinv_quiet x x' ch lax unseen : xquiet x x' -> xinv x ch lax unseen -> xinv x' ch lax unseen.
Proof.
  intros Hx [H1 H2 H3 H4 H5 H6 H7 H8 H9]. pose proof Hx as [Hq Hk Hw]. constructor.
  - by eapply family_quiet.
  - intros p t' Hin Ht'. rewrite (ql_order _ _ Hq) in Hin. destruct (quietly_back _ _ p t' Hq Ht') as (t & Ht & Hqt).
    rewrite (quiet_zombie _ _ Hqt), (q_sigh _ _ Hqt). by apply (H2 p).
  - intros p t' k Hm. destruct (member_back _ _ _ _ _ Hq Hk Hm) as (t & Hm0 & Hqt). rewrite (q_pptr _ _ Hqt).
    destruct (H3 p t k Hm0); [left; by eapply alive_quiet|by right].
  - intros p t' k Hm. destruct (member_back _ _ _ _ _ Hq Hk Hm) as (t & Hm0 & Hqt).
    destruct (H4 p t k Hm0); [left; by eapply alive_quiet|by right].
  - by eapply alive_quiet.
  - by eapply alive_quiet.
  - intros p t' k Hm. destruct (member_back _ _ _ _ _ Hq Hk Hm) as (t & Hm0 & Hqt). rewrite (q_pptr _ _ Hqt). by apply (H7 p).
  - intros w a Ha. rewrite Hw in Ha. destruct (H8 w a Ha) as (Hw0 & t & Ht & Hst). split; [done|].
    destruct (quietly_fwd _ _ w t Hq Ht) as (t' & Ht' & Hqt). exists t'. split; [done|].
    destruct (q_state _ _ Hqt) as [->|[-> _]]; [done|by left].
  - intros w pid options g tw' c tc' kc u Ha Hpid Htw' Hi Hm Hpp Hop Hz Hun. rewrite Hw in Ha.
    destruct (quietly_back _ _ w tw' Hq Htw') as (tw & Htw & Hqw). destruct (member_back _ _ _ _ _ Hq Hk Hm) as (tc & Hm0 & Hqc).
    rewrite (eligible_same u pid options c tc tc' kc kc); [|apply Hqc|done].
    eapply (H9 w); eauto; [by eapply quiet_asleep|rewrite <- (q_pptr _ _ Hqc); done|by rewrite <- (quiet_zombie _ _ Hqc)].
Qed.

(** A change of one entry that keeps the place, the original parent and the signal. *)
Lemma xinv_upd x ch lax unseen q f :
  keeps_place f -> (forall k, p_cptr (f k) = p_cptr k /\ p_opptr (f k) = p_opptr k /\ exit_signal (f k) = exit_signal k) ->
  xinv x ch lax unseen -> xinv (upd q f x) ch lax unseen.
Proof.
  intros Hp Hf [H1 H2 H3 H4 H5 H6 H7 H8 H9].
  assert (forall p t k', member (upd q f x) p t k' -> exists k, member x p t k /\ p_opptr k' = p_opptr k /\ exit_signal k' = exit_signal k) as Hm.
  { intros p t k' (Hin & Ht & Hk'). cbn in Hk'. destruct (decide (p = q)) as [->|].
    - rewrite lookup_alter_eq in Hk'. destruct (kins x !! q) as [k|] eqn:Hk; [|done]. cbn in Hk'. simplify_eq.
      exists k. destruct (Hf k) as (_ & ? & ?). done.
    - rewrite lookup_alter_ne in Hk' by done. by exists k'. }
  constructor; try done.
  - apply family_upd; [done| |done]. intros k. apply Hf.
  - intros p t k' (k & Hk & _)%Hm. by apply (H3 p t k).
  - intros p t k' (k & Hk & -> & _)%Hm. by apply (H4 p t k).
  - intros p t k' (k & Hk & -> & _)%Hm. by apply (H7 p t k).
  - intros w pid options g tw c tc kc' u Ha Hpid Htw Hi (kc & Hkc & Ho & He)%Hm Hpp Hop Hz Hun.
    rewrite (eligible_same u pid options c tc tc kc kc') by done. eapply (H9 w); eauto. by eapply told_same.
Qed.

(** ** Telling the parent *)

Lemma wake_waiter_awake x w a t : waiting x !! w = Some a -> tasks (sg (wake_waiter x w)) !! w = Some t -> tstate t <> TASK_INTERRUPTIBLE.
Proof.
  intros Ha. unfold wake_waiter, upd_task. rewrite Ha. destruct (tasks (sg x) !! w) as [t0|] eqn:Ht; [|congruence].
  cbn. rewrite lookup_insert_eq. intros [= <-]. case_match eqn:Hi; [done|]. by apply Z.eqb_neq.
Qed.

Lemma notify_awake cur admin garbage alloc x p sig x' a t :
  notify_parent cur admin garbage alloc x p sig = Some x' -> waiting x !! pptr x p = Some a ->
  tasks (sg x') !! pptr x p = Some t -> tstate t <> TASK_INTERRUPTIBLE.
Proof.
  unfold notify_parent. destruct (Signal.notify_parent _ _ _ _ _ _ _) as [[r st]|]; [|done]. cbn. intros [= <-] Ha.
  by apply (wake_waiter_awake (with_sg x st) _ a).
Qed.

Lemma xinv_notify cur admin garbage alloc x p sig x' ch lax unseen :
  notify_parent cur admin garbage alloc x p sig = Some x' -> (unseen = None \/ unseen = Some p) ->
  xinv x ch lax unseen -> xinv x' ch lax None.
Proof.
  intros Hn Hu Hinv. pose proof (xquiet_notify _ _ _ _ _ _ _ _ Hn) as Hq. pose proof (xinv_quiet _ _ _ _ _ Hq Hinv) as [].
  constructor; try done. intros w pid options g tw c tc kc u Ha Hpid Htw Hi Hm Hpp Hop Hz _.
  destruct (decide (c = p)) as [->|]; [|eapply iv_seen0; eauto; destruct Hu as [->| ->]; congruence].
  assert (pptr x p = w) as Hw.
  { rewrite <- (pptr_quiet x x') by apply Hq. destruct Hm as (_ & Ht & _). unfold pptr. by rewrite Ht. }
  rewrite <- Hw in *. rewrite (xq_waiting _ _ Hq) in Ha. by destruct (notify_awake _ _ _ _ _ _ _ _ _ _ Hn Ha Htw).
Qed.

(** ** The steps of [do_exit] *)

(** The current process is dead, nobody knows it yet. *)
Definition dying (x : xstate) (cur code : Z) (t : task) : xstate :=
  upd_task cur (fun t => with_exit (with_state t TASK_ZOMBIE) (s32 code)) (with_sg x (exit_sighand (sg x) cur t)).

(** What changes when a process is replaced by a task with the same place in the family. *)
Record same_place (t t' : task) : Prop := {
  sp_pgrp : pgrp t' = pgrp t; sp_session : session t' = session t; sp_leader : leader t' = leader t; sp_pptr : p_pptr t' = p_pptr t }.

Lemma dying_task x cur code t : tasks (sg x) !! cur = Some t ->
  exists t', tasks (sg (dying x cur code t)) = <[cur := t']> (tasks (sg x)) /\ same_place t t' /\ tstate t' = TASK_ZOMBIE /\
    sigh t' = None /\ exit_code t' = s32 code /\ ptraced t' = ptraced t.
Proof.
  intros Ht. unfold dying, upd_task, exit_sighand, flush_signals. cbn. rewrite lookup_insert_eq. cbn. eexists. by rewrite insert_insert_eq.
Qed.

Lemma dying_rest x cur code t : tasks (sg x) !! cur = Some t ->
  order (sg (dying x cur code t)) = order (sg x) /\ kins (dying x cur code t) = kins x /\ waiting (dying x cur code t) = waiting x.
Proof. intros Ht. unfold dying, upd_task, exit_sighand, flush_signals. cbn. by rewrite lookup_insert_eq. Qed.

Lemma dying_lookup x cur code t p t' : tasks (sg x) !! cur = Some t -> tasks (sg (dying x cur code t)) !! p = Some t' ->
  (p = cur /\ same_place t t' /\ tstate t' = TASK_ZOMBIE /\ sigh t' = None) \/ (p <> cur /\ tasks (sg x) !! p = Some t').
Proof.
  intros Ht. destruct (dying_task x cur code t Ht) as (tc & -> & Hsp & Hz & Hs & _). destruct (decide (p = cur)) as [->|].
  - rewrite lookup_insert_eq. intros [= <-]. by left.
  - rewrite lookup_insert_ne by done. by right.
Qed.

Lemma alive_dying x cur code t q : tasks (sg x) !! cur = Some t -> alive x q -> q <> cur -> alive (dying x cur code t) q.
Proof.
  intros Ht (tq & Hq & Hz) Hne. destruct (dying_task x cur code t Ht) as (tc & Htc & _). exists tq. rewrite Htc.
  by rewrite lookup_insert_ne.
Qed.

Lemma member_dying x cur code t p t' k : tasks (sg x) !! cur = Some t -> member (dying x cur code t) p t' k ->
  exists t0, member x p t0 k /\ same_place t0 t' /\ (p = cur \/ t' = t0).
Proof.
  intros Ht (Hin & Ht' & Hk). destruct (dying_rest x cur code t Ht) as (Ho & Hkk & _). rewrite Ho in Hin. rewrite Hkk in Hk.
  destruct (dying_lookup x cur code t p t' Ht Ht') as [(-> & Hsp & _)|[Hne Ht0]].
  - exists t. split; [done|]. split; [done|by left].
  - exists t'. split; [done|]. split; [by constructor|by right].
Qed.

Lemma xinv_dying x ch cur code t :
  xinv x ch None None -> tasks (sg x) !! cur = Some t -> cur <> 0 -> cur <> child_reaper -> waiting x !! cur = None ->
  xinv (dying x cur code t) ch (Some cur) (Some cur).
Proof.
  intros [H1 H2 H3 H4 H5 H6 H7 H8 H9] Ht H0 Hne Hw. destruct (dying_rest x cur code t Ht) as (Ho & Hkk & Hww).
  assert (forall q, alive x q -> alive (dying x cur code t) q \/ Some q = Some cur) as Hal.
  { intros q Hq. destruct (decide (q = cur)) as [->|]; [by right|left; by apply alive_dying]. }
  constructor.
  - destruct H1 as [Hc Hd Hr Hn Hchild]. destruct (dying_task x cur code t Ht) as (tc & Htc & Hsp & _). constructor.
    + rewrite Hkk. destruct Hc. constructor; try done. intros p. destruct (cn_linked p) as (prev & ? & Hp). exists prev.
      split; [done|]. intros _. by apply Hp.
    + intros p. rewrite Hkk, Htc, Hd. destruct (decide (p = cur)) as [->|]; [rewrite lookup_insert_eq, Ht; by split; eexists|by rewrite lookup_insert_ne].
    + intros p. rewrite Ho, Htc, Hr. destruct (decide (p = cur)) as [->|]; [rewrite lookup_insert_eq, Ht; split; intros [? _]; split; try done; by eexists|by rewrite lookup_insert_ne].
    + by rewrite Ho.
    + intros p c. rewrite Ho, Hchild. unfold pptr. rewrite Htc. destruct (decide (c = cur)) as [->|]; [rewrite lookup_insert_eq, Ht, (sp_pptr _ _ Hsp); done|by rewrite lookup_insert_ne].
  - intros p t' Hin Ht'. rewrite Ho in Hin. destruct (dying_lookup x cur code t p t' Ht Ht') as [(-> & Hsp & Hz & Hs)|[Hne' Ht0]]; [done|by apply (H2 p)].
  - intros p t' k (t0 & Hm & Hsp & _)%member_dying; [|done]. rewrite (sp_pptr _ _ Hsp). destruct (H3 p t0 k Hm) as [Ha|]; [by apply Hal|done].
  - intros p t' k (t0 & Hm & Hsp & _)%member_dying; [|done]. destruct (H4 p t0 k Hm) as [Ha|]; [by apply Hal|done].
  - by apply alive_dying.
  - by apply alive_dying.
  - intros p t' k (t0 & Hm & Hsp & _)%member_dying; [|done]. rewrite (sp_pptr _ _ Hsp). by apply (H7 p).
  - intros w a. rewrite Hww. intros Ha. destruct (H8 w a Ha) as (Hw0 & tw & Htw & Hst). split; [done|]. exists tw. split; [|done].
    destruct (dying_task x cur code t Ht) as (tc & -> & _). rewrite lookup_insert_ne; [done|]. intros <-. congruence.
  - intros w pid options g tw c tc kc u. rewrite Hww. intros Ha Hpid Htw Hi Hm Hpp Hop Hz Hun.
    destruct (member_dying _ _ _ _ _ _ _ Ht Hm) as (t0 & Hm0 & Hsp & [->| ->]); [done|].
    destruct (dying_lookup x cur code t w tw Ht Htw) as [(-> & _)|[_ Htw0]]; [congruence|]. by eapply (H9 w).
Qed.

(** [forget_original_parent]. *)
Definition forgotten (father : Z) (k : kin) : kin :=
  if p_opptr k =? father then set_opptr child_reaper (set_exit_signal SIGCHLD k) else k.

Lemma forgotten_twice father k : father <> child_reaper -> forgotten father (forgotten father k) = forgotten father k.
Proof.
  intros Hf. unfold forgotten at 2 3. destruct (p_opptr k =? father) eqn:E; unfold forgotten; [|by rewrite E].
  unfold set_opptr. cbn [p_opptr]. by rewrite (proj2 (Z.eqb_neq child_reaper father)).
Qed.

Lemma forgotten_place father : keeps_place (forgotten father) /\ forall k, p_cptr (forgotten father k) = p_cptr k.
Proof. split; intros k; unfold forgotten; by case_match. Qed.

Record forgets (x x' : xstate) (father : Z) (l : list Z) : Prop := {
  fg_quiet : quietly (sg x) (sg x');
  fg_waiting : waiting x' = waiting x;
  fg_kins p : kins x' !! p = (if decide (p ∈ l) then forgotten father <$> kins x !! p else kins x !! p) }.

Lemma forgets_cons x x1 x' father p l : father <> child_reaper ->
  quietly (sg x) (sg x1) -> waiting x1 = waiting x -> kins x1 = alter (forgotten father) p (kins x) ->
  forgets x1 x' father l -> forgets x x' father (p :: l).
Proof.
  intros Hf Hq Hw Hk [Gq Gw Gk]. constructor; [by etrans|congruence|]. intros q. rewrite Gk, Hk. destruct (decide (q = p)) as [->|].
  - rewrite lookup_alter_eq, (decide_True (P := p ∈ p :: l)) by (by left). case_decide; [|done].
    destruct (kins x !! p); [|done]. cbn. by rewrite forgotten_twice.
  - rewrite lookup_alter_ne by done. destruct (decide (q ∈ l)).
    + rewrite (decide_True (P := q ∈ p :: l)) by (by right). done.
    + rewrite (decide_False (P := q ∈ p :: l)); [done|]. by intros [?|?]%elem_of_cons.
Qed.

Lemma forget_each_spec cur admin alloc l x father x' : father <> child_reaper ->
  forget_each cur admin alloc x l father = Some x' -> forgets x x' father l.
Proof.
  intros Hf. revert x. induction l as [|p l IH]; intros x; cbn.
  { intros [= <-]. by constructor. }
  destruct (kins x !! p) as [k|] eqn:Hk.
  - destruct (p_opptr k =? father) eqn:E.
    + set (x1 := upd p _ x). assert (kins x1 = alter (forgotten father) p (kins x)) as Hk1.
      { cbn. apply map_eq. intros q. destruct (decide (q = p)) as [->|]; [|by rewrite !lookup_alter_ne].
        rewrite !lookup_alter_eq, Hk. cbn. unfold forgotten. by rewrite E. }
      destruct (pdeath_signal k =? 0).
      * intros ?%IH. by eapply (forgets_cons x x1).
      * destruct (send_sig _ _ _ _ _ _ _) as [[r st]|] eqn:Hs; [|done]. cbn. intros ?%IH. apply send_quiet in Hs.
        by eapply (forgets_cons x (with_sg x1 st)).
    + intros ?%IH. eapply (forgets_cons x x); [done|done|done| |done]. apply map_eq. intros q.
      destruct (decide (q = p)) as [->|]; [|by rewrite lookup_alter_ne]. rewrite lookup_alter_eq, Hk. cbn. unfold forgotten. by rewrite E.
  - intros ?%IH. eapply (forgets_cons x x); [done|done|done| |done]. apply map_eq. intros q.
    destruct (decide (q = p)) as [->|]; [|by rewrite lookup_alter_ne]. by rewrite lookup_alter_eq, Hk.
Qed.

Definition same_links (k k' : kin) : Prop := p_ysptr k' = p_ysptr k /\ p_osptr k' = p_osptr k /\ p_cptr k' = p_cptr k.

Lemma chains_same ks ks' ch lax : (forall p, option_Forall2 same_links (ks !! p) (ks' !! p)) -> chains ks ch lax -> chains ks' ch lax.
Proof.
  intros Hs [H1 H2 H3 H4]. constructor; try done.
  - intros p k' Hk'. specialize (Hs p). rewrite Hk' in Hs. apply f2_some_r in Hs as (k & Hk & _ & _ & ->). by apply H1.
  - intros p. destruct (H2 p) as (prev & Hp & Hprev). exists prev. split; [|done]. revert Hp. apply siblings_frame.
    intros a k Ha Hk. specialize (Hs a). rewrite Hk in Hs. apply f2_some_l in Hs as (k' & Hk' & ? & ? & _). eauto.
Qed.

Lemma forgets_links x x' father l p : forgets x x' father l -> option_Forall2 same_links (kins x !! p) (kins x' !! p).
Proof.
  intros [_ _ ->]. destruct (kins x !! p) as [k|]; cbn; case_decide; constructor; [|done].
  unfold same_links. destruct (forgotten_place father) as [Hp Hc]. destruct (Hp k) as [Hy Ho]. by rewrite Hy, Ho, Hc.
Qed.

Lemma forgets_member x x' father p t' k' : forgets x x' father (order (sg x)) -> member x' p t' k' ->
  exists t k, member x p t k /\ quiet t t' /\ k' = forgotten father k.
Proof.
  intros [Hq Hw Hk] (Hin & Ht & Hkk). rewrite (ql_order _ _ Hq) in Hin. destruct (quietly_back _ _ p t' Hq Ht) as (t & Ht0 & Hqt).
  rewrite Hk, decide_True in Hkk by done. destruct (kins x !! p) as [k|] eqn:Hk0; [|done]. cbn in Hkk. simplify_eq. by exists t, k.
Qed.

Lemma xinv_forgets x x' ch cur unseen : cur <> child_reaper -> forgets x x' cur (order (sg x)) ->
  xinv x ch (Some cur) unseen -> xinv x' ch (Some cur) unseen.
Proof.
  intros Hne Hf [H1 H2 H3 H4 H5 H6 H7 H8 H9]. pose proof Hf as [Hq Hw Hk].
  assert (forall p t' k', member x' p t' k' -> exists t k, member x p t k /\ quiet t t' /\ k' = forgotten cur k) as Hm.
  { intros p t' k'. by apply forgets_member. }
  constructor.
  - destruct H1 as [Hc Hd Hr Hn Hchild]. pose proof (ql_order _ _ Hq) as Ho. constructor; rewrite ?Ho; try done.
    + eapply chains_same; [|exact Hc]. intros p. by eapply forgets_links.
    + intros p. rewrite (is_some_quiet _ _ p Hq), <- Hd. pose proof (forgets_links _ _ _ _ p Hf) as HF. destruct HF; [by split; eexists|done].
    + intros p. by rewrite (is_some_quiet _ _ p Hq).
    + intros p c. by rewrite (pptr_quiet x x').
  - intros p t' Hin Ht'. rewrite (ql_order _ _ Hq) in Hin. destruct (quietly_back _ _ p t' Hq Ht') as (t & Ht & Hqt).
    rewrite (quiet_zombie _ _ Hqt), (q_sigh _ _ Hqt). by apply (H2 p).
  - intros p t' k' (t & k & Hm0 & Hqt & ->)%Hm. rewrite (q_pptr _ _ Hqt). destruct (H3 p t k Hm0); [left; by eapply alive_quiet|by right].
  - intros p t' k' (t & k & Hm0 & Hqt & ->)%Hm. unfold forgotten. case_match; [left; by eapply alive_quiet|].
    destruct (H4 p t k Hm0); [left; by eapply alive_quiet|by right].
  - by eapply alive_quiet.
  - by eapply alive_quiet.
  - intros p t' k' (t & k & Hm0 & Hqt & ->)%Hm. rewrite (q_pptr _ _ Hqt). intros Hp. unfold forgotten. case_match; [done|]. by apply (H7 p t k).
  - intros w a Ha. rewrite Hw in Ha. destruct (H8 w a Ha) as (Hw0 & t & Ht & Hst). split; [done|].
    destruct (quietly_fwd _ _ w t Hq Ht) as (t' & Ht' & Hqt). exists t'. split; [done|].
    destruct (q_state _ _ Hqt) as [->|[-> _]]; [done|by left].
  - intros w pid options g tw' c tc' kc' u Ha Hpid Htw' Hi (tc & kc & Hm0 & Hqc & ->)%Hm Hpp Hop Hz Hun. rewrite Hw in Ha.
    destruct (quietly_back _ _ w tw' Hq Htw') as (tw & Htw & Hqw). rewrite (q_pptr _ _ Hqc) in Hpp.
    unfold forgotten in *. destruct (p_opptr kc =? cur) eqn:E.
    + destruct Hop as [Hop|[Hop _]]; [|done]. cbn in Hop. subst w. pose proof (H7 c tc kc Hm0 (eq_sym Hop)). unfold child_reaper in *. lia.
    + rewrite (eligible_same u pid options c tc tc' kc kc); [|apply Hqc|done].
      eapply (H9 w); eauto; [by eapply quiet_asleep|by rewrite <- (quiet_zombie _ _ Hqc)].
Qed.

Lemma forgets_origin x x' cur p t k : cur <> child_reaper -> forgets x x' cur (order (sg x)) -> member x' p t k -> p_opptr k <> cur.
Proof.
  intros Hne Hf (t0 & k0 & _ & _ & ->)%(forgets_member _ _ _ _ _ _ Hf). unfold forgotten. case_match eqn:E; cbn; [done|lia].
Qed.

Lemma orphan_own_quiet cur admin alloc x x' : orphan_own_group cur admin alloc x = Some x' -> xquiet x x'.
Proof.
  unfold orphan_own_group. destruct (tasks (sg x) !! cur) as [c|]; [|done]. cbn. destruct (tasks (sg x) !! p_pptr c) as [f|]; [|done]. cbn.
  case_match; [apply xquiet_hangup|by intros [= <-]].
Qed.

Lemma disassociate_quiet cur admin alloc x tty old x' : disassociate_ctty cur admin alloc x tty old = Some x' -> xquiet x x'.
Proof.
  unfold disassociate_ctty. destruct tty as [pg|]; [|case_match; [by intros [= <-]|apply xquiet_hangup]].
  case_match; [|by intros [= <-]]. destruct (kill_pg _ _ _ _ _ _ _) as [[r st]|] eqn:Hs; [|done]. cbn. intros [= <-].
  apply xquiet_sg. by eapply kill_pg_quiet.
Qed.

(** ** The links leave everything else of an entry alone *)

Definition ident (k : kin) : Z * Z * Z * usage := (p_opptr k, exit_signal k, pdeath_signal k, times k).

Lemma ident_alter (ks : gmap Z kin) f q r : (forall k, ident (f k) = ident k) -> ident <$> alter f q ks !! r = ident <$> ks !! r.
Proof.
  intros Hf. destruct (decide (r = q)) as [->|]; [rewrite lookup_alter_eq|by rewrite lookup_alter_ne].
  destruct (ks !! q); [|done]. cbn. by rewrite Hf.
Qed.

Lemma ident_unlink ks p q k r : ident <$> unlink_kins ks p q k !! r = ident <$> ks !! r.
Proof. unfold unlink_kins. destruct (p_osptr k), (p_ysptr k); rewrite ?ident_alter by done; done. Qed.

Lemma ident_link ks p q r : ident <$> link_kins ks p q !! r = ident <$> ks !! r.
Proof. unfold link_kins. destruct (k ← ks !! q; p_cptr k); rewrite ?ident_alter by done; done. Qed.

Lemma ident_back (ks ks' : gmap Z kin) r k' : ident <$> ks' !! r = ident <$> ks !! r -> ks' !! r = Some k' ->
  exists k, ks !! r = Some k /\ ident k' = ident k.
Proof. intros He Hk'. rewrite Hk' in He. destruct (ks !! r) as [k|]; [|done]. exists k. split; [done|]. by apply (inj Some) in He. Qed.

Lemma ident_fields k k' : ident k' = ident k ->
  p_opptr k' = p_opptr k /\ exit_signal k' = exit_signal k /\ pdeath_signal k' = pdeath_signal k /\ times k' = times k.
Proof. unfold ident. intros. by simplify_eq. Qed.

(** A task that has another parent. *)
Record reparented (t t' : task) (q : Z) : Prop := {
  rp_pgrp : pgrp t' = pgrp t; rp_session : session t' = session t; rp_leader : leader t' = leader t;
  rp_state : tstate t' = tstate t; rp_sigh : sigh t' = sigh t; rp_code : exit_code t' = exit_code t; rp_pptr : p_pptr t' = q }.

Lemma reparented_with t q tr : reparented t (with_parent t q tr) q.
Proof. by constructor. Qed.

(** A move of [p] to its original parent [q]: the rest is as before. *)
Record moves (x x' : xstate) (p q : Z) : Prop := {
  mv_order c : c ∈ order (sg x') <-> c ∈ order (sg x);
  mv_waiting : waiting x' = waiting x;
  mv_other c : c <> p -> tasks (sg x') !! c = tasks (sg x) !! c;
  mv_task : exists t t', tasks (sg x) !! p = Some t /\ tasks (sg x') !! p = Some t' /\ reparented t t' q;
  mv_ident c : ident <$> kins x' !! c = ident <$> kins x !! c }.

Lemma moves_alive x x' p q a : moves x x' p q -> alive x' a <-> alive x a.
Proof.
  intros [_ _ Ho (t & t' & Ht & Ht' & Hr) _]. unfold alive. destruct (decide (a = p)) as [->|].
  - rewrite Ht, Ht'. split; intros (? & [= <-] & Hz); eexists; (split; [done|]); rewrite ?(rp_state _ _ _ Hr) in *; done.
  - by rewrite Ho.
Qed.

Lemma moves_member x x' p q c t' k' : moves x x' p q -> member x' c t' k' ->
  exists t k, member x c t k /\ ident k' = ident k /\ (c <> p /\ t' = t \/ c = p /\ reparented t t' q).
Proof.
  intros [Hin _ Ho (tp & tp' & Htp & Htp' & Hr) Hid] (Hc & Ht & Hk). apply Hin in Hc.
  destruct (ident_back _ _ c k' (Hid c) Hk) as (k & Hk0 & Hi). destruct (decide (c = p)) as [->|].
  - exists tp, k. rewrite Htp' in Ht. injection Ht as <-. split; [split_and!; done|]. split; [done|]. by right.
  - rewrite Ho in Ht by done. exists t', k. split; [split_and!; done|]. split; [done|]. by left.
Qed.

Lemma xinv_moves x x' ch ch' lax lax' p q t k : moves x x' p q -> family x' ch' lax' -> member x p t k ->
  (lax' = lax \/ lax = None) -> alive x q -> (p_opptr k = q \/ q <> child_reaper) ->
  xinv x ch lax None -> xinv x' ch' lax' (Some p).
Proof.
  intros Hmv Hfam Hmp Hlax Hq Hor [H1 H2 H3 H4 H5 H6 H7 H8 H9].
  assert (forall c t' k', member x' c t' k' -> exists t k, member x c t k /\ ident k' = ident k /\ (c <> p /\ t' = t \/ c = p /\ reparented t t' q)) as Hm.
  { intros c t' k'. by apply moves_member. }
  assert (forall a, alive x a \/ Some a = lax -> alive x' a \/ Some a = lax') as Hal.
  { intros a [Ha|Ha]; [left; by apply (moves_alive x x' p q)|right]. destruct Hlax as [->| ->]; done. }
  constructor; try done.
  - intros c t' Hc Ht'. apply (mv_order _ _ _ _ Hmv) in Hc. destruct (decide (c = p)) as [->|].
    + destruct (mv_task _ _ _ _ Hmv) as (t0 & t1 & Ht0 & Ht1 & Hr). simplify_eq. rewrite (rp_state _ _ _ Hr), (rp_sigh _ _ _ Hr). by apply (H2 p).
    + rewrite (mv_other _ _ _ _ Hmv) in Ht' by done. by apply (H2 c).
  - intros c t' k' (t0 & k0 & Hm0 & Hi & [[Hne ->]|[-> Hr]])%Hm; [by apply Hal, (H3 c t0 k0)|].
    rewrite (rp_pptr _ _ _ Hr). left. by apply (moves_alive x x' p q).
  - intros c t' k' (t0 & k0 & Hm0 & Hi & _)%Hm. apply ident_fields in Hi as (-> & _). by apply Hal, (H4 c t0 k0).
  - by apply (moves_alive x x' p q).
  - by apply (moves_alive x x' p q).
  - intros c t' k' (t0 & k0 & Hm0 & Hi & [[Hne ->]|[-> Hr]])%Hm; apply ident_fields in Hi as (-> & _); [by apply (H7 c t0 k0)|].
    rewrite (rp_pptr _ _ _ Hr). intros ->. destruct Hor as [<-|]; [|done]. destruct Hmp as (_ & _ & Hk), Hm0 as (_ & _ & Hk0). by simplify_eq.
  - intros w a Ha. rewrite (mv_waiting _ _ _ _ Hmv) in Ha. destruct (H8 w a Ha) as (Hw0 & tw & Htw & Hst). split; [done|].
    destruct (decide (w = p)) as [->|].
    + destruct (mv_task _ _ _ _ Hmv) as (t0 & t1 & Ht0 & Ht1 & Hr). exists t1. split; [done|]. simplify_eq. by rewrite (rp_state _ _ _ Hr).
    + exists tw. by rewrite (mv_other _ _ _ _ Hmv).
  - intros w pid options g tw c tc kc u Ha Hpid Htw Hi (t0 & k0 & Hm0 & Hid & [[Hne ->]|[-> _]])%Hm Hpp Hop Hz Hun; [|done].
    rewrite (mv_waiting _ _ _ _ Hmv) in Ha. apply ident_fields in Hid as (Hop0 & Hex & _).
    assert (exists tw0, tasks (sg x) !! w = Some tw0 /\ tstate tw0 = TASK_INTERRUPTIBLE) as (tw0 & Htw0 & Hi0).
    { destruct (decide (w = p)) as [->|]; [|exists tw; by rewrite <- (mv_other _ _ _ _ Hmv)].
      destruct (mv_task _ _ _ _ Hmv) as (t2 & t1 & Ht2 & Ht1 & Hr). simplify_eq. exists t2. by rewrite <- (rp_state _ _ _ Hr). }
    rewrite (eligible_same u pid options c t0 t0 k0 kc) by done. eapply (H9 w); eauto. by eapply told_same.
Qed.

Lemma xinv_seen x ch lax p t : xinv x ch lax (Some p) -> tasks (sg x) !! p = Some t -> tstate t <> TASK_ZOMBIE -> xinv x ch lax None.
Proof.
  intros [] Ht Hz. constructor; try done. intros w pid options g tw c tc kc u ? ? ? ? Hm ? ? Hzc _. eapply iv_seen0; eauto.
  intros [= ->]. destruct Hm as (_ & Hc & _). congruence.
Qed.

(** ** The loop of [exit_notify] *)

(** A child of [cur] has gone to its original parent [o], if it has gone. *)
Record handed_task (cur o : Z) (t t' : task) : Prop := {
  ht_pgrp : pgrp t' = pgrp t; ht_session : session t' = session t; ht_leader : leader t' = leader t; ht_sigh : sigh t' = sigh t;
  ht_state : tstate t' = tstate t \/ (tstate t' = TASK_RUNNING /\ tstate t <> TASK_ZOMBIE);
  ht_code : tstate t = TASK_ZOMBIE -> sigh t = None -> exit_code t' = exit_code t;
  ht_pptr : p_pptr t' = p_pptr t \/ (p_pptr t = cur /\ p_pptr t' = o) }.

Record handed (cur : Z) (x x' : xstate) : Prop := {
  hd_order : order (sg x') = order (sg x);
  hd_waiting : waiting x' = waiting x;
  hd_ident c : ident <$> kins x' !! c = ident <$> kins x !! c;
  hd_tasks c t k : tasks (sg x) !! c = Some t -> kins x !! c = Some k ->
    exists t', tasks (sg x') !! c = Some t' /\ handed_task cur (p_opptr k) t t' }.

Lemma quiet_handed cur o t t' : quiet t t' -> handed_task cur o t t'.
Proof. intros []. constructor; auto. intros Hz Hs. by rewrite (q_dead Hz Hs). Qed.

Lemma xquiet_handed cur x x' : xquiet x x' -> handed cur x x'.
Proof.
  intros [Hq Hk Hw]. constructor; [apply Hq|done|by rewrite Hk|]. intros c t k Ht _.
  destruct (quietly_fwd _ _ c t Hq Ht) as (t' & Ht' & Hqt). exists t'. split; [done|by apply quiet_handed].
Qed.

Lemma handed_task_trans cur o a b c : handed_task cur o a b -> handed_task cur o b c -> handed_task cur o a c.
Proof.
  intros [] []. constructor; try congruence.
  - destruct ht_state0 as [|[]], ht_state1 as [|[]]; [left; congruence|right; split; congruence|right; split; congruence|right; split; congruence].
  - intros Hz Hs. rewrite ht_code1, ht_code0; auto; [|congruence]. destruct ht_state0 as [|[]]; congruence.
  - destruct ht_pptr0 as [|[]], ht_pptr1 as [|[]]; (left; congruence) || (right; split; congruence).
Qed.

#[export] Instance handed_trans cur : Transitive (handed cur).
Proof.
  intros x y z [Ho1 Hw1 Hi1 Ht1] [Ho2 Hw2 Hi2 Ht2]. constructor; [congruence|congruence|by intros c; rewrite Hi2|].
  intros c t k Ht Hk. destruct (Ht1 c t k Ht Hk) as (t1 & Hc1 & Hh1).
  pose proof (Hi1 c) as He. rewrite Hk in He. destruct (kins y !! c) as [k1|] eqn:Hk1; [|done]. apply (inj Some) in He.
  destruct (Ht2 c t1 k1 Hc1 Hk1) as (t2 & Hc2 & Hh2). exists t2. split; [done|]. apply ident_fields in He as (He & _).
  rewrite He in Hh2. by eapply handed_task_trans.
Qed.

Lemma moves_inherited x cur p k t : tasks (sg x) !! p = Some t -> moves x (inherited x cur p k) p (p_opptr k).
Proof.
  intros Ht. rewrite (inherited_eq x cur p k t Ht). constructor; cbn; [done|done| | |].
  - intros c Hc. by rewrite lookup_insert_ne.
  - exists t, (with_parent t (p_opptr k) false). rewrite lookup_insert_eq. split_and!; [done|done|by apply reparented_with].
  - intros c. by rewrite ident_link, ident_alter.
Qed.

Lemma handed_inherited x cur p k t : tasks (sg x) !! p = Some t -> kins x !! p = Some k -> p_pptr t = cur -> handed cur x (inherited x cur p k).
Proof.
  intros Ht Hk Hp. pose proof (moves_inherited x cur p k t Ht) as [_ Hw _ _ Hi]. constructor; [by rewrite (inherited_eq x cur p k t Ht)|done|done|].
  intros c tc kc Htc Hkc. rewrite (inherited_eq x cur p k t Ht). cbn. destruct (decide (c = p)) as [->|].
  - rewrite lookup_insert_eq. simplify_eq. eexists. split; [done|]. constructor; try done; [by left|by right].
  - rewrite lookup_insert_ne by done. exists tc. split; [done|]. by apply quiet_handed.
Qed.

Definition settled (x : xstate) (cur : Z) : Prop := forall c t k, member x c t k -> p_opptr k <> cur.

Lemma settled_handed x x' cur : handed cur x x' -> settled x cur -> (forall c, is_Some (tasks (sg x') !! c) -> is_Some (tasks (sg x) !! c)) -> settled x' cur.
Proof.
  intros [Ho _ Hi _] Hs Hd c t k (Hin & Ht & Hk). rewrite Ho in Hin. destruct (ident_back _ _ c k (Hi c) Hk) as (k0 & Hk0 & Hid).
  apply ident_fields in Hid as (-> & _). destruct (Hd c) as [t0 Ht0]; [by eexists|]. by apply (Hs c t0).
Qed.

Section Loop.
Context (cur : Z) (admin : bool) (garbage : Z) (alloc : Z -> bool).

Lemma inherit_turn_spec x p x' k : kins x !! p = Some k -> inherit_turn cur admin garbage alloc x p = Some x' ->
  exists x1, xquiet x1 x' /\
    ((exists t1, tasks (sg (inherited x cur p k)) !! p = Some t1 /\ tstate t1 = TASK_ZOMBIE /\
       notify_parent cur admin garbage alloc (inherited x cur p k) p (exit_signal k) = Some x1) \/
     (exists t1, tasks (sg (inherited x cur p k)) !! p = Some t1 /\ tstate t1 <> TASK_ZOMBIE /\ x1 = inherited x cur p k)).
Proof.
  intros Hk. unfold inherit_turn. rewrite Hk. cbn [mbind option_bind]. fold (inherited x cur p k).
  destruct (tasks (sg (inherited x cur p k)) !! p) as [t1|] eqn:Ht1; [|done]. cbn.
  assert (forall y z, (c ← tasks (sg y) !! cur;
      if negb (pgrp t1 =? pgrp c) && (session t1 =? session c) then
        if is_orphaned_pgrp (sg y) (pgrp t1) && has_stopped_jobs (sg y) (pgrp t1) then hangup_group cur admin alloc y (pgrp t1) else Some y
      else Some y) = Some z -> xquiet y z) as Hlast.
  { intros y z. destruct (tasks (sg y) !! cur) as [c|]; [|done]. cbn. case_match; [|by intros [= <-]].
    case_match; [apply xquiet_hangup|by intros [= <-]]. }
  destruct (tstate t1 =? TASK_ZOMBIE) eqn:Hz.
  - destruct (notify_parent _ _ _ _ _ _ _) as [x1|] eqn:Hn; [|done]. cbn. intros Hx. exists x1. split; [by apply Hlast|].
    left. exists t1. split_and!; [done|lia|done].
  - cbn. intros Hx. exists (inherited x cur p k). split; [by apply Hlast|]. right. exists t1. split_and!; [done|lia|done].
Qed.

Lemma xinv_turn x ch p l x' : xinv x ch (Some cur) None -> settled x cur -> ch cur = p :: l ->
  inherit_turn cur admin garbage alloc x p = Some x' ->
  exists ch', xinv x' ch' (Some cur) None /\ settled x' cur /\ ch' cur = l /\ handed cur x x'.
Proof.
  intros Hinv Hset Hc Hturn. pose proof (iv_family _ _ _ _ Hinv) as Hfam.
  assert (p ∈ ch cur) as Hch by (rewrite Hc; by left). destruct (proj1 (fm_child _ _ _ Hfam cur p) Hch) as [Hin Hpp].
  destruct (proj1 (fm_ring _ _ _ Hfam p) Hin) as [_ [t Ht]]. destruct (proj2 (fm_dom _ _ _ Hfam p)) as [k Hk]; [by eexists|].
  assert (member x p t k) as Hm by done. pose proof (Hset p t k Hm) as Hne.
  assert (alive x (p_opptr k)) as Hal. { destruct (iv_origin _ _ _ _ Hinv p t k Hm) as [|?]; [done|congruence]. }
  destruct (proj2 (fm_dom _ _ _ Hfam (p_opptr k))) as [kq Hkq]. { destruct Hal as (tq & Hq & _). by eexists. }
  destruct (inherit_turn_spec x p x' k Hk Hturn) as (x1 & Hq & Hcase).
  pose proof (moves_inherited x cur p k t Ht) as Hmv.
  assert (xinv (inherited x cur p k) (moved ch cur p (p_opptr k)) (Some cur) (Some p)) as Hi.
  { eapply (xinv_moves x); [done| |done|by left|done|by left|done]. eapply family_inherited; eauto. }
  assert (handed cur (inherited x cur p k) x1 /\ xinv x1 (moved ch cur p (p_opptr k)) (Some cur) None) as [Hh1 Hi1].
  { destruct Hcase as [(t1 & Ht1 & Hz & Hn)|(t1 & Ht1 & Hz & ->)].
    - split; [apply xquiet_handed; by eapply xquiet_notify|]. eapply xinv_notify; [done|by right|done].
    - split; [by apply xquiet_handed|]. by eapply xinv_seen. }
  assert (handed cur x x') as Hh.
  { etrans; [eapply handed_inherited; eauto|etrans; [exact Hh1|by apply xquiet_handed]]. unfold pptr in Hpp. by rewrite Ht in Hpp. }
  exists (moved ch cur p (p_opptr k)). split; [by eapply xinv_quiet|]. split; [|split; [|done]].
  - eapply settled_handed; [done|done|]. intros c [t' Ht']. pose proof (xinv_quiet _ _ _ _ _ Hq Hi1) as Hi2. pose proof (iv_family _ _ _ _ Hi2) as Hf2.
    apply (fm_dom _ _ _ Hfam). destruct (proj2 (fm_dom _ _ _ Hf2 c)) as [k' Hk']; [by eexists|].
    destruct (ident_back _ _ c k' (hd_ident _ _ _ Hh c) Hk') as (k0 & Hk0 & _). by eexists.
  - unfold moved. rewrite fn_lookup_insert_ne, fn_lookup_insert by done. rewrite Hc. apply (filter_ne_split p [] l).
    pose proof (cn_nodup _ _ _ (fm_chains _ _ _ Hfam) cur) as Hn. by rewrite Hc in Hn.
Qed.

Lemma cptr_head x ch lax p t : family x ch lax -> tasks (sg x) !! p = Some t -> cptr x p = head (ch p).
Proof.
  intros Hf Ht. destruct (proj2 (fm_dom _ _ _ Hf p)) as [k Hk]; [by eexists|]. unfold cptr. rewrite Hk. cbn.
  by apply (cn_first _ _ _ (fm_chains _ _ _ Hf)).
Qed.

Lemma xinv_inherit fuel x ch done x' : xinv x ch (Some cur) None -> settled x cur -> is_Some (tasks (sg x) !! cur) ->
  inherit cur admin garbage alloc fuel x = Some (done, x') ->
  handed cur x x' /\ settled x' cur /\ exists ch', xinv x' ch' (Some cur) None /\ ch' cur = drop fuel (ch cur) /\ (done = true <-> ch' cur = []).
Proof.
  revert x ch. induction fuel as [|fuel IH]; intros x ch Hinv Hset [t Ht]; cbn;
    rewrite (cptr_head x ch (Some cur) cur t) by (by try apply Hinv); destruct (ch cur) as [|p l] eqn:Hc; cbn.
  - intros [= <- <-]. split; [by apply xquiet_handed|]. split; [done|]. exists ch. by rewrite Hc.
  - intros [= <- <-]. split; [by apply xquiet_handed|]. split; [done|]. exists ch. by rewrite Hc.
  - intros [= <- <-]. split; [by apply xquiet_handed|]. split; [done|]. exists ch. by rewrite Hc.
  - destruct (inherit_turn _ _ _ _ _ _) as [x1|] eqn:Hturn; [|done]. cbn. intros Hrest.
    destruct (xinv_turn x ch p l x1 Hinv Hset Hc Hturn) as (ch1 & Hinv1 & Hset1 & Hc1 & Hh1).
    destruct (proj2 (fm_dom _ _ _ (iv_family _ _ _ _ Hinv) cur)) as [k Hk]; [by eexists|].
    destruct (hd_tasks _ _ _ Hh1 cur t k Ht Hk) as (t1 & Ht1 & _).
    destruct (IH x1 ch1 Hinv1 Hset1) as (Hh2 & Hset2 & ch2 & Hinv2 & Hc2 & Hd); [by eexists|done|].
    split; [by etrans|]. split; [done|]. exists ch2. by rewrite Hc2, Hc1 in *.
Qed.

End Loop.

(** ** [do_exit] as a whole *)

(** The state after [cur] has exited: its children belong to their original parents,
    which is init for those that were its own. *)
Record exited (cur code : Z) (x x' : xstate) : Prop := {
  ex_order : order (sg x') = order (sg x);
  ex_waiting : waiting x' = waiting x;
  ex_self : exists t', tasks (sg x') !! cur = Some t' /\ tstate t' = TASK_ZOMBIE /\ exit_code t' = s32 code /\ sigh t' = None;
  ex_family c t k : member x c t k -> exists t' k', member x' c t' k' /\
    p_opptr k' = (if p_opptr k =? cur then child_reaper else p_opptr k) /\
    exit_signal k' = (if p_opptr k =? cur then SIGCHLD else exit_signal k) /\ times k' = times k /\
    p_pptr t' = (if p_pptr t =? cur then p_opptr k' else p_pptr t) /\
    pgrp t' = pgrp t /\ session t' = session t /\ leader t' = leader t;
  ex_parent t a tq : tasks (sg x) !! cur = Some t -> waiting x !! p_pptr t = Some a ->
    tasks (sg x') !! p_pptr t = Some tq -> tstate tq <> TASK_INTERRUPTIBLE }.

Section Whole.
Context (cur : Z) (admin : bool) (garbage : Z) (alloc : Z -> bool).

Lemma exit_stages fuel x code tty old x' t :
  cur <> 0 -> tasks (sg x) !! cur = Some t -> do_exit cur admin garbage alloc fuel x code tty old = Some (true, x') ->
  exists x1 x2 x3 x4, forget_each cur admin alloc (dying x cur code t) (order (sg x)) cur = Some x1 /\
    orphan_own_group cur admin alloc x1 = Some x2 /\ (exists k, notify_parent cur admin garbage alloc x2 cur (exit_signal k) = Some x3) /\
    inherit cur admin garbage alloc fuel x3 = Some (true, x4) /\ xquiet x4 x'.
Proof.
  intros H0 Ht. unfold do_exit. rewrite (proj2 (Z.eqb_neq cur 0) H0), Ht. cbn [mbind option_bind]. fold (dying x cur code t).
  unfold exit_notify, forget_original_parent. destruct (dying_rest x cur code t Ht) as (-> & _ & _).
  destruct (forget_each _ _ _ _ _ _) as [x1|] eqn:H1; [|done]. cbn [mbind option_bind].
  destruct (orphan_own_group _ _ _ x1) as [x2|] eqn:H2; [|done]. cbn [mbind option_bind].
  destruct (kins x2 !! cur) as [k|]; [|done]. cbn [mbind option_bind].
  destruct (notify_parent _ _ _ _ x2 cur _) as [x3|] eqn:H3; [|done]. cbn [mbind option_bind].
  destruct (inherit _ _ _ _ fuel x3) as [[dn x4]|] eqn:H4; [|done]. cbn [mbind option_bind]. destruct dn; [|done].
  destruct (tasks (sg x4) !! cur) as [c|]; [|done]. cbn [mbind option_bind].
  intros H5. exists x1, x2, x3, x4. split_and!; [done|done|by exists k|done|].
  destruct (leader c); [|cbn in H5; by simplify_eq]. destruct (disassociate_ctty _ _ _ x4 tty old) as [x5|] eqn:H6; [|done]. cbn in H5.
  simplify_eq. by eapply disassociate_quiet.
Qed.

(** What is left of the process that exits, once its parent knows and its children are
    gone. *)
Record passed (x x1 x3 x' : xstate) (code : Z) (t : task) : Prop := {
  pa_forgets : forgets (dying x cur code t) x1 cur (order (sg x));
  pa_quiet : xquiet x1 x3;
  pa_handed : handed cur x3 x';
  pa_dom c : is_Some (kins x3 !! c) <-> is_Some (tasks (sg x3) !! c);
  pa_awake a tq : waiting x !! p_pptr t = Some a -> tasks (sg x3) !! p_pptr t = Some tq -> tstate tq <> TASK_INTERRUPTIBLE }.

Lemma pptr_dying x code t x1 x2 : tasks (sg x) !! cur = Some t -> forgets (dying x cur code t) x1 cur (order (sg x)) ->
  xquiet x1 x2 -> pptr x2 cur = p_pptr t.
Proof.
  intros Ht Hf Hq. rewrite (pptr_quiet x1 x2), (pptr_quiet (dying x cur code t) x1) by (apply Hq || apply Hf).
  destruct (dying_task x cur code t Ht) as (td & Htd & Hsp & _). unfold pptr. rewrite Htd, lookup_insert_eq. apply Hsp.
Qed.

Lemma xinv_close x ch : xinv x ch (Some cur) None -> ch cur = [] -> settled x cur -> xinv x ch None None.
Proof.
  intros [F1 F2 F3 F4 F5 F6 F7 F8 F9] Hemp Hset. constructor; try done.
  - destruct F1. constructor; try done. by eapply chains_close.
  - intros p tp kp Hm. left. destruct (F3 p tp kp Hm) as [|[= Hp]]; [done|].
    assert (p ∈ ch cur) as Hin; [|rewrite Hemp in Hin; by apply not_elem_of_nil in Hin].
    apply (fm_child _ _ _ F1). destruct Hm as (? & Htp & _). split; [done|]. unfold pptr. by rewrite Htp.
  - intros p tp kp Hm. left. destruct (F4 p tp kp Hm) as [|[= Hp]]; [done|]. by destruct (Hset p tp kp Hm).
Qed.

Lemma settled_quiet x x' : xquiet x x' -> settled x cur -> settled x' cur.
Proof.
  intros Hq Hs c t k Hm. destruct (member_back x x' c t k (xq_sg _ _ Hq) (xq_kins _ _ Hq) Hm) as (t0 & Hm0 & _). by apply (Hs c t0).
Qed.

Lemma exit_passes fuel x ch code tty old x' t :
  xinv x ch None None -> tasks (sg x) !! cur = Some t -> cur <> 0 -> cur <> child_reaper -> waiting x !! cur = None ->
  do_exit cur admin garbage alloc fuel x code tty old = Some (true, x') ->
  exists x1 x3 ch', passed x x1 x3 x' code t /\ xinv x' ch' None None /\ ch' cur = [].
Proof.
  intros Hinv Ht H0 H1 Hw Hex. destruct (exit_stages fuel x code tty old x' t H0 Ht Hex) as (x1 & x2 & x3 & x4 & Hf & Hq2 & (ks & Hn) & Hl & Hq5).
  apply orphan_own_quiet in Hq2. pose proof (xinv_dying x ch cur code t Hinv Ht H0 H1 Hw) as Hd. destruct (dying_rest x cur code t Ht) as (Ho & Hk & Hww).
  apply forget_each_spec in Hf; [|done]. pose proof Hf as Hfg. rewrite <- Ho in Hfg.
  pose proof (xinv_quiet _ _ _ _ _ Hq2 (xinv_forgets _ _ _ _ _ H1 Hfg Hd)) as Hi2.
  pose proof (xinv_notify _ _ _ _ _ _ _ _ _ _ _ Hn (or_intror eq_refl) Hi2) as Hi3. pose proof (xquiet_notify _ _ _ _ _ _ _ _ Hn) as Hq3.
  assert (xquiet x1 x3) as Hq13 by (by etrans). pose proof (pptr_dying x code t x1 x2 Ht Hf Hq2) as Hpp.
  assert (settled x3 cur) as Hset by (eapply settled_quiet; [done|]; intros c tc kc; by eapply forgets_origin).
  assert (is_Some (tasks (sg x3) !! cur)) as Hc3.
  { rewrite (is_some_quiet _ _ cur (xq_sg _ _ Hq13)), (is_some_quiet _ _ cur (fg_quiet _ _ _ _ Hf)).
    destruct (dying_task x cur code t Ht) as (td & -> & _). rewrite lookup_insert_eq. by eexists. }
  destruct (xinv_inherit cur admin garbage alloc fuel x3 ch true x4 Hi3 Hset Hc3 Hl) as (Hh & Hset4 & ch' & Hi4 & _ & Hend).
  assert (ch' cur = []) as Hemp by (by apply Hend). exists x1, x3, ch'. split; [constructor; try done|split; [|done]].
  - etrans; [exact Hh|by apply xquiet_handed].
  - intros c. apply (fm_dom _ _ _ (iv_family _ _ _ _ Hi3)).
  - intros a tq Ha Htq. rewrite <- Hpp in *. eapply notify_awake; [exact Hn| |exact Htq].
    rewrite (xq_waiting _ _ Hq2), (fg_waiting _ _ _ _ Hf), Hww. exact Ha.
  - apply xinv_close; [by eapply xinv_quiet|done|by eapply settled_quiet].
Qed.

(** The tasks of the family through the stages. *)
Lemma passed_task x x1 x3 x' code t c tc kc : tasks (sg x) !! cur = Some t -> passed x x1 x3 x' code t -> member x c tc kc ->
  exists t' k', tasks (sg x') !! c = Some t' /\ kins x' !! c = Some k' /\ ident k' = ident (forgotten cur kc) /\
    pgrp t' = pgrp tc /\ session t' = session tc /\ leader t' = leader tc /\
    (p_pptr t' = p_pptr tc \/ (p_pptr tc = cur /\ p_pptr t' = p_opptr k')) /\
    (c = cur -> tstate t' = TASK_ZOMBIE /\ exit_code t' = s32 code /\ sigh t' = None).
Proof.
  intros Ht [Hf Hq Hh _ _] (Hin & Htc & Hkc). destruct (dying_rest x cur code t Ht) as (Ho & Hk & Hww).
  destruct (dying_task x cur code t Ht) as (td & Htd & Hsp & Hzd & Hsd & Hcd & _).
  assert (exists t1, tasks (sg (dying x cur code t)) !! c = Some t1 /\ same_place tc t1 /\ (c = cur -> t1 = td)) as (t1 & Ht1 & Hsp1 & Hcc).
  { rewrite Htd. destruct (decide (c = cur)) as [->|]; [rewrite lookup_insert_eq; simplify_eq; eauto|]. exists tc. rewrite lookup_insert_ne by done. done. }
  destruct (quietly_fwd _ _ c t1 (fg_quiet _ _ _ _ Hf) Ht1) as (t2 & Ht2 & Hqt2).
  destruct (quietly_fwd _ _ c t2 (xq_sg _ _ Hq) Ht2) as (t3 & Ht3 & Hqt3). assert (quiet t1 t3) as Hqt by (by etrans).
  assert (kins x3 !! c = Some (forgotten cur kc)) as Hk3.
  { rewrite (xq_kins _ _ Hq), (fg_kins _ _ _ _ Hf), decide_True by done. rewrite Hk, Hkc. done. }
  destruct (hd_tasks _ _ _ Hh c t3 _ Ht3 Hk3) as (t' & Ht' & Hht). pose proof (hd_ident _ _ _ Hh c) as Hid. rewrite Hk3 in Hid.
  destruct (kins x' !! c) as [k'|] eqn:Hk'; [|done]. apply (inj Some) in Hid. exists t', k'.
  pose proof (ht_pptr _ _ _ _ Hht) as Hor. rewrite (q_pptr _ _ Hqt), (sp_pptr _ _ Hsp1) in Hor.
  rewrite (ht_pgrp _ _ _ _ Hht), (ht_session _ _ _ _ Hht), (ht_leader _ _ _ _ Hht), (q_pgrp _ _ Hqt), (q_session _ _ Hqt), (q_leader _ _ Hqt).
  split_and!; try done; try apply Hsp1.
  - apply ident_fields in Hid as (-> & _). exact Hor.
  - intros Hc. specialize (Hcc Hc). subst t1. pose proof (q_dead _ _ Hqt Hzd Hsd) as ->.
    rewrite (ht_sigh _ _ _ _ Hht), (ht_code _ _ _ _ Hht Hzd Hsd). destruct (ht_state _ _ _ _ Hht) as [->|[_ ?]]; done.
Qed.

Lemma xinv_do_exit fuel x ch code tty old x' t :
  xinv x ch None None -> tasks (sg x) !! cur = Some t -> cur <> 0 -> cur <> child_reaper -> waiting x !! cur = None ->
  do_exit cur admin garbage alloc fuel x code tty old = Some (true, x') ->
  exited cur code x x' /\ exists ch', xinv x' ch' None None /\ ch' cur = [].
Proof.
  intros Hinv Ht H0 H1 Hw Hex. destruct (exit_passes fuel x ch code tty old x' t Hinv Ht H0 H1 Hw Hex) as (x1 & x3 & ch' & Hp & Hfin & Hemp).
  split; [|by exists ch']. destruct (dying_rest x cur code t Ht) as (Ho & Hk & Hww). pose proof Hp as [Hf Hq Hh Hdom Haw].
  assert (order (sg x') = order (sg x)) as Hord.
  { rewrite (hd_order _ _ _ Hh), (ql_order _ _ (xq_sg _ _ Hq)), (ql_order _ _ (fg_quiet _ _ _ _ Hf)). done. }
  constructor; [done| | | |].
  - rewrite (hd_waiting _ _ _ Hh), (xq_waiting _ _ Hq), (fg_waiting _ _ _ _ Hf). done.
  - destruct (proj2 (fm_dom _ _ _ (iv_family _ _ _ _ Hinv) cur)) as [k Hkc]; [by eexists|].
    assert (member x cur t k) as Hm. { split_and!; [|done|done]. apply (fm_ring _ _ _ (iv_family _ _ _ _ Hinv)). split; [done|by eexists]. }
    destruct (passed_task x x1 x3 x' code t cur t k Ht Hp Hm) as (t' & k' & Ht' & _ & _ & _ & _ & _ & _ & Hc). exists t'. split; [done|by apply Hc].
  - intros c tc kc Hm. destruct (passed_task x x1 x3 x' code t c tc kc Ht Hp Hm) as (t' & k' & Ht' & Hk' & Hid & Hg & Hs & Hl & Hor & _).
    apply ident_fields in Hid as (Ho' & He' & _ & Htm').
    assert (member x' c t' k') as Hm' by (split_and!; [rewrite Hord; apply Hm|done|done]).
    exists t', k'. split_and!; try done; [rewrite Ho'|rewrite He'|rewrite Htm'|]; [by unfold forgotten; case_match..|].
    destruct (p_pptr tc =? cur) eqn:E; [|destruct Hor as [?|[? _]]; [done|lia]].
    destruct Hor as [Heq|[_ ?]]; [|done]. exfalso. assert (c ∈ ch' cur) as Hcin; [|rewrite Hemp in Hcin; by apply not_elem_of_nil in Hcin].
    apply (fm_child _ _ _ (iv_family _ _ _ _ Hfin)). split; [apply Hm'|]. unfold pptr. rewrite Ht'. lia.
  - intros t0 a tq Ht0 Ha Htq Hi. assert (t0 = t) as -> by congruence.
    destruct (iv_waiting _ _ _ _ Hinv _ a Ha) as (_ & t1 & Ht1 & _).
    assert (is_Some (tasks (sg x3) !! p_pptr t)) as [t3 Ht3].
    { rewrite (is_some_quiet _ _ _ (xq_sg _ _ Hq)), (is_some_quiet _ _ _ (fg_quiet _ _ _ _ Hf)).
      destruct (dying_task x cur code t Ht) as (td & -> & _). destruct (decide (p_pptr t = cur)) as [->|]; [rewrite lookup_insert_eq; by eexists|].
      rewrite lookup_insert_ne by done. by eexists. }
    destruct (proj2 (Hdom (p_pptr t))) as [k3 Hk3]; [by eexists|].
    destruct (hd_tasks _ _ _ Hh _ t3 k3 Ht3 Hk3) as (t' & Ht' & Hht). apply (Haw a t3 Ha Ht3).
    assert (tq = t') as -> by congruence. destruct (ht_state _ _ _ _ Hht) as [E|[E _]]; rewrite Hi in E; [done|by vm_compute in E].
Qed.
End Whole.
