(* ===== verification/ExitSteps.v ===== *)
(** * The end of a process: the machine, and what the calls promise *)

From stdpp Require Import functions.
From S2P Require Import Prelude Signal SignalProof Exit ExitProof ExitInv.

(** ** Changes of one task *)

(** A task may change as long as it keeps its place in the family, and does not die. *)
Record mild (t t' : task) : Prop := {
  md_pgrp : pgrp t' = pgrp t; md_pptr : p_pptr t' = p_pptr t; md_sigh : sigh t' = sigh t;
  md_zombie : tstate t' = TASK_ZOMBIE <-> tstate t = TASK_ZOMBIE }.

Lemma quiet_mild t t' : quiet t t' -> mild t t'.
Proof. intros Hq. constructor; try apply Hq. by apply quiet_zombie. Qed.

#[export] Instance mild_trans : Transitive mild.
Proof. intros a b c [] []. constructor; try congruence. tauto. Qed.

(** [cur] changes mildly, signals go to the others. *)
Record local (cur : Z) (st st' : state) : Prop := {
  lc_order : order st' = order st;
  lc_other p : p <> cur -> option_Forall2 quiet (tasks st !! p) (tasks st' !! p);
  lc_cur : option_Forall2 mild (tasks st !! cur) (tasks st' !! cur) }.

Lemma quietly_local cur st st' : quietly st st' -> local cur st st'.
Proof.
  intros [Ho Hq]. constructor; [done|done|]. destruct (Hq cur); constructor. by apply quiet_mild.
Qed.

#[export] Instance local_trans cur : Transitive (local cur).
Proof.
  intros a b c [Ho1 Hq1 Hc1] [Ho2 Hq2 Hc2]. constructor; [congruence| |].
  - intros p Hp. specialize (Hq1 p Hp). specialize (Hq2 p Hp). destruct Hq1; inversion Hq2; simplify_eq; constructor. by etrans.
  - destruct Hc1; inversion Hc2; simplify_eq; constructor. by etrans.
Qed.

Lemma local_set cur st st' t t' : tasks st !! cur = Some t -> mild t t' -> tasks st' = <[cur := t']> (tasks st) -> order st' = order st -> local cur st st'.
Proof.
  intros Ht Hm Htt Ho. constructor; [done| |].
  - intros p Hp. rewrite Htt, lookup_insert_ne by done. apply option_Forall2_refl. intros u. reflexivity.
  - rewrite Htt, lookup_insert_eq, Ht. by constructor.
Qed.

Lemma local_back cur st st' p t' : local cur st st' -> tasks st' !! p = Some t' -> exists t, tasks st !! p = Some t /\ mild t t' /\ (p <> cur -> quiet t t').
Proof.
  intros [_ Hq Hc] Ht. destruct (decide (p = cur)) as [->|Hne].
  - rewrite Ht in Hc. apply f2_some_r in Hc as (t & Ht0 & Hm). by exists t.
  - specialize (Hq p Hne). rewrite Ht in Hq. apply f2_some_r in Hq as (t & Ht0 & Hqt). exists t. split_and!; [done|by apply quiet_mild|done].
Qed.

Lemma local_fwd cur st st' p t : local cur st st' -> tasks st !! p = Some t -> exists t', tasks st' !! p = Some t' /\ mild t t' /\ (p <> cur -> quiet t t').
Proof.
  intros [_ Hq Hc] Ht. destruct (decide (p = cur)) as [->|Hne].
  - rewrite Ht in Hc. apply f2_some_l in Hc as (t' & Ht0 & Hm). by exists t'.
  - specialize (Hq p Hne). rewrite Ht in Hq. apply f2_some_l in Hq as (t' & Ht0 & Hqt). exists t'. split_and!; [done|by apply quiet_mild|done].
Qed.

Lemma local_is_some cur st st' p : local cur st st' -> is_Some (tasks st' !! p) <-> is_Some (tasks st !! p).
Proof.
  intros Hl. split; intros [t Ht].
  - destruct (local_back _ _ _ p t Hl Ht) as (t0 & -> & _). by eexists.
  - destruct (local_fwd _ _ _ p t Hl Ht) as (t0 & -> & _). by eexists.
Qed.

Lemma local_pptr cur x st' p : local cur (sg x) st' -> pptr (with_sg x st') p = pptr x p.
Proof.
  intros Hl. unfold pptr. cbn. destruct (tasks st' !! p) as [t'|] eqn:Ht'.
  - destruct (local_back _ _ _ p t' Hl Ht') as (t & -> & Hm & _). apply Hm.
  - destruct (tasks (sg x) !! p) as [t|] eqn:Ht; [|done]. destruct (local_fwd _ _ _ p t Hl Ht) as (t' & ? & _). congruence.
Qed.

Lemma local_alive cur x st' q : local cur (sg x) st' -> alive x q -> alive (with_sg x st') q.
Proof.
  intros Hl (t & Ht & Hz). destruct (local_fwd _ _ _ q t Hl Ht) as (t' & Ht' & Hm & _). exists t'. split; [done|]. by rewrite (md_zombie _ _ Hm).
Qed.

Lemma local_member cur x st' p t' k : local cur (sg x) st' -> member (with_sg x st') p t' k ->
  exists t, member x p t k /\ mild t t' /\ (p <> cur -> quiet t t').
Proof.
  intros Hl (Hin & Ht & Hk). cbn in *. rewrite (lc_order _ _ _ Hl) in Hin. destruct (local_back _ _ _ p t' Hl Ht) as (t & Ht0 & Hm & Hq).
  exists t. split; [split_and!; done|done].
Qed.

Lemma xinv_local_state cur x st' ch : local cur (sg x) st' ->
  (forall a t t', waiting x !! cur = Some a -> tasks (sg x) !! cur = Some t -> tasks st' !! cur = Some t' -> tstate t' = tstate t) ->
  xinv x ch None None -> xinv (with_sg x st') ch None None.
Proof.
  intros Hl Hw [H1 H2 H3 H4 H5 H6 H7 H8 H9]. pose proof (lc_order _ _ _ Hl) as Ho. constructor.
  - apply family_tasks; [done| | |done].
    + intros p. by apply (local_is_some cur).
    + intros p. by apply (local_pptr cur).
  - intros p t' Hin Ht'. cbn in *. rewrite Ho in Hin. destruct (local_back _ _ _ p t' Hl Ht') as (t & Ht & Hm & _).
    rewrite (md_zombie _ _ Hm), (md_sigh _ _ Hm). by apply (H2 p).
  - intros p t' k (t & Hm & Hmd & _)%(local_member cur); [|done]. rewrite (md_pptr _ _ Hmd). left.
    destruct (H3 p t k Hm) as [|]; [by apply (local_alive cur)|done].
  - intros p t' k (t & Hm & Hmd & _)%(local_member cur); [|done]. left. destruct (H4 p t k Hm) as [|]; [by apply (local_alive cur)|done].
  - by apply (local_alive cur).
  - by apply (local_alive cur).
  - intros p t' k (t & Hm & Hmd & _)%(local_member cur); [|done]. rewrite (md_pptr _ _ Hmd). by apply (H7 p).
  - intros w a Ha. destruct (H8 w a Ha) as (Hw0 & t & Ht & Hst). split; [done|].
    destruct (local_fwd _ _ _ w t Hl Ht) as (t' & Ht' & _ & Hq). exists t'. split; [done|].
    destruct (decide (w = cur)) as [->|Hne]; [by rewrite (Hw a t t')|]. destruct (q_state _ _ (Hq Hne)) as [->|[-> _]]; [done|by left].
  - intros w pid options g tw' c tc' kc u Ha Hpid Htw' Hi (tc & Hm & Hmd & _)%(local_member cur) Hpp Hop Hz Hun; [|done].
    destruct (local_back _ _ _ w tw' Hl Htw') as (tw & Htw & _ & Hq).
    rewrite (eligible_same u pid options c tc tc' kc kc); [|apply Hmd|done].
    eapply (H9 w); eauto; [|by rewrite <- (md_pptr _ _ Hmd)|by rewrite <- (md_zombie _ _ Hmd)].
    destruct (decide (w = cur)) as [->|Hne]; [by rewrite <- (Hw (pid, options, g) tw tw')|]. eapply quiet_asleep, Hi. by apply Hq.
Qed.

Lemma xinv_local cur x st' ch : local cur (sg x) st' -> waiting x !! cur = None -> xinv x ch None None -> xinv (with_sg x st') ch None None.
Proof. intros Hl Hw. apply (xinv_local_state cur); [done|]. intros a t t' Ha. congruence. Qed.

(** ** Changes of the table of waiters *)

Lemma xinv_leave x ch cur : xinv x ch None None -> xinv (with_waiting x (delete cur (waiting x))) ch None None.
Proof.
  intros [H1 H2 H3 H4 H5 H6 H7 H8 H9]. constructor; try done; [by apply family_waiting| |].
  - intros w a. cbn. intros [_ Ha]%lookup_delete_Some. by apply (H8 w a).
  - intros w pid options g tw c tc kc u. cbn. intros [_ Ha]%lookup_delete_Some. by apply (H9 w).
Qed.

Lemma xinv_enter x ch cur a t : xinv x ch None None -> cur <> 0 -> tasks (sg x) !! cur = Some t -> tstate t = TASK_RUNNING ->
  xinv (with_waiting x (<[cur := a]> (waiting x))) ch None None.
Proof.
  intros [H1 H2 H3 H4 H5 H6 H7 H8 H9] H0 Ht Hr. constructor; try done; [by apply family_waiting| |].
  - intros w b. cbn. destruct (decide (w = cur)) as [->|]; [intros _; split; [done|]; exists t; auto|rewrite lookup_insert_ne by done; apply H8].
  - intros w pid options g tw c tc kc u. cbn. destruct (decide (w = cur)) as [->|]; [|rewrite lookup_insert_ne by done; apply H9].
    intros _ _ Htw Hi. simplify_eq. by rewrite Hr in Hi.
Qed.

(** A process that finds no dead child can sleep. *)
Lemma xinv_sleep x ch cur t pid options : xinv x ch None None -> tasks (sg x) !! cur = Some t -> tstate t = TASK_RUNNING ->
  waiting x !! cur = Some (pid, options, pgrp t) ->
  (forall c tc kc, member x c tc kc -> p_pptr tc = cur -> tstate tc = TASK_ZOMBIE -> eligible t pid options c tc kc = false) ->
  xinv (upd_task cur (fun t => with_state t TASK_INTERRUPTIBLE) x) ch None None.
Proof.
  intros Hinv Ht Hr Hw Hnone. unfold upd_task. rewrite Ht. set (t' := with_state t TASK_INTERRUPTIBLE).
  assert (mild t t') as Hmild by (constructor; try done; cbn; rewrite Hr; done).
  assert (local cur (sg x) (set_task (sg x) cur t')) as Hl by (by eapply local_set).
  assert (xinv (with_sg (with_waiting x (delete cur (waiting x))) (set_task (sg x) cur t')) ch None None) as [H1 H2 H3 H4 H5 H6 H7 H8 H9].
  { apply (xinv_local cur (with_waiting x (delete cur (waiting x)))); [done|apply lookup_delete_eq|by apply xinv_leave]. }
  constructor; try done.
  - by apply (family_waiting _ _ _ (waiting x)) in H1.
  - intros w a Ha. cbn in Ha. destruct (decide (w = cur)) as [->|Hne].
    + split; [by apply (iv_waiting _ _ _ _ Hinv cur a)|]. exists t'. cbn. rewrite lookup_insert_eq. split; [done|by right].
    + apply (H8 w a). cbn. by rewrite lookup_delete_ne.
  - intros w pid' options' g tw c tc kc u Ha Hpid Htw Hi Hm Hpp Hop Hz Hun. cbn in Ha. destruct (decide (w = cur)) as [->|Hne].
    + rewrite Hw in Ha. injection Ha as <- <- <-. destruct (local_member cur x _ c tc kc Hl Hm) as (tc0 & Hm0 & Hmd & _).
      rewrite (eligible_same u pid options c tc0 tc kc kc); [|apply Hmd|done].
      rewrite (eligible_group u t) by done. apply Hnone; [done|rewrite <- (md_pptr _ _ Hmd); done|by rewrite <- (md_zombie _ _ Hmd)].
    + eapply (H9 w); eauto. cbn. by rewrite lookup_delete_ne.
Qed.

(** ** The search of [sys_wait4] *)

Definition eligible_at (x : xstate) (c : task) (pid options p : Z) : bool :=
  match kins x !! p, tasks (sg x) !! p with Some k, Some t => eligible c pid options p t k | _, _ => false end.

Definition stopped_at (x : xstate) (options p : Z) : bool :=
  match tasks (sg x) !! p with Some t => reports_stop options t | None => false end.

Definition zombie_at (x : xstate) (p : Z) : bool :=
  match tasks (sg x) !! p with Some t => tstate t =? TASK_ZOMBIE | None => false end.

(** A child that the caller waits for, and that has something to report. *)
Definition ready_at (x : xstate) (c : task) (pid options p : Z) : bool :=
  eligible_at x c pid options p && (stopped_at x options p || zombie_at x p).

(** The search as a function of the list of children. *)
Definition choose_child (x : xstate) (c : task) (pid options : Z) (l : list Z) (flag : bool) : found :=
  match List.find (ready_at x c pid options) l with
  | Some p => if stopped_at x options p then FoundStopped p else FoundZombie p
  | None => FoundNone (flag || existsb (eligible_at x c pid options) l)
  end.

Lemma wait_scan_list fuel x c pid options l prev flag :
  siblings (kins x) prev l None -> (forall p, p ∈ l -> is_Some (tasks (sg x) !! p)) -> (length l <= fuel)%nat ->
  wait_scan fuel x c pid options (head l) flag = Some (choose_child x c pid options l flag).
Proof.
  revert prev flag fuel. induction l as [|p l IH]; intros prev flag fuel Hs Hd Hf.
  { destruct fuel; cbn; unfold choose_child; cbn; by rewrite orb_false_r. }
  destruct Hs as [(k & Hk & _ & Ho) Hs]. destruct fuel as [|fuel]; [cbn in Hf; lia|]. destruct (Hd p) as [t Ht]; [by left|].
  assert (forall p, p ∈ l -> is_Some (tasks (sg x) !! p)) as Hd' by (intros q Hq; apply Hd; by right).
  cbn. rewrite Hk, Ht. cbn. rewrite Ho, head_head_or. rewrite !(IH (Some p)) by (done || (cbn in Hf; lia)).
  assert (eligible_at x c pid options p = eligible c pid options p t k) as Hel by (unfold eligible_at; by rewrite Hk, Ht).
  assert (stopped_at x options p = reports_stop options t) as Hst by (unfold stopped_at; by rewrite Ht).
  assert (zombie_at x p = (tstate t =? TASK_ZOMBIE)) as Hzo by (unfold zombie_at; by rewrite Ht).
  unfold choose_child. cbn [List.find existsb]. unfold ready_at at 3. rewrite Hel, Hst, Hzo.
  destruct (eligible c pid options p t k); cbn; [|done].
  destruct (reports_stop options t) eqn:Hr; cbn; [by rewrite Hst|]. destruct (tstate t =? TASK_ZOMBIE); [by rewrite Hst|].
  by rewrite orb_true_r.
Qed.

Lemma wait_scan_children fuel x ch lax cur c pid options : family x ch lax -> tasks (sg x) !! cur = Some c ->
  (length (order (sg x)) <= fuel)%nat ->
  wait_scan fuel x c pid options (cptr x cur) false = Some (choose_child x c pid options (ch cur) false).
Proof.
  intros Hf Hc Hfuel. rewrite (cptr_head x ch lax cur c Hf Hc). destruct (cn_linked _ _ _ (fm_chains _ _ _ Hf) cur) as (prev & Hs & _).
  apply (wait_scan_list fuel x c pid options _ prev false Hs).
  - intros p Hp. apply (fm_child _ _ _ Hf) in Hp as [Hp _]. by apply (fm_ring _ _ _ Hf) in Hp as [_ ?].
  - etrans; [|exact Hfuel]. apply submseteq_length, NoDup_submseteq; [apply (fm_chains _ _ _ Hf)|].
    intros p Hp. by apply (fm_child _ _ _ Hf) in Hp as [? _].
Qed.

Lemma child_member x ch lax p c : family x ch lax -> c ∈ ch p -> exists t k, member x c t k /\ p_pptr t = p /\ c <> 0.
Proof.
  intros Hf Hc. apply (fm_child _ _ _ Hf) in Hc as [Hin Hp]. destruct (proj1 (fm_ring _ _ _ Hf c) Hin) as [H0 [t Ht]].
  destruct (proj2 (fm_dom _ _ _ Hf c)) as [k Hk]; [by eexists|]. exists t, k. unfold pptr in Hp. rewrite Ht in Hp. done.
Qed.

(** ** A dead child goes *)

Lemma xinv_release x ch cur p t k : xinv x ch None None -> member x p t k -> p <> cur -> tstate t = TASK_ZOMBIE ->
  xinv (release cur x p) (<[p_pptr t := filter (fun a => a <> p) (ch (p_pptr t))]> ch) None None.
Proof.
  intros [H1 H2 H3 H4 H5 H6 H7 H8 H9] (Hin & Ht & Hk) Hne Hz.
  assert (p <> 0) as Hp0 by (by apply (fm_ring _ _ _ H1) in Hin as [? _]).
  pose proof (family_release x ch cur p t k H1 Ht Hk Hp0 Hne) as Hfam. rewrite (release_eq cur x p t k) in * by done.
  set (x' := XState _ _ _) in *.
  assert (forall c tc kc, member x' c tc kc -> c <> p /\ exists k0, member x c tc k0 /\ p_opptr kc = p_opptr k0 /\ exit_signal kc = exit_signal k0) as Hm.
  { intros c tc kc (Hc & Htc & Hkc). cbn in *. apply list_elem_of_filter in Hc as [Hcp Hc]. split; [done|].
    rewrite lookup_delete_ne in Htc by done. rewrite lookup_delete_ne in Hkc by done.
    assert (exists k1, unlink_kins (kins x) p (p_pptr t) k !! c = Some k1 /\ p_opptr kc = p_opptr k1 /\ exit_signal kc = exit_signal k1) as (k1 & Hk1 & Ho1 & He1).
    { destruct (decide (c = cur)) as [->|]; [|rewrite lookup_alter_ne in Hkc by done; by exists kc].
      rewrite lookup_alter_eq in Hkc. destruct (unlink_kins _ _ _ _ !! cur) as [k1|]; [|done]. cbn in Hkc. simplify_eq. by exists k1. }
    destruct (ident_back _ _ c k1 (ident_unlink _ _ _ _ c) Hk1) as (k0 & Hk0 & Hid). apply ident_fields in Hid as (Ho & He & _).
    exists k0. split; [split_and!; done|]. by rewrite Ho1, He1. }
  assert (forall a, alive x a -> alive x' a) as Hal.
  { intros a (ta & Hta & Hza). exists ta. split; [|done]. cbn. rewrite lookup_delete_ne; [done|]. intros <-. congruence. }
  constructor; try done; try (by apply Hal).
  - intros c tc. cbn. intros [_ Hc]%list_elem_of_filter [_ Htc]%lookup_delete_Some. by apply (H2 c).
  - intros c tc kc (_ & k0 & Hm0 & _)%Hm. left. destruct (H3 c tc k0 Hm0); [by apply Hal|done].
  - intros c tc kc (_ & k0 & Hm0 & -> & _)%Hm. left. destruct (H4 c tc k0 Hm0); [by apply Hal|done].
  - intros c tc kc (_ & k0 & Hm0 & -> & _)%Hm. by apply (H7 c tc k0).
  - intros w a Ha. destruct (H8 w a Ha) as (Hw0 & tw & Htw & Hst). split; [done|]. exists tw. split; [|done].
    cbn. rewrite lookup_delete_ne; [done|]. intros <-. simplify_eq. rewrite Hz in Hst. by destruct Hst.
  - intros w pid options g tw c tc kc u Ha Hpid Htw Hi (Hcp & k0 & Hm0 & Hop0 & Hex)%Hm Hpp Hop Hzc Hun.
    cbn in Htw. apply lookup_delete_Some in Htw as [_ Htw].
    rewrite (eligible_same u pid options c tc tc k0 kc) by done. eapply (H9 w); eauto. by eapply told_same.
Qed.

Lemma moves_relinked x p f t k q : tasks (sg x) !! p = Some t -> kins x !! p = Some k -> p ∈ order (sg x) ->
  reparented t (f t) q -> moves x (relinked x p f) p q.
Proof.
  intros Ht Hk Hin Hr. rewrite (relinked_eq x p f t k) by done. constructor; cbn.
  - intros c. rewrite elem_of_app, list_elem_of_filter, list_elem_of_singleton. destruct (decide (c = p)) as [->|]; tauto.
  - done.
  - intros c Hc. by rewrite lookup_insert_ne.
  - exists t, (f t). by rewrite lookup_insert_eq.
  - intros c. by rewrite ident_link, ident_unlink.
Qed.

Lemma xinv_relinked x ch p f t k q : xinv x ch None None -> member x p t k -> reparented t (f t) q -> alive x q ->
  (p_opptr k = q \/ q <> child_reaper) -> xinv (relinked x p f) (moved ch (p_pptr t) p q) None (Some p).
Proof.
  intros Hinv Hm Hr Hq Hor. pose proof (iv_family _ _ _ _ Hinv) as Hfam. pose proof Hm as (Hin & Ht & Hk).
  destruct (proj2 (fm_dom _ _ _ Hfam q)) as [kq Hkq]. { destruct Hq as (tq & Hq & _). by eexists. }
  eapply (xinv_moves x); [by eapply moves_relinked| |done|by left|done|done|done].
  eapply family_moved; [done|done|done| |apply Hr|done]. by apply (fm_ring _ _ _ Hfam) in Hin as [? _].
Qed.

(** ** A turn of [sys_wait4] *)

Definition writable (stat_addr ru : option bool) : bool :=
  match stat_addr with Some false => false | _ => true end && match ru with Some false => false | _ => true end.

Lemma store_result_writable u status stat_addr ru :
  (store_result u status stat_addr ru).1.1 = if writable stat_addr ru then 0 else - EFAULT.
Proof. unfold store_result, writable. destruct stat_addr as [[]|], ru as [[]|]; done. Qed.

Lemma send_total st cur admin sig info p alloc : (sig < SIGRTMIN \/ exists i, info = SendInfo i) ->
  exists r st', send_sig_info st cur admin sig info p alloc = Some (r, st').
Proof.
  intros Hs. unfold send_sig_info. destruct (tasks st !! cur) as [c|]; [|eauto]. destruct (tasks st !! p) as [t|]; [|eauto].
  case_match; [eauto|]. case_match; [eauto|]. destruct ((sig =? 0) || (if sigh t is None then true else false)); [eauto|].
  cbv zeta. destruct (ignored_signal _ _ _); [eauto|]. destruct (sig <? SIGRTMIN) eqn:Hlt; [eauto|]. destruct (_ && alloc); [eauto|].
  destruct Hs as [?|[i ->]]; [lia|]. destruct (si_code i <? 0); eauto.
Qed.

Lemma notify_total cur admin garbage alloc x p sig : exists x', notify_parent cur admin garbage alloc x p sig = Some x'.
Proof.
  unfold notify_parent, Signal.notify_parent. destruct (tasks (sg x) !! p) as [t|]; [|cbn; eauto].
  match goal with |- context [send_sig_info ?a ?b ?c ?d ?e ?f ?g] => destruct (send_total a b c d e f g) as (r & st' & ->) end; [right; eauto|].
  cbn. eauto.
Qed.

Lemma xinv_unwaited x ch p t : xinv x ch None (Some p) -> tasks (sg x) !! p = Some t -> waiting x !! p_pptr t = None -> xinv x ch None None.
Proof.
  intros [] Ht Hw. constructor; try done. intros w pid options g tw c tc kc u Ha ? ? ? Hm Hpp ? Hzc _. eapply iv_seen; eauto.
  intros [= ->]. destruct Hm as (_ & Hc & _). congruence.
Qed.

Section Wait.
Context (cur : Z) (admin : bool) (garbage : Z) (alloc : Z -> bool).

(** A dead child that was found is taken out of the family, or goes back to its
    original parent. *)
Lemma reap_spec x ch p t k : xinv x ch None None -> member x p t k -> tstate t = TASK_ZOMBIE -> p_pptr t = cur -> alive x cur ->
  exists x', reap cur admin garbage alloc x p k t = Some x' /\ waiting x' = waiting x /\ (exists ch', xinv x' ch' None None) /\
    (p_opptr k = cur -> x' = release cur x p) /\
    (p_opptr k <> cur -> exists x1, x1 = relinked x p (fun t => with_parent t (p_opptr k) (ptraced t)) /\
                                    notify_parent cur admin garbage alloc x1 p SIGCHLD = Some x').
Proof.
  intros Hinv Hm Hz Hpp Hcur. unfold reap. rewrite Hpp. pose proof Hm as (Hin & Ht & Hk). destruct (p_opptr k =? cur) eqn:E; cbn.
  - exists (release cur x p). assert (p <> cur) as Hne.
    { intros ->. destruct Hcur as (tc & Htc & Hzc). congruence. }
    split; [done|]. split; [by rewrite (release_eq cur x p t k)|]. split; [eexists; by eapply xinv_release|]. split; [done|lia].
  - fold (relinked x p (fun t => with_parent t (p_opptr k) (ptraced t))).
    destruct (notify_total cur admin garbage alloc (relinked x p (fun t => with_parent t (p_opptr k) (ptraced t))) p SIGCHLD) as [x' Hn].
    exists x'. split; [done|]. split.
    { rewrite (xq_waiting _ _ (xquiet_notify _ _ _ _ _ _ _ _ Hn)). by rewrite (relinked_eq x p _ t k). }
    split; [|split; [lia|eauto]]. eexists. eapply xinv_notify; [exact Hn|by right|].
    apply (xinv_relinked x ch p (fun t => with_parent t (p_opptr k) (ptraced t)) t k (p_opptr k)); [done|done|by apply reparented_with| |by left].
    destruct (iv_origin _ _ _ _ Hinv p t k Hm); done.
Qed.

(** What a turn does, by what the search finds. *)
Record woken (x x' : xstate) (c : task) (pid options : Z) (stat_addr ru : option bool) (l : list Z) (r : wait_end) : Prop := {
  wk_zombie p t k : List.find (ready_at x c pid options) l = Some p -> member x p t k -> tstate t = TASK_ZOMBIE ->
    if writable stat_addr ru then
      exists s u, r = Returns p s u /\ (s = None \/ s = Some (u32 (exit_code t))) /\
        (p_opptr k = cur -> tasks (sg x') !! p = None /\ forall q, q ∈ order (sg x') <-> q <> p /\ q ∈ order (sg x)) /\
        (p_opptr k <> cur -> pptr x' p = p_opptr k /\ forall q, q ∈ order (sg x') <-> q ∈ order (sg x))
    else exists s u, r = Returns (- EFAULT) s u /\ sg x' = sg x;
  wk_stopped p t : List.find (ready_at x c pid options) l = Some p -> tasks (sg x) !! p = Some t -> tstate t = TASK_STOPPED ->
    if writable stat_addr ru then
      exists s u, r = Returns p s u /\ (s = None \/ s = Some (u32 (Z.lor (Z.shiftl (exit_code t) 8) 0x7f))) /\
        sg x' = set_task (sg x) p (with_exit t 0)
    else exists s u, r = Returns (- EFAULT) s u /\ sg x' = sg x;
  wk_none : List.find (ready_at x c pid options) l = None ->
    if existsb (eligible_at x c pid options) l then
      if has_option options WNOHANG then r = Returns 0 None None /\ sg x' = sg x
      else if sigpending c then r = Returns (- ERESTARTSYS) None None /\ sg x' = sg x
      else r = Sleeps /\ sg x' = set_task (sg x) cur (with_state c TASK_INTERRUPTIBLE)
    else r = Returns (- ECHILD) None None /\ sg x' = sg x;
  wk_waiting : waiting x' = match r with Sleeps => waiting x | Returns _ _ _ => delete cur (waiting x) end }.

Lemma find_ready x ch c pid options p : family x ch None -> List.find (ready_at x c pid options) (ch cur) = Some p ->
  exists t k, member x p t k /\ p_pptr t = cur /\ eligible c pid options p t k = true /\
    stopped_at x options p = reports_stop options t /\ (reports_stop options t = false -> tstate t = TASK_ZOMBIE).
Proof.
  intros Hf Hfind. apply find_some in Hfind as [Hin Hr]. apply list_elem_of_In in Hin.
  destruct (child_member x ch None cur p Hf Hin) as (t & k & Hm & Hpp & _). exists t, k. pose proof Hm as (_ & Ht & Hk).
  unfold ready_at, eligible_at, stopped_at, zombie_at in *. rewrite Hk, Ht in *. apply andb_true_iff in Hr as [He Hr].
  split_and!; try done. intros Hs. rewrite Hs in Hr. cbn in Hr. lia.
Qed.

Lemma reports_stop_state options t : reports_stop options t = true -> tstate t = TASK_STOPPED.
Proof. unfold reports_stop. intros H. bool_hyps. lia. Qed.

Lemma turn_stopped x ch c pid options stat_addr ru p t k : xinv x ch None None -> tasks (sg x) !! cur = Some c ->
  List.find (ready_at x c pid options) (ch cur) = Some p -> member x p t k -> reports_stop options t = true ->
  exists r x', (let '(retval, stat, r) := store_result (times k) (Z.lor (Z.shiftl (exit_code t) 8) 0x7f) stat_addr ru in
      if retval =? 0 then Some (Returns p stat r, with_waiting (upd_task p (fun t => with_exit t 0) x) (delete cur (waiting (upd_task p (fun t => with_exit t 0) x))))
      else Some (Returns retval stat r, with_waiting x (delete cur (waiting x)))) = Some (r, x') /\
    xinv x' ch None None /\ woken x x' c pid options stat_addr ru (ch cur) r.
Proof.
  intros Hinv Hc Hfind Hm Hr. pose proof (reports_stop_state _ _ Hr) as Hst. pose proof Hm as (_ & Ht & Hk).
  pose proof (store_result_writable (times k) (Z.lor (Z.shiftl (exit_code t) 8) 0x7f) stat_addr ru) as Hsr.
  destruct (store_result _ _ _ _) as [[retval s] u] eqn:Hs. cbn in Hsr. subst retval.
  assert (s = None \/ s = Some (u32 (Z.lor (Z.shiftl (exit_code t) 8) 0x7f))) as Hval.
  { unfold store_result in Hs. repeat case_match; simplify_eq; auto. }
  unfold upd_task. rewrite Ht. destruct (writable stat_addr ru) eqn:Hwr; [change (0 =? 0) with true|change (- EFAULT =? 0) with false]; cbv iota.
  - eexists _, _. split; [done|]. split.
    + apply xinv_leave. apply (xinv_local p).
      * eapply local_set; [done| |done|done]. by constructor.
      * destruct (waiting x !! p) as [a|] eqn:Ha; [|done]. destruct (iv_waiting _ _ _ _ Hinv p a Ha) as (_ & tw & Htw & Hw).
        assert (tw = t) as -> by congruence. rewrite Hst in Hw. by destruct Hw.
      * done.
    + constructor; [| |by rewrite Hfind|done].
      * intros p' t' k' Hf (_ & Ht' & _) Hz. assert (p' = p) as -> by congruence. rewrite Ht in Ht'. injection Ht' as <-. by rewrite Hst in Hz.
      * intros p' t' Hf Ht' _. assert (p' = p) as -> by congruence. rewrite Ht in Ht'. injection Ht' as <-. rewrite Hwr. by exists s, u.
  - eexists _, _. split; [done|]. split; [by apply xinv_leave|]. constructor; [| |by rewrite Hfind|done].
    + intros p' t' k' Hf (_ & Ht' & _) Hz. assert (p' = p) as -> by congruence. rewrite Ht in Ht'. injection Ht' as <-. by rewrite Hst in Hz.
    + intros p' t' Hf Ht' _. rewrite Hwr. by exists s, u.
Qed.

Lemma turn_zombie x ch c pid options stat_addr ru p t k : xinv x ch None None -> tasks (sg x) !! cur = Some c -> tstate c <> TASK_ZOMBIE ->
  List.find (ready_at x c pid options) (ch cur) = Some p -> member x p t k -> p_pptr t = cur -> tstate t = TASK_ZOMBIE ->
  let x1 := upd cur (fun kc => set_times (add_times (times k) (times kc)) kc) x in
  exists r x' ch', (let '(retval, stat, r) := store_result (times k) (exit_code t) stat_addr ru in
      if negb (retval =? 0) then Some (Returns retval stat r, with_waiting x1 (delete cur (waiting x1)))
      else x ← reap cur admin garbage alloc x1 p k t; Some (Returns p stat r, with_waiting x (delete cur (waiting x)))) = Some (r, x') /\
    xinv x' ch' None None /\ woken x x' c pid options stat_addr ru (ch cur) r.
Proof.
  intros Hinv Hc Hcz Hfind Hm Hpp Hz x1. pose proof Hm as (Hin & Ht & Hk).
  pose proof (store_result_writable (times k) (exit_code t) stat_addr ru) as Hsr.
  destruct (store_result _ _ _ _) as [[retval s] u] eqn:Hs. cbn in Hsr. subst retval.
  assert (s = None \/ s = Some (u32 (exit_code t))) as Hval. { unfold store_result in Hs. repeat case_match; simplify_eq; auto. }
  assert (xinv x1 ch None None) as Hinv1 by (by apply xinv_upd).
  assert (p <> cur) as Hne by (intros ->; congruence).
  assert (member x1 p t k) as Hm1 by (split_and!; [done|done|]; cbn; by rewrite lookup_alter_ne).
  destruct (writable stat_addr ru) eqn:Hwr; [change (negb (0 =? 0)) with false|change (negb (- EFAULT =? 0)) with true]; cbv iota.
  - destruct (reap_spec x1 ch p t k Hinv1 Hm1 Hz Hpp) as (x' & -> & Hw & [ch' Hinv'] & Hown & Hback); [by exists c|].
    cbn [mbind option_bind]. eexists _, _, ch'. split; [done|]. split; [by apply xinv_leave|]. constructor; [| |by rewrite Hfind|by rewrite Hw].
    + intros p' t' k' Hf (_ & Ht' & Hk') _. assert (p' = p) as -> by congruence. rewrite Ht in Ht'. injection Ht' as <-.
      rewrite Hk in Hk'. injection Hk' as <-. rewrite Hwr. exists s, u. split_and!; [done|done| |].
      * intros Ho. rewrite (Hown Ho). rewrite (release_eq cur x1 p t k) by (done || apply Hm1). cbn. split; [apply lookup_delete_eq|].
        intros q. rewrite list_elem_of_filter. done.
      * intros Ho. destruct (Hback Ho) as (x2 & -> & Hn). pose proof (xquiet_notify _ _ _ _ _ _ _ _ Hn) as Hq. split.
        -- unfold pptr at 1. cbn. fold (pptr x' p). rewrite (pptr_quiet _ x' p (xq_sg _ _ Hq)).
           rewrite (relinked_eq x1 p _ t k) by apply Hm1. unfold pptr. cbn. by rewrite lookup_insert_eq.
        -- intros q. cbn. rewrite (ql_order _ _ (xq_sg _ _ Hq)).
           apply (mv_order _ _ _ _ (moves_relinked x1 p (fun t => with_parent t (p_opptr k) (ptraced t)) t k (p_opptr k) (proj1 (proj2 Hm1)) (proj2 (proj2 Hm1)) Hin (reparented_with _ _ _))).
    + intros p' t' Hf Ht' Hst. assert (p' = p) as -> by congruence. rewrite Ht in Ht'. injection Ht' as <-. by rewrite Hz in Hst.
  - eexists _, _, ch. split; [done|]. split; [by apply xinv_leave|]. constructor; [| |by rewrite Hfind|done].
    + intros p' t' k' Hf _ _. rewrite Hwr. by exists s, u.
    + intros p' t' Hf Ht' Hst. assert (p' = p) as -> by congruence. rewrite Ht in Ht'. injection Ht' as <-. by rewrite Hz in Hst.
Qed.

Lemma turn_none x ch c pid options stat_addr ru : xinv x ch None None -> tasks (sg x) !! cur = Some c -> tstate c = TASK_RUNNING ->
  waiting x !! cur = Some (pid, options, pgrp c) -> List.find (ready_at x c pid options) (ch cur) = None ->
  exists r x', (if existsb (eligible_at x c pid options) (ch cur) then
      if has_option options WNOHANG then Some (Returns 0 None None, with_waiting x (delete cur (waiting x)))
      else if sigpending c then Some (Returns (- ERESTARTSYS) None None, with_waiting x (delete cur (waiting x)))
      else Some (Sleeps, upd_task cur (fun t => with_state t TASK_INTERRUPTIBLE) x)
    else Some (Returns (- ECHILD) None None, with_waiting x (delete cur (waiting x)))) = Some (r, x') /\
    xinv x' ch None None /\ woken x x' c pid options stat_addr ru (ch cur) r.
Proof.
  intros Hinv Hc Hr Hw Hnone.
  assert (forall x' r, (if existsb (eligible_at x c pid options) (ch cur) then
      if has_option options WNOHANG then r = Returns 0 None None /\ sg x' = sg x
      else if sigpending c then r = Returns (- ERESTARTSYS) None None /\ sg x' = sg x
      else r = Sleeps /\ sg x' = set_task (sg x) cur (with_state c TASK_INTERRUPTIBLE)
    else r = Returns (- ECHILD) None None /\ sg x' = sg x) ->
    waiting x' = match r with Sleeps => waiting x | Returns _ _ _ => delete cur (waiting x) end ->
    woken x x' c pid options stat_addr ru (ch cur) r) as Hwk.
  { intros x' r Ha Hb. constructor; try (intros; congruence); done. }
  destruct (existsb _ _) eqn:Hex; [destruct (has_option options WNOHANG) eqn:Ho; [|destruct (sigpending c) eqn:Hs]|].
  1,2,4: eexists _, _; split; [done|]; split; [by apply xinv_leave|by apply Hwk].
  eexists _, _. split; [done|]. split; [|by apply Hwk; unfold upd_task; rewrite Hc].
  eapply xinv_sleep; eauto. intros d td kd Hm Hpp Hz. destruct (eligible c pid options d td kd) eqn:He; [|done]. exfalso.
  assert (d ∈ ch cur) as Hd. { apply (fm_child _ _ _ (iv_family _ _ _ _ Hinv)). pose proof Hm as (? & Htd & _). split; [done|]. unfold pptr. by rewrite Htd. }
  pose proof (find_none _ _ Hnone d (proj1 (list_elem_of_In _ _) Hd)) as Hn. destruct Hm as (_ & Htd & Hkd).
  unfold ready_at, eligible_at, zombie_at in Hn. rewrite Htd, Hkd, He, Hz in Hn. cbn in Hn. by rewrite orb_true_r in Hn.
Qed.

Lemma wait_turn_spec fuel x ch c pid options stat_addr ru : xinv x ch None None -> tasks (sg x) !! cur = Some c -> tstate c = TASK_RUNNING ->
  waiting x !! cur = Some (pid, options, pgrp c) -> (length (order (sg x)) <= fuel)%nat ->
  exists r x' ch', wait_turn cur admin garbage alloc fuel x pid options stat_addr ru = Some (r, x') /\
    xinv x' ch' None None /\ woken x x' c pid options stat_addr ru (ch cur) r.
Proof.
  intros Hinv Hc Hr Hw Hf. pose proof (iv_family _ _ _ _ Hinv) as Hfam. unfold wait_turn. rewrite Hc. cbn [mbind option_bind].
  rewrite (wait_scan_children fuel x ch None cur c pid options Hfam Hc Hf). cbn [mbind option_bind]. unfold choose_child. cbn [orb].
  destruct (List.find (ready_at x c pid options) (ch cur)) as [p|] eqn:Hfind.
  - destruct (find_ready x ch c pid options p Hfam Hfind) as (t & k & Hm & Hpp & He & Hst & Hz). rewrite Hst. pose proof Hm as (_ & Ht & Hk).
    destruct (reports_stop options t) eqn:Hrs; cbv beta iota; rewrite Hk, Ht; cbn [mbind option_bind].
    + destruct (turn_stopped x ch c pid options stat_addr ru p t k Hinv Hc Hfind Hm Hrs) as (r & x' & He' & ? & ?). exists r, x', ch. by rewrite He'.
    + destruct (turn_zombie x ch c pid options stat_addr ru p t k) as (r & x' & ch' & He' & ? & ?); eauto; [by rewrite Hr|].
      exists r, x', ch'. split; [exact He'|done].
  - destruct (turn_none x ch c pid options stat_addr ru Hinv Hc Hr Hw Hfind) as (r & x' & He & ? & ?). exists r, x', ch. by rewrite <- He.
Qed.

Lemma wait_pass_spec fuel x ch c pid options stat_addr ru : xinv x ch None None -> cur <> 0 -> tasks (sg x) !! cur = Some c -> tstate c = TASK_RUNNING ->
  (length (order (sg x)) <= fuel)%nat ->
  exists r x' ch', wait_pass cur admin garbage alloc fuel x pid options stat_addr ru = Some (r, x') /\ xinv x' ch' None None /\
    woken (with_waiting x (<[cur := (pid, options, pgrp c)]> (waiting x))) x' c pid options stat_addr ru (ch cur) r.
Proof.
  intros Hinv H0 Hc Hr Hf. unfold wait_pass. rewrite Hc. cbn [mbind option_bind].
  apply (wait_turn_spec fuel (with_waiting x (<[cur := (pid, options, pgrp c)]> (waiting x))) ch c); [by eapply xinv_enter|done|done|cbn; apply lookup_insert_eq|done].
Qed.

End Wait.
