(* ===== verification/ExitMachine.v ===== *)
(** * The machine of processes that fork, exit and wait *)

From stdpp Require Import functions.
From S2P Require Import Prelude Signal SignalProof Exit ExitProof ExitInv ExitSteps.

(** ** Delivery of signals *)

Lemma dequeue_local st p t mask b sig info st' : tasks st !! p = Some t -> dequeue_signal st p t mask b = (sig, info, st') -> local p st st'.
Proof.
  intros Ht. unfold dequeue_signal. repeat case_match; intros; simplify_eq;
    solve [eapply local_set; [exact Ht| |reflexivity|reflexivity]; by constructor | apply quietly_local; reflexivity].
Qed.

Lemma handle_local st p t h sig frame d st' : tasks st !! p = Some t -> handle_signal st p t h sig frame = (d, st') -> (forall code, d <> Exit code) -> local p st st'.
Proof.
  intros Ht. unfold handle_signal. destruct (negb (_ =? 0)); [intros; simplify_eq; by apply quietly_local|].
  destruct (negb frame); [intros [= <- <-] Hd; by destruct (Hd SIGSEGV)|]. repeat case_match; intros; simplify_eq;
    solve [eapply local_set; [exact Ht| |reflexivity|reflexivity]; by constructor
          | apply quietly_local; constructor; [done|]; intros q; apply option_Forall2_refl; intros u; reflexivity].
Qed.

Lemma notify_local st cur admin tsk sig garbage alloc r st' p : Signal.notify_parent st cur admin tsk sig garbage alloc = Some (r, st') -> local p st st'.
Proof.
  unfold Signal.notify_parent. destruct (tasks st !! tsk); [|intros; simplify_eq; by apply quietly_local].
  intros Hs. apply quietly_local. by eapply send_quiet.
Qed.

Lemma act_on_local st cur admin t signr orphaned dumped garbage alloc frame d st' : tasks st !! cur = Some t -> tstate t <> TASK_ZOMBIE ->
  act_on st cur admin t signr orphaned dumped garbage alloc frame = Some (d, st') -> (forall code, d <> Exit code) -> local cur st st'.
Proof.
  intros Ht Hz. unfold act_on. destruct (sigh t) as [h|]; [|done]. cbn [mbind option_bind].
  destruct (_ =? SIG_IGN); [intros; simplify_eq; by apply quietly_local|].
  destruct (_ =? SIG_DFL); [|intros [= E]; by eapply handle_local].
  destruct (cur =? 1); [intros; simplify_eq; by apply quietly_local|].
  destruct (_ || _); [intros; simplify_eq; by apply quietly_local|].
  destruct (stop_signal signr); [|intros [= <- <-] Hd; by destruct (Hd (if (((signr =? SIGQUIT) || (signr =? SIGILL) || (signr =? SIGTRAP) || (signr =? SIGABRT) || (signr =? SIGFPE) || (signr =? SIGSEGV)) && dumped) then Z.lor signr 0x80 else signr))].
  destruct (_ && orphaned); [intros; simplify_eq; by apply quietly_local|].
  set (st1 := set_task st cur _). assert (local cur st st1) as Hl1.
  { eapply local_set; [exact Ht| |reflexivity|reflexivity]. constructor; try done. }
  destruct (nocldstop_of st1 (p_pptr t)) as [[]|]; [|clear Hl1|done]; cbn [mbind option_bind].
  - intros; simplify_eq; done.
  - destruct (Signal.notify_parent _ _ _ _ _ _ _) as [[r st2]|] eqn:Hn; [|done]. cbn. intros [= <- <-] _. 
    etrans; [|by eapply notify_local]. eapply local_set; [exact Ht| |reflexivity|reflexivity]. by constructor.
Qed.

Lemma turn_local st cur admin orphaned dumped garbage alloc frame d st' t : tasks st !! cur = Some t -> tstate t <> TASK_ZOMBIE ->
  do_signal_turn st cur admin orphaned dumped garbage alloc frame = Some (d, st') -> (forall code, d <> Exit code) -> local cur st st'.
Proof.
  intros Ht Hz. unfold do_signal_turn. rewrite Ht. cbn [mbind option_bind].
  destruct (dequeue_signal _ _ _ _ _) as [[signr info] st1] eqn:Hd. pose proof (dequeue_local _ _ _ _ _ _ _ _ Ht Hd) as Hl.
  destruct (local_fwd _ _ _ cur t Hl Ht) as (t1 & Ht1 & Hm & _). rewrite Ht1. cbn [mbind option_bind].
  assert (tstate t1 <> TASK_ZOMBIE) as Hz1 by (by rewrite (md_zombie _ _ Hm)).
  destruct (signr =? 0); [intros; simplify_eq; done|]. destruct (ptraced t1 && negb (signr =? SIGKILL)).
  - destruct (Signal.notify_parent _ _ _ _ _ _ _) as [[r st2]|] eqn:Hn; [|done]. cbn. intros [= <- <-] _.
    etrans; [exact Hl|]. etrans; [|by eapply notify_local]. eapply local_set; [exact Ht1| |reflexivity|reflexivity]. by constructor.
  - intros Ha Hne. etrans; [exact Hl|]. by eapply act_on_local.
Qed.

(** ** The other calls *)

Lemma no_children x ch p : xinv x ch None None -> tasks (sg x) !! p = None -> ch p = [].
Proof.
  intros Hinv Hp. destruct (ch p) as [|c l] eqn:Hc; [done|]. destruct (child_member x ch None p c) as (t & k & Hm & Hpp & _).
  { apply Hinv. } { rewrite Hc. by left. }
  destruct (iv_parent _ _ _ _ Hinv c t k Hm) as [(tp & Htp & _)|]; [|done]. congruence.
Qed.

Lemma xinv_fork x ch cur child flags t share trace h : xinv x ch None None -> tasks (sg x) !! child = None -> child <> 0 ->
  tasks (sg x) !! cur = Some t -> cur ∈ order (sg x) -> tstate t <> TASK_ZOMBIE ->
  xinv (fork_family cur x child flags t share trace h) (<[cur := child :: ch cur]> ch) None None.
Proof.
  intros Hinv Hc H0 Ht Hin Hz. pose proof (family_fork x ch cur child flags t share trace h (iv_family _ _ _ _ Hinv) Hc H0 (no_children x ch child Hinv Hc) Ht) as Hfam.
  rewrite fork_eq in * by done. set (x' := XState _ _ _) in *. destruct Hinv as [H1 H2 H3 H4 H5 H6 H7 H8 H9].
  assert (forall a, alive x a -> alive x' a) as Hal.
  { intros a (ta & Hta & Hza). exists ta. split; [|done]. cbn. rewrite lookup_insert_ne; [done|]. intros <-. congruence. }
  assert (alive x cur) as Hcur by (by exists t).
  assert (forall c tc kc, member x' c tc kc ->
    (c = child /\ p_pptr tc = cur /\ p_opptr kc = cur /\ tstate tc = TASK_RUNNING) \/
    (exists k0, member x c tc k0 /\ p_opptr kc = p_opptr k0 /\ exit_signal kc = exit_signal k0)) as Hm.
  { intros c tc kc (Hcin & Htc & Hkc). cbn in *. destruct (ident_back _ _ c kc (ident_link _ _ _ c) Hkc) as (k0 & Hk0 & Hid).
    apply ident_fields in Hid as (Ho & He & _). destruct (decide (c = child)) as [->|Hne].
    - left. rewrite lookup_insert_eq in Htc. rewrite lookup_insert_eq in Hk0. simplify_eq. done.
    - right. rewrite lookup_insert_ne in Htc by done. rewrite lookup_insert_ne in Hk0 by done. exists k0. split; [|done]. split_and!; [|done|done].
      apply elem_of_app in Hcin as [?|?%list_elem_of_singleton]; done. }
  constructor; try done; try (by apply Hal).
  - intros c tc. cbn. intros Hcin Htc. destruct (decide (c = child)) as [->|Hne].
    + rewrite lookup_insert_eq in Htc. simplify_eq. cbn. split; [done|]. pose proof (proj2 (H2 cur t Hin Ht)). destruct share; [tauto|done].
    + rewrite lookup_insert_ne in Htc by done. apply (H2 c); [|done]. apply elem_of_app in Hcin as [?|?%list_elem_of_singleton]; done.
  - intros c tc kc [(-> & -> & _)|(k0 & Hm0 & _)]%Hm; left; [by apply Hal|]. destruct (H3 c tc k0 Hm0); [by apply Hal|done].
  - intros c tc kc [(-> & _ & -> & _)|(k0 & Hm0 & -> & _)]%Hm; left; [by apply Hal|]. destruct (H4 c tc k0 Hm0); [by apply Hal|done].
  - intros c tc kc [(-> & -> & -> & _)|(k0 & Hm0 & -> & _)]%Hm; [done|]. by apply (H7 c tc k0).
  - intros w a Ha. destruct (H8 w a Ha) as (Hw0 & tw & Htw & Hst). split; [done|]. exists tw. split; [|done].
    cbn. rewrite lookup_insert_ne; [done|]. intros <-. congruence.
  - intros w pid options g tw c tc kc u Ha Hpid Htw Hi [(-> & _ & _ & Hr)|(k0 & Hm0 & Hop0 & Hex)]%Hm Hpp Hop Hzc Hun; [by rewrite Hr in Hzc|].
    cbn in Htw. destruct (H8 w _ Ha) as (_ & tw0 & Htw0 & _). assert (w <> child) as Hwc by congruence. rewrite lookup_insert_ne in Htw by done.
    rewrite (eligible_same u pid options c tc tc k0 kc) by done. eapply (H9 w pid options g tw); eauto. by eapply told_same.
Qed.

Lemma xinv_prctl x ch cur b arg : xinv x ch None None -> xinv (sys_prctl cur x b arg).2 ch None None.
Proof. intros Hinv. unfold sys_prctl. repeat case_match; try done. cbn. by apply xinv_upd. Qed.

Lemma xinv_attach cur admin alloc x ch pid allowed r x' : xinv x ch None None -> alive x cur -> cur <> child_reaper -> waiting x !! cur = None ->
  ptrace_attach cur admin alloc x pid allowed = Some (r, x') -> exists ch', xinv x' ch' None None.
Proof.
  intros Hinv Hal Hne Hw. unfold ptrace_attach. destruct (tasks (sg x) !! pid) as [t|] eqn:Ht; [|intros; simplify_eq; eauto].
  destruct (pid =? 0) eqn:H0; [intros; simplify_eq; eauto|]. destruct (_ || ptraced t); [intros; simplify_eq; eauto|].
  pose proof (iv_family _ _ _ _ Hinv) as Hfam. destruct (proj2 (fm_dom _ _ _ Hfam pid)) as [k Hk]; [by eexists|].
  assert (member x pid t k) as Hm. { split_and!; [|done|done]. apply (fm_ring _ _ _ Hfam). split; [lia|by eexists]. }
  match goal with |- context [send_sig (sg ?y) _ _ _ _ _ _] => assert (exists ch', xinv y ch' None None) as [ch' Hinv'] end.
  { destruct (negb (p_pptr t =? cur)) eqn:Hp.
    - exists (moved ch (p_pptr t) pid cur). fold (relinked x pid (fun t => with_parent t cur true)).
      eapply xinv_unwaited; [apply (xinv_relinked x ch pid _ t k cur Hinv Hm); [by apply reparented_with|done|by right]| |].
      + rewrite (relinked_eq x pid _ t k) by done. cbn. apply lookup_insert_eq.
      + rewrite (relinked_eq x pid _ t k) by done. exact Hw.
    - exists ch. unfold upd_task. rewrite Ht. apply (xinv_local_state pid); [| |done].
      + eapply local_set; [exact Ht| |reflexivity|reflexivity]. constructor; try done. cbn. lia.
      + intros a t0 t' _ Ht0. cbn. rewrite lookup_insert_eq. intros. by simplify_eq. }
  destruct (send_sig _ _ _ _ _ _ _) as [[r1 st]|] eqn:Hs; [|done]. cbn. intros [= <- <-]. exists ch'.
  eapply xinv_quiet; [|exact Hinv']. apply xquiet_sg. by eapply send_quiet.
Qed.

Lemma xinv_detach cur x ch pid data : xinv x ch None None -> exists ch', xinv (ptrace_detach cur x pid data).2 ch' None None.
Proof.
  intros Hinv. unfold ptrace_detach. destruct (tasks (sg x) !! pid) as [t|] eqn:Ht; [|by exists ch]. destruct (kins x !! pid) as [k|] eqn:Hk; [|by exists ch].
  destruct (pid =? 0) eqn:H0; [by exists ch|]. destruct (pid =? 1); [by exists ch|]. destruct (_ || negb (p_pptr t =? cur)) eqn:Hg; [by exists ch|].
  destruct (NSIG <? u32 data); [by exists ch|]. bool_hyps. assert (tstate t = TASK_STOPPED) as Hst by lia.
  set (t1 := with_exit (with_parent t (p_pptr t) false) (s32 data)). set (x1 := upd_task pid (fun t => with_exit (with_parent t (p_pptr t) false) (s32 data)) x).
  assert (x1 = with_sg x (set_task (sg x) pid t1)) as Hx1 by (unfold x1, upd_task; by rewrite Ht).
  assert (xinv x1 ch None None) as Hinv1.
  { rewrite Hx1. apply (xinv_local_state pid); [eapply local_set; [exact Ht| |reflexivity|reflexivity]; by constructor| |done].
    intros a t0 t' _ Ht0. cbn. rewrite lookup_insert_eq. intros. by simplify_eq. }
  pose proof (iv_family _ _ _ _ Hinv1) as Hfam. assert (tasks (sg x1) !! pid = Some t1) as Ht1 by (rewrite Hx1; cbn; apply lookup_insert_eq).
  assert (member x1 pid t1 k) as Hm. { split_and!; [|done|by rewrite Hx1]. apply (fm_ring _ _ _ Hfam). split; [lia|by eexists]. }
  fold (relinked x1 pid (fun t => with_parent t (p_opptr k) false)). cbn [snd].
  set (x2 := relinked x1 pid _). set (t2 := with_parent t1 (p_opptr k) false).
  assert (tasks (sg x2) !! pid = Some t2) as Ht2.
  { unfold x2. rewrite (relinked_eq x1 pid _ t1 k) by apply Hm. cbn. apply lookup_insert_eq. }
  assert (xinv x2 (moved ch (p_pptr t1) pid (p_opptr k)) None None) as Hinv2.
  { eapply xinv_seen; [apply (xinv_relinked x1 ch pid _ t1 k (p_opptr k) Hinv1 Hm); [by apply reparented_with| |by left]|exact Ht2|cbn; by rewrite Hst].
    destruct (iv_origin _ _ _ _ Hinv1 pid t1 k Hm); done. }
  eexists. eapply xinv_quiet; [|exact Hinv2]. unfold upd_task. rewrite Ht2. apply xquiet_sg. eapply quietly_set; [exact Ht2| |done|done].
  constructor; try done; cbn; rewrite Hst; [by right|done].
Qed.

(** The calls that set the group or the session of a process (see [Task]). *)
Definition set_group (x : xstate) (p pg sess : Z) (ld : bool) : xstate := upd_task p (fun t => with_group t pg sess ld) x.

Lemma xinv_group x ch cur p pg sess ld t k : xinv x ch None None -> waiting x !! cur = None -> alive x cur -> member x p t k ->
  (p = cur \/ p_pptr t = cur \/ p_opptr k = cur) -> xinv (set_group x p pg sess ld) ch None None.
Proof.
  intros [H1 H2 H3 H4 H5 H6 H7 H8 H9] Hw Hal (Hin & Ht & Hk) Hor. unfold set_group.
  assert (family (upd_task p (fun t => with_group t pg sess ld) x) ch None) as Hfam by (by apply family_upd_task).
  unfold upd_task in *. rewrite Ht in *. set (t1 := with_group t pg sess ld) in *. set (x' := with_sg x _) in *.
  assert (forall q tq, tasks (sg x') !! q = Some tq -> exists t0, tasks (sg x) !! q = Some t0 /\ p_pptr tq = p_pptr t0 /\ tstate tq = tstate t0 /\
    sigh tq = sigh t0 /\ (q <> p -> tq = t0)) as Hback.
  { intros q tq. cbn. destruct (decide (q = p)) as [->|]; [rewrite lookup_insert_eq; intros [= <-]; by exists t|].
    rewrite lookup_insert_ne by done. intros. by exists tq. }
  assert (forall q, alive x q -> alive x' q) as Hal'.
  { intros q (tq & Htq & Hz). destruct (decide (q = p)) as [->|]; [exists t1; cbn; rewrite lookup_insert_eq; split; [done|]; cbn; congruence|].
    exists tq. cbn. by rewrite lookup_insert_ne. }
  constructor; try done; try (by apply Hal').
  - intros q tq Hq (t0 & Ht0 & _ & -> & -> & _)%Hback. by apply (H2 q).
  - intros q tq kq (Hq & (t0 & Ht0 & -> & _)%Hback & Hkq). left. destruct (H3 q t0 kq); [done|by apply Hal'|done].
  - intros q tq kq (Hq & (t0 & Ht0 & _)%Hback & Hkq). left. destruct (H4 q t0 kq); [done|by apply Hal'|done].
  - intros q tq kq (Hq & (t0 & Ht0 & -> & _)%Hback & Hkq). by apply (H7 q t0).
  - intros w a Ha. destruct (H8 w a Ha) as (Hw0 & tw & Htw & Hst). split; [done|]. cbn. destruct (decide (w = p)) as [->|].
    + exists t1. rewrite lookup_insert_eq. split; [done|]. cbn. congruence.
    + exists tw. by rewrite lookup_insert_ne.
  - intros w pid options g tw c tc kc u Ha Hpid (tw0 & Htw0 & _ & Hsw & _)%Hback Hi (Hc & (tc0 & Htc0 & Hpp0 & Hsc & _ & Hsame)%Hback & Hkc) Hpp Hop Hz Hun.
    cbn in *. rewrite Hsw in Hi. rewrite Hsc in Hz. rewrite Hpp0 in Hpp. destruct (decide (c = p)) as [->|Hne].
    + assert (tc0 = t) as -> by congruence. assert (kc = k) as -> by congruence.
      destruct Hor as [->|[Hp|Hp]]; [destruct Hal as (tcur & Htcur & Hzc); congruence|congruence|]. destruct Hop as [Hop|[Hop Hone]]; [congruence|].
      assert (eligible u pid options p tc k = eligible u pid options p t k) as ->.
      { unfold eligible. destruct Hone as [->|Hone]; [done|]. by rewrite (proj2 (Z.ltb_lt 0 pid) Hone). }
      eapply (H9 w pid options g tw0 p t k u); try done. by right.
    + rewrite (Hsame Hne). by eapply (H9 w pid options g tw0 c tc0).
Qed.

(** ** The machine *)

Definition free (x : xstate) (cur : Z) : Prop :=
  cur ∈ order (sg x) /\ waiting x !! cur = None /\ exists t, tasks (sg x) !! cur = Some t /\ tstate t = TASK_RUNNING.

(** Init does not exit and traces nobody. *)
Inductive x_step (x : xstate) : xstate -> Prop :=
| xs_exit cur admin garbage alloc code tty old x' : free x cur -> cur <> child_reaper ->
    do_exit cur admin garbage alloc (length (order (sg x))) x code tty old = Some (true, x') -> x_step x x'
| xs_wait cur admin garbage alloc pid options stat_addr ru r x' : free x cur ->
    sys_wait4 cur admin garbage alloc (length (order (sg x))) x pid options stat_addr ru = Some (r, x') -> x_step x x'
| xs_resume cur admin garbage alloc pid options g stat_addr ru t r x' : waiting x !! cur = Some (pid, options, g) ->
    tasks (sg x) !! cur = Some t -> tstate t = TASK_RUNNING ->
    wait_pass cur admin garbage alloc (length (order (sg x))) x pid options stat_addr ru = Some (r, x') -> x_step x x'
| xs_fork cur child flags t share trace h : free x cur -> tasks (sg x) !! child = None -> child <> 0 -> tasks (sg x) !! cur = Some t ->
    x_step x (fork_family cur x child flags t share trace h)
| xs_prctl cur b arg : free x cur -> x_step x (sys_prctl cur x b arg).2
| xs_attach cur admin alloc pid allowed r x' : free x cur -> cur <> child_reaper ->
    ptrace_attach cur admin alloc x pid allowed = Some (r, x') -> x_step x x'
| xs_detach cur pid data : free x cur -> x_step x (ptrace_detach cur x pid data).2
| xs_group cur p t k pg sess ld : free x cur -> member x p t k -> p = cur \/ p_pptr t = cur \/ p_opptr k = cur ->
    x_step x (set_group x p pg sess ld)
| xs_send cur admin sig info p alloc r st' : send_sig_info (sg x) cur admin sig info p alloc = Some (r, st') -> x_step x (with_sg x st')
| xs_deliver cur admin orphaned dumped garbage alloc frame d st' : free x cur ->
    do_signal_turn (sg x) cur admin orphaned dumped garbage alloc frame = Some (d, st') -> (forall code, d <> Exit code) -> x_step x (with_sg x st').

Lemma xinv_step x ch x' : xinv x ch None None -> x_step x x' -> exists ch', xinv x' ch' None None.
Proof.
  intros Hinv Hs.
  assert (forall cur, free x cur -> cur <> 0 /\ waiting x !! cur = None /\ exists t, tasks (sg x) !! cur = Some t /\ tstate t = TASK_RUNNING) as Hfree.
  { intros cur (Hin & Hw & Ht). split; [|done]. by apply (fm_ring _ _ _ (iv_family _ _ _ _ Hinv)) in Hin as [? _]. }
  assert (forall cur, free x cur -> alive x cur) as Halive.
  { intros cur (Hin & Hw & t & Ht & Hr). exists t. split; [done|]. by rewrite Hr. }
  destruct Hs.
  - destruct (Hfree cur) as (H0' & Hw & t & Ht & Hr); [done|].
    destruct (xinv_do_exit _ _ _ _ _ _ _ _ _ _ _ _ Hinv Ht H0' H0 Hw H1) as (_ & ch' & ? & _). eauto.
  - destruct (Hfree cur) as (H0' & Hw & t & Ht & Hr); [done|]. unfold sys_wait4 in H0. destruct (bad_options options); [simplify_eq; eauto|].
    destruct (wait_pass_spec cur admin garbage alloc (length (order (sg x))) x ch t pid options stat_addr ru Hinv H0' Ht Hr (le_n _)) as (r' & x2 & ch' & He & Hi & _).
    rewrite He in H0. simplify_eq. eauto.
  - destruct (iv_waiting _ _ _ _ Hinv cur _ H) as [Hc0 _].
    destruct (wait_pass_spec cur admin garbage alloc (length (order (sg x))) x ch t pid options stat_addr ru Hinv Hc0 H0 H1 (le_n _)) as (r' & x2 & ch' & He & Hi & _).
    rewrite He in H2. simplify_eq. eauto.
  - eexists. eapply xinv_fork; eauto; [apply H|]. destruct (Halive cur H) as (t' & Ht' & ?). congruence.
  - eexists. by apply xinv_prctl.
  - eapply xinv_attach; eauto. apply H.
  - by eapply xinv_detach.
  - eexists. eapply xinv_group; eauto. apply H.
  - eexists. eapply xinv_quiet; [|done]. apply xquiet_sg. by eapply send_quiet.
  - destruct (Hfree cur) as (H0' & Hw & t & Ht & Hr); [done|]. eexists. eapply xinv_local; [|exact Hw|done]. eapply turn_local; eauto. by rewrite Hr.
Qed.

(** The idle task and init. *)
Definition init_usage : usage := Usage 0 0 0 0 0 0 0 0 0 0.

Definition x_init : xstate :=
  XState (State {[0 := first_task; 1 := first_task]} [1] (fun _ _ => Sigaction SIG_DFL 0 sigemptyset) 0 1024 0 ∅)
    {[0 := Kin 0 (Some 1) None None SIGCHLD 0 init_usage; 1 := Kin 0 None None None SIGCHLD 0 init_usage]} ∅.

Lemma init_lookup p t : tasks (sg x_init) !! p = Some t -> (p = 0 /\ t = first_task) \/ (p = 1 /\ t = first_task).
Proof.
  cbn. destruct (decide (p = 0)) as [->|]; [rewrite lookup_insert_eq; intros; simplify_eq; by left|]. rewrite lookup_insert_ne by done.
  destruct (decide (p = 1)) as [->|]; [rewrite lookup_singleton_eq; intros; simplify_eq; by right|]. by rewrite lookup_singleton_ne.
Qed.

Definition init_children (p : Z) : list Z := if p =? 0 then [1] else [].

Lemma xinv_init : xinv x_init init_children None None.
Proof.
  assert (alive x_init 0 /\ alive x_init 1) as [Ha0 Ha1] by (split; eexists; (split; [by vm_compute|done])).
  assert (forall p k, kins x_init !! p = Some k -> (p = 0 /\ k = Kin 0 (Some 1) None None SIGCHLD 0 init_usage) \/ (p = 1 /\ k = Kin 0 None None None SIGCHLD 0 init_usage)) as Hk.
  { intros p k. cbn. destruct (decide (p = 0)) as [->|]; [rewrite lookup_insert_eq; intros; simplify_eq; by left|]. rewrite lookup_insert_ne by done.
    destruct (decide (p = 1)) as [->|]; [rewrite lookup_singleton_eq; intros; simplify_eq; by right|]. by rewrite lookup_singleton_ne. }
  assert (forall p t k, member x_init p t k -> p = 1 /\ t = first_task /\ p_opptr k = 0) as Hm.
  { intros p t k (Hin%list_elem_of_singleton & Ht & Hkk). subst p. destruct (init_lookup 1 t Ht) as [[]|[]]; [done|]. destruct (Hk 1 k Hkk) as [[]|[]]; [done|]. by subst. }
  constructor; try done.
  - constructor.
    + constructor.
      * intros p k [[-> ->]|[-> ->]]%Hk; done.
      * intros p. exists None. unfold init_children. case_match; [|done]. split; [|done]. cbn. split; [|done]. eexists. split; [by vm_compute|done].
      * intros p. unfold init_children. case_match; [apply NoDup_singleton|constructor].
      * intros p q c. unfold init_children. repeat case_match; rewrite ?list_elem_of_singleton; intros; try lia; by match goal with H : _ ∈ [] |- _ => apply not_elem_of_nil in H end.
    + intros p. split; intros [y Hy].
      * destruct (Hk p y Hy) as [[-> _]|[-> _]]; eexists; by vm_compute.
      * destruct (init_lookup p y Hy) as [[-> _]|[-> _]]; eexists; by vm_compute.
    + intros p. cbn. rewrite list_elem_of_singleton. split; [intros ->; split; [done|eexists; by vm_compute]|].
      intros [H0 [t Ht]]. by destruct (init_lookup p t Ht) as [[]|[]].
    + apply NoDup_singleton.
    + intros p c. cbn. rewrite list_elem_of_singleton. unfold init_children. destruct (p =? 0) eqn:E; rewrite ?list_elem_of_singleton.
      * split; [intros ->; split; [done|]; assert (pptr x_init 1 = 0) by (by vm_compute); lia|tauto].
      * split; [by intros ?%not_elem_of_nil|]. intros [-> Hp]. assert (pptr x_init 1 = 0) by (by vm_compute). lia.
  - intros p t Hin Ht. by destruct (init_lookup p t Ht) as [[-> ->]|[-> ->]].
  - intros p t k (-> & -> & _)%Hm. by left.
  - intros p t k (-> & -> & ->)%Hm. by left.
  - intros p t k (-> & -> & _)%Hm. done.
Qed.

Lemma xinv_reachable x : rtc x_step x_init x -> exists ch, xinv x ch None None.
Proof.
  intros Hr. assert (exists ch, xinv x_init ch None None) as Hi by (eexists; apply xinv_init). revert Hi.
  induction Hr as [|y z w Hs _ IH]; [done|]. intros [ch Hi]. apply IH. by eapply xinv_step.
Qed.

(** ** [do_exit] ends *)

Section Total.
Context (cur : Z) (admin : bool) (garbage : Z) (alloc : Z -> bool).

Lemma send_each_total l st q sig retval n : sig < SIGRTMIN ->
  exists r m st', send_each st l q cur admin sig SendKernel alloc retval n = Some (r, m, st').
Proof.
  intros Hs. revert st retval n. induction l as [|p l IH]; intros st retval n; cbn; [eauto|].
  destruct (tasks st !! p) as [t|]; [|apply IH]. destruct (q p t); [|apply IH].
  destruct (send_total st cur admin sig SendKernel p (alloc p)) as (r & st' & ->); [by left|]. cbn. case_match; apply IH.
Qed.

Lemma kill_pg_total st pg sig : sig < SIGRTMIN -> exists r st', kill_pg st cur admin pg sig true alloc = Some (r, st').
Proof.
  intros Hs. unfold kill_pg, kill_pg_info, kill_each. cbn. case_match; [|eauto].
  destruct (send_each_total (order st) st (fun _ t => pgrp t =? pg) sig (- ESRCH) 0 Hs) as (r & m & st' & ->). cbn. eauto.
Qed.

Lemma hangup_total x pg : exists x', hangup_group cur admin alloc x pg = Some x'.
Proof.
  unfold hangup_group. destruct (kill_pg_total (sg x) pg SIGHUP) as (r & st & ->); [done|]. cbn.
  destruct (kill_pg_total st pg SIGCONT) as (r' & st' & ->); [done|]. cbn. eauto.
Qed.

Lemma disassociate_total x tty old : exists x', disassociate_ctty cur admin alloc x tty old = Some x'.
Proof.
  unfold disassociate_ctty. destruct tty as [pg|]; [|destruct (old =? 0); [eauto|apply hangup_total]].
  destruct (0 <? pg); [|eauto]. destruct (kill_pg_total (sg x) pg SIGHUP) as (r & st & ->); [done|]. cbn. eauto.
Qed.

Lemma forget_total l x father : (forall p k, kins x !! p = Some k -> pdeath_signal k < SIGRTMIN) ->
  exists x', forget_each cur admin alloc x l father = Some x'.
Proof.
  revert x. induction l as [|p l IH]; intros x Hp; cbn; [eauto|]. destruct (kins x !! p) as [k|] eqn:Hk; [|by apply IH].
  case_match; [|by apply IH].
  assert (forall q kq, alter (fun k => set_opptr child_reaper (set_exit_signal SIGCHLD k)) p (kins x) !! q = Some kq -> pdeath_signal kq < SIGRTMIN) as Hp'.
  { intros q kq. destruct (decide (q = p)) as [->|]; [rewrite lookup_alter_eq, Hk; intros Hq; injection Hq as <-; exact (Hp p k Hk)|].
    rewrite lookup_alter_ne by done. apply Hp. }
  case_match; [by apply IH|]. unfold send_sig.
  match goal with |- context [send_sig_info ?a ?b ?c ?d ?e ?f ?g] => destruct (send_total a b c d e f g) as (r & st' & ->) end; [left; by apply (Hp p)|].
  cbn. by apply IH.
Qed.

Lemma turn_total x ch p l : xinv x ch (Some cur) None -> settled x cur -> is_Some (tasks (sg x) !! cur) -> ch cur = p :: l ->
  exists x', inherit_turn cur admin garbage alloc x p = Some x'.
Proof.
  intros Hinv Hset [tc Htc] Hc. pose proof (iv_family _ _ _ _ Hinv) as Hfam.
  destruct (child_member x ch _ cur p Hfam) as (t & k & (Hin & Ht & Hk) & Hpp & _); [rewrite Hc; by left|].
  unfold inherit_turn. rewrite Hk. cbn [mbind option_bind]. fold (inherited x cur p k).
  pose proof (handed_inherited x cur p k t Ht Hk Hpp) as Hh.
  destruct (hd_tasks _ _ _ Hh p t k Ht Hk) as (t1 & Ht1 & _). rewrite Ht1. cbn [mbind option_bind].
  assert (exists x1, (if tstate t1 =? TASK_ZOMBIE then notify_parent cur admin garbage alloc (inherited x cur p k) p (exit_signal k) else Some (inherited x cur p k)) = Some x1 /\
    xquiet (inherited x cur p k) x1) as (x1 & -> & Hq).
  { case_match; [|by eexists]. destruct (notify_total cur admin garbage alloc (inherited x cur p k) p (exit_signal k)) as [x1 Hn].
    exists x1. split; [done|by eapply xquiet_notify]. }
  cbn [mbind option_bind]. destruct (proj2 (fm_dom _ _ _ Hfam cur)) as [kc Hkc]; [by eexists|].
  destruct (hd_tasks _ _ _ Hh cur tc kc Htc Hkc) as (tc1 & Htc1 & _). destruct (quietly_fwd _ _ cur tc1 (xq_sg _ _ Hq) Htc1) as (tc2 & Htc2 & _).
  rewrite Htc2. cbn [mbind option_bind]. repeat case_match; eauto. apply hangup_total.
Qed.

Lemma inherit_total fuel x ch : xinv x ch (Some cur) None -> settled x cur -> is_Some (tasks (sg x) !! cur) -> (length (ch cur) <= fuel)%nat ->
  exists x', inherit cur admin garbage alloc fuel x = Some (true, x').
Proof.
  revert x ch. induction fuel as [|fuel IH]; intros x ch Hinv Hset [t Ht] Hf; cbn; rewrite (cptr_head x ch (Some cur) cur t) by (by try apply Hinv);
    destruct (ch cur) as [|p l] eqn:Hc; cbn in *; eauto; [lia|].
  destruct (turn_total x ch p l Hinv Hset) as [x1 Hturn]; [by eexists|done|]. rewrite Hturn. cbn.
  destruct (xinv_turn cur admin garbage alloc x ch p l x1 Hinv Hset Hc Hturn) as (ch1 & Hinv1 & Hset1 & Hc1 & Hh1).
  destruct (proj2 (fm_dom _ _ _ (iv_family _ _ _ _ Hinv) cur)) as [k Hk]; [by eexists|].
  destruct (hd_tasks _ _ _ Hh1 cur t k Ht Hk) as (t1 & Ht1 & _). eapply IH; [exact Hinv1|done|by eexists|]. rewrite Hc1. lia.
Qed.

Lemma own_group_total x ch unseen t : xinv x ch (Some cur) unseen -> cur ∈ order (sg x) -> tasks (sg x) !! cur = Some t -> exists x', orphan_own_group cur admin alloc x = Some x'.
Proof.
  intros Hinv Hin Ht. unfold orphan_own_group. rewrite Ht. cbn [mbind option_bind].
  destruct (proj2 (fm_dom _ _ _ (iv_family _ _ _ _ Hinv) cur)) as [k Hk]; [by eexists|].
  assert (is_Some (tasks (sg x) !! p_pptr t)) as [tp ->].
  { destruct (iv_parent _ _ _ _ Hinv cur t k) as [(tp & -> & _)|[= ->]]; [done|by eexists|by eexists]. }
  cbn [mbind option_bind]. case_match; [apply hangup_total|eauto].
Qed.

Lemma do_exit_total x ch code tty old t : xinv x ch None None -> tasks (sg x) !! cur = Some t -> cur <> 0 -> cur <> child_reaper ->
  waiting x !! cur = None -> (forall p k, kins x !! p = Some k -> pdeath_signal k < SIGRTMIN) ->
  exists x', do_exit cur admin garbage alloc (length (order (sg x))) x code tty old = Some (true, x').
Proof.
  intros Hinv Ht H0 H1 Hw Hp. pose proof (xinv_dying x ch cur code t Hinv Ht H0 H1 Hw) as Hd. destruct (dying_rest x cur code t Ht) as (Ho & Hk & _).
  unfold do_exit. rewrite (proj2 (Z.eqb_neq cur 0) H0), Ht. cbn [mbind option_bind]. fold (dying x cur code t).
  unfold exit_notify, forget_original_parent.
  destruct (forget_total (order (sg (dying x cur code t))) (dying x cur code t) cur) as [x1 Hf]; [by rewrite Hk|]. rewrite Hf. cbn [mbind option_bind].
  apply forget_each_spec in Hf; [|done]. pose proof (xinv_forgets _ _ _ _ _ H1 Hf Hd) as Hi1.
  destruct (dying_task x cur code t Ht) as (td & Htd & _). assert (tasks (sg (dying x cur code t)) !! cur = Some td) as Hcd by (rewrite Htd; apply lookup_insert_eq).
  destruct (quietly_fwd _ _ cur td (fg_quiet _ _ _ _ Hf) Hcd) as (t1 & Ht1 & _).
  assert (cur ∈ order (sg x1)) as Hin. { apply (fm_ring _ _ _ (iv_family _ _ _ _ Hi1)). split; [done|by eexists]. }
  destruct (own_group_total x1 ch _ t1 Hi1 Hin Ht1) as [x2 H2]. rewrite H2. cbn [mbind option_bind]. pose proof (orphan_own_quiet _ _ _ _ _ H2) as Hq2.
  pose proof (xinv_quiet _ _ _ _ _ Hq2 Hi1) as Hi2. destruct (quietly_fwd _ _ cur t1 (xq_sg _ _ Hq2) Ht1) as (t2 & Ht2 & _).
  destruct (proj2 (fm_dom _ _ _ (iv_family _ _ _ _ Hi2) cur)) as [k2 ->]; [by eexists|]. cbn [mbind option_bind].
  destruct (notify_total cur admin garbage alloc x2 cur (exit_signal k2)) as [x3 H3]. rewrite H3. cbn [mbind option_bind].
  pose proof (xinv_notify _ _ _ _ _ _ _ _ _ _ _ H3 (or_intror eq_refl) Hi2) as Hi3. pose proof (xquiet_notify _ _ _ _ _ _ _ _ H3) as Hq3.
  destruct (quietly_fwd _ _ cur t2 (xq_sg _ _ Hq3) Ht2) as (t3 & Ht3 & _).
  assert (settled x3 cur) as Hset by (apply (settled_quiet cur x1 x3); [by etrans|]; intros c tc kc; by eapply forgets_origin).
  destruct (inherit_total (length (order (sg x))) x3 ch Hi3 Hset) as [x4 H4]; [by eexists| |].
  { apply submseteq_length, NoDup_submseteq; [apply (fm_chains _ _ _ (iv_family _ _ _ _ Hinv))|].
    intros p Hin'. by apply (fm_child _ _ _ (iv_family _ _ _ _ Hinv)) in Hin' as [? _]. }
  rewrite H4. cbn [mbind option_bind].
  destruct (xinv_inherit _ _ _ _ _ _ _ _ _ Hi3 Hset (mk_is_Some _ _ Ht3) H4) as (Hh & _).
  destruct (proj2 (fm_dom _ _ _ (iv_family _ _ _ _ Hi3) cur)) as [k3 Hk3]; [by eexists|].
  destruct (hd_tasks _ _ _ Hh cur t3 k3 Ht3 Hk3) as (t4 & -> & _). cbn [mbind option_bind].
  destruct (leader t4); [|cbn; eauto]. destruct (disassociate_total x4 tty old) as [x5 ->]. cbn. eauto.
Qed.

End Total.
