(* ===== verification/ExitOrphan.v ===== *)
(** * Orphaned process groups

    When the exit of a process cuts the last connection of a group to the rest of its
    session, no process of the group stays stopped (POSIX 3.2.2.2). *)

From stdpp Require Import functions.
From S2P Require Import Prelude Signal SignalProof Exit ExitProof ExitInv ExitSteps ExitMachine.

(** ** SIGCONT *)

Definition stopped_in (st : state) (g p : Z) : Prop :=
  exists t, tasks st !! p = Some t /\ pgrp t = g /\ tstate t = TASK_STOPPED.

Lemma has_stopped_spec st g : has_stopped_jobs st g = false <-> forall p, p ∈ order st -> ~ stopped_in st g p.
Proof.
  unfold has_stopped_jobs. rewrite <- not_true_iff_false, existsb_exists. split.
  - intros Hn p Hp (t & Ht & Hg & Hs). apply Hn. exists p. rewrite Ht. split; [by apply list_elem_of_In|]. lia.
  - intros Hn (p & Hp & Hs). apply (Hn p); [by apply list_elem_of_In|]. destruct (tasks st !! p) as [t|] eqn:Ht; [|done].
    bool_hyps. exists t. split_and!; [done|lia|lia].
Qed.

Lemma stopped_quiet st st' g p : quietly st st' -> stopped_in st' g p -> stopped_in st g p.
Proof.
  intros Hq (t' & Ht' & Hg & Hs). destruct (quietly_back _ _ p t' Hq Ht') as (t & Ht & Hqt). exists t. rewrite <- (q_pgrp _ _ Hqt). split_and!; [done|done|].
  destruct (q_state _ _ Hqt) as [<-|[Hr _]]; [done|]. by rewrite Hr in Hs.
Qed.

Lemma running_sent st p t : tstate t = TASK_RUNNING -> forall t', tasks (notify_task st p t) !! p = Some t' -> tstate t' = TASK_RUNNING.
Proof. intros Hr t'. unfold notify_task. cbn. rewrite lookup_insert_eq. intros [= <-]. case_match; done. Qed.

(** SIGCONT from the kernel starts a process that can take signals. *)
Lemma sigcont_starts st cur admin p alloc t r st' : is_Some (tasks st !! cur) -> tasks st !! p = Some t -> sigh t <> None ->
  send_sig_info st cur admin SIGCONT SendKernel p alloc = Some (r, st') -> r = 0 /\ forall g, ~ stopped_in st' g p.
Proof.
  intros [c Hc] Ht Hs. unfold send_sig_info. rewrite Hc, Ht. change ((SIGCONT <? 0) || (NSIG <? SIGCONT)) with false. cbv iota.
  assert (may_signal c admin SIGCONT SendKernel t = true) as -> by done. cbn [negb]. change (SIGCONT =? 0) with false.
  destruct (sigh t) as [h|] eqn:Hh; [|done]. cbn [orb].
  assert (tstate (stop_or_continue SIGCONT t) <> TASK_STOPPED) as Hns.
  { unfold stop_or_continue. cbn. destruct (tstate t =? TASK_STOPPED) eqn:E; cbn; [done|lia]. }
  assert (forall y u, tstate u = tstate (stop_or_continue SIGCONT t) -> forall g, ~ stopped_in (notify_task y p u) g p) as Hn.
  { intros y u Hu g (tu & Htu & _ & Hst). unfold notify_task in Htu. cbn in Htu. rewrite lookup_insert_eq in Htu. injection Htu as <-.
    revert Hst. case_match; [done|]. by rewrite Hu. }
  cbv zeta. clear Hns. revert Hn. generalize (stop_or_continue SIGCONT t). intros u Hn.
  destruct (ignored_signal _ _ _); [intros [= <- <-]; split; [done|]; by apply Hn|].
  change (SIGCONT <? SIGRTMIN) with true. cbv iota. intros Hx. apply (inj Some) in Hx. apply pair_equal_spec in Hx as [<- <-]. split; [done|]. apply Hn. destruct (sigismember _ _); reflexivity.
Qed.

Lemma send_each_continues l st g cur admin alloc retval n r m st' : is_Some (tasks st !! cur) ->
  (forall p t, p ∈ l -> tasks st !! p = Some t -> tstate t = TASK_STOPPED -> sigh t <> None) ->
  send_each st l (fun _ t => pgrp t =? g) cur admin SIGCONT SendKernel alloc retval n = Some (r, m, st') ->
  forall p, p ∈ l -> ~ stopped_in st' g p.
Proof.
  revert st retval n. induction l as [|q l IH]; intros st retval n Hc Hs; [by intros _ p ?%not_elem_of_nil|].
  intros Hse p Hp. pose proof (send_each_quiet _ _ _ _ _ _ _ _ _ _ _ _ _ Hse) as Hq0. cbn in Hse.
  assert (forall st1 retval n, quietly st st1 -> send_each st1 l (fun _ t => pgrp t =? g) cur admin SIGCONT SendKernel alloc retval n = Some (r, m, st') ->
    (p ∈ l -> ~ stopped_in st' g p) /\ quietly st1 st') as Hrest.
  { intros st1 rv k Hq Hse1. split; [|by eapply send_each_quiet]. intros Hpl. eapply (IH st1 rv k); [by apply (is_some_quiet _ _ cur Hq)| |done|done].
    intros a t1 Ha Ht1 Hst1. destruct (quietly_back _ _ a t1 Hq Ht1) as (t0 & Ht0 & Hqt). rewrite (q_sigh _ _ Hqt).
    apply (Hs a t0); [by right|done|]. destruct (q_state _ _ Hqt) as [<-|[Hr _]]; [done|]. by rewrite Hr in Hst1. }
  destruct (tasks st !! q) as [t|] eqn:Ht.
  - destruct (pgrp t =? g) eqn:Hg.
    + destruct (send_sig_info _ _ _ _ _ _ _) as [[err st1]|] eqn:Hsend; [|done]. cbn in Hse. pose proof (send_quiet _ _ _ _ _ _ _ _ _ Hsend) as Hq1.
      assert (exists rv k, send_each st1 l (fun _ t => pgrp t =? g) cur admin SIGCONT SendKernel alloc rv k = Some (r, m, st')) as (rv & k & Hse1) by (revert Hse; case_match; eauto).
      destruct (Hrest st1 rv k Hq1 Hse1) as [Hl Hq2]. apply elem_of_cons in Hp as [->|Hp]; [|by apply Hl].
      intros Hstop. pose proof (stopped_quiet _ _ _ _ Hq2 Hstop) as Hstop1. pose proof (stopped_quiet _ _ _ _ Hq1 Hstop1) as (t0 & Ht0 & _ & Hst0).
      assert (t0 = t) as -> by congruence. destruct (sigcont_starts st cur admin q (alloc q) t err st1 Hc Ht) as [_ Hno]; [apply (Hs q t); [by left|done|done]|done|].
      by apply (Hno g).
    + destruct (Hrest st _ _ (reflexivity _) Hse) as [Hl Hq2]. apply elem_of_cons in Hp as [->|Hp]; [|by apply Hl].
      intros (t0 & Ht0 & Hg0 & _)%(stopped_quiet _ _ _ _ Hq2). assert (t0 = t) as -> by congruence. lia.
  - destruct (Hrest st _ _ (reflexivity _) Hse) as [Hl Hq2]. apply elem_of_cons in Hp as [->|Hp]; [|by apply Hl].
    intros (t0 & Ht0 & _)%(stopped_quiet _ _ _ _ Hq2). congruence.
Qed.

(** Every stopped process can take signals. *)
Definition takers (st : state) : Prop := forall p t, p ∈ order st -> tasks st !! p = Some t -> tstate t = TASK_STOPPED -> sigh t <> None.

Lemma xinv_takers x ch lax unseen : xinv x ch lax unseen -> takers (sg x).
Proof. intros Hi p t Hin Ht Hs Hn. apply (iv_dead _ _ _ _ Hi p t Hin Ht) in Hn. by rewrite Hs in Hn. Qed.

Lemma takers_quiet st st' : quietly st st' -> takers st -> takers st'.
Proof.
  intros Hq Ht p t' Hin Ht' Hs. rewrite (ql_order _ _ Hq) in Hin. destruct (quietly_back _ _ p t' Hq Ht') as (t & Ht0 & Hqt).
  rewrite (q_sigh _ _ Hqt). apply (Ht p t Hin Ht0). destruct (q_state _ _ Hqt) as [<-|[Hr _]]; [done|]. by rewrite Hr in Hs.
Qed.

Lemma hangup_continues cur admin alloc x g x' : 0 < g -> is_Some (tasks (sg x) !! cur) -> takers (sg x) ->
  hangup_group cur admin alloc x g = Some x' -> has_stopped_jobs (sg x') g = false.
Proof.
  intros Hg Hc Hs. unfold hangup_group. destruct (kill_pg (sg x) _ _ _ _ _ _) as [[r st1]|] eqn:H1; [|done]. cbn [mbind option_bind].
  destruct (kill_pg st1 _ _ _ _ _ _) as [[r2 st2]|] eqn:H2; [|done]. cbn. intros [= <-]. cbn. apply kill_pg_quiet in H1.
  unfold kill_pg, kill_pg_info, kill_each in H2. rewrite (proj2 (Z.ltb_lt 0 g) Hg) in H2. cbn [priv_info] in H2.
  destruct (send_each _ _ _ _ _ _ _ _ _ _) as [[[r3 n3] st3]|] eqn:H3; [|done]. cbn in H2. injection H2 as <- <-.
  apply has_stopped_spec. intros p Hp. rewrite (ql_order _ _ (send_each_quiet _ _ _ _ _ _ _ _ _ _ _ _ _ H3)) in Hp.
  eapply send_each_continues; [|  |exact H3|exact Hp]; [by apply (is_some_quiet _ _ cur H1)|]. intros q t. by apply (takers_quiet _ _ H1 Hs).
Qed.

(** ** Connections *)

(** [p] connects the group [g] to its session. *)
Definition linked_out (st : state) (g p : Z) : Prop :=
  exists t f, p ∈ order st /\ tasks st !! p = Some t /\ pgrp t = g /\ tstate t <> TASK_ZOMBIE /\ p_pptr t <> 1 /\
    tasks st !! p_pptr t = Some f /\ pgrp f <> g /\ session f = session t.

Lemma connects_spec st g ign p : p ∈ order st -> connects st g ign p = true <-> Some p <> ign /\ linked_out st g p.
Proof.
  intros Hin. unfold connects, linked_out. split.
  - destruct (tasks st !! p) as [t|]; [|done]. case_match eqn:Hc; [done|]. bool_hyps. destruct (tasks st !! p_pptr t) as [f|] eqn:Hf; [|done].
    intros He. bool_hyps. split; [done|]. exists t, f. split_and!; try done; lia.
  - intros (Hne & t & f & _ & Ht & Hg & Hz & H1 & Hf & Hgf & Hs). rewrite Ht. rewrite (bool_decide_false _ Hne), Hf. cbn.
    replace (pgrp t =? g) with true by lia. replace (tstate t =? TASK_ZOMBIE) with false by lia. replace (p_pptr t =? 1) with false by lia. cbn. lia.
Qed.

Lemma orphaned_spec st g ign : will_become_orphaned_pgrp st g ign = true <-> forall p, Some p <> ign -> ~ linked_out st g p.
Proof.
  unfold will_become_orphaned_pgrp. rewrite negb_true_iff, <- not_true_iff_false, existsb_exists. split.
  - intros Hn p Hne Hl. apply Hn. assert (p ∈ order st) as Hin by (by destruct Hl as (t & f & ? & _)). exists p. split; [by apply list_elem_of_In|by apply connects_spec].
  - intros Hn (p & Hp%list_elem_of_In & Hc). apply connects_spec in Hc as [Hne Hl]; [|done]. by apply (Hn p).
Qed.

(** What happens to a group while [cur] hands its children on. *)
Definition known (x : xstate) : Prop := forall p, is_Some (tasks (sg x) !! p) -> is_Some (kins x !! p).

Lemma family_known x ch lax : family x ch lax -> known x.
Proof. intros Hf p Hp. by apply (fm_dom _ _ _ Hf). Qed.

Lemma handed_fwd cur x x' p t : known x -> handed cur x x' -> tasks (sg x) !! p = Some t -> exists k t', kins x !! p = Some k /\ tasks (sg x') !! p = Some t' /\ handed_task cur (p_opptr k) t t'.
Proof.
  intros Hk Hh Ht. destruct (Hk p) as [k Hkp]; [by eexists|]. destruct (hd_tasks _ _ _ Hh p t k Ht Hkp) as (t' & Ht' & Hht). by exists k, t'.
Qed.

Lemma handed_zombie cur o t t' : handed_task cur o t t' -> tstate t' = TASK_ZOMBIE <-> tstate t = TASK_ZOMBIE.
Proof. intros Hh. destruct (ht_state _ _ _ _ Hh) as [->|[-> ?]]; [done|]. split; [done|tauto]. Qed.

(** A connection that does not go through [cur] stays. *)
Lemma linked_handed cur x x' g p : known x -> handed cur x x' -> linked_out (sg x) g p -> pptr x p <> cur -> linked_out (sg x') g p.
Proof.
  intros Hk Hh (t & f & Hin & Ht & Hg & Hz & H1 & Hf & Hgf & Hs) Hpp. unfold pptr in Hpp. rewrite Ht in Hpp.
  destruct (handed_fwd cur x x' p t Hk Hh Ht) as (k & t' & _ & Ht' & Hht). destruct (handed_fwd cur x x' (p_pptr t) f Hk Hh Hf) as (kf & f' & _ & Hf' & Hhf).
  destruct (ht_pptr _ _ _ _ Hht) as [Hp|[? _]]; [|done]. exists t', f'. rewrite (hd_order _ _ _ Hh), Hp, (ht_pgrp _ _ _ _ Hht), (ht_session _ _ _ _ Hht), (ht_pgrp _ _ _ _ Hhf), (ht_session _ _ _ _ Hhf), (handed_zombie _ _ _ _ Hht). done.
Qed.

(** Nobody is stopped anew. *)
Lemma stopped_handed cur x x' g : known x -> handed cur x x' -> (forall p, is_Some (tasks (sg x') !! p) -> is_Some (tasks (sg x) !! p)) ->
  has_stopped_jobs (sg x) g = false -> has_stopped_jobs (sg x') g = false.
Proof.
  intros Hk Hh Hd. rewrite !has_stopped_spec. intros Hn p Hp (t' & Ht' & Hg & Hs). rewrite (hd_order _ _ _ Hh) in Hp.
  destruct (Hd p) as [t Ht]; [by eexists|]. destruct (handed_fwd cur x x' p t Hk Hh Ht) as (k & t1 & _ & Ht1 & Hht). assert (t1 = t') as -> by congruence.
  apply (Hn p Hp). exists t. rewrite <- (ht_pgrp _ _ _ _ Hht). split_and!; [done|done|]. destruct (ht_state _ _ _ _ Hht) as [<-|[Hr _]]; [done|]. by rewrite Hr in Hs.
Qed.

Lemma takers_handed cur x x' : known x -> handed cur x x' -> (forall p, is_Some (tasks (sg x') !! p) -> is_Some (tasks (sg x) !! p)) -> takers (sg x) -> takers (sg x').
Proof.
  intros Hk Hh Hd Htk p t' Hin Ht' Hs. rewrite (hd_order _ _ _ Hh) in Hin. destruct (Hd p) as [t Ht]; [by eexists|].
  destruct (handed_fwd cur x x' p t Hk Hh Ht) as (k & t1 & _ & Ht1 & Hht). assert (t1 = t') as -> by congruence. rewrite (ht_sigh _ _ _ _ Hht).
  apply (Htk p t Hin Ht). destruct (ht_state _ _ _ _ Hht) as [<-|[Hr _]]; [done|]. by rewrite Hr in Hs.
Qed.

Lemma handed_dom cur x x' ch ch' lax lax' : handed cur x x' -> family x ch lax -> family x' ch' lax' ->
  forall p, is_Some (tasks (sg x') !! p) -> is_Some (tasks (sg x) !! p).
Proof.
  intros Hh Hf Hf' p Hp. apply (fm_dom _ _ _ Hf). apply (fm_dom _ _ _ Hf') in Hp as [k' Hk'].
  destruct (ident_back _ _ p k' (hd_ident _ _ _ Hh p) Hk') as (k0 & -> & _). by eexists.
Qed.

Section Orphans.
Context (cur : Z) (admin : bool) (garbage : Z) (alloc : Z -> bool) (g : Z).
Hypothesis g_pos : 0 < g.

(** The check at the end of a turn of the loop, in the state [y]. *)
Lemma turn_checks x p k x1 : kins x !! p = Some k -> inherit_turn cur admin garbage alloc x p = Some x1 ->
  exists y t1 c, xquiet (inherited x cur p k) y /\ xquiet y x1 /\ tasks (sg (inherited x cur p k)) !! p = Some t1 /\ tasks (sg y) !! cur = Some c /\
    (pgrp t1 = g -> g <> pgrp c -> session t1 = session c -> takers (sg y) -> is_orphaned_pgrp (sg y) g = true -> has_stopped_jobs (sg x1) g = false).
Proof.
  intros Hk. unfold inherit_turn. rewrite Hk. cbn [mbind option_bind]. fold (inherited x cur p k).
  destruct (tasks (sg (inherited x cur p k)) !! p) as [t1|] eqn:Ht1; [|done]. cbn [mbind option_bind].
  destruct (if tstate t1 =? TASK_ZOMBIE then _ else _) as [y|] eqn:Hy; [|done]. cbn [mbind option_bind].
  assert (xquiet (inherited x cur p k) y) as Hq1.
  { revert Hy. destruct (tstate t1 =? TASK_ZOMBIE); [apply xquiet_notify|intros; by simplify_eq]. }
  destruct (tasks (sg y) !! cur) as [c|] eqn:Hc; [|done]. cbn [mbind option_bind]. intros Hlast. exists y, t1, c.
  assert (xquiet y x1) as Hq2.
  { revert Hlast. destruct (negb _ && (_ =? _)); [|intros; by simplify_eq].
    destruct (is_orphaned_pgrp _ _ && _); [apply xquiet_hangup|intros; by simplify_eq]. }
  split_and!; try done. intros <- Hne Hs Htk Ho. revert Hlast.
  replace (negb (pgrp t1 =? pgrp c) && (session t1 =? session c)) with true by lia. rewrite Ho. cbn [andb].
  destruct (has_stopped_jobs (sg y) (pgrp t1)) eqn:Hst; [|intros; by simplify_eq]. intros Hh. eapply hangup_continues; [done| |done|exact Hh]. by eexists.
Qed.

(** A child that connects its group [g]. *)
Definition connector (x : xstate) (c : task) (p : Z) : Prop := exists t, tasks (sg x) !! p = Some t /\ pgrp t = g /\ session t = session c.

Lemma connector_dec x c (l : list Z) : (exists p, p ∈ l /\ connector x c p) \/ (forall p, p ∈ l -> ~ connector x c p).
Proof.
  induction l as [|a l IH]; [right; by intros p ?%not_elem_of_nil|]. destruct IH as [(p & Hp & Hc)|IH]; [left; exists p; split; [by right|done]|].
  assert (connector x c a \/ ~ connector x c a) as [Ha|Ha].
  { unfold connector. destruct (tasks (sg x) !! a) as [t|]; [|right; by intros (t & ? & _)].
    destruct (decide (pgrp t = g)), (decide (session t = session c)); [left; eauto|right; intros (t' & ? & ? & ?); simplify_eq; congruence..]. }
  - left. exists a. split; [by left|done].
  - right. intros p [->|Hp]%elem_of_cons; [done|by apply IH].
Qed.

Lemma connector_handed x x' c c' p : known x -> handed cur x x' -> session c' = session c -> connector x c p -> connector x' c' p.
Proof.
  intros Hk Hh Hc (t & Ht & Hg & Hs). destruct (handed_fwd cur x x' p t Hk Hh Ht) as (k & t' & _ & Ht' & Hht). exists t'.
  rewrite (ht_pgrp _ _ _ _ Hht), (ht_session _ _ _ _ Hht), Hc. done.
Qed.

Lemma connector_back x x' c c' p : known x -> handed cur x x' -> session c' = session c -> is_Some (tasks (sg x) !! p) -> connector x' c' p -> connector x c p.
Proof.
  intros Hk Hh Hc [t Ht] (t' & Ht' & Hg & Hs). destruct (handed_fwd cur x x' p t Hk Hh Ht) as (k & t1 & _ & Ht1 & Hht). assert (t1 = t') as -> by congruence. exists t.
  rewrite <- (ht_pgrp _ _ _ _ Hht), <- (ht_session _ _ _ _ Hht), <- Hc. done.
Qed.

Lemma inherit_orphans fuel x ch x' c : xinv x ch (Some cur) None -> settled x cur -> tasks (sg x) !! cur = Some c -> g <> pgrp c ->
  inherit cur admin garbage alloc fuel x = Some (true, x') -> (forall p, ~ linked_out (sg x') g p) ->
  (exists p, p ∈ ch cur /\ connector x c p) -> has_stopped_jobs (sg x') g = false.
Proof.
  revert x ch c. induction fuel as [|fuel IH]; intros x ch c Hinv Hset Hc Hg Hrun Hend (p0 & Hp0 & Hcon);
    pose proof (iv_family _ _ _ _ Hinv) as Hfam; pose proof (family_known _ _ _ Hfam) as Hkn;
    cbn in Hrun; rewrite (cptr_head x ch (Some cur) cur c) in Hrun by done; destruct (ch cur) as [|p l] eqn:Hch; cbn in Hrun;
    [by apply not_elem_of_nil in Hp0|done|by apply not_elem_of_nil in Hp0|].
  destruct (inherit_turn _ _ _ _ x p) as [x1|] eqn:Hturn; [|done]. cbn in Hrun.
  destruct (xinv_turn cur admin garbage alloc x ch p l x1 Hinv Hset Hch Hturn) as (ch1 & Hinv1 & Hset1 & Hc1 & Hh1).
  destruct (handed_fwd cur x x1 cur c Hkn Hh1 Hc) as (kc & c1 & _ & Hct1 & Hhc). pose proof (iv_family _ _ _ _ Hinv1) as Hfam1.
  pose proof (family_known _ _ _ Hfam1) as Hkn1.
  assert (g <> pgrp c1) as Hg1 by (by rewrite (ht_pgrp _ _ _ _ Hhc)). pose proof (ht_session _ _ _ _ Hhc) as Hsc.
  destruct (xinv_inherit cur admin garbage alloc fuel x1 ch1 true x' Hinv1 Hset1 (mk_is_Some _ _ Hct1) Hrun) as (Hh2 & _ & ch2 & Hinv2 & _).
  destruct (connector_dec x c l) as [(q & Hq & Hqc)|Hnone].
  { apply (IH x1 ch1 c1 Hinv1 Hset1 Hct1 Hg1 Hrun Hend). exists q. rewrite Hc1. split; [done|]. by apply (connector_handed x x1 c c1 q). }
  assert (p0 = p) as ->. { apply elem_of_cons in Hp0 as [?|Hp0]; [done|]. by destruct (Hnone p0 Hp0). }
  destruct (child_member x ch _ cur p Hfam) as (t & k & (Hin & Ht & Hk) & Hpp & _); [rewrite Hch; by left|].
  destruct (turn_checks x p k x1 Hk Hturn) as (y & t1 & cy & Hq1 & Hq2 & Ht1 & Hcy & Hcheck).
  pose proof (handed_inherited x cur p k t Ht Hk Hpp) as Hhi. assert (handed cur x y) as Hhy by (etrans; [exact Hhi|by apply xquiet_handed]).
  assert (known y) as Hkny. { intros q Hq. rewrite <- (xq_kins _ _ Hq2). apply Hkn1. by apply (is_some_quiet _ _ q (xq_sg _ _ Hq2)). }
  assert (forall q, is_Some (tasks (sg y) !! q) -> is_Some (tasks (sg x) !! q)) as Hdy.
  { intros q Hq. apply (handed_dom cur x x1 ch ch1 _ _ Hh1 Hfam Hfam1). by apply (is_some_quiet _ _ q (xq_sg _ _ Hq2)). }
  destruct (handed_fwd cur x y cur c Hkn Hhy Hc) as (kc2 & cy' & _ & Hcy' & Hhcy). assert (cy' = cy) as -> by congruence.
  destruct (handed_fwd cur x _ p t Hkn Hhi Ht) as (k2 & t2 & _ & Ht2 & Hht). assert (t2 = t1) as -> by congruence.
  destruct Hcon as (t0 & Ht0 & Htg & Hts). assert (t0 = t) as -> by congruence.
  eapply (stopped_handed cur x1 x'); [done|done|exact (handed_dom cur x1 x' ch1 ch2 _ _ Hh2 Hfam1 (iv_family _ _ _ _ Hinv2))|]. apply Hcheck.
  - by rewrite (ht_pgrp _ _ _ _ Hht).
  - by rewrite (ht_pgrp _ _ _ _ Hhcy).
  - by rewrite (ht_session _ _ _ _ Hht), (ht_session _ _ _ _ Hhcy).
  - eapply (takers_handed cur x y); [done|done|done|by eapply xinv_takers].
  - apply orphaned_spec. intros q _ Hlq. destruct (decide (pptr y q = cur)) as [Hpq|Hpq].
    + apply (Hnone q).
      * rewrite <- Hc1. apply (fm_child _ _ _ Hfam1). destruct Hlq as (tq & f & Hqin & Htq & _).
        rewrite (ql_order _ _ (xq_sg _ _ Hq2)). split; [done|]. by rewrite (pptr_quiet y x1) by apply Hq2.
      * eapply (connector_back x y c cy q); [done|done|by apply Hhcy| |]; destruct Hlq as (tq & f & Hqin & Htq & Hgq & _ & _ & Hf & _ & Hsf).
        -- apply Hdy. by eexists.
        -- exists tq. unfold pptr in Hpq. rewrite Htq in Hpq. rewrite Hpq in Hf. assert (f = cy) as -> by congruence. done.
    + apply (Hend q). eapply (linked_handed cur y x'); [done| |done|done]. etrans; [by apply xquiet_handed|exact Hh2].
Qed.

End Orphans.

(** ** The whole exit *)

Lemma linked_quiet st st' g p : quietly st st' -> linked_out st g p -> linked_out st' g p.
Proof.
  intros Hq (t & f & Hin & Ht & Hg & Hz & H1 & Hf & Hgf & Hs). destruct (quietly_fwd _ _ p t Hq Ht) as (t' & Ht' & Hqt).
  destruct (quietly_fwd _ _ (p_pptr t) f Hq Hf) as (f' & Hf' & Hqf). exists t', f'.
  rewrite (ql_order _ _ Hq), (q_pgrp _ _ Hqt), (q_session _ _ Hqt), (q_pptr _ _ Hqt), (q_pgrp _ _ Hqf), (q_session _ _ Hqf), (quiet_zombie _ _ Hqt). done.
Qed.

Lemma stopped_jobs_quiet st st' g : quietly st st' -> has_stopped_jobs st g = false -> has_stopped_jobs st' g = false.
Proof.
  intros Hq. rewrite !has_stopped_spec. intros Hn p Hp Hs. rewrite (ql_order _ _ Hq) in Hp. apply (Hn p Hp). by eapply stopped_quiet.
Qed.

Lemma linked_dying x cur code t g p : tasks (sg x) !! cur = Some t -> p <> cur -> linked_out (sg x) g p -> linked_out (sg (dying x cur code t)) g p.
Proof.
  intros Ht Hne (tp & f & Hin & Htp & Hg & Hz & H1 & Hf & Hgf & Hs). destruct (dying_task x cur code t Ht) as (td & Htd & Hsp & _).
  destruct (dying_rest x cur code t Ht) as (Ho & _). unfold linked_out. rewrite Ho, Htd. destruct (decide (p_pptr tp = cur)) as [Hp|Hp].
  - exists tp, td. rewrite Hp in *. rewrite lookup_insert_ne, lookup_insert_eq by done. assert (f = t) as -> by congruence.
    rewrite (sp_pgrp _ _ Hsp), (sp_session _ _ Hsp). done.
  - exists tp, f. rewrite !lookup_insert_ne by done. done.
Qed.

Section Newly.
Context (cur : Z) (admin : bool) (garbage : Z) (alloc : Z -> bool) (g : Z).
Hypothesis g_pos : 0 < g.

(** The own group of [cur]: it was the only connection. *)
Lemma own_group_orphaned x1 x2 ch unseen c f : xinv x1 ch (Some cur) unseen -> tasks (sg x1) !! cur = Some c -> pgrp c = g ->
  tasks (sg x1) !! p_pptr c = Some f -> pgrp f <> g -> session f = session c ->
  (forall p, p <> cur -> ~ linked_out (sg x1) g p) -> orphan_own_group cur admin alloc x1 = Some x2 -> has_stopped_jobs (sg x2) g = false.
Proof.
  intros Hinv Hc Hg Hf Hgf Hs Hno. unfold orphan_own_group. rewrite Hc. cbn [mbind option_bind]. rewrite Hf. cbn [mbind option_bind]. rewrite Hg.
  assert (will_become_orphaned_pgrp (sg x1) g (Some cur) = true) as ->.
  { apply orphaned_spec. intros p Hp. apply Hno. congruence. }
  replace (negb (pgrp f =? g) && (session f =? session c)) with true by lia. cbn [andb].
  destruct (has_stopped_jobs (sg x1) g) eqn:Hst; [|intros; by simplify_eq]. intros Hh.
  eapply hangup_continues; [done| |by eapply xinv_takers|exact Hh]. by eexists.
Qed.

Lemma newly_orphaned fuel x ch code tty old x' t p0 : xinv x ch None None -> tasks (sg x) !! cur = Some t -> cur <> 0 -> cur <> child_reaper ->
  waiting x !! cur = None -> do_exit cur admin garbage alloc fuel x code tty old = Some (true, x') ->
  linked_out (sg x) g p0 -> (forall p, ~ linked_out (sg x') g p) -> has_stopped_jobs (sg x') g = false.
Proof.
  intros Hinv Ht H0 H1 Hw Hex Hl0 Hend. destruct (exit_stages cur admin garbage alloc fuel x code tty old x' t H0 Ht Hex) as (x1 & x2 & x3 & x4 & Hf & Hown & (ks & Hn) & Hl & Hq5).
  pose proof (orphan_own_quiet _ _ _ _ _ Hown) as Hq2. pose proof (xquiet_notify _ _ _ _ _ _ _ _ Hn) as Hq3. assert (xquiet x1 x3) as Hq13 by (by etrans).
  pose proof (xinv_dying x ch cur code t Hinv Ht H0 H1 Hw) as Hd. destruct (dying_rest x cur code t Ht) as (Ho & Hk & _).
  apply forget_each_spec in Hf; [|done]. rewrite <- Ho in Hf. pose proof (xinv_forgets _ _ _ _ _ H1 Hf Hd) as Hi1.
  pose proof (xinv_quiet _ _ _ _ _ Hq2 Hi1) as Hi2. pose proof (xinv_notify _ _ _ _ _ _ _ _ _ _ _ Hn (or_intror eq_refl) Hi2) as Hi3.
  destruct (dying_task x cur code t Ht) as (td & Htd & Hsp & _). assert (tasks (sg (dying x cur code t)) !! cur = Some td) as Hcd by (rewrite Htd; apply lookup_insert_eq).
  destruct (quietly_fwd _ _ cur td (fg_quiet _ _ _ _ Hf) Hcd) as (c1 & Hc1 & Hqc1). destruct (quietly_fwd _ _ cur c1 (xq_sg _ _ Hq13) Hc1) as (c3 & Hc3 & Hqc3).
  assert (pgrp c1 = pgrp t /\ session c1 = session t /\ p_pptr c1 = p_pptr t) as (Hcg & Hcs & Hcp).
  { rewrite (q_pgrp _ _ Hqc1), (q_session _ _ Hqc1), (q_pptr _ _ Hqc1). by destruct Hsp. }
  assert (settled x3 cur) as Hset by (apply (settled_quiet cur x1 x3); [done|]; intros c tc kc; by eapply forgets_origin).
  destruct (xinv_inherit cur admin garbage alloc fuel x3 ch true x4 Hi3 Hset (mk_is_Some _ _ Hc3) Hl) as (Hh34 & _ & ch4 & Hi4 & _).
  assert (handed cur x1 x') as Hh. { etrans; [by apply xquiet_handed|etrans; [exact Hh34|by apply xquiet_handed]]. }
  pose proof (family_known _ _ _ (iv_family _ _ _ _ Hi1)) as Hkn1.
  assert (forall p, linked_out (sg x1) g p -> pptr x1 p = cur) as Hthrough.
  { intros p Hp. destruct (decide (pptr x1 p = cur)) as [|Hne]; [done|]. destruct (Hend p). by eapply (linked_handed cur x1). }
  assert (forall p, p <> cur -> linked_out (sg x) g p -> linked_out (sg x1) g p) as Hearly.
  { intros p Hne Hp. eapply linked_quiet; [apply Hf|]. by apply linked_dying. }
  destruct (decide (pgrp t = g)) as [Hgt|Hgt].
  - assert (forall p, p <> cur -> ~ linked_out (sg x1) g p) as Hno.
    { intros p Hne Hp. pose proof (Hthrough p Hp) as Hpp. destruct Hp as (tp & f & _ & Htp & _ & _ & _ & Hf1 & Hgf & _).
      unfold pptr in Hpp. rewrite Htp in Hpp. rewrite Hpp in Hf1. assert (f = c1) as -> by congruence. congruence. }
    assert (p0 = cur) as ->. { destruct (decide (p0 = cur)) as [|Hne]; [done|]. by destruct (Hno p0 Hne (Hearly p0 Hne Hl0)). }
    destruct Hl0 as (t0 & f & Hin & Ht0 & Hg0 & Hz & Hp1 & Hf0 & Hgf & Hsf). assert (t0 = t) as -> by congruence.
    assert (p_pptr t <> cur) as Hpc by congruence.
    assert (tasks (sg (dying x cur code t)) !! p_pptr t = Some f) as Hfd by (rewrite Htd, lookup_insert_ne by done; done).
    destruct (quietly_fwd _ _ _ f (fg_quiet _ _ _ _ Hf) Hfd) as (f1 & Hf1 & Hqf).
    apply (stopped_jobs_quiet (sg x4)); [apply Hq5|]. eapply (stopped_handed cur x3 x4); [apply (family_known _ _ _ (iv_family _ _ _ _ Hi3))|done| |].
    { exact (handed_dom cur x3 x4 ch ch4 _ _ Hh34 (iv_family _ _ _ _ Hi3) (iv_family _ _ _ _ Hi4)). }
    apply (stopped_jobs_quiet (sg x2)); [apply Hq3|].
    eapply (own_group_orphaned x1 x2 ch _ c1 f1 Hi1 Hc1); [congruence|by rewrite Hcp|by rewrite (q_pgrp _ _ Hqf)|rewrite (q_session _ _ Hqf); congruence|done|done].
  - assert (p0 <> cur) as Hne. { intros ->. destruct Hl0 as (t0 & f & _ & Ht0 & Hg0 & _). congruence. }
    pose proof (Hearly p0 Hne Hl0) as Hl1. pose proof (Hthrough p0 Hl1) as Hpp.
    destruct Hl1 as (tp & f & Hin & Htp & Hgp & _ & _ & Hfp & _ & Hsp1). unfold pptr in Hpp. rewrite Htp in Hpp. rewrite Hpp in Hfp.
    assert (f = c1) as -> by congruence. destruct (quietly_fwd _ _ p0 tp (xq_sg _ _ Hq13) Htp) as (t3 & Ht3 & Hqt3).
    apply (stopped_jobs_quiet (sg x4)); [apply Hq5|].
    eapply (inherit_orphans cur admin garbage alloc g g_pos fuel x3 ch x4 c3 Hi3 Hset Hc3); [rewrite (q_pgrp _ _ Hqc3); congruence|done| |].
    + intros p Hp. apply (Hend p). eapply linked_quiet; [apply Hq5|done].
    + exists p0. split.
      * apply (fm_child _ _ _ (iv_family _ _ _ _ Hi3)). rewrite (ql_order _ _ (xq_sg _ _ Hq13)). split; [done|].
        unfold pptr. rewrite Ht3, (q_pptr _ _ Hqt3). done.
      * exists t3. rewrite (q_pgrp _ _ Hqt3), (q_session _ _ Hqt3), (q_session _ _ Hqc3). done.
Qed.

End Newly.
