(* ===== verification/ExitProps.v ===== *)
(** * What exit and wait promise *)

From stdpp Require Import functions.
From S2P Require Import Prelude Signal SignalProof Exit ExitProof ExitInv ExitSteps ExitMachine ExitOrphan.

(** ** A small system

    Init has two children, 2 and 3; 3 has a child 4 that is a group of its own. *)

Definition any_alloc (_ : Z) : bool := true.

Definition t_of (x : xstate) (p : Z) : task := default first_task (tasks (sg x) !! p).

Definition demo1 : xstate := fork_family 1 x_init 2 SIGCHLD first_task false false 2.
Definition demo2 : xstate := fork_family 1 demo1 3 SIGCHLD (t_of demo1 1) false false 3.
Definition demo3 : xstate := set_group demo2 3 7 7 true.
Definition demo4 : xstate := fork_family 3 demo3 4 SIGCHLD (t_of demo3 3) false false 4.
Definition demo5 : xstate := set_group demo4 4 9 7 false.

(** Init waits for 3. *)
Definition demo6 : xstate := default x_init (snd <$> sys_wait4 1 true 0 any_alloc 4 demo5 3 0 None None).

(** 2 exits, which wakes init, and init goes back to sleep. *)
Definition demo7 : xstate := default x_init (snd <$> do_exit 2 true 0 any_alloc 4 demo6 0x100 None 0).
Definition demo8 : xstate := default x_init (snd <$> wait_pass 1 true 0 any_alloc 4 demo7 3 0 None None).

(** 4 gets SIGSTOP and stops. *)
Definition demo9 : xstate := with_sg demo5 (default (sg demo5) (snd <$> send_sig_info (sg demo5) 1 true SIGSTOP SendKernel 4 true)).
Definition demo10 : xstate := with_sg demo9 (default (sg demo9) (snd <$> do_signal_turn (sg demo9) 4 true false false 0 true true)).

Lemma free_demo x p : bool_decide (p ∈ order (sg x)) && bool_decide (waiting x !! p = None) && (tstate (t_of x p) =? TASK_RUNNING) && bool_decide (is_Some (tasks (sg x) !! p)) = true -> free x p.
Proof.
  unfold t_of. intros H. bool_hyps. split_and!; [done|done|]. destruct (tasks (sg x) !! p) as [t|]; [|by destruct H0]. exists t. split; [done|]. cbn in *. lia.
Qed.

Lemma t_of_some x p : bool_decide (is_Some (tasks (sg x) !! p)) = true -> tasks (sg x) !! p = Some (t_of x p).
Proof. unfold t_of. intros H. bool_hyps. destruct H as [t ->]. done. Qed.

Lemma demo_fork x cur child h : free x cur -> tasks (sg x) !! child = None -> child <> 0 ->
  x_step x (fork_family cur x child SIGCHLD (t_of x cur) false false h).
Proof. intros Hf Hc H0. apply xs_fork; try done. unfold t_of. by destruct Hf as (_ & _ & t & -> & _). Qed.

Lemma demo_group x p pg sess ld k : free x p -> kins x !! p = Some k -> x_step x (set_group x p pg sess ld).
Proof.
  intros Hf Hk. eapply (xs_group x p p (t_of x p) k); [done| |by left]. destruct Hf as (Hin & _ & t & Ht & _). unfold t_of. rewrite Ht. done.
Qed.

Lemma demo5_reachable : rtc x_step x_init demo5.
Proof.
  eapply rtc_l; [apply (demo_fork x_init 1 2 2); [apply free_demo; by vm_compute|by vm_compute|done]|].
  eapply rtc_l; [apply (demo_fork demo1 1 3 3); [apply free_demo; by vm_compute|by vm_compute|done]|].
  eapply rtc_l; [eapply (demo_group demo2 3 7 7 true); [apply free_demo; by vm_compute|by vm_compute]|].
  eapply rtc_l; [apply (demo_fork demo3 3 4 4); [apply free_demo; by vm_compute|by vm_compute|done]|].
  eapply rtc_l; [eapply (demo_group demo4 4 9 7 false); [apply free_demo; by vm_compute|by vm_compute]|]. apply rtc_refl.
Qed.

Lemma demo8_reachable : rtc x_step x_init demo8.
Proof.
  etrans; [apply demo5_reachable|].
  eapply rtc_l; [apply (xs_wait demo5 1 true 0 any_alloc 3 0 None None Sleeps demo6); [apply free_demo; by vm_compute|by vm_compute]|].
  eapply rtc_l; [apply (xs_exit demo6 2 true 0 any_alloc 0x100 None 0 demo7); [apply free_demo; by vm_compute|done|by vm_compute]|].
  eapply rtc_l; [apply (xs_resume demo7 1 true 0 any_alloc 3 0 0 None None (t_of demo7 1) Sleeps demo8); by vm_compute|]. apply rtc_refl.
Qed.

Lemma demo10_reachable : rtc x_step x_init demo10.
Proof.
  etrans; [apply demo5_reachable|].
  eapply rtc_l; [apply (xs_send demo5 1 true SIGSTOP SendKernel 4 true 0); by vm_compute|].
  eapply rtc_l; [apply (xs_deliver demo9 4 true false false 0 true true Stopped); [apply free_demo; by vm_compute|by vm_compute|done]|]. apply rtc_refl.
Qed.

(** ** The family *)

(** C14: in every state that processes can reach by forking, exiting, waiting, tracing
    and signalling, the links p_cptr, p_osptr and p_ysptr form, for each process, the
    list of exactly the processes whose parent it is; parents and original parents
    exist and are not zombies, so that the children of the dead are never lost. *)
Theorem family_reachable x : rtc x_step x_init x ->
  exists ch : Z -> list Z,
    chains (kins x) ch None /\
    (forall p c, c ∈ ch p <-> c ∈ order (sg x) /\ pptr x c = p) /\
    (forall p t k, member x p t k -> alive x (p_pptr t) /\ alive x (p_opptr k)) /\
    (forall p t, p ∈ order (sg x) -> tasks (sg x) !! p = Some t -> tstate t = TASK_ZOMBIE -> ch p = []).
Proof.
  intros [ch Hinv]%xinv_reachable. exists ch. pose proof (iv_family _ _ _ _ Hinv) as Hfam.
  assert (forall p t k, member x p t k -> alive x (p_pptr t) /\ alive x (p_opptr k)) as Hal.
  { intros p t k Hm. split; [destruct (iv_parent _ _ _ _ Hinv p t k Hm)|destruct (iv_origin _ _ _ _ Hinv p t k Hm)]; done. }
  split_and!; [apply Hfam|apply Hfam|done|]. intros p t Hin Ht Hz. destruct (ch p) as [|c l] eqn:Hc; [done|].
  destruct (child_member x ch None p c Hfam) as (tc & kc & Hm & Hpp & _); [rewrite Hc; by left|].
  destruct (Hal c tc kc Hm) as [(tp & Htp & Hzp) _]. congruence.
Qed.

Lemma family_reachable_witness : exists ch : Z -> list Z, 4 ∈ ch 3 /\ alive demo5 3.
Proof.
  destruct (family_reachable demo5 demo5_reachable) as (ch & _ & Hch & Hal & _). exists ch. split; [apply Hch; split; [|by vm_compute]|].
  - apply (bool_decide_eq_true_1 (4 ∈ order (sg demo5))). by vm_compute.
  - apply (Hal 4 (t_of demo5 4) (default (Kin 0 None None None 0 0 init_usage) (kins demo5 !! 4))). split_and!; [|by vm_compute|by vm_compute].
    apply (bool_decide_eq_true_1 (4 ∈ order (sg demo5))). by vm_compute.
Defined.

(** ** Waiting *)

(** C6: no dead child of its own is missed by a process that sleeps in wait4.  When it sleeps
    there, for a pid, a group, its own group (pid 0) or any child, none of its own children
    that match the call is a zombie: the exit of a child, and its return from a tracer,
    wake the parent.  With pid 0 this is said of the group that the process had when it
    last looked, as another process can change its group during the sleep.  The same
    holds for the processes that it traces, if the call asks for a pid or for any child
    and the original parent is not init; see [traced_zombie_missed] for the exception.
    (In the machine, init does not exit and traces nobody.) *)
Theorem no_zombie_missed x w pid options g tw c tc kc : rtc x_step x_init x ->
  waiting x !! w = Some (pid, options, g) -> tasks (sg x) !! w = Some tw -> tstate tw = TASK_INTERRUPTIBLE ->
  (pid = 0 -> pgrp tw = g) ->
  member x c tc kc -> p_pptr tc = w -> (p_opptr kc = w \/ (p_opptr kc <> child_reaper /\ (pid = -1 \/ 0 < pid))) -> tstate tc = TASK_ZOMBIE ->
  eligible tw pid options c tc kc = false.
Proof. intros [ch Hinv]%xinv_reachable ? ? ? ? ? ? ? ?. by eapply (iv_seen _ _ _ _ Hinv w). Qed.

Lemma no_zombie_missed_witness : tstate (t_of demo8 1) = TASK_INTERRUPTIBLE /\ tstate (t_of demo8 2) = TASK_ZOMBIE /\
  eligible (t_of demo8 1) 3 0 2 (t_of demo8 2) (default (Kin 0 None None None 0 0 init_usage) (kins demo8 !! 2)) = false.
Proof.
  split; [by vm_compute|]. split; [by vm_compute|].
  apply (no_zombie_missed demo8 1 3 0 (pgrp (t_of demo8 1)) (t_of demo8 1) 2 (t_of demo8 2) _ demo8_reachable); try done; try (by vm_compute); [|left; by vm_compute].
  split_and!; [|by vm_compute|by vm_compute]. apply (bool_decide_eq_true_1 (2 ∈ order (sg demo8))). by vm_compute.
Defined.

(** The children that a call of wait4 asks for. *)
Definition asked_for (c : task) (pid options p : Z) (t : task) (k : kin) : Prop :=
  ((0 < pid /\ p = pid) \/ (pid = 0 /\ pgrp t = pgrp c) \/ pid = -1 \/ (pid < -1 /\ pgrp t = - pid)) /\
  (exit_signal k = SIGCHLD <-> Z.testbit options 31 = false).

Lemma wclone_bit options : has_option options WCLONE = Z.testbit options 31.
Proof.
  unfold has_option, WCLONE. change 0x80000000 with (2 ^ 31). assert (Z.testbit (u32 options) 31 = Z.testbit options 31) as <-.
  { unfold u32. apply Z.mod_pow2_bits_low. lia. }
  generalize (u32 options). intros w. destruct (Z.testbit w 31) eqn:Hb.
  - apply negb_true_iff, Z.eqb_neq. intros H0. assert (Z.testbit (Z.land w (2 ^ 31)) 31 = true) as H1; [|by rewrite H0, Z.bits_0 in H1].
    by rewrite Z.land_spec, Hb, Z.pow2_bits_true.
  - apply negb_false_iff, Z.eqb_eq, Z.bits_inj'. intros i Hi. rewrite Z.land_spec, Z.bits_0. destruct (decide (i = 31)) as [->|]; [by rewrite Hb|].
    rewrite Z.pow2_bits_false by lia. apply andb_false_r.
Qed.

Lemma eligible_spec c pid options p t k : eligible c pid options p t k = true <-> asked_for c pid options p t k.
Proof.
  unfold eligible, asked_for. rewrite wclone_bit, andb_true_iff, negb_true_iff.
  assert (xorb (negb (exit_signal k =? SIGCHLD)) (Z.testbit options 31) = false <-> (exit_signal k = SIGCHLD <-> Z.testbit options 31 = false)) as ->.
  { destruct (exit_signal k =? SIGCHLD) eqn:E, (Z.testbit options 31); cbn; split; try done; try (intros [? ?]); try lia; (split; try done; lia). }
  assert ((if 0 <? pid then p =? pid else if pid =? 0 then pgrp t =? pgrp c else if negb (pid =? -1) then pgrp t =? - pid else true) = true <->
    ((0 < pid /\ p = pid) \/ (pid = 0 /\ pgrp t = pgrp c) \/ pid = -1 \/ (pid < -1 /\ pgrp t = - pid))) as ->; [|done].
  destruct (0 <? pid) eqn:E1; [lia|]. destruct (pid =? 0) eqn:E2; [lia|]. destruct (pid =? -1) eqn:E3; cbn; [|lia]. split; [intros _; lia|done].
Qed.

(** C5: what wait4 does, in every case.  It returns after one pass over the children,
    from the youngest to the oldest, and takes the first that matches and has something
    to report (a pid asks for that process, 0 for the caller's group, -1 for any, a
    smaller number for a group; clones only with __WCLONE): a zombie is reported and
    released, or goes back to its original parent if it was only traced; a stop is reported once; when the result cannot be stored the
    child stays.  Without such a child the call answers ECHILD if no child matches, 0
    with WNOHANG, ERESTARTSYS if a signal is pending, and sleeps otherwise. *)
Theorem sys_wait4_correct cur admin garbage alloc x pid options stat_addr ru c :
  rtc x_step x_init x -> free x cur -> tasks (sg x) !! cur = Some c ->
  let x1 := with_waiting x (<[cur := (pid, options, pgrp c)]> (waiting x)) in
  (forall p t k, eligible c pid options p t k = true <-> asked_for c pid options p t k) /\
  exists ch r x', family x ch None /\
    sys_wait4 cur admin garbage alloc (length (order (sg x))) x pid options stat_addr ru = Some (r, x') /\
    if bad_options options then r = Returns (- EINVAL) None None /\ x' = x
    else woken cur x1 x' c pid options stat_addr ru (ch cur) r.
Proof.
  intros [ch Hinv]%xinv_reachable (Hin & Hw & t & Ht & Hr) Hc x1. split; [apply eligible_spec|]. assert (t = c) as -> by congruence. unfold sys_wait4. exists ch.
  destruct (bad_options options); [eexists _, _; split; [apply Hinv|by split]|].
  assert (cur <> 0) as H0 by (by apply (fm_ring _ _ _ (iv_family _ _ _ _ Hinv)) in Hin as [? _]).
  destruct (wait_pass_spec cur admin garbage alloc (length (order (sg x))) x ch c pid options stat_addr ru Hinv H0 Hc Hr (le_n _)) as (r & x' & ch' & He & _ & Hwk).
  exists r, x'. split; [apply Hinv|]. split; done.
Qed.

Lemma sys_wait4_correct_witness : (forall p t k, eligible (t_of demo5 1) 3 0 p t k = true <-> asked_for (t_of demo5 1) 3 0 p t k) /\ exists ch r x', family demo5 ch None /\
  sys_wait4 1 true 0 any_alloc 4 demo5 3 0 None None = Some (r, x') /\
  woken 1 (with_waiting demo5 (<[1 := (3, 0, pgrp (t_of demo5 1))]> (waiting demo5))) x' (t_of demo5 1) 3 0 None None (ch 1) r.
Proof. apply (sys_wait4_correct 1 true 0 any_alloc demo5 3 0 None None (t_of demo5 1) demo5_reachable); [apply free_demo; by vm_compute|by vm_compute]. Defined.

(** ** Exiting *)

(** C4: do_exit of a process other than init ends, where no process has asked for a real-time
    signal at the death of its parent.  The process is then a zombie with the given code;
    each of its children belongs to its original parent, or to init (and will signal
    SIGCHLD) if the process itself was the original parent; it has no children left, every
    other parent is unchanged, and its own parent does not go on sleeping in wait4.  (For
    init see [init_never_ends]; a real-time signal without memory for its queue makes the
    kernel follow an invalid pointer, see [send_full_queue_faults].) *)
Theorem do_exit_correct cur admin garbage alloc x code tty old :
  rtc x_step x_init x -> free x cur -> cur <> child_reaper -> (forall p k, kins x !! p = Some k -> pdeath_signal k < SIGRTMIN) ->
  exists x' ch, do_exit cur admin garbage alloc (length (order (sg x))) x code tty old = Some (true, x') /\
    exited cur code x x' /\ family x' ch None /\ ch cur = [].
Proof.
  intros [ch Hinv]%xinv_reachable (Hin & Hw & t & Ht & Hr) Hne Hp. assert (cur <> 0) as H0 by (by apply (fm_ring _ _ _ (iv_family _ _ _ _ Hinv)) in Hin as [? _]).
  destruct (do_exit_total cur admin garbage alloc x ch code tty old t Hinv Ht H0 Hne Hw Hp) as [x' He].
  destruct (xinv_do_exit _ _ _ _ _ _ _ _ _ _ _ _ Hinv Ht H0 Hne Hw He) as (Hex & ch' & Hinv' & Hemp). exists x', ch'. split_and!; [done|done|apply Hinv'|done].
Qed.

Lemma demo5_pdeath p k : kins demo5 !! p = Some k -> pdeath_signal k < SIGRTMIN.
Proof.
  assert (map_Forall (fun _ k => pdeath_signal k < SIGRTMIN) (kins demo5)) as H; [|by apply H].
  apply (bool_decide_eq_true_1 (map_Forall (fun _ k => pdeath_signal k < SIGRTMIN) (kins demo5))). by vm_compute.
Qed.

Lemma do_exit_correct_witness : exists x' ch, do_exit 3 true 0 any_alloc 4 demo5 0x200 None 0 = Some (true, x') /\
  exited 3 0x200 demo5 x' /\ family x' ch None /\ ch 3 = [].
Proof. apply (do_exit_correct 3 true 0 any_alloc demo5 0x200 None 0 demo5_reachable); [apply free_demo; by vm_compute|done|exact demo5_pdeath]. Defined.

(** A process group that was connected to its session and is orphaned by an exit has
    no stopped process afterwards: its stopped jobs were sent SIGHUP and SIGCONT (POSIX
    3.2.2.2).  This holds for the group of the process itself and for the groups of its
    children, whatever the order in which they are handed on. *)
Theorem orphans_continue cur admin garbage alloc fuel x code tty old x' g :
  rtc x_step x_init x -> free x cur -> cur <> child_reaper ->
  do_exit cur admin garbage alloc fuel x code tty old = Some (true, x') ->
  0 < g -> is_orphaned_pgrp (sg x) g = false -> is_orphaned_pgrp (sg x') g = true -> has_stopped_jobs (sg x') g = false.
Proof.
  intros [ch Hinv]%xinv_reachable (Hin & Hw & t & Ht & Hr) Hne He Hg Hbefore Hafter.
  assert (cur <> 0) as H0 by (by apply (fm_ring _ _ _ (iv_family _ _ _ _ Hinv)) in Hin as [? _]).
  assert (exists p0, linked_out (sg x) g p0) as [p0 Hl].
  { unfold is_orphaned_pgrp, will_become_orphaned_pgrp in Hbefore. apply negb_false_iff, existsb_exists in Hbefore as (p0 & Hp0%list_elem_of_In & Hc).
    apply connects_spec in Hc as [_ Hc]; eauto. }
  eapply (newly_orphaned cur admin garbage alloc g Hg); eauto. intros p. by apply (proj1 (orphaned_spec (sg x') g None) Hafter p).
Qed.

Lemma orphans_continue_witness : has_stopped_jobs (sg demo10) 9 = true /\
  has_stopped_jobs (sg (default x_init (snd <$> do_exit 3 true 0 any_alloc 4 demo10 0 None 0))) 9 = false.
Proof.
  split; [by vm_compute|]. apply (orphans_continue 3 true 0 any_alloc 4 demo10 0 None 0 _ 9 demo10_reachable);
    [apply free_demo; by vm_compute|done|by vm_compute|done|by vm_compute|by vm_compute].
Defined.

(** ** Where the code falls short *)

(** Init inherits its own children: when it exits while it has one, the loop of
    [exit_notify] never ends, with interrupts off. *)
Definition init_dies (fuel : nat) : option (bool * xstate) := do_exit 1 true 0 any_alloc fuel demo1 0 None 0.

Definition init_loops : xstate := default x_init (snd <$> init_dies 0).

Lemma init_turns fuel : inherit 1 true 0 any_alloc fuel init_loops = Some (false, init_loops).
Proof.
  assert (cptr init_loops 1 = Some 2) as Hc by (by vm_compute).
  assert (inherit_turn 1 true 0 any_alloc init_loops 2 = Some init_loops) as Ht by (by vm_compute).
  induction fuel as [|fuel IH]; cbn [inherit]; rewrite Hc; [done|]. rewrite Ht. cbn [mbind option_bind]. done.
Qed.

Lemma exit_stuck cur admin garbage alloc fuel x code tty old t x1 x2 k x3 : cur <> 0 -> tasks (sg x) !! cur = Some t ->
  forget_original_parent cur admin alloc (dying x cur code t) cur = Some x1 -> orphan_own_group cur admin alloc x1 = Some x2 ->
  kins x2 !! cur = Some k -> notify_parent cur admin garbage alloc x2 cur (exit_signal k) = Some x3 ->
  inherit cur admin garbage alloc fuel x3 = Some (false, x3) ->
  do_exit cur admin garbage alloc fuel x code tty old = Some (false, x3).
Proof.
  intros H0 Ht H1 H2 H3 H4 H5. unfold do_exit. rewrite (proj2 (Z.eqb_neq cur 0) H0), Ht. cbn [mbind option_bind]. fold (dying x cur code t).
  unfold exit_notify. rewrite H1. cbn [mbind option_bind]. rewrite H2. cbn [mbind option_bind]. rewrite H3. cbn [mbind option_bind].
  rewrite H4. cbn [mbind option_bind]. by rewrite H5.
Qed.

Definition init_forgets : xstate := default x_init (forget_original_parent 1 true any_alloc (dying demo1 1 0 (t_of demo1 1)) 1).

Lemma init_never_ends fuel : init_dies fuel = Some (false, init_loops).
Proof.
  apply (exit_stuck 1 true 0 any_alloc fuel demo1 0 None 0 (t_of demo1 1) init_forgets init_forgets (default (Kin 0 None None None 0 0 init_usage) (kins init_forgets !! 1)));
    [done|by vm_compute..|apply init_turns].
Qed.

(** Process 3 traces 4, a clone of 2 (with another exit signal) that is dead, and waits for
    its child 5; when 2 dies, 4 gets the exit signal SIGCHLD and matches the call, but
    nobody wakes 3. *)
Definition traced0 : xstate := fork_family 3 (fork_family 2 demo2 4 0 (t_of demo2 2) false false 4) 5 SIGCHLD (t_of demo2 3) false false 5.
Definition traced1 : xstate := default x_init (snd <$> ptrace_attach 3 true any_alloc traced0 4 true).
Definition traced2 : xstate := default x_init (snd <$> do_exit 4 true 0 any_alloc 5 traced1 0 None 0).
Definition traced3 : xstate := default x_init (snd <$> sys_wait4 3 true 0 any_alloc 5 traced2 (-1) 0 None None).
Definition traced4 : xstate := default x_init (snd <$> do_exit 2 true 0 any_alloc 5 traced3 0 None 0).

Lemma traced_zombie_missed : tstate (t_of traced4 3) = TASK_INTERRUPTIBLE /\ waiting traced4 !! 3 = Some (-1, 0, 0) /\
  pptr traced4 4 = 3 /\ zombie_at traced4 4 = true /\ eligible_at traced3 (t_of traced3 3) (-1) 0 4 = false /\ ready_at traced4 (t_of traced4 3) (-1) 0 4 = true.
Proof. by vm_compute. Qed.

(** With SA_NOCLDSTOP a stop does not wake a parent that waits for stops. *)
Definition nocldstop0 : xstate := with_sg demo1 (set_action (sg demo1) 0 SIGCHLD (Sigaction SIG_DFL SA_NOCLDSTOP sigemptyset)).
Definition nocldstop1 : xstate := default x_init (snd <$> sys_wait4 1 true 0 any_alloc 2 nocldstop0 2 WUNTRACED None None).
Definition nocldstop2 : xstate := with_sg nocldstop1 (default (sg x_init) (snd <$> send_sig_info (sg nocldstop1) 1 true SIGSTOP SendKernel 2 true)).
Definition nocldstop3 : xstate := with_sg nocldstop2 (default (sg x_init) (snd <$> do_signal_turn (sg nocldstop2) 2 true false false 0 true true)).

Lemma stop_missed : tstate (t_of nocldstop3 1) = TASK_INTERRUPTIBLE /\ waiting nocldstop3 !! 1 = Some (2, WUNTRACED, 0) /\
  ready_at nocldstop3 (t_of nocldstop3 1) 2 WUNTRACED 2 = true.
Proof. by vm_compute. Qed.

(** The time of a dead child is added each time that the result cannot be stored. *)
Definition busy_child : xstate := upd 2 (set_times (Usage 5 0 0 0 0 0 0 0 0 0)) (default x_init (snd <$> do_exit 2 true 0 any_alloc 2 demo1 0 None 0)).
Definition failed_wait (x : xstate) : xstate := default x_init (snd <$> sys_wait4 1 true 0 any_alloc 2 x 2 0 (Some false) None).

Lemma times_added_twice : (tms_cutime ∘ times) <$> kins (failed_wait (failed_wait busy_child)) !! 1 = Some 10.
Proof. by vm_compute. Qed.

(** The loop that reaps when SIGCHLD is ignored. *)
Example reap_demo : (fun '(ended, x) => (ended, order (sg x))) <$> reap_children 1 true 0 any_alloc 3 2 busy_child = Some (true, [1]).
Proof. by vm_compute. Qed.
