(* ===== verification/Files.v ===== *)
(** * Open files and descriptors

    fs/file_table.c (the table of open files), the descriptor part of fs/open.c,
    fs/fcntl.c, include/linux/file.h, kernel/fork.c (copy_files), kernel/exit.c
    (exit_files) and fs/exec.c (flush_old_files).

    A [files_struct], which processes can share, has an array of file pointers [fd] (the
    absent entries are null) and two sets of bits.  [task_files] is the table of each
    process that has not given it up.  [open] sleeps while the path is looked up: the
    process is then in [opening], with the descriptor that it has reserved and the file
    structure; [held] are the references that calls in progress have taken with [fget].
    [released] records the calls of the file's release operation.  [None] as a result
    means that the kernel follows an invalid pointer. *)

From stdpp Require Import functions.
From S2P Require Import Prelude Bitops.

Definition NR_OPEN : Z := 1024.
Definition NR_RESERVED_FILES : Z := 10.
Definition NFDBITS : Z := 32.
Definition FDSET_LONGS : nat := 32.
Definition EMFILE : Z := 24.
Definition RLIM_NLIMITS : Z := 10.
Definition RLIMIT_NOFILE : Z := 7.
Definition O_CREAT : Z := 0x40.
Definition O_EXCL : Z := 0x80.
Definition O_NOCTTY : Z := 0x100.
Definition O_TRUNC : Z := 0x200.

(** ** The state *)

Record file := File { f_count : Z; f_flags : Z; f_owner : Z; f_signum : Z }.

Record files_struct := Files { count : Z; fd : gmap Z Z; close_on_exec : words; open_fds : words }.

Record fstate := FState {
  filps : gmap Z file; free_filps : list Z; inuse_filps : list Z;
  nr_files : Z; nr_free_files : Z; max_files : Z;
  tables : gmap Z files_struct; task_files : gmap Z Z;
  opening : gmap Z (Z * Z); held : list Z; released : list Z }.

Definition set_filps (s : fstate) (m : gmap Z file) : fstate :=
  FState m (free_filps s) (inuse_filps s) (nr_files s) (nr_free_files s) (max_files s) (tables s) (task_files s) (opening s) (held s) (released s).

Definition set_lists (s : fstate) (free inuse : list Z) (nr_free : Z) : fstate :=
  FState (filps s) free inuse (nr_files s) nr_free (max_files s) (tables s) (task_files s) (opening s) (held s) (released s).

Definition set_nr_files (s : fstate) (n : Z) : fstate :=
  FState (filps s) (free_filps s) (inuse_filps s) n (nr_free_files s) (max_files s) (tables s) (task_files s) (opening s) (held s) (released s).

Definition set_tables (s : fstate) (m : gmap Z files_struct) : fstate :=
  FState (filps s) (free_filps s) (inuse_filps s) (nr_files s) (nr_free_files s) (max_files s) m (task_files s) (opening s) (held s) (released s).

Definition set_task_files (s : fstate) (m : gmap Z Z) : fstate :=
  FState (filps s) (free_filps s) (inuse_filps s) (nr_files s) (nr_free_files s) (max_files s) (tables s) m (opening s) (held s) (released s).

Definition set_opening (s : fstate) (m : gmap Z (Z * Z)) : fstate :=
  FState (filps s) (free_filps s) (inuse_filps s) (nr_files s) (nr_free_files s) (max_files s) (tables s) (task_files s) m (held s) (released s).

Definition set_held (s : fstate) (l : list Z) : fstate :=
  FState (filps s) (free_filps s) (inuse_filps s) (nr_files s) (nr_free_files s) (max_files s) (tables s) (task_files s) (opening s) l (released s).

Definition set_released (s : fstate) (l : list Z) : fstate :=
  FState (filps s) (free_filps s) (inuse_filps s) (nr_files s) (nr_free_files s) (max_files s) (tables s) (task_files s) (opening s) (held s) l.

Definition upd_file (f : Z) (g : file -> file) (s : fstate) : fstate := set_filps s (alter g f (filps s)).

Definition upd_table (t : Z) (g : files_struct -> files_struct) (s : fstate) : fstate := set_tables s (alter g t (tables s)).

Definition set_f_count (n : Z) (x : file) : file := File n (f_flags x) (f_owner x) (f_signum x).

Definition set_f_flags (n : Z) (x : file) : file := File (f_count x) n (f_owner x) (f_signum x).

Definition set_count (n : Z) (T : files_struct) : files_struct := Files n (fd T) (close_on_exec T) (open_fds T).

Definition set_fd (m : gmap Z Z) (T : files_struct) : files_struct := Files (count T) m (close_on_exec T) (open_fds T).

Definition set_cloexec (w : words) (T : files_struct) : files_struct := Files (count T) (fd T) w (open_fds T).

Definition set_open (w : words) (T : files_struct) : files_struct := Files (count T) (fd T) (close_on_exec T) w.

(** ** Sets of descriptors (include/asm-i370/posix_types.h) *)

Definition FD_SET (d : Z) (w : words) : words :=
  let i := d / NFDBITS in <[i := Z.lor (w i) (u32 (Z.shiftl 1 (d mod NFDBITS)))]> w.

Definition FD_CLR (d : Z) (w : words) : words :=
  let i := d / NFDBITS in <[i := Z.land (w i) (u32 (Z.lnot (u32 (Z.shiftl 1 (d mod NFDBITS)))))]> w.

Definition FD_ISSET (d : Z) (w : words) : bool :=
  negb (Z.land (w (d / NFDBITS)) (u32 (Z.shiftl 1 (d mod NFDBITS))) =? 0).

(** ** The table of open files (fs/file_table.c) *)

Definition insert_file_free (s : fstate) (f : Z) : fstate :=
  set_lists s (f :: free_filps s) (inuse_filps s) (nr_free_files s + 1).

Definition put_inuse (s : fstate) (f : Z) : fstate := set_lists s (free_filps s) (f :: inuse_filps s) (nr_free_files s).

Definition remove_filp (s : fstate) (f : Z) : fstate :=
  set_lists s (filter (fun a => a <> f) (free_filps s)) (filter (fun a => a <> f) (inuse_filps s)) (nr_free_files s).

(** [new] is the answer of the allocator, [root] whether the caller is the superuser. *)
Definition get_empty_filp (s : fstate) (root : bool) (new : option Z) : option (option Z * fstate) :=
  let clean s f := put_inuse (set_filps s (<[f := File 1 0 0 0]> (filps s))) f in
  if (NR_RESERVED_FILES <? nr_free_files s) || (negb (nr_free_files s =? 0) && root) then
    match free_filps s with
    | [] => None
    | f :: _ =>
      let s := remove_filp s f in
      let s := set_lists s (free_filps s) (inuse_filps s) (nr_free_files s - 1) in
      Some (Some f, clean s f)
    end
  else if nr_files s <? max_files s then
    match new with
    | Some f => Some (Some f, clean (set_nr_files s (nr_files s + 1)) f)
    | None => Some (None, s)
    end
  else Some (None, s).

Definition fput (s : fstate) (f : Z) : option fstate :=
  x ← filps s !! f;
  let count := f_count x - 1 in
  if count =? 0 then
    let s := set_released s (released s ++ [f]) in
    let s := upd_file f (set_f_count 0) s in
    Some (insert_file_free (remove_filp s f) f)
  else Some (upd_file f (set_f_count count) s).

Definition put_filp (s : fstate) (f : Z) : option fstate :=
  x ← filps s !! f;
  let s := upd_file f (set_f_count (f_count x - 1)) s in
  if f_count x - 1 =? 0 then Some (insert_file_free (remove_filp s f) f) else Some s.

(** ** Descriptors

    [p] is the current process, [rlim] its limit RLIMIT_NOFILE, a signed number; [flush f]
    is what the flush operation of the file answers. *)

(** [cap] is CAP_SYS_RESOURCE of the caller, [cur] and [max] the new limits. *)
Definition sys_setrlimit (rlims : list (Z * Z)) (resource cur max : Z) (cap : bool) : option (Z * list (Z * Z)) :=
  if RLIM_NLIMITS <=? u32 resource then Some (- EINVAL, rlims)
  else
    old ← rlims !! Z.to_nat (u32 resource);
    if ((old.2 <? cur) || (old.2 <? max)) && negb cap then Some (- EPERM, rlims)
    else if (u32 resource =? RLIMIT_NOFILE) && ((NR_OPEN <? cur) || (NR_OPEN <? max)) then Some (- EPERM, rlims)
    else Some (0, <[Z.to_nat (u32 resource) := (cur, max)]> rlims).

Definition table_of (s : fstate) (p : Z) : option (Z * files_struct) :=
  t ← task_files s !! p; T ← tables s !! t; Some (t, T).

Section Calls.
Context (p rlim : Z) (flush : Z -> Z).

(** The array has [max_fds] = NR_OPEN entries. *)
Definition fcheck (s : fstate) (d : Z) : option (option Z) :=
  '(_, T) ← table_of s p; Some (if u32 d <? NR_OPEN then fd T !! u32 d else None).

Definition fget (s : fstate) (d : Z) : option (option Z * fstate) :=
  r ← fcheck s d;
  match r with
  | Some f => Some (Some f, upd_file f (fun x => set_f_count (f_count x + 1) x) s)
  | None => Some (None, s)
  end.

Definition fd_install (s : fstate) (d f : Z) : option fstate :=
  '(t, T) ← table_of s p;
  if d <? NR_OPEN then Some (upd_table t (set_fd (<[d := f]> (fd T))) s) else None.

Definition get_unused_fd (s : fstate) : option (Z * fstate) :=
  '(t, T) ← table_of s p;
  let d := find_first_zero_bit (open_fds T) NR_OPEN in
  if rlim <=? d then Some (- EMFILE, s)
  else
    let T := set_cloexec (FD_CLR d (close_on_exec T)) (set_open (FD_SET d (open_fds T)) T) in
    let T := if fd T !! d is Some _ then set_fd (delete d (fd T)) T else T in
    Some (d, upd_table t (fun _ => T) s).

Definition put_unused_fd (s : fstate) (d : Z) : option fstate :=
  '(t, T) ← table_of s p; Some (upd_table t (set_open (FD_CLR d (open_fds T))) s).

(** [sys_open] up to the search for the path in [filp_open]; a result is the end of the
    call. *)
Definition open_start (s : fstate) (root : bool) (new : option Z) (flags : Z) : option (option Z * fstate) :=
  '(d, s) ← get_unused_fd s;
  if d <? 0 then Some (Some d, s)
  else
    '(f, s) ← get_empty_filp s root new;
    match f with
    | Some f =>
      let s := upd_file f (set_f_flags flags) s in
      Some (None, set_opening s (<[p := (d, f)]> (opening s)))
    | None => s ← put_unused_fd s d; Some (Some (- ENFILE), s)
    end.

(** The rest of it; [error] is 0 when the file could be opened. *)
Definition open_finish (s : fstate) (error : Z) : option (Z * fstate) :=
  '(d, f) ← opening s !! p;
  let s := set_opening s (delete p (opening s)) in
  if error =? 0 then
    let s := upd_file f (fun x => set_f_flags (Z.land (f_flags x) (u32 (Z.lnot (Z.lor (Z.lor O_CREAT O_EXCL) (Z.lor O_NOCTTY O_TRUNC))))) x) s in
    s ← fd_install s d f; Some (d, s)
  else
    s ← put_filp s f; s ← put_unused_fd s d; Some (error, s).

Definition close_fp (s : fstate) (f : Z) : option (Z * fstate) :=
  x ← filps s !! f;
  if f_count x =? 0 then Some (0, s) else s ← fput s f; Some (flush f, s).

Definition sys_close (s : fstate) (d : Z) : option (Z * fstate) :=
  r ← fcheck s d;
  match r with
  | None => Some (- EBADF, s)
  | Some f =>
    '(t, T) ← table_of s p;
    let s := upd_table t (set_fd (delete (u32 d) (fd T))) s in
    s ← put_unused_fd s (u32 d);
    let s := upd_table t (set_cloexec (FD_CLR (u32 d) (close_on_exec T))) s in
    close_fp s f
  end.

Definition dupfd (s : fstate) (d arg : Z) : option (Z * fstate) :=
  if NR_OPEN <=? u32 arg then Some (- EINVAL, s)
  else
    '(r, s) ← fget s d;
    match r with
    | None => Some (- EBADF, s)
    | Some f =>
      '(t, T) ← table_of s p;
      let arg := find_next_zero_bit (open_fds T) NR_OPEN (u32 arg) in
      if u32 rlim <=? arg then s ← fput s f; Some (- EMFILE, s)
      else
        let s := upd_table t (set_open (FD_SET arg (open_fds T))) s in
        let s := upd_table t (set_cloexec (FD_CLR arg (close_on_exec T))) s in
        s ← fd_install s arg f; Some (arg, s)
    end.

Definition sys_dup2 (s : fstate) (oldfd newfd : Z) : option (Z * fstate) :=
  r ← fcheck s oldfd;
  match r with
  | None => Some (- EBADF, s)
  | Some _ =>
    if u32 newfd =? u32 oldfd then Some (s32 newfd, s)
    else if NR_OPEN <=? u32 newfd then Some (- EBADF, s)
    else '(_, s) ← sys_close s newfd; dupfd s oldfd newfd
  end.

Definition sys_dup (s : fstate) (fildes : Z) : option (Z * fstate) := dupfd s fildes 0.

Definition F_DUPFD : Z := 0.
Definition F_GETFD : Z := 1.
Definition F_SETFD : Z := 2.
Definition F_GETFL : Z := 3.
Definition F_SETFL : Z := 4.
Definition F_GETLK : Z := 5.
Definition F_SETLKW : Z := 7.
Definition F_SETOWN : Z := 8.
Definition F_GETOWN : Z := 9.
Definition F_SETSIG : Z := 10.
Definition F_GETSIG : Z := 11.
Definition O_APPEND : Z := 0x400.
Definition O_NONBLOCK : Z := 0x800.
Definition FASYNC : Z := 0x2000.
Definition SETFL_MASK : Z := Z.lor (Z.lor O_APPEND O_NONBLOCK) FASYNC.
Definition _NSIG : Z := 64.

(** [append_only] is IS_APPEND of the inode.  O_NDELAY is O_NONBLOCK here. *)
Definition setfl (s : fstate) (f : Z) (x : file) (arg : Z) (append_only : bool) : Z * fstate :=
  if (Z.land arg O_APPEND =? 0) && append_only then (- EPERM, s)
  else (0, upd_file f (set_f_flags (Z.lor (Z.land arg SETFL_MASK) (Z.land (f_flags x) (u32 (Z.lnot SETFL_MASK))))) s).

(** [lock] is the answer of [fcntl_getlk] and [fcntl_setlk], and [sock], for a socket, that
    of [sock_fcntl]; the ids of the owner are not kept. *)
Definition sys_fcntl (s : fstate) (d cmd arg : Z) (append_only : bool) (lock : Z) (sock : option Z) : option (Z * fstate) :=
  '(r, s) ← fget s d;
  match r with
  | None => Some (- EBADF, s)
  | Some f =>
    '(t, T) ← table_of s p;
    x ← filps s !! f;
    '(err, s) ←
      (if cmd =? F_DUPFD then dupfd s d arg
       else if cmd =? F_GETFD then Some (Z.b2z (FD_ISSET (u32 d) (close_on_exec T)), s)
       else if cmd =? F_SETFD then
         Some (0, upd_table t (set_cloexec ((if Z.odd arg then FD_SET else FD_CLR) (u32 d) (close_on_exec T))) s)
       else if cmd =? F_GETFL then Some (f_flags x, s)
       else if cmd =? F_SETFL then Some (setfl s f x arg append_only)
       else if (F_GETLK <=? cmd) && (cmd <=? F_SETLKW) then Some (lock, s)
       else if cmd =? F_GETOWN then Some (f_owner x, s)
       else if cmd =? F_SETOWN then Some (default 0 sock, upd_file f (fun x => File (f_count x) (f_flags x) (s32 arg) (f_signum x)) s)
       else if cmd =? F_GETSIG then Some (f_signum x, s)
       else if cmd =? F_SETSIG then
         if (u32 arg <=? 0) || (_NSIG <? u32 arg) then Some (- EINVAL, s)
         else Some (0, upd_file f (fun x => File (f_count x) (f_flags x) (f_owner x) (s32 arg)) s)
       else Some (default (- EINVAL) sock, s));
    s ← fput s f;
    Some (err, s)
  end.

(** A call that keeps a reference while it sleeps, such as [read]. *)
Definition hold (s : fstate) (d : Z) : option (option Z * fstate) :=
  '(r, s) ← fget s d;
  match r with Some f => Some (Some f, set_held s (f :: held s)) | None => Some (None, s) end.

(** ** Processes *)

(** The loop of [__copy_fdset]: the number of descriptors to copy. *)
Fixpoint fdset_words (n : nat) (i : Z) (src : words) (max : Z) : Z :=
  match n with
  | O => max
  | S n => fdset_words n (i + 1) src (if src i =? 0 then max else i + 1)
  end.

Definition copy_fdset (src : words) : Z := fdset_words FDSET_LONGS 0 src 0 * 32.

(** The loop of [copy_files]: [n] entries from entry [i] on. *)
Fixpoint copy_fds (n : nat) (i : Z) (old : gmap Z Z) (new : gmap Z Z) (s : fstate) : gmap Z Z * fstate :=
  match n with
  | O => (new, s)
  | S n =>
    match old !! i with
    | Some f => copy_fds n (i + 1) old (<[i := f]> new) (upd_file f (fun x => set_f_count (f_count x + 1) x) s)
    | None => copy_fds n (i + 1) old new s
    end
  end.

(** [share] is CLONE_FILES; [alloc] whether memory could be had, [new] the new table. *)
Definition copy_files (s : fstate) (child : Z) (share alloc : bool) (new : Z) : option (Z * fstate) :=
  match task_files s !! p with
  | None => Some (0, s)
  | Some t =>
    T ← tables s !! t;
    if share then Some (0, set_task_files (upd_table t (set_count (count T + 1)) s) (<[child := t]> (task_files s)))
    else if negb alloc then Some (- ENOMEM, s)
    else
      let '(fds, s) := copy_fds (Z.to_nat (copy_fdset (open_fds T))) 0 (fd T) ∅ s in
      let s := set_tables s (<[new := Files 1 fds (close_on_exec T) (open_fds T)]> (tables s)) in
      Some (0, set_task_files s (<[child := new]> (task_files s)))
  end.

(** The inner loop of [close_files]: a word [set] of the descriptors from [i] on. *)
Fixpoint close_word (n : nat) (t i set : Z) (s : fstate) : option fstate :=
  if set =? 0 then Some s else
  match n with
  | O => None
  | S n =>
    s ← (if Z.odd set then
           T ← tables s !! t;
           match fd T !! i with
           | Some f =>
             let s := upd_table t (set_fd (delete i (fd T))) s in
             '(_, s) ← close_fp s f; Some s
           | None => Some s
           end
         else Some s);
    close_word n t (i + 1) (Z.shiftr set 1) s
  end.

Fixpoint close_words (n : nat) (t j : Z) (s : fstate) : option fstate :=
  match n with
  | O => Some s
  | S n =>
    T ← tables s !! t;
    s ← close_word 32 t (j * NFDBITS) (open_fds T j) s;
    close_words n t (j + 1) s
  end.

Definition close_files (s : fstate) (t : Z) : option fstate := close_words (Z.to_nat (NR_OPEN / NFDBITS)) t 0 s.

Definition exit_files (s : fstate) : option fstate :=
  match task_files s !! p with
  | None => Some s
  | Some t =>
    let s := set_task_files s (delete p (task_files s)) in
    T ← tables s !! t;
    let s := upd_table t (set_count (count T - 1)) s in
    if count T - 1 =? 0 then s ← close_files s t; Some (set_tables s (delete t (tables s)))
    else Some s
  end.

(** The inner loop of [flush_old_files]. *)
Fixpoint flush_word (n : nat) (i set : Z) (s : fstate) : option fstate :=
  if set =? 0 then Some s else
  match n with
  | O => None
  | S n =>
    s ← (if Z.odd set then '(_, s) ← sys_close s i; Some s else Some s);
    flush_word n (i + 1) (Z.shiftr set 1) s
  end.

Fixpoint flush_words (n : nat) (j : Z) (s : fstate) : option fstate :=
  match n with
  | O => Some s
  | S n =>
    '(t, T) ← table_of s p;
    let set := close_on_exec T j in
    let s := upd_table t (set_cloexec (<[j := 0]> (close_on_exec T))) s in
    s ← flush_word 32 (j * NFDBITS) set s;
    flush_words n (j + 1) s
  end.

Definition flush_old_files (s : fstate) : option fstate := flush_words (Z.to_nat (NR_OPEN / NFDBITS)) 0 s.

End Calls.

(** The end of a call that held a reference. *)
Definition unhold (s : fstate) (f : Z) : option fstate :=
  match list_find (eq f) (held s) with
  | Some (i, _) => fput (set_held s (delete i (held s))) f
  | None => None
  end.
