(* ===== verification/FilesProof.v ===== *)
(** * Open files: every reference is counted *)

From stdpp Require Import functions.
From S2P Require Import Prelude Bitops Files.

(** ** Bits *)

Lemma fd_index d : d / NFDBITS = Z.shiftr d 5 /\ d mod NFDBITS = Z.land d 0x1f.
Proof.
  split; [by rewrite Z.shiftr_div_pow2|]. change 0x1f with (Z.ones 5). by rewrite Z.land_ones.
Qed.

Lemma FD_SET_eq d w : FD_SET d w = set_bit d w.
Proof. unfold FD_SET, set_bit, update_bit, bit_mask. destruct (fd_index d) as [-> ->]. done. Qed.

Lemma FD_CLR_eq d w : FD_CLR d w = clear_bit d w.
Proof. unfold FD_CLR, clear_bit, update_bit, bit_mask. destruct (fd_index d) as [-> ->]. done. Qed.

Lemma bit_set d w i : bit (FD_SET d w) i = if i =? d then true else bit w i.
Proof. rewrite FD_SET_eq. apply set_bit_spec. Qed.

Lemma bit_clr d w i : words_ok w -> bit (FD_CLR d w) i = if i =? d then false else bit w i.
Proof. rewrite FD_CLR_eq. apply clear_bit_spec. Qed.

Lemma mask_word d : 0 <= u32 (Z.shiftl 1 (d mod NFDBITS)) < 2 ^ 32.
Proof. apply u32_range. Qed.

Lemma words_set d w : words_ok w -> words_ok (FD_SET d w).
Proof. intros Hw. apply words_ok_set; [done|]. apply lor_word; [apply Hw|apply u32_range]. Qed.

Lemma words_clr d w : words_ok w -> words_ok (FD_CLR d w).
Proof. intros Hw. apply words_ok_set; [done|]. apply land_word; [apply Hw|apply u32_range]. Qed.

(** ** References *)

Definition same (f g : Z) : Z := if g =? f then 1 else 0.

Lemma same_nonneg f g : 0 <= same f g.
Proof. unfold same. case_match; lia. Qed.

(** How often [f] is in a list, and in an array of descriptors. *)
Fixpoint occ (f : Z) (l : list Z) : Z := match l with [] => 0 | g :: l => same f g + occ f l end.

Lemma msum_all_zero {A} (f : A -> Z) m : (forall k x, m !! k = Some x -> f x = 0) -> msum f m = 0.
Proof.
  induction m as [|k x m Hk _ IH] using map_first_key_ind; [done|]. intros H. rewrite msum_insert by done.
  rewrite (H k x) by apply lookup_insert_eq. rewrite IH; [done|]. intros j y Hj. apply (H j). rewrite lookup_insert_ne; [done|congruence].
Qed.

Definition slots (f : Z) (m : gmap Z Z) : Z := msum (same f) m.

Lemma occ_app f l k : occ f (l ++ k) = occ f l + occ f k.
Proof. induction l as [|g l IH]; cbn; [lia|rewrite IH; lia]. Qed.

Lemma occ_nonneg f l : 0 <= occ f l.
Proof. induction l as [|g l IH]; cbn; [done|]. pose proof (same_nonneg f g). lia. Qed.

Lemma occ_pos f l : 0 < occ f l <-> f ∈ l.
Proof.
  induction l as [|g l IH]; cbn; [split; [lia|by intros ?%not_elem_of_nil]|]. rewrite elem_of_cons, <- IH. unfold same.
  pose proof (occ_nonneg f l). destruct (g =? f) eqn:E; split; intros; try lia; left; lia || (destruct H0; [lia|lia]).
Qed.

Definition slots_nonneg f m : 0 <= slots f m := msum_nonneg (same f) m (same_nonneg f).

(** The number of references: from descriptors, from calls of [open] in progress, and
    from calls that hold one; [d] are references that a call is about to give up. *)
Definition refs (s : fstate) (d : list Z) (f : Z) : Z :=
  msum (fun T => slots f (fd T)) (tables s) + msum (fun o => same f o.2) (opening s) + occ f (held s) + occ f d.

(** ** The invariant *)

(** The table of open files, for given numbers of references. *)
Record filps_ok (s : fstate) (R : Z -> Z) : Prop := {
  fl_count f x : filps s !! f = Some x -> f_count x = R f;
  fl_known f : 0 < R f -> is_Some (filps s !! f);
  fl_free f : f ∈ free_filps s <-> exists x, filps s !! f = Some x /\ f_count x = 0;
  fl_inuse f : f ∈ inuse_filps s <-> exists x, filps s !! f = Some x /\ f_count x <> 0;
  fl_free_once : NoDup (free_filps s);
  fl_inuse_once : NoDup (inuse_filps s);
  fl_nr_free : nr_free_files s = Z.of_nat (length (free_filps s));
  fl_nr : nr_files s = Z.of_nat (size (filps s)) }.

(** What an operation on the table of open files leaves alone. *)
Record fframe (s s' : fstate) : Prop := {
  ff_tables : tables s' = tables s; ff_tasks : task_files s' = task_files s;
  ff_opening : opening s' = opening s; ff_held : held s' = held s }.

#[export] Instance fframe_refl : Reflexive fframe.
Proof. by constructor. Qed.

#[export] Instance fframe_trans : Transitive fframe.
Proof. intros ??? [] []. constructor; congruence. Qed.

(** The tables of descriptors: a descriptor with a file is marked, and so is one that a
    call of [open] in progress has reserved, which has no file and one owner.  [dying] is a
    table that the last process has given up and that is being emptied. *)
Section Dying.
Context (dying : option Z).

Record tables_ok (ts : gmap Z files_struct) (tf : gmap Z Z) (op : gmap Z (Z * Z)) : Prop := {
  tb_words t T : ts !! t = Some T -> words_ok (open_fds T) /\ words_ok (close_on_exec T);
  tb_slot t T i f : ts !! t = Some T -> fd T !! i = Some f -> 0 <= i < NR_OPEN /\ bit (open_fds T) i = true;
  tb_opening p i f : op !! p = Some (i, f) -> exists t T, tf !! p = Some t /\ ts !! t = Some T /\
    0 <= i < NR_OPEN /\ bit (open_fds T) i = true /\ fd T !! i = None;
  tb_apart p q i f g : op !! p = Some (i, f) -> op !! q = Some (i, g) -> tf !! p = tf !! q -> p = q;
  tb_count t T : ts !! t = Some T -> count T = msum (same t) tf /\ (0 < count T \/ dying = Some t);
  tb_task p t : tf !! p = Some t -> is_Some (ts !! t) }.

Record fs_inv (s : fstate) (d : list Z) : Prop := {
  fi_filps : filps_ok s (refs s d);
  fi_tables : tables_ok (tables s) (task_files s) (opening s) }.

Lemma refs_nonneg s d f : 0 <= refs s d f.
Proof.
  unfold refs. pose proof (msum_nonneg (fun T => slots f (fd T)) (tables s) (fun T => slots_nonneg f (fd T))).
  pose proof (msum_nonneg (fun o : Z * Z => same f o.2) (opening s) (fun o => same_nonneg f o.2)). pose proof (occ_nonneg f (held s)). pose proof (occ_nonneg f d). lia.
Qed.

Lemma filps_ok_ext s R R' : (forall f, R' f = R f) -> filps_ok s R -> filps_ok s R'.
Proof. intros He []. constructor; try done; intros; rewrite He in *; eauto. Qed.

Lemma fframe_refs s s' d f : fframe s s' -> refs s' d f = refs s d f.
Proof. intros []. unfold refs. congruence. Qed.

Lemma fframe_tables s s' : fframe s s' -> tables_ok (tables s) (task_files s) (opening s) ->
  tables_ok (tables s') (task_files s') (opening s').
Proof. intros [] H. congruence. Qed.

Lemma same_refl f : same f f = 1.
Proof. unfold same. by rewrite Z.eqb_refl. Qed.

Lemma same_ne f g : g <> f -> same f g = 0.
Proof. unfold same. intros. case_match; [lia|done]. Qed.

(** ** Operations on the table of open files *)

(** One file gets another number of references, and stays on its list. *)
Lemma filps_recount s R f x y R' :
  filps_ok s R -> filps s !! f = Some x -> (f_count y = 0 <-> f_count x = 0) ->
  R' f = f_count y -> (forall g, g <> f -> R' g = R g) ->
  filps_ok (set_filps s (<[f := y]> (filps s))) R'.
Proof.
  intros H Hf Hz Hy Ho. destruct H. constructor; cbn; try done.
  - intros g z. destruct (decide (g = f)) as [->|Hne]; [rewrite lookup_insert_eq; intros [= <-]; done|].
    rewrite lookup_insert_ne, Ho by done. eauto.
  - intros g. destruct (decide (g = f)) as [->|Hne]; [by rewrite lookup_insert_eq|]. rewrite lookup_insert_ne, Ho by done. eauto.
  - intros g. rewrite fl_free0. destruct (decide (g = f)) as [->|Hne]; [|by rewrite lookup_insert_ne].
    rewrite lookup_insert_eq, Hf. naive_solver.
  - intros g. rewrite fl_inuse0. destruct (decide (g = f)) as [->|Hne]; [|by rewrite lookup_insert_ne].
    rewrite lookup_insert_eq, Hf. naive_solver.
  - rewrite map_size_insert_Some by eauto. done.
Qed.

Lemma upd_file_eq f g s x : filps s !! f = Some x -> upd_file f g s = set_filps s (<[f := g x]> (filps s)).
Proof. intros Hf. unfold upd_file. f_equal. apply map_eq. intros i. destruct (decide (i = f)) as [->|]; simplify_map_eq; done. Qed.

Lemma filps_get s R f : filps_ok s R -> 0 < R f -> exists x, filps s !! f = Some x /\ f_count x = R f.
Proof. intros H Hr. destruct (fl_known _ _ H f Hr) as [x Hx]. exists x. split; [done|by eapply fl_count]. Qed.

(** A field other than the count changes. *)
Lemma filps_field s R f g : filps_ok s R -> (forall x, f_count (g x) = f_count x) -> filps_ok (upd_file f g s) R.
Proof.
  intros H Hg. destruct (filps s !! f) as [x|] eqn:Hf.
  - rewrite (upd_file_eq _ _ _ x Hf). eapply filps_recount; eauto. { by rewrite Hg. } rewrite Hg. symmetry. by eapply fl_count.
  - unfold upd_file. assert (alter g f (filps s) = filps s) as -> by (apply map_eq; intros i; destruct (decide (i = f)) as [->|]; simplify_map_eq; done).
    destruct s. apply H.
Qed.

Lemma filps_incr s R f : filps_ok s R -> 0 < R f ->
  filps_ok (upd_file f (fun x => set_f_count (f_count x + 1) x) s) (fun g => R g + same g f).
Proof.
  intros H Hr. destruct (filps_get _ _ _ H Hr) as (x & Hx & Hc). rewrite (upd_file_eq _ _ _ x Hx).
  eapply filps_recount; eauto; cbn; [lia|rewrite same_refl; lia|]. intros g Hg. rewrite same_ne by done. lia.
Qed.

(** The last reference goes: the file moves to the free list. *)
Lemma filps_free s R f x l : filps_ok s R -> filps s !! f = Some x -> R f = 1 ->
  filps_ok (insert_file_free (remove_filp (upd_file f (set_f_count 0) (set_released s l)) f) f) (fun g => R g - same g f).
Proof.
  intros H Hf Hr. rewrite (upd_file_eq f _ (set_released s l) x Hf). pose proof (fl_count _ _ H _ _ Hf) as Hc.
  assert (f ∉ free_filps s) as Hnf by (intros (y & Hy & ?)%(fl_free _ _ H); simplify_eq; lia).
  destruct H. constructor; cbn.
  - intros g y. destruct (decide (g = f)) as [->|Hne]; [rewrite lookup_insert_eq, same_refl; intros [= <-]; cbn; lia|].
    rewrite lookup_insert_ne, same_ne by done. intros. rewrite Z.sub_0_r. eauto.
  - intros g. destruct (decide (g = f)) as [->|Hne]; [by rewrite lookup_insert_eq|]. rewrite lookup_insert_ne, same_ne, Z.sub_0_r by done. eauto.
  - intros g. rewrite elem_of_cons, list_elem_of_filter, fl_free0. destruct (decide (g = f)) as [->|Hne].
    + rewrite lookup_insert_eq. split; [|by left]. intros _. by eexists.
    + rewrite lookup_insert_ne by done. naive_solver.
  - intros g. rewrite list_elem_of_filter, fl_inuse0. destruct (decide (g = f)) as [->|Hne].
    + rewrite lookup_insert_eq. split; [by intros []|]. intros (y & [= <-] & ?). done.
    + rewrite lookup_insert_ne by done. naive_solver.
  - constructor; [rewrite list_elem_of_filter; naive_solver|by apply NoDup_filter].
  - by apply NoDup_filter.
  - rewrite fl_nr_free0, filter_absent by done. cbn. lia.
  - rewrite map_size_insert_Some by eauto. done.
Qed.

(** [fput] and [put_filp] give up one reference. *)
Lemma fput_ok s R f : filps_ok s R -> 0 < R f ->
  exists s', fput s f = Some s' /\ filps_ok s' (fun g => R g - same g f) /\ fframe s s' /\
    released s' = (if R f =? 1 then released s ++ [f] else released s).
Proof.
  intros H Hr. destruct (filps_get _ _ _ H Hr) as (x & Hx & Hc). unfold fput. rewrite Hx. cbn [mbind option_bind].
  replace (R f =? 1) with (f_count x - 1 =? 0) by lia. destruct (f_count x - 1 =? 0) eqn:E.
  - eexists. split; [done|]. split; [eapply filps_free; eauto; lia|]. split; [|done]. constructor; done.
  - eexists. split; [done|]. split; [|split; done]. rewrite (upd_file_eq _ _ _ x Hx).
    eapply filps_recount; eauto; cbn; [lia|rewrite same_refl; lia|]. intros g Hg. rewrite same_ne by done. lia.
Qed.

Lemma put_filp_ok s R f : filps_ok s R -> 0 < R f ->
  exists s', put_filp s f = Some s' /\ filps_ok s' (fun g => R g - same g f) /\ fframe s s' /\ released s' = released s.
Proof.
  intros H Hr. destruct (filps_get _ _ _ H Hr) as (x & Hx & Hc). unfold put_filp. rewrite Hx. cbn [mbind option_bind].
  destruct (f_count x - 1 =? 0) eqn:E.
  - eexists. split; [done|]. assert (f_count x - 1 = 0) as -> by lia. split; [|split; done].
    pose proof (filps_free s R f x (released s) H Hx ltac:(lia)) as Hok. by destruct s.
  - eexists. split; [done|]. split; [|split; done]. rewrite (upd_file_eq _ _ _ x Hx).
    eapply filps_recount; eauto; cbn; [lia|rewrite same_refl; lia|]. intros g Hg. rewrite same_ne by done. lia.
Qed.

(** A file structure from the free list, or a new one, comes with one reference. *)
Lemma filps_reuse s R f l : filps_ok s R -> free_filps s = f :: l ->
  filps_ok (FState (<[f := File 1 0 0 0]> (filps s)) (filter (fun a => a <> f) (free_filps s)) (f :: filter (fun a => a <> f) (inuse_filps s))
    (nr_files s) (nr_free_files s - 1) (max_files s) (tables s) (task_files s) (opening s) (held s) (released s)) (fun g => R g + same g f) /\
  R f = 0.
Proof.
  intros H Hl. assert (f ∈ free_filps s) as Hin by (rewrite Hl; left). destruct (proj1 (fl_free _ _ H f) Hin) as (x & Hx & Hc).
  pose proof (fl_count _ _ H _ _ Hx) as HR. split; [|congruence]. pose proof (fl_free_once _ _ H) as Hnd.
  rewrite Hl in Hnd. inv Hnd.
  destruct H. constructor; cbn.
  - intros g y. destruct (decide (g = f)) as [->|Hne]; [rewrite lookup_insert_eq, same_refl; intros [= <-]; cbn; lia|].
    rewrite lookup_insert_ne, same_ne, Z.add_0_r by done. eauto.
  - intros g. destruct (decide (g = f)) as [->|Hne]; [by rewrite lookup_insert_eq|]. rewrite lookup_insert_ne, same_ne, Z.add_0_r by done. eauto.
  - intros g. rewrite list_elem_of_filter, fl_free0. destruct (decide (g = f)) as [->|Hne].
    + rewrite lookup_insert_eq. split; [by intros []|]. intros (y & [= <-] & ?). done.
    + rewrite lookup_insert_ne by done. naive_solver.
  - intros g. rewrite elem_of_cons, list_elem_of_filter, fl_inuse0. destruct (decide (g = f)) as [->|Hne].
    + rewrite lookup_insert_eq. split; [|by left]. intros _. by eexists.
    + rewrite lookup_insert_ne by done. naive_solver.
  - by apply NoDup_filter.
  - constructor; [rewrite list_elem_of_filter; naive_solver|by apply NoDup_filter].
  - rewrite fl_nr_free0, Hl, filter_cons_False, filter_absent by (done || naive_solver). cbn. lia.
  - rewrite map_size_insert_Some by eauto. done.
Qed.

Lemma filps_new s R f : filps_ok s R -> (forall g, 0 <= R g) -> filps s !! f = None ->
  filps_ok (FState (<[f := File 1 0 0 0]> (filps s)) (free_filps s) (f :: inuse_filps s)
    (nr_files s + 1) (nr_free_files s) (max_files s) (tables s) (task_files s) (opening s) (held s) (released s)) (fun g => R g + same g f) /\
  R f = 0.
Proof.
  intros H Hpos Hf. assert (R f = 0) as HR. { destruct (decide (0 < R f)) as [Hp|]; [destruct (fl_known _ _ H f Hp); congruence|]. specialize (Hpos f). lia. }
  split; [|done]. assert (f ∉ inuse_filps s) as Hnf by (intros (y & Hy & ?)%(fl_inuse _ _ H); congruence).
  destruct H. constructor; cbn.
  - intros g y. destruct (decide (g = f)) as [->|Hne]; [rewrite lookup_insert_eq, same_refl; intros [= <-]; cbn; lia|].
    rewrite lookup_insert_ne, same_ne, Z.add_0_r by done. eauto.
  - intros g. destruct (decide (g = f)) as [->|Hne]; [by rewrite lookup_insert_eq|]. rewrite lookup_insert_ne, same_ne, Z.add_0_r by done. eauto.
  - intros g. rewrite fl_free0. destruct (decide (g = f)) as [->|Hne]; [|by rewrite lookup_insert_ne].
    rewrite lookup_insert_eq. naive_solver.
  - intros g. rewrite elem_of_cons, fl_inuse0. destruct (decide (g = f)) as [->|Hne]; [|rewrite lookup_insert_ne; naive_solver].
    rewrite lookup_insert_eq. naive_solver.
  - done.
  - by constructor.
  - done.
  - rewrite map_size_insert_None by done. lia.
Qed.

Lemma get_empty_filp_ok s R root new : filps_ok s R -> (forall g, 0 <= R g) -> (forall f, new = Some f -> filps s !! f = None) ->
  exists r s', get_empty_filp s root new = Some (r, s') /\ fframe s s' /\ released s' = released s /\
    match r with
    | Some f => R f = 0 /\ filps_ok s' (fun g => R g + same g f) /\ filps s' !! f = Some (File 1 0 0 0)
    | None => s' = s /\ nr_free_files s <= NR_RESERVED_FILES /\ (max_files s <= nr_files s \/ new = None)
    end.
Proof.
  intros H Hpos Hnew. unfold get_empty_filp.
  destruct ((NR_RESERVED_FILES <? nr_free_files s) || (negb (nr_free_files s =? 0) && root)) eqn:E.
  - destruct (free_filps s) as [|f l] eqn:Hl. { exfalso. pose proof (fl_nr_free _ _ H) as Hn. rewrite Hl in Hn. cbn in Hn. rewrite Hn in E. by vm_compute in E. }
    destruct (filps_reuse s R f l H Hl) as [Hok HR]. rewrite Hl in Hok. eexists _, _. split; [done|].
    do 2 (split; [done|]). split; [done|]. split; [|apply lookup_insert_eq]. cbn. rewrite Hl. exact Hok.
  - apply orb_false_elim in E as [E _]. destruct (nr_files s <? max_files s) eqn:Em; [|eexists None, s; do 4 (split; [done || lia|]); auto; split; [|auto]; lia].
    destruct new as [f|]; [|eexists None, s; do 4 (split; [done || lia|]); auto; split; [|auto]; lia]. destruct (filps_new s R f H Hpos (Hnew f eq_refl)) as [Hok HR].
    eexists _, _. do 4 (split; [done|]). split; [done|apply lookup_insert_eq].
Qed.

(** ** Operations on one table *)

Definition put_table (s : fstate) (t : Z) (T : files_struct) : fstate := set_tables s (<[t := T]> (tables s)).

Lemma upd_table_eq t g s T : tables s !! t = Some T -> upd_table t g s = put_table s t (g T).
Proof. intros Hf. unfold upd_table, put_table. f_equal. apply map_eq. intros i. destruct (decide (i = t)) as [->|]; simplify_map_eq; done. Qed.

Lemma put_table_twice s t T T' : put_table (put_table s t T) t T' = put_table s t T'.
Proof. unfold put_table. cbn. by rewrite insert_insert_eq. Qed.

Lemma upd_put_table s t T g : upd_table t g (put_table s t T) = put_table s t (g T).
Proof. rewrite (upd_table_eq t g _ T), put_table_twice; [done|]. apply lookup_insert_eq. Qed.

Lemma table_of_spec s p t T : table_of s p = Some (t, T) <-> task_files s !! p = Some t /\ tables s !! t = Some T.
Proof.
  unfold table_of. destruct (task_files s !! p) as [t'|]; cbn; [|naive_solver].
  destruct (tables s !! t') as [T'|] eqn:E; cbn; naive_solver.
Qed.

Lemma table_of_put s p t T T' : table_of s p = Some (t, T) -> table_of (put_table s t T') p = Some (t, T').
Proof. rewrite !table_of_spec. cbn. rewrite lookup_insert_eq. naive_solver. Qed.

(** No call of [open] in progress has reserved descriptor [i] of the table. *)
Definition unreserved (s : fstate) (t i : Z) : Prop := forall q f, task_files s !! q = Some t -> opening s !! q <> Some (i, f).

Lemma slot_unreserved s d t T i f : fs_inv s d -> tables s !! t = Some T -> fd T !! i = Some f -> unreserved s t i.
Proof. intros H Ht Hi q g Hq Hg. destruct (tb_opening _ _ _ (fi_tables _ _ H) _ _ _ Hg) as (t' & T' & ? & ? & _ & _ & ?). simplify_eq. Qed.

Lemma free_unreserved s d t T i : fs_inv s d -> tables s !! t = Some T -> bit (open_fds T) i = false -> unreserved s t i.
Proof. intros H Ht Hi q g Hq Hg. destruct (tb_opening _ _ _ (fi_tables _ _ H) _ _ _ Hg) as (t' & T' & ? & ? & _ & ? & _). simplify_eq. congruence. Qed.

(** One table changes, and with it the references that are owed. *)
Lemma table_inv s d d' t T T' :
  fs_inv s d -> tables s !! t = Some T -> count T' = count T -> words_ok (open_fds T') -> words_ok (close_on_exec T') ->
  (forall i f, fd T' !! i = Some f -> 0 <= i < NR_OPEN /\ bit (open_fds T') i = true) ->
  (forall i, bit (open_fds T) i = true -> fd T !! i = None -> ~ unreserved s t i -> bit (open_fds T') i = true /\ fd T' !! i = None) ->
  (forall f, slots f (fd T') + occ f d' = slots f (fd T) + occ f d) ->
  fs_inv (put_table s t T') d'.
Proof.
  intros [Hf Ht] HT Hc Hw1 Hw2 Hs Ho Hr. split.
  - eapply (filps_ok_ext _ (refs s d)); [|destruct Hf; by constructor].
    intros f. unfold refs, put_table. cbn. rewrite (msum_update _ _ t T) by done. specialize (Hr f). cbn in Hr. lia.
  - cbn. destruct Ht. constructor.
    + intros u U HU. destruct (decide (u = t)) as [->|]; simplify_map_eq; eauto.
    + intros u U i f HU. destruct (decide (u = t)) as [->|]; simplify_map_eq; eauto.
    + intros q i f Hq. destruct (tb_opening0 q i f Hq) as (u & U & Hu & HU & Hi & Hb & He). exists u.
      destruct (decide (u = t)) as [->|]; simplify_map_eq; [|by exists U].
      destruct (Ho i Hb He) as [Hb' He']; [intros Hun; eapply Hun; eauto|]. by exists T'.
    + done.
    + intros u U HU. destruct (decide (u = t)) as [->|]; simplify_map_eq; [rewrite Hc|]; eauto.
    + intros q u Hu. destruct (tb_task0 q u Hu) as [U HU]. destruct (decide (u = t)) as [->|]; simplify_map_eq; eauto.
Qed.

(** Descriptor [i] is closed, reserved, or given a file. *)
Definition closed (i : Z) (T : files_struct) : files_struct :=
  Files (count T) (delete i (fd T)) (FD_CLR i (close_on_exec T)) (FD_CLR i (open_fds T)).

Definition reserved (i : Z) (T : files_struct) : files_struct :=
  Files (count T) (fd T) (FD_CLR i (close_on_exec T)) (FD_SET i (open_fds T)).

Definition installed (i f : Z) (T : files_struct) : files_struct :=
  Files (count T) (<[i := f]> (fd T)) (FD_CLR i (close_on_exec T)) (FD_SET i (open_fds T)).

Lemma slots_delete f m i g : m !! i = Some g -> slots f (delete i m) = slots f m - same f g.
Proof. intros. by apply msum_delete. Qed.

Lemma slots_insert f m i g : m !! i = None -> slots f (<[i := g]> m) = same f g + slots f m.
Proof. intros. by apply msum_insert. Qed.

Lemma slot_refs s d t T i f : tables s !! t = Some T -> fd T !! i = Some f -> 0 < refs s d f.
Proof.
  intros Ht Hi. pose proof (msum_ge (same f) (fd T) i f (same_nonneg f) Hi) as H1. rewrite same_refl in H1.
  pose proof (msum_ge (fun T => slots f (fd T)) (tables s) t T (fun T => slots_nonneg f (fd T)) Ht) as H2. cbn in H2. unfold slots in H2 at 1.
  pose proof (msum_nonneg (fun o : Z * Z => same f o.2) (opening s) (fun o => same_nonneg f o.2)). pose proof (occ_nonneg f (held s)). pose proof (occ_nonneg f d).
  unfold refs. lia.
Qed.

Lemma closed_inv s d t T i f : fs_inv s d -> tables s !! t = Some T -> fd T !! i = Some f ->
  fs_inv (put_table s t (closed i T)) (f :: d).
Proof.
  intros H HT Hi. destruct (tb_words _ _ _ (fi_tables _ _ H) t T HT) as [Hw1 Hw2].
  apply (table_inv s d _ t T); cbn; auto using words_clr.
  - intros j g Hj. destruct (decide (j = i)) as [->|]; simplify_map_eq. rewrite bit_clr by done. replace (j =? i) with false by lia.
    by eapply tb_slot; [apply H| |].
  - intros j Hb He Hu. assert (j <> i) by congruence. rewrite bit_clr, lookup_delete_ne by done. by replace (j =? i) with false by lia.
  - intros g. rewrite (slots_delete _ _ _ f) by done. lia.
Qed.

Lemma reserved_inv s d t T i : fs_inv s d -> tables s !! t = Some T -> fs_inv (put_table s t (reserved i T)) d.
Proof.
  intros H HT. destruct (tb_words _ _ _ (fi_tables _ _ H) t T HT) as [Hw1 Hw2].
  apply (table_inv s d _ t T); cbn; auto using words_set, words_clr.
  - intros j g Hj. rewrite bit_set. destruct (tb_slot _ _ _ (fi_tables _ _ H) t T j g HT Hj) as [? ->]. split; [done|by case_match].
  - intros j Hb He Hu. rewrite bit_set, Hb. split; [by case_match|done].
Qed.

Lemma installed_inv s d t T i f : fs_inv s (f :: d) -> tables s !! t = Some T -> fd T !! i = None -> 0 <= i < NR_OPEN -> unreserved s t i ->
  fs_inv (put_table s t (installed i f T)) d.
Proof.
  intros H HT Hi Hr Hu. destruct (tb_words _ _ _ (fi_tables _ _ H) t T HT) as [Hw1 Hw2].
  apply (table_inv s (f :: d) _ t T); cbn; auto using words_set, words_clr.
  - intros j g Hj. rewrite bit_set. destruct (decide (j = i)) as [->|]; simplify_map_eq; [by rewrite Z.eqb_refl|].
    destruct (tb_slot _ _ _ (fi_tables _ _ H) t T j g HT Hj) as [? ->]. split; [done|by case_match].
  - intros j Hb He Hres. assert (j <> i) by congruence. rewrite bit_set, Hb, lookup_insert_ne by done. split; [by case_match|done].
  - intros g. rewrite slots_insert by done. lia.
Qed.

Lemma cloexec_inv s d t T w : fs_inv s d -> tables s !! t = Some T -> words_ok w -> fs_inv (put_table s t (set_cloexec w T)) d.
Proof.
  intros H HT Hw. apply (table_inv s d _ t T); cbn; auto; [by eapply tb_words; [apply H|]|].
  intros j g Hj. by eapply tb_slot; [apply H| |].
Qed.

Lemma unmarked_inv s d t T i : fs_inv s d -> tables s !! t = Some T -> fd T !! i = None -> unreserved s t i ->
  fs_inv (put_table s t (set_open (FD_CLR i (open_fds T)) T)) d.
Proof.
  intros H HT Hi Hu. destruct (tb_words _ _ _ (fi_tables _ _ H) t T HT) as [Hw1 Hw2].
  apply (table_inv s d _ t T); cbn; auto using words_clr.
  - intros j g Hj. assert (j <> i) by congruence. rewrite bit_clr by done. replace (j =? i) with false by lia. by eapply tb_slot; [apply H| |].
  - intros j Hb He Hres. assert (j <> i) by congruence. rewrite bit_clr by done. by replace (j =? i) with false by lia.
Qed.

(** ** References taken and given up *)

Lemma frame_inv s s' d d' : fs_inv s d -> fframe s s' -> filps_ok s' (refs s d') -> fs_inv s' d'.
Proof.
  intros H Hf Hok. split; [|by eapply fframe_tables; [|apply H]]. eapply filps_ok_ext; [|done]. intros f. by apply fframe_refs.
Qed.

Lemma refs_cons s d f g : refs s (f :: d) g = refs s d g + same g f.
Proof. unfold refs. cbn. lia. Qed.

Lemma fget_inv s d f : fs_inv s d -> 0 < refs s d f -> fs_inv (upd_file f (fun x => set_f_count (f_count x + 1) x) s) (f :: d).
Proof.
  intros H Hr. eapply frame_inv; [done|done|]. eapply filps_ok_ext; [|apply filps_incr; [apply H|done]].
  intros g. apply refs_cons.
Qed.

Lemma field_inv s d f g : fs_inv s d -> (forall x, f_count (g x) = f_count x) -> fs_inv (upd_file f g s) d.
Proof. intros H Hg. eapply frame_inv; [done|done|]. apply filps_field; [apply H|done]. Qed.

Lemma fput_inv s d f : fs_inv s (f :: d) ->
  exists s', fput s f = Some s' /\ fs_inv s' d /\ fframe s s' /\
    released s' = (if refs s d f =? 0 then released s ++ [f] else released s).
Proof.
  intros H. pose proof (refs_nonneg s d f) as Hn.
  destruct (fput_ok s (refs s (f :: d)) f (fi_filps _ _ H)) as (s' & E & Hok & Hfr & Hl). { rewrite refs_cons, same_refl. lia. }
  exists s'. split; [done|]. split.
  - eapply frame_inv; [done|done|]. eapply filps_ok_ext; [|done]. intros g. cbn. rewrite refs_cons. lia.
  - split; [done|]. rewrite Hl, refs_cons, same_refl. by replace (refs s d f + 1 =? 1) with (refs s d f =? 0) by lia.
Qed.

Lemma put_filp_inv s d f : fs_inv s (f :: d) ->
  exists s', put_filp s f = Some s' /\ fs_inv s' d /\ fframe s s' /\ released s' = released s.
Proof.
  intros H. pose proof (refs_nonneg s d f) as Hn.
  destruct (put_filp_ok s (refs s (f :: d)) f (fi_filps _ _ H)) as (s' & E & Hok & Hfr & Hl). { rewrite refs_cons, same_refl. lia. }
  exists s'. split; [done|]. split; [|done].
  eapply frame_inv; [done|done|]. eapply filps_ok_ext; [|done]. intros g. cbn. rewrite refs_cons. lia.
Qed.

Lemma close_fp_inv flush s d f : fs_inv s (f :: d) ->
  exists s', close_fp flush s f = Some (flush f, s') /\ fs_inv s' d /\ fframe s s' /\
    released s' = (if refs s d f =? 0 then released s ++ [f] else released s).
Proof.
  intros H. pose proof (refs_nonneg s d f) as Hn. unfold close_fp.
  destruct (filps_get s (refs s (f :: d)) f (fi_filps _ _ H)) as (x & Hx & Hc); rewrite ?refs_cons, ?same_refl in *; [lia|].
  rewrite Hx. cbn [mbind option_bind]. replace (f_count x =? 0) with false by lia.
  destruct (fput_inv s d f H) as (s' & -> & ? & ? & ?). by exists s'.
Qed.

(** ** The calls on descriptors *)

Section Calls.
Context (p rlim : Z) (flush : Z -> Z).
Hypothesis limit_ok : 0 <= rlim <= NR_OPEN.

Implicit Types (s : fstate) (T : files_struct) (d : list Z).

Lemma fcheck_eq s d t T i : fs_inv s d -> table_of s p = Some (t, T) -> fcheck p s i = Some (fd T !! u32 i).
Proof.
  intros H Ht. unfold fcheck. rewrite Ht. cbn. f_equal. destruct (u32 i <? NR_OPEN) eqn:E; [done|].
  destruct (fd T !! u32 i) eqn:Hi; [|done]. apply table_of_spec in Ht as [_ HT]. pose proof (tb_slot _ _ _ (fi_tables _ _ H) _ _ _ _ HT Hi). lia.
Qed.

Lemma sys_close_spec s d t T i : fs_inv s d -> table_of s p = Some (t, T) ->
  match fd T !! u32 i with
  | None => sys_close p flush s i = Some (- EBADF, s)
  | Some f => exists s', sys_close p flush s i = Some (flush f, s') /\ fs_inv s' d /\ fframe (put_table s t (closed (u32 i) T)) s' /\
      released s' = (if refs s' d f =? 0 then released s ++ [f] else released s)
  end.
Proof.
  intros H Ht. unfold sys_close. rewrite (fcheck_eq s d t T) by done. cbn [mbind option_bind].
  destruct (fd T !! u32 i) as [f|] eqn:Hi; [|done]. pose proof Ht as [Hp HT]%table_of_spec. rewrite Ht. cbn [mbind option_bind].
  rewrite (upd_table_eq _ _ _ T) by done. unfold put_unused_fd. rewrite (table_of_put s p t T) by done. cbn [mbind option_bind].
  rewrite !upd_put_table. destruct (close_fp_inv flush _ d f (closed_inv s d t T _ f H HT Hi)) as (s' & E & Hi' & Hfr & Hrel).
  exists s'. split; [exact E|]. split; [done|]. split; [done|]. by rewrite Hrel, <- (fframe_refs _ s').
Qed.

(** The smallest descriptor from [a] on that is not marked. *)
Definition lowest (T : files_struct) (a j : Z) : Prop :=
  a <= j < NR_OPEN /\ bit (open_fds T) j = false /\ forall k, a <= k < j -> bit (open_fds T) k = true.

Lemma lowest_found T a : words_ok (open_fds T) -> 0 <= a -> find_next_zero_bit (open_fds T) NR_OPEN a < NR_OPEN ->
  lowest T a (find_next_zero_bit (open_fds T) NR_OPEN a).
Proof. intros Hw Ha Hlt. destruct (find_next_zero_bit_correct (open_fds T) NR_OPEN a Hw Ha) as [H _]. destruct (H Hlt) as (? & ? & ?). by split. Qed.

Lemma get_unused_fd_spec s d t T : fs_inv s d -> table_of s p = Some (t, T) ->
  get_unused_fd p rlim s = Some (- EMFILE, s) /\ (forall i, 0 <= i < rlim -> bit (open_fds T) i = true) \/
  exists i, get_unused_fd p rlim s = Some (i, put_table s t (reserved i T)) /\ i < rlim /\ lowest T 0 i /\ fd T !! i = None.
Proof.
  intros H Ht. unfold get_unused_fd. rewrite Ht. cbn [mbind option_bind]. pose proof Ht as [_ HT]%table_of_spec.
  pose proof (proj1 (tb_words _ _ _ (fi_tables _ _ H) _ _ HT)) as Hw. unfold find_first_zero_bit.
  pose proof (find_next_zero_bit_correct (open_fds T) NR_OPEN 0 Hw ltac:(lia)) as Hz.
  pose proof (lowest_found T 0 Hw ltac:(lia)) as Hlow. cbv zeta in Hz. set (i := find_next_zero_bit (open_fds T) NR_OPEN 0) in *. clearbody i. destruct (rlim <=? i) eqn:E.
  - left. split; [done|]. intros k Hk. destruct Hz as [Hz1 Hz2]. destruct (decide (NR_OPEN <= i)) as [Hge|]; [apply Hz2; lia|].
    destruct Hz1 as (_ & _ & Hz1); [lia|]. apply Hz1. lia.
  - right. specialize (Hlow ltac:(lia)). exists i. cbn. destruct (fd T !! i) eqn:Hi.
    + destruct (tb_slot _ _ _ (fi_tables _ _ H) _ _ _ _ HT Hi) as [_ Hb]. destruct Hlow as (_ & Hb' & _). congruence.
    + split; [|split; [lia|done]]. by rewrite (upd_table_eq _ _ _ T).
Qed.

(** A reference that is taken and given up leaves the state as it was. *)
Lemma fget_fput s d f : fs_inv s d -> 0 < refs s d f -> fput (upd_file f (fun x => set_f_count (f_count x + 1) x) s) f = Some s.
Proof.
  intros H Hr. destruct (filps_get _ _ _ (fi_filps _ _ H) Hr) as (x & Hx & Hc). rewrite (upd_file_eq _ _ _ x Hx).
  unfold fput. cbn. rewrite lookup_insert_eq. cbn. replace (f_count x + 1 - 1 =? 0) with false by lia. f_equal.
  rewrite (upd_file_eq f _ _ (set_f_count (f_count x + 1) x)) by apply lookup_insert_eq. destruct s as [fp]. unfold set_filps. cbn in *. f_equal.
  rewrite insert_insert_eq. replace (f_count x + 1 - 1) with (f_count x) by lia. apply insert_id. rewrite Hx. by destruct x.
Qed.

Lemma dupfd_spec s d t T i arg : fs_inv s d -> table_of s p = Some (t, T) ->
  if NR_OPEN <=? u32 arg then dupfd p rlim s i arg = Some (- EINVAL, s)
  else match fd T !! u32 i with
  | None => dupfd p rlim s i arg = Some (- EBADF, s)
  | Some f =>
    dupfd p rlim s i arg = Some (- EMFILE, s) /\ (forall k, u32 arg <= k < rlim -> bit (open_fds T) k = true) \/
    exists j s', dupfd p rlim s i arg = Some (j, s') /\ j < rlim /\ lowest T (u32 arg) j /\
      fs_inv s' d /\ fframe (put_table s t (installed j f T)) s' /\ released s' = released s
  end.
Proof.
  intros H Ht. unfold dupfd. destruct (NR_OPEN <=? u32 arg) eqn:Ea; [done|]. unfold fget. rewrite (fcheck_eq s d t T) by done. cbn [mbind option_bind].
  destruct (fd T !! u32 i) as [f|] eqn:Hi; [|done]. pose proof Ht as [Hp HT]%table_of_spec.
  assert (0 < refs s d f) as Hr by by eapply slot_refs. cbn [mbind option_bind].
  set (s1 := upd_file f _ s). assert (table_of s1 p = Some (t, T)) as Ht1 by done. rewrite Ht1. cbn [mbind option_bind].
  pose proof (proj1 (tb_words _ _ _ (fi_tables _ _ H) _ _ HT)) as Hw. pose proof (u32_range arg) as Hra.
  pose proof (find_next_zero_bit_correct (open_fds T) NR_OPEN (u32 arg) Hw ltac:(lia)) as Hz.
  pose proof (lowest_found T (u32 arg) Hw ltac:(lia)) as Hlow. cbv zeta in Hz. rewrite (u32_id rlim) by (unfold NR_OPEN in *; lia).
  set (j := find_next_zero_bit (open_fds T) NR_OPEN (u32 arg)) in *. clearbody j. destruct (rlim <=? j) eqn:E.
  - left. subst s1. rewrite (fget_fput s d) by done. split; [done|]. intros k Hk. destruct Hz as [Hz1 Hz2].
    destruct (decide (NR_OPEN <= j)) as [Hge|]; [apply Hz2; lia|]. destruct Hz1 as (_ & _ & Hz1); [lia|]. apply Hz1. lia.
  - right. specialize (Hlow ltac:(lia)). rewrite (upd_table_eq _ _ s1 T) by done. rewrite upd_put_table.
    unfold fd_install. rewrite (table_of_put s1 p t T) by done. cbn [mbind option_bind]. replace (j <? NR_OPEN) with true by lia. rewrite upd_put_table. cbn.
    eexists _, _. split; [done|]. split; [lia|]. split; [done|]. destruct Hlow as (? & Hb & _).
    split; [|done]. eapply (installed_inv s1 d t T j f); [by apply fget_inv|done| |lia|].
    + destruct (fd T !! j) eqn:Hj; [|done]. destruct (tb_slot _ _ _ (fi_tables _ _ H) _ _ _ _ HT Hj). congruence.
    + change (unreserved s t j). by eapply free_unreserved.
Qed.
End Calls.
End Dying.
