(* ===== verification/FilesCalls.v ===== *)
(** * Open files: opening, forking, leaving and executing *)

From stdpp Require Import functions.
From S2P Require Import Prelude Bitops Files FilesProof.

(** ** Release of the files that are not referred to any more *)

(** References were only given up, and exactly the files with none left were released, each
    once. *)
Definition gave (s : fstate) (d : list Z) (s' : fstate) (d' : list Z) : Prop :=
  (forall f, refs s' d' f <= refs s d f) /\
  exists l, released s' = released s ++ l /\ NoDup l /\ forall f, f ∈ l <-> 0 < refs s d f /\ refs s' d' f = 0.

Lemma gave_same s d s' d' : (forall f, refs s' d' f = refs s d f) -> released s' = released s -> gave s d s' d'.
Proof.
  intros Hr Hl. split; [intros f; rewrite Hr; lia|]. exists []. split; [by rewrite app_nil_r|]. split; [constructor|].
  intros f. rewrite Hr. split; [by intros ?%not_elem_of_nil|lia].
Qed.

Lemma gave_trans s d s1 d1 s2 d2 : gave s d s1 d1 -> gave s1 d1 s2 d2 -> gave s d s2 d2.
Proof.
  intros [Hm1 (l1 & E1 & N1 & H1)] [Hm2 (l2 & E2 & N2 & H2)]. split; [intros f; specialize (Hm1 f); specialize (Hm2 f); lia|].
  exists (l1 ++ l2). rewrite E2, E1, app_assoc. split; [done|]. split.
  - apply NoDup_app. split; [done|]. split; [|done]. intros f [_ Hz]%H1 [Hp _]%H2. lia.
  - intros f. rewrite elem_of_app, H1, H2. specialize (Hm1 f). specialize (Hm2 f). pose proof (refs_nonneg s2 d2 f). lia.
Qed.

Lemma gave_one s d s' f : fframe s s' -> released s' = (if refs s d f =? 0 then released s ++ [f] else released s) ->
  gave s (f :: d) s' d.
Proof.
  intros Hfr Hl. split; [intros g; rewrite (fframe_refs s s'), refs_cons by done; pose proof (same_nonneg g f); lia|].
  exists (if refs s d f =? 0 then [f] else []). pose proof (refs_nonneg s d). split; [rewrite Hl; case_match; [done|by rewrite app_nil_r]|].
  split; [case_match; [apply NoDup_singleton|constructor]|]. intros g. rewrite (fframe_refs s s'), refs_cons by done. specialize (H g).
  destruct (decide (g = f)) as [->|Hne]; rewrite ?same_refl, ?(same_ne g f) by done; case_match; rewrite ?list_elem_of_singleton, ?elem_of_nil; lia.
Qed.

(** A table loses one file; the reference is then owed. *)
Lemma refs_put s d d' t T T' : tables s !! t = Some T ->
  (forall f, slots f (fd T') + occ f d' = slots f (fd T) + occ f d) -> forall f, refs (put_table s t T') d' f = refs s d f.
Proof. intros HT H f. unfold refs, put_table. cbn. rewrite (msum_update _ _ t T) by done. specialize (H f). cbn in H. lia. Qed.

(** ** [open] *)

Section Inv.
Context (dying : option Z).

Lemma opening_inv s d p t T i f : fs_inv dying s (f :: d) -> table_of s p = Some (t, T) -> opening s !! p = None ->
  0 <= i < NR_OPEN -> bit (open_fds T) i = true -> fd T !! i = None -> unreserved s t i ->
  fs_inv dying (set_opening s (<[p := (i, f)]> (opening s))) d.
Proof.
  intros [Hf Ht] [Hp HT]%table_of_spec Ho Hr Hb Hi Hu. split.
  - eapply filps_ok_ext; [|destruct Hf; by constructor]. intros g. unfold refs. cbn. rewrite msum_insert by done. cbn. lia.
  - cbn. destruct Ht. constructor; auto.
    + intros q j g Hq. destruct (decide (q = p)) as [->|]; simplify_map_eq; eauto 10.
    + intros q1 q2 j g1 g2 H1 H2 Hs. destruct (decide (q1 = p)) as [->|]; destruct (decide (q2 = p)) as [->|]; simplify_map_eq; auto.
      * exfalso. eapply Hu; [|done]. by rewrite <- Hs.
      * exfalso. eapply Hu; [|done]. by rewrite Hs.
      * eauto.
Qed.

Lemma opened_inv s d p i f : fs_inv dying s d -> opening s !! p = Some (i, f) -> fs_inv dying (set_opening s (delete p (opening s))) (f :: d).
Proof.
  intros [Hf Ht] Ho. split.
  - eapply filps_ok_ext; [|destruct Hf; by constructor]. intros g. unfold refs. cbn. rewrite (msum_delete _ _ _ (i, f)) by done. cbn. lia.
  - cbn. destruct Ht. constructor; auto.
    + intros q j g Hq. destruct (decide (q = p)) as [->|]; simplify_map_eq; eauto.
    + intros q1 q2 j g1 g2 H1 H2 Hs. destruct (decide (q1 = p)) as [->|]; destruct (decide (q2 = p)) as [->|]; simplify_map_eq; eauto.
Qed.

(** A reserved descriptor gets its file. *)
Lemma filled_inv s d t T i f : fs_inv dying s (f :: d) -> tables s !! t = Some T -> fd T !! i = None -> bit (open_fds T) i = true ->
  0 <= i < NR_OPEN -> unreserved s t i -> fs_inv dying (put_table s t (set_fd (<[i := f]> (fd T)) T)) d.
Proof.
  intros H HT Hi Hb Hr Hu. destruct (tb_words _ _ _ _ (fi_tables _ _ _ H) t T HT) as [Hw1 Hw2].
  apply (table_inv dying s (f :: d) _ t T); cbn; auto.
  - intros j g Hj. destruct (decide (j = i)) as [->|]; simplify_map_eq; [done|]. by eapply tb_slot; [apply H| |].
  - intros j Hbj He Hres. assert (j <> i) by congruence. by rewrite lookup_insert_ne.
  - intros g. rewrite slots_insert by done. lia.
Qed.

Context (p rlim : Z).
Hypothesis limit_ok : 0 <= rlim <= NR_OPEN.

Lemma open_start_spec s d t T root new flags : fs_inv dying s d -> table_of s p = Some (t, T) -> opening s !! p = None ->
  (forall f, new = Some f -> filps s !! f = None) ->
  exists r s', open_start p rlim s root new flags = Some (r, s') /\ fs_inv dying s' d /\ released s' = released s /\
    match r with
    | None => exists i f, i < rlim /\ lowest T 0 i /\ opening s' = <[p := (i, f)]> (opening s) /\ refs s d f = 0 /\
        tables s' = <[t := reserved i T]> (tables s) /\ filps s' !! f = Some (File 1 flags 0 0)
    | Some e => (e = - EMFILE /\ s' = s /\ forall i, 0 <= i < rlim -> bit (open_fds T) i = true) \/
        (e = - ENFILE /\ opening s' = opening s /\ nr_free_files s <= NR_RESERVED_FILES /\ (max_files s <= nr_files s \/ new = None))
    end.
Proof.
  intros H Ht Ho Hnew. unfold open_start. pose proof Ht as [Hp HT]%table_of_spec.
  destruct (get_unused_fd_spec dying p rlim limit_ok s d t T H Ht) as [[-> Hfull]|(i & -> & Hlt & Hlow & Hi)]; cbn [mbind option_bind].
  { exists (Some (- EMFILE)), s. split; [done|]. auto 10. }
  pose proof Hlow as (? & Hb & _). replace (i <? 0) with false by lia. set (s1 := put_table s t (reserved i T)).
  assert (fs_inv dying s1 d) as H1 by by apply reserved_inv. assert (tables s1 !! t = Some (reserved i T)) as HT1 by apply lookup_insert_eq.
  assert (unreserved s1 t i) as Hu by (change (unreserved s t i); by eapply free_unreserved).
  destruct (get_empty_filp_ok s1 (refs s1 d) root new (fi_filps _ _ _ H1) (refs_nonneg s1 d) Hnew) as (r & s2 & -> & Hfr & Hrel & Hr).
  cbn [mbind option_bind]. destruct r as [f|].
  - destruct Hr as (Hz & Hok & Hfile). exists None. eexists. split; [done|].
    assert (fs_inv dying s2 (f :: d)) as H2. { eapply frame_inv; [exact H1|done|]. eapply filps_ok_ext; [|done]. intros g. apply refs_cons. }
    assert (tables s2 = tables s1 /\ task_files s2 = task_files s1 /\ opening s2 = opening s1) as (Et & Ek & Eo) by (destruct Hfr; auto).
    split; [|split; [done|]].
    + eapply (opening_inv _ _ p t (reserved i T)); [by apply field_inv| | | | | |].
      * apply table_of_spec. cbn. by rewrite Ek, Et.
      * cbn. by rewrite Eo.
      * lia.
      * cbn. by rewrite bit_set, Z.eqb_refl.
      * done.
      * intros q g. cbn. rewrite Ek, Eo. apply Hu.
    + exists i, f. split; [done|]. split; [done|]. cbn. rewrite Eo, Et. split; [done|]. split; [|split; [done|]].
      * rewrite <- Hz. symmetry. by apply (refs_put s d d t T (reserved i T)).
      * unfold upd_file. cbn. rewrite lookup_alter_eq, Hfile. done.
  - destruct Hr as (-> & Hn & Hm). unfold put_unused_fd. assert (table_of s1 p = Some (t, reserved i T)) as -> by by apply (table_of_put s p t T).
    cbn [mbind option_bind]. rewrite (upd_table_eq _ _ _ (reserved i T)) by done. eexists (Some (- ENFILE)), _. split; [done|].
    split; [by apply unmarked_inv|]. split; [done|]. right. auto.
Qed.

Lemma open_finish_spec s d i f error : fs_inv dying s d -> opening s !! p = Some (i, f) ->
  exists t T s', table_of s p = Some (t, T) /\ open_finish p s error = Some (if error =? 0 then i else error, s') /\ fs_inv dying s' d /\ released s' = released s /\
    opening s' = delete p (opening s) /\
    tables s' = <[t := if error =? 0 then set_fd (<[i := f]> (fd T)) T else set_open (FD_CLR i (open_fds T)) T]> (tables s).
Proof.
  intros H Ho. destruct (tb_opening _ _ _ _ (fi_tables _ _ _ H) _ _ _ Ho) as (t & T & Hp & HT & Hr & Hb & Hi).
  assert (table_of s p = Some (t, T)) as Ht by by apply table_of_spec. exists t, T.
  pose proof (opened_inv s d p i f H Ho) as H1. unfold open_finish. rewrite Ho. cbn [mbind option_bind].
  set (s1 := set_opening s (delete p (opening s))) in *.
  assert (unreserved s1 t i) as Hu. { intros q g Hq Hg. cbn in Hq, Hg. apply lookup_delete_Some in Hg as [Hne Hg]. eapply Hne, (tb_apart _ _ _ _ (fi_tables _ _ _ H)); eauto. by rewrite Hp, Hq. }
  destruct (error =? 0) eqn:E.
  - set (s2 := upd_file f _ s1). assert (fs_inv dying s2 (f :: d)) as H2 by by apply field_inv. assert (table_of s2 p = Some (t, T)) as Ht2 by done.
    unfold fd_install. rewrite Ht2. cbn [mbind option_bind]. replace (i <? NR_OPEN) with true by lia. cbn [mbind option_bind]. rewrite (upd_table_eq _ _ _ T) by done.
    eexists. do 2 (split; [done|]). split; [by apply filled_inv|]. done.
  - destruct (put_filp_inv dying s1 d f H1) as (s2 & -> & H2 & Hfr & Hrel). cbn [mbind option_bind].
    assert (tables s2 = tables s1 /\ task_files s2 = task_files s1 /\ opening s2 = opening s1) as (Et & Ek & Eo) by (destruct Hfr; auto).
    assert (table_of s2 p = Some (t, T)) as Ht2 by (apply table_of_spec; rewrite Ek, Et; done). unfold put_unused_fd. rewrite Ht2. cbn [mbind option_bind].
    rewrite (upd_table_eq _ _ _ T) by (by rewrite Et). eexists. do 2 (split; [done|]). split.
    + apply unmarked_inv; [done|by rewrite Et|done|]. intros q g. rewrite Ek, Eo. apply Hu.
    + cbn. by rewrite Eo, Et.
Qed.


(** ** [fcntl], and calls that keep a reference *)

Lemma fget_spec s d t T i : fs_inv dying s d -> table_of s p = Some (t, T) ->
  match fd T !! u32 i with
  | None => fget p s i = Some (None, s)
  | Some f => exists s', fget p s i = Some (Some f, s') /\ fs_inv dying s' (f :: d) /\ fframe s s' /\ released s' = released s
  end.
Proof.
  intros H Ht. unfold fget. rewrite (fcheck_eq dying p s d t T) by done. cbn [mbind option_bind].
  destruct (fd T !! u32 i) as [f|] eqn:Hi; [|done]. eexists. split; [done|]. split; [|done].
  apply fget_inv; [done|]. apply table_of_spec in Ht as [_ HT]. by eapply slot_refs.
Qed.

(** The commands keep the invariant, with the reference of the call still to be given up. *)
Lemma fcntl_step s d t T f x i cmd arg ap lock sock (step : option (Z * fstate)) :
  fs_inv dying s (f :: d) -> table_of s p = Some (t, T) -> filps s !! f = Some x ->
  step = (if cmd =? F_DUPFD then dupfd p rlim s i arg
       else if cmd =? F_GETFD then Some (Z.b2z (FD_ISSET (u32 i) (close_on_exec T)), s)
       else if cmd =? F_SETFD then
         Some (0, upd_table t (set_cloexec ((if Z.odd arg then FD_SET else FD_CLR) (u32 i) (close_on_exec T))) s)
       else if cmd =? F_GETFL then Some (f_flags x, s)
       else if cmd =? F_SETFL then Some (setfl s f x arg ap)
       else if (F_GETLK <=? cmd) && (cmd <=? F_SETLKW) then Some (lock, s)
       else if cmd =? F_GETOWN then Some (f_owner x, s)
       else if cmd =? F_SETOWN then Some (default 0 sock, upd_file f (fun x => File (f_count x) (f_flags x) (s32 arg) (f_signum x)) s)
       else if cmd =? F_GETSIG then Some (f_signum x, s)
       else if cmd =? F_SETSIG then
         if (u32 arg <=? 0) || (_NSIG <? u32 arg) then Some (- EINVAL, s)
         else Some (0, upd_file f (fun x => File (f_count x) (f_flags x) (f_owner x) (s32 arg)) s)
       else Some (default (- EINVAL) sock, s)) ->
  exists err s', step = Some (err, s') /\ fs_inv dying s' (f :: d).
Proof.
  intros H Ht Hx ->. pose proof Ht as [Hp HT]%table_of_spec. destruct (tb_words _ _ _ _ (fi_tables _ _ _ H) t T HT) as [Hw1 Hw2].
  destruct (cmd =? F_DUPFD).
  { pose proof (dupfd_spec dying p rlim limit_ok s (f :: d) t T i arg H Ht) as Hd. destruct (NR_OPEN <=? u32 arg); [by eexists _, _|].
    destruct (fd T !! u32 i); [|by eexists _, _]. destruct Hd as [[-> _]|(j & s' & -> & _ & _ & Hi & _)]; by eexists _, _. }
  destruct (cmd =? F_GETFD); [by eexists _, _|]. destruct (cmd =? F_SETFD).
  { rewrite (upd_table_eq _ _ _ T) by done. eexists _, _. split; [done|]. apply cloexec_inv; [done|done|]. destruct (Z.odd arg); auto using words_set, words_clr. }
  destruct (cmd =? F_GETFL); [by eexists _, _|]. destruct (cmd =? F_SETFL).
  { unfold setfl. destruct (_ && ap); eexists _, _; (split; [done|]); [done|]. by apply field_inv. }
  destruct ((F_GETLK <=? cmd) && (cmd <=? F_SETLKW)); [by eexists _, _|]. destruct (cmd =? F_GETOWN); [by eexists _, _|]. destruct (cmd =? F_SETOWN); [eexists _, _; split; [done|]; by apply field_inv|].
  destruct (cmd =? F_GETSIG); [by eexists _, _|]. destruct (cmd =? F_SETSIG); [|by eexists _, _].
  destruct (_ || _); eexists _, _; (split; [done|]); [done|]. by apply field_inv.
Qed.

Lemma sys_fcntl_inv s d t T i cmd arg ap lock sock : fs_inv dying s d -> table_of s p = Some (t, T) ->
  exists err s', sys_fcntl p rlim s i cmd arg ap lock sock = Some (err, s') /\ fs_inv dying s' d.
Proof.
  intros H Ht. unfold sys_fcntl. pose proof (fget_spec s d t T i H Ht) as Hg. destruct (fd T !! u32 i) as [f|]; [|rewrite Hg; by eexists _, _].
  destruct Hg as (s1 & -> & H1 & Hfr & _). cbn [mbind option_bind]. pose proof Ht as [Hp HT]%table_of_spec.
  assert (table_of s1 p = Some (t, T)) as Ht1 by (apply table_of_spec; destruct Hfr; split; congruence). rewrite Ht1. cbn [mbind option_bind].
  destruct (filps_get s1 _ f (fi_filps _ _ _ H1)) as (x & Hx & _). { rewrite refs_cons, same_refl. pose proof (refs_nonneg s1 d f). lia. }
  rewrite Hx. cbn [mbind option_bind].
  destruct (fcntl_step s1 d t T f x i cmd arg ap lock sock _ H1 Ht1 Hx eq_refl) as (err & s2 & -> & H2). cbn [mbind option_bind].
  destruct (fput_inv dying s2 d f H2) as (s3 & -> & H3 & _). by eexists _, _.
Qed.

Lemma held_inv s d f : fs_inv dying s (f :: d) -> fs_inv dying (set_held s (f :: held s)) d.
Proof. intros [Hf Ht]. split; [|done]. eapply filps_ok_ext; [|destruct Hf; by constructor]. intros g. unfold refs. cbn. lia. Qed.

Lemma hold_inv s d t T i : fs_inv dying s d -> table_of s p = Some (t, T) ->
  exists r s', hold p s i = Some (r, s') /\ fs_inv dying s' d.
Proof.
  intros H Ht. unfold hold. pose proof (fget_spec s d t T i H Ht) as Hg. destruct (fd T !! u32 i) as [f|]; [|rewrite Hg; by eexists _, _].
  destruct Hg as (s1 & -> & H1 & _). eexists _, _. split; [done|]. by apply held_inv.
Qed.

Lemma occ_delete l i f g : l !! i = Some f -> occ g (delete i l) = occ g l - same g f.
Proof.
  revert i. induction l as [|h l IH]; intros [|i] Hi; cbn in Hi; try done; [injection Hi as ->; cbn; lia|].
  change (delete (S i) (h :: l)) with (h :: delete i l). cbn [occ]. rewrite (IH i Hi). lia.
Qed.

Lemma unhold_inv s d f : fs_inv dying s d -> f ∈ held s -> exists s', unhold s f = Some s' /\ fs_inv dying s' d /\ gave s d s' d.
Proof.
  intros H Hin. unfold unhold. destruct (list_find (eq f) (held s)) as [[i g]|] eqn:E.
  - apply list_find_Some in E as (Hi & <- & _). set (s1 := set_held s (delete i (held s))).
    assert (forall g, refs s1 (f :: d) g = refs s d g) as Hr by (intros g; unfold refs; cbn; rewrite (occ_delete _ _ f) by done; lia).
    destruct (fput_inv dying s1 d f) as (s' & -> & Hi' & Hfr & Hrel).
    { split; [|apply H]. eapply filps_ok_ext; [exact Hr|]. destruct (fi_filps _ _ _ H). by constructor. }
    exists s'. split; [done|]. split; [done|]. eapply gave_trans; [by apply gave_same|]. by eapply gave_one.
  - apply list_find_None in E. rewrite Forall_forall in E. by destruct (E f Hin).
Qed.

End Inv.

(** ** [fork] *)

Lemma fdset_words_spec n i w m : m <= i ->
  m <= fdset_words n i w m <= i + Z.of_nat n /\ forall j, i <= j < i + Z.of_nat n -> w j <> 0 -> j < fdset_words n i w m.
Proof.
  revert i m. induction n as [|n IH]; intros i m Hm; [split; cbn; lia|]. cbn [fdset_words].
  destruct (w i =? 0) eqn:E.
  - destruct (IH (i + 1) m) as [Hr Hj]; [lia|]. split; [lia|]. intros j Hij Hw. apply Hj; [|done]. destruct (decide (j = i)) as [->|]; lia.
  - destruct (IH (i + 1) (i + 1)) as [Hr Hj]; [lia|]. split; [lia|]. intros j Hij Hw. destruct (decide (j = i)) as [->|]; [lia|]. apply Hj; [lia|done].
Qed.

(** Every marked descriptor is among those that are copied. *)
Lemma copy_fdset_covers w i : 0 <= i < NR_OPEN -> bit w i = true -> i < copy_fdset w.
Proof.
  intros Hi Hb. unfold copy_fdset, FDSET_LONGS. destruct (fdset_words_spec 32 0 w 0 ltac:(lia)) as [_ Hj].
  specialize (Hj (Z.shiftr i 5)). unfold NR_OPEN in Hi.
  rewrite Z.shiftr_div_pow2 in Hj by lia. change (2 ^ 5) with 32 in Hj.
  assert (w (i / 32) <> 0) as Hw. { intros Hw. unfold bit in Hb. rewrite Z.shiftr_div_pow2 in Hb by lia. change (2 ^ 5) with 32 in Hb. by rewrite Hw, Z.testbit_0_l in Hb. }
  assert (0 <= i / 32 < 0 + Z.of_nat 32) as Hd by (change (Z.of_nat 32) with 32; split; [apply Z.div_pos; lia|apply Z.div_lt_upper_bound; lia]).
  specialize (Hj Hd Hw). pose proof (Z.div_mod i 32 ltac:(lia)). pose proof (Z.mod_pos_bound i 32 ltac:(lia)). lia.
Qed.

(** The loop copies a range of the entries, and counts one more reference for each. *)
Lemma copy_fds_spec R n i old new s : filps_ok s (fun g => R g + slots g new) ->
  (forall k f, old !! k = Some f -> 0 < R f) -> (forall k, i <= k -> new !! k = None) ->
  let '(new', s') := copy_fds n i old new s in
  filps_ok s' (fun g => R g + slots g new') /\ fframe s s' /\ released s' = released s /\
  forall k, new' !! k = if decide (i <= k < i + Z.of_nat n) then old !! k else new !! k.
Proof.
  revert i new s. induction n as [|n IH]; intros i new s Hok HR Hn; cbn [copy_fds].
  { split; [done|]. split; [done|]. split; [done|]. intros k. by rewrite decide_False by lia. }
  destruct (old !! i) as [f|] eqn:Hi.
  - set (s1 := upd_file f _ s). specialize (IH (i + 1) (<[i := f]> new) s1). destruct (copy_fds n (i + 1) old _ s1) as [new' s'].
    destruct IH as (Hok' & Hfr & Hrel & Hk).
    + eapply filps_ok_ext; [|apply filps_incr; [exact Hok|]].
      * intros g. cbn. rewrite slots_insert by (apply Hn; lia). lia.
      * pose proof (HR _ _ Hi). pose proof (slots_nonneg f new). lia.
    + done.
    + intros k Hk. rewrite lookup_insert_ne by lia. apply Hn. lia.
    + split; [done|]. split; [by transitivity s1|]. split; [done|]. intros k. rewrite Hk. destruct (decide (k = i)) as [->|].
      * rewrite decide_False, decide_True by lia. by rewrite lookup_insert_eq.
      * rewrite lookup_insert_ne by done. repeat case_decide; lia || done.
  - specialize (IH (i + 1) new s Hok HR ltac:(intros; apply Hn; lia)). destruct (copy_fds n (i + 1) old new s) as [new' s'].
    destruct IH as (Hok' & Hfr & Hrel & Hk). do 3 (split; [done|]). intros k. rewrite Hk. destruct (decide (k = i)) as [->|].
    + rewrite decide_False, decide_True by lia. rewrite Hi. apply Hn. lia.
    + repeat case_decide; lia || done.
Qed.

Lemma copied_eq T : (forall i f, fd T !! i = Some f -> 0 <= i < NR_OPEN /\ bit (open_fds T) i = true) ->
  forall m : gmap Z Z, (forall k, m !! k = if decide (0 <= k < 0 + Z.of_nat (Z.to_nat (copy_fdset (open_fds T)))) then fd T !! k else None) -> m = fd T.
Proof.
  intros Hs m Hm. apply map_eq. intros k. rewrite Hm. case_decide as Hd; [done|]. destruct (fd T !! k) as [f|] eqn:E; [|done].
  destruct (Hs k f E) as [Hk Hb]. pose proof (copy_fdset_covers _ _ Hk Hb). lia.
Qed.

Section Fork.
Context (p : Z).

(** The child gets the table of its parent, or a copy of it: the same descriptors, with
    the same files and the same marks. *)
Lemma copy_files_spec s d t T child share alloc new : fs_inv None s d -> table_of s p = Some (t, T) ->
  task_files s !! child = None -> opening s !! child = None -> tables s !! new = None ->
  exists r s', copy_files p s child share alloc new = Some (r, s') /\ fs_inv None s' d /\ released s' = released s /\
    opening s' = opening s /\ held s' = held s /\
    (if share then r = 0 /\ task_files s' = <[child := t]> (task_files s) /\ tables s' = <[t := set_count (count T + 1) T]> (tables s)
     else if alloc then r = 0 /\ task_files s' = <[child := new]> (task_files s) /\
       tables s' = <[new := Files 1 (fd T) (close_on_exec T) (open_fds T)]> (tables s)
     else r = - ENOMEM /\ s' = s).
Proof.
  intros H Ht Hc Hco Hnew. pose proof Ht as [Hp HT]%table_of_spec. unfold copy_files. rewrite Hp, HT. cbn [mbind option_bind].
  pose proof (fi_tables _ _ _ H) as Htb. destruct share.
  - rewrite (upd_table_eq _ _ _ T) by done. eexists _, _. split; [done|]. split; [|done]. split.
    + eapply filps_ok_ext; [|destruct (fi_filps _ _ _ H); by constructor]. intros g. apply (refs_put s d d t T (set_count (count T + 1) T)); done.
    + cbn. destruct Htb. constructor.
      * intros u U HU. destruct (decide (u = t)) as [->|]; simplify_map_eq; eauto.
      * intros u U i f HU. destruct (decide (u = t)) as [->|]; simplify_map_eq; eauto.
      * intros q i f Hq. destruct (tb_opening q i f Hq) as (u & U & Hu & HU & Hr). exists u. assert (q <> child) by congruence.
        rewrite lookup_insert_ne by done. destruct (decide (u = t)) as [->|]; simplify_map_eq; eauto.
      * intros q1 q2 i f g H1 H2. assert (q1 <> child /\ q2 <> child) as [? ?] by (split; congruence). rewrite !lookup_insert_ne by done. eauto.
      * intros u U HU. rewrite msum_insert by done. destruct (decide (u = t)) as [->|]; simplify_map_eq; cbn.
        -- rewrite same_refl. destruct (tb_count t T HT). pose proof (msum_nonneg (same t) (task_files s) (same_nonneg t)). lia.
        -- rewrite same_ne by done. destruct (tb_count u U HU) as [? [?|?]]; [lia|done].
      * intros q u Hq. destruct (decide (q = child)) as [->|]; simplify_map_eq; [eauto|].
        destruct (tb_task q u Hq) as [U HU]. destruct (decide (u = t)) as [->|]; simplify_map_eq; eauto.
  - destruct alloc; [|by eexists _, _]. cbn [negb].
    assert (forall i f, fd T !! i = Some f -> 0 <= i < NR_OPEN /\ bit (open_fds T) i = true) as Hs by (intros; by eapply tb_slot).
    pose proof (copy_fds_spec (refs s d) (Z.to_nat (copy_fdset (open_fds T))) 0 (fd T) ∅ s) as Hcp.
    destruct (copy_fds _ 0 (fd T) ∅ s) as [m s1]. destruct Hcp as (Hok & Hfr & Hrel & Hm).
    { eapply filps_ok_ext; [|apply H]. intros f. cbn. unfold slots. rewrite (map_fold_empty _ 0 : msum _ ∅ = 0). lia. }
    { intros k f Hk. by eapply slot_refs. } { done. }
    assert (m = fd T) as -> by (apply (copied_eq T Hs); intros k; rewrite Hm; by case_decide).
    destruct Hfr as [Et Ek Eo Eh]. eexists _, _. split; [done|]. cbn. rewrite Et, Ek, Eo, Eh. split; [|done]. split.
    + eapply (filps_ok_ext _ (fun g => refs s d g + slots g (fd T))); [|destruct Hok; by constructor]. intros g. unfold refs. cbn. rewrite ?Et, ?Eo, ?Eh, msum_insert by done. cbn. lia.
    + cbn. rewrite ?Et, ?Ek, ?Eo. destruct Htb. constructor.
      * intros u U HU. destruct (decide (u = new)) as [->|]; simplify_map_eq; eauto.
      * intros u U i f HU. destruct (decide (u = new)) as [->|]; simplify_map_eq; eauto.
      * intros q i f Hq. destruct (tb_opening q i f Hq) as (u & U & Hu & HU & Hr). exists u, U. assert (q <> child) by congruence.
        assert (u <> new) by congruence. by rewrite !lookup_insert_ne by done.
      * intros q1 q2 i f g H1 H2. assert (q1 <> child /\ q2 <> child) as [? ?] by (split; congruence). rewrite !lookup_insert_ne by done. eauto.
      * intros u U HU. rewrite msum_insert by done. destruct (decide (u = new)) as [->|]; simplify_map_eq; cbn.
        -- rewrite same_refl. assert (msum (same new) (task_files s) = 0); [|lia]. apply msum_all_zero.
           intros q u Hq. rewrite same_ne; [done|]. intros ->. destruct (tb_task q new Hq). congruence.
        -- rewrite same_ne by done. destruct (tb_count u U HU) as [? [?|?]]; [lia|done].
      * intros q u Hq. destruct (decide (q = child)) as [->|]; simplify_map_eq; [eauto|].
        destruct (tb_task q u Hq) as [U HU]. assert (u <> new) by congruence. rewrite lookup_insert_ne by done. eauto.
Qed.

End Fork.
