(* ===== verification/FilesExit.v ===== *)
(** * Open files: the end of a process, and execution of a program *)

From stdpp Require Import functions.
From S2P Require Import Prelude Bitops Files FilesProof FilesCalls.

(** ** Words of descriptors *)

Lemma bit_div w k : bit w k = Z.testbit (w (k / 32)) (k mod 32).
Proof.
  unfold bit. rewrite Z.shiftr_div_pow2 by lia. change 31 with (Z.ones 5). rewrite Z.land_ones by lia. done.
Qed.

(** Bit [k - 32 j] of word [j]. *)
Lemma word_bit w j k : words_ok w ->
  Z.testbit (w j) (k - j * NFDBITS) = bool_decide (j * NFDBITS <= k < (j + 1) * NFDBITS) && bit w k.
Proof.
  intros Hw. unfold NFDBITS. case_bool_decide as Hk; cbn.
  - rewrite bit_div. assert (k / 32 = j) as -> by (symmetry; apply (Z.div_unique _ _ _ (k - j * 32)); lia).
    assert (k mod 32 = k - j * 32) as -> by (symmetry; apply (Z.mod_unique _ _ j); lia). done.
  - destruct (decide (k < j * 32)); [apply Z.testbit_neg_r; lia|]. specialize (Hw j).
    destruct (decide (w j = 0)) as [->|]; [apply Z.testbit_0_l|]. apply Z.bits_above_log2; [lia|].
    apply Z.log2_lt_pow2; [lia|]. eapply Z.lt_le_trans; [apply Hw|]. apply Z.pow_le_mono_r; lia.
Qed.

(** The next bit of a word that is shifted down. *)
Lemma shift_bit set i k : 0 <= set -> Z.testbit (Z.shiftr set 1) (k - (i + 1)) = Z.testbit set (k - i) && negb (k =? i).
Proof.
  intros Hs. destruct (decide (k = i)) as [->|]; [rewrite Z.eqb_refl, andb_false_r; apply Z.testbit_neg_r; lia|].
  replace (k =? i) with false by lia. rewrite andb_true_r. destruct (decide (k < i)); [rewrite !Z.testbit_neg_r by lia; done|].
  rewrite Z.shiftr_spec by lia. f_equal. lia.
Qed.

Lemma shift_small set n : 0 <= set < 2 ^ Z.of_nat (S n) -> 0 <= Z.shiftr set 1 < 2 ^ Z.of_nat n.
Proof.
  intros H. rewrite Z.shiftr_div_pow2 by lia. change (2 ^ 1) with 2. replace (Z.of_nat (S n)) with (Z.of_nat n + 1) in H by lia.
  rewrite Z.pow_add_r in H by lia. split; [apply Z.div_pos; lia|apply Z.div_lt_upper_bound; lia].
Qed.

(** ** Changes of one table *)

Lemma fframe_put s t T T' s1 s2 : fframe (put_table s t T) s1 -> fframe (put_table s1 t T') s2 -> fframe (put_table s t T') s2.
Proof. intros [E1 E2 E3 E4] [F1 F2 F3 F4]. cbn in *. constructor; cbn; [rewrite F1, E1; apply insert_insert_eq| | |]; congruence. Qed.

Lemma fframe_id s t T : tables s !! t = Some T -> fframe (put_table s t T) s.
Proof. intros HT. constructor; cbn; [by rewrite insert_id|done..]. Qed.

Lemma fframe_lookup s t T s' : fframe (put_table s t T) s' -> tables s' !! t = Some T.
Proof. intros [-> _ _ _]. apply lookup_insert_eq. Qed.

Lemma fframe_table_of s p t T T' s' : table_of s p = Some (t, T) -> fframe (put_table s t T') s' -> table_of s' p = Some (t, T').
Proof. rewrite !table_of_spec. intros [Hp _] Hf. split; [by destruct Hf as [_ -> _ _]|by eapply fframe_lookup]. Qed.

Lemma set_fd_id T : set_fd (fd T) T = T.
Proof. by destruct T. Qed.

Section Dying.
Context (dying : option Z) (flush : Z -> Z).

(** ** [close_files] *)

Lemma emptied_inv s d t T i f : fs_inv dying s d -> tables s !! t = Some T -> fd T !! i = Some f ->
  fs_inv dying (put_table s t (set_fd (delete i (fd T)) T)) (f :: d).
Proof.
  intros H HT Hi. destruct (tb_words _ _ _ _ (fi_tables _ _ _ H) t T HT) as [Hw1 Hw2].
  apply (table_inv dying s d _ t T); cbn; auto.
  - intros j g [_ Hj]%lookup_delete_Some. by eapply tb_slot; [apply H| |].
  - intros j Hb He Hu. split; [done|]. by rewrite lookup_delete_None; right.
  - intros g. rewrite (slots_delete _ _ _ f) by done. lia.
Qed.

Lemma close_slot s d t T i f : fs_inv dying s d -> tables s !! t = Some T -> fd T !! i = Some f ->
  exists s', close_fp flush (put_table s t (set_fd (delete i (fd T)) T)) f = Some (flush f, s') /\ fs_inv dying s' d /\
    fframe (put_table s t (set_fd (delete i (fd T)) T)) s' /\ gave s d s' d.
Proof.
  intros H HT Hi. destruct (close_fp_inv dying flush _ d f (emptied_inv s d t T i f H HT Hi)) as (s' & E & H' & Hfr & Hrel).
  exists s'. do 3 (split; [done|]). eapply gave_trans; [|by eapply gave_one]. apply gave_same; [|done].
  apply (refs_put s d _ t T); [done|]. intros g. cbn. rewrite (slots_delete _ _ _ f) by done. lia.
Qed.

Lemma close_word_spec n t i set s d T : 0 <= set < 2 ^ Z.of_nat n -> fs_inv dying s d -> tables s !! t = Some T ->
  exists s' m, close_word flush n t i set s = Some s' /\ fs_inv dying s' d /\ fframe (put_table s t (set_fd m T)) s' /\ gave s d s' d /\
    forall k, m !! k = if Z.testbit set (k - i) then None else fd T !! k.
Proof.
  revert i set s T. induction n as [|n IH]; intros i set s T Hs H HT.
  - assert (set = 0) as -> by (cbn in Hs; lia). exists s, (fd T). rewrite set_fd_id. split; [done|]. split; [done|]. split; [by apply fframe_id|].
    split; [by apply gave_same|]. intros k. by rewrite Z.testbit_0_l.
  - cbn [close_word]. destruct (set =? 0) eqn:E0.
    { assert (set = 0) as -> by lia. exists s, (fd T). rewrite set_fd_id. split; [done|]. split; [done|]. split; [by apply fframe_id|].
      split; [by apply gave_same|]. intros k. by rewrite Z.testbit_0_l. }
    rewrite <- Z.bit0_odd. destruct (Z.testbit set 0) eqn:E1; [rewrite HT; cbn [mbind option_bind]; destruct (fd T !! i) as [f|] eqn:Hi|].
    + rewrite (upd_table_eq _ _ _ T) by done. destruct (close_slot s d t T i f H HT Hi) as (s1 & -> & H1 & Hf1 & Hg1). cbn [mbind option_bind].
      destruct (IH (i + 1) (Z.shiftr set 1) s1 _ (shift_small _ _ Hs) H1 (fframe_lookup _ _ _ _ Hf1)) as (s' & m & -> & H' & Hf' & Hg' & Hm).
      exists s', m. split; [done|]. split; [done|]. split; [by eapply fframe_put|]. split; [by eapply gave_trans|].
      intros k. rewrite Hm, shift_bit by lia. cbn. destruct (decide (k = i)) as [->|].
      * rewrite Z.eqb_refl, andb_false_r, Z.sub_diag, E1. apply lookup_delete_eq.
      * replace (k =? i) with false by lia. rewrite andb_true_r, lookup_delete_ne by done. done.
    + cbn [mbind option_bind]. destruct (IH (i + 1) (Z.shiftr set 1) s T (shift_small _ _ Hs) H HT) as (s' & m & -> & H' & Hf' & Hg' & Hm).
      exists s', m. do 4 (split; [done|]). intros k. rewrite Hm, shift_bit by lia. destruct (decide (k = i)) as [->|].
      * rewrite Hi. by repeat case_match.
      * replace (k =? i) with false by lia. by rewrite andb_true_r.
    + cbn [mbind option_bind]. destruct (IH (i + 1) (Z.shiftr set 1) s T (shift_small _ _ Hs) H HT) as (s' & m & -> & H' & Hf' & Hg' & Hm).
      exists s', m. do 4 (split; [done|]). intros k. rewrite Hm, shift_bit by lia. destruct (decide (k = i)) as [->|].
      * rewrite Z.eqb_refl, andb_false_r, Z.sub_diag, E1. done.
      * replace (k =? i) with false by lia. by rewrite andb_true_r.
Qed.

Lemma close_words_spec n t j s d T : fs_inv dying s d -> tables s !! t = Some T ->
  exists s' m, close_words flush n t j s = Some s' /\ fs_inv dying s' d /\ fframe (put_table s t (set_fd m T)) s' /\ gave s d s' d /\
    forall k, m !! k = if bool_decide (j * NFDBITS <= k < (j + Z.of_nat n) * NFDBITS) && bit (open_fds T) k then None else fd T !! k.
Proof.
  revert j s T. induction n as [|n IH]; intros j s T H HT; cbn [close_words].
  - exists s, (fd T). rewrite set_fd_id. split; [done|]. split; [done|]. split; [by apply fframe_id|]. split; [by apply gave_same|].
    intros k. rewrite bool_decide_false by lia. done.
  - rewrite HT. cbn [mbind option_bind]. pose proof (proj1 (tb_words _ _ _ _ (fi_tables _ _ _ H) _ _ HT)) as Hw.
    destruct (close_word_spec 32 t (j * NFDBITS) (open_fds T j) s d T (Hw j) H HT) as (s1 & m1 & -> & H1 & Hf1 & Hg1 & Hm1). cbn [mbind option_bind].
    destruct (IH (j + 1) s1 _ H1 (fframe_lookup _ _ _ _ Hf1)) as (s' & m & -> & H' & Hf' & Hg' & Hm).
    exists s', m. split; [done|]. split; [done|]. split; [by eapply fframe_put|]. split; [by eapply gave_trans|].
    intros k. rewrite Hm. cbn. rewrite Hm1, word_bit by done. unfold NFDBITS.
    destruct (bit (open_fds T) k); rewrite ?andb_true_r, ?andb_false_r; [|done]. repeat case_bool_decide; lia || done.
Qed.

Lemma close_files_spec t s d T : fs_inv dying s d -> tables s !! t = Some T ->
  exists s', close_files flush s t = Some s' /\ fs_inv dying s' d /\ fframe (put_table s t (set_fd ∅ T)) s' /\ gave s d s' d.
Proof.
  intros H HT. unfold close_files. destruct (close_words_spec (Z.to_nat (NR_OPEN / NFDBITS)) t 0 s d T H HT) as (s' & m & E & H' & Hf & Hg & Hm).
  exists s'. do 2 (split; [done|]). assert (m = ∅) as ->; [|done]. apply map_eq. intros k. rewrite Hm, lookup_empty.
  destruct (fd T !! k) as [f|] eqn:Hk; [|by case_match]. destruct (tb_slot _ _ _ _ (fi_tables _ _ _ H) _ _ _ _ HT Hk) as [Hr ->].
  rewrite bool_decide_true; [done|]. change (Z.of_nat (Z.to_nat (NR_OPEN / NFDBITS))) with 32. unfold NR_OPEN, NFDBITS in *. lia.
Qed.

End Dying.

(** ** [exit_files] *)

Section Exit.
Context (p : Z) (flush : Z -> Z).

Lemma leave_inv s d t T : fs_inv None s d -> table_of s p = Some (t, T) -> opening s !! p = None ->
  fs_inv (if count T =? 1 then Some t else None) (put_table (set_task_files s (delete p (task_files s))) t (set_count (count T - 1) T)) d.
Proof.
  intros H [Hp HT]%table_of_spec Ho. pose proof (fi_tables _ _ _ H) as Htb. split.
  - eapply filps_ok_ext; [|destruct (fi_filps _ _ _ H); by constructor]. intros g. by apply (refs_put s d d t T).
  - cbn. destruct Htb. constructor.
    + intros u U HU. destruct (decide (u = t)) as [->|]; simplify_map_eq; eauto.
    + intros u U i f HU. destruct (decide (u = t)) as [->|]; simplify_map_eq; eauto.
    + intros q i f Hq. destruct (tb_opening q i f Hq) as (u & U & Hu & HU & Hr). exists u. assert (q <> p) by congruence.
      rewrite lookup_delete_ne by done. destruct (decide (u = t)) as [->|]; simplify_map_eq; eauto.
    + intros q1 q2 i f g H1 H2. assert (q1 <> p /\ q2 <> p) as [? ?] by (split; congruence). rewrite !lookup_delete_ne by done. eauto.
    + intros u U HU. rewrite (msum_delete _ _ _ t) by done. destruct (decide (u = t)) as [->|]; simplify_map_eq; cbn.
      * rewrite same_refl. destruct (tb_count t T HT) as [? [?|?]]; [|done]. split; [lia|]. destruct (count T =? 1) eqn:E; [by right|left; lia].
      * rewrite same_ne by done. destruct (tb_count u U HU) as [? [?|?]]; [|done]. lia.
    + intros q u Hq. apply lookup_delete_Some in Hq as [_ Hq]. destruct (tb_task q u Hq) as [U HU]. destruct (decide (u = t)) as [->|]; simplify_map_eq; eauto.
Qed.

Lemma gone_inv s d t T : fs_inv (Some t) s d -> tables s !! t = Some T -> fd T = ∅ -> count T = 0 ->
  fs_inv None (set_tables s (delete t (tables s))) d /\ forall f, refs (set_tables s (delete t (tables s))) d f = refs s d f.
Proof.
  intros H HT He Hc. assert (forall f, refs (set_tables s (delete t (tables s))) d f = refs s d f) as Hr.
  { intros f. unfold refs. cbn. rewrite (msum_delete _ _ _ T) by done. rewrite He. change (slots f ∅) with 0. lia. }
  pose proof (fi_tables _ _ _ H) as Htb. split; [|done].
  assert (forall q, task_files s !! q <> Some t) as Hq. { intros q Hq. destruct (tb_count _ _ _ _ Htb t T HT) as [Hm _].
    pose proof (msum_zero (same t) (task_files s) (same_nonneg t) ltac:(lia) q t Hq) as Hs. by rewrite same_refl in Hs. }
  split; [eapply filps_ok_ext; [apply Hr|destruct (fi_filps _ _ _ H); by constructor]|]. cbn. destruct Htb. constructor.
  - intros u U [_ HU]%lookup_delete_Some. eauto.
  - intros u U i f [_ HU]%lookup_delete_Some. eauto.
  - intros q i f Ho. destruct (tb_opening q i f Ho) as (u & U & Hu & HU & Hb). exists u, U. assert (u <> t) by (intros ->; by apply (Hq q)).
    by rewrite lookup_delete_ne.
  - done.
  - intros u U [Hne HU]%lookup_delete_Some. destruct (tb_count u U HU) as [? [?|?]]; [by auto|congruence].
  - intros q u Hu. assert (t <> u) by (intros ->; by apply (Hq q)). rewrite lookup_delete_ne by done. eauto.
Qed.

(** The process has no table afterwards; the last user of a table empties it and frees
    it, and every file that nothing refers to any more is released. *)
Lemma exit_files_spec s d : fs_inv None s d -> opening s !! p = None ->
  exists s', exit_files p flush s = Some s' /\ fs_inv None s' d /\ task_files s' = delete p (task_files s) /\ opening s' = opening s /\
    gave s d s' d /\
    match table_of s p with
    | Some (t, T) => tables s' = if count T =? 1 then delete t (tables s) else <[t := set_count (count T - 1) T]> (tables s)
    | None => s' = s
    end.
Proof.
  intros H Ho. unfold exit_files. destruct (task_files s !! p) as [t|] eqn:Hp.
  2: { exists s. unfold table_of. rewrite Hp. cbn. split; [done|]. split; [done|]. split; [by rewrite delete_id|]. split; [done|]. split; [by apply gave_same|done]. }
  destruct (tb_task _ _ _ _ (fi_tables _ _ _ H) p t Hp) as [T HT]. assert (table_of s p = Some (t, T)) as Ht by by apply table_of_spec. rewrite Ht.
  cbn [tables set_task_files]. rewrite HT. cbn [mbind option_bind]. rewrite (upd_table_eq _ _ (set_task_files s _) T) by done.
  pose proof (leave_inv s d t T H Ht Ho) as H1. set (s1 := put_table _ t _) in *. replace (count T - 1 =? 0) with (count T =? 1) by lia.
  assert (gave s d s1 d) as Hg1. { apply gave_same; [|done]. intros g. by apply (refs_put s d d t T (set_count (count T - 1) T)). }
  destruct (count T =? 1) eqn:E; [|exists s1; do 5 (split; [done|]); done].
  assert (tables s1 !! t = Some (set_count (count T - 1) T)) as HT1 by apply lookup_insert_eq.
  destruct (close_files_spec (Some t) flush t s1 d _ H1 HT1) as (s2 & -> & H2 & Hf2 & Hg2). cbn [mbind option_bind].
  pose proof (fframe_lookup _ _ _ _ Hf2) as HT2. destruct (gone_inv s2 d t _ H2 HT2 eq_refl) as [H3 Hr]; [cbn; lia|].
  eexists. split; [done|]. split; [done|]. destruct Hf2 as [Et Ek Eo Eh]. cbn [task_files opening tables set_tables].
  split; [by rewrite Ek|]. split; [by rewrite Eo|]. split; [|rewrite Et; cbn; by rewrite !delete_insert_eq].
  eapply gave_trans; [exact Hg1|]. eapply gave_trans; [exact Hg2|]. by apply gave_same.
Qed.

(** ** [flush_old_files] *)

(** The descriptors of [B] that have a file are closed. *)
Record closes (B : Z -> bool) (T T' : files_struct) : Prop := {
  cl_count : count T' = count T;
  cl_fd k : fd T' !! k = if B k then None else fd T !! k;
  cl_open k : bit (open_fds T') k = bit (open_fds T) k && negb (B k && bool_decide (is_Some (fd T !! k)));
  cl_cloexec k : bit (close_on_exec T') k = bit (close_on_exec T) k && negb (B k && bool_decide (is_Some (fd T !! k))) }.

Lemma closes_none B T : (forall k, B k = false) -> closes B T T.
Proof. intros HB. constructor; [done| | |]; intros k; rewrite HB; [done|cbn; by rewrite andb_true_r..]. Qed.

Lemma closes_ext B B' T T' : (forall k, B' k = B k) -> closes B T T' -> closes B' T T'.
Proof. intros HB []. constructor; [done| | |]; intros k; rewrite HB; auto. Qed.

Lemma closes_trans B1 B2 T T1 T2 : closes B1 T T1 -> closes B2 T1 T2 -> closes (fun k => B1 k || B2 k) T T2.
Proof.
  intros [C1 F1 O1 E1] [C2 F2 O2 E2]. constructor; [congruence| | |]; intros k.
  - rewrite F2, F1. by destruct (B1 k), (B2 k).
  - rewrite O2, O1, F1. destruct (B1 k), (B2 k); cbn; rewrite ?andb_true_r, <- ?andb_assoc; try done; by destruct (bit _ _), (bool_decide _).
  - rewrite E2, E1, F1. destruct (B1 k), (B2 k); cbn; rewrite ?andb_true_r, <- ?andb_assoc; try done; by destruct (bit _ _), (bool_decide _).
Qed.

Lemma closes_one i f T : words_ok (open_fds T) -> words_ok (close_on_exec T) -> fd T !! i = Some f -> closes (fun k => k =? i) T (closed i T).
Proof.
  intros Hw1 Hw2 Hi. constructor; cbn; [done| | |]; intros k; rewrite ?bit_clr by done; destruct (k =? i) eqn:E; cbn; rewrite ?andb_true_r; try done.
  - assert (k = i) as -> by lia. apply lookup_delete_eq.
  - apply lookup_delete_ne. lia.
  - assert (k = i) as -> by lia. rewrite Hi. cbn. by rewrite andb_false_r.
  - assert (k = i) as -> by lia. rewrite Hi. cbn. by rewrite andb_false_r.
Qed.

Lemma sys_close_gave dying s d t T i f : fs_inv dying s d -> table_of s p = Some (t, T) -> 0 <= i < 2 ^ 32 -> fd T !! i = Some f ->
  exists s', sys_close p flush s i = Some (flush f, s') /\ fs_inv dying s' d /\ fframe (put_table s t (closed i T)) s' /\ gave s d s' d.
Proof.
  intros H Ht Hr Hi. pose proof (sys_close_spec dying p flush s d t T i H Ht) as Hc. rewrite u32_id, Hi in Hc by done.
  destruct Hc as (s' & E & H' & Hf & Hrel). exists s'. do 3 (split; [done|]). pose proof Ht as [_ HT]%table_of_spec.
  assert (forall g, refs (put_table s t (closed i T)) (f :: d) g = refs s d g) as Hrf.
  { apply (refs_put s d (f :: d) t T); [done|]. intros g. cbn. rewrite (slots_delete _ _ _ f) by done. lia. }
  eapply gave_trans; [by apply gave_same; [exact Hrf|]|]. apply gave_one; [done|]. rewrite Hrel. by rewrite (fframe_refs _ s' d f Hf).
Qed.

Lemma flush_word_spec dying n i set s d t T : 0 <= set < 2 ^ Z.of_nat n -> 0 <= i -> i + Z.of_nat n < 2 ^ 32 ->
  fs_inv dying s d -> table_of s p = Some (t, T) ->
  exists s' T', flush_word p flush n i set s = Some s' /\ fs_inv dying s' d /\ fframe (put_table s t T') s' /\ gave s d s' d /\
    closes (fun k => Z.testbit set (k - i)) T T'.
Proof.
  revert i set s T. induction n as [|n IH]; intros i set s T Hs Hi0 Hi1 H Ht; pose proof Ht as [_ HT]%table_of_spec.
  - assert (set = 0) as -> by (cbn in Hs; lia). exists s, T. split; [done|]. split; [done|]. split; [by apply fframe_id|].
    split; [by apply gave_same|]. apply closes_none. intros k. apply Z.testbit_0_l.
  - cbn [flush_word]. destruct (set =? 0) eqn:E0.
    { assert (set = 0) as -> by lia. exists s, T. split; [done|]. split; [done|]. split; [by apply fframe_id|].
      split; [by apply gave_same|]. apply closes_none. intros k. apply Z.testbit_0_l. }
    rewrite <- Z.bit0_odd. destruct (Z.testbit set 0) eqn:E1; [destruct (fd T !! i) as [f|] eqn:Hi|].
    + destruct (sys_close_gave dying s d t T i f H Ht ltac:(lia) Hi) as (s1 & -> & H1 & Hf1 & Hg1). cbn [mbind option_bind].
      destruct (IH (i + 1) (Z.shiftr set 1) s1 _ (shift_small _ _ Hs) ltac:(lia) ltac:(lia) H1 (fframe_table_of _ _ _ _ _ _ Ht Hf1)) as (s' & T' & -> & H' & Hf' & Hg' & Hm).
      exists s', T'. split; [done|]. split; [done|]. split; [by eapply fframe_put|]. split; [by eapply gave_trans|].
      destruct (tb_words _ _ _ _ (fi_tables _ _ _ H) t T HT) as [Hw1 Hw2].
      eapply closes_ext; [|eapply closes_trans; [by apply (closes_one i f)|exact Hm]]. intros k. cbn. rewrite shift_bit by lia.
      destruct (k =? i) eqn:Ek; [|cbn; by rewrite andb_true_r]. assert (k = i) as -> by lia. by rewrite Z.sub_diag.
    + pose proof (sys_close_spec dying p flush s d t T i H Ht) as Hc. rewrite u32_id, Hi in Hc by lia. rewrite Hc. cbn [mbind option_bind].
      destruct (IH (i + 1) (Z.shiftr set 1) s T (shift_small _ _ Hs) ltac:(lia) ltac:(lia) H Ht) as (s' & T' & -> & H' & Hf' & Hg' & [C F O X]).
      exists s', T'. do 4 (split; [done|]). constructor; [done| | |]; intros k; rewrite ?F, ?O, ?X, shift_bit by lia;
        (destruct (decide (k = i)) as [->|]; [rewrite ?Hi, ?Z.eqb_refl, ?andb_false_r; by destruct (Z.testbit set (i - i))|]);
        (replace (k =? i) with false by lia); by rewrite ?andb_true_r.
    + cbn [mbind option_bind]. destruct (IH (i + 1) (Z.shiftr set 1) s T (shift_small _ _ Hs) ltac:(lia) ltac:(lia) H Ht) as (s' & T' & -> & H' & Hf' & Hg' & Hm).
      exists s', T'. do 4 (split; [done|]). eapply closes_ext; [|exact Hm]. intros k. cbn. rewrite shift_bit by lia. destruct (decide (k = i)) as [->|].
      * by rewrite Z.eqb_refl, andb_false_r, Z.sub_diag.
      * replace (k =? i) with false by lia. by rewrite andb_true_r.
Qed.


Lemma words_zero w j : words_ok w -> words_ok (<[j := 0]> w).
Proof. intros Hw. apply words_ok_set; [done|lia]. Qed.

Lemma bit_zero w j k : bit (<[j := 0]> w) k = bit w k && negb (bool_decide (j * NFDBITS <= k < (j + 1) * NFDBITS)).
Proof.
  rewrite !bit_div. unfold NFDBITS. pose proof (Z.div_mod k 32 ltac:(lia)). pose proof (Z.mod_pos_bound k 32 ltac:(lia)).
  destruct (decide (j = k / 32)) as [->|Hne].
  - rewrite fn_lookup_insert, Z.testbit_0_l, bool_decide_true by lia. by rewrite andb_false_r.
  - rewrite fn_lookup_insert_ne by done. rewrite bool_decide_false by lia. by rewrite andb_true_r.
Qed.

(** The descriptors of the words from [j] on that are marked for closing on exec. *)
Definition in_words (j n k : Z) : bool := bool_decide (j * NFDBITS <= k < (j + n) * NFDBITS).

Record flushed (j n : Z) (T T' : files_struct) : Prop := {
  fx_count : count T' = count T;
  fx_fd k : fd T' !! k = if in_words j n k && bit (close_on_exec T) k then None else fd T !! k;
  fx_open k : bit (open_fds T') k = bit (open_fds T) k && negb (in_words j n k && bit (close_on_exec T) k && bool_decide (is_Some (fd T !! k)));
  fx_cloexec k : bit (close_on_exec T') k = bit (close_on_exec T) k && negb (in_words j n k) }.

Lemma flush_words_spec dying n j s d t T : 0 <= j -> j + Z.of_nat n <= 32 -> fs_inv dying s d -> table_of s p = Some (t, T) ->
  exists s' T', flush_words p flush n j s = Some s' /\ fs_inv dying s' d /\ fframe (put_table s t T') s' /\ gave s d s' d /\
    flushed j (Z.of_nat n) T T'.
Proof.
  revert j s T. induction n as [|n IH]; intros j s T Hj Hn H Ht; pose proof Ht as [_ HT]%table_of_spec; cbn [flush_words].
  - exists s, T. split; [done|]. split; [done|]. split; [by apply fframe_id|]. split; [by apply gave_same|].
    assert (forall k, in_words j 0 k = false) as Hi by (intros k; apply bool_decide_false; lia).
    constructor; [done|..]; intros k; rewrite Hi; cbn; by rewrite ?andb_true_r.
  - rewrite Ht. cbn [mbind option_bind]. destruct (tb_words _ _ _ _ (fi_tables _ _ _ H) t T HT) as [Hw1 Hw2].
    rewrite (upd_table_eq _ _ _ T) by done. set (T0 := set_cloexec (<[j := 0]> (close_on_exec T)) T). set (s0 := put_table s t T0).
    assert (fs_inv dying s0 d) as H0 by (apply cloexec_inv; auto using words_zero). assert (table_of s0 p = Some (t, T0)) as Ht0 by by apply (table_of_put s p t T).
    assert (gave s d s0 d) as Hg0 by (apply gave_same; [by apply (refs_put s d d t T)|done]).
    destruct (flush_word_spec dying 32 (j * NFDBITS) (close_on_exec T j) s0 d t T0) as (s1 & T1 & -> & H1 & Hf1 & Hg1 & [C1 F1 O1 X1]);
      [apply Hw2|unfold NFDBITS; lia..|done|done|]. cbn [mbind option_bind].
    destruct (IH (j + 1) s1 T1 ltac:(lia) ltac:(lia) H1 (fframe_table_of _ _ _ _ _ _ Ht0 Hf1)) as (s' & T' & -> & H' & Hf' & Hg' & [C F O X]).
    exists s', T'. split; [done|]. split; [done|]. split; [eapply fframe_put; [|exact Hf']; by rewrite (put_table_twice s t T0 T1 : put_table s0 t T1 = _) in Hf1|].
    split; [eapply gave_trans; [exact Hg0|]; by eapply gave_trans|].
    assert (forall k, Z.testbit (close_on_exec T j) (k - j * NFDBITS) = in_words j 1 k && bit (close_on_exec T) k) as Hset by (intros k; by apply word_bit).
    assert (forall k, bit (close_on_exec T1) k = bit (close_on_exec T) k && negb (in_words j 1 k)) as HX.
    { intros k. rewrite X1, Hset. unfold T0. cbn. rewrite bit_zero. unfold in_words. by destruct (bit (close_on_exec T) k), (bool_decide (j * NFDBITS <= k < (j + 1) * NFDBITS)). }
    assert (forall k, in_words j (Z.of_nat (S n)) k = in_words j 1 k || in_words (j + 1) (Z.of_nat n) k) as Hsplit.
    { intros k. unfold in_words, NFDBITS. repeat case_bool_decide; lia || done. }
    assert (forall k, in_words j 1 k = true -> in_words (j + 1) (Z.of_nat n) k = false) as Hdis.
    { intros k. unfold in_words, NFDBITS. repeat case_bool_decide; lia || done. }
    constructor; [cbn in C1; congruence|..]; intros k; rewrite ?F, ?O, ?X, ?F1, ?O1, HX, ?Hset, Hsplit; unfold T0; cbn; specialize (Hdis k);
      destruct (in_words j 1 k), (in_words (j + 1) (Z.of_nat n) k), (bit (close_on_exec T) k); cbn; rewrite ?andb_true_r, ?andb_false_r; try done; by specialize (Hdis eq_refl).
Qed.

(** After [exec] exactly the descriptors that were marked are closed, and none is marked. *)
Lemma flush_old_files_spec dying s d t T : fs_inv dying s d -> table_of s p = Some (t, T) ->
  exists s' T', flush_old_files p flush s = Some s' /\ fs_inv dying s' d /\ fframe (put_table s t T') s' /\ gave s d s' d /\
    count T' = count T /\
    (forall k, fd T' !! k = if bit (close_on_exec T) k then None else fd T !! k) /\
    (forall k, 0 <= k < NR_OPEN -> bit (close_on_exec T') k = false /\
       bit (open_fds T') k = bit (open_fds T) k && negb (bit (close_on_exec T) k && bool_decide (is_Some (fd T !! k)))).
Proof.
  intros H Ht. destruct (flush_words_spec dying 32 0 s d t T ltac:(lia) ltac:(lia) H Ht) as (s' & T' & E & H' & Hf & Hg & [C F O X]).
  assert (forall k, 0 <= k < NR_OPEN -> in_words 0 32 k = true) as Hin by (intros k Hk; apply bool_decide_true; unfold NR_OPEN, NFDBITS in *; lia).
  pose proof Ht as [_ HT]%table_of_spec. exists s', T'. do 5 (split; [done|]). split.
  - intros k. rewrite F. destruct (fd T !! k) as [f|] eqn:Hk; [|by repeat case_match].
    destruct (tb_slot _ _ _ _ (fi_tables _ _ _ H) _ _ _ _ HT Hk) as [Hr _]. by rewrite Hin.
  - intros k Hk. rewrite X, O, Hin by done. by rewrite andb_false_r.
Qed.

End Exit.
