(* ===== verification/FilesProps.v ===== *)
(** * Open files: what the calls guarantee

    The machine interleaves the calls of any number of processes; a call of [open] is two
    steps, with the other processes in between, and a call that uses a file, such as
    [read], takes a reference in one step and gives it up in another. *)

From stdpp Require Import functions.
From S2P Require Import Prelude Bitops Files FilesProof FilesCalls FilesExit.

Inductive fcall :=
  | COpen (rlim : Z) (root : bool) (new : option Z) (flags : Z)
  | COpened (error : Z)
  | CClose (i : Z)
  | CDup (rlim i : Z)
  | CDup2 (rlim oldfd newfd : Z)
  | CFcntl (rlim i cmd arg : Z) (append_only : bool) (lock : Z) (sock : option Z)
  | CUse (i : Z)
  | CUsed (f : Z)
  | CFork (child : Z) (share alloc : bool) (new : Z)
  | CExec
  | CExit.

Definition do_call (flush : Z -> Z) (p : Z) (c : fcall) (s : fstate) : option fstate :=
  match c with
  | COpen rlim root new flags => snd <$> open_start p rlim s root new flags
  | COpened error => snd <$> open_finish p s error
  | CClose i => snd <$> sys_close p flush s i
  | CDup rlim i => snd <$> sys_dup p rlim s i
  | CDup2 rlim oldfd newfd => snd <$> sys_dup2 p rlim flush s oldfd newfd
  | CFcntl rlim i cmd arg append_only lock sock => snd <$> sys_fcntl p rlim s i cmd arg append_only lock sock
  | CUse i => snd <$> hold p s i
  | CUsed f => unhold s f
  | CFork child share alloc new => snd <$> copy_files p s child share alloc new
  | CExec => flush_old_files p flush s
  | CExit => exit_files p flush s
  end.

(** A limit within the array of descriptors: setrlimit accepts no larger one, but it does
    accept a negative one (see [setrlimit_limit] and [negative_limit]). *)
Definition limit_in (rlim : Z) : Prop := 0 <= rlim <= NR_OPEN.

(** When the process can make the call: it has a table and no call of [open] in progress;
    structures that are allocated are new, and a child is a new process. *)
Definition may (s : fstate) (p : Z) (c : fcall) : Prop :=
  match c with
  | COpened error => is_Some (opening s !! p)
  | CUsed f => f ∈ held s
  | _ => is_Some (task_files s !! p) /\ opening s !! p = None /\
    match c with
    | COpen rlim _ new _ => limit_in rlim /\ forall f, new = Some f -> filps s !! f = None
    | CDup rlim _ | CDup2 rlim _ _ | CFcntl rlim _ _ _ _ _ _ => limit_in rlim
    | CFork child _ _ new => task_files s !! child = None /\ opening s !! child = None /\ tables s !! new = None
    | _ => True
    end
  end.

(** The first process has an empty table. *)
Definition f_init (max : Z) : fstate :=
  FState ∅ [] [] 0 0 max {[1 := Files 1 ∅ (fun _ => 0) (fun _ => 0)]} {[1 := 1]} ∅ [] [].

Inductive f_reachable (flush : Z -> Z) (max : Z) : fstate -> Prop :=
  | fr_init : f_reachable flush max (f_init max)
  | fr_call s p c s' : f_reachable flush max s -> may s p c -> do_call flush p c s = Some s' -> f_reachable flush max s'.

(** ** Every call keeps the invariant *)

Lemma f_init_inv max : fs_inv None (f_init max) [].
Proof.
  split.
  - constructor; cbn; try done; [| |constructor..].
    + intros f. split; [by intros ?%not_elem_of_nil|by intros (? & ? & ?)].
    + intros f. split; [by intros ?%not_elem_of_nil|by intros (? & ? & ?)].
  - cbn. constructor; try done.
    + intros t T HT. apply lookup_singleton_Some in HT as [<- <-]. cbn. split; intros k; lia.
    + intros t T i f HT. apply lookup_singleton_Some in HT as [<- <-]. done.
    + intros t T HT. apply lookup_singleton_Some in HT as [<- <-]. cbn. split; [reflexivity|by left].
    + intros q t Ht. apply lookup_singleton_Some in Ht as [<- <-]. cbn. by eexists.
Qed.

Lemma find_table s p : fs_inv None s [] -> is_Some (task_files s !! p) -> exists t T, table_of s p = Some (t, T).
Proof. intros H [t Ht]. destruct (tb_task _ _ _ _ (fi_tables _ _ _ H) p t Ht) as [T HT]. exists t, T. by apply table_of_spec. Qed.

Lemma sys_close_inv flush s p t T i : fs_inv None s [] -> table_of s p = Some (t, T) ->
  exists e s' T', sys_close p flush s i = Some (e, s') /\ fs_inv None s' [] /\ table_of s' p = Some (t, T').
Proof.
  intros H Ht. pose proof (sys_close_spec None p flush s [] t T i H Ht) as Hc. destruct (fd T !! u32 i); [|by eexists _, _, _].
  destruct Hc as (s' & E & H' & Hf & _). eexists _, _, _. split; [done|]. split; [done|]. by eapply fframe_table_of.
Qed.

Lemma dupfd_inv s p rlim t T i arg : limit_in rlim -> fs_inv None s [] -> table_of s p = Some (t, T) ->
  exists e s', dupfd p rlim s i arg = Some (e, s') /\ fs_inv None s' [].
Proof.
  intros Hl H Ht. pose proof (dupfd_spec None p rlim Hl s [] t T i arg H Ht) as Hd. destruct (NR_OPEN <=? u32 arg); [by eexists _, _|].
  destruct (fd T !! u32 i); [|by eexists _, _]. destruct Hd as [[-> _]|(j & s' & -> & _ & _ & Hi & _)]; by eexists _, _.
Qed.

Lemma do_call_inv flush s p c : fs_inv None s [] -> may s p c -> exists s', do_call flush p c s = Some s' /\ fs_inv None s' [].
Proof.
  intros H Hm. destruct c; cbn [may do_call] in *;
    try (destruct Hm as (Hp & Ho & Hm); destruct (find_table s p H Hp) as (t & T & Ht); pose proof Ht as [Hpt HT]%table_of_spec).
  - destruct Hm as [Hl Hn]. destruct (open_start_spec None p rlim Hl s [] t T root new flags H Ht Ho Hn) as (r & s' & -> & Hi & _). by eexists.
  - destruct Hm as [[i f] Ho]. destruct (open_finish_spec None p s [] i f error H Ho) as (t & T & s' & _ & -> & Hi & _). by eexists.
  - destruct (sys_close_inv flush s p t T i H Ht) as (e & s' & T' & -> & Hi & _). by eexists.
  - destruct (dupfd_inv s p rlim t T i 0 Hm H Ht) as (e & s' & E & Hi). unfold sys_dup. rewrite E. by eexists.
  - unfold sys_dup2. rewrite (fcheck_eq None p s [] t T) by done. cbn [mbind option_bind]. destruct (fd T !! u32 oldfd); [|by eexists].
    destruct (u32 newfd =? u32 oldfd); [by eexists|]. destruct (NR_OPEN <=? u32 newfd); [by eexists|].
    destruct (sys_close_inv flush s p t T newfd H Ht) as (e & s1 & T1 & -> & Hi & Ht1). cbn [mbind option_bind].
    destruct (dupfd_inv s1 p rlim t T1 oldfd newfd Hm Hi Ht1) as (e2 & s' & -> & Hi'). by eexists.
  - destruct (sys_fcntl_inv None p rlim Hm s [] t T i cmd arg append_only lock sock H Ht) as (e & s' & -> & Hi). by eexists.
  - destruct (hold_inv None p s [] t T i H Ht) as (r & s' & -> & Hi). by eexists.
  - destruct (unhold_inv None s [] f H Hm) as (s' & -> & Hi & _). by eexists.
  - destruct Hm as (Hc & Hco & Hn). destruct (copy_files_spec p s [] t T child share alloc new H Ht Hc Hco Hn) as (r & s' & -> & Hi & _). by eexists.
  - destruct (flush_old_files_spec p flush None s [] t T H Ht) as (s' & T' & -> & Hi & _). by eexists.
  - destruct (exit_files_spec p flush s [] H Ho) as (s' & -> & Hi & _). by eexists.
Qed.

Lemma f_reachable_inv flush max s : f_reachable flush max s -> fs_inv None s [].
Proof.
  induction 1 as [|s p c s' _ IH Hm Hc]; [apply f_init_inv|]. destruct (do_call_inv flush s p c IH Hm) as (s'' & E & Hi). congruence.
Qed.

(** ** Examples *)

Fixpoint f_run (flush : Z -> Z) (l : list (Z * fcall)) (s : fstate) : option fstate :=
  match l with [] => Some s | (p, c) :: l => s ← do_call flush p c s; f_run flush l s end.

Fixpoint mays (flush : Z -> Z) (l : list (Z * fcall)) (s : fstate) : Prop :=
  match l with
  | [] => True
  | (p, c) :: l => may s p c /\ match do_call flush p c s with Some s => mays flush l s | None => False end
  end.

Lemma run_reachable flush max l s s' : f_reachable flush max s -> mays flush l s -> f_run flush l s = Some s' -> f_reachable flush max s'.
Proof.
  revert s. induction l as [|[p c] l IH]; cbn; intros s Hr Hm E; [by simplify_eq|]. destruct Hm as [Hm Hl].
  destruct (do_call flush p c s) as [s1|] eqn:Es; cbn in *; [|done]. apply (IH s1); [|done|done]. by eapply fr_call.
Qed.

Definition ex_flush (f : Z) : Z := 0.

(** Process 1 opens file 10 as descriptor 0, duplicates it to 1, marks that one for closing
    on exec, and makes a copy, process 2, and a thread, process 3, which opens file 11 as
    descriptor 2 and then begins to open another one. *)
Definition ex_calls : list (Z * fcall) :=
  [(1, COpen 100 false (Some 10) 2); (1, COpened 0); (1, CDup 100 0); (1, CFcntl 100 1 F_SETFD 1 false 0 None); (1, CFork 2 false true 2); (1, CFork 3 true true 0);
   (3, COpen 100 false (Some 11) 0); (3, COpened 0); (1, CUse 0); (3, COpen 100 false (Some 12) 0)].

Definition ex_files : fstate := default (f_init 10) (f_run ex_flush ex_calls (f_init 10)).

(** Closes the conditions of calls on concrete states. *)
Ltac solve_may := repeat match goal with
  | |- _ /\ _ => split
  | |- True => exact I
  | |- limit_in _ => vm_compute; split; discriminate
  | |- is_Some _ => eexists; vm_compute; reflexivity
  | |- forall f, Some _ = Some f -> _ => intros f; let E := fresh in intros E; injection E as <-; vm_compute; reflexivity
  | |- _ = _ => vm_compute; reflexivity
  | |- _ ∈ _ => vm_compute; constructor
  end.

Lemma ex_files_reachable : f_reachable ex_flush 10 ex_files.
Proof.
  apply (run_reachable ex_flush 10 ex_calls (f_init 10)); [constructor| |unfold ex_files; vm_compute; reflexivity].
  unfold ex_calls. repeat (split; [cbn [may]; solve_may|cbn [fst snd]; match goal with |- match ?d with _ => _ end => let v := eval vm_compute in d in change d with v; cbv iota end]).
  exact I.
Qed.

Example ex_files_tables : (fun T => (map_to_list (fd T), open_fds T 0, close_on_exec T 0)) <$> tables ex_files !! 1 = Some ([(2, 11); (1, 10); (0, 10)], 15, 2) /\
  (f_count <$> filps ex_files !! 10) = Some 5 /\ opening ex_files !! 3 = Some (3, 12).
Proof. vm_compute. done. Qed.

(** ** Properties *)

(** C7: As long as no process has a negative limit of descriptors, in every state that the
    calls of all processes lead to, in whatever order, the count of each file structure is exactly the number of references to it, from
    descriptors of all tables, from calls of open in progress and from calls that use the
    file; a structure is on the free list exactly if there is none, and the counters of
    the table of files are exact; each table of descriptors has as many users as its
    count says; a descriptor with a file is marked, and one that a call of open has
    reserved stays empty and is nobody else's.  No permitted call follows an invalid
    pointer: a process that has a table calls, and it has no call of open in progress.
    With a negative limit dup writes behind the end of the table (see [negative_limit]);
    a limit that is not negative stays within it ([setrlimit_limit]). *)
Theorem files_reachable flush max s :
  f_reachable flush max s -> fs_inv None s [] /\ forall p c, may s p c -> is_Some (do_call flush p c s).
Proof.
  intros Hr. pose proof (f_reachable_inv _ _ _ Hr) as H. split; [done|]. intros p c Hm.
  destruct (do_call_inv flush s p c H Hm) as (s' & -> & _). by eexists.
Qed.

Lemma files_reachable_witness : fs_inv None ex_files [] /\ is_Some (do_call ex_flush 1 CExit ex_files).
Proof.
  destruct (files_reachable ex_flush 10 ex_files ex_files_reachable) as [Hi Hc]. split; [exact Hi|]. apply Hc. cbn [may]. solve_may.
Defined.

Lemma s32_u32 z : u32 z < 2 ^ 31 -> s32 z = u32 z.
Proof.
  intros Hz. unfold s32. pose proof (u32_range z). rewrite <- (Z.add_mod_idemp_l z) by lia. change (z mod 2 ^ 32) with (u32 z).
  rewrite Z.mod_small by lia. lia.
Qed.

Lemma lowest_first T a j : lowest T a j -> bit (open_fds T) a = false -> j = a.
Proof. intros (Hr & _ & Hl) Ha. destruct (decide (a < j)) as [Hlt|]; [|lia]. rewrite Hl in Ha; [done|lia]. Qed.

(** What [dup2] leaves in the table: the new descriptor has the file and is not marked for
    closing on exec; every other descriptor is as it was. *)
Record dup2_done (n f : Z) (T T' : files_struct) : Prop := {
  d2_fd : fd T' = <[n := f]> (fd T);
  d2_count : count T' = count T;
  d2_cloexec k : bit (close_on_exec T') k = if k =? n then false else bit (close_on_exec T) k;
  d2_open k : bit (open_fds T') k = if k =? n then true else bit (open_fds T) k }.

Lemma dup2_done_closed n f T g : words_ok (open_fds T) -> words_ok (close_on_exec T) -> fd T !! n = Some g ->
  dup2_done n f T (installed n f (closed n T)).
Proof.
  intros Hw1 Hw2 Hn. constructor; cbn; [apply insert_delete_eq|done| |]; intros k; rewrite ?bit_set, ?bit_clr by auto using words_clr; by case_match.
Qed.

Lemma dup2_done_free n f T : words_ok (open_fds T) -> words_ok (close_on_exec T) -> dup2_done n f T (installed n f T).
Proof. intros Hw1 Hw2. constructor; cbn; [done|done| |]; intros k; rewrite ?bit_set, ?bit_clr by auto using words_clr; by case_match. Qed.

Lemma closed_lookup i j T : i <> j -> fd (closed i T) !! j = fd T !! j.
Proof. intros. cbn. by apply lookup_delete_ne. Qed.

(** C8: dup2 in every reachable state: without a file at the old descriptor, or with a new
    one outside the table, it answers EBADF and changes nothing, and equal descriptors are
    left alone.  Otherwise, for a descriptor below the limit that no other process is just
    opening, it answers the new descriptor, which then has the file of the old one and is
    not marked for closing on exec, with every other descriptor of every table unchanged;
    the file that the new descriptor had loses one reference and is released if it was the
    last one.  At or above the limit it answers EMFILE, with the new descriptor closed; a
    descriptor that is being opened is not the answer, and stays reserved. *)
Theorem dup2_correct flush max s p t T rlim oldfd newfd :
  f_reachable flush max s -> table_of s p = Some (t, T) -> limit_in rlim ->
  let n := u32 newfd in
  match fd T !! u32 oldfd with
  | None => sys_dup2 p rlim flush s oldfd newfd = Some (- EBADF, s)
  | Some f =>
    if n =? u32 oldfd then sys_dup2 p rlim flush s oldfd newfd = Some (n, s)
    else if NR_OPEN <=? n then sys_dup2 p rlim flush s oldfd newfd = Some (- EBADF, s)
    else exists r s' T', sys_dup2 p rlim flush s oldfd newfd = Some (r, s') /\ fframe (put_table s t T') s' /\
      (n < rlim -> (bit (open_fds T) n = true -> is_Some (fd T !! n)) ->
        r = n /\ dup2_done n f T T' /\
        released s' = released s ++ (if fd T !! n is Some g then if refs s' [] g =? 0 then [g] else [] else [])) /\
      (rlim <= n -> r = - EMFILE /\ fd T' = delete n (fd T)) /\
      (bit (open_fds T) n = true -> fd T !! n = None -> r <> n /\ fd T' !! n = None)
  end.
Proof.
  intros Hreach Ht Hl n. pose proof (f_reachable_inv _ _ _ Hreach) as H. pose proof Ht as [Hp HT]%table_of_spec.
  destruct (tb_words _ _ _ _ (fi_tables _ _ _ H) t T HT) as [Hw1 Hw2]. unfold sys_dup2. rewrite (fcheck_eq None p s [] t T) by done. cbn [mbind option_bind].
  destruct (fd T !! u32 oldfd) as [f|] eqn:Hf; [|done]. pose proof (tb_slot _ _ _ _ (fi_tables _ _ _ H) _ _ _ _ HT Hf) as [Hor _].
  destruct (n =? u32 oldfd) eqn:En.
  { fold n. rewrite En. do 2 f_equal. rewrite s32_u32; fold n; unfold NR_OPEN in Hor; lia. }
  fold n. rewrite En. destruct (NR_OPEN <=? n) eqn:Eo; [done|]. pose proof (u32_range newfd) as Hnr. fold n in Hnr.
  pose proof (sys_close_spec None p flush s [] t T newfd H Ht) as Hc. fold n in Hc. destruct (fd T !! n) as [g|] eqn:Hn.
  - destruct Hc as (s1 & -> & H1 & Hf1 & Hrel1). cbn [mbind option_bind]. pose proof (fframe_table_of _ _ _ _ _ _ Ht Hf1) as Ht1.
    pose proof (dupfd_spec None p rlim Hl s1 [] t _ oldfd newfd H1 Ht1) as Hd. fold n in Hd. rewrite Eo, closed_lookup, Hf in Hd by lia.
    assert (bit (open_fds (closed n T)) n = false) as Hb by (cbn; by rewrite bit_clr, Z.eqb_refl).
    destruct Hd as [[-> Hfull]|(j & s' & -> & Hj & Hlow & H' & Hf' & Hrel')].
    + exists (- EMFILE), s1, (closed n T). split; [done|]. split; [done|]. split; [|split; [done|done]].
      intros Hlt _. rewrite Hfull in Hb by lia. done.
    + pose proof (lowest_first _ _ _ Hlow Hb) as ->. exists n, s', (installed n f (closed n T)). split; [done|]. split; [by eapply fframe_put|].
      split; [|split; [lia|done]]. intros _ _. split; [done|]. split; [by eapply dup2_done_closed|]. rewrite Hrel', Hrel1.
      assert ((refs s' [] g =? 0) = (refs s1 [] g =? 0)) as ->; [|by case_match; rewrite ?app_nil_r].
      pose proof (slot_refs s1 [] t _ (u32 oldfd) f (fframe_lookup _ _ _ _ Hf1) ltac:(rewrite closed_lookup by lia; done)) as Hpos.
      assert (refs s' [] g = refs s1 [] g + same g f) as ->.
      { rewrite (fframe_refs _ s' [] g Hf'). unfold refs, put_table. cbn. rewrite (msum_update _ _ t _ _ (fframe_lookup _ _ _ _ Hf1)). cbn.
        rewrite slots_insert by apply lookup_delete_eq. lia. }
      unfold same. destruct (f =? g) eqn:Eg; [|lia]. assert (f = g) as -> by lia. lia.
  - rewrite Hc. cbn [mbind option_bind]. pose proof (dupfd_spec None p rlim Hl s [] t _ oldfd newfd H Ht) as Hd. fold n in Hd. rewrite Eo, Hf in Hd.
    destruct Hd as [[-> Hfull]|(j & s' & -> & Hj & Hlow & H' & Hf' & Hrel')].
    + exists (- EMFILE), s, T. split; [done|]. split; [by apply fframe_id|]. split.
      * intros Hlt Hres. destruct (Hres (Hfull n ltac:(lia))). done.
      * split; [intros _; split; [done|by rewrite delete_id]|]. intros _ _. split; [unfold EMFILE; lia|done].
    + exists j, s', (installed j f T). split; [done|]. split; [done|]. split; [|split; [|]].
      * intros Hlt Hres. assert (bit (open_fds T) n = false) as Hb by (destruct (bit (open_fds T) n); [by destruct (Hres eq_refl)|done]).
        pose proof (lowest_first _ _ _ Hlow Hb) as ->. split; [done|]. split; [by apply dup2_done_free|]. by rewrite Hrel', app_nil_r.
      * intros Hge. destruct Hlow as [? _]. lia.
      * intros Hb _. assert (j <> n) as Hne by (intros ->; destruct Hlow as (_ & Hb' & _); congruence). split; [done|]. cbn. by rewrite lookup_insert_ne.
Qed.

(** The table of process 1 in the example. *)
Definition ex_table : files_struct := default (Files 0 ∅ (fun _ => 0) (fun _ => 0)) (tables ex_files !! 1).

Lemma dup2_correct_witness : exists s' T', sys_dup2 1 100 ex_flush ex_files 2 0 = Some (0, s') /\ fframe (put_table ex_files 1 T') s' /\ dup2_done 0 11 ex_table T'.
Proof.
  pose proof (dup2_correct ex_flush 10 ex_files 1 1 ex_table 100 2 0 ex_files_reachable
    ltac:(vm_compute; reflexivity) ltac:(vm_compute; split; discriminate)) as H. cbv zeta in H.
  change (fd ex_table !! u32 2) with (Some 11) in H. change (u32 0 =? u32 2) with false in H. change (NR_OPEN <=? u32 0) with false in H. cbv iota in H.
  destruct H as (r & s' & T' & E & Hf & Hok & _). change (fd ex_table !! u32 0) with (Some 10) in Hok.
  destruct (Hok ltac:(vm_compute; reflexivity) ltac:(by eexists)) as (-> & Hd & _). exists s', T'. split; [exact E|]. split; [exact Hf|exact Hd].
Defined.

(** C9: Execution of a program closes exactly the descriptors that are marked for it, in the
    table that the process uses, and leaves none marked: the others keep their files.  A
    descriptor that was closed is free again.  Exactly the files with no reference left are
    released, each once; no other table changes. *)
Theorem exec_closes_marked flush max s p t T :
  f_reachable flush max s -> table_of s p = Some (t, T) ->
  exists s' T', flush_old_files p flush s = Some s' /\ fframe (put_table s t T') s' /\ gave s [] s' [] /\
    (forall k, fd T' !! k = if bit (close_on_exec T) k then None else fd T !! k) /\
    (forall k, 0 <= k < NR_OPEN -> bit (close_on_exec T') k = false /\
       bit (open_fds T') k = bit (open_fds T) k && negb (bit (close_on_exec T) k && bool_decide (is_Some (fd T !! k)))).
Proof.
  intros Hr Ht. destruct (flush_old_files_spec p flush None s [] t T (f_reachable_inv _ _ _ Hr) Ht) as (s' & T' & ? & ? & ? & ? & _ & ? & ?).
  by exists s', T'.
Qed.

Lemma exec_closes_marked_witness : exists s' T', flush_old_files 1 ex_flush ex_files = Some s' /\ fframe (put_table ex_files 1 T') s' /\
  fd T' !! 0 = Some 10 /\ fd T' !! 1 = None.
Proof.
  destruct (exec_closes_marked ex_flush 10 ex_files 1 1 ex_table ex_files_reachable ltac:(vm_compute; reflexivity)) as (s' & T' & E & Hf & _ & Hfd & _).
  exists s', T'. split; [exact E|]. split; [exact Hf|]. split; rewrite Hfd; vm_compute; reflexivity.
Defined.

(** C10: A process that ends gives up its table; the last user of a table closes all its
    descriptors and frees it, so that exactly the files that no other table and no call in
    progress refers to are released, each once; otherwise the table stays as it is for the
    other users, and nothing is released. *)
Theorem exit_releases flush max s p :
  f_reachable flush max s -> opening s !! p = None ->
  exists s', exit_files p flush s = Some s' /\ task_files s' = delete p (task_files s) /\ gave s [] s' [] /\
    match table_of s p with
    | Some (t, T) =>
      if count T =? 1 then tables s' = delete t (tables s) /\ (forall q, q <> p -> task_files s !! q <> Some t)
      else tables s' = <[t := set_count (count T - 1) T]> (tables s) /\ released s' = released s
    | None => s' = s
    end.
Proof.
  intros Hr Ho. pose proof (f_reachable_inv _ _ _ Hr) as H. destruct (exit_files_spec p flush s [] H Ho) as (s' & E & H' & Hk & Hop & Hg & Hm).
  exists s'. do 3 (split; [done|]). destruct (table_of s p) as [[t T]|] eqn:Ht; [|done]. pose proof Ht as [Hp HT]%table_of_spec.
  destruct (count T =? 1) eqn:Ec.
  - split; [done|]. intros q Hne Hq. destruct (tb_count _ _ _ _ (fi_tables _ _ _ H) t T HT) as [Hc _].
    pose proof (msum_delete (same t) (task_files s) p t Hp) as Hd. pose proof (msum_ge (same t) (delete p (task_files s)) q t (same_nonneg t)) as Hge.
    rewrite lookup_delete_ne in Hge by done. specialize (Hge Hq). rewrite same_refl in *. lia.
  - split; [done|]. unfold exit_files in E. rewrite Hp in E. cbn [tables set_task_files] in E. rewrite HT in E. cbn [mbind option_bind] in E.
    replace (count T - 1 =? 0) with false in E by lia. by injection E as <-.
Qed.

Lemma exit_releases_witness : exists s', exit_files 2 ex_flush ex_files = Some s' /\ tables s' = delete 2 (tables ex_files).
Proof.
  destruct (exit_releases ex_flush 10 ex_files 2 ex_files_reachable ltac:(vm_compute; reflexivity)) as (s' & E & _ & _ & Hm).
  exists s'. split; [exact E|]. pose proof (table_of_spec ex_files 2 2 (default ex_table (tables ex_files !! 2))) as [_ Ht].
  rewrite Ht in Hm by (split; vm_compute; reflexivity). change (count (default ex_table (tables ex_files !! 2)) =? 1) with true in Hm. apply Hm.
Defined.

(** fork: a child that shares the files of its parent uses the same table, with one more
    user; any other gets a table of its own with the same file at every descriptor, and the
    same marks, in which changes do not show in the table of the parent.  Without memory the
    call fails and nothing has changed.  Every file keeps an exact count. *)
Theorem fork_copies flush max s p t T child share alloc new :
  f_reachable flush max s -> table_of s p = Some (t, T) ->
  task_files s !! child = None -> opening s !! child = None -> tables s !! new = None ->
  exists r s', copy_files p s child share alloc new = Some (r, s') /\
    (if negb share && negb alloc then r = - ENOMEM /\ s' = s
     else r = 0 /\ table_of s' child = Some (if share then (t, set_count (count T + 1) T) else (new, Files 1 (fd T) (close_on_exec T) (open_fds T)))) /\
    (forall u, u <> t -> u <> new -> tables s' !! u = tables s !! u) /\
    (share = false -> tables s' !! t = Some T) /\
    (forall f x, filps s !! f = Some x -> f_count x <> 0 -> (f_count <$> filps s' !! f) = Some (f_count x + if negb share && alloc then slots f (fd T) else 0)).
Proof.
  intros Hr Ht Hc Hco Hn. pose proof (f_reachable_inv _ _ _ Hr) as H. pose proof Ht as [Hp HT]%table_of_spec. assert (t <> new) as Hne by congruence.
  destruct (copy_files_spec p s [] t T child share alloc new H Ht Hc Hco Hn) as (r & s' & E & H' & Hrel & Hop & Hh & Hm). exists r, s'. split; [done|].
  assert (forall f x n, filps s !! f = Some x -> f_count x <> 0 -> 0 <= n -> refs s' [] f = refs s [] f + n -> (f_count <$> filps s' !! f) = Some (f_count x + n)) as Hcount.
  { intros f x k Hx Hz Hk Hrf. pose proof (fl_count _ _ (fi_filps _ _ _ H) f x Hx) as Hcx. pose proof (refs_nonneg s [] f).
    destruct (filps_get s' _ f (fi_filps _ _ _ H')) as (y & -> & Hy); [lia|]. cbn. f_equal. lia. }
  destruct share; [|destruct alloc]; cbn [negb andb] in *.
  - destruct Hm as (-> & Ek & Et). split; [split; [done|]; apply table_of_spec; rewrite Ek, Et, !lookup_insert_eq; done|].
    split; [intros u ? ?; by rewrite Et, lookup_insert_ne|]. split; [done|]. intros f x Hx Hz. apply Hcount; [done|done|done|].
    unfold refs. rewrite Et, Hop, Hh, (msum_update _ _ t T) by done. cbn. lia.
  - destruct Hm as (-> & Ek & Et). split; [split; [done|]; apply table_of_spec; rewrite Ek, Et, !lookup_insert_eq; done|].
    split; [intros u ? ?; by rewrite Et, lookup_insert_ne|]. split; [intros _; by rewrite Et, lookup_insert_ne|]. intros f x Hx Hz. apply Hcount; [done|done|apply slots_nonneg|].
    unfold refs. rewrite Et, Hop, Hh, msum_insert by done. cbn. lia.
  - destruct Hm as [-> ->]. split; [done|]. split; [done|]. split; [done|]. intros f x Hx _. rewrite Hx. cbn. by rewrite Z.add_0_r.
Qed.

Lemma fork_copies_witness : exists s', copy_files 1 ex_files 5 false true 5 = Some (0, s') /\
  table_of s' 5 = Some (5, Files 1 (fd ex_table) (close_on_exec ex_table) (open_fds ex_table)).
Proof.
  destruct (fork_copies ex_flush 10 ex_files 1 1 ex_table 5 false true 5 ex_files_reachable ltac:(vm_compute; reflexivity) ltac:(vm_compute; reflexivity)
    ltac:(vm_compute; reflexivity) ltac:(vm_compute; reflexivity)) as (r & s' & E & [-> Ht] & _).
  exists s'. split; [exact E|exact Ht].
Defined.

(** ** Observations *)

(** A descriptor that a thread is just opening is not replaced by dup2, which duplicates
    to another descriptor and answers that one. *)
Lemma dup2_while_opening : fst <$> sys_dup2 1 100 ex_flush ex_files 0 3 = Some 4.
Proof. vm_compute. reflexivity. Qed.

(** At the limit dup2 fails, but the new descriptor has been closed. *)
Lemma dup2_at_limit :
  match sys_dup2 1 2 ex_flush ex_files 0 2 with
  | Some (r, s) => r = - EMFILE /\ (fun T => fd T !! 2) <$> tables ex_files !! 1 = Some (Some 11) /\ (fun T => fd T !! 2) <$> tables s !! 1 = Some None
  | None => False
  end.
Proof. vm_compute. done. Qed.

(** A copy made while a thread is opening a file has the descriptor marked for ever: the
    process can neither use nor close it. *)
Lemma copied_reservation :
  match f_run ex_flush [(1, CFork 4 false true 4); (3, COpened 0)] ex_files with
  | Some s => opening s = ∅ /\ (fun T => (FD_ISSET 3 (open_fds T), fd T !! 3)) <$> tables s !! 4 = Some (true, None) /\ (fst <$> sys_close 4 ex_flush s 3) = Some (- EBADF)
  | None => False
  end.
Proof. vm_compute. done. Qed.

Definition default_limits : list (Z * Z) := replicate 10 (NR_OPEN, NR_OPEN).

(** A process with file 10 at every descriptor. *)
Definition full_table : fstate :=
  FState {[10 := File NR_OPEN 0 0 0]} [] [10] 1 0 4096
    {[1 := Files 1 (list_to_map ((fun i => (i, 10)) <$> seqZ 0 NR_OPEN)) (fun _ => 0) (fun _ => 0xffffffff)]} {[1 := 1]} ∅ [] [].

(** A negative limit is accepted, and dup reads it as a huge one: for a process that has
    filled its table a file pointer is then written behind the end of the array. *)
Lemma negative_limit :
  sys_setrlimit default_limits RLIMIT_NOFILE (-1) (-1) false = Some (0, <[7%nat := (-1, -1)]> default_limits) /\
  sys_dup 1 (-1) full_table 0 = None.
Proof. vm_compute. done. Qed.

(** A limit that is not negative stays within the array. *)
Lemma setrlimit_limit rlims cur max cap r rlims' : sys_setrlimit rlims RLIMIT_NOFILE cur max cap = Some (r, rlims') -> 0 <= cur ->
  r = 0 -> exists l, rlims' !! 7%nat = Some l /\ l = (cur, max) /\ limit_in cur.
Proof.
  unfold sys_setrlimit. change (RLIM_NLIMITS <=? u32 RLIMIT_NOFILE) with false. change (Z.to_nat (u32 RLIMIT_NOFILE)) with 7%nat. change (u32 RLIMIT_NOFILE =? RLIMIT_NOFILE) with true.
  cbv iota. destruct (rlims !! 7%nat) as [old|] eqn:Eo; cbn [mbind option_bind andb]; [|done]. destruct (_ && _); [by intros [= <- _]|].
  destruct ((NR_OPEN <? cur) || (NR_OPEN <? max)) eqn:E; [by intros [= <- _]|]. intros [= <- <-] Hc _. exists (cur, max).
  split; [apply list_lookup_insert_eq; by apply lookup_lt_Some in Eo|]. split; [done|]. unfold limit_in. lia.
Qed.
