(* ===== verification/Slab.v ===== *)
(** * Caches of objects: mm/slab.c

    A cache hands out objects of one size from slabs, blocks of pages that it gets from the
    page allocator.  [shape] are the constants of a cache, which [kmem_cache_create]
    computes; [kcache] is the rest of a cache with its slabs.  The slabs form a circular
    list through [s_nextp] and [s_prevp], which begins and ends at the cache itself: the
    code lays the fields [c_magic], [c_inuse], [c_firstp] and [c_lastp] of the cache out
    so that they are those of a slab, [kmem_slab_end], here the slab with address 0.  An
    object of a slab has a word, its bufctl, behind the object or in an array of its own:
    in a free object it is the address of the next free bufctl, in one that is in use the
    address of the slab or, for an array, of the object.  [words] are these words of
    memory.  The pages of a slab, and what comes from other caches, are arguments; [None]
    as a result means that the kernel follows an invalid pointer. *)

From S2P Require Import Prelude.

Definition PAGE_SIZE : Z := 4096.
Definition BYTES_PER_WORD : Z := 4.
Definition L1_CACHE_BYTES : Z := 16.
Definition L1_CACHE_ALIGN (x : Z) : Z := Z.land (u32 (x + (L1_CACHE_BYTES - 1))) (u32 (Z.lnot (L1_CACHE_BYTES - 1))).
Definition sizeof_kmem_slab : Z := 32.
Definition slab_align_size : Z := L1_CACHE_ALIGN sizeof_kmem_slab.
Definition sizeof_bufctl : Z := 4.
Definition SLAB_OBJ_MAX_ORDER : Z := 5.
Definition SLAB_MAX_GFP_ORDER : Z := 5.
Definition SLAB_MIN_OBJS_PER_SLAB : Z := 4.
Definition SLAB_NO_REAP : Z := 0x1000.
Definition SLAB_HWCACHE_ALIGN : Z := 0x2000.
Definition SLAB_CFLGS_OFF_SLAB : Z := 0x10000.
Definition SLAB_CFLGS_BUFCTL : Z := 0x20000.
Definition SLAB_C_MASK : Z := Z.lor SLAB_HWCACHE_ALIGN SLAB_NO_REAP.
Definition SLAB_C_MAGIC : Z := 0x4F17A36D.
Definition SLAB_MAGIC_ALLOC : Z := 0xA5C32F2B.
Definition SLAB_MAGIC_DESTROYED : Z := 0xB2F23C5A.
Definition SLAB_CFLGS_GROWN : Z := 2.
Definition SLAB_NO_GROW : Z := 0x1000.
Definition SLAB_LEVEL_MASK : Z := 0x7f.
Definition SLAB_ATOMIC : Z := 0x08.
Definition SLAB_DMA : Z := 0x80.

(** ** The constants of a cache *)

Record shape := Shape { c_org_size : Z; c_flags : Z; c_offset : Z; c_num : Z; c_gfporder : Z; c_align : Z; c_colour : Z }.

Definition flag (flags f : Z) : bool := negb (Z.land flags f =? 0).

Definition SLAB_OFF_SLAB (flags : Z) : bool := flag flags SLAB_CFLGS_OFF_SLAB.

Definition SLAB_BUFCTL (flags : Z) : bool := flag flags SLAB_CFLGS_BUFCTL.

(** The result is the waste, the bytes left over and the number of objects. *)
Definition kmem_cache_cal_waste (gfporder size extra flags : Z) : Z * Z * Z :=
  let wastage := Z.shiftl PAGE_SIZE gfporder in
  let mgmt := if SLAB_OFF_SLAB flags then 0 else slab_align_size in
  let wastage := wastage - mgmt in
  let num := wastage / size in
  let wastage := wastage - num * size in
  (wastage + mgmt + extra * num, wastage, num).

(** The loop of [kmem_cache_create] that looks for the size of a slab: the result is the
    order of its block of pages, the bytes left over and the number of objects. *)
Fixpoint choose_order (fuel : nat) (gfporder size extra flags bufctl_limit break_order : Z) : option (Z * Z * Z) :=
  match fuel with
  | O => None
  | S fuel =>
    let next order := choose_order fuel (order + 1) size extra flags bufctl_limit break_order in
    let '(wastage, left_over, num) := kmem_cache_cal_waste gfporder size extra flags in
    if num =? 0 then next gfporder
    else if SLAB_BUFCTL flags && (bufctl_limit <? num) then
      let gfporder := u32 (gfporder - 1) in
      let '(_, left_over, num) := kmem_cache_cal_waste gfporder size extra flags in
      if num =? 0 then next gfporder else Some (gfporder, left_over, num)
    else if gfporder =? SLAB_MAX_GFP_ORDER then Some (gfporder, left_over, num)
    else if (num <=? SLAB_MIN_OBJS_PER_SLAB) && (gfporder <? break_order) then next gfporder
    else if left_over <=? slab_align_size then Some (gfporder, left_over, num)
    else if wastage * 8 <=? Z.shiftl PAGE_SIZE gfporder then Some (gfporder, left_over, num)
    else next gfporder
  end.

(** The alignment of the size, and the flags. *)
Definition align_size (size flags : Z) : Z * Z * Z :=
  let align := if flag flags SLAB_HWCACHE_ALIGN then L1_CACHE_BYTES else BYTES_PER_WORD in
  if flag flags SLAB_HWCACHE_ALIGN then
    if L1_CACHE_BYTES / 2 <? size then
      let words := size mod L1_CACHE_BYTES in
      ((if words =? 0 then size else size + (L1_CACHE_BYTES - words)), flags, align)
    else
      let num_per_line := L1_CACHE_BYTES / size in
      let left_over := L1_CACHE_BYTES - num_per_line * size in
      if left_over =? 0 then (size, flags, align)
      else
        let '(num_per_line, left_over) :=
          if left_over mod num_per_line =? 0 then (num_per_line, left_over) else (num_per_line - 1, left_over + size) in
        (size + left_over / num_per_line, flags, align)
  else if size mod L1_CACHE_BYTES =? 0 then (size, Z.lor flags SLAB_HWCACHE_ALIGN, L1_CACHE_BYTES)
  else (size, flags, align).

(** The distance between the colours of slabs. *)
Definition colour_offset (offset left_over align flags : Z) : Z :=
  let offset := Z.land (u32 (offset + (align - 1))) (u32 (Z.lnot (align - 1))) in
  if left_over =? 0 then 0
  else if left_over <? offset then
    if flag flags SLAB_HWCACHE_ALIGN then if left_over <? align then 0 else align
    else if BYTES_PER_WORD * 2 <=? left_over then
      if BYTES_PER_WORD * 4 <=? left_over then Z.shiftr (Z.shiftr align 1) 1 else Z.shiftr align 1
    else align
  else if offset =? 0 then
    let n := left_over / align in
    if flag flags SLAB_HWCACHE_ALIGN then if 8 <=? n then Z.shiftl align 1 else align
    else if 10 <=? n then if 16 <=? n then Z.shiftl (Z.shiftl align 1) 1 else Z.shiftl align 1 else align
  else offset.

(** [kmem_cache_create] up to the point at which the new cache is empty; [None] when it
    refuses, or does not end.  [bufctl_limit] and [break_order] are the variables of the
    file, [ctor] and [dtor] whether there are such functions. *)
Definition cache_shape (size offset flags bufctl_limit break_order : Z) (ctor dtor : bool) : option shape :=
  let size := if size <? BYTES_PER_WORD then BYTES_PER_WORD else size in
  if Z.shiftl 1 SLAB_OBJ_MAX_ORDER * PAGE_SIZE <? size then None
  else if dtor && negb ctor then None
  else
    let offset := if (offset <? 0) || (size <? offset) then 0 else offset in
    let flags := Z.land flags SLAB_C_MASK in
    let size := if Z.land size (BYTES_PER_WORD - 1) =? 0 then size
                else Z.land (u32 (size + (BYTES_PER_WORD - 1))) (u32 (Z.lnot (BYTES_PER_WORD - 1))) in
    let org_size := size in
    let '(flags, extra) :=
      if size <? Z.shiftr PAGE_SIZE 3 then (flags, sizeof_bufctl)
      else
        let flags := Z.lor flags SLAB_CFLGS_OFF_SLAB in
        if (Z.land size (PAGE_SIZE - 1) =? 0) || (size =? PAGE_SIZE / 2) || (size =? PAGE_SIZE / 4) || (size =? PAGE_SIZE / 8)
        then (Z.lor flags SLAB_CFLGS_BUFCTL, 0) else (flags, sizeof_bufctl) in
    let size := size + extra in
    let '(size, flags, align) := align_size size flags in
    '(order, left_over, num) ← choose_order 6 0 size extra flags bufctl_limit break_order;
    let '(flags, left_over) :=
      if SLAB_OFF_SLAB flags && negb (SLAB_BUFCTL flags) && (slab_align_size <=? left_over)
      then (Z.land flags (u32 (Z.lnot SLAB_CFLGS_OFF_SLAB)), left_over - slab_align_size) else (flags, left_over) in
    let offset := colour_offset offset left_over align flags in
    let colour := if offset =? 0 then 0 else left_over / offset in
    let size := if SLAB_BUFCTL flags then size else size - sizeof_bufctl in
    Some (Shape org_size flags size num order offset colour).

(** ** The general caches of [kmalloc] *)

Definition SLAB_CFLGS_GENERAL : Z := 0x80000.

Definition cache_sizes : list Z := [32; 64; 128; 256; 512; 1024; 2048; 4096; 8192; 16384; 32768; 65536; 131072].

(** The loop of [kmem_cache_sizes_init]: the caches, and the limit of an array of bufctls,
    which grows until the first cache that has such arrays. *)
Fixpoint sizes_init (sizes : list Z) (bufctl_limit break_order : Z) (found : bool) : option (list shape * Z) :=
  match sizes with
  | [] => Some ([], bufctl_limit)
  | size :: sizes =>
    c ← cache_shape size 0 SLAB_HWCACHE_ALIGN bufctl_limit break_order false false;
    let '(bufctl_limit, found) :=
      if found then (bufctl_limit, true)
      else if SLAB_BUFCTL (c_flags c) then (bufctl_limit, true) else (size / sizeof_bufctl, false) in
    let c := Shape (c_org_size c) (Z.lor (c_flags c) SLAB_CFLGS_GENERAL) (c_offset c) (c_num c) (c_gfporder c) (c_align c) (c_colour c) in
    '(cs, bufctl_limit) ← sizes_init sizes bufctl_limit break_order found;
    Some (c :: cs, bufctl_limit)
  end.

(** The loop of [kmalloc] and [kmem_find_general_cachep]: the number of the cache. *)
Fixpoint general_cache (sizes : list Z) (n : nat) (size : Z) : option nat :=
  match sizes with
  | [] => None
  | cs :: sizes => if cs <? size then general_cache sizes (S n) size else Some n
  end.

Definition kmalloc_cache (size : Z) : option nat := general_cache cache_sizes 0 size.

(** ** A cache and its slabs *)

Record slab := Slab { s_freep : Z; s_index : Z; s_magic : Z; s_inuse : Z; s_mem : Z; s_offset : Z; s_dma : bool }.

Record kcache := KCache {
  slabs : gmap Z slab; s_nextp : gmap Z Z; s_prevp : gmap Z Z;
  c_freep : Z; c_growing : Z; c_dflags : Z; c_colour_next : Z;
  words : gmap Z Z; page_slab : gmap Z Z }.

Definition kmem_slab_end : Z := 0.

Definition c_firstp (k : kcache) : option Z := s_nextp k !! kmem_slab_end.

Definition c_lastp (k : kcache) : option Z := s_prevp k !! kmem_slab_end.

Definition set_slabs (k : kcache) (m : gmap Z slab) : kcache :=
  KCache m (s_nextp k) (s_prevp k) (c_freep k) (c_growing k) (c_dflags k) (c_colour_next k) (words k) (page_slab k).

Definition set_links (k : kcache) (n p : gmap Z Z) : kcache :=
  KCache (slabs k) n p (c_freep k) (c_growing k) (c_dflags k) (c_colour_next k) (words k) (page_slab k).

Definition set_freep (k : kcache) (p : Z) : kcache :=
  KCache (slabs k) (s_nextp k) (s_prevp k) p (c_growing k) (c_dflags k) (c_colour_next k) (words k) (page_slab k).

Definition set_growth (k : kcache) (growing dflags next : Z) : kcache :=
  KCache (slabs k) (s_nextp k) (s_prevp k) (c_freep k) growing dflags next (words k) (page_slab k).

Definition set_words (k : kcache) (w : gmap Z Z) : kcache :=
  KCache (slabs k) (s_nextp k) (s_prevp k) (c_freep k) (c_growing k) (c_dflags k) (c_colour_next k) w (page_slab k).

Definition set_pages (k : kcache) (m : gmap Z Z) : kcache :=
  KCache (slabs k) (s_nextp k) (s_prevp k) (c_freep k) (c_growing k) (c_dflags k) (c_colour_next k) (words k) m.

Definition put_slab (k : kcache) (p : Z) (s : slab) : kcache := set_slabs k (<[p := s]> (slabs k)).

(** A new cache: the slab that the cache itself stands for is the only one; [dma] is the
    bit that its place for [s_dma] happens to hold. *)
Definition empty_cache (c : shape) (dma : bool) : kcache :=
  KCache {[kmem_slab_end := Slab (c_offset c) (c_num c) SLAB_C_MAGIC 0 0 0 dma]}
    {[kmem_slab_end := kmem_slab_end]} {[kmem_slab_end := kmem_slab_end]} kmem_slab_end 0 0 (c_colour c) ∅ ∅.

(** ** The chain of slabs *)

Definition kmem_slab_unlink (k : kcache) (slabp : Z) : option kcache :=
  prevp ← s_prevp k !! slabp;
  nextp ← s_nextp k !! slabp;
  Some (set_links k (<[prevp := nextp]> (s_nextp k)) (<[nextp := prevp]> (s_prevp k))).

Definition kmem_slab_link_end (k : kcache) (slabp : Z) : option kcache :=
  lastp ← c_lastp k;
  let next := <[slabp := kmem_slab_end]> (s_nextp k) in
  let prev := <[slabp := lastp]> (s_prevp k) in
  let prev := <[kmem_slab_end := slabp]> prev in
  let next := <[lastp := slabp]> next in
  Some (set_links k next prev).

Definition kmem_slab_link_free (k : kcache) (slabp : Z) : option kcache :=
  let nextp := c_freep k in
  prevp ← s_prevp k !! nextp;
  let next := <[slabp := nextp]> (s_nextp k) in
  let prev := <[slabp := prevp]> (s_prevp k) in
  let prev := <[nextp := slabp]> prev in
  prevp ← prev !! slabp;
  Some (set_links k (<[prevp := slabp]> next) prev).

Section Cache.
Context (c : shape).

(** The distance between objects. *)
Definition stride : Z := if SLAB_BUFCTL (c_flags c) then c_offset c else c_offset c + sizeof_bufctl.

(** ** Growing *)

(** The loop of [kmem_cache_init_objs]: [n] more objects, from [objp] on; [bufp] is the
    place of the last link, 0 for [s_freep].  The result are the first link, and the
    words. *)
Fixpoint init_objs (n : nat) (index objp : Z) (w : gmap Z Z) : Z * gmap Z Z :=
  match n with
  | O => (0, w)
  | S num =>
    let objp := objp + c_offset c in
    let bufp := if index =? 0 then objp else index + sizeof_bufctl * Z.of_nat num in
    let objp := if index =? 0 then objp + sizeof_bufctl else objp in
    let '(link, w) := init_objs num index objp w in
    (bufp, <[bufp := link]> w)
  end.

(** Where the management of a slab is: [mgmt] is what the cache of such structures
    answers, 0 for none. *)
Definition kmem_cache_slabmgmt (objp mgmt : Z) : Z :=
  if SLAB_OFF_SLAB (c_flags c) then mgmt
  else L1_CACHE_ALIGN (objp + c_num c * c_offset c + (if SLAB_BUFCTL (c_flags c) then 0 else c_num c * sizeof_bufctl)).

(** [kmem_cache_grow] up to the point where it gives up the lock of the cache: the place
    of the first object in the slab.  Growth is refused with SLAB_NO_GROW. *)
Definition grow_start (k : kcache) (flags : Z) : option Z * kcache :=
  if flag flags SLAB_NO_GROW then (None, k)
  else
    let offset := c_colour_next k in
    let next := if offset =? 0 then c_colour c else c_colour_next k - 1 in
    (Some (offset * c_align c), set_growth k (c_growing k + 1) SLAB_CFLGS_GROWN next).

(** The pages from number [nr] on belong to slab [slabp]. *)
Fixpoint set_page_slab (n : nat) (nr slabp : Z) (m : gmap Z Z) : gmap Z Z :=
  match n with O => m | S n => set_page_slab n (nr + 1) slabp (<[nr := slabp]> m) end.

Definition MAP_NR (addr : Z) : Z := Z.shiftr addr 12.

(** The rest of it: [pages] is the address of the new pages, 0 for none, and [dma] whether
    they are all fit for DMA; [index] is the array of bufctls, when the cache has them
    apart.  The constructor is called for each object, and what could be had is given
    back when something is missing. *)
Definition grow_finish (k : kcache) (offset pages : Z) (dma : bool) (mgmt index : Z) : option (bool * kcache) :=
  let k' := set_growth k (c_growing k - 1) (c_dflags k) (c_colour_next k) in
  if pages =? 0 then Some (false, k')
  else
    let slabp := kmem_cache_slabmgmt (pages + offset) mgmt in
    if slabp =? 0 then Some (false, k')
    else
      let index := if SLAB_BUFCTL (c_flags c) then index else 0 in
      if SLAB_BUFCTL (c_flags c) && (index =? 0) then Some (false, k')
      else
        let k := set_pages k (set_page_slab (Z.to_nat (Z.shiftl 1 (c_gfporder c))) (MAP_NR pages) slabp (page_slab k)) in
        let mem := pages + offset in
        let '(freep, w) := init_objs (Z.to_nat (c_num c)) index mem (words k) in
        let k := set_words k w in
        let k := put_slab k slabp (Slab freep index SLAB_MAGIC_ALLOC 0 mem offset dma) in
        k ← kmem_slab_link_end k slabp;
        let k := if c_freep k =? kmem_slab_end then set_freep k slabp else k in
        Some (true, set_growth k (c_growing k - 1) (c_dflags k) (c_colour_next k)).

(** ** Allocation *)

(** The loop of [kmem_cache_search_dma], one step for each slab. *)
Fixpoint dma_slab (fuel : nat) (k : kcache) (slabp : Z) : option Z :=
  if slabp =? kmem_slab_end then Some slabp
  else match fuel with
  | O => None
  | S fuel =>
    s ← slabs k !! slabp;
    if s_dma s then Some slabp else next ← s_nextp k !! slabp; dma_slab fuel k next
  end.

Definition kmem_cache_search_dma (k : kcache) : option (Z * kcache) :=
  first ← s_nextp k !! c_freep k;
  slabp ← dma_slab (size (slabs k)) k first;
  if slabp =? kmem_slab_end then Some (slabp, k)
  else
    k ← kmem_slab_unlink k slabp;
    k ← kmem_slab_link_free k slabp;
    Some (slabp, set_freep k slabp).

(** The object is taken from slab [slabp]. *)
Definition take_object (k : kcache) (slabp : Z) : option (Z * kcache) :=
  s ← slabs k !! slabp;
  let bufp := s_freep s in
  next ← words k !! bufp;
  let k := put_slab k slabp (Slab next (s_index s) (s_magic s) (s_inuse s + 1) (s_mem s) (s_offset s) (s_dma s)) in
  k ← (if negb (next =? 0) then Some k else nextp ← s_nextp k !! slabp; Some (set_freep k nextp));
  if s_index s =? 0 then
    Some (bufp - c_offset c, set_words k (<[bufp := slabp]> (words k)))
  else
    let objp := (bufp - s_index s) / sizeof_bufctl * c_offset c + s_mem s in
    Some (objp, set_words k (<[bufp := objp]> (words k))).

(** The answer of a try: an object, the need for a new slab, or that the slab is not one
    (which is reported, and the call then answers NULL). *)
Inductive answer := Object (objp : Z) | Grow | Corrupt.

(** One try of [__kmem_cache_alloc] with the lock of the cache. *)
Definition alloc_try (k : kcache) (flags : Z) : option (answer * kcache) :=
  let take k slabp := '(objp, k) ← take_object k slabp; Some (Object objp, k) in
  let slabp := c_freep k in
  s ← slabs k !! slabp;
  if negb (s_magic s =? SLAB_MAGIC_ALLOC) then
    Some (if slabp =? kmem_slab_end then Grow else Corrupt, k)
  else if flag flags SLAB_DMA && negb (s_dma s) then
    '(slabp, k) ← kmem_cache_search_dma k;
    if slabp =? kmem_slab_end then Some (Grow, k) else take k slabp
  else take k slabp.

(** What follows a failure to grow: whether to try again. *)
Definition alloc_again (k : kcache) (flags : Z) : bool :=
  negb (c_freep k =? kmem_slab_end) && negb (flag flags SLAB_ATOMIC).

(** ** Freeing *)

Definition kmem_cache_full_free (k : kcache) (slabp : Z) : option kcache :=
  nextp ← s_nextp k !! slabp;
  n ← slabs k !! nextp;
  if negb (s_inuse n =? 0) then
    let k := if c_freep k =? slabp then set_freep k nextp else k in
    k ← kmem_slab_unlink k slabp;
    kmem_slab_link_end k slabp
  else Some k.

Definition kmem_cache_one_free (k : kcache) (slabp : Z) : option kcache :=
  nextp ← s_nextp k !! slabp;
  n ← slabs k !! nextp;
  k ← (if s_inuse n =? c_num c then k ← kmem_slab_unlink k slabp; kmem_slab_link_free k slabp else Some k);
  Some (set_freep k slabp).

(** [__kmem_cache_free]: the result says whether the object was freed; a bad address is
    reported, or makes the kernel stop. *)
Definition kmem_cache_free (k : kcache) (objp : Z) : option (bool * kcache) :=
  if objp =? 0 then Some (false, k)
  else
    '(slabp, bufp) ←
      (if SLAB_BUFCTL (c_flags c) then
         slabp ← page_slab k !! MAP_NR objp;
         s ← slabs k !! slabp;
         let bufp := s_index s + sizeof_bufctl * ((objp - s_mem s) / c_offset c) in
         Some (slabp, bufp)
       else slabp ← words k !! (objp + c_offset c); Some (slabp, objp + c_offset c));
    w ← words k !! bufp;
    if SLAB_BUFCTL (c_flags c) && negb (w =? objp) then Some (false, k)
    else
      s ← slabs k !! slabp;
      if negb (s_magic s =? SLAB_MAGIC_ALLOC) then None
      else if s_inuse s =? 0 then Some (false, k)
      else
        let inuse := s_inuse s - 1 in
        let k := set_words k (<[bufp := s_freep s]> (words k)) in
        let k := put_slab k slabp (Slab bufp (s_index s) (s_magic s) inuse (s_mem s) (s_offset s) (s_dma s)) in
        k ← (if negb (s_freep s =? 0) then
               if negb (inuse =? 0) then Some k else kmem_cache_full_free k slabp
             else kmem_cache_one_free k slabp);
        Some (true, k).

(** ** Giving pages back *)

(** The slab is not on the chain any more. *)
Definition kmem_slab_destroy (k : kcache) (slabp : Z) : kcache :=
  match slabs k !! slabp with
  | Some s => put_slab k slabp (Slab (s_freep s) (s_index s) SLAB_MAGIC_DESTROYED (s_inuse s) (s_mem s) (s_offset s) (s_dma s))
  | None => k
  end.

(** One turn of the loop of [kmem_cache_shrink]: false when there is no slab to give up. *)
Definition shrink_turn (k : kcache) : option (bool * kcache) :=
  if negb (c_growing k =? 0) then Some (false, k)
  else
    slabp ← c_lastp k;
    s ← slabs k !! slabp;
    if negb (s_inuse s =? 0) || (slabp =? kmem_slab_end) then Some (false, k)
    else k ← kmem_slab_unlink k slabp; Some (true, kmem_slab_destroy k slabp).

(** The loop of [kmem_cache_reap] that looks for a slab fit for DMA. *)
Fixpoint reap_dma (fuel : nat) (k : kcache) (slabp : Z) : option (option Z) :=
  match fuel with
  | O => None
  | S fuel =>
    s ← slabs k !! slabp;
    if s_dma s then Some (Some slabp)
    else
      prev ← s_prevp k !! slabp;
      s ← slabs k !! prev;
      if (s_inuse s =? 0) && negb (prev =? kmem_slab_end) then reap_dma fuel k prev else Some None
  end.

(** One turn of the loop of [kmem_cache_reap] over the slabs of the chosen cache. *)
Definition reap_turn (k : kcache) (gfp_dma : bool) : option (bool * kcache) :=
  if negb (c_growing k =? 0) then Some (false, k)
  else
    slabp ← c_lastp k;
    s ← slabs k !! slabp;
    if negb (s_inuse s =? 0) || (slabp =? kmem_slab_end) then Some (false, k)
    else
      r ← (if gfp_dma then reap_dma (size (slabs k)) k slabp else Some (Some slabp));
      match r with
      | None => Some (false, k)
      | Some slabp =>
        k ← (if slabp =? c_freep k then next ← s_nextp k !! slabp; Some (set_freep k next) else Some k);
        k ← kmem_slab_unlink k slabp;
        Some (true, kmem_slab_destroy k slabp)
      end.

(** The loop of [kmem_cache_reap] that counts the free slabs of a cache, and those that it
    takes for fit for DMA. *)
Fixpoint count_free (fuel : nat) (k : kcache) (slabp full_free dma_flag : Z) : option (Z * Z) :=
  s ← slabs k !! slabp;
  if (s_inuse s =? 0) && negb (slabp =? kmem_slab_end) then
    match fuel with
    | O => None
    | S fuel =>
      slabp ← s_prevp k !! slabp;
      s ← slabs k !! slabp;
      count_free fuel k slabp (full_free + 1) (if s_dma s then dma_flag + 1 else dma_flag)
    end
  else Some (full_free, dma_flag).

End Cache.
