(* ===== verification/SlabProof.v ===== *)
(** * Caches of objects: the chain of slabs and the free objects *)

From stdpp Require Import functions.
From S2P Require Import Prelude LockBlocks RunQueue Slab.

(** ** The chain

    The ring of [RunQueue] that starts and ends at the cache; a slab that is not on the
    chain may have any links. *)

Definition links (k : kcache) : runqueue := Runqueue (s_nextp k) (s_prevp k).

Record chain (k : kcache) (l : list Z) : Prop := {
  ch_nodup : NoDup (kmem_slab_end :: l);
  ch_linked : Forall (run_linked (links k)) (edges l) }.

Lemma chain_ext k k' l : s_nextp k' = s_nextp k -> s_prevp k' = s_prevp k -> chain k l -> chain k' l.
Proof. intros E1 E2 [H1 H2]. split; [done|]. unfold links. by rewrite E1, E2. Qed.

Lemma chain_last k l : chain k l -> c_lastp k = Some (tail_of kmem_slab_end l).
Proof. intros [_ Hl]. destruct (edges_snoc l) as [A E]. rewrite E in Hl. apply Forall_app in Hl as [_ [[_ H] _]%Forall_cons]. exact H. Qed.

Lemma chain_split k a p r : chain k (a ++ p :: r) -> exists A B,
  let x := tail_of kmem_slab_end a in let y := head_of kmem_slab_end r in
  edges (a ++ p :: r) = A ++ (x, p) :: (p, y) :: B /\ edges (a ++ r) = A ++ (x, y) :: B /\
  s_prevp k !! p = Some x /\ s_nextp k !! p = Some y /\ x <> p /\ y <> p.
Proof.
  intros [Hnd Hl]. destruct (edges_split init_task a p r) as (A & B & x & y & E1 & E2 & -> & ->).
  exists A, B. split; [done|]. split; [done|]. unfold edges in Hl. rewrite E1 in Hl.
  apply Forall_app in Hl as [_ [[H1 H2] [[H3 H4] _]%Forall_cons]%Forall_cons]. cbn in H1, H2, H3, H4.
  assert (p ∉ kmem_slab_end :: a ++ r) as Hp. { rewrite <- Permutation_middle in Hnd. rewrite !NoDup_cons in Hnd. set_solver. }
  split; [done|]. split; [done|]. pose proof (tail_of_in a). pose proof (head_of_in r). unfold init_task, kmem_slab_end in *. split; intros E; set_solver.
Qed.

Lemma chain_next k a p r : chain k (a ++ p :: r) -> s_nextp k !! p = Some (head_of kmem_slab_end r).
Proof. intros H. by destruct (chain_split k a p r H) as (A & B & _ & _ & _ & ? & _). Qed.

Lemma chain_prev k a p r : chain k (a ++ p :: r) -> s_prevp k !! p = Some (tail_of kmem_slab_end a).
Proof. intros H. by destruct (chain_split k a p r H) as (A & B & _ & _ & ? & _). Qed.

Lemma chain_not_in k a p r : chain k (a ++ p :: r) -> p ∉ kmem_slab_end :: a ++ r.
Proof. intros [Hnd _]. rewrite <- Permutation_middle in Hnd. rewrite !NoDup_cons in Hnd. set_solver. Qed.

Lemma unlink_ok k a p r : chain k (a ++ p :: r) -> exists k', kmem_slab_unlink k p = Some k' /\ chain k' (a ++ r) /\
  exists n q, k' = set_links k n q.
Proof.
  intros H. destruct (chain_split k a p r H) as (A & B & E1 & E2 & Hp & Hn & Hx & Hy). unfold kmem_slab_unlink. rewrite Hp, Hn. cbn [mbind option_bind].
  eexists. split; [done|]. split; [|by eexists _, _]. destruct H as [Hnd Hl]. destruct (edges_nodup _ Hnd) as [N1 N2]. rewrite E1 in Hl, N1, N2. split.
  - rewrite <- Permutation_middle in Hnd. rewrite NoDup_cons in *. rewrite NoDup_cons in Hnd. set_solver.
  - rewrite E2. eapply edges_remove; try done; cbn; try by simplify_map_eq.
    + intros z Hz1 Hz2. by rewrite lookup_insert_ne.
    + intros z Hz1 Hz2. by rewrite lookup_insert_ne.
Qed.

(** A slab is linked in between two others. *)
Lemma link_between k a p r n q : chain k (a ++ r) -> p ∉ kmem_slab_end :: a ++ r ->
  n = <[tail_of kmem_slab_end a := p]> (<[p := head_of kmem_slab_end r]> (s_nextp k)) ->
  q = <[head_of kmem_slab_end r := p]> (<[p := tail_of kmem_slab_end a]> (s_prevp k)) ->
  chain (set_links k n q) (a ++ p :: r).
Proof.
  intros [Hnd Hl] Hp -> ->. destruct (edges_split init_task a p r) as (A & B & x & y & E1 & E2 & -> & ->).
  destruct (edges_nodup _ Hnd) as [N1 N2]. destruct (not_edge p _ Hp) as [Q1 Q2]. pose proof (tail_of_in a) as Hx. pose proof (head_of_in r) as Hy.
  assert (p <> tail_of init_task a /\ p <> head_of init_task r) as [P1 P2] by (unfold init_task, kmem_slab_end in *; split; intros E; set_solver).
  split; [rewrite <- Permutation_middle; rewrite !NoDup_cons in *; set_solver|]. unfold edges in *. rewrite E1. rewrite E2 in *.
  eapply edges_insert; try done; cbn; unfold init_task, kmem_slab_end in *; try by simplify_map_eq.
  - intros z Hz1 Hz2. by rewrite !lookup_insert_ne.
  - intros z Hz1 Hz2. by rewrite !lookup_insert_ne.
Qed.

Lemma link_end_ok k l p : chain k l -> p ∉ kmem_slab_end :: l -> exists k', kmem_slab_link_end k p = Some k' /\ chain k' (l ++ [p]) /\
  exists n q, k' = set_links k n q.
Proof.
  intros H Hp. unfold kmem_slab_link_end. rewrite (chain_last k l H). cbn [mbind option_bind]. eexists. split; [done|]. split; [|by eexists _, _].
  by apply link_between; rewrite ?app_nil_r.
Qed.

Lemma link_free_ok k a r p : chain k (a ++ r) -> c_freep k = head_of kmem_slab_end r -> p ∉ kmem_slab_end :: a ++ r ->
  exists k', kmem_slab_link_free k p = Some k' /\ chain k' (a ++ p :: r) /\ exists n q, k' = set_links k n q.
Proof.
  intros H Hf Hp. unfold kmem_slab_link_free. rewrite Hf.
  assert (s_prevp k !! head_of kmem_slab_end r = Some (tail_of kmem_slab_end a)) as E.
  { destruct r as [|x r]; cbn; [rewrite app_nil_r in H; by apply chain_last|by eapply chain_prev]. }
  rewrite E. cbn [mbind option_bind]. pose proof (head_of_in r) as Hh. assert (p <> head_of kmem_slab_end r) as Hne by (unfold init_task, kmem_slab_end in *; intros ->; set_solver).
  rewrite lookup_insert_ne by done. rewrite lookup_insert_eq. cbn [mbind option_bind]. eexists. split; [done|]. split; [|by eexists _, _].
  by apply link_between.
Qed.

(** ** The objects of a slab *)

Section Cache.
Context (c : shape).

(** The bytes of a slab. *)
Definition span : Z := Z.shiftl PAGE_SIZE (c_gfporder c).

(** The bytes that the management of a slab takes of it. *)
Definition mgmt_size : Z := if SLAB_OFF_SLAB (c_flags c) then 0 else slab_align_size.

(** The objects of a slab, at any colour, lie within its pages, and leave room for its
    management. *)
Record shape_ok : Prop := {
  sh_num : 1 <= c_num c;
  sh_offset : BYTES_PER_WORD <= c_offset c;
  sh_order : 0 <= c_gfporder c;
  sh_align : 0 <= c_align c;
  sh_colour : 0 <= c_colour c;
  sh_fits : c_colour c * c_align c + c_num c * stride c + mgmt_size <= span }.

Hypothesis shape_fits : shape_ok.

Definition base (s : slab) : Z := s_mem s - s_offset s.

Definition obj_addr (s : slab) (i : Z) : Z := s_mem s + i * stride c.

Definition buf_addr (s : slab) (i : Z) : Z :=
  if SLAB_BUFCTL (c_flags c) then s_index s + sizeof_bufctl * i else obj_addr s i + c_offset c.

Definition object_no (i : Z) : Prop := 0 <= i < c_num c.

(** The free objects of a slab, linked through their bufctls. *)
Fixpoint free_list (w : gmap Z Z) (s : slab) (p : Z) (fl : list Z) : Prop :=
  match fl with
  | [] => p = 0
  | i :: fl => p = buf_addr s i /\ exists n, w !! p = Some n /\ free_list w s n fl
  end.

(** Slab [p] has the free objects [fl]; the bufctls of the others point back. *)
Record slab_ok (w pages : gmap Z Z) (p : Z) (s : slab) (fl : list Z) : Prop := {
  so_magic : s_magic s = SLAB_MAGIC_ALLOC;
  so_list : free_list w s (s_freep s) fl;
  so_nodup : NoDup fl;
  so_range : Forall object_no fl;
  so_inuse : s_inuse s = c_num c - Z.of_nat (length fl);
  so_base : 0 < base s /\ base s mod PAGE_SIZE = 0;
  so_fits : 0 <= s_offset s /\ s_offset s + c_num c * stride c + mgmt_size <= span;
  so_self : SLAB_OFF_SLAB (c_flags c) = false -> base s <= p < base s + span;
  so_index : if SLAB_BUFCTL (c_flags c) then 0 < s_index s else s_index s = 0;
  so_used i : object_no i -> i ∉ fl -> w !! buf_addr s i = Some (if SLAB_BUFCTL (c_flags c) then obj_addr s i else p);
  so_pages nr : MAP_NR (base s) <= nr < MAP_NR (base s) + Z.shiftl 1 (c_gfporder c) -> pages !! nr = Some p }.

(** Two slabs have pages of their own, and arrays of bufctls of their own. *)
Definition apart (s t : slab) : Prop :=
  (base s + span <= base t \/ base t + span <= base s) /\
  (SLAB_BUFCTL (c_flags c) = true -> s_index s + sizeof_bufctl * c_num c <= s_index t \/ s_index t + sizeof_bufctl * c_num c <= s_index s).

(** The slabs [l] of the chain, with free objects [F]; [g] are the places of the first
    object in the slabs that calls in progress are about to add. *)
Record core (k : kcache) (g l : list Z) (F : Z -> list Z) : Prop := {
  co_chain : chain k l;
  co_end : exists e, slabs k !! kmem_slab_end = Some e /\ s_magic e = SLAB_C_MAGIC /\ s_inuse e = 0;
  co_slab p : p ∈ l -> exists s, slabs k !! p = Some s /\ slab_ok (words k) (page_slab k) p s (F p);
  co_apart p q s t : p ∈ l -> q ∈ l -> p <> q -> slabs k !! p = Some s -> slabs k !! q = Some t -> apart s t;
  co_growing : c_growing k = Z.of_nat (length g);
  co_places : Forall (fun o => 0 <= o /\ o + c_num c * stride c + mgmt_size <= span) g;
  co_next : 0 <= c_colour_next k <= c_colour c }.

Lemma stride_pos : 4 <= stride c /\ c_offset c <= stride c.
Proof. destruct shape_fits. unfold stride, sizeof_bufctl, BYTES_PER_WORD in *. case_match; lia. Qed.

Lemma mgmt_pos : 0 <= mgmt_size.
Proof. unfold mgmt_size. case_match; [done|by vm_compute]. Qed.

Lemma obj_range i : object_no i -> 0 <= i * stride c /\ i * stride c + stride c <= c_num c * stride c.
Proof. intros [H1 H2]. pose proof stride_pos. nia. Qed.

Lemma buf_in w pg p s fl i : slab_ok w pg p s fl -> object_no i ->
  0 < buf_addr s i /\ (if SLAB_BUFCTL (c_flags c) then s_index s <= buf_addr s i < s_index s + sizeof_bufctl * c_num c
    else base s <= buf_addr s i < base s + span).
Proof.
  intros H Hi. pose proof (obj_range i Hi). pose proof stride_pos. pose proof mgmt_pos. pose proof (so_base _ _ _ _ _ H). pose proof (so_fits _ _ _ _ _ H). pose proof (so_index _ _ _ _ _ H).
  destruct Hi. unfold buf_addr, obj_addr, base, sizeof_bufctl in *. unfold stride, sizeof_bufctl in *. destruct (SLAB_BUFCTL (c_flags c)); split; lia.
Qed.

Lemma buf_inj s i j : buf_addr s i = buf_addr s j -> i = j.
Proof. pose proof stride_pos. unfold buf_addr, obj_addr, sizeof_bufctl. case_match; intros; nia. Qed.

Lemma buf_apart w pg p q s t fl gl i j : slab_ok w pg p s fl -> slab_ok w pg q t gl -> apart s t -> object_no i -> object_no j -> buf_addr s i <> buf_addr t j.
Proof.
  intros Hs Ht [Ha Hb] Hi Hj. destruct (buf_in _ _ _ _ _ _ Hs Hi) as [_ H1]. destruct (buf_in _ _ _ _ _ _ Ht Hj) as [_ H2].
  destruct (SLAB_BUFCTL (c_flags c)); [specialize (Hb eq_refl)|]; lia.
Qed.

Lemma free_list_upd w s p fl x v : free_list w s p fl -> (forall i, i ∈ fl -> buf_addr s i <> x) -> free_list (<[x := v]> w) s p fl.
Proof.
  revert p. induction fl as [|i fl IH]; intros p; [done|]. cbn. intros (-> & n & Hw & Hl) Hx. split; [done|]. exists n.
  split; [|apply IH; [done|]; intros j Hj; apply Hx; by right]. rewrite lookup_insert_ne; [done|]. intros E. by apply (Hx i); [left|].
Qed.

(** The free list depends only on where the objects are. *)
Lemma free_list_same w s s' p fl : s_mem s' = s_mem s -> s_index s' = s_index s -> free_list w s p fl -> free_list w s' p fl.
Proof.
  intros E1 E2. assert (forall i, buf_addr s' i = buf_addr s i) as E by (intros i; unfold buf_addr, obj_addr; by rewrite E1, E2).
  revert p. induction fl as [|i fl IH]; intros p; [done|]. cbn. intros (-> & n & Hw & Hl). rewrite E. split; [done|]. exists n. auto.
Qed.

(** A bufctl of one slab changes: the other slabs are as before. *)
Lemma slab_ok_other w pg p q s t fl gl i v : slab_ok w pg p s fl -> slab_ok w pg q t gl -> apart s t -> object_no i ->
  slab_ok (<[buf_addr s i := v]> w) pg q t gl.
Proof.
  intros Hs Ht Ha Hi. pose proof (fun j Hj => buf_apart _ _ _ _ _ _ _ _ i j Hs Ht Ha Hi Hj) as Hne. pose proof Ht as []. constructor; try done.
  - apply free_list_upd; [done|]. intros j Hj. rewrite Forall_forall in so_range0. intros E. by apply (Hne j); [apply so_range0|].
  - intros j Hj Hn. rewrite lookup_insert_ne by (by apply Hne). auto.
Qed.

(** One slab and one of its bufctls change. *)
Definition touch (k : kcache) (p x v : Z) (s : slab) : kcache := set_words (put_slab k p s) (<[x := v]> (words k)).

Lemma core_touch k g l F p s s' i v fl : core k g l F -> p ∈ l -> slabs k !! p = Some s -> object_no i ->
  s_mem s' = s_mem s -> s_offset s' = s_offset s -> s_index s' = s_index s ->
  slab_ok (<[buf_addr s i := v]> (words k)) (page_slab k) p s' fl ->
  core (touch k p (buf_addr s i) v s') g l (<[p := fl]> F).
Proof.
  intros H Hp Hs Hi E1 E2 E3 Hok. pose proof H as []. assert (p <> kmem_slab_end) as Hp0 by (pose proof (ch_nodup _ _ co_chain0) as Hnd; rewrite NoDup_cons in Hnd; set_solver).
  assert (forall t, apart s' t <-> apart s t) as Hap by (intros t; unfold apart, base; by rewrite E1, E2, E3).
  assert (forall t, apart t s' <-> apart t s) as Hap' by (intros t; unfold apart, base; by rewrite E1, E2, E3).
  constructor; cbn; try done.
  - by apply (chain_ext k).
  - destruct co_end0 as (e & He & ?). exists e. by rewrite lookup_insert_ne.
  - intros q Hq. destruct (decide (q = p)) as [->|Hne]; [rewrite lookup_insert_eq, fn_lookup_insert; by eexists|].
    rewrite lookup_insert_ne, fn_lookup_insert_ne by done. destruct (co_slab0 q Hq) as (t & Ht & Hqo). exists t. split; [done|].
    destruct (co_slab0 p Hp) as (s0 & Hs0 & Hpo). assert (s0 = s) as -> by congruence. eapply slab_ok_other; eauto.
  - intros q r t u Hq Hr Hne Ht Hu. destruct (decide (q = p)) as [->|]; destruct (decide (r = p)) as [->|]; simplify_map_eq; [apply Hap|apply Hap'|]; eauto.
Qed.

Lemma core_freep k g l F x : core k g l F -> core (set_freep k x) g l F.
Proof. intros []. constructor; try done. by apply (chain_ext k). Qed.

Lemma core_links k g l l' F n q : core k g l F -> chain (set_links k n q) l' -> (forall p, p ∈ l' -> p ∈ l) -> core (set_links k n q) g l' F.
Proof. intros [] Hc Hl. constructor; auto. intros p q' s t Hp Hq. apply co_apart0; auto. Qed.

Definition back (s : slab) (p i : Z) : Z := if SLAB_BUFCTL (c_flags c) then obj_addr s i else p.

(** ** Taking and giving back an object *)

Lemma take_core k g l F p s i fl : core k g l F -> p ∈ l -> slabs k !! p = Some s -> F p = i :: fl ->
  exists n nextp k', s_nextp k !! p = Some nextp /\ take_object c k p = Some (obj_addr s i, k') /\
    core k' g l (<[p := fl]> F) /\ c_freep k' = (if decide (fl = []) then nextp else c_freep k) /\
    slabs k' = <[p := Slab n (s_index s) (s_magic s) (s_inuse s + 1) (s_mem s) (s_offset s) (s_dma s)]> (slabs k) /\
    s_nextp k' = s_nextp k /\ s_prevp k' = s_prevp k /\ page_slab k' = page_slab k /\ words k' !! buf_addr s i = Some (back s p i).
Proof.
  intros H Hp Hs HF. destruct (co_slab _ _ _ _ H p Hp) as (s0 & Hs0 & Hok). assert (s0 = s) as -> by congruence. clear Hs0. rewrite HF in Hok.
  pose proof (so_list _ _ _ _ _ Hok) as (Hfp & n & Hw & Hl). rewrite Hfp in Hw. pose proof (so_nodup _ _ _ _ _ Hok) as [Hni Hnd]%NoDup_cons.
  pose proof (so_range _ _ _ _ _ Hok) as [Hi Hr]%Forall_cons. pose proof Hp as (l1 & l2 & ->)%list_elem_of_split.
  pose proof (chain_next k l1 p l2 (co_chain _ _ _ _ H)) as Hnx. exists n, (head_of kmem_slab_end l2).
  set (s' := Slab n (s_index s) (s_magic s) (s_inuse s + 1) (s_mem s) (s_offset s) (s_dma s)).
  assert ((n =? 0) = bool_decide (fl = [])) as Hn0.
  { destruct fl as [|j fl]; cbn in Hl; [by subst n|]. destruct Hl as [-> _]. apply Forall_cons in Hr as [Hj _]. destruct (buf_in _ _ _ _ _ _ Hok Hj). cbn. lia. }
  assert (core (touch k p (buf_addr s i) (back s p i) s') g (l1 ++ p :: l2) (<[p := fl]> F)) as Hc.
  { eapply core_touch; try done. pose proof Hok as []. constructor; try done.
    - apply (free_list_same _ s); [done|done|]. apply free_list_upd; [done|]. intros j Hj E. apply Hni. by rewrite <- (buf_inj s j i E).
    - cbn. rewrite so_inuse0. cbn. lia.
    - intros j Hj Hn. change (buf_addr s' j) with (buf_addr s j). destruct (decide (j = i)) as [->|Hne]; [by rewrite lookup_insert_eq|].
      rewrite lookup_insert_ne by (intros E; by apply Hne, eq_sym, (buf_inj s)). apply so_used0; [done|]. set_solver. }
  exists (set_freep (touch k p (buf_addr s i) (back s p i) s') (if decide (fl = []) then head_of kmem_slab_end l2 else c_freep k)).
  split; [done|]. split; [|split; [by apply core_freep|]; do 5 (split; [done|]); cbn; apply lookup_insert_eq].
  unfold take_object. rewrite Hs. cbn [mbind option_bind]. rewrite Hfp, Hw. cbn [mbind option_bind]. rewrite Hn0.
  pose proof (so_index _ _ _ _ _ Hok) as Hix. unfold back, touch, buf_addr, obj_addr, stride in *.
  rewrite bool_decide_decide. cbn [s_nextp put_slab set_slabs]. destruct (decide (fl = [])) as [->|]; cbn [negb]; rewrite ?Hnx; cbn [mbind option_bind];
    (destruct (SLAB_BUFCTL (c_flags c)); [replace (s_index s =? 0) with false by lia|replace (s_index s =? 0) with true by lia]); do 2 f_equal;
    rewrite ?(Z.mul_comm sizeof_bufctl i), ?Z.add_simpl_l, ?Z.div_mul by done; try lia; unfold set_freep, set_words, put_slab, set_slabs; cbn; do 2 f_equal; lia.
Qed.

(** Distinct object numbers are not more than the objects. *)
Lemma numbers_bound fl : NoDup fl -> Forall object_no fl -> Z.of_nat (length fl) <= c_num c.
Proof.
  intros Hnd Hr. destruct shape_fits. assert (fl ⊆+ seqZ 0 (c_num c)) as Hs%submseteq_length.
  { apply NoDup_submseteq; [done|]. intros x Hx. rewrite Forall_forall in Hr. apply elem_of_seqZ. specialize (Hr x Hx). destruct Hr. lia. }
  rewrite length_seqZ in Hs. lia.
Qed.

Lemma numbers_room fl i : NoDup fl -> Forall object_no fl -> object_no i -> i ∉ fl -> Z.of_nat (length fl) < c_num c.
Proof. intros Hnd Hr Hi Hn. pose proof (numbers_bound (i :: fl) ltac:(by constructor) ltac:(by constructor)). cbn in H. lia. Qed.

Definition given (s : slab) (i : Z) : slab :=
  Slab (buf_addr s i) (s_index s) (s_magic s) (s_inuse s - 1) (s_mem s) (s_offset s) (s_dma s).

Lemma give_core k g l F p s i : core k g l F -> p ∈ l -> slabs k !! p = Some s -> object_no i -> i ∉ F p ->
  core (touch k p (buf_addr s i) (s_freep s) (given s i)) g l (<[p := i :: F p]> F).
Proof.
  intros H Hp Hs Hi Hn. destruct (co_slab _ _ _ _ H p Hp) as (s0 & Hs0 & Hok). assert (s0 = s) as -> by congruence.
  eapply core_touch; try done. pose proof Hok as []. constructor; try done; try (by constructor).
  - cbn. split; [done|]. exists (s_freep s). split; [by rewrite lookup_insert_eq|]. apply (free_list_same _ s); [done|done|].
    apply free_list_upd; [done|]. intros j Hj E. apply Hn. by rewrite <- (buf_inj s j i E).
  - cbn. rewrite so_inuse0. lia.
  - intros j Hj Hnj. change (buf_addr (given s i) j) with (buf_addr s j). rewrite lookup_insert_ne by (intros E%buf_inj; set_solver).
    apply so_used0; [done|]. set_solver.
Qed.

(** An object in use leads back to its slab. *)
Lemma page_of w pg p s fl i : slab_ok w pg p s fl -> object_no i -> pg !! MAP_NR (obj_addr s i) = Some p.
Proof.
  intros H Hi. apply (so_pages _ _ _ _ _ H). pose proof mgmt_pos. pose proof (obj_range i Hi) as Ho. pose proof stride_pos as Hst. destruct (so_base _ _ _ _ _ H) as [_ Hb].
  destruct (so_fits _ _ _ _ _ H) as [Hf1 Hf2]. assert (base s <= obj_addr s i < base s + span) as Hin by (unfold obj_addr, base in *; lia).
  unfold MAP_NR, span, PAGE_SIZE in *. destruct shape_fits. rewrite !Z.shiftr_div_pow2, !Z.shiftl_mul_pow2 in * by lia. change (2 ^ 12) with 4096.
  pose proof (Z.div_mod (base s) 4096 ltac:(lia)) as Hd. rewrite Hb in Hd. split.
  - apply Z.div_le_mono; lia.
  - apply Z.div_lt_upper_bound; [lia|]. lia.
Qed.

(** The slab that follows on the chain. *)
Lemma next_inuse k g l1 p r F : core k g (l1 ++ p :: r) F ->
  s_nextp k !! p = Some (head_of kmem_slab_end r) /\ exists n, slabs k !! head_of kmem_slab_end r = Some n /\
    s_inuse n = match r with [] => 0 | q :: _ => c_num c - Z.of_nat (length (F q)) end.
Proof.
  intros H. split; [by eapply chain_next, H|]. destruct r as [|q r]; cbn.
  - destruct (co_end _ _ _ _ H) as (e & ? & _ & ?). by exists e.
  - destruct (co_slab _ _ _ _ H q) as (t & Ht & Ho); [set_solver|]. exists t. split; [done|]. by apply (so_inuse _ _ _ _ _ Ho).
Qed.

(** The order of the chain: slabs without free objects, slabs with some, and free slabs. *)
Record sorted (F : Z -> list Z) (a b z : list Z) : Prop := {
  st_full : Forall (fun p => F p = []) a;
  st_part : Forall (fun p => 0 < Z.of_nat (length (F p)) < c_num c) b;
  st_free : Forall (fun p => Z.of_nat (length (F p)) = c_num c) z }.

Record cache_inv (k : kcache) (g a b z : list Z) (F : Z -> list Z) : Prop := {
  ci_core : core k g (a ++ b ++ z) F;
  ci_sorted : sorted F a b z;
  ci_freep : c_freep k = head_of kmem_slab_end (b ++ z) }.

Lemma Forall_other (P : list Z -> Prop) (F : Z -> list Z) (p : Z) (fl l : list Z) : Forall (fun q => P (F q)) l -> p ∉ l -> Forall (fun q => P ((<[p := fl]> F) q)) l.
Proof. intros H Hp. rewrite Forall_forall in *. intros q Hq. rewrite fn_lookup_insert_ne; [by apply H|]. intros ->. done. Qed.

(** A slab in front of those with free objects gets or keeps some. *)
Lemma sorted_front F a b z p fl : sorted F a b z -> p ∉ a ++ b ++ z -> 0 < Z.of_nat (length fl) < c_num c -> sorted (<[p := fl]> F) a (p :: b) z.
Proof.
  intros [H1 H2 H3] Hp Hl. split.
  - apply (Forall_other (fun l => l = [])); [done|set_solver].
  - constructor; [by rewrite fn_lookup_insert|]. apply (Forall_other (fun l => 0 < Z.of_nat (length l) < c_num c)); [done|set_solver].
  - apply (Forall_other (fun l => Z.of_nat (length l) = c_num c)); [done|set_solver].
Qed.

Lemma sorted_drop F a b z p fl : sorted F a b z -> p ∉ a ++ b ++ z -> sorted (<[p := fl]> F) a b z.
Proof.
  intros [H1 H2 H3] Hp. split.
  - apply (Forall_other (fun l => l = [])); [done|set_solver].
  - apply (Forall_other (fun l => 0 < Z.of_nat (length l) < c_num c)); [done|set_solver].
  - apply (Forall_other (fun l => Z.of_nat (length l) = c_num c)); [done|set_solver].
Qed.

Lemma sorted_app F a1 a2 b1 b2 z1 z2 : sorted F a1 b1 z1 -> sorted F a2 b2 z2 -> sorted F (a1 ++ a2) (b1 ++ b2) (z1 ++ z2).
Proof. intros [] []. split; by apply Forall_app. Qed.

End Cache.
