(* ===== verification/SlabCalls.v ===== *)
(** * Caches of objects: allocation, freeing, growing and shrinking *)

From stdpp Require Import functions.
From S2P Require Import Prelude LockBlocks RunQueue Slab SlabProof.

Section Cache.
Context (c : shape).
Hypothesis shape_fits : shape_ok c.

Implicit Types (k : kcache) (F : Z -> list Z).

(** ** Freeing *)

Lemma links_slabs k n q : slabs (set_links k n q) = slabs k.
Proof. done. Qed.

Lemma core_moved k g l l' F : core c k g l F -> (forall p, p ∈ l' -> p ∈ l) ->
  forall k', (exists n q, k' = set_links k n q) -> chain k' l' -> core c k' g l' F /\ c_freep k' = c_freep k /\ slabs k' = slabs k.
Proof. intros H Hl k' (n & q & ->) Hc. split; [|done]. by eapply core_links. Qed.

(** A slab that was full goes in front of the slabs with free objects. *)
Lemma one_free_core k g a1 p a2 r F : core c k g (a1 ++ p :: a2 ++ r) F -> Forall (fun q => F q = []) a2 ->
  match r with [] => True | q :: _ => 0 < Z.of_nat (length (F q)) end -> c_freep k = head_of kmem_slab_end r ->
  exists k', kmem_cache_one_free c k p = Some k' /\ core c k' g ((a1 ++ a2) ++ p :: r) F /\ c_freep k' = p /\ slabs k' = slabs k.
Proof.
  intros H Ha Hr Hf. unfold kmem_cache_one_free. destruct (next_inuse c shape_fits k g a1 p (a2 ++ r) F H) as (Hnx & n & Hs & Hn). rewrite Hnx. cbn [mbind option_bind]. rewrite Hs. cbn [mbind option_bind].
  destruct a2 as [|q a2].
  - cbn [app] in *. rewrite app_nil_r. assert ((s_inuse n =? c_num c) = false) as ->.
    { pose proof (sh_num c shape_fits). destruct r; lia. } cbn [mbind option_bind]. eexists. split; [done|]. split; [by apply core_freep|]. done.
  - cbn [app] in Hn. apply Forall_cons in Ha as [Hq Ha]. rewrite Hq in Hn. cbn in Hn. replace (s_inuse n =? c_num c) with true by lia.
    destruct (unlink_ok k a1 p ((q :: a2) ++ r) (co_chain _ _ _ _ _ H)) as (k1 & -> & Hc1 & Hk1). cbn [mbind option_bind].
    destruct (core_moved k g _ (a1 ++ (q :: a2) ++ r) F H ltac:(set_solver) k1 Hk1 Hc1) as (H1 & Hf1 & Hs1).
    destruct (link_free_ok k1 (a1 ++ (q :: a2)) r p) as (k2 & -> & Hc2 & Hk2); [by rewrite <- app_assoc|congruence| |].
    { pose proof (chain_not_in k a1 p _ (co_chain _ _ _ _ _ H)). set_solver. }
    cbn [mbind option_bind]. eexists. split; [done|].
    destruct Hk1 as (n1 & q1 & ->), Hk2 as (n2 & q2 & ->). split; [|done]. apply core_freep.
    apply (core_links c k g (a1 ++ p :: (q :: a2) ++ r)); [done|by apply (chain_ext (set_links (set_links k n1 q1) n2 q2))|set_solver].
Qed.

(** A slab whose last object was freed goes behind those with objects in use. *)
Lemma full_free_core k g l1 p b z F : core c k g (l1 ++ p :: b ++ z) F -> Forall (fun q => Z.of_nat (length (F q)) < c_num c) b ->
  Forall (fun q => Z.of_nat (length (F q)) = c_num c) z ->
  exists k', kmem_cache_full_free k p = Some k' /\ core c k' g (if b is [] then l1 ++ p :: z else l1 ++ b ++ z ++ [p]) F /\
    c_freep k' = (if decide (c_freep k = p /\ b <> []) then head_of kmem_slab_end b else c_freep k) /\ slabs k' = slabs k.
Proof.
  intros H Hb Hz. unfold kmem_cache_full_free. destruct (next_inuse c shape_fits k g l1 p (b ++ z) F H) as (Hnx & n & Hs & Hn). rewrite Hnx. cbn [mbind option_bind]. rewrite Hs. cbn [mbind option_bind].
  destruct b as [|q b].
  - cbn [app] in *. assert ((s_inuse n =? 0) = true) as ->. { destruct z as [|q z]; [lia|]. apply Forall_cons in Hz as [? _]. lia. }
    exists k. split; [done|]. split; [done|]. split; [|done]. rewrite decide_False; [done|]. naive_solver.
  - apply Forall_cons in Hb as [Hq Hb]. cbn [app] in Hn. replace (s_inuse n =? 0) with false by lia. cbn [negb head_of app].
    set (k0 := if c_freep k =? p then set_freep k q else k). assert (core c k0 g (l1 ++ p :: (q :: b) ++ z) F) as H0 by (unfold k0; case_match; [by apply core_freep|done]).
    destruct (unlink_ok k0 l1 p ((q :: b) ++ z) (co_chain _ _ _ _ _ H0)) as (k1 & -> & Hc1 & Hk1). cbn [mbind option_bind].
    destruct (core_moved k0 g _ (l1 ++ (q :: b) ++ z) F H0 ltac:(set_solver) k1 Hk1 Hc1) as (H1 & Hf1 & Hs1).
    destruct (link_end_ok k1 (l1 ++ (q :: b) ++ z) p Hc1) as (k2 & -> & Hc2 & Hk2). { pose proof (chain_not_in k0 l1 p _ (co_chain _ _ _ _ _ H0)). set_solver. }
    exists k2. split; [done|]. assert (l1 ++ q :: b ++ z ++ [p] = (l1 ++ (q :: b) ++ z) ++ [p]) as -> by (by rewrite <- !app_assoc).
    destruct Hk1 as (n1 & q1 & ->), Hk2 as (n2 & q2 & ->). split; [|split].
    + apply (core_links c k0 g (l1 ++ p :: (q :: b) ++ z)); [done|by apply (chain_ext (set_links (set_links k0 n1 q1) n2 q2))|set_solver].
    + unfold k0. destruct (c_freep k =? p) eqn:E; cbn; [rewrite decide_True; [done|split; [lia|done]]|rewrite decide_False; [done|lia]].
    + unfold k0. by case_match.
Qed.


(** [kmem_cache_free] finds the slab and the bufctl of an object in use. *)
Lemma free_head k g l F p s i : core c k g l F -> p ∈ l -> slabs k !! p = Some s -> object_no c i -> i ∉ F p ->
  kmem_cache_free c k (obj_addr c s i) =
    (let k1 := touch k p (buf_addr c s i) (s_freep s) (given c s i) in
     k2 ← (if negb (s_freep s =? 0) then if negb (s_inuse s - 1 =? 0) then Some k1 else kmem_cache_full_free k1 p else kmem_cache_one_free c k1 p);
     Some (true, k2)).
Proof.
  intros H Hp Hs Hi Hn. destruct (co_slab _ _ _ _ _ H p Hp) as (s0 & Hs0 & Hok). assert (s0 = s) as -> by congruence. clear Hs0.
  pose proof (numbers_room c shape_fits _ i (so_nodup _ _ _ _ _ _ Hok) (so_range _ _ _ _ _ _ Hok) Hi Hn) as Hroom.
  pose proof (so_inuse _ _ _ _ _ _ Hok) as Hin. pose proof (so_used _ _ _ _ _ _ Hok i Hi Hn) as Hw. pose proof (so_base _ _ _ _ _ _ Hok) as [Hb _].
  pose proof (so_fits _ _ _ _ _ _ Hok) as [Hf _]. pose proof (obj_range c shape_fits i Hi) as [Ho _].
  pose proof (sh_offset c shape_fits) as Hoff. unfold BYTES_PER_WORD in Hoff.
  unfold kmem_cache_free. assert ((obj_addr c s i =? 0) = false) as -> by (unfold obj_addr, base in *; lia).
  assert (Hbuf : buf_addr c s i = if SLAB_BUFCTL (c_flags c) then s_index s + sizeof_bufctl * ((obj_addr c s i - s_mem s) / c_offset c) else obj_addr c s i + c_offset c).
  { unfold buf_addr, obj_addr, stride. destruct (SLAB_BUFCTL (c_flags c)); [|done]. by rewrite Z.add_simpl_l, Z.div_mul by lia. }
  pose proof (page_of c shape_fits _ _ _ _ _ _ Hok Hi) as Hpg. destruct (SLAB_BUFCTL (c_flags c)); cbn [andb].
  - rewrite Hpg. cbn [mbind option_bind]. rewrite Hs. cbn [mbind option_bind]. rewrite <- Hbuf, Hw. cbn [mbind option_bind]. rewrite Z.eqb_refl. cbn [negb].
    rewrite Hs. cbn [mbind option_bind]. replace (s_magic s =? SLAB_MAGIC_ALLOC) with true by (rewrite (so_magic _ _ _ _ _ _ Hok); done). cbn [negb]. replace (s_inuse s =? 0) with false by lia. done.
  - rewrite <- Hbuf, Hw. cbn [mbind option_bind]. rewrite Hw. cbn [mbind option_bind].
    rewrite Hs. cbn [mbind option_bind]. replace (s_magic s =? SLAB_MAGIC_ALLOC) with true by (rewrite (so_magic _ _ _ _ _ _ Hok); done). cbn [negb]. replace (s_inuse s =? 0) with false by lia. done.
Qed.

Lemma freep_zero k g l F p s : core c k g l F -> p ∈ l -> slabs k !! p = Some s -> (s_freep s =? 0) = bool_decide (F p = []).
Proof.
  intros H Hp Hs. destruct (co_slab _ _ _ _ _ H p Hp) as (s0 & Hs0 & Hok). assert (s0 = s) as -> by congruence.
  pose proof (so_list _ _ _ _ _ _ Hok) as Hl. pose proof (so_range _ _ _ _ _ _ Hok) as Hr. destruct (F p) as [|j fl]; cbn in Hl; [by rewrite Hl|].
  destruct Hl as [-> _]. apply Forall_cons in Hr as [Hj _]. destruct (buf_in c shape_fits _ _ _ _ _ _ Hok Hj) as [? _]. cbn. lia.
Qed.

(** Where a slab is on the chain. *)
Lemma in_full F a b z p : sorted c F a b z -> p ∈ a ++ b ++ z -> F p = [] -> p ∈ a.
Proof.
  intros [H1 H2 H3] Hp HF. rewrite !elem_of_app in Hp. destruct Hp as [?|[Hp|Hp]]; [done|..]; pose proof (sh_num c shape_fits).
  - rewrite Forall_forall in H2. specialize (H2 p Hp). cbn in H2. rewrite HF in H2. cbn in H2. lia.
  - rewrite Forall_forall in H3. specialize (H3 p Hp). cbn in H3. rewrite HF in H3. cbn in H3. lia.
Qed.

Lemma in_part F a b z p : sorted c F a b z -> p ∈ a ++ b ++ z -> F p <> [] -> Z.of_nat (length (F p)) < c_num c -> p ∈ b.
Proof.
  intros [H1 H2 H3] Hp HF Hlt. rewrite !elem_of_app in Hp. destruct Hp as [Hp|[?|Hp]]; [|done|].
  - rewrite Forall_forall in H1. by destruct (HF (H1 p Hp)).
  - rewrite Forall_forall in H3. specialize (H3 p Hp). cbn in H3. lia.
Qed.

(** A slab with some free objects, or all, is placed among the others. *)
Lemma place_front k g a p b z F fl : core c k g (a ++ p :: b ++ z) (<[p := fl]> F) -> sorted c F a b z -> c_freep k = p ->
  0 < Z.of_nat (length fl) <= c_num c -> (Z.of_nat (length fl) = c_num c -> b = []) ->
  exists b' z', cache_inv c k g a b' z' (<[p := fl]> F) /\ a ++ b' ++ z' = a ++ p :: b ++ z.
Proof.
  intros H Hs Hf Hl Hb. pose proof (chain_not_in _ _ _ _ (co_chain _ _ _ _ _ H)) as Hn.
  destruct (decide (Z.of_nat (length fl) = c_num c)) as [E|].
  - rewrite (Hb E) in *. exists [], (p :: z). split; [|done]. split; [done| |done]. destruct (sorted_drop c shape_fits F a [] z p fl Hs ltac:(set_solver)) as [S1 S2 S3].
    split; [done|done|]. constructor; [by rewrite fn_lookup_insert|done].
  - exists (p :: b), z. split; [|done]. split; [done| |done]. apply sorted_front; [done|done|set_solver|lia].
Qed.


Lemma free_full k g a1 p a2 b z F s i : cache_inv c k g (a1 ++ p :: a2) b z F -> slabs k !! p = Some s -> object_no c i -> F p = [] ->
  exists k' b' z', kmem_cache_free c k (obj_addr c s i) = Some (true, k') /\ cache_inv c k' g (a1 ++ a2) b' z' (<[p := [i]]> F) /\
    (a1 ++ a2) ++ b' ++ z' ≡ₚ (a1 ++ p :: a2) ++ b ++ z /\ slabs k' = <[p := given c s i]> (slabs k) /\ c_freep k' = p.
Proof.
  intros [H Hso Hf] Hs Hi HF. assert (p ∈ (a1 ++ p :: a2) ++ b ++ z) as Hp by set_solver. assert (i ∉ F p) as Hn by (rewrite HF; apply not_elem_of_nil).
  rewrite (free_head k g _ F p s i H Hp Hs Hi Hn), (freep_zero k g _ F p s H Hp Hs), HF. cbn [bool_decide decide_rel negb].
  change (negb (bool_decide ([] = []))) with false. cbv zeta iota.
  pose proof (give_core c shape_fits k g _ F p s i H Hp Hs Hi Hn) as H1. rewrite HF in H1. set (k1 := touch _ _ _ _ _) in *.
  rewrite <- app_assoc in H1. cbn [app] in H1. pose proof (chain_not_in _ _ _ _ (co_chain _ _ _ _ _ H1)) as Hni.
  destruct Hso as [S1 S2 S3]. apply Forall_app in S1 as [S1 [_ S1']%Forall_cons].
  assert (sorted c F (a1 ++ a2) b z) as Hso by (split; [by apply Forall_app|done..]).
  destruct (one_free_core k1 g a1 p a2 (b ++ z) _ H1) as (k2 & -> & H2 & Hf2 & Hs2).
  - apply (Forall_other (fun l => l = [])); [done|set_solver].
  - pose proof (sh_num c shape_fits). destruct b as [|q b]; [destruct z as [|q z]|]; cbn [app]; [exact I|..]; rewrite fn_lookup_insert_ne by set_solver.
    + apply Forall_cons in S3 as [? _]. lia.
    + apply Forall_cons in S2 as [? _]. lia.
  - done.
  - cbn [mbind option_bind]. destruct (place_front k2 g (a1 ++ a2) p b z F [i] H2 Hso Hf2) as (b' & z' & Hinv & E).
    + cbn. pose proof (sh_num c shape_fits). lia.
    + cbn. intros E1. destruct b as [|q b]; [done|]. apply Forall_cons in S2 as [? _]. lia.
    + exists k2, b', z'. split; [done|]. split; [done|]. split; [|split; [by rewrite Hs2|done]]. rewrite E. by rewrite <- !Permutation_middle.
Qed.

Lemma free_part k g a b1 p b2 z F s i : cache_inv c k g a (b1 ++ p :: b2) z F -> slabs k !! p = Some s -> object_no c i -> i ∉ F p -> F p <> [] ->
  exists k' b' z', kmem_cache_free c k (obj_addr c s i) = Some (true, k') /\ cache_inv c k' g a b' z' (<[p := i :: F p]> F) /\
    a ++ b' ++ z' ≡ₚ a ++ (b1 ++ p :: b2) ++ z /\ slabs k' = <[p := given c s i]> (slabs k).
Proof.
  intros [H Hso Hf] Hs Hi Hn HF. assert (p ∈ a ++ (b1 ++ p :: b2) ++ z) as Hp by set_solver.
  rewrite (free_head k g _ F p s i H Hp Hs Hi Hn), (freep_zero k g _ F p s H Hp Hs). rewrite bool_decide_false by done. cbn [negb]. cbv zeta iota.
  pose proof (give_core c shape_fits k g _ F p s i H Hp Hs Hi Hn) as H1. set (k1 := touch _ _ _ _ _) in *.
  destruct (co_slab _ _ _ _ _ H p Hp) as (s0 & Hs0 & Hok). assert (s0 = s) as -> by congruence. pose proof (so_inuse _ _ _ _ _ _ Hok) as Hin.
  pose proof (numbers_room c shape_fits _ i (so_nodup _ _ _ _ _ _ Hok) (so_range _ _ _ _ _ _ Hok) Hi Hn) as Hroom.
  assert (a ++ (b1 ++ p :: b2) ++ z = (a ++ b1) ++ p :: b2 ++ z) as El by (rewrite <- !app_assoc; done).
  pose proof H1 as H1'. rewrite El in H1'. pose proof (chain_not_in _ _ _ _ (co_chain _ _ _ _ _ H1')) as Hni.
  destruct Hso as [S1 S2 S3]. apply Forall_app in S2 as [S2 [Sp S2']%Forall_cons].
  destruct (sorted_drop c shape_fits F a (b1 ++ b2) z p (i :: F p)) as [T1 T2 T3]; [split; [done|by apply Forall_app|done]|set_solver|]. apply Forall_app in T2 as [T2 T2'].
  destruct (s_inuse s - 1 =? 0) eqn:E; cbn [negb].
  - destruct (full_free_core k1 g (a ++ b1) p b2 z _ H1') as (k2 & -> & H2 & Hf2 & Hs2); [eapply Forall_impl; [exact T2'|]; cbn; lia|done|]. cbn [mbind option_bind].
    change (c_freep k1) with (c_freep k) in Hf2. destruct b2 as [|q b2].
    + exists k2, b1, (p :: z). split; [done|]. split; [split|split; [by rewrite <- app_assoc|by rewrite Hs2]].
      * by rewrite <- app_assoc in H2.
      * split; [done|done|]. constructor; [rewrite fn_lookup_insert; cbn; lia|done].
      * rewrite Hf2, decide_False, Hf by naive_solver. by rewrite <- app_assoc.
    + exists k2, (b1 ++ q :: b2), (z ++ [p]). split; [done|]. split; [split|split; [|by rewrite Hs2]].
      * rewrite <- !app_assoc in *. exact H2.
      * split; [done|by apply Forall_app|]. apply Forall_app. split; [done|]. constructor; [rewrite fn_lookup_insert; cbn; lia|done].
      * rewrite Hf2, Hf. destruct b1 as [|x b1]; cbn; [by rewrite decide_True|]. rewrite decide_False; [done|]. intros [-> _]. set_solver.
      * rewrite <- !app_assoc. rewrite (Permutation_app_comm z [p]). cbn. f_equiv. f_equiv. by rewrite (Permutation_middle (q :: b2) z p).
  - cbn [mbind option_bind]. exists k1, (b1 ++ p :: b2), z. split; [done|]. split; [|done]. split; [done| |done]. split; [done| |done].
    apply Forall_app. split; [done|]. constructor; [rewrite fn_lookup_insert; cbn; lia|done].
Qed.

(** Freeing an object in use: its slab moves to where it belongs on the chain. *)
Lemma free_ok k g a b z F p s i : cache_inv c k g a b z F -> p ∈ a ++ b ++ z -> slabs k !! p = Some s -> object_no c i -> i ∉ F p ->
  exists k' a' b' z', kmem_cache_free c k (obj_addr c s i) = Some (true, k') /\ cache_inv c k' g a' b' z' (<[p := i :: F p]> F) /\
    a' ++ b' ++ z' ≡ₚ a ++ b ++ z /\ slabs k' = <[p := given c s i]> (slabs k).
Proof.
  intros H Hp Hs Hi Hn. destruct (decide (F p = [])) as [E|E].
  - pose proof (in_full F a b z p (ci_sorted _ _ _ _ _ _ _ H) Hp E) as (a1 & a2 & ->)%list_elem_of_split.
    destruct (free_full k g a1 p a2 b z F s i H Hs Hi E) as (k' & b' & z' & ? & ? & ? & ? & _). exists k', (a1 ++ a2), b', z'. rewrite E. done.
  - destruct (co_slab _ _ _ _ _ (ci_core _ _ _ _ _ _ _ H) p Hp) as (s0 & Hs0 & Hok).
    pose proof (numbers_room c shape_fits _ i (so_nodup _ _ _ _ _ _ Hok) (so_range _ _ _ _ _ _ Hok) Hi Hn) as Hroom.
    pose proof (in_part F a b z p (ci_sorted _ _ _ _ _ _ _ H) Hp E Hroom) as (b1 & b2 & ->)%list_elem_of_split.
    destruct (free_part k g a b1 p b2 z F s i H Hs Hi Hn E) as (k' & b' & z' & ? & ? & ? & ?). by exists k', a, b', z'.
Qed.


(** ** Allocation *)

Definition taken (n : Z) (s : slab) : slab := Slab n (s_index s) (s_magic s) (s_inuse s + 1) (s_mem s) (s_offset s) (s_dma s).

Lemma take_front k g a p b z F s i fl : core c k g (a ++ p :: b ++ z) F -> sorted c F a b z -> c_freep k = p -> slabs k !! p = Some s -> F p = i :: fl ->
  exists n k' a' b' z', take_object c k p = Some (obj_addr c s i, k') /\ cache_inv c k' g a' b' z' (<[p := fl]> F) /\
    a' ++ b' ++ z' = a ++ p :: b ++ z /\ slabs k' = <[p := taken n s]> (slabs k).
Proof.
  intros H Hso Hf Hs HF. assert (p ∈ a ++ p :: b ++ z) as Hp by set_solver. pose proof (chain_not_in _ _ _ _ (co_chain _ _ _ _ _ H)) as Hni.
  destruct (take_core c shape_fits k g _ F p s i fl H Hp Hs HF) as (n & nx & k' & Hnx & E & H' & Hf' & Hs' & _).
  assert (nx = head_of kmem_slab_end (b ++ z)) as -> by (rewrite (chain_next _ _ _ _ (co_chain _ _ _ _ _ H)) in Hnx; congruence).
  destruct (co_slab _ _ _ _ _ H p Hp) as (s0 & Hs0 & Hok). rewrite HF in Hok. pose proof (numbers_bound c shape_fits _ (so_nodup _ _ _ _ _ _ Hok) (so_range _ _ _ _ _ _ Hok)) as Hlen. cbn in Hlen.
  destruct (decide (fl = [])) as [->|Hfl].
  - exists n, k', (a ++ [p]), b, z. split; [done|]. rewrite <- app_assoc. cbn [app]. split; [|done]. split; [by rewrite <- app_assoc| |done].
    destruct (sorted_drop c shape_fits F a b z p [] Hso ltac:(set_solver)) as [S1 S2 S3]. split; [|done|done]. apply Forall_app. split; [done|]. constructor; [by rewrite fn_lookup_insert|done].
  - exists n, k', a, (p :: b), z. split; [done|]. split; [|done]. split; [done| |cbn; congruence]. apply sorted_front; [done|done|set_solver|].
    destruct fl; [done|]. cbn in *. lia.
Qed.

Lemma sorted_remove F a b z r1 q r2 : sorted c F a b z -> b ++ z = r1 ++ q :: r2 ->
  exists b' z', b' ++ z' = r1 ++ r2 /\ sorted c F a b' z'.
Proof.
  intros [S1 S2 S3] E. assert (exists b' z', b' ++ z' = r1 ++ r2 /\ (forall x, x ∈ b' -> x ∈ b) /\ (forall x, x ∈ z' -> x ∈ z)) as (b' & z' & E' & Hb & Hz).
  { clear S1 S2 S3. revert r1 E. induction b as [|x b IH]; intros r1 E; cbn in E.
    - exists [], (r1 ++ r2). subst z. split; [done|]. split; [done|]. set_solver.
    - destruct r1 as [|y r1]; cbn in E; [injection E as -> <-; exists b, z; set_solver|]. injection E as -> E.
      destruct (IH r1 E) as (b' & z' & E' & Hb & Hz). exists (y :: b'), z'. split; [cbn; by rewrite E'|]. set_solver. }
  exists b', z'. split; [done|]. rewrite Forall_forall in S2, S3. split; [done|apply Forall_forall; auto..].
Qed.

(** The search for a slab fit for DMA ends, and finds the first one. *)
Lemma dma_slab_ok k g l r F fuel : core c k g (l ++ r) F -> (length r <= fuel)%nat ->
  dma_slab fuel k (head_of kmem_slab_end r) = Some kmem_slab_end /\ (forall q s, q ∈ r -> slabs k !! q = Some s -> s_dma s = false) \/
  exists r1 q r2 s, dma_slab fuel k (head_of kmem_slab_end r) = Some q /\ r = r1 ++ q :: r2 /\ slabs k !! q = Some s /\ s_dma s = true.
Proof.
  revert l fuel. induction r as [|p r IH]; intros l fuel H Hfu; cbn [head_of].
  - left. split; [by destruct fuel|]. intros q s Hq. by apply not_elem_of_nil in Hq.
  - destruct fuel as [|fuel]; cbn in Hfu; [lia|]. pose proof (chain_not_in _ _ _ _ (co_chain _ _ _ _ _ H)) as Hni. cbn [dma_slab].
    replace (p =? kmem_slab_end) with false by (unfold kmem_slab_end in *; assert (p <> 0) by set_solver; lia).
    destruct (co_slab _ _ _ _ _ H p) as (s & Hs & Hok); [set_solver|]. rewrite Hs. cbn [mbind option_bind]. destruct (s_dma s) eqn:Ed.
    + right. by exists [], p, r, s.
    + rewrite (chain_next _ _ _ _ (co_chain _ _ _ _ _ H)). cbn [mbind option_bind]. replace (l ++ p :: r) with ((l ++ [p]) ++ r) in H by (by rewrite <- app_assoc).
      destruct (IH (l ++ [p]) fuel H ltac:(lia)) as [[E Hn]|(r1 & q & r2 & t & E & -> & Ht & Hd)].
      * left. split; [done|]. intros q t Hq Ht. apply elem_of_cons in Hq as [->|Hq]; [congruence|eauto].
      * right. exists (p :: r1), q, r2, t. done.
Qed.

Lemma chain_size k g l F : core c k g l F -> (length l < size (slabs k))%nat.
Proof.
  intros H. pose proof (ch_nodup _ _ (co_chain _ _ _ _ _ H)) as Hnd. rewrite <- size_dom.
  assert (list_to_set (kmem_slab_end :: l) ⊆ (dom (slabs k) : gset Z)) as Hsub.
  { intros p Hp. apply elem_of_list_to_set, elem_of_cons in Hp as [->|Hp]; apply elem_of_dom.
    - destruct (co_end _ _ _ _ _ H) as (e & ? & _). by exists e.
    - destruct (co_slab _ _ _ _ _ H p Hp) as (s & ? & _). by exists s. }
  apply subseteq_size in Hsub. rewrite size_list_to_set in Hsub by done. cbn in Hsub. lia.
Qed.

Lemma search_dma_ok k g a x r F : core c k g (a ++ x :: r) F -> c_freep k = x ->
  kmem_cache_search_dma k = Some (kmem_slab_end, k) /\ (forall q s, q ∈ r -> slabs k !! q = Some s -> s_dma s = false) \/
  exists r1 q r2 s k', kmem_cache_search_dma k = Some (q, k') /\ r = r1 ++ q :: r2 /\ slabs k !! q = Some s /\ s_dma s = true /\ q <> kmem_slab_end /\
    core c k' g (a ++ q :: x :: r1 ++ r2) F /\ c_freep k' = q /\ slabs k' = slabs k.
Proof.
  intros H Hf. pose proof (chain_size _ _ _ _ H) as Hsz. unfold kmem_cache_search_dma. rewrite Hf, (chain_next _ _ _ _ (co_chain _ _ _ _ _ H)). cbn [mbind option_bind].
  pose proof H as H0. replace (a ++ x :: r) with ((a ++ [x]) ++ r) in H0 by (by rewrite <- app_assoc). rewrite length_app in Hsz. cbn in Hsz.
  destruct (dma_slab_ok k g (a ++ [x]) r F (size (slabs k)) H0 ltac:(lia)) as [[-> Hn]|(r1 & q & r2 & s & -> & -> & Hs & Hd)]; cbn [mbind option_bind].
  { left. done. }
  right. exists r1, q, r2, s. replace ((a ++ [x]) ++ r1 ++ q :: r2) with ((a ++ x :: r1) ++ q :: r2) in H0 by (by rewrite <- !app_assoc).
  pose proof (chain_not_in _ _ _ _ (co_chain _ _ _ _ _ H0)) as Hni. assert (q <> kmem_slab_end) as Hq0 by set_solver.
  replace (q =? kmem_slab_end) with false by lia. destruct (unlink_ok k (a ++ x :: r1) q r2 (co_chain _ _ _ _ _ H0)) as (k1 & -> & Hc1 & Hk1). cbn [mbind option_bind].
  destruct (core_moved k g _ ((a ++ x :: r1) ++ r2) F H0 ltac:(set_solver) k1 Hk1 Hc1) as (H1 & Hf1 & Hs1).
  destruct (link_free_ok k1 a (x :: r1 ++ r2) q) as (k2 & -> & Hc2 & Hk2); [by rewrite <- app_assoc in Hc1|cbn; congruence|set_solver|]. cbn [mbind option_bind].
  eexists. split; [done|]. split; [done|]. split; [done|]. split; [done|]. split; [done|]. destruct Hk1 as (n1 & q1 & ->), Hk2 as (n2 & q2 & ->).
  split; [|done]. apply core_freep. apply (core_links c k g ((a ++ x :: r1) ++ q :: r2)); [done|by apply (chain_ext (set_links (set_links k n1 q1) n2 q2))|set_solver].
Qed.


Lemma front_free F a b z p r : sorted c F a b z -> b ++ z = p :: r -> exists i fl, F p = i :: fl.
Proof.
  intros [S1 S2 S3] E. pose proof (sh_num c shape_fits). destruct (F p) as [|i fl] eqn:HF; [|by exists i, fl].
  destruct b as [|x b]; cbn in E; [subst z|injection E as -> <-].
  - apply Forall_cons in S3 as [S3 _]. rewrite HF in S3. cbn in S3. lia.
  - apply Forall_cons in S2 as [S2 _]. rewrite HF in S2. cbn in S2. lia.
Qed.

Lemma member_free F a b z p : sorted c F a b z -> p ∈ b ++ z -> exists i fl, F p = i :: fl.
Proof.
  intros [S1 S2 S3] Hp. pose proof (sh_num c shape_fits). rewrite Forall_forall in S2, S3. destruct (F p) as [|i fl] eqn:HF; [|by exists i, fl].
  apply elem_of_app in Hp as [Hp|Hp]; [specialize (S2 p Hp)|specialize (S3 p Hp)]; cbn in *; rewrite HF in *; cbn in *; lia.
Qed.

(** A try takes a free object, of a slab fit for DMA if that is asked for, unless there is
    none. *)
Lemma alloc_ok k g a b z F flags : cache_inv c k g a b z F -> exists r k', alloc_try c k flags = Some (r, k') /\
  match r with
  | Object o => exists p s i fl n a' b' z', p ∈ b ++ z /\ slabs k !! p = Some s /\ F p = i :: fl /\ o = obj_addr c s i /\
      cache_inv c k' g a' b' z' (<[p := fl]> F) /\ a' ++ b' ++ z' ≡ₚ a ++ b ++ z /\ slabs k' = <[p := taken n s]> (slabs k) /\
      (flag flags SLAB_DMA = true -> s_dma s = true)
  | Grow => k' = k /\ (b ++ z = [] \/ flag flags SLAB_DMA = true /\ forall q s, q ∈ b ++ z -> slabs k !! q = Some s -> s_dma s = false)
  | Corrupt => False
  end.
Proof.
  intros [H Hso Hf]. unfold alloc_try. rewrite Hf. destruct (b ++ z) as [|x r] eqn:Er; cbn [head_of].
  { destruct (co_end _ _ _ _ _ H) as (e & He & Hm & _). rewrite He. cbn [mbind option_bind]. rewrite Hm. eexists Grow, k. split; [done|]. auto. }
  destruct (co_slab _ _ _ _ _ H x) as (s & Hs & Hok); [set_solver|]. rewrite Hs. cbn [mbind option_bind]. rewrite (so_magic _ _ _ _ _ _ Hok). cbn [negb]. change (negb (SLAB_MAGIC_ALLOC =? SLAB_MAGIC_ALLOC)) with false. cbv iota.
  destruct (flag flags SLAB_DMA && negb (s_dma s)) eqn:Edma.
  - apply andb_true_iff in Edma as [Hfl Hd]. destruct (search_dma_ok k g a x r F H Hf) as [[-> Hn]|(r1 & q & r2 & t & k1 & -> & -> & Ht & Htd & Hq0 & H1 & Hf1 & Hs1)]; cbn [mbind option_bind].
    + exists Grow, k. split; [done|]. split; [done|]. right. split; [done|]. intros q t Hq Ht. apply elem_of_cons in Hq as [->|Hq]; [|eauto].
      assert (t = s) as -> by congruence. by destruct (s_dma s).
    + replace (q =? kmem_slab_end) with false by lia. destruct (sorted_remove F a b z (x :: r1) q r2 Hso Er) as (b' & z' & Eb & Hso').
      destruct (member_free F a b z q Hso ltac:(rewrite Er; set_solver)) as (i & fl & HF).
      change (x :: r1 ++ r2) with ((x :: r1) ++ r2) in H1. rewrite <- Eb in H1. rewrite <- Hs1 in Ht.
      destruct (take_front k1 g a q b' z' F t i fl H1 Hso' Hf1 Ht HF) as (n & k' & a2 & b2 & z2 & -> & Hinv & El & Hs'). cbn [mbind option_bind].
      eexists _, k'. split; [done|]. exists q, t, i, fl, n, a2, b2, z2. split; [set_solver|]. rewrite Hs1 in Ht. split; [done|]. split; [done|]. split; [done|]. split; [done|].
      split; [|split; [by rewrite Hs', Hs1|done]]. rewrite El, Eb. change (x :: r1 ++ q :: r2) with ((x :: r1) ++ q :: r2). by rewrite <- !Permutation_middle.
  - destruct (front_free F a b z x r Hso Er) as (i & fl & HF).
    assert (exists b' z', r = b' ++ z' /\ sorted c F a b' z') as (b' & z' & -> & Hso'). { destruct (sorted_remove F a b z [] x r Hso Er) as (b' & z' & E' & ?). by exists b', z'. }
    destruct (take_front k g a x b' z' F s i fl H Hso' Hf Hs HF) as (n & k' & a2 & b2 & z2 & -> & Hinv & El & Hs'). cbn [mbind option_bind].
    eexists _, k'. split; [done|]. exists x, s, i, fl, n, a2, b2, z2. split; [set_solver|]. split; [done|]. split; [done|]. split; [done|]. split; [done|].
    split; [by rewrite El|]. split; [done|]. intros Hfl. rewrite Hfl in Edma. by destruct (s_dma s).
Qed.

(** ** Giving slabs up *)

(** A free slab leaves the chain; the pointer to the slabs with free objects moves on. *)
Lemma reap_core k g a b z1 p z2 F : cache_inv c k g a b (z1 ++ p :: z2) F ->
  exists k1 k2, (if p =? c_freep k then next ← s_nextp k !! p; Some (set_freep k next) else Some k) = Some k1 /\ kmem_slab_unlink k1 p = Some k2 /\
    cache_inv c (kmem_slab_destroy k2 p) g a b (z1 ++ z2) F /\ (forall q, q <> p -> slabs (kmem_slab_destroy k2 p) !! q = slabs k !! q).
Proof.
  intros [H [S1 S2 S3] Hf]. assert (a ++ b ++ z1 ++ p :: z2 = (a ++ b ++ z1) ++ p :: z2) as El by (by rewrite <- !app_assoc). rewrite El in H.
  pose proof (chain_not_in _ _ _ _ (co_chain _ _ _ _ _ H)) as Hni. apply Forall_app in S3 as [S3 [_ S3']%Forall_cons].
  set (k1 := if p =? c_freep k then set_freep k (head_of kmem_slab_end z2) else k).
  assert (core c k1 g ((a ++ b ++ z1) ++ p :: z2) F) as H1 by (unfold k1; case_match; [by apply core_freep|done]).
  assert (c_freep k1 = head_of kmem_slab_end (b ++ z1 ++ z2)) as Hf1.
  { unfold k1. rewrite Hf. destruct b as [|x b]; [destruct z1 as [|x z1]|]; cbn; [by rewrite Z.eqb_refl|..]; (case_match; [|done]); assert (p = x) as -> by lia; set_solver. }
  destruct (unlink_ok k1 _ p z2 (co_chain _ _ _ _ _ H1)) as (k2 & E2 & Hc2 & Hk2). exists k1, k2.
  split. { rewrite (chain_next _ _ _ _ (co_chain _ _ _ _ _ H)). unfold k1. by case_match. }
  split; [done|]. destruct (core_moved k1 g _ ((a ++ b ++ z1) ++ z2) F H1 ltac:(set_solver) k2 Hk2 Hc2) as (H2 & Hf2 & Hs2).
  assert (slabs k1 = slabs k) as Hsk by (unfold k1; by case_match). unfold kmem_slab_destroy.
  destruct (co_slab _ _ _ _ _ H1 p) as (s & Hs & Hok); [set_solver|]. rewrite Hs2, Hs. split.
  - split; [|split; [done|done|by apply Forall_app]|cbn; congruence]. rewrite <- !app_assoc in H2. pose proof H2 as []. constructor; cbn; try done.
    + by apply (chain_ext k2).
    + destruct co_end as (e & He & ?). exists e. rewrite lookup_insert_ne; [done|set_solver].
    + intros q Hq. rewrite lookup_insert_ne by set_solver. auto.
    + intros q r t u Hq Hr Hne. rewrite !lookup_insert_ne by set_solver. eauto.
  - intros q Hq. cbn. rewrite lookup_insert_ne by done. by rewrite Hs2, Hsk.
Qed.

End Cache.
