(* ===== verification/SlabGrow.v ===== *)
(** * Caches of objects: new slabs, and slabs given up *)

From stdpp Require Import functions.
From S2P Require Import Prelude LockBlocks RunQueue Slab SlabProof SlabCalls.

Section Cache.
Context (c : shape).
Hypothesis shape_fits : shape_ok c.

Implicit Types (k : kcache) (F : Z -> list Z).

(** ** Shrinking and reaping *)

(** The last of the slabs with objects in use. *)
Lemma tail_busy k g a b z F : cache_inv c k g a b z F -> exists s, slabs k !! tail_of kmem_slab_end (a ++ b) = Some s /\
  (s_inuse s =? 0) && negb (tail_of kmem_slab_end (a ++ b) =? kmem_slab_end) = false.
Proof.
  intros [H [S1 S2 S3] _]. pose proof (sh_num c shape_fits) as Hnum. destruct (a ++ b) as [|p l _] eqn:E using rev_ind.
  - cbn. destruct (co_end _ _ _ _ _ H) as (e & ? & _ & He). exists e. split; [done|]. by rewrite He.
  - rewrite tail_of_app. assert (p ∈ a ++ b) as Hin by (rewrite E; set_solver). destruct (co_slab _ _ _ _ _ H p) as (s & Hs & Hok); [set_solver|]. exists s. split; [done|].
    rewrite (so_inuse _ _ _ _ _ _ Hok). assert (Z.of_nat (length (F p)) < c_num c); [|replace (c_num c - Z.of_nat (length (F p)) =? 0) with false by lia; done].
    apply elem_of_app in Hin as [Hp|Hp].
    + rewrite Forall_forall in S1. rewrite (S1 p Hp). cbn. lia.
    + rewrite Forall_forall in S2. specialize (S2 p Hp). cbn in S2. lia.
Qed.

(** The last slab of the chain, and whether it is free. *)
Lemma last_slab k g a b z F : cache_inv c k g a b z F -> exists s, slabs k !! tail_of kmem_slab_end (a ++ b ++ z) = Some s /\
  (s_inuse s =? 0) && negb (tail_of kmem_slab_end (a ++ b ++ z) =? kmem_slab_end) = bool_decide (z <> []).
Proof.
  intros Hi. destruct z as [|p z _] using rev_ind; [rewrite app_nil_r; by eapply tail_busy|]. pose proof Hi as [H [S1 S2 S3] _].
  rewrite bool_decide_true by (by destruct z). rewrite !app_assoc, tail_of_app. pose proof H as H'. rewrite !app_assoc in H'. pose proof (chain_not_in _ _ _ _ (co_chain _ _ _ _ _ H')) as Hn.
  destruct (co_slab _ _ _ _ _ H p) as (s & Hs & Hok); [set_solver|]. exists s. split; [done|].
  rewrite (so_inuse _ _ _ _ _ _ Hok). apply Forall_app in S3 as [_ [S3 _]%Forall_cons]. assert (p <> 0) by set_solver. unfold kmem_slab_end. lia.
Qed.

Lemma last_free k g a b z p F : cache_inv c k g a b (z ++ [p]) F -> c_lastp k = Some p.
Proof. intros H. rewrite (chain_last k _ (co_chain _ _ _ _ _ (ci_core _ _ _ _ _ _ _ H))). by rewrite !app_assoc, tail_of_app. Qed.

(** Shrinking gives up the last slab if it is free, and if it is not the only one with
    free objects. *)
Lemma shrink_turn_ok k g a b z F : cache_inv c k g a b z F -> (forall p, z = [p] -> b <> []) ->
  exists r k' z', shrink_turn k = Some (r, k') /\ cache_inv c k' g a b z' F /\
    (forall q, q ∈ a ++ b ++ z' -> q ∈ a ++ b ++ z /\ slabs k' !! q = slabs k !! q) /\
    (r = false -> k' = k /\ z' = z /\ (g <> [] \/ z = [])) /\ (r = true -> g = [] /\ exists p, z = z' ++ [p]).
Proof.
  intros H Hbug. pose proof (ci_core _ _ _ _ _ _ _ H) as Hco. unfold shrink_turn. rewrite (co_growing _ _ _ _ _ Hco).
  destruct g as [|o g]; cbn [length]; [|exists false, k, z; split; [by replace (Z.of_nat (S (length g)) =? 0) with false by lia|]; split; [done|]; split; [by auto|]; split; [by auto|done]].
  change (negb (Z.of_nat 0 =? 0)) with false. cbv iota. destruct (last_slab _ _ _ _ _ _ H) as (s & Hs & Hz).
  rewrite (chain_last k _ (co_chain _ _ _ _ _ Hco)). cbn [mbind option_bind]. rewrite Hs. cbn [mbind option_bind].
  set (p := tail_of kmem_slab_end (a ++ b ++ z)) in *.
  replace (negb (s_inuse s =? 0) || (p =? kmem_slab_end)) with (negb (bool_decide (z <> []))) by (rewrite <- Hz; by destruct (s_inuse s =? 0), (p =? kmem_slab_end)).
  destruct z as [|x z0 _] eqn:Ez using rev_ind; [exists false, k, []; split; [done|]; split; [done|]; split; [by auto|]; split; [by auto|done]|]. rewrite bool_decide_true by (by destruct z0). cbn [negb].
  assert (p = x) as -> by (unfold p; by rewrite !app_assoc, tail_of_app). destruct (reap_core c shape_fits k [] a b z0 x [] F H) as (k1 & k2 & E1 & E2 & Hinv & Hsl).
  assert ((x =? c_freep k) = false) as Ef.
  { rewrite (ci_freep _ _ _ _ _ _ _ H). pose proof Hco as Hco'. rewrite !app_assoc in Hco'. pose proof (chain_not_in _ _ _ _ (co_chain _ _ _ _ _ Hco')) as Hn.
    destruct b as [|y b]; [destruct z0 as [|y z0]|]; cbn; [by destruct (Hbug x eq_refl)|..]; assert (x <> y) by set_solver; lia. }
  rewrite Ef in E1. injection E1 as <-. rewrite E2. cbn [mbind option_bind]. rewrite app_nil_r in Hinv. exists true, (kmem_slab_destroy k2 x), z0.
  split; [done|]. split; [done|]. pose proof Hco as Hco'. rewrite !app_assoc in Hco'. pose proof (chain_not_in _ _ _ _ (co_chain _ _ _ _ _ Hco')) as Hn.
  split; [intros q Hq; split; [set_solver|apply Hsl; set_solver]|]. split; [done|]. intros _. split; [done|by exists x].
Qed.

(** The search for a free slab fit for DMA goes back over the free slabs. *)
Lemma reap_dma_ok k g a b z z2 p F fuel : cache_inv c k g a b (z ++ p :: z2) F -> (length z < fuel)%nat ->
  reap_dma fuel k p = Some None \/
  exists q z1 z3 s, reap_dma fuel k p = Some (Some q) /\ z ++ p :: z2 = z1 ++ q :: z3 /\ slabs k !! q = Some s /\ s_dma s = true.
Proof.
  revert p z2 fuel. induction z as [|y z IH] using rev_ind; intros p z2 fuel H Hfu; (destruct fuel as [|fuel]; [lia|]); cbn [reap_dma];
    pose proof (ci_core _ _ _ _ _ _ _ H) as Hco; (destruct (co_slab _ _ _ _ _ Hco p) as (s & Hs & Hok); [set_solver|]); rewrite Hs; cbn [mbind option_bind];
    (destruct (s_dma s) eqn:Ed; [right; by eexists p, _, _, s|]).
  - cbn [app] in Hco. rewrite app_assoc in Hco. rewrite (chain_prev _ _ _ _ (co_chain _ _ _ _ _ Hco)). cbn [mbind option_bind].
    destruct (tail_busy k g a b _ F H) as (t & -> & Ht). cbn [mbind option_bind]. rewrite Ht. by left.
  - pose proof Hco as Hco'. rewrite !app_assoc in Hco'. rewrite (chain_prev _ _ _ _ (co_chain _ _ _ _ _ Hco')). cbn [mbind option_bind]. rewrite tail_of_app.
    destruct (co_slab _ _ _ _ _ Hco y) as (t & Ht & Htok); [set_solver|]. rewrite Ht. cbn [mbind option_bind].
    destruct (ci_sorted _ _ _ _ _ _ _ H) as [_ _ S3]. rewrite Forall_forall in S3. rewrite (so_inuse _ _ _ _ _ _ Htok). specialize (S3 y ltac:(set_solver)). cbn in S3.
    pose proof (ch_nodup _ _ (co_chain _ _ _ _ _ Hco)) as Hnd. rewrite NoDup_cons in Hnd. assert (y <> kmem_slab_end) by (intros ->; apply (proj1 Hnd); set_solver).
    replace (c_num c - Z.of_nat (length (F y)) =? 0) with true by lia. replace (y =? kmem_slab_end) with false by lia. cbn [andb negb].
    rewrite <- app_assoc in H. rewrite length_app in Hfu. cbn in Hfu. destruct (IH y (p :: z2) fuel H ltac:(lia)) as [E|(q & z1 & z3 & u & E & El & Hu)]; [by left|].
    right. exists q, z1, z3, u. rewrite <- app_assoc. done.
Qed.

(** Reaping gives up a free slab, if there is one of the kind that is asked for. *)
Lemma reap_turn_ok k g a b z F dma : cache_inv c k g a b z F ->
  exists r k' z', reap_turn k dma = Some (r, k') /\ cache_inv c k' g a b z' F /\
    (forall q, q ∈ a ++ b ++ z' -> q ∈ a ++ b ++ z /\ slabs k' !! q = slabs k !! q) /\
    (r = false -> k' = k /\ z' = z) /\ (r = true -> exists z1 p z2, z = z1 ++ p :: z2 /\ z' = z1 ++ z2).
Proof.
  intros H. pose proof (ci_core _ _ _ _ _ _ _ H) as Hco. pose proof (chain_size c _ _ _ _ Hco) as Hsz. unfold reap_turn. destruct (negb (c_growing k =? 0)).
  { exists false, k, z. split; [done|]. split; [done|]. split; [by auto|]. done. }
  destruct (last_slab _ _ _ _ _ _ H) as (s & Hs & Hz). rewrite (chain_last k _ (co_chain _ _ _ _ _ Hco)). cbn [mbind option_bind]. rewrite Hs. cbn [mbind option_bind].
  set (p := tail_of kmem_slab_end (a ++ b ++ z)) in *.
  replace (negb (s_inuse s =? 0) || (p =? kmem_slab_end)) with (negb (bool_decide (z <> []))) by (rewrite <- Hz; by destruct (s_inuse s =? 0), (p =? kmem_slab_end)).
  destruct z as [|x z0 _] eqn:Ez using rev_ind; [exists false, k, []; split; [done|]; split; [done|]; split; [by auto|]; done|].
  rewrite bool_decide_true by (by destruct z0). cbn [negb]. assert (p = x) as -> by (unfold p; by rewrite !app_assoc, tail_of_app). clear Hz Hs.
  assert (exists r, (if dma then reap_dma (size (slabs k)) k x else Some (Some x)) = Some r /\ match r with None => True | Some q => exists z1 z2, z0 ++ [x] = z1 ++ q :: z2 end) as (r & -> & Hr).
  { destruct dma; [|eexists; split; [done|]; by exists z0, []]. rewrite !length_app in Hsz.
    destruct (reap_dma_ok k g a b z0 [] x F (size (slabs k)) H ltac:(lia)) as [->|(q & z1 & z3 & t & -> & El & _)]; [by eexists|]. eexists. split; [done|]. by exists z1, z3. }
  cbn [mbind option_bind]. destruct r as [q|]; [|exists false, k, (z0 ++ [x]); split; [done|]; split; [done|]; split; [by auto|]; done].
  destruct Hr as (z1 & z2 & El). rewrite El in H, Hco. destruct (reap_core c shape_fits k g a b z1 q z2 F H) as (k1 & k2 & E1 & E2 & Hinv & Hsl).
  rewrite E1. cbn [mbind option_bind]. rewrite E2. cbn [mbind option_bind]. exists true, (kmem_slab_destroy k2 q), (z1 ++ z2). split; [done|]. split; [done|].
  rewrite !app_assoc in Hco. pose proof (chain_not_in _ _ _ _ (co_chain _ _ _ _ _ Hco)) as Hn.
  split; [intros y Hy; split; [rewrite El; set_solver|apply Hsl; set_solver]|]. split; [done|]. intros _. by exists z1, q, z2.
Qed.

(** ** Growing *)

Lemma grow_start_ok k g a b z F flags : cache_inv c k g a b z F ->
  exists r k', grow_start c k flags = (r, k') /\ slabs k' = slabs k /\ c_freep k' = c_freep k /\
    match r with Some o => cache_inv c k' (o :: g) a b z F | None => k' = k end.
Proof.
  intros [H Hso Hf]. unfold grow_start. destruct (flag flags SLAB_NO_GROW); [by exists None, k|]. eexists _, _. split; [done|]. split; [done|]. split; [done|].
  split; [|done|done]. pose proof H as []. pose proof shape_fits as []. constructor; try done; cbn.
  - by apply (chain_ext k).
  - lia.
  - constructor; [|done]. split; [nia|]. assert (c_colour_next k * c_align c <= c_colour c * c_align c) by nia. lia.
  - destruct (c_colour_next k =? 0) eqn:E; lia.
Qed.

Lemma set_page_slab_spec n nr p m x : set_page_slab n nr p m !! x = if decide (nr <= x < nr + Z.of_nat n) then Some p else m !! x.
Proof.
  revert nr m. induction n as [|n IH]; intros nr m; cbn [set_page_slab]; [by rewrite decide_False by lia|]. rewrite IH.
  destruct (decide (x = nr)) as [->|]; [rewrite decide_False, decide_True, lookup_insert_eq by lia; done|]. rewrite lookup_insert_ne by done. repeat case_decide; lia || done.
Qed.

(** The numbers of the objects in the order in which [init_objs] links them. *)
Definition all_objects (n : nat) : list Z :=
  if SLAB_BUFCTL (c_flags c) then reverse (seqZ 0 (Z.of_nat n)) else seqZ (c_num c - Z.of_nat n) (Z.of_nat n).

Lemma all_objects_S n : all_objects (S n) = (if SLAB_BUFCTL (c_flags c) then Z.of_nat n else c_num c - Z.of_nat (S n)) :: all_objects n.
Proof.
  unfold all_objects. destruct (SLAB_BUFCTL (c_flags c)).
  - rewrite seqZ_S, reverse_snoc. done.
  - rewrite Nat2Z.inj_succ, (seqZ_cons (c_num c - Z.succ (Z.of_nat n))) by lia. f_equal. f_equal; lia.
Qed.

Lemma all_objects_in n i : i ∈ all_objects n -> if SLAB_BUFCTL (c_flags c) then 0 <= i < Z.of_nat n else c_num c - Z.of_nat n <= i < c_num c.
Proof. unfold all_objects. destruct (SLAB_BUFCTL (c_flags c)); rewrite ?elem_of_reverse, elem_of_seqZ; lia. Qed.

Lemma all_objects_ok : NoDup (all_objects (Z.to_nat (c_num c))) /\ Forall (object_no c) (all_objects (Z.to_nat (c_num c))) /\ Z.of_nat (length (all_objects (Z.to_nat (c_num c)))) = c_num c.
Proof.
  pose proof (sh_num c shape_fits). split; [|split].
  - unfold all_objects. case_match; [rewrite reverse_Permutation|]; apply NoDup_seqZ.
  - apply Forall_forall. intros i Hi%all_objects_in. unfold object_no. case_match; lia.
  - unfold all_objects. case_match; rewrite ?length_reverse, length_seqZ; lia.
Qed.

Lemma init_objs_ok s w n link w' : s_index s = 0 \/ 0 < s_index s -> (s_index s =? 0) = negb (SLAB_BUFCTL (c_flags c)) -> Z.of_nat n <= c_num c ->
  init_objs c n (s_index s) (if SLAB_BUFCTL (c_flags c) then s_mem s + (c_num c - Z.of_nat n) * c_offset c else obj_addr c s (c_num c - Z.of_nat n)) w = (link, w') ->
  free_list c w' s link (all_objects n) /\ forall x, (forall i, i ∈ all_objects n -> buf_addr c s i <> x) -> w' !! x = w !! x.
Proof.
  intros Hix Hb. revert link w'. induction n as [|n IH]; intros link w' Hn; cbn [init_objs].
  { intros [= <- <-]. split; [|done]. unfold all_objects. by case_match. }
  rewrite Hb. set (o := if SLAB_BUFCTL (c_flags c) then _ else _).
  match goal with |- (let '(_, _) := init_objs c n _ ?o' w in _) = _ -> _ => assert (o' = if SLAB_BUFCTL (c_flags c) then s_mem s + (c_num c - Z.of_nat n) * c_offset c else obj_addr c s (c_num c - Z.of_nat n)) as -> end.
  { unfold o, obj_addr, stride. destruct (SLAB_BUFCTL (c_flags c)); cbn [negb]; lia. }
  destruct (init_objs c n _ _ w) as [l1 w1] eqn:E1. intros [= <- <-]. destruct (IH l1 w1 ltac:(lia) eq_refl) as [Hl Hw]. rewrite all_objects_S.
  match goal with |- free_list c (<[?x := _]> _) s _ (?i :: _) /\ _ => assert (x = buf_addr c s i) as Ex; [|assert (forall j, j ∈ all_objects n -> j <> i) as Hne] end.
  { unfold o, buf_addr, obj_addr, stride. destruct (SLAB_BUFCTL (c_flags c)); cbn [negb]; lia. }
  { intros j Hj%all_objects_in. destruct (SLAB_BUFCTL (c_flags c)); lia. }
  rewrite Ex. split.
  - cbn. split; [done|]. eexists. split; [apply lookup_insert_eq|]. apply free_list_upd; [done|]. intros j Hj E%buf_inj; [|done]. by apply (Hne j).
  - intros x Hx. rewrite lookup_insert_ne by (apply Hx; by left). apply Hw. intros i Hi. apply Hx. by right.
Qed.

(** What the page allocator and the other caches promise: pages, structures and arrays that
    no slab of this cache has. *)
Record fresh (k : kcache) (l : list Z) (pages mgmt index : Z) : Prop := {
  fr_pages : 0 < pages /\ pages mod PAGE_SIZE = 0 /\ pages + span c < 2 ^ 32;
  fr_blocks q t : q ∈ l -> slabs k !! q = Some t -> pages + span c <= base t \/ base t + span c <= pages;
  fr_mgmt : SLAB_OFF_SLAB (c_flags c) = true -> 0 <= mgmt /\ mgmt ∉ l;
  fr_index q t : SLAB_BUFCTL (c_flags c) = true -> index <> 0 -> 0 < index /\
    (q ∈ l -> slabs k !! q = Some t -> index + sizeof_bufctl * c_num c <= s_index t \/ s_index t + sizeof_bufctl * c_num c <= index) }.

Lemma l1_align x : 0 <= x -> x + 16 < 2 ^ 32 -> x <= L1_CACHE_ALIGN x <= x + 15 /\ L1_CACHE_ALIGN x mod 16 = 0.
Proof.
  intros H0 H1. unfold L1_CACHE_ALIGN, L1_CACHE_BYTES. change (16 - 1) with 15. rewrite (u32_id (x + 15)) by lia.
  change (u32 (Z.lnot 15)) with (Z.ldiff (Z.ones 32) (Z.ones 4)). assert (Z.land (x + 15) (Z.ldiff (Z.ones 32) (Z.ones 4)) = Z.ldiff (x + 15) (Z.ones 4)) as ->.
  { apply Z.bits_inj'. intros n Hn. rewrite Z.land_spec, !Z.ldiff_spec. destruct (decide (n < 32)).
    - rewrite (Z.ones_spec_low 32 n) by lia. by destruct (Z.testbit (x + 15) n).
    - assert (Z.testbit (x + 15) n = false) as ->; [|done]. destruct (decide (x + 15 = 0)) as [->|]; [apply Z.testbit_0_l|].
      apply Z.bits_above_log2; [lia|]. apply Z.log2_lt_pow2; [lia|]. eapply Z.lt_le_trans; [|apply (Z.pow_le_mono_r 2 32); lia]. lia. }
  rewrite Z.ldiff_ones_r by lia. rewrite Z.shiftl_mul_pow2, Z.shiftr_div_pow2 by lia. change (2 ^ 4) with 16.
  pose proof (Z.div_mod (x + 15) 16 ltac:(lia)). pose proof (Z.mod_pos_bound (x + 15) 16 ltac:(lia)). split; [lia|]. apply Z.mod_mul. lia.
Qed.

Lemma span_pages : span c = PAGE_SIZE * Z.shiftl 1 (c_gfporder c) /\ 1 <= Z.shiftl 1 (c_gfporder c).
Proof. pose proof (sh_order c shape_fits). unfold span. rewrite !Z.shiftl_mul_pow2 by lia. pose proof (Z.pow_pos_nonneg 2 (c_gfporder c) ltac:(lia) ltac:(lia)). lia. Qed.

(** The management of a slab lies behind its objects, within its pages. *)
Lemma mgmt_place pages o mgmt : SLAB_OFF_SLAB (c_flags c) = false -> 0 < pages -> pages mod PAGE_SIZE = 0 -> pages + span c < 2 ^ 32 ->
  0 <= o -> o + c_num c * stride c + mgmt_size c <= span c ->
  let p := kmem_cache_slabmgmt c (pages + o) mgmt in pages + o + c_num c * stride c <= p /\ p + sizeof_kmem_slab <= pages + span c.
Proof.
  intros Hoff Hp Ha Hw Ho Hfit p. unfold mgmt_size in Hfit. rewrite Hoff in Hfit. change slab_align_size with 32 in Hfit.
  pose proof (stride_pos c shape_fits). pose proof (sh_num c shape_fits). assert (0 <= c_num c * stride c) by nia.
  assert (p = L1_CACHE_ALIGN (pages + o + c_num c * stride c)) as ->.
  { unfold p, kmem_cache_slabmgmt, stride. rewrite Hoff. f_equal. destruct (SLAB_BUFCTL (c_flags c)); lia. }
  destruct (l1_align (pages + o + c_num c * stride c)) as [Hl1 Hl2]; [lia|lia|]. split; [lia|]. unfold sizeof_kmem_slab.
  destruct span_pages as [Es Hs]. assert ((pages + span c) mod 16 = 0) as Hm.
  { rewrite Es. unfold PAGE_SIZE in *. pose proof (Z.div_mod pages 4096 ltac:(lia)) as Hd. rewrite Ha in Hd.
    replace (pages + 4096 * Z.shiftl 1 (c_gfporder c)) with ((256 * (pages / 4096) + 256 * Z.shiftl 1 (c_gfporder c)) * 16) by lia. apply Z.mod_mul. lia. }
  pose proof (Z.div_mod (pages + span c) 16 ltac:(lia)). pose proof (Z.div_mod (L1_CACHE_ALIGN (pages + o + c_num c * stride c)) 16 ltac:(lia)). lia.
Qed.

Lemma core_growth k g g' l F n d x : core c k g l F -> n = Z.of_nat (length g') -> Forall (fun o => o ∈ g) g' -> 0 <= x <= c_colour c -> core c (set_growth k n d x) g' l F.
Proof.
  intros [] -> Hg Hx. constructor; try done; [by apply (chain_ext k)|]. rewrite Forall_forall in *. auto.
Qed.

Lemma grow_failed k g o a b z F : cache_inv c k (o :: g) a b z F -> cache_inv c (set_growth k (c_growing k - 1) (c_dflags k) (c_colour_next k)) g a b z F.
Proof.
  intros [H Hso Hf]. split; [|done|done]. pose proof (co_growing _ _ _ _ _ H) as Hg. cbn in Hg. eapply core_growth; [done|lia| |by apply H].
  apply Forall_forall. intros x Hx. by right.
Qed.


(** Pages of different slabs have different numbers. *)
Lemma pages_apart x y nr : x mod PAGE_SIZE = 0 -> y mod PAGE_SIZE = 0 -> x + span c <= y \/ y + span c <= x ->
  MAP_NR x <= nr < MAP_NR x + Z.shiftl 1 (c_gfporder c) -> ~ MAP_NR y <= nr < MAP_NR y + Z.shiftl 1 (c_gfporder c).
Proof.
  destruct span_pages as [Es Hs]. rewrite Es. unfold MAP_NR, PAGE_SIZE. rewrite !(Z.shiftr_div_pow2 _ 12) by lia. change (2 ^ 12) with 4096. intros Hx Hy Hd Hnr Hnr'.
  pose proof (Z.div_mod x 4096 ltac:(lia)). pose proof (Z.div_mod y 4096 ltac:(lia)). lia.
Qed.

(** The new slab. *)
Definition new_slab (freep index mem offset : Z) (dma : bool) : slab := Slab freep index SLAB_MAGIC_ALLOC 0 mem offset dma.

Lemma new_slab_ok o pages dma mgmt index w m link w' :
  0 < pages -> pages mod PAGE_SIZE = 0 -> pages + span c < 2 ^ 32 -> 0 <= o -> o + c_num c * stride c + mgmt_size c <= span c ->
  (if SLAB_BUFCTL (c_flags c) then 0 < index else index = 0) ->
  init_objs c (Z.to_nat (c_num c)) index (pages + o) w = (link, w') ->
  let p := kmem_cache_slabmgmt c (pages + o) mgmt in
  let s := new_slab link index (pages + o) o dma in
  slab_ok c w' (set_page_slab (Z.to_nat (Z.shiftl 1 (c_gfporder c))) (MAP_NR pages) p m) p s (all_objects (Z.to_nat (c_num c))) /\
  forall x, (forall i, object_no c i -> buf_addr c s i <> x) -> w' !! x = w !! x.
Proof.
  intros Hp Ha Hw Ho Hfit Hix Hinit p s. pose proof (sh_num c shape_fits) as Hnum. destruct all_objects_ok as (Hnd & Hr & Hlen). destruct span_pages as [_ Hsp].
  destruct (init_objs_ok s w (Z.to_nat (c_num c)) link w') as [Hl Hw'].
  - cbn. destruct (SLAB_BUFCTL (c_flags c)); auto.
  - cbn. destruct (SLAB_BUFCTL (c_flags c)); cbn; lia.
  - lia.
  - rewrite <- Hinit. unfold obj_addr. cbn [s_index s_mem s new_slab]. f_equal. destruct (SLAB_BUFCTL (c_flags c)); lia.
  - split.
    + constructor; try done; cbn [s_inuse s_index s_offset s new_slab s_freep].
      * lia.
      * unfold base. cbn. split; [lia|]. by replace (pages + o - o) with pages by lia.
      * intros Hoff. unfold base. cbn. pose proof (mgmt_place pages o mgmt Hoff Hp Ha Hw Ho Hfit) as Hm. cbv zeta in Hm. fold p in Hm.
        pose proof (stride_pos c shape_fits). assert (0 <= c_num c * stride c) by nia. unfold sizeof_kmem_slab in Hm. lia.
      * intros i Hi Hn. exfalso. pose proof (numbers_room c shape_fits _ i Hnd Hr Hi Hn). lia.
      * intros nr Hnr. rewrite set_page_slab_spec. unfold base in Hnr. cbn in Hnr. replace (pages + o - o) with pages in Hnr by lia. rewrite decide_True by lia. done.
    + intros x Hx. apply Hw'. intros i Hi. apply Hx. rewrite Forall_forall in Hr. auto.
Qed.

(** A new slab joins the chain. *)
Lemma add_slab_core k g l F p s fl w' pages n3 q3 :
  core c k g l F -> slab_ok c w' (set_page_slab (Z.to_nat (Z.shiftl 1 (c_gfporder c))) (MAP_NR pages) p (page_slab k)) p s fl ->
  (forall x, (forall i, object_no c i -> buf_addr c s i <> x) -> w' !! x = words k !! x) ->
  base s = pages -> (forall q t, q ∈ l -> slabs k !! q = Some t -> apart c s t) -> p ∉ kmem_slab_end :: l ->
  let k3 := set_links (put_slab (set_words (set_pages k (set_page_slab (Z.to_nat (Z.shiftl 1 (c_gfporder c))) (MAP_NR pages) p (page_slab k))) w') p s) n3 q3 in
  chain k3 (l ++ [p]) -> core c k3 g (l ++ [p]) (<[p := fl]> F).
Proof.
  intros H Hok Hother Hbase Hap Hpn k3 Hch3. assert (pages mod PAGE_SIZE = 0) as Ha by (rewrite <- Hbase; apply (so_base _ _ _ _ _ _ Hok)).
  pose proof H as []. constructor; try done.
  - destruct co_end as (e & He & ?). exists e. cbn. rewrite lookup_insert_ne; [done|set_solver].
  - intros q Hq. cbn. destruct (decide (q = p)) as [->|Hne]; [rewrite lookup_insert_eq, fn_lookup_insert; by exists s|].
    rewrite lookup_insert_ne, fn_lookup_insert_ne by done. destruct (co_slab q) as (t & Ht & Htok); [set_solver|]. exists t. split; [done|].
    pose proof Htok as []. assert (forall i, object_no c i -> w' !! buf_addr c t i = words k !! buf_addr c t i) as Hsame.
    { intros i Hi. apply Hother. intros j Hj. pose proof (Hap q t ltac:(set_solver) Ht) as [Hd Hd']. pose proof (buf_in c shape_fits _ _ _ _ _ _ Htok Hi) as [_ B1]. pose proof (buf_in c shape_fits _ _ _ _ _ _ Hok Hj) as [_ B2].
      destruct (SLAB_BUFCTL (c_flags c)); [specialize (Hd' eq_refl)|]; lia. }
    constructor; try done.
    + clear - so_list so_range Hsame. revert so_list. generalize (s_freep t). induction (F q) as [|i fl IH]; intros f; [done|]. cbn. intros (-> & n & Hn & Hl).
      apply Forall_cons in so_range as [Hi Hr]. split; [done|]. exists n. split; [by rewrite Hsame|]. by apply IH.
    + intros i Hi Hn. rewrite Hsame by done. auto.
    + intros nr Hnr. rewrite set_page_slab_spec, decide_False; [by apply so_pages|]. destruct span_pages as [_ Hsp]. rewrite Z2Nat.id by lia.
      apply (pages_apart (base t) pages); [apply so_base|done| |done]. destruct (Hap q t ltac:(set_solver) Ht) as [Hd _]. lia.
  - intros q r t u Hq Hr Hne. cbn. destruct (decide (q = p)) as [->|]; destruct (decide (r = p)) as [->|]; intros Ht Hu; simplify_map_eq.
    + eapply Hap; [|done]. set_solver.
    + pose proof (Hap q t ltac:(set_solver) Ht) as [Hd Hd']. split; [lia|]. intros Hb. specialize (Hd' Hb). lia.
    + apply (co_apart q r); [set_solver|set_solver|done|done|done].
Qed.

Lemma grow_finish_ok k g o a b z F pages dma mgmt index : cache_inv c k (o :: g) a b z F ->
  (pages <> 0 -> fresh k (a ++ b ++ z) pages mgmt index) ->
  exists r k', grow_finish c k o pages dma mgmt index = Some (r, k') /\
    (if r then exists p s, (p ∉ kmem_slab_end :: a ++ b ++ z) /\ cache_inv c k' g a b (z ++ [p]) (<[p := all_objects (Z.to_nat (c_num c))]> F) /\
      slabs k' = <[p := s]> (slabs k) /\ s_mem s = pages + o /\ s_dma s = dma
    else cache_inv c k' g a b z F /\ slabs k' = slabs k).
Proof.
  intros Hinv Hfr. pose proof (grow_failed k g o a b z F Hinv) as Hfail. unfold grow_finish. destruct (pages =? 0) eqn:Ep; [by eexists false, _|].
  specialize (Hfr ltac:(lia)). destruct (fr_pages _ _ _ _ _ Hfr) as (Hp & Ha & Hw). set (p := kmem_cache_slabmgmt c (pages + o) mgmt).
  destruct (p =? 0) eqn:Ep0; [by eexists false, _|]. set (ix := if SLAB_BUFCTL (c_flags c) then index else 0).
  destruct (SLAB_BUFCTL (c_flags c) && (ix =? 0)) eqn:Eix; [by eexists false, _|].
  destruct Hinv as [H Hso Hf]. pose proof (co_places _ _ _ _ _ H) as [[Ho Hfit] Hpl]%Forall_cons. set (l := a ++ b ++ z) in *.
  assert (if SLAB_BUFCTL (c_flags c) then 0 < ix else ix = 0) as Hix.
  { unfold ix in *. destruct (SLAB_BUFCTL (c_flags c)) eqn:Eb; [|done]. cbn in Eix. by apply (fr_index _ _ _ _ _ Hfr 0 (new_slab 0 0 0 0 false)); [|lia]. }
  set (k1 := set_pages k _). destruct (init_objs c (Z.to_nat (c_num c)) ix (pages + o) (words k1)) as [link w'] eqn:Ei.
  destruct (new_slab_ok o pages dma mgmt ix (words k1) (page_slab k) link w' Hp Ha Hw Ho Hfit Hix Ei) as [Hok Hother]. cbv zeta in Hok, Hother. fold p in Hok.
  set (s := new_slab link ix (pages + o) o dma) in *. assert (base s = pages) as Hbase by (unfold base; cbn; lia).
  assert (forall q t, q ∈ l -> slabs k !! q = Some t -> apart c s t) as Hap.
  { intros q t Hq Ht. split; [rewrite Hbase; by apply (fr_blocks _ _ _ _ _ Hfr q)|]. intros Hb. cbn. unfold ix in *. rewrite Hb in *. cbn in Eix.
    destruct (fr_index _ _ _ _ _ Hfr q t Hb ltac:(lia)) as [_ Hi]. by apply Hi. }
  assert (p ∉ kmem_slab_end :: l) as Hpn.
  { rewrite not_elem_of_cons. unfold kmem_slab_end. split; [lia|]. destruct (SLAB_OFF_SLAB (c_flags c)) eqn:Eo.
    - unfold p, kmem_cache_slabmgmt. rewrite Eo. by apply (fr_mgmt _ _ _ _ _ Hfr Eo).
    - intros Hin. destruct (co_slab _ _ _ _ _ H p Hin) as (t & Ht & Htok). pose proof (so_self _ _ _ _ _ _ Htok Eo) as Hs. pose proof (so_self _ _ _ _ _ _ Hok Eo) as Hs'.
      destruct (Hap p t Hin Ht) as [Hd _]. lia. }
  assert (chain (put_slab (set_words k1 w') p s) l) as Hch by (apply (chain_ext k); [done|done|apply H]).
  destruct (link_end_ok _ l p Hch Hpn) as (k3 & E3 & Hch3 & Hk3). unfold s, new_slab in E3. rewrite E3. cbn [mbind option_bind].
  eexists true, _. split; [done|]. exists p, s. split; [done|]. destruct Hk3 as (n3 & q3 & ->).
  set (k3 := set_links (put_slab (set_words k1 w') p s) n3 q3). set (k4 := if c_freep k3 =? kmem_slab_end then set_freep k3 p else k3).
  assert (slabs k4 = <[p := s]> (slabs k)) as Hs4 by (unfold k4; destruct (c_freep k3 =? kmem_slab_end); reflexivity).
  split; [|done]. split.
  - assert (core c k3 (o :: g) (l ++ [p]) (<[p := all_objects (Z.to_nat (c_num c))]> F)) as H3.
    { by apply add_slab_core. }
    assert (a ++ b ++ z ++ [p] = l ++ [p]) as -> by (unfold l; by rewrite <- !app_assoc).
    assert (core c k4 (o :: g) (l ++ [p]) (<[p := all_objects (Z.to_nat (c_num c))]> F)) as H4 by (unfold k4; destruct (c_freep k3 =? kmem_slab_end); [by apply core_freep|done]).
    apply (core_growth _ (o :: g)); [done| |apply Forall_forall; intros x Hx; by right|apply H4]. rewrite (co_growing _ _ _ _ _ H4). cbn. lia.
  - destruct (sorted_drop c shape_fits F a b z p (all_objects (Z.to_nat (c_num c))) Hso ltac:(set_solver)) as [S1 S2 S3]. split; [done|done|].
    apply Forall_app. split; [done|]. constructor; [|done]. rewrite fn_lookup_insert. apply all_objects_ok.
  - cbn [c_freep set_growth]. unfold k4. change (c_freep k3) with (c_freep k). rewrite Hf, app_assoc.
    destruct (b ++ z) as [|y r] eqn:Ebz; cbn; [done|]. assert (y <> 0). { pose proof (ch_nodup _ _ (co_chain _ _ _ _ _ H)) as Hnd. unfold l in Hnd. rewrite ?Ebz, NoDup_cons in Hnd. unfold kmem_slab_end in Hnd. set_solver. }
    unfold kmem_slab_end. replace (y =? 0) with false by lia. done.
Qed.

End Cache.
