(* ===== verification/SlabShape.v ===== *)
(** * Caches of objects: the layout that [kmem_cache_create] computes *)

From S2P Require Import Prelude Slab SlabProof.

(** ** Rounding up *)

Lemma align_up n x : 0 <= n <= 16 -> 0 <= x -> x + 2 ^ n < 2 ^ 32 ->
  let r := Z.land (u32 (x + (2 ^ n - 1))) (u32 (Z.lnot (2 ^ n - 1))) in x <= r < x + 2 ^ n /\ r mod 2 ^ n = 0.
Proof.
  intros Hn H0 H1. pose proof (Z.pow_pos_nonneg 2 n ltac:(lia) ltac:(lia)) as Hp. cbv zeta. rewrite (u32_id (x + (2 ^ n - 1))) by lia.
  set (y := x + (2 ^ n - 1)). assert (Z.land y (u32 (Z.lnot (2 ^ n - 1))) = Z.ldiff y (Z.ones n)) as ->.
  { apply Z.bits_inj'. intros i Hi. unfold u32. rewrite Z.land_spec, Z.ldiff_spec.
    replace (2 ^ n - 1) with (Z.ones n) by (rewrite Z.ones_equiv; lia). destruct (decide (i < 32)).
    - rewrite Z.mod_pow2_bits_low, Z.lnot_spec by lia. done.
    - assert (Z.testbit y i = false) as ->; [|done]. destruct (decide (y = 0)) as [->|]; [apply Z.testbit_0_l|].
      apply Z.bits_above_log2; [lia|]. apply Z.log2_lt_pow2; [lia|]. eapply Z.lt_le_trans; [|apply (Z.pow_le_mono_r 2 32); lia]. lia. }
  rewrite Z.ldiff_ones_r, Z.shiftl_mul_pow2, Z.shiftr_div_pow2 by lia. pose proof (Z.div_mod y (2 ^ n) ltac:(lia)). pose proof (Z.mod_pos_bound y (2 ^ n) ltac:(lia)).
  split; [lia|]. apply Z.mod_mul. lia.
Qed.

(** The flags that a cache can be created with. *)
Lemma flag_values f : Z.land f SLAB_C_MASK = 0 \/ Z.land f SLAB_C_MASK = 0x1000 \/ Z.land f SLAB_C_MASK = 0x2000 \/ Z.land f SLAB_C_MASK = 0x3000.
Proof.
  assert (Z.land f SLAB_C_MASK = Z.shiftl (Z.land (Z.shiftr f 12) 3) 12) as ->.
  { change SLAB_C_MASK with (Z.shiftl 3 12). apply Z.bits_inj'. intros i Hi. rewrite Z.land_spec, !Z.shiftl_spec by done. destruct (decide (i < 12)).
    - rewrite (Z.testbit_neg_r _ (i - 12)), (Z.testbit_neg_r _ (i - 12)) by lia. apply andb_false_r.
    - rewrite Z.land_spec, Z.shiftr_spec by lia. by replace (i - 12 + 12) with i by lia. }
  change 3 with (Z.ones 2). rewrite Z.land_ones by lia. pose proof (Z.mod_pos_bound (Z.shiftr f 12) (2 ^ 2) ltac:(lia)) as H. change (2 ^ 2) with 4 in *.
  assert (Z.shiftr f 12 mod 4 = 0 \/ Z.shiftr f 12 mod 4 = 1 \/ Z.shiftr f 12 mod 4 = 2 \/ Z.shiftr f 12 mod 4 = 3) as [->|[->|[->| ->]]] by lia; vm_compute; auto.
Qed.

(** ** The size of a slab *)

Section Order.
Context (size extra flags limit border : Z).

Definition mgmt : Z := if SLAB_OFF_SLAB flags then 0 else slab_align_size.

(** The objects that fit into a slab of a given order. *)
Definition fitting (order : Z) : Z := (Z.shiftl PAGE_SIZE order - mgmt) / size.

Hypothesis size_ok : 0 < size /\ size + mgmt <= 131072.
Hypothesis bufctl_ok : SLAB_BUFCTL flags = true -> mgmt = 0 /\ 512 <= size.
Hypothesis limit_ok : 8 <= limit.

Lemma pages_order order : 0 <= order -> Z.shiftl PAGE_SIZE order = 4096 * 2 ^ order /\ 0 < 2 ^ order.
Proof. clear. intros. split; [by rewrite Z.shiftl_mul_pow2|]. apply Z.pow_pos_nonneg; lia. Qed.

Lemma mgmt_values : mgmt = 0 \/ mgmt = 32.
Proof. unfold mgmt. case_match; auto. Qed.

Lemma fitting_spec order : 0 <= order -> 0 <= fitting order /\ 0 <= Z.shiftl PAGE_SIZE order - mgmt - fitting order * size < size.
Proof.
  clear bufctl_ok limit_ok. intros Ho. destruct (pages_order order Ho) as [E Hp]. unfold fitting. rewrite E. pose proof mgmt_values.
  pose proof (Z.div_mod (4096 * 2 ^ order - mgmt) size ltac:(lia)). pose proof (Z.mod_pos_bound (4096 * 2 ^ order - mgmt) size ltac:(lia)).
  split; [apply Z.div_pos; lia|lia].
Qed.

Lemma fitting_step order : 1 <= order -> Z.shiftl PAGE_SIZE order = 2 * Z.shiftl PAGE_SIZE (order - 1).
Proof.
  clear. intros Ho. destruct (pages_order order ltac:(lia)) as [-> _]. destruct (pages_order (order - 1) ltac:(lia)) as [-> _].
  replace order with (1 + (order - 1)) at 1 by lia. rewrite Z.pow_add_r by lia. lia.
Qed.

(** Too many objects for an array of bufctls: the order before has some, and not too
    many. *)
Lemma order_before order : 0 <= order <= 5 -> SLAB_BUFCTL flags = true -> limit < fitting order ->
  (order = 0 \/ fitting (order - 1) <= limit) -> 1 <= order /\ 1 <= fitting (order - 1) <= limit.
Proof.
  intros Ho Hb Hl Hprev. destruct (bufctl_ok Hb) as [Hm Hs]. destruct (fitting_spec order ltac:(lia)) as [Hf0 Hf]. rewrite Hm in Hf.
  assert (1 <= order) as H1. { destruct (decide (order = 0)) as [->|]; [|lia]. change (Z.shiftl PAGE_SIZE 0) with 4096 in Hf. nia. }
  split; [done|]. destruct Hprev as [?|Hprev]; [lia|]. split; [|done]. destruct (fitting_spec (order - 1) ltac:(lia)) as [Hg0 Hg].
  rewrite (fitting_step order H1) in Hf. rewrite Hm in Hg. assert (fitting (order - 1) <> 0); [|lia]. intros E. rewrite E in Hg. nia.
Qed.

Lemma choose_step n order :
  let f := fitting order in let left_over := Z.shiftl PAGE_SIZE order - mgmt - f * size in
  let next := choose_order n (order + 1) size extra flags limit border in
  choose_order (S n) order size extra flags limit border =
    if f =? 0 then next
    else if SLAB_BUFCTL flags && (limit <? f) then
      let o := u32 (order - 1) in
      if fitting o =? 0 then choose_order n (o + 1) size extra flags limit border
      else Some (o, Z.shiftl PAGE_SIZE o - mgmt - fitting o * size, fitting o)
    else if order =? 5 then Some (order, left_over, f)
    else if (f <=? 4) && (order <? border) then next
    else if left_over <=? 32 then Some (order, left_over, f)
    else if (left_over + mgmt + extra * f) * 8 <=? Z.shiftl PAGE_SIZE order then Some (order, left_over, f)
    else next.
Proof. reflexivity. Qed.

(** The search ends with an order of at most 5 and at least one object. *)
Lemma choose_order_ok n order : 0 <= order <= 5 -> Z.of_nat n = 5 - order ->
  (SLAB_BUFCTL flags = true -> order = 0 \/ fitting (order - 1) <= limit) ->
  exists o, 0 <= o <= 5 /\ choose_order (S n) order size extra flags limit border = Some (o, Z.shiftl PAGE_SIZE o - mgmt - fitting o * size, fitting o) /\
    1 <= fitting o /\ (SLAB_BUFCTL flags = true -> fitting o <= limit).
Proof.
  revert order. induction n as [|n IH]; intros order Ho Hn Hprev; destruct (fitting_spec order ltac:(lia)) as [Hf0 Hf]; rewrite choose_step; cbv zeta.
  - assert (order = 5) as -> by lia. change (Z.shiftl PAGE_SIZE 5) with 131072 in Hf at 1 2. assert (1 <= fitting 5) as H1 by nia.
    replace (fitting 5 =? 0) with false by lia. destruct (SLAB_BUFCTL flags && (limit <? fitting 5)) eqn:El.
    + apply andb_true_iff in El as [Hb El]. destruct (order_before 5 Ho Hb ltac:(lia) (Hprev Hb)) as [_ H4]. change (u32 (5 - 1)) with 4. change (5 - 1) with 4 in H4.
      replace (fitting 4 =? 0) with false by lia. exists 4. split; [lia|]. split; [done|]. lia.
    + exists 5. split; [lia|]. split; [done|]. split; [done|]. intros Hb. rewrite Hb in El. cbn in El. lia.
  - destruct (fitting order =? 0) eqn:E0; [apply IH; [lia|lia|]; intros _; right; replace (order + 1 - 1) with order by lia; lia|].
    destruct (SLAB_BUFCTL flags && (limit <? fitting order)) eqn:El.
    + apply andb_true_iff in El as [Hb El]. destruct (order_before order Ho Hb ltac:(lia) (Hprev Hb)) as [Ho1 H4]. rewrite (u32_id (order - 1)) by lia.
      replace (fitting (order - 1) =? 0) with false by lia. exists (order - 1). split; [lia|]. split; [done|]. lia.
    + assert (SLAB_BUFCTL flags = true -> fitting order <= limit) as Hlim by (intros Hb; rewrite Hb in El; cbn in El; lia).
      assert (SLAB_BUFCTL flags = true -> order + 1 = 0 \/ fitting (order + 1 - 1) <= limit) as Hnext by (intros Hb; right; replace (order + 1 - 1) with order by lia; auto).
      assert (exists o, 0 <= o <= 5 /\ Some (order, Z.shiftl PAGE_SIZE order - mgmt - fitting order * size, fitting order) = Some (o, Z.shiftl PAGE_SIZE o - mgmt - fitting o * size, fitting o) /\
        1 <= fitting o /\ (SLAB_BUFCTL flags = true -> fitting o <= limit)) as Hhere by (exists order; split; [lia|]; split; [done|]; split; [lia|done]).
      repeat match goal with |- context [if ?b then _ else _] => destruct b end; try exact Hhere; (apply IH; [lia|lia|exact Hnext]).
Qed.
End Order.

(** ** The whole layout *)

Lemma word_size size : 0 <= size <= 131072 -> let r := if Z.land size (BYTES_PER_WORD - 1) =? 0 then size else Z.land (u32 (size + (BYTES_PER_WORD - 1))) (u32 (Z.lnot (BYTES_PER_WORD - 1))) in
  size <= r < size + 4 /\ r mod 4 = 0.
Proof.
  intros Hs. cbv zeta. change (BYTES_PER_WORD - 1) with (2 ^ 2 - 1). destruct (Z.land size (2 ^ 2 - 1) =? 0) eqn:E; [|apply (align_up 2); lia].
  split; [lia|]. change (2 ^ 2 - 1) with (Z.ones 2) in E. rewrite Z.land_ones in E by lia. change (2 ^ 2) with 4 in E. lia.
Qed.

(** The aligned size is not much larger, and alignment never costs more than the limit. *)
Lemma align_size_ok size flags : 8 <= size -> size mod 4 = 0 -> let '(size', flags', align) := align_size size flags in
  size <= size' < size + 16 /\ (size' = size \/ size' mod 16 = 0) /\ 0 < align /\ SLAB_OFF_SLAB flags' = SLAB_OFF_SLAB flags /\ SLAB_BUFCTL flags' = SLAB_BUFCTL flags.
Proof.
  intros Hs Hm. unfold align_size, L1_CACHE_BYTES, BYTES_PER_WORD. change (16 / 2) with 8.
  assert (forall f, SLAB_OFF_SLAB (Z.lor f SLAB_HWCACHE_ALIGN) = SLAB_OFF_SLAB f /\ SLAB_BUFCTL (Z.lor f SLAB_HWCACHE_ALIGN) = SLAB_BUFCTL f) as Hor.
  { intros f. unfold SLAB_OFF_SLAB, SLAB_BUFCTL, flag. rewrite !Z.land_lor_distr_l. by rewrite !Z.lor_0_r. }
  destruct (flag flags SLAB_HWCACHE_ALIGN).
  - destruct (8 <? size) eqn:E8.
    + pose proof (Z.mod_pos_bound size 16 ltac:(lia)) as Hb. destruct (size mod 16 =? 0) eqn:E; split_and!; try lia; try done. right.
      pose proof (Z.div_mod size 16 ltac:(lia)). replace (size + (16 - size mod 16)) with ((size / 16 + 1) * 16) by lia. apply Z.mod_mul. lia.
    + assert (size = 8) as -> by lia. change (16 - 16 / 8 * 8 =? 0) with true. cbv iota. split_and!; try lia; try done; by left.
  - destruct (size mod 16 =? 0) eqn:E; split_and!; try lia; try apply Hor; try done; by left.
Qed.

Lemma colour_offset_nonneg offset left_over align flags : 0 < align -> 0 <= colour_offset offset left_over align flags.
Proof.
  intros Ha. unfold colour_offset. set (o := Z.land _ _). assert (0 <= o) by (apply Z.land_nonneg; right; apply u32_range).
  repeat case_match; try lia; rewrite ?Z.shiftr_nonneg, ?Z.shiftl_nonneg; lia.
Qed.

(** The bytes behind the objects are enough for the colours. *)
Lemma colour_fits o left_over : 0 <= o -> 0 <= left_over -> 0 <= (if o =? 0 then 0 else left_over / o) /\ (if o =? 0 then 0 else left_over / o) * o <= left_over.
Proof.
  intros Ho Hl. destruct (o =? 0) eqn:E; [lia|]. split; [apply Z.div_pos; lia|]. pose proof (Z.mul_div_le left_over o ltac:(lia)). lia.
Qed.

Lemma cut_flags flags : let f := Z.land flags (u32 (Z.lnot SLAB_CFLGS_OFF_SLAB)) in SLAB_OFF_SLAB f = false /\ SLAB_BUFCTL f = SLAB_BUFCTL flags.
Proof.
  cbv zeta. unfold SLAB_OFF_SLAB, SLAB_BUFCTL, flag. rewrite <- !Z.land_assoc. change (Z.land (u32 (Z.lnot SLAB_CFLGS_OFF_SLAB)) SLAB_CFLGS_OFF_SLAB) with 0.
  change (Z.land (u32 (Z.lnot SLAB_CFLGS_OFF_SLAB)) SLAB_CFLGS_BUFCTL) with SLAB_CFLGS_BUFCTL. by rewrite Z.land_0_r.
Qed.

(** The flags that say where the management and the bufctls are. *)
Lemma first_flags f (off buf : bool) : f = 0 \/ f = 0x1000 \/ f = 0x2000 \/ f = 0x3000 ->
  let g := Z.lor f (if off then if buf then Z.lor SLAB_CFLGS_OFF_SLAB SLAB_CFLGS_BUFCTL else SLAB_CFLGS_OFF_SLAB else 0) in SLAB_OFF_SLAB g = off /\ SLAB_BUFCTL g = off && buf.
Proof. intros [->|[->|[->| ->]]]; by destruct off, buf. Qed.

(** The last part of [kmem_cache_create], for an aligned size [size] with [extra] bytes for
    a bufctl. *)
Lemma finish_shape org_size size extra flags offset align limit border :
  0 < align -> 8 <= limit -> org_size + extra <= size -> 4 <= org_size -> extra = (if SLAB_BUFCTL flags then 0 else sizeof_bufctl) ->
  size + mgmt flags <= 131072 -> (SLAB_BUFCTL flags = true -> SLAB_OFF_SLAB flags = true /\ 512 <= size) ->
  exists c, ('(order, left_over, num) ← choose_order 6 0 size extra flags limit border;
    let '(flags, left_over) :=
      if SLAB_OFF_SLAB flags && negb (SLAB_BUFCTL flags) && (slab_align_size <=? left_over)
      then (Z.land flags (u32 (Z.lnot SLAB_CFLGS_OFF_SLAB)), left_over - slab_align_size) else (flags, left_over) in
    let offset := colour_offset offset left_over align flags in
    let colour := if offset =? 0 then 0 else left_over / offset in
    let size := if SLAB_BUFCTL flags then size else size - sizeof_bufctl in
    Some (Shape org_size flags size num order offset colour)) = Some c /\
    shape_ok c /\ c_org_size c = org_size /\ org_size <= c_offset c /\ c_gfporder c <= 5 /\ (SLAB_BUFCTL (c_flags c) = true -> SLAB_OFF_SLAB (c_flags c) = true /\ c_num c <= limit).
Proof.
  intros Ha Hl Hsz Horg Hex Hmax Hbuf. assert (0 < size /\ size + mgmt flags <= 131072) as Hsize by (unfold sizeof_bufctl in *; case_match; lia).
  assert (SLAB_BUFCTL flags = true -> mgmt flags = 0 /\ 512 <= size) as Hbc by (intros Hb; destruct (Hbuf Hb) as [E ?]; unfold mgmt; by rewrite E).
  destruct (choose_order_ok size extra flags limit border Hsize Hbc Hl 5 0 ltac:(lia) ltac:(lia) ltac:(auto)) as (o & Ho & -> & Hnum & Hlim). cbn [mbind option_bind].
  destruct (fitting_spec size flags Hsize o ltac:(lia)) as [Hf0 Hf]. set (left := Z.shiftl PAGE_SIZE o - mgmt flags - fitting size flags o * size) in *.
  pose proof (cut_flags flags) as Hcut. set (f1 := Z.land flags _) in *.
  assert (exists f l, (if SLAB_OFF_SLAB flags && negb (SLAB_BUFCTL flags) && (slab_align_size <=? left) then (f1, left - slab_align_size) else (flags, left)) = (f, l) /\
    0 <= l /\ SLAB_BUFCTL f = SLAB_BUFCTL flags /\ (SLAB_BUFCTL f = true -> SLAB_OFF_SLAB f = true) /\
    l + fitting size flags o * size + (if SLAB_OFF_SLAB f then 0 else slab_align_size) <= Z.shiftl PAGE_SIZE o) as (f & l & -> & Hl0 & Hfb & Hfo & Hfit).
  { destruct (SLAB_OFF_SLAB flags && negb (SLAB_BUFCTL flags) && (slab_align_size <=? left)) eqn:E.
    - apply andb_true_iff in E as [[E1 E2]%andb_true_iff E3]. exists f1, (left - slab_align_size). destruct Hcut as [-> ->]. split; [done|].
      split; [lia|]. split; [done|]. split; [by destruct (SLAB_BUFCTL flags)|]. unfold left, mgmt. rewrite E1. lia.
    - exists flags, left. split; [done|]. split; [lia|]. split; [done|]. split; [intros Hb; by apply Hbuf|]. unfold left, mgmt. case_match; lia. }
  pose proof (colour_offset_nonneg offset l align f Ha) as Hco. set (co := colour_offset offset l align f) in *. destruct (colour_fits co l Hco Hl0) as [Hc0 Hc1].
  eexists. split; [done|]. cbn. split; [|split; [done|]; split; [rewrite Hfb; unfold sizeof_bufctl in *; case_match; lia|]; split; [lia|]; intros Hb; split; [auto|]; apply Hlim; congruence].
  assert (stride (Shape org_size f (if SLAB_BUFCTL f then size else size - sizeof_bufctl) (fitting size flags o) o co (if co =? 0 then 0 else l / co)) = size) as Hst by (unfold stride; cbn; case_match; lia).
  constructor; cbn [c_num c_offset c_gfporder c_align c_colour]; try lia; [rewrite Hfb; unfold BYTES_PER_WORD, sizeof_bufctl in *; case_match; lia|].
  rewrite Hst. unfold mgmt_size, span. cbn. lia.
Qed.
