(* ===== verification/SlabProps.v ===== *)
(** * Caches of objects: what is guaranteed *)

From stdpp Require Import functions.
From S2P Require Import Prelude LockBlocks RunQueue Slab SlabProof SlabCalls SlabGrow SlabShape.

(** ** The layout *)

Lemma cache_shape_ok size offset flags limit border ctor dtor :
  0 <= size < 2 ^ 32 -> 8 <= limit ->
  match cache_shape size offset flags limit border ctor dtor with
  | None => 32 * PAGE_SIZE < size \/ dtor = true /\ ctor = false
  | Some c => shape_ok c /\ size <= c_org_size c <= c_offset c /\ c_gfporder c <= SLAB_MAX_GFP_ORDER /\
      (SLAB_BUFCTL (c_flags c) = true -> SLAB_OFF_SLAB (c_flags c) = true /\ c_num c <= limit)
  end.
Proof.
  intros Hsz Hlim. unfold cache_shape. set (s1 := if size <? BYTES_PER_WORD then BYTES_PER_WORD else size).
  assert (size <= s1 /\ 4 <= s1 /\ (s1 = size \/ s1 = 4)) as (H1 & H2 & H3) by (unfold s1, BYTES_PER_WORD; case_match; lia).
  change (Z.shiftl 1 SLAB_OBJ_MAX_ORDER * PAGE_SIZE) with 131072. change (32 * PAGE_SIZE) with 131072. destruct (131072 <? s1) eqn:Emax; [left; lia|].
  destruct (dtor && negb ctor) eqn:Ed; [right; by destruct dtor, ctor|]. set (off := if (offset <? 0) || (s1 <? offset) then 0 else offset). pose proof (word_size s1 ltac:(lia)) as Hw. cbv zeta in Hw.
  set (s2 := if Z.land s1 (BYTES_PER_WORD - 1) =? 0 then s1 else _) in *. destruct Hw as [Hw1 Hw2].
  assert (s2 <= 131072 /\ size <= s2 /\ 4 <= s2) as (H4 & H5 & H6). { pose proof (Z.div_mod s2 4 ltac:(lia)). lia. }
  pose proof (flag_values flags) as Hfl. set (f := Z.land flags SLAB_C_MASK) in *. clearbody f s2 off. clear Emax Ed s1 H1 H2 H3 Hw1.
  change (Z.shiftr PAGE_SIZE 3) with 512. cbv zeta.
  set (buf := (Z.land s2 (PAGE_SIZE - 1) =? 0) || (s2 =? PAGE_SIZE / 2) || (s2 =? PAGE_SIZE / 4) || (s2 =? PAGE_SIZE / 8)).
  assert (exists g extra, (if s2 <? 512 then (f, sizeof_bufctl) else if buf then (Z.lor (Z.lor f SLAB_CFLGS_OFF_SLAB) SLAB_CFLGS_BUFCTL, 0) else (Z.lor f SLAB_CFLGS_OFF_SLAB, sizeof_bufctl)) = (g, extra) /\
    SLAB_OFF_SLAB g = negb (s2 <? 512) /\ extra = (if SLAB_BUFCTL g then 0 else sizeof_bufctl) /\ (SLAB_BUFCTL g = true -> 512 <= s2) /\ (512 <= s2 -> SLAB_BUFCTL g = buf)) as (g & extra & -> & Hg1 & Hg2 & Hg3 & Hg4).
  { destruct (s2 <? 512) eqn:E512; [destruct (first_flags f false false Hfl) as [E1 E2]; rewrite Z.lor_0_r in *; exists f, sizeof_bufctl; rewrite E2; split_and!; done || lia|].
    destruct buf eqn:Ebuf; [destruct (first_flags f true true Hfl) as [E1 E2]; rewrite Z.lor_assoc in *|destruct (first_flags f true false Hfl) as [E1 E2]];
      eexists _, _; (split; [done|]); rewrite E2; (split; [done|]); (split; [done|]); split; lia || done. }
  pose proof (align_size_ok (s2 + extra) g ltac:(rewrite Hg2; unfold sizeof_bufctl; case_match; [specialize (Hg3 eq_refl); lia|lia])) as Hal.
  destruct (align_size (s2 + extra) g) as [[s3 g'] al]. destruct Hal as (Hs3 & Hs4 & Hal & Ho & Hb).
  { rewrite Hg2. unfold sizeof_bufctl. case_match; [by rewrite Z.add_0_r|]. rewrite Z.add_mod, Hw2 by lia. done. }
  rewrite <- Ho in Hg1. rewrite <- Hb in Hg2, Hg3, Hg4.
  assert (s3 + mgmt g' <= 131072) as Hmax.
  { unfold mgmt. rewrite Hg1. destruct (s2 <? 512) eqn:E512; cbn [negb]; [change slab_align_size with 32; unfold sizeof_bufctl in *; case_match; lia|].
    assert (s2 + extra <= 131072) as Hse. { rewrite Hg2. unfold sizeof_bufctl. destruct (SLAB_BUFCTL g') eqn:Eg; [lia|]. specialize (Hg4 ltac:(lia)). destruct (decide (s2 = 131072)) as [->|]; [done|]. pose proof (Z.div_mod s2 4 ltac:(lia)). lia. }
    destruct Hs4 as [->|Hs4]; [lia|]. pose proof (Z.div_mod s3 16 ltac:(lia)). lia. }
  destruct (finish_shape s2 s3 extra g' off al limit border Hal Hlim ltac:(lia) H6 Hg2 Hmax) as (c & E & Hok & Horg & Hoff & Hord & Hnum).
  { intros Hb'. specialize (Hg3 Hb'). rewrite Hg1. split; [|lia]. destruct (s2 <? 512) eqn:E5; [lia|done]. }
  cbv zeta in E. rewrite E. split; [done|]. split; [lia|]. split; [done|]. done.
Qed.

(** ** The general caches *)

(** At start of day the general caches can all be made, with the sizes of the table; an
    array of bufctls has at most 64 entries afterwards. *)
Lemma general_caches : forall border, border = 1 \/ border = 2 ->
  exists cs, sizes_init cache_sizes 0 border false = Some (cs, 64) /\ map c_org_size cs = cache_sizes.
Proof. intros border [->| ->]; eexists; (split; [vm_compute; reflexivity|reflexivity]). Qed.

Lemma general_cache_spec sizes n size :
  match general_cache sizes n size with
  | Some m => exists cs, (n <= m)%nat /\ sizes !! (m - n)%nat = Some cs /\ size <= cs /\ forall j x, (j < m - n)%nat -> sizes !! j = Some x -> x < size
  | None => Forall (fun x => x < size) sizes
  end.
Proof.
  revert n. induction sizes as [|cs sizes IH]; intros n; cbn; [constructor|]. destruct (cs <? size) eqn:E.
  - specialize (IH (S n)). destruct (general_cache sizes (S n) size) as [m|]; [|constructor; [lia|done]].
    destruct IH as (x & Hm & Hx & Hs & Hj). exists x. split; [lia|]. replace (m - n)%nat with (S (m - S n)) by lia. split; [done|]. split; [done|].
    intros [|j] y Hlt Hy; cbn in Hy; [by simplify_eq; lia|]. eapply Hj; [|done]. lia.
  - exists cs. rewrite Nat.sub_diag. split; [lia|]. split; [done|]. split; [lia|]. lia.
Qed.

(** [kmalloc] uses the smallest of the general caches that is large enough, and fails for
    more than 32 pages. *)
Lemma kmalloc_fits size : match kmalloc_cache size with
  | Some m => exists cs, cache_sizes !! m = Some cs /\ size <= cs /\ forall j x, (j < m)%nat -> cache_sizes !! j = Some x -> x < size
  | None => 131072 < size
  end.
Proof.
  unfold kmalloc_cache. pose proof (general_cache_spec cache_sizes 0 size) as H. destruct (general_cache cache_sizes 0 size) as [m|].
  - destruct H as (cs & _ & H). exists cs. by rewrite Nat.sub_0_r in H.
  - rewrite Forall_forall in H. apply H. unfold cache_sizes. set_solver.
Qed.

(** ** The machine

    Any number of processes use one cache; [grow] are the slabs that calls are about to
    add, given by the place of the first object, and [live] the objects that are in the
    hands of the users. *)

Record cstate := CState { cache : kcache; grow : list Z; live : list Z }.

Inductive ccall :=
  | CAlloc (flags : Z)
  | CGrow (flags : Z)
  | CGrown (o pages : Z) (dma : bool) (mgmt index : Z)
  | CFree (objp : Z)
  | CShrink
  | CReap (dma : bool).

Fixpoint drop_one (x : Z) (l : list Z) : list Z :=
  match l with [] => [] | y :: l => if y =? x then l else y :: drop_one x l end.

Section Machine.
Context (c : shape).

Definition c_step (s : cstate) (e : ccall) : option cstate :=
  match e with
  | CAlloc flags =>
    '(r, k) ← alloc_try c (cache s) flags;
    Some (CState k (grow s) (match r with Object o => o :: live s | _ => live s end))
  | CGrow flags =>
    let '(r, k) := grow_start c (cache s) flags in
    Some (CState k (match r with Some o => o :: grow s | None => grow s end) (live s))
  | CGrown o pages dma mgmt index =>
    '(_, k) ← grow_finish c (cache s) o pages dma mgmt index;
    Some (CState k (drop_one o (grow s)) (live s))
  | CFree objp =>
    '(r, k) ← kmem_cache_free c (cache s) objp;
    Some (CState k (grow s) (if r : bool then drop_one objp (live s) else live s))
  | CShrink => '(_, k) ← shrink_turn (cache s); Some (CState k (grow s) (live s))
  | CReap dma => '(_, k) ← reap_turn (cache s) dma; Some (CState k (grow s) (live s))
  end.

(** Only objects in use are freed; pages and structures for a new slab are those of nobody
    else.  kmem_cache_shrink is left out when the last slab is the only one with free
    objects (see [shrink_dangles]). *)
Definition c_may (s : cstate) (e : ccall) : Prop :=
  match e with
  | CGrown o pages _ mgmt index => o ∈ grow s /\ (pages <> 0 -> forall l, chain (cache s) l -> fresh c (cache s) l pages mgmt index)
  | CFree objp => objp ∈ live s
  | CShrink => c_lastp (cache s) <> Some (c_freep (cache s)) \/ c_freep (cache s) = kmem_slab_end
  | _ => True
  end.

Inductive c_reachable (dma : bool) : cstate -> Prop :=
  | cr_init : c_reachable dma (CState (empty_cache c dma) [] [])
  | cr_step s e s' : c_reachable dma s -> c_may s e -> c_step s e = Some s' -> c_reachable dma s'.

(** An object of a slab of the chain that is not free. *)
Definition in_use (k : kcache) (l : list Z) (F : Z -> list Z) (o : Z) : Prop :=
  exists p s i, p ∈ l /\ slabs k !! p = Some s /\ object_no c i /\ (i ∉ F p) /\ o = obj_addr c s i.

(** The slabs are in order, with the pointer at the first free object, and the objects in
    use are those of the users. *)
Record c_inv (s : cstate) (a b z : list Z) (F : Z -> list Z) : Prop := {
  cv_cache : cache_inv c (cache s) (grow s) a b z F;
  cv_live o : o ∈ live s <-> in_use (cache s) (a ++ b ++ z) F o;
  cv_once : NoDup (live s) }.

Hypothesis shape_fits : shape_ok c.

Lemma drop_one_perm x l : x ∈ l -> l ≡ₚ x :: drop_one x l.
Proof.
  induction l as [|y l IH]; [by intros ?%not_elem_of_nil|]. intros Hx. cbn. destruct (y =? x) eqn:E; [by replace y with x by lia|].
  rewrite IH at 1; [apply Permutation_swap|]. apply elem_of_cons in Hx as [->|]; [lia|done].
Qed.

Lemma core_perm k g g' l F : g ≡ₚ g' -> core c k g l F -> core c k g' l F.
Proof. intros Hp []. constructor; try done; [by rewrite <- Hp|]. by rewrite <- Hp. Qed.

Lemma cache_perm k g g' a b z F : g ≡ₚ g' -> cache_inv c k g a b z F -> cache_inv c k g' a b z F.
Proof. intros Hp []. split; [by eapply core_perm|done|done]. Qed.

(** Objects of slabs are apart. *)
Lemma objects_apart k g l F p q s t i j : core c k g l F -> p ∈ l -> q ∈ l -> slabs k !! p = Some s -> slabs k !! q = Some t -> object_no c i -> object_no c j ->
  p = q /\ i = j \/ obj_addr c s i + stride c <= obj_addr c t j \/ obj_addr c t j + stride c <= obj_addr c s i.
Proof.
  intros H Hp Hq Hs Ht Hi Hj. destruct (co_slab _ _ _ _ _ H p Hp) as (s' & Hs' & Hsok). assert (s' = s) as -> by congruence.
  destruct (co_slab _ _ _ _ _ H q Hq) as (t' & Ht' & Htok). assert (t' = t) as -> by congruence.
  pose proof (obj_range c shape_fits i Hi). pose proof (obj_range c shape_fits j Hj). pose proof (mgmt_pos c). pose proof (stride_pos c shape_fits).
  destruct (so_fits _ _ _ _ _ _ Hsok), (so_fits _ _ _ _ _ _ Htok). destruct (decide (p = q)) as [->|Hne].
  - assert (s = t) as -> by congruence. destruct (decide (i = j)) as [->|]; [by left|]. right. unfold obj_addr. destruct (decide (i < j)); [left|right]; nia.
  - right. destruct (co_apart _ _ _ _ _ H p q s t Hp Hq Hne Hs Ht) as [Hd _]. unfold obj_addr, base in *. lia.
Qed.

Lemma obj_addr_inj k g l F p q s t i j : core c k g l F -> p ∈ l -> q ∈ l -> slabs k !! p = Some s -> slabs k !! q = Some t -> object_no c i -> object_no c j ->
  obj_addr c s i = obj_addr c t j -> p = q /\ i = j.
Proof.
  intros H Hp Hq Hs Ht Hi Hj E. destruct (objects_apart k g l F p q s t i j H Hp Hq Hs Ht Hi Hj) as [?|?]; [done|]. pose proof (stride_pos c shape_fits). lia.
Qed.

(** The objects in use when the free objects of one slab change. *)
Lemma in_use_upd k k' g l l' F p s s' fl : core c k g l F -> p ∈ l -> slabs k !! p = Some s -> slabs k' = <[p := s']> (slabs k) -> s_mem s' = s_mem s -> l' ≡ₚ l ->
  forall o, in_use k' l' (<[p := fl]> F) o <-> (exists q t i, q ∈ l /\ q <> p /\ slabs k !! q = Some t /\ object_no c i /\ (i ∉ F q) /\ o = obj_addr c t i) \/ (exists i, object_no c i /\ (i ∉ fl) /\ o = obj_addr c s i).
Proof.
  intros H Hp Hs Hs' Hm Hl o. unfold in_use. assert (forall i, obj_addr c s' i = obj_addr c s i) as He by (intros i; unfold obj_addr; by rewrite Hm). split.
  - intros (q & t & i & Hq & Ht & Hi & Hn & ->). rewrite Hl in Hq. rewrite Hs' in Ht. destruct (decide (q = p)) as [->|Hne].
    + rewrite lookup_insert_eq in Ht. injection Ht as <-. rewrite fn_lookup_insert in Hn. right. exists i. by rewrite He.
    + rewrite lookup_insert_ne in Ht by done. rewrite fn_lookup_insert_ne in Hn by done. left. by exists q, t, i.
  - intros [(q & t & i & Hq & Hne & Ht & Hi & Hn & ->)|(i & Hi & Hn & ->)].
    + exists q, t, i. rewrite Hl, Hs', lookup_insert_ne, fn_lookup_insert_ne by done. done.
    + exists p, s', i. rewrite Hl, Hs', lookup_insert_eq, fn_lookup_insert, He. done.
Qed.

Lemma in_use_same k k' l l' F F' o : (forall p, p ∈ l' <-> p ∈ l) -> (forall p, p ∈ l -> slabs k' !! p = slabs k !! p /\ F' p = F p) -> in_use k' l' F' o <-> in_use k l F o.
Proof.
  intros Hl Hs. unfold in_use. split; intros (p & s & i & Hp & Ht & Hi & Hn & ->); exists p, s, i.
  - apply Hl in Hp. destruct (Hs p Hp) as [E1 E2]. by rewrite <- E1, <- E2.
  - destruct (Hs p Hp) as [E1 E2]. rewrite Hl, E1, E2. done.
Qed.

Lemma alloc_inv s a b z F flags : c_inv s a b z F ->
  exists s' a' b' z' F', c_step s (CAlloc flags) = Some s' /\ c_inv s' a' b' z' F'.
Proof.
  intros [Hk Hlv Hnd]. cbn [c_step]. destruct (alloc_ok c shape_fits _ _ _ _ _ _ flags Hk) as (r & k' & -> & Hr). cbn [mbind option_bind]. pose proof (ci_core _ _ _ _ _ _ _ Hk) as Hco.
  destruct r as [o| |]; [|destruct Hr as [-> _]; eexists _, a, b, z, F; split; [done|]; by split|done].
  destruct Hr as (p & t & i & fl & n & a' & b' & z' & Hp & Ht & HF & -> & Hinv & Hl & Hs & _). eexists _, a', b', z', _. split; [done|].
  assert (p ∈ a ++ b ++ z) as Hpl by set_solver. destruct (co_slab _ _ _ _ _ Hco p Hpl) as (t' & Ht' & Hok). assert (t' = t) as -> by congruence. rewrite HF in Hok.
  pose proof (so_nodup _ _ _ _ _ _ Hok) as [Hni Hfl]%NoDup_cons. pose proof (so_range _ _ _ _ _ _ Hok) as [Hi Hr]%Forall_cons.
  pose proof (in_use_upd _ _ _ _ _ _ _ _ _ fl Hco Hpl Ht Hs eq_refl Hl) as Hup. split; [done|..]; cbn [live cache].
  - intros o. rewrite elem_of_cons, Hlv, Hup. split.
    + intros [->|(q & u & j & Hq & Hu & Hj & Hn & ->)]; [right; by exists i|]. destruct (decide (q = p)) as [->|Hne]; [|left; by exists q, u, j].
      assert (u = t) as -> by congruence. right. exists j. rewrite HF in Hn. set_solver.
    + intros [(q & u & j & Hq & Hne & Hu & Hj & Hn & ->)|(j & Hj & Hn & ->)]; [right; by exists q, u, j|].
      destruct (decide (j = i)) as [->|Hne]; [by left|]. right. exists p, t, j. rewrite HF. set_solver.
  - constructor; [|done]. rewrite Hlv. intros (q & u & j & Hq & Hu & Hj & Hn & E).
    destruct (obj_addr_inj _ _ _ _ _ _ _ _ _ _ Hco Hpl Hq Ht Hu Hi Hj E) as [-> ->]. apply Hn. rewrite HF. by left.
Qed.

Lemma free_inv s a b z F objp : c_inv s a b z F -> objp ∈ live s -> exists s' a' b' z' F', c_step s (CFree objp) = Some s' /\ c_inv s' a' b' z' F' /\ live s ≡ₚ objp :: live s'.
Proof.
  intros [Hk Hlv Hnd] Hin. pose proof Hin as Hu. apply Hlv in Hu as (p & t & i & Hp & Ht & Hi & Hn & E). cbn [c_step]. pose proof (ci_core _ _ _ _ _ _ _ Hk) as Hco.
  destruct (free_ok c shape_fits _ _ _ _ _ _ p t i Hk Hp Ht Hi Hn) as (k' & a' & b' & z' & Efr & Hinv & Hl & Hs). rewrite E, Efr. cbn [mbind option_bind]. rewrite <- E.
  eexists _, a', b', z', _. split; [done|]. pose proof (drop_one_perm objp (live s) Hin) as Hd. split; [|done].
  assert (NoDup (objp :: drop_one objp (live s))) as Hnd' by (by rewrite <- Hd). apply NoDup_cons in Hnd' as [Hno Hnd'].
  pose proof (in_use_upd _ _ _ _ _ _ _ _ _ (i :: F p) Hco Hp Ht Hs eq_refl Hl) as Hup. split; [done| |done]. cbn [live cache].
  intros o. rewrite Hup. assert (o ∈ drop_one objp (live s) <-> o ∈ live s /\ o <> objp) as -> by (rewrite Hd at 2; set_solver). rewrite Hlv. split.
  - intros [(q & u & j & Hq & Hu & Hj & Hnj & ->) Hne]. destruct (decide (q = p)) as [->|]; [|left; by exists q, u, j].
    assert (u = t) as -> by congruence. right. exists j. set_solver.
  - intros [(q & u & j & Hq & Hne & Hu & Hj & Hnj & ->)|(j & Hj & Hnj & ->)].
    + split; [by exists q, u, j|]. rewrite E. intros E'. by destruct (obj_addr_inj _ _ _ _ _ _ _ _ _ _ Hco Hq Hp Hu Ht Hj Hi E').
    + split; [exists p, t, j; set_solver|]. rewrite E. intros E'. destruct (obj_addr_inj _ _ _ _ _ _ _ _ _ _ Hco Hp Hp Ht Ht Hj Hi E') as [_ ->]. set_solver.
Qed.

(** A slab that is given up has no object in use. *)
Lemma given_up k k' g a b z l' F x : cache_inv c k g a b z F ->
  (forall q, q ∈ l' -> q ∈ a ++ b ++ z /\ slabs k' !! q = slabs k !! q) -> (forall q, q ∈ a ++ b ++ z -> q ∉ l' -> q ∈ z) ->
  in_use k (a ++ b ++ z) F x <-> in_use k' l' F x.
Proof.
  intros [H [_ _ S3] _] Hsub Hz. unfold in_use. split; intros (q & t & i & Hq & Ht & Hi & Hn & ->); exists q, t, i.
  - destruct (decide (q ∈ l')) as [Hin|Hin]; [by rewrite (proj2 (Hsub q Hin))|]. exfalso. specialize (Hz q Hq Hin). rewrite Forall_forall in S3. specialize (S3 q Hz). cbn in S3.
    destruct (co_slab _ _ _ _ _ H q Hq) as (t' & _ & Hok). pose proof (numbers_room c shape_fits _ i (so_nodup _ _ _ _ _ _ Hok) (so_range _ _ _ _ _ _ Hok) Hi Hn). lia.
  - destruct (Hsub q Hq) as [? E]. by rewrite <- E.
Qed.

Lemma c_step_inv s a b z F e : c_inv s a b z F -> c_may s e -> exists s' a' b' z' F', c_step s e = Some s' /\ c_inv s' a' b' z' F'.
Proof.
  intros H Hm. pose proof H as [Hk Hlv Hnd]. pose proof (ci_core _ _ _ _ _ _ _ Hk) as Hco. destruct e as [flags|flags|o pages dma mg ix|objp| |dma].
  - by eapply alloc_inv.
  - cbn [c_step]. destruct (grow_start_ok c shape_fits _ _ _ _ _ _ flags Hk) as (r & k' & -> & Hs & Hf & Hr). eexists _, a, b, z, F. split; [done|].
    split; cbn [cache grow live]; [destruct r; [done|by rewrite Hr]| |done]. intros x. rewrite Hlv. symmetry. apply in_use_same; [done|]. by rewrite Hs.
  - cbn [c_step]. destruct Hm as [Ho Hfr]. pose proof (drop_one_perm o (grow s) Ho) as Hd. pose proof (cache_perm _ _ _ _ _ _ _ Hd Hk) as Hk'.
    destruct (grow_finish_ok c shape_fits _ _ _ _ _ _ _ pages dma mg ix Hk') as (r & k' & -> & Hr); [intros Hp0; apply Hfr; [done|apply Hco]|]. cbn [mbind option_bind]. destruct r.
    + destruct Hr as (p & t & Hp & Hinv & Hs & _). eexists _, a, b, (z ++ [p]), _. split; [done|]. split; [done| |done]. cbn [live cache]. intros x. rewrite Hlv.
      unfold in_use. split; intros (q & u & i & Hq & Hu & Hi & Hn & ->); exists q, u, i; destruct (decide (q = p)) as [->|Hne].
      * set_solver.
      * rewrite Hs, lookup_insert_ne, fn_lookup_insert_ne by done. set_solver.
      * exfalso. rewrite fn_lookup_insert in Hn. destruct (all_objects_ok c shape_fits) as (N1 & N2 & N3). pose proof (numbers_room c shape_fits _ i N1 N2 Hi Hn). lia.
      * rewrite Hs, lookup_insert_ne in Hu by done. rewrite fn_lookup_insert_ne in Hn by done. split_and!; try done. set_solver.
    + destruct Hr as [Hinv Hs]. eexists _, a, b, z, F. split; [done|]. split; [done| |done]. cbn [live cache]. intros x. rewrite Hlv. symmetry. apply in_use_same; [done|]. by rewrite Hs.
  - destruct (free_inv s a b z F objp H Hm) as (s' & a' & b' & z' & F' & E & Hi & _). by exists s', a', b', z', F'.
  - cbn [c_step c_may] in *. destruct (shrink_turn_ok c shape_fits _ _ _ _ _ _ Hk) as (r & k' & z' & -> & Hinv & Hsub & H1 & H2).
    { intros p -> ->. destruct Hm as [Hm|Hm]; rewrite (ci_freep _ _ _ _ _ _ _ Hk) in Hm; cbn [head_of app] in Hm.
      - rewrite (last_free c _ _ _ _ [] p _ Hk) in Hm. done.
      - pose proof (ch_nodup _ _ (co_chain _ _ _ _ _ Hco)) as Hn. rewrite NoDup_cons in Hn. subst p. apply (proj1 Hn). set_solver. }
    cbn [mbind option_bind]. eexists _, a, b, z', F. split; [done|]. split; [done| |done]. cbn [live cache]. intros x. rewrite Hlv.
    eapply given_up; [exact Hk|apply Hsub|]. intros q Hq Hn. destruct r; [|destruct (H1 eq_refl) as (_ & -> & _); by destruct Hn]. destruct (H2 eq_refl) as [_ [y ->]]. set_solver.
  - cbn [c_step]. destruct (reap_turn_ok c shape_fits _ _ _ _ _ _ dma Hk) as (r & k' & z' & -> & Hinv & Hsub & H1 & H2).
    cbn [mbind option_bind]. eexists _, a, b, z', F. split; [done|]. split; [done| |done]. cbn [live cache]. intros x. rewrite Hlv.
    eapply given_up; [exact Hk|apply Hsub|]. intros q Hq Hn. destruct r; [|destruct (H1 eq_refl) as (_ & ->); by destruct Hn]. destruct (H2 eq_refl) as (z1 & y & z2 & -> & ->). set_solver.
Qed.

Lemma init_inv dma : c_inv (CState (empty_cache c dma) [] []) [] [] [] (fun _ => []).
Proof.
  pose proof (sh_colour c shape_fits). split; [split| |constructor].
  - constructor; cbn; try done; try lia.
    + split; [apply NoDup_singleton|]. constructor; [|constructor]. split; reflexivity.
    + eexists. split; [reflexivity|]. by split.
    + intros p Hp. by apply not_elem_of_nil in Hp.
    + intros p q s t Hp. by apply not_elem_of_nil in Hp.
  - by split.
  - done.
  - intros o. split; [by intros ?%not_elem_of_nil|]. intros (p & _ & _ & Hp & _). by apply not_elem_of_nil in Hp.
Qed.

Lemma reachable_inv dma s : c_reachable dma s -> exists a b z F, c_inv s a b z F.
Proof.
  induction 1 as [|s e s' _ (a & b & z & F & IH) Hm He]; [eexists _, _, _, _; apply init_inv|].
  destruct (c_step_inv s a b z F e IH Hm) as (s1 & a' & b' & z' & F' & E & Hi). assert (s1 = s') as -> by congruence. by exists a', b', z', F'.
Qed.
End Machine.

(** ** Examples *)

(** Objects of 100 bytes. *)
Definition ex_shape : shape := default (Shape 0 0 0 0 0 0 0) (cache_shape 100 0 0 64 1 false false).

Definition c_run (c : shape) (l : list ccall) (s : cstate) : option cstate := foldl (fun o e => s ← o; c_step c s e) (Some s) l.

Definition ex_start : cstate := CState (empty_cache ex_shape false) [] [].

(** A slab is added, two objects are taken and one is given back. *)
Definition ex_calls : list ccall := [CGrow 0; CGrown 8 0x10000 true 0 0; CAlloc 0; CAlloc 0; CFree 0x10008].

Definition ex_cache : cstate := default ex_start (c_run ex_shape ex_calls ex_start).

Example ex_layout : ex_shape = Shape 100 0 100 39 0 4 2 /\ live ex_cache = [0x10070].
Proof. vm_compute. done. Qed.

Lemma ex_cache_reachable : c_reachable ex_shape false ex_cache.
Proof.
  assert (forall s e s', c_reachable ex_shape false s -> c_may ex_shape s e -> c_step ex_shape s e = Some s' -> c_reachable ex_shape false s') as Hstep by (intros; by eapply cr_step).
  set (s1 := default ex_start (c_run ex_shape [CGrow 0] ex_start)). set (s2 := default ex_start (c_run ex_shape [CGrow 0; CGrown 8 0x10000 true 0 0] ex_start)).
  set (s4 := default ex_start (c_run ex_shape [CGrow 0; CGrown 8 0x10000 true 0 0; CAlloc 0; CAlloc 0] ex_start)).
  assert (c_reachable ex_shape false s1) as R1 by (apply (Hstep ex_start (CGrow 0)); [constructor|exact I|vm_compute; reflexivity]).
  assert (c_reachable ex_shape false s2) as R2.
  { apply (Hstep s1 (CGrown 8 0x10000 true 0 0)); [done| |vm_compute; reflexivity]. split; [vm_compute; constructor|]. intros _ l Hl.
    assert (l = []) as ->. { destruct l as [|p l]; [done|]. pose proof (ch_linked _ _ Hl) as Hf. destruct (edges_cons (p :: l)) as [B E]. rewrite E in Hf. apply Forall_cons in Hf as [[Hf _] _].
      cbn in Hf. pose proof (ch_nodup _ _ Hl) as Hn. rewrite !NoDup_cons in Hn. assert (Some 0 = Some p) as [= <-] by (rewrite <- Hf; vm_compute; reflexivity). exfalso. apply (proj1 Hn). left. }
    constructor; [vm_compute; split; [|split]; reflexivity|intros q t Hq; by apply not_elem_of_nil in Hq|intros Hoff; vm_compute in Hoff; discriminate Hoff|intros q t Hoff; vm_compute in Hoff; discriminate Hoff]. }
  assert (c_reachable ex_shape false s4) as R4.
  { set (s3 := default ex_start (c_run ex_shape [CGrow 0; CGrown 8 0x10000 true 0 0; CAlloc 0] ex_start)). apply (Hstep s3 (CAlloc 0)); [|exact I|vm_compute; reflexivity].
    apply (Hstep s2 (CAlloc 0)); [done|exact I|vm_compute; reflexivity]. }
  apply (Hstep s4 (CFree 0x10008)); [done| |vm_compute; reflexivity]. vm_compute. right. left.
Qed.

(** ** Properties *)

(** C13: kmem_cache_create ends, and refuses only objects of more than 32 pages and a
    destructor without a constructor; for every other size, requested offset and flags the
    layout is sound: a slab has at most 32 pages and at least one object; an object has at
    least the requested size; all objects, with their bufctls, lie within the pages of the
    slab at every colour, with room behind them for the management of the slab where that
    is kept in it; an array of bufctls never has more entries than the limit (8 or more:
    the general caches set it to 64, see [general_caches]). *)
Theorem cache_shape_sound size offset flags limit border ctor dtor :
  0 <= size < 2 ^ 32 -> 8 <= limit ->
  match cache_shape size offset flags limit border ctor dtor with
  | None => 32 * PAGE_SIZE < size \/ dtor = true /\ ctor = false
  | Some c => shape_ok c /\ size <= c_org_size c <= c_offset c /\ c_gfporder c <= SLAB_MAX_GFP_ORDER /\
      (SLAB_BUFCTL (c_flags c) = true -> SLAB_OFF_SLAB (c_flags c) = true /\ c_num c <= limit)
  end.
Proof. apply cache_shape_ok. Qed.

Lemma cache_shape_sound_witness : shape_ok ex_shape /\ 100 <= c_org_size ex_shape <= c_offset ex_shape.
Proof.
  pose proof (cache_shape_sound 100 0 0 64 1 false false ltac:(lia) ltac:(lia)) as H. change (cache_shape 100 0 0 64 1 false false) with (Some ex_shape) in H.
  destruct H as (H1 & H2 & _). split; [exact H1|exact H2].
Defined.

Lemma size_in_stride c : c_offset c <= stride c.
Proof. unfold stride, sizeof_bufctl. case_match; lia. Qed.

Lemma created_ok size offset flags limit border ctor dtor c : 0 <= size < 2 ^ 32 -> 8 <= limit -> cache_shape size offset flags limit border ctor dtor = Some c -> shape_ok c /\ c_org_size c <= c_offset c.
Proof. intros Hs Hl E. pose proof (cache_shape_ok size offset flags limit border ctor dtor Hs Hl) as H. rewrite E in H. destruct H as (? & ? & _). split; [done|lia]. Qed.

(** C11: For a cache of any layout that kmem_cache_create makes, in every reachable state,
    with any number of calls growing it at the same time: the slabs form one circular
    chain, first the full ones, then those with some free objects, then the free ones, and
    the cache points to the first with a free object; the free objects of a slab are
    linked in a list, and its count is exact; the objects in use are exactly those that
    were handed out and not given back.  No permitted call follows an invalid pointer.
    Users free only what they hold, new pages are those of nobody else, and a turn of
    kmem_cache_shrink is excepted where it leaves a dangling pointer ([shrink_dangles]). *)
Theorem caches_reachable size offset flags limit border ctor dtor c dma s :
  0 <= size < 2 ^ 32 -> 8 <= limit -> cache_shape size offset flags limit border ctor dtor = Some c -> c_reachable c dma s ->
  (exists a b z F, c_inv c s a b z F) /\ forall e, c_may c s e -> is_Some (c_step c s e).
Proof.
  intros Hs Hl Hc Hr. destruct (created_ok _ _ _ _ _ _ _ _ Hs Hl Hc) as [Hok _]. destruct (reachable_inv c Hok dma s Hr) as (a & b & z & F & Hi).
  split; [by exists a, b, z, F|]. intros e Hm. destruct (c_step_inv c Hok s a b z F e Hi Hm) as (s' & _ & _ & _ & _ & -> & _). by eexists.
Qed.

Lemma caches_reachable_witness : exists a b z F, c_inv ex_shape ex_cache a b z F.
Proof.
  apply (caches_reachable 100 0 0 64 1 false false ex_shape false ex_cache); [lia|lia|vm_compute; reflexivity|exact ex_cache_reachable].
Defined.

(** C12: As long as no turn of kmem_cache_shrink has released the slab that the cache
    points to as the first with free objects (see [shrink_dangles], where the next
    allocation finds a corrupt slab), an allocation from any cache answers an object that does
    not overlap any object in use and lies within the pages of a live slab, one fit for
    DMA if that is asked for; it needs a new slab only if no slab has a free object, or
    for DMA none of those that are fit for it, and the cache is then as before.  Under
    that condition no slab is found to be corrupt.  Users free only what they hold, and
    new pages are those of nobody else. *)
Theorem alloc_disjoint size offset flags limit border ctor dtor c dma s gfp :
  0 <= size < 2 ^ 32 -> 8 <= limit -> cache_shape size offset flags limit border ctor dtor = Some c -> c_reachable c dma s ->
  exists r k', alloc_try c (cache s) gfp = Some (r, k') /\
    match r with
    | Object o => Forall (fun o' => o + c_org_size c <= o' \/ o' + c_org_size c <= o) (live s) /\
        exists p t, slabs (cache s) !! p = Some t /\ s_magic t = SLAB_MAGIC_ALLOC /\ base t <= o /\ o + c_org_size c <= base t + span c /\
          (flag gfp SLAB_DMA = true -> s_dma t = true)
    | Grow => k' = cache s /\ exists l, chain (cache s) l /\
        forall p t, p ∈ l -> slabs (cache s) !! p = Some t -> s_freep t = 0 \/ flag gfp SLAB_DMA = true /\ s_dma t = false
    | Corrupt => False
    end.
Proof.
  intros Hs Hl Hc Hr. destruct (created_ok _ _ _ _ _ _ _ _ Hs Hl Hc) as [Hok Horg]. destruct (reachable_inv c Hok dma s Hr) as (a & b & z & F & [Hk Hlv Hnd]).
  destruct (alloc_ok c Hok _ _ _ _ _ _ gfp Hk) as (r & k' & E & Hres). exists r, k'. split; [done|]. pose proof (ci_core _ _ _ _ _ _ _ Hk) as Hco. destruct r as [o| |]; [| |done].
  - destruct Hres as (p & t & i & fl & n & a' & b' & z' & Hp & Ht & HF & -> & _ & _ & _ & Hdma). assert (p ∈ a ++ b ++ z) as Hpl by set_solver.
    destruct (co_slab _ _ _ _ _ Hco p Hpl) as (t' & Ht' & Htok). assert (t' = t) as -> by congruence. rewrite HF in Htok.
    pose proof (so_range _ _ _ _ _ _ Htok) as [Hi _]%Forall_cons. pose proof (size_in_stride c). split.
    + apply Forall_forall. intros o' Ho'. apply Hlv in Ho' as (q & u & j & Hq & Hu & Hj & Hn & ->).
      destruct (objects_apart c Hok _ _ _ _ _ _ _ _ _ _ Hco Hpl Hq Ht Hu Hi Hj) as [[-> ->]|Hd]; [exfalso; apply Hn; rewrite HF; by left|]. lia.
    + exists p, t. pose proof (obj_range c Hok i Hi). pose proof (mgmt_pos c). pose proof (so_fits _ _ _ _ _ _ Htok).
      split; [done|]. split; [apply (so_magic _ _ _ _ _ _ Htok)|]. unfold base, obj_addr. split; [lia|]. split; [lia|done].
  - destruct Hres as [-> Hn]. split; [done|]. exists (a ++ b ++ z). split; [apply Hco|]. intros p t Hp Ht.
    destruct (co_slab _ _ _ _ _ Hco p Hp) as (t' & Ht' & Htok). assert (t' = t) as -> by congruence.
    apply elem_of_app in Hp as [Hp|Hp]; [left|right; destruct Hn as [Hn|[Hd Hn]]; [rewrite Hn in Hp; by apply not_elem_of_nil in Hp|split; [done|by eapply Hn]]].
    pose proof (st_full _ _ _ _ _ (ci_sorted _ _ _ _ _ _ _ Hk)) as Hfull. rewrite Forall_forall in Hfull. specialize (Hfull p Hp). cbn in Hfull. rewrite Hfull in Htok. exact (so_list _ _ _ _ _ _ Htok).
Qed.

Lemma alloc_disjoint_witness : exists r k', alloc_try ex_shape (cache ex_cache) 0 = Some (r, k') /\ r = Object 0x10008 /\ 0x10008 + 100 <= 0x10070.
Proof.
  destruct (alloc_disjoint 100 0 0 64 1 false false ex_shape false ex_cache 0 ltac:(lia) ltac:(lia) ltac:(vm_compute; reflexivity) ex_cache_reachable) as (r & k' & E & _).
  exists r, k'. split; [exact E|]. vm_compute in E. injection E as <- _. split; [reflexivity|lia].
Defined.

(** ** Observations *)

(** Shrinking a cache whose only slab with free objects is free leaves the cache pointing
    to it after its pages are gone. *)
Lemma shrink_dangles :
  match c_run ex_shape [CGrow 0; CGrown 8 0x10000 true 0 0; CAlloc 0; CFree 0x10008; CShrink] ex_start with
  | Some s => c_firstp (cache s) = Some kmem_slab_end /\ c_freep (cache s) <> kmem_slab_end /\ fst <$> alloc_try ex_shape (cache s) 0 = Some Corrupt
  | None => False
  end.
Proof. vm_compute. done. Qed.

(** A request for colours further apart than there is room gives colours two bytes apart,
    so that the words of most slabs are not aligned. *)
Lemma colours_misaligned : exists c, cache_shape 100 64 0 64 1 false false = Some c /\ c_align c = 2 /\ c_colour c = 4.
Proof. eexists. vm_compute. done. Qed.

(** The only free slab is fit for DMA, but the search for something to reap does not see
    it. *)
Lemma reap_overlooks_dma :
  match c_run ex_shape [CGrow 0; CGrown 8 0x10000 true 0 0] ex_start with
  | Some s => exists p t, c_lastp (cache s) = Some p /\ slabs (cache s) !! p = Some t /\ s_dma t = true /\ count_free 9 (cache s) p 0 0 = Some (1, 0)
  | None => False
  end.
Proof. vm_compute. eexists _, _. done. Qed.
